(* ===== verification/_CoqProject ===== *)
-Q . S2P
Prelude.v
Bitfield.v
Ctfser.v
StarGlob.v
Paths.v
Text.v
Vsnprintf.v
Object.v
Value.v
ValueRefs.v
ValueTree.v
ValueOps.v
ParamValid.v
PrioHeap.v
IntRange.v
Mip.v
IrObj.v
FieldClass.v
FieldClassFacts.v
FieldClassOps.v
FieldPath.v
FieldPathFacts.v
FieldPathResolve.v
FieldPathClaims.v
TraceIr.v
TraceIrFacts.v
TraceIrOps.v
TraceIrClaims.v
GraphObj.v
Graph.v
GraphRun.v
GraphConf.v
GraphPorts.v
GraphFaults.v
Clock.v
Field.v
FieldFacts.v
FieldCreate.v
FieldOps.v
FloatConv.v
FieldClaims.v
Utc.v
TrimBounds.v
Msg.v
MsgCreate.v
MsgSeq.v
ClockCorr.v
Muxing.v
Iterator.v
Upstream.v
Muxer.v
Trimmer.v
CtfIr.v
ItemBits.v
ItemBitsFacts.v
ItemState.v
ItemSeq.v
ItemSpec.v
ItemWp.v
ItemSim.v
ItemStep.v
ItemFollow.v
ItemFollowData.v
ItemFollowScopes.v
ItemFollowPackets.v
ItemDecode.v
ItemTotal.v
ItemClaims.v
ItemLeb.v
ItemFaults.v
ItemClock.v
CtfToIr.v
MsgIter.v
MsgIterSpec.v
MsgIterAcc.v
MsgIterField.v
MsgIterFields.v
MsgIterPackets.v
MsgIterDecode.v
MsgIterClaims.v
