(* ===== verification/Prelude.v ===== *)
(** * A verification development for Babeltrace 2

    Babeltrace 2 converts and analyses traces.  Its library ([src/src/lib]) gives
    the objects of a trace, messages and a graph of components that exchange them
    through message iterators; plugins ([src/src/plugins]) are the components;
    [src/src/common], [src/src/ctfser] and [src/src/compat] hold what they share:
    text and path functions, and the writing of binary CTF streams with the
    bit-field macros.  This development models parts of the C and C++ code of these
    layers, function by function, and proves what makes them correct.  Sources are
    named from the root of the repository, under [src/].

    ** Files

    Shared:

    - [Prelude]: machine integers ([wrapu], [wraps], ranges), the option monad whose
      [None] is "outside the model" (failed assertion, abort, undefined behaviour,
      access out of bounds), the assertion macros, C strings, shared tactics and
      hint databases.
    - [Bitfield]: the bit-field macros of [src/src/compat/bitfield.h], generic in
      the unit and value types; class [BitCodec] states what the serializer uses of
      a byte order, with one instance for each.
    - [StarGlob], [Paths], [Text], [Vsnprintf]: the star globbing, path
      normalization, text utilities and custom formatter of
      [src/src/common/common.c].
    - [PrioHeap]: the priority heap of [src/src/cpp-common/bt2c/prio-heap.hpp],
      generic in the elements and the comparator.

    Objects of the library ([src/src/lib]):

    - [Object]: the base objects of [object.h], generic in what contains one (class
      [ObjectBase] with [ObjectBaseLaws]).
    - [Value]: value objects, [value.c], as a store of values with their references;
      [ValueRefs], [ValueTree], [ValueOps]: the theory of their reference counts, of
      the trees that they are, and of whole operations.
    - [ParamValid]: the validation of a component's parameters,
      [src/src/plugins/common/param-validation], on [Value].
    - [IntRange]: the integer range sets of [integer-range-set.c], whose life goes
      through [Object].  [Mip]: the operative protocol version of
      [graph/mip.c], on [IntRange].
    - [IrObj]: the store of the objects of a trace.  [FieldClass], [FieldClassFacts],
      [FieldClassOps]: field classes ([trace-ir/field-class.c]), their structure, and
      a step relation of what a user can do with them.
    - [FieldPath], [FieldPathFacts], [FieldPathResolve], [FieldPathClaims]: field
      paths and their resolution ([trace-ir/field-path.c],
      [resolve-field-path.c]).
    - [TraceIr], [TraceIrFacts], [TraceIrOps], [TraceIrClaims]: trace, stream and
      event classes, traces and streams, on [FieldClass] and [FieldPath]; an abstract
      view of their identifiers and support flags, and a step relation.
    - [Field], [FieldFacts], [FieldCreate], [FieldOps], [FieldClaims], [FloatConv]:
      fields ([trace-ir/field.c]) as trees that follow their classes.
    - [Clock]: clock classes and snapshots, and the conversions between clock values
      and nanoseconds ([src/src/common/safe.h], [src/src/common/common.h],
      [trace-ir/utils.h], [clock-class.c], [clock-snapshot.h]); the [double]
      arithmetic is the Standard Library's specification of binary64.

    Graphs and messages ([src/src/lib/graph]):

    - [GraphObj], [Graph]: graphs, components, ports, connections and the life of
      message iterators on one store; the user's methods and listeners are class
      [GraphUser] and can call the functions of the library.  [GraphRun], [GraphConf],
      [GraphPorts], [GraphFaults]: running, configuring, connecting, and faults.
    - [Msg], [MsgCreate], [MsgSeq]: the messages and the message sequence rules of
      the API documentation; the creation of messages ([message]); the developer-mode
      checks of [iterator.c] on what a "next" method returns.  [Msg] uses the clock
      snapshots of [Clock].
    - [ClockCorr]: the clock correlation validator,
      [src/src/clock-correlation-validator], on the attributes of clock classes.  It
      implements class [CorrelationValidator], which [Iterator] uses.
    - [Iterator]: getting messages and seeking, in [iterator.c], on [MsgSeq] and
      [Clock].  The methods of the user's message iterator class are class
      [UserMethods], and the order of a GLib hash table's entries is an argument.

    Plugins:

    - [Upstream]: what a component uses of the message iterators of its input ports:
      classes [UpstreamIterator] and [SeekableUpstream], which the functions of
      [Iterator] implement, and relation [yields], the messages that one gives.
    - [Muxing], [Muxer]: the comparison of messages of
      [src/src/plugins/common/muxing/muxing.cpp], and the message iterator of the
      muxer, [src/src/plugins/utils/muxer], on [PrioHeap], [Muxing] and [Upstream].
    - [Utc], [TrimBounds], [Trimmer]: [src/src/compat/utc.h], the bounds of the
      trimmer, and its message iterator, [src/src/plugins/utils/trimmer/trimmer.c],
      on [MsgCreate] and [Upstream].
    - [Ctfser]: the CTF stream serializer, [src/src/ctfser/ctfser.h] and
      [ctfser.c], with [src/src/common/mmap-align.h] and [align.h].  System calls
      are class [Os] with the documented behaviour [OsLaws]; GLib's byte swap is
      class [Glib].  It is proved against [BitCodec].
    - [CtfIr], [ItemBits], [ItemState], [ItemSeq]: the decoder of CTF data streams,
      [src/src/plugins/ctf/common/src/item-seq]: the classes that it reads, its
      readers of integers, its state and items, and the handlers of its states, which
      are methods of a small state and exception monad.  The provider of data is class
      [Medium].  A state handler of the code, [_handleXxxState], is [handleXxxState];
      the ones that only differ by the parameters of a template are one definition
      with these parameters, as are their states.
    - [ItemSpec]: a reference decoder, a recursive function on the field classes that
      has the whole data.  [ItemBitsFacts], [ItemWp], [ItemSim], [ItemStep],
      [ItemFollow], [ItemFollowData], [ItemFollowScopes],
      [ItemFollowPackets], [ItemDecode]: the iterator follows it, by a
      calculus of weakest preconditions and a relation between the states and what
      remains to decode.  [ItemTotal]: it ends.  [ItemClaims], [ItemLeb], [ItemClock],
      [ItemFaults]: the results, on a concrete medium for the examples.
    - [MsgIter]: the CTF message iterator,
      [src/src/plugins/ctf/common/src/msg-iter.cpp], in the same monad, on [ItemSeq],
      [MsgCreate] and [Field]: [_handleItem] for an [XxxItem] is [handleXxxItem].  What
      it uses of the library's objects is class [CtfLib], what the pools give it is
      class [Pools], and a field that it keeps is a position in the root field of a
      scope.  [CtfToIr]: the trace IR classes that the classes of a trace are to have,
      of [metadata/metadata-stream-parser.cpp].
    - [MsgIterSpec]: the values of the fields of messages and those of items, and what
      data is for a stream.  [MsgIterAcc]: what is left to handle is acceptable in a
      state, by the weakest preconditions of the handlers.  [MsgIterField],
      [MsgIterFields]: filling fields, at a place of a tree of fields.
      [MsgIterPackets], [MsgIterDecode]: scopes, messages, packets, and all that is
      decoded.  [MsgIterClaims]: the calls, the results, and four faults.

    ** What the theorems show

    - Bit fields: a write changes exactly the bits of the field, a read returns
      their value, and a read after a write gives the value cut to its width, for
      both byte orders, any unit size, signed or not.
    - Serializer: a stream of packets of fields written through the public
      functions is read back, whatever the growth of the file and the moves of the
      memory map; the fast path for byte-aligned integers writes what the bit-field
      path writes; the check of the space left is exact, overflow included.
    - Decoder: whatever the lengths of the buffers that its medium gives, the iterator
      gives the items of the reference decoder and ends as it does, in a bounded
      number of calls, without a failed assertion or an access out of a buffer; when
      the medium asks to try again, at any request, it resumes.  The hypotheses: the
      data are bytes, fewer than 2^62 bits; the medium serves them as the
      documentation of [Medium::buf] says ([MediumServes]); the trace class is one
      that the metadata parsers accept, with two exceptions for faults of the code,
      key fields that are not saved in time and variable-length timestamps
      ([trace_cls_ok]); and the reference decoder does not reach a failed assertion.
      Fixed-length integers have the bits of the field, variable-length ones are those
      of the LEB128 encoding, and the default clock takes the least value not before
      the current one that a timestamp allows.  [ItemFaults] shows six faults.
    - CTF messages: for the data of one stream that the reference decoder decodes
      without an error, the message iterator gives messages that follow the message
      sequence rules, and the values that a user reads in the fields of the packets
      and events are those that are decoded, in order; the number of calls is bounded,
      and no precondition of the library fails.  The hypotheses: there are packets;
      the trace IR classes are the translation of the CTF ones; the strings of the
      shown scopes are in UTF-8, and those scopes have no BLOB, UUID or magic number
      ([plain_stream]); what the packets tell agrees with the class of the stream and
      does not go back in time ([items_ok]); arrays have fewer than 2^31 elements; the
      reference counts of the classes have room; and the pools give unfrozen
      well-typed fields, which may hold anything.  [MsgIterClaims] shows what the
      iterator does without some of them.
    - Globbing: the matching decides the language of the pattern; normalization
      keeps the language and removes double stars.
    - Paths: the loop on parts computes what a stack of parts does, fails exactly
      when the path climbs above the root, and its result is canonical.
    - Text: quoting is undone by the shell's quote removal, and leaves no special
      character of the shell (the list of POSIX) out of quotes; printed URLs parse back
      and parsed URLs are valid; separators and folding are exact and in bounds.
    - Formatter: exact when the text fits; two ways to leave the buffer.
    - Objects: reference counts are the outside references plus the children with
      references, and a tree is released exactly when nothing refers to it.
    - Values: every operation that changes values or references does exactly what its
      contract says and keeps the counts equal to the references, when a replaced
      element does not keep what replaces it alive; putting a reference leaves exactly what can
      still be reached; a copy is the same tree and shares nothing but null; equality
      decides "same tree"; frozen values do not change.  Three faults: comparing
      maps with different keys, replacing an element by itself, and setting a
      frozen boolean.
    - Parameters: the validation ends and decides whether they follow the descriptors;
      an error names the path to something that does not.
    - Range sets: overlaps and equality decide their mathematical meaning; equality
      is not symmetric when a range occurs twice.  Protocol version: the greatest one
      that every component supports, or none exactly when there is none.
    - Field classes: whatever the calls, look-ups by name are exact, options do not
      overlap, labels differ.  Field paths: the resolution gives each reference the
      first path to its class and changes nothing else; the validity check misses
      cases.  Classes, traces and streams: look-ups by identifier are exact, automatic
      identifiers do not clash below 2^32 streams, support flags agree; listeners that
      are added move others.
    - Fields: creation gives a field of the shape of its class and takes a reference of
      a class for each field; whatever is done with a field keeps it well typed, as long
      as the lengths given to dynamic arrays are less than 2^31 (2^32 breaks it); values
      are given back; freezing and resetting reach the whole tree.
    - Graph: running it calls the sinks in turn until they are ended, the graph is
      interrupted or one fails; configuring it tells each sink once, however often it
      is tried; connecting ports links exactly the two ports and the graph, and the rest
      is as the "port connected" methods leave it; these can change anything but that
      connection and its ports, as no function of the library lets them do it.
    - Clocks: the conversion from time to value is exact, with its error cases; it
      is undone by the inverse conversion at 1 GHz; an overflow mark is never
      cleared; the multiplication check does not cover negative offsets.
    - Messages: the automaton of the checks accepts exactly the regular language of
      the rules, per stream, and the check of times is sortedness.
    - Iterators: an automatic seeking to a time succeeds, queues the first messages
      at or after the time, by their clock snapshots, behind messages that begin the
      live streams and packets and the discarded items messages that it cuts; what is
      delivered then follows the message sequence rules, whatever the order of the
      hash table, unless a message of a stream is skipped after a cut one; the queue is
      returned whole, in order, and then the user's method is back; the states are
      those of the documented machine.  Two faults: a second seeking before the queue is
      returned aborts or delivers the old queue, and a cut message can be delivered for
      a stream that ended.
    - Validator: it accepts a sequence of clock classes exactly when they are
      pairwise compatible, for each version of the protocol.
    - Heap: every operation keeps the heap order and the multiset of elements.
    - Muxer: the comparison is a total preorder; the muxer gives a merge of what its
      upstream message iterators give, in a bounded number of calls, and keeps the
      rules of each stream; each call is a step of the merge; what the calls return
      when errors come, and that asking whether the muxer can seek forgets a saved
      error; seeking starts the merge again.
    - Trimmer: the conversion of dates is exact from 1970 to 2038, and before 1970 it
      forgets the leap days up to the date; the trimmer gives
      exactly the messages before the end, with what straddles it cut and the open
      streams ended, in a bounded number of calls, and keeps the rules; and three
      inputs it does not handle: invalid dates, inactivity messages without an end,
      and an upstream message iterator that cannot seek at once.

    ** Loops and bounds

    Loops on data are structural.  The others have fuel, and theorems show that the
    fuel the definitions give is enough: the globbing loop (a measure on both
    positions and the retry position), the path loops (parts left, and parts
    removed), the separator loop (the length of the result), the formatter (the
    length of the format), the retry loops of system calls (the number of pending
    signals), and the walks on the parents of an object (the number of objects).  The
    functions on trees of field classes, of fields and of values have a fuel greater
    than the depth of the tree.  The calls of a graph's listeners and methods nest as
    deep as the fuel of [call_object]; running a graph ends because the sinks do.  The
    loop of an automatic seeking ends when the user's messages do; its fuel is an
    argument, and more than the number of batches before the time is enough.  The
    loops of the heap have the size of the heap as fuel.  A call of the trimmer gets
    at most one batch that it keeps, so fuel 2 is enough once its bounds are set;
    the run of the trimmer needs one call more than there are messages and AGAIN
    statuses, and that of the muxer needs as many as [left_to_do] says.  A call of the
    item sequence iterator handles at most five states ([next_states]), a
    variable-length integer has at most ten bytes ([varLenInt_loop]), the skipping of
    padding reaches the end of a byte at each turn ([skipPadding_loop]), and the
    reference decoder has one bit at least for each event record and packet
    ([enough]).  A call of the message iterator handles at most the items that are
    left, and an item gives at most three messages.
    Integers keep their width: 64-bit unsigned ones wrap; a signed overflow is
    [None].  The host is little-endian with 8-bit bytes, as x86-64 and AArch64 are.

    ** Not modelled

    Logging has no effect here, and the current thread's error only guards
    functions.  Memory allocation succeeds, as GLib aborts otherwise; the library's
    own recovery from a failed allocation is left out.  In the modelled components,
    user attributes, descriptions, BLOB field classes and plain accessors are left
    out, as the manifest says for each.  Not modelled at all, and why: plugin loading
    and the errors of the current thread (pointers to code, text); the parsers of
    command lines, of TSDL and of JSON metadata (generated code, GLib's scanner, a
    vendored library, and text); the concrete media and file descriptors (files and
    sockets); text and details sinks and the debug information filter (printing, ELF
    and DWARF libraries); the legacy writer (deprecated, a second copy of the trace
    objects over the same serializer); bindings and vendored code. *)

From Stdlib Require Export ZArith Lia Bool ZifyBool.
From stdpp Require Export base numbers list option.

#[global] Open Scope Z_scope.

(** * Machine integers *)

(** The value a [w]-bit unsigned object holds after being assigned [z]. *)
Definition wrapu (w z : Z) : Z := z mod 2 ^ w.

(** The value a [w]-bit two's complement object holds after being
    assigned [z]. *)
Definition wraps (w z : Z) : Z := (z + 2 ^ (w - 1)) mod 2 ^ w - 2 ^ (w - 1).

Definition UINT64_MAX : Z := 2 ^ 64 - 1.
Definition INT64_MAX : Z := 2 ^ 63 - 1.
Definition INT64_MIN : Z := - 2 ^ 63.

Definition is_u64 (z : Z) : Prop := 0 <= z <= UINT64_MAX.
Definition is_i64 (z : Z) : Prop := INT64_MIN <= z <= INT64_MAX.

(** * A small option monad notation, for code that may leave the model
    (out-of-bounds access, failed assertion, undefined behaviour). *)

Declare Scope c_scope.
Delimit Scope c_scope with c.
Notation "'do' x <- e1 ; e2" := (match e1 with Some x => e2 | None => None end)
  (at level 10, x pattern, e1 at level 100, e2 at level 200, only parsing) : c_scope.
Notation "'guard_ub' b ; e2" := (if b then e2 else None)
  (at level 10, b at level 100, e2 at level 200, only parsing) : c_scope.
#[global] Open Scope c_scope.

(** [BT_ASSERT_DBG(b)], then [k]: [debug] tells whether the assertions of
    [src/src/common/assert.h] for debug builds are compiled in. *)
Definition BT_ASSERT_DBG {A} (debug b : bool) (k : option A) : option A :=
  if debug && negb b then None else k.

(** [BT_ASSERT_PRE]: a library precondition, always checked.
    [BT_ASSERT_PRE_DEV]: one that only a developer-mode build ([dev]) checks
    ([src/src/lib/assert-cond-base.h]). *)
Definition BT_ASSERT_PRE {A} (b : bool) (k : option A) : option A := guard_ub b; k.
Definition BT_ASSERT_PRE_DEV {A} (dev b : bool) (k : option A) : option A :=
  if dev && negb b then None else k.

(** * Hint databases and tactics *)

Create Rewrite HintDb bt_bits.
Create HintDb bt_len.

(** Splits every boolean [if] of the goal on an arithmetic test. *)
Ltac split_ifs :=
  repeat match goal with
  | |- context [if ?b then _ else _] => destruct b eqn:?
  end.

(** Turns boolean comparisons of the context into propositions. *)
Ltac b2p :=
  repeat match goal with
  | H : (_ && _)%bool = true |- _ => apply andb_true_iff in H as [? ?]
  | H : (_ || _)%bool = false |- _ => apply orb_false_iff in H as [? ?]
  | H : (_ || _)%bool = true |- _ => apply orb_true_iff in H
  | H : (_ && _)%bool = false |- _ => apply andb_false_iff in H
  | H : negb _ = true |- _ => apply negb_true_iff in H
  | H : negb _ = false |- _ => apply negb_false_iff in H
  | H : (_ <? _) = true |- _ => apply Z.ltb_lt in H
  | H : (_ <? _) = false |- _ => apply Z.ltb_ge in H
  | H : (_ <=? _) = true |- _ => apply Z.leb_le in H
  | H : (_ <=? _) = false |- _ => apply Z.leb_gt in H
  | H : (_ =? _) = true |- _ => apply Z.eqb_eq in H
  | H : (_ =? _) = false |- _ => apply Z.eqb_neq in H
  end.

(** [lia] with quotients and remainders by constants. *)
Ltac div_lia := Z.to_euclidean_division_equations; lia.

(** * Generic lemmas on machine integers *)

Lemma wrapu_range w z : 0 <= w -> 0 <= wrapu w z < 2 ^ w.
Proof. intros. apply Z.mod_pos_bound. lia. Qed.

Lemma wraps_range w z : 0 < w -> - 2 ^ (w - 1) <= wraps w z < 2 ^ (w - 1).
Proof.
  intros. unfold wraps.
  pose proof (Z.mod_pos_bound (z + 2 ^ (w - 1)) (2 ^ w) ltac:(lia)).
  assert (2 ^ w = 2 * 2 ^ (w - 1)) by (rewrite <- Z.pow_succ_r; f_equal; lia).
  lia.
Qed.

Lemma wrapu_small w z : 0 <= z < 2 ^ w -> wrapu w z = z.
Proof. apply Z.mod_small. Qed.

Lemma wraps_small w z : 0 < w -> - 2 ^ (w - 1) <= z < 2 ^ (w - 1) -> wraps w z = z.
Proof.
  intros. unfold wraps.
  assert (2 ^ w = 2 * 2 ^ (w - 1)) by (rewrite <- Z.pow_succ_r; f_equal; lia).
  rewrite Z.mod_small; lia.
Qed.

Lemma wraps_mod w z : 0 < w -> wraps w z mod 2 ^ w = z mod 2 ^ w.
Proof.
  intros. unfold wraps. rewrite Zminus_mod_idemp_l.
  f_equal. lia.
Qed.

(** * Bits *)

Lemma testbit_wrapu w z i :
  0 <= w -> 0 <= i -> Z.testbit (wrapu w z) i = (i <? w) && Z.testbit z i.
Proof.
  intros. unfold wrapu. destruct (Z.ltb_spec i w); simpl.
  - by rewrite Z.mod_pow2_bits_low.
  - by rewrite Z.mod_pow2_bits_high by lia.
Qed.

Lemma testbit_high w z i : 0 <= w <= i -> 0 <= z < 2 ^ w -> Z.testbit z i = false.
Proof.
  intros. rewrite <- (Z.mod_small z (2 ^ w)) by lia.
  apply Z.mod_pow2_bits_high. lia.
Qed.

Lemma testbit_sign w z i :
  0 < w -> w - 1 <= i -> - 2 ^ (w - 1) <= z < 2 ^ (w - 1) -> Z.testbit z i = (z <? 0).
Proof.
  intros. destruct (Z.ltb_spec z 0).
  - rewrite <- (Z.lnot_involutive z), Z.lnot_spec by lia.
    rewrite (testbit_high (w - 1)); [done|lia|unfold Z.lnot; lia].
  - apply (testbit_high (w - 1)); lia.
Qed.

Lemma testbit_wraps w z i :
  0 < w -> 0 <= i -> Z.testbit (wraps w z) i = Z.testbit z (Z.min i (w - 1)).
Proof.
  intros Hw Hi.
  assert (Hlow : forall j, 0 <= j < w -> Z.testbit (wraps w z) j = Z.testbit z j).
  { intros j Hj. rewrite <- (Z.mod_pow2_bits_low _ w j) by lia.
    rewrite wraps_mod by lia. by rewrite Z.mod_pow2_bits_low by lia. }
  destruct (Z.le_gt_cases i (w - 1)).
  - rewrite Z.min_l by lia. apply Hlow. lia.
  - rewrite Z.min_r by lia. rewrite <- Hlow by lia.
    pose proof (wraps_range w z Hw).
    rewrite !(testbit_sign w); lia || done.
Qed.

(** * C strings

    An array of characters is a list of integers; a string in it ends with the
    first null character. *)

Definition no_nul (t : list Z) : Prop := Forall (fun c => c <> 0) t.

(** [t] is the C string at the start of [s]. *)
Definition is_cstr (s t : list Z) : Prop := no_nul t /\ exists rest, s = t ++ 0 :: rest.

(** [t] is the string at the start of [s] that ends after [len] characters or at
    the first null character. *)
Definition is_bounded_cstr (s : list Z) (len : nat) (t : list Z) : Prop :=
  no_nul t /\ ((length t = len /\ t `prefix_of` s) \/ ((length t <= len)%nat /\ is_cstr s t)).

(** Characters of [s] before the first null one. *)
Fixpoint cstr_of (s : list Z) : list Z :=
  match s with
  | [] => []
  | c :: s => if c =? 0 then [] else c :: cstr_of s
  end.

Lemma cstr_of_app t rest : no_nul t -> cstr_of (t ++ 0 :: rest) = t.
Proof.
  induction 1 as [|c t Hc _ IH]; simpl; [done|].
  rewrite (proj2 (Z.eqb_neq c 0)) by done. by rewrite IH.
Qed.

Lemma no_nul_lookup t i c : no_nul t -> t !! i = Some c -> c <> 0.
Proof. intros Ht. apply (Forall_lookup_1 _ _ _ _ Ht). Qed.

Lemma is_cstr_lookup s t i :
  is_cstr s t -> (i <= length t)%nat -> s !! i = Some (default 0 (t !! i)).
Proof.
  intros [_ [rest ->]] Hi. destruct (decide (i < length t)%nat) as [Hl|Hl].
  - rewrite lookup_app_l by done. by destruct (lookup_lt_is_Some_2 t i Hl) as [c ->].
  - rewrite (lookup_ge_None_2 t) by lia. replace i with (length t) by lia.
    by rewrite list_lookup_middle.
Qed.

(** * Arrays of GLib *)

(** GLib's [g_ptr_array_remove_index_fast]: the last element takes the place. *)
Definition remove_index_fast {A} (l : list A) (i : nat) : list A :=
  match list.last l with
  | Some x => take (length l - 1) (<[i := x]> l)
  | None => l
  end.

Lemma remove_index_fast_perm {A} (l : list A) i x : l !! i = Some x -> l ≡ₚ x :: remove_index_fast l i.
Proof.
  intros Hi. destruct (list.last l) as [y|] eqn:Hl; [|apply last_None in Hl; by subst].
  unfold remove_index_fast. rewrite Hl. apply last_Some in Hl as [k ->]. rewrite length_app. simpl.
  replace (length k + 1 - 1)%nat with (length k) by lia. destruct (decide (i < length k)%nat) as [Hlt|Hge].
  - rewrite lookup_app_l in Hi by done. rewrite insert_app_l, take_app_le, take_ge by (rewrite ?length_insert; lia).
    rewrite <- (take_drop_middle k i x Hi) at 1. rewrite (insert_take_drop k i y Hlt). solve_Permutation.
  - rewrite lookup_app_r in Hi by lia. apply list_lookup_singleton_Some in Hi as [Hi <-].
    rewrite insert_app_r_alt by lia. rewrite Hi. simpl. rewrite take_app_le, take_ge by lia. solve_Permutation.
Qed.

(** * Filters *)

Section filters.
Context {A : Type} (P : A -> Prop) `{forall x, Decision (P x)}.

Lemma filter_all (l : list A) : (forall x, x ∈ l -> P x) -> filter P l = l.
Proof.
  induction l as [|x l IH]; intros Hl; [done|]. rewrite filter_cons_True by (apply Hl; by left). f_equal.
  apply IH. intros y Hy. apply Hl. by right.
Qed.

Lemma filter_none (l : list A) : (forall x, x ∈ l -> ~ P x) -> filter P l = [].
Proof.
  induction l as [|x l IH]; intros Hl; [done|]. rewrite filter_cons_False by (apply Hl; by left).
  apply IH. intros y Hy. apply Hl. by right.
Qed.
End filters.
