(* ===== verification/Bitfield.v ===== *)
(** Bit-field access macros of [src/src/compat/bitfield.h].

    A buffer is the list of the values of its units (objects of the unsigned
    type [type] given to the macros).  The macros are generic in the unit type
    and in the type of the value; [ctype] carries the width and signedness of
    such a type.  An access outside the buffer is [None].

    The abstract view of a buffer is its sequence of bits, numbered from the
    least significant bit of unit 0 ([le_bit]) or from its most significant bit
    ([be_bit]); the [_spec] lemmas state the macros on that view and the class
    [BitCodec] is the contract that [Ctfser] relies on. *)

From S2P Require Import Prelude.

(** * C integer types *)

Record ctype := CType { ct_width : Z; ct_signed : bool }.

Definition ct_wrap (t : ctype) (z : Z) : Z :=
  if ct_signed t then wraps (ct_width t) z else wrapu (ct_width t) z.

Definition uint8_t := CType 8 false.
Definition uint16_t := CType 16 false.
Definition uint32_t := CType 32 false.
Definition uint64_t := CType 64 false.
Definition int64_t := CType 64 true.

Definition ct_ok (t : ctype) : Prop :=
  ct_width t = 8 \/ ct_width t = 16 \/ ct_width t = 32 \/ ct_width t = 64.

Definition ct_range (t : ctype) (z : Z) : Prop := ct_wrap t z = z.

(** * Masks and shifts *)

Definition _bt_cast_value_to_unsigned (t : ctype) (v : Z) : Z := wrapu (ct_width t) v.

(** Cast of [v], of type [tv], to the unsigned type as wide as [ty]. *)
Definition _bt_cast_value_to_unsigned_type (ty tv : ctype) (v : Z) : Z :=
  wrapu (ct_width ty) (_bt_cast_value_to_unsigned tv v).

Definition _bt_fill_mask (t : ctype) : Z := ct_wrap t (Z.lnot 0).

Definition _bt_lshift (t : ctype) (v shift : Z) : Z :=
  ct_wrap t (wrapu 64 (Z.shiftl (_bt_cast_value_to_unsigned t v) shift)).

Definition _bt_make_mask_complement (t : ctype) (length : Z) : Z :=
  _bt_lshift t (_bt_fill_mask t) length.

Definition _bt_make_mask (t : ctype) (length : Z) : Z :=
  ct_wrap t (Z.lnot (_bt_make_mask_complement t length)).

(** The [(-1 >> 1) == -1] branch: the compiler's [>>] carries the sign. *)
Definition _bt_rshift (v shift : Z) : Z := Z.shiftr v shift.

Definition _bt_safe_rshift (t : ctype) (v shift : Z) : Z :=
  let nr_partial_shifts := shift / (ct_width t - 1) in
  let leftover_bits := shift mod (ct_width t - 1) in
  _bt_rshift (Nat.iter (Z.to_nat nr_partial_shifts)
                (fun v => _bt_rshift v (ct_width t - 1)) v) leftover_bits.

Definition _bt_safe_lshift (t : ctype) (v shift : Z) : Z :=
  let nr_partial_shifts := shift / (ct_width t - 1) in
  let leftover_bits := shift mod (ct_width t - 1) in
  _bt_lshift t (Nat.iter (Z.to_nat nr_partial_shifts)
                  (fun v => _bt_lshift t v (ct_width t - 1)) v) leftover_bits.

(** * Buffers *)

Definition ptr_get (b : list Z) (i : Z) : option Z :=
  if 0 <=? i then b !! Z.to_nat i else None.

Definition ptr_set (b : list Z) (i x : Z) : option (list Z) :=
  if (0 <=? i) && (i <? Z.of_nat (length b)) then Some (<[Z.to_nat i := x]> b) else None.

(** [_ptr[u] &= mask; _ptr[u] |= cmask;] *)
Definition masked_store (t : ctype) (b : list Z) (u mask cmask : Z) : option (list Z) :=
  do x <- ptr_get b u;
  ptr_set b u (ct_wrap t (Z.lor (ct_wrap t (Z.land x mask)) cmask)).

(** * Writing *)

(** [for (; this_unit < end_unit - 1; this_unit++)], [n] iterations. *)
Fixpoint write_le_units (ty tv : ctype) (n : nat) (b : list Z) (this_unit v : Z)
  : option (list Z * Z) :=
  match n with
  | O => Some (b, v)
  | S n =>
      do b <- ptr_set b this_unit (ct_wrap ty v);
      write_le_units ty tv n b (this_unit + 1) (_bt_safe_rshift tv v (ct_width ty))
  end.

Definition _bt_bitfield_write_le (ty tv : ctype) (ptr : list Z) (start length v : Z)
  : option (list Z) :=
  let ts := ct_width ty in
  if length =? 0 then Some ptr else
  let end_ := wrapu 64 (start + length) in
  let start_unit := start / ts in
  let end_unit := wrapu 64 (end_ + (ts - 1)) / ts in
  let v := if length <? ct_width tv
           then ct_wrap tv (Z.land v (_bt_make_mask tv length)) else v in
  if start_unit =? end_unit - 1 then
    let mask := _bt_make_mask ty (start mod ts) in
    let mask := if negb (end_ mod ts =? 0)
                then Z.lor mask (_bt_make_mask_complement ty (end_ mod ts)) else mask in
    let cmask := _bt_lshift ty (ct_wrap ty v) (start mod ts) in
    let cmask := ct_wrap ty (Z.land cmask (Z.lnot mask)) in
    masked_store ty ptr start_unit mask cmask
  else
    do (ptr, v, this_unit) <-
      (if negb (start mod ts =? 0) then
         let cshift := start mod ts in
         let mask := _bt_make_mask ty cshift in
         let cmask := _bt_lshift ty (ct_wrap ty v) cshift in
         let cmask := ct_wrap ty (Z.land cmask (Z.lnot mask)) in
         do ptr <- masked_store ty ptr start_unit mask cmask;
         Some (ptr, _bt_safe_rshift tv v (ts - cshift), start_unit + 1)
       else Some (ptr, v, start_unit));
    let n := Z.to_nat (end_unit - 1 - this_unit) in
    do (ptr, v) <- write_le_units ty tv n ptr this_unit v;
    let this_unit := this_unit + Z.of_nat n in
    if negb (end_ mod ts =? 0) then
      let mask := _bt_make_mask_complement ty (end_ mod ts) in
      let cmask := ct_wrap ty (Z.land (ct_wrap ty v) (Z.lnot mask)) in
      masked_store ty ptr this_unit mask cmask
    else ptr_set ptr this_unit (ct_wrap ty v).

(** [for (; this_unit >= start_unit + 1; this_unit--)], [n] iterations. *)
Fixpoint write_be_units (ty tv : ctype) (n : nat) (b : list Z) (this_unit v : Z)
  : option (list Z * Z) :=
  match n with
  | O => Some (b, v)
  | S n =>
      do b <- ptr_set b this_unit (ct_wrap ty v);
      write_be_units ty tv n b (this_unit - 1) (_bt_safe_rshift tv v (ct_width ty))
  end.

Definition _bt_bitfield_write_be (ty tv : ctype) (ptr : list Z) (start length v : Z)
  : option (list Z) :=
  let ts := ct_width ty in
  if length =? 0 then Some ptr else
  let end_ := wrapu 64 (start + length) in
  let start_unit := start / ts in
  let end_unit := wrapu 64 (end_ + (ts - 1)) / ts in
  let v := if length <? ct_width tv
           then ct_wrap tv (Z.land v (_bt_make_mask tv length)) else v in
  let this_unit := end_unit - 1 in
  if start_unit =? end_unit - 1 then
    let mask := _bt_make_mask ty ((ts - end_ mod ts) mod ts) in
    let mask := if negb (start mod ts =? 0)
                then Z.lor mask (_bt_make_mask_complement ty (ts - start mod ts)) else mask in
    let cmask := _bt_lshift ty (ct_wrap ty v) ((ts - end_ mod ts) mod ts) in
    let cmask := ct_wrap ty (Z.land cmask (Z.lnot mask)) in
    masked_store ty ptr this_unit mask cmask
  else
    do (ptr, v, this_unit) <-
      (if negb (end_ mod ts =? 0) then
         let cshift := end_ mod ts in
         let mask := _bt_make_mask ty (ts - cshift) in
         let cmask := _bt_lshift ty (ct_wrap ty v) (ts - cshift) in
         let cmask := ct_wrap ty (Z.land cmask (Z.lnot mask)) in
         do ptr <- masked_store ty ptr this_unit mask cmask;
         Some (ptr, _bt_safe_rshift tv v cshift, this_unit - 1)
       else Some (ptr, v, this_unit));
    let n := Z.to_nat (this_unit - start_unit) in
    do (ptr, v) <- write_be_units ty tv n ptr this_unit v;
    let this_unit := this_unit - Z.of_nat n in
    if negb (start mod ts =? 0) then
      let mask := _bt_make_mask_complement ty (ts - start mod ts) in
      let cmask := ct_wrap ty (Z.land (ct_wrap ty v) (Z.lnot mask)) in
      masked_store ty ptr this_unit mask cmask
    else ptr_set ptr this_unit (ct_wrap ty v).

(** * Reading *)

(** [_bt_safe_lshift(v, n); v |= cast(x);] *)
Definition append_bits (ty tv : ctype) (v n x : Z) : Z :=
  ct_wrap tv (Z.lor (_bt_safe_lshift tv v n) (_bt_cast_value_to_unsigned_type tv ty x)).

Fixpoint read_le_units (ty tv : ctype) (n : nat) (b : list Z) (this_unit v : Z) : option Z :=
  match n with
  | O => Some v
  | S n =>
      do x <- ptr_get b this_unit;
      read_le_units ty tv n b (this_unit - 1) (append_bits ty tv v (ct_width ty) x)
  end.

Definition _bt_bitfield_read_le (ty tv : ctype) (ptr : list Z) (start length : Z)
  : option Z :=
  let ts := ct_width ty in
  if length =? 0 then Some 0 else
  let end_ := wrapu 64 (start + length) in
  let start_unit := start / ts in
  let end_unit := wrapu 64 (end_ + (ts - 1)) / ts in
  let this_unit := end_unit - 1 in
  do x <- ptr_get ptr this_unit;
  let sign_bit := _bt_lshift ty 1 ((if end_ mod ts =? 0 then ts else end_ mod ts) - 1) in
  let v := if ct_signed tv && negb (Z.land x sign_bit =? 0)
           then ct_wrap tv (Z.lnot 0) else 0 in
  if start_unit =? end_unit - 1 then
    let cmask := ct_wrap ty (_bt_rshift x (start mod ts)) in
    let cmask := if negb ((end_ - start) mod ts =? 0)
                 then Z.land cmask (_bt_make_mask ty (end_ - start)) else cmask in
    Some (append_bits ty tv v (end_ - start) cmask)
  else
    do (v, this_unit) <-
      (if negb (end_ mod ts =? 0) then
         let cshift := end_ mod ts in
         let mask := _bt_make_mask ty cshift in
         do x <- ptr_get ptr this_unit;
         Some (append_bits ty tv v cshift (Z.land x mask), this_unit - 1)
       else Some (v, this_unit));
    let n := Z.to_nat (this_unit - start_unit) in
    do v <- read_le_units ty tv n ptr this_unit v;
    let this_unit := this_unit - Z.of_nat n in
    do x <- ptr_get ptr this_unit;
    if negb (start mod ts =? 0) then
      let mask := _bt_make_mask ty (ts - start mod ts) in
      let cmask := ct_wrap ty (_bt_rshift x (start mod ts)) in
      Some (append_bits ty tv v (ts - start mod ts) (Z.land cmask mask))
    else Some (append_bits ty tv v ts x).

Fixpoint read_be_units (ty tv : ctype) (n : nat) (b : list Z) (this_unit v : Z) : option Z :=
  match n with
  | O => Some v
  | S n =>
      do x <- ptr_get b this_unit;
      read_be_units ty tv n b (this_unit + 1) (append_bits ty tv v (ct_width ty) x)
  end.

Definition _bt_bitfield_read_be (ty tv : ctype) (ptr : list Z) (start length : Z)
  : option Z :=
  let ts := ct_width ty in
  if length =? 0 then Some 0 else
  let end_ := wrapu 64 (start + length) in
  let start_unit := start / ts in
  let end_unit := wrapu 64 (end_ + (ts - 1)) / ts in
  let this_unit := start_unit in
  do x <- ptr_get ptr this_unit;
  let sign_bit := _bt_lshift ty 1 (ts - start mod ts - 1) in
  let v := if ct_signed tv && negb (Z.land x sign_bit =? 0)
           then ct_wrap tv (Z.lnot 0) else 0 in
  if start_unit =? end_unit - 1 then
    let cmask := ct_wrap ty (_bt_rshift x ((ts - end_ mod ts) mod ts)) in
    let cmask := if negb ((end_ - start) mod ts =? 0)
                 then Z.land cmask (_bt_make_mask ty (end_ - start)) else cmask in
    Some (append_bits ty tv v (end_ - start) cmask)
  else
    do (v, this_unit) <-
      (if negb (start mod ts =? 0) then
         let cshift := start mod ts in
         let mask := _bt_make_mask ty (ts - cshift) in
         do x <- ptr_get ptr this_unit;
         Some (append_bits ty tv v (ts - cshift) (Z.land x mask), this_unit + 1)
       else Some (v, this_unit));
    let n := Z.to_nat (end_unit - 1 - this_unit) in
    do v <- read_be_units ty tv n ptr this_unit v;
    let this_unit := this_unit + Z.of_nat n in
    do x <- ptr_get ptr this_unit;
    if negb (end_ mod ts =? 0) then
      let mask := _bt_make_mask ty (end_ mod ts) in
      let cmask := ct_wrap ty (_bt_rshift x (ts - end_ mod ts)) in
      Some (append_bits ty tv v (end_ mod ts) (Z.land cmask mask))
    else Some (append_bits ty tv v ts x).

(** The unit type that the public macros select on a little-endian host. *)
Definition bt_bitfield_write_le := _bt_bitfield_write_le.
Definition bt_bitfield_write_be := _bt_bitfield_write_be uint8_t.
Definition bt_bitfield_read_le := _bt_bitfield_read_le.
Definition bt_bitfield_read_be := _bt_bitfield_read_be uint8_t.

(** * The abstract view *)

Definition unit_bit (b : list Z) (u j : Z) : bool :=
  match ptr_get b u with Some x => Z.testbit x j | None => false end.

Definition le_bit (ts : Z) (b : list Z) (k : Z) : bool := unit_bit b (k / ts) (k mod ts).
Definition be_bit (ts : Z) (b : list Z) (k : Z) : bool :=
  unit_bit b (k / ts) (ts - 1 - k mod ts).

(** Every unit holds a value of the (unsigned) unit type. *)
Definition buf_wf (ts : Z) (b : list Z) : Prop := Forall (fun x => 0 <= x < 2 ^ ts) b.

Definition unit_type (t : ctype) : Prop := ct_ok t /\ ct_signed t = false.

(** The value that a [length]-bit field holding the bits [f] (bit [i] being the
    [i]th least significant one) denotes in type [tv]. *)
Definition field_value (tv : ctype) (length : Z) (v : Z) : Z :=
  if length <? ct_width tv
  then ct_wrap (CType length (ct_signed tv)) v
  else v.

Example write_le_ex :
  bt_bitfield_write_le uint8_t uint64_t [0xff; 0xff; 0xff; 0xff] 5 14 0x1234
  = Some [0x9f; 0x46; 0xfa; 0xff].
Proof. vm_compute. reflexivity. Qed.

Example read_be_ex :
  (do b <- bt_bitfield_write_be int64_t [0; 0xff; 0; 0xff] 3 27 (-123456);
   bt_bitfield_read_be int64_t b 3 27) = Some (-123456).
Proof. vm_compute. reflexivity. Qed.

(** * Lemmas: masks and shifts *)

Section masks.
Context (t : ctype) (Ht : ct_ok t).

Lemma ct_width_pos : 8 <= ct_width t <= 64.
Proof using Ht. destruct Ht as [-> | [-> | [-> | ->]]]; lia. Qed.

Lemma testbit_ct_wrap z i :
  0 <= i < ct_width t -> Z.testbit (ct_wrap t z) i = Z.testbit z i.
Proof using Ht.
  pose proof ct_width_pos. intros. unfold ct_wrap. destruct (ct_signed t).
  - rewrite testbit_wraps by lia. f_equal. lia.
  - rewrite testbit_wrapu by lia. rewrite (proj2 (Z.ltb_lt _ _)) by lia. done.
Qed.

(** Above its width, a value repeats its sign (or zero) bit. *)
Lemma testbit_ct_wrap_high z i :
  ct_width t <= i ->
  Z.testbit (ct_wrap t z) i = ct_signed t && Z.testbit z (ct_width t - 1).
Proof using Ht.
  pose proof ct_width_pos. intros. unfold ct_wrap. destruct (ct_signed t); simpl.
  - rewrite testbit_wraps by lia. f_equal. lia.
  - rewrite testbit_wrapu by lia. rewrite (proj2 (Z.ltb_ge _ _)) by lia. done.
Qed.

Lemma testbit_lshift v s i :
  0 <= s -> 0 <= i < ct_width t ->
  Z.testbit (_bt_lshift t v s) i = (s <=? i) && Z.testbit v (i - s).
Proof using Ht.
  pose proof ct_width_pos. intros. unfold _bt_lshift, _bt_cast_value_to_unsigned.
  rewrite testbit_ct_wrap, testbit_wrapu, Z.shiftl_spec by lia.
  rewrite (proj2 (Z.ltb_lt i 64)) by lia. simpl.
  destruct (Z.leb_spec s i); simpl; [|apply Z.testbit_neg_r; lia].
  rewrite testbit_wrapu by lia. rewrite (proj2 (Z.ltb_lt _ _)) by lia. done.
Qed.

Lemma testbit_fill_mask i : 0 <= i < ct_width t -> Z.testbit (_bt_fill_mask t) i = true.
Proof using Ht.
  intros. unfold _bt_fill_mask. rewrite testbit_ct_wrap, Z.lnot_spec, Z.testbit_0_l by lia.
  done.
Qed.

Lemma testbit_make_mask_complement len i :
  0 <= len -> 0 <= i < ct_width t ->
  Z.testbit (_bt_make_mask_complement t len) i = (len <=? i).
Proof using Ht.
  intros. unfold _bt_make_mask_complement. rewrite testbit_lshift by lia.
  destruct (Z.leb_spec len i); simpl; [|done]. apply testbit_fill_mask. lia.
Qed.

Lemma testbit_make_mask len i :
  0 <= len -> 0 <= i < ct_width t -> Z.testbit (_bt_make_mask t len) i = (i <? len).
Proof using Ht.
  intros. unfold _bt_make_mask.
  rewrite testbit_ct_wrap, Z.lnot_spec, testbit_make_mask_complement by lia.
  destruct (Z.leb_spec len i), (Z.ltb_spec i len); done || lia.
Qed.

Lemma make_mask_ones len :
  0 <= len < ct_width t -> _bt_make_mask t len = Z.ones len.
Proof using Ht.
  intros. apply Z.bits_inj'. intros i Hi.
  destruct (Z.lt_ge_cases i (ct_width t)).
  - rewrite testbit_make_mask, Z.testbit_ones_nonneg by lia. done.
  - unfold _bt_make_mask. rewrite testbit_ct_wrap_high, Z.ones_spec_high by lia.
    rewrite Z.lnot_spec, testbit_make_mask_complement by lia.
    rewrite (proj2 (Z.leb_le _ _)) by lia. apply andb_false_r.
Qed.

(** Trimming the value to [len] bits clears its higher bits. *)
Lemma testbit_trim len v i :
  0 <= len < ct_width t -> 0 <= i ->
  Z.testbit (ct_wrap t (Z.land v (_bt_make_mask t len))) i = (i <? len) && Z.testbit v i.
Proof using Ht.
  intros. rewrite make_mask_ones by lia.
  destruct (Z.lt_ge_cases i (ct_width t)).
  - rewrite testbit_ct_wrap, Z.land_spec, Z.testbit_ones_nonneg by lia. apply andb_comm.
  - rewrite testbit_ct_wrap_high, Z.land_spec, Z.testbit_ones_nonneg by lia.
    rewrite !(proj2 (Z.ltb_ge _ _)) by lia. simpl. by rewrite !andb_false_r.
Qed.

Lemma iter_rshift n v s :
  0 <= s -> Nat.iter n (fun v => _bt_rshift v s) v = Z.shiftr v (Z.of_nat n * s).
Proof.
  intros. induction n as [|n IH]; cbn [Nat.iter nat_rect].
  - by rewrite Z.shiftr_0_r.
  - change (nat_rect _ _ _ n) with (Nat.iter n (fun v => _bt_rshift v s) v).
    rewrite IH. unfold _bt_rshift. rewrite Z.shiftr_shiftr by lia. f_equal. lia.
Qed.

Lemma safe_rshift_shiftr v s : 0 <= s -> _bt_safe_rshift t v s = Z.shiftr v s.
Proof using Ht.
  pose proof ct_width_pos. intros. unfold _bt_safe_rshift.
  rewrite iter_rshift by lia. unfold _bt_rshift.
  pose proof (Z.div_pos s (ct_width t - 1)).
  rewrite Z.shiftr_shiftr by (apply Z.mod_pos_bound; lia).
  f_equal. rewrite Z2Nat.id by lia.
  rewrite (Z.div_mod s (ct_width t - 1)) at 3 by lia. lia.
Qed.

Lemma testbit_iter_lshift n v s i :
  0 <= s -> 0 <= i < ct_width t ->
  Z.testbit (Nat.iter n (fun v => _bt_lshift t v s) v) i
  = (Z.of_nat n * s <=? i) && Z.testbit v (i - Z.of_nat n * s).
Proof using Ht.
  intros Hs. revert i. induction n as [|n IH]; intros i Hi; cbn [Nat.iter nat_rect].
  - rewrite (proj2 (Z.leb_le _ _)) by lia. simpl. f_equal. lia.
  - change (nat_rect _ _ _ n) with (Nat.iter n (fun v => _bt_lshift t v s) v).
    rewrite testbit_lshift by lia.
    destruct (Z.leb_spec s i); simpl.
    + rewrite IH by lia. rewrite !Nat2Z.inj_succ, !Z.mul_succ_l.
      destruct (Z.leb_spec (Z.of_nat n * s) (i - s)),
        (Z.leb_spec (Z.of_nat n * s + s) i); try lia; simpl.
      f_equal. lia.
    + rewrite (proj2 (Z.leb_gt _ _)) by (rewrite Nat2Z.inj_succ; nia). done.
Qed.

Lemma testbit_safe_lshift v s i :
  0 <= s -> 0 <= i < ct_width t ->
  Z.testbit (_bt_safe_lshift t v s) i = (s <=? i) && Z.testbit v (i - s).
Proof using Ht.
  pose proof ct_width_pos. intros. unfold _bt_safe_lshift.
  pose proof (Z.div_pos s (ct_width t - 1)).
  pose proof (Z.mod_pos_bound s (ct_width t - 1) ltac:(lia)).
  pose proof (Z.div_mod s (ct_width t - 1) ltac:(lia)) as Hs.
  rewrite testbit_lshift by lia.
  destruct (Z.leb_spec (s mod (ct_width t - 1)) i); simpl.
  - rewrite testbit_iter_lshift, Z2Nat.id by lia.
    destruct (Z.leb_spec s i); destruct (Z.leb_spec (s / (ct_width t - 1) * (ct_width t - 1))
        (i - s mod (ct_width t - 1))); try lia; simpl.
    f_equal. lia.
  - rewrite (proj2 (Z.leb_gt _ _)) by nia. done.
Qed.
End masks.

#[export] Hint Rewrite testbit_ct_wrap testbit_lshift testbit_make_mask
  testbit_make_mask_complement testbit_trim testbit_safe_lshift
  safe_rshift_shiftr Z.land_spec Z.lor_spec Z.lnot_spec Z.shiftr_spec
  using (assumption || lia) : bt_bits.

(** * Lemmas: buffers *)

Lemma ptr_get_Some b i : 0 <= i < Z.of_nat (length b) -> exists x, ptr_get b i = Some x.
Proof.
  intros. unfold ptr_get. rewrite (proj2 (Z.leb_le _ _)) by lia.
  apply lookup_lt_is_Some. lia.
Qed.

Lemma ptr_set_Some b i x :
  0 <= i < Z.of_nat (length b) -> ptr_set b i x = Some (<[Z.to_nat i := x]> b).
Proof.
  intros. unfold ptr_set. rewrite (proj2 (Z.leb_le _ _)), (proj2 (Z.ltb_lt _ _)) by lia.
  done.
Qed.

Lemma ptr_get_insert b i u x :
  0 <= i < Z.of_nat (length b) ->
  ptr_get (<[Z.to_nat i := x]> b) u = if u =? i then Some x else ptr_get b u.
Proof.
  intros. unfold ptr_get. destruct (Z.leb_spec 0 u), (Z.eqb_spec u i); try lia; try done.
  - subst. apply list_lookup_insert_eq. lia.
  - apply list_lookup_insert_ne. lia.
Qed.

Lemma ptr_get_range ts b u x :
  buf_wf ts b -> ptr_get b u = Some x -> 0 <= x < 2 ^ ts.
Proof.
  unfold ptr_get. intros Hb. destruct (0 <=? u); [|done]. intros.
  by eapply Forall_lookup in Hb; eauto.
Qed.

Lemma unit_bit_insert b i u j x :
  0 <= i < Z.of_nat (length b) ->
  unit_bit (<[Z.to_nat i := x]> b) u j = if u =? i then Z.testbit x j else unit_bit b u j.
Proof. intros. unfold unit_bit. rewrite ptr_get_insert by lia. by destruct (u =? i). Qed.

Lemma ct_wrap_unsigned t z :
  unit_type t -> 0 <= ct_wrap t z < 2 ^ ct_width t.
Proof.
  intros [Ht Hs]. unfold ct_wrap. rewrite Hs. apply wrapu_range.
  pose proof (ct_width_pos t Ht). lia.
Qed.

Lemma buf_wf_insert t b i z :
  unit_type t -> buf_wf (ct_width t) b -> buf_wf (ct_width t) (<[i := ct_wrap t z]> b).
Proof. intros. apply Forall_insert; [done|]. by apply ct_wrap_unsigned. Qed.

(** [patched ts b b' P f]: [b'] has the shape of [b]; its bit [j] of unit [u] is
    [f u j] where [P u j] and that of [b] elsewhere. *)
Definition patched (ts : Z) (b b' : list Z) (P f : Z -> Z -> bool) : Prop :=
  length b' = length b /\ buf_wf ts b' /\
  forall u j, 0 <= u < Z.of_nat (length b) -> 0 <= j < ts ->
    unit_bit b' u j = if P u j then f u j else unit_bit b u j.

Lemma patched_refl ts b P f :
  buf_wf ts b ->
  (forall u j, 0 <= u < Z.of_nat (length b) -> 0 <= j < ts -> P u j = false) ->
  patched ts b b P f.
Proof. intros Hb HP. split; [done|]. split; [done|]. intros. by rewrite HP. Qed.

Lemma patched_trans ts b0 b1 b2 P Q R f :
  patched ts b0 b1 P f -> patched ts b1 b2 Q f ->
  (forall u j, 0 <= u < Z.of_nat (length b0) -> 0 <= j < ts -> R u j = P u j || Q u j) ->
  patched ts b0 b2 R f.
Proof.
  intros (Hl1 & Hw1 & H1) (Hl2 & Hw2 & H2) HR.
  split; [lia|]. split; [done|]. intros u j Hu Hj.
  rewrite H2, H1, HR by lia. by destruct (P u j), (Q u j).
Qed.

Lemma patched_ext ts b b' P Q f g :
  patched ts b b' P f ->
  (forall u j, 0 <= u < Z.of_nat (length b) -> 0 <= j < ts -> Q u j = P u j) ->
  (forall u j, 0 <= u < Z.of_nat (length b) -> 0 <= j < ts -> Q u j = true -> f u j = g u j) ->
  patched ts b b' Q g.
Proof.
  intros (Hl & Hw & H) HP Hf. split; [done|]. split; [done|]. intros u j Hu Hj.
  specialize (HP u j Hu Hj). specialize (Hf u j Hu Hj). rewrite H by done.
  rewrite HP in *. destruct (P u j); [auto|done].
Qed.

(** Storing bits [lo..hi) of unit [u]. *)
Lemma store_field t b u lo hi mask x f :
  unit_type t -> buf_wf (ct_width t) b -> 0 <= u < Z.of_nat (length b) ->
  (forall j, 0 <= j < ct_width t -> Z.testbit mask j = negb ((lo <=? j) && (j <? hi))) ->
  (forall j, 0 <= j < ct_width t -> lo <= j < hi -> Z.testbit x j = f u j) ->
  exists b', masked_store t b u mask (ct_wrap t (Z.land x (Z.lnot mask))) = Some b' /\
    patched (ct_width t) b b' (fun u' j => (u' =? u) && (lo <=? j) && (j <? hi)) f.
Proof.
  intros Ht Hb Hu Hmask Hx. unfold masked_store.
  destruct (ptr_get_Some b u Hu) as [y Hy]. rewrite Hy.
  rewrite ptr_set_Some by lia. eexists; split; [done|].
  split; [apply length_insert|]. split; [by apply buf_wf_insert|].
  intros u' j Hu' Hj. rewrite unit_bit_insert by lia.
  destruct (Z.eqb_spec u' u) as [->|]; [|done]. destruct Ht as [Ht _].
  autorewrite with bt_bits. rewrite Hmask by lia. unfold unit_bit. rewrite Hy.
  specialize (Hx j Hj).
  destruct (Z.leb_spec lo j), (Z.ltb_spec j hi); simpl;
    rewrite ?andb_true_r, ?andb_false_r, ?orb_false_r; auto.
Qed.

(** Storing a whole unit. *)
Lemma store_unit t b u z f :
  unit_type t -> buf_wf (ct_width t) b -> 0 <= u < Z.of_nat (length b) ->
  (forall j, 0 <= j < ct_width t -> Z.testbit z j = f u j) ->
  exists b', ptr_set b u (ct_wrap t z) = Some b' /\
    patched (ct_width t) b b' (fun u' _ => u' =? u) f.
Proof.
  intros Ht Hb Hu Hz. rewrite ptr_set_Some by lia. eexists; split; [done|].
  split; [apply length_insert|]. split; [by apply buf_wf_insert|].
  intros u' j Hu' Hj. rewrite unit_bit_insert by lia.
  destruct (Z.eqb_spec u' u) as [->|]; [|done]. destruct Ht as [Ht _].
  autorewrite with bt_bits. auto.
Qed.

(** * Lemmas: writing *)

(** First and last unit of the bit range that ends before bit [e]. *)
Lemma end_unit_cases ts e :
  0 < ts -> 0 <= e ->
  (e mod ts = 0 /\ e = (e + (ts - 1)) / ts * ts) \/
  (0 < e mod ts < ts /\ e = ((e + (ts - 1)) / ts - 1) * ts + e mod ts).
Proof.
  intros. pose proof (Z.mod_pos_bound e ts ltac:(lia)).
  pose proof (Z.div_mod e ts ltac:(lia)).
  destruct (Z.eq_dec (e mod ts) 0) as [He|He]; [left|right]; (split; [lia|]).
  - rewrite <- (Z.div_unique (e + (ts - 1)) ts (e / ts) (ts - 1)); lia.
  - rewrite <- (Z.div_unique (e + (ts - 1)) ts (e / ts + 1) (e mod ts - 1)); lia.
Qed.

Lemma start_unit_eq ts s :
  0 < ts -> s = s / ts * ts + s mod ts /\ 0 <= s mod ts < ts.
Proof.
  intros. split; [|apply Z.mod_pos_bound; lia].
  rewrite (Z.div_mod s ts) at 1 by lia. lia.
Qed.

(** Reduces a goal on unit-coordinate bits to linear arithmetic, the unit
    width being one of 8, 16, 32 and 64. *)
Ltac unit_lia H :=
  destruct H as [H | [H | [H | H]]]; rewrite H in *; lia.

(** Agreement of two values on the bits that a range covers. *)
Lemma trim_agrees tv len v i :
  ct_ok tv -> 0 <= i < len ->
  Z.testbit (if len <? ct_width tv
             then ct_wrap tv (Z.land v (_bt_make_mask tv len)) else v) i
  = Z.testbit v i.
Proof.
  intros. destruct (Z.ltb_spec len (ct_width tv)); [|done].
  autorewrite with bt_bits. by rewrite (proj2 (Z.ltb_lt _ _)) by lia.
Qed.

(** The range of bits [lo..hi) in little-endian and big-endian bit numbering. *)
Definition le_range (ts lo hi u j : Z) : bool :=
  (lo <=? u * ts + j) && (u * ts + j <? hi).
Definition be_range (ts lo hi u j : Z) : bool :=
  (lo <=? u * ts + (ts - 1 - j)) && (u * ts + (ts - 1 - j) <? hi).

Lemma write_le_units_spec ty tv n b u v f :
  unit_type ty -> ct_ok tv -> buf_wf (ct_width ty) b ->
  0 <= u -> u + Z.of_nat n <= Z.of_nat (length b) ->
  (forall i j, 0 <= i < Z.of_nat n -> 0 <= j < ct_width ty ->
     f (u + i) j = Z.testbit v (i * ct_width ty + j)) ->
  exists b', write_le_units ty tv n b u v = Some (b', Z.shiftr v (Z.of_nat n * ct_width ty)) /\
    patched (ct_width ty) b b' (fun u' _ => (u <=? u') && (u' <? u + Z.of_nat n)) f.
Proof.
  intros Hty Htv. pose proof (ct_width_pos ty (proj1 Hty)) as Hw.
  revert b u v. induction n as [|n IH]; intros b u v Hb Hu Hlen Hf.
  - exists b. rewrite Z.shiftr_0_r. split; [done|]. apply patched_refl; [done|cbv beta; intros; lia].
  - cbn [write_le_units].
    destruct (store_unit ty b u v f) as (b1 & -> & Hp1); try done; try lia.
    { intros j Hj. specialize (Hf 0 j). rewrite Z.add_0_r in Hf. rewrite Hf; [f_equal|..]; lia. }
    pose proof Hp1 as (Hl1 & Hb1 & _).
    destruct (IH b1 (u + 1) (_bt_safe_rshift tv v (ct_width ty)))
      as (b2 & -> & Hp2); try done; try lia.
    { intros i j Hi Hj. specialize (Hf (i + 1) j). autorewrite with bt_bits.
      rewrite ?Z.shiftr_spec by nia. replace (u + 1 + i) with (u + (i + 1)) by lia.
      rewrite Hf; [f_equal|..]; lia. }
    autorewrite with bt_bits. rewrite Z.shiftr_shiftr by lia.
    exists b2. split; [do 3 f_equal; lia|].
    eapply patched_trans; [done..|]. cbv beta; intros; lia.
Qed.

Lemma write_be_units_spec ty tv n b u v f :
  unit_type ty -> ct_ok tv -> buf_wf (ct_width ty) b ->
  u < Z.of_nat (length b) -> 0 <= u - Z.of_nat n + 1 ->
  (forall i j, 0 <= i < Z.of_nat n -> 0 <= j < ct_width ty ->
     f (u - i) j = Z.testbit v (i * ct_width ty + j)) ->
  exists b', write_be_units ty tv n b u v = Some (b', Z.shiftr v (Z.of_nat n * ct_width ty)) /\
    patched (ct_width ty) b b' (fun u' _ => (u - Z.of_nat n <? u') && (u' <=? u)) f.
Proof.
  intros Hty Htv. pose proof (ct_width_pos ty (proj1 Hty)) as Hw.
  revert b u v. induction n as [|n IH]; intros b u v Hb Hu Hlen Hf.
  - exists b. rewrite Z.shiftr_0_r. split; [done|]. apply patched_refl; [done|cbv beta; intros; lia].
  - cbn [write_be_units].
    destruct (store_unit ty b u v f) as (b1 & -> & Hp1); try done; try lia.
    { intros j Hj. specialize (Hf 0 j). rewrite Z.sub_0_r in Hf. rewrite Hf; [f_equal|..]; lia. }
    pose proof Hp1 as (Hl1 & Hb1 & _).
    destruct (IH b1 (u - 1) (_bt_safe_rshift tv v (ct_width ty)))
      as (b2 & -> & Hp2); try done; try lia.
    { intros i j Hi Hj. specialize (Hf (i + 1) j). autorewrite with bt_bits.
      rewrite ?Z.shiftr_spec by nia. replace (u - 1 - i) with (u - (i + 1)) by lia.
      rewrite Hf; [f_equal|..]; lia. }
    autorewrite with bt_bits. rewrite Z.shiftr_shiftr by lia.
    exists b2. split; [do 3 f_equal; lia|].
    eapply patched_trans; [done..|]. cbv beta; intros; lia.
Qed.

(** Executes the first [masked_store] (resp. [ptr_set]) of the goal, which
    writes bits [lo..hi) (resp. all the bits) of its unit with [f]. *)
Ltac do_store_field lo hi f b' Hp :=
  match goal with |- context [masked_store ?t ?b ?u ?m (ct_wrap _ (Z.land ?x _))] =>
    destruct (store_field t b u lo hi m x f) as (b' & -> & Hp) end.
Ltac do_store_unit f b' Hp :=
  match goal with |- context [ptr_set ?b ?u (ct_wrap ?t ?z)] =>
    destruct (store_unit t b u z f) as (b' & -> & Hp) end.
(** The side conditions on the bits of masks and values. *)
Ltac mask_bits := intros; autorewrite with bt_bits; lia.

Section write.
Context (ty tv : ctype) (Hty : unit_type ty) (Htv : ct_ok tv).
Context (b : list Z) (s len v : Z).
Context (Hb : buf_wf (ct_width ty) b) (Hs : 0 <= s) (Hlen : 0 <= len).
Context (Hfit : s + len <= ct_width ty * Z.of_nat (length b)).
Context (Hmem : ct_width ty * (Z.of_nat (length b) + 1) <= 2 ^ 64).

Lemma write_le_patched :
  exists b', _bt_bitfield_write_le ty tv b s len v = Some b' /\
    patched (ct_width ty) b b' (le_range (ct_width ty) s (s + len))
      (fun u j => Z.testbit v (u * ct_width ty + j - s)).
Proof using All.
  pose proof (ct_width_pos ty (proj1 Hty)) as Hw.
  pose proof (proj1 Hty) as Hts. unfold ct_ok in Hts.
  unfold _bt_bitfield_write_le.
  destruct (Z.eqb_spec len 0) as [->|Hlen0].
  { exists b. split; [done|]. apply patched_refl; [done|]. unfold le_range. intros; lia. }
  rewrite !wrapu_small by (rewrite ?wrapu_small; nia).
  set (v' := if len <? ct_width tv then _ else _).
  assert (Hv' : forall i, 0 <= i < len -> Z.testbit v' i = Z.testbit v i)
    by (intros; by apply trim_agrees).
  clearbody v'.
  set (f := fun u j => Z.testbit v' (u * ct_width ty + j - s)).
  enough (exists b', _ = Some b' /\
    patched (ct_width ty) b b' (le_range (ct_width ty) s (s + len)) f) as (b' & -> & Hp).
  { exists b'. split; [done|]. eapply patched_ext; [done|done|].
    unfold le_range, f. intros. apply Hv'. lia. }
  destruct (start_unit_eq (ct_width ty) s) as [Hse Hsb]; [lia|].
  set (ts := ct_width ty) in *.
  pose proof (end_unit_cases ts (s + len) ltac:(lia) ltac:(lia)) as Hee.
  set (su := s / ts) in *. set (sb := s mod ts) in *.
  set (eb := (s + len) mod ts) in *.
  set (eu := (s + len + (ts - 1)) / ts) in *.
  clearbody su sb eb eu.
  destruct (Z.eqb_spec su (eu - 1)) as [Hsu|Hsu].
  - (* a single unit *)
    set (hi := if eb =? 0 then ts else eb).
    do_store_field sb hi f b' Hp; try done.
    + unit_lia Hts.
    + intros j Hj. subst hi. destruct (Z.eqb_spec eb 0); cbn [negb]; mask_bits.
    + subst hi. intros j Hj Hjb. autorewrite with bt_bits.
      rewrite (proj2 (Z.leb_le _ _)) by lia. cbn [andb].
      autorewrite with bt_bits. unfold f. f_equal. lia.
    + exists b'. split; [done|]. eapply patched_ext; [done| |done].
      unfold le_range. subst hi. intros. cbv beta. destruct (Z.eqb_spec eb 0); unit_lia Hts.
  - (* head *)
    enough (exists b1 v1 u1, (if negb (sb =? 0) then _ else _) = Some (b1, v1, u1) /\
      v1 = Z.shiftr v' (u1 * ts - s) /\ s <= u1 * ts < s + ts /\
      patched ts b b1 (le_range ts s (u1 * ts)) f) as (b1 & v1 & u1 & -> & Hv1 & Hu1 & Hp1).
    + pose proof Hp1 as (Hl1 & Hb1 & _).
      (* middle *)
      set (n := Z.to_nat (eu - 1 - u1)).
      assert (Hn : u1 + Z.of_nat n = eu - 1) by (subst n; unit_lia Hts).
      destruct (write_le_units_spec ty tv n b1 u1 v1 f) as (b2 & -> & Hp2); try done;
        [unit_lia Hts|unit_lia Hts| |].
      { intros i j Hi Hj. subst v1 f ts. autorewrite with bt_bits. cbv beta.
        rewrite ?Z.shiftr_spec by nia. f_equal. lia. }
      assert (Hp : patched ts b b2 (le_range ts s ((eu - 1) * ts)) f).
      { eapply patched_trans; [done..|]. unfold le_range. cbv beta. intros. unit_lia Hts. }
      pose proof Hp as (Hl2 & Hb2 & _). clear Hp1 Hp2.
      (* tail *)
      rewrite Hn. subst v1. rewrite Z.shiftr_shiftr by nia.
      destruct (Z.eqb_spec eb 0); cbn [negb].
      * do_store_unit f b3 Hp3; try done; [unit_lia Hts| |].
        { intros j Hj. rewrite Z.shiftr_spec by lia. unfold f. f_equal. subst ts. nia. }
        exists b3. split; [done|]. eapply patched_trans; [done..|].
        unfold le_range. cbv beta. intros. unit_lia Hts.
      * do_store_field 0 eb f b3 Hp3; try done; [unit_lia Hts|mask_bits| |].
        { intros j Hj Hjb. autorewrite with bt_bits. rewrite ?Z.shiftr_spec by lia.
          unfold f. f_equal. subst ts. nia. }
        exists b3. split; [done|]. eapply patched_trans; [done..|].
        unfold le_range. cbv beta. intros. unit_lia Hts.
    + destruct (Z.eqb_spec sb 0); cbn [negb].
      * exists b, v', su. split; [done|].
        replace (su * ts - s) with 0 by lia. rewrite Z.shiftr_0_r. split; [done|].
        split; [lia|]. apply patched_refl; [done|]. unfold le_range. intros; lia.
      * do_store_field sb ts f b1 Hp1; try done; [unit_lia Hts|mask_bits| |].
        { intros j Hj Hjb. autorewrite with bt_bits.
          rewrite (proj2 (Z.leb_le _ _)) by lia. cbn [andb].
          autorewrite with bt_bits. unfold f. f_equal. lia. }
        exists b1. do 2 eexists. split; [done|]. autorewrite with bt_bits.
        split; [f_equal; lia|]. split; [lia|].
        eapply patched_ext; [done| |done].
        unfold le_range. cbv beta. intros. unit_lia Hts.
Qed.

Lemma write_be_patched :
  exists b', _bt_bitfield_write_be ty tv b s len v = Some b' /\
    patched (ct_width ty) b b' (be_range (ct_width ty) s (s + len))
      (fun u j => Z.testbit v (s + len - 1 - (u * ct_width ty + (ct_width ty - 1 - j)))).
Proof using All.
  pose proof (ct_width_pos ty (proj1 Hty)) as Hw.
  pose proof (proj1 Hty) as Hts. unfold ct_ok in Hts.
  unfold _bt_bitfield_write_be.
  destruct (Z.eqb_spec len 0) as [->|Hlen0].
  { exists b. split; [done|]. apply patched_refl; [done|]. unfold be_range. intros; lia. }
  rewrite !wrapu_small by (rewrite ?wrapu_small; nia).
  set (v' := if len <? ct_width tv then _ else _).
  assert (Hv' : forall i, 0 <= i < len -> Z.testbit v' i = Z.testbit v i)
    by (intros; by apply trim_agrees).
  clearbody v'.
  set (ts := ct_width ty) in *.
  set (f := fun u j => Z.testbit v' (s + len - 1 - (u * ts + (ts - 1 - j)))).
  enough (exists b', _ = Some b' /\ patched ts b b' (be_range ts s (s + len)) f)
    as (b' & -> & Hp).
  { exists b'. split; [done|]. eapply patched_ext; [done|done|].
    unfold be_range, f. intros. apply Hv'. lia. }
  destruct (start_unit_eq ts s) as [Hse Hsb]; [lia|].
  pose proof (end_unit_cases ts (s + len) ltac:(lia) ltac:(lia)) as Hee.
  set (su := s / ts) in *. set (sb := s mod ts) in *.
  set (eb := (s + len) mod ts) in *.
  set (eu := (s + len + (ts - 1)) / ts) in *.
  clearbody su sb eb eu.
  assert (Hlo : (ts - eb) mod ts = if eb =? 0 then 0 else ts - eb).
  { destruct (Z.eqb_spec eb 0) as [->|].
    - rewrite Z.sub_0_r. apply Z_mod_same_full.
    - apply Z.mod_small. lia. }
  rewrite !Hlo. set (lo := if eb =? 0 then 0 else ts - eb).
  assert (Hlo' : 0 <= lo < ts /\ s + len = eu * ts - lo)
    by (subst lo; destruct (Z.eqb_spec eb 0); lia).
  destruct (Z.eqb_spec su (eu - 1)) as [Hsu|Hsu].
  - (* a single unit *)
    do_store_field lo (ts - sb) f b' Hp; try done.
    + unit_lia Hts.
    + intros j Hj. destruct (Z.eqb_spec sb 0); cbn [negb]; mask_bits.
    + intros j Hj Hjb. autorewrite with bt_bits.
      rewrite (proj2 (Z.leb_le _ _)) by lia. cbn [andb].
      autorewrite with bt_bits. unfold f. f_equal. lia.
    + exists b'. split; [done|]. eapply patched_ext; [done| |done].
      unfold be_range. intros. cbv beta. unit_lia Hts.
  - (* the last unit first *)
    enough (exists b1 v1 u1, (if negb (eb =? 0) then _ else _) = Some (b1, v1, u1) /\
      v1 = Z.shiftr v' (s + len - (u1 + 1) * ts) /\
      (u1 + 1) * ts <= s + len < (u1 + 2) * ts /\
      patched ts b b1 (be_range ts ((u1 + 1) * ts) (s + len)) f)
      as (b1 & v1 & u1 & -> & Hv1 & Hu1 & Hp1).
    + pose proof Hp1 as (Hl1 & Hb1 & _).
      set (n := Z.to_nat (u1 - su)).
      assert (Hn : u1 - Z.of_nat n = su) by (subst n; unit_lia Hts).
      destruct (write_be_units_spec ty tv n b1 u1 v1 f) as (b2 & -> & Hp2); try done;
        [unit_lia Hts|unit_lia Hts| |].
      { intros i j Hi Hj. subst v1 f ts. autorewrite with bt_bits. cbv beta.
        rewrite ?Z.shiftr_spec by nia. f_equal. lia. }
      assert (Hp : patched ts b b2 (be_range ts ((su + 1) * ts) (s + len)) f).
      { eapply patched_trans; [done..|]. unfold be_range. cbv beta. intros. unit_lia Hts. }
      pose proof Hp as (Hl2 & Hb2 & _). clear Hp1 Hp2.
      rewrite Hn. subst v1. rewrite Z.shiftr_shiftr by nia.
      destruct (Z.eqb_spec sb 0); cbn [negb].
      * do_store_unit f b3 Hp3; try done; [unit_lia Hts| |].
        { intros j Hj. rewrite Z.shiftr_spec by lia. unfold f. f_equal. subst ts. nia. }
        exists b3. split; [done|]. eapply patched_trans; [done..|].
        unfold be_range. cbv beta. intros. unit_lia Hts.
      * do_store_field 0 (ts - sb) f b3 Hp3; try done; [unit_lia Hts|mask_bits| |].
        { intros j Hj Hjb. autorewrite with bt_bits. rewrite ?Z.shiftr_spec by lia.
          unfold f. f_equal. subst ts. nia. }
        exists b3. split; [done|]. eapply patched_trans; [done..|].
        unfold be_range. cbv beta. intros. unit_lia Hts.
    + subst lo. destruct (Z.eqb_spec eb 0); cbn [negb].
      * exists b, v', (eu - 1). split; [done|].
        replace (s + len - (eu - 1 + 1) * ts) with 0 by lia. rewrite Z.shiftr_0_r.
        split; [done|]. split; [lia|]. apply patched_refl; [done|].
        unfold be_range. intros; lia.
      * do_store_field (ts - eb) ts f b1 Hp1; try done; [unit_lia Hts|mask_bits| |].
        { intros j Hj Hjb. autorewrite with bt_bits.
          rewrite (proj2 (Z.leb_le _ _)) by lia. cbn [andb].
          autorewrite with bt_bits. unfold f. f_equal. lia. }
        exists b1. do 2 eexists. split; [done|]. autorewrite with bt_bits.
        split; [f_equal; lia|]. split; [lia|].
        eapply patched_ext; [done| |done].
        unfold be_range. cbv beta. intros. unit_lia Hts.
Qed.
End write.

(** * Lemmas: reading *)

Lemma ct_wrap_unsigned_id t x :
  unit_type t -> 0 <= x < 2 ^ ct_width t -> ct_wrap t x = x.
Proof. intros [_ Hs] Hx. unfold ct_wrap. rewrite Hs. by apply wrapu_small. Qed.

Lemma shiftr_range x n w : 0 <= n -> 0 <= x < 2 ^ w -> 0 <= Z.shiftr x n < 2 ^ w.
Proof.
  intros Hn Hx. rewrite Z.shiftr_div_pow2 by lia.
  pose proof (Z.pow_pos_nonneg 2 n ltac:(lia) ltac:(lia)).
  split; [apply Z.div_pos; lia|]. apply Z.div_lt_upper_bound; nia.
Qed.

(** [(x >> lo) & mask(n)] *)
Lemma testbit_extract t x lo n i :
  unit_type t -> 0 <= x < 2 ^ ct_width t -> 0 <= lo -> 0 <= n < ct_width t -> 0 <= i ->
  Z.testbit (Z.land (ct_wrap t (_bt_rshift x lo)) (_bt_make_mask t n)) i
  = (i <? n) && Z.testbit x (i + lo).
Proof.
  intros Ht Hx Hlo Hn Hi. unfold _bt_rshift.
  rewrite ct_wrap_unsigned_id by (done || apply shiftr_range; lia).
  rewrite Z.land_spec, make_mask_ones, Z.testbit_ones_nonneg, Z.shiftr_spec
    by (apply Ht || lia).
  apply andb_comm.
Qed.

Lemma land_lshift_one t x p :
  unit_type t -> 0 <= p < ct_width t ->
  negb (Z.land x (_bt_lshift t 1 p) =? 0) = Z.testbit x p.
Proof.
  intros Ht Hp. pose proof (ct_width_pos t (proj1 Ht)) as Hw.
  assert (Hb : forall i, 0 <= i -> Z.testbit (_bt_lshift t 1 p) i = (i =? p)).
  { intros i Hi. destruct (Z.lt_ge_cases i (ct_width t)).
    - destruct Ht. rewrite testbit_lshift by (done || lia).
      destruct (Z.eqb_spec i p) as [->|].
      + rewrite Z.sub_diag. rewrite (proj2 (Z.leb_le _ _)) by lia. done.
      + destruct (Z.leb_spec p i); simpl; [|done].
        apply (testbit_high 1); lia.
    - unfold _bt_lshift. rewrite testbit_ct_wrap_high by (apply Ht || lia).
      destruct Ht as [_ ->]. simpl. lia. }
  destruct (Z.testbit x p) eqn:Hx.
  - apply negb_true_iff, Z.eqb_neq. intros H0.
    apply (f_equal (fun z => Z.testbit z p)) in H0.
    rewrite Z.land_spec, Hx, Hb, Z.eqb_refl, Z.testbit_0_l in H0 by lia. done.
  - apply negb_false_iff, Z.eqb_eq. apply Z.bits_inj'. intros i Hi.
    rewrite Z.land_spec, Hb, Z.testbit_0_l by lia.
    destruct (Z.eqb_spec i p) as [->|]; [by rewrite Hx|apply andb_false_r].
Qed.

Lemma testbit_append ty tv v n x i :
  ct_ok ty -> ct_ok tv -> 0 <= x < 2 ^ ct_width ty -> 0 <= n -> 0 <= i < ct_width tv ->
  (forall i, n <= i -> Z.testbit x i = false) ->
  Z.testbit (append_bits ty tv v n x) i
  = if i <? n then Z.testbit x i else Z.testbit v (i - n).
Proof.
  intros Hty Htv Hx Hn Hi Hhi. unfold append_bits.
  pose proof (ct_width_pos ty Hty). pose proof (ct_width_pos tv Htv).
  rewrite testbit_ct_wrap, Z.lor_spec, testbit_safe_lshift by (done || lia).
  unfold _bt_cast_value_to_unsigned_type, _bt_cast_value_to_unsigned.
  rewrite (wrapu_small (ct_width ty)), testbit_wrapu by lia.
  rewrite (proj2 (Z.ltb_lt i (ct_width tv))) by lia. simpl.
  destruct (Z.ltb_spec i n).
  - rewrite (proj2 (Z.leb_gt _ _)) by lia. done.
  - rewrite (proj2 (Z.leb_le _ _)), Hhi by lia. apply orb_false_r.
Qed.

Lemma append_bits_range ty tv v n x :
  ct_ok tv -> ct_range tv (append_bits ty tv v n x).
Proof.
  intros Htv. pose proof (ct_width_pos tv Htv). unfold ct_range, append_bits, ct_wrap.
  destruct (ct_signed tv).
  - apply wraps_small, wraps_range; lia.
  - apply wrapu_small, wrapu_range. lia.
Qed.

(** [reads tv v m bit sgn]: [v] holds the [m] bits [bit 0 .. bit (m-1)] followed
    by copies of [sgn]. *)
Definition reads (tv : ctype) (v m : Z) (bit : Z -> bool) (sgn : bool) : Prop :=
  forall i, 0 <= i < ct_width tv -> Z.testbit v i = if i <? m then bit i else sgn.

Lemma reads_append ty tv v m bit sgn n x bit' k :
  ct_ok ty -> ct_ok tv -> reads tv v m bit sgn -> 0 <= m -> 0 <= n ->
  0 <= x < 2 ^ ct_width ty ->
  (forall i, 0 <= i -> Z.testbit x i = (i <? n) && bit' i) ->
  (forall i, n <= i -> bit' i = bit (i - n)) ->
  k = m + n -> reads tv (append_bits ty tv v n x) k bit' sgn.
Proof.
  intros Hty Htv Hv Hm Hn Hx Hxb Hbit -> i Hi.
  rewrite testbit_append by
    (try done; intros k Hk; rewrite Hxb, (proj2 (Z.ltb_ge _ _)) by lia; done).
  destruct (Z.ltb_spec i n).
  - rewrite Hxb, (proj2 (Z.ltb_lt i n)), (proj2 (Z.ltb_lt i (m + n))) by lia. done.
  - rewrite Hv, Hbit by lia. by replace (i - n <? m) with (i <? m + n) by lia.
Qed.

Lemma reads_init tv sgn bit :
  ct_ok tv -> ct_signed tv || negb sgn ->
  reads tv (if ct_signed tv && sgn then ct_wrap tv (Z.lnot 0) else 0) 0 bit sgn.
Proof.
  intros Htv Hs i Hi. rewrite (proj2 (Z.ltb_ge _ _)) by lia.
  destruct (ct_signed tv), sgn; simpl in *; try done; rewrite ?Z.testbit_0_l; try done.
  rewrite testbit_ct_wrap, Z.lnot_spec, Z.testbit_0_l by (done || lia). done.
Qed.

Lemma unit_bit_get b u x j : ptr_get b u = Some x -> unit_bit b u j = Z.testbit x j.
Proof. intros H. unfold unit_bit. by rewrite H. Qed.

Lemma le_bit_unit ts b u j : 0 <= j < ts -> le_bit ts b (u * ts + j) = unit_bit b u j.
Proof.
  intros. unfold le_bit.
  rewrite <- (Z.div_unique (u * ts + j) ts u j), <- (Z.mod_unique (u * ts + j) ts u j)
    by lia. done.
Qed.

Lemma be_bit_unit ts b u j :
  0 <= j < ts -> be_bit ts b (u * ts + (ts - 1 - j)) = unit_bit b u j.
Proof.
  intros. unfold be_bit.
  rewrite <- (Z.div_unique (u * ts + (ts - 1 - j)) ts u (ts - 1 - j)),
    <- (Z.mod_unique (u * ts + (ts - 1 - j)) ts u (ts - 1 - j)) by lia.
  f_equal. lia.
Qed.

Lemma read_le_units_spec ty tv n b u v m bit sgn :
  unit_type ty -> ct_ok tv -> buf_wf (ct_width ty) b ->
  u < Z.of_nat (length b) -> 0 <= u - Z.of_nat n + 1 -> 0 <= m ->
  reads tv v m (fun i => bit ((u + 1) * ct_width ty + i)) sgn ->
  (forall u' j, 0 <= j < ct_width ty -> u - Z.of_nat n < u' <= u ->
     bit (u' * ct_width ty + j) = unit_bit b u' j) ->
  exists v', read_le_units ty tv n b u v = Some v' /\
    reads tv v' (m + Z.of_nat n * ct_width ty)
      (fun i => bit ((u + 1 - Z.of_nat n) * ct_width ty + i)) sgn.
Proof.
  intros Hty Htv Hb. pose proof (ct_width_pos ty (proj1 Hty)) as Hw.
  revert u v m. induction n as [|n IH]; intros u v m Hu Hn Hm Hv Hbit.
  - exists v. split; [done|]. rewrite Z.add_0_r, Z.sub_0_r. done.
  - cbn [read_le_units]. destruct (ptr_get_Some b u) as [x Hx]; [lia|]. rewrite Hx.
    pose proof (ptr_get_range _ _ _ _ Hb Hx) as Hxr.
    edestruct (IH (u - 1)) as (v' & -> & Hv'); [lia|lia| | |intros; apply Hbit; lia|].
    3: { exists v'. split; [done|].
         replace (m + Z.of_nat (S n) * ct_width ty)
           with (m + ct_width ty + Z.of_nat n * ct_width ty) by lia.
         replace (u + 1 - Z.of_nat (S n)) with (u - 1 + 1 - Z.of_nat n) by lia. exact Hv'. }
    + lia.
    + eapply reads_append; try done; [apply Hty|lia| |].
      * intros i Hi. destruct (Z.ltb_spec i (ct_width ty)); simpl.
        -- replace (u - 1 + 1) with u by lia. rewrite Hbit by lia.
           by rewrite (unit_bit_get _ _ _ _ Hx).
        -- apply (testbit_high (ct_width ty)); lia.
      * intros. cbv beta. f_equal. lia.
Qed.

Lemma read_be_units_spec ty tv n b u v m bit sgn :
  unit_type ty -> ct_ok tv -> buf_wf (ct_width ty) b ->
  0 <= u -> u + Z.of_nat n <= Z.of_nat (length b) -> 0 <= m ->
  reads tv v m (fun i => bit (u * ct_width ty - 1 - i)) sgn ->
  (forall u' j, 0 <= j < ct_width ty -> u <= u' < u + Z.of_nat n ->
     bit (u' * ct_width ty + (ct_width ty - 1 - j)) = unit_bit b u' j) ->
  exists v', read_be_units ty tv n b u v = Some v' /\
    reads tv v' (m + Z.of_nat n * ct_width ty)
      (fun i => bit ((u + Z.of_nat n) * ct_width ty - 1 - i)) sgn.
Proof.
  intros Hty Htv Hb. pose proof (ct_width_pos ty (proj1 Hty)) as Hw.
  revert u v m. induction n as [|n IH]; intros u v m Hu Hn Hm Hv Hbit.
  - exists v. split; [done|]. rewrite !Z.add_0_r. done.
  - cbn [read_be_units]. destruct (ptr_get_Some b u) as [x Hx]; [lia|]. rewrite Hx.
    pose proof (ptr_get_range _ _ _ _ Hb Hx) as Hxr.
    edestruct (IH (u + 1)) as (v' & -> & Hv'); [lia|lia| | |intros; apply Hbit; lia|].
    3: { exists v'. split; [done|].
         replace (m + Z.of_nat (S n) * ct_width ty)
           with (m + ct_width ty + Z.of_nat n * ct_width ty) by lia.
         replace (u + Z.of_nat (S n)) with (u + 1 + Z.of_nat n) by lia. exact Hv'. }
    + lia.
    + eapply reads_append; try done; [apply Hty|lia| |].
      * intros i Hi. destruct (Z.ltb_spec i (ct_width ty)); simpl.
        -- replace ((u + 1) * ct_width ty - 1 - i)
             with (u * ct_width ty + (ct_width ty - 1 - i)) by lia.
           rewrite Hbit by lia. by rewrite (unit_bit_get _ _ _ _ Hx).
        -- apply (testbit_high (ct_width ty)); lia.
      * intros. cbv beta. f_equal. lia.
Qed.

Lemma land_range x m w : 0 <= w -> 0 <= x < 2 ^ w -> 0 <= Z.land x m < 2 ^ w.
Proof.
  intros Hw Hx. assert (0 <= Z.land x m) by (apply Z.land_nonneg; lia).
  split; [done|]. destruct (Z.eq_dec (Z.land x m) 0) as [->|]; [lia|].
  apply Z.log2_lt_pow2; [lia|].
  assert (Z.land x m < 2 ^ w); [|apply Z.log2_lt_pow2; lia].
  rewrite <- (Z.mod_small x (2 ^ w)) by lia.
  rewrite <- Z.land_ones, <- Z.land_assoc, (Z.land_comm _ m), Z.land_assoc, Z.land_ones by lia.
  apply Z.mod_pos_bound. lia.
Qed.

Section read.
Context (ty tv : ctype) (Hty : unit_type ty) (Htv : ct_ok tv).
Context (b : list Z) (s len : Z).
Context (Hb : buf_wf (ct_width ty) b) (Hs : 0 <= s) (Hlen : 0 < len).
Context (Hfit : s + len <= ct_width ty * Z.of_nat (length b)).
Context (Hmem : ct_width ty * (Z.of_nat (length b) + 1) <= 2 ^ 64).

Lemma read_le_reads :
  exists r, _bt_bitfield_read_le ty tv b s len = Some r /\ ct_range tv r /\
    reads tv r len (fun i => le_bit (ct_width ty) b (s + i))
      (ct_signed tv && le_bit (ct_width ty) b (s + len - 1)).
Proof using All.
  pose proof (ct_width_pos ty (proj1 Hty)) as Hw.
  pose proof (proj1 Hty) as Hts. unfold ct_ok in Hts.
  unfold _bt_bitfield_read_le. rewrite (proj2 (Z.eqb_neq len 0)) by lia.
  rewrite !wrapu_small by (rewrite ?wrapu_small; nia).
  set (ts := ct_width ty) in *.
  destruct (start_unit_eq ts s) as [Hse Hsb]; [lia|].
  pose proof (end_unit_cases ts (s + len) ltac:(lia) ltac:(lia)) as Hee.
  set (su := s / ts) in *. set (sb := s mod ts) in *.
  set (eb := (s + len) mod ts) in *.
  set (eu := (s + len + (ts - 1)) / ts) in *.
  clearbody su sb eb eu.
  destruct (ptr_get_Some b (eu - 1)) as [x Hx]; [unit_lia Hts|]. rewrite Hx.
  pose proof (ptr_get_range _ _ _ _ Hb Hx) as Hxr.
  set (ep := if eb =? 0 then ts else eb).
  assert (Hep : s + len = (eu - 1) * ts + ep /\ 0 < ep <= ts)
    by (subst ep; destruct (Z.eqb_spec eb 0); lia).
  set (bit := le_bit ts b). set (sgn := ct_signed tv && bit (s + len - 1)).
  rewrite land_lshift_one by (done || lia).
  assert (Hsgn : Z.testbit x (ep - 1) = bit (s + len - 1)).
  { replace (s + len - 1) with ((eu - 1) * ts + (ep - 1)) by lia. unfold bit.
    rewrite le_bit_unit by lia. by rewrite (unit_bit_get _ _ _ _ Hx). }
  rewrite Hsgn. set (v0 := if ct_signed tv && bit (s + len - 1) then _ else _).
  assert (Hv0 : reads tv v0 0 (fun i => bit (s + len + i)) sgn).
  { subst v0 sgn. generalize (reads_init tv (ct_signed tv && bit (s + len - 1))
      (fun i => bit (s + len + i)) Htv). destruct (ct_signed tv), (bit (s + len - 1)); auto. }
  clearbody v0. replace (s + len - s) with len by lia.
  assert (Hbit : forall u y i, ptr_get b u = Some y -> 0 <= i < ts ->
            Z.testbit y i = bit (u * ts + i)).
  { intros u y i Hy Hi. unfold bit. rewrite le_bit_unit by lia.
    by rewrite (unit_bit_get _ _ _ _ Hy). }
  destruct (Z.eqb_spec su (eu - 1)) as [Hsu|Hsu].
  - (* a single unit *)
    eexists. split; [done|]. split; [by apply append_bits_range|].
    eapply (reads_append ty tv v0 0); [apply Hty|done|exact Hv0|lia|lia| | | |lia].
    + destruct (len mod ts =? 0); cbn [negb].
      * unfold _bt_rshift. rewrite ct_wrap_unsigned_id; try done; apply shiftr_range; lia || done.
      * apply land_range; [lia|]. by apply ct_wrap_unsigned.
    + intros i Hi. destruct (Z.eqb_spec (len mod ts) 0) as [Hl0|Hl0]; cbn [negb].
      * assert (len = ts /\ sb = 0) as [-> ->].
        { pose proof (Z.div_mod len ts ltac:(lia)). split; unit_lia Hts. }
        unfold _bt_rshift. rewrite Z.shiftr_0_r, ct_wrap_unsigned_id by done.
        destruct (Z.ltb_spec i ts); simpl.
        -- rewrite (Hbit _ _ _ Hx) by lia. f_equal. lia.
        -- apply (testbit_high ts); lia.
      * assert (len < ts).
        { destruct (Z.eq_dec len ts) as [->|]; [|unit_lia Hts].
          rewrite Z_mod_same_full in Hl0. done. }
        rewrite testbit_extract by (done || lia).
        destruct (Z.ltb_spec i len); simpl; [|done].
        rewrite (Hbit _ _ _ Hx) by unit_lia Hts. f_equal. lia.
    + intros. cbv beta. f_equal. lia.
  - (* the last unit first *)
    enough (exists v1 u1, (if negb (eb =? 0) then _ else _) = Some (v1, u1) /\
      (u1 + 1) * ts <= s + len < (u1 + 2) * ts /\
      reads tv v1 (s + len - (u1 + 1) * ts) (fun i => bit ((u1 + 1) * ts + i)) sgn)
      as (v1 & u1 & -> & Hu1 & Hv1).
    + set (n := Z.to_nat (u1 - su)).
      assert (Hn : u1 - Z.of_nat n = su) by (subst n; unit_lia Hts).
      destruct (read_le_units_spec ty tv n b u1 v1 (s + len - (u1 + 1) * ts) bit sgn)
        as (v2 & -> & Hv2); try done; [unit_lia Hts|lia|lia| |].
      { intros. unfold bit. by apply le_bit_unit. }
      rewrite Hn. replace (u1 + 1 - Z.of_nat n) with (su + 1) in Hv2 by lia.
      destruct (ptr_get_Some b su) as [y Hy]; [unit_lia Hts|]. rewrite Hy.
      pose proof (ptr_get_range _ _ _ _ Hb Hy) as Hyr.
      fold ts in Hv2.
      destruct (Z.eqb_spec sb 0) as [Hsb0|Hsb0]; cbn [negb];
        (eexists; split; [done|]; split; [by apply append_bits_range|]);
        (eapply reads_append; [apply Hty|done|exact Hv2|lia|lia| | |intros; cbv beta; f_equal; lia|lia]).
      * done.
      * intros i Hi. destruct (Z.ltb_spec i ts); simpl; [|apply (testbit_high ts); lia].
        rewrite (Hbit _ _ _ Hy) by lia. f_equal. lia.
      * apply land_range; [lia|]. by apply ct_wrap_unsigned.
      * intros i Hi. rewrite testbit_extract by (done || lia).
        destruct (Z.ltb_spec i (ts - sb)); simpl; [|done].
        rewrite (Hbit _ _ _ Hy) by lia. f_equal. lia.
    + destruct (Z.eqb_spec eb 0) as [Heb0|Heb0]; cbn [negb].
      * exists v0, (eu - 1). split; [done|]. split; [lia|].
        replace (s + len - (eu - 1 + 1) * ts) with 0 by lia.
        intros i Hi. rewrite Hv0 by lia. by rewrite !(proj2 (Z.ltb_ge i 0)) by lia.
      * do 2 eexists. split; [done|]. split; [lia|].
        eapply reads_append; [apply Hty|done|exact Hv0|lia|lia| | | |lia].
        -- apply land_range; lia || done.
        -- intros i Hi. pose proof (testbit_extract ty x 0 eb i Hty Hxr ltac:(lia) ltac:(lia) Hi) as Ht.
           unfold _bt_rshift in Ht. rewrite Z.shiftr_0_r, ct_wrap_unsigned_id in Ht by done.
           rewrite Ht.
           destruct (Z.ltb_spec i eb); simpl; [|done].
           rewrite Z.add_0_r, (Hbit _ _ _ Hx) by lia. f_equal. lia.
        -- intros. cbv beta. f_equal. lia.
Qed.

Lemma read_be_reads :
  exists r, _bt_bitfield_read_be ty tv b s len = Some r /\ ct_range tv r /\
    reads tv r len (fun i => be_bit (ct_width ty) b (s + len - 1 - i))
      (ct_signed tv && be_bit (ct_width ty) b s).
Proof using All.
  pose proof (ct_width_pos ty (proj1 Hty)) as Hw.
  pose proof (proj1 Hty) as Hts. unfold ct_ok in Hts.
  unfold _bt_bitfield_read_be. rewrite (proj2 (Z.eqb_neq len 0)) by lia.
  rewrite !wrapu_small by (rewrite ?wrapu_small; nia).
  set (ts := ct_width ty) in *.
  destruct (start_unit_eq ts s) as [Hse Hsb]; [lia|].
  pose proof (end_unit_cases ts (s + len) ltac:(lia) ltac:(lia)) as Hee.
  set (su := s / ts) in *. set (sb := s mod ts) in *.
  set (eb := (s + len) mod ts) in *.
  set (eu := (s + len + (ts - 1)) / ts) in *.
  clearbody su sb eb eu.
  assert (Hlo : (ts - eb) mod ts = if eb =? 0 then 0 else ts - eb).
  { destruct (Z.eqb_spec eb 0) as [->|].
    - rewrite Z.sub_0_r. apply Z_mod_same_full.
    - apply Z.mod_small. lia. }
  rewrite !Hlo. set (lo := if eb =? 0 then 0 else ts - eb).
  assert (Hlo' : 0 <= lo < ts /\ s + len = eu * ts - lo)
    by (subst lo; destruct (Z.eqb_spec eb 0); lia).
  destruct (ptr_get_Some b su) as [x Hx]; [unit_lia Hts|]. rewrite Hx.
  pose proof (ptr_get_range _ _ _ _ Hb Hx) as Hxr.
  set (bit := be_bit ts b). set (sgn := ct_signed tv && bit s).
  rewrite land_lshift_one by (done || lia).
  assert (Hbit : forall u y i, ptr_get b u = Some y -> 0 <= i < ts ->
            Z.testbit y i = bit (u * ts + (ts - 1 - i))).
  { intros u y i Hy Hi. unfold bit. rewrite be_bit_unit by lia.
    by rewrite (unit_bit_get _ _ _ _ Hy). }
  assert (Hsgn : Z.testbit x (ts - sb - 1) = bit s)
    by (rewrite (Hbit _ _ _ Hx) by lia; f_equal; lia).
  rewrite Hsgn. set (v0 := if ct_signed tv && bit s then _ else _).
  assert (Hv0 : reads tv v0 0 (fun i => bit (s - 1 - i)) sgn).
  { subst v0 sgn. generalize (reads_init tv (ct_signed tv && bit s)
      (fun i => bit (s - 1 - i)) Htv). destruct (ct_signed tv), (bit s); auto. }
  clearbody v0. replace (s + len - s) with len by lia.
  destruct (Z.eqb_spec su (eu - 1)) as [Hsu|Hsu].
  - (* a single unit *)
    eexists. split; [done|]. split; [by apply append_bits_range|].
    eapply (reads_append ty tv v0 0); [apply Hty|done|exact Hv0|lia|lia| | | |lia].
    + destruct (len mod ts =? 0); cbn [negb].
      * unfold _bt_rshift. rewrite ct_wrap_unsigned_id; try done; apply shiftr_range; lia || done.
      * apply land_range; [lia|]. by apply ct_wrap_unsigned.
    + intros i Hi. destruct (Z.eqb_spec (len mod ts) 0) as [Hl0|Hl0]; cbn [negb].
      * assert (len = ts /\ sb = 0) as [-> ->].
        { pose proof (Z.div_mod len ts ltac:(lia)). split; unit_lia Hts. }
        replace lo with 0 by lia.
        unfold _bt_rshift. rewrite Z.shiftr_0_r, ct_wrap_unsigned_id by done.
        destruct (Z.ltb_spec i ts); simpl.
        -- rewrite (Hbit _ _ _ Hx) by lia. f_equal. lia.
        -- apply (testbit_high ts); lia.
      * assert (len < ts).
        { destruct (Z.eq_dec len ts) as [->|]; [|unit_lia Hts].
          rewrite Z_mod_same_full in Hl0. done. }
        rewrite testbit_extract by (done || lia).
        destruct (Z.ltb_spec i len); simpl; [|done].
        rewrite (Hbit _ _ _ Hx) by unit_lia Hts. f_equal. lia.
    + intros. cbv beta. f_equal. lia.
  - (* the first unit first *)
    enough (exists v1 u1, (if negb (sb =? 0) then _ else _) = Some (v1, u1) /\
      s <= u1 * ts < s + ts /\
      reads tv v1 (u1 * ts - s) (fun i => bit (u1 * ts - 1 - i)) sgn)
      as (v1 & u1 & -> & Hu1 & Hv1).
    + set (n := Z.to_nat (eu - 1 - u1)).
      assert (Hn : u1 + Z.of_nat n = eu - 1) by (subst n; unit_lia Hts).
      destruct (read_be_units_spec ty tv n b u1 v1 (u1 * ts - s) bit sgn)
        as (v2 & -> & Hv2); try done; [unit_lia Hts|unit_lia Hts|lia| |].
      { intros. unfold bit. by apply be_bit_unit. }
      rewrite Hn in *.
      destruct (ptr_get_Some b (eu - 1)) as [y Hy]; [unit_lia Hts|]. rewrite Hy.
      pose proof (ptr_get_range _ _ _ _ Hb Hy) as Hyr.
      fold ts in Hv2. subst lo.
      destruct (Z.eqb_spec eb 0) as [Heb0|Heb0]; cbn [negb];
        (eexists; split; [done|]; split; [by apply append_bits_range|]);
        (eapply reads_append; [apply Hty|done|exact Hv2|lia|lia| | |intros; cbv beta; f_equal; lia|lia]).
      * done.
      * intros i Hi. destruct (Z.ltb_spec i ts); simpl; [|apply (testbit_high ts); lia].
        rewrite (Hbit _ _ _ Hy) by lia. f_equal. lia.
      * apply land_range; [lia|]. by apply ct_wrap_unsigned.
      * intros i Hi. rewrite testbit_extract by (done || lia).
        destruct (Z.ltb_spec i eb); simpl; [|done].
        rewrite (Hbit _ _ _ Hy) by lia. f_equal. lia.
    + destruct (Z.eqb_spec sb 0) as [Hsb0|Hsb0]; cbn [negb].
      * exists v0, su. split; [done|]. split; [lia|].
        replace (su * ts - s) with 0 by lia.
        intros i Hi. rewrite Hv0 by lia. by rewrite !(proj2 (Z.ltb_ge i 0)) by lia.
      * do 2 eexists. split; [done|]. split; [lia|].
        eapply reads_append; [apply Hty|done|exact Hv0|lia|lia| | | |lia].
        -- apply land_range; lia || done.
        -- intros i Hi.
           pose proof (testbit_extract ty x 0 (ts - sb) i Hty Hxr ltac:(lia) ltac:(lia) Hi) as Ht.
           unfold _bt_rshift in Ht. rewrite Z.shiftr_0_r, ct_wrap_unsigned_id in Ht by done.
           rewrite Ht.
           destruct (Z.ltb_spec i (ts - sb)); simpl; [|done].
           rewrite Z.add_0_r, (Hbit _ _ _ Hx) by lia. f_equal. lia.
        -- intros. cbv beta. f_equal. lia.
Qed.
End read.

(** * The bit view of the two codecs *)

Lemma patched_le_bit ty b b' s e v k :
  unit_type ty ->
  patched (ct_width ty) b b' (le_range (ct_width ty) s e)
    (fun u j => Z.testbit v (u * ct_width ty + j - s)) ->
  0 <= k < ct_width ty * Z.of_nat (length b) ->
  le_bit (ct_width ty) b' k =
    if (s <=? k) && (k <? e) then Z.testbit v (k - s) else le_bit (ct_width ty) b k.
Proof.
  intros Hty (_ & _ & H) Hk. pose proof (ct_width_pos ty (proj1 Hty)).
  destruct (start_unit_eq (ct_width ty) k) as [Hku Hkj]; [lia|].
  unfold le_bit. rewrite H by nia. unfold le_range. by rewrite <- Hku.
Qed.

Lemma patched_be_bit ty b b' s e v k :
  unit_type ty ->
  patched (ct_width ty) b b' (be_range (ct_width ty) s e)
    (fun u j => Z.testbit v (e - 1 - (u * ct_width ty + (ct_width ty - 1 - j)))) ->
  0 <= k < ct_width ty * Z.of_nat (length b) ->
  be_bit (ct_width ty) b' k =
    if (s <=? k) && (k <? e) then Z.testbit v (e - 1 - k) else be_bit (ct_width ty) b k.
Proof.
  intros Hty (_ & _ & H) Hk. pose proof (ct_width_pos ty (proj1 Hty)).
  destruct (start_unit_eq (ct_width ty) k) as [Hku Hkj]; [lia|].
  unfold be_bit. rewrite H by nia. unfold be_range.
  replace (ct_width ty - 1 - (ct_width ty - 1 - k mod ct_width ty))
    with (k mod ct_width ty) by lia.
  by rewrite <- Hku.
Qed.

Lemma range_bits_inj t x y :
  ct_ok t -> ct_range t x -> ct_range t y ->
  (forall i, 0 <= i < ct_width t -> Z.testbit x i = Z.testbit y i) -> x = y.
Proof.
  intros Ht Hx Hy H. pose proof (ct_width_pos t Ht). apply Z.bits_inj'. intros i Hi.
  destruct (Z.lt_ge_cases i (ct_width t)); [apply H; lia|].
  rewrite <- Hx, <- Hy, !testbit_ct_wrap_high by done. f_equal. apply H. lia.
Qed.

Lemma field_value_range tv len v : ct_ok tv -> ct_range tv v -> 0 <= len ->
  ct_range tv (field_value tv len v).
Proof.
  intros Htv Hv Hlen. pose proof (ct_width_pos tv Htv).
  unfold field_value. destruct (Z.ltb_spec len (ct_width tv)); [|done].
  unfold ct_range, ct_wrap; cbn [ct_signed ct_width]. destruct (ct_signed tv).
  - apply wraps_small; [lia|].
    assert (2 ^ (len - 1) <= 2 ^ (ct_width tv - 1)) by (apply Z.pow_le_mono_r; lia).
    destruct (Z.eq_dec len 0) as [->|].
    + unfold wraps. change (2 ^ (0 - 1)) with 0. change (2 ^ 0) with 1.
      rewrite Z.mod_1_r. pose proof (Z.pow_pos_nonneg 2 (ct_width tv - 1)). lia.
    + pose proof (wraps_range len v ltac:(lia)). lia.
  - apply wrapu_small. pose proof (wrapu_range len v Hlen).
    assert (2 ^ len <= 2 ^ ct_width tv) by (apply Z.pow_le_mono_r; lia). lia.
Qed.

(** A value read back from the bits that a value left is that value, cut to the
    width of the field. *)
Lemma reads_field_value tv r len bit sgn v :
  ct_ok tv -> ct_range tv r -> ct_range tv v -> 0 < len -> reads tv r len bit sgn ->
  (forall i, 0 <= i < len -> bit i = Z.testbit v i) ->
  sgn = ct_signed tv && Z.testbit v (len - 1) ->
  r = field_value tv len v.
Proof.
  intros Htv Hr Hv Hlen Hrd Hbit ->.
  apply (range_bits_inj tv); [done..|by apply field_value_range; try lia|].
  intros i Hi. rewrite Hrd by done. unfold field_value.
  destruct (Z.ltb_spec i len).
  - rewrite Hbit by lia. destruct (Z.ltb_spec len (ct_width tv)); [|done].
    unfold ct_wrap; cbn [ct_signed ct_width]. destruct (ct_signed tv).
    + rewrite testbit_wraps by lia. f_equal. lia.
    + rewrite testbit_wrapu by lia. by rewrite (proj2 (Z.ltb_lt i len)) by lia.
  - rewrite (proj2 (Z.ltb_lt len (ct_width tv))) by lia.
    unfold ct_wrap; cbn [ct_signed ct_width]. destruct (ct_signed tv); simpl.
    + rewrite testbit_wraps by lia. f_equal. lia.
    + rewrite testbit_wrapu by lia. by rewrite (proj2 (Z.ltb_ge i len)) by lia.
Qed.

Lemma field_value_0 tv v : ct_ok tv -> field_value tv 0 v = 0.
Proof.
  intros Htv. pose proof (ct_width_pos tv Htv). unfold field_value.
  rewrite (proj2 (Z.ltb_lt _ _)) by lia. unfold ct_wrap, wraps, wrapu; simpl.
  destruct (ct_signed tv); rewrite Z.mod_1_r; done.
Qed.

(** * The codec interface

    [write tv b s len v] and [read tv b s len] store and load a [len]-bit field
    at bit [s] of a buffer of bytes, whose [k]th bit is [bit b k]; the [k]th bit
    of the buffer holds bit [index s len k] of the value. *)

Class BitCodec (bit : list Z -> Z -> bool) (index : Z -> Z -> Z -> Z)
    (write : ctype -> list Z -> Z -> Z -> Z -> option (list Z))
    (read : ctype -> list Z -> Z -> Z -> option Z) := {
  codec_write tv b s len v :
    ct_ok tv -> buf_wf 8 b -> 0 <= s -> 0 <= len ->
    s + len <= 8 * Z.of_nat (length b) -> 8 * (Z.of_nat (length b) + 1) <= 2 ^ 64 ->
    exists b', write tv b s len v = Some b' /\ length b' = length b /\ buf_wf 8 b' /\
      forall k, 0 <= k < 8 * Z.of_nat (length b) ->
        bit b' k = if (s <=? k) && (k <? s + len) then Z.testbit v (index s len k)
                   else bit b k;
  codec_read tv b s len v :
    ct_ok tv -> ct_range tv v -> buf_wf 8 b -> 0 <= s -> 0 <= len ->
    s + len <= 8 * Z.of_nat (length b) -> 8 * (Z.of_nat (length b) + 1) <= 2 ^ 64 ->
    (forall k, s <= k < s + len -> bit b k = Z.testbit v (index s len k)) ->
    read tv b s len = Some (field_value tv len v);
  codec_bit_local b b' k :
    0 <= k -> b !! Z.to_nat (k / 8) = b' !! Z.to_nat (k / 8) -> bit b k = bit b' k;
  codec_ext b b' :
    buf_wf 8 b -> buf_wf 8 b' -> length b = length b' ->
    (forall k, 0 <= k < 8 * Z.of_nat (length b) -> bit b k = bit b' k) -> b = b'
}.

Definition le_index (s len k : Z) : Z := k - s.
Definition be_index (s len k : Z) : Z := s + len - 1 - k.

Section read_bits.
Context (ty tv : ctype) (b : list Z) (s len v : Z).
Context (Hty : unit_type ty) (Htv : ct_ok tv) (Hv : ct_range tv v).
Context (Hb : buf_wf (ct_width ty) b) (Hs : 0 <= s) (Hlen : 0 <= len).
Context (Hfit : s + len <= ct_width ty * Z.of_nat (length b)).
Context (Hmem : ct_width ty * (Z.of_nat (length b) + 1) <= 2 ^ 64).

Lemma read_le_bits :
  (forall k, s <= k < s + len -> le_bit (ct_width ty) b k = Z.testbit v (le_index s len k)) ->
  _bt_bitfield_read_le ty tv b s len = Some (field_value tv len v).
Proof using All.
  unfold le_index. intros Hbits.
  destruct (Z.eq_dec len 0) as [->|]; [by rewrite field_value_0|].
  destruct (read_le_reads ty tv Hty Htv b s len Hb Hs) as (r & -> & Hr & Hrd); [lia|done..|].
  f_equal. eapply reads_field_value; [done|done|done|lia|exact Hrd| |].
  - intros i Hi. cbv beta. rewrite Hbits by lia. f_equal. lia.
  - rewrite Hbits by lia. do 2 f_equal. lia.
Qed.

Lemma read_be_bits :
  (forall k, s <= k < s + len -> be_bit (ct_width ty) b k = Z.testbit v (be_index s len k)) ->
  _bt_bitfield_read_be ty tv b s len = Some (field_value tv len v).
Proof using All.
  unfold be_index. intros Hbits.
  destruct (Z.eq_dec len 0) as [->|]; [by rewrite field_value_0|].
  destruct (read_be_reads ty tv Hty Htv b s len Hb Hs) as (r & -> & Hr & Hrd); [lia|done..|].
  f_equal. eapply reads_field_value; [done|done|done|lia|exact Hrd| |].
  - intros i Hi. cbv beta. rewrite Hbits by lia. f_equal. lia.
  - rewrite Hbits by lia. do 2 f_equal. lia.
Qed.
End read_bits.

Lemma read_le_write ty tv b b' s len v :
  unit_type ty -> ct_ok tv -> ct_range tv v -> buf_wf (ct_width ty) b ->
  0 <= s -> 0 <= len -> s + len <= ct_width ty * Z.of_nat (length b) ->
  ct_width ty * (Z.of_nat (length b) + 1) <= 2 ^ 64 ->
  _bt_bitfield_write_le ty tv b s len v = Some b' ->
  _bt_bitfield_read_le ty tv b' s len = Some (field_value tv len v).
Proof.
  intros Hty Htv Hv Hb Hs Hlen Hfit Hmem Hw.
  destruct (write_le_patched ty tv Hty Htv b s len v Hb Hs Hlen Hfit Hmem)
    as (b1 & Hw1 & Hp). assert (b1 = b') as -> by congruence.
  pose proof Hp as (Hl' & Hb' & _).
  apply read_le_bits; rewrite ?Hl'; try done.
  intros k Hk. rewrite (patched_le_bit _ _ _ _ _ _ _ Hty Hp) by lia.
  rewrite (proj2 (Z.leb_le _ _)), (proj2 (Z.ltb_lt _ _)) by lia. done.
Qed.

Lemma read_be_write ty tv b b' s len v :
  unit_type ty -> ct_ok tv -> ct_range tv v -> buf_wf (ct_width ty) b ->
  0 <= s -> 0 <= len -> s + len <= ct_width ty * Z.of_nat (length b) ->
  ct_width ty * (Z.of_nat (length b) + 1) <= 2 ^ 64 ->
  _bt_bitfield_write_be ty tv b s len v = Some b' ->
  _bt_bitfield_read_be ty tv b' s len = Some (field_value tv len v).
Proof.
  intros Hty Htv Hv Hb Hs Hlen Hfit Hmem Hw.
  destruct (write_be_patched ty tv Hty Htv b s len v Hb Hs Hlen Hfit Hmem)
    as (b1 & Hw1 & Hp). assert (b1 = b') as -> by congruence.
  pose proof Hp as (Hl' & Hb' & _).
  apply read_be_bits; rewrite ?Hl'; try done.
  intros k Hk. rewrite (patched_be_bit _ _ _ _ _ _ _ Hty Hp) by lia.
  rewrite (proj2 (Z.leb_le _ _)), (proj2 (Z.ltb_lt _ _)) by lia. done.
Qed.

Lemma uint8_unit : unit_type uint8_t.
Proof. split; [by left|done]. Qed.

(** Buffers of the same length with the same bits are equal. *)
Lemma unit_bits_ext ts b b' :
  0 < ts -> buf_wf ts b -> buf_wf ts b' -> length b = length b' ->
  (forall u j, 0 <= u < Z.of_nat (length b) -> 0 <= j < ts -> unit_bit b u j = unit_bit b' u j) ->
  b = b'.
Proof.
  intros Hts Hb Hb' Hl H. apply list_eq_same_length with (length b); [done|done|].
  intros i x y Hi Hx Hy.
  pose proof (Forall_lookup_1 _ _ _ _ Hb Hx) as Hxr.
  pose proof (Forall_lookup_1 _ _ _ _ Hb' Hy) as Hyr. cbv beta in Hxr, Hyr.
  apply Z.bits_inj'. intros j Hj.
  destruct (Z.lt_ge_cases j ts); [|by rewrite !(testbit_high ts) by lia].
  specialize (H (Z.of_nat i) j ltac:(lia) ltac:(lia)). unfold unit_bit, ptr_get in H.
  rewrite (proj2 (Z.leb_le _ _)), Nat2Z.id, Hx, Hy in H by lia. done.
Qed.

#[export] Instance le_codec :
  BitCodec (le_bit 8) le_index (bt_bitfield_write_le uint8_t) (bt_bitfield_read_le uint8_t).
Proof.
  split; change 8 with (ct_width uint8_t);
    unfold bt_bitfield_write_le, bt_bitfield_read_le.
  - intros tv b s len v Htv Hb Hs Hlen Hfit Hmem.
    destruct (write_le_patched uint8_t tv uint8_unit Htv b s len v) as (b' & -> & Hp); try done.
    exists b'. split; [done|]. split; [apply Hp|]. split; [apply Hp|].
    intros k Hk. by rewrite (patched_le_bit _ _ _ _ _ _ _ uint8_unit Hp) by lia.
  - intros. apply read_le_bits; done || apply uint8_unit.
  - intros b b' k Hk Hl. unfold le_bit, unit_bit, ptr_get.
    rewrite (proj2 (Z.leb_le 0 _)) by (apply Z.div_pos; simpl; lia). by rewrite Hl.
  - intros b b' Hb Hb' Hl Hbits. apply (unit_bits_ext (ct_width uint8_t) b b'); try done.
    intros u j Hu Hj. rewrite <- !(le_bit_unit (ct_width uint8_t)) by done.
    apply Hbits. simpl in *. lia.
Qed.

#[export] Instance be_codec :
  BitCodec (be_bit 8) be_index bt_bitfield_write_be bt_bitfield_read_be.
Proof.
  split; change 8 with (ct_width uint8_t);
    unfold bt_bitfield_write_be, bt_bitfield_read_be.
  - intros tv b s len v Htv Hb Hs Hlen Hfit Hmem.
    destruct (write_be_patched uint8_t tv uint8_unit Htv b s len v) as (b' & -> & Hp); try done.
    exists b'. split; [done|]. split; [apply Hp|]. split; [apply Hp|].
    intros k Hk. by rewrite (patched_be_bit _ _ _ _ _ _ _ uint8_unit Hp) by lia.
  - intros. apply read_be_bits; done || apply uint8_unit.
  - intros b b' k Hk Hl. unfold be_bit, unit_bit, ptr_get.
    rewrite (proj2 (Z.leb_le 0 _)) by (apply Z.div_pos; simpl; lia). by rewrite Hl.
  - intros b b' Hb Hb' Hl Hbits. apply (unit_bits_ext (ct_width uint8_t) b b'); try done.
    intros u j Hu Hj. rewrite <- !(be_bit_unit (ct_width uint8_t)) by done.
    apply Hbits. simpl in *. lia.
Qed.

(** * The macros' contract *)

(** memory safety and exact effect of the little-endian write macro.  For
    every unit type and every value type, writing [len] bits of [v] at bit [s]
    of a buffer that holds them stays inside the buffer, and afterwards bit [k]
    of the buffer is bit [k - s] of [v] when [k] is in the field and is
    unchanged when it is not. *)
Theorem bitfield_write_le_exact ty tv b s len v :
  unit_type ty -> ct_ok tv -> buf_wf (ct_width ty) b -> 0 <= s -> 0 <= len ->
  s + len <= ct_width ty * Z.of_nat (length b) ->
  ct_width ty * (Z.of_nat (length b) + 1) <= 2 ^ 64 ->
  exists b', bt_bitfield_write_le ty tv b s len v = Some b' /\
    length b' = length b /\ buf_wf (ct_width ty) b' /\
    forall k, 0 <= k < ct_width ty * Z.of_nat (length b) ->
      le_bit (ct_width ty) b' k =
        if (s <=? k) && (k <? s + len) then Z.testbit v (k - s)
        else le_bit (ct_width ty) b k.
Proof.
  intros Hty Htv Hb Hs Hlen Hfit Hmem.
  destruct (write_le_patched ty tv Hty Htv b s len v) as (b' & Hw & Hp); try done.
  exists b'. split; [done|]. split; [apply Hp|]. split; [apply Hp|].
  intros k Hk. by apply (patched_le_bit _ _ _ _ _ _ _ Hty Hp).
Qed.

(** Closes the side conditions of a contract on a closed buffer: unit and value
    types, well-formedness, bounds. *)
Ltac closed_buffer :=
  first [ done | apply uint8_unit | (split; [unfold ct_ok; simpl; tauto | done])
        | (unfold ct_ok; simpl; tauto) | (repeat constructor; simpl; lia) | (simpl; lia) ].

Lemma bitfield_write_le_exact_witness :
  exists b', bt_bitfield_write_le uint16_t int64_t [0xffff; 0xffff; 0xffff] 13 21 (-5) = Some b'
    /\ length b' = 3%nat /\ buf_wf 16 b' /\
    forall k, 0 <= k < 16 * 3 ->
      le_bit 16 b' k = if (13 <=? k) && (k <? 13 + 21) then Z.testbit (-5) (k - 13)
                       else le_bit 16 [0xffff; 0xffff; 0xffff] k.
Proof.
  apply (bitfield_write_le_exact uint16_t int64_t [0xffff; 0xffff; 0xffff] 13 21 (-5));
    closed_buffer.
Defined.

(** memory safety and exact effect of the big-endian write macro: bit [k] of
    the buffer, counted from the most significant bit of its first unit, is bit
    [s + len - 1 - k] of [v] when [k] is in the field, so that the field's most
    significant bit comes first, and is unchanged otherwise. *)
Theorem bitfield_write_be_exact ty tv b s len v :
  unit_type ty -> ct_ok tv -> buf_wf (ct_width ty) b -> 0 <= s -> 0 <= len ->
  s + len <= ct_width ty * Z.of_nat (length b) ->
  ct_width ty * (Z.of_nat (length b) + 1) <= 2 ^ 64 ->
  exists b', _bt_bitfield_write_be ty tv b s len v = Some b' /\
    length b' = length b /\ buf_wf (ct_width ty) b' /\
    forall k, 0 <= k < ct_width ty * Z.of_nat (length b) ->
      be_bit (ct_width ty) b' k =
        if (s <=? k) && (k <? s + len) then Z.testbit v (s + len - 1 - k)
        else be_bit (ct_width ty) b k.
Proof.
  intros Hty Htv Hb Hs Hlen Hfit Hmem.
  destruct (write_be_patched ty tv Hty Htv b s len v) as (b' & Hw & Hp); try done.
  exists b'. split; [done|]. split; [apply Hp|]. split; [apply Hp|].
  intros k Hk. by apply (patched_be_bit _ _ _ _ _ _ _ Hty Hp).
Qed.

Lemma bitfield_write_be_exact_witness :
  exists b', _bt_bitfield_write_be uint8_t uint64_t [0xff; 0; 0xff] 3 17 0x1abcd = Some b'
    /\ length b' = 3%nat /\ buf_wf 8 b' /\
    forall k, 0 <= k < 8 * 3 ->
      be_bit 8 b' k = if (3 <=? k) && (k <? 3 + 17) then Z.testbit 0x1abcd (3 + 17 - 1 - k)
                      else be_bit 8 [0xff; 0; 0xff] k.
Proof.
  apply (bitfield_write_be_exact uint8_t uint64_t [0xff; 0; 0xff] 3 17 0x1abcd);
    closed_buffer.
Defined.

(** the read macros decode the field.  Reading [len] bits at bit [s]
    succeeds and yields the value of the target type whose [i]th bit is the
    field's [i]th least significant bit (little endian: bit [s + i] of the
    buffer; big endian: bit [s + len - 1 - i]), extended above the field with
    the field's most significant bit when the type is signed and with zero
    when it is not. *)
Theorem bitfield_read_decodes ty tv b s len :
  unit_type ty -> ct_ok tv -> buf_wf (ct_width ty) b -> 0 <= s -> 0 < len ->
  s + len <= ct_width ty * Z.of_nat (length b) ->
  ct_width ty * (Z.of_nat (length b) + 1) <= 2 ^ 64 ->
  (exists r, bt_bitfield_read_le ty tv b s len = Some r /\ ct_range tv r /\
     forall i, 0 <= i < ct_width tv ->
       Z.testbit r i = if i <? len then le_bit (ct_width ty) b (s + i)
                       else ct_signed tv && le_bit (ct_width ty) b (s + len - 1)) /\
  (exists r, _bt_bitfield_read_be ty tv b s len = Some r /\ ct_range tv r /\
     forall i, 0 <= i < ct_width tv ->
       Z.testbit r i = if i <? len then be_bit (ct_width ty) b (s + len - 1 - i)
                       else ct_signed tv && be_bit (ct_width ty) b s).
Proof.
  intros Hty Htv Hb Hs Hlen Hfit Hmem. split.
  - by apply read_le_reads.
  - by apply read_be_reads.
Qed.

Lemma bitfield_read_decodes_witness :
  exists r, bt_bitfield_read_le uint8_t int64_t [0x34; 0x92; 0xff] 4 12 = Some r /\
    ct_range int64_t r /\
    forall i, 0 <= i < 64 ->
      Z.testbit r i = if i <? 12 then le_bit 8 [0x34; 0x92; 0xff] (4 + i)
                      else ct_signed int64_t && le_bit 8 [0x34; 0x92; 0xff] (4 + 12 - 1).
Proof.
  apply (bitfield_read_decodes uint8_t int64_t [0x34; 0x92; 0xff] 4 12); closed_buffer.
Defined.

(** C39: round trip of the little-endian macros: what is read back from a field
    after [v] was written to it is [v], reduced to the field's width when the
    field is narrower than the value's type (modulo [2^len], as a two's
    complement number when the type is signed). *)
Theorem bitfield_le_roundtrip ty tv b b' s len v :
  unit_type ty -> ct_ok tv -> ct_range tv v -> buf_wf (ct_width ty) b ->
  0 <= s -> 0 <= len -> s + len <= ct_width ty * Z.of_nat (length b) ->
  ct_width ty * (Z.of_nat (length b) + 1) <= 2 ^ 64 ->
  bt_bitfield_write_le ty tv b s len v = Some b' ->
  bt_bitfield_read_le ty tv b' s len =
    Some (if len <? ct_width tv then ct_wrap (CType len (ct_signed tv)) v else v).
Proof. exact (read_le_write ty tv b b' s len v). Qed.

Lemma bitfield_le_roundtrip_witness :
  bt_bitfield_read_le uint8_t int64_t [0x9f; 0x46; 0xfa; 0xff] 5 14 = Some 0x1234.
Proof.
  apply (bitfield_le_roundtrip uint8_t int64_t [0xff; 0xff; 0xff; 0xff]
           [0x9f; 0x46; 0xfa; 0xff] 5 14 0x1234); closed_buffer.
Defined.

(** round trip of the big-endian macros, for every unit type, value type,
    offset and length. *)
Theorem bitfield_be_roundtrip ty tv b b' s len v :
  unit_type ty -> ct_ok tv -> ct_range tv v -> buf_wf (ct_width ty) b ->
  0 <= s -> 0 <= len -> s + len <= ct_width ty * Z.of_nat (length b) ->
  ct_width ty * (Z.of_nat (length b) + 1) <= 2 ^ 64 ->
  _bt_bitfield_write_be ty tv b s len v = Some b' ->
  _bt_bitfield_read_be ty tv b' s len =
    Some (if len <? ct_width tv then ct_wrap (CType len (ct_signed tv)) v else v).
Proof. exact (read_be_write ty tv b b' s len v). Qed.

Lemma bitfield_be_roundtrip_witness :
  exists b', _bt_bitfield_write_be uint8_t int64_t [0; 0xff; 0; 0xff] 3 27 (-123456) = Some b' /\
    _bt_bitfield_read_be uint8_t int64_t b' 3 27 = Some (-123456).
Proof.
  eexists. split; [vm_compute; reflexivity|].
  rewrite (bitfield_be_roundtrip uint8_t int64_t [0; 0xff; 0; 0xff] _ 3 27 (-123456));
    closed_buffer || (vm_compute; reflexivity).
Defined.
