(* ===== verification/Ctfser.v ===== *)
(** CTF stream serializer: [src/src/ctfser/ctfser.h], [src/src/ctfser/ctfser.c],
    with the memory-map wrapper [src/src/common/mmap-align.h] and the alignment
    macros of [src/src/common/align.h].

    The state of a serializer is the C structure, the bytes of the stream file
    (which the shared memory map shows) and the state of the operating system.
    System calls are the operations of the class [Os], whose documented
    behaviour is the class [OsLaws]; GLib's byte swapping is [Glib].  A function
    of the code takes and returns the whole state; [None] is an abort, a failed
    assertion or a memory access outside the map.  [debug] tells whether
    [BT_ASSERT_DBG] is compiled in. *)

From S2P Require Import Prelude Bitfield.

(** * The environment *)

Definition EINTR : Z := 4.

Class Os (W : Type) := {
  page_size : Z;
  interrupts : W -> nat;
  os_open : W -> Z * W;
  posix_fallocate : W -> list Z -> Z -> Z -> Z * list Z * W;
  os_mmap : W -> Z -> Z -> bool * W;
  os_munmap : W -> Z * W;
  os_ftruncate : W -> list Z -> Z -> Z * bool * list Z * W;
  os_close : W -> Z * W
}.

(** Pages are powers of two; [posix_fallocate] leaves the file's bytes as they
    are and, on success, makes the file reach the end of the range; only a
    pending signal interrupts a call, and the call consumes it. *)
Class OsLaws (W : Type) `{Os W} := {
  page_size_log : exists k, 3 <= k <= 30 /\ page_size = 2 ^ k;
  fallocate_grows w f off len r f' w' :
    posix_fallocate w f off len = (r, f', w') ->
    f `prefix_of` f' /\ (buf_wf 8 f -> buf_wf 8 f') /\
    (r = 0 -> off + len <= Z.of_nat (length f')) /\
    (r = EINTR -> (interrupts w' < interrupts w)%nat);
  ftruncate_cuts w f len r eintr f' w' :
    os_ftruncate w f len = (r, eintr, f', w') ->
    (r = 0 -> Z.of_nat (length f) >= len -> f' = take (Z.to_nat len) f) /\
    (r = -1 -> eintr = true -> f' = f /\ (interrupts w' < interrupts w)%nat)
}.

(** The bytes of an [n]-byte object on a little-endian host. *)
Fixpoint le_bytes (n : nat) (v : Z) : list Z :=
  match n with
  | O => []
  | S n => v mod 2 ^ 8 :: le_bytes n (v / 2 ^ 8)
  end.

(** GLib's [GUINT16_SWAP_LE_BE], [GUINT32_SWAP_LE_BE], [GUINT64_SWAP_LE_BE]. *)
Class Glib := { guint_swap_le_be : nat -> Z -> Z }.
Class GlibLaws `{Glib} := {
  guint_swap_bytes n v : le_bytes n (guint_swap_le_be n v) = rev (le_bytes n v)
}.

Inductive byte_order := LITTLE_ENDIAN | BIG_ENDIAN.

(** * Alignment *)

(** [BT_ALIGN] and [BT_ALIGN_FLOOR] on a [w]-bit unsigned type. *)
Definition BT_ALIGN (w x a : Z) : Z :=
  let mask := wrapu w (a - 1) in
  wrapu w (Z.land (wrapu w (x + mask)) (Z.lnot mask)).
Definition BT_ALIGN_FLOOR (w x a : Z) : Z :=
  let mask := wrapu w (a - 1) in wrapu w (Z.land x (Z.lnot mask)).

(** * State *)

(** [page_aligned_addr] is the address at which the file's byte
    [page_aligned_offset] is mapped; [addr] is relative to it. *)
Record mmap_align_data := MmapAlignData {
  page_aligned_offset : Z;
  page_aligned_length : Z;
  mma_addr : Z;
  mma_length : Z
}.

(** What a [struct mmap_align_data *] points to. *)
Inductive mma_ptr := MmaNull | MmaFailed | MmaFreed | MmaLive (d : mmap_align_data).

Record bt_ctfser := BtCtfser {
  fd : Z;
  mmap_offset : Z;
  mmap_base_offset : Z;
  offset_in_cur_packet_bits : Z;
  cur_packet_size_bytes : Z;
  prev_packet_size_bytes : Z;
  stream_size_bytes : Z;
  base_mma : mma_ptr
}.

Record state (W : Type) := State { ser : bt_ctfser; file : list Z; os : W }.
Arguments State {W}. Arguments ser {W}. Arguments file {W}. Arguments os {W}.

Section ops.
Context {W : Type} `{Os W} `{Glib}.
Context (debug : bool).

Definition set_ser (s : state W) (c : bt_ctfser) : state W := State c (file s) (os s).
Definition set_offset (c : bt_ctfser) (x : Z) : bt_ctfser :=
  BtCtfser (fd c) (mmap_offset c) (mmap_base_offset c) x (cur_packet_size_bytes c)
    (prev_packet_size_bytes c) (stream_size_bytes c) (base_mma c).
Definition set_cur_size (c : bt_ctfser) (x : Z) : bt_ctfser :=
  BtCtfser (fd c) (mmap_offset c) (mmap_base_offset c) (offset_in_cur_packet_bits c) x
    (prev_packet_size_bytes c) (stream_size_bytes c) (base_mma c).
Definition set_mma (c : bt_ctfser) (x : mma_ptr) : bt_ctfser :=
  BtCtfser (fd c) (mmap_offset c) (mmap_base_offset c) (offset_in_cur_packet_bits c)
    (cur_packet_size_bytes c) (prev_packet_size_bytes c) (stream_size_bytes c) x.
Definition set_fd (c : bt_ctfser) (x : Z) : bt_ctfser :=
  BtCtfser x (mmap_offset c) (mmap_base_offset c) (offset_in_cur_packet_bits c)
    (cur_packet_size_bytes c) (prev_packet_size_bytes c) (stream_size_bytes c) (base_mma c).

(** * Memory map *)

Definition get_page_aligned_offset (offset : Z) : Z := BT_ALIGN_FLOOR 64 offset page_size.

Definition mmap_align (s : state W) (length offset : Z) : mma_ptr * W :=
  let page_aligned_offset := get_page_aligned_offset offset in
  let page_aligned_length :=
    BT_ALIGN 64 (wrapu 64 (length + offset - page_aligned_offset)) page_size in
  let '(ok, w) := os_mmap (os s) page_aligned_length page_aligned_offset in
  if (ok : bool)
  then (MmaLive (MmapAlignData page_aligned_offset page_aligned_length
                   (offset - page_aligned_offset) length), w)
  else (MmaFailed, w).

(** Frees the structure, then unmaps; [None]: the pointer is not live. *)
Definition munmap_align (s : state W) : option (Z * state W) :=
  match base_mma (ser s) with
  | MmaLive _ =>
      let '(ret, w) := os_munmap (os s) in
      Some (ret, State (set_mma (ser s) MmaFreed) (file s) w)
  | _ => None
  end.

(** Bytes [p..] of the map [d] that the process may access: within the map and
    within the file. *)
Definition mapped (d : mmap_align_data) (f : list Z) (p : Z) : list Z :=
  take (Z.to_nat (page_aligned_length d - p))
    (drop (Z.to_nat (page_aligned_offset d + p)) f).

Definition splice (f : list Z) (pos : Z) (b : list Z) : list Z :=
  take (Z.to_nat pos) f ++ b ++ drop (Z.to_nat pos + length b) f.

(** Updates memory from the address [mma_addr + mmap_base_offset + p]. *)
Definition update_memory (s : state W) (p : Z) (g : list Z -> option (list Z))
  : option (state W) :=
  match base_mma (ser s) with
  | MmaLive d =>
      let p := mma_addr d + mmap_base_offset (ser s) + p in
      guard_ub (0 <=? p) && (0 <=? page_aligned_offset d);
      do b <- g (mapped d (file s) p);
      Some (State (ser s) (splice (file s) (page_aligned_offset d + p) b) (os s))
  | _ => None
  end.

(** [memcpy(p, src, length src)]. *)
Definition memcpy (src b : list Z) : option (list Z) :=
  if (length src <=? length b)%nat then Some (src ++ drop (length src) b) else None.

(** * Packet space *)

Definition get_packet_size_increment_bytes : Z := wrapu 64 (page_size * 8).

Definition mmap_align_ctfser (s : state W) : state W :=
  let '(m, w) := mmap_align s (cur_packet_size_bytes (ser s)) (mmap_offset (ser s)) in
  State (set_mma (ser s) m) (file s) w.

(** [do { ret = bt_posix_fallocate(...) } while (ret == EINTR)]; the fuel is one
    more than the number of pending signals. *)
Fixpoint fallocate_loop (fuel : nat) (s : state W) : option (Z * state W) :=
  match fuel with
  | O => None
  | S fuel =>
      let '(ret, f, w) := posix_fallocate (os s) (file s) (mmap_offset (ser s))
                            (cur_packet_size_bytes (ser s)) in
      let s := State (ser s) f w in
      if ret =? EINTR then fallocate_loop fuel s else Some (ret, s)
  end.
Definition fallocate_retry (s : state W) := fallocate_loop (S (interrupts (os s))) s.

Definition mma_failed (m : mma_ptr) : bool :=
  match m with MmaFailed => true | _ => false end.

Definition _bt_ctfser_increase_cur_packet_size (s : state W) : option (Z * state W) :=
  do (ret, s) <- munmap_align s;
  if negb (ret =? 0) then Some (ret, s) else
  let s := set_ser s (set_cur_size (ser s)
             (wrapu 64 (cur_packet_size_bytes (ser s) + get_packet_size_increment_bytes))) in
  do (ret, s) <- fallocate_retry s;
  if negb (ret =? 0) then Some (ret, s) else
  let s := mmap_align_ctfser s in
  if mma_failed (base_mma (ser s)) then Some (-1, s) else Some (ret, s).

Definition _bt_ctfser_cur_packet_size_bits (c : bt_ctfser) : Z :=
  wrapu 64 (cur_packet_size_bytes c * 8).
Definition _bt_ctfser_prev_packet_size_bits (c : bt_ctfser) : Z :=
  wrapu 64 (prev_packet_size_bytes c * 8).
Definition _bt_ctfser_offset_bytes (c : bt_ctfser) : Z := offset_in_cur_packet_bits c / 8.

Definition _bt_ctfser_has_space_left (c : bt_ctfser) (size_bits : Z) : bool :=
  if _bt_ctfser_cur_packet_size_bits c <? wrapu 64 (offset_in_cur_packet_bits c + size_bits)
  then false
  else if UINT64_MAX - offset_in_cur_packet_bits c <? size_bits then false else true.

Definition _bt_ctfser_incr_offset (s : state W) (size_bits : Z) : option (state W) :=
  BT_ASSERT_DBG debug (_bt_ctfser_has_space_left (ser s) size_bits)
    (Some (set_ser s (set_offset (ser s)
             (wrapu 64 (offset_in_cur_packet_bits (ser s) + size_bits))))).

(** [if (!has_space_left) { ret = increase(); if (ret) goto end; } k] *)
Definition ensure_space (s : state W) (size_bits : Z)
    (k : state W -> option (Z * state W)) : option (Z * state W) :=
  if negb (_bt_ctfser_has_space_left (ser s) size_bits) then
    do (ret, s) <- _bt_ctfser_increase_cur_packet_size s;
    if negb (ret =? 0) then Some (ret, s) else k s
  else k s.

Definition bt_ctfser_align_offset_in_current_packet (s : state W) (alignment_bits : Z)
  : option (Z * state W) :=
  BT_ASSERT_DBG debug (0 <? alignment_bits)
    (let align_size_bits :=
       wrapu 64 (BT_ALIGN 64 (offset_in_cur_packet_bits (ser s)) alignment_bits
                 - offset_in_cur_packet_bits (ser s)) in
     ensure_space s align_size_bits (fun s =>
       do s <- _bt_ctfser_incr_offset s align_size_bits; Some (0, s))).

(** * Integers *)

(** Stores at [_bt_ctfser_get_addr]. *)
Definition store_at_offset (s : state W) (src : list Z) : option (state W) :=
  BT_ASSERT_DBG debug (offset_in_cur_packet_bits (ser s) mod 8 =? 0)
    (update_memory s (_bt_ctfser_offset_bytes (ser s)) (memcpy src)).

Definition is_big (bo : byte_order) : bool :=
  match bo with BIG_ENDIAN => true | LITTLE_ENDIAN => false end.

(** [(uintN_t) value], byte-swapped when the byte order is not the host's. *)
Definition ordered_bytes (n : nat) (value : Z) (bo : byte_order) : list Z :=
  let rbo := is_big bo in
  let v := wrapu (8 * Z.of_nat n) value in
  le_bytes n (if rbo then guint_swap_le_be n v else v).

Definition _bt_ctfser_write_byte_aligned_unsigned_int_no_align (s : state W)
    (value size_bits : Z) (bo : byte_order) : option (Z * state W) :=
  BT_ASSERT_DBG debug (size_bits mod 8 =? 0)
    (BT_ASSERT_DBG debug (_bt_ctfser_has_space_left (ser s) size_bits)
      (do s <- (if size_bits =? 8 then store_at_offset s (le_bytes 1 (wrapu 8 value))
                else if size_bits =? 16 then store_at_offset s (ordered_bytes 2 value bo)
                else if size_bits =? 32 then store_at_offset s (ordered_bytes 4 value bo)
                else if size_bits =? 64 then store_at_offset s (ordered_bytes 8 value bo)
                else None);
       do s <- _bt_ctfser_incr_offset s size_bits;
       Some (0, s))).

(** As the unsigned one on a value of type [int64_t]: [(intN_t) value] has the
    bytes of [(uintN_t) value], and the swapping macros take unsigned values. *)
Definition ordered_signed_bytes (n : nat) (value : Z) (bo : byte_order) : list Z :=
  let rbo := is_big bo in
  let v := wraps (8 * Z.of_nat n) value in
  le_bytes n (if rbo then guint_swap_le_be n (wrapu (8 * Z.of_nat n) v) else v).

Definition _bt_ctfser_write_byte_aligned_signed_int_no_align (s : state W)
    (value size_bits : Z) (bo : byte_order) : option (Z * state W) :=
  BT_ASSERT_DBG debug (size_bits mod 8 =? 0)
    (BT_ASSERT_DBG debug (_bt_ctfser_has_space_left (ser s) size_bits)
      (do s <- (if size_bits =? 8 then store_at_offset s (le_bytes 1 (wraps 8 value))
                else if size_bits =? 16 then store_at_offset s (ordered_signed_bytes 2 value bo)
                else if size_bits =? 32 then store_at_offset s (ordered_signed_bytes 4 value bo)
                else if size_bits =? 64 then store_at_offset s (ordered_signed_bytes 8 value bo)
                else None);
       do s <- _bt_ctfser_incr_offset s size_bits;
       Some (0, s))).

Definition bt_ctfser_write_byte_aligned_unsigned_int (s : state W)
    (value alignment_bits size_bits : Z) (bo : byte_order) : option (Z * state W) :=
  BT_ASSERT_DBG debug (alignment_bits mod 8 =? 0)
    (do (ret, s) <- bt_ctfser_align_offset_in_current_packet s alignment_bits;
     if negb (ret =? 0) then Some (ret, s) else
     ensure_space s size_bits (fun s =>
       _bt_ctfser_write_byte_aligned_unsigned_int_no_align s value size_bits bo)).

Definition bt_ctfser_write_byte_aligned_signed_int (s : state W)
    (value alignment_bits size_bits : Z) (bo : byte_order) : option (Z * state W) :=
  BT_ASSERT_DBG debug (alignment_bits mod 8 =? 0)
    (do (ret, s) <- bt_ctfser_align_offset_in_current_packet s alignment_bits;
     if negb (ret =? 0) then Some (ret, s) else
     ensure_space s size_bits (fun s =>
       _bt_ctfser_write_byte_aligned_signed_int_no_align s value size_bits bo)).

(** The bit-field write of a value of type [tv] at the current offset. *)
Definition write_bitfield (s : state W) (tv : ctype) (value size_bits : Z)
    (bo : byte_order) : option (state W) :=
  let off := offset_in_cur_packet_bits (ser s) in
  update_memory s 0 (fun b =>
    match bo with
    | LITTLE_ENDIAN => bt_bitfield_write_le uint8_t tv b off size_bits value
    | BIG_ENDIAN => bt_bitfield_write_be tv b off size_bits value
    end).

Definition bt_ctfser_write_unsigned_int (s : state W)
    (value alignment_bits size_bits : Z) (bo : byte_order) : option (Z * state W) :=
  do (ret, s) <- bt_ctfser_align_offset_in_current_packet s alignment_bits;
  if negb (ret =? 0) then Some (ret, s) else
  ensure_space s size_bits (fun s =>
    if (alignment_bits mod 8 =? 0) && (size_bits mod 8 =? 0) then
      _bt_ctfser_write_byte_aligned_unsigned_int_no_align s value size_bits bo
    else
      do s <- write_bitfield s uint64_t value size_bits bo;
      do s <- _bt_ctfser_incr_offset s size_bits;
      Some (0, s)).

Definition bt_ctfser_write_signed_int (s : state W)
    (value alignment_bits size_bits : Z) (bo : byte_order) : option (Z * state W) :=
  do (ret, s) <- bt_ctfser_align_offset_in_current_packet s alignment_bits;
  if negb (ret =? 0) then Some (ret, s) else
  ensure_space s size_bits (fun s =>
    if (alignment_bits mod 8 =? 0) && (size_bits mod 8 =? 0) then
      _bt_ctfser_write_byte_aligned_signed_int_no_align s value size_bits bo
    else
      do s <- write_bitfield s int64_t value size_bits bo;
      do s <- _bt_ctfser_incr_offset s size_bits;
      Some (0, s)).

(** The bits of a [double] are its [uint64_t] member in the union. *)
Definition bt_ctfser_write_float64 (s : state W) (value_bits alignment_bits : Z)
    (bo : byte_order) : option (Z * state W) :=
  bt_ctfser_write_unsigned_int s value_bits alignment_bits 64 bo.

(** * Bytes and strings *)

(** One iteration of the loops of [bt_ctfser_write_data] and
    [bt_ctfser_write_string], over the bytes that remain. *)
Fixpoint write_bytes (s : state W) (value : list Z) : option (Z * state W) :=
  match value with
  | [] => Some (0, s)
  | x :: rest =>
      ensure_space s 8 (fun s =>
        do s <- store_at_offset s [x];
        do s <- _bt_ctfser_incr_offset s 8;
        write_bytes s rest)
  end.

Definition bt_ctfser_write_data (s : state W) (value : list Z) : option (Z * state W) :=
  do (ret, s) <- bt_ctfser_align_offset_in_current_packet s 8;
  if negb (ret =? 0) then Some (ret, s) else write_bytes s value.

(** [value] is the C string's characters, without its null character. *)
Definition bt_ctfser_write_string (s : state W) (value : list Z) : option (Z * state W) :=
  do (ret, s) <- bt_ctfser_align_offset_in_current_packet s 8;
  if negb (ret =? 0) then Some (ret, s) else write_bytes s (value ++ [0]).

Definition bt_ctfser_get_offset_in_current_packet_bits (s : state W) : Z :=
  offset_in_cur_packet_bits (ser s).

Definition bt_ctfser_set_offset_in_current_packet_bits (s : state W) (offset_bits : Z)
  : option (state W) :=
  BT_ASSERT_DBG debug (offset_bits <=? _bt_ctfser_cur_packet_size_bits (ser s))
    (Some (set_ser s (set_offset (ser s) offset_bits))).

(** * Packets and the stream file *)

Definition bt_ctfser_init (s : state W) : Z * state W :=
  let '(fd, w) := os_open (os s) in
  let c := BtCtfser fd 0 0 0 0 0 0 MmaNull in
  (* [O_TRUNC]: the file is empty *)
  if fd <? 0 then (-1, State c (file s) w) else (0, State c [] w).

Fixpoint ftruncate_loop (fuel : nat) (s : state W) : option (Z * state W) :=
  match fuel with
  | O => None
  | S fuel =>
      let '(ret, eintr, f, w) := os_ftruncate (os s) (file s) (stream_size_bytes (ser s)) in
      let s := State (ser s) f w in
      if (ret =? -1) && eintr then ftruncate_loop fuel s else Some (ret, s)
  end.

Definition ftruncate_retry (s : state W) := ftruncate_loop (S (interrupts (os s))) s.

Definition bt_ctfser_fini (s : state W) : option (Z * state W) :=
  if fd (ser s) =? -1 then Some (0, s) else
  do (ret, s) <-
    match base_mma (ser s) with
    | MmaNull => Some (0, s)
    | _ =>
        do (ret, s) <- munmap_align s;
        if negb (ret =? 0) then Some (ret, s)
        else Some (0, set_ser s (set_mma (ser s) MmaNull))
    end;
  if negb (ret =? 0) then Some (ret, s) else
  do (ret, s) <- ftruncate_retry s;
  if negb (ret =? 0) then Some (ret, s) else
  let '(ret, w) := os_close (os s) in
  let s := State (ser s) (file s) w in
  if negb (ret =? 0) then Some (ret, s) else
  Some (0, set_ser s (set_fd (ser s) (-1))).

Definition bt_ctfser_open_packet (s : state W) : option (Z * state W) :=
  do (ret, s) <-
    match base_mma (ser s) with
    | MmaNull => Some (0, s)
    | _ =>
        do (ret, s) <- munmap_align s;
        if negb (ret =? 0) then Some (ret, s)
        else Some (0, set_ser s (set_mma (ser s) MmaNull))
    end;
  if negb (ret =? 0) then Some (ret, s) else
  let c := ser s in
  let s := set_ser s (BtCtfser (fd c) (wraps 64 (mmap_offset c + prev_packet_size_bytes c))
             (mmap_base_offset c) (offset_in_cur_packet_bits c)
             get_packet_size_increment_bytes 0 (stream_size_bytes c) (base_mma c)) in
  do (ret, s) <- fallocate_retry s;
  if negb (ret =? 0) then Some (ret, s) else
  let s := mmap_align_ctfser (set_ser s (set_offset (ser s) 0)) in
  if mma_failed (base_mma (ser s)) then Some (-1, s) else Some (ret, s).

Definition bt_ctfser_close_current_packet (s : state W) (packet_size_bytes : Z) : state W :=
  let c := ser s in
  set_ser s (BtCtfser (fd c) (mmap_offset c) (mmap_base_offset c)
    (offset_in_cur_packet_bits c) (cur_packet_size_bytes c) packet_size_bytes
    (wrapu 64 (stream_size_bytes c + packet_size_bytes)) (base_mma c)).
End ops.

(** * Lemmas: alignment *)

Definition align_up (x a : Z) : Z := (x + (a - 1)) / a * a.

Lemma land_lnot_mask x k : 0 <= k -> Z.land x (Z.lnot (2 ^ k - 1)) = x / 2 ^ k * 2 ^ k.
Proof.
  intros Hk. replace (2 ^ k - 1) with (Z.ones k) by (rewrite Z.ones_equiv; lia).
  rewrite <- Z.ldiff_land, Z.ldiff_ones_r, Z.shiftl_mul_pow2, Z.shiftr_div_pow2 by lia. done.
Qed.

Lemma div_mul_le x a : 0 < a -> x - a < x / a * a <= x.
Proof. intros. pose proof (Z.div_mod x a). pose proof (Z.mod_pos_bound x a). lia. Qed.

Lemma align_up_range x a : 0 < a -> x <= align_up x a < x + a.
Proof. intros. unfold align_up. pose proof (div_mul_le (x + (a - 1)) a). lia. Qed.

Lemma align_up_mod x a : 0 < a -> align_up x a mod a = 0.
Proof. intros. unfold align_up. apply Z.mod_mul. lia. Qed.

(** The next multiple of [a] is the least one that is not below [x]. *)
Lemma align_up_least x a y : 0 < a -> x <= y -> y mod a = 0 -> align_up x a <= y.
Proof.
  intros Ha Hy Hm. pose proof (align_up_range x a Ha) as Hr.
  pose proof (align_up_mod x a Ha) as Hx.
  apply Z.mod_divide in Hm as [p ->]; [|lia]. apply Z.mod_divide in Hx as [q Hq]; [|lia].
  rewrite Hq in *. assert (q * a < (p + 1) * a) by lia.
  apply Z.mul_lt_mono_pos_r in H; [|done]. apply Z.mul_le_mono_nonneg_r; lia.
Qed.

Lemma BT_ALIGN_up w x k :
  0 <= k < w -> 0 <= x -> x + (2 ^ k - 1) < 2 ^ w -> BT_ALIGN w x (2 ^ k) = align_up x (2 ^ k).
Proof.
  intros Hk Hx Hlt. assert (0 < 2 ^ k) by (apply Z.pow_pos_nonneg; lia).
  unfold BT_ALIGN, align_up. rewrite (wrapu_small w (2 ^ k - 1)) by lia.
  rewrite (wrapu_small w (x + _)) by lia. rewrite land_lnot_mask by lia.
  apply wrapu_small. pose proof (div_mul_le (x + (2 ^ k - 1)) (2 ^ k)).
  pose proof (Z.div_pos (x + (2 ^ k - 1)) (2 ^ k)). nia.
Qed.

Lemma BT_ALIGN_FLOOR_down w x k :
  0 <= k < w -> 0 <= x < 2 ^ w -> BT_ALIGN_FLOOR w x (2 ^ k) = x / 2 ^ k * 2 ^ k.
Proof.
  intros Hk Hx. assert (0 < 2 ^ k) by (apply Z.pow_pos_nonneg; lia).
  assert (2 ^ k < 2 ^ w) by (apply Z.pow_lt_mono_r; lia).
  unfold BT_ALIGN_FLOOR. rewrite (wrapu_small w (2 ^ k - 1)) by lia.
  rewrite land_lnot_mask by lia. apply wrapu_small.
  pose proof (div_mul_le x (2 ^ k)). pose proof (Z.div_pos x (2 ^ k)). nia.
Qed.

Lemma pow2_mod8 k : 0 <= k -> 2 ^ k mod 8 = 0 <-> 3 <= k.
Proof.
  intros Hk. destruct (Z.le_gt_cases 3 k).
  - replace k with (k - 3 + 3) by lia. rewrite Z.pow_add_r by lia.
    split; [lia|intros _; by apply Z.mod_mul].
  - assert (k = 0 \/ k = 1 \/ k = 2) as [-> | [-> | ->]] by lia; simpl; split; (lia || done).
Qed.

(** * Lemmas: lists of bytes *)

Lemma length_le_bytes n v : length (le_bytes n v) = n.
Proof. revert v. induction n; intros; simpl; [done|by rewrite IHn]. Qed.

Lemma le_bytes_wf n v : buf_wf 8 (le_bytes n v).
Proof.
  revert v. induction n; intros v; simpl; constructor; [|apply IHn].
  apply Z.mod_pos_bound. lia.
Qed.

Lemma unit_bit_le_bytes n v u j :
  0 <= u < Z.of_nat n -> 0 <= j < 8 -> unit_bit (le_bytes n v) u j = Z.testbit v (8 * u + j).
Proof.
  revert v u. induction n as [|n IH]; intros v u Hu Hj; [lia|].
  unfold unit_bit, ptr_get. rewrite (proj2 (Z.leb_le 0 u)) by lia.
  destruct (Z.eq_dec u 0) as [->|].
  - simpl. by rewrite Z.mod_pow2_bits_low by lia.
  - replace (Z.to_nat u) with (S (Z.to_nat (u - 1))) by lia. simpl.
    specialize (IH (v / 2 ^ 8) (u - 1) ltac:(lia) Hj). unfold unit_bit, ptr_get in IH.
    rewrite (proj2 (Z.leb_le 0 (u - 1))) in IH by lia.
    rewrite IH by lia. rewrite Z.div_pow2_bits by lia. f_equal. lia.
Qed.

Lemma ptr_get_rev b i :
  0 <= i < Z.of_nat (length b) -> ptr_get (rev b) i = ptr_get b (Z.of_nat (length b) - 1 - i).
Proof.
  intros Hi. unfold ptr_get. rewrite !(proj2 (Z.leb_le 0 _)) by lia.
  rewrite rev_alt. change (rev_append b []) with (reverse b).
  rewrite reverse_lookup by lia. f_equal. lia.
Qed.

Section memory.
Implicit Types f b : list Z.

Lemma length_splice f p b :
  0 <= p -> p + Z.of_nat (length b) <= Z.of_nat (length f) -> length (splice f p b) = length f.
Proof. intros. unfold splice. rewrite !length_app, length_take, length_drop. lia. Qed.

Lemma lookup_splice f p b i :
  0 <= p -> p + Z.of_nat (length b) <= Z.of_nat (length f) ->
  splice f p b !! i =
    if (p <=? Z.of_nat i) && (Z.of_nat i <? p + Z.of_nat (length b))
    then b !! (i - Z.to_nat p)%nat else f !! i.
Proof.
  intros Hp Hb. unfold splice.
  destruct (Z.leb_spec p (Z.of_nat i)); simpl.
  - rewrite lookup_app_r by (rewrite length_take; lia).
    rewrite length_take, Nat.min_l by lia.
    destruct (Z.ltb_spec (Z.of_nat i) (p + Z.of_nat (length b))).
    + by rewrite lookup_app_l by lia.
    + rewrite lookup_app_r, lookup_drop by lia. f_equal. lia.
  - rewrite lookup_app_l by (rewrite length_take; lia). apply lookup_take_lt. lia.
Qed.

Lemma splice_wf f p b : buf_wf 8 f -> buf_wf 8 b -> buf_wf 8 (splice f p b).
Proof.
  intros. unfold splice, buf_wf.
  rewrite !Forall_app. repeat split; [by apply Forall_take|done|by apply Forall_drop].
Qed.

Lemma take_splice f p q b :
  0 <= p -> p + Z.of_nat (length b) <= Z.of_nat (length f) -> (q <= Z.to_nat p)%nat ->
  take q (splice f p b) = take q f.
Proof.
  intros. unfold splice. rewrite take_app_le by (rewrite length_take; lia).
  rewrite take_take. f_equal. lia.
Qed.

Lemma drop_splice f p q b :
  0 <= q <= p -> p + Z.of_nat (length b) <= Z.of_nat (length f) ->
  drop (Z.to_nat q) (splice f p b) = splice (drop (Z.to_nat q) f) (p - q) b.
Proof.
  intros Hq Hb. apply list_eq. intros i.
  rewrite lookup_drop, !lookup_splice by (rewrite ?length_drop; lia).
  rewrite lookup_drop.
  replace (p <=? Z.of_nat (Z.to_nat q + i)) with (p - q <=? Z.of_nat i) by lia.
  replace (Z.of_nat (Z.to_nat q + i) <? p + Z.of_nat (length b))
    with (Z.of_nat i <? p - q + Z.of_nat (length b)) by lia.
  destruct (_ && _); [|done]. f_equal. lia.
Qed.
End memory.

(** * The packet as a bit sequence *)

Definition bit_of (bo : byte_order) : list Z -> Z -> bool :=
  match bo with LITTLE_ENDIAN => le_bit 8 | BIG_ENDIAN => be_bit 8 end.
Definition index_of (bo : byte_order) : Z -> Z -> Z -> Z :=
  match bo with LITTLE_ENDIAN => le_index | BIG_ENDIAN => be_index end.
Definition write_of (bo : byte_order) : ctype -> list Z -> Z -> Z -> Z -> option (list Z) :=
  match bo with LITTLE_ENDIAN => bt_bitfield_write_le uint8_t | BIG_ENDIAN => bt_bitfield_write_be end.
Definition read_of (bo : byte_order) : ctype -> list Z -> Z -> Z -> option Z :=
  match bo with LITTLE_ENDIAN => bt_bitfield_read_le uint8_t | BIG_ENDIAN => bt_bitfield_read_be end.

#[export] Instance codec_of bo : BitCodec (bit_of bo) (index_of bo) (write_of bo) (read_of bo).
Proof. destruct bo; apply _. Qed.

(** Bytes of the stream file from the current packet on, and the packet. *)
Definition stream_from {W} (s : state W) : list Z :=
  drop (Z.to_nat (mmap_offset (ser s))) (file s).
Definition packet {W} (s : state W) : list Z :=
  take (Z.to_nat (cur_packet_size_bytes (ser s))) (stream_from s).
(** Bytes of the stream file before the current packet. *)
Definition before {W} (s : state W) : list Z :=
  take (Z.to_nat (mmap_offset (ser s))) (file s).

(** [d] maps the packet: its page range is [page_aligned_offset d ..] and the
    packet's first byte is at [mma_addr d]. *)
Record maps (c : bt_ctfser) (d : mmap_align_data) : Prop := {
  maps_live : base_mma c = MmaLive d;
  maps_pao : 0 <= page_aligned_offset d;
  maps_addr : 0 <= mma_addr d;
  maps_offset : page_aligned_offset d + mma_addr d = mmap_offset c;
  maps_size : mma_addr d + cur_packet_size_bytes c <= page_aligned_length d;
  maps_bound : page_aligned_length d <= 2 ^ 60
}.

(** An open packet. *)
Record packet_wf {W} (s : state W) : Prop := {
  wf_map : exists d, maps (ser s) d;
  wf_base : mmap_base_offset (ser s) = 0;
  wf_off : 0 <= offset_in_cur_packet_bits (ser s) <= 8 * cur_packet_size_bytes (ser s);
  wf_cur : 0 < 8 * cur_packet_size_bytes (ser s) <= 2 ^ 59;
  wf_mo : 0 <= mmap_offset (ser s) <= 2 ^ 60;
  wf_size : mmap_offset (ser s) + cur_packet_size_bytes (ser s) <= Z.of_nat (length (file s));
  wf_file : buf_wf 8 (file s)
}.

(** What a store in the packet does: the value's bits in the field, nothing
    else. *)
Record stored {W} (bo : byte_order) (s s' : state W) (size v : Z) : Prop := {
  st_ser : ser s' = ser s;
  st_os : os s' = os s;
  st_wf : packet_wf s';
  st_length : length (file s') = length (file s);
  st_before : before s' = before s;
  st_bits : forall k, 0 <= k -> k < 8 * Z.of_nat (length (stream_from s)) ->
    bit_of bo (stream_from s') k =
      if (offset_in_cur_packet_bits (ser s) <=? k) &&
         (k <? offset_in_cur_packet_bits (ser s) + size)
      then Z.testbit v (index_of bo (offset_in_cur_packet_bits (ser s)) size k)
      else bit_of bo (stream_from s) k
}.

Section stores.
Context {W : Type} `{Os W} `{Glib}.
Implicit Types s : state W.

Lemma length_stream_from s :
  packet_wf s -> cur_packet_size_bytes (ser s) <= Z.of_nat (length (stream_from s)).
Proof. intros []. unfold stream_from. rewrite length_drop. lia. Qed.

Lemma stream_from_wf s : packet_wf s -> buf_wf 8 (stream_from s).
Proof. intros []. by apply Forall_drop. Qed.

Lemma packet_wf_same s f :
  packet_wf s -> length f = length (file s) -> buf_wf 8 f -> packet_wf (State (ser s) f (os s)).
Proof. intros [] Hl Hf. constructor; simpl; try done. by rewrite Hl. Qed.

(** Memory at byte [p] of the packet can be updated. *)
Lemma update_memory_ok s p :
  packet_wf s -> 0 <= p <= cur_packet_size_bytes (ser s) ->
  exists n, let b := take n (drop (Z.to_nat p) (stream_from s)) in
    cur_packet_size_bytes (ser s) - p <= Z.of_nat (length b) <= 2 ^ 60 /\ buf_wf 8 b /\
    forall g b', g b = Some b' -> length b' = length b -> buf_wf 8 b' ->
      exists s', update_memory s p g = Some s' /\ ser s' = ser s /\ os s' = os s /\
        packet_wf s' /\ length (file s') = length (file s) /\ before s' = before s /\
        stream_from s' = splice (stream_from s) p b'.
Proof.
  intros Hwf Hp. pose proof (length_stream_from s Hwf) as Hsl.
  pose proof (stream_from_wf s Hwf) as Hsw. pose proof Hwf as [[d []] Hb _ Hc Hmo Hsz Hf].
  set (n := Z.to_nat (page_aligned_length d - (mma_addr d + p))). exists n. intros b.
  assert (Hbl : Z.of_nat (length b) =
            Z.min (Z.of_nat n) (Z.of_nat (length (stream_from s)) - p))
    by (unfold b; rewrite length_take, length_drop; lia).
  split; [lia|]. split; [by apply Forall_take, Forall_drop|].
  intros g b' Hg Hl' Hb'. unfold update_memory. rewrite maps_live0, Hb.
  replace (mma_addr d + 0 + p) with (mma_addr d + p) by lia.
  rewrite (proj2 (Z.leb_le 0 (mma_addr d + p))), (proj2 (Z.leb_le 0 _)) by lia. simpl.
  replace (mapped d (file s) (mma_addr d + p)) with b.
  2:{ unfold mapped, b, stream_from. rewrite drop_drop. do 2 f_equal. lia. }
  rewrite Hg. eexists. split; [done|]. simpl.
  replace (page_aligned_offset d + (mma_addr d + p)) with (mmap_offset (ser s) + p) by lia.
  assert (Hfit : mmap_offset (ser s) + p + Z.of_nat (length b') <= Z.of_nat (length (file s))).
  { rewrite Hl', Hbl. unfold stream_from. rewrite length_drop. lia. }
  split; [done|]. split; [done|].
  split; [apply packet_wf_same; [done|by apply length_splice; lia|by apply splice_wf]|].
  split; [by apply length_splice; lia|].
  split.
  - unfold before. simpl. apply take_splice; lia.
  - unfold stream_from. simpl. rewrite drop_splice by lia. f_equal. lia.
Qed.

Lemma write_bitfield_stored s tv v size bo :
  packet_wf s -> ct_ok tv -> 0 <= size ->
  offset_in_cur_packet_bits (ser s) + size <= 8 * cur_packet_size_bytes (ser s) ->
  exists s', write_bitfield s tv v size bo = Some s' /\ stored bo s s' size v.
Proof.
  intros Hwf Htv Hsize Hfit. pose proof (wf_off s Hwf) as Ho.
  destruct (update_memory_ok s 0 Hwf) as (n & Hbl & Hbw & Hupd); [lia|].
  set (b := take n _) in *. cbv zeta in *.
  destruct (codec_write (BitCodec := codec_of bo) tv b (offset_in_cur_packet_bits (ser s)) size v)
    as (b' & Hw & Hl & Hbw' & Hbits); [done|done|lia|lia|lia|lia|].
  destruct (Hupd (fun b => write_of bo tv b (offset_in_cur_packet_bits (ser s)) size v) b')
    as (s' & Hs' & Hser & Hos & Hwf' & Hlen & Hbef & Hst); [done|done|done|].
  exists s'. split.
  { unfold write_bitfield. destruct bo; exact Hs'. }
  constructor; try done. intros k Hk Hkl. rewrite Hst.
  assert (Hfitl : 0 + Z.of_nat (length b') <= Z.of_nat (length (stream_from s))).
  { rewrite Hl. unfold b. rewrite length_take, length_drop. lia. }
  destruct (Z.lt_ge_cases k (8 * Z.of_nat (length b))) as [Hin|Hout].
  - rewrite (codec_bit_local (BitCodec := codec_of bo) (splice _ _ _) b') by
      (try lia; rewrite lookup_splice by lia;
       rewrite (proj2 (Z.leb_le 0 _)), (proj2 (Z.ltb_lt _ _)) by div_lia;
       cbn [andb]; f_equal; lia).
    rewrite Hbits by lia. destruct (_ && _); [done|].
    apply codec_bit_local; [lia|]. unfold b. rewrite drop_0 in *.
    apply lookup_take_lt. unfold b in Hin. rewrite length_take in Hin. div_lia.
  - rewrite (proj2 (Z.ltb_ge k (_ + size))), andb_false_r by lia.
    apply (codec_bit_local (BitCodec := codec_of bo)); [lia|].
    rewrite lookup_splice by lia. rewrite (proj2 (Z.ltb_ge _ _)), andb_false_r by div_lia. done.
Qed.

(** The bits of byte-aligned bytes [src] are those of the [8 * length src]-bit
    value [v], in byte order [bo]. *)
Definition bytes_hold (bo : byte_order) (src : list Z) (v : Z) : Prop :=
  buf_wf 8 src /\
  forall k, 0 <= k < 8 * Z.of_nat (length src) ->
    bit_of bo src k = Z.testbit v (index_of bo 0 (8 * Z.of_nat (length src)) k).

Lemma index_of_shift bo o len k : index_of bo o len k = index_of bo 0 len (k - o).
Proof. destruct bo; simpl; unfold le_index, be_index; lia. Qed.

Lemma bit_of_shift bo b k p : bit_of bo b k = bit_of bo (drop p b) (k - 8 * Z.of_nat p) \/ k < 8 * Z.of_nat p.
Proof.
  destruct (Z.lt_ge_cases k (8 * Z.of_nat p)); [by right|left].
  destruct bo; simpl; unfold le_bit, be_bit, unit_bit, ptr_get;
    replace ((k - 8 * Z.of_nat p) / 8) with (k / 8 - Z.of_nat p) by div_lia;
    replace ((k - 8 * Z.of_nat p) mod 8) with (k mod 8) by div_lia;
    rewrite lookup_drop, !(proj2 (Z.leb_le 0 _)) by div_lia;
    replace (p + Z.to_nat (k / 8 - Z.of_nat p))%nat with (Z.to_nat (k / 8)) by div_lia; done.
Qed.

Section memcpy.
Context (debug : bool).

Lemma store_at_offset_stored s src v bo :
  packet_wf s -> bytes_hold bo src v -> offset_in_cur_packet_bits (ser s) mod 8 = 0 ->
  offset_in_cur_packet_bits (ser s) + 8 * Z.of_nat (length src)
    <= 8 * cur_packet_size_bytes (ser s) ->
  exists s', store_at_offset debug s src = Some s' /\
    stored bo s s' (8 * Z.of_nat (length src)) v.
Proof.
  intros Hwf [Hsw Hsrc] Hal Hfit. pose proof (wf_off s Hwf) as Ho.
  pose proof (length_stream_from s Hwf) as Hsl.
  set (off := offset_in_cur_packet_bits (ser s)) in *.
  destruct (update_memory_ok s (off / 8) Hwf) as (n & Hbl & Hbw & Hupd); [div_lia|].
  set (b := take n _) in *. cbv zeta in *.
  assert (Hlb : (length src <= length b)%nat) by div_lia.
  destruct (Hupd (memcpy src) (src ++ drop (length src) b))
    as (s' & Hs' & Hser & Hos & Hwf' & Hlen & Hbef & Hst).
  { unfold memcpy. by rewrite (proj2 (Nat.leb_le _ _)) by lia. }
  { rewrite length_app, length_drop. lia. }
  { apply Forall_app. split; [done|by apply Forall_drop]. }
  exists s'. split.
  { unfold store_at_offset, BT_ASSERT_DBG, _bt_ctfser_offset_bytes. fold off.
    rewrite (proj2 (Z.eqb_eq _ 0)) by done. rewrite andb_false_r. exact Hs'. }
  constructor; try done. fold off. intros k Hk Hkl. rewrite Hst.
  assert (Hlb' : Z.of_nat (length b) <= Z.of_nat (length (stream_from s)) - off / 8)
    by (unfold b; rewrite length_take, length_drop; div_lia).
  assert (Hln : length (src ++ drop (length src) b) = length b)
    by (rewrite length_app, length_drop; lia).
  assert (Hlk : forall i, splice (stream_from s) (off / 8) (src ++ drop (length src) b) !! i =
            if (off / 8 <=? Z.of_nat i) && (Z.of_nat i <? off / 8 + Z.of_nat (length src))
            then src !! (i - Z.to_nat (off / 8))%nat else stream_from s !! i).
  { intros i. rewrite lookup_splice by (rewrite ?Hln; div_lia). rewrite Hln.
    destruct (Z.leb_spec (off / 8) (Z.of_nat i)); cbn [andb]; [|done].
    destruct (Z.ltb_spec (Z.of_nat i) (off / 8 + Z.of_nat (length src))).
    - rewrite (proj2 (Z.ltb_lt _ _)), lookup_app_l by div_lia. done.
    - destruct (Z.ltb_spec (Z.of_nat i) (off / 8 + Z.of_nat (length b))); [|done].
      rewrite lookup_app_r, lookup_drop by div_lia. unfold b.
      rewrite lookup_take_lt, lookup_drop by (unfold b in *; rewrite length_take in *; div_lia).
      f_equal. div_lia. }
  destruct (Z.leb_spec off k); cbn [andb];
    [destruct (Z.ltb_spec k (off + 8 * Z.of_nat (length src)))|].
  - rewrite index_of_shift, <- Hsrc by lia.
    destruct (bit_of_shift bo (splice (stream_from s) (off / 8) (src ++ drop (length src) b)) k
                (Z.to_nat (off / 8))) as [->|]; [|div_lia].
    replace (k - 8 * Z.of_nat (Z.to_nat (off / 8))) with (k - off) by div_lia.
    apply (codec_bit_local (BitCodec := codec_of bo)); [lia|].
    rewrite lookup_drop, Hlk, (proj2 (Z.leb_le _ _)), (proj2 (Z.ltb_lt _ _)) by div_lia.
    cbn [andb]. f_equal. div_lia.
  - apply (codec_bit_local (BitCodec := codec_of bo)); [lia|].
    rewrite Hlk, (proj2 (Z.ltb_ge _ _)), andb_false_r by div_lia. done.
  - apply (codec_bit_local (BitCodec := codec_of bo)); [lia|].
    rewrite Hlk, (proj2 (Z.leb_gt _ _)) by div_lia. done.
Qed.

Lemma le_bytes_hold n v :
  bytes_hold LITTLE_ENDIAN (le_bytes n v) v.
Proof.
  split; [apply le_bytes_wf|]. rewrite length_le_bytes. intros k Hk. simpl. unfold le_bit, le_index.
  rewrite unit_bit_le_bytes by div_lia. f_equal. div_lia.
Qed.

Lemma rev_le_bytes_hold n v :
  bytes_hold BIG_ENDIAN (rev (le_bytes n v)) v.
Proof.
  split.
  { rewrite rev_alt. change (rev_append ?b []) with (reverse b).
    apply Forall_reverse, le_bytes_wf. }
  rewrite length_rev, length_le_bytes. intros k Hk. simpl. unfold be_bit, be_index, unit_bit.
  rewrite ptr_get_rev by (rewrite length_le_bytes; div_lia).
  rewrite length_le_bytes.
  pose proof (unit_bit_le_bytes n v (Z.of_nat n - 1 - k / 8) (8 - 1 - k mod 8)) as E.
  unfold unit_bit in E. rewrite E by div_lia. f_equal. div_lia.
Qed.

(** Only the value's low bits matter. *)
Lemma bytes_hold_low bo src v v' :
  (forall i, 0 <= i < 8 * Z.of_nat (length src) -> Z.testbit v i = Z.testbit v' i) ->
  bytes_hold bo src v -> bytes_hold bo src v'.
Proof.
  intros E [Hw Hb]. split; [done|]. intros k Hk. rewrite Hb by done. apply E.
  destruct bo; simpl; unfold le_index, be_index; lia.
Qed.

Lemma one_byte_hold bo n v : n = 1%nat -> bytes_hold bo (le_bytes n v) v.
Proof.
  intros ->. destruct bo; [apply le_bytes_hold|]. exact (rev_le_bytes_hold 1 v).
Qed.

Context `{!GlibLaws}.

Lemma length_ordered_bytes n v bo : length (ordered_bytes n v bo) = n.
Proof. unfold ordered_bytes. apply length_le_bytes. Qed.
Lemma length_ordered_signed_bytes n v bo : length (ordered_signed_bytes n v bo) = n.
Proof. unfold ordered_signed_bytes. apply length_le_bytes. Qed.

Lemma ordered_bytes_hold n v bo : bytes_hold bo (ordered_bytes n v bo) v.
Proof using All.
  eapply bytes_hold_low; [|unfold ordered_bytes; destruct bo; simpl;
    [apply le_bytes_hold|rewrite guint_swap_bytes; apply rev_le_bytes_hold]].
  intros i Hi. rewrite length_ordered_bytes in Hi. rewrite testbit_wrapu by lia.
  by rewrite (proj2 (Z.ltb_lt _ _)) by lia.
Qed.

Lemma ordered_signed_bytes_hold n v bo : bytes_hold bo (ordered_signed_bytes n v bo) v.
Proof using All.
  destruct n as [|n]; [by split; [constructor|simpl; lia]|].
  pose proof (length_ordered_signed_bytes (S n) v bo) as Hl. revert Hl.
  unfold ordered_signed_bytes. destruct bo; simpl is_big; cbv iota; intros Hl;
    (eapply bytes_hold_low;
      [|first [apply le_bytes_hold | rewrite guint_swap_bytes; apply rev_le_bytes_hold]]);
    rewrite Hl; intros i Hi; rewrite ?testbit_wrapu, ?testbit_wraps by lia.
  - f_equal. lia.
  - rewrite (proj2 (Z.ltb_lt _ _)) by lia. simpl. f_equal. lia.
Qed.

End memcpy.

(** * Lemmas: space *)

(** [s'] is a later state of the same packet. *)
Record later s s' : Prop := {
  lt_wf : packet_wf s';
  lt_fd : fd (ser s') = fd (ser s);
  lt_mo : mmap_offset (ser s') = mmap_offset (ser s);
  lt_prev : prev_packet_size_bytes (ser s') = prev_packet_size_bytes (ser s);
  lt_stream : stream_size_bytes (ser s') = stream_size_bytes (ser s);
  lt_cur : cur_packet_size_bytes (ser s) <= cur_packet_size_bytes (ser s');
  lt_before : before s' = before s
}.

(** The packet's first [n] bits are the same. *)
Definition kept bo (n : Z) s s' : Prop :=
  forall k, 0 <= k < n -> bit_of bo (stream_from s') k = bit_of bo (stream_from s) k.

Lemma later_refl s : packet_wf s -> later s s.
Proof. by constructor. Qed.

Lemma later_trans s1 s2 s3 : later s1 s2 -> later s2 s3 -> later s1 s3.
Proof. intros [] []. constructor; congruence || lia || done. Qed.

Lemma kept_trans bo n s1 s2 s3 : kept bo n s1 s2 -> kept bo n s2 s3 -> kept bo n s1 s3.
Proof. intros H1 H2 k Hk. by rewrite H2, H1. Qed.

Lemma kept_le bo n m s s' : m <= n -> kept bo n s s' -> kept bo m s s'.
Proof. intros Hm H1 k Hk. apply H1. lia. Qed.

Lemma stored_later bo s s' size v : packet_wf s -> stored bo s s' size v -> later s s'.
Proof. intros Hwf []. constructor; congruence || (rewrite st_ser0; lia) || done. Qed.

Lemma stored_kept bo s s' size v :
  packet_wf s -> stored bo s s' size v -> kept bo (offset_in_cur_packet_bits (ser s)) s s'.
Proof.
  intros Hwf [] k Hk. pose proof (length_stream_from s Hwf). destruct (wf_off s Hwf).
  rewrite st_bits0 by lia. by rewrite (proj2 (Z.leb_gt _ _)) by lia.
Qed.

Lemma has_space_left_spec c n :
  0 <= offset_in_cur_packet_bits c <= UINT64_MAX -> 0 <= n <= UINT64_MAX ->
  0 <= 8 * cur_packet_size_bytes c <= UINT64_MAX ->
  _bt_ctfser_has_space_left c n =
    (offset_in_cur_packet_bits c + n <=? 8 * cur_packet_size_bytes c).
Proof.
  unfold _bt_ctfser_has_space_left, _bt_ctfser_cur_packet_size_bits, UINT64_MAX. intros Ho Hn Hc.
  rewrite (wrapu_small 64 (cur_packet_size_bytes c * 8)) by lia.
  set (o := offset_in_cur_packet_bits c) in *. set (m := cur_packet_size_bytes c) in *.
  destruct (Z.le_gt_cases (o + n) (2 ^ 64 - 1)).
  - rewrite wrapu_small by lia. destruct (Z.ltb_spec (m * 8) (o + n)).
    + symmetry. apply Z.leb_gt. lia.
    + rewrite (proj2 (Z.ltb_ge _ _)) by lia. symmetry. apply Z.leb_le. lia.
  - rewrite (proj2 (Z.ltb_lt (_ - o) n)), (proj2 (Z.leb_gt _ _)) by lia.
    by destruct (_ <? _).
Qed.

Lemma has_space_left_wf s n :
  packet_wf s -> 0 <= n <= 2 ^ 60 ->
  _bt_ctfser_has_space_left (ser s) n =
    (offset_in_cur_packet_bits (ser s) + n <=? 8 * cur_packet_size_bytes (ser s)).
Proof. intros [] Hn. apply has_space_left_spec; unfold UINT64_MAX; lia. Qed.

Lemma packet_wf_offset s o :
  packet_wf s -> 0 <= o <= 8 * cur_packet_size_bytes (ser s) ->
  packet_wf (set_ser s (set_offset (ser s) o)).
Proof.
  intros [[d []]] Ho. constructor; simpl; try done. exists d. by constructor.
Qed.

Lemma later_offset s o :
  packet_wf s -> 0 <= o <= 8 * cur_packet_size_bytes (ser s) ->
  later s (set_ser s (set_offset (ser s) o)).
Proof. intros Hwf Ho. constructor; simpl; try done. by apply packet_wf_offset. Qed.

Section space.
Context (debug : bool) `{!OsLaws W}.

Lemma page_size_bounds : 8 <= page_size <= 2 ^ 30.
Proof using OsLaws0.
  destruct page_size_log as (k & Hk & ->). split.
  - change 8 with (2 ^ 3). apply Z.pow_le_mono_r; lia.
  - apply Z.pow_le_mono_r; lia.
Qed.

Lemma increment_eq : get_packet_size_increment_bytes = 8 * page_size.
Proof using OsLaws0.
  pose proof page_size_bounds. unfold get_packet_size_increment_bytes.
  rewrite wrapu_small; lia.
Qed.

Lemma incr_offset_ok s n :
  packet_wf s -> 0 <= n ->
  offset_in_cur_packet_bits (ser s) + n <= 8 * cur_packet_size_bytes (ser s) ->
  _bt_ctfser_incr_offset debug s n =
    Some (set_ser s (set_offset (ser s) (offset_in_cur_packet_bits (ser s) + n))).
Proof using All.
  intros Hwf Hn Hfit. pose proof Hwf as [].
  unfold _bt_ctfser_incr_offset, BT_ASSERT_DBG.
  rewrite has_space_left_wf, (proj2 (Z.leb_le _ _)), andb_false_r by (done || lia).
  by rewrite wrapu_small by lia.
Qed.

(** The retry loop ends, within the fuel, with the result of a last call. *)
Lemma fallocate_loop_ok fuel s :
  (interrupts (os s) < fuel)%nat ->
  exists r s', fallocate_loop fuel s = Some (r, s') /\ ser s' = ser s /\ r <> EINTR /\
    file s `prefix_of` file s' /\ (buf_wf 8 (file s) -> buf_wf 8 (file s')) /\
    (r = 0 -> mmap_offset (ser s) + cur_packet_size_bytes (ser s)
              <= Z.of_nat (length (file s'))).
Proof using OsLaws0.
  revert s. induction fuel as [|fuel IH]; intros s Hf; [lia|]. simpl.
  destruct (posix_fallocate _ _ _ _) as [[r f] w] eqn:E.
  apply fallocate_grows in E as (Hpre & Hwf & Hlen & Hint).
  destruct (Z.eqb_spec r EINTR) as [->|Hr].
  - specialize (Hint eq_refl).
    destruct (IH (State (ser s) f w)) as (r' & s' & -> & Hs & Hr' & Hp' & Hw' & Hl');
      [simpl; lia|]. simpl in *.
    exists r', s'. split; [done|]. split; [done|]. split; [done|].
    split; [by etrans|]. split; [auto|done].
  - exists r, (State (ser s) f w). by repeat split.
Qed.

Lemma mmap_align_maps s length offset m w :
  0 < length <= 2 ^ 58 -> 0 <= offset <= 2 ^ 60 -> mmap_align s length offset = (m, w) ->
  m = MmaFailed \/
  exists d, m = MmaLive d /\ 0 <= page_aligned_offset d /\ 0 <= mma_addr d /\
    page_aligned_offset d + mma_addr d = offset /\
    mma_addr d + length <= page_aligned_length d /\ page_aligned_length d <= 2 ^ 60.
Proof using OsLaws0.
  intros Hl Ho. unfold mmap_align, get_page_aligned_offset.
  destruct page_size_log as (k & Hk & ->).
  rewrite BT_ALIGN_FLOOR_down by lia.
  assert (0 < 2 ^ k <= 2 ^ 30) by (split; [apply Z.pow_pos_nonneg|apply Z.pow_le_mono_r]; lia).
  pose proof (div_mul_le offset (2 ^ k) ltac:(lia)) as Hpo.
  assert (0 <= offset / 2 ^ k * 2 ^ k)
    by (apply Z.mul_nonneg_nonneg; [apply Z.div_pos|]; lia).
  rewrite wrapu_small by lia.
  rewrite BT_ALIGN_up by lia.
  destruct (os_mmap _ _ _) as [[] w']; intros [= <- <-]; [right|by left].
  eexists. split; [done|]. simpl.
  pose proof (align_up_range (length + offset - offset / 2 ^ k * 2 ^ k) (2 ^ k) ltac:(lia)).
  lia.
Qed.

Lemma stream_from_prefix s s' bo :
  packet_wf s -> mmap_offset (ser s') = mmap_offset (ser s) -> file s `prefix_of` file s' ->
  before s' = before s /\ kept bo (8 * cur_packet_size_bytes (ser s)) s s'.
Proof.
  intros Hwf Hmo [g Hg]. pose proof Hwf as []. unfold before, kept, stream_from. rewrite Hmo, Hg.
  split; [by rewrite take_app_le by lia|].
  intros k Hk. apply (codec_bit_local (BitCodec := codec_of bo)); [lia|].
  rewrite !lookup_drop, lookup_app_l by div_lia. done.
Qed.

(** [fallocate], then [mmap], of the packet at [mmap_offset]. *)
Lemma map_packet_ok s :
  0 < 8 * cur_packet_size_bytes (ser s) <= 2 ^ 59 -> 0 <= mmap_offset (ser s) <= 2 ^ 60 ->
  exists r s1, fallocate_retry s = Some (r, s1) /\ ser s1 = ser s /\ file s `prefix_of` file s1 /\
    (buf_wf 8 (file s) -> buf_wf 8 (file s1)) /\
    (r = 0 -> mmap_offset (ser s) + cur_packet_size_bytes (ser s)
              <= Z.of_nat (length (file s1))).
Proof using OsLaws0.
  intros Hc Hmo. destruct (fallocate_loop_ok (S (interrupts (os s))) s)
    as (r & s1 & Hr & Hs & _ & Hp & Hw & Hl); [lia|].
  exists r, s1. by repeat split.
Qed.

Lemma mmap_align_ctfser_ok s :
  0 < 8 * cur_packet_size_bytes (ser s) <= 2 ^ 59 -> 0 <= mmap_offset (ser s) <= 2 ^ 60 ->
  exists m w, mmap_align_ctfser s = State (set_mma (ser s) m) (file s) w /\
    (mma_failed m = true \/ (mma_failed m = false /\ exists d, maps (set_mma (ser s) m) d)).
Proof using OsLaws0.
  intros Hc Hmo. unfold mmap_align_ctfser.
  destruct (mmap_align _ _ _) as [m w] eqn:E.
  apply mmap_align_maps in E as [-> | (d & -> & ?)]; [| |lia|lia].
  - exists MmaFailed, w. split; [done|by left].
  - exists (MmaLive d), w. split; [done|]. right. split; [done|]. exists d.
    constructor; simpl; try done; lia.
Qed.

Lemma increase_ok s :
  packet_wf s -> 8 * cur_packet_size_bytes (ser s) + 64 * page_size <= 2 ^ 59 ->
  exists r s', _bt_ctfser_increase_cur_packet_size s = Some (r, s') /\
    (r = 0 -> later s s' /\
       offset_in_cur_packet_bits (ser s') = offset_in_cur_packet_bits (ser s) /\
       cur_packet_size_bytes (ser s') = cur_packet_size_bytes (ser s) + 8 * page_size /\
       forall bo, kept bo (8 * cur_packet_size_bytes (ser s)) s s').
Proof using OsLaws0.
  intros Hwf Hroom. pose proof Hwf as [[d []] Hb Ho Hc Hmo Hsz Hf].
  pose proof page_size_bounds as Hps.
  unfold _bt_ctfser_increase_cur_packet_size, munmap_align. rewrite maps_live0.
  destruct (os_munmap (os s)) as [r0 w0].
  destruct (Z.eqb_spec r0 0) as [->|Hr0]; cbn [negb]; [|by eexists _, _].
  rewrite increment_eq. cbn [ser set_ser cur_packet_size_bytes set_mma].
  rewrite wrapu_small by lia.
  set (s1 := set_ser _ _).
  destruct (map_packet_ok s1) as (r & s2 & -> & Hs2 & Hpre & Hw & Hlen); [simpl; lia..|].
  destruct (Z.eqb_spec r 0) as [->|Hr]; cbn [negb]; [|by eexists _, _].
  specialize (Hlen eq_refl).
  destruct (mmap_align_ctfser_ok s2) as (m & w & -> & Hm); [rewrite Hs2; simpl; lia..|].
  cbn [ser base_mma set_mma].
  destruct Hm as [-> | [-> [d' Hd']]]; eexists _, _; (split; [reflexivity|]); [done|intros _].
  rewrite Hs2 in *. subst s1. simpl in *.
  destruct (stream_from_prefix s (State (set_mma (ser s2) m) (file s2) w) LITTLE_ENDIAN)
    as [Hbef _]; [done|by rewrite Hs2|done|].
  rewrite Hs2 in Hbef. simpl in *.
  split; [|split; [done|split; [done|]]].
  - constructor; simpl; try (done || lia).
    constructor; simpl; try (done || lia); [by exists d'|by apply Hw].
  - intros bo. by apply stream_from_prefix.
Qed.

Lemma ensure_space_ok s n k :
  packet_wf s -> 0 <= n <= 64 * page_size ->
  offset_in_cur_packet_bits (ser s) + n <= 2 ^ 58 ->
  exists r s1,
    ensure_space s n k = (if r =? 0 then k s1 else Some (r, s1)) /\
    (offset_in_cur_packet_bits (ser s) + n <= 8 * cur_packet_size_bytes (ser s) ->
       r = 0 /\ s1 = s) /\
    (r = 0 -> later s s1 /\
       offset_in_cur_packet_bits (ser s1) = offset_in_cur_packet_bits (ser s) /\
       offset_in_cur_packet_bits (ser s) + n <= 8 * cur_packet_size_bytes (ser s1) /\
       forall bo, kept bo (8 * cur_packet_size_bytes (ser s)) s s1).
Proof using OsLaws0.
  intros Hwf Hn Hroom. pose proof page_size_bounds as Hps. pose proof (wf_off s Hwf) as Ho.
  unfold ensure_space. rewrite has_space_left_wf by (done || lia).
  destruct (Z.leb_spec (offset_in_cur_packet_bits (ser s) + n)
              (8 * cur_packet_size_bytes (ser s))); cbn [negb].
  - exists 0, s. split; [done|]. split; [done|]. intros _. split; [by apply later_refl|done].
  - destruct (increase_ok s Hwf ltac:(lia)) as (r & s1 & -> & Hr).
    exists r, s1. split; [by destruct (r =? 0)|]. split; [lia|].
    intros ->. destruct (Hr eq_refl) as (Hl & Hoff & Hcur & Hk).
    split; [done|]. split; [done|]. split; [lia|done].
Qed.

Definition align_ok (a : Z) : Prop := exists k, 0 <= k /\ a = 2 ^ k /\ a <= 64 * page_size.

Lemma align_ok_pos a : align_ok a -> 0 < a <= 2 ^ 36.
Proof using OsLaws0.
  intros (k & Hk & -> & Ha). pose proof page_size_bounds. split; [|lia].
  apply Z.pow_pos_nonneg; lia.
Qed.

Lemma align_ok_up a x :
  align_ok a -> 0 <= x <= 2 ^ 59 -> BT_ALIGN 64 x a = align_up x a.
Proof using OsLaws0.
  intros (k & Hk & -> & Ha) Hx. pose proof page_size_bounds.
  apply BT_ALIGN_up; [|lia|lia]. split; [done|].
  apply (Z.pow_lt_mono_r_iff 2); lia.
Qed.

Lemma align_offset_ok s a :
  packet_wf s -> align_ok a -> align_up (offset_in_cur_packet_bits (ser s)) a <= 2 ^ 58 ->
  exists r s', bt_ctfser_align_offset_in_current_packet debug s a = Some (r, s') /\
    (align_up (offset_in_cur_packet_bits (ser s)) a <= 8 * cur_packet_size_bytes (ser s) ->
       r = 0 /\ cur_packet_size_bytes (ser s') = cur_packet_size_bytes (ser s)) /\
    (r = 0 -> later s s' /\
       offset_in_cur_packet_bits (ser s') = align_up (offset_in_cur_packet_bits (ser s)) a /\
       forall bo, kept bo (8 * cur_packet_size_bytes (ser s)) s s').
Proof using All.
  intros Hwf Ha Hroom. pose proof (wf_off s Hwf) as Ho. pose proof (wf_cur s Hwf) as Hc.
  pose proof (align_ok_pos a Ha) as Hpos.
  pose proof (align_up_range (offset_in_cur_packet_bits (ser s)) a ltac:(lia)) as Hup.
  unfold bt_ctfser_align_offset_in_current_packet, BT_ASSERT_DBG.
  rewrite (proj2 (Z.ltb_lt 0 a)), andb_false_r by lia.
  rewrite align_ok_up by (done || lia).
  set (off := offset_in_cur_packet_bits (ser s)) in *. set (up := align_up off a) in *.
  rewrite wrapu_small by lia.
  set (k := fun s => _).
  destruct (ensure_space_ok s (up - off) k Hwf) as (r & s1 & -> & Hfast & Hr);
    [destruct Ha as (? & ? & ? & ?); lia|subst off; lia|].
  destruct (Z.eqb_spec r 0) as [->|Hr0]; [|eexists _, _; split; [done|]; split; [|done]].
  2:{ intros. destruct Hfast; [subst off; lia|done]. }
  destruct (Hr eq_refl) as (Hl & Hoff & Hfit & Hk). fold off in Hoff, Hfit.
  subst k. cbv beta. pose proof (lt_wf _ _ Hl) as Hwf1.
  rewrite incr_offset_ok by (done || lia). rewrite Hoff.
  replace (off + (up - off)) with up by lia.
  eexists _, _. split; [reflexivity|]. split.
  { intros Hin. split; [done|]. destruct Hfast as [_ ->]; [fold off; lia|done]. }
  intros _. split; [|split; [done|]].
  - eapply later_trans; [exact Hl|]. apply later_offset; [done|lia].
  - intros bo. exact (Hk bo).
Qed.

(** * Lemmas: integers *)

(** The field [v] of [n] bits has been written at [a] in the packet. *)
Record written bo s s' (a n v : Z) : Prop := {
  wr_later : later s s';
  wr_off : offset_in_cur_packet_bits (ser s') = a + n;
  wr_kept : kept bo (offset_in_cur_packet_bits (ser s)) s s';
  wr_bits : forall k, a <= k < a + n ->
    bit_of bo (stream_from s') k = Z.testbit v (index_of bo a n k)
}.

Lemma stream_from_set_offset s o :
  stream_from (set_ser s (set_offset (ser s) o)) = stream_from s.
Proof. done. Qed.

(** A store at the offset followed by the move of the offset. *)
Lemma store_then_incr bo s s1 n v :
  packet_wf s -> 0 <= n ->
  offset_in_cur_packet_bits (ser s) + n <= 8 * cur_packet_size_bytes (ser s) ->
  stored bo s s1 n v ->
  exists s2, _bt_ctfser_incr_offset debug s1 n = Some s2 /\
    written bo s s2 (offset_in_cur_packet_bits (ser s)) n v.
Proof using All.
  intros Hwf Hn Hfit Hst. pose proof (wf_off s Hwf) as Ho. pose proof (st_ser _ _ _ _ _ Hst) as Hser.
  pose proof (length_stream_from s Hwf) as Hsl.
  rewrite incr_offset_ok by (rewrite ?Hser; done || apply (st_wf _ _ _ _ _ Hst)).
  eexists. split; [done|]. rewrite <- Hser. constructor.
  - eapply later_trans; [by eapply stored_later|].
    apply later_offset; [apply (st_wf _ _ _ _ _ Hst)|rewrite Hser; lia].
  - done.
  - exact (stored_kept _ _ _ _ _ Hwf Hst).
  - intros k Hk. rewrite stream_from_set_offset. rewrite Hser in *.
    rewrite (st_bits _ _ _ _ _ Hst) by lia.
    rewrite (proj2 (Z.leb_le _ _)), (proj2 (Z.ltb_lt _ _)) by lia. done.
Qed.

Context `{!GlibLaws}.

Definition whole_bytes (n : Z) : Prop := n = 8 \/ n = 16 \/ n = 32 \/ n = 64.

Lemma whole_bytes_cases n : whole_bytes n -> 0 < n <= 64 /\ n mod 8 = 0.
Proof. by intros [-> | [-> | [-> | ->]]]. Qed.

Lemma store_and_incr_ok s src v n bo :
  packet_wf s -> bytes_hold bo src v -> 8 * Z.of_nat (length src) = n ->
  offset_in_cur_packet_bits (ser s) mod 8 = 0 ->
  offset_in_cur_packet_bits (ser s) + n <= 8 * cur_packet_size_bytes (ser s) ->
  exists s', (do t <- store_at_offset debug s src; do t <- _bt_ctfser_incr_offset debug t n;
              Some (0, t)) = Some (0, s') /\
    written bo s s' (offset_in_cur_packet_bits (ser s)) n v.
Proof using All.
  intros Hwf Hsrc Hl Hal Hfit.
  destruct (store_at_offset_stored debug s src v bo) as (s1 & -> & Hst); [done..|lia|].
  rewrite Hl in Hst.
  destruct (store_then_incr bo s s1 n v) as (s2 & -> & Hw); [done|lia|done..|].
  by exists s2.
Qed.

(** The fast path stores bytes that hold the value. *)
Lemma unsigned_no_align_stores s v n bo :
  packet_wf s -> whole_bytes n ->
  offset_in_cur_packet_bits (ser s) + n <= 8 * cur_packet_size_bytes (ser s) ->
  exists src, bytes_hold bo src v /\ 8 * Z.of_nat (length src) = n /\
    _bt_ctfser_write_byte_aligned_unsigned_int_no_align debug s v n bo =
      (do t <- store_at_offset debug s src; do t <- _bt_ctfser_incr_offset debug t n;
       Some (0, t)).
Proof using All.
  intros Hwf Hn Hfit. pose proof (whole_bytes_cases n Hn) as [? Hm].
  unfold _bt_ctfser_write_byte_aligned_unsigned_int_no_align, BT_ASSERT_DBG.
  rewrite has_space_left_wf, (proj2 (Z.leb_le _ _)), Hm, andb_false_r by (done || lia).
  destruct Hn as [-> | [-> | [-> | ->]]]; cbn [Z.eqb Pos.eqb negb]; rewrite ?andb_false_r;
    eexists; (split; [|split; [|reflexivity]]);
    rewrite ?length_le_bytes, ?length_ordered_bytes; try done; try by apply ordered_bytes_hold.
  eapply bytes_hold_low; [|by apply one_byte_hold]. rewrite length_le_bytes.
  intros i Hi. rewrite testbit_wrapu by lia. by rewrite (proj2 (Z.ltb_lt _ _)) by lia.
Qed.

Lemma signed_no_align_stores s v n bo :
  packet_wf s -> whole_bytes n ->
  offset_in_cur_packet_bits (ser s) + n <= 8 * cur_packet_size_bytes (ser s) ->
  exists src, bytes_hold bo src v /\ 8 * Z.of_nat (length src) = n /\
    _bt_ctfser_write_byte_aligned_signed_int_no_align debug s v n bo =
      (do t <- store_at_offset debug s src; do t <- _bt_ctfser_incr_offset debug t n;
       Some (0, t)).
Proof using All.
  intros Hwf Hn Hfit. pose proof (whole_bytes_cases n Hn) as [? Hm].
  unfold _bt_ctfser_write_byte_aligned_signed_int_no_align, BT_ASSERT_DBG.
  rewrite has_space_left_wf, (proj2 (Z.leb_le _ _)), Hm, andb_false_r by (done || lia).
  destruct Hn as [-> | [-> | [-> | ->]]]; cbn [Z.eqb Pos.eqb negb]; rewrite ?andb_false_r;
    eexists; (split; [|split; [|reflexivity]]);
    rewrite ?length_le_bytes, ?length_ordered_signed_bytes; try done;
    try by apply ordered_signed_bytes_hold.
  eapply bytes_hold_low; [|by apply one_byte_hold]. rewrite length_le_bytes.
  intros i Hi. rewrite testbit_wraps by lia. f_equal. lia.
Qed.

Lemma write_unsigned_no_align_ok s v n bo :
  packet_wf s -> whole_bytes n -> offset_in_cur_packet_bits (ser s) mod 8 = 0 ->
  offset_in_cur_packet_bits (ser s) + n <= 8 * cur_packet_size_bytes (ser s) ->
  exists s', _bt_ctfser_write_byte_aligned_unsigned_int_no_align debug s v n bo = Some (0, s') /\
    written bo s s' (offset_in_cur_packet_bits (ser s)) n v.
Proof using All.
  intros Hwf Hn Hal Hfit.
  destruct (unsigned_no_align_stores s v n bo) as (src & Hsrc & Hl & ->); [done..|].
  by apply store_and_incr_ok.
Qed.

Lemma write_signed_no_align_ok s v n bo :
  packet_wf s -> whole_bytes n -> offset_in_cur_packet_bits (ser s) mod 8 = 0 ->
  offset_in_cur_packet_bits (ser s) + n <= 8 * cur_packet_size_bytes (ser s) ->
  exists s', _bt_ctfser_write_byte_aligned_signed_int_no_align debug s v n bo = Some (0, s') /\
    written bo s s' (offset_in_cur_packet_bits (ser s)) n v.
Proof using All.
  intros Hwf Hn Hal Hfit.
  destruct (signed_no_align_stores s v n bo) as (src & Hsrc & Hl & ->); [done..|].
  by apply store_and_incr_ok.
Qed.

(** Two stores of the same field have the same effect. *)
Lemma stored_unique bo s s1 s2 n v :
  packet_wf s -> stored bo s s1 n v -> stored bo s s2 n v -> s1 = s2.
Proof using.
  intros Hwf [Hs1 Ho1 Hw1 Hl1 Hb1 Hbits1] [Hs2 Ho2 Hw2 Hl2 Hb2 Hbits2].
  assert (Hst : stream_from s1 = stream_from s2).
  { assert (E : forall t : state W, ser t = ser s -> length (file t) = length (file s) ->
              length (stream_from t) = length (stream_from s))
      by (intros t E1 E2; unfold stream_from; by rewrite !length_drop, E1, E2).
    apply (codec_ext (BitCodec := codec_of bo)); try by apply stream_from_wf.
    - by rewrite (E s1), (E s2).
    - intros k Hk. rewrite (E s1) in Hk by done. by rewrite Hbits1, Hbits2 by lia. }
  destruct s1 as [c1 f1 w1], s2 as [c2 f2 w2]. unfold before, stream_from in *. simpl in *.
  subst c1 c2 w1 w2. f_equal.
  rewrite <- (take_drop (Z.to_nat (mmap_offset (ser s))) f1), Hb1, Hst, <- Hb2.
  apply take_drop.
Qed.

(** A writer that aligns, makes space, then writes as [k] does. *)
Lemma aligned_write_ok s a n v bo k :
  packet_wf s -> align_ok a -> 0 <= n <= 64 ->
  align_up (offset_in_cur_packet_bits (ser s)) a + n <= 2 ^ 58 ->
  (forall s1, packet_wf s1 -> offset_in_cur_packet_bits (ser s1) mod a = 0 ->
     offset_in_cur_packet_bits (ser s1) + n <= 8 * cur_packet_size_bytes (ser s1) ->
     exists s2, k s1 = Some (0, s2) /\ written bo s1 s2 (offset_in_cur_packet_bits (ser s1)) n v) ->
  exists r s',
    (do (ret, t) <- bt_ctfser_align_offset_in_current_packet debug s a;
     if negb (ret =? 0) then Some (ret, t) else ensure_space t n k) = Some (r, s') /\
    (align_up (offset_in_cur_packet_bits (ser s)) a + n <= 8 * cur_packet_size_bytes (ser s) ->
       r = 0) /\
    (r = 0 -> written bo s s' (align_up (offset_in_cur_packet_bits (ser s)) a) n v).
Proof using All.
  intros Hwf Ha Hn Hroom Hk. pose proof page_size_bounds as Hps.
  pose proof (wf_off s Hwf) as Ho. pose proof (align_ok_pos a Ha) as Hpos.
  pose proof (align_up_range (offset_in_cur_packet_bits (ser s)) a ltac:(lia)) as Hup.
  pose proof (align_up_mod (offset_in_cur_packet_bits (ser s)) a ltac:(lia)) as Hmod.
  destruct (align_offset_ok s a Hwf Ha) as (r & s1 & -> & Hfast & Hr); [lia|].
  destruct (Z.eqb_spec r 0) as [->|Hr0]; cbn [negb].
  2:{ exists r, s1. split; [done|]. split; [|done]. intros. destruct Hfast; lia. }
  destruct (Hr eq_refl) as (Hl1 & Hoff1 & Hk1).
  destruct (ensure_space_ok s1 n k (lt_wf _ _ Hl1)) as (r & s2 & -> & Hfast2 & Hr2); [lia..|].
  destruct (Z.eqb_spec r 0) as [->|Hr0].
  2:{ exists r, s2. split; [done|]. split; [|done]. intros.
      destruct Hfast as [_ Hc]; [lia|]. destruct Hfast2; [lia|done]. }
  destruct (Hr2 eq_refl) as (Hl2 & Hoff2 & Hfit2 & Hk2).
  pose proof (lt_wf _ _ Hl2) as Hwf2.
  destruct (Hk s2) as (s3 & -> & Hw); [done|congruence|congruence|].
  exists 0, s3. split; [done|]. split; [done|]. intros _.
  destruct Hw as [Hl3 Ho3 Hk3 Hb3]. rewrite Hoff2, Hoff1 in *. constructor; try done.
  - by eapply later_trans, later_trans.
  - pose proof (lt_cur _ _ Hl1).
    eapply kept_trans; [eapply kept_le; [|apply Hk1]; lia|].
    eapply kept_trans; [eapply kept_le; [|apply Hk2]; lia|].
    eapply kept_le; [|exact Hk3]. lia.
Qed.

(** The sizes that the writers accept when the field is byte-aligned. *)
Definition size_ok (a n : Z) : Prop :=
  0 <= n <= 64 /\ (a mod 8 = 0 -> n mod 8 = 0 -> whole_bytes n).

Lemma mod8_mod a x : align_ok a -> a mod 8 = 0 -> x mod a = 0 -> x mod 8 = 0.
Proof using OsLaws0.
  intros Ha H8 Hx. pose proof (align_ok_pos a Ha).
  apply Z.mod_divide in H8 as [p ->]; [|lia]. apply Z.mod_divide in Hx as [q ->]; [|lia].
  rewrite Z.mul_assoc. by apply Z.mod_mul.
Qed.

Lemma write_int_ok s a n v tv bo no_align :
  packet_wf s -> align_ok a -> size_ok a n -> ct_ok tv ->
  align_up (offset_in_cur_packet_bits (ser s)) a + n <= 2 ^ 58 ->
  (forall s1, packet_wf s1 -> whole_bytes n -> offset_in_cur_packet_bits (ser s1) mod 8 = 0 ->
     offset_in_cur_packet_bits (ser s1) + n <= 8 * cur_packet_size_bytes (ser s1) ->
     exists s2, no_align s1 = Some (0, s2) /\
       written bo s1 s2 (offset_in_cur_packet_bits (ser s1)) n v) ->
  exists r s',
    (do (ret, t) <- bt_ctfser_align_offset_in_current_packet debug s a;
     if negb (ret =? 0) then Some (ret, t) else
     ensure_space t n (fun t =>
       if (a mod 8 =? 0) && (n mod 8 =? 0) then no_align t
       else do t <- write_bitfield t tv v n bo; do t <- _bt_ctfser_incr_offset debug t n;
            Some (0, t))) = Some (r, s') /\
    (align_up (offset_in_cur_packet_bits (ser s)) a + n <= 8 * cur_packet_size_bytes (ser s) ->
       r = 0) /\
    (r = 0 -> written bo s s' (align_up (offset_in_cur_packet_bits (ser s)) a) n v).
Proof using All.
  intros Hwf Ha [Hn Hwhole] Htv Hroom Hna. apply aligned_write_ok; try done.
  intros s1 Hwf1 Hmod Hfit.
  destruct (Z.eqb_spec (a mod 8) 0) as [H8|H8]; destruct (Z.eqb_spec (n mod 8) 0) as [Hn8|Hn8];
    cbn [andb]; try (destruct (write_bitfield_stored s1 tv v n bo) as (s2 & -> & Hst); [done|done|lia|done|];
      destruct (store_then_incr bo s1 s2 n v) as (s3 & -> & Hw); [done|lia|done..|]; by exists s3).
  apply Hna; auto. by eapply mod8_mod.
Qed.

Lemma write_unsigned_int_ok s v a n bo :
  packet_wf s -> align_ok a -> size_ok a n ->
  align_up (offset_in_cur_packet_bits (ser s)) a + n <= 2 ^ 58 ->
  exists r s', bt_ctfser_write_unsigned_int debug s v a n bo = Some (r, s') /\
    (align_up (offset_in_cur_packet_bits (ser s)) a + n <= 8 * cur_packet_size_bytes (ser s) ->
       r = 0) /\
    (r = 0 -> written bo s s' (align_up (offset_in_cur_packet_bits (ser s)) a) n v).
Proof using All.
  intros. apply write_int_ok; try done; [by right; right; right|].
  intros. by apply write_unsigned_no_align_ok.
Qed.

Lemma write_signed_int_ok s v a n bo :
  packet_wf s -> align_ok a -> size_ok a n ->
  align_up (offset_in_cur_packet_bits (ser s)) a + n <= 2 ^ 58 ->
  exists r s', bt_ctfser_write_signed_int debug s v a n bo = Some (r, s') /\
    (align_up (offset_in_cur_packet_bits (ser s)) a + n <= 8 * cur_packet_size_bytes (ser s) ->
       r = 0) /\
    (r = 0 -> written bo s s' (align_up (offset_in_cur_packet_bits (ser s)) a) n v).
Proof using All.
  intros. apply write_int_ok; try done; [by right; right; right|].
  intros. by apply write_signed_no_align_ok.
Qed.

(** * Lemmas: bytes *)

(** Bit [k] of the field of [n] bits at [a] is that of [v], for every [k]. *)
Definition field_bits bo (b : list Z) (a n v : Z) : Prop :=
  forall k, a <= k < a + n -> bit_of bo b k = Z.testbit v (index_of bo a n k).

Definition byte_fields bo (b : list Z) (a : Z) (bs : list Z) : Prop :=
  forall i x, bs !! i = Some x -> field_bits bo b (a + 8 * Z.of_nat i) 8 x.

Record written_bytes bo s s' (a : Z) (bs : list Z) : Prop := {
  wb_later : later s s';
  wb_off : offset_in_cur_packet_bits (ser s') = a + 8 * Z.of_nat (length bs);
  wb_kept : kept bo (offset_in_cur_packet_bits (ser s)) s s';
  wb_bytes : byte_fields bo (stream_from s') a bs
}.

Lemma one_byte_value bo x : 0 <= x < 2 ^ 8 -> bytes_hold bo [x] x.
Proof using.
  intros Hx. pose proof (one_byte_hold bo 1 x eq_refl) as Hh. simpl in Hh.
  change (Z.pow_pos 2 8) with 256 in Hh. by rewrite Z.mod_small in Hh by lia.
Qed.

Lemma field_bits_kept bo s s' m a n v :
  kept bo m s s' -> 0 <= a -> a + n <= m ->
  field_bits bo (stream_from s) a n v -> field_bits bo (stream_from s') a n v.
Proof using. intros Hk Ha Hm Hf k Hkk. rewrite Hk by lia. by apply Hf. Qed.

Lemma write_bytes_ok s bs bo :
  packet_wf s -> buf_wf 8 bs -> offset_in_cur_packet_bits (ser s) mod 8 = 0 ->
  offset_in_cur_packet_bits (ser s) + 8 * Z.of_nat (length bs) <= 2 ^ 58 ->
  exists r s', write_bytes debug s bs = Some (r, s') /\
    (offset_in_cur_packet_bits (ser s) + 8 * Z.of_nat (length bs)
       <= 8 * cur_packet_size_bytes (ser s) -> r = 0) /\
    (r = 0 -> written_bytes bo s s' (offset_in_cur_packet_bits (ser s)) bs).
Proof using All.
  pose proof page_size_bounds as Hps. revert s.
  induction bs as [|x bs IH]; intros s Hwf Hbs Hal Hroom; simpl.
  { exists 0, s. split; [done|]. split; [done|]. intros _.
    constructor; [by apply later_refl|simpl; lia|done|done]. }
  apply Forall_cons_1 in Hbs as [Hx Hbs]. simpl in Hroom. pose proof (wf_off s Hwf) as Ho.
  match goal with |- context [ensure_space s 8 ?k] => set (cont := k) end.
  destruct (ensure_space_ok s 8 cont Hwf) as (r & s1 & -> & Hfast & Hr); [lia..|].
  destruct (Z.eqb_spec r 0) as [->|Hr0].
  2:{ exists r, s1. split; [done|]. split; [|done]. intros. destruct Hfast; [lia|done]. }
  destruct (Hr eq_refl) as (Hl1 & Hoff1 & Hfit1 & Hk1). pose proof (lt_wf _ _ Hl1) as Hwf1.
  subst cont. cbv beta.
  destruct (store_at_offset_stored debug s1 [x] x bo) as (s2 & -> & Hst);
    [done|by apply one_byte_value|congruence|simpl; lia|].
  destruct (store_then_incr bo s1 s2 8 x) as (s3 & -> & [Hl3 Ho3 Hk3 Hb3]); [done|lia|lia|done|].
  rewrite Hoff1 in *.
  destruct (IH s3) as (r & s4 & -> & Hfast4 & Hr4);
    [apply Hl3|done|rewrite Ho3; div_lia|lia|].
  exists r, s4. split; [done|]. split.
  { intros. apply Hfast4. pose proof (lt_cur _ _ Hl3). destruct Hfast as [_ ->]; lia. }
  intros ->. destruct (Hr4 eq_refl) as [Hl4 Ho4 Hk4 Hb4]. rewrite Ho3 in *. constructor.
  - by eapply later_trans, later_trans.
  - simpl. lia.
  - eapply kept_trans; [eapply kept_le; [|apply Hk1]; lia|].
    eapply kept_trans; [exact Hk3|]. eapply kept_le; [|exact Hk4]. lia.
  - intros [|i] y Hy; simpl in Hy.
    + injection Hy as <-. eapply field_bits_kept; [exact Hk4|lia|lia|].
      replace (offset_in_cur_packet_bits (ser s) + 8 * Z.of_nat 0)
        with (offset_in_cur_packet_bits (ser s)) by lia. exact Hb3.
    + replace (offset_in_cur_packet_bits (ser s) + 8 * Z.of_nat (S i))
        with (offset_in_cur_packet_bits (ser s) + 8 + 8 * Z.of_nat i) by lia.
      by apply Hb4.
Qed.

Lemma align_ok_8 : align_ok 8.
Proof using OsLaws0. exists 3. pose proof page_size_bounds. split; [lia|]. split; [done|lia]. Qed.

Lemma write_aligned_bytes_ok s bs bo :
  packet_wf s -> buf_wf 8 bs ->
  align_up (offset_in_cur_packet_bits (ser s)) 8 + 8 * Z.of_nat (length bs) <= 2 ^ 58 ->
  exists r s',
    (do (ret, t) <- bt_ctfser_align_offset_in_current_packet debug s 8;
     if negb (ret =? 0) then Some (ret, t) else write_bytes debug t bs) = Some (r, s') /\
    (align_up (offset_in_cur_packet_bits (ser s)) 8 + 8 * Z.of_nat (length bs)
       <= 8 * cur_packet_size_bytes (ser s) -> r = 0) /\
    (r = 0 -> written_bytes bo s s' (align_up (offset_in_cur_packet_bits (ser s)) 8) bs).
Proof using All.
  intros Hwf Hbs Hroom. pose proof (wf_off s Hwf) as Ho.
  pose proof (align_up_range (offset_in_cur_packet_bits (ser s)) 8 ltac:(lia)) as Hup.
  destruct (align_offset_ok s 8 Hwf align_ok_8) as (r & s1 & -> & Hfast & Hr); [lia|].
  destruct (Z.eqb_spec r 0) as [->|Hr0]; cbn [negb].
  2:{ exists r, s1. split; [done|]. split; [|done]. intros. destruct Hfast; lia. }
  destruct (Hr eq_refl) as (Hl1 & Hoff1 & Hk1).
  destruct (write_bytes_ok s1 bs bo) as (r & s2 & -> & Hfast2 & Hr2);
    [apply Hl1|done|rewrite Hoff1; by apply align_up_mod|lia|].
  exists r, s2. split; [done|]. rewrite Hoff1 in *. split.
  { intros. apply Hfast2. destruct Hfast as [_ ->]; lia. }
  intros ->. destruct (Hr2 eq_refl) as [Hl2 Ho2 Hk2 Hb2]. constructor; try done.
  - by eapply later_trans.
  - eapply kept_trans; [eapply kept_le; [|apply Hk1]; lia|].
    eapply kept_le; [|exact Hk2]. lia.
Qed.

(** * Lemmas: sequences of fields *)

Inductive field :=
| FUnsigned (value alignment size : Z)
| FSigned (value alignment size : Z)
| FString (chars : list Z).

Definition field_ok (f : field) : Prop :=
  match f with
  | FUnsigned v a n => align_ok a /\ size_ok a n /\ ct_range uint64_t v
  | FSigned v a n => align_ok a /\ size_ok a n /\ ct_range int64_t v
  | FString cs => Forall (fun x => 0 < x < 2 ^ 8) cs
  end.

Definition write_field s (bo : byte_order) (f : field) : option (Z * state W) :=
  match f with
  | FUnsigned v a n => bt_ctfser_write_unsigned_int debug s v a n bo
  | FSigned v a n => bt_ctfser_write_signed_int debug s v a n bo
  | FString cs => bt_ctfser_write_string debug s cs
  end.

Fixpoint write_fields s (bo : byte_order) (fs : list field) : option (Z * state W) :=
  match fs with
  | [] => Some (0, s)
  | f :: fs =>
      do (ret, t) <- write_field s bo f;
      if negb (ret =? 0) then Some (ret, t) else write_fields t bo fs
  end.

(** The offset after the field, from the offset before it. *)
Definition field_end (off : Z) (f : field) : Z :=
  match f with
  | FUnsigned _ a n | FSigned _ a n => align_up off a + n
  | FString cs => align_up off 8 + 8 * (Z.of_nat (length cs) + 1)
  end.
Definition fields_end (off : Z) (fs : list field) : Z := fold_left field_end fs off.

Definition field_at bo (b : list Z) (off : Z) (f : field) : Prop :=
  match f with
  | FUnsigned v a n | FSigned v a n => field_bits bo b (align_up off a) n v
  | FString cs => byte_fields bo b (align_up off 8) (cs ++ [0])
  end.

Fixpoint fields_at bo (b : list Z) (off : Z) (fs : list field) : Prop :=
  match fs with
  | [] => True
  | f :: fs => field_at bo b off f /\ fields_at bo b (field_end off f) fs
  end.

Lemma field_end_ge off f : field_ok f -> off <= field_end off f.
Proof using OsLaws0.
  destruct f as [v a n|v a n|cs]; simpl; intros Hf.
  1,2: destruct Hf as (Ha & [Hn _] & _); pose proof (align_ok_pos a Ha);
       pose proof (align_up_range off a); lia.
  pose proof (align_up_range off 8). lia.
Qed.

Lemma fields_end_ge fs off : Forall field_ok fs -> off <= fields_end off fs.
Proof using OsLaws0.
  revert off. induction fs as [|f fs IH]; intros off; simpl; [lia|].
  intros [Hf Hfs]%Forall_cons_1. pose proof (field_end_ge off f Hf).
  specialize (IH (field_end off f) Hfs). unfold fields_end in *. lia.
Qed.

(** Only the bits up to the field's end matter. *)
Lemma field_at_agree bo b b' off f :
  field_ok f -> 0 <= off ->
  (forall k, 0 <= k < field_end off f -> bit_of bo b' k = bit_of bo b k) ->
  field_at bo b off f -> field_at bo b' off f.
Proof using OsLaws0.
  destruct f as [v a n|v a n|cs]; simpl; intros Hf Ho Hk.
  1,2: destruct Hf as (Ha & [Hn _] & _); pose proof (align_ok_pos a Ha);
       pose proof (align_up_range off a);
       intros Hb k Hkk; rewrite Hk by lia; by apply Hb.
  pose proof (align_up_range off 8). intros Hb i x Hx k Hkk.
  pose proof (lookup_lt_Some _ _ _ Hx) as Hi. rewrite length_app in Hi. simpl in Hi.
  rewrite Hk by lia. by apply (Hb i).
Qed.

Lemma fields_at_agree bo b b' fs off :
  Forall field_ok fs -> 0 <= off ->
  (forall k, 0 <= k < fields_end off fs -> bit_of bo b' k = bit_of bo b k) ->
  fields_at bo b off fs -> fields_at bo b' off fs.
Proof using OsLaws0.
  revert off. induction fs as [|f fs IH]; intros off Hok Ho Hk; simpl; [done|].
  apply Forall_cons_1 in Hok as [Hf Hok]. intros [Hhd Htl].
  pose proof (field_end_ge off f Hf). pose proof (fields_end_ge fs (field_end off f) Hok).
  unfold fields_end in *. simpl in *. split.
  - eapply field_at_agree; [done|done| |exact Hhd]. intros. apply Hk. lia.
  - eapply IH; [done|lia| |exact Htl]. exact Hk.
Qed.

Lemma write_field_ok s f bo :
  packet_wf s -> field_ok f -> field_end (offset_in_cur_packet_bits (ser s)) f <= 2 ^ 58 ->
  exists r s', write_field s bo f = Some (r, s') /\
    (r = 0 -> later s s' /\
       offset_in_cur_packet_bits (ser s') = field_end (offset_in_cur_packet_bits (ser s)) f /\
       kept bo (offset_in_cur_packet_bits (ser s)) s s' /\
       field_at bo (stream_from s') (offset_in_cur_packet_bits (ser s)) f).
Proof using All.
  intros Hwf Hf Hroom. destruct f as [v a n|v a n|cs]; simpl in *.
  - destruct Hf as (Ha & Hn & _).
    destruct (write_unsigned_int_ok s v a n bo) as (r & s' & -> & _ & Hr); [done..|].
    exists r, s'. split; [done|]. intros E. by destruct (Hr E).
  - destruct Hf as (Ha & Hn & _).
    destruct (write_signed_int_ok s v a n bo) as (r & s' & -> & _ & Hr); [done..|].
    exists r, s'. split; [done|]. intros E. by destruct (Hr E).
  - unfold bt_ctfser_write_string.
    destruct (write_aligned_bytes_ok s (cs ++ [0]) bo) as (r & s' & -> & _ & Hr);
      [done| |rewrite length_app; simpl; lia|].
    { apply Forall_app. split; [|by repeat constructor].
      eapply Forall_impl; [|exact Hf]. simpl. lia. }
    exists r, s'. split; [done|]. intros E. destruct (Hr E) as [Hl Ho Hk Hb].
    rewrite length_app in Ho. simpl in Ho.
    split; [done|]. split; [lia|]. split; done.
Qed.

Lemma write_fields_ok fs s bo :
  packet_wf s -> Forall field_ok fs ->
  fields_end (offset_in_cur_packet_bits (ser s)) fs <= 2 ^ 58 ->
  exists r s', write_fields s bo fs = Some (r, s') /\
    (r = 0 -> later s s' /\
       offset_in_cur_packet_bits (ser s') = fields_end (offset_in_cur_packet_bits (ser s)) fs /\
       kept bo (offset_in_cur_packet_bits (ser s)) s s' /\
       fields_at bo (stream_from s') (offset_in_cur_packet_bits (ser s)) fs).
Proof using All.
  revert s. induction fs as [|f fs IH]; intros s Hwf Hok Hroom; simpl.
  { exists 0, s. split; [done|]. intros _. split; [by apply later_refl|done]. }
  apply Forall_cons_1 in Hok as [Hf Hok]. unfold fields_end in Hroom. simpl in Hroom.
  fold (fields_end (field_end (offset_in_cur_packet_bits (ser s)) f) fs) in Hroom.
  pose proof (fields_end_ge fs (field_end (offset_in_cur_packet_bits (ser s)) f) Hok).
  pose proof (field_end_ge (offset_in_cur_packet_bits (ser s)) f Hf).
  pose proof (wf_off s Hwf) as Ho.
  destruct (write_field_ok s f bo) as (r & s1 & -> & Hr); [done|done|lia|].
  destruct (Z.eqb_spec r 0) as [->|]; cbn [negb]; [|by exists r, s1].
  destruct (Hr eq_refl) as (Hl1 & Ho1 & Hk1 & Hf1).
  destruct (IH s1) as (r & s2 & -> & Hr2); [apply Hl1|done|by rewrite Ho1|].
  exists r, s2. split; [done|]. intros ->. destruct (Hr2 eq_refl) as (Hl2 & Ho2 & Hk2 & Hf2).
  rewrite Ho1 in *. split; [by eapply later_trans|]. split; [done|]. split.
  - eapply kept_trans; [exact Hk1|]. eapply kept_le; [|exact Hk2]. lia.
  - split; [|done]. eapply field_at_agree; [done|lia| |exact Hf1]. exact Hk2.
Qed.

(** * A reference reader *)

Definition canonical (f : field) : field :=
  match f with
  | FUnsigned v a n => FUnsigned (field_value uint64_t n v) a n
  | FSigned v a n => FSigned (field_value int64_t n v) a n
  | FString cs => FString cs
  end.

(** Characters up to the null one, and the offset after it. *)
Fixpoint read_string (bo : byte_order) (fuel : nat) (b : list Z) (off : Z)
  : option (list Z * Z) :=
  match fuel with
  | O => None
  | S fuel =>
      do x <- read_of bo uint64_t b off 8;
      if x =? 0 then Some ([], off + 8) else
      do (r, e) <- read_string bo fuel b (off + 8);
      Some (x :: r, e)
  end.

(** Reads a field of the shape of [f]. *)
Definition read_field (bo : byte_order) (b : list Z) (off : Z) (f : field)
  : option (field * Z) :=
  match f with
  | FUnsigned _ a n =>
      do x <- read_of bo uint64_t b (align_up off a) n;
      Some (FUnsigned x a n, align_up off a + n)
  | FSigned _ a n =>
      do x <- read_of bo int64_t b (align_up off a) n;
      Some (FSigned x a n, align_up off a + n)
  | FString _ =>
      do (cs, e) <- read_string bo (S (length b)) b (align_up off 8);
      Some (FString cs, e)
  end.

Fixpoint read_fields (bo : byte_order) (b : list Z) (off : Z) (fs : list field)
  : option (list field * Z) :=
  match fs with
  | [] => Some ([], off)
  | f :: fs =>
      do (x, off) <- read_field bo b off f;
      do (xs, off) <- read_fields bo b off fs;
      Some (x :: xs, off)
  end.

Section reader.
Context (bo : byte_order) (b : list Z).
Context (Hb : buf_wf 8 b) (Hmem : Z.of_nat (length b) <= 2 ^ 60).

Lemma read_of_bits tv a n v :
  ct_ok tv -> ct_range tv v -> 0 <= a -> 0 <= n -> a + n <= 8 * Z.of_nat (length b) ->
  field_bits bo b a n v -> read_of bo tv b a n = Some (field_value tv n v).
Proof using Hb Hmem. intros. apply (codec_read (BitCodec := codec_of bo)); done || lia. Qed.

Lemma field_value_byte x : 0 <= x < 2 ^ 8 -> field_value uint64_t 8 x = x.
Proof using. intros. by apply (wrapu_small 8). Qed.

Lemma read_string_ok cs a fuel :
  Forall (fun x => 0 < x < 2 ^ 8) cs -> 0 <= a -> (length cs < fuel)%nat ->
  a + 8 * (Z.of_nat (length cs) + 1) <= 8 * Z.of_nat (length b) ->
  byte_fields bo b a (cs ++ [0]) ->
  read_string bo fuel b a = Some (cs, a + 8 * (Z.of_nat (length cs) + 1)).
Proof using Hb Hmem.
  revert a fuel. induction cs as [|c cs IH]; intros a [|fuel] Hcs Ha Hf Hfit Hby; simpl in *; try lia.
  - rewrite (read_of_bits uint64_t a 8 0); [|by right; right; right|done|lia..|].
    2:{ specialize (Hby 0%nat 0 eq_refl).
        by replace (a + 8 * Z.of_nat 0) with a in Hby by lia. }
    rewrite field_value_byte by lia. done.
  - apply Forall_cons_1 in Hcs as [Hc Hcs].
    rewrite (read_of_bits uint64_t a 8 c).
    2:{ right; right; by right. }
    2:{ apply wrapu_small. simpl. lia. }
    2-4: lia.
    2:{ specialize (Hby 0%nat c eq_refl).
        by replace (a + 8 * Z.of_nat 0) with a in Hby by lia. }
    rewrite field_value_byte, (proj2 (Z.eqb_neq c 0)) by lia.
    rewrite IH; [f_equal; f_equal; lia|done|lia|lia|lia|].
    intros i x Hx. specialize (Hby (S i) x Hx).
    by replace (a + 8 + 8 * Z.of_nat i) with (a + 8 * Z.of_nat (S i)) by lia.
Qed.

Lemma read_field_ok f off :
  field_ok f -> 0 <= off -> field_end off f <= 8 * Z.of_nat (length b) ->
  field_at bo b off f -> read_field bo b off f = Some (canonical f, field_end off f).
Proof using Hb Hmem OsLaws0.
  intros Hf Ho Hfit Hat. destruct f as [v a n|v a n|cs]; simpl in *.
  - destruct Hf as (Ha & [Hn _] & Hv). pose proof (align_ok_pos a Ha).
    pose proof (align_up_range off a).
    rewrite (read_of_bits uint64_t _ n v); try done; [by right; right; right|lia|lia].
  - destruct Hf as (Ha & [Hn _] & Hv). pose proof (align_ok_pos a Ha).
    pose proof (align_up_range off a).
    rewrite (read_of_bits int64_t _ n v); try done; [by right; right; right|lia|lia].
  - pose proof (align_up_range off 8).
    pose proof (read_string_ok cs (align_up off 8) (S (length b)) Hf ltac:(lia) ltac:(lia) Hfit Hat)
      as E. simpl in E. by rewrite E.
Qed.

Lemma read_fields_ok fs off :
  Forall field_ok fs -> 0 <= off -> fields_end off fs <= 8 * Z.of_nat (length b) ->
  fields_at bo b off fs ->
  read_fields bo b off fs = Some (map canonical fs, fields_end off fs).
Proof using Hb Hmem OsLaws0.
  revert off. induction fs as [|f fs IH]; intros off Hok Ho Hfit Hat; [done|].
  apply Forall_cons_1 in Hok as [Hf Hok]. destruct Hat as [Hhd Htl].
  unfold fields_end in Hfit. simpl in Hfit. fold (fields_end (field_end off f) fs) in Hfit.
  pose proof (fields_end_ge fs (field_end off f) Hok). pose proof (field_end_ge off f Hf).
  cbn [read_fields]. rewrite read_field_ok by (done || lia). rewrite IH by (done || lia). done.
Qed.
End reader.

(** A field of the stream that lies in the packet is read from the packet. *)
Lemma packet_field bo s tv a n v :
  packet_wf s -> ct_ok tv -> ct_range tv v -> 0 <= a -> 0 <= n ->
  a + n <= 8 * cur_packet_size_bytes (ser s) -> field_bits bo (stream_from s) a n v ->
  read_of bo tv (packet s) a n = Some (field_value tv n v).
Proof using.
  intros Hwf Htv Hv Ha Hn Hfit Hb. pose proof (length_stream_from s Hwf) as Hsl.
  pose proof (wf_cur s Hwf).
  assert (Hlen : length (packet s) = Z.to_nat (cur_packet_size_bytes (ser s)))
    by (unfold packet; rewrite length_take; lia).
  apply (read_of_bits bo (packet s)); rewrite ?Hlen; try (done || lia).
  - by apply Forall_take, stream_from_wf.
  - intros k Hk. rewrite <- (Hb k Hk).
    apply (codec_bit_local (BitCodec := codec_of bo)); [lia|]. unfold packet.
    apply lookup_take_lt. div_lia.
Qed.

(** * Lemmas: packets and the stream *)

(** Between two packets (or before the first one). *)
Record between s : Prop := {
  bw_fd : 0 <= fd (ser s);
  bw_mma : base_mma (ser s) = MmaNull \/ exists d, base_mma (ser s) = MmaLive d;
  bw_base : mmap_base_offset (ser s) = 0;
  bw_mo : 0 <= mmap_offset (ser s);
  bw_prev : 0 <= prev_packet_size_bytes (ser s);
  bw_stream : mmap_offset (ser s) + prev_packet_size_bytes (ser s) = stream_size_bytes (ser s);
  bw_size : stream_size_bytes (ser s) <= Z.of_nat (length (file s));
  bw_file : buf_wf 8 (file s)
}.

(** The bytes of the closed packets. *)
Definition stream_bytes s : list Z := take (Z.to_nat (stream_size_bytes (ser s))) (file s).

(** [if (base_mma) { munmap...; base_mma = NULL }] *)
Lemma unmap_if_live_ok s :
  base_mma (ser s) = MmaNull \/ (exists d, base_mma (ser s) = MmaLive d) ->
  exists r w m,
    match base_mma (ser s) with
    | MmaNull => Some (0, s)
    | _ => do (ret, t) <- munmap_align s;
           if negb (ret =? 0) then Some (ret, t)
           else Some (0, set_ser t (set_mma (ser t) MmaNull))
    end = Some (r, State (set_mma (ser s) m) (file s) w) /\ (r = 0 -> m = MmaNull).
Proof using.
  intros Hm. unfold munmap_align. destruct s as [[? ? ? ? ? ? ? m] f w]. simpl in *.
  destruct Hm as [-> | [d ->]].
  - by exists 0, w, MmaNull.
  - destruct (os_munmap w) as [r w']. destruct (Z.eqb_spec r 0); cbn [negb].
    + by exists 0, w', MmaNull.
    + by exists r, w', MmaFreed.
Qed.

Lemma open_packet_ok s :
  between s -> stream_size_bytes (ser s) <= 2 ^ 60 ->
  exists r s', bt_ctfser_open_packet s = Some (r, s') /\
    (r = 0 -> packet_wf s' /\ offset_in_cur_packet_bits (ser s') = 0 /\
       fd (ser s') = fd (ser s) /\
       mmap_offset (ser s') = stream_size_bytes (ser s) /\
       stream_size_bytes (ser s') = stream_size_bytes (ser s) /\
       before s' = stream_bytes s).
Proof using OsLaws0.
  intros Hb Hroom. pose proof Hb as [Hfd Hmma Hbase Hmo Hprev Hst Hsz Hf].
  pose proof page_size_bounds as Hps.
  unfold bt_ctfser_open_packet.
  destruct (unmap_if_live_ok s Hmma) as (r & w & m & -> & Hm).
  destruct (Z.eqb_spec r 0) as [->|]; cbn [negb]; [|by eexists _, _].
  rewrite (Hm eq_refl) in *. clear Hm. cbn [ser set_mma mmap_offset prev_packet_size_bytes].
  rewrite wraps_small by lia. rewrite increment_eq, Hst.
  set (s1 := set_ser _ _).
  destruct (map_packet_ok s1) as (r & s2 & -> & Hs2 & Hpre & Hw & Hlen); [simpl; lia..|].
  destruct (Z.eqb_spec r 0) as [->|]; cbn [negb]; [|by eexists _, _].
  specialize (Hlen eq_refl).
  destruct (mmap_align_ctfser_ok (set_ser s2 (set_offset (ser s2) 0)))
    as (m2 & w2 & -> & Hm2); [simpl; rewrite Hs2; simpl; lia..|].
  cbn [ser base_mma set_mma].
  destruct Hm2 as [-> | [-> [d' Hd']]]; eexists _, _; (split; [reflexivity|]); [done|intros _].
  simpl in *. rewrite Hs2 in *. subst s1. simpl in *.
  split; [|split; [done|split; [done|split; [done|split; [done|]]]]].
  - constructor; simpl; rewrite ?Hs2; simpl; try (done || lia); [by exists d'|by apply Hw].
  - unfold before, stream_bytes. simpl. rewrite ?Hs2. simpl.
    destruct Hpre as [g ->]. apply take_app_le. lia.
Qed.

Lemma close_packet_ok s n :
  packet_wf s -> 0 <= n <= cur_packet_size_bytes (ser s) -> 0 <= fd (ser s) ->
  mmap_offset (ser s) = stream_size_bytes (ser s) ->
  between (bt_ctfser_close_current_packet s n) /\
  stream_size_bytes (ser (bt_ctfser_close_current_packet s n)) = mmap_offset (ser s) + n /\
  stream_bytes (bt_ctfser_close_current_packet s n) =
    before s ++ take (Z.to_nat n) (stream_from s).
Proof using.
  intros Hwf Hn Hfd Hst. pose proof Hwf as [[d []] Hb Ho Hc Hmo Hsz Hf].
  unfold bt_ctfser_close_current_packet. simpl.
  rewrite <- Hst, wrapu_small by lia.
  split; [|split; [done|]].
  - constructor; simpl; try (done || lia). right. by exists d.
  - unfold stream_bytes, before, stream_from. simpl. rewrite Z2Nat.inj_add by lia.
    by rewrite take_take_drop.
Qed.

(** How the sink uses the serializer: every packet is opened, its fields are
    written, and it is closed at the next byte boundary. *)
Definition write_packet s (bo : byte_order) (fs : list field) : option (Z * state W) :=
  do (ret, t) <- bt_ctfser_open_packet s;
  if negb (ret =? 0) then Some (ret, t) else
  do (ret, t) <- write_fields t bo fs;
  if negb (ret =? 0) then Some (ret, t) else
  do (ret, t) <- bt_ctfser_align_offset_in_current_packet debug t 8;
  if negb (ret =? 0) then Some (ret, t) else
  Some (0, bt_ctfser_close_current_packet t
             (bt_ctfser_get_offset_in_current_packet_bits t / 8)).

Fixpoint write_packets s (bo : byte_order) (pks : list (list field)) : option (Z * state W) :=
  match pks with
  | [] => Some (0, s)
  | fs :: pks =>
      do (ret, t) <- write_packet s bo fs;
      if negb (ret =? 0) then Some (ret, t) else write_packets t bo pks
  end.

Definition write_stream s (bo : byte_order) (pks : list (list field)) : option (Z * state W) :=
  let '(ret, t) := bt_ctfser_init s in
  if negb (ret =? 0) then Some (ret, t) else
  do (ret, t) <- write_packets t bo pks;
  if negb (ret =? 0) then Some (ret, t) else bt_ctfser_fini t.

Definition packet_bytes (fs : list field) : Z := align_up (fields_end 0 fs) 8 / 8.
Definition packets_bytes (pks : list (list field)) : Z :=
  foldr (fun fs n => packet_bytes fs + n) 0 pks.

(** Reads the packets of a stream one after the other. *)
Fixpoint read_stream (bo : byte_order) (b : list Z) (pks : list (list field))
  : option (list (list field)) :=
  match pks with
  | [] => match b with [] => Some [] | _ => None end
  | fs :: pks =>
      do (xs, off) <- read_fields bo b 0 fs;
      do r <- read_stream bo (drop (Z.to_nat (align_up off 8 / 8)) b) pks;
      Some (xs :: r)
  end.

Definition packet_ok (fs : list field) : Prop :=
  Forall field_ok fs /\ fields_end 0 fs <= 2 ^ 57.

Lemma packet_bytes_eq fs : packet_ok fs ->
  8 * packet_bytes fs = align_up (fields_end 0 fs) 8 /\ 0 <= packet_bytes fs.
Proof using OsLaws0.
  intros [Hok _]. pose proof (fields_end_ge fs 0 Hok).
  pose proof (align_up_mod (fields_end 0 fs) 8). pose proof (align_up_range (fields_end 0 fs) 8).
  unfold packet_bytes. div_lia.
Qed.

Lemma write_packet_ok s fs bo :
  between s -> stream_size_bytes (ser s) <= 2 ^ 60 -> packet_ok fs ->
  exists r s', write_packet s bo fs = Some (r, s') /\
    (r = 0 -> between s' /\
       stream_size_bytes (ser s') = stream_size_bytes (ser s) + packet_bytes fs /\
       exists p, stream_bytes s' = stream_bytes s ++ p /\ buf_wf 8 p /\
         Z.of_nat (length p) = packet_bytes fs /\ fields_at bo p 0 fs).
Proof using All.
  intros Hb Hroom Hpk. pose proof (packet_bytes_eq fs Hpk) as [Hpb Hpb0].
  destruct Hpk as [Hok Hend]. pose proof (align_up_range (fields_end 0 fs) 8).
  unfold write_packet.
  destruct (open_packet_ok s Hb Hroom) as (r & s1 & -> & Hr).
  destruct (Z.eqb_spec r 0) as [->|]; cbn [negb]; [|by eexists _, _].
  destruct (Hr eq_refl) as (Hwf1 & Ho1 & Hfd1 & Hmo1 & Hss1 & Hbf1).
  destruct (write_fields_ok fs s1 bo Hwf1 Hok) as (r & s2 & -> & Hr2); [rewrite Ho1; lia|].
  destruct (Z.eqb_spec r 0) as [->|]; cbn [negb]; [|by eexists _, _].
  destruct (Hr2 eq_refl) as (Hl2 & Ho2 & Hk2 & Hf2). rewrite Ho1 in *.
  destruct (align_offset_ok s2 8 (lt_wf _ _ Hl2) align_ok_8) as (r & s3 & -> & _ & Hr3);
    [rewrite Ho2; lia|].
  destruct (Z.eqb_spec r 0) as [->|]; cbn [negb]; [|by eexists _, _].
  destruct (Hr3 eq_refl) as (Hl3 & Ho3 & Hk3). rewrite Ho2 in *.
  pose proof (later_trans _ _ _ Hl2 Hl3) as Hl. pose proof Hl as [Hwf3 Hfd Hmo _ Hss Hcur Hbef].
  pose proof (wf_off s3 Hwf3) as Hoff3. pose proof (length_stream_from s3 Hwf3) as Hsl.
  unfold bt_ctfser_get_offset_in_current_packet_bits. rewrite Ho3.
  fold (packet_bytes fs).
  destruct (close_packet_ok s3 (packet_bytes fs) Hwf3) as (Hbw & Hsz & Hby);
    [lia|rewrite Hfd, Hfd1; apply Hb|congruence|].
  eexists _, _. split; [reflexivity|]. intros _. split; [done|]. split; [congruence|].
  eexists. split; [rewrite Hby, Hbef, Hbf1; reflexivity|].
  split; [by apply Forall_take, stream_from_wf|]. split; [rewrite length_take; lia|].
  eapply fields_at_agree; [done|lia| |eapply fields_at_agree; [done|lia| |exact Hf2]].
  - intros k Hk. apply (codec_bit_local (BitCodec := codec_of bo)); [lia|].
    apply lookup_take_lt. div_lia.
  - intros k Hk. apply Hk3. pose proof (wf_off s2 (lt_wf _ _ Hl2)). lia.
Qed.

Lemma read_stream_ok bo pks ps :
  Forall packet_ok pks ->
  Forall2 (fun fs p => buf_wf 8 p /\ Z.of_nat (length p) = packet_bytes fs /\
             fields_at bo p 0 fs) pks ps ->
  Z.of_nat (length (concat ps)) <= 2 ^ 60 ->
  read_stream bo (concat ps) pks = Some (map (map canonical) pks).
Proof using OsLaws0.
  intros Hok H2. induction H2 as [|fs p pks ps (Hpw & Hpl & Hpf) H2 IH]; intros Hmem; [done|].
  apply Forall_cons_1 in Hok as [Hpk Hok]. pose proof (packet_bytes_eq fs Hpk) as [Hpb Hpb0].
  pose proof Hpk as [Hfok Hend]. pose proof (align_up_range (fields_end 0 fs) 8).
  simpl in *. rewrite length_app in Hmem.
  rewrite read_fields_ok; [| |rewrite length_app; lia|done|lia|rewrite length_app; lia|].
  - fold (packet_bytes fs). rewrite <- Hpl, Nat2Z.id, drop_app_length, IH by (done || lia). done.
  - apply Forall_app. split; [done|]. clear -H2.
    induction H2 as [|? ? ? ? (Hx & _) _ IHx]; [constructor|]. by apply Forall_app.
  - eapply fields_at_agree; [done|lia| |exact Hpf]. intros k Hk.
    apply (codec_bit_local (BitCodec := codec_of bo)); [lia|].
    apply lookup_app_l. div_lia.
Qed.

Lemma write_packets_ok pks s bo :
  between s -> Forall packet_ok pks ->
  stream_size_bytes (ser s) + packets_bytes pks <= 2 ^ 60 ->
  exists r s', write_packets s bo pks = Some (r, s') /\
    (r = 0 -> between s' /\
       stream_size_bytes (ser s') = stream_size_bytes (ser s) + packets_bytes pks /\
       exists ps, stream_bytes s' = stream_bytes s ++ concat ps /\
         Forall2 (fun fs p => buf_wf 8 p /\ Z.of_nat (length p) = packet_bytes fs /\
                    fields_at bo p 0 fs) pks ps).
Proof using All.
  revert s. induction pks as [|fs pks IH]; intros s Hb Hok Hroom; simpl.
  { exists 0, s. split; [done|]. intros _. split; [done|]. split; [simpl; lia|].
    exists []. split; [by rewrite app_nil_r|constructor]. }
  apply Forall_cons_1 in Hok as [Hpk Hok]. pose proof (packet_bytes_eq fs Hpk) as [_ Hpb].
  assert (Hrest : 0 <= packets_bytes pks).
  { clear IH Hroom. induction Hok as [|x l Hx _ IH]; simpl; [lia|].
    pose proof (packet_bytes_eq x Hx). lia. }
  simpl in Hroom.
  destruct (write_packet_ok s fs bo Hb ltac:(lia) Hpk) as (r & s1 & -> & Hr).
  destruct (Z.eqb_spec r 0) as [->|]; cbn [negb]; [|by eexists _, _].
  destruct (Hr eq_refl) as (Hb1 & Hsz1 & p & Hp & Hpw & Hpl & Hpf).
  destruct (IH s1 Hb1 Hok) as (r & s2 & -> & Hr2); [lia|].
  exists r, s2. split; [done|]. intros ->. destruct (Hr2 eq_refl) as (Hb2 & Hsz2 & ps & Hps & H2).
  split; [done|]. split; [lia|]. exists (p :: ps). split.
  - rewrite Hps, Hp. simpl. by rewrite app_assoc.
  - by constructor.
Qed.

Lemma ftruncate_loop_ok fuel s :
  (interrupts (os s) < fuel)%nat -> stream_size_bytes (ser s) <= Z.of_nat (length (file s)) ->
  exists r s', ftruncate_loop fuel s = Some (r, s') /\ ser s' = ser s /\
    (r = 0 -> file s' = stream_bytes s).
Proof using OsLaws0.
  revert s. induction fuel as [|fuel IH]; intros s Hf Hsz; [lia|]. simpl.
  destruct (os_ftruncate _ _ _) as [[[r e] f] w] eqn:E.
  apply ftruncate_cuts in E as [Hcut Hint].
  destruct (Z.eqb_spec r (-1)) as [->|]; destruct e; cbn [andb];
    try (eexists _, _; split; [reflexivity|]; split; [done|];
         first [discriminate | intros ->; apply Hcut; [done | simpl in *; lia]]).
  destruct (Hint eq_refl eq_refl) as [-> Hi].
  destruct (IH (State (ser s) (file s) w)) as (r & s' & -> & ? & ?); [simpl; lia|done|].
  by exists r, s'.
Qed.

Lemma fini_ok s :
  between s -> exists r s', bt_ctfser_fini s = Some (r, s') /\
    (r = 0 -> file s' = stream_bytes s /\ fd (ser s') = -1 /\ base_mma (ser s') = MmaNull).
Proof using OsLaws0.
  intros [Hfd Hmma Hbase Hmo Hprev Hst Hsz Hf]. unfold bt_ctfser_fini.
  rewrite (proj2 (Z.eqb_neq _ _)) by lia.
  destruct (unmap_if_live_ok s Hmma) as (r & w & m & -> & Hm).
  destruct (Z.eqb_spec r 0) as [->|]; cbn [negb]; [|by eexists _, _].
  rewrite (Hm eq_refl). unfold ftruncate_retry.
  destruct (ftruncate_loop_ok (S (interrupts w)) (State (set_mma (ser s) MmaNull) (file s) w))
    as (r & s2 & E & Hs2 & Hf2); [simpl; lia|done|]. simpl os. rewrite E. clear E.
  destruct (Z.eqb_spec r 0) as [->|]; cbn [negb]; [|by eexists _, _].
  destruct (os_close (os s2)) as [r w2].
  destruct (Z.eqb_spec r 0) as [->|]; cbn [negb]; [|by eexists _, _].
  eexists _, _. split; [reflexivity|]. intros _. simpl. rewrite Hs2.
  split; [by apply Hf2|done].
Qed.
End space.
End stores.

(** * A concrete environment *)

(** A file system that never fails, with 8-byte pages. *)
#[export] Instance plain_os : Os unit := {
  page_size := 8;
  interrupts _ := 0%nat;
  os_open w := (3, w);
  posix_fallocate w f off len :=
    (0, f ++ replicate (Z.to_nat (off + len) - length f) 0, w);
  os_mmap w _ _ := (true, w);
  os_munmap w := (0, w);
  os_ftruncate w f len := (0, false, take (Z.to_nat len) f, w);
  os_close w := (0, w)
}.

#[export] Instance plain_os_laws : OsLaws unit.
Proof.
  split.
  - by exists 3.
  - intros w f off len r f' w' [= <- <- <-]. split; [by eexists|]. split.
    + intros Hf. apply Forall_app. split; [done|]. by apply Forall_replicate.
    + split; [|done]. intros _. rewrite length_app, length_replicate. lia.
  - intros w f len r e f' w' [= <- <- <- <-]. done.
Qed.

(** The object whose bytes are [bs]. *)
Definition of_le_bytes (bs : list Z) : Z := foldr (fun x v => x + 2 ^ 8 * v) 0 bs.

Lemma le_bytes_of_le_bytes bs : buf_wf 8 bs -> le_bytes (length bs) (of_le_bytes bs) = bs.
Proof.
  induction 1 as [|x bs Hx _ IH]; [done|].
  cbn [length le_bytes of_le_bytes foldr]. fold (of_le_bytes bs).
  f_equal.
  - rewrite (Z.mul_comm (2 ^ 8)), Z.mod_add by done. by apply Z.mod_small.
  - rewrite (Z.mul_comm (2 ^ 8)), Z.div_add, Z.div_small by (done || lia). done.
Qed.

#[export] Instance byte_swap : Glib := {
  guint_swap_le_be n v := of_le_bytes (rev (le_bytes n v))
}.
#[export] Instance byte_swap_laws : GlibLaws.
Proof.
  split. intros n v. simpl. rewrite <- (length_le_bytes n v) at 1. rewrite <- length_rev.
  apply le_bytes_of_le_bytes. rewrite rev_alt. apply Forall_reverse, le_bytes_wf.
Qed.

(** * The serializer's contract *)

Section contract.
Context {W : Type} `{HOs : OsLaws W} `{HGlib : GlibLaws} (debug : bool).

(** C25: round trip of a whole stream file.  For every list of packets of
    integer and string fields, whatever the packets' growth and the system
    calls' interruptions: initializing the serializer, writing each packet
    (open, fields, close at the next byte boundary) and finalizing never leaves
    the mapped memory, and when it reports success the file holds exactly the
    packets, one after the other, and a reader that aligns as the fields do
    gets every value back, cut to its field's size. *)
Theorem ctfser_stream_roundtrip (bo : byte_order) (s : state W) (pks : list (list field)) :
  Forall packet_ok pks -> packets_bytes pks <= 2 ^ 60 ->
  exists r s', write_stream debug s bo pks = Some (r, s') /\
    (r = 0 -> read_stream bo (file s') pks = Some (map (map canonical) pks) /\
              Z.of_nat (length (file s')) = packets_bytes pks).
Proof using All.
  intros Hok Hroom. unfold write_stream, bt_ctfser_init.
  destruct (os_open (os s)) as [fd0 w0].
  destruct (Z.ltb_spec fd0 0) as [|Hfd]; cbn [negb Z.eqb]; [by eexists _, _|].
  set (s0 := State _ [] w0).
  assert (Hb : between s0).
  { constructor; simpl; try (done || lia); [by left|constructor]. }
  destruct (write_packets_ok debug pks s0 bo Hb Hok) as (r & s1 & -> & Hr); [simpl; lia|].
  destruct (Z.eqb_spec r 0) as [->|]; cbn [negb]; [|by eexists _, _].
  destruct (Hr eq_refl) as (Hb1 & Hsz & ps & Hps & Hall).
  destruct (fini_ok s1 Hb1) as (r & s2 & -> & Hr2). exists r, s2. split; [done|].
  intros ->. destruct (Hr2 eq_refl) as (Hf & _). simpl in *.
  assert (Hlen : Z.of_nat (length (file s2)) = packets_bytes pks).
  { rewrite Hf. unfold stream_bytes. pose proof Hb1 as []. rewrite length_take. lia. }
  split; [|done]. replace (file s2) with (concat ps) in *.
  - apply read_stream_ok; [done|done|lia].
  - rewrite Hf, Hps. unfold stream_bytes. simpl. done.
Qed.

(** exact effect of [bt_ctfser_write_unsigned_int].  In an open packet, for
    a power-of-two alignment of at most a packet increment and a size of at
    most 64 bits (8, 16, 32 or 64 when both are byte multiples), the function
    never leaves the mapped memory; it succeeds whenever the field fits in the
    packet's current size; and on success the offset is just after the field,
    at the least aligned offset, the field reads back as the value cut to its
    size, and everything written before is unchanged, in the packet and in the
    file before it. *)
Theorem write_unsigned_int_exact (bo : byte_order) (s : state W) v a n :
  packet_wf s -> align_ok a -> size_ok a n -> ct_range uint64_t v ->
  align_up (offset_in_cur_packet_bits (ser s)) a + n <= 2 ^ 58 ->
  let at_ := align_up (offset_in_cur_packet_bits (ser s)) a in
  exists r s', bt_ctfser_write_unsigned_int debug s v a n bo = Some (r, s') /\
    (at_ + n <= 8 * cur_packet_size_bytes (ser s) -> r = 0) /\
    (r = 0 -> packet_wf s' /\ offset_in_cur_packet_bits (ser s') = at_ + n /\
       read_of bo uint64_t (packet s') at_ n = Some (field_value uint64_t n v) /\
       (forall k, 0 <= k < offset_in_cur_packet_bits (ser s) ->
          bit_of bo (stream_from s') k = bit_of bo (stream_from s) k) /\
       before s' = before s).
Proof using All.
  intros Hwf Ha Hn Hv Hroom at_.
  destruct (write_unsigned_int_ok debug s v a n bo) as (r & s' & -> & Hfast & Hr); [done..|].
  exists r, s'. split; [done|]. split; [done|]. intros E.
  destruct (Hr E) as [Hl Ho Hk Hb]. split; [apply Hl|]. split; [done|].
  split; [|split; [exact Hk|apply Hl]].
  pose proof (wf_off s Hwf). pose proof (wf_off s' (lt_wf _ _ Hl)).
  destruct Hn as [Hn _]. pose proof (align_ok_pos a Ha).
  pose proof (align_up_range (offset_in_cur_packet_bits (ser s)) a ltac:(lia)).
  apply packet_field; try (apply Hl || done || lia). by right; right; right.
Qed.

(** the byte-aligned fast path is equivalent to the general one: storing an
    8-, 16-, 32- or 64-bit integer of either byte order at a byte boundary with
    [memcpy] and a byte swap gives the same state as the bit-field macro. *)
Theorem byte_aligned_path_equivalent (bo : byte_order) (s : state W) v n :
  packet_wf s -> whole_bytes n -> offset_in_cur_packet_bits (ser s) mod 8 = 0 ->
  offset_in_cur_packet_bits (ser s) + n <= 8 * cur_packet_size_bytes (ser s) ->
  _bt_ctfser_write_byte_aligned_unsigned_int_no_align debug s v n bo =
    (do s1 <- write_bitfield s uint64_t v n bo; do s2 <- _bt_ctfser_incr_offset debug s1 n;
     Some (0, s2)) /\
  _bt_ctfser_write_byte_aligned_signed_int_no_align debug s v n bo =
    (do s1 <- write_bitfield s int64_t v n bo; do s2 <- _bt_ctfser_incr_offset debug s1 n;
     Some (0, s2)).
Proof using All.
  intros Hwf Hn Hal Hfit. pose proof (whole_bytes_cases n Hn) as [? _].
  destruct (unsigned_no_align_stores debug s v n bo) as (su & Hu & Hlu & ->); [done..|].
  destruct (signed_no_align_stores debug s v n bo) as (ss & Hs & Hls & ->); [done..|].
  destruct (store_at_offset_stored debug s su v bo) as (s1 & -> & H1'); [done..|lia|].
  destruct (store_at_offset_stored debug s ss v bo) as (s2 & -> & H2'); [done..|lia|].
  rewrite Hlu in H1'. rewrite Hls in H2'.
  destruct (write_bitfield_stored s uint64_t v n bo) as (s3 & -> & H3'); [done|by right; right; right|lia|lia|].
  destruct (write_bitfield_stored s int64_t v n bo) as (s4 & -> & H4'); [done|by right; right; right|lia|lia|].
  rewrite (stored_unique bo s s1 s3 n v), (stored_unique bo s s2 s4 n v) by done. done.
Qed.

(** [bt_ctfser_write_data] copies the bytes.  On success, byte [i] of the
    data is the 8-bit field at bit [8 * i] after the next byte boundary, in
    either byte order, the offset is after the last byte, and everything before
    is unchanged; the loop grows the packet as needed and never writes outside
    the map. *)
Theorem write_data_exact (bo : byte_order) (s : state W) (data : list Z) :
  packet_wf s -> buf_wf 8 data ->
  align_up (offset_in_cur_packet_bits (ser s)) 8 + 8 * Z.of_nat (length data) <= 2 ^ 58 ->
  let at_ := align_up (offset_in_cur_packet_bits (ser s)) 8 in
  exists r s', bt_ctfser_write_data debug s data = Some (r, s') /\
    (r = 0 -> packet_wf s' /\
       offset_in_cur_packet_bits (ser s') = at_ + 8 * Z.of_nat (length data) /\
       (forall i x, data !! i = Some x ->
          read_of bo uint64_t (packet s') (at_ + 8 * Z.of_nat i) 8 = Some x) /\
       (forall k, 0 <= k < offset_in_cur_packet_bits (ser s) ->
          bit_of bo (stream_from s') k = bit_of bo (stream_from s) k) /\
       before s' = before s).
Proof using All.
  intros Hwf Hd Hroom at_.
  destruct (write_aligned_bytes_ok debug s data bo Hwf Hd Hroom) as (r & s' & E & _ & Hr).
  exists r, s'. split; [exact E|]. intros E0. destruct (Hr E0) as [Hl Ho Hk Hb].
  pose proof (lt_wf _ _ Hl) as Hwf'. split; [done|]. split; [done|].
  split; [|split; [exact Hk|apply Hl]].
  intros i x Hx. pose proof (lookup_lt_Some _ _ _ Hx). pose proof (Forall_lookup_1 _ _ _ _ Hd Hx) as Hxr.
  pose proof (wf_off s Hwf). pose proof (wf_off s' Hwf'). pose proof (wf_cur s' Hwf').
  pose proof (align_up_range (offset_in_cur_packet_bits (ser s)) 8 ltac:(lia)). subst at_.
  rewrite <- (field_value_byte x Hxr). apply packet_field; try (done || lia).
  - by right; right; right.
  - apply wrapu_small. simpl in *. lia.
  - exact (Hb i x Hx).
Qed.

(** sizes of 24, 40, 48 and 56 bits abort.  A byte-aligned integer field
    whose size is a multiple of 8 but not 8, 16, 32 or 64, for which there is
    space in the packet, reaches the [default] case of the byte-aligned
    functions, which aborts the process. *)
Theorem write_int_other_byte_sizes_abort (bo : byte_order) (s : state W) v a n :
  packet_wf s -> align_ok a -> a mod 8 = 0 -> n = 24 \/ n = 40 \/ n = 48 \/ n = 56 ->
  align_up (offset_in_cur_packet_bits (ser s)) a + n <= 8 * cur_packet_size_bytes (ser s) ->
  8 * cur_packet_size_bytes (ser s) <= 2 ^ 58 ->
  bt_ctfser_write_unsigned_int debug s v a n bo = None /\
  bt_ctfser_write_signed_int debug s v a n bo = None.
Proof using All.
  intros Hwf Ha Ha8 Hn Hfit Hcap. pose proof (wf_cur s Hwf). pose proof (wf_off s Hwf).
  assert (Hnb : 0 < n < 64 /\ n mod 8 = 0 /\ (n =? 8) = false /\ (n =? 16) = false /\
                (n =? 32) = false /\ (n =? 64) = false)
    by (destruct Hn as [-> | [-> | [-> | ->]]]; done).
  destruct Hnb as (Hnb & Hn8 & E1 & E2 & E3 & E4).
  destruct (align_offset_ok debug s a Hwf Ha) as (r & s1 & E & Hfast & Hr); [lia|].
  destruct Hfast as [-> Hc]; [lia|]. destruct (Hr eq_refl) as (Hl & Ho & _).
  unfold bt_ctfser_write_unsigned_int, bt_ctfser_write_signed_int. rewrite E. cbn [negb Z.eqb].
  unfold ensure_space. rewrite !has_space_left_wf by (apply Hl || lia).
  rewrite Ho, Hc, (proj2 (Z.leb_le _ _)) by lia. cbn [negb]. rewrite Ha8, Hn8. cbn [Z.eqb andb].
  unfold _bt_ctfser_write_byte_aligned_unsigned_int_no_align,
    _bt_ctfser_write_byte_aligned_signed_int_no_align, BT_ASSERT_DBG.
  rewrite E1, E2, E3, E4. by split; repeat destruct (_ && _).
Qed.

(** a failed growth leaves a dangling map.  When enlarging the packet fails
    (the [munmap], the preallocation or the new map), the map pointer that stays
    in the structure is freed memory or [MAP_FAILED], and [bt_ctfser_fini], which
    the sink calls to release the stream, passes it to [munmap_align]: invalid
    memory access. *)
Theorem failed_growth_breaks_fini (s s' : state W) r :
  packet_wf s -> 8 * cur_packet_size_bytes (ser s) + 64 * page_size <= 2 ^ 59 ->
  0 <= fd (ser s) ->
  _bt_ctfser_increase_cur_packet_size s = Some (r, s') -> r <> 0 ->
  bt_ctfser_fini s' = None.
Proof using HOs.
  intros Hwf Hroom Hfd E Hr. pose proof Hwf as [[d []] Hb Ho Hc Hmo Hsz Hf].
  assert (Hbad : 0 <= fd (ser s') /\ (base_mma (ser s') = MmaFreed \/ base_mma (ser s') = MmaFailed)).
  { revert E. unfold _bt_ctfser_increase_cur_packet_size, munmap_align. rewrite maps_live0.
    destruct (os_munmap (os s)) as [r0 w0].
    destruct (Z.eqb_spec r0 0) as [->|]; cbn [negb]; [|intros [= <- <-]; by auto].
    set (s1 := set_ser _ _). pose proof page_size_bounds.
    destruct (map_packet_ok s1) as (r1 & s2 & -> & Hs2 & _);
      [subst s1; simpl; rewrite increment_eq, wrapu_small; lia|done|].
    destruct (Z.eqb_spec r1 0) as [->|]; cbn [negb]; [|intros [= <- <-]; rewrite Hs2; by auto].
    unfold mmap_align_ctfser. destruct (mmap_align _ _ _) as [m w]. simpl.
    destruct m; cbn [mma_failed]; intros [= <- <-]; try done. simpl. rewrite Hs2. by auto. }
  unfold bt_ctfser_fini, munmap_align. rewrite (proj2 (Z.eqb_neq _ _)) by lia.
  by destruct Hbad as [_ [-> | ->]].
Qed.
End contract.

(** [_bt_ctfser_has_space_left] is exact: although the sum is computed on 64
    bits, the answer is whether the unbounded sum of offset and size fits in the
    packet. *)
Theorem has_space_left_exact (c : bt_ctfser) n :
  is_u64 (offset_in_cur_packet_bits c) -> is_u64 n ->
  0 <= cur_packet_size_bytes c -> is_u64 (8 * cur_packet_size_bytes c) ->
  _bt_ctfser_has_space_left c n = true <->
    offset_in_cur_packet_bits c + n <= 8 * cur_packet_size_bytes c.
Proof.
  unfold is_u64. intros. rewrite has_space_left_spec by lia. apply Z.leb_le.
Qed.

(** * Instances of the contract *)

(** A packet that was just opened in the plain environment. *)
Definition ex_packet : state unit :=
  State (BtCtfser 3 0 0 0 64 0 0 (MmaLive (MmapAlignData 0 64 0 64))) (replicate 64 0) tt.

Example ex_packet_opened :
  bt_ctfser_open_packet (snd (bt_ctfser_init (State (BtCtfser 0 0 0 0 0 0 0 MmaNull) [] tt)))
  = Some (0, ex_packet).
Proof. vm_compute. reflexivity. Qed.

Lemma ex_packet_wf : packet_wf ex_packet.
Proof.
  constructor; simpl; try lia.
  - eexists. constructor; try reflexivity; vm_compute; discriminate.
  - by apply (Forall_replicate _ 64 0).
Qed.

Lemma pow2_align_ok k : 0 <= k <= 9 -> align_ok (W := unit) (2 ^ k).
Proof.
  intros. exists k. split; [lia|]. split; [done|].
  change (64 * page_size) with (2 ^ 9). by apply Z.pow_le_mono_r; lia. Qed.

Ltac ex_field := split; [first [by apply (pow2_align_ok 0) | by apply (pow2_align_ok 3)
                            | by apply (pow2_align_ok 5)]
                        |split; [split; [lia|unfold whole_bytes; intros; simpl in *; (lia || done)]|done]].

Definition ex_packets : list (list field) :=
  [[FUnsigned 0xc1fc1fc1 8 32; FSigned (-5) 1 7; FString [104; 105]; FUnsigned 300 32 64];
   [FUnsigned 1 1 1]].

Lemma ctfser_stream_roundtrip_witness :
  exists s', write_stream false (State (BtCtfser 0 0 0 0 0 0 0 MmaNull) [] tt) BIG_ENDIAN ex_packets
      = Some (0, s') /\
    read_stream BIG_ENDIAN (file s') ex_packets = Some ex_packets.
Proof.
  destruct (ctfser_stream_roundtrip false BIG_ENDIAN (State (BtCtfser 0 0 0 0 0 0 0 MmaNull) [] tt)
              ex_packets) as (r & s' & E & Hr).
  - repeat first [ex_field | apply Forall_nil_2 | apply Forall_cons_2
                  | (split; [|vm_compute; discriminate]) | (split; lia)].
  - vm_compute. discriminate.
  - assert (Er : match write_stream false (State (BtCtfser 0 0 0 0 0 0 0 MmaNull) [] tt)
                          BIG_ENDIAN ex_packets with Some (r, _) => r | None => 1 end = 0)
      by (vm_compute; reflexivity).
    rewrite E in Er. subst r. exists s'. split; [exact E|]. apply (Hr eq_refl).
Defined.

Lemma write_unsigned_int_exact_witness :
  exists r s', bt_ctfser_write_unsigned_int true ex_packet 0x2ab 1 11 LITTLE_ENDIAN = Some (r, s') /\
    (0 + 11 <= 8 * 64 -> r = 0) /\
    (r = 0 -> packet_wf s' /\ offset_in_cur_packet_bits (ser s') = 0 + 11 /\
       read_of LITTLE_ENDIAN uint64_t (packet s') 0 11 = Some 0x2ab /\
       (forall k, 0 <= k < 0 -> bit_of LITTLE_ENDIAN (stream_from s') k =
                                bit_of LITTLE_ENDIAN (stream_from ex_packet) k) /\
       before s' = before ex_packet).
Proof.
  apply (write_unsigned_int_exact true LITTLE_ENDIAN ex_packet 0x2ab 1 11 ex_packet_wf);
    [by apply (pow2_align_ok 0)|split; [lia|done]|done|vm_compute; discriminate].
Defined.

Lemma byte_aligned_path_equivalent_witness :
  _bt_ctfser_write_byte_aligned_unsigned_int_no_align true ex_packet 0x1234 16 BIG_ENDIAN =
    (do s1 <- write_bitfield ex_packet uint64_t 0x1234 16 BIG_ENDIAN;
     do s2 <- _bt_ctfser_incr_offset true s1 16; Some (0, s2)).
Proof.
  apply (byte_aligned_path_equivalent true BIG_ENDIAN ex_packet 0x1234 16 ex_packet_wf);
    [by right; left|done|simpl; lia].
Defined.

Lemma write_data_exact_witness :
  exists r s', bt_ctfser_write_data true ex_packet [1; 2; 255] = Some (r, s') /\
    (r = 0 -> packet_wf s' /\ offset_in_cur_packet_bits (ser s') = 0 + 8 * 3 /\
       (forall i x, [1; 2; 255] !! i = Some x ->
          read_of BIG_ENDIAN uint64_t (packet s') (0 + 8 * Z.of_nat i) 8 = Some x) /\
       (forall k, 0 <= k < 0 -> bit_of BIG_ENDIAN (stream_from s') k =
                                bit_of BIG_ENDIAN (stream_from ex_packet) k) /\
       before s' = before ex_packet).
Proof.
  apply (write_data_exact true BIG_ENDIAN ex_packet [1; 2; 255] ex_packet_wf);
    [repeat constructor; lia|vm_compute; discriminate].
Defined.

Lemma write_int_other_byte_sizes_abort_witness :
  bt_ctfser_write_unsigned_int false ex_packet 1 8 24 LITTLE_ENDIAN = None.
Proof.
  apply (write_int_other_byte_sizes_abort false LITTLE_ENDIAN ex_packet 1 8 24 ex_packet_wf);
    [by apply (pow2_align_ok 3)|done|by left|vm_compute; discriminate|simpl; lia].
Defined.

(** As [plain_os], but the disk is full. *)
Definition full_os : Os unit := {|
  page_size := 8; interrupts _ := 0%nat; os_open w := (3, w);
  posix_fallocate w f off len := (28, f, w);
  os_mmap w _ _ := (true, w); os_munmap w := (0, w);
  os_ftruncate w f len := (0, false, take (Z.to_nat len) f, w); os_close w := (0, w)
|}.

Lemma full_os_laws : @OsLaws unit full_os.
Proof.
  split.
  - by exists 3.
  - by intros w f off len r f' w' [= <- <- <-].
  - by intros w f len r e f' w' [= <- <- <- <-].
Qed.

Lemma failed_growth_breaks_fini_witness :
  exists s', @_bt_ctfser_increase_cur_packet_size unit full_os ex_packet = Some (28, s') /\
    @bt_ctfser_fini unit full_os s' = None.
Proof.
  eexists. split; [vm_compute; reflexivity|].
  apply (@failed_growth_breaks_fini unit full_os full_os_laws ex_packet _ 28 ex_packet_wf);
    [vm_compute; discriminate|simpl; lia|vm_compute; reflexivity|lia].
Defined.

Lemma has_space_left_exact_witness :
  _bt_ctfser_has_space_left (BtCtfser 3 0 0 UINT64_MAX 64 0 0 MmaNull) 2 = true <->
    UINT64_MAX + 2 <= 8 * 64.
Proof.
  apply (has_space_left_exact (BtCtfser 3 0 0 UINT64_MAX 64 0 0 MmaNull) 2);
    unfold is_u64, UINT64_MAX; simpl; lia.
Defined.
