(* ===== verification/StarGlob.v ===== *)
(** Star globbing: [bt_common_normalize_star_glob_pattern] and
    [bt_common_star_glob_match] of [src/src/common/common.c].

    Pattern and candidate are arrays of characters ([list Z]) with a length that
    may be larger than the strings they hold; reading outside an array is
    [None].  The [goto]s of the matcher are the recursive calls of
    [star_glob_loop]; [glob_fuel] bounds their number.  The specification is the
    relation [matches] between a pattern and the strings of its language. *)

From S2P Require Import Prelude.

Definition STAR : Z := 42.
Definition BACKSLASH : Z := 92.

(** * Normalization *)

(** The loop over [p], writing at [np <= p] in the same array. *)
Fixpoint normalize_loop (fuel : nat) (s : list Z) (p np : nat) (got_star : bool)
  : option (list Z) :=
  match fuel with
  | O => None
  | S fuel =>
      do ch <- s !! p;
      if ch =? 0 then Some (<[np := 0]> s)
      else if ch =? STAR then
        if got_star then normalize_loop fuel s (S p) np got_star
        else normalize_loop fuel (<[np := ch]> s) (S p) (S np) true
      else if ch =? BACKSLASH then
        let s := <[np := ch]> s in
        do ch <- s !! S p;
        if ch =? 0 then Some (<[S np := 0]> s)
        else normalize_loop fuel (<[S np := ch]> s) (S (S p)) (S (S np)) false
      else normalize_loop fuel (<[np := ch]> s) (S p) (S np) false
  end.

Definition bt_common_normalize_star_glob_pattern (pattern : list Z) : option (list Z) :=
  normalize_loop (length pattern) pattern 0 0 false.

(** * Matching *)

Definition at_end_of_pattern (p : nat) (pattern : list Z) (pattern_len : nat) : option bool :=
  if (p =? pattern_len)%nat then Some true else do ch <- pattern !! p; Some (ch =? 0).

Section loop.
Context (pattern : list Z) (pattern_len : nat) (candidate : list Z) (candidate_len : nat).

(** [(c - candidate) < candidate_len && *c != '\0'] *)
Definition candidate_left (c : nat) : option bool :=
  if (c <? candidate_len)%nat then do ch <- candidate !! c; Some (negb (ch =? 0))
  else Some false.

Fixpoint star_glob_loop (fuel : nat) (got_a_star : bool) (retry_c retry_p c p : nat)
  : option bool :=
  match fuel with
  | O => None
  | S fuel =>
      do more <- candidate_left c;
      if (more : bool) then
        do cch <- candidate !! c;
        (* label [end_of_pattern] *)
        let end_of_pattern :=
          if negb got_a_star then Some false
          else star_glob_loop fuel got_a_star (S retry_c) retry_p (S retry_c) retry_p in
        do at_end <- at_end_of_pattern p pattern pattern_len;
        if (at_end : bool) then end_of_pattern else
        do pch <- pattern !! p;
        if pch =? STAR then
          do at_end <- at_end_of_pattern (S p) pattern pattern_len;
          if (at_end : bool) then Some true
          else star_glob_loop fuel true c (S p) c (S p)
        else
          let p := if pch =? BACKSLASH then S p else p in
          do at_end <- at_end_of_pattern p pattern pattern_len;
          if (at_end : bool) then end_of_pattern else
          do pch <- pattern !! p;
          if negb (cch =? pch) then end_of_pattern
          else star_glob_loop fuel got_a_star retry_c retry_p (S c) (S p)
      else
        do at_end <- at_end_of_pattern p pattern pattern_len;
        if (at_end : bool) then Some true else
        do pch <- pattern !! p;
        if pch =? STAR then at_end_of_pattern (S p) pattern pattern_len else Some false
  end.

Definition glob_fuel : nat :=
  ((length pattern * S (length candidate) + length candidate) * S (length candidate)
   + S (length candidate))%nat.

Definition bt_common_star_glob_match : option bool :=
  star_glob_loop glob_fuel false 0 0 0 0.
End loop.

(** * The language of a pattern *)

Inductive matches : list Z -> list Z -> Prop :=
| matches_nil : matches [] []
| matches_star p c1 c2 : matches p c2 -> matches (STAR :: p) (c1 ++ c2)
| matches_escaped ch p c : matches p c -> matches (BACKSLASH :: ch :: p) (ch :: c)
| matches_char ch p c :
    ch <> STAR -> ch <> BACKSLASH -> matches p c -> matches (ch :: p) (ch :: c).

(** No two unescaped stars in a row; [after_star]: the previous character is an
    unescaped star. *)
Fixpoint no_double_star (after_star : bool) (p : list Z) : bool :=
  match p with
  | [] => true
  | ch :: p =>
      if ch =? STAR then negb after_star && no_double_star true p
      else if ch =? BACKSLASH then
        match p with [] => true | _ :: p => no_double_star false p end
      else no_double_star false p
  end.

(** The string that normalization leaves. *)
Fixpoint normalized (got_star : bool) (p : list Z) : list Z :=
  match p with
  | [] => []
  | ch :: p =>
      if ch =? STAR then if got_star then normalized true p else ch :: normalized true p
      else if ch =? BACKSLASH then
        match p with [] => [ch] | ch' :: p => ch :: ch' :: normalized false p end
      else ch :: normalized false p
  end.

Example glob_ex1 :
  bt_common_star_glob_match [104; 105; 42; 101; 42; 111; 0] 100 [104; 105; 104; 101; 101; 111; 0] 100
  = Some true.
Proof. vm_compute. reflexivity. Qed.

(** Without normalization, two stars do not match the empty string. *)
Example glob_ex2 : bt_common_star_glob_match [42; 42; 0] 2 [0] 0 = Some false.
Proof. vm_compute. reflexivity. Qed.

(** * Lemmas: normalization *)

Lemma list_insert_app_mid {A} (l : list A) i x a b :
  l = a ++ b -> length a = i -> b <> [] -> <[i := x]> l = (a ++ [x]) ++ tail b.
Proof.
  intros -> <- Hb. destruct b as [|y b]; [done|].
  rewrite insert_app_r_alt, Nat.sub_diag by lia. by rewrite <- app_assoc.
Qed.

(** [done_] is what has been written, [gap] the characters between [np] and [p],
    [t] the string that is left. *)
Lemma normalize_loop_ok fuel done_ gap t rest got :
  no_nul t -> (length t < fuel)%nat ->
  exists rest', normalize_loop fuel (done_ ++ gap ++ t ++ 0 :: rest)
      (length done_ + length gap) (length done_) got
    = Some ((done_ ++ normalized got t) ++ 0 :: rest').
Proof.
  revert done_ gap t got. induction fuel as [|fuel IH]; intros dn gap t got Ht Hf; [lia|].
  cbn [normalize_loop].
  rewrite lookup_app_r, lookup_app_r by lia.
  replace (length dn + length gap - length dn - length gap)%nat with O by lia.
  destruct t as [|ch t]; simpl.
  - rewrite (list_insert_app_mid _ _ _ dn (gap ++ 0 :: rest)) by (done || by destruct gap).
    rewrite app_nil_r, <- app_assoc. by eexists.
  - apply Forall_cons_1 in Ht as [Hch Ht]. simpl in Hf.
    rewrite (proj2 (Z.eqb_neq ch 0)) by done.
    (* the array after writing [x] at [np] *)
    assert (Hstore : forall x u, <[length dn := x]> (dn ++ gap ++ ch :: u) =
              (dn ++ [x]) ++ tail (gap ++ [ch]) ++ u).
    { intros x u. rewrite (list_insert_app_mid _ _ _ dn (gap ++ ch :: u)) by (done || by destruct gap).
      f_equal. destruct gap; simpl; [done|]. by rewrite <- app_assoc. }
    assert (Htl : length (tail (gap ++ [ch])) = length gap)
      by (destruct gap; simpl; [done|]; rewrite length_app; simpl; lia).
    assert (Hnext : forall x got', exists rest',
      normalize_loop fuel (<[length dn := x]> (dn ++ gap ++ ch :: t ++ 0 :: rest))
        (S (length dn + length gap)) (S (length dn)) got' =
      Some ((dn ++ x :: normalized got' t) ++ 0 :: rest')).
    { intros x got'. rewrite Hstore.
      destruct (IH (dn ++ [x]) (tail (gap ++ [ch])) t got' Ht) as [rest' E]; [lia|].
      rewrite length_app, Htl in E. simpl in E. exists rest'.
      replace (S (length dn + length gap)) with (length dn + 1 + length gap)%nat by lia.
      replace (S (length dn)) with (length dn + 1)%nat by lia.
      rewrite E. by rewrite <- (app_assoc dn [x]). }
    destruct (Z.eqb_spec ch STAR) as [->|Hs]; [destruct got|].
    + destruct (IH dn (gap ++ [STAR]) t true Ht) as [rest' E]; [lia|].
      rewrite length_app in E. simpl in E. exists rest'. rewrite <- E.
      f_equal; [by rewrite <- (app_assoc gap)|lia].
    + apply Hnext.
    + destruct (Z.eqb_spec ch BACKSLASH) as [->|Hb]; [|apply Hnext].
      rewrite Hstore. rewrite lookup_app_r by (rewrite length_app; simpl; lia).
      rewrite lookup_app_r by (rewrite length_app, Htl; simpl; lia).
      rewrite length_app, Htl.
      replace (S (length dn + length gap) - (length dn + length [BACKSLASH]) - length gap)%nat
        with O by (simpl; lia).
      destruct t as [|ch' t]; simpl.
      * rewrite (list_insert_app_mid _ _ _ (dn ++ [BACKSLASH]) (tail (gap ++ [BACKSLASH]) ++ 0 :: rest));
          [|done|rewrite length_app; simpl; lia|by destruct (tail _)].
        rewrite <- (app_assoc (dn ++ _)). by eexists.
      * apply Forall_cons_1 in Ht as [Hch' Ht]. rewrite (proj2 (Z.eqb_neq ch' 0)) by done.
        rewrite (list_insert_app_mid _ _ _ (dn ++ [BACKSLASH])
                   (tail (gap ++ [BACKSLASH]) ++ ch' :: t ++ 0 :: rest));
          [|done|rewrite length_app; simpl; lia|by destruct (tail _)].
        destruct (IH ((dn ++ [BACKSLASH]) ++ [ch'])
                    (tail (tail (gap ++ [BACKSLASH]) ++ [ch'])) t false Ht) as [rest' E];
          [simpl in Hf; lia|].
        assert (Htl2 : length (tail (tail (gap ++ [BACKSLASH]) ++ [ch'])) = length gap).
        { destruct (tail (gap ++ [BACKSLASH])) as [|y l]; simpl in *; [done|].
          rewrite length_app. simpl. lia. }
        rewrite !length_app, Htl2 in E. simpl in E. exists rest'.
        replace (S (S (length dn + length gap))) with (length dn + 1 + 1 + length gap)%nat by lia.
        replace (S (S (length dn))) with (length dn + 1 + 1)%nat by lia.
        replace (tail (tail (gap ++ [BACKSLASH]) ++ ch' :: t ++ 0 :: rest))
          with (tail (tail (gap ++ [BACKSLASH]) ++ [ch']) ++ t ++ 0 :: rest)
          by (destruct (tail (gap ++ [BACKSLASH])); simpl; [done|]; by rewrite <- app_assoc).
        rewrite E. by rewrite <- !app_assoc.
Qed.

Lemma normalized_no_double_star p got : no_double_star got (normalized got p) = true.
Proof.
  revert got. induction p as [p IH] using (induction_ltof1 _ length). unfold ltof in IH.
  destruct p as [|ch p]; intros got; [done|]. cbn [normalized].
  destruct (Z.eqb_spec ch STAR) as [->|Hs].
  - destruct got; [apply IH; simpl; lia|]. cbn [no_double_star]. simpl. apply IH. simpl. lia.
  - destruct (Z.eqb_spec ch BACKSLASH) as [->|Hb].
    + destruct p as [|ch' p]; [done|]. simpl. apply IH. simpl. lia.
    + cbn [no_double_star]. rewrite (proj2 (Z.eqb_neq ch STAR)), (proj2 (Z.eqb_neq ch BACKSLASH)) by done.
      apply IH. simpl. lia.
Qed.

Lemma normalized_no_nul p got : no_nul p -> no_nul (normalized got p).
Proof.
  revert got. induction p as [p IH] using (induction_ltof1 _ length). unfold ltof in IH.
  destruct p as [|ch p]; intros got Hp; [done|]. apply Forall_cons_1 in Hp as [Hch Hp].
  cbn [normalized]. destruct (ch =? STAR).
  - destruct got; [|constructor; [done|]]; (apply IH; [simpl; lia|done]).
  - destruct (ch =? BACKSLASH).
    + destruct p as [|ch' p]; [by repeat constructor|].
      apply Forall_cons_1 in Hp as [Hch' Hp].
      constructor; [done|]. constructor; [done|]. apply IH; [simpl; lia|done].
    + constructor; [done|]. apply IH; [simpl; lia|done].
Qed.

(** A pattern without double stars is already normalized. *)
Lemma normalized_id p got : no_double_star got p = true -> normalized got p = p.
Proof.
  revert got. induction p as [p IH] using (induction_ltof1 _ length). unfold ltof in IH.
  destruct p as [|ch p]; intros got; [done|]. cbn [normalized no_double_star].
  destruct (Z.eqb_spec ch STAR) as [->|Hs].
  - destruct got; [done|]. intros H. f_equal. apply IH; [simpl; lia|done].
  - destruct (Z.eqb_spec ch BACKSLASH) as [->|Hb].
    + destruct p as [|ch' p]; [done|]. intros H. do 2 f_equal. apply IH; [simpl; lia|done].
    + intros H. f_equal. apply IH; [simpl; lia|done].
Qed.

(** * Lemmas: the language *)

Lemma matches_star_inv p c : matches (STAR :: p) c -> exists c1 c2, c = c1 ++ c2 /\ matches p c2.
Proof. inversion 1; subst; [by eexists _, _|done]. Qed.

Lemma matches_escaped_inv ch p c :
  matches (BACKSLASH :: ch :: p) c -> exists c', c = ch :: c' /\ matches p c'.
Proof. inversion 1; subst; [by eexists|done]. Qed.

Lemma matches_char_inv ch p c :
  ch <> STAR -> ch <> BACKSLASH -> matches (ch :: p) c -> exists c', c = ch :: c' /\ matches p c'.
Proof. intros ??. inversion 1; subst; [done|done|by eexists]. Qed.

Lemma matches_two_stars p c : matches (STAR :: STAR :: p) c <-> matches (STAR :: p) c.
Proof.
  split; intros H.
  - apply matches_star_inv in H as (c1 & c2 & -> & H).
    apply matches_star_inv in H as (c3 & c4 & -> & H).
    rewrite app_assoc. by constructor.
  - apply matches_star_inv in H as (c1 & c2 & -> & H).
    constructor. by apply (matches_star p [] c2).
Qed.

(** Normalization keeps the language; after a star, the star that precedes is
    part of the pattern. *)
Lemma normalized_matches p c :
  (matches (normalized false p) c <-> matches p c) /\
  (matches (STAR :: normalized true p) c <-> matches (STAR :: p) c).
Proof.
  revert c. induction p as [p IH] using (induction_ltof1 _ length). unfold ltof in IH.
  destruct p as [|ch p]; intros c; [done|]. cbn [normalized].
  assert (IHf : forall p' c', (length p' < length (ch :: p))%nat ->
            matches (normalized false p') c' <-> matches p' c') by (intros; by apply IH).
  assert (IHt : forall p' c', (length p' < length (ch :: p))%nat ->
            matches (STAR :: normalized true p') c' <-> matches (STAR :: p') c')
    by (intros; by apply IH).
  destruct (Z.eqb_spec ch STAR) as [->|Hs].
  { split; [apply IHt; simpl; lia|]. rewrite IHt by (simpl; lia). symmetry.
    apply matches_two_stars. }
  assert (Hkey : forall c, matches
     (if ch =? BACKSLASH then match p with [] => [ch] | ch' :: p => ch :: ch' :: normalized false p end
      else ch :: normalized false p) c <-> matches (ch :: p) c).
  { clear c. intros c. destruct (Z.eqb_spec ch BACKSLASH) as [->|Hb].
    - destruct p as [|ch' p]; [done|].
      split; intros H; apply matches_escaped_inv in H as (c' & -> & H); constructor;
        apply IHf; done || (simpl; lia).
    - split; intros H; apply matches_char_inv in H as (c' & -> & H); try done;
        (constructor; [done|done|]); apply IHf; done || (simpl; lia). }
  split; [apply Hkey|].
  split; intros H; apply matches_star_inv in H as (c1 & c2 & -> & H); constructor; by apply Hkey.
Qed.

(** Literal pattern parts: [literal l x] when [l] only matches [x]. *)
Inductive literal : list Z -> list Z -> Prop :=
| literal_nil : literal [] []
| literal_escaped ch l x : literal l x -> literal (BACKSLASH :: ch :: l) (ch :: x)
| literal_char ch l x : ch <> STAR -> ch <> BACKSLASH -> literal l x -> literal (ch :: l) (ch :: x).

Lemma literal_matches l x p s :
  literal l x -> matches (l ++ p) s <-> exists s', s = x ++ s' /\ matches p s'.
Proof.
  intros Hl. revert s. induction Hl as [|ch l x _ IH|ch l x Hs Hb _ IH]; intros s; simpl.
  - split; [by eexists|]. by intros (? & -> & ?).
  - split.
    + intros (c & -> & H)%matches_escaped_inv. apply IH in H as (s' & -> & H). by eexists.
    + intros (s' & -> & H). constructor. apply IH. by eexists.
  - split.
    + intros (c & -> & H)%matches_char_inv; try done.
      apply IH in H as (s' & -> & H). by eexists.
    + intros (s' & -> & H). constructor; [done|done|]. apply IH. by eexists.
Qed.

Lemma literal_snoc_char l x ch :
  literal l x -> ch <> STAR -> ch <> BACKSLASH -> literal (l ++ [ch]) (x ++ [ch]).
Proof.
  induction 1; intros; simpl; eauto using literal.
Qed.

Lemma literal_snoc_escaped l x ch :
  literal l x -> literal (l ++ [BACKSLASH; ch]) (x ++ [ch]).
Proof. induction 1; intros; simpl; eauto using literal. Qed.

Lemma matches_nil_pattern c : matches [] c -> c = [].
Proof. by inversion 1. Qed.

(** The end of the candidate: only one star may be left. *)
Lemma matches_empty_candidate p :
  no_double_star false p = true -> matches p [] -> p = [] \/ p = [STAR].
Proof.
  assert (Hstar : forall q, matches (STAR :: q) [] -> matches q []).
  { intros q (c1 & c2 & E & H)%matches_star_inv. symmetry in E.
    by apply app_eq_nil in E as [-> ->]. }
  assert (Hother : forall ch q, ch <> STAR -> ~ matches (ch :: q) []).
  { intros ch q Hs. by inversion 1. }
  destruct p as [|ch p]; intros Hn H; [by left|right].
  destruct (Z.eq_dec ch STAR) as [->|Hs]; [|by apply Hother in H].
  apply Hstar in H. destruct p as [|ch p]; [done|].
  destruct (Z.eq_dec ch STAR) as [->|Hs]; [done|by apply Hother in H].
Qed.

Lemma no_double_star_literal l x p b :
  literal l x -> no_double_star b (l ++ p) = true -> exists b', no_double_star b' p = true.
Proof.
  intros Hl. revert b. induction Hl as [|ch l x _ IH|ch l x Hs Hb _ IH]; intros b; simpl.
  - by eexists.
  - apply IH.
  - rewrite (proj2 (Z.eqb_neq _ _)) by done. rewrite (proj2 (Z.eqb_neq _ _)) by done. apply IH.
Qed.

Lemma no_double_star_false b p : no_double_star b p = true -> no_double_star false p = true.
Proof. destruct p as [|ch p]; [done|]. simpl. destruct (ch =? STAR); [|done]. by destruct b. Qed.

(** * Lemmas: the matcher *)

Lemma bounded_cstr_lookup s len t i :
  is_bounded_cstr s len t -> (i < length t)%nat -> s !! i = t !! i.
Proof.
  intros [_ [[_ [r ->]] | [_ [_ [r ->]]]]] Hi; by apply lookup_app_l.
Qed.

Lemma at_end_of_pattern_ok pattern len P p :
  is_bounded_cstr pattern len P -> (p <= length P)%nat ->
  at_end_of_pattern p pattern len = Some (p =? length P)%nat.
Proof.
  intros Hb Hp. unfold at_end_of_pattern.
  assert (Hlen : (length P <= len)%nat) by (destruct Hb as [_ [[-> _] | [? _]]]; lia).
  destruct (Nat.eqb_spec p len) as [->|Hne].
  { f_equal. symmetry. apply Nat.eqb_eq. lia. }
  destruct (Nat.eqb_spec p (length P)) as [->|Hlt].
  - destruct Hb as [_ [[? _] | [_ Hc]]]; [lia|].
    rewrite (is_cstr_lookup _ _ _ Hc) by lia. by rewrite lookup_ge_None_2.
  - rewrite (bounded_cstr_lookup _ _ _ _ Hb) by lia.
    destruct (lookup_lt_is_Some_2 P p) as [x Hx]; [lia|]. rewrite Hx.
    f_equal. apply Z.eqb_neq. by eapply no_nul_lookup; [apply Hb|].
Qed.

Lemma candidate_left_ok candidate len C c :
  is_bounded_cstr candidate len C -> (c <= length C)%nat ->
  candidate_left candidate len c = Some (c <? length C)%nat.
Proof.
  intros Hb Hc. unfold candidate_left.
  assert (Hlen : (length C <= len)%nat) by (destruct Hb as [_ [[-> _] | [? _]]]; lia).
  destruct (Nat.ltb_spec c (length C)) as [Hlt|Hge].
  - rewrite (proj2 (Nat.ltb_lt _ _)) by lia. rewrite (bounded_cstr_lookup _ _ _ _ Hb) by lia.
    destruct (lookup_lt_is_Some_2 C c Hlt) as [x Hx]. rewrite Hx. f_equal.
    apply negb_true_iff, Z.eqb_neq. by eapply no_nul_lookup; [apply Hb|].
  - destruct (Nat.ltb_spec c len); [|done].
    destruct Hb as [_ [[? _] | [_ Hs]]]; [lia|].
    rewrite (is_cstr_lookup _ _ _ Hs) by lia. by rewrite lookup_ge_None_2 by lia.
Qed.

Section matcher.
Context (pattern : list Z) (pattern_len : nat) (candidate : list Z) (candidate_len : nat).
Context (P C : list Z).
Context (HP : is_bounded_cstr pattern pattern_len P).
Context (HC : is_bounded_cstr candidate candidate_len C).

(** The question that the loop answers. *)
Definition loop_sem (got : bool) (rc rp c p : nat) : Prop :=
  if got then exists k, (rc <= k <= length C)%nat /\ matches (drop rp P) (drop k C)
  else matches (drop p P) (drop c C).

(** From the last retry, only literal characters were passed. *)
Definition attempt (rc rp c p : nat) : Prop :=
  exists l x, literal l x /\ drop rp P = l ++ drop p P /\ drop rc C = x ++ drop c C.

Lemma attempt_matches rc rp c p :
  attempt rc rp c p -> matches (drop rp P) (drop rc C) <-> matches (drop p P) (drop c C).
Proof using.
  intros (l & x & Hl & -> & ->). rewrite literal_matches by done.
  split; [by intros (s & ->%app_inv_head & ?)|by eexists].
Qed.

Lemma star_matches c p rest :
  (c <= length C)%nat -> drop p P = STAR :: rest ->
  matches (drop p P) (drop c C) <->
    exists k, (c <= k <= length C)%nat /\ matches rest (drop k C).
Proof using.
  intros Hc ->. split.
  - intros (c1 & c2 & E & H)%matches_star_inv. exists (c + length c1)%nat.
    pose proof (f_equal length E) as El. rewrite length_drop, length_app in El.
    split; [lia|]. by rewrite <- drop_drop, E, drop_app_length.
  - intros (k & Hk & H). rewrite <- (take_drop (k - c) (drop c C)). constructor.
    rewrite drop_drop. by replace (c + (k - c))%nat with k by lia.
Qed.

(** A star absorbs the earlier alternatives of the previous one. *)
Lemma star_retry rc rp c p rest :
  (rc <= c <= length C)%nat -> attempt rc rp c p -> drop p P = STAR :: rest ->
  loop_sem true rc rp c p <-> exists k, (c <= k <= length C)%nat /\ matches rest (drop k C).
Proof using.
  intros Hc Ha Hp. rewrite <- star_matches by (lia || done). simpl. split.
  - intros (k & Hk & H). pose proof Ha as (l & x & Hl & El & Ex).
    rewrite El, literal_matches in H by done. destruct H as (s & Es & H).
    pose proof (f_equal length Es) as H1. pose proof (f_equal length Ex) as H2.
    rewrite length_app, !length_drop in *.
    assert (s = drop (k + length x) C) as ->
      by (by rewrite <- drop_drop, Es, drop_app_length).
    rewrite Hp in *. apply matches_star_inv in H as (c1 & c2 & E & H).
    rewrite <- (take_drop (k + length x - c) (drop c C)), drop_drop.
    replace (c + (k + length x - c))%nat with (k + length x)%nat by lia.
    rewrite E, app_assoc. by constructor.
  - intros H. exists rc. split; [lia|]. by apply attempt_matches in Ha as ->.
Qed.

Lemma attempt_nds rc rp c p :
  attempt rc rp c p -> no_double_star false (drop rp P) = true ->
  no_double_star false (drop p P) = true.
Proof using.
  intros (l & x & Hl & -> & _) H.
  destruct (no_double_star_literal _ _ _ _ Hl H) as [b Hb]. by eapply no_double_star_false.
Qed.

(** The loop's answer [b] to the question [loop_sem], complete when the rest of
    the pattern has no double star. *)
Definition answers (o : option bool) (got : bool) (rc rp c p : nat) : Prop :=
  exists b, o = Some b /\ (b = true -> loop_sem got rc rp c p) /\
    (no_double_star false (drop rp P) = true -> loop_sem got rc rp c p -> b = true).

(** At [end_of_pattern]: the current attempt fails. *)
Lemma mismatch_answers o got rc rp c p :
  (rc <= c)%nat -> (c < length C)%nat -> attempt rc rp c p ->
  ~ matches (drop p P) (drop c C) ->
  (got = true -> answers o true (S rc) rp (S rc) rp) ->
  answers (if negb got then Some false else o) got rc rp c p.
Proof using.
  intros Hrc Hc Ha Hno Hnext. destruct got; simpl.
  - destruct (Hnext eq_refl) as (b & -> & Hs & Hcm). exists b. split; [done|]. split.
    + intros Hb. destruct (Hs Hb) as (k & Hk & H). exists k. split; [lia|done].
    + intros Hn (k & Hk & H). apply Hcm; [done|]. exists k. split; [|done].
      destruct (Nat.eq_dec k rc) as [->|]; [|lia].
      exfalso. by apply Hno, (attempt_matches _ _ _ _ Ha).
  - exists false. by split.
Qed.

Lemma drop_nil_iff (l : list Z) n : (n <= length l)%nat -> drop n l = [] <-> n = length l.
Proof using.
  intros Hn. split; intros E.
  - apply (f_equal length) in E. rewrite length_drop in E. simpl in E. lia.
  - subst. apply drop_all.
Qed.

Definition measure (rc rp c : nat) : nat :=
  (((length P - rp) * S (length C) + (length C - rc)) * S (length C) + (length C - c))%nat.

Lemma measure_star rc rp c p :
  (rp <= p < length P)%nat -> (measure c (S p) c < measure rc rp c)%nat.
Proof using.
  intros Hp. unfold measure. set (m := length C) in *.
  assert (((length P - S p) * S m + (m - c) + 1 <= (length P - rp) * S m + (m - rc))%nat).
  { replace (length P - rp)%nat with (length P - S p + (S p - rp))%nat by lia. nia. }
  nia.
Qed.

Lemma measure_retry rc rp c :
  (rc <= c < length C)%nat -> (measure (S rc) rp (S rc) < measure rc rp c)%nat.
Proof using. intros Hc. unfold measure. nia. Qed.

(** The candidate is consumed: only one star may be left in the pattern. *)
Lemma candidate_end_answers got rc rp p :
  (rc <= length C)%nat -> (p <= length P)%nat -> attempt rc rp (length C) p ->
  answers
    (if (p =? length P)%nat then Some true else
     do pch <- pattern !! p;
     if pch =? STAR then at_end_of_pattern (S p) pattern pattern_len else Some false)
    got rc rp (length C) p.
Proof using HP.
  intros Hrc Hp Ha.
  assert (Hsem : loop_sem got rc rp (length C) p <-> 
            matches (drop p P) [] \/ (got = true /\ exists k, (rc <= k <= length C)%nat /\ k <> rc /\ 
               matches (drop rp P) (drop k C))).
  { destruct got; simpl.
    - rewrite <- (drop_all C) at 1. rewrite <- (attempt_matches _ _ _ _ Ha). split.
      + intros (k & Hk & H). destruct (Nat.eq_dec k rc) as [->|]; [by left|right].
        split; [done|]. by exists k.
      + intros [H|(_ & k & Hk & _ & H)]; [exists rc|exists k]; split; done || lia.
    - rewrite drop_all. split; [by left|]. by intros [?|[? _]]. }
  assert (Hlong : ~ exists k, (rc <= k <= length C)%nat /\ k <> rc /\ matches (drop rp P) (drop k C)).
  { intros (k & Hk & Hne & H). destruct Ha as (l & x & Hl & El & Ex).
    rewrite El, literal_matches in H by done. destruct H as (s & Es & _).
    apply (f_equal length) in Es, Ex. rewrite length_app, !length_drop in *. lia. }
  assert (Hans : forall b, (b = true -> matches (drop p P) []) ->
            (no_double_star false (drop p P) = true -> matches (drop p P) [] -> b = true) ->
            answers (Some b) got rc rp (length C) p).
  { intros b Hsnd Hcmp. exists b. split; [done|]. split.
    - intros Hb. apply Hsem. left. by apply Hsnd.
    - intros Hn [H|[_ H]]%Hsem; [|by apply Hlong in H].
      apply Hcmp; [by eapply attempt_nds|done]. }
  destruct (Nat.eqb_spec p (length P)) as [->|Hpne].
  { apply Hans; [|done]. rewrite drop_all. constructor. }
  rewrite (bounded_cstr_lookup _ _ _ _ HP) by lia.
  destruct (lookup_lt_is_Some_2 P p) as [pch Hpch]; [lia|]. rewrite Hpch.
  pose proof (drop_S _ _ _ Hpch) as HdP.
  destruct (Z.eqb_spec pch STAR) as [->|Hs].
  + rewrite (at_end_of_pattern_ok _ _ P (S p)) by (done || lia). apply Hans; rewrite HdP.
    * intros E%Nat.eqb_eq. rewrite E, drop_all. apply (matches_star [] [] []). constructor.
    * intros Hn H. apply Nat.eqb_eq. apply drop_nil_iff; [lia|].
      by destruct (matches_empty_candidate _ Hn H) as [|[=]].
  + apply Hans; [done|]. rewrite HdP. intros Hn H.
    destruct (matches_empty_candidate _ Hn H) as [|[= -> _]]; done.
Qed.

Lemma star_glob_loop_ok fuel got rc rp c p :
  (rc <= c <= length C)%nat -> (rp <= p <= length P)%nat -> attempt rc rp c p ->
  (measure rc rp c < fuel)%nat ->
  answers (star_glob_loop pattern pattern_len candidate candidate_len fuel got rc rp c p)
    got rc rp c p.
Proof using HP HC.
  revert got rc rp c p. induction fuel as [|fuel IH]; intros got rc rp c p Hc Hp Ha Hf; [lia|].
  cbn [star_glob_loop]. rewrite (candidate_left_ok _ _ C) by (done || lia).
  rewrite (at_end_of_pattern_ok _ _ P p) by (done || lia).
  destruct (Nat.ltb_spec c (length C)) as [Hlt|Hge].
  - rewrite (bounded_cstr_lookup _ _ _ _ HC) by done.
    destruct (lookup_lt_is_Some_2 C c Hlt) as [cch Hcch]. rewrite Hcch.
    pose proof (drop_S _ _ _ Hcch) as HdC.
    assert (Hretry : got = true ->
      answers (star_glob_loop pattern pattern_len candidate candidate_len fuel got (S rc) rp (S rc) rp)
        true (S rc) rp (S rc) rp).
    { intros ->. apply IH; [lia|lia| |pose proof (measure_retry rc rp c); lia].
      exists [], []. by split; [constructor|]. }
    destruct (Nat.eqb_spec p (length P)) as [->|Hpne].
    { apply mismatch_answers; try done; [lia|]. rewrite drop_all, HdC. by inversion 1. }
    rewrite (bounded_cstr_lookup _ _ _ _ HP) by lia.
    destruct (lookup_lt_is_Some_2 P p) as [pch Hpch]; [lia|]. rewrite Hpch.
    pose proof (drop_S _ _ _ Hpch) as HdP.
    destruct (Z.eqb_spec pch STAR) as [->|Hs].
    + assert (Heq : loop_sem got rc rp c p <-> loop_sem true c (S p) c (S p)).
      { destruct got; simpl.
        - rewrite (star_retry rc rp c p) by (done || lia). done.
        - rewrite (star_matches c p) by (done || lia). done. }
      rewrite (at_end_of_pattern_ok _ _ P (S p)) by (done || lia).
      destruct (Nat.eqb_spec (S p) (length P)) as [Hend|Hend].
      * exists true. split; [done|]. split; [|done]. intros _. apply Heq.
        exists (length C). split; [lia|]. rewrite Hend, !drop_all. constructor.
      * destruct (IH true c (S p) c (S p)) as (b & -> & Hsnd & Hcmp); [lia|lia| | |].
        { exists [], []. by split; [constructor|]. }
        { pose proof (measure_star rc rp c p). lia. }
        exists b. split; [done|]. split; [intros; by apply Heq, Hsnd|].
        intros Hn Hsem. apply Hcmp; [|by apply Heq].
        pose proof (attempt_nds _ _ _ _ Ha Hn) as Hn'. rewrite HdP in Hn'. simpl in Hn'.
        by eapply no_double_star_false.
    + (* the literal character at [q] *)
      set (q := if pch =? BACKSLASH then S p else p).
      assert (Hq : (p <= q <= length P)%nat) by (subst q; destruct (pch =? BACKSLASH); lia).
      rewrite (at_end_of_pattern_ok _ _ P q) by (done || lia).
      assert (Hq' : drop p P = (if pch =? BACKSLASH then BACKSLASH :: drop q P else drop q P)).
      { subst q. destruct (Z.eqb_spec pch BACKSLASH) as [->|]; done. }
      destruct (Nat.eqb_spec q (length P)) as [Hqe|Hqe].
      { apply mismatch_answers; try done; [lia|]. rewrite Hq', HdC, Hqe, drop_all.
        by destruct (pch =? BACKSLASH); inversion 1. }
      rewrite (bounded_cstr_lookup _ _ _ _ HP) by lia.
      destruct (lookup_lt_is_Some_2 P q) as [qch Hqch]; [lia|]. rewrite Hqch.
      pose proof (drop_S _ _ _ Hqch) as HdQ.
      assert (Hstep : attempt c p (S c) (S q) \/ cch <> qch).
      { destruct (Z.eq_dec cch qch) as [<-|]; [left|by right].
        rewrite HdQ in Hq'. destruct (Z.eqb_spec pch BACKSLASH) as [->|Hb].
        - exists [BACKSLASH; cch], [cch]. split; [by repeat constructor|done].
        - exists [pch], [pch]. subst q. split; [by apply literal_char; [..|constructor]|].
          simplify_eq. done. }
      destruct (Z.eqb_spec cch qch) as [Hcq|Hne]; cbn [negb].
      * destruct Hstep as [(l2 & x2 & Hl2 & EP & EC)|]; [|done].
        destruct Ha as (l & x & Hl & EP1 & EC1).
        assert (Ha' : attempt rc rp (S c) (S q)).
        { exists (l ++ l2), (x ++ x2).
          split; [|by rewrite EP1, EC1, EP, EC, !app_assoc].
          clear -Hl Hl2. induction Hl; simpl; eauto using literal. }
        destruct (IH got rc rp (S c) (S q)) as (b & -> & Hsnd & Hcmp); [lia|lia|done| |].
        { unfold measure in *. lia. }
        exists b. split; [done|].
        assert (Heq : loop_sem got rc rp c p <-> loop_sem got rc rp (S c) (S q)).
        { destruct got; simpl; [done|]. rewrite EP, EC, literal_matches by done.
          split; [by intros (s & ->%app_inv_head & ?)|by eexists]. }
        split; [intros; by apply Heq, Hsnd|]. intros Hn Hsem. apply Hcmp; [done|by apply Heq].
      * apply mismatch_answers; try done; [lia|]. rewrite Hq', HdC, HdQ.
        destruct (Z.eqb_spec pch BACKSLASH) as [->|Hb]; [by intros (? & [=] & _)%matches_escaped_inv|].
        assert (qch = pch) as -> by (subst q; congruence).
        by intros (? & [=] & _)%matches_char_inv.
  - assert (c = length C) as -> by lia. apply candidate_end_answers; [lia|lia|done].
Qed.
End matcher.

Lemma star_glob_match_ok pattern pattern_len candidate candidate_len P C :
  is_bounded_cstr pattern pattern_len P -> is_bounded_cstr candidate candidate_len C ->
  exists b, bt_common_star_glob_match pattern pattern_len candidate candidate_len = Some b /\
    (b = true -> matches P C) /\ (no_double_star false P = true -> matches P C -> b = true).
Proof.
  intros HP HC. unfold bt_common_star_glob_match.
  assert (Hle : forall s len t, is_bounded_cstr s len t -> (length t <= length s)%nat).
  { intros s len t [_ [[_ [r ->]] | [_ [_ [r ->]]]]]; rewrite length_app; lia. }
  pose proof (Hle _ _ _ HP). pose proof (Hle _ _ _ HC).
  destruct (star_glob_loop_ok pattern pattern_len candidate candidate_len P C HP HC
              (glob_fuel pattern candidate) false 0 0 0 0) as (b & -> & Hs & Hc); [lia|lia| | |].
  - exists [], []. by split; [constructor|].
  - unfold measure, glob_fuel. rewrite !Nat.sub_0_r. apply Nat.add_le_lt_mono; [|lia].
    apply Nat.mul_le_mono; [apply Nat.add_le_mono; [apply Nat.mul_le_mono|]|]; lia.
  - exists b. by rewrite !drop_0 in *.
Qed.

(** * Contract *)

(** C33: [bt_common_star_glob_match] is a terminating, memory-safe decision
    procedure: for a pattern without two stars in a row and any candidate,
    given with lengths that may exceed their null-terminated strings, it
    returns whether the candidate is in the pattern's language (stars match any
    string, a backslash makes the next character literal), although it only
    ever retries from the most recent star. *)
Theorem star_glob_match_decides pattern pattern_len candidate candidate_len P C :
  is_bounded_cstr pattern pattern_len P -> is_bounded_cstr candidate candidate_len C ->
  no_double_star false P = true ->
  exists b, bt_common_star_glob_match pattern pattern_len candidate candidate_len = Some b /\
    (b = true <-> matches P C).
Proof.
  intros HP HC Hn.
  destruct (star_glob_match_ok pattern pattern_len candidate candidate_len P C)
    as (b & -> & Hs & Hc); [done..|].
  exists b. split; [done|]. by split; [|apply Hc].
Qed.

Lemma star_glob_match_decides_witness :
  exists b, bt_common_star_glob_match [104; 42; 92; 42; 0] 9 [104; 105; 42] 3 = Some b /\
    (b = true <-> matches [104; 42; 92; 42] [104; 105; 42]).
Proof.
  apply star_glob_match_decides; [| |reflexivity].
  - split; [by repeat constructor|]. right. split; [simpl; lia|].
    split; [by repeat constructor|]. by exists [].
  - split; [by repeat constructor|]. left. split; [done|]. by exists [].
Defined.

(** [bt_common_normalize_star_glob_pattern] rewrites the pattern in place,
    inside its array, into a null-terminated string without two unescaped stars
    in a row and with the same language; a pattern that has none is left as it
    is. *)
Theorem normalize_star_glob_pattern_correct s P :
  is_cstr s P ->
  exists s' P', bt_common_normalize_star_glob_pattern s = Some s' /\ is_cstr s' P' /\
    no_double_star false P' = true /\ (forall c, matches P' c <-> matches P c) /\
    (no_double_star false P = true -> P' = P).
Proof.
  intros [HP [rest ->]]. unfold bt_common_normalize_star_glob_pattern.
  destruct (normalize_loop_ok (length (P ++ 0 :: rest)) [] [] P rest false HP) as [rest' E].
  { rewrite length_app. simpl. lia. }
  simpl in E. exists (normalized false P ++ 0 :: rest'), (normalized false P).
  split; [exact E|]. split; [split; [by apply normalized_no_nul|by eexists]|].
  split; [apply normalized_no_double_star|].
  split; [intros; apply normalized_matches|apply normalized_id].
Qed.

Lemma normalize_star_glob_pattern_correct_witness :
  exists s' P', bt_common_normalize_star_glob_pattern [42; 42; 97; 92; 42; 42; 42; 0] = Some s' /\
    is_cstr s' P' /\ no_double_star false P' = true /\
    (forall c, matches P' c <-> matches [42; 42; 97; 92; 42; 42; 42] c) /\
    (no_double_star false [42; 42; 97; 92; 42; 42; 42] = true -> P' = [42; 42; 97; 92; 42; 42; 42]).
Proof.
  apply normalize_star_glob_pattern_correct.
  split; [by repeat constructor|by exists []].
Defined.

(** normalizing then matching, as the users of the two functions do, decides
    the language of the pattern as given, for every pattern; and matching alone
    never accepts a candidate outside the language, normalized or not. *)
Theorem normalize_then_match s P candidate candidate_len C :
  is_cstr s P -> is_bounded_cstr candidate candidate_len C ->
  (exists s' b, bt_common_normalize_star_glob_pattern s = Some s' /\
     bt_common_star_glob_match s' (length (cstr_of s')) candidate candidate_len = Some b /\
     (b = true <-> matches P C)) /\
  (exists b, bt_common_star_glob_match s (length P) candidate candidate_len = Some b /\
     (b = true -> matches P C)).
Proof.
  intros [HP [rest ->]] HC. split.
  - unfold bt_common_normalize_star_glob_pattern.
    destruct (normalize_loop_ok (length (P ++ 0 :: rest)) [] [] P rest false HP) as [rest' E].
    { rewrite length_app. simpl. lia. }
    simpl in E. pose proof (normalized_no_nul P false HP) as HN.
    destruct (star_glob_match_ok (normalized false P ++ 0 :: rest') (length (normalized false P))
                candidate candidate_len (normalized false P) C) as (b & Eb & Hs & Hc);
      [split; [done|]; left; split; [done|by eexists]|done|].
    eexists _, b. split; [exact E|]. rewrite cstr_of_app by done. split; [exact Eb|].
    rewrite <- (proj1 (normalized_matches P C)).
    split; [done|]. apply Hc, normalized_no_double_star.
  - destruct (star_glob_match_ok (P ++ 0 :: rest) (length P) candidate candidate_len P C)
      as (b & Eb & Hs & _); [split; [done|]; left; split; [done|by eexists]|done|].
    by exists b.
Qed.

Lemma normalize_then_match_witness :
  exists s' b, bt_common_normalize_star_glob_pattern [42; 42; 0] = Some s' /\
    bt_common_star_glob_match s' (length (cstr_of s')) [0] 0 = Some b /\
    (b = true <-> matches [42; 42] []).
Proof.
  apply (normalize_then_match [42; 42; 0] [42; 42] [0] 0 []).
  - split; [by repeat constructor|by exists []].
  - split; [constructor|]. left. split; [done|by eexists].
Defined.
