(* ===== verification/Paths.v ===== *)
(** Path normalization: [append_path_parts] and [bt_common_normalize_path] of
    [src/src/common/common.c] (the POSIX version).

    A path is a null-terminated array of characters, a path part a list of
    characters, the array of parts a list.  The specification is [resolve], which
    keeps the parts that are still there on a stack. *)

From S2P Require Import Prelude.

Definition G_DIR_SEPARATOR : Z := 47.
Definition DOT : list Z := [46].
Definition DOT_DOT : list Z := [46; 46].

Fixpoint append_path_parts_loop (fuel : nat) (path : list Z) (ch last : nat)
    (parts : list (list Z)) : option (list (list Z)) :=
  match fuel with
  | O => None
  | S fuel =>
      do c <- path !! ch;
      if (c =? G_DIR_SEPARATOR) || (c =? 0) then
        let parts := if (last <? ch)%nat then parts ++ [take (ch - last) (drop last path)]
                     else parts in
        if c =? 0 then Some parts else append_path_parts_loop fuel path (S ch) (S ch) parts
      else append_path_parts_loop fuel path (S ch) last parts
  end.

Definition append_path_parts (path : list Z) (parts : list (list Z)) : option (list (list Z)) :=
  append_path_parts_loop (length path) path 0 0 parts.

(** The loop over [i] that resolves [..] and [.]; the inner [None] is the jump to
    [error].  [i -= 2] (or [i -= 1]) is followed by [i++]. *)
Fixpoint resolve_loop (fuel : nat) (parts : list (list Z)) (i : nat)
  : option (option (list (list Z))) :=
  match fuel with
  | O => None
  | S fuel =>
      if (i <? length parts)%nat then
        do part <- parts !! i;
        if decide (part = DOT_DOT) then
          if (i =? 0)%nat then Some None
          else resolve_loop fuel (delete (i - 1)%nat (delete (i - 1)%nat parts)) (i - 1)
        else if decide (part = DOT) then resolve_loop fuel (delete i parts) i
        else resolve_loop fuel parts (S i)
      else Some (Some parts)
  end.

(** The parts, with a separator between two parts. *)
Fixpoint join_parts (parts : list (list Z)) : list Z :=
  match parts with
  | [] => []
  | [p] => p
  | p :: parts => p ++ G_DIR_SEPARATOR :: join_parts parts
  end.

(** The inner option is the returned string, or [NULL]; [current_dir] is the
    string of [g_get_current_dir]. *)
Definition bt_common_normalize_path (current_dir path : list Z) (wd : option (list Z))
  : option (option (list Z)) :=
  do ch0 <- path !! 0%nat;
  do parts <- (if negb (ch0 =? G_DIR_SEPARATOR)
               then append_path_parts (default current_dir wd) [] else Some []);
  do parts <- append_path_parts path parts;
  do r <- resolve_loop (S (length parts)) parts 0;
  match r with
  | None => Some None
  | Some parts => Some (Some (G_DIR_SEPARATOR :: join_parts parts))
  end.

Example normalize_path_ex :
  (* "/a/./b//../c" *)
  bt_common_normalize_path [47; 0] [47; 97; 47; 46; 47; 98; 47; 47; 46; 46; 47; 99; 0] None
  = Some (Some [47; 97; 47; 99]).
Proof. vm_compute. reflexivity. Qed.

(** * Specification *)

(** The non-empty parts of a path between separators; [cur] is the beginning of
    the current part. *)
Fixpoint split_path (cur t : list Z) : list (list Z) :=
  match t with
  | [] => match cur with [] => [] | _ => [cur] end
  | c :: t =>
      if c =? G_DIR_SEPARATOR
      then (match cur with [] => [] | _ => [cur] end) ++ split_path [] t
      else split_path (cur ++ [c]) t
  end.

Fixpoint resolve (stack parts : list (list Z)) : option (list (list Z)) :=
  match parts with
  | [] => Some stack
  | part :: parts =>
      if decide (part = DOT_DOT) then
        match stack with [] => None | _ => resolve (removelast stack) parts end
      else if decide (part = DOT) then resolve stack parts
      else resolve (stack ++ [part]) parts
  end.

(** Change of depth that a part makes. *)
Definition part_depth (part : list Z) : Z :=
  if decide (part = DOT_DOT) then -1 else if decide (part = DOT) then 0 else 1.
Definition depth (parts : list (list Z)) : Z := foldr (fun p n => part_depth p + n) 0 parts.

(** A part of a canonical path. *)
Definition name (p : list Z) : Prop :=
  p <> [] /\ p <> DOT /\ p <> DOT_DOT /\ Forall (fun c => c <> G_DIR_SEPARATOR /\ c <> 0) p.

(** * Lemmas *)

Lemma drop_take_snoc (s : list Z) last ch c :
  (last <= ch)%nat -> s !! ch = Some c ->
  take (S ch - last) (drop last s) = take (ch - last) (drop last s) ++ [c].
Proof.
  intros Hl Hc. replace (S ch - last)%nat with (S (ch - last)) by lia.
  apply take_S_r. rewrite lookup_drop. by replace (last + (ch - last))%nat with ch by lia.
Qed.

Lemma append_path_parts_loop_ok fuel s t rest ch last parts :
  no_nul t -> (length t < fuel)%nat -> (last <= ch)%nat -> drop ch s = t ++ 0 :: rest ->
  append_path_parts_loop fuel s ch last parts =
    Some (parts ++ split_path (take (ch - last) (drop last s)) t).
Proof.
  revert t ch last parts. induction fuel as [|fuel IH]; intros t ch last parts Ht Hf Hl Hd; [lia|].
  cbn [append_path_parts_loop].
  assert (Hc : s !! ch = Some (default 0 (head t))).
  { rewrite <- (Nat.add_0_r ch), <- lookup_drop, Hd. by destruct t. }
  rewrite Hc.
  assert (Hcur : forall A (x y : A), (if (last <? ch)%nat then x else y) =
            match take (ch - last) (drop last s) with [] => y | _ => x end).
  { intros A x y. destruct (Nat.ltb_spec last ch) as [Hlt|Hge].
    - replace (ch - last)%nat with (S (ch - last - 1)) by lia.
      destruct (drop last s) eqn:E; [|done].
      apply (f_equal length) in E. rewrite length_drop in E. simpl in E.
      apply lookup_lt_Some in Hc. lia.
    - by replace (ch - last)%nat with O by lia. }
  destruct t as [|c t]; simpl.
  - rewrite Hcur. by destruct (take _ _); rewrite ?app_nil_r.
  - apply Forall_cons_1 in Ht as [Hc0 Ht]. simpl in Hf.
    rewrite (proj2 (Z.eqb_neq c 0)) by done. rewrite orb_false_r.
    assert (Hd' : drop (S ch) s = t ++ 0 :: rest) by
      (replace (S ch) with (ch + 1)%nat by lia; by rewrite <- drop_drop, Hd).
    destruct (Z.eqb_spec c G_DIR_SEPARATOR) as [->|Hs].
    + rewrite (IH t) by (done || lia). rewrite Nat.sub_diag. simpl. f_equal. rewrite Hcur.
      destruct (take _ _); [done|]. by rewrite <- app_assoc.
    + rewrite (IH t) by (done || lia). by rewrite (drop_take_snoc _ _ _ c) by (done || lia).
Qed.

Lemma append_path_parts_ok s t parts :
  is_cstr s t -> append_path_parts s parts = Some (parts ++ split_path [] t).
Proof.
  intros [Ht [rest ->]]. unfold append_path_parts.
  rewrite (append_path_parts_loop_ok _ _ t rest) by
    (done || (rewrite length_app; simpl; lia)). done.
Qed.

Lemma delete_middle_part (l1 l2 : list (list Z)) x :
  delete (length l1) (l1 ++ x :: l2) = l1 ++ l2.
Proof. apply delete_middle. Qed.

Lemma resolve_loop_ok fuel stack rest :
  (length rest < fuel)%nat ->
  resolve_loop fuel (stack ++ rest) (length stack) = Some (resolve stack rest).
Proof.
  revert stack rest. induction fuel as [|fuel IH]; intros stack rest Hf; [lia|].
  cbn [resolve_loop]. rewrite length_app.
  destruct rest as [|p rest]; simpl length.
  { rewrite (proj2 (Nat.ltb_ge _ _)) by lia. by rewrite app_nil_r. }
  rewrite (proj2 (Nat.ltb_lt _ _)) by lia. rewrite list_lookup_middle by done. simpl in Hf.
  simpl. destruct (decide (p = DOT_DOT)) as [->|].
  - destruct stack as [|q stack] using rev_ind; [done|]. clear IHstack.
    rewrite length_app. simpl. rewrite (proj2 (Nat.eqb_neq _ 0)) by lia.
    replace (length stack + 1 - 1)%nat with (length stack) by lia.
    rewrite <- app_assoc. simpl. rewrite !delete_middle_part, IH by lia.
    rewrite removelast_last. by destruct stack.
  - destruct (decide (p = DOT)) as [->|].
    + rewrite delete_middle_part. apply IH. lia.
    + rewrite <- (IH (stack ++ [p]) rest) by lia. rewrite length_app, <- app_assoc. simpl.
      f_equal. lia.
Qed.

Lemma resolve_none stack parts :
  resolve stack parts = None <->
    exists k, (k <= length parts)%nat /\ Z.of_nat (length stack) + depth (take k parts) < 0.
Proof.
  revert stack. induction parts as [|p parts IH]; intros stack; simpl.
  { split; [done|]. intros (k & Hk & H). assert (k = O) as -> by lia. simpl in H. lia. }
  assert (Hstep : forall stack', Z.of_nat (length stack') = Z.of_nat (length stack) + part_depth p ->
    resolve stack' parts = None <-> exists k, (k <= S (length parts))%nat /\
      Z.of_nat (length stack) + depth (take k (p :: parts)) < 0).
  { intros stack' Hl. rewrite IH. split.
    - intros (k & Hk & H). exists (S k). split; [lia|]. cbn [take depth foldr].
      fold (depth (take k parts)). lia.
    - intros ([|k] & Hk & H); [simpl in H; lia|]. exists k. split; [lia|].
      cbn [take depth foldr] in H. fold (depth (take k parts)) in H. lia. }
  destruct (decide (p = DOT_DOT)) as [->|H1].
  - destruct stack as [|q stack] using rev_ind.
    + split; [|done]. intros _. exists 1%nat. split; [lia|]. by vm_compute.
    + clear IHstack. rewrite removelast_last.
      rewrite <- (Hstep stack) by (rewrite length_app; unfold part_depth; simpl; lia).
      by destruct stack.
  - destruct (decide (p = DOT)) as [->|H2]; apply Hstep.
    + unfold part_depth. simpl. lia.
    + unfold part_depth. rewrite length_app. rewrite !decide_False by done. simpl. lia.
Qed.

(** Parts of a split path. *)
Definition part_ok (p : list Z) : Prop :=
  p <> [] /\ Forall (fun c => c <> G_DIR_SEPARATOR /\ c <> 0) p.

Lemma split_path_parts cur t :
  no_nul t -> Forall (fun c => c <> G_DIR_SEPARATOR /\ c <> 0) cur ->
  Forall part_ok (split_path cur t).
Proof.
  revert cur. induction t as [|c t IH]; intros cur Ht Hcur; simpl.
  - destruct cur; constructor; [by split|constructor].
  - apply Forall_cons_1 in Ht as [Hc Ht]. destruct (Z.eqb_spec c G_DIR_SEPARATOR).
    + apply Forall_app. split; [|by apply IH].
      destruct cur; constructor; [by split|constructor].
    + apply IH; [done|]. apply Forall_app. by repeat constructor.
Qed.

Lemma resolve_names stack parts r :
  Forall name stack -> Forall part_ok parts -> resolve stack parts = Some r -> Forall name r.
Proof.
  revert stack. induction parts as [|p parts IH]; intros stack Hst Hp; simpl.
  { by intros [= <-]. }
  apply Forall_cons_1 in Hp as [[Hne Hc] Hp].
  destruct (decide (p = DOT_DOT)); [|destruct (decide (p = DOT))].
  - destruct stack as [|q stack] using rev_ind; [done|]. clear IHstack.
    apply Forall_app in Hst as [Hst _]. rewrite removelast_last.
    destruct (stack ++ [q]) eqn:E; [by destruct stack|]. by apply IH.
  - by apply IH.
  - apply IH; [|done]. apply Forall_app. by repeat constructor.
Qed.

Lemma resolve_clean stack parts : Forall name parts -> resolve stack parts = Some (stack ++ parts).
Proof.
  revert stack. induction parts as [|p parts IH]; intros stack Hp; simpl; [by rewrite app_nil_r|].
  apply Forall_cons_1 in Hp as [(? & ? & ? & ?) Hp]. rewrite !decide_False by done.
  rewrite IH by done. by rewrite <- app_assoc.
Qed.

Lemma split_path_name cur p t :
  Forall (fun c => c <> G_DIR_SEPARATOR /\ c <> 0) p ->
  split_path cur (p ++ t) = split_path (cur ++ p) t.
Proof.
  revert cur. induction p as [|c p IH]; intros cur Hp; simpl; [by rewrite app_nil_r|].
  apply Forall_cons_1 in Hp as [[Hc _] Hp]. rewrite (proj2 (Z.eqb_neq _ _)) by done.
  rewrite IH by done. by rewrite <- app_assoc.
Qed.

Lemma split_join parts : Forall name parts -> split_path [] (join_parts parts) = parts.
Proof.
  induction 1 as [|p parts (Hne & _ & _ & Hc) _ IH]; [done|].
  destruct parts as [|q parts].
  - simpl. rewrite <- (app_nil_r p) at 1. rewrite split_path_name by done. simpl. by destruct p.
  - cbn [join_parts]. rewrite split_path_name by done. simpl.
    change (match parts with [] => q | _ :: _ => q ++ G_DIR_SEPARATOR :: join_parts parts end)
      with (join_parts (q :: parts)). rewrite IH. by destruct p.
Qed.

Lemma join_no_nul parts : Forall name parts -> no_nul (join_parts parts).
Proof.
  assert (Hp : forall p, name p -> no_nul p).
  { intros p (_ & _ & _ & H). eapply Forall_impl; [|exact H]. by intros ? []. }
  induction 1 as [|p [|q parts] Hn _ IH]; [constructor|by apply Hp|].
  apply Forall_app. split; [by apply Hp|]. by constructor.
Qed.

(** The parts that normalization starts from. *)
Definition start_parts (wd_text path_text : list Z) : list (list Z) :=
  (if decide (head path_text = Some G_DIR_SEPARATOR) then [] else split_path [] wd_text)
  ++ split_path [] path_text.

Lemma start_parts_ok w p : no_nul w -> no_nul p -> Forall part_ok (start_parts w p).
Proof.
  intros Hw Hp. unfold start_parts. apply Forall_app. split; [|by apply split_path_parts].
  destruct (decide _); [constructor|by apply split_path_parts].
Qed.

Lemma normalize_path_ok current_dir path wd w p :
  is_cstr (default current_dir wd) w -> is_cstr path p ->
  bt_common_normalize_path current_dir path wd =
    Some (match resolve [] (start_parts w p) with
          | None => None
          | Some parts => Some (G_DIR_SEPARATOR :: join_parts parts)
          end).
Proof.
  intros Hw Hp. unfold bt_common_normalize_path, start_parts.
  rewrite (is_cstr_lookup _ _ 0 Hp) by lia.
  rewrite (append_path_parts_ok _ w) by done.
  replace (if negb (default 0 (p !! 0%nat) =? G_DIR_SEPARATOR)
           then Some ([] ++ split_path [] w) else Some [])
    with (Some (if decide (head p = Some G_DIR_SEPARATOR) then [] else split_path [] w)).
  2:{ rewrite <- head_lookup. destruct (head p) as [c|]; cbn [default from_option];
        [|by rewrite decide_False].
      unfold id. destruct (Z.eqb_spec c G_DIR_SEPARATOR), (decide (Some c = Some G_DIR_SEPARATOR));
        done || congruence. }
  rewrite (append_path_parts_ok _ p) by done.
  set (parts := _ ++ _). rewrite (resolve_loop_ok _ [] parts) by lia. by destruct (resolve [] parts).
Qed.

(** * Contract *)

(** [bt_common_normalize_path] resolves the path.  It stays in bounds,
    terminates, and returns the separator followed by the parts, separated, that
    a stack holds after going through the parts of the path (preceded by those
    of the working directory when the path is relative): empty parts and [.] are
    dropped and [..] removes the part before it; the array updates by index
    compute exactly that. *)
Theorem normalize_path_resolves current_dir path wd w p :
  is_cstr (default current_dir wd) w -> is_cstr path p ->
  bt_common_normalize_path current_dir path wd =
    Some (match resolve [] (start_parts w p) with
          | None => None
          | Some parts => Some (G_DIR_SEPARATOR :: join_parts parts)
          end).
Proof. apply normalize_path_ok. Qed.

Lemma normalize_path_resolves_witness :
  (* "../x" from "/a/b" *)
  bt_common_normalize_path [47; 0] [46; 46; 47; 120; 0] (Some [47; 97; 47; 98; 0]) =
    Some (match resolve [] (start_parts [47; 97; 47; 98] [46; 46; 47; 120]) with
          | None => None
          | Some parts => Some (G_DIR_SEPARATOR :: join_parts parts)
          end).
Proof.
  apply normalize_path_resolves; (split; [by repeat constructor|by exists []]).
Defined.

(** the result is canonical: it is an absolute path whose parts are neither
    empty, [.] nor [..], and normalizing it again, from any directory, returns
    it unchanged. *)
Theorem normalize_path_canonical current_dir path wd w p r :
  is_cstr (default current_dir wd) w -> is_cstr path p ->
  bt_common_normalize_path current_dir path wd = Some (Some r) ->
  no_nul r /\ head r = Some G_DIR_SEPARATOR /\ Forall name (split_path [] r) /\
  forall cd wd' w', is_cstr (default cd wd') w' ->
    bt_common_normalize_path cd (r ++ [0]) wd' = Some (Some r).
Proof.
  intros Hw Hp. rewrite (normalize_path_ok _ _ _ w p) by done.
  destruct (resolve [] (start_parts w p)) as [parts|] eqn:E; [|done]. intros [= <-].
  apply resolve_names in E; [|constructor|apply start_parts_ok; [apply Hw|apply Hp]].
  assert (Hn : no_nul (G_DIR_SEPARATOR :: join_parts parts))
    by (constructor; [done|by apply join_no_nul]).
  assert (Hs : split_path [] (G_DIR_SEPARATOR :: join_parts parts) = parts)
    by (simpl; by apply split_join).
  split; [done|]. split; [done|]. rewrite Hs. split; [done|]. intros cd wd' w' Hw'.
  rewrite (normalize_path_ok _ _ _ w' (G_DIR_SEPARATOR :: join_parts parts)); [|done|].
  - unfold start_parts. rewrite decide_True by done. rewrite Hs. simpl.
    by rewrite resolve_clean by done.
  - split; [done|by exists []].
Qed.

Lemma normalize_path_canonical_witness :
  bt_common_normalize_path [47; 0] [47; 97; 47; 99; 0] (Some [47; 0]) = Some (Some [47; 97; 47; 99]).
Proof.
  apply (normalize_path_canonical [47; 0] [47; 97; 47; 46; 47; 98; 47; 47; 46; 46; 47; 99; 0] None
           [47] [47; 97; 47; 46; 47; 98; 47; 47; 46; 46; 47; 99] [47; 97; 47; 99])
    with (w' := [47]);
    [split; [by repeat constructor|by exists []]..|vm_compute; reflexivity
    |split; [by repeat constructor|by exists []]].
Defined.

(** the error case: [bt_common_normalize_path] returns [NULL] exactly when
    some beginning of the path has more [..] parts than names, that is, when the
    path goes above the root directory. *)
Theorem normalize_path_error_iff current_dir path wd w p :
  is_cstr (default current_dir wd) w -> is_cstr path p ->
  bt_common_normalize_path current_dir path wd = Some None <->
    exists k, (k <= length (start_parts w p))%nat /\ depth (take k (start_parts w p)) < 0.
Proof.
  intros Hw Hp. rewrite (normalize_path_ok _ _ _ w p) by done.
  transitivity (resolve [] (start_parts w p) = None).
  - by destruct (resolve _ _).
  - apply (resolve_none []).
Qed.

Lemma normalize_path_error_iff_witness :
  bt_common_normalize_path [47; 0] [47; 97; 47; 46; 46; 47; 46; 46; 0] None = Some None.
Proof.
  apply (normalize_path_error_iff [47; 0] [47; 97; 47; 46; 46; 47; 46; 46; 0] None [47]
           [47; 97; 47; 46; 46; 47; 46; 46]).
  - split; [by repeat constructor|by exists []].
  - split; [by repeat constructor|by exists []].
  - exists 3%nat. split; [simpl; lia|by vm_compute].
Defined.
