(* ===== verification/Text.v ===== *)
(** Text utilities of [src/src/common/common.c]: [bt_common_string_until],
    [bt_common_shell_quote], [bt_common_string_is_printable],
    [bt_common_parse_lttng_live_url], [bt_common_append_plugin_path_dirs],
    [bt_common_sep_digits] and [bt_common_fold].

    A read-only C string is the list of its characters without the null one: a
    pointer into it is the rest of the list, and the end of the list is the null
    character.  [bt_common_sep_digits], which works in place, has the array of
    characters, and an access outside the array is [None]. *)

From S2P Require Import Prelude.

Definition BACKSLASH : Z := 92.
Definition SLASH : Z := 47.
Definition COLON : Z := 58.
Definition SPACE : Z := 32.
Definition NEWLINE : Z := 10.
Definition QUOTE : Z := 39.
Definition DQUOTE : Z := 34.

Definition char_in (c : Z) (chars : list Z) : bool := existsb (Z.eqb c) chars.

(** * [bt_common_string_until] *)

(** The loop over [ch], with the output so far; [pos] is [ch - input]. *)
Fixpoint string_until_loop (escapable_chars end_chars ch : list Z) (pos : nat)
    (output : list Z) : list Z * nat :=
  match ch with
  | [] => (output, pos)
  | c :: rest =>
      if c =? BACKSLASH then
        match rest with
        | [] => (output ++ [c], S pos)
        | n :: rest' =>
            if char_in n escapable_chars
            then string_until_loop escapable_chars end_chars rest' (S (S pos)) (output ++ [n])
            else string_until_loop escapable_chars end_chars rest' (S (S pos)) (output ++ [c; n])
        end
      else if char_in c end_chars then (output, pos)
      else string_until_loop escapable_chars end_chars rest (S pos) (output ++ [c])
  end.

(** The output and [*end_pos]. *)
Definition bt_common_string_until (input escapable_chars end_chars : list Z) : list Z * nat :=
  string_until_loop escapable_chars end_chars input 0 [].

(** * [bt_common_shell_quote] *)

Definition g_ascii_isalpha (c : Z) : bool := ((65 <=? c) && (c <=? 90)) || ((97 <=? c) && (c <=? 122)).
Definition g_ascii_isdigit (c : Z) : bool := (48 <=? c) && (c <=? 57).

(** ['_' '@' '%' '+' '=' ':' ',' '.' '/' '-'] *)
Definition plain_char (c : Z) : bool :=
  g_ascii_isalpha c || g_ascii_isdigit c || char_in c [95; 64; 37; 43; 61; 58; 44; 46; 47; 45].

Definition bt_common_shell_quote (input : list Z) (with_single_quotes : bool) : list Z :=
  if (length input =? 0)%nat then if with_single_quotes then [QUOTE; QUOTE] else []
  else if forallb plain_char input then input
  else
    let output := if with_single_quotes then [QUOTE] else [] in
    let output := output ++ flat_map (fun c => if c =? QUOTE
                                               then [QUOTE; DQUOTE; QUOTE; DQUOTE; QUOTE]
                                               else [c]) input in
    if with_single_quotes then output ++ [QUOTE] else output.

(** * [bt_common_string_is_printable] *)

(** [isprint] of the C locale. *)
Definition isprint (c : Z) : bool := (32 <=? c) && (c <=? 126).

Definition bt_common_string_is_printable (input : list Z) : bool :=
  forallb (fun c => isprint (wrapu 8 c) || char_in c [10; 13; 9; 11]) input.

(** * [bt_common_append_plugin_path_dirs] *)

(** The characters of [at] before the first separator, and what [strchr] points
    to (the separator and the rest), if any. *)
Fixpoint split_at (sep : Z) (t : list Z) : list Z * list Z :=
  match t with
  | [] => ([], [])
  | c :: r => if c =? sep then ([], t) else let '(a, b) := split_at sep r in (c :: a, b)
  end.

(** The loop over [at]; the fuel is the number of characters. *)
Fixpoint plugin_dirs_loop (fuel : nat) (at_ : list Z) (dirs : list (list Z)) : list (list Z) :=
  match fuel, at_ with
  | O, _ | _, [] => dirs
  | S fuel, _ :: at_tail =>
      let '(dir, next_sep) := split_at COLON at_ in
      match dir with
      | [] => plugin_dirs_loop fuel at_tail dirs
      | _ => plugin_dirs_loop fuel (tail next_sep) (dirs ++ [dir])
      end
  end.

Definition bt_common_append_plugin_path_dirs (paths : option (list Z)) (dirs : list (list Z))
  : list (list Z) :=
  match paths with
  | None => dirs
  | Some paths => plugin_dirs_loop (length paths) paths dirs
  end.

(** * [bt_common_parse_lttng_live_url] *)

Record lttng_live_url_parts := UrlParts {
  proto : list Z; hostname : list Z; port : Z;
  target_hostname : option (list Z); session_name : option (list Z)
}.

Inductive url_error :=
| MissingProtocol | UnknownProtocol | ExpectingColon | ExpectingSlashes | MissingHostname
| MissingPort | InvalidPort | ExpectingHost | MissingTargetHostname | MissingSlash
| MissingSessionName | UnexpectedSlash.

Definition NET : list Z := [110; 101; 116].
Definition NET4 : list Z := [110; 101; 116; 52].
Definition NET6 : list Z := [110; 101; 116; 54].
Definition COLON_SLASHES : list Z := [58; 47; 47].
Definition SLASH_HOST_SLASH : list Z := [47; 104; 111; 115; 116; 47].

Definition isspace (c : Z) : bool := (c =? 32) || ((9 <=? c) && (c <=? 13)).

Fixpoint skip_spaces (t : list Z) : list Z :=
  match t with
  | [] => []
  | c :: r => if isspace c then skip_spaces r else t
  end.

Fixpoint scan_digits (t : list Z) (v : Z) : Z :=
  match t with
  | [] => v
  | c :: r => if g_ascii_isdigit c then scan_digits r (10 * v + (c - 48)) else v
  end.

(** [sscanf(t, "%d", &v)]: the inner [None] is a return value other than 1; the
    outer one, a value that an [int] cannot hold (undefined behaviour). *)
Definition sscanf_d (t : list Z) : option (option Z) :=
  let t := skip_spaces t in
  let '(neg, t) := match t with
                   | 45 :: r => (true, r)
                   | 43 :: r => (false, r)
                   | _ => (false, t)
                   end in
  match t with
  | c :: _ =>
      if g_ascii_isdigit c then
        let v := if neg then - scan_digits t 0 else scan_digits t 0 in
        guard_ub (- 2 ^ 31 <=? v) && (v <? 2 ^ 31); Some (Some v)
      else Some None
  | [] => Some None
  end.

Definition starts_with (p t : list Z) : bool := bool_decide (take (length p) t = p).

Definition bt_common_parse_lttng_live_url (url : list Z)
  : option (lttng_live_url_parts + url_error) :=
  let '(proto, end_pos) := bt_common_string_until url [] [COLON] in
  if (length proto =? 0)%nat then Some (inr MissingProtocol) else
  let proto := if bool_decide (proto = NET) then NET4 else proto in
  if bool_decide (proto <> NET4) && bool_decide (proto <> NET6)
  then Some (inr UnknownProtocol) else
  let at_ := drop end_pos url in
  if negb (bool_decide (head at_ = Some COLON)) then Some (inr ExpectingColon) else
  if negb (starts_with COLON_SLASHES at_) then Some (inr ExpectingSlashes) else
  let at_ := drop 3 at_ in
  let '(hostname, end_pos) := bt_common_string_until at_ [] [COLON; SLASH] in
  if (length hostname =? 0)%nat then Some (inr MissingHostname) else
  do r <-
    (if bool_decide (head (drop end_pos at_) = Some COLON) then
       let at_ := drop (end_pos + 1) at_ in
       let '(port, end_pos) := bt_common_string_until at_ [] [SLASH] in
       if (length port =? 0)%nat then Some (inr MissingPort) else
       do v <- sscanf_d port;
       match v with
       | None => Some (inr InvalidPort)
       | Some v => if (v <? 0) || (65536 <=? v) then Some (inr InvalidPort)
                   else Some (inl (v, at_, end_pos))
       end
     else Some (inl (-1, at_, end_pos)));
  match r with
  | inr e => Some (inr e)
  | inl (port, at_, end_pos) =>
      let at_ := drop end_pos at_ in
      if bool_decide (at_ = []) then Some (inl (UrlParts proto hostname port None None)) else
      if negb (starts_with SLASH_HOST_SLASH at_) then Some (inr ExpectingHost) else
      let at_ := drop 6 at_ in
      let '(target, end_pos) := bt_common_string_until at_ [] [SLASH] in
      if (length target =? 0)%nat then Some (inr MissingTargetHostname) else
      if bool_decide (drop end_pos at_ = []) then Some (inr MissingSlash) else
      let at_ := drop (end_pos + 1) at_ in
      let '(session, end_pos) := bt_common_string_until at_ [] [SLASH] in
      if (length session =? 0)%nat then Some (inr MissingSessionName) else
      if bool_decide (head (drop end_pos at_) = Some SLASH) then Some (inr UnexpectedSlash) else
      Some (inl (UrlParts proto hostname port (Some target) (Some session)))
  end.

Example parse_url_ex :
  (* "net://h:80/host/t/s" *)
  bt_common_parse_lttng_live_url
    [110; 101; 116; 58; 47; 47; 104; 58; 56; 48; 47; 104; 111; 115; 116; 47; 116; 47; 115]
  = Some (inl (UrlParts NET4 [104] 80 (Some [116]) (Some [115]))).
Proof. vm_compute. reflexivity. Qed.

(** * [bt_common_sep_digits] *)

Definition str_get (s : list Z) (i : Z) : option Z := if 0 <=? i then s !! Z.to_nat i else None.
Definition str_set (s : list Z) (i x : Z) : option (list Z) :=
  if (0 <=? i) && (i <? Z.of_nat (length s)) then Some (<[Z.to_nat i := x]> s) else None.

(** [while (rd != str - 1)]; the indexes are relative to [str]. *)
Fixpoint sep_digits_loop (fuel : nat) (s : list Z) (digits_per_group sep rd wr i : Z)
  : option (list Z) :=
  match fuel with
  | O => None
  | S fuel =>
      if rd =? -1 then Some s
      else if i =? digits_per_group then
        do s <- str_set s wr sep;
        sep_digits_loop fuel s digits_per_group sep rd (wr - 1) 0
      else
        do c <- str_get s rd;
        do s <- str_set s wr c;
        sep_digits_loop fuel s digits_per_group sep (rd - 1) (wr - 1) (i + 1)
  end.

Definition bt_common_sep_digits (s : list Z) (digits_per_group sep : Z) : option (list Z) :=
  let orig_len := Z.of_nat (length (cstr_of s)) in
  let sep_count := (orig_len - 1) / digits_per_group in
  let new_len := orig_len + sep_count in
  do s <- str_set s new_len 0;
  sep_digits_loop (S (Z.to_nat new_len)) s digits_per_group sep (orig_len - 1) (new_len - 1) 0.

Example sep_digits_ex :
  bt_common_sep_digits [49; 50; 51; 52; 53; 54; 55; 56; 0; 1; 1; 1] 3 44
  = Some [49; 50; 44; 51; 52; 53; 44; 54; 55; 56; 0; 1].
Proof. vm_compute. reflexivity. Qed.

(** * [bt_common_fold] *)

(** The loop over the words of a line, with the temporary line. *)
Fixpoint fold_words (content_length indent : nat) (words : list (list Z)) (tmp_line folded : list Z)
  : list Z * list Z :=
  match words with
  | [] => (tmp_line, folded)
  | word :: words =>
      let '(tmp_line, folded) :=
        if (0 <? length tmp_line)%nat &&
           (content_length <=? length tmp_line - 1 + length word)%nat
        then ([], folded ++ take (length tmp_line - 1) tmp_line ++ [NEWLINE]
                    ++ replicate indent SPACE)
        else (tmp_line, folded) in
      fold_words content_length indent words (tmp_line ++ word ++ [SPACE]) folded
  end.

Section fold.
(** GLib's [g_strsplit] with a one-character delimiter. *)
Context (g_strsplit : list Z -> Z -> list (list Z)).

Definition fold_line (content_length indent : nat) (line folded : list Z) : list Z :=
  if (length line =? 0)%nat then folded ++ [NEWLINE]
  else
    let '(tmp_line, folded) :=
      fold_words content_length indent (g_strsplit line SPACE) []
        (folded ++ replicate indent SPACE) in
    let folded := if (0 <? length tmp_line)%nat
                  then folded ++ take (length tmp_line - 1) tmp_line else folded in
    folded ++ [NEWLINE].

Definition bt_common_fold (str : list Z) (total_length indent : nat) : list Z :=
  let content_length := (total_length - indent)%nat in
  if (length str =? 0)%nat then []
  else
    let folded := fold_left (fun folded line => fold_line content_length indent line folded)
                    (g_strsplit str NEWLINE) [] in
    if bool_decide (folded !! (length folded - 1)%nat = Some NEWLINE)
    then take (length folded - 1) folded else folded.
End fold.

(** * [bt_common_string_until]: lemmas *)

Lemma char_in_spec c chars : char_in c chars = true <-> c ∈ chars.
Proof.
  unfold char_in. rewrite existsb_exists. split.
  - intros (x & Hx & ->%Z.eqb_eq). by apply list_elem_of_In.
  - intros H. exists c. split; [by apply list_elem_of_In|apply Z.eqb_refl].
Qed.

Lemma char_in_false c chars : char_in c chars = false <-> c ∉ chars.
Proof. rewrite <- char_in_spec. destruct (char_in c chars); split; congruence || done. Qed.

(** A backslash before each character that needs one. *)
Definition escape (escapable t : list Z) : list Z :=
  flat_map (fun c => if char_in c escapable then [BACKSLASH; c] else [c]) t.

(** What is left starts with an end character, or nothing is left. *)
Definition ends (end_chars r : list Z) : Prop :=
  match r with [] => True | c :: _ => c <> BACKSLASH /\ c ∈ end_chars end.

Lemma string_until_loop_escaped esc fin t r pos out :
  BACKSLASH ∈ esc -> (forall c, c ∈ fin -> c ∈ esc) -> ends fin r ->
  string_until_loop esc fin (escape esc t ++ r) pos out =
    (out ++ t, (pos + length (escape esc t))%nat).
Proof.
  intros Hb Hsub Hr. revert pos out. induction t as [|c t IH]; intros pos out; simpl.
  - rewrite app_nil_r, Nat.add_0_r. destruct r as [|e r]; [done|]. destruct Hr as [He Hin].
    simpl. rewrite (proj2 (Z.eqb_neq _ _)) by done. by rewrite (proj2 (char_in_spec _ _)).
  - destruct (char_in c esc) eqn:E; simpl.
    + rewrite E, IH, <- app_assoc. f_equal. lia.
    + apply char_in_false in E. rewrite (proj2 (Z.eqb_neq c BACKSLASH)) by (intros ->; done).
      rewrite (proj2 (char_in_false c fin)) by auto. rewrite IH, <- app_assoc. f_equal. lia.
Qed.

Lemma string_until_plain fin t r :
  Forall (fun c => c <> BACKSLASH /\ c ∉ fin) t -> ends fin r ->
  bt_common_string_until (t ++ r) [] fin = (t, length t).
Proof.
  intros Ht Hr. unfold bt_common_string_until.
  assert (H : forall pos out, string_until_loop [] fin (t ++ r) pos out = (out ++ t, (pos + length t)%nat)).
  { induction Ht as [|c t [Hc Hf] _ IH]; intros pos out; simpl.
    - rewrite app_nil_r, Nat.add_0_r. destruct r as [|e r]; [done|]. destruct Hr as [He Hin].
      simpl. rewrite (proj2 (Z.eqb_neq _ _)) by done. by rewrite (proj2 (char_in_spec _ _)).
    - rewrite (proj2 (Z.eqb_neq c BACKSLASH)), (proj2 (char_in_false c fin)) by done.
      rewrite IH, <- app_assoc. f_equal. lia. }
  apply H.
Qed.

(** * [bt_common_shell_quote]: POSIX quote removal *)

Inductive quote_mode := Plain | Single | Double.

(** The characters which a shell does not take as themselves in an unquoted word.
    POSIX (Shell Command Language, 2.2 Quoting): the ones to quote always, and the
    ones of pattern matching, comments, tildes, history and brace expansions
    (['^'] stands for the pipe in old shells).  [=], [%], [,] and [-], which POSIX
    adds for assignments, job numbers, ranges and options, mean themselves in the
    middle of an argument and are not in the list. *)
Definition shell_special_chars : list Z :=
  [124; 38; 59; 60; 62; 40; 41; 36; 96; 92; 34; 39; 32; 9; 10]   (* | & ; < > ( ) $ ` \ and the quotes, space, tab, new line *)
  ++ [42; 63; 91; 93; 94; 33; 35; 126; 123; 125].                (* * ? [ ] ^ ! # ~ { } *)

(** The characters which have a meaning between double quotes: $ ` \ ! *)
Definition double_quote_special_chars : list Z := [36; 96; 92; 33].

(** Quote removal of one shell word; [None]: the text is not one word without
    expansions. *)
Fixpoint shell_unquote (mode : quote_mode) (t : list Z) : option (list Z) :=
  match t with
  | [] => match mode with Plain => Some [] | _ => None end
  | c :: r =>
      match mode with
      | Plain =>
          if c =? QUOTE then shell_unquote Single r
          else if c =? DQUOTE then shell_unquote Double r
          else if char_in c shell_special_chars then None
          else option_map (cons c) (shell_unquote Plain r)
      | Single =>
          if c =? QUOTE then shell_unquote Plain r
          else option_map (cons c) (shell_unquote Single r)
      | Double =>
          if c =? DQUOTE then shell_unquote Plain r
          else if char_in c double_quote_special_chars then None
          else option_map (cons c) (shell_unquote Double r)
      end
  end.

(** No special character is left bare by the code. *)
Lemma special_not_plain : forallb (fun c => negb (plain_char c)) shell_special_chars = true.
Proof. reflexivity. Qed.

Lemma plain_char_not_special c : plain_char c = true -> char_in c shell_special_chars = false.
Proof.
  intros H. apply not_true_is_false. intros (d & Hin & <-%Z.eqb_eq)%existsb_exists.
  pose proof special_not_plain as Ha. rewrite forallb_forall in Ha.
  specialize (Ha c Hin). by rewrite H in Ha.
Qed.

Lemma plain_char_not_quote c : plain_char c = true -> c <> QUOTE /\ c <> DQUOTE.
Proof. intros H. split; intros ->; vm_compute in H; discriminate. Qed.

Lemma unquote_plain t : forallb plain_char t = true -> shell_unquote Plain t = Some t.
Proof.
  induction t as [|c t IH]; [done|]. cbn [shell_unquote forallb]. intros [Hc Ht]%andb_true_iff.
  destruct (plain_char_not_quote c Hc).
  rewrite !(proj2 (Z.eqb_neq _ _)), plain_char_not_special, IH by done. done.
Qed.

Lemma unquote_single_plain t r :
  forallb plain_char t = true ->
  shell_unquote Single (t ++ r) = option_map (app t) (shell_unquote Single r).
Proof.
  induction t as [|c t IH]; simpl; [by destruct (shell_unquote Single r)|].
  intros [Hc Ht]%andb_true_iff. destruct (plain_char_not_quote c Hc).
  rewrite (proj2 (Z.eqb_neq _ _)), IH by done. by destruct (shell_unquote Single r).
Qed.

Lemma unquote_quoted t :
  shell_unquote Single
    (flat_map (fun c => if c =? QUOTE then [QUOTE; DQUOTE; QUOTE; DQUOTE; QUOTE] else [c]) t ++ [QUOTE])
  = Some t.
Proof.
  induction t as [|c t IH]; [done|]. cbn [flat_map].
  destruct (Z.eqb_spec c QUOTE) as [->|Hc]; simpl; [by rewrite IH|].
  rewrite (proj2 (Z.eqb_neq c QUOTE)) by done. by rewrite IH.
Qed.



(** * Plugin path directories *)

(** All the parts between colons, empty ones included. *)
Fixpoint colon_parts (cur t : list Z) : list (list Z) :=
  match t with
  | [] => [cur]
  | c :: t => if c =? COLON then cur :: colon_parts [] t else colon_parts (cur ++ [c]) t
  end.

Lemma split_at_spec sep t : fst (split_at sep t) ++ snd (split_at sep t) = t /\
  Forall (fun c => c <> sep) (fst (split_at sep t)) /\
  match snd (split_at sep t) with [] => True | c :: _ => c = sep end.
Proof.
  induction t as [|c t IH]; simpl; [done|]. destruct (Z.eqb_spec c sep); [done|].
  destruct (split_at sep t) as [a b]. simpl in *. destruct IH as (-> & ? & ?).
  split; [done|]. split; [by constructor|done].
Qed.

Lemma colon_parts_app cur d t :
  Forall (fun c => c <> COLON) d -> colon_parts cur (d ++ t) = colon_parts (cur ++ d) t.
Proof.
  revert cur. induction d as [|c d IH]; intros cur Hd; simpl; [by rewrite app_nil_r|].
  apply Forall_cons_1 in Hd as [Hc Hd]. rewrite (proj2 (Z.eqb_neq _ _)), IH by done.
  by rewrite <- app_assoc.
Qed.

(** the plugin directories appended are the non-empty parts of the string
    between colons, in order, after the directories already there; a null
    pointer appends none. *)
Theorem append_plugin_path_dirs_splits paths dirs :
  bt_common_append_plugin_path_dirs (Some paths) dirs =
    dirs ++ filter (fun d => d <> []) (colon_parts [] paths) /\
  bt_common_append_plugin_path_dirs None dirs = dirs.
Proof.
  split; [|done]. unfold bt_common_append_plugin_path_dirs.
  assert (H : forall fuel t ds, (length t <= fuel)%nat ->
            plugin_dirs_loop fuel t ds = ds ++ filter (fun d => d <> []) (colon_parts [] t)).
  { induction fuel as [|fuel IH]; intros t ds Hf.
    { destruct t; [by rewrite app_nil_r|simpl in Hf; lia]. }
    destruct t as [|c t]; [simpl; by rewrite app_nil_r|]. cbn [plugin_dirs_loop].
    destruct (split_at_spec COLON (c :: t)) as (E & Hd & Hs).
    destruct (split_at COLON (c :: t)) as [d s] eqn:Esp. cbn [fst snd] in *.
    destruct d as [|x d].
    - simpl in E. subst s. simpl in Hs. subst c.
      rewrite IH by (simpl in Hf; lia). by simpl.
    - rewrite <- E, colon_parts_app by done. cbn [app].
      assert (Hl : (length (tail s) <= fuel)%nat).
      { apply (f_equal length) in E. rewrite length_app in E. simpl in E, Hf.
        destruct s; simpl in *; lia. }
      rewrite IH by done. rewrite <- app_assoc. f_equal. destruct s as [|e s].
      + cbn [colon_parts tail]. reflexivity.
      + subst e. cbn [colon_parts tail]. rewrite Z.eqb_refl.
        by rewrite filter_cons_True by done. }
  by apply H.
Qed.

(** * [bt_common_parse_lttng_live_url] *)

Fixpoint dec_digits (fuel : nat) (v : Z) (acc : list Z) : list Z :=
  match fuel with
  | O => acc
  | S fuel => if v <? 10 then (48 + v) :: acc
              else dec_digits fuel (v / 10) ((48 + v mod 10) :: acc)
  end.
(** The decimal digits of a 16-bit number. *)
Definition dec (v : Z) : list Z := dec_digits 5 v [].

Lemma dec_digits_scan fuel v acc :
  0 <= v < 10 ^ Z.of_nat fuel -> scan_digits (dec_digits fuel v acc) 0 = scan_digits acc v.
Proof.
  revert v acc. induction fuel as [|fuel IH]; intros v acc Hv.
  { change (0 <= v < 1) in Hv. assert (v = 0) as -> by lia. done. }
  cbn [dec_digits]. assert (Hd : forall x, 0 <= x < 10 -> g_ascii_isdigit (48 + x) = true).
  { intros x Hx. unfold g_ascii_isdigit. apply andb_true_iff. split; lia. }
  destruct (Z.ltb_spec v 10).
  - simpl. rewrite Hd by lia. f_equal. lia.
  - rewrite Nat2Z.inj_succ, Z.pow_succ_r in Hv by lia.
    rewrite IH by (split; [apply Z.div_pos; lia|apply Z.div_lt_upper_bound; lia]).
    simpl. rewrite Hd by (apply Z.mod_pos_bound; lia). f_equal.
    pose proof (Z.div_mod v 10). lia.
Qed.

Lemma dec_digits_are_digits fuel v acc :
  0 <= v -> Forall (fun c => 48 <= c <= 57) acc ->
  Forall (fun c => 48 <= c <= 57) (dec_digits fuel v acc).
Proof.
  revert v acc. induction fuel as [|fuel IH]; intros v acc Hv Hacc; simpl; [done|].
  destruct (Z.ltb_spec v 10); [constructor; [lia|done]|].
  apply IH; [apply Z.div_pos; lia|]. constructor; [|done].
  pose proof (Z.mod_pos_bound v 10). lia.
Qed.

Lemma dec_nonempty v : dec v <> [].
Proof.
  unfold dec. cbn [dec_digits]. repeat (destruct (_ <? 10); [done|]). done.
Qed.

Lemma sscanf_dec v : 0 <= v < 65536 -> sscanf_d (dec v) = Some (Some v).
Proof.
  intros Hv. pose proof (dec_digits_scan 5 v [] ltac:(simpl; lia)) as Hs.
  pose proof (dec_digits_are_digits 5 v [] ltac:(lia) ltac:(constructor)) as Hd.
  pose proof (dec_nonempty v) as Hne. unfold dec in *.
  destruct (dec_digits 5 v []) as [|c t]; [done|]. apply Forall_cons_1 in Hd as [Hc _].
  unfold sscanf_d. cbn [skip_spaces]. unfold isspace.
  rewrite (proj2 (Z.eqb_neq c 32)), (proj2 (Z.leb_gt c 13)) by lia. rewrite andb_false_r.
  cbn [orb]. simpl scan_digits in Hs.
  assert (E : g_ascii_isdigit c = true)
    by (unfold g_ascii_isdigit; apply andb_true_iff; split; lia).
  assert (c = 48 \/ c = 49 \/ c = 50 \/ c = 51 \/ c = 52 \/ c = 53 \/ c = 54 \/ c = 55 \/
          c = 56 \/ c = 57) as Hcs by lia.
  assert (Em : match c :: t with
               | 45 :: r => (true, r) | 43 :: r => (false, r) | _ => (false, c :: t)
               end = (false, c :: t))
    by (destruct Hcs as [-> | [-> | [-> | [-> | [-> | [-> | [-> | [-> | [-> | ->]]]]]]]]]; done).
  rewrite Em, E. cbn [scan_digits]. rewrite E in *. rewrite Hs.
  rewrite (proj2 (Z.leb_le _ v)), (proj2 (Z.ltb_lt v _)) by lia. done.
Qed.

Record url_request := UrlRequest {
  rq_proto : list Z; rq_host : list Z; rq_port : option Z; rq_session : option (list Z * list Z)
}.

Definition name_chars (bad : list Z) (t : list Z) : Prop :=
  t <> [] /\ Forall (fun c => c <> BACKSLASH /\ c ∉ bad) t.

Record request_ok (q : url_request) : Prop := {
  rq_proto_ok : rq_proto q = NET \/ rq_proto q = NET4 \/ rq_proto q = NET6;
  rq_host_ok : name_chars [COLON; SLASH] (rq_host q);
  rq_port_ok : match rq_port q with Some p => 0 <= p < 65536 | None => True end;
  rq_session_ok : match rq_session q with
                  | Some (t, s) => name_chars [SLASH] t /\ name_chars [SLASH] s
                  | None => True
                  end
}.

(** [PROTO://HOST[:PORT][/host/TARGET/SESSION]] *)
Definition session_text (q : url_request) : list Z :=
  match rq_session q with
  | Some (t, s) => SLASH_HOST_SLASH ++ t ++ SLASH :: s
  | None => []
  end.
Definition port_text (q : url_request) : list Z :=
  match rq_port q with Some p => COLON :: dec p | None => [] end.
Definition url_text (q : url_request) : list Z :=
  rq_proto q ++ COLON_SLASHES ++ rq_host q ++ port_text q ++ session_text q.

Lemma slash_or_end fin q : SLASH ∈ fin -> ends fin (session_text q).
Proof. unfold session_text. by destruct (rq_session q) as [[]|]. Qed.

Lemma drop_app_len (a b : list Z) : drop (length a) (a ++ b) = b.
Proof. apply drop_app_length. Qed.

Lemma nonempty_length (t : list Z) : t <> [] -> (length t =? 0)%nat = false.
Proof. by destruct t. Qed.

(** The part of the parser after the hostname or the port. *)
Lemma parse_session q proto host port :
  request_ok q ->
  (let at_ := session_text q in
   if bool_decide (at_ = []) then Some (inl (UrlParts proto host port None None)) else
   if negb (starts_with SLASH_HOST_SLASH at_) then Some (inr ExpectingHost) else
   let at_ := drop 6 at_ in
   let '(target, end_pos) := bt_common_string_until at_ [] [SLASH] in
   if (length target =? 0)%nat then Some (inr MissingTargetHostname) else
   if bool_decide (drop end_pos at_ = []) then Some (inr MissingSlash) else
   let at_ := drop (end_pos + 1) at_ in
   let '(session, end_pos) := bt_common_string_until at_ [] [SLASH] in
   if (length session =? 0)%nat then Some (inr MissingSessionName) else
   if bool_decide (head (drop end_pos at_) = Some SLASH) then Some (inr UnexpectedSlash) else
   Some (inl (UrlParts proto host port (Some target) (Some session))))
  = Some (inl (UrlParts proto host port (option_map fst (rq_session q))
                 (option_map snd (rq_session q))) : lttng_live_url_parts + url_error).
Proof.
  intros []. unfold session_text in *. destruct (rq_session q) as [[t s]|]; [|done].
  destruct rq_session_ok0 as [[Ht Htc] [Hs Hsc]].
  cbv zeta. rewrite bool_decide_false by done.
  unfold starts_with. rewrite take_app_length, bool_decide_true by done. cbn [negb].
  rewrite (drop_app_len SLASH_HOST_SLASH).
  rewrite string_until_plain by (done || (split; [done|by apply list_elem_of_here])).
  rewrite nonempty_length by done. rewrite drop_app_len, bool_decide_false by done.
  rewrite <- drop_drop, drop_app_len.
  change (drop 1 (SLASH :: s)) with s.
  pose proof (string_until_plain [SLASH] s [] Hsc I) as E. rewrite app_nil_r in E. rewrite E.
  rewrite nonempty_length, drop_all by done. done.
Qed.

Lemma rq_proto_chars q : request_ok q ->
  name_chars [COLON] (rq_proto q) /\
  (bool_decide ((if bool_decide (rq_proto q = NET) then NET4 else rq_proto q) <> NET4) &&
   bool_decide ((if bool_decide (rq_proto q = NET) then NET4 else rq_proto q) <> NET6)) = false.
Proof.
  intros []. assert (Hc : forall c : Z, c = 110 \/ c = 101 \/ c = 116 \/ c = 52 \/ c = 54 ->
    c <> BACKSLASH /\ c ∉ [COLON]).
  { intros c Hc. unfold BACKSLASH, COLON. split; [lia|]. rewrite list_elem_of_singleton. lia. }
  destruct rq_proto_ok0 as [-> | [-> | ->]]; (split; [|done]); (split; [done|]);
    repeat constructor; apply Hc; lia.
Qed.

(** [bt_common_parse_lttng_live_url] round trip: a URL made of a known
    protocol, a hostname, an optional port and an optional target hostname and
    session name is parsed into those parts; [net] is [net4], and the port is -1
    when there is none. *)
Theorem parse_lttng_live_url_roundtrip q :
  request_ok q ->
  bt_common_parse_lttng_live_url (url_text q) =
    Some (inl (UrlParts (if bool_decide (rq_proto q = NET) then NET4 else rq_proto q)
                 (rq_host q) (default (-1) (rq_port q))
                 (option_map fst (rq_session q)) (option_map snd (rq_session q)))).
Proof.
  intros Hq. pose proof (rq_proto_chars q Hq) as [[Hp Hpc] Hk].
  pose proof (rq_host_ok q Hq) as [Hh Hhc].
  unfold bt_common_parse_lttng_live_url, url_text.
  rewrite string_until_plain by (done || (split; [done|by apply list_elem_of_here])).
  rewrite nonempty_length by done. rewrite Hk, drop_app_len.
  change (negb (bool_decide (head (COLON_SLASHES ++ ?x) = Some COLON))) with false. cbv iota.
  unfold starts_with at 1. rewrite take_app_length, bool_decide_true by done. cbn [negb].
  change (drop 3 (COLON_SLASHES ++ ?x)) with x.
  assert (Hin : SLASH ∈ [COLON; SLASH]) by (by right; left).
  rewrite string_until_plain; [|done|].
  2:{ unfold port_text. destruct (rq_port q); [split; [done|by left]|by apply slash_or_end]. }
  rewrite nonempty_length, drop_app_len by done.
  unfold port_text. pose proof (rq_port_ok q Hq) as Hport.
  destruct (rq_port q) as [p|]; cbn [default app].
  - rewrite bool_decide_true by done.
    replace (length (rq_host q) + 1)%nat with (length (rq_host q ++ [COLON]))
      by (by rewrite length_app).
    change (rq_host q ++ COLON :: dec p ++ session_text q)
      with (rq_host q ++ [COLON] ++ (dec p ++ session_text q)).
    rewrite (app_assoc (rq_host q)), drop_app_len.
    rewrite string_until_plain; [| |apply slash_or_end; by left].
    2:{ eapply Forall_impl; [|apply (dec_digits_are_digits 5 p []); [lia|constructor]].
        intros c Hc. cbv beta in *. unfold BACKSLASH, SLASH in *. split; [lia|].
        rewrite list_elem_of_singleton. lia. }
    rewrite nonempty_length by apply dec_nonempty. rewrite sscanf_dec by done.
    rewrite (proj2 (Z.ltb_ge p 0)), (proj2 (Z.leb_gt _ p)) by lia. cbn [orb].
    rewrite drop_app_len. by apply parse_session.
  - rewrite bool_decide_false; [|unfold session_text; by destruct (rq_session q) as [[]|]].
    rewrite drop_app_len. by apply parse_session.
Qed.

Definition ex_request : url_request := UrlRequest NET6 [104; 49] (Some 5344) (Some ([116], [115; 49])).

Lemma ex_request_ok : request_ok ex_request.
Proof.
  split; [by right; right| |simpl; lia|];
    repeat split; try done; apply (bool_decide_eq_true_1 _); vm_compute; reflexivity.
Qed.

Lemma parse_lttng_live_url_roundtrip_witness :
  bt_common_parse_lttng_live_url (url_text ex_request)
  = Some (inl (UrlParts NET6 [104; 49] 5344 (Some [116]) (Some [115; 49]))).
Proof. apply (parse_lttng_live_url_roundtrip ex_request), ex_request_ok. Defined.

(** whatever the input, a successful parse returns valid parts: the protocol
    is [net4] or [net6], the hostname is not empty, the port is -1 (absent) or a
    16-bit number, and the target hostname and the session name are given
    together and are not empty. *)
Theorem parse_lttng_live_url_valid url p :
  bt_common_parse_lttng_live_url url = Some (inl p) ->
  (proto p = NET4 \/ proto p = NET6) /\ hostname p <> [] /\ -1 <= port p < 65536 /\
  match target_hostname p, session_name p with
  | Some t, Some s => t <> [] /\ s <> []
  | None, None => True
  | _, _ => False
  end.
Proof.
  assert (Hne : forall t : list Z, (length t =? 0)%nat = false -> t <> []) by (by intros []).
  unfold bt_common_parse_lttng_live_url.
  destruct (bt_common_string_until url [] [COLON]) as [pr e0].
  destruct (length pr =? 0)%nat; [done|].
  set (pr' := if bool_decide (pr = NET) then NET4 else pr).
  destruct (bool_decide (pr' <> NET4) && bool_decide (pr' <> NET6)) eqn:Epr; [done|].
  assert (Hpr : pr' = NET4 \/ pr' = NET6).
  { destruct (decide (pr' = NET4)) as [|H4]; [by left|]. right.
    rewrite bool_decide_true in Epr by done. cbn [andb] in Epr.
    apply bool_decide_eq_false in Epr. by apply dec_stable in Epr. }
  clear Epr. clearbody pr'. destruct (negb _); [done|]. destruct (negb _); [done|].
  destruct (bt_common_string_until _ [] [COLON; SLASH]) as [ho e1].
  destruct (length ho =? 0)%nat eqn:Eho; [done|]. apply Hne in Eho.
  match goal with |- match ?r with _ => _ end = _ -> _ => 
    assert (Hport : forall x, r = Some (inl x) -> -1 <= fst (fst x) < 65536) end.
  { intros x. case_bool_decide; [|intros E; injection E as <-; simpl; lia].
    destruct (bt_common_string_until _ [] [SLASH]) as [po e2].
    destruct (length po =? 0)%nat; [done|]. destruct (sscanf_d po) as [[v|]|]; [|done..].
    destruct (Z.ltb_spec v 0), (Z.leb_spec 65536 v); cbn [orb]; intros E; simplify_eq; simpl; lia. }
  match goal with |- match ?r with _ => _ end = _ -> _ => destruct r as [[[[po at_] e2]|]|] end;
    [|done..].
  specialize (Hport _ eq_refl). simpl in Hport.
  case_bool_decide; [by intros [= <-]|]. destruct (negb _); [done|].
  destruct (bt_common_string_until _ [] [SLASH]) as [ta e3].
  destruct (length ta =? 0)%nat eqn:Eta; [done|]. apply Hne in Eta.
  case_bool_decide; [done|].
  destruct (bt_common_string_until _ [] [SLASH]) as [se e4].
  destruct (length se =? 0)%nat eqn:Ese; [done|]. apply Hne in Ese.
  case_bool_decide; [done|]. by intros [= <-].
Qed.

Lemma parse_lttng_live_url_valid_witness :
  (NET6 = NET4 \/ NET6 = NET6) /\ [104; 49] <> [] /\ -1 <= 5344 < 65536 /\ [116] <> [] /\ [115; 49] <> [].
Proof.
  apply (parse_lttng_live_url_valid (url_text ex_request)
           (UrlParts NET6 [104; 49] 5344 (Some [116]) (Some [115; 49]))).
  vm_compute. reflexivity.
Defined.

(** [bt_common_string_until] undoes escaping: the text whose special characters
    are escaped, up to an unescaped end character, is returned as it was, and
    [*end_pos] is the position of that character. *)
Lemma string_until_unescapes esc fin t r :
  BACKSLASH ∈ esc -> (forall c, c ∈ fin -> c ∈ esc) -> ends fin r ->
  bt_common_string_until (escape esc t ++ r) esc fin = (t, length (escape esc t)).
Proof. intros. unfold bt_common_string_until. by rewrite string_until_loop_escaped. Qed.

(** * [bt_common_sep_digits] *)

Section sep_digits.
Context (t : list Z) (d sep : Z).
Context (Ht : no_nul t) (Hne : t <> []) (Hd : 0 < d).

Abbreviation n := (Z.of_nat (length t)).
Definition sep_count : Z := (n - 1) / d.
Abbreviation total := (n + sep_count).

(** The [m]th character of the result from its end: every [d + 1]th one is the
    separator. *)
Definition sep_char (m : Z) : option Z :=
  if m mod (d + 1) =? d then Some sep else t !! Z.to_nat (n - 1 - (m - m / (d + 1))).

Lemma sep_char_at q i : 0 <= q -> 0 <= i <= d ->
  sep_char (q * (d + 1) + i) = if i =? d then Some sep else t !! Z.to_nat (n - 1 - (q * d + i)).
Proof using Hd.
  intros Hq Hi. unfold sep_char.
  rewrite Z.add_comm, Z.mod_add, Z.div_add, Z.mod_small, Z.div_small by lia.
  destruct (i =? d); [done|]. do 2 f_equal. lia.
Qed.

Lemma str_set_ok s j x : 0 <= j < Z.of_nat (length s) -> str_set s j x = Some (<[Z.to_nat j := x]> s).
Proof using. intros. unfold str_set. by rewrite (proj2 (Z.leb_le _ _)), (proj2 (Z.ltb_lt _ _)) by lia. Qed.

Lemma str_get_insert_ne s j k x : 0 <= j -> 0 <= k -> j <> k ->
  str_get (<[Z.to_nat j := x]> s) k = str_get s k.
Proof using.
  intros. unfold str_get. rewrite !(proj2 (Z.leb_le 0 k)) by lia.
  apply list_lookup_insert_ne. lia.
Qed.

Lemma str_get_insert_eq s j x : 0 <= j < Z.of_nat (length s) ->
  str_get (<[Z.to_nat j := x]> s) j = Some x.
Proof using.
  intros. unfold str_get. rewrite (proj2 (Z.leb_le 0 j)) by lia. apply list_lookup_insert_eq. lia.
Qed.

(** Before an iteration, [q] separators and [q * d + i] characters have been
    written; the unread characters are still there. *)
Record sep_inv (s : list Z) (rd wr i q : Z) : Prop := {
  si_q : 0 <= q <= sep_count;
  si_i : 0 <= i <= d;
  si_rd : rd = n - 1 - (q * d + i);
  si_rd_low : -1 <= rd;
  si_wr : wr = total - 1 - (q * (d + 1) + i);
  si_src : forall j, 0 <= j <= rd -> str_get s j = t !! Z.to_nat j;
  si_dst : forall m, 0 <= m < q * (d + 1) + i -> str_get s (total - 1 - m) = sep_char m;
  si_end : str_get s total = Some 0;
  si_some : i = 0 -> q = 0 \/ 0 <= rd
}.

Lemma sep_count_bounds : 0 <= sep_count /\ sep_count * d <= n - 1 < (sep_count + 1) * d.
Proof using Hd Hne.
  assert (1 <= n) by (destruct (length t) eqn:E; [by apply nil_length_inv in E|lia]).
  unfold sep_count.
  pose proof (Z.div_mod (n - 1) d). pose proof (Z.mod_pos_bound (n - 1) d).
  pose proof (Z.div_pos (n - 1) d). lia.
Qed.

Lemma sep_digits_loop_ok fuel s rd wr i q :
  sep_inv s rd wr i q -> total < Z.of_nat (length s) -> wr + 1 < Z.of_nat fuel ->
  exists s', sep_digits_loop fuel s d sep rd wr i = Some s' /\ length s' = length s /\
    str_get s' total = Some 0 /\ forall m, 0 <= m < total -> str_get s' (total - 1 - m) = sep_char m.
Proof using All.
  pose proof sep_count_bounds as Hsc.
  assert (1 <= n) by (destruct (length t) eqn:E; [by apply nil_length_inv in E|lia]).
  revert s rd wr i q. induction fuel as [|fuel IH]; intros s rd wr i q Hinv Hlen Hf.
  { destruct Hinv. nia. }
  cbn [sep_digits_loop]. pose proof Hinv as [].
  destruct (Z.eqb_spec rd (-1)) as [Hend|Hrd].
  - exists s. assert (q = sep_count) as -> by nia.
    split; [done|]. split; [done|]. split; [done|]. intros m Hm. apply si_dst0. lia.
  - destruct (Z.eqb_spec i d) as [->|Hi].
    + assert (q + 1 <= sep_count) by nia.
      rewrite str_set_ok by lia.
      destruct (IH (<[Z.to_nat wr := sep]> s) rd (wr - 1) 0 (q + 1)) as (s' & E & Hl & Hz & Hc).
      * constructor; try lia.
        -- intros j Hj. rewrite str_get_insert_ne by lia. by apply si_src0.
        -- intros m Hm. destruct (Z.eq_dec m (q * (d + 1) + d)) as [->|].
           ++ replace (total - 1 - (q * (d + 1) + d)) with wr by lia.
              rewrite str_get_insert_eq, sep_char_at, Z.eqb_refl by lia. done.
           ++ rewrite str_get_insert_ne by lia. apply si_dst0. lia.
        -- rewrite str_get_insert_ne by lia. done.
      * by rewrite length_insert.
      * lia.
      * exists s'. rewrite length_insert in Hl. done.
    + assert (0 <= rd <= wr) by nia.
      rewrite si_src0 by lia.
      destruct (lookup_lt_is_Some_2 t (Z.to_nat rd)) as [c Hc]; [lia|]. rewrite Hc.
      rewrite str_set_ok by lia.
      destruct (IH (<[Z.to_nat wr := c]> s) (rd - 1) (wr - 1) (i + 1) q) as (s' & E & Hl & Hz & Hcs).
      * constructor; try lia.
        -- intros j Hj. rewrite str_get_insert_ne by lia. apply si_src0. lia.
        -- intros m Hm. destruct (Z.eq_dec m (q * (d + 1) + i)) as [->|].
           ++ replace (total - 1 - (q * (d + 1) + i)) with wr by lia.
              rewrite str_get_insert_eq, sep_char_at by lia.
              rewrite (proj2 (Z.eqb_neq i d)) by done. rewrite <- Hc. do 2 f_equal. lia.
           ++ rewrite str_get_insert_ne by lia. apply si_dst0. lia.
        -- rewrite str_get_insert_ne by lia. done.
      * by rewrite length_insert.
      * lia.
      * exists s'. rewrite length_insert in Hl. done.
Qed.
End sep_digits.

(** [bt_common_sep_digits] inserts the separators in place.  In an array that
    has room for them, the string ends up with a separator after every
    [digits_per_group] characters counted from its end, and only there: the
    [m]th character from the end is the separator when [m] is
    [digits_per_group] modulo [digits_per_group + 1], and the corresponding
    character of the original otherwise.  No character is overwritten before it
    is read, and the array is not exceeded. *)
Theorem sep_digits_correct s t d sep :
  is_cstr s t -> t <> [] -> 0 < d -> sep <> 0 ->
  Z.of_nat (length t) + sep_count t d < Z.of_nat (length s) ->
  exists s' out, bt_common_sep_digits s d sep = Some s' /\ length s' = length s /\
    is_cstr s' out /\ Z.of_nat (length out) = Z.of_nat (length t) + sep_count t d /\
    forall m, 0 <= m < Z.of_nat (length out) ->
      out !! Z.to_nat (Z.of_nat (length out) - 1 - m) = sep_char t d sep m.
Proof.
  intros [Ht [rest ->]] Hne Hd Hsep Hroom.
  pose proof (sep_count_bounds t d Hne Hd) as Hsc.
  set (total := Z.of_nat (length t) + sep_count t d) in *.
  unfold bt_common_sep_digits. rewrite cstr_of_app by done. fold (sep_count t d). fold total.
  rewrite str_set_ok by lia.
  set (s1 := <[Z.to_nat total := 0]> _).
  destruct (sep_digits_loop_ok t d sep Ht Hne Hd (S (Z.to_nat total)) s1
              (Z.of_nat (length t) - 1) (total - 1) 0 0) as (s' & E & Hl & Hz & Hc).
  - constructor; try lia.
    + intros j Hj. unfold s1. rewrite str_get_insert_ne by lia.
      unfold str_get. rewrite (proj2 (Z.leb_le 0 j)) by lia. apply lookup_app_l. lia.
    + unfold s1. apply str_get_insert_eq. lia.
  - unfold s1. rewrite length_insert. done.
  - lia.
  - unfold s1 in Hl. rewrite length_insert in Hl.
    assert (Hlo : length (take (Z.to_nat total) s') = Z.to_nat total) by (rewrite length_take; lia).
    assert (Hat : forall m, 0 <= m < total ->
              take (Z.to_nat total) s' !! Z.to_nat (total - 1 - m) = sep_char t d sep m).
    { intros m Hm. rewrite lookup_take_lt by lia. rewrite <- Hc by lia.
      unfold str_get. by rewrite (proj2 (Z.leb_le _ _)) by lia. }
    exists s', (take (Z.to_nat total) s'). split; [done|]. split; [done|].
    rewrite Hlo. replace (Z.of_nat (Z.to_nat total)) with total by lia.
    split; [|split; [done|exact Hat]]. split.
    + apply Forall_lookup. intros i x Hx. pose proof (lookup_lt_Some _ _ _ Hx) as Hi.
      specialize (Hat (total - 1 - Z.of_nat i) ltac:(lia)).
      replace (Z.to_nat (total - 1 - (total - 1 - Z.of_nat i))) with i in Hat by lia.
      rewrite Hx in Hat. unfold sep_char in Hat. destruct (_ =? d); [congruence|].
      by eapply no_nul_lookup.
    + exists (drop (S (Z.to_nat total)) s'). change (str_get s' total = Some 0) in Hz.
      unfold str_get in Hz.
      rewrite (proj2 (Z.leb_le 0 total)) in Hz by lia.
      rewrite <- (drop_S _ _ _ Hz). by rewrite take_drop.
Qed.

Lemma sep_digits_correct_witness :
  exists s' out, bt_common_sep_digits [49; 50; 51; 52; 53; 0; 7; 7] 2 44 = Some s' /\
    length s' = 8%nat /\ is_cstr s' out /\ Z.of_nat (length out) = 5 + 2 /\
    forall m, 0 <= m < Z.of_nat (length out) ->
      out !! Z.to_nat (Z.of_nat (length out) - 1 - m) = sep_char [49; 50; 51; 52; 53] 2 44 m.
Proof.
  apply (sep_digits_correct [49; 50; 51; 52; 53; 0; 7; 7] [49; 50; 51; 52; 53] 2 44);
    [split; [by repeat constructor|by exists [7; 7]]|done|lia|done|vm_compute; reflexivity].
Defined.

(** * [bt_common_fold] *)

(** The words, with [sep] between two words. *)
Fixpoint join (sep : list Z) (ws : list (list Z)) : list Z :=
  match ws with
  | [] => []
  | [w] => w
  | w :: ws => w ++ sep ++ join sep ws
  end.

(** Every part followed by [c]: the temporary line of a group of words has
    [SPACE], the output has [NEWLINE]. *)
Definition ended_by (c : Z) (g : list (list Z)) : list Z := flat_map (fun w => w ++ [c]) g.
Definition tmp_of := ended_by SPACE.

Lemma ended_by_join c g : g <> [] -> ended_by c g = join [c] g ++ [c].
Proof.
  induction g as [|w [|w' g] IH]; intros Hne; [done|simpl; by rewrite app_nil_r|].
  change (join [c] (w :: w' :: g)) with (w ++ [c] ++ join [c] (w' :: g)).
  change (ended_by c (w :: w' :: g)) with ((w ++ [c]) ++ ended_by c (w' :: g)).
  rewrite IH by done. by rewrite <- !app_assoc.
Qed.

Lemma take_ended_by c g : g <> [] -> take (length (ended_by c g) - 1) (ended_by c g) = join [c] g.
Proof.
  intros Hne. rewrite ended_by_join by done. rewrite length_app. simpl.
  replace (length (join [c] g) + 1 - 1)%nat with (length (join [c] g)) by lia.
  apply take_app_length.
Qed.

Lemma tmp_of_join g : g <> [] -> tmp_of g = join [SPACE] g ++ [SPACE].
Proof. apply ended_by_join. Qed.

Lemma tmp_of_snoc g w : tmp_of (g ++ [w]) = tmp_of g ++ w ++ [SPACE].
Proof. unfold tmp_of, ended_by. rewrite flat_map_app. simpl. by rewrite app_nil_r. Qed.

Lemma take_tmp_of g : g <> [] -> take (length (tmp_of g) - 1) (tmp_of g) = join [SPACE] g.
Proof. apply take_ended_by. Qed.

(** How the words of a line are grouped in output lines: all of them, in order; a
    line is not wider than [width] unless it is a single word; and a line is
    only broken before a word that would make it wider. *)
Inductive grouped (width : nat) : list (list Z) -> list (list (list Z)) -> Prop :=
| grouped_last g :
    g <> [] -> (length (join [SPACE] g) <= width)%nat \/ length g = 1%nat ->
    grouped width g [g]
| grouped_break g w ws gs :
    g <> [] -> (length (join [SPACE] g) <= width)%nat \/ length g = 1%nat ->
    (width < length (join [SPACE] (g ++ [w])))%nat ->
    grouped width (w :: ws) gs -> grouped width (g ++ w :: ws) (g :: gs).

Definition fold_sep (indent : nat) : list Z := NEWLINE :: replicate indent SPACE.

Lemma fold_words_ok width indent ws g folded :
  g <> [] -> (length (join [SPACE] g) <= width)%nat \/ length g = 1%nat ->
  exists tmp folded' gs, fold_words width indent ws (tmp_of g) folded = (tmp, folded') /\
    (0 < length tmp)%nat /\ grouped width (g ++ ws) gs /\
    folded' ++ take (length tmp - 1) tmp =
      folded ++ join (fold_sep indent) (map (join [SPACE]) gs).
Proof.
  revert g folded. induction ws as [|w ws IH]; intros g folded Hne Hg; simpl.
  - exists (tmp_of g), folded, [g]. split; [done|]. rewrite app_nil_r.
    split; [rewrite tmp_of_join, length_app by done; simpl; lia|].
    split; [by constructor|]. by rewrite take_tmp_of.
  - assert (Hl : length (tmp_of g) = (length (join [SPACE] g) + 1)%nat)
      by (by rewrite tmp_of_join, length_app by done).
    assert (Hw : length (join [SPACE] (g ++ [w])) = (length (tmp_of g) + length w)%nat).
    { pose proof (f_equal length (tmp_of_join (g ++ [w]) ltac:(by destruct g))) as E.
      rewrite tmp_of_snoc, !length_app in E. simpl in E. lia. }
    rewrite (proj2 (Nat.ltb_lt 0 _)) by lia. cbn [andb].
    destruct (Nat.leb_spec width (length (tmp_of g) - 1 + length w)) as [Hfold|Hfit].
    + destruct (IH [w] (folded ++ take (length (tmp_of g) - 1) (tmp_of g) ++ [NEWLINE]
                    ++ replicate indent SPACE)) as (tmp & folded' & gs & E & Ht & Hgr & Ef);
        [done|by right|].
      exists tmp, folded', (g :: gs). split; [rewrite <- E; f_equal; simpl; by rewrite app_nil_r|].
      split; [done|]. split; [apply grouped_break; [done|done|lia|exact Hgr]|].
      rewrite Ef, take_tmp_of by done. rewrite <- !app_assoc. do 2 f_equal.
      destruct gs; [by inversion Hgr|done].
    + destruct (IH (g ++ [w]) folded) as (tmp & folded' & gs & E & Ht & Hgr & Ef);
        [by destruct g|left; lia|].
      exists tmp, folded', gs. rewrite <- tmp_of_snoc. split; [done|]. split; [done|].
      split; [|done]. by rewrite <- app_assoc in Hgr.
Qed.

Section fold_contract.
Context (g_strsplit : list Z -> Z -> list (list Z)).
(** [g_strsplit] splits at each delimiter. *)
Context (Hsplit : forall s c, s <> [] -> join [c] (g_strsplit s c) = s).

Lemma strsplit_nonempty s c : s <> [] -> g_strsplit s c <> [].
Proof using Hsplit. intros Hs E. apply Hs. by rewrite <- (Hsplit s c Hs), E. Qed.

(** An output line from a group of words; no group: an empty source line. *)
Definition line_text (indent : nat) (gs : list (list (list Z))) : list Z :=
  match gs with
  | [] => []
  | _ => replicate indent SPACE ++ join (fold_sep indent) (map (join [SPACE]) gs)
  end.

Definition line_folded (width : nat) (line : list Z) (gs : list (list (list Z))) : Prop :=
  (line = [] /\ gs = []) \/
  (exists ws, ws <> [] /\ join [SPACE] ws = line /\ grouped width ws gs).

Lemma fold_line_ok width indent line folded :
  exists gs, fold_line g_strsplit width indent line folded = folded ++ line_text indent gs ++ [NEWLINE] /\
    line_folded width line gs.
Proof using Hsplit.
  unfold fold_line. destruct line as [|c line]; [by exists []; split; [|left]|].
  cbn [length Nat.eqb]. set (l := c :: line).
  pose proof (strsplit_nonempty l SPACE ltac:(done)) as Hne.
  pose proof (Hsplit l SPACE ltac:(done)) as Hj.
  destruct (g_strsplit l SPACE) as [|w ws] eqn:Ews; [done|].
  change (fold_words width indent (w :: ws) [] ?f) with (fold_words width indent ws (w ++ [SPACE]) f).
  destruct (fold_words_ok width indent ws [w] (folded ++ replicate indent SPACE))
    as (tmp & folded' & gs & E & Ht & Hgr & Ef); [done|by right|].
  replace (tmp_of [w]) with (w ++ [SPACE]) in E by (simpl; by rewrite app_nil_r).
  rewrite E, (proj2 (Nat.ltb_lt 0 _)) by lia. exists gs. rewrite Ef. split.
  - unfold line_text. destruct gs; [by inversion Hgr|]. by rewrite <- !app_assoc.
  - right. by exists (w :: ws).
Qed.

(** [bt_common_fold] lays text out.  Each source line becomes either an empty
    line (when it is empty) or indented output lines that hold its words, in
    order and separated by single spaces: no output line is wider than
    [total_length] (indentation included) unless it holds a single word, a line
    is only broken before a word that would make it too wide, and nothing else
    of the text changes; there is no trailing newline. *)
Theorem fold_correct str total_length indent :
  (indent < total_length)%nat ->
  bt_common_fold g_strsplit [] total_length indent = [] /\
  (str <> [] -> exists gss,
     Forall2 (line_folded (total_length - indent)) (g_strsplit str NEWLINE) gss /\
     bt_common_fold g_strsplit str total_length indent = join [NEWLINE] (map (line_text indent) gss)).
Proof using Hsplit.
  intros Hin. split; [done|]. intros Hne.
  assert (Hlines : forall lines folded, exists gss,
    Forall2 (line_folded (total_length - indent)) lines gss /\
    fold_left (fun folded line => fold_line g_strsplit (total_length - indent) indent line folded)
      lines folded = folded ++ ended_by NEWLINE (map (line_text indent) gss)).
  { induction lines as [|l lines IH]; intros folded; simpl.
    - exists []. split; [constructor|]. by rewrite app_nil_r.
    - destruct (fold_line_ok (total_length - indent) indent l folded) as (gs & -> & Hg).
      destruct (IH (folded ++ line_text indent gs ++ [NEWLINE])) as (gss & Hall & ->).
      exists (gs :: gss). split; [by constructor|]. simpl. by rewrite <- !app_assoc. }
  destruct (Hlines (g_strsplit str NEWLINE) []) as (gss & Hall & E).
  exists gss. split; [done|]. unfold bt_common_fold. rewrite nonempty_length by done.
  rewrite E. simpl.
  assert (Hg : map (line_text indent) gss <> []).
  { pose proof (strsplit_nonempty str NEWLINE Hne) as Hs. by destruct Hall. }
  rewrite bool_decide_true; [by apply take_ended_by|].
  rewrite ended_by_join by done. rewrite length_app. simpl.
  replace (length (join [NEWLINE] (map (line_text indent) gss)) + 1 - 1)%nat
    with (length (join [NEWLINE] (map (line_text indent) gss))) by lia.
  apply list_lookup_middle. done.
Qed.
End fold_contract.

(** A splitter that meets the hypothesis. *)
Fixpoint split_on (c : Z) (cur t : list Z) : list (list Z) :=
  match t with
  | [] => [cur]
  | x :: t => if x =? c then cur :: split_on c [] t else split_on c (cur ++ [x]) t
  end.

Lemma split_on_join c cur t : join [c] (split_on c cur t) = cur ++ t.
Proof.
  revert cur. induction t as [|x t IH]; intros cur; simpl; [by rewrite app_nil_r|].
  destruct (Z.eqb_spec x c) as [->|].
  - specialize (IH []). simpl in IH. destruct (split_on c [] t) eqn:E.
    + by destruct t as [|y t]; simpl in E; [|destruct (y =? c)].
    + simpl in *. by rewrite IH.
  - rewrite IH. by rewrite <- app_assoc.
Qed.

Lemma fold_correct_witness :
  exists gss,
    Forall2 (line_folded (7 - 1)) (split_on NEWLINE [] [97; 98; 32; 99; 100; 32; 101; 10; 102]) gss /\
    bt_common_fold (fun s c => split_on c [] s) [97; 98; 32; 99; 100; 32; 101; 10; 102] 7 1
    = join [NEWLINE] (map (line_text 1) gss).
Proof.
  apply (fold_correct (fun s c => split_on c [] s)); [|lia|done].
  intros s c _. apply split_on_join.
Defined.
