(* ===== verification/Vsnprintf.v ===== *)
(** [bt_common_custom_vsnprintf] of [src/src/common/common.c], the formatter
    behind the library's logging macros, in a release build on a 64-bit host.

    The buffer and the format are arrays of characters, pointers into them are
    indexes, and an access outside an array is [None], like [bt_common_abort].
    The pointer to the format may also point into the empty string literal that
    the function uses to end its loop.  The text that the C library's [snprintf]
    makes of one conversion is the parameter [format]; the handler of the custom
    specifiers is the parameter [handle_specifier]. *)

From S2P Require Import Prelude.

(** Types that the function reads with [va_arg] ([int64_t] and [uint64_t] are
    [long] and [unsigned long]). *)
Inductive arg_type :=
| TInt | TUInt | TLong | TULong | TLongLong | TULongLong | TSizeT | TDouble | TLongDouble
| TCharPtr | TWCharPtr | TVoidPtr.

#[export] Instance arg_type_eq_dec : EqDecision arg_type.
Proof. solve_decision. Defined.

Definition PERCENT : Z := 37.

(** * Conversion specifications *)

Inductive length_modifier := LENGTH_MOD_H | LENGTH_MOD_HH | LENGTH_MOD_NONE | LENGTH_MOD_LOW_L
| LENGTH_MOD_LOW_LL | LENGTH_MOD_UP_L | LENGTH_MOD_Z.

Definition is_flag (c : Z) : bool :=
  existsb (Z.eqb c) [45; 43; 32; 35; 48; 39].       (* - + space # 0 ' *)
Definition is_digit (c : Z) : bool := (48 <=? c) && (c <=? 57).

Fixpoint skip_while (p : Z -> bool) (s : list Z) : list Z :=
  match s with
  | [] => []
  | c :: r => if p c then skip_while p r else s
  end.

Definition next (s : list Z) : option Z := head s.

(** [PRId64], [PRIu64], [PRIx64], [PRIX64], [PRIo64] and [PRIi64]: [l], then the
    letter. *)
Definition pri64 (s : list Z) : option (arg_type * list Z) :=
  match s with
  | 108 :: c :: r =>
      if existsb (Z.eqb c) [100; 105] then Some (TLong, r)
      else if existsb (Z.eqb c) [117; 120; 88; 111] then Some (TULong, r) else None
  | _ => None
  end.

Definition length_mod (s : list Z) : length_modifier * list Z :=
  match s with
  | 104 :: 104 :: r => (LENGTH_MOD_HH, r)
  | 104 :: r => (LENGTH_MOD_H, r)
  | 108 :: 108 :: r => (LENGTH_MOD_LOW_LL, r)
  | 108 :: r => (LENGTH_MOD_LOW_L, r)
  | 76 :: r => (LENGTH_MOD_UP_L, r)
  | 122 :: r => (LENGTH_MOD_Z, r)
  | _ => (LENGTH_MOD_NONE, s)
  end.

(** The argument's type for a conversion letter; [None] is the abort. *)
Definition conversion_type (c : Z) (m : length_modifier) : option arg_type :=
  if c =? 99 then                                                  (* c *)
    match m with LENGTH_MOD_NONE | LENGTH_MOD_LOW_L => Some TInt | _ => None end
  else if c =? 115 then                                            (* s *)
    match m with
    | LENGTH_MOD_NONE => Some TCharPtr | LENGTH_MOD_LOW_L => Some TWCharPtr | _ => None
    end
  else if existsb (Z.eqb c) [100; 105] then                        (* d i *)
    match m with
    | LENGTH_MOD_NONE | LENGTH_MOD_H | LENGTH_MOD_HH => Some TInt
    | LENGTH_MOD_LOW_L => Some TLong
    | LENGTH_MOD_LOW_LL => Some TLongLong
    | LENGTH_MOD_Z => Some TSizeT
    | LENGTH_MOD_UP_L => None
    end
  else if existsb (Z.eqb c) [111; 120; 88; 117] then               (* o x X u *)
    match m with
    | LENGTH_MOD_NONE | LENGTH_MOD_H | LENGTH_MOD_HH => Some TUInt
    | LENGTH_MOD_LOW_L => Some TULong
    | LENGTH_MOD_LOW_LL => Some TULongLong
    | LENGTH_MOD_Z => Some TSizeT
    | LENGTH_MOD_UP_L => None
    end
  else if existsb (Z.eqb c) [102; 70; 101; 69; 103; 71] then       (* f F e E g G *)
    match m with
    | LENGTH_MOD_NONE => Some TDouble | LENGTH_MOD_UP_L => Some TLongDouble | _ => None
    end
  else if c =? 112 then                                            (* p *)
    match m with LENGTH_MOD_NONE => Some TVoidPtr | _ => None end
  else None.

(** What follows [%]: the argument's type ([None] for [%%]) and the format after
    the specification.  [s] is not null-terminated here: its end is the null
    character. *)
Definition parse_specifier (s : list Z) : option (option arg_type * list Z) :=
  if bool_decide (next s = Some PERCENT) then Some (None, drop 1 s) else
  let s := skip_while is_flag s in
  let s := skip_while is_digit s in
  let s := if bool_decide (next s = Some 46) then skip_while is_digit (drop 1 s) else s in
  match pri64 s with
  | Some (ty, r) => Some (Some ty, r)
  | None =>
      let '(m, s) := length_mod s in
      match s with
      | [] => None
      | c :: r => match conversion_type c m with Some ty => Some (Some ty, r) | None => None end
      end
  end.

(** * The formatter *)

Section vsnprintf.
Context {V : Type}.

Record arg := Arg { arg_ty : arg_type; arg_val : V }.

Context (format : list Z -> V -> list Z).
Context (intro : Z).
Context (handle_specifier : list Z -> nat -> nat -> list Z -> list arg ->
                            option (list Z * nat * list Z * list arg)).
Context (buf_size : nat).

Definition arr_set (s : list Z) (i : nat) (x : Z) : option (list Z) :=
  if (i <? length s)%nat then Some (<[i := x]> s) else None.

Fixpoint arr_write (s : list Z) (i : nat) (t : list Z) : option (list Z) :=
  match t with
  | [] => Some s
  | c :: t => do s <- arr_set s i c; arr_write s (S i) t
  end.

(** [snprintf(buf + buf_ch, size, ...)] with the whole text [t]. *)
Definition snprintf (buf : list Z) (buf_ch size : nat) (t : list Z) : option (list Z) :=
  match size with
  | O => Some buf
  | S size => arr_write buf buf_ch (take size t ++ [0])
  end.

(** [BUF_STD_APPEND_SINGLE_ARG] for the specification text [spec], which is copied
    to [_tmp_fmt[64]]. *)
Definition BUF_STD_APPEND_SINGLE_ARG (ty : arg_type) (buf : list Z) (buf_ch : nat)
    (spec : list Z) (args : list arg) : option (list Z * nat * list arg) :=
  match args with
  | [] => None
  | a :: args =>
      guard_ub (bool_decide (arg_ty a = ty));
      guard_ub (length spec <? 64)%nat;
      let t := format spec (arg_val a) in
      let size := (buf_size - buf_ch)%nat in
      do buf <- snprintf buf buf_ch size t;
      Some (buf, (buf_ch + Nat.min (length t) size)%nat, args)
  end.

(** [fmt] starts with [%]. *)
Definition handle_conversion_specifier_std (buf : list Z) (buf_ch : nat) (fmt : list Z)
    (args : list arg) : option (list Z * nat * list Z * list arg) :=
  do (ty, rest) <- parse_specifier (drop 1 fmt);
  match ty with
  | None => do buf <- arr_set buf buf_ch PERCENT; Some (buf, S buf_ch, rest, args)
  | Some ty =>
      let spec := take (length fmt - length rest) fmt in
      do (buf, buf_ch, args) <- BUF_STD_APPEND_SINGLE_ARG ty buf buf_ch spec args;
      Some (buf, buf_ch, rest, args)
  end.

(** Where [fmt_ch] points: into the format (what is left of it), at the null
    character of the literal [""], or just after it. *)
Inductive fmt_ptr := InFormat (rest : list Z) | AtEmpty | PastEmpty.

Definition fmt_next (p : fmt_ptr) : fmt_ptr :=
  match p with
  | InFormat r => InFormat (drop 1 r)
  | AtEmpty | PastEmpty => PastEmpty
  end.

(** [if (buf_ch >= buf + buf_size - 1) fmt_ch = ""] *)
Definition end_if_full (buf_ch : nat) (p : fmt_ptr) : fmt_ptr :=
  if (buf_size <=? buf_ch + 1)%nat then AtEmpty else p.

Fixpoint vsnprintf_loop (fuel : nat) (buf : list Z) (buf_ch : nat) (fmt_ch : fmt_ptr)
    (args : list arg) : option (list Z) :=
  match fuel with
  | O => None
  | S fuel =>
      match fmt_ch with
      | PastEmpty => None
      | AtEmpty | InFormat [] => arr_set buf buf_ch 0
      | InFormat (c :: rest) =>
          if c =? PERCENT then
            do (buf, buf_ch, fmt, args) <-
              (if bool_decide (next rest = Some intro)
               then handle_specifier buf buf_ch (buf_size - buf_ch)%nat (c :: rest) args
               else handle_conversion_specifier_std buf buf_ch (c :: rest) args);
            vsnprintf_loop fuel buf buf_ch (end_if_full buf_ch (InFormat fmt)) args
          else
            do buf <- arr_set buf buf_ch c;
            let buf_ch := S buf_ch in
            vsnprintf_loop fuel buf buf_ch
              (fmt_next (end_if_full buf_ch (InFormat (c :: rest)))) args
      end
  end.

Definition bt_common_custom_vsnprintf (buf fmt : list Z) (args : list arg) : option (list Z) :=
  vsnprintf_loop (S (S (length fmt))) buf 0 (InFormat fmt) args.
End vsnprintf.
Arguments arg V : clear implicits.
Arguments Arg {V}. Arguments arg_ty {V}. Arguments arg_val {V}.

(** * Formats made of pieces *)

Section pieces.
Context {V : Type} (format : list Z -> V -> list Z) (intro : Z).
Context (handle_specifier : list Z -> nat -> nat -> list Z -> list (arg V) ->
                            option (list Z * nat * list Z * list (arg V))).
Context (buf_size : nat).

(** A character, [%%], or a conversion: the specification after [%], the
    argument's type and the argument. *)
Inductive piece := Lit (c : Z) | Pct | Conv (spec : list Z) (ty : arg_type) (a : V).

Definition piece_fmt (p : piece) : list Z :=
  match p with Lit c => [c] | Pct => [PERCENT; PERCENT] | Conv spec _ _ => PERCENT :: spec end.
Definition piece_text (p : piece) : list Z :=
  match p with Lit c => [c] | Pct => [PERCENT] | Conv spec _ a => format (PERCENT :: spec) a end.
Definition piece_args (p : piece) : list (arg V) :=
  match p with Conv _ ty a => [Arg ty a] | _ => [] end.

Definition fmt_of (ps : list piece) : list Z := flat_map piece_fmt ps.
Definition text_of (ps : list piece) : list Z := flat_map piece_text ps.
Definition args_of (ps : list piece) : list (arg V) := flat_map piece_args ps.

(** A piece is a complete standard specification (with flags, width, precision
    and length modifier) that is not a custom one. *)
Definition piece_ok (p : piece) : Prop :=
  match p with
  | Lit c => c <> PERCENT
  | Pct => intro <> PERCENT
  | Conv spec ty _ =>
      (length spec < 63)%nat /\ spec <> [] /\ head spec <> Some intro /\
      forall rest, parse_specifier (spec ++ rest) = Some (Some ty, rest)
  end.

Abbreviation loop := (vsnprintf_loop format intro handle_specifier buf_size).

Lemma arr_set_app dn c r x : arr_set (dn ++ c :: r) (length dn) x = Some (dn ++ x :: r).
Proof.
  unfold arr_set. rewrite (proj2 (Nat.ltb_lt _ _)) by (rewrite length_app; simpl; lia).
  f_equal. rewrite insert_app_r_alt by lia. by rewrite Nat.sub_diag.
Qed.

Lemma arr_write_app dn t r :
  (length t <= length r)%nat ->
  arr_write (dn ++ r) (length dn) t = Some ((dn ++ t) ++ drop (length t) r).
Proof.
  revert dn r. induction t as [|c t IH]; intros dn r Hl; simpl; [by rewrite app_nil_r|].
  destruct r as [|x r]; simpl in Hl; [lia|]. rewrite arr_set_app.
  replace (dn ++ c :: r) with ((dn ++ [c]) ++ r) by (by rewrite <- app_assoc).
  replace (S (length dn)) with (length (dn ++ [c])) by (rewrite length_app; simpl; lia).
  rewrite IH by lia. by rewrite <- (app_assoc dn [c] t).
Qed.

(** A conversion that fits: its text, then a null character. *)
Lemma conversion_fits dn r spec ty a rest args :
  (length dn + length (format (PERCENT :: spec) a) + 1 <= buf_size)%nat ->
  length (dn ++ r) = buf_size -> piece_ok (Conv spec ty a) ->
  handle_conversion_specifier_std format buf_size (dn ++ r) (length dn)
      ((PERCENT :: spec) ++ rest) (Arg ty a :: args)
  = Some ((dn ++ format (PERCENT :: spec) a) ++
            0 :: drop (S (length (format (PERCENT :: spec) a))) r,
          (length dn + length (format (PERCENT :: spec) a))%nat, rest, args).
Proof using.
  intros Hfit Hlen (Hsp & Hne & Hin & Hparse). set (t := format (PERCENT :: spec) a) in *.
  rewrite length_app in Hlen.
  unfold handle_conversion_specifier_std.
  change (drop 1 ((PERCENT :: spec) ++ rest)) with (spec ++ rest). rewrite Hparse. cbn [app].
  replace (take (length (PERCENT :: spec ++ rest) - length rest) (PERCENT :: spec ++ rest))
    with (PERCENT :: spec).
  2:{ simpl. rewrite length_app.
      replace (S (length spec + length rest) - length rest)%nat with (S (length spec)) by lia.
      simpl. by rewrite take_app_length. }
  unfold BUF_STD_APPEND_SINGLE_ARG. cbn [arg_ty arg_val]. rewrite bool_decide_true by done.
  rewrite (proj2 (Nat.ltb_lt _ 64)) by (simpl; lia). fold t.
  destruct (buf_size - length dn)%nat as [|size] eqn:E; [lia|]. unfold snprintf.
  rewrite take_ge by lia. rewrite arr_write_app by (rewrite length_app; simpl; lia).
  rewrite Nat.min_l by lia. rewrite length_app. simpl.
  replace (length t + 1)%nat with (S (length t)) by lia. by rewrite <- !app_assoc.
Qed.

Lemma not_full n p : (n + 2 <= buf_size)%nat -> end_if_full buf_size n p = p.
Proof using. intros. unfold end_if_full. by rewrite (proj2 (Nat.leb_gt _ _)) by lia. Qed.

(** Pieces that fit are appended one after the other. *)
Lemma loop_pieces fuel ps dn r f args :
  Forall piece_ok ps -> length (dn ++ r) = buf_size ->
  (length dn + length (text_of ps) + 2 <= buf_size)%nat ->
  exists r', loop (length ps + fuel) (dn ++ r) (length dn) (InFormat (fmt_of ps ++ f))
      (args_of ps ++ args)
    = loop fuel ((dn ++ text_of ps) ++ r') (length dn + length (text_of ps)) (InFormat f) args /\
    length ((dn ++ text_of ps) ++ r') = buf_size /\ drop 1 r' = drop (S (length (text_of ps))) r.
Proof using.
  revert dn r. induction ps as [|p ps IH]; intros dn r Hok Hlen Hfit.
  { exists r. cbn [text_of flat_map length]. rewrite app_nil_r, Nat.add_0_r. done. }
  apply Forall_cons_1 in Hok as [Hp Hok].
  change (text_of (p :: ps)) with (piece_text p ++ text_of ps) in *.
  change (fmt_of (p :: ps)) with (piece_fmt p ++ fmt_of ps).
  change (args_of (p :: ps)) with (piece_args p ++ args_of ps).
  change (length (p :: ps) + fuel)%nat with (S (length ps + fuel)).
  rewrite length_app in Hfit.
  assert (Hone : exists r1, loop (S (length ps + fuel)) (dn ++ r) (length dn)
       (InFormat (piece_fmt p ++ fmt_of ps ++ f)) (piece_args p ++ args_of ps ++ args)
     = loop (length ps + fuel) ((dn ++ piece_text p) ++ r1) (length (dn ++ piece_text p))
         (InFormat (fmt_of ps ++ f)) (args_of ps ++ args) /\
     length ((dn ++ piece_text p) ++ r1) = buf_size /\
     drop 1 r1 = drop (S (length (piece_text p))) r).
  { rewrite length_app in Hlen. destruct p as [c| |spec ty a].
    - destruct r as [|x r]; [simpl in *; lia|]. exists r. simpl in Hp.
      cbn [vsnprintf_loop piece_fmt piece_args piece_text app]. rewrite (proj2 (Z.eqb_neq _ _)) by done.
      rewrite arr_set_app, not_full by (simpl in *; lia). simpl.
      rewrite !length_app, <- app_assoc. simpl in *.
      replace (length dn + 1)%nat with (S (length dn)) by lia. split; [done|]. split; [lia|done].
    - destruct r as [|x r]; [simpl in *; lia|]. exists r. simpl in Hp.
      cbn [vsnprintf_loop piece_fmt piece_args piece_text app]. rewrite Z.eqb_refl.
      rewrite bool_decide_false by (simpl; congruence).
      unfold handle_conversion_specifier_std.
      change (parse_specifier (drop 1 (PERCENT :: PERCENT :: ?s))) with (Some (@None arg_type, s)).
      cbv iota. rewrite arr_set_app, not_full by (simpl in *; lia).
      rewrite !length_app, <- app_assoc. simpl in *.
      replace (length dn + 1)%nat with (S (length dn)) by lia. split; [done|]. split; [lia|done].
    - pose proof Hp as (_ & Hne & Hin & _).
      exists (0 :: drop (S (length (format (PERCENT :: spec) a))) r).
      cbn [vsnprintf_loop piece_fmt piece_args piece_text app]. rewrite Z.eqb_refl.
      rewrite bool_decide_false by (destruct spec; [done|exact Hin]).
      change (PERCENT :: spec ++ fmt_of ps ++ f) with ((PERCENT :: spec) ++ fmt_of ps ++ f).
      rewrite conversion_fits by (simpl in *; rewrite ?length_app; lia || done).
      rewrite not_full by (simpl in *; lia). rewrite length_app. split; [done|].
      split; [rewrite !length_app; simpl in *; rewrite length_drop; lia|done]. }
  destruct Hone as (r1 & E1 & Hl1 & Hd1).
  destruct (IH (dn ++ piece_text p) r1 Hok Hl1) as (r' & E & Hl & Hd).
  { rewrite length_app. lia. }
  exists r'. rewrite <- (app_assoc (piece_fmt p)), <- (app_assoc (piece_args p)), (app_assoc dn).
  rewrite E1, E, !length_app, Nat.add_assoc. split; [done|].
  split; [by rewrite <- Hl, !length_app|]. rewrite Hd.
  replace (S (length (text_of ps))) with (1 + length (text_of ps))%nat by lia.
  by rewrite <- drop_drop, Hd1, drop_drop.
Qed.

Lemma length_pieces ps : Forall piece_ok ps -> (length ps <= length (fmt_of ps))%nat.
Proof using.
  induction 1 as [|p ps Hp _ IH]; [done|]. simpl. fold (fmt_of ps). rewrite length_app.
  destruct p; simpl in *; lia.
Qed.

Lemma run_pieces ps dn_buf f args :
  Forall piece_ok ps -> length dn_buf = buf_size -> (length (text_of ps) + 2 <= buf_size)%nat ->
  exists fuel r', (length f < fuel)%nat /\
    bt_common_custom_vsnprintf format intro handle_specifier buf_size dn_buf (fmt_of ps ++ f)
      (args_of ps ++ args)
    = loop (S fuel) (text_of ps ++ r') (length (text_of ps)) (InFormat f) args /\
    length (text_of ps ++ r') = buf_size /\ drop 1 r' = drop (S (length (text_of ps))) dn_buf.
Proof using.
  intros Hok Hlen Hfit. pose proof (length_pieces ps Hok) as Hl.
  set (fuel := (length (fmt_of ps ++ f) - length ps + 1)%nat).
  destruct (loop_pieces (S fuel) ps [] dn_buf f args Hok Hlen) as (r' & E & Hl' & Hd); [done|].
  exists fuel, r'. split; [subst fuel; rewrite length_app; lia|].
  split; [|done]. unfold bt_common_custom_vsnprintf. rewrite length_app.
  replace (S (S (length (fmt_of ps) + length f))) with (length ps + S fuel)%nat
    by (subst fuel; rewrite length_app; lia).
  exact E.
Qed.
End pieces.

(** * Contract *)

Section contract.
Context {V : Type} (format : list Z -> V -> list Z) (intro : Z).
Context (handle_specifier : list Z -> nat -> nat -> list Z -> list (arg V) ->
                            option (list Z * nat * list Z * list (arg V))).
Context (buf_size : nat).

(** formatting that leaves room: when the whole text is at least two
    characters shorter than the buffer, a format of characters, [%%] and standard
    conversions writes the concatenation of their texts, then the null character,
    reading the arguments with the types of the conversions, and leaves the rest
    of the buffer as it is. *)
Theorem custom_vsnprintf_fits ps buf :
  Forall (piece_ok intro) ps -> length buf = buf_size ->
  (length (text_of format ps) + 2 <= buf_size)%nat ->
  bt_common_custom_vsnprintf format intro handle_specifier buf_size buf (fmt_of ps) (args_of ps)
  = Some (text_of format ps ++ 0 :: drop (S (length (text_of format ps))) buf).
Proof using.
  intros Hok Hlen Hfit.
  destruct (run_pieces format intro handle_specifier buf_size ps buf [] [] Hok Hlen Hfit)
    as (fuel & r' & _ & E & Hl & Hd).
  rewrite !app_nil_r in E. rewrite E. cbn [vsnprintf_loop].
  rewrite length_app in Hl. destruct r' as [|x r']; [simpl in Hl; lia|].
  rewrite arr_set_app. change (drop 1 (x :: r')) with r' in Hd. by rewrite Hd.
Qed.

(** truncation of a conversion overflows the buffer by one: when the text of
    a standard conversion does not fit in what is left of the buffer, the
    position is moved to the end of the buffer and the final null character is
    written just after it. *)
Theorem custom_vsnprintf_truncation_overflows ps spec ty a f args buf :
  Forall (piece_ok intro) ps -> piece_ok intro (Conv spec ty a) -> length buf = buf_size ->
  (length (text_of format ps) + 2 <= buf_size)%nat ->
  (buf_size <= length (text_of format ps) + length (format (PERCENT :: spec) a))%nat ->
  bt_common_custom_vsnprintf format intro handle_specifier buf_size buf
    (fmt_of ps ++ (PERCENT :: spec) ++ f) (args_of ps ++ Arg ty a :: args) = None.
Proof using.
  intros Hok Hp Hlen Hfit Hlong.
  destruct (run_pieces format intro handle_specifier buf_size ps buf ((PERCENT :: spec) ++ f)
              (Arg ty a :: args) Hok Hlen Hfit) as (fuel & r' & Hf & -> & Hl & Hd).
  destruct Hp as (Hsp & Hne & Hin & Hparse).
  cbn [vsnprintf_loop app]. rewrite Z.eqb_refl.
  rewrite bool_decide_false by (destruct spec; [done|exact Hin]).
  unfold handle_conversion_specifier_std.
  change (drop 1 (PERCENT :: spec ++ f)) with (spec ++ f). rewrite Hparse.
  replace (take (length (PERCENT :: spec ++ f) - length f) (PERCENT :: spec ++ f))
    with (PERCENT :: spec).
  2:{ simpl. rewrite length_app.
      replace (S (length spec + length f) - length f)%nat with (S (length spec)) by lia.
      simpl. by rewrite take_app_length. }
  unfold BUF_STD_APPEND_SINGLE_ARG. cbn [arg_ty arg_val]. rewrite bool_decide_true by done.
  rewrite (proj2 (Nat.ltb_lt _ 64)) by (simpl; lia).
  set (t := format (PERCENT :: spec) a) in *. set (w := text_of format ps) in *.
  destruct (snprintf _ _ _ t) as [buf'|] eqn:Es; [|done].
  rewrite Nat.min_r by lia. replace (length w + (buf_size - length w))%nat with buf_size by lia.
  unfold end_if_full. rewrite (proj2 (Nat.leb_le _ _)) by lia.
  assert (Hl' : length buf' = buf_size).
  { unfold snprintf in Es. destruct (buf_size - length w)%nat as [|size] eqn:E; [lia|].
    rewrite length_app in Hl.
    rewrite arr_write_app in Es by (rewrite length_app, length_take; simpl; lia).
    injection Es as Es. rewrite <- Es, !length_app, length_drop, ?length_app, length_take. simpl. lia. }
  destruct fuel as [|fuel]; [done|]. cbn [vsnprintf_loop]. unfold arr_set.
  by rewrite (proj2 (Nat.ltb_ge _ _)) by lia.
Qed.

(** filling the buffer with an ordinary character reads past a string
    literal: when the character brings the text to one less than the buffer's
    size, the format pointer is set to the empty literal and then incremented, so
    that the loop's test reads after the literal's null character. *)
Theorem custom_vsnprintf_full_reads_past_literal ps c f args buf :
  Forall (piece_ok intro) ps -> c <> PERCENT -> length buf = buf_size ->
  (length (text_of format ps) + 2 = buf_size)%nat ->
  bt_common_custom_vsnprintf format intro handle_specifier buf_size buf
    (fmt_of ps ++ c :: f) (args_of ps ++ args) = None.
Proof using.
  intros Hok Hc Hlen Hfit.
  destruct (run_pieces format intro handle_specifier buf_size ps buf (c :: f) args Hok Hlen)
    as (fuel & r' & Hf & -> & Hl & Hd); [lia|].
  cbn [vsnprintf_loop]. rewrite (proj2 (Z.eqb_neq _ _)) by done.
  destruct (arr_set _ _ c) as [buf'|]; [|done].
  unfold end_if_full. rewrite (proj2 (Nat.leb_le _ _)) by lia. cbn [fmt_next].
  by destruct fuel.
Qed.
End contract.

(** A printer whose arguments are their own text. *)
Definition ex_format (spec : list Z) (v : list Z) : list Z := v.
Definition no_custom (buf : list Z) (buf_ch avail : nat) (fmt : list Z) (args : list (arg (list Z)))
  : option (list Z * nat * list Z * list (arg (list Z))) := None.

Lemma custom_vsnprintf_fits_witness :
  bt_common_custom_vsnprintf ex_format 33 no_custom 8 [1; 1; 1; 1; 1; 1; 1; 1]
    [97; 37; 100; 37; 37] [Arg TInt [52; 50]]
  = Some [97; 52; 50; 37; 0; 1; 1; 1].
Proof.
  apply (custom_vsnprintf_fits ex_format 33 no_custom 8 [Lit 97; Conv [100] TInt [52; 50]; Pct]);
    [|done|simpl; lia].
  repeat apply Forall_cons_2; [done| |done|constructor].
  simpl. split; [lia|]. split; [done|]. split; [congruence|done].
Defined.

Lemma custom_vsnprintf_truncation_overflows_witness :
  bt_common_custom_vsnprintf ex_format 33 no_custom 4 [1; 1; 1; 1]
    [97; 37; 115] [Arg TCharPtr [98; 99; 100]] = None.
Proof.
  apply (custom_vsnprintf_truncation_overflows ex_format 33 no_custom 4 [Lit 97] [115] TCharPtr
           [98; 99; 100] [] []);
    [by repeat constructor| |done|simpl; lia|simpl; lia].
  simpl. split; [lia|]. split; [done|]. split; [congruence|done].
Defined.

Lemma custom_vsnprintf_full_reads_past_literal_witness :
  bt_common_custom_vsnprintf ex_format 33 no_custom 3 [1; 1; 1] [97; 98; 99] [] = None.
Proof.
  apply (custom_vsnprintf_full_reads_past_literal ex_format 33 no_custom 3 [Lit 97] 98 [99] []);
    [by repeat constructor|done|done|simpl; lia].
Defined.
