(* ===== verification/Object.v ===== *)
(** Base objects: [src/src/lib/object.h].

    Every object of the library starts with a [struct bt_object].  The functions
    below work on the store of the objects of a type [T] that has such a first
    member (class [ObjectBase]), by address; a null pointer is [None].  Function
    pointers are identifiers, and [call f a h] is what the function [f] does with
    the object [a] in the store [h].  A release function is the last thing
    [bt_object_put_ref_no_null_check] calls, so this function returns the store
    and that last call, if any.  [None] is a failed debug assertion, a call of a
    null function pointer or an access to an object that is not there. *)

From stdpp Require Export gmap.
From S2P Require Import Prelude.
#[global] Open Scope Z_scope.

Definition addr : Type := positive.
Definition func : Type := positive.

(** A release function is [bt_object_with_parent_release_func] or the function
    given to [bt_object_init_shared]. *)
Inductive release := ReleaseWithParent | ReleaseFunc (f : func).

Record bt_object := BtObject {
  is_shared : bool;
  ref_count : Z;
  release_func : option release;
  spec_release_func : option func;
  parent_is_owner_listener_func : option func;
  parent : option addr
}.

(** What has a [struct bt_object] as its first member. *)
Class ObjectBase (T : Type) := {
  base : T -> bt_object;
  set_base : T -> bt_object -> T
}.
Class ObjectBaseLaws (T : Type) `{ObjectBase T} := {
  base_set_base t b : base (set_base t b) = b;
  set_base_base t : set_base t (base t) = t;
  set_base_set_base t b b' : set_base (set_base t b) b' = set_base t b'
}.
Create Rewrite HintDb bt_obj.
#[export] Hint Rewrite @base_set_base @set_base_set_base using typeclasses eauto : bt_obj.

Definition set_ref_count (o : bt_object) (c : Z) : bt_object :=
  BtObject (is_shared o) c (release_func o) (spec_release_func o)
    (parent_is_owner_listener_func o) (parent o).
Definition set_parent (o : bt_object) (p : option addr) : bt_object :=
  BtObject (is_shared o) (ref_count o) (release_func o) (spec_release_func o)
    (parent_is_owner_listener_func o) p.

(** * Operations *)

Definition bt_object_init (debug shared : bool) (f : option release) : option bt_object :=
  BT_ASSERT_DBG debug (negb shared || bool_decide (is_Some f))
    (Some (BtObject shared 1 f None None None)).
(** The two callers of [bt_object_init], for which its assertion holds
    ([bt_object_init_calls]). *)
Definition bt_object_init_shared (f : release) : bt_object := BtObject true 1 (Some f) None None None.
Definition bt_object_init_unique : bt_object := BtObject false 1 None None None None.
Definition bt_object_init_shared_with_parent (spec_release : func) : bt_object :=
  let o := bt_object_init_shared ReleaseWithParent in
  BtObject (is_shared o) (ref_count o) (release_func o) (Some spec_release)
    (parent_is_owner_listener_func o) (parent o).

Lemma bt_object_init_calls debug f :
  bt_object_init debug true (Some f) = Some (bt_object_init_shared f) /\
  bt_object_init debug false None = Some bt_object_init_unique.
Proof. by destruct debug. Qed.

Section ops.
Context {T : Type} `{ObjectBase T}.
Context (debug : bool) (call : func -> addr -> gmap addr T -> option (gmap addr T)).

(** The store, and the release function that is called last. *)
Definition outcome : Type := gmap addr T * option (func * addr).

Definition store_base (h : gmap addr T) (a : addr) (t : T) (o : bt_object) : gmap addr T := <[a := set_base t o]> h.

Definition bt_object_get_ref_count (h : gmap addr T) (a : addr) : option Z :=
  do t <- h !! a;
  BT_ASSERT_DBG debug (is_shared (base t)) (Some (ref_count (base t))).

Definition bt_object_borrow_parent (h : gmap addr T) (a : addr) : option (option addr) :=
  do t <- h !! a;
  BT_ASSERT_DBG debug (is_shared (base t)) (Some (parent (base t))).

Definition bt_object_set_parent_is_owner_listener_func (h : gmap addr T) (a : addr) (f : func) : option (gmap addr T) :=
  do t <- h !! a;
  let o := base t in
  BT_ASSERT_DBG debug (is_shared o)
    (BT_ASSERT_DBG debug (bool_decide (is_Some (spec_release_func o)))
      (Some (store_base h a t (BtObject (is_shared o) (ref_count o) (release_func o)
                                 (spec_release_func o) (Some f) (parent o))))).

Definition bt_object_inc_ref_count (h : gmap addr T) (a : addr) : option (gmap addr T) :=
  do t <- h !! a;
  BT_ASSERT_DBG debug (is_shared (base t))
    (let c := wrapu 64 (ref_count (base t) + 1) in
     BT_ASSERT_DBG debug (negb (c =? 0))
       (Some (store_base h a t (set_ref_count (base t) c)))).

Definition bt_object_get_ref_no_null_check_no_parent_check (h : gmap addr T) (a : addr) : option (gmap addr T) :=
  do t <- h !! a;
  BT_ASSERT_DBG debug (is_shared (base t)) (bt_object_inc_ref_count h a).

(** Takes a reference of the parent first when the object had none. *)
Fixpoint get_ref_chain (fuel : nat) (h : gmap addr T) (a : addr) : option (gmap addr T) :=
  match fuel with
  | O => None
  | S fuel =>
    do t <- h !! a;
    BT_ASSERT_DBG debug (is_shared (base t))
      (do c <- bt_object_get_ref_count h a;
       do h <- match parent (base t) with
               | Some p => if c =? 0 then get_ref_chain fuel h p else Some h
               | None => Some h
               end;
       bt_object_inc_ref_count h a)
  end.

(** The chain of parents visits each object of the store at most once. *)
Definition bt_object_get_ref_no_null_check (h : gmap addr T) (a : addr) : option (gmap addr T) :=
  get_ref_chain (size h) h a.

Definition bt_object_try_spec_release (h : gmap addr T) (a : addr) : option outcome :=
  do t <- h !! a;
  let o := base t in
  BT_ASSERT_DBG debug (is_shared o)
    (BT_ASSERT_DBG debug (bool_decide (is_Some (spec_release_func o)))
      (do c <- bt_object_get_ref_count h a;
       if c =? 0
       then do f <- spec_release_func o; Some (h, Some (f, a))
       else Some (h, None))).

(** [put] is [bt_object_put_ref_no_null_check], on the parent. *)
Definition bt_object_with_parent_release_func
    (put : gmap addr T -> addr -> option outcome) (h : gmap addr T) (a : addr) : option outcome :=
  do t <- h !! a;
  match parent (base t) with
  | Some p =>
    do h <- match parent_is_owner_listener_func (base t) with
            | Some f => call f a h
            | None => Some h
            end;
    put h p
  | None => bt_object_try_spec_release h a
  end.

Fixpoint put_ref_chain (fuel : nat) (h : gmap addr T) (a : addr) : option outcome :=
  match fuel with
  | O => None
  | S fuel =>
    do t <- h !! a;
    let o := base t in
    BT_ASSERT_DBG debug (is_shared o)
      (BT_ASSERT_DBG debug (0 <? ref_count o)
        (let c := wrapu 64 (ref_count o - 1) in
         let h := store_base h a t (set_ref_count o c) in
         if c =? 0 then
           BT_ASSERT_DBG debug (bool_decide (is_Some (release_func o)))
             (do r <- release_func o;
              match r with
              | ReleaseWithParent =>
                bt_object_with_parent_release_func (put_ref_chain fuel) h a
              | ReleaseFunc f => Some (h, Some (f, a))
              end)
         else Some (h, None)))
  end.

Definition bt_object_put_ref_no_null_check (h : gmap addr T) (a : addr) : option outcome :=
  put_ref_chain (size h) h a.

Definition bt_object_get_ref (h : gmap addr T) (ptr : option addr) : option (gmap addr T) :=
  match ptr with
  | None => Some h
  | Some a =>
    do t <- h !! a;
    BT_ASSERT_DBG debug (is_shared (base t)) (bt_object_get_ref_no_null_check h a)
  end.

Definition bt_object_put_ref (h : gmap addr T) (ptr : option addr) : option outcome :=
  match ptr with
  | None => Some (h, None)
  | Some a =>
    do t <- h !! a;
    BT_ASSERT_DBG debug (is_shared (base t))
      (do c <- bt_object_get_ref_count h a;
       BT_ASSERT_DBG debug (0 <? c) (bt_object_put_ref_no_null_check h a))
  end.

(** Makes the last call of [bt_object_put_ref_no_null_check]. *)
Definition run (r : outcome) : option (gmap addr T) :=
  match r with
  | (h, None) => Some h
  | (h, Some (f, a)) => call f a h
  end.

Definition bt_object_get_parent (h : gmap addr T) (a : addr) : option (option addr * gmap addr T) :=
  do p <- bt_object_borrow_parent h a;
  match p with
  | Some p' => do h <- bt_object_get_ref_no_null_check h p'; Some (p, h)
  | None => Some (p, h)
  end.

Definition bt_object_set_parent (h : gmap addr T) (child : addr) (p : option addr) : option (gmap addr T) :=
  do t <- h !! child;
  BT_ASSERT_DBG debug (is_shared (base t))
    (match p with
     | Some p' =>
       BT_ASSERT_DBG debug (bool_decide (parent (base t) = None))
         (bt_object_get_ref_no_null_check
            (store_base h child t (set_parent (base t) p)) p')
     | None =>
       do h <- match parent (base t) with
               | Some p' => do r <- bt_object_put_ref_no_null_check h p'; run r
               | None => Some h
               end;
       do t <- h !! child;
       Some (store_base h child t (set_parent (base t) None))
     end).

(** [BT_OBJECT_PUT_REF_AND_RESET]: the variable is null afterwards. *)
Definition BT_OBJECT_PUT_REF_AND_RESET (h : gmap addr T) (var : option addr)
    : option (gmap addr T * option addr) :=
  do r <- bt_object_put_ref h var;
  do h <- run r;
  Some (h, None).

(** [BT_OBJECT_MOVE_REF]: the destination and the source afterwards. *)
Definition BT_OBJECT_MOVE_REF (h : gmap addr T) (dst src : option addr)
    : option (gmap addr T * option addr * option addr) :=
  do r <- bt_object_put_ref h dst;
  do h <- run r;
  Some (h, src, None).

End ops.

(** * Ownership *)

Section ownership.
Context {T : Type} `{ObjectBaseLaws T}.

(** An object that holds a reference of its parent [p]. *)
Definition active_kid (p : addr) (kv : addr * T) : Prop :=
  parent (base kv.2) = Some p /\ 0 < ref_count (base kv.2).

Definition active_kids (h : gmap addr T) (p : addr) : Z :=
  Z.of_nat (size (filter (active_kid p) h)).

(** The root of an object: the last object of its chain of parents. *)
Inductive root_of (h : gmap addr T) : addr -> addr -> Prop :=
| RootSelf a t : h !! a = Some t -> parent (base t) = None -> root_of h a a
| RootUp a t p r :
    h !! a = Some t -> parent (base t) = Some p -> root_of h p r -> root_of h a r.

(** A store whose reference counts are those of [ext], the references held from
    outside, and of the children with a reference; [rank] orders the objects of a
    chain of parents. *)
Record store_wf (h : gmap addr T) (ext : addr -> Z) (rank : addr -> nat) : Prop := {
  wf_count a t : h !! a = Some t -> ref_count (base t) = ext a + active_kids h a;
  wf_ext a : 0 <= ext a;
  wf_shared a t : h !! a = Some t -> is_shared (base t) = true;
  wf_bound a t : h !! a = Some t -> ref_count (base t) < 2 ^ 64;
  wf_parent a t p :
    h !! a = Some t -> parent (base t) = Some p ->
    is_Some (h !! p) /\ (rank p < rank a)%nat /\
    release_func (base t) = Some ReleaseWithParent;
  wf_release a t :
    h !! a = Some t ->
    match release_func (base t) with
    | None => False
    | Some ReleaseWithParent => is_Some (spec_release_func (base t))
    | Some (ReleaseFunc _) => True
    end
}.

(** The function that releases a root. *)
Definition root_release (o : bt_object) : option func :=
  match release_func o with
  | Some (ReleaseFunc f) => Some f
  | _ => spec_release_func o
  end.

(** [ext] with [d] more references to [a]. *)
Definition add_ext (ext : addr -> Z) (a : addr) (d : Z) : addr -> Z :=
  fun x => ext x + (if decide (x = a) then d else 0).

(** The objects of [h'] are those of [h], but for their reference counts. *)
Definition counts_from (h h' : gmap addr T) : Prop :=
  forall x t', h' !! x = Some t' -> exists t, h !! x = Some t /\
    t' = set_base t (set_ref_count (base t) (ref_count (base t'))).

(** What a listener may do to an object without references, in a store that has
    the objects of [h]: nothing, or remove it when it is no object's parent. *)
Definition listeners_ok (call : func -> addr -> gmap addr T -> option (gmap addr T))
    (h : gmap addr T) : Prop :=
  forall h1 a t f, counts_from h h1 -> h1 !! a = Some t ->
  parent_is_owner_listener_func (base t) = Some f -> ref_count (base t) = 0 ->
  exists h2, call f a h1 = Some h2 /\
    (h2 = h1 \/
     (h2 = delete a h1 /\ forall x u, h1 !! x = Some u -> parent (base u) <> Some a)).

(** * Counting the active children *)

Definition kid_ind (x : addr) (t : T) : Z :=
  if decide (active_kid x (1%positive, t)) then 1 else 0.

Lemma active_kids_nonneg h x : 0 <= active_kids h x.
Proof. unfold active_kids. lia. Qed.

Lemma active_kids_insert_new h a t x :
  h !! a = None -> active_kids (<[a := t]> h) x = active_kids h x + kid_ind x t.
Proof.
  intros Ha. unfold active_kids, kid_ind.
  destruct (decide (active_kid x (1%positive, t))) as [Hk|Hk].
  - rewrite map_filter_insert_True by exact Hk. rewrite map_size_insert_None; [lia|].
    apply map_lookup_filter_None. auto.
  - rewrite map_filter_insert_False, delete_id by done. lia.
Qed.

Lemma active_kids_insert h a t t' x :
  h !! a = Some t ->
  active_kids (<[a := t']> h) x = active_kids h x - kid_ind x t + kid_ind x t'.
Proof.
  intros Ha. rewrite <- (insert_delete_id h a t Ha) at 2. rewrite <- insert_delete_eq.
  rewrite !active_kids_insert_new by apply lookup_delete_eq. lia.
Qed.

Lemma active_kids_delete h a t x :
  h !! a = Some t -> active_kids (delete a h) x = active_kids h x - kid_ind x t.
Proof.
  intros Ha. rewrite <- (insert_delete_id h a t Ha) at 2.
  rewrite active_kids_insert_new by apply lookup_delete_eq. lia.
Qed.

Lemma kid_ind_parent x t :
  kid_ind x t = if decide (parent (base t) = Some x) then
                  if decide (0 < ref_count (base t)) then 1 else 0 else 0.
Proof.
  unfold kid_ind, active_kid. simpl.
  repeat case_decide; tauto || lia.
Qed.

Lemma kid_active h p a t :
  h !! a = Some t -> parent (base t) = Some p -> 0 < ref_count (base t) -> 0 < active_kids h p.
Proof.
  intros Ha Hp Hc. rewrite <- (insert_delete_id h a t Ha).
  rewrite active_kids_insert_new by apply lookup_delete_eq.
  rewrite kid_ind_parent. pose proof (active_kids_nonneg (delete a h) p).
  rewrite !decide_True by done. lia.
Qed.

(** ** One change of a reference count *)

Lemma wf_count_nonneg h ext rank a t :
  store_wf h ext rank -> h !! a = Some t -> 0 <= ref_count (base t).
Proof.
  intros W Ha. rewrite (wf_count _ _ _ W _ _ Ha).
  pose proof (wf_ext _ _ _ W a). pose proof (active_kids_nonneg h a). lia.
Qed.

Lemma wf_set_count h ext rank a t c ext' :
  store_wf h ext rank -> h !! a = Some t -> 0 <= c < 2 ^ 64 ->
  (forall x, 0 <= ext' x) ->
  (forall x, ext' x = ext x + (if decide (x = a) then c - ref_count (base t) else 0)
     + kid_ind x t - kid_ind x (set_base t (set_ref_count (base t) c))) ->
  store_wf (<[a := set_base t (set_ref_count (base t) c)]> h) ext' rank.
Proof.
  intros W Ha Hc Hpos Hext. set (t' := set_base t _).
  assert (Hb : base t' = set_ref_count (base t) c) by apply base_set_base.
  assert (Hself : parent (base t) <> Some a).
  { intros Hp. destruct (wf_parent _ _ _ W _ _ _ Ha Hp) as (_ & ? & _). lia. }
  assert (Hlk : forall x u, <[a := t']> h !! x = Some u ->
    exists v, h !! x = Some v /\ is_shared (base u) = is_shared (base v) /\
      parent (base u) = parent (base v) /\ release_func (base u) = release_func (base v) /\
      spec_release_func (base u) = spec_release_func (base v)).
  { intros x u Hx. apply lookup_insert_Some in Hx as [[<- <-]|[? Hx]]; [|by exists u].
    exists t. rewrite Hb. done. }
  split; try done.
  - intros x u Hx. rewrite (active_kids_insert _ _ _ _ _ Ha), Hext. fold t'.
    apply lookup_insert_Some in Hx as [[<- <-]|[Hne Hx]].
    + rewrite decide_True, Hb by done. simpl.
      pose proof (wf_count _ _ _ W _ _ Ha). lia.
    + rewrite decide_False by done. pose proof (wf_count _ _ _ W _ _ Hx). lia.
  - intros x u Hx. destruct (Hlk x u Hx) as (v & Hv & -> & _). by eapply wf_shared.
  - intros x u Hx. apply lookup_insert_Some in Hx as [[<- <-]|[? Hx]]; [rewrite Hb; simpl; lia|].
    by eapply wf_bound.
  - intros x u p Hx Hp. destruct (Hlk x u Hx) as (v & Hv & _ & Hpv & -> & _).
    rewrite Hpv in Hp. destruct (wf_parent _ _ _ W _ _ _ Hv Hp) as ([w Hw] & ? & ?).
    split; [|done]. rewrite lookup_insert. case_decide; eauto.
  - intros x u Hx. destruct (Hlk x u Hx) as (v & Hv & _ & _ & -> & ->).
    by apply (wf_release _ _ _ W x).
Qed.

Lemma counts_from_refl h : counts_from h h.
Proof. intros x t Hx. exists t. split; [done|]. destruct (base t) eqn:E. simpl. rewrite <- E.
  replace (set_ref_count (base t) ref_count0) with (base t) by (rewrite E; done).
  by rewrite set_base_base. Qed.

Lemma counts_from_trans h1 h2 h3 : counts_from h1 h2 -> counts_from h2 h3 -> counts_from h1 h3.
Proof.
  intros H12 H23 x t3 H3. destruct (H23 _ _ H3) as (t2 & H2 & E2).
  destruct (H12 _ _ H2) as (t1 & H1 & E1). exists t1. split; [done|].
  rewrite E2, E1. autorewrite with bt_obj. done.
Qed.

Lemma counts_from_insert h a t c :
  h !! a = Some t -> counts_from h (<[a := set_base t (set_ref_count (base t) c)]> h).
Proof.
  intros Ha x u Hx. apply lookup_insert_Some in Hx as [[<- <-]|[? Hx]].
  - exists t. split; [done|]. by autorewrite with bt_obj.
  - by apply (counts_from_refl h).
Qed.

Lemma counts_from_delete h a : counts_from h (delete a h).
Proof. intros x u Hx. apply lookup_delete_Some in Hx as [? Hx]. by apply (counts_from_refl h). Qed.

(** ** Fuel *)

Definition below (rank : addr -> nat) (h : gmap addr T) (a : addr) : nat :=
  size (filter (fun x => (rank x <= rank a)%nat) (dom h)).

Lemma below_parent rank h a p :
  a ∈ dom h -> (rank p < rank a)%nat -> (below rank h p < below rank h a)%nat.
Proof.
  intros Ha Hp. apply subset_size. split.
  - intros x. rewrite !elem_of_filter. intros [? ?]. split; [lia|done].
  - intros Hs. specialize (Hs a). rewrite !elem_of_filter in Hs.
    destruct Hs as [? _]; [split; [lia|done]|lia].
Qed.

Lemma below_size rank h a : (below rank h a <= size h)%nat.
Proof.
  unfold below. rewrite <- (size_dom h).
  apply subseteq_size. intros x. rewrite elem_of_filter. tauto.
Qed.

Lemma below_ext rank h h' a :
  (forall x, (rank x <= rank a)%nat -> is_Some (h !! x) <-> is_Some (h' !! x)) ->
  below rank h' a = below rank h a.
Proof.
  intros Hd. unfold below. f_equal. apply set_eq. intros x.
  rewrite !elem_of_filter, !elem_of_dom. split; intros [? ?]; (split; [done|]); by apply Hd.
Qed.

Lemma below_pos rank h a t : h !! a = Some t -> (0 < below rank h a)%nat.
Proof.
  intros Ha. unfold below. apply Nat.neq_0_lt_0. intros Hz.
  apply size_empty_iff in Hz. apply (not_elem_of_empty (C := gset addr) a), Hz.
  rewrite elem_of_filter, elem_of_dom. split; [lia|by eexists].
Qed.

(** ** Taking a reference *)

Definition room (h : gmap addr T) : Prop :=
  forall x t, h !! x = Some t -> ref_count (base t) + 1 < 2 ^ 64.

Section counting.
Context (debug : bool) (call : func -> addr -> gmap addr T -> option (gmap addr T)).

Lemma inc_ref_count_ok h a t :
  h !! a = Some t -> is_shared (base t) = true -> 0 <= ref_count (base t) ->
  ref_count (base t) + 1 < 2 ^ 64 ->
  bt_object_inc_ref_count debug h a =
    Some (<[a := set_base t (set_ref_count (base t) (ref_count (base t) + 1))]> h).
Proof.
  intros Ha Hs Hge Hr. unfold bt_object_inc_ref_count, BT_ASSERT_DBG, store_base.
  rewrite Ha, Hs, wrapu_small, (proj2 (Z.eqb_neq _ 0)) by lia.
  by rewrite !andb_false_r.
Qed.

Lemma inc_count_wf h ext rank a t :
  store_wf h ext rank -> h !! a = Some t -> ref_count (base t) + 1 < 2 ^ 64 ->
  (parent (base t) = None \/ 0 < ref_count (base t)) ->
  store_wf (<[a := set_base t (set_ref_count (base t) (ref_count (base t) + 1))]> h)
    (add_ext ext a 1) rank.
Proof.
  intros W Ha Hr Hp. pose proof (wf_count_nonneg _ _ _ _ _ W Ha).
  apply (wf_set_count _ _ _ _ _ _ _ W Ha); [lia| |]; intros x;
    pose proof (wf_ext _ _ _ W x); unfold add_ext.
  - case_decide; lia.
  - rewrite !kid_ind_parent, base_set_base. simpl. destruct Hp as [-> |Hp].
    + rewrite !(decide_False (P := None = Some x)) by done. case_decide; lia.
    + repeat case_decide; lia.
Qed.

Lemma inc_orphan_wf h ext rank a t p :
  store_wf h (add_ext ext p 1) rank -> h !! a = Some t -> parent (base t) = Some p ->
  ref_count (base t) = 0 -> (forall x, 0 <= ext x) ->
  store_wf (<[a := set_base t (set_ref_count (base t) (ref_count (base t) + 1))]> h)
    (add_ext ext a 1) rank.
Proof.
  intros W Ha Hp Hz Hpos.
  apply (wf_set_count _ _ _ _ _ _ _ W Ha); [lia| |]; intros x; specialize (Hpos x);
    unfold add_ext.
  - case_decide; lia.
  - rewrite !kid_ind_parent, base_set_base. simpl. rewrite Hp, Hz.
    repeat case_decide; simplify_eq; lia || congruence.
Qed.

Lemma get_ref_chain_ok fuel : forall h ext rank a t,
  store_wf h ext rank -> room h -> h !! a = Some t -> (below rank h a <= fuel)%nat ->
  exists h', get_ref_chain debug fuel h a = Some h' /\
    store_wf h' (add_ext ext a 1) rank /\ counts_from h h' /\ dom h' = dom h /\
    (forall x, (rank a < rank x)%nat -> h' !! x = h !! x).
Proof.
  induction fuel as [|fuel IH]; intros h ext rank a t W R Ha Hf.
  { pose proof (below_pos rank h a t Ha). lia. }
  pose proof (wf_count_nonneg _ _ _ _ _ W Ha) as Hge.
  pose proof (wf_shared _ _ _ W _ _ Ha) as Hs. pose proof (R _ _ Ha) as Hr.
  assert (Hdone : (parent (base t) = None \/ 0 < ref_count (base t)) ->
    exists h', bt_object_inc_ref_count debug h a = Some h' /\
      store_wf h' (add_ext ext a 1) rank /\ counts_from h h' /\ dom h' = dom h /\
      (forall x, (rank a < rank x)%nat -> h' !! x = h !! x)).
  { intros Hp. eexists. split; [by apply inc_ref_count_ok|].
    split; [by apply inc_count_wf|]. split; [by apply counts_from_insert|].
    split; [apply dom_insert_lookup_L; by eexists|].
    intros x Hx. apply lookup_insert_ne. intros ->. lia. }
  cbn [get_ref_chain]. rewrite Ha. unfold bt_object_get_ref_count at 1, BT_ASSERT_DBG.
  rewrite Ha, Hs, andb_false_r.
  destruct (parent (base t)) as [p|] eqn:Hp; [|apply Hdone; by left].
  destruct (Z.eqb_spec (ref_count (base t)) 0) as [Hz|Hz]; [|apply Hdone; right; lia].
  destruct (wf_parent _ _ _ W _ _ _ Ha Hp) as ([tp Htp] & Hrank & _).
  destruct (IH h ext rank p tp W R Htp) as (h1 & -> & W1 & C1 & D1 & F1).
  { pose proof (below_parent rank h a p (elem_of_dom_2 _ _ _ Ha) Hrank). lia. }
  assert (Ha1 : h1 !! a = Some t) by (rewrite F1; done).
  eexists. split; [by apply inc_ref_count_ok|].
  split; [eapply inc_orphan_wf; eauto using wf_ext|].
  split; [eapply counts_from_trans; [exact C1|by apply counts_from_insert]|].
  split; [rewrite dom_insert_lookup_L by (by eexists); done|].
  intros x Hx. rewrite lookup_insert_ne by (intros ->; lia). apply F1. lia.
Qed.

(** ** Putting a reference *)

Lemma store_wf_ext h ext ext' rank :
  (forall x, ext x = ext' x) -> store_wf h ext rank -> store_wf h ext' rank.
Proof.
  intros He []. split; eauto; intros; rewrite <- He; eauto.
Qed.

Lemma wf_delete h ext rank a t :
  store_wf h ext rank -> h !! a = Some t -> ref_count (base t) = 0 ->
  (forall x u, h !! x = Some u -> parent (base u) <> Some a) ->
  store_wf (delete a h) ext rank.
Proof.
  intros W Ha Hz Hnk.
  assert (Hlk : forall x u, delete a h !! x = Some u -> h !! x = Some u)
    by (intros x u Hx; by apply lookup_delete_Some in Hx as [_ ?]).
  assert (Hk : forall x, active_kids (delete a h) x = active_kids h x).
  { intros x. rewrite (active_kids_delete _ _ _ _ Ha), kid_ind_parent, Hz.
    repeat case_decide; lia. }
  split.
  - intros x u Hx. rewrite Hk. apply (wf_count _ _ _ W), Hlk, Hx.
  - apply (wf_ext _ _ _ W).
  - intros x u Hx. eapply wf_shared; eauto.
  - intros x u Hx. eapply wf_bound; eauto.
  - intros x u p Hx Hp. destruct (wf_parent _ _ _ W _ _ _ (Hlk _ _ Hx) Hp) as ([v Hv] & ? & ?).
    split; [|done]. rewrite lookup_delete_ne; [by eexists|].
    intros <-. by apply (Hnk x u); [apply Hlk|].
  - intros x u Hx. apply (wf_release _ _ _ W x), Hlk, Hx.
Qed.

Lemma dec_count_wf h ext rank a t :
  store_wf h ext rank -> h !! a = Some t -> 0 < ext a ->
  (parent (base t) = None \/ 1 < ref_count (base t)) ->
  store_wf (<[a := set_base t (set_ref_count (base t) (ref_count (base t) - 1))]> h)
    (add_ext ext a (-1)) rank.
Proof.
  intros W Ha He Hp. pose proof (wf_count _ _ _ W _ _ Ha).
  pose proof (active_kids_nonneg h a). pose proof (wf_bound _ _ _ W _ _ Ha).
  apply (wf_set_count _ _ _ _ _ _ _ W Ha); [lia| |]; intros x;
    pose proof (wf_ext _ _ _ W x); unfold add_ext.
  - case_decide; [subst|]; lia.
  - rewrite !kid_ind_parent, base_set_base. simpl. destruct Hp as [-> |Hp].
    + rewrite !(decide_False (P := None = Some x)) by done. case_decide; lia.
    + repeat case_decide; lia.
Qed.

(** The last reference of an object with a parent: the parent's is now the
    caller's. *)
Lemma dec_last_wf h ext rank a t p :
  store_wf h ext rank -> h !! a = Some t -> 0 < ext a -> parent (base t) = Some p ->
  ref_count (base t) = 1 ->
  store_wf (<[a := set_base t (set_ref_count (base t) 0)]> h)
    (add_ext (add_ext ext a (-1)) p 1) rank.
Proof.
  intros W Ha He Hp H1.
  apply (wf_set_count _ _ _ _ _ _ _ W Ha); [lia| |]; intros x;
    pose proof (wf_ext _ _ _ W x); unfold add_ext.
  - repeat case_decide; simplify_eq; lia.
  - rewrite !kid_ind_parent, base_set_base. simpl. rewrite Hp, H1.
    repeat case_decide; simplify_eq; lia || congruence.
Qed.

Lemma root_of_frame h h' ext rank p r :
  store_wf h ext rank -> root_of h p r ->
  (forall x, (rank x <= rank p)%nat -> h' !! x = h !! x) -> root_of h' p r.
Proof.
  intros W. induction 1 as [a t Ha Hp|a t q r Ha Hp Hr IH]; intros Hf.
  - eapply RootSelf; [|done]. rewrite Hf; [done|lia].
  - destruct (wf_parent _ _ _ W _ _ _ Ha Hp) as (_ & ? & _).
    eapply RootUp; [|done|]; [rewrite Hf; [done|lia]|]. apply IH. intros x Hx. apply Hf. lia.
Qed.

Lemma root_of_rank h ext rank a r :
  store_wf h ext rank -> root_of h a r ->
  exists t, h !! r = Some t /\ parent (base t) = None /\ (rank r <= rank a)%nat.
Proof.
  intros W. induction 1 as [a t Ha Hp|a t q r Ha Hp Hr (u & ? & ? & ?)]; [by exists t|].
  destruct (wf_parent _ _ _ W _ _ _ Ha Hp) as (_ & ? & _). exists u. repeat split; try done. lia.
Qed.

(** A root has references as long as an object of its tree has. *)
Lemma root_active h ext rank a r :
  store_wf h ext rank -> root_of h a r ->
  forall t tr, h !! a = Some t -> h !! r = Some tr ->
  0 < ref_count (base t) -> 0 < ref_count (base tr).
Proof.
  intros W. induction 1 as [a u Ha Hp|a u q r Ha Hp Hr IH]; intros t tr Ht Htr Hc; [congruence|].
  rewrite Ha in Ht. injection Ht as <-.
  destruct (wf_parent _ _ _ W _ _ _ Ha Hp) as ([v Hv] & _ & _).
  apply (IH v tr Hv Htr). rewrite (wf_count _ _ _ W _ _ Hv).
  pose proof (wf_ext _ _ _ W q). pose proof (kid_active _ _ _ _ Ha Hp Hc). lia.
Qed.

(** What putting a reference of [a] does: the reference is gone, the objects that
    left the store removed themselves in a listener and nothing referred to them,
    and the root's release function is called last exactly when the root's count
    is now 0. *)
Record put_post (h : gmap addr T) (ext : addr -> Z) (rank : addr -> nat) (a : addr)
    (h' : gmap addr T) (rel : option (func * addr)) : Prop := {
  pp_wf : store_wf h' (add_ext ext a (-1)) rank;
  pp_counts : counts_from h h';
  pp_frame x : (rank a < rank x)%nat -> h' !! x = h !! x;
  pp_removed x t :
    h !! x = Some t -> h' !! x = None ->
    parent_is_owner_listener_func (base t) <> None /\ add_ext ext a (-1) x = 0;
  pp_release r tr :
    root_of h a r -> h !! r = Some tr ->
    exists tr', h' !! r = Some tr' /\
      rel = if ref_count (base tr') =? 0
            then option_map (fun f => (f, r)) (root_release (base tr)) else None
}.

(** The parent case of [bt_object_with_parent_release_func], up to the call on the
    parent. *)
Lemma listener_ok h0 h e rank a t :
  listeners_ok call h0 -> counts_from h0 h -> store_wf h e rank -> h !! a = Some t -> ref_count (base t) = 0 ->
  exists h2, match parent_is_owner_listener_func (base t) with
             | Some f => call f a h
             | None => Some h
             end = Some h2 /\
    store_wf h2 e rank /\ counts_from h h2 /\ (forall x, x <> a -> h2 !! x = h !! x) /\
    (h2 !! a = None -> parent_is_owner_listener_func (base t) <> None).
Proof.
  intros L C W Ha Hz. destruct (parent_is_owner_listener_func (base t)) as [f|] eqn:Hf.
  - destruct (L _ _ _ _ C Ha Hf Hz) as (h2 & -> & [-> |[-> Hnk]]); (eexists; split; [done|]).
    + split; [done|]. split; [apply counts_from_refl|]. split; [done|congruence].
    + split; [by eapply wf_delete|]. split; [apply counts_from_delete|].
      split; [intros; by apply lookup_delete_ne|done].
  - eexists. split; [done|]. split; [done|]. split; [apply counts_from_refl|].
    split; [done|congruence].
Qed.

Lemma put_ref_parent h ext rank a t p h2 h3 rel :
  store_wf h ext rank -> h !! a = Some t -> parent (base t) = Some p -> ref_count (base t) = 1 ->
  0 < ext a ->
  let h1 := <[a := set_base t (set_ref_count (base t) 0)]> h in
  counts_from h1 h2 -> (forall x, x <> a -> h2 !! x = h1 !! x) ->
  (h2 !! a = None -> parent_is_owner_listener_func (base t) <> None) ->
  put_post h2 (add_ext (add_ext ext a (-1)) p 1) rank p h3 rel ->
  put_post h ext rank a h3 rel.
Proof.
  intros W Ha Hp H1 He h1 C2 F2 Hdel P.
  destruct (wf_parent _ _ _ W _ _ _ Ha Hp) as (_ & Hrank & _).
  assert (Hlow : forall x, x <> a -> h2 !! x = h !! x).
  { intros x Hx. rewrite F2 by done. by apply lookup_insert_ne. }
  assert (Hext : forall x, add_ext (add_ext (add_ext ext a (-1)) p 1) p (-1) x =
                           add_ext ext a (-1) x).
  { intros x. unfold add_ext. repeat case_decide; lia. }
  assert (Hea : ext a = 1).
  { pose proof (wf_count _ _ _ W _ _ Ha). pose proof (active_kids_nonneg h a). lia. }
  split.
  - eapply store_wf_ext; [exact Hext|apply P].
  - eapply counts_from_trans; [|apply P]. eapply counts_from_trans; [|exact C2].
    by apply counts_from_insert.
  - intros x Hx. rewrite (pp_frame _ _ _ _ _ _ P) by lia. apply Hlow. intros ->. lia.
  - intros x u Hx Hn. destruct (decide (x = a)) as [-> |Hne].
    + rewrite Ha in Hx. injection Hx as <-. split; [|unfold add_ext; rewrite decide_True; lia || done].
      apply Hdel. rewrite <- (pp_frame _ _ _ _ _ _ P) by lia. done.
    + rewrite <- Hext. apply (pp_removed _ _ _ _ _ _ P); [|done]. by rewrite Hlow.
  - intros r tr Hr Htr. inversion Hr as [? u Hu Hpu|? u q ? Hu Hpu Hq]; subst; [congruence|].
    assert (q = p) as -> by congruence.
    destruct (root_of_rank _ _ _ _ _ W Hq) as (_ & _ & _ & ?).
    apply (pp_release _ _ _ _ _ _ P).
    + eapply root_of_frame; [exact W|exact Hq|]. intros x Hx. apply Hlow. intros ->. lia.
    + rewrite Hlow; [done|]. intros ->. lia.
Qed.

Lemma put_ref_here h ext rank a t c rel :
  let t' := set_base t (set_ref_count (base t) c) in
  h !! a = Some t -> store_wf (<[a := t']> h) (add_ext ext a (-1)) rank ->
  (forall r tr, root_of h a r -> h !! r = Some tr ->
   exists tr', <[a := t']> h !! r = Some tr' /\
     rel = if ref_count (base tr') =? 0
           then option_map (fun f => (f, r)) (root_release (base tr)) else None) ->
  put_post h ext rank a (<[a := t']> h) rel.
Proof.
  intros t' Ha W Hr. split; [done|by apply counts_from_insert| | |done].
  - intros x Hx. apply lookup_insert_ne. intros ->. lia.
  - intros x u Hx Hn. exfalso. destruct (decide (x = a)) as [-> |Hne].
    + rewrite lookup_insert_eq in Hn. done.
    + rewrite lookup_insert_ne in Hn by done. congruence.
Qed.

Lemma put_ref_still h ext rank a t :
  store_wf h ext rank -> h !! a = Some t -> 0 < ext a -> 1 < ref_count (base t) ->
  put_post h ext rank a
    (<[a := set_base t (set_ref_count (base t) (ref_count (base t) - 1))]> h) None.
Proof.
  intros W Ha He Hc. apply put_ref_here; [done|apply dec_count_wf; auto|].
  intros r tr Hr Htr. set (t' := set_base t _).
  assert (Hr1 : exists tr', <[a := t']> h !! r = Some tr' /\ 0 < ref_count (base tr')); cycle 1.
  { destruct Hr1 as (tr' & Htr' & Hpos). exists tr'. split; [done|].
    by rewrite (proj2 (Z.eqb_neq _ 0)) by lia. }
  destruct (decide (r = a)) as [-> |Hne].
  - exists t'. split; [apply lookup_insert_eq|]. unfold t'. rewrite base_set_base. simpl. lia.
  - exists tr. split; [by apply (eq_trans (lookup_insert_ne h a r t' (not_eq_sym Hne)))|].
    eapply root_active; [exact W|exact Hr|exact Ha|exact Htr|lia].
Qed.

Lemma put_ref_root h ext rank a t f :
  store_wf h ext rank -> h !! a = Some t -> 0 < ext a -> ref_count (base t) = 1 ->
  parent (base t) = None -> root_release (base t) = Some f ->
  put_post h ext rank a (<[a := set_base t (set_ref_count (base t) 0)]> h) (Some (f, a)).
Proof.
  intros W Ha He Hone Hp Hf.
  assert (W1 := dec_count_wf _ _ _ _ _ W Ha He (or_introl Hp)). rewrite Hone in W1.
  apply put_ref_here; [done|exact W1|]. intros r tr Hr Htr.
  inversion Hr as [? u Hu|? u q]; subst; [|congruence].
  assert (tr = t) as -> by congruence. eexists. split; [apply lookup_insert_eq|].
  rewrite base_set_base, Hf. done.
Qed.

Lemma put_ref_chain_ok fuel : forall h ext rank a t,
  listeners_ok call h -> store_wf h ext rank -> h !! a = Some t -> 0 < ext a ->
  (below rank h a <= fuel)%nat ->
  exists h' rel, put_ref_chain debug call fuel h a = Some (h', rel) /\
    put_post h ext rank a h' rel.
Proof.
  induction fuel as [|fuel IH]; intros h ext rank a t L W Ha He Hf.
  { pose proof (below_pos rank h a t Ha). lia. }
  pose proof (wf_count _ _ _ W _ _ Ha) as Hc. pose proof (active_kids_nonneg h a).
  pose proof (wf_shared _ _ _ W _ _ Ha) as Hs. pose proof (wf_bound _ _ _ W _ _ Ha).
  cbn [put_ref_chain]. rewrite Ha. unfold BT_ASSERT_DBG, store_base.
  rewrite Hs, andb_false_r, (proj2 (Z.ltb_lt 0 _)), andb_false_r, wrapu_small by lia. cbv zeta.
  destruct (Z.eqb_spec (ref_count (base t) - 1) 0) as [Hz|Hz].
  2: { do 2 eexists. split; [done|]. apply put_ref_still; auto; lia. }
  assert (Hone : ref_count (base t) = 1) by lia. rewrite Hone. change (1 - 1) with 0.
  set (t' := set_base t (set_ref_count (base t) 0)). set (h1 := <[a := t']> h).
  assert (Hb : base t' = set_ref_count (base t) 0) by apply base_set_base.
  assert (Ha1 : h1 !! a = Some t') by apply lookup_insert_eq.
  pose proof (wf_release _ _ _ W _ _ Ha) as Hrel.
  destruct (release_func (base t)) as [[|f]|] eqn:Hrf; [| |done];
    rewrite bool_decide_eq_true_2 by (by eexists); rewrite andb_false_r.
  2: { do 2 eexists. split; [done|].
       destruct (parent (base t)) as [p|] eqn:Hp.
       - destruct (wf_parent _ _ _ W _ _ _ Ha Hp) as (_ & _ & ?). congruence.
       - apply put_ref_root; try done. unfold root_release. by rewrite Hrf. }
  unfold bt_object_with_parent_release_func. rewrite Ha1, Hb. cbn [parent set_ref_count].
  destruct (parent (base t)) as [p|] eqn:Hp.
  - destruct (wf_parent _ _ _ W _ _ _ Ha Hp) as ([tp Htp] & Hrank & _).
    assert (Hpa : p <> a) by (intros ->; lia).
    assert (W1 := dec_last_wf _ _ _ _ _ _ W Ha He Hp Hone). fold t' h1 in W1.
    destruct (listener_ok _ _ _ _ _ _ L (counts_from_insert h a t 0 Ha) W1 Ha1) as (h2 & Hl & W2 & C2 & F2 & Hdel).
    { by rewrite Hb. }
    rewrite Hb in Hl, Hdel. cbn [parent_is_owner_listener_func set_ref_count] in Hl, Hdel |- *.
    assert (L2 : listeners_ok call h2).
    { intros h3 x u g C3. apply L. eapply counts_from_trans; [|exact C3].
      eapply counts_from_trans; [apply (counts_from_insert h a t 0 Ha)|exact C2]. }
    fold t' h1 in Hl, C2, F2. rewrite Hl. destruct (IH h2 _ rank p tp L2 W2) as (h3 & rel & -> & P).
    + rewrite F2 by done. unfold h1. by rewrite lookup_insert_ne.
    + unfold add_ext. rewrite (decide_True (P := p = p)), decide_False by done.
      pose proof (wf_ext _ _ _ W p). lia.
    + pose proof (below_parent rank h a p (elem_of_dom_2 _ _ _ Ha) Hrank).
      rewrite (below_ext rank h h2); [lia|]. intros x Hx.
      rewrite F2 by (intros ->; lia). unfold h1. rewrite lookup_insert_ne by (intros ->; lia). done.
    + do 2 eexists. split; [done|]. eapply put_ref_parent; eauto.
  - destruct Hrel as [f Hsf].
    unfold bt_object_try_spec_release, bt_object_get_ref_count, BT_ASSERT_DBG.
    rewrite Ha1, Hb. cbn [is_shared ref_count spec_release_func set_ref_count].
    rewrite Hs, Hsf, bool_decide_eq_true_2, !andb_false_r by (by eexists).
    do 2 eexists. split; [done|]. apply put_ref_root; try done. unfold root_release. by rewrite Hrf.
Qed.

End counting.

(** ** When a tree has no references *)

Lemma active_kids_ex h x :
  0 < active_kids h x -> exists c t, h !! c = Some t /\ active_kid x (c, t).
Proof.
  unfold active_kids. intros Hp.
  destruct (map_choose (filter (active_kid x) h)) as (c & t & Hc).
  { intros E. rewrite E, map_size_empty in Hp. lia. }
  apply map_lookup_filter_Some in Hc as [? ?]. eauto.
Qed.

Lemma rank_bound (h : gmap addr T) (rank : addr -> nat) :
  exists M, forall x t, h !! x = Some t -> (rank x <= M)%nat.
Proof.
  induction h as [|a t h Ha [M IH]] using map_ind; [by exists O|].
  exists (Nat.max M (rank a)). intros x u Hx.
  apply lookup_insert_Some in Hx as [[<- _]|[_ Hx]]; [lia|]. specialize (IH _ _ Hx). lia.
Qed.

Lemma idle_tree_members h ext rank r :
  store_wf h ext rank ->
  (forall tr, h !! r = Some tr -> ref_count (base tr) = 0) ->
  forall x, root_of h x r -> forall t, h !! x = Some t -> ref_count (base t) = 0.
Proof.
  intros W Hz x Hx. induction Hx as [a u Ha Hp|a u p r Ha Hp Hr IH]; intros t Ht; [by apply Hz|].
  assert (t = u) as -> by congruence.
  destruct (wf_parent _ _ _ W _ _ _ Ha Hp) as ([v Hv] & _ & _).
  specialize (IH Hz v Hv). rewrite (wf_count _ _ _ W _ _ Hv) in IH.
  pose proof (wf_ext _ _ _ W p). pose proof (wf_count_nonneg _ _ _ _ _ W Ha).
  destruct (decide (0 < ref_count (base u))); [|lia].
  pose proof (kid_active _ _ _ _ Ha Hp ltac:(eassumption)). lia.
Qed.

Lemma no_external_idle h ext rank r :
  store_wf h ext rank -> (forall x, root_of h x r -> ext x = 0) ->
  forall x t, root_of h x r -> h !! x = Some t -> ref_count (base t) = 0.
Proof.
  intros W Hz. destruct (rank_bound h rank) as [M HM].
  assert (Hind : forall n x t, (M - rank x < n)%nat -> root_of h x r -> h !! x = Some t ->
    ref_count (base t) = 0); [|eauto].
  induction n as [|n IH]; intros x t Hn Hx Ht; [lia|].
  rewrite (wf_count _ _ _ W _ _ Ht), (Hz x Hx). pose proof (active_kids_nonneg h x).
  destruct (decide (0 < active_kids h x)) as [Hk|]; [|lia].
  destruct (active_kids_ex h x Hk) as (c & u & Hc & Hp & Hpos). simpl in Hp, Hpos.
  destruct (wf_parent _ _ _ W _ _ _ Hc Hp) as (_ & Hrk & _).
  pose proof (HM _ _ Hc). exfalso.
  assert (ref_count (base u) = 0); [|lia].
  eapply (IH c); [lia|by eapply RootUp|done].
Qed.

Lemma idle_root_iff h ext rank r tr :
  store_wf h ext rank -> h !! r = Some tr -> parent (base tr) = None ->
  ref_count (base tr) = 0 <-> (forall x, root_of h x r -> ext x = 0).
Proof.
  intros W Hr Hp. split.
  - intros Hz x Hx.
    assert (exists t, h !! x = Some t) as [t Ht] by (inversion Hx; eauto).
    assert (Hc : ref_count (base t) = 0).
    { eapply (idle_tree_members h ext rank r); eauto. intros. congruence. }
    rewrite (wf_count _ _ _ W _ _ Ht) in Hc.
    pose proof (wf_ext _ _ _ W x). pose proof (active_kids_nonneg h x). lia.
  - intros Hz. eapply no_external_idle; eauto. by eapply RootSelf.
Qed.

Lemma counts_from_parent h h' x t t' :
  counts_from h h' -> h !! x = Some t -> h' !! x = Some t' ->
  parent (base t') = parent (base t).
Proof.
  intros C Ht Ht'. destruct (C _ _ Ht') as (u & Hu & ->).
  assert (u = t) as -> by congruence. by rewrite base_set_base.
Qed.

(** ** Objects without a parent *)

Lemma size_pos (h : gmap addr T) a t : h !! a = Some t -> exists n, size h = S n.
Proof.
  intros Ha. destruct (size h) as [|n] eqn:E; [|by exists n].
  apply map_size_empty_inv in E. subst. done.
Qed.

Lemma get_ref_plain debug h a t :
  h !! a = Some t -> is_shared (base t) = true -> parent (base t) = None ->
  0 <= ref_count (base t) -> ref_count (base t) + 1 < 2 ^ 64 ->
  bt_object_get_ref debug h (Some a) =
    Some (<[a := set_base t (set_ref_count (base t) (ref_count (base t) + 1))]> h).
Proof.
  intros Ha Hs Hp Hge Hr. destruct (size_pos h a t Ha) as [n Hn].
  unfold bt_object_get_ref, bt_object_get_ref_no_null_check. rewrite Hn. cbn [get_ref_chain].
  unfold bt_object_get_ref_count, BT_ASSERT_DBG. rewrite Ha, Hs, Hp, !andb_false_r.
  by apply inc_ref_count_ok.
Qed.

Lemma put_ref_plain debug call h a t f :
  h !! a = Some t -> is_shared (base t) = true -> release_func (base t) = Some (ReleaseFunc f) ->
  0 < ref_count (base t) < 2 ^ 64 ->
  bt_object_put_ref debug call h (Some a) =
    Some (<[a := set_base t (set_ref_count (base t) (ref_count (base t) - 1))]> h,
          if ref_count (base t) =? 1 then Some (f, a) else None).
Proof.
  intros Ha Hs Hf Hr. destruct (size_pos h a t Ha) as [n Hn].
  unfold bt_object_put_ref, bt_object_put_ref_no_null_check. rewrite Hn. cbn [put_ref_chain].
  unfold bt_object_get_ref_count, BT_ASSERT_DBG, store_base.
  assert (Hlt : (0 <? ref_count (base t)) = true) by lia.
  rewrite Ha, Hs, !andb_false_r. cbn [negb]. rewrite Hlt, !andb_false_r, wrapu_small by lia.
  cbv zeta. rewrite Hf, bool_decide_eq_true_2, andb_false_r by (by eexists).
  destruct (Z.eqb_spec (ref_count (base t) - 1) 0), (Z.eqb_spec (ref_count (base t)) 1); lia || done.
Qed.

(** A child that has a reference takes one of its new parent. *)
Lemma set_parent_plain debug call h c t p tp :
  h !! c = Some t -> is_shared (base t) = true -> parent (base t) = None ->
  h !! p = Some tp -> p <> c -> is_shared (base tp) = true -> parent (base tp) = None ->
  0 <= ref_count (base tp) -> ref_count (base tp) + 1 < 2 ^ 64 ->
  bt_object_set_parent debug call h c (Some p) =
    Some (<[p := set_base tp (set_ref_count (base tp) (ref_count (base tp) + 1))]>
           (<[c := set_base t (set_parent (base t) (Some p))]> h)).
Proof.
  intros Hc Hs Hn Hp Hne Hsp Hnp Hge Hr. unfold bt_object_set_parent, BT_ASSERT_DBG, store_base.
  rewrite Hc, Hs, bool_decide_eq_true_2, !andb_false_r by done.
  assert (Hp' : <[c := set_base t (set_parent (base t) (Some p))]> h !! p = Some tp) by by rewrite lookup_insert_ne.
  pose proof (get_ref_plain debug _ p tp Hp' Hsp Hnp Hge Hr) as Hget. unfold bt_object_get_ref in Hget.
  rewrite Hp' in Hget. unfold BT_ASSERT_DBG in Hget. by rewrite Hsp, andb_false_r in Hget.
Qed.

(** A reference that is not the last one. *)
Lemma put_ref_shared debug call h a t :
  h !! a = Some t -> is_shared (base t) = true -> 1 < ref_count (base t) < 2 ^ 64 ->
  bt_object_put_ref debug call h (Some a) =
    Some (<[a := set_base t (set_ref_count (base t) (ref_count (base t) - 1))]> h, None).
Proof.
  intros Ha Hs Hr. destruct (size_pos h a t Ha) as [n Hn].
  unfold bt_object_put_ref, bt_object_put_ref_no_null_check. rewrite Hn. cbn [put_ref_chain].
  unfold bt_object_get_ref_count, BT_ASSERT_DBG, store_base.
  assert (Hlt : (0 <? ref_count (base t)) = true) by lia.
  rewrite Ha, Hs, !andb_false_r. cbn [negb]. rewrite Hlt, !andb_false_r, wrapu_small by lia.
  cbv zeta. by rewrite (proj2 (Z.eqb_neq (ref_count (base t) - 1) 0)) by lia.
Qed.

(** The last reference of a child, whose listener does nothing, goes with one of its
    parent. *)
Lemma put_ref_child debug call h c t p tp f l :
  h !! c = Some t -> is_shared (base t) = true -> release_func (base t) = Some ReleaseWithParent ->
  ref_count (base t) = 1 -> parent (base t) = Some p -> parent_is_owner_listener_func (base t) = Some l ->
  (let h1 := <[c := set_base t (set_ref_count (base t) 0)]> h in call l c h1 = Some h1) ->
  h !! p = Some tp -> p <> c -> is_shared (base tp) = true -> release_func (base tp) = Some (ReleaseFunc f) ->
  0 < ref_count (base tp) < 2 ^ 64 ->
  bt_object_put_ref debug call h (Some c) =
    Some (<[p := set_base tp (set_ref_count (base tp) (ref_count (base tp) - 1))]>
           (<[c := set_base t (set_ref_count (base t) 0)]> h),
          if ref_count (base tp) =? 1 then Some (f, p) else None).
Proof.
  intros Hc Hs Hrel H1 Hp Hl Hcall Htp Hne Hsp Hf Hr. cbv zeta in Hcall.
  destruct (size_pos (delete c h) p tp) as [n Hn]; [by rewrite lookup_delete_ne|].
  assert (Hsz : size h = S (S n)) by (rewrite <- (insert_delete_id h c t Hc), map_size_insert_None, Hn; [done|apply lookup_delete_eq]).
  unfold bt_object_put_ref, bt_object_put_ref_no_null_check. rewrite Hsz. cbn [put_ref_chain].
  unfold bt_object_with_parent_release_func, bt_object_get_ref_count, BT_ASSERT_DBG, store_base.
  rewrite Hc, Hs, H1, !andb_false_r. change (0 <? 1) with true. change (wrapu 64 (1 - 1)) with 0. cbn [negb Z.eqb].
  rewrite Hrel, bool_decide_eq_true_2, andb_false_r by (by eexists).
  rewrite lookup_insert_eq, base_set_base. cbn [parent parent_is_owner_listener_func set_ref_count].
  rewrite Hp, Hl, Hcall, lookup_insert_ne, Htp by done. assert (Hlt : (0 <? ref_count (base tp)) = true) by lia.
  rewrite Hsp, Hlt, !andb_false_r, wrapu_small by lia.
  rewrite Hf, bool_decide_eq_true_2, andb_false_r by (by eexists).
  destruct (Z.eqb_spec (ref_count (base tp) - 1) 0), (Z.eqb_spec (ref_count (base tp)) 1); lia || done.
Qed.

(** ** Giving a parent *)

Lemma get_ref_chain_frame debug h ext rank c t0 : store_wf h ext rank ->
  forall fuel h1 p h', counts_from h h1 -> (rank p < rank c)%nat ->
  get_ref_chain debug fuel h1 p = Some h' ->
  get_ref_chain debug fuel (<[c := t0]> h1) p = Some (<[c := t0]> h').
Proof.
  intros W. induction fuel as [|fuel IH]; intros h1 p h' C Hrk; [done|]. cbn [get_ref_chain].
  assert (Hne : c <> p) by (intros ->; lia).
  unfold bt_object_get_ref_count, bt_object_inc_ref_count, store_base, BT_ASSERT_DBG.
  rewrite !lookup_insert_ne by done. destruct (h1 !! p) as [tp|] eqn:Hp; [|done].
  destruct (C _ _ Hp) as (tp0 & Hp0 & E).
  assert (Hinc : forall h2,
    (do t <- h2 !! p;
     if debug && negb (is_shared (base t)) then None
     else if debug && negb (negb (wrapu 64 (ref_count (base t) + 1) =? 0)) then None
     else Some (<[p := set_base t (set_ref_count (base t) (wrapu 64 (ref_count (base t) + 1)))]> h2))
      = Some h' ->
    (do t <- <[c := t0]> h2 !! p;
     if debug && negb (is_shared (base t)) then None
     else if debug && negb (negb (wrapu 64 (ref_count (base t) + 1) =? 0)) then None
     else Some (<[p := set_base t (set_ref_count (base t) (wrapu 64 (ref_count (base t) + 1)))]>
                  (<[c := t0]> h2))) = Some (<[c := t0]> h')).
  { intros h2. rewrite lookup_insert_ne by done. destruct (h2 !! p); [|done].
    do 2 (destruct (_ && _); [done|]). intros [= <-]. by rewrite insert_insert_ne. }
  destruct (debug && _); [done|].
  destruct (parent (base tp)) as [q|] eqn:Hq; [|apply Hinc].
  destruct (ref_count (base tp) =? 0); [|apply Hinc].
  destruct (get_ref_chain debug fuel h1 q) as [h2|] eqn:Hr; [|done].
  rewrite (IH h1 q h2 C); [apply Hinc| |done].
  rewrite E, base_set_base in Hq. destruct (wf_parent _ _ _ W _ _ _ Hp0 Hq) as (_ & ? & _). lia.
Qed.

Lemma wf_set_parent h ext rank c t p :
  store_wf h ext rank -> h !! c = Some t -> parent (base t) = None -> 0 < ref_count (base t) ->
  release_func (base t) = Some ReleaseWithParent -> (rank p < rank c)%nat -> p ∈ dom h ->
  (forall x, 0 <= add_ext ext p (-1) x) ->
  store_wf (<[c := set_base t (set_parent (base t) (Some p))]> h) (add_ext ext p (-1)) rank.
Proof.
  intros W Hc Hnp Hpos Hrel Hrk Hp Hext. set (t' := set_base t _).
  assert (Hb : base t' = set_parent (base t) (Some p)) by apply base_set_base.
  assert (Hk : forall x, active_kids (<[c := t']> h) x =
                         active_kids h x + (if decide (x = p) then 1 else 0)).
  { intros x. rewrite (active_kids_insert _ _ _ _ _ Hc), !kid_ind_parent, Hb. simpl.
    rewrite Hnp, (decide_False (P := None = Some x)) by done.
    repeat case_decide; simplify_eq; lia. }
  split; try done.
  - intros x u Hx. rewrite Hk. unfold add_ext.
    apply lookup_insert_Some in Hx as [[<- <-]|[? Hx]].
    + rewrite Hb. simpl. pose proof (wf_count _ _ _ W _ _ Hc). case_decide; lia.
    + pose proof (wf_count _ _ _ W _ _ Hx). case_decide; lia.
  - intros x u Hx. apply lookup_insert_Some in Hx as [[<- <-]|[? Hx]];
      [rewrite Hb; simpl|]; by eapply wf_shared.
  - intros x u Hx. apply lookup_insert_Some in Hx as [[<- <-]|[? Hx]];
      [rewrite Hb; simpl|]; by eapply wf_bound.
  - intros x u q Hx Hq. rewrite lookup_insert_is_Some'.
    apply lookup_insert_Some in Hx as [[<- <-]|[? Hx]].
    + rewrite Hb in *. simpl in *. injection Hq as <-.
      split; [right; by apply elem_of_dom|done].
    + destruct (wf_parent _ _ _ W _ _ _ Hx Hq) as (? & ? & ?). auto.
  - intros x u Hx. apply lookup_insert_Some in Hx as [[<- <-]|[? Hx]];
      [rewrite Hb; simpl|]; by apply (wf_release _ _ _ W _ _ ltac:(eassumption)).
Qed.

End ownership.

(** * Claims *)

(** C26: Reference counting of trees of objects is exact.  In a well-formed store,
    where each count is the number of references held from outside plus the number
    of children that have a reference: taking a reference of an object always
    succeeds and accounts for one more outside reference, through as many parents
    as needed; putting an outside reference always succeeds, accounts for one
    less, changes nothing but counts (an object may only go through its own
    listener, without references), and calls the release function of the root of
    the object's tree, last and once, exactly when no object of the tree is
    referred to from outside any more.  So no object of a tree is released while
    one is in use, and the tree is released as soon as none is. *)
Theorem object_references_exact {T} `{ObjectBaseLaws T} debug call (h : gmap addr T) ext rank a t r tr :
  listeners_ok call h -> store_wf h ext rank -> h !! a = Some t ->
  root_of h a r -> h !! r = Some tr ->
  (room h ->
   exists h', bt_object_get_ref debug h (Some a) = Some h' /\
     store_wf h' (add_ext ext a 1) rank /\ counts_from h h' /\ dom h' = dom h) /\
  (0 < ext a ->
   exists h' rel, bt_object_put_ref debug call h (Some a) = Some (h', rel) /\
     store_wf h' (add_ext ext a (-1)) rank /\ counts_from h h' /\
     (forall x u, h !! x = Some u -> h' !! x = None ->
      parent_is_owner_listener_func (base u) <> None /\ add_ext ext a (-1) x = 0) /\
     (rel = None \/ rel = option_map (fun f => (f, r)) (root_release (base tr))) /\
     (is_Some rel <-> forall x, root_of h' x r -> add_ext ext a (-1) x = 0)).
Proof.
  intros L W Ha Hr Htr. pose proof (wf_shared _ _ _ W _ _ Ha) as Hs.
  split.
  - intros R. destruct (get_ref_chain_ok debug (size h) h ext rank a t W R Ha)
      as (h' & Hg & W' & C & D & _); [apply below_size|].
    exists h'. split; [|done]. simpl. unfold BT_ASSERT_DBG.
    rewrite Ha, Hs, andb_false_r. exact Hg.
  - intros He. pose proof (wf_count _ _ _ W _ _ Ha). pose proof (active_kids_nonneg h a).
    destruct (put_ref_chain_ok debug call (size h) h ext rank a t L W Ha He)
      as (h' & rel & Hp & P); [apply below_size|].
    exists h', rel. split.
    { simpl. unfold bt_object_get_ref_count, BT_ASSERT_DBG.
      rewrite Ha, Hs, andb_false_r, (proj2 (Z.ltb_lt 0 _)), andb_false_r by lia. exact Hp. }
    split; [apply P|]. split; [apply P|]. split; [apply P|].
    destruct (pp_release _ _ _ _ _ _ P r tr Hr Htr) as (tr' & Htr' & ->).
    destruct (root_of_rank _ _ _ _ _ W Hr) as (u & Hu & Hup & _).
    assert (u = tr) as -> by congruence.
    assert (Hpt : parent (base tr') = None).
    { rewrite (counts_from_parent _ _ _ _ _ (pp_counts _ _ _ _ _ _ P) Htr Htr'). done. }
    rewrite <- (idle_root_iff _ _ _ _ _ (pp_wf _ _ _ _ _ _ P) Htr' Hpt).
    assert (is_Some (root_release (base tr))) as [f Hf].
    { pose proof (wf_release _ _ _ W _ _ Htr) as Hrel. unfold root_release.
      destruct (release_func (base tr)) as [[|?]|]; [done|by eexists|done]. }
    rewrite Hf. simpl. destruct (Z.eqb_spec (ref_count (base tr')) 0); split; auto.
    + split; [done|by eexists].
    + split; [by intros [? ?]|done].
Qed.

(** Giving a parent to an object that has references keeps the counts exact:
    the object now holds one reference of its parent, no reference held from
    outside is gained or lost, and nothing else of the store changes but the
    counts of the parents. *)
Theorem object_set_parent_exact {T} `{ObjectBaseLaws T} debug call (h : gmap addr T) ext rank c t p tp :
  store_wf h ext rank -> room h -> h !! c = Some t -> h !! p = Some tp ->
  parent (base t) = None -> 0 < ref_count (base t) ->
  release_func (base t) = Some ReleaseWithParent -> (rank p < rank c)%nat ->
  let h0 := <[c := set_base t (set_parent (base t) (Some p))]> h in
  exists h', bt_object_set_parent debug call h c (Some p) = Some h' /\
    store_wf h' ext rank /\ counts_from h0 h' /\ dom h' = dom h.
Proof.
  intros W R Hc Hp Hnp Hpos Hrel Hrk h0.
  destruct (get_ref_chain_ok debug (size h) h ext rank p tp W R Hp (below_size _ _ _))
    as (h1 & Hg & W1 & C1 & D1 & F1).
  assert (Hc1 : h1 !! c = Some t) by (by rewrite F1).
  exists (<[c := set_base t (set_parent (base t) (Some p))]> h1).
  split; [|split; [|split]].
  - unfold bt_object_set_parent, BT_ASSERT_DBG.
    rewrite Hc, (wf_shared _ _ _ W _ _ Hc), bool_decide_eq_true_2, !andb_false_r by done.
    unfold bt_object_get_ref_no_null_check, store_base.
    rewrite map_size_insert_Some by (by eexists).
    by apply (get_ref_chain_frame debug h ext rank c _ W); [apply counts_from_refl| |].
  - eapply store_wf_ext; [|eapply wf_set_parent; eauto].
    + intros x. unfold add_ext. case_decide; lia.
    + rewrite D1. by eapply elem_of_dom_2.
    + intros x. unfold add_ext. pose proof (wf_ext _ _ _ W x). repeat case_decide; lia.
  - intros x u Hx. unfold h0. apply lookup_insert_Some in Hx as [[<- <-]|[Hne Hx]].
    + eexists. split; [apply lookup_insert_eq|]. autorewrite with bt_obj.
      destruct (base t); done.
    + destruct (C1 _ _ Hx) as (v & Hv & E). exists v. by rewrite lookup_insert_ne.
  - rewrite dom_insert_lookup_L; [done|by eexists].
Qed.

(** * Witnesses *)

#[export] Instance bt_object_base : ObjectBase bt_object := { base t := t; set_base _ b := b }.
#[export] Instance bt_object_base_laws : ObjectBaseLaws bt_object.
Proof. split; done. Qed.

(** A graph (1) with one outside reference, a component (2) of it with one outside
    reference and a port (3) of the component without any. *)
Definition ex_object (c : Z) (p : option addr) : bt_object :=
  BtObject true c (Some ReleaseWithParent) (Some 7%positive) None p.
Definition ex_store : gmap addr bt_object :=
  <[1%positive := ex_object 2 None]> (<[2%positive := ex_object 1 (Some 1%positive)]>
    (<[3%positive := ex_object 0 (Some 2%positive)]> ∅)).
Definition ex_ext (a : addr) : Z := if decide (a = 1%positive \/ a = 2%positive) then 1 else 0.
Definition ex_call (f : func) (a : addr) (h : gmap addr bt_object)
    : option (gmap addr bt_object) := Some h.

Lemma ex_store_lookup a t :
  ex_store !! a = Some t <->
  (a = 1%positive /\ t = ex_object 2 None) \/ (a = 2%positive /\ t = ex_object 1 (Some 1%positive)) \/
  (a = 3%positive /\ t = ex_object 0 (Some 2%positive)).
Proof.
  unfold ex_store. rewrite !lookup_insert_Some, lookup_empty.
  split; [intros [[<- <-]|[_ [[<- <-]|[_ [[<- <-]|[_ ?]]]]]]; auto; done|].
  intros [[-> ->]|[[-> ->]|[-> ->]]]; auto 10.
Qed.

Lemma ex_store_wf : store_wf ex_store ex_ext Pos.to_nat.
Proof.
  split.
  - intros a t Ha. apply ex_store_lookup in Ha as [[-> ->]|[[-> ->]|[-> ->]]]; vm_compute; done.
  - intros a. unfold ex_ext. case_decide; lia.
  - intros a t Ha. apply ex_store_lookup in Ha as [[-> ->]|[[-> ->]|[-> ->]]]; done.
  - intros a t Ha. apply ex_store_lookup in Ha as [[-> ->]|[[-> ->]|[-> ->]]]; simpl; lia.
  - intros a t p Ha. apply ex_store_lookup in Ha as [[-> ->]|[[-> ->]|[-> ->]]]; simpl;
      intros [= <-]; (split; [vm_compute; by eexists|split; [lia|done]]).
  - intros a t Ha. apply ex_store_lookup in Ha as [[-> ->]|[[-> ->]|[-> ->]]]; simpl; eauto.
Qed.

Lemma ex_listeners_ok : listeners_ok ex_call ex_store.
Proof. intros h a t f _ _ _ _. exists h. auto. Qed.

Lemma ex_root a : a = 1%positive \/ a = 2%positive \/ a = 3%positive -> root_of ex_store a 1%positive.
Proof.
  assert (root_of ex_store 1%positive 1%positive) by (by eapply RootSelf).
  assert (root_of ex_store 2%positive 1%positive) by (by eapply RootUp).
  intros [-> |[-> | ->]]; [done|done|]. by eapply RootUp.
Qed.

(** Putting the graph's reference does not release the tree: the component is still
    in use. *)
Lemma object_references_exact_witness :
  listeners_ok ex_call ex_store /\ store_wf ex_store ex_ext Pos.to_nat /\
  exists h' rel, bt_object_put_ref true ex_call ex_store (Some 1%positive) = Some (h', rel) /\
    rel = None /\ store_wf h' (add_ext ex_ext 1%positive (-1)) Pos.to_nat.
Proof.
  split; [apply ex_listeners_ok|]. split; [apply ex_store_wf|].
  destruct (object_references_exact true ex_call ex_store ex_ext Pos.to_nat 1%positive
    (ex_object 2 None) 1%positive (ex_object 2 None) ex_listeners_ok ex_store_wf eq_refl
    (ex_root 1%positive (or_introl eq_refl)) eq_refl) as [_ [h' [rel (Hp & W & _)]]];
    [by vm_compute|].
  exists h', rel. split; [exact Hp|]. split; [|exact W].
  vm_compute in Hp. by injection Hp.
Defined.

Definition ex_orphans : gmap addr bt_object :=
  <[1%positive := ex_object 1 None]> (<[2%positive := ex_object 1 None]> ∅).

Lemma ex_orphans_lookup a t :
  ex_orphans !! a = Some t <->
  (a = 1%positive /\ t = ex_object 1 None) \/ (a = 2%positive /\ t = ex_object 1 None).
Proof.
  unfold ex_orphans. rewrite !lookup_insert_Some, lookup_empty.
  split; [intros [[<- <-]|[_ [[<- <-]|[_ ?]]]]; auto; done|]. intros [[-> ->]|[-> ->]]; auto.
Qed.

Lemma ex_orphans_wf : store_wf ex_orphans ex_ext Pos.to_nat.
Proof.
  split; try (intros a t Ha; apply ex_orphans_lookup in Ha as [[-> ->]|[-> ->]]);
    try (by vm_compute); try (by eexists).
  - intros a. unfold ex_ext. case_decide; lia.
  - intros a t p Ha. apply ex_orphans_lookup in Ha as [[-> ->]|[-> ->]]; done.
Qed.

Lemma object_set_parent_exact_witness :
  store_wf ex_orphans ex_ext Pos.to_nat /\
  exists h', bt_object_set_parent true ex_call ex_orphans 2%positive (Some 1%positive) = Some h' /\
    store_wf h' ex_ext Pos.to_nat.
Proof.
  split; [apply ex_orphans_wf|].
  destruct (object_set_parent_exact true ex_call ex_orphans ex_ext Pos.to_nat 2%positive
    (ex_object 1 None) 1%positive (ex_object 1 None)) as (h' & Hs & W & _);
    [apply ex_orphans_wf| |done|done|done|done|done|simpl; lia|].
  - intros a t Ha. apply ex_orphans_lookup in Ha as [[-> ->]|[-> ->]]; simpl; lia.
  - exists h'. split; [exact Hs|exact W].
Defined.
