(* ===== verification/Value.v ===== *)
(** Value objects: [src/src/lib/value.c], [value.h].

    A store maps the address of a value to it; the base of a value is a
    [bt_object], whose references [Object] counts.  [malloc] gives the address of
    a new value; [hash_order] gives the entries of a hash table in the order in
    which GLib iterates on them, and the quark of a string is the string.  No error
    is pending in the current thread and allocations succeed.  [None] is a failed
    precondition or assertion, or an access to a value that is not there or has
    another type; [dev] is a developer-mode build. *)

From Stdlib Require Import SpecFloat.
From stdpp Require Import list gmap.
From S2P Require Import Prelude Object.

Definition destroy_value_func : func := 1%positive.
Definition null_release_func : func := 2%positive.

(** The type of a value and its members; an integer has the 64 bits of its union. *)
Inductive value_contents :=
| NullValue
| BoolValue (value : Z)
| IntegerValue (is_signed : bool) (bits : Z)
| RealValue (value : spec_float)
| StringValue (gstr : list Z)
| ArrayValue (garray : list addr)
| MapValue (ght : gmap (list Z) addr).

Record bt_value := BtValue {
  v_base : bt_object;
  v_frozen : bool;
  contents : value_contents
}.
#[export] Instance value_base : ObjectBase bt_value := {|
  base := v_base;
  set_base := fun v b => BtValue b (v_frozen v) (contents v)
|}.
#[export] Instance value_base_laws : ObjectBaseLaws bt_value.
Proof. split; by intros []. Qed.

Abbreviation values := (gmap addr bt_value).

Definition set_contents (v : bt_value) (c : value_contents) : bt_value :=
  BtValue (v_base v) (v_frozen v) c.

Definition bt_value_null : addr := 1%positive.
Definition bt_value_null_instance : bt_value :=
  BtValue (BtObject true 1 (Some (ReleaseFunc null_release_func)) None None None) true NullValue.

(** The type of a value; [IntegerType] is what the two types of integers share. *)
Inductive bt_value_type :=
| NullType | BoolType | IntegerType | UnsignedIntegerType | SignedIntegerType
| RealType | StringType | ArrayType | MapType.
#[export] Instance bt_value_type_eq_dec : EqDecision bt_value_type.
Proof. solve_decision. Defined.

Definition bt_value_get_type (h : values) (object : addr) : option bt_value_type :=
  do v <- h !! object;
  Some match contents v with
       | NullValue => NullType
       | BoolValue _ => BoolType
       | IntegerValue true _ => SignedIntegerType
       | IntegerValue false _ => UnsignedIntegerType
       | RealValue _ => RealType
       | StringValue _ => StringType
       | ArrayValue _ => ArrayType
       | MapValue _ => MapType
       end.

(** The status of a function that iterates on a map. *)
Inductive func_status := FuncOk | FuncInterrupted | FuncError | FuncUserError | FuncMemoryError.

Section ops.
Context (dev debug : bool) (malloc : values -> addr).
Context (hash_order : gmap (list Z) addr -> list (list Z * addr)).

(** * References and destruction *)

Definition bt_value_get_ref (h : values) (value : addr) : option values :=
  bt_object_get_ref debug h (Some value).

(** A loop on values. *)
Fixpoint for_all (f : values -> addr -> option values) (l : list addr) (h : values) : option values :=
  match l with
  | [] => Some h
  | a :: l => do h <- f h a; for_all f l h
  end.

(** GLib empties the container before it puts what it contained. *)
Definition bt_value_destroy (put : values -> addr -> option values) (obj : addr) (h : values)
    : option values :=
  do v <- h !! obj;
  let empty c l := for_all put l (<[obj := set_contents v c]> h) in
  match contents v with
  | NullValue => Some h
  | ArrayValue garray => do h <- empty (ArrayValue []) garray; Some (delete obj h)
  | MapValue ght => do h <- empty (MapValue ∅) (map snd (hash_order ght)); Some (delete obj h)
  | _ => Some (delete obj h)
  end.

(** What a release function does; [fuel] bounds the depth of the destructions. *)
Fixpoint call_value (fuel : nat) (f : func) (obj : addr) (h : values) : option values :=
  match fuel with
  | O => None
  | S fuel =>
    if bool_decide (f = null_release_func) then Some h
    else
      guard_ub bool_decide (f = destroy_value_func);
      bt_value_destroy
        (fun h a => do r <- bt_object_put_ref debug (call_value fuel) h (Some a); run (call_value fuel) r)
        obj h
  end.

(** A destruction is nested in one of another value of the store. *)
Definition bt_value_put_ref (h : values) (value : addr) : option values :=
  let call := call_value (S (size h)) in
  do r <- bt_object_put_ref debug call h (Some value);
  run call r.

(** * Creation *)

Definition bt_value_create_base (c : value_contents) : bt_value :=
  BtValue (bt_object_init_shared (ReleaseFunc destroy_value_func)) false c.

Definition create_value (h : values) (c : value_contents) : addr * values :=
  let obj := malloc h in (obj, <[obj := bt_value_create_base c]> h).

Definition bt_value_bool_create_init (h : values) (val : Z) : addr * values :=
  create_value h (BoolValue val).
Definition bt_value_bool_create (h : values) : addr * values := bt_value_bool_create_init h 0.

Definition bt_value_integer_create_init (h : values) (is_signed : bool) (uval : Z) : addr * values :=
  create_value h (IntegerValue is_signed uval).
Definition bt_value_integer_unsigned_create_init (h : values) (val : Z) : addr * values :=
  bt_value_integer_create_init h false val.
Definition bt_value_integer_unsigned_create (h : values) : addr * values :=
  bt_value_integer_unsigned_create_init h 0.
Definition bt_value_integer_signed_create_init (h : values) (val : Z) : addr * values :=
  bt_value_integer_create_init h true (wrapu 64 val).
Definition bt_value_integer_signed_create (h : values) : addr * values :=
  bt_value_integer_signed_create_init h 0.

Definition bt_value_real_create_init (h : values) (val : spec_float) : addr * values :=
  create_value h (RealValue val).
Definition bt_value_real_create (h : values) : addr * values :=
  bt_value_real_create_init h (S754_zero false).

Definition bt_value_string_create_init (h : values) (val : list Z) : addr * values :=
  create_value h (StringValue val).
Definition bt_value_string_create (h : values) : addr * values := bt_value_string_create_init h [].

Definition bt_value_array_create (h : values) : addr * values := create_value h (ArrayValue []).
Definition bt_value_map_create (h : values) : addr * values := create_value h (MapValue ∅).

(** * Scalars *)

Definition BT_ASSERT_PRE_DEV_VALUE_HOT {A} (v : bt_value) (k : option A) : option A :=
  BT_ASSERT_PRE_DEV dev (negb (v_frozen v)) k.

Definition bt_value_bool_get (h : values) (bool_obj : addr) : option Z :=
  do v <- h !! bool_obj;
  match contents v with BoolValue value => Some value | _ => None end.
Definition bt_value_bool_set (h : values) (bool_obj : addr) (val : Z) : option values :=
  do v <- h !! bool_obj;
  match contents v with
  | BoolValue _ => Some (<[bool_obj := set_contents v (BoolValue val)]> h)
  | _ => None
  end.

(** The member [u] of the union is an [int64_t] and the member [i] a [uint64_t]. *)
Definition value_u (bits : Z) : Z := wraps 64 bits.
Definition value_i (bits : Z) : Z := wrapu 64 bits.

Definition bt_value_integer_unsigned_get (h : values) (integer_obj : addr) : option Z :=
  do v <- h !! integer_obj;
  match contents v with IntegerValue false bits => Some (wrapu 64 (value_u bits)) | _ => None end.
Definition bt_value_integer_signed_get (h : values) (integer_obj : addr) : option Z :=
  do v <- h !! integer_obj;
  match contents v with IntegerValue true bits => Some (wraps 64 (value_i bits)) | _ => None end.

Definition set_integer_value (h : values) (integer_obj : addr) (v : bt_value) (is_signed : bool) (uval : Z)
    : option values :=
  BT_ASSERT_PRE_DEV_VALUE_HOT v
    (Some (<[integer_obj := set_contents v (IntegerValue is_signed uval)]> h)).
Definition bt_value_integer_unsigned_set (h : values) (integer_obj : addr) (val : Z) : option values :=
  do v <- h !! integer_obj;
  match contents v with
  | IntegerValue false _ => set_integer_value h integer_obj v false val
  | _ => None
  end.
Definition bt_value_integer_signed_set (h : values) (integer_obj : addr) (val : Z) : option values :=
  do v <- h !! integer_obj;
  match contents v with
  | IntegerValue true _ => set_integer_value h integer_obj v true (wrapu 64 val)
  | _ => None
  end.

Definition bt_value_real_get (h : values) (real_obj : addr) : option spec_float :=
  do v <- h !! real_obj;
  match contents v with RealValue value => Some value | _ => None end.
Definition bt_value_real_set (h : values) (real_obj : addr) (val : spec_float) : option values :=
  do v <- h !! real_obj;
  match contents v with
  | RealValue _ =>
    BT_ASSERT_PRE_DEV_VALUE_HOT v (Some (<[real_obj := set_contents v (RealValue val)]> h))
  | _ => None
  end.

Definition bt_value_string_get (h : values) (string_obj : addr) : option (list Z) :=
  do v <- h !! string_obj;
  match contents v with StringValue gstr => Some gstr | _ => None end.
Definition bt_value_string_set (h : values) (string_obj : addr) (val : list Z) : option values :=
  do v <- h !! string_obj;
  match contents v with
  | StringValue _ =>
    BT_ASSERT_PRE_DEV_VALUE_HOT v (Some (<[string_obj := set_contents v (StringValue val)]> h))
  | _ => None
  end.

(** * Arrays *)

Definition bt_value_array_get_length (h : values) (array_obj : addr) : option Z :=
  do v <- h !! array_obj;
  match contents v with ArrayValue garray => Some (Z.of_nat (length garray)) | _ => None end.

Definition bt_value_array_borrow_element_by_index (h : values) (array_obj : addr) (index : Z)
    : option addr :=
  do v <- h !! array_obj;
  match contents v with
  | ArrayValue garray =>
    BT_ASSERT_PRE_DEV dev (index <? Z.of_nat (length garray))
      (guard_ub (0 <=? index); garray !! Z.to_nat index)
  | _ => None
  end.

Definition append_array_element (h : values) (array_obj element_obj : addr) : option values :=
  do v <- h !! array_obj;
  match contents v with
  | ArrayValue garray =>
    BT_ASSERT_PRE_DEV_VALUE_HOT v
      (let h := <[array_obj := set_contents v (ArrayValue (garray ++ [element_obj]))]> h in
       bt_object_get_ref debug h (Some element_obj))
  | _ => None
  end.
Definition bt_value_array_append_element (h : values) (array_obj element_obj : addr) : option values :=
  append_array_element h array_obj element_obj.

(** Appends a value that was just created, and puts its reference. *)
Definition append_created (array_obj : addr) (created : addr * values) : option values :=
  let '(obj, h) := created in
  do h <- append_array_element h array_obj obj;
  bt_value_put_ref h obj.

Definition bt_value_array_append_bool_element (h : values) (array_obj : addr) (val : Z) : option values :=
  append_created array_obj (bt_value_bool_create_init h val).
Definition bt_value_array_append_unsigned_integer_element (h : values) (array_obj : addr) (val : Z)
    : option values :=
  append_created array_obj (bt_value_integer_unsigned_create_init h val).
Definition bt_value_array_append_signed_integer_element (h : values) (array_obj : addr) (val : Z)
    : option values :=
  append_created array_obj (bt_value_integer_signed_create_init h val).
Definition bt_value_array_append_real_element (h : values) (array_obj : addr) (val : spec_float)
    : option values :=
  append_created array_obj (bt_value_real_create_init h val).
Definition bt_value_array_append_string_element (h : values) (array_obj : addr) (val : list Z)
    : option values :=
  append_created array_obj (bt_value_string_create_init h val).
Definition bt_value_array_append_empty_array_element (h : values) (array_obj : addr)
    : option (values * addr) :=
  let created := bt_value_array_create h in
  do h <- append_created array_obj created; Some (h, fst created).
Definition bt_value_array_append_empty_map_element (h : values) (array_obj : addr)
    : option (values * addr) :=
  let created := bt_value_map_create h in
  do h <- append_created array_obj created; Some (h, fst created).

(** The old element's reference is put first. *)
Definition bt_value_array_set_element_by_index (h : values) (array_obj : addr) (index : Z)
    (element_obj : addr) : option values :=
  do v <- h !! array_obj;
  match contents v with
  | ArrayValue garray =>
    BT_ASSERT_PRE_DEV_VALUE_HOT v
      (BT_ASSERT_PRE (index <? Z.of_nat (length garray))
        (guard_ub (0 <=? index);
         do old <- garray !! Z.to_nat index;
         do h <- bt_value_put_ref h old;
         do v <- h !! array_obj;
         match contents v with
         | ArrayValue garray =>
           let h := <[array_obj := set_contents v (ArrayValue (<[Z.to_nat index := element_obj]> garray))]> h in
           bt_object_get_ref debug h (Some element_obj)
         | _ => None
         end))
  | _ => None
  end.

(** * Maps *)

Definition bt_value_map_get_size (h : values) (map_obj : addr) : option Z :=
  do v <- h !! map_obj;
  match contents v with MapValue ght => Some (Z.of_nat (size ght)) | _ => None end.

Definition bt_value_map_borrow_entry_value (h : values) (map_obj : addr) (key : list Z)
    : option (option addr) :=
  do v <- h !! map_obj;
  match contents v with MapValue ght => Some (ght !! key) | _ => None end.

Definition bt_value_map_has_entry (h : values) (map_obj : addr) (key : list Z) : option bool :=
  do v <- h !! map_obj;
  match contents v with MapValue ght => Some (bool_decide (is_Some (ght !! key))) | _ => None end.

(** GLib replaces the value of a key that is there, then puts the old value. *)
Definition insert_map_value_entry (h : values) (map_obj : addr) (key : list Z) (element_obj : addr)
    : option values :=
  do v <- h !! map_obj;
  match contents v with
  | MapValue ght =>
    BT_ASSERT_PRE_DEV_VALUE_HOT v
      (let h := <[map_obj := set_contents v (MapValue (<[key := element_obj]> ght))]> h in
       do h <- match ght !! key with Some old => bt_value_put_ref h old | None => Some h end;
       bt_object_get_ref debug h (Some element_obj))
  | _ => None
  end.
Definition bt_value_map_insert_entry (h : values) (map_obj : addr) (key : list Z) (element_obj : addr)
    : option values :=
  insert_map_value_entry h map_obj key element_obj.

(** Inserts a value that was just created, and puts its reference. *)
Definition insert_created (map_obj : addr) (key : list Z) (created : addr * values) : option values :=
  let '(obj, h) := created in
  do h <- insert_map_value_entry h map_obj key obj;
  bt_value_put_ref h obj.

Definition bt_value_map_insert_bool_entry (h : values) (map_obj : addr) (key : list Z) (val : Z)
    : option values :=
  insert_created map_obj key (bt_value_bool_create_init h val).
Definition bt_value_map_insert_unsigned_integer_entry (h : values) (map_obj : addr) (key : list Z) (val : Z)
    : option values :=
  insert_created map_obj key (bt_value_integer_unsigned_create_init h val).
Definition bt_value_map_insert_signed_integer_entry (h : values) (map_obj : addr) (key : list Z) (val : Z)
    : option values :=
  insert_created map_obj key (bt_value_integer_signed_create_init h val).
Definition bt_value_map_insert_real_entry (h : values) (map_obj : addr) (key : list Z) (val : spec_float)
    : option values :=
  insert_created map_obj key (bt_value_real_create_init h val).
Definition bt_value_map_insert_string_entry (h : values) (map_obj : addr) (key : list Z) (val : list Z)
    : option values :=
  insert_created map_obj key (bt_value_string_create_init h val).
Definition bt_value_map_insert_empty_array_entry (h : values) (map_obj : addr) (key : list Z)
    : option (values * addr) :=
  let created := bt_value_array_create h in
  do h <- insert_created map_obj key created; Some (h, fst created).
Definition bt_value_map_insert_empty_map_entry (h : values) (map_obj : addr) (key : list Z)
    : option (values * addr) :=
  let created := bt_value_map_create h in
  do h <- insert_created map_obj key created; Some (h, fst created).

(** The loop on the entries; a user's error becomes a "user error".  [D] is what the
    user's function changes. *)
Fixpoint foreach_loop {D} (func : list Z -> addr -> D -> option (func_status * D))
    (entries : list (list Z * addr)) (data : D) : option (func_status * D) :=
  match entries with
  | [] => Some (FuncOk, data)
  | (key, element_obj) :: entries =>
    do r <- func key element_obj data;
    match r with
    | (FuncOk, data) => foreach_loop func entries data
    | (FuncError, data) => Some (FuncUserError, data)
    | r => Some r
    end
  end.

Definition foreach_map_entry {D} (func : list Z -> addr -> D -> option (func_status * D))
    (h : values) (map_obj : addr) (data : D) : option (func_status * D) :=
  do v <- h !! map_obj;
  match contents v with
  | MapValue ght => foreach_loop func (hash_order ght) data
  | _ => None
  end.
Definition bt_value_map_foreach_entry_const {D} (func : list Z -> addr -> D -> option (func_status * D))
    (h : values) (map_obj : addr) (data : D) : option (func_status * D) :=
  foreach_map_entry func h map_obj data.

(** * Copy *)

(** The elements of an array; [copy] is [bt_value_copy] on them. *)
Fixpoint copy_elements (copy : values -> addr -> option (addr * values)) (copy_obj : addr)
    (elements : list addr) (h : values) : option values :=
  match elements with
  | [] => Some h
  | element_obj :: elements =>
    do r <- copy h element_obj;
    let '(element_obj_copy, h) := r in
    do h <- bt_value_array_append_element h copy_obj element_obj_copy;
    do h <- bt_value_put_ref h element_obj_copy;
    copy_elements copy copy_obj elements h
  end.

Definition bt_value_array_copy (copy : values -> addr -> option (addr * values)) (garray : list addr)
    (h : values) : option (addr * values) :=
  let '(copy_obj, h) := bt_value_array_create h in
  do h <- copy_elements copy copy_obj garray h;
  Some (copy_obj, h).

Fixpoint copy_entries (copy : values -> addr -> option (addr * values)) (copy_obj : addr)
    (entries : list (list Z * addr)) (h : values) : option values :=
  match entries with
  | [] => Some h
  | (key, element_obj) :: entries =>
    do r <- copy h element_obj;
    let '(element_obj_copy, h) := r in
    do h <- bt_value_map_insert_entry h copy_obj key element_obj_copy;
    do h <- bt_value_put_ref h element_obj_copy;
    copy_entries copy copy_obj entries h
  end.

Definition bt_value_map_copy (copy : values -> addr -> option (addr * values)) (ght : gmap (list Z) addr)
    (h : values) : option (addr * values) :=
  let '(copy_obj, h) := bt_value_map_create h in
  do h <- copy_entries copy copy_obj (hash_order ght) h;
  Some (copy_obj, h).

(** The copy's address and the store; [fuel] bounds the depth of the value. *)
Fixpoint bt_value_copy (fuel : nat) (h : values) (object : addr) : option (addr * values) :=
  match fuel with
  | O => None
  | S fuel =>
    do v <- h !! object;
    match contents v with
    | NullValue =>
      guard_ub bool_decide (object = bt_value_null);
      do h <- bt_object_get_ref debug h (Some bt_value_null);
      Some (bt_value_null, h)
    | BoolValue value => Some (bt_value_bool_create_init h value)
    | IntegerValue is_signed bits =>
      Some (bt_value_integer_create_init h is_signed (wrapu 64 (value_u bits)))
    | RealValue value => Some (bt_value_real_create_init h value)
    | StringValue gstr => Some (bt_value_string_create_init h gstr)
    | ArrayValue garray => bt_value_array_copy (bt_value_copy fuel) garray h
    | MapValue ght => bt_value_map_copy (bt_value_copy fuel) ght h
    end
  end.

(** * Extension of a map *)

Definition extend_map_element (fuel : nat) (base_obj : addr) (key : list Z) (extension_obj_elem : addr)
    (h : values) : option (func_status * values) :=
  do r <- bt_value_copy fuel h extension_obj_elem;
  let '(extension_obj_elem_copy, h) := r in
  do h <- bt_value_map_insert_entry h base_obj key extension_obj_elem_copy;
  do h <- bt_value_put_ref h extension_obj_elem_copy;
  Some (FuncOk, h).

Definition bt_value_map_extend (fuel : nat) (h : values) (base_map_obj extension_obj : addr)
    : option (func_status * values) :=
  do b <- h !! base_map_obj;
  BT_ASSERT_PRE_DEV_VALUE_HOT b
    match contents b with
    | MapValue _ =>
      bt_value_map_foreach_entry_const (extend_map_element fuel base_map_obj) h extension_obj h
    | _ => None
    end.

(** * Equality *)

(** The elements of two arrays, in order. *)
Fixpoint elements_equal (eq : addr -> addr -> option bool) (la lb : list addr) : option bool :=
  match la, lb with
  | [], _ => Some true
  | a :: la, b :: lb => do e <- eq a b; if (e : bool) then elements_equal eq la lb else Some false
  | _ :: _, [] => None
  end.

(** The entries of one map; the other may have no value for a key. *)
Fixpoint entries_equal (eq : addr -> addr -> option bool) (entries : list (list Z * addr))
    (ght : gmap (list Z) addr) : option bool :=
  match entries with
  | [] => Some true
  | (key, element_obj_a) :: entries =>
    do element_obj_b <- ght !! key;
    do e <- eq element_obj_a element_obj_b;
    if (e : bool) then entries_equal eq entries ght else Some false
  end.

Definition bt_value_array_is_equal (eq : addr -> addr -> option bool) (la lb : list addr) : option bool :=
  if negb (length la =? length lb)%nat then Some false else elements_equal eq la lb.

Definition bt_value_map_is_equal (eq : addr -> addr -> option bool) (ma mb : gmap (list Z) addr)
    : option bool :=
  if negb (size ma =? size mb)%nat then Some false else entries_equal eq (hash_order ma) mb.

Fixpoint bt_value_is_equal (fuel : nat) (h : values) (object_a object_b : addr) : option bool :=
  match fuel with
  | O => None
  | S fuel =>
    do a <- h !! object_a;
    do b <- h !! object_b;
    match contents a, contents b with
    | NullValue, NullValue => Some true
    | BoolValue x, BoolValue y => Some (x =? y)
    | IntegerValue sa x, IntegerValue sb y =>
      Some (if eqb sa sb then value_u x =? value_u y else false)
    | RealValue x, RealValue y => Some (SFeqb x y)
    | StringValue x, StringValue y => Some (bool_decide (x = y))
    | ArrayValue la, ArrayValue lb => bt_value_array_is_equal (bt_value_is_equal fuel h) la lb
    | MapValue ma, MapValue mb => bt_value_map_is_equal (bt_value_is_equal fuel h) ma mb
    | _, _ => Some false
    end
  end.

(** * Freezing *)

Fixpoint _bt_value_freeze (fuel : nat) (h : values) (object : addr) : option values :=
  match fuel with
  | O => None
  | S fuel =>
    do v <- h !! object;
    let generic_freeze h :=
      do v <- h !! object; Some (<[object := BtValue (v_base v) true (contents v)]> h) in
    if v_frozen v then Some h
    else
      match contents v with
      | NullValue => Some h
      | ArrayValue garray => do h <- for_all (_bt_value_freeze fuel) garray h; generic_freeze h
      | MapValue ght =>
        do h <- for_all (_bt_value_freeze fuel) (map snd (hash_order ght)) h; generic_freeze h
      | _ => generic_freeze h
      end
  end.

(** Only in developer mode. *)
Definition bt_value_freeze (fuel : nat) (h : values) (object : addr) : option values :=
  if dev then _bt_value_freeze fuel h object else Some h.
End ops.
