(* ===== verification/ValueRefs.v ===== *)
(** The references of values: the counts are those of the references from outside
    and of the arrays and maps that contain a value, every operation of [Value]
    keeps them, and putting the last reference of a value destroys what only it
    contains. *)

From stdpp Require Import list gmap.
From S2P Require Import Prelude Object Value.

(** * Counting the references *)

Definition children (v : bt_value) : list addr :=
  match contents v with
  | ArrayValue garray => garray
  | MapValue ght => (map_to_list ght).*2
  | _ => []
  end.

Definition count (x : addr) (l : list addr) : Z := Z.of_nat (length (filter (fun y => y = x) l)).

(** How often a value is in the arrays and maps of the store. *)
Definition contained (h : values) (x : addr) : Z :=
  count x (concat (map (fun kv => children kv.2) (map_to_list h))).

Lemma count_app x l k : count x (l ++ k) = count x l + count x k.
Proof. unfold count. rewrite filter_app, length_app. lia. Qed.
Lemma count_cons x y l : count x (y :: l) = (if decide (y = x) then 1 else 0) + count x l.
Proof. unfold count. rewrite filter_cons. case_decide; simpl length; lia. Qed.
Lemma count_nonneg x l : 0 <= count x l.
Proof. unfold count. lia. Qed.
Lemma count_perm x l k : l ≡ₚ k -> count x l = count x k.
Proof. intros Hp. unfold count. by rewrite Hp. Qed.
#[export] Instance count_proper x : Proper (Permutation ==> eq) (count x).
Proof. intros l k. apply count_perm. Qed.
Lemma count_pos x l : 0 < count x l <-> x ∈ l.
Proof.
  unfold count. induction l as [|y l IH]; [simpl; split; [lia|by intros ?%elem_of_nil]|].
  rewrite filter_cons, elem_of_cons, <- IH. case_decide; simpl length; [split; [by left|lia]|].
  split; [by right|intros [->|?]; done].
Qed.

Lemma contained_new h a v x : h !! a = None -> contained (<[a := v]> h) x = count x (children v) + contained h x.
Proof.
  intros Ha. unfold contained. rewrite <- count_app. apply count_perm.
  rewrite (map_to_list_insert h a v Ha). done.
Qed.
Lemma contained_delete h a v x : h !! a = Some v -> contained (delete a h) x = contained h x - count x (children v).
Proof.
  intros Ha. rewrite <- (insert_delete_id h a v Ha) at 2. rewrite contained_new by apply lookup_delete_eq. lia.
Qed.
Lemma contained_insert h a v v' x :
  h !! a = Some v -> contained (<[a := v']> h) x = contained h x - count x (children v) + count x (children v').
Proof.
  intros Ha. rewrite <- insert_delete_eq, contained_new by apply lookup_delete_eq.
  rewrite (contained_delete h a v) by done. lia.
Qed.
Lemma contained_nonneg h x : 0 <= contained h x.
Proof. apply count_nonneg. Qed.
Lemma contained_child h a v x : h !! a = Some v -> count x (children v) <= contained h x.
Proof. intros Ha. pose proof (contained_delete h a v x Ha). pose proof (contained_nonneg (delete a h) x). lia. Qed.

(** The references from outside, with the library's own to the null value. *)
Definition owned (ext : addr -> Z) (a : addr) : Z :=
  ext a + (if decide (a = bt_value_null) then 1 else 0).

(** The base of a value at an address, but for its count. *)
Definition base_of (a : addr) (o : bt_object) : Prop :=
  o = BtObject true (ref_count o)
        (Some (ReleaseFunc (if decide (a = bt_value_null) then null_release_func else destroy_value_func)))
        None None None.

(** A store with the right counts, for [ext] references from outside. *)
Record refs_ok (h : values) (ext : addr -> Z) : Prop := {
  ro_count a v : h !! a = Some v -> ref_count (v_base v) = owned ext a + contained h a;
  ro_ext a : 0 <= ext a;
  ro_there a : 0 < owned ext a + contained h a -> is_Some (h !! a);
  ro_base a v : h !! a = Some v -> base_of a (v_base v);
  ro_null a v : h !! a = Some v -> (contents v = NullValue <-> a = bt_value_null);
  ro_bound a v : h !! a = Some v -> ref_count (v_base v) < 2 ^ 64
}.

(** [ext] with one reference more for each value of a list. *)
Definition with_refs (ext : addr -> Z) (l : list addr) : addr -> Z := fun x => ext x + count x l.

Lemma refs_ok_ext h ext ext' : (forall x, ext x = ext' x) -> refs_ok h ext -> refs_ok h ext'.
Proof.
  intros He [Hc Hx Ht Hb Hn Hbd]. split; try done.
  - intros a v Ha. unfold owned. rewrite <- He. by apply Hc.
  - intros a. rewrite <- He. apply Hx.
  - intros a. unfold owned. rewrite <- He. apply Ht.
Qed.

Section refs.
Context (debug : bool) (malloc : values -> addr) (hash_order : gmap (list Z) addr -> list (list Z * addr)).
Context (malloc_fresh : forall h, h !! malloc h = None).
Context (hash_order_perm : forall m, hash_order m ≡ₚ map_to_list m).
Abbreviation put_ref := (bt_value_put_ref debug hash_order).

Definition same_value (v v' : bt_value) : Prop :=
  contents v' = contents v /\ v_frozen v' = v_frozen v.

(** What putting references keeps: values only leave the store, lose references, and
    those without a reference are left alone. *)
Record kept (h h' : values) : Prop := {
  kept_value x v' : h' !! x = Some v' ->
    exists v, h !! x = Some v /\ same_value v v' /\ ref_count (v_base v') <= ref_count (v_base v);
  kept_zero x v : h !! x = Some v -> ref_count (v_base v) = 0 -> h' !! x = Some v;
  kept_zero_back x v : h' !! x = Some v -> ref_count (v_base v) = 0 -> h !! x = Some v
}.

Lemma kept_refl h : kept h h.
Proof. split; try done. intros x v Hx. exists v. repeat split; done || lia. Qed.
Lemma kept_values_trans h1 h2 h3 : kept h1 h2 -> kept h2 h3 -> kept h1 h3.
Proof.
  intros [V1 Z1 B1] [V2 Z2 B2]. split; [|by eauto..].
  intros x v Hx. apply V2 in Hx as (v2 & Hx & [Hc2 Hf2] & Hr2). apply V1 in Hx as (v1 & Hx & [Hc1 Hf1] & Hr1).
  exists v1. split; [done|]. split; [split; congruence|lia].
Qed.

(** The values with a reference. *)
Definition referenced (kv : addr * bt_value) : Prop := 0 < ref_count (v_base kv.2).
Definition live (h : values) : nat := size (filter referenced h).

Lemma live_kept h h' : kept h h' -> (live h' <= live h)%nat.
Proof.
  intros Hk. unfold live. rewrite <- !size_dom. apply subseteq_size. intros x Hx.
  apply elem_of_dom in Hx as [v' Hx]. apply map_lookup_filter_Some in Hx as [Hx Hp].
  destruct (kept_value _ _ Hk x v' Hx) as (v & Hv & _ & Hr). apply elem_of_dom. exists v.
  apply map_lookup_filter_Some. split; [done|]. unfold referenced in *. simpl in *. lia.
Qed.

Lemma live_zero h a v o : h !! a = Some v -> 0 < ref_count (v_base v) -> ref_count o = 0 ->
  live h = S (live (<[a := set_base v o]> h)).
Proof.
  intros Ha Hp Hz. unfold live. rewrite map_filter_insert_False by (unfold referenced; simpl; lia).
  rewrite map_filter_delete, map_size_delete_Some; [|eexists; apply map_lookup_filter_Some; by split].
  assert (0 < size (filter referenced h))%nat; [|lia].
  apply Nat.neq_0_lt_0. intros He. apply map_size_empty_inv in He.
  assert (filter referenced h !! a = Some v) as Hl by (by apply map_lookup_filter_Some). by rewrite He in Hl.
Qed.

(** Changing a count, or the contents, of a value. *)
Lemma refs_recount h ext ext' a v d :
  refs_ok h ext -> h !! a = Some v -> (forall x, ext' x = ext x + (if decide (x = a) then d else 0)) ->
  0 <= ext' a -> ref_count (v_base v) + d < 2 ^ 64 ->
  refs_ok (<[a := set_base v (set_ref_count (v_base v) (ref_count (v_base v) + d))]> h) ext'.
Proof.
  intros [Hc Hx Ht Hb Hn Hbd] Ha He Hge Hlt.
  assert (Hcon : forall x, contained (<[a := set_base v (set_ref_count (v_base v) (ref_count (v_base v) + d))]> h) x =
    contained h x) by (intros x; rewrite (contained_insert h a v) by done; change (children (set_base v _)) with (children v); lia).
  split.
  - intros x u. rewrite Hcon. unfold owned. rewrite He. destruct (decide (x = a)) as [-> |Hne].
    + rewrite lookup_insert_eq. intros [= <-]. simpl. rewrite (Hc a v Ha). unfold owned. lia.
    + rewrite lookup_insert_ne by done. intros Hu. rewrite (Hc x u Hu). unfold owned. lia.
  - intros x. destruct (decide (x = a)) as [-> |Hne]; [done|]. rewrite He, decide_False by done. specialize (Hx x). lia.
  - intros x. rewrite Hcon. destruct (decide (x = a)) as [-> |Hne]; [rewrite lookup_insert_eq; by eexists|].
    rewrite lookup_insert_ne by done. unfold owned. rewrite He, (decide_False (P := x = a)) by done. intros Hp. apply Ht. unfold owned. lia.
  - intros x u. destruct (decide (x = a)) as [-> |Hne]; [|rewrite lookup_insert_ne by done; apply Hb].
    rewrite lookup_insert_eq. intros [= <-]. specialize (Hb a v Ha). unfold base_of in *. simpl.
    rewrite Hb at 1. done.
  - intros x u. destruct (decide (x = a)) as [-> |Hne]; [|rewrite lookup_insert_ne by done; apply Hn].
    rewrite lookup_insert_eq. intros [= <-]. apply (Hn a v Ha).
  - intros x u. destruct (decide (x = a)) as [-> |Hne]; [|rewrite lookup_insert_ne by done; apply Hbd].
    rewrite lookup_insert_eq. intros [= <-]. done.
Qed.

Lemma refs_recontent h ext ext' a v c :
  refs_ok h ext -> h !! a = Some v -> contents v <> NullValue -> c <> NullValue -> (forall x, 0 <= ext' x) ->
  (forall x, ext' x + count x (children (set_contents v c)) = ext x + count x (children v)) ->
  refs_ok (<[a := set_contents v c]> h) ext'.
Proof.
  intros [Hc Hx Ht Hb Hn Hbd] Ha Hnn Hnc Hge He.
  assert (Hcon : forall x, owned ext' x + contained (<[a := set_contents v c]> h) x = owned ext x + contained h x).
  { intros x. rewrite (contained_insert h a v) by done. unfold owned. specialize (He x). lia. }
  assert (Hat : forall x u, <[a := set_contents v c]> h !! x = Some u ->
    exists w, h !! x = Some w /\ v_base u = v_base w /\ (contents u = NullValue <-> contents w = NullValue)).
  { intros x u. destruct (decide (x = a)) as [-> |Hne]; [rewrite lookup_insert_eq|rewrite lookup_insert_ne by done; eauto].
    intros [= <-]. exists v. done. }
  split; try done.
  - intros x u Hu. destruct (Hat x u Hu) as (w & Hw & -> & _). rewrite Hcon. by apply Hc.
  - intros x. rewrite Hcon. intros Hp%Ht. destruct (decide (x = a)) as [-> |Hne];
      [rewrite lookup_insert_eq; by eexists|by rewrite lookup_insert_ne].
  - intros x u Hu. destruct (Hat x u Hu) as (w & Hw & -> & _). by apply Hb.
  - intros x u Hu. destruct (Hat x u Hu) as (w & Hw & _ & ->). by apply Hn.
  - intros x u Hu. destruct (Hat x u Hu) as (w & Hw & -> & _). by eapply Hbd.
Qed.

Lemma refs_remove h ext a v :
  refs_ok h ext -> h !! a = Some v -> ref_count (v_base v) = 0 -> children v = [] -> refs_ok (delete a h) ext.
Proof.
  intros [Hc Hx Ht Hb Hn Hbd] Ha Hz Hch.
  assert (Hcon : forall x, contained (delete a h) x = contained h x)
    by (intros x; rewrite (contained_delete h a v), Hch by done; change (count x []) with 0; lia).
  assert (Hat : forall x u, delete a h !! x = Some u -> h !! x = Some u) by (intros x u [_ Hu]%lookup_delete_Some; done).
  split; eauto.
  - intros x u Hu. rewrite Hcon. auto.
  - intros x. rewrite Hcon. intros Hp. destruct (decide (x = a)) as [-> |Hne]; [rewrite (Hc a v Ha) in Hz; lia|].
    rewrite lookup_delete_ne by done. by apply Ht.
Qed.

(** ** Putting a reference *)

(** With other contents in a value. *)
Definition recontent (z : addr) (c : value_contents) (h : values) : values :=
  alter (fun v => set_contents v c) z h.

Lemma recontent_ne z c h a : a <> z -> recontent z c h !! a = h !! a.
Proof. intros Hne. by apply lookup_alter_ne. Qed.
Lemma recontent_base z c h a v b : h !! a = Some v ->
  exists v', recontent z c h !! a = Some v' /\ v_base v' = v_base v /\
    <[a := set_base v' b]> (recontent z c h) = recontent z c (<[a := set_base v b]> h).
Proof.
  intros Ha. unfold recontent. destruct (decide (a = z)) as [-> |Hne].
  - exists (set_contents v c). rewrite lookup_alter_eq, Ha. split; [done|]. split; [done|].
    apply map_eq. intros x. destruct (decide (x = z)) as [-> |Hx].
    + by rewrite lookup_insert_eq, lookup_alter_eq, lookup_insert_eq.
    + by rewrite lookup_insert_ne, !lookup_alter_ne, lookup_insert_ne by done.
  - exists v. rewrite lookup_alter_ne by done. split; [done|]. split; [done|].
    by rewrite alter_insert_ne by done.
Qed.

(** The contents of a value that is still there afterwards do not matter. *)
Definition frames (put : values -> option values) (h h' : values) : Prop :=
  forall z c, is_Some (h' !! z) -> put (recontent z c h) = Some (recontent z c h').

(** A function that puts a reference, in stores with at most [n] live values. *)
Definition puts (n : nat) (put : values -> addr -> option values) : Prop :=
  forall h ext a, (live h <= n)%nat -> refs_ok h (with_refs ext [a]) -> (forall x, 0 <= ext x) ->
  exists h', put h a = Some h' /\ refs_ok h' ext /\ kept h h' /\ frames (fun h => put h a) h h'.

Lemma kept_there h h' x : kept h h' -> is_Some (h' !! x) -> is_Some (h !! x).
Proof. intros Hk [v' Hx]. destruct (kept_value _ _ Hk x v' Hx) as (v & Hv & _). by eexists. Qed.

Lemma for_all_puts n put l : puts n put -> forall h ext, (live h <= n)%nat -> refs_ok h (with_refs ext l) ->
  (forall x, 0 <= ext x) ->
  exists h', for_all put l h = Some h' /\ refs_ok h' ext /\ kept h h' /\ frames (for_all put l) h h'.
Proof.
  intros Hput. induction l as [|a l IH]; intros h ext Hn Hok Hge.
  { exists h. split; [done|]. split; [|split; [apply kept_refl|by intros z c]]. eapply refs_ok_ext; [|exact Hok].
    intros x. unfold with_refs. simpl. change (count x []) with 0. lia. }
  cbn [for_all]. destruct (Hput h (with_refs ext l) a Hn) as (h1 & Hp1 & Hok1 & Hk1 & Hf1).
  - eapply refs_ok_ext; [|exact Hok]. intros x. unfold with_refs. rewrite !count_cons. change (count x []) with 0. lia.
  - intros x. unfold with_refs. specialize (Hge x). pose proof (count_nonneg x l). lia.
  - destruct (IH h1 ext) as (h' & Hp' & Hok' & Hk' & Hf'); try done.
    { pose proof (live_kept _ _ Hk1). lia. }
    exists h'. rewrite Hp1. split; [done|]. split; [done|]. split; [by eapply kept_values_trans|].
    intros z c Hz. cbn [for_all]. rewrite Hf1 by (by eapply kept_there). by apply Hf'.
Qed.

Lemma destroy_ok n put h ext a v :
  puts n put -> (live h <= n)%nat -> refs_ok h ext -> h !! a = Some v -> ref_count (v_base v) = 0 ->
  exists h', bt_value_destroy hash_order put a h = Some h' /\ refs_ok h' ext /\ h' !! a = None /\
    kept (delete a h) h' /\ frames (bt_value_destroy hash_order put a) h h'.
Proof.
  intros Hput Hn Hok Ha Hz.
  assert (Hnn : contents v <> NullValue).
  { intros Hc. apply (ro_null _ _ Hok a v Ha) in Hc. subst. rewrite (ro_count _ _ Hok _ v Ha) in Hz. unfold owned in Hz.
    rewrite decide_True in Hz by done. pose proof (ro_ext _ _ Hok bt_value_null). pose proof (contained_nonneg h bt_value_null). lia. }
  assert (Hempty : forall c l, c <> NullValue -> children (set_contents v c) = [] -> l ≡ₚ children v ->
    exists h', (do h <- for_all put l (<[a := set_contents v c]> h); Some (delete a h)) = Some h' /\
      refs_ok h' ext /\ h' !! a = None /\ kept (delete a h) h' /\
      frames (fun h => do h <- for_all put l (<[a := set_contents v c]> h); Some (delete a h)) h h').
  { intros c l Hc Hch Hl.
    destruct (for_all_puts n put l Hput (<[a := set_contents v c]> h) ext) as (h1 & Hp1 & Hok1 & Hk1 & Hf1).
    - unfold live in *. rewrite map_filter_insert_False by (unfold referenced; simpl; lia).
      rewrite map_filter_delete. etransitivity; [|exact Hn]. rewrite <- !size_dom. apply subseteq_size.
      rewrite dom_delete. by apply subseteq_difference_l.
    - eapply refs_recontent; [exact Hok|done|done|done| |].
      + intros x. unfold with_refs. pose proof (ro_ext _ _ Hok x). pose proof (count_nonneg x l). lia.
      + intros x. rewrite Hch. unfold with_refs. rewrite (count_perm x _ _ Hl). change (count x []) with 0. lia.
    - apply (ro_ext _ _ Hok).
    - assert (Ha1 : h1 !! a = Some (set_contents v c)) by (apply (kept_zero _ _ Hk1); [apply lookup_insert_eq|done]).
      exists (delete a h1). rewrite Hp1. split; [done|]. split; [by eapply refs_remove|].
      split; [apply lookup_delete_eq|]. split.
      2: { intros z c' [w [Hne Hw]%lookup_delete_Some]. unfold recontent at 1. rewrite <- alter_insert_ne by done.
           unfold frames, recontent in Hf1. rewrite Hf1 by (by eexists). unfold recontent. by rewrite alter_delete_ne by done. }
      destruct Hk1 as [Vk Zk Bk]. split.
      + intros x v' [Hne Hx]%lookup_delete_Some. destruct (Vk x v' Hx) as (w & Hw & Hs).
        rewrite lookup_insert_ne in Hw by done. exists w. by rewrite lookup_delete_ne.
      + intros x w [Hne Hx]%lookup_delete_Some Hw. rewrite lookup_delete_ne by done.
        apply Zk; [by rewrite lookup_insert_ne|done].
      + intros x w [Hne Hx]%lookup_delete_Some Hw. rewrite lookup_delete_ne by done.
        specialize (Bk x w Hx Hw). by rewrite lookup_insert_ne in Bk. }
  unfold bt_value_destroy. rewrite Ha. destruct (contents v) eqn:Ec; try done.
  all: try (eexists; split; [reflexivity|]; split; [by eapply refs_remove; unfold children; rewrite ?Ec|];
    split; [apply lookup_delete_eq|]; split; [apply kept_refl|];
    intros z c [w [Hne Hw]%lookup_delete_Some]; unfold bt_value_destroy; rewrite recontent_ne, Ha, Ec by done;
    unfold recontent; by rewrite alter_delete_ne by done).
  - destruct (Hempty (ArrayValue []) garray) as (h' & Hp & Hok' & Ha' & Hk' & Hf'); [done|done| |].
    { unfold children. by rewrite Ec. }
    exists h'. do 4 (split; [done|]). intros z c Hw. unfold bt_value_destroy.
    rewrite recontent_ne, Ha, Ec by (intros <-; rewrite Ha' in Hw; by destruct Hw). by apply Hf'.
  - destruct (Hempty (MapValue ∅) (map snd (hash_order ght))) as (h' & Hp & Hok' & Ha' & Hk' & Hf'); [done| | |].
    + unfold children. simpl. by rewrite map_to_list_empty.
    + unfold children. rewrite Ec. change (map snd (hash_order ght)) with ((hash_order ght).*2). by rewrite hash_order_perm.
    + exists h'. do 4 (split; [done|]). intros z c Hw. unfold bt_value_destroy.
      rewrite recontent_ne, Ha, Ec by (intros <-; rewrite Ha' in Hw; by destruct Hw). by apply Hf'.
Qed.

(** [bt_object_put_ref] and the destruction. *)
Definition put_with (fuel : nat) (h : values) (a : addr) : option values :=
  do r <- bt_object_put_ref debug (call_value debug hash_order fuel) h (Some a);
  run (call_value debug hash_order fuel) r.

Lemma call_value_ok fuel : forall h ext a,
  (live h < fuel)%nat -> refs_ok h (with_refs ext [a]) -> (forall x, 0 <= ext x) ->
  exists h', put_with fuel h a = Some h' /\ refs_ok h' ext /\ kept h h' /\ frames (fun h => put_with fuel h a) h h'.
Proof.
  induction fuel as [|fuel IH]; intros h ext a Hf Hok Hge; [lia|].
  assert (Hcnt : count a [a] = 1) by (rewrite count_cons, decide_True by done; done).
  destruct (ro_there _ _ Hok a) as [v Ha].
  { unfold owned, with_refs. rewrite Hcnt. pose proof (contained_nonneg h a). specialize (Hge a). case_decide; lia. }
  pose proof (ro_base _ _ Hok a v Ha) as Hb. pose proof (ro_bound _ _ Hok a v Ha) as Hbd.
  pose proof (ro_count _ _ Hok a v Ha) as Hc. unfold owned, with_refs in Hc. rewrite Hcnt in Hc.
  pose proof (contained_nonneg h a). pose proof (Hge a).
  assert (Hpos : 0 < ref_count (v_base v)) by (case_decide; lia).
  set (f := if decide (a = bt_value_null) then null_release_func else destroy_value_func) in *.
  assert (Hplain : forall h v', h !! a = Some v' -> v_base v' = v_base v -> put_with (S fuel) h a =
    run (call_value debug hash_order (S fuel))
      (<[a := set_base v' (set_ref_count (v_base v) (ref_count (v_base v) - 1))]> h,
       if ref_count (v_base v) =? 1 then Some (f, a) else None)).
  { intros h2 v' Ha2 Hb2. unfold put_with.
    rewrite (put_ref_plain debug _ h2 a v' f); change (base v') with (v_base v'); rewrite ?Hb2;
      [done|done|by rewrite Hb|by rewrite Hb|lia]. }
  rewrite (Hplain h v Ha eq_refl).
  set (v1 := set_base v (set_ref_count (v_base v) (ref_count (v_base v) - 1))).
  assert (Hok1 : refs_ok (<[a := v1]> h) ext).
  { unfold v1. rewrite <- Z.add_opp_r. eapply refs_recount; [exact Hok|done| |apply Hge|lia].
    intros x. unfold with_refs. rewrite count_cons. change (count x []) with 0.
    destruct (decide (a = x)), (decide (x = a)); try congruence; lia. }
  assert (Hk1 : ref_count (v_base v) <> 1 -> kept h (<[a := v1]> h)).
  { intros Hne1. split.
    - intros x w. destruct (decide (x = a)) as [-> |Hne]; [rewrite lookup_insert_eq|rewrite lookup_insert_ne by done].
      + intros [= <-]. exists v. split; [done|]. split; [done|]. simpl. lia.
      + intros Hx. exists w. repeat split; done || lia.
    - intros x w Hx Hz. destruct (decide (x = a)) as [-> |Hne]; [exfalso; simplify_eq; lia|by rewrite lookup_insert_ne].
    - intros x w. destruct (decide (x = a)) as [-> |Hne]; [rewrite lookup_insert_eq|by rewrite lookup_insert_ne].
      intros [= <-] Hz. simpl in Hz. lia. }
  destruct (Z.eqb_spec (ref_count (v_base v)) 1) as [H1|Hne1].
  2: { exists (<[a := v1]> h). split; [done|]. split; [done|]. split; [auto|]. intros z c _.
       destruct (recontent_base z c h a v (set_ref_count (v_base v) (ref_count (v_base v) - 1)) Ha) as (v' & Hv' & Hb' & Hr).
       rewrite (Hplain _ v' Hv' Hb'). cbn [run]. by rewrite Hr. }
  assert (Hnn : a <> bt_value_null).
  { intros ->. rewrite decide_True in Hc by done. lia. }
  assert (Hrun : forall h, run (call_value debug hash_order (S fuel)) (h, Some (f, a)) =
    bt_value_destroy hash_order (put_with fuel) a h).
  { intros h2. cbn [run call_value]. unfold f. rewrite decide_False by done.
    rewrite bool_decide_eq_false_2 by done. by rewrite bool_decide_eq_true_2 by done. }
  rewrite Hrun. destruct (destroy_ok (live (<[a := v1]> h)) (put_with fuel) (<[a := v1]> h) ext a v1) as
    (h' & Hd & Hok' & Ha' & Hk' & Hfr).
  - intros h2 ext2 b Hl2 Hok2 Hge2. apply IH; try done.
    pose proof (live_zero h a v (set_ref_count (v_base v) (ref_count (v_base v) - 1)) Ha Hpos ltac:(simpl; lia)) as Hl.
    fold v1 in Hl. lia.
  - done.
  - done.
  - apply lookup_insert_eq.
  - simpl. lia.
  - exists h'. split; [exact Hd|]. split; [done|]. split.
    2: { intros z c Hz. assert (a <> z) as Hne by (intros <-; rewrite Ha' in Hz; by destruct Hz).
         destruct (recontent_base z c h a v (set_ref_count (v_base v) (ref_count (v_base v) - 1)) Ha) as (v' & Hv' & Hb' & Hr).
         rewrite (Hplain _ v' Hv' Hb'), Hr, Hrun. by apply Hfr. }
    rewrite delete_insert_eq in Hk'. destruct Hk' as [Vk Zk Bk]. split.
    + intros x w Hx. destruct (Vk x w Hx) as (u & [_ Hu]%lookup_delete_Some & Hs). by exists u.
    + intros x w Hx Hz. apply Zk; [|done]. rewrite lookup_delete_ne; [done|]. intros <-. simplify_eq. lia.
    + intros x w Hx Hz. by apply (Bk x w Hx), lookup_delete_Some in Hz as [_ Hz].
Qed.

Lemma live_size h : (live h <= size h)%nat.
Proof. unfold live. rewrite <- !size_dom. apply subseteq_size, dom_filter_subseteq. Qed.

Lemma put_ref_ok h ext a :
  refs_ok h (with_refs ext [a]) -> (forall x, 0 <= ext x) ->
  exists h', put_ref h a = Some h' /\ refs_ok h' ext /\ kept h h' /\
    forall z c, is_Some (h' !! z) -> put_ref (recontent z c h) a = Some (recontent z c h').
Proof.
  intros Hok Hge. destruct (call_value_ok (S (size h)) h ext a) as (h' & Hp & Hok' & Hk & Hf);
    [pose proof (live_size h); lia|done|done|]. exists h'. split; [done|]. split; [done|]. split; [done|].
  intros z c Hz. specialize (Hf z c Hz). unfold put_with in Hf. unfold bt_value_put_ref.
  replace (size (recontent z c h)) with (size h); [done|]. unfold recontent. by rewrite <- !size_dom, dom_alter_L.
Qed.

(** ** What a reference keeps *)

(** The array or map [x] has the element [y]. *)
Definition has_element (h : values) (x y : addr) : Prop := exists v, h !! x = Some v /\ y ∈ children v.

(** A reference from outside leads to [x]. *)
Definition reached (h : values) (ext : addr -> Z) (x : addr) : Prop :=
  exists r, 0 < owned ext r /\ rtc (has_element h) r x.

Lemma children_there h ext x v y : refs_ok h ext -> h !! x = Some v -> y ∈ children v -> is_Some (h !! y).
Proof.
  intros Hok Hx Hy. apply (ro_there _ _ Hok). apply count_pos in Hy. pose proof (contained_child h x v y Hx).
  pose proof (ro_ext _ _ Hok y). unfold owned. case_decide; lia.
Qed.

(** Putting references leaves what a reference leads to. *)
Lemma reached_there h h' ext x : kept h h' -> refs_ok h' ext -> reached h ext x -> is_Some (h' !! x).
Proof.
  intros Hk Hok (r & Hr & Hrx).
  assert (Hs : is_Some (h' !! r)) by (apply (ro_there _ _ Hok); pose proof (contained_nonneg h' r); lia).
  clear Hr. induction Hrx as [|r y x (v & Hv & Hy) _ IH]; [done|]. apply IH. destruct Hs as [v' Hv'].
  destruct (kept_value _ _ Hk r v' Hv') as (v0 & Hv0 & [Hc _] & _). simplify_eq.
  eapply children_there; [exact Hok|exact Hv'|]. unfold children in *. by rewrite Hc.
Qed.

(** ** Getting a reference, and changing what a container has *)

Lemma recontent_insert h z v c : h !! z = Some v -> <[z := set_contents v c]> h = recontent z c h.
Proof.
  intros Hz. unfold recontent. rewrite <- (insert_id h z v Hz) at 2. by rewrite alter_insert_eq.
Qed.
Lemma recontent_twice z c d h : recontent z c (recontent z d h) = recontent z c h.
Proof.
  unfold recontent. apply map_eq. intros x. destruct (decide (x = z)) as [-> |Hne].
  - rewrite !lookup_alter_eq. by destruct (h !! z).
  - by rewrite !lookup_alter_ne.
Qed.
Lemma recontent_id h z v : h !! z = Some v -> recontent z (contents v) h = h.
Proof. intros Hz. rewrite <- (recontent_insert _ _ v) by done. apply insert_id. rewrite Hz. by destruct v. Qed.
Lemma recontent_at h z v c : h !! z = Some v -> recontent z c h !! z = Some (set_contents v c).
Proof. intros Hz. unfold recontent. by rewrite lookup_alter_eq, Hz. Qed.

Lemma get_ref_ok h ext a v z c :
  refs_ok h ext -> h !! a = Some v -> ref_count (v_base v) + 1 < 2 ^ 64 ->
  exists h', refs_ok h' (with_refs ext [a]) /\
    bt_object_get_ref debug h (Some a) = Some h' /\
    bt_object_get_ref debug (recontent z c h) (Some a) = Some (recontent z c h') /\
    h' = <[a := set_base v (set_ref_count (v_base v) (ref_count (v_base v) + 1))]> h.
Proof.
  intros Hok Ha Hlt. eexists. split; [|split; [|split; [|reflexivity]]].
  - eapply refs_recount; [exact Hok|exact Ha| | |lia].
    + intros x. unfold with_refs. rewrite count_cons. change (count x []) with 0.
      destruct (decide (a = x)), (decide (x = a)); try congruence; lia.
    + unfold with_refs. pose proof (ro_ext _ _ Hok a). pose proof (count_nonneg a [a]). lia.
  - pose proof (ro_base _ _ Hok a v Ha) as Hb. pose proof (ro_count _ _ Hok a v Ha) as Hc.
    rewrite (get_ref_plain debug h a v); change (base v) with (v_base v); [done|done|by rewrite Hb|by rewrite Hb| |lia].
    pose proof (ro_ext _ _ Hok a). pose proof (contained_nonneg h a). unfold owned in Hc. case_decide; lia.
  - pose proof (ro_base _ _ Hok a v Ha) as Hb. pose proof (ro_count _ _ Hok a v Ha) as Hc.
    destruct (recontent_base z c h a v (set_ref_count (v_base v) (ref_count (v_base v) + 1)) Ha) as (v' & Hv' & Hb' & Hr).
    rewrite <- Hr. replace (ref_count (v_base v)) with (ref_count (v_base v')) by (by rewrite Hb').
    replace (v_base v) with (v_base v') by done.
    rewrite (get_ref_plain debug (recontent z c h) a v'); change (base v') with (v_base v'); rewrite ?Hb'; [done|done|by rewrite Hb|by rewrite Hb| |lia].
    pose proof (ro_ext _ _ Hok a). pose proof (contained_nonneg h a). unfold owned in Hc. case_decide; lia.
Qed.

(** The values of a store are those of another, with the contents [c] in [z]. *)
Definition updates (h h' : values) (z : addr) (c : value_contents) : Prop :=
  forall x v', h' !! x = Some v' -> exists v, h !! x = Some v /\ v_frozen v' = v_frozen v /\
    contents v' = if decide (x = z) then c else contents v.

Lemma updates_recontent h h1 z d c : kept (recontent z d h) h1 -> updates h (recontent z c h1) z c.
Proof.
  intros Hk x v' Hx. unfold recontent in Hx.
  destruct (decide (x = z)) as [-> |Hne].
  - rewrite lookup_alter_eq in Hx. destruct (h1 !! z) as [w|] eqn:Hw; [|done]. injection Hx as <-.
    destruct (kept_value _ _ Hk z w Hw) as (u & Hu & [_ Hf] & _). unfold recontent in Hu.
    rewrite lookup_alter_eq in Hu. destruct (h !! z) as [v|]; [|done]. injection Hu as <-. by exists v.
  - rewrite lookup_alter_ne in Hx by done. destruct (kept_value _ _ Hk x v' Hx) as (u & Hu & [Hc Hf] & _).
    rewrite recontent_ne in Hu by done. by exists u.
Qed.

(** A container [z] that has one more element. *)
Lemma attach_ok h ext z v c e w :
  refs_ok h ext -> h !! z = Some v -> contents v <> NullValue -> c <> NullValue ->
  h !! e = Some w -> ref_count (v_base w) + 1 < 2 ^ 64 ->
  (forall x, count x (children (set_contents v c)) = count x (children v) + count x [e]) ->
  exists h', bt_object_get_ref debug (recontent z c h) (Some e) = Some h' /\ refs_ok h' ext /\ updates h h' z c.
Proof.
  intros Hok Hz Hn Hc He Hlt Hch. destruct (get_ref_ok h ext e w z c Hok He Hlt) as (h1 & Hok1 & _ & Hg & Hh1).
  exists (recontent z c h1). split; [done|].
  assert (exists v1, h1 !! z = Some v1 /\ contents v1 = contents v) as (v1 & Hz1 & Hc1).
  { rewrite Hh1. destruct (decide (z = e)) as [-> |Hne].
    - rewrite lookup_insert_eq. eexists. split; [done|]. simpl. congruence.
    - rewrite lookup_insert_ne by done. by exists v. }
  assert (Hchv : children v1 = children v) by (unfold children; by rewrite Hc1).
  split.
  - rewrite <- (recontent_insert h1 z v1) by done. eapply refs_recontent; [exact Hok1|done|congruence|done|apply (ro_ext _ _ Hok)|].
    intros x. rewrite Hchv. change (children (set_contents v1 c)) with (children (set_contents v c)). rewrite Hch.
    unfold with_refs. lia.
  - intros x v'. rewrite Hh1. destruct (decide (x = z)) as [-> |Hne].
    + rewrite <- Hh1, (recontent_at h1 z v1) by done. intros [= <-]. exists v. split; [done|]. split; [|done]. simpl.
      rewrite Hh1 in Hz1. destruct (decide (z = e)) as [-> |Hne]; [rewrite lookup_insert_eq in Hz1|rewrite lookup_insert_ne in Hz1 by done];
        simplify_eq; done.
    + rewrite recontent_ne by done. destruct (decide (x = e)) as [-> |Hne'];
        [rewrite lookup_insert_eq|rewrite lookup_insert_ne by done]; [|intros Hx; by exists v'].
      intros [= <-]. by exists w.
Qed.

(** A container in which an element replaces an old one, whose reference is put: without
    the old element, the references still lead to the container and to the new element. *)
Lemma swap_ok h ext z v mid c old e w :
  refs_ok h ext -> h !! z = Some v -> contents v <> NullValue -> mid <> NullValue -> c <> NullValue ->
  reached (recontent z mid h) ext z -> reached (recontent z mid h) ext e ->
  h !! e = Some w -> ref_count (v_base w) + 1 < 2 ^ 64 ->
  (forall x, count x (children (set_contents v mid)) + count x [old] = count x (children v)) ->
  (forall x, count x (children (set_contents v c)) = count x (children (set_contents v mid)) + count x [e]) ->
  exists h1 v1 h', h1 !! z = Some v1 /\ (forall d, put_ref (recontent z d h) old = Some (recontent z d h1)) /\
    bt_object_get_ref debug (recontent z c h1) (Some e) = Some h' /\ refs_ok h' ext /\ updates h h' z c.
Proof.
  intros Hok Hz Hn Hm Hc Hez Hee He Hlt Hmid Hfin.
  destruct (put_ref_ok (recontent z mid h) ext old) as (h1 & _ & Hok1 & Hk1 & Hf1).
  - rewrite <- (recontent_insert h z v) by done. eapply refs_recontent; [exact Hok|done|done|done| |].
    + intros x. unfold with_refs. pose proof (ro_ext _ _ Hok x). pose proof (count_nonneg x [old]). lia.
    + intros x. unfold with_refs. specialize (Hmid x). lia.
  - apply (ro_ext _ _ Hok).
  - destruct (reached_there _ _ _ _ Hk1 Hok1 Hez) as [v1 Hz1].
    destruct (reached_there _ _ _ _ Hk1 Hok1 Hee) as [w1 He1].
    destruct (kept_value _ _ Hk1 z v1 Hz1) as (v2 & Hv2 & [Hcv1 _] & _).
    rewrite (recontent_at h z v) in Hv2 by done. injection Hv2 as <-. simpl in Hcv1.
    assert (Hw1 : ref_count (v_base w1) <= ref_count (v_base w)).
    { destruct (kept_value _ _ Hk1 e w1 He1) as (w2 & Hw2 & _ & Hr).
      destruct (recontent_base z mid h e w (v_base w) He) as (w3 & Hw3 & Hb & _). rewrite Hw3 in Hw2. injection Hw2 as <-.
      by rewrite Hb in Hr. }
    destruct (attach_ok h1 ext z v1 c e w1) as (h' & Hg & Hok' & Hup); try done.
    { congruence. }
    { lia. }
    { intros x. change (children (set_contents v1 c)) with (children (set_contents v c)). rewrite Hfin. do 2 f_equal.
      unfold children. by rewrite Hcv1. }
    exists h1, v1, h'. split; [done|]. split; [|split; [done|split; [done|]]].
    + intros d. rewrite <- (recontent_twice z d mid). by apply Hf1.
    + intros x v' Hx. destruct (Hup x v' Hx) as (u & Hu & Hf & Hcu).
      destruct (kept_value _ _ Hk1 x u Hu) as (t & Ht & [Hct Hft] & _).
      destruct (decide (x = z)) as [-> |Hne].
      * rewrite (recontent_at h z v) in Ht by done. injection Ht as <-. exists v. split; [done|]. by rewrite Hf, Hft.
      * rewrite recontent_ne in Ht by done. exists t. split; [done|]. split; congruence.
Qed.
End refs.
