(* ===== verification/ValueTree.v ===== *)
(** What values are, and what copying, comparing and freezing them does: a value
    denotes a finite tree when its arrays and maps do not contain themselves. *)

From Stdlib Require Import SpecFloat.
From stdpp Require Import list gmap.
From S2P Require Import Prelude Object Value ValueRefs.

(** * Trees *)

(** The value at an address is a tree of depth at most [n]. *)
Fixpoint tree (n : nat) (h : values) (a : addr) : Prop :=
  match n with
  | O => False
  | S n => exists v, h !! a = Some v /\ Forall (tree n h) (children v)
  end.

Lemma Forall2_mono_r {A B} (R R' : A -> B -> Prop) l k :
  Forall2 R l k -> (forall x y, y ∈ k -> R x y -> R' x y) -> Forall2 R' l k.
Proof.
  induction 1 as [|x y l k Hxy _ IH]; intros HR; constructor; [apply HR; [by left|done]|].
  apply IH. intros u w Hw. apply HR. by right.
Qed.

(** Two contents are the same but for their elements, which [R] relates; [req]
    relates their real numbers. *)
Definition same_contents (req : spec_float -> spec_float -> Prop) (R : addr -> addr -> Prop)
    (c c' : value_contents) : Prop :=
  match c, c' with
  | NullValue, NullValue => True
  | BoolValue x, BoolValue y => x = y
  | IntegerValue s x, IntegerValue s' y => s = s' /\ value_u x = value_u y
  | RealValue x, RealValue y => req x y
  | StringValue x, StringValue y => x = y
  | ArrayValue l, ArrayValue l' => Forall2 R l l'
  | MapValue m, MapValue m' => forall k, option_Forall2 R (m !! k) (m' !! k)
  | _, _ => False
  end.

(** The value [a] of [h] and the value [b] of [h'] are the same tree. *)
Fixpoint same (req : spec_float -> spec_float -> Prop) (n : nat) (h h' : values) (a b : addr) : Prop :=
  match n with
  | O => False
  | S n => exists v w, h !! a = Some v /\ h' !! b = Some w /\
      same_contents req (same req n h h') (contents v) (contents w)
  end.

Lemma map_children (m : gmap (list Z) addr) P : Forall P (map_to_list m).*2 <-> forall k x, m !! k = Some x -> P x.
Proof.
  rewrite Forall_forall. split.
  - intros Hall k x Hk. apply Hall. apply list_elem_of_fmap. exists (k, x). split; [done|]. by apply elem_of_map_to_list.
  - intros Hall x Hx. apply list_elem_of_fmap in Hx as ((k & y) & -> & Hk). apply elem_of_map_to_list in Hk. eauto.
Qed.

(** The elements of contents. *)
Definition kids (c : value_contents) : list addr :=
  match c with
  | ArrayValue garray => garray
  | MapValue ght => (map_to_list ght).*2
  | _ => []
  end.
Lemma children_kids v : children v = kids (contents v).
Proof. done. Qed.

Lemma map_kid (m : gmap (list Z) addr) k x : m !! k = Some x -> x ∈ kids (MapValue m).
Proof. intros Hk. simpl. apply list_elem_of_fmap. exists (k, x). split; [done|]. by apply elem_of_map_to_list. Qed.

Lemma same_contents_refl (req : spec_float -> spec_float -> Prop) (R : addr -> addr -> Prop) c :
  (forall f, req f f) -> Forall (fun x => R x x) (kids c) -> same_contents req R c c.
Proof.
  intros Hreq Hch. destruct c; simpl; try done.
  - simpl in Hch. by induction Hch; constructor.
  - intros k. destruct (ght !! k) as [x|] eqn:Hk; constructor. rewrite Forall_forall in Hch.
    by apply Hch, (map_kid _ k).
Qed.

Lemma same_contents_mono req (R R' : addr -> addr -> Prop) c c' :
  (forall x y, x ∈ kids c -> y ∈ kids c' -> R x y -> R' x y) ->
  same_contents req R c c' -> same_contents req R' c c'.
Proof.
  intros HR. destruct c, c'; simpl; try done.
  - intros Hf. simpl in HR. induction Hf as [|x y l l' Hxy Hf IH]; constructor.
    + apply HR; [by left|by left|done].
    + apply IH. intros u w Hu Hw. apply HR; by right.
  - intros Hm k. specialize (Hm k). destruct (ght !! k) as [x|] eqn:Ek, (ght0 !! k) as [y|] eqn:Ek';
      inversion Hm; constructor. apply HR; [by eapply map_kid|by eapply map_kid|done].
Qed.

(** The stores have the same contents on a set of addresses that is closed. *)
Definition agree (S : addr -> Prop) (h h' : values) : Prop :=
  forall x v, S x -> h !! x = Some v ->
    (exists v', h' !! x = Some v' /\ contents v' = contents v) /\ Forall S (children v).

Lemma same_change req n : forall (S1 S2 : addr -> Prop) h1 h1' h2 h2' a b,
  agree S1 h1 h1' -> agree S2 h2 h2' -> S1 a -> S2 b -> same req n h1 h2 a b -> same req n h1' h2' a b.
Proof.
  induction n as [|n IH]; intros S1 S2 h1 h1' h2 h2' a b H1 H2 Ha Hb; [done|].
  intros (v & w & Hv & Hw & Hs). destruct (H1 a v Ha Hv) as [(v' & Hv' & Hcv) HS1].
  destruct (H2 b w Hb Hw) as [(w' & Hw' & Hcw) HS2]. exists v', w'. split; [done|]. split; [done|].
  rewrite Hcv, Hcw. eapply same_contents_mono; [|exact Hs]. intros x y Hx Hy. rewrite children_kids, Forall_forall in HS1, HS2.
  apply (IH S1 S2); eauto.
Qed.

Lemma tree_change n : forall (S : addr -> Prop) h h' a, agree S h h' -> S a -> tree n h a -> tree n h' a.
Proof.
  induction n as [|n IH]; intros S h h' a Hag Ha; [done|]. intros (v & Hv & Hch).
  destruct (Hag a v Ha Hv) as [(v' & Hv' & Hc) HS]. exists v'. split; [done|].
  unfold children in *. rewrite Hc. rewrite Forall_forall in *. intros x Hx. apply (IH S h); auto.
Qed.

Lemma same_refl (req : spec_float -> spec_float -> Prop) n : (forall f, req f f) -> forall h a, tree n h a -> same req n h h a a.
Proof.
  intros Hreq. induction n as [|n IH]; intros h a; [done|]. intros (v & Hv & Hch). exists v, v. split; [done|]. split; [done|].
  apply same_contents_refl; [done|]. rewrite children_kids in Hch. eapply Forall_impl; [exact Hch|]. apply IH.
Qed.

(** The number of values of a tree. *)
Fixpoint tree_size (n : nat) (h : values) (a : addr) : Z :=
  match n with
  | O => 0
  | S n => match h !! a with
           | Some v => 1 + foldr Z.add 0 (map (tree_size n h) (children v))
           | None => 0
           end
  end.
Lemma tree_size_nonneg n h a : 0 <= tree_size n h a.
Proof.
  revert a. induction n as [|n IH]; intros a; simpl; [lia|]. destruct (h !! a) as [v|]; [|lia].
  assert (0 <= foldr Z.add 0 (map (tree_size n h) (children v))); [|lia].
  induction (children v) as [|x l IHl]; simpl; [lia|]. specialize (IH x). lia.
Qed.
Lemma tree_size_change n : forall (S : addr -> Prop) h h' a, agree S h h' -> S a -> tree n h a ->
  tree_size n h' a = tree_size n h a.
Proof.
  induction n as [|n IH]; intros S h h' a Hag Ha; [done|]. intros (v & Hv & Hch).
  destruct (Hag a v Ha Hv) as [(v' & Hv' & Hc) HS]. cbn [tree_size]. rewrite Hv, Hv'.
  assert (children v' = children v) as -> by (unfold children; by rewrite Hc). f_equal.
  clear Hv Hv' Hc. induction (children v) as [|x l IHl]; [done|]. apply Forall_cons_1 in HS as [Hx HS].
  apply Forall_cons_1 in Hch as [Htx Hch]. simpl. rewrite (IH S h) by done. by rewrite IHl.
Qed.
Lemma sum_perm (l k : list Z) : l ≡ₚ k -> foldr Z.add 0 l = foldr Z.add 0 k.
Proof. induction 1; simpl; lia. Qed.

(** * Copy *)

(** [h'] has the values of [h], but for the references of the null value, and new
    ones with one reference, whose elements are new too, or null. *)
Record copied (h h' : values) : Prop := {
  cp_old x v : h !! x = Some v -> exists v', h' !! x = Some v' /\ contents v' = contents v /\
    v_frozen v' = v_frozen v /\ (x <> bt_value_null -> v' = v);
  cp_new x v' : h !! x = None -> h' !! x = Some v' -> v_frozen v' = false /\ ref_count (v_base v') = 1 /\
    Forall (fun y => y = bt_value_null \/ h !! y = None) (children v')
}.

Lemma copied_refl h : copied h h.
Proof. split; [|congruence]. intros x v Hx. by exists v. Qed.

Lemma copied_back h h' y : copied h h' -> h' !! y = None -> h !! y = None.
Proof. intros Hc Hy. destruct (h !! y) as [v|] eqn:E; [|done]. destruct (cp_old _ _ Hc y v E) as (v' & Hv' & _). congruence. Qed.

(** [c] is a value that is being built. *)
Lemma copied_trans h0 c h h1 :
  is_Some (h0 !! bt_value_null) -> h0 !! c = None ->
  copied h0 (delete c h) -> copied h h1 -> copied h0 (delete c h1).
Proof.
  intros [v0 Hnull] Hc H1 H2. split.
  - intros x v Hx. assert (x <> c) as Hne by congruence.
    destruct (cp_old _ _ H1 x v Hx) as (v1 & [_ Hv1]%lookup_delete_Some & Hc1 & Hf1 & He1).
    destruct (cp_old _ _ H2 x v1 Hv1) as (v2 & Hv2 & Hc2 & Hf2 & He2). exists v2.
    rewrite lookup_delete_ne by done. split; [done|]. split; [congruence|]. split; [congruence|].
    intros Hn. rewrite He2, He1; done.
  - intros x v' Hx [Hne Hv']%lookup_delete_Some. destruct (h !! x) as [v|] eqn:E.
    + destruct (cp_old _ _ H2 x v E) as (v2 & Hv2 & _ & _ & He2).
      assert (x <> bt_value_null) as Hn by congruence. rewrite (He2 Hn) in Hv2. simplify_eq.
      apply (cp_new _ _ H1 x v' Hx). by rewrite lookup_delete_ne.
    + destruct (cp_new _ _ H2 x v' E Hv') as (Hf & Hr & Hch). split; [done|]. split; [done|].
      eapply Forall_impl; [exact Hch|]. intros y [Hy|Hy]; [by left|]. right.
      apply (copied_back _ _ y H1). apply lookup_delete_None. by right.
Qed.

Definition null_count (h : values) : Z :=
  match h !! bt_value_null with Some v => ref_count (v_base v) | None => 0 end.

Lemma null_there h ext : refs_ok h ext -> is_Some (h !! bt_value_null).
Proof.
  intros Hok. apply (ro_there _ _ Hok). unfold owned. rewrite decide_True by done.
  pose proof (ro_ext _ _ Hok bt_value_null). pose proof (contained_nonneg h bt_value_null). lia.
Qed.

Section copy.
Context (dev debug : bool) (malloc : values -> addr).
Context (hash_order : gmap (list Z) addr -> list (list Z * addr)).
Context (malloc_fresh : forall h, h !! malloc h = None).
Context (hash_order_perm : forall m, hash_order m ≡ₚ map_to_list m).
Abbreviation copy := (bt_value_copy dev debug malloc hash_order).
Abbreviation put_ref := (bt_value_put_ref debug hash_order).

(** A new value, without elements. *)
Lemma create_ok h ext c :
  refs_ok h ext -> c <> NullValue -> kids c = [] ->
  let '(a, h') := create_value malloc h c in
  h !! a = None /\ a <> bt_value_null /\ h' = <[a := bt_value_create_base c]> h /\
  refs_ok h' (with_refs ext [a]) /\ contained h' a = 0 /\ ext a = 0 /\ copied h h'.
Proof.
  intros Hok Hc Hk. unfold create_value. set (a := malloc h). pose proof (malloc_fresh h) as Ha. fold a in Ha.
  assert (Hnn : a <> bt_value_null) by (intros Hn; destruct (null_there h ext Hok) as [v Hv]; congruence).
  assert (Hcon : forall x, contained (<[a := bt_value_create_base c]> h) x = contained h x).
  { intros x. rewrite contained_new by done. rewrite children_kids. simpl contents. rewrite Hk.
    change (count x []) with 0. lia. }
  assert (Hza : ext a = 0 /\ contained h a = 0).
  { pose proof (ro_ext _ _ Hok a). pose proof (contained_nonneg h a).
    destruct (Z.eq_dec (owned ext a + contained h a) 0) as [Hz|Hz].
    - unfold owned in Hz. rewrite decide_False in Hz by done. lia.
    - destruct (ro_there _ _ Hok a) as [v Hv]; [|congruence]. unfold owned in *. case_decide; lia. }
  destruct Hza as [Hea Hca].
  assert (Hone : forall x, with_refs ext [a] x = ext x + if decide (x = a) then 1 else 0).
  { intros x. unfold with_refs. rewrite count_cons. change (count x []) with 0.
    destruct (decide (a = x)), (decide (x = a)); try congruence; lia. }
  split; [done|]. split; [done|]. split; [done|]. split; [|split; [by rewrite Hcon|split; [done|]]].
  - split.
    + intros x v. rewrite Hcon. unfold owned. rewrite Hone. destruct (decide (x = a)) as [-> |Hne].
      * rewrite lookup_insert_eq. intros [= <-]. simpl. rewrite Hea, Hca, decide_False by done. lia.
      * rewrite lookup_insert_ne by done. intros Hv. rewrite (ro_count _ _ Hok x v Hv). unfold owned. lia.
    + intros x. rewrite Hone. pose proof (ro_ext _ _ Hok x). case_decide; lia.
    + intros x. rewrite Hcon. unfold owned. rewrite Hone. destruct (decide (x = a)) as [-> |Hne]; [rewrite lookup_insert_eq; by eexists|].
      rewrite lookup_insert_ne by done. intros Hp. apply (ro_there _ _ Hok). unfold owned. lia.
    + intros x v. destruct (decide (x = a)) as [-> |Hne]; [|rewrite lookup_insert_ne by done; apply (ro_base _ _ Hok)].
      rewrite lookup_insert_eq. intros [= <-]. unfold base_of. by rewrite decide_False.
    + intros x v. destruct (decide (x = a)) as [-> |Hne]; [|rewrite lookup_insert_ne by done; apply (ro_null _ _ Hok)].
      rewrite lookup_insert_eq. by intros [= <-].
    + intros x v. destruct (decide (x = a)) as [-> |Hne]; [|rewrite lookup_insert_ne by done; apply (ro_bound _ _ Hok)].
      rewrite lookup_insert_eq. intros [= <-]. simpl. lia.
  - split.
    + intros x v Hv. exists v. rewrite lookup_insert_ne by congruence. done.
    + intros x v Hx. destruct (decide (x = a)) as [-> |Hne]; [|rewrite lookup_insert_ne by done; congruence].
      rewrite lookup_insert_eq. intros [= <-]. split; [done|]. split; [done|]. rewrite children_kids. simpl contents. by rewrite Hk.
Qed.

(** The container [c] with the contents [k], that is being built from [h0]. *)
Record building (h0 : values) (ext : addr -> Z) (c : addr) (h : values) (k : value_contents) : Prop := {
  bd_refs : refs_ok h (with_refs ext [c]);
  bd_at : h !! c = Some (bt_value_create_base k);
  bd_new : h0 !! c = None;
  bd_copied : copied h0 (delete c h);
  bd_kids : Forall (fun y => y = bt_value_null \/ h0 !! y = None) (kids k);
  bd_some : k <> NullValue
}.

(** Getting then putting a reference of a value that has one. *)
Lemma get_put h ext a v z c :
  refs_ok h ext -> h !! a = Some v -> a <> z -> 0 < ref_count (v_base v) -> ref_count (v_base v) + 1 < 2 ^ 64 ->
  (do h <- bt_object_get_ref debug (recontent z c h) (Some a); put_ref h a) = Some (recontent z c h).
Proof.
  intros Hok Ha Hne Hpos Hlt. destruct (get_ref_ok debug h ext a v z c Hok Ha Hlt) as (h1 & _ & _ & -> & ->).
  unfold bt_value_put_ref.
  set (v1 := set_base v (set_ref_count (v_base v) (ref_count (v_base v) + 1))).
  set (h1 := recontent z c (<[a := v1]> h)).
  assert (Ha1 : h1 !! a = Some v1) by (unfold h1; rewrite recontent_ne, lookup_insert_eq by done; done).
  pose proof (ro_base _ _ Hok a v Ha) as Hb.
  rewrite (put_ref_plain debug _ h1 a v1 (if decide (a = bt_value_null) then null_release_func else destroy_value_func));
    change (base v1) with (v_base v1); [|done|unfold v1; simpl; by rewrite Hb|unfold v1; simpl; by rewrite Hb|unfold v1; simpl; lia].
  unfold v1 at 3. simpl ref_count. destruct (Z.eqb_spec (ref_count (v_base v) + 1) 1); [lia|]. cbn [run]. f_equal.
  unfold h1, recontent. rewrite <- !alter_insert_ne by done. rewrite insert_insert_eq. f_equal.
  rewrite <- (insert_id h a v Ha) at 2. f_equal. unfold v1. simpl. rewrite Z.add_simpl_r. destruct v as [[] ? ?]. done.
Qed.

(** What [bt_value_copy] does, for values of depth at most [n]. *)
Definition copies (n : nat) : Prop := forall h ext a,
  refs_ok h ext -> tree n h a -> null_count h + tree_size n h a < 2 ^ 64 ->
  exists a' h', copy n h a = Some (a', h') /\ refs_ok h' (with_refs ext [a']) /\ copied h h' /\
    same eq n h h' a a' /\ (a' = bt_value_null \/ h !! a' = None) /\
    null_count h' <= null_count h + tree_size n h a.

Lemma agree_old h h' : copied h h' -> (exists ext, refs_ok h ext) -> agree (fun x => is_Some (h !! x)) h h'.
Proof.
  intros Hc [ext Hok] x v _ Hv. split.
  - destruct (cp_old _ _ Hc x v Hv) as (v' & Hv' & Hcv & _). by exists v'.
  - rewrite Forall_forall. intros y Hy. apply (ro_there _ _ Hok). pose proof (contained_child h x v y Hv) as Hle.
    apply count_pos in Hy. pose proof (ro_ext _ _ Hok y). unfold owned. case_decide; lia.
Qed.
Lemma agree_back h h' : copied h h' -> (exists ext, refs_ok h ext) -> agree (fun x => is_Some (h !! x)) h' h.
Proof.
  intros Hc Hok x v' Hx Hv'. destruct Hx as [v Hv]. destruct (cp_old _ _ Hc x v Hv) as (v2 & Hv2 & Hcv & _).
  simplify_eq. split; [by exists v|]. rewrite children_kids, Hcv. by apply (agree_old h h' Hc Hok x v).
Qed.
(** Nothing contains the value that is being built. *)
Lemma building_alone h0 ext c h k : refs_ok h0 ext -> building h0 ext c h k ->
  c <> bt_value_null /\ (forall x v, h !! x = Some v -> c ∉ children v) /\ is_Some (h0 !! bt_value_null) /\
  forall x v, h0 !! x = Some v -> exists v', h !! x = Some v' /\ contents v' = contents v.
Proof.
  intros Hok0 [Hok Hc Hn Hcp _ _]. pose proof (null_there _ _ Hok0) as Hnull.
  assert (c <> bt_value_null) as Hnn by (intros ->; rewrite Hn in Hnull; by destruct Hnull).
  split; [done|]. split; [|split; [done|]].
  - intros x v Hx Hin. apply count_pos in Hin. pose proof (contained_child h x v c Hx).
    pose proof (ro_count _ _ Hok c _ Hc) as Hcnt. simpl in Hcnt. unfold owned, with_refs in Hcnt.
    rewrite count_cons in Hcnt. change (count c []) with 0 in Hcnt.
    rewrite (decide_True (P := c = c)), decide_False in Hcnt by done. pose proof (ro_ext _ _ Hok0 c). lia.
  - intros x v Hv. destruct (cp_old _ _ Hcp x v Hv) as (v' & [_ Hv']%lookup_delete_Some & Hcv & _). by exists v'.
Qed.

Lemma copy_step n h0 ext c h k x :
  copies n -> refs_ok h0 ext -> building h0 ext c h k -> tree n h0 x ->
  null_count h + tree_size n h0 x + 1 < 2 ^ 64 ->
  exists e h1, copy n h x = Some (e, h1) /\ h1 !! c = Some (bt_value_create_base k) /\
    null_count h1 <= null_count h + tree_size n h0 x /\ e <> c /\
    forall d, d <> NullValue -> (forall y, count y (kids d) = count y (kids k) + count y [e]) ->
    (do h <- bt_object_get_ref debug (recontent c d h1) (Some e); put_ref h e) = Some (recontent c d h1) /\
    building h0 ext c (recontent c d h1) d /\ null_count (recontent c d h1) = null_count h1 /\
    same eq n h0 (recontent c d h1) x e /\
    (forall y z, z ∈ kids k -> same eq n h0 h y z -> same eq n h0 (recontent c d h1) y z).
Proof.
  intros Hcopies Hok0 Hbd Ht Hroom. pose proof Hbd as [Hok Hc Hnew Hcp Hkids Hsome].
  destruct (building_alone _ _ _ _ _ Hok0 Hbd) as (Hcn & Halone & Hnull0 & Hold).
  assert (Hag0 : agree (fun y => is_Some (h0 !! y)) h0 h).
  { intros y v _ Hv. split; [by apply Hold|]. by apply (agree_old h0 h0 (copied_refl h0) (ex_intro _ ext Hok0) y v). }
  assert (Hag0' : agree (fun y => is_Some (h0 !! y)) h h0).
  { intros y v' [v Hv] Hv'. destruct (Hold y v Hv) as (v2 & Hv2 & Hcv). simplify_eq. split; [by exists v|].
    rewrite children_kids, Hcv. by apply (Hag0 y v). }
  assert (Hx0 : is_Some (h0 !! x)) by (destruct n; [done|]; destruct Ht as (v & Hv & _); by eexists).
  destruct (Hcopies h (with_refs ext [c]) x Hok) as (e & h1 & Hcopy & Hok1 & Hcp1 & Hsame & He & Hcount).
  { by apply (tree_change n _ h0 h x Hag0). }
  { rewrite (tree_size_change n _ h0 h x Hag0) by done. lia. }
  rewrite (tree_size_change n _ h0 h x Hag0) in Hcount by done.
  assert (Hec : e <> c) by (destruct He as [-> |He]; congruence).
  assert (Hc1 : h1 !! c = Some (bt_value_create_base k)).
  { destruct (cp_old _ _ Hcp1 c _ Hc) as (v' & Hv' & _ & _ & Heq). by rewrite (Heq Hcn) in Hv'. }
  exists e, h1. split; [done|]. split; [done|]. split; [done|]. split; [done|]. intros d Hd Hcnt.
  destruct (ro_there _ _ Hok1 e) as [w Hw].
  { unfold owned, with_refs. rewrite (count_cons e e). rewrite decide_True by done. change (count e []) with 0.
    pose proof (ro_ext _ _ Hok e). unfold with_refs in *. pose proof (contained_nonneg h1 e). case_decide; lia. }
  assert (Hwpos : 0 < ref_count (v_base w) /\ ref_count (v_base w) + 1 < 2 ^ 64).
  { destruct He as [-> |He].
    - unfold null_count in Hcount at 1. rewrite Hw in Hcount. pose proof (ro_count _ _ Hok1 _ _ Hw) as Hcw.
      unfold owned in Hcw. rewrite decide_True in Hcw by done. pose proof (ro_ext _ _ Hok1 bt_value_null).
      pose proof (contained_nonneg h1 bt_value_null). lia.
    - destruct (cp_new _ _ Hcp1 e w He Hw) as (_ & -> & _). lia. }
  assert (Hoks : refs_ok (recontent c d h1) (with_refs ext [c])).
  { rewrite <- (recontent_insert h1 c _ d Hc1). eapply refs_recontent; [exact Hok1|exact Hc1|done|done|apply (ro_ext _ _ Hok)|].
    intros y. rewrite !children_kids. simpl contents. rewrite Hcnt. unfold with_refs. lia. }
  split; [destruct Hwpos; by eapply (get_put h1 _ e w)|].
  assert (Hsub : forall y v, h1 !! y = Some v -> y <> c -> Forall (fun z => z <> c) (children v)).
  { intros y v Hy Hyc. rewrite Forall_forall. intros z Hz ->. apply count_pos in Hz. pose proof (contained_child h1 y v c Hy).
    pose proof (ro_count _ _ Hok1 c _ Hc1) as Hcc. simpl in Hcc. unfold owned, with_refs in Hcc.
    rewrite !count_cons in Hcc. change (count c []) with 0 in Hcc. rewrite (decide_True (P := c = c)) in Hcc by done.
    rewrite !decide_False in Hcc by done. pose proof (ro_ext _ _ Hok0 c). lia. }
  assert (Hagc : agree (fun y => y <> c) h1 (recontent c d h1)).
  { intros y v Hy Hv. split; [exists v; by rewrite recontent_ne|]. by apply (Hsub y v). }
  split; [split|].
  - exact Hoks.
  - by rewrite (recontent_at h1 c _ d Hc1).
  - done.
  - assert (delete c (recontent c d h1) = delete c h1) as -> by (unfold recontent; apply delete_alter_eq).
    by eapply copied_trans.
  - rewrite Forall_forall in *. intros y Hy. apply count_pos in Hy. rewrite Hcnt, count_cons in Hy. change (count y []) with 0 in Hy.
    destruct (decide (e = y)) as [<- |Hne].
    + destruct He as [-> |He]; [by left|]. right. destruct (h0 !! e) as [v|] eqn:E; [|done].
      destruct (Hold e v E) as (v' & Hv' & _). congruence.
    + apply Hkids, count_pos. lia.
  - done.
  - split; [unfold null_count; by rewrite recontent_ne|]. split.
    + apply (same_change eq n (fun y => is_Some (h0 !! y)) (fun y => y <> c) h h0 h1); done.
    + intros y z Hz Hyz.
      apply (same_change eq n (fun _ => True) (fun y => y <> c) h0 h0 h1); [|done|done|..].
      * intros u v _ Hv. split; [by exists v|]. by apply Forall_true.
      * intros ->. by apply (Halone c _ Hc).
      * apply (same_change eq n (fun _ => True) (fun y => is_Some (h !! y)) h0 h0 h h1); [| |done| |done].
        -- intros u v _ Hv. split; [by exists v|]. by apply Forall_true.
        -- by apply agree_old; [|eexists].
        -- apply (ro_there _ _ Hok). assert (0 < count z (kids k)) as Hp by (by apply count_pos).
           pose proof (contained_child h c _ z Hc) as Hle. rewrite children_kids in Hle. simpl in Hle.
           pose proof (ro_ext _ _ Hok z). unfold owned. case_decide; lia.
Qed.

Abbreviation sizes n h l := (foldr Z.add 0 (map (tree_size n h) l)).
Lemma sizes_nonneg n h l : 0 <= sizes n h l.
Proof. induction l as [|x l IH]; simpl; [lia|]. pose proof (tree_size_nonneg n h x). lia. Qed.

Lemma copy_elements_ok n h0 ext c : copies n -> refs_ok h0 ext -> forall els h src done,
  building h0 ext c h (ArrayValue done) -> Forall2 (same eq n h0 h) src done -> Forall (tree n h0) els ->
  null_count h + sizes n h0 els + 1 < 2 ^ 64 ->
  exists h' done', copy_elements dev debug hash_order (copy n) c els h = Some h' /\
    building h0 ext c h' (ArrayValue done') /\ Forall2 (same eq n h0 h') (src ++ els) done' /\
    null_count h' <= null_count h + sizes n h0 els.
Proof.
  intros Hcopies Hok0. induction els as [|x els IH]; intros h src done Hbd Hsame Ht Hroom.
  { exists h, done. rewrite app_nil_r. simpl. split; [done|]. split; [done|]. split; [done|]. lia. }
  apply Forall_cons_1 in Ht as [Hx Ht]. simpl in Hroom. pose proof (sizes_nonneg n h0 els).
  destruct (copy_step n h0 ext c h _ x Hcopies Hok0 Hbd Hx) as (e & h1 & Hcopy & Hc1 & Hcnt & Hne & Hstep); [lia|].
  destruct (Hstep (ArrayValue (done ++ [e]))) as (Hgp & Hbd' & Hnc & Hxe & Hrest); [done|by intros y; rewrite <- count_app|].
  destruct (IH _ (src ++ [x]) (done ++ [e]) Hbd') as (h' & done' & Hcp & Hb & Hs & Hn'); [|done|rewrite Hnc; lia|].
  { apply Forall2_app; [|by repeat constructor]. by eapply Forall2_mono_r; [exact Hsame|]. }
  exists h', done'. rewrite <- app_assoc in Hs. split; [|split; [done|split; [done|simpl; lia]]].
  cbn [copy_elements]. rewrite Hcopy. unfold bt_value_array_append_element, append_array_element.
  rewrite Hc1. simpl contents. cbn iota. unfold BT_ASSERT_PRE_DEV_VALUE_HOT, BT_ASSERT_PRE_DEV. rewrite andb_false_r.
  rewrite (recontent_insert h1 c _ _ Hc1).
  destruct (bt_object_get_ref _ _ _) as [h2|]; [|done]. by rewrite Hgp.
Qed.

(** Entries with the same keys and the same values. *)
Definition same_entry (n : nat) (h0 h : values) (p q : list Z * addr) : Prop :=
  p.1 = q.1 /\ same eq n h0 h p.2 q.2.

Lemma same_entry_keys n h0 h src dst : Forall2 (same_entry n h0 h) src dst -> dst.*1 = src.*1.
Proof. induction 1 as [|p q ?? [Hk _] _ IH]; [done|]. rewrite !fmap_cons. congruence. Qed.

Lemma same_entries_maps n h0 h src dst : Forall2 (same_entry n h0 h) src dst ->
  forall k, option_Forall2 (same eq n h0 h) ((list_to_map src : gmap _ _) !! k) ((list_to_map dst : gmap _ _) !! k).
Proof.
  induction 1 as [|[k1 x] [k2 y] src dst [Hk Hxy] _ IH]; intros k; simpl in *; [rewrite !lookup_empty; constructor|].
  subst. destruct (decide (k = k2)) as [-> |Hne].
  - rewrite !lookup_insert_eq. by constructor.
  - rewrite !lookup_insert_ne by done. apply IH.
Qed.

Lemma copy_entries_ok n h0 ext c : copies n -> refs_ok h0 ext -> forall es h src dst,
  building h0 ext c h (MapValue (list_to_map dst)) -> Forall2 (same_entry n h0 h) src dst ->
  NoDup (es.*1 ++ src.*1) -> Forall (tree n h0) es.*2 -> null_count h + sizes n h0 es.*2 + 1 < 2 ^ 64 ->
  exists h' dst', copy_entries dev debug hash_order (copy n) c es h = Some h' /\
    building h0 ext c h' (MapValue (list_to_map dst')) /\ Forall2 (same_entry n h0 h') (rev es ++ src) dst' /\
    null_count h' <= null_count h + sizes n h0 es.*2.
Proof.
  intros Hcopies Hok0. induction es as [|[key x] es IH]; intros h src dst Hbd Hsame Hnd Ht Hroom.
  { exists h, dst. simpl. split; [done|]. split; [done|]. split; [done|]. lia. }
  rewrite fmap_cons in Ht. rewrite fmap_cons in Hroom. rewrite fmap_cons in Hnd. cbn [map foldr fst snd app] in Ht, Hroom, Hnd. rewrite !fmap_cons.
  cbn [map foldr snd]. apply Forall_cons_1 in Ht as [Hx Ht]. pose proof (sizes_nonneg n h0 es.*2).
  apply NoDup_cons in Hnd as [Hkey Hnd].
  pose proof (same_entry_keys _ _ _ _ _ Hsame) as Hkeys.
  assert (Hfresh : (list_to_map dst : gmap (list Z) addr) !! key = None).
  { apply not_elem_of_list_to_map. rewrite Hkeys. intros Hin. apply Hkey, elem_of_app. by right. }
  assert (Hndd : NoDup dst.*1) by (rewrite Hkeys; by apply NoDup_app in Hnd as (_ & _ & ?)).
  destruct (copy_step n h0 ext c h _ x Hcopies Hok0 Hbd Hx) as (e & h1 & Hcopy & Hc1 & Hcnt & Hne & Hstep); [lia|].
  destruct (Hstep (MapValue (list_to_map ((key, e) :: dst)))) as (Hgp & Hbd' & Hnc & Hxe & Hrest); [done| |].
  { intros y. simpl. rewrite (map_to_list_insert _ _ _ Hfresh), fmap_cons. cbn [snd]. rewrite !count_cons. change (count y []) with 0. lia. }
  destruct (IH _ ((key, x) :: src) ((key, e) :: dst) Hbd') as (h' & dst' & Hcp & Hb & Hs & Hn');
    [| |done|rewrite Hnc; lia|].
  { constructor; [by split|]. eapply Forall2_mono_r; [exact Hsame|]. intros p q Hq [Hk Hpq]. split; [done|].
    apply Hrest; [|done]. apply (map_kid _ q.1). apply elem_of_list_to_map; [done|]. by destruct q. }
  { simpl. rewrite <- Permutation_middle. by apply NoDup_cons. }
  exists h', dst'. cbn [rev]. rewrite <- app_assoc. split; [|split; [done|split; [done|]]].
  2: { change (tree_size n h0 <$> es.*2) with (map (tree_size n h0) es.*2). lia. }
  cbn [copy_entries]. rewrite Hcopy. unfold bt_value_map_insert_entry, insert_map_value_entry.
  rewrite Hc1. simpl contents. cbn iota. unfold BT_ASSERT_PRE_DEV_VALUE_HOT, BT_ASSERT_PRE_DEV. rewrite andb_false_r, Hfresh.
  rewrite (recontent_insert h1 c _ _ Hc1). change (<[key := e]> (list_to_map dst)) with (list_to_map ((key, e) :: dst) : gmap (list Z) addr).
  destruct (bt_object_get_ref _ _ _) as [h2|]; [|done]. by rewrite Hgp.
Qed.

Lemma create_building h ext c :
  refs_ok h ext -> c <> NullValue -> kids c = [] ->
  let '(a, h') := create_value malloc h c in building h ext a h' c /\ null_count h' = null_count h.
Proof.
  intros Hok Hc Hk. pose proof (create_ok h ext c Hok Hc Hk) as Hcr.
  destruct (create_value malloc h c) as [a h']. destruct Hcr as (Hn & Hnn & Hh' & Hok' & _ & _ & _).
  split; [split|].
  - done.
  - by rewrite Hh', lookup_insert_eq.
  - done.
  - rewrite Hh', delete_insert_id by done. apply copied_refl.
  - by rewrite Hk.
  - done.
  - unfold null_count. by rewrite Hh', lookup_insert_ne.
Qed.

(** The container is built. *)
Lemma building_done h0 ext c h k : building h0 ext c h k -> is_Some (h0 !! bt_value_null) ->
  copied h0 h /\ h !! c = Some (bt_value_create_base k).
Proof.
  intros [Hok Hc Hn Hcp Hkids Hsome] _. split; [|done]. split.
  - intros x v Hx. destruct (cp_old _ _ Hcp x v Hx) as (v' & [_ Hv']%lookup_delete_Some & Hr). by exists v'.
  - intros x v Hx Hv. destruct (decide (x = c)) as [-> |Hne].
    + rewrite Hc in Hv. injection Hv as <-. done.
    + apply (cp_new _ _ Hcp x v Hx). by rewrite lookup_delete_ne.
Qed.

Lemma value_u_copy bits : value_u (wrapu 64 (value_u bits)) = value_u bits.
Proof.
  unfold value_u, wraps, wrapu. f_equal. rewrite Z.add_mod_idemp_l by lia.
  rewrite Z.sub_add. by rewrite Z.mod_mod by lia.
Qed.

(** The copy of a value without elements. *)
Lemma copy_scalar n h ext a v c :
  refs_ok h ext -> h !! a = Some v -> kids c = [] -> c <> NullValue ->
  same_contents eq (same eq n h (create_value malloc h c).2) (contents v) c ->
  0 <= tree_size (S n) h a ->
  exists a' h', Some (create_value malloc h c) = Some (a', h') /\ refs_ok h' (with_refs ext [a']) /\ copied h h' /\
    same eq (S n) h h' a a' /\ (a' = bt_value_null \/ h !! a' = None) /\
    null_count h' <= null_count h + tree_size (S n) h a.
Proof.
  intros Hok Ha Hk Hc Hs Hsz. pose proof (create_ok h ext c Hok Hc Hk) as Hcr.
  destruct (create_value malloc h c) as [a' h'] eqn:E. destruct Hcr as (Hn & Hnn & Hh' & Hok' & _ & _ & Hcp).
  exists a', h'. split; [done|]. split; [done|]. split; [done|]. split; [|split; [by right|]].
  - exists v, (bt_value_create_base c). split; [done|]. split; [by rewrite Hh', lookup_insert_eq|]. done.
  - unfold null_count. rewrite Hh', lookup_insert_ne by done. fold (null_count h). lia.
Qed.

Lemma copy_null h ext v : refs_ok h ext -> h !! bt_value_null = Some v -> null_count h + 1 < 2 ^ 64 ->
  exists h', bt_object_get_ref debug h (Some bt_value_null) = Some h' /\ refs_ok h' (with_refs ext [bt_value_null]) /\
    copied h h' /\ null_count h' = null_count h + 1 /\
    exists w, h' !! bt_value_null = Some w /\ contents w = contents v.
Proof.
  intros Hok Hv Hroom. unfold null_count in Hroom |- *. rewrite Hv in Hroom |- *.
  destruct (get_ref_ok debug h ext bt_value_null v bt_value_null NullValue Hok Hv Hroom) as (h' & Hok' & Hg & _ & Hh').
  exists h'. split; [done|]. split; [done|]. rewrite Hh', lookup_insert_eq. split; [|split; [done|by eexists]]. split.
  - intros x w Hx. destruct (decide (x = bt_value_null)) as [-> |Hne];
      [rewrite lookup_insert_eq|rewrite lookup_insert_ne by done; by exists w].
    simplify_eq. eexists. split; [reflexivity|]. done.
  - intros x w Hx. destruct (decide (x = bt_value_null)) as [-> |Hne]; [|rewrite lookup_insert_ne by done]; congruence.
Qed.

(** The copy of a container, once its elements are copied. *)
Lemma copy_container n h ext a v c0 h' k :
  refs_ok h ext -> h !! a = Some v -> building h ext c0 h' k ->
  same_contents eq (same eq n h h') (contents v) k -> null_count h' <= null_count h + tree_size (S n) h a ->
  exists a' h'', Some (c0, h') = Some (a', h'') /\ refs_ok h'' (with_refs ext [a']) /\ copied h h'' /\
    same eq (S n) h h'' a a' /\ (a' = bt_value_null \/ h !! a' = None) /\
    null_count h'' <= null_count h + tree_size (S n) h a.
Proof.
  intros Hok Ha Hbd Hs Hc. destruct (building_done _ _ _ _ _ Hbd (null_there _ _ Hok)) as [Hcp Hat].
  exists c0, h'. split; [done|]. split; [apply Hbd|]. split; [done|]. split; [|split; [right; apply Hbd|done]].
  exists v, (bt_value_create_base k). done.
Qed.

Lemma copies_all n : copies n.
Proof.
  induction n as [|n IH]; intros h ext a Hok Ht Hroom; [done|].
  pose proof (tree_size_nonneg (S n) h a) as Hsz. destruct Ht as (v & Ha & Hch). cbn [bt_value_copy]. rewrite Ha.
  assert (Hsize : tree_size (S n) h a = 1 + sizes n h (children v)) by (cbn [tree_size]; by rewrite Ha).
  pose proof (sizes_nonneg n h (children v)) as Hnn. rewrite children_kids in *.
  destruct (contents v) as [|b|sg bits|f|str|garray|ght] eqn:Ec.
  - pose proof (proj1 (ro_null _ _ Hok a v Ha) Ec) as ->. rewrite bool_decide_eq_true_2 by done.
    destruct (copy_null h ext v Hok Ha) as (h' & -> & Hok' & Hcp & Hc & w & Hw & Hcw); [lia|].
    exists bt_value_null, h'. split; [done|]. split; [done|]. split; [done|]. split; [|split; [by left|lia]].
    exists v, w. rewrite Hcw, Ec. done.
  - eapply (copy_scalar n h ext a v); try done. by rewrite Ec.
  - eapply (copy_scalar n h ext a v); try done. rewrite Ec. simpl. by rewrite value_u_copy.
  - eapply (copy_scalar n h ext a v); try done. by rewrite Ec.
  - eapply (copy_scalar n h ext a v); try done. by rewrite Ec.
  - unfold bt_value_array_copy, bt_value_array_create. change (kids (ArrayValue garray)) with garray in *.
    pose proof (create_building h ext (ArrayValue []) Hok) as Hcr.
    destruct (create_value malloc h (ArrayValue [])) as [c0 h1]. destruct Hcr as [Hbd Hn1]; [done|done|].
    destruct (copy_elements_ok n h ext c0 IH Hok garray h1 [] [] Hbd) as (h' & done' & -> & Hbd' & Hs & Hc);
      [apply Forall2_nil_2|exact Hch|rewrite Hn1; lia|].
    eapply (copy_container n h ext a v); try done; [by rewrite Ec|lia].
  - unfold bt_value_map_copy, bt_value_map_create.
    pose proof (create_building h ext (MapValue ∅) Hok) as Hcr.
    destruct (create_value malloc h (MapValue ∅)) as [c0 h1]. destruct Hcr as [Hbd Hn1]; [done|by simpl; rewrite map_to_list_empty|].
    assert (Hp2 : (hash_order ght).*2 ≡ₚ (map_to_list ght).*2) by (by rewrite hash_order_perm).
    assert (Hsum : sizes n h (hash_order ght).*2 = sizes n h (kids (MapValue ght))) by (apply sum_perm, Permutation_map, Hp2).
    assert (Hnd : NoDup (hash_order ght).*1) by (rewrite hash_order_perm; apply NoDup_fst_map_to_list).
    destruct (copy_entries_ok n h ext c0 IH Hok (hash_order ght) h1 [] [] Hbd) as (h' & dst & -> & Hbd' & Hs & Hc);
      [apply Forall2_nil_2|by rewrite app_nil_r|rewrite Hp2; exact Hch|rewrite Hn1, Hsum; lia|].
    eapply (copy_container n h ext a v); try done; [|lia]. rewrite Ec. intros k. rewrite app_nil_r in Hs.
    assert (list_to_map (rev (hash_order ght)) = ght) as <-; [|by apply same_entries_maps].
    rewrite <- (list_to_map_to_list ght) at 2. apply list_to_map_proper.
    + by rewrite <- Permutation_rev.
    + by rewrite <- Permutation_rev.
Qed.
End copy.

(** * Equality *)

(** Equality of real numbers as the hardware compares them. *)
Definition real_equal (x y : spec_float) : Prop := SFeqb x y = true.

Lemma elements_equal_iff (eq : addr -> addr -> option bool) (R : addr -> addr -> Prop) :
  (forall x y r, eq x y = Some r -> r = true <-> R x y) ->
  forall l l' r, length l = length l' -> elements_equal eq l l' = Some r -> r = true <-> Forall2 R l l'.
Proof.
  intros Heq. induction l as [|x l IH]; intros [|y l'] r Hlen Hr; try done.
  - injection Hr as <-. split; [constructor|done].
  - cbn [elements_equal] in Hr. destruct (eq x y) as [[]|] eqn:E; [| |done].
    + rewrite (IH l' r) by (done || (simpl in Hlen; lia)). rewrite Forall2_cons. apply Heq in E. tauto.
    + injection Hr as <-. split; [done|]. intros Hf. apply Forall2_cons in Hf as [Hxy _]. by apply (Heq _ _ _ E) in Hxy.
Qed.

Lemma entries_equal_iff (eq : addr -> addr -> option bool) (R : addr -> addr -> Prop) m :
  (forall x y r, eq x y = Some r -> r = true <-> R x y) ->
  forall es r, entries_equal eq es m = Some r -> r = true <-> Forall (fun p => exists y, m !! p.1 = Some y /\ R p.2 y) es.
Proof.
  intros Heq. induction es as [|[k x] es IH]; intros r Hr.
  - injection Hr as <-. split; [constructor|done].
  - cbn [entries_equal] in Hr. rewrite Forall_cons. cbn [fst snd]. destruct (m !! k) as [y|]; [|done].
    destruct (eq x y) as [[]|] eqn:E; [| |done].
    + rewrite (IH r Hr). apply Heq in E. split; [intros ?; split; [exists y; tauto|done]|tauto].
    + injection Hr as <-. split; [done|]. intros [(z & [= <-] & Hxy) _]. by apply (Heq _ _ _ E) in Hxy.
Qed.

(** Maps of the same size are related when each entry of the first one is in the
    other. *)
Lemma maps_related (R : addr -> addr -> Prop) (m m' : gmap (list Z) addr) :
  (forall k, option_Forall2 R (m !! k) (m' !! k)) <->
  size m = size m' /\ forall k x, m !! k = Some x -> exists y, m' !! k = Some y /\ R x y.
Proof.
  split.
  - intros Hm. split.
    + rewrite <- !size_dom. f_equal. apply set_eq. intros k. rewrite !elem_of_dom.
      specialize (Hm k). split; intros [x Hx]; rewrite Hx in Hm; inversion Hm; by eexists.
    + intros k x Hx. specialize (Hm k). rewrite Hx in Hm. inversion Hm; subst. by eexists.
  - intros [Hsz Hm] k. destruct (m !! k) as [x|] eqn:Hk.
    + destruct (Hm k x Hk) as (y & -> & Hxy). by constructor.
    + destruct (m' !! k) as [y|] eqn:Hk'; [exfalso|constructor].
      assert (dom m ⊆ dom m') as Hsub.
      { intros j Hj. apply elem_of_dom in Hj as [x Hj]. destruct (Hm j x Hj) as (z & Hz & _). apply elem_of_dom. by eexists. }
      assert (k ∈ dom m) as Hin; [|apply elem_of_dom in Hin as [z Hz]; congruence].
      assert (dom m ≡ dom m') as ->; [|apply elem_of_dom; by eexists].
      apply set_subseteq_size_equiv; [done|]. rewrite !size_dom. lia.
Qed.

Section equality.
Context (hash_order : gmap (list Z) addr -> list (list Z * addr)).
Context (hash_order_perm : forall m, hash_order m ≡ₚ map_to_list m).
Abbreviation is_equal := (bt_value_is_equal hash_order).

Lemma hash_order_Forall (m : gmap (list Z) addr) (P : list Z * addr -> Prop) :
  Forall P (hash_order m) <-> forall k x, m !! k = Some x -> P (k, x).
Proof.
  rewrite hash_order_perm, Forall_forall. split.
  - intros Hall k x Hk. apply Hall. by apply elem_of_map_to_list.
  - intros Hall [k x] Hk. apply Hall. by apply elem_of_map_to_list.
Qed.

(** The result of a comparison that ends is right. *)
Lemma is_equal_sound n h : forall a b r, is_equal n h a b = Some r -> r = true <-> same real_equal n h h a b.
Proof.
  induction n as [|n IH]; intros a b r Hr; [done|]. cbn [bt_value_is_equal] in Hr.
  destruct (h !! a) as [v|] eqn:Ha; [|done]. destruct (h !! b) as [w|] eqn:Hb; [|done].
  assert (Hiff : forall P : Prop, (r = true <-> P) -> (P <-> same_contents real_equal (same real_equal n h h) (contents v) (contents w)) ->
    r = true <-> same real_equal (S n) h h a b).
  { intros P -> ->. split; [intros Hs; by exists v, w|]. intros (v' & w' & Hv & Hw & Hs). congruence. }
  destruct (contents v) as [|x|s x|x|x|l|m] eqn:Ev, (contents w) as [|y|s' y|y|y|l'|m'] eqn:Ew;
    try (injection Hr as <-; apply (Hiff False); [split; done|simpl; tauto]).
  - injection Hr as <-. by apply (Hiff True).
  - injection Hr as <-. apply (Hiff (x = y)); [apply Z.eqb_eq|done].
  - injection Hr as <-. apply (Hiff (s = s' /\ value_u x = value_u y)); [|done].
    rewrite <- Z.eqb_eq. destruct s, s'; simpl; (split; [intros Hs|intros [Hs Hv]]); try discriminate; auto.
  - injection Hr as <-. apply (Hiff (SFeqb x y = true)); reflexivity.
  - injection Hr as <-. apply (Hiff (x = y)); [apply bool_decide_eq_true|done].
  - apply (Hiff (Forall2 (same real_equal n h h) l l')); [|done]. unfold bt_value_array_is_equal in Hr.
    destruct (Nat.eqb_spec (length l) (length l')) as [Hlen|Hlen]; simpl in Hr.
    + by eapply elements_equal_iff.
    + injection Hr as <-. split; [done|]. intros Hf%Forall2_length. done.
  - apply (Hiff (forall k, option_Forall2 (same real_equal n h h) (m !! k) (m' !! k))); [|done].
    rewrite maps_related. unfold bt_value_map_is_equal in Hr.
    destruct (Nat.eqb_spec (size m) (size m')) as [Hsz|Hsz]; simpl in Hr.
    + rewrite (entries_equal_iff _ _ m' IH _ _ Hr), hash_order_Forall. cbn [fst snd]. tauto.
    + injection Hr as <-. split; [done|]. by intros [].
Qed.

(** The values can be compared: where two maps of the same size are, they have the
    same keys. *)
Fixpoint comparable (n : nat) (h : values) (a b : addr) : Prop :=
  match n with
  | O => False
  | S n => exists v w, h !! a = Some v /\ h !! b = Some w /\
      match contents v, contents w with
      | ArrayValue l, ArrayValue l' => length l = length l' -> Forall2 (comparable n h) l l'
      | MapValue m, MapValue m' => size m = size m' -> forall k, option_Forall2 (comparable n h) (m !! k) (m' !! k)
      | _, _ => True
      end
  end.

Lemma is_equal_total n h : forall a b, comparable n h a b -> exists r, is_equal n h a b = Some r.
Proof.
  induction n as [|n IH]; intros a b; [done|]. intros (v & w & Ha & Hb & Hc). cbn [bt_value_is_equal]. rewrite Ha, Hb.
  destruct (contents v) as [|x|s x|x|x|l|m], (contents w) as [|y|s' y|y|y|l'|m']; try (by eexists).
  - unfold bt_value_array_is_equal. destruct (Nat.eqb_spec (length l) (length l')) as [Hlen|]; simpl; [|by eexists].
    specialize (Hc Hlen). clear Hlen. induction Hc as [|x y l l' Hxy _ IHl]; [by eexists|]. cbn [elements_equal].
    destruct (IH x y Hxy) as [[] ->]; [apply IHl|by eexists].
  - unfold bt_value_map_is_equal. destruct (Nat.eqb_spec (size m) (size m')) as [Hsz|]; simpl; [|by eexists].
    specialize (Hc Hsz). assert (Hes : Forall (fun p => exists y, m' !! p.1 = Some y /\ comparable n h p.2 y) (hash_order m)).
    { apply hash_order_Forall. intros k x Hx. specialize (Hc k). rewrite Hx in Hc. inversion Hc; subst. by eexists. }
    clear Hc Hsz. induction Hes as [|[k x] es (y & Hy & Hxy) _ IHes]; [by eexists|]. cbn [entries_equal fst snd] in *. rewrite Hy.
    destruct (IH x y Hxy) as [[] ->]; [apply IHes|by eexists].
Qed.
End equality.

(** * Freezing *)

Definition frozen_at (h : values) (x : addr) : Prop := exists v, h !! x = Some v /\ v_frozen v = true.

(** The elements of a frozen value are frozen, and the null value is. *)
Record frozen_closed (h : values) : Prop := {
  fc_elements x v : h !! x = Some v -> v_frozen v = true -> Forall (frozen_at h) (children v);
  fc_null x v : h !! x = Some v -> contents v = NullValue -> v_frozen v = true
}.

(** The values of [h'] are those of [h], some of which are frozen now. *)
Record froze (h h' : values) : Prop := {
  fz_there x v : h !! x = Some v -> exists v', h' !! x = Some v' /\ contents v' = contents v /\
    (v_frozen v = true -> v_frozen v' = true);
  fz_refs ext : refs_ok h ext -> refs_ok h' ext
}.

Lemma froze_refl h : froze h h.
Proof. split; [|done]. intros x v Hx. by exists v. Qed.
Lemma froze_trans h1 h2 h3 : froze h1 h2 -> froze h2 h3 -> froze h1 h3.
Proof.
  intros [H1 R1] [H2 R2]. split; [|auto]. intros x v Hx. destruct (H1 x v Hx) as (v1 & Hv1 & Hc1 & Hf1).
  destruct (H2 x v1 Hv1) as (v2 & Hv2 & Hc2 & Hf2). exists v2. split; [done|]. split; [congruence|auto].
Qed.
Lemma froze_at h h' x : froze h h' -> frozen_at h x -> frozen_at h' x.
Proof. intros Hz (v & Hv & Hf). destruct (fz_there _ _ Hz x v Hv) as (v' & Hv' & _ & Hf'). exists v'. auto. Qed.
Lemma froze_agree h h' : froze h h' -> agree (fun _ => True) h h'.
Proof.
  intros Hz x v _ Hv. destruct (fz_there _ _ Hz x v Hv) as (v' & Hv' & Hc & _).
  split; [by exists v'|by apply Forall_true].
Qed.

(** Freezing one value. *)
Definition frozen_value (v : bt_value) : bt_value := BtValue (v_base v) true (contents v).

Lemma refs_frozen h ext a v : refs_ok h ext -> h !! a = Some v -> refs_ok (<[a := frozen_value v]> h) ext.
Proof.
  intros [Hc Hx Ht Hb Hn Hbd] Ha.
  assert (Hcon : forall x, contained (<[a := frozen_value v]> h) x = contained h x).
  { intros x. rewrite (contained_insert h a v) by done. change (children (frozen_value v)) with (children v). lia. }
  assert (Hat : forall x u, <[a := frozen_value v]> h !! x = Some u ->
    exists w, h !! x = Some w /\ v_base u = v_base w /\ contents u = contents w).
  { intros x u. destruct (decide (x = a)) as [-> |Hne]; [rewrite lookup_insert_eq|rewrite lookup_insert_ne by done; eauto].
    intros [= <-]. by exists v. }
  split; try done.
  - intros x u Hu. destruct (Hat x u Hu) as (w & Hw & -> & _). rewrite Hcon. by apply Hc.
  - intros x. rewrite Hcon. intros Hp%Ht. destruct (decide (x = a)) as [-> |Hne];
      [rewrite lookup_insert_eq; by eexists|by rewrite lookup_insert_ne].
  - intros x u Hu. destruct (Hat x u Hu) as (w & Hw & -> & _). by apply Hb.
  - intros x u Hu. destruct (Hat x u Hu) as (w & Hw & _ & ->). by apply Hn.
  - intros x u Hu. destruct (Hat x u Hu) as (w & Hw & -> & _). by eapply Hbd.
Qed.

Lemma freeze_one h a v : h !! a = Some v -> frozen_closed h -> Forall (frozen_at h) (children v) ->
  froze h (<[a := frozen_value v]> h) /\ frozen_closed (<[a := frozen_value v]> h) /\
  frozen_at (<[a := frozen_value v]> h) a.
Proof.
  intros Ha [Hel Hnull] Hch.
  assert (Hz : froze h (<[a := frozen_value v]> h)).
  { split; [|intros ext Hok; by apply refs_frozen]. intros x w Hx. destruct (decide (x = a)) as [-> |Hne].
    - rewrite lookup_insert_eq. simplify_eq. by eexists.
    - rewrite lookup_insert_ne by done. by exists w. }
  assert (Hmono : forall l, Forall (frozen_at h) l -> Forall (frozen_at (<[a := frozen_value v]> h)) l).
  { intros l Hl. eapply Forall_impl; [exact Hl|]. intros x. by apply froze_at. }
  split; [done|]. split; [split|].
  - intros x w. destruct (decide (x = a)) as [-> |Hne]; [rewrite lookup_insert_eq|rewrite lookup_insert_ne by done; eauto].
    intros [= <-] _. apply Hmono. exact Hch.
  - intros x w. destruct (decide (x = a)) as [-> |Hne]; [rewrite lookup_insert_eq|rewrite lookup_insert_ne by done; eauto].
    by intros [= <-].
  - exists (frozen_value v). by rewrite lookup_insert_eq.
Qed.

Section freeze.
Context (hash_order : gmap (list Z) addr -> list (list Z * addr)).
Context (hash_order_perm : forall m, hash_order m ≡ₚ map_to_list m).

Lemma freeze_all n l :
  (forall h a, tree n h a -> frozen_closed h ->
    exists h', _bt_value_freeze hash_order n h a = Some h' /\ froze h h' /\ frozen_closed h' /\ frozen_at h' a) ->
  forall h, Forall (tree n h) l -> frozen_closed h ->
  exists h', for_all (_bt_value_freeze hash_order n) l h = Some h' /\ froze h h' /\ frozen_closed h' /\ Forall (frozen_at h') l.
Proof.
  intros Hone. induction l as [|a l IH]; intros h Ht Hcl; [exists h; split; [done|]; split; [apply froze_refl|done]|].
  apply Forall_cons_1 in Ht as [Ha Ht]. destruct (Hone h a Ha Hcl) as (h1 & Hf1 & Hz1 & Hcl1 & Ha1).
  destruct (IH h1) as (h' & Hf' & Hz' & Hcl' & Hl'); [|done|].
  { eapply Forall_impl; [exact Ht|]. intros x. by apply (tree_change n (fun _ => True) _ _ x (froze_agree _ _ Hz1)). }
  exists h'. cbn [for_all]. rewrite Hf1. split; [done|]. split; [by eapply froze_trans|]. split; [done|].
  constructor; [by eapply froze_at|done].
Qed.

Lemma freeze_ok n : forall h a, tree n h a -> frozen_closed h ->
  exists h', _bt_value_freeze hash_order n h a = Some h' /\ froze h h' /\ frozen_closed h' /\ frozen_at h' a.
Proof.
  induction n as [|n IH]; intros h a Ht Hcl; [done|]. destruct Ht as (v & Ha & Hch). cbn [_bt_value_freeze]. rewrite Ha.
  destruct (v_frozen v) eqn:Hf.
  { exists h. split; [done|]. split; [apply froze_refl|]. split; [done|]. by exists v. }
  assert (Hlist : forall l, l ≡ₚ children v -> exists h',
    (do h <- for_all (_bt_value_freeze hash_order n) l h; do v <- h !! a; Some (<[a := BtValue (v_base v) true (contents v)]> h))
      = Some h' /\ froze h h' /\ frozen_closed h' /\ frozen_at h' a).
  { intros l Hl. destruct (freeze_all n l IH h) as (h1 & -> & Hz1 & Hcl1 & Hl1); [by rewrite Hl|done|].
    destruct (fz_there _ _ Hz1 a v Ha) as (v1 & Ha1 & Hc1 & _). rewrite Ha1.
    destruct (freeze_one h1 a v1 Ha1 Hcl1) as (Hz2 & Hcl2 & Ha2).
    { unfold children in *. by rewrite Hc1, <- Hl. }
    eexists. split; [reflexivity|]. split; [by eapply froze_trans|]. done. }
  unfold children in Hlist. destruct (contents v) eqn:Hc;
    try (destruct (Hlist [] (Permutation_refl [])) as (h' & Hh' & Hr); cbn [for_all] in Hh'; rewrite Ha, Hc in Hh'; by exists h').
  - exfalso. rewrite (fc_null _ Hcl a v Ha Hc) in Hf. done.
  - by apply (Hlist garray).
  - apply (Hlist (map snd (hash_order ght))). change (map snd (hash_order ght)) with ((hash_order ght).*2).
    by rewrite hash_order_perm.
Qed.
End freeze.
