(* ===== verification/ValueOps.v ===== *)
(** The operations of the value API, as steps of a client that holds references, and
    the properties of values. *)

From Stdlib Require Import SpecFloat.
From stdpp Require Import list gmap.
From S2P Require Import Prelude Object Value ValueRefs ValueTree.

(** * Operations *)

(** A new value, as a creation function makes it. *)
Inductive new_value :=
| NewBool (val : Z)
| NewUnsigned (val : Z)
| NewSigned (val : Z)
| NewReal (val : spec_float)
| NewString (val : list Z)
| NewArray
| NewMap.

Definition new_contents (n : new_value) : value_contents :=
  match n with
  | NewBool val => BoolValue val
  | NewUnsigned val => IntegerValue false val
  | NewSigned val => IntegerValue true (wrapu 64 val)
  | NewReal val => RealValue val
  | NewString val => StringValue val
  | NewArray => ArrayValue []
  | NewMap => MapValue ∅
  end.

(** The functions which change values: the setters, appending and inserting a value
    or a new one, extending a map (with the depth of the values of the extension),
    getting and putting a reference, and the creation functions.  Copying a value is
    [value_copy_exact], freezing [frozen_values_do_not_change]; the other functions
    only read. *)
Inductive value_op :=
| OpBoolSet (a : addr) (val : Z)
| OpUnsignedSet (a : addr) (val : Z)
| OpSignedSet (a : addr) (val : Z)
| OpRealSet (a : addr) (val : spec_float)
| OpStringSet (a : addr) (val : list Z)
| OpAppend (a e : addr)
| OpAppendNew (a : addr) (n : new_value)
| OpSetElement (a : addr) (index : Z) (e : addr)
| OpInsert (a : addr) (key : list Z) (e : addr)
| OpInsertNew (a : addr) (key : list Z) (n : new_value)
| OpExtend (depth : nat) (a e : addr)
| OpGetRef (a : addr)
| OpPutRef (a : addr)
| OpCreate (n : new_value).

Section steps.
Context (dev debug : bool) (malloc : values -> addr).
Context (hash_order : gmap (list Z) addr -> list (list Z * addr)).

Definition create (h : values) (n : new_value) : addr * values :=
  match n with
  | NewBool val => bt_value_bool_create_init malloc h val
  | NewUnsigned val => bt_value_integer_unsigned_create_init malloc h val
  | NewSigned val => bt_value_integer_signed_create_init malloc h val
  | NewReal val => bt_value_real_create_init malloc h val
  | NewString val => bt_value_string_create_init malloc h val
  | NewArray => bt_value_array_create malloc h
  | NewMap => bt_value_map_create malloc h
  end.

(** The functions [bt_value_array_append_*_element]. *)
Definition append_new (h : values) (a : addr) (n : new_value) : option values :=
  match n with
  | NewBool val => bt_value_array_append_bool_element dev debug malloc hash_order h a val
  | NewUnsigned val => bt_value_array_append_unsigned_integer_element dev debug malloc hash_order h a val
  | NewSigned val => bt_value_array_append_signed_integer_element dev debug malloc hash_order h a val
  | NewReal val => bt_value_array_append_real_element dev debug malloc hash_order h a val
  | NewString val => bt_value_array_append_string_element dev debug malloc hash_order h a val
  | NewArray => option_map fst (bt_value_array_append_empty_array_element dev debug malloc hash_order h a)
  | NewMap => option_map fst (bt_value_array_append_empty_map_element dev debug malloc hash_order h a)
  end.

(** The functions [bt_value_map_insert_*_entry]. *)
Definition insert_new (h : values) (a : addr) (key : list Z) (n : new_value) : option values :=
  match n with
  | NewBool val => bt_value_map_insert_bool_entry dev debug malloc hash_order h a key val
  | NewUnsigned val => bt_value_map_insert_unsigned_integer_entry dev debug malloc hash_order h a key val
  | NewSigned val => bt_value_map_insert_signed_integer_entry dev debug malloc hash_order h a key val
  | NewReal val => bt_value_map_insert_real_entry dev debug malloc hash_order h a key val
  | NewString val => bt_value_map_insert_string_entry dev debug malloc hash_order h a key val
  | NewArray => option_map fst (bt_value_map_insert_empty_array_entry dev debug malloc hash_order h a key)
  | NewMap => option_map fst (bt_value_map_insert_empty_map_entry dev debug malloc hash_order h a key)
  end.

Definition exec (op : value_op) (h : values) : option values :=
  match op with
  | OpBoolSet a val => bt_value_bool_set h a val
  | OpUnsignedSet a val => bt_value_integer_unsigned_set dev h a val
  | OpSignedSet a val => bt_value_integer_signed_set dev h a val
  | OpRealSet a val => bt_value_real_set dev h a val
  | OpStringSet a val => bt_value_string_set dev h a val
  | OpAppend a e => bt_value_array_append_element dev debug h a e
  | OpAppendNew a n => append_new h a n
  | OpSetElement a index e => bt_value_array_set_element_by_index dev debug hash_order h a index e
  | OpInsert a key e => bt_value_map_insert_entry dev debug hash_order h a key e
  | OpInsertNew a key n => insert_new h a key n
  | OpExtend depth a e =>
    do r <- bt_value_map_extend dev debug malloc hash_order depth h a e;
    match r with (FuncOk, h) => Some h | _ => None end
  | OpGetRef a => bt_value_get_ref debug h a
  | OpPutRef a => bt_value_put_ref debug hash_order h a
  | OpCreate n => Some (create h n).2
  end.

(** The contents of the value [x] after an operation that is not an extension, from
    those before; [new] is the new value. *)
Definition after (new : addr) (op : value_op) (x : addr) (c : value_contents) : value_contents :=
  let at_ (a : addr) (c' : value_contents) := if decide (x = a) then c' else c in
  match op with
  | OpBoolSet a val => at_ a (BoolValue val)
  | OpUnsignedSet a val => at_ a (IntegerValue false val)
  | OpSignedSet a val => at_ a (IntegerValue true (wrapu 64 val))
  | OpRealSet a val => at_ a (RealValue val)
  | OpStringSet a val => at_ a (StringValue val)
  | OpAppend a e => at_ a match c with ArrayValue l => ArrayValue (l ++ [e]) | c => c end
  | OpAppendNew a _ => at_ a match c with ArrayValue l => ArrayValue (l ++ [new]) | c => c end
  | OpSetElement a index e =>
    at_ a match c with ArrayValue l => ArrayValue (<[Z.to_nat index := e]> l) | c => c end
  | OpInsert a key e => at_ a match c with MapValue m => MapValue (<[key := e]> m) | c => c end
  | OpInsertNew a key _ => at_ a match c with MapValue m => MapValue (<[key := new]> m) | c => c end
  | OpExtend _ _ _ | OpGetRef _ | OpPutRef _ | OpCreate _ => c
  end.

(** A map after its extension: for the keys of the map [e], copies, which are new
    values or null and the same trees; the other keys are as before. *)
Definition extended (depth : nat) (new : gset addr) (h h' : values) (e : addr) (c c' : value_contents) : Prop :=
  exists m m' v mx, c = MapValue m /\ c' = MapValue m' /\ h !! e = Some v /\ contents v = MapValue mx /\
    forall key, match mx !! key with
      | Some x => exists y, m' !! key = Some y /\ (y = bt_value_null \/ y ∈ new) /\ same eq depth h h' x y
      | None => m' !! key = m !! key
      end.

(** How the contents of a value that is not new change. *)
Definition changes (op : value_op) (new : gset addr) (h h' : values) (x : addr) (c c' : value_contents) : Prop :=
  match op with
  | OpExtend depth a e =>
    if decide (x = a) then extended depth new h h' e c c' else c' = c /\ Forall (fun y => y ∉ new) (kids c)
  | _ => c' = after (malloc h) op x c
  end.

Definition creates (op : value_op) : option new_value :=
  match op with OpAppendNew _ n | OpInsertNew _ _ n | OpCreate n => Some n | _ => None end.

(** The client's references after an operation. *)
Definition ext_after (op : value_op) (h : values) (ext : addr -> Z) : addr -> Z :=
  match op with
  | OpGetRef a => with_refs ext [a]
  | OpPutRef a => fun x => ext x - count x [a]
  | OpCreate _ => with_refs ext [malloc h]
  | _ => ext
  end.

Definition hot (v : bt_value) : Prop := dev = true -> v_frozen v = false.
Definition has_room (h : values) (e : addr) : Prop :=
  exists w, h !! e = Some w /\ ref_count (v_base w) + 1 < 2 ^ 64.

(** The value has a type and is hot. *)
Definition is_hot (h : values) (a : addr) (of_type : value_contents -> Prop) : Prop :=
  exists v, h !! a = Some v /\ of_type (contents v) /\ hot v.

(** Some reference of the client leads to [x] when the container [a] has the contents
    [c], without an element which is replaced: [x] is still there once the reference
    of this element is put. *)
Definition stays (h : values) (ext : addr -> Z) (a : addr) (c : value_contents) (x : addr) : Prop :=
  reached (recontent a c h) ext x.

(** The number of values of some trees. *)
Definition trees_size (depth : nat) (h : values) (l : list addr) : Z :=
  foldr Z.add 0 (map (tree_size depth h) l).

(** The map [a] without the entries which an extension by [e] replaces. *)
Definition extension_rest (h : values) (a e : addr) : value_contents :=
  match contents <$> h !! a, contents <$> h !! e with
  | Some (MapValue m), Some (MapValue mx) => MapValue (m ∖ mx)
  | _, _ => NullValue
  end.

(** The preconditions of an operation: types, hot values, indexes and counts; a value
    that replaces another one, and its container, stay when the other one goes; a map
    that is extended stays, and the extension stays and does not contain the map. *)
Definition applicable (op : value_op) (h : values) (ext : addr -> Z) : Prop :=
  match op with
  | OpBoolSet a _ => exists v x, h !! a = Some v /\ contents v = BoolValue x
  | OpUnsignedSet a _ => is_hot h a (fun c => exists x, c = IntegerValue false x)
  | OpSignedSet a _ => is_hot h a (fun c => exists x, c = IntegerValue true x)
  | OpRealSet a _ => is_hot h a (fun c => exists x, c = RealValue x)
  | OpStringSet a _ => is_hot h a (fun c => exists x, c = StringValue x)
  | OpAppend a e => is_hot h a (fun c => exists l, c = ArrayValue l) /\ has_room h e
  | OpAppendNew a _ => is_hot h a (fun c => exists l, c = ArrayValue l)
  | OpSetElement a index e =>
    is_hot h a (fun c => exists l, c = ArrayValue l /\ 0 <= index < Z.of_nat (length l) /\
      let rest := ArrayValue (delete (Z.to_nat index) l) in stays h ext a rest a /\ stays h ext a rest e) /\
    has_room h e
  | OpInsert a key e =>
    is_hot h a (fun c => exists m, c = MapValue m /\
      (is_Some (m !! key) -> let rest := MapValue (delete key m) in stays h ext a rest a /\ stays h ext a rest e)) /\
    has_room h e
  | OpInsertNew a key _ =>
    is_hot h a (fun c => exists m, c = MapValue m /\
      (is_Some (m !! key) -> stays h ext a (MapValue (delete key m)) a))
  | OpExtend depth a e =>
    is_hot h a (fun c => exists m v mx, c = MapValue m /\ h !! e = Some v /\ contents v = MapValue mx /\
      Forall (tree depth h) (kids (MapValue mx)) /\ ~ rtc (has_element h) e a /\
      stays h ext a (extension_rest h a e) a /\ stays h ext a (extension_rest h a e) e /\
      null_count h + trees_size depth h (kids (MapValue mx)) + 1 < 2 ^ 64)
  | OpGetRef a => has_room h a
  | OpPutRef a => 0 < ext a
  | OpCreate _ => True
  end.

(** The new values: those of an extension are only known not to stay without the
    entries that it replaces, since they can have the addresses of values that it
    destroys. *)
Definition is_new (op : value_op) (h : values) (ext : addr -> Z) (x : addr) : Prop :=
  match op with
  | OpExtend _ a e => ~ stays h ext a (extension_rest h a e) x
  | _ => h !! x = None
  end.

Definition new_ok (op : value_op) (new : gset addr) (h : values) (x : addr) (c : value_contents) : Prop :=
  match op with
  | OpExtend _ _ _ => Forall (fun y => y = bt_value_null \/ y ∈ new) (kids c)
  | _ => exists n, creates op = Some n /\ x = malloc h /\ c = new_contents n
  end.

(** The values after an operation: new ones, which are not frozen, and those before,
    with their new contents. *)
Definition evolves (op : value_op) (h : values) (ext : addr -> Z) (h' : values) : Prop :=
  exists new : gset addr, (forall x, x ∈ new -> is_new op h ext x) /\
    forall x v', h' !! x = Some v' ->
      if decide (x ∈ new) then v_frozen v' = false /\ new_ok op new h x (contents v')
      else exists v, h !! x = Some v /\ v_frozen v' = v_frozen v /\ changes op new h h' x (contents v) (contents v').
End steps.

Section ok.
Context (dev debug : bool) (malloc : values -> addr).
Context (hash_order : gmap (list Z) addr -> list (list Z * addr)).
Context (malloc_fresh : forall h, h !! malloc h = None).
Context (hash_order_perm : forall m, hash_order m ≡ₚ map_to_list m).
Abbreviation exec := (exec dev debug malloc hash_order).
Abbreviation evolves := (evolves malloc).

Definition is_extension (op : value_op) : bool := match op with OpExtend _ _ _ => true | _ => false end.

Lemma changes_after op new h h' x c : is_extension op = false -> changes malloc op new h h' x c (after (malloc h) op x c).
Proof. by destruct op. Qed.

(** Without new values. *)
Lemma evolves_old op h ext h' : is_extension op = false ->
  (forall x v', h' !! x = Some v' -> exists v, h !! x = Some v /\ v_frozen v' = v_frozen v /\
    contents v' = after (malloc h) op x (contents v)) -> evolves op h ext h'.
Proof.
  intros He Hall. exists ∅. split; [by intros x ?%elem_of_empty|]. intros x v' Hx.
  rewrite decide_False by apply not_elem_of_empty. destruct (Hall x v' Hx) as (v & Hv & Hf & ->). exists v.
  split; [done|]. split; [done|]. by apply changes_after.
Qed.

Lemma updates_evolves op h ext h' z c : is_extension op = false -> updates h h' z c ->
  (forall x v, h !! x = Some v -> after (malloc h) op x (contents v) = if decide (x = z) then c else contents v) ->
  evolves op h ext h'.
Proof.
  intros He Hup Haf. apply evolves_old; [done|]. intros x v' Hx. destruct (Hup x v' Hx) as (v & Hv & Hf & Hc).
  exists v. split; [done|]. split; [done|]. by rewrite (Haf x v Hv).
Qed.

(** Setting the contents of a value without elements. *)
Lemma set_ok op h ext a v c : is_extension op = false ->
  refs_ok h ext -> h !! a = Some v -> contents v <> NullValue -> c <> NullValue -> kids (contents v) = [] -> kids c = [] ->
  (forall x w, h !! x = Some w -> after (malloc h) op x (contents w) = if decide (x = a) then c else contents w) ->
  refs_ok (<[a := set_contents v c]> h) ext /\ evolves op h ext (<[a := set_contents v c]> h).
Proof.
  intros He Hok Ha Hn Hc Hk Hk' Haf. split.
  - eapply refs_recontent; [done|done|done|done|apply (ro_ext _ _ Hok)|]. intros x. rewrite !children_kids. simpl contents.
    by rewrite Hk, Hk'.
  - apply (updates_evolves op h ext _ a c He); [|exact Haf]. intros x v'. destruct (decide (x = a)) as [-> |Hne].
    + rewrite lookup_insert_eq. intros [= <-]. by exists v.
    + rewrite lookup_insert_ne by done. intros Hx. by exists v'.
Qed.

Lemma hot_ok {A} v (k : option A) : hot dev v -> BT_ASSERT_PRE_DEV_VALUE_HOT dev v k = k.
Proof.
  intros Hh. unfold BT_ASSERT_PRE_DEV_VALUE_HOT, BT_ASSERT_PRE_DEV, hot in *. destruct dev; [|done]. by rewrite Hh.
Qed.

Lemma count_delete_insert x e (l : list addr) i old : l !! i = Some old ->
  count x (delete i l) + count x [old] = count x l /\ count x (<[i := e]> l) = count x (delete i l) + count x [e].
Proof.
  intros Hi. rewrite delete_take_drop, insert_take_drop by (by eapply lookup_lt_Some).
  rewrite <- (take_drop_middle l i old Hi) at 3.
  rewrite !count_app, !count_cons. change (count x []) with 0. lia.
Qed.

Lemma count_map_delete (x : addr) (m : gmap (list Z) addr) key e : m !! key = Some e ->
  count x (map_to_list (delete key m)).*2 + count x [e] = count x (map_to_list m).*2.
Proof.
  intros Hk. rewrite <- (insert_delete_id m key e Hk) at 2.
  rewrite map_to_list_insert, fmap_cons by apply lookup_delete_eq. rewrite !count_cons.
  change (count x []) with 0. cbn [snd]. lia.
Qed.
Lemma count_map_insert (x : addr) (m : gmap (list Z) addr) key e : m !! key = None ->
  count x (map_to_list (<[key := e]> m)).*2 = count x (map_to_list m).*2 + count x [e].
Proof.
  intros Hk. rewrite map_to_list_insert, fmap_cons by done. rewrite !count_cons.
  change (count x []) with 0. cbn [snd]. lia.
Qed.

Lemma append_ok h ext a v l e :
  refs_ok h ext -> h !! a = Some v -> contents v = ArrayValue l -> hot dev v -> has_room h e ->
  exists h', append_array_element dev debug h a e = Some h' /\ refs_ok h' ext /\ updates h h' a (ArrayValue (l ++ [e])).
Proof.
  intros Hok Ha Hc Hh (w & Hw & Hr). unfold append_array_element. rewrite Ha, Hc, hot_ok by done.
  rewrite (recontent_insert h a v _ Ha). apply (attach_ok debug h ext a v _ e w); try done; [congruence|].
  intros x. rewrite !children_kids. simpl. rewrite Hc. apply count_app.
Qed.

Lemma set_element_ok h ext a v l index e :
  refs_ok h ext -> h !! a = Some v -> contents v = ArrayValue l -> hot dev v -> 0 <= index < Z.of_nat (length l) ->
  (let rest := ArrayValue (delete (Z.to_nat index) l) in stays h ext a rest a /\ stays h ext a rest e) -> has_room h e ->
  exists h', bt_value_array_set_element_by_index dev debug hash_order h a index e = Some h' /\ refs_ok h' ext /\
    updates h h' a (ArrayValue (<[Z.to_nat index := e]> l)).
Proof.
  intros Hok Ha Hc Hh Hi [Hsa Hse] (w & Hw & Hr). unfold bt_value_array_set_element_by_index.
  rewrite Ha, Hc, hot_ok by done. unfold BT_ASSERT_PRE. rewrite (proj2 (Z.ltb_lt _ _)), (proj2 (Z.leb_le _ _)) by lia.
  destruct (lookup_lt_is_Some_2 l (Z.to_nat index)) as [old Hold]; [lia|]. rewrite Hold.
  destruct (swap_ok debug hash_order hash_order_perm h ext a v (ArrayValue (delete (Z.to_nat index) l))
    (ArrayValue (<[Z.to_nat index := e]> l)) old e w) as (h1 & v1 & h' & Hv1 & Hput & Hget & Hok' & Hup); try done.
  - congruence.
  - intros x. rewrite !children_kids. simpl. rewrite Hc. by apply (count_delete_insert x e).
  - intros x. rewrite !children_kids. simpl. by apply (count_delete_insert x e l _ old).
  - specialize (Hput (ArrayValue l)). rewrite <- Hc, recontent_id, Hc in Hput by done. rewrite Hput.
    rewrite (recontent_at h1 a v1 _ Hv1). simpl contents. cbn iota.
    rewrite (recontent_insert _ a _ _ (recontent_at h1 a v1 _ Hv1)), recontent_twice. by exists h'.
Qed.

Lemma insert_entry_ok h ext a v m key e :
  refs_ok h ext -> h !! a = Some v -> contents v = MapValue m -> hot dev v ->
  (is_Some (m !! key) -> let rest := MapValue (delete key m) in stays h ext a rest a /\ stays h ext a rest e) -> has_room h e ->
  exists h', insert_map_value_entry dev debug hash_order h a key e = Some h' /\ refs_ok h' ext /\
    updates h h' a (MapValue (<[key := e]> m)).
Proof.
  intros Hok Ha Hc Hh Hst (w & Hw & Hr). unfold insert_map_value_entry. rewrite Ha, Hc, hot_ok by done.
  rewrite (recontent_insert h a v _ Ha). destruct (m !! key) as [old|] eqn:Hk.
  - destruct (Hst ltac:(by eexists)) as [Hsa Hse]. destruct (swap_ok debug hash_order hash_order_perm h ext a v (MapValue (delete key m)) (MapValue (<[key := e]> m)) old e w)
      as (h1 & v1 & h' & Hv1 & Hput & Hget & Hok' & Hup); try done.
    + congruence.
    + intros x. rewrite !children_kids, Hc. by apply count_map_delete.
    + intros x. rewrite !children_kids. simpl. rewrite <- (insert_delete_eq m). by apply count_map_insert, lookup_delete_eq.
    + rewrite Hput. by exists h'.
  - apply (attach_ok debug h ext a v _ e w); try done; [congruence|]. intros x. rewrite !children_kids, Hc. by apply count_map_insert.
Qed.

Lemma at_contents (x a : addr) (h : values) v (f : value_contents -> value_contents) c w :
  h !! a = Some v -> contents v = c -> h !! x = Some w ->
  (if decide (x = a) then f (contents w) else contents w) = if decide (x = a) then f c else contents w.
Proof. intros Ha Hc Hx. case_decide; [|done]. subst. congruence. Qed.

Lemma get_evolves h ext a w : refs_ok h ext -> h !! a = Some w -> ref_count (v_base w) + 1 < 2 ^ 64 ->
  exists h', bt_value_get_ref debug h a = Some h' /\ refs_ok h' (with_refs ext [a]) /\ evolves (OpGetRef a) h ext h'.
Proof.
  intros Hok Ha Hr. destruct (get_ref_ok debug h ext a w a NullValue Hok Ha Hr) as (h' & Hok' & Hg & _ & Hh').
  exists h'. split; [done|]. split; [done|]. apply evolves_old; [done|]. intros x v'. rewrite Hh'. destruct (decide (x = a)) as [-> |Hne].
  - rewrite lookup_insert_eq. intros [= <-]. by exists w.
  - rewrite lookup_insert_ne by done. intros Hx. by exists v'.
Qed.

Lemma put_evolves h ext a : refs_ok h ext -> 0 < ext a ->
  exists h', bt_value_put_ref debug hash_order h a = Some h' /\ refs_ok h' (fun x => ext x - count x [a]) /\
    kept h h' /\ evolves (OpPutRef a) h ext h'.
Proof.
  intros Hok Ha. destruct (put_ref_ok debug hash_order hash_order_perm h (fun x => ext x - count x [a]) a) as
    (h' & Hp & Hok' & Hk & _).
  - eapply refs_ok_ext; [|exact Hok]. intros x. unfold with_refs. lia.
  - intros x. pose proof (ro_ext _ _ Hok x). rewrite count_cons. change (count x []) with 0. case_decide; subst; lia.
  - exists h'. split; [done|]. split; [done|]. split; [done|]. apply evolves_old; [done|]. intros x v' Hx.
    destruct (kept_value _ _ Hk x v' Hx) as (v & Hv & [Hc Hf] & _). by exists v.
Qed.

Lemma new_contents_ok n : new_contents n <> NullValue /\ kids (new_contents n) = [].
Proof. by destruct n. Qed.

Lemma create_new h n : create malloc h n = create_value malloc h (new_contents n).
Proof. by destruct n. Qed.

Lemma create_evolves h ext n : refs_ok h ext ->
  refs_ok (create malloc h n).2 (with_refs ext [malloc h]) /\ evolves (OpCreate n) h ext (create malloc h n).2.
Proof.
  intros Hok. destruct (new_contents_ok n) as [Hc Hk]. rewrite create_new.
  pose proof (create_ok malloc malloc_fresh h ext (new_contents n) Hok Hc Hk) as Hcr.
  unfold create_value in *. destruct Hcr as (Hn & _ & _ & Hok' & _). split; [done|]. cbn [snd].
  exists {[malloc h]}. split; [by intros x ->%elem_of_singleton|]. intros x v'. destruct (decide (x ∈ _)) as [->%elem_of_singleton|Hne].
  - rewrite lookup_insert_eq. intros [= <-]. split; [done|]. by exists n.
  - rewrite lookup_insert_ne by (intros <-; by apply Hne, elem_of_singleton). intros Hx. by exists v'.
Qed.

(** The store with a new value, and the reference of the caller. *)
Definition with_new (h : values) (n : new_value) : values :=
  <[malloc h := bt_value_create_base (new_contents n)]> h.

Lemma with_new_ok h ext n : refs_ok h ext ->
  refs_ok (with_new h n) (with_refs ext [malloc h]) /\ has_room (with_new h n) (malloc h) /\
  forall x v, h !! x = Some v -> with_new h n !! x = Some v.
Proof.
  intros Hok. pose proof (malloc_fresh h) as Hm. split; [|split].
  - pose proof (proj1 (create_evolves h ext n Hok)) as Hc. by rewrite create_new in Hc.
  - eexists. unfold with_new. rewrite lookup_insert_eq. by split.
  - intros x v Hx. unfold with_new. rewrite lookup_insert_ne; [done|]. intros <-. congruence.
Qed.

(** Putting the caller's reference once the new value is in the container [a]. *)
Lemma put_new op n h ext a c h2 : refs_ok h ext -> is_Some (h !! a) ->
  refs_ok h2 (with_refs ext [malloc h]) -> updates (with_new h n) h2 a c ->
  is_extension op = false -> creates op = Some n ->
  (forall x v, h !! x = Some v -> after (malloc h) op x (contents v) = if decide (x = a) then c else contents v) ->
  exists h3, bt_value_put_ref debug hash_order h2 (malloc h) = Some h3 /\ refs_ok h3 ext /\ evolves op h ext h3.
Proof.
  intros Hok [va Ha] Hok2 Hup He Hcr Haf. pose proof (malloc_fresh h) as Hm.
  destruct (put_ref_ok debug hash_order hash_order_perm h2 ext (malloc h) Hok2 (ro_ext _ _ Hok)) as (h3 & Hp & Hok3 & Hk & _).
  exists h3. split; [done|]. split; [done|]. exists {[malloc h]}. split.
  { intros x ->%elem_of_singleton. by destruct op. }
  intros x v3 Hx.
  destruct (kept_value _ _ Hk x v3 Hx) as (v2 & Hv2 & [Hc3 Hf3] & _). destruct (Hup x v2 Hv2) as (v1 & Hv1 & Hf2 & Hc2).
  unfold with_new in Hv1. destruct (decide (x ∈ _)) as [->%elem_of_singleton|Hne].
  - rewrite lookup_insert_eq in Hv1. injection Hv1 as <-.
    rewrite decide_False in Hc2 by congruence. split; [by rewrite Hf3, Hf2|].
    rewrite Hc3, Hc2. destruct op; try done; by exists n.
  - rewrite lookup_insert_ne in Hv1 by (intros <-; by apply Hne, elem_of_singleton). exists v1. split; [done|]. split; [congruence|].
    rewrite Hc3, Hc2, <- (Haf x v1 Hv1). by apply changes_after.
Qed.

Lemma append_new_created h a n :
  append_new dev debug malloc hash_order h a n =
    do h2 <- append_array_element dev debug (with_new h n) a (malloc h); bt_value_put_ref debug hash_order h2 (malloc h).
Proof.
  destruct n; simpl; unfold bt_value_array_append_empty_array_element, bt_value_array_append_empty_map_element, append_created; simpl;
    try reflexivity; unfold with_new; simpl; destruct (append_array_element _ _ _ _ _) as [h2|]; try reflexivity;
    by destruct (bt_value_put_ref _ _ _ _).
Qed.

Lemma insert_new_created h a key n :
  insert_new dev debug malloc hash_order h a key n =
    do h2 <- insert_map_value_entry dev debug hash_order (with_new h n) a key (malloc h);
    bt_value_put_ref debug hash_order h2 (malloc h).
Proof.
  destruct n; simpl; unfold bt_value_map_insert_empty_array_entry, bt_value_map_insert_empty_map_entry, insert_created; simpl;
    try reflexivity; unfold with_new; simpl; destruct (insert_map_value_entry _ _ _ _ _ _ _) as [h2|]; try reflexivity;
    by destruct (bt_value_put_ref _ _ _ _).
Qed.

Lemma reached_mono h h' ext ext' x : (forall r, 0 < owned ext r -> 0 < owned ext' r) ->
  (forall y z, has_element h y z -> has_element h' y z) -> reached h ext x -> reached h' ext' x.
Proof.
  intros Ho Hh (r & Hr & Hrx). exists r. split; [by apply Ho|]. clear Hr.
  induction Hrx as [|r y x Hry _ IH]; [constructor|]. eapply rtc_l; [by apply Hh|exact IH].
Qed.

Lemma owned_more ext l r : 0 < owned ext r -> 0 < owned (with_refs ext l) r.
Proof. unfold owned, with_refs. pose proof (count_nonneg r l). lia. Qed.

Lemma owned_reached h ext x : 0 < ext x -> reached h ext x.
Proof. intros Hx. exists x. split; [unfold owned; case_decide; lia|constructor]. Qed.

(** A value that stays does so with a new value in the store. *)
Lemma stays_with_new h ext n a c x : stays h ext a c x -> stays (with_new h n) (with_refs ext [malloc h]) a c x.
Proof.
  pose proof (malloc_fresh h) as Hm. apply reached_mono; [intros r; apply owned_more|].
  intros y z (v & Hv & Hz). exists v. split; [|done]. unfold recontent, with_new in *.
  destruct (decide (y = malloc h)) as [-> |Hne].
  - destruct (decide (malloc h = a)) as [<- |Hna].
    + by rewrite lookup_alter_eq, Hm in Hv.
    + by rewrite lookup_alter_ne, Hm in Hv.
  - destruct (decide (y = a)) as [-> |Hna].
    + rewrite lookup_alter_eq in *. by rewrite lookup_insert_ne.
    + rewrite lookup_alter_ne in * by done. by rewrite lookup_insert_ne.
Qed.

Ltac scalar_set :=
  match goal with Hok : refs_ok ?h ?ext, Ha : ?h !! ?a = Some ?v, Hc : contents ?v = ?c |- _ =>
    rewrite Ha, Hc; unfold set_integer_value; rewrite ?hot_ok by done; eexists; split; [reflexivity|];
    apply (set_ok _ h ext a v); try done; [congruence|by rewrite Hc]
  end.

(** ** Extending a map *)

Lemma contained_mono h : forall h', (forall x v', h' !! x = Some v' -> exists v, h !! x = Some v /\ contents v' = contents v) ->
  forall y, contained h' y <= contained h y.
Proof.
  intros h' Hsub y. revert h Hsub. induction h' as [|x v' h' Hx IH] using map_ind; intros h Hsub.
  - change (contained ∅ y) with 0. apply contained_nonneg.
  - destruct (Hsub x v') as (v & Hv & Hc); [by rewrite lookup_insert_eq|].
    rewrite contained_new by done. specialize (IH (delete x h)). rewrite (contained_delete h x v) in IH by done.
    assert (children v' = children v) as -> by (unfold children; by rewrite Hc).
    assert (contained h' y <= contained h y - count y (children v)); [|lia]. apply IH.
    intros z w Hz. assert (z <> x) as Hne by congruence. destruct (Hsub z w) as (u & Hu & Hcu); [by rewrite lookup_insert_ne|].
    exists u. by rewrite lookup_delete_ne.
Qed.

Lemma null_counted h ext : refs_ok h ext -> null_count h = ext bt_value_null + 1 + contained h bt_value_null.
Proof.
  intros Hok. destruct (null_there h ext Hok) as [v Hv]. unfold null_count. rewrite Hv, (ro_count _ _ Hok _ v Hv).
  unfold owned. by rewrite decide_True.
Qed.

Lemma map_kids_iff (m : gmap (list Z) addr) x : x ∈ kids (MapValue m) <-> exists k, m !! k = Some x.
Proof.
  simpl. rewrite list_elem_of_fmap. split.
  - intros ([k y] & -> & Hin). exists k. by apply elem_of_map_to_list.
  - intros [k Hk]. exists (k, x). split; [done|by apply elem_of_map_to_list].
Qed.

Section extend.
Context (n : nat) (h0 : values) (ext : addr -> Z) (b e : addr) (m mx : gmap (list Z) addr).
Abbreviation rest0 := (MapValue (m ∖ mx)).

(** The values of [h] that stay have the same contents as in [h0], but the base map
    [b], which has the entries of [m] for the keys that [mx] does not have. *)
Record partly_extended (h : values) (mc : gmap (list Z) addr) : Prop := {
  pe_map vb : h !! b = Some vb -> contents vb = MapValue mc;
  pe_old x v : x <> b -> stays h0 ext b rest0 x -> h !! x = Some v ->
    exists v0, h0 !! x = Some v0 /\ contents v = contents v0;
  pe_rest key : mx !! key = None -> mc !! key = m !! key
}.

Lemma rest_element h mc c y z : partly_extended h mc -> stays h0 ext b rest0 y ->
  (forall k x, (m ∖ mx) !! k = Some x -> x ∈ kids c) -> is_Some (h !! y) ->
  has_element (recontent b rest0 h0) y z -> has_element (recontent b c h) y z.
Proof.
  intros Hpe Hst Hc [v Hv] (w & Hw & Hz). destruct (decide (y = b)) as [-> |Hne].
  - exists (set_contents v c). split; [by apply recontent_at|]. rewrite children_kids. simpl contents.
    unfold recontent in Hw. rewrite lookup_alter_eq in Hw. destruct (h0 !! b) as [v0|]; [|done]. injection Hw as <-.
    rewrite children_kids in Hz. apply map_kids_iff in Hz as [k Hk]. by apply (Hc k).
  - rewrite recontent_ne in Hw by done. exists v. rewrite recontent_ne by done. split; [done|].
    destruct (pe_old _ _ Hpe y v Hne Hst Hv) as (v0 & Hv0 & Hcv). simplify_eq. unfold children in *. by rewrite Hcv.
Qed.

Lemma stays_step y z : stays h0 ext b rest0 y -> has_element (recontent b rest0 h0) y z -> stays h0 ext b rest0 z.
Proof. intros (s & Hs & Hsr) Hyz. exists s. split; [done|]. by eapply rtc_r. Qed.

Lemma stays_there h mc ext' x : partly_extended h mc -> refs_ok h ext' ->
  (forall r, 0 < owned ext r -> 0 < owned ext' r) -> stays h0 ext b rest0 x -> is_Some (h !! x).
Proof.
  intros Hpe Hok Ho (r & Hr & Hrx).
  assert (Hst : stays h0 ext b rest0 r) by (exists r; split; [done|constructor]).
  assert (is_Some (h !! r)) as Hs.
  { apply (ro_there _ _ Hok). pose proof (contained_nonneg h r). specialize (Ho r Hr). lia. }
  clear Hr. induction Hrx as [|r y x Hry _ IH]; [done|]. apply IH; [by eapply stays_step|].
  destruct (decide (r = b)) as [-> |Hne].
  - destruct Hs as [vb Hb]. pose proof (pe_map _ _ Hpe vb Hb) as Hcb.
    destruct (rest_element h mc (contents vb) b y Hpe Hst) as (v & Hv & Hy); [|by eexists|done|].
    + intros k z [Hk Hx]%lookup_difference_Some. rewrite Hcb. apply map_kids_iff. exists k. by rewrite (pe_rest _ _ Hpe).
    + rewrite recontent_id in Hv by done. by eapply children_there.
  - destruct Hs as [v Hv]. destruct (pe_old _ _ Hpe r v Hne Hst Hv) as (u & Hu & Hcu).
    destruct Hry as (w & Hw & Hy). rewrite recontent_ne in Hw by done. simplify_eq.
    eapply children_there; [exact Hok|exact Hv|]. unfold children in *. by rewrite Hcu.
Qed.

Lemma stays_later h mc ext' c x : partly_extended h mc -> refs_ok h ext' ->
  (forall r, 0 < owned ext r -> 0 < owned ext' r) -> (forall k x, (m ∖ mx) !! k = Some x -> x ∈ kids c) ->
  stays h0 ext b rest0 x -> stays h ext' b c x.
Proof.
  intros Hpe Hok Ho Hc (r & Hr & Hrx). exists r. split; [by apply Ho|].
  assert (Hst : stays h0 ext b rest0 r) by (exists r; split; [done|constructor]). clear Hr.
  induction Hrx as [|r y x Hry _ IH]; [constructor|]. eapply rtc_l.
  - eapply rest_element; [done|done|done|by eapply stays_there|exact Hry].
  - apply IH. by eapply stays_step.
Qed.

(** A loop on the entries of the extension: the map [b] and the extension [e]. *)
Context (v0 ve : bt_value) (Hok0 : refs_ok h0 ext) (Hb0 : h0 !! b = Some v0) (Hc0 : contents v0 = MapValue m).
Context (Hhot : hot dev v0) (He0 : h0 !! e = Some ve) (Hce : contents ve = MapValue mx).
Context (Htree : Forall (tree n h0) (kids (MapValue mx))) (Hout : ~ rtc (has_element h0) e b).
Context (Hsb : stays h0 ext b rest0 b) (Hse : stays h0 ext b rest0 e).

Definition new_or_null (new : gset addr) (y : addr) : Prop := y = bt_value_null \/ y ∈ new.

(** The new values and the old ones of a store. *)
Record values_of (new : gset addr) (h : values) : Prop := {
  vo_stays x : x ∈ new -> ~ stays h0 ext b rest0 x;
  vo_new x v : x ∈ new -> h !! x = Some v -> v_frozen v = false /\ Forall (new_or_null new) (children v);
  vo_old x w : x ∉ new -> h !! x = Some w -> exists v, h0 !! x = Some v /\ v_frozen w = v_frozen v /\
    (x <> b -> contents w = contents v /\ Forall (fun y => y ∉ new) (children w))
}.

(** The store when the entries of the keys [done] were copied. *)
Record extending (done : list (list Z)) (new : gset addr) (h : values) (mc : gmap (list Z) addr) : Prop := {
  en_refs : refs_ok h ext;
  en_values : values_of new h;
  en_map vb : h !! b = Some vb -> contents vb = MapValue mc;
  en_done key : key ∈ done -> exists x y, mx !! key = Some x /\ mc !! key = Some y /\ new_or_null new y /\ same eq n h0 h x y;
  en_left key : key ∉ done -> mc !! key = m !! key
}.

Lemma part_of new h mc : values_of new h -> (forall vb, h !! b = Some vb -> contents vb = MapValue mc) ->
  (forall key, mx !! key = None -> mc !! key = m !! key) -> partly_extended h mc.
Proof.
  intros Hvo Hm Hr. split; [done| |done]. intros x v Hne Hst Hv.
  assert (x ∉ new) as Hx by (intros Hin; by apply (vo_stays _ _ Hvo x Hin)).
  destruct (vo_old _ _ Hvo x v Hx Hv) as (u & Hu & _ & Hc). exists u. split; [done|]. by apply Hc.
Qed.

Lemma left_rest done new h mc key : extending done new h mc -> mx !! key = None -> mc !! key = m !! key.
Proof.
  intros He Hk. apply (en_left _ _ _ _ He). intros Hin. destruct (en_done _ _ _ _ He key Hin) as (x & _ & Hx & _). congruence.
Qed.

Lemma source_stays y : rtc (has_element h0) e y -> y <> b /\ stays h0 ext b rest0 y.
Proof.
  intros Hey. split; [by intros -> |]. revert Hey. assert (Hse' := Hse). assert (Hout' := Hout). revert Hse' Hout'.
  clear - Hok0. intros Hse Hout Hey. induction Hey as [|x y z (v & Hv & Hy) _ IH]; [done|]. apply IH.
  - eapply stays_step; [done|]. exists v. rewrite recontent_ne; [done|]. intros ->. apply Hout. constructor.
  - intros Hyb. apply Hout. eapply rtc_l; [by exists v|done].
Qed.

(** The values of the extension are as they were. *)
Lemma source_agree h mc : partly_extended h mc -> refs_ok h ext ->
  agree (rtc (has_element h0) e) h0 h /\ agree (rtc (has_element h0) e) h h0.
Proof.
  intros Hpe Hok.
  assert (Hch : forall x v, rtc (has_element h0) e x -> h0 !! x = Some v -> Forall (rtc (has_element h0) e) (children v)).
  { intros x v Hx Hv. rewrite Forall_forall. intros y Hy. eapply rtc_r; [done|by exists v]. }
  split; intros x v Hx Hv; destruct (source_stays x Hx) as [Hne Hst].
  - destruct (stays_there h mc ext x Hpe Hok ltac:(done) Hst) as [w Hw]. split; [|by eapply Hch].
    exists w. split; [done|]. destruct (pe_old _ _ Hpe x w Hne Hst Hw) as (u & Hu & Hc). congruence.
  - destruct (pe_old _ _ Hpe x v Hne Hst Hv) as (w & Hw & Hcw).
    split; [by exists w|]. unfold children. rewrite Hcw. by apply (Hch x w).
Qed.

(** The new values that are left are as they were. *)
Lemma new_agree new h h' : (exists x, refs_ok h x) -> (exists x, refs_ok h' x) -> values_of new h ->
  (forall x v v', x <> b -> h !! x = Some v -> h' !! x = Some v' -> contents v' = contents v) ->
  agree (fun y => new_or_null new y /\ is_Some (h' !! y)) h h'.
Proof.
  intros [ext1 Hok] [ext' Hok'] Hvo Hsame x v [Hx [v' Hv']] Hv.
  assert (Hne : x <> b).
  { intros ->. destruct Hx as [Hn|Hn]; [|by apply (vo_stays _ _ Hvo b)]. apply (ro_null _ _ Hok0 b v0 Hb0) in Hn. congruence. }
  pose proof (Hsame x v v' Hne Hv Hv') as Hc. split; [by exists v'|].
  assert (Hall : Forall (new_or_null new) (children v)).
  { destruct Hx as [-> |Hn]; [|by eapply vo_new]. unfold children.
    rewrite (proj2 (ro_null _ _ Hok _ v Hv)) by done. by apply List.Forall_nil. }
  rewrite Forall_forall in *. intros y Hy. split; [by apply Hall|].
  eapply children_there; [exact Hok'|exact Hv'|]. unfold children in *. by rewrite Hc.
Qed.

(** The values after a copy. *)
Lemma values_copied new h h1 ext1 : refs_ok h ext -> refs_ok h1 ext1 -> copied h h1 -> values_of new h ->
  (forall x, stays h0 ext b rest0 x -> is_Some (h !! x)) -> values_of (new ∪ (dom h1 ∖ dom h)) h1.
Proof.
  intros Hok Hok1 Hcp Hvo Hst.
  assert (Hin : forall x, x ∈ new ∪ (dom h1 ∖ dom h) <-> x ∈ new \/ (is_Some (h1 !! x) /\ h !! x = None)).
  { intros x. by rewrite elem_of_union, elem_of_difference, elem_of_dom, not_elem_of_dom. }
  split.
  - intros x [Hx|[_ Hx]]%Hin Hs; [by apply (vo_stays _ _ Hvo x)|]. destruct (Hst x Hs) as [v Hv]. congruence.
  - intros x v1 Hx Hv1. destruct (h !! x) as [v|] eqn:E.
    + destruct (cp_old _ _ Hcp x v E) as (v1' & Hv1' & Hc & Hf & _). simplify_eq.
      apply Hin in Hx as [Hx|[_ Hx]]; [|congruence]. destruct (vo_new _ _ Hvo x v Hx E) as [Hfz Hch].
      split; [congruence|]. assert (children v1 = children v) as -> by (unfold children; by rewrite Hc).
      eapply Forall_impl; [exact Hch|]. intros y [Hy|Hy]; [by left|right]. apply Hin. by left.
    + destruct (cp_new _ _ Hcp x v1 E Hv1) as (Hf & _ & Hch). split; [done|].
      rewrite Forall_forall in *. intros y Hy. destruct (Hch y Hy) as [?|Hn]; [by left|right].
      apply Hin. right. split; [by eapply children_there|done].
  - intros x v1 Hx Hv1. destruct (h !! x) as [v|] eqn:E.
    + destruct (cp_old _ _ Hcp x v E) as (v1' & Hv1' & Hc & Hf & _). simplify_eq.
      destruct (vo_old _ _ Hvo x v) as (u & Hu & Hfu & Hcu); [|done|].
      { intros Hn. apply Hx, Hin. by left. }
      exists u. split; [done|]. split; [congruence|]. intros Hne. destruct (Hcu Hne) as [Hc' Hch]. split; [congruence|].
      assert (children v1 = children v) as -> by (unfold children; by rewrite Hc).
      rewrite Forall_forall in *. intros y Hy [Hn|[_ Hn]]%Hin; [by apply (Hch y)|].
      destruct (children_there h ext x v y Hok E Hy) as [w Hw]. congruence.
    + exfalso. apply Hx, Hin. right. split; [by exists v1|done].
Qed.

(** The values after the insertion of an entry in [b]. *)
Lemma values_updated new h h' c : updates h h' b c -> values_of new h -> values_of new h'.
Proof.
  intros Hup Hvo. split; [apply (vo_stays _ _ Hvo)|..].
  - intros x v' Hx Hv'. destruct (Hup x v' Hv') as (v & Hv & Hf & Hc).
    assert (x <> b) as Hne by (intros ->; by apply (vo_stays _ _ Hvo b)). rewrite decide_False in Hc by done.
    destruct (vo_new _ _ Hvo x v Hx Hv) as [Hfz Hch]. split; [congruence|]. unfold children. by rewrite Hc.
  - intros x v' Hx Hv'. destruct (Hup x v' Hv') as (v & Hv & Hf & Hc).
    destruct (vo_old _ _ Hvo x v Hx Hv) as (u & Hu & Hfu & Hcu). exists u. split; [done|]. split; [congruence|].
    intros Hne. rewrite decide_False in Hc by done. destruct (Hcu Hne) as [Hcc Hch]. split; [congruence|].
    unfold children. by rewrite Hc.
Qed.

Lemma extending_start : extending [] ∅ h0 m.
Proof.
  split; [done| |congruence|by intros key ?%elem_of_nil|done].
  split; [by intros x ?%elem_of_empty|by intros x v ?%elem_of_empty|].
  intros x v _ Hv. exists v. split; [done|]. split; [done|]. intros _. split; [done|].
  apply Forall_forall. intros y _. apply not_elem_of_empty.
Qed.

(** Inserting and putting the copy [y] of an entry. *)
Lemma insert_put h1 vb mc key y w : refs_ok h1 (with_refs ext [y]) -> h1 !! b = Some vb -> contents vb = MapValue mc -> hot dev vb ->
  (is_Some (mc !! key) -> stays h1 (with_refs ext [y]) b (MapValue (delete key mc)) b) ->
  h1 !! y = Some w -> ref_count (v_base w) + 1 < 2 ^ 64 ->
  exists h2 h3, bt_value_map_insert_entry dev debug hash_order h1 b key y = Some h2 /\
    bt_value_put_ref debug hash_order h2 y = Some h3 /\ refs_ok h3 ext /\
    updates h1 h3 b (MapValue (<[key := y]> mc)) /\ null_count h3 <= null_count h1.
Proof.
  intros Hok1 Hb Hcb Hh Hst Hw Hr.
  assert (Hey : 0 < with_refs ext [y] y).
  { unfold with_refs. rewrite count_cons, decide_True by done. pose proof (ro_ext _ _ Hok0 y). change (count y []) with 0. lia. }
  destruct (insert_entry_ok h1 (with_refs ext [y]) b vb mc key y Hok1 Hb Hcb Hh) as (h2 & Hi & Hok2 & Hup).
  { intros Hk. split; [by apply Hst|by apply owned_reached]. }
  { by exists w. }
  destruct (put_ref_ok debug hash_order hash_order_perm h2 ext y Hok2 (ro_ext _ _ Hok0)) as (h3 & Hp & Hok3 & Hk & _).
  assert (Hup3 : updates h1 h3 b (MapValue (<[key := y]> mc))).
  { intros x v3 Hx. destruct (kept_value _ _ Hk x v3 Hx) as (v2 & Hv2 & [Hc3 Hf3] & _).
    destruct (Hup x v2 Hv2) as (v1 & Hv1 & Hf2 & Hc2). exists v1. split; [done|]. split; congruence. }
  exists h2, h3. split; [done|]. split; [done|]. split; [done|]. split; [done|].
  rewrite (null_counted h3 ext), (null_counted h1 (with_refs ext [y])) by done. unfold with_refs.
  pose proof (contained_mono (recontent b (MapValue (<[key := y]> mc)) h1) h3) as Hle.
  specialize (Hle ltac:(intros x v3 Hx; destruct (Hup3 x v3 Hx) as (v1 & Hv1 & _ & Hc); destruct (decide (x = b)) as [-> |Hne];
    [exists (set_contents v1 (MapValue (<[key := y]> mc))); split; [by apply recontent_at|done]
    |exists v1; by rewrite recontent_ne]) bt_value_null).
  rewrite <- (recontent_insert h1 b vb), (contained_insert h1 b vb), !children_kids in Hle by done. simpl contents in Hle. rewrite Hcb in Hle.
  assert (count bt_value_null (kids (MapValue (<[key := y]> mc))) <= count bt_value_null (kids (MapValue mc)) + count bt_value_null [y]); [|lia].
  simpl kids. rewrite <- insert_delete_eq, count_map_insert by apply lookup_delete_eq.
  destruct (mc !! key) as [o|] eqn:Hko; [|by rewrite delete_id].
  pose proof (count_map_delete bt_value_null mc key o Hko). pose proof (count_nonneg bt_value_null [o]). lia.
Qed.

(** The copy is there, with room for a reference. *)
Lemma copy_there new h h1 y : refs_ok h1 (with_refs ext [y]) -> copied h h1 -> y = bt_value_null \/ h !! y = None ->
  null_count h1 + 1 < 2 ^ 64 ->
  new_or_null (new ∪ (dom h1 ∖ dom h)) y /\ exists w, h1 !! y = Some w /\ ref_count (v_base w) + 1 < 2 ^ 64.
Proof.
  intros Hok1 Hc1 Hy Hroom. destruct (null_there h1 _ Hok1) as [w0 Hw0]. unfold null_count in Hroom. rewrite Hw0 in Hroom.
  destruct Hy as [-> |Hyn]; [split; [by left|by exists w0]|].
  assert (is_Some (h1 !! y)) as [w Hw].
  { apply (ro_there _ _ Hok1). unfold owned, with_refs. rewrite count_cons, decide_True by done. change (count y []) with 0.
    pose proof (ro_ext _ _ Hok0 y). pose proof (contained_nonneg h1 y). case_decide; lia. }
  split; [right; rewrite elem_of_union, elem_of_difference, elem_of_dom, not_elem_of_dom; right; by split|].
  exists w. split; [done|]. destruct (cp_new _ _ Hc1 y w Hyn Hw) as (_ & -> & _). done.
Qed.

(** One entry. *)
Lemma extend_step done new h mc key x :
  extending done new h mc -> mx !! key = Some x -> key ∉ done -> null_count h + tree_size n h0 x + 1 < 2 ^ 64 ->
  exists h3 new3 y, extend_map_element dev debug malloc hash_order n b key x h = Some (FuncOk, h3) /\
    extending (key :: done) new3 h3 (<[key := y]> mc) /\ null_count h3 <= null_count h + tree_size n h0 x.
Proof.
  intros Hen Hk Hnd Hroom. pose proof (fun k => left_rest _ _ _ _ k Hen) as Hrest. destruct Hen as [Hok Hvo Hmap Hdone Hleft].
  pose proof (part_of new h mc Hvo Hmap Hrest) as Hpe.
  destruct (source_agree h mc Hpe Hok) as [Hag Hga].
  assert (HT : rtc (has_element h0) e x).
  { apply rtc_once. exists ve. split; [done|]. rewrite children_kids, Hce. apply map_kids_iff. by exists key. }
  assert (Htx : tree n h0 x) by (rewrite Forall_forall in Htree; apply Htree, map_kids_iff; by exists key).
  assert (Hsz : tree_size n h x = tree_size n h0 x) by (by eapply tree_size_change).
  destruct (copies_all dev debug malloc hash_order malloc_fresh hash_order_perm n h ext x Hok) as
    (y & h1 & Hcp & Hok1 & Hc1 & Hs1 & Hy & Hn1); [by eapply tree_change|lia|].
  set (new1 := new ∪ (dom h1 ∖ dom h)).
  assert (Hst : forall z, stays h0 ext b rest0 z -> is_Some (h !! z)) by (intros z; by eapply stays_there).
  pose proof (values_copied new h h1 _ Hok Hok1 Hc1 Hvo Hst) as Hvo1. fold new1 in Hvo1.
  destruct (Hst b Hsb) as [vb Hb]. destruct (cp_old _ _ Hc1 b vb Hb) as (vb1 & Hb1 & Hcb1 & Hfb1 & _).
  destruct (vo_old _ _ Hvo b vb) as (u & Hu & Hfu & _); [by intros Hin; apply (vo_stays _ _ Hvo b)|done|]. simplify_eq.
  assert (Hcb : contents vb1 = MapValue mc) by (rewrite Hcb1; by apply Hmap).
  destruct (copy_there new h h1 y Hok1 Hc1 Hy ltac:(lia)) as [Hyn (w & Hw & Hr)].
  assert (Hpe1 : partly_extended h1 mc) by (apply (part_of new1); [done|congruence|done]).
  destruct (insert_put h1 vb1 mc key y w Hok1 Hb1 Hcb) as (h2 & h3 & Hi & Hp & Hok3 & Hup3 & Hn3); [| |done|done|].
  { intros Hd. rewrite Hfb1, Hfu. by apply Hhot. }
  { intros _. apply (stays_later h1 mc); [done|done|intros r; apply owned_more| |done].
    intros k z [Hkz Hkx]%lookup_difference_Some. apply map_kids_iff. exists k.
    rewrite lookup_delete_ne by congruence. by rewrite Hrest. }
  exists h3, new1, y. split; [unfold extend_map_element; by rewrite Hcp, Hi, Hp|]. split; [|lia].
  pose proof (values_updated new1 h1 h3 _ Hup3 Hvo1) as Hvo3.
  assert (Hmap3 : forall vb, h3 !! b = Some vb -> contents vb = MapValue (<[key := y]> mc)).
  { intros v3 Hv3. destruct (Hup3 b v3 Hv3) as (v1 & _ & _ & Hc). by rewrite decide_True in Hc. }
  assert (Hrest3 : forall k, mx !! k = None -> <[key := y]> mc !! k = m !! k).
  { intros k Hkn. rewrite lookup_insert_ne by congruence. by apply Hrest. }
  assert (Hb3 : is_Some (h3 !! b)) by (apply (stays_there h3 (<[key := y]> mc) ext); [by apply (part_of new1)|done|done|done]).
  assert (Hsame : forall k z s, <[key := y]> mc !! k = Some z -> new_or_null new1 z -> same eq n h0 h1 s z -> same eq n h0 h3 s z).
  { intros k z s Hkz Hz. apply (same_change eq n (fun _ => True) (fun y => new_or_null new1 y /\ is_Some (h3 !! y))); try done.
    - intros p v _ Hv. split; [by exists v|by apply Forall_true].
    - apply new_agree; [by eexists|by eexists|done|]. intros p v v' Hne Hv Hv'.
      destruct (Hup3 p v' Hv') as (v1 & Hv1 & _ & Hc). rewrite decide_False in Hc by done. congruence.
    - split; [done|]. destruct Hb3 as [v3 Hv3]. eapply children_there; [exact Hok3|exact Hv3|].
      rewrite children_kids, (Hmap3 v3 Hv3). apply map_kids_iff. by exists k. }
  assert (Hx1 : same eq n h0 h1 x y).
  { apply (same_change eq n (rtc (has_element h0) e) (fun _ => True) h h0 h1 h1); try done.
    intros p v _ Hv. split; [by exists v|by apply Forall_true]. }
  split; [done|done|done|..].
  - intros k Hkin. destruct (decide (k = key)) as [-> |Hne].
    + exists x, y. rewrite lookup_insert_eq. do 3 (split; [done|]). apply (Hsame key); [by rewrite lookup_insert_eq|done|done].
    + apply elem_of_cons in Hkin as [?|Hkin]; [done|]. destruct (Hdone k Hkin) as (s & z & Hs & Hz & Hnz & Hsz').
      exists s, z. rewrite lookup_insert_ne by done.
      assert (Hnz1 : new_or_null new1 z) by (destruct Hnz as [?|?]; [by left|right; subst new1; apply elem_of_union; by left]).
      do 3 (split; [done|]). apply (Hsame k); [by rewrite lookup_insert_ne|done|].
      apply (same_change eq n (fun _ => True) (fun z => is_Some (h !! z)) h0 h0 h h1); try done.
      * intros p v _ Hv. split; [by exists v|by apply Forall_true].
      * apply agree_old; [done|by eexists].
      * eapply children_there; [exact Hok|exact Hb|]. rewrite children_kids, (Hmap vb Hb). apply map_kids_iff. by exists k.
  - intros k Hkn. apply not_elem_of_cons in Hkn as [Hne Hkn]. rewrite lookup_insert_ne by done. by apply Hleft.
Qed.

(** The entries that are left. *)
Lemma extend_loop : forall es done new h mc,
  extending done new h mc -> NoDup es.*1 -> (forall k, k ∈ done -> k ∉ es.*1) ->
  Forall (fun p => mx !! p.1 = Some p.2) es ->
  null_count h + trees_size n h0 es.*2 + 1 < 2 ^ 64 ->
  exists h3 new3 m3, foreach_loop (extend_map_element dev debug malloc hash_order n b) es h = Some (FuncOk, h3) /\
    extending (rev es.*1 ++ done) new3 h3 m3.
Proof.
  induction es as [|[key x] es IH]; intros done new h mc Hen Hnd Hdis Hmx Hroom; [by exists h, new, mc|].
  apply Forall_cons_1 in Hmx as [Hk Hmx]. cbn [fmap list_fmap fst snd] in *. apply NoDup_cons in Hnd as [Hkn Hnd].
  assert (Hnk : key ∉ done) by (intros Hin; apply (Hdis key Hin); by left).
  unfold trees_size in Hroom. simpl in Hroom. change (foldr Z.add 0 (map (tree_size n h0) es.*2)) with (trees_size n h0 es.*2) in Hroom.
  assert (Hnn : 0 <= trees_size n h0 es.*2) by apply sizes_nonneg.
  destruct (extend_step done new h mc key x Hen Hk Hnk) as (h1 & new1 & y & He1 & Hen1 & Hn1); [lia|].
  destruct (IH (key :: done) new1 h1 _ Hen1 Hnd) as (h3 & new3 & m3 & Hl & Hen3); [|done|lia|].
  { intros k [-> |Hin]%elem_of_cons; [done|]. intros Hk'. apply (Hdis k Hin). by right. }
  exists h3, new3, m3. cbn [foreach_loop]. rewrite He1. split; [done|]. simpl rev. by rewrite <- app_assoc.
Qed.
End extend.

Lemma extension_rest_eq h a e va ve m mx : h !! a = Some va -> contents va = MapValue m ->
  h !! e = Some ve -> contents ve = MapValue mx -> extension_rest h a e = MapValue (m ∖ mx).
Proof. unfold extension_rest. intros -> Hm -> Hx. simpl. by rewrite Hm, Hx. Qed.

Lemma extend_ok depth a e h ext : refs_ok h ext -> applicable dev (OpExtend depth a e) h ext ->
  exists h', exec (OpExtend depth a e) h = Some h' /\ refs_ok h' ext /\ evolves (OpExtend depth a e) h ext h'.
Proof.
  intros Hok (va & Ha & (m & ve & mx & Hca & He & Hce & Htr & Hout & Hsa & Hse & Hroom) & Hh).
  pose proof (extension_rest_eq h a e va ve m mx Ha Hca He Hce) as Hrest. rewrite Hrest in Hsa, Hse.
  assert (Hp2 : (hash_order mx).*2 ≡ₚ kids (MapValue mx)) by (simpl; by rewrite hash_order_perm).
  assert (Hnd : NoDup (hash_order mx).*1) by (rewrite hash_order_perm; apply NoDup_fst_map_to_list).
  assert (Hin : forall key, key ∈ (hash_order mx).*1 <-> is_Some (mx !! key)).
  { intros key. rewrite hash_order_perm, list_elem_of_fmap. split.
    - intros ([k x] & -> & Hkx%elem_of_map_to_list). by exists x.
    - intros [x Hx]. exists (key, x). split; [done|by apply elem_of_map_to_list]. }
  destruct (extend_loop depth h ext a e m mx va ve Hok Ha Hca Hh He Hce Htr Hout Hsa Hse (hash_order mx) [] ∅ h m)
    as (h' & new & m' & Hl & Hen).
  - by eapply extending_start.
  - done.
  - by intros k ?%elem_of_nil.
  - rewrite hash_order_perm. apply Forall_forall. intros [k x] Hkx%elem_of_map_to_list. done.
  - unfold trees_size in *. rewrite (sum_perm _ (map (tree_size depth h) (kids (MapValue mx)))); [done|by apply Permutation_map].
  - exists h'. split; [|split; [apply (en_refs _ _ _ _ _ _ _ _ _ _ Hen)|]].
    + simpl. unfold bt_value_map_extend, bt_value_map_foreach_entry_const, foreach_map_entry.
      rewrite Ha, hot_ok, Hca, He, Hce, Hl by done. done.
    + destruct Hen as [_ Hvo Hmap Hdone Hleft]. exists new. split.
      { intros x Hx. simpl. rewrite Hrest. by apply (vo_stays _ _ _ _ _ _ _ Hvo). }
      intros x v' Hx. case_decide as Hxn.
      * destruct (vo_new _ _ _ _ _ _ _ Hvo x v' Hxn Hx) as [Hf Hch]. split; [done|exact Hch].
      * destruct (vo_old _ _ _ _ _ _ _ Hvo x v' Hxn Hx) as (v & Hv & Hf & Hc). exists v. split; [done|]. split; [done|].
        simpl. case_decide as Hxa; [|destruct (Hc Hxa) as [Hc1 Hc2]; rewrite children_kids, Hc1 in Hc2; by split].
        subst x. simplify_eq. exists m, m', ve, mx. split; [done|]. split; [by apply Hmap|]. split; [done|]. split; [done|].
        intros key. rewrite app_nil_r in Hdone, Hleft. destruct (mx !! key) as [x|] eqn:Hk.
        -- destruct (Hdone key) as (x' & y & Hx' & Hy & Hny & Hs); [rewrite <- Permutation_rev, Hin; by exists x|].
           simplify_eq. by exists y.
        -- apply Hleft. rewrite <- Permutation_rev, Hin, Hk. by intros [? ?].
Qed.

Lemma append_new_ok h ext a v l n : refs_ok h ext -> h !! a = Some v -> contents v = ArrayValue l -> hot dev v ->
  exists h', exec (OpAppendNew a n) h = Some h' /\ refs_ok h' ext /\ evolves (OpAppendNew a n) h ext h'.
Proof.
  intros Hok Ha Hc Hh. destruct (with_new_ok h ext n Hok) as (Hok1 & Hr & Hold).
  destruct (append_ok (with_new h n) _ a v l (malloc h) Hok1 (Hold a v Ha) Hc Hh Hr) as (h2 & Hx & Hok2 & Hup).
  destruct (put_new (OpAppendNew a n) n h ext a _ h2 Hok ltac:(by eexists) Hok2 Hup eq_refl eq_refl) as (h3 & Hp & Hok3 & Hev).
  { intros x w Hw.
    by apply (at_contents x a h v (fun c => match c with ArrayValue l => ArrayValue (l ++ [malloc h]) | c => c end) _ w Ha Hc Hw). }
  exists h3. split; [|done]. simpl. by rewrite append_new_created, Hx.
Qed.

Lemma insert_new_ok h ext a v m key n : refs_ok h ext -> h !! a = Some v -> contents v = MapValue m -> hot dev v ->
  (is_Some (m !! key) -> stays h ext a (MapValue (delete key m)) a) ->
  exists h', exec (OpInsertNew a key n) h = Some h' /\ refs_ok h' ext /\ evolves (OpInsertNew a key n) h ext h'.
Proof.
  intros Hok Ha Hc Hh Hst. destruct (with_new_ok h ext n Hok) as (Hok1 & Hr & Hold).
  assert (Hone : 0 < with_refs ext [malloc h] (malloc h)).
  { unfold with_refs. rewrite count_cons, decide_True by done. pose proof (ro_ext _ _ Hok (malloc h)).
    change (count (malloc h) []) with 0. lia. }
  destruct (insert_entry_ok (with_new h n) (with_refs ext [malloc h]) a v m key (malloc h) Hok1 (Hold a v Ha) Hc Hh)
    as (h2 & Hx & Hok2 & Hup); [|done|].
  { intros Hk. split; [by apply stays_with_new, Hst|by apply owned_reached]. }
  destruct (put_new (OpInsertNew a key n) n h ext a _ h2 Hok ltac:(by eexists) Hok2 Hup eq_refl eq_refl) as (h3 & Hp & Hok3 & Hev).
  { intros x w Hw.
    by apply (at_contents x a h v (fun c => match c with MapValue m => MapValue (<[key := malloc h]> m) | c => c end) _ w Ha Hc Hw). }
  exists h3. split; [|done]. simpl. by rewrite insert_new_created, Hx.
Qed.

Lemma op_ok op h ext : refs_ok h ext -> applicable dev op h ext ->
  exists h', exec op h = Some h' /\ refs_ok h' (ext_after malloc op h ext) /\ evolves op h ext h'.
Proof.
  intros Hok. destruct op as [a val|a val|a val|a val|a val|a e|a n|a index e|a key e|a key n|depth a e|a|a|n];
    try (simpl; intros (v & Ha & [x Hc] & Hh); unfold bt_value_integer_unsigned_set, bt_value_integer_signed_set,
      bt_value_real_set, bt_value_string_set; scalar_set; fail).
  - simpl. intros (v & x & Ha & Hc). unfold bt_value_bool_set. scalar_set.
  - intros [(v & Ha & [l Hc] & Hh) Hr]. destruct (append_ok h ext a v l e Hok Ha Hc Hh Hr) as (h' & Hx & Hok' & Hup).
    exists h'. split; [done|]. split; [done|]. eapply updates_evolves; [done|exact Hup|]. intros x w Hw.
    by apply (at_contents x a h v (fun c => match c with ArrayValue l => ArrayValue (l ++ [e]) | c => c end) _ w Ha Hc Hw).
  - intros Hap. destruct Hap as (v & Ha & [l Hc] & Hh). by eapply append_new_ok.
  - intros [(v & Ha & (l & Hc & Hi & Hst) & Hh) Hr].
    destruct (set_element_ok h ext a v l index e Hok Ha Hc Hh Hi Hst Hr) as (h' & Hx & Hok' & Hup).
    exists h'. split; [done|]. split; [done|]. eapply updates_evolves; [done|exact Hup|]. intros x w Hw.
    by apply (at_contents x a h v (fun c => match c with ArrayValue l => ArrayValue (<[Z.to_nat index := e]> l) | c => c end) _ w Ha Hc Hw).
  - intros [(v & Ha & (m & Hc & Hst) & Hh) Hr].
    destruct (insert_entry_ok h ext a v m key e Hok Ha Hc Hh Hst Hr) as (h' & Hx & Hok' & Hup).
    exists h'. split; [done|]. split; [done|]. eapply updates_evolves; [done|exact Hup|]. intros x w Hw.
    by apply (at_contents x a h v (fun c => match c with MapValue m => MapValue (<[key := e]> m) | c => c end) _ w Ha Hc Hw).
  - intros Hap. destruct Hap as (v & Ha & (m & Hc & Hst) & Hh). by eapply insert_new_ok.
  - by apply extend_ok.
  - intros (w & Ha & Hr). by apply (get_evolves h ext a w).
  - intros Ha. destruct (put_evolves h ext a Hok Ha) as (h' & Hp & Hok' & _ & Hev). by exists h'.
  - intros _. eexists. split; [reflexivity|]. by apply create_evolves.
Qed.
End ok.

(** * Reachability *)

Lemma contained_parent h x : 0 < contained h x -> exists p v, h !! p = Some v /\ x ∈ children v.
Proof.
  intros Hx. apply count_pos, list_elem_of_In, in_concat in Hx as (l & Hl & Hx).
  apply in_map_iff in Hl as ([p v] & <- & Hp). apply list_elem_of_In, elem_of_map_to_list in Hp.
  exists p, v. split; [done|]. by apply list_elem_of_In.
Qed.
(** When no value contains itself, the values of a store whose counts are right and
    not null are those that can be reached from a reference. *)
Lemma live_reached h ext rank : refs_ok h ext -> (forall x v, h !! x = Some v -> 0 < ref_count (v_base v)) ->
  (forall x y, has_element h x y -> (rank y < rank x)%nat) ->
  forall x, is_Some (h !! x) <-> exists r, 0 < owned ext r /\ rtc (has_element h) r x.
Proof.
  intros Hok Hpos Hrank x. split.
  - destruct (rank_bound h rank) as [n Hn].
    intros Hx. remember (n - rank x)%nat as d eqn:Hd. revert x Hx Hd.
    induction d as [d IH] using lt_wf_ind. intros x [v Hv] ->.
    pose proof (ro_count _ _ Hok x v Hv) as Hc. specialize (Hpos x v Hv).
    destruct (Z_lt_dec 0 (owned ext x)) as [Ho|Ho]; [by exists x|].
    destruct (contained_parent h x) as (p & w & Hp & Hx); [lia|].
    assert (Hpx : has_element h p x) by (by exists w).
    pose proof (Hrank p x Hpx). pose proof (Hn p w Hp).
    destruct (IH (n - rank p)%nat ltac:(lia) p) as (r & Hr & Hrp); [by eexists|done|].
    exists r. split; [done|]. by eapply rtc_r.
  - intros (r & Hr & Hrx). assert (is_Some (h !! r)) as Hs.
    { apply (ro_there _ _ Hok). pose proof (contained_nonneg h r). lia. }
    clear Hr. induction Hrx as [|r y x (v & Hv & Hy) _ IH]; [done|]. apply IH. by eapply children_there.
Qed.

(** Putting the only reference of an element, for the contents of its container
    without it: the element is freed, and the container stays. *)
Lemma put_only_ref debug hash_order h ext a v e mid :
  (forall m, hash_order m ≡ₚ map_to_list m) ->
  refs_ok h ext -> h !! a = Some v -> 0 < ext a -> ext e = 0 -> contained h e = 1 -> e <> bt_value_null ->
  contents v <> NullValue -> mid <> NullValue ->
  (forall x, count x (children (set_contents v mid)) + count x [e] = count x (children v)) ->
  exists h1, (forall d, bt_value_put_ref debug hash_order (recontent a d h) e = Some (recontent a d h1)) /\
    h1 !! e = None /\ is_Some (h1 !! a).
Proof.
  intros Hperm Hok Ha Hea Hee Hce Hnn Hn Hm Hmid.
  destruct (put_ref_ok debug hash_order Hperm (recontent a mid h) ext e) as (h1 & _ & Hok1 & Hk1 & Hf1).
  - rewrite <- (recontent_insert h a v) by done. eapply refs_recontent; [exact Hok|done|done|done| |].
    + intros x. unfold with_refs. pose proof (ro_ext _ _ Hok x). pose proof (count_nonneg x [e]). lia.
    + intros x. unfold with_refs. specialize (Hmid x). lia.
  - apply (ro_ext _ _ Hok).
  - assert (Hth : is_Some (h1 !! a)).
    { apply (ro_there _ _ Hok1). unfold owned. pose proof (contained_nonneg h1 a). case_decide; lia. }
    exists h1. split; [|split; [|done]].
    + intros d. rewrite <- (recontent_twice a d mid). by apply Hf1.
    + destruct (h1 !! e) as [w|] eqn:He; [exfalso|done].
      assert (Hcz : contained (recontent a mid h) e = 0).
      { rewrite <- (recontent_insert h a v), (contained_insert h a v) by done. specialize (Hmid e).
        rewrite count_cons, decide_True in Hmid by done. change (count e []) with 0 in Hmid. lia. }
      assert (Hc1 : contained h1 e = 0).
      { destruct (Z_lt_dec 0 (contained h1 e)) as [Hp|Hp]; [|pose proof (contained_nonneg h1 e); lia].
        destruct (contained_parent h1 e Hp) as (p & u & Hu & Hin).
        destruct (kept_value _ _ Hk1 p u Hu) as (t & Ht & [Hct _] & _). pose proof (contained_child _ p t e Ht) as Hle.
        assert (0 < count e (children t)); [|lia]. apply count_pos. unfold children in *. by rewrite <- Hct. }
      assert (Hz : ref_count (v_base w) = 0).
      { rewrite (ro_count _ _ Hok1 e w He). unfold owned. rewrite decide_False by done. lia. }
      pose proof (kept_zero_back _ _ Hk1 e w He Hz) as Hw.
      destruct (ro_there _ _ Hok e) as [u Hu]; [unfold owned; case_decide; lia|].
      pose proof (ro_count _ _ Hok e u Hu) as Hcu. unfold owned in Hcu. rewrite decide_False in Hcu by done.
      destruct (recontent_base a mid h e u (v_base u) Hu) as (u' & Hu' & Hb & _). rewrite Hu' in Hw. simplify_eq.
      rewrite Hb in Hz. lia.
Qed.

(** * Frozen values *)

(** In developer mode, an operation that is not the setting of a boolean does not
    change the contents of a frozen value. *)
Lemma after_frozen malloc op h ext new h' x v c' : applicable true op h ext -> (forall a z, op <> OpBoolSet a z) ->
  h !! x = Some v -> v_frozen v = true -> changes malloc op new h h' x (contents v) c' ->
  c' = contents v /\ (is_extension op = true -> Forall (fun y => y ∉ new) (kids (contents v))).
Proof.
  intros Hap Hnb Hx Hf Hch.
  assert (Hhot : forall a P, is_hot true h a P -> x <> a).
  { intros a P (w & Hw & _ & Hh) ->. simplify_eq. rewrite Hh in Hf; done. }
  destruct op; simpl in *; try (by exfalso; eapply Hnb); try (by split);
    first [apply Hhot in Hap|destruct Hap as [Hap _]; apply Hhot in Hap]; rewrite decide_False in Hch by done;
    [by split..|]; destruct Hch as [-> Hch]; by split.
Qed.

Lemma owned_not_new op h ext x : refs_ok h ext -> is_new op h ext x -> 0 < owned ext x -> False.
Proof.
  intros Hok Hn Ho. assert (is_Some (h !! x)) as [v Hv].
  { apply (ro_there _ _ Hok). pose proof (contained_nonneg h x). lia. }
  destruct op; simpl in Hn; try congruence. apply Hn. exists x. split; [done|constructor].
Qed.

Lemma frozen_step malloc op h h' ext ext' :
  applicable true op h ext -> (forall a z, op <> OpBoolSet a z) -> evolves malloc op h ext h' ->
  refs_ok h ext -> refs_ok h' ext' -> frozen_closed h ->
  frozen_closed h' /\ exists new : gset addr, (forall x, x ∈ new -> is_new op h ext x) /\
    agree (fun x => frozen_at h x /\ is_Some (h' !! x) /\ x ∉ new) h h' /\
    forall x, frozen_at h x -> is_Some (h' !! x) -> x ∉ new -> frozen_at h' x.
Proof.
  intros Hap Hnb (new & Hnew & Hev) Hok Hok' [Hel Hnull].
  assert (Hold : forall x v', h' !! x = Some v' -> x ∉ new -> exists v, h !! x = Some v /\ v_frozen v' = v_frozen v /\
    changes malloc op new h h' x (contents v) (contents v')).
  { intros x v' Hx Hn. pose proof (Hev x v' Hx) as He. by rewrite decide_False in He. }
  assert (Hkeep : forall x v v', h !! x = Some v -> v_frozen v = true -> h' !! x = Some v' -> x ∉ new ->
    contents v' = contents v /\ v_frozen v' = true /\ Forall (fun y => frozen_at h y /\ is_Some (h' !! y) /\ y ∉ new) (children v)).
  { intros x v v' Hx Hf Hx' Hn. destruct (Hold x v' Hx' Hn) as (u & Hu & Hfu & Hch). simplify_eq.
    destruct (after_frozen malloc op h ext new h' x v _ Hap Hnb Hx Hf Hch) as [Hc Hkids]. split; [done|]. split; [congruence|].
    pose proof (Hel x v Hx Hf) as Hall. rewrite Forall_forall in *. intros y Hy. split; [by apply Hall|]. split.
    - eapply (children_there h' ext' x v'); [done|done|]. unfold children in *. by rewrite Hc.
    - intros Hyn. pose proof (Hnew y Hyn) as Hin. destruct (is_extension op) eqn:E.
      + by apply (Hkids eq_refl y).
      + destruct (children_there h ext x v y Hok Hx Hy) as [w Hw]. destruct op; simpl in *; congruence. }
  assert (Hfr : forall x, frozen_at h x -> is_Some (h' !! x) -> x ∉ new -> frozen_at h' x).
  { intros x (v & Hv & Hf) [v' Hv'] Hn. exists v'. split; [done|]. by apply (Hkeep x v v'). }
  split; [split|exists new; split; [done|split; [|done]]].
  - intros x v' Hx' Hf'. destruct (decide (x ∈ new)) as [Hn|Hn].
    + pose proof (Hev x v' Hx') as He. rewrite decide_True in He by done. destruct He as [He _]. congruence.
    + destruct (Hold x v' Hx' Hn) as (v & Hv & Hf & _). destruct (Hkeep x v v' Hv ltac:(congruence) Hx' Hn) as (Hc & _ & Hall).
      assert (children v' = children v) as -> by (unfold children; by rewrite Hc).
      eapply Forall_impl; [exact Hall|]. intros y (Hy & Hy' & Hyn). by apply Hfr.
  - intros x v' Hx' Hc'. apply (ro_null _ _ Hok' x v' Hx') in Hc'. subst x.
    assert (bt_value_null ∉ new) as Hn.
    { intros Hin. apply (owned_not_new op h ext bt_value_null Hok); [by apply Hnew|]. unfold owned. rewrite decide_True by done.
      pose proof (ro_ext _ _ Hok bt_value_null). lia. }
    destruct (Hold _ v' Hx' Hn) as (v & Hv & -> & _). apply (Hnull _ v Hv). by apply (ro_null _ _ Hok _ v Hv).
  - intros x v [(v0 & Hv0 & Hf) [[v' Hv'] Hn]] Hx. simplify_eq. destruct (Hkeep x v0 v' Hv0 Hf Hv' Hn) as (Hc & _ & Hall).
    split; [by exists v'|done].
Qed.

(** Steps of a client that keeps a reference to [a], without the setting of
    booleans, in developer mode. *)
Inductive value_steps (debug : bool) (malloc : values -> addr)
    (hash_order : gmap (list Z) addr -> list (list Z * addr)) (a : addr) :
    values -> (addr -> Z) -> values -> (addr -> Z) -> Prop :=
| StepsDone h ext : value_steps debug malloc hash_order a h ext h ext
| StepsOp op h ext h1 h2 ext2 :
    applicable true op h ext -> (forall b z, op <> OpBoolSet b z) ->
    exec true debug malloc hash_order op h = Some h1 -> 0 < ext_after malloc op h ext a ->
    value_steps debug malloc hash_order a h1 (ext_after malloc op h ext) h2 ext2 ->
    value_steps debug malloc hash_order a h ext h2 ext2.

Lemma frozen_steps debug malloc hash_order a h ext h2 ext2 :
  (forall h, h !! malloc h = None) -> (forall m, hash_order m ≡ₚ map_to_list m) ->
  value_steps debug malloc hash_order a h ext h2 ext2 -> forall n h0, refs_ok h ext -> frozen_closed h -> frozen_at h a ->
  same eq n h0 h a a -> same eq n h0 h2 a a.
Proof.
  intros Hm Hp. induction 1 as [|op h ext h1 h2 ext2 Hap Hnb Hex Hext Hsteps IH]; intros n h0 Hok Hcl Ha Hs; [done|].
  destruct (op_ok true debug malloc hash_order Hm Hp op h ext Hok Hap) as (h1' & Hex' & Hok1 & Hev).
  assert (h1' = h1) as -> by congruence.
  destruct (frozen_step malloc op h h1 ext _ Hap Hnb Hev Hok Hok1 Hcl) as (Hcl1 & new & Hnew & Hag & Hfr).
  assert (is_Some (h1 !! a)) as Ha1.
  { apply (ro_there _ _ Hok1). unfold owned. pose proof (contained_nonneg h1 a). case_decide; lia. }
  assert (Han : a ∉ new).
  { intros Hin. pose proof (Hnew a Hin) as Hn. destruct Ha as (v & Hv & _). destruct op; simpl in Hn, Hext; try congruence.
    apply Hn. exists a. split; [unfold owned; case_decide; lia|constructor]. }
  apply IH; [done|done|by apply Hfr|].
  apply (same_change eq n (fun _ => True) (fun x => frozen_at h x /\ is_Some (h1 !! x) /\ x ∉ new) h0 h0 h h1); try done.
  intros u v _ Hv. split; [by exists v|by apply Forall_true].
Qed.

(** * Properties *)

Section claims.
Context (dev debug : bool) (malloc : values -> addr).
Context (hash_order : gmap (list Z) addr -> list (list Z * addr)).

(** C15: Every operation of [value_op], which are the functions of the value API that
    change values (the setters, appending, setting and inserting a value, the functions
    that append or insert a new value of each type, extending a map, getting and putting
    a reference, and the creation functions; freezing and copying have theorems of
    their own), succeeds when its preconditions hold, changes the contents as
    specified and nothing else, and keeps the reference counts equal to the references of the client and of the arrays and maps.  The
    preconditions ([applicable]) are types, indexes, values that are not frozen, and
    counts that do not reach 2^64; when an element is replaced, that its container and
    the new element can still be reached from the client's references without it,
    since the code puts the reference of the old element first; and for the extension
    of a map, that both maps can still be reached without the entries that are
    replaced and that the extension, which is a tree, does not contain the map.  After
    an extension, the map has a copy of each value of the extension: a new value or
    null, which is the same tree. *)
Theorem value_operations_exact op h ext :
  (forall h, h !! malloc h = None) -> (forall m, hash_order m ≡ₚ map_to_list m) ->
  refs_ok h ext -> applicable dev op h ext ->
  exists h', exec dev debug malloc hash_order op h = Some h' /\ refs_ok h' (ext_after malloc op h ext) /\
    evolves malloc op h ext h'.
Proof. intros Hm Hp. by apply op_ok. Qed.

(** C17: Putting a reference collects exactly what cannot be reached any more: in a
    store without values that contain themselves, the values left are those that can
    be reached from the client's other references, with the same contents and the
    right counts. *)
Theorem value_put_ref_collects h ext rank a :
  (forall m, hash_order m ≡ₚ map_to_list m) ->
  refs_ok h ext -> 0 < ext a -> (forall x v, h !! x = Some v -> 0 < ref_count (v_base v)) ->
  (forall x y, has_element h x y -> (rank y < rank x)%nat) ->
  exists h', bt_value_put_ref debug hash_order h a = Some h' /\
    refs_ok h' (fun x => ext x - count x [a]) /\
    (forall x v', h' !! x = Some v' -> exists v, h !! x = Some v /\ same_value v v') /\
    forall x, is_Some (h' !! x) <->
      exists r, 0 < owned (fun x => ext x - count x [a]) r /\ rtc (has_element h) r x.
Proof.
  intros Hperm Hok Ha Hpos Hrank.
  destruct (put_evolves debug malloc hash_order Hperm h ext a Hok Ha) as (h' & Hp & Hok' & Hk & _).
  exists h'. split; [done|]. split; [done|].
  assert (Hval : forall x v', h' !! x = Some v' -> exists v, h !! x = Some v /\ same_value v v').
  { intros x v' Hx. destruct (kept_value _ _ Hk x v' Hx) as (v & Hv & Hs & _). by exists v. }
  split; [done|].
  assert (Hsub : forall x y, has_element h' x y -> has_element h x y).
  { intros x y (v' & Hv' & Hy). destruct (Hval x v' Hv') as (v & Hv & [Hc _]). exists v. split; [done|].
    unfold children in *. by rewrite <- Hc. }
  assert (Hpos' : forall x v, h' !! x = Some v -> 0 < ref_count (v_base v)).
  { intros x v Hx. pose proof (ro_count _ _ Hok' x v Hx) as Hc. pose proof (ro_ext _ _ Hok' x).
    pose proof (contained_nonneg h' x). destruct (Z.eq_dec (ref_count (v_base v)) 0) as [Hz|Hz].
    - pose proof (kept_zero_back _ _ Hk x v Hx Hz) as Hx0. specialize (Hpos x v Hx0). lia.
    - unfold owned in Hc. case_decide; lia. }
  pose proof (live_reached h' _ rank Hok' Hpos' (fun x y Hxy => Hrank x y (Hsub x y Hxy))) as Hlive.
  intros x. rewrite (Hlive x). split; intros (r & Hr & Hrx); exists r; (split; [done|]).
  - clear Hr. induction Hrx as [|r y x Hry _ IH]; [constructor|]. eapply rtc_l; [by apply Hsub|exact IH].
  - assert (is_Some (h' !! r)) as Hs by (apply Hlive; exists r; split; [done|constructor]).
    clear Hr. induction Hrx as [|r y x (v & Hv & Hy) _ IH]; [constructor|]. destruct Hs as [v' Hv'].
    destruct (Hval r v' Hv') as (v0 & Hv0 & [Hc _]). simplify_eq.
    assert (y ∈ children v') as Hy' by (unfold children in *; by rewrite Hc).
    eapply rtc_l; [by exists v'|]. apply IH. by eapply children_there.
Qed.

(** Replacing the element of an array, or the value of a map's entry, by itself
    when the container has its only reference uses freed memory: the old element's
    reference is put before the new one's is taken. *)
Theorem replacing_by_itself h ext a v e :
  (forall m, hash_order m ≡ₚ map_to_list m) ->
  refs_ok h ext -> h !! a = Some v -> 0 < ext a -> ext e = 0 -> contained h e = 1 -> e <> bt_value_null ->
  match contents v with
  | ArrayValue l => forall index, 0 <= index -> l !! Z.to_nat index = Some e ->
      bt_value_array_set_element_by_index dev debug hash_order h a index e = None
  | MapValue m => forall key, m !! key = Some e -> insert_map_value_entry dev debug hash_order h a key e = None
  | _ => True
  end.
Proof.
  intros Hperm Hok Ha Hea Hee Hce Hnn.
  destruct (contents v) as [| | | | |l|m] eqn:Hc; try done.
  - intros index Hi Hl. unfold bt_value_array_set_element_by_index. rewrite Ha, Hc. unfold BT_ASSERT_PRE_DEV_VALUE_HOT, BT_ASSERT_PRE_DEV.
    destruct (dev && negb (negb (v_frozen v))); [done|]. unfold BT_ASSERT_PRE.
    pose proof (lookup_lt_Some _ _ _ Hl). rewrite (proj2 (Z.ltb_lt _ _)), (proj2 (Z.leb_le _ _)), Hl by lia.
    destruct (put_only_ref debug hash_order h ext a v e (ArrayValue (delete (Z.to_nat index) l))) as (h1 & Hp & He & [v1 Hv1]);
      try done; [congruence| |].
    { intros x. rewrite !children_kids, Hc. simpl. by apply (count_delete_insert x e). }
    specialize (Hp (contents v)). rewrite recontent_id in Hp by done. rewrite Hp, (recontent_at h1 a v1 _ Hv1), Hc.
    simpl contents. cbn iota. rewrite (recontent_insert _ a _ _ (recontent_at h1 a v1 _ Hv1)), recontent_twice.
    unfold bt_object_get_ref. rewrite recontent_ne; [by rewrite He|]. intros ->. congruence.
  - intros key Hk. unfold insert_map_value_entry. rewrite Ha, Hc. unfold BT_ASSERT_PRE_DEV_VALUE_HOT, BT_ASSERT_PRE_DEV.
    destruct (dev && negb (negb (v_frozen v))); [done|]. rewrite Hk, (recontent_insert h a v _ Ha).
    destruct (put_only_ref debug hash_order h ext a v e (MapValue (delete key m))) as (h1 & Hp & He & [v1 Hv1]);
      try done; [congruence| |].
    { intros x. rewrite !children_kids, Hc. by apply count_map_delete. }
    rewrite Hp. unfold bt_object_get_ref. rewrite recontent_ne; [by rewrite He|]. intros ->. congruence.
Qed.
(** C16: A copy of a value is a new value that is the same tree: copying a value that
    does not contain itself ends, leaves all the values of the store as they were, but
    for the references of the null value, and makes new values that are not frozen,
    have one reference each and only contain new values and null. *)
Theorem value_copy_exact n h ext a :
  (forall h, h !! malloc h = None) -> (forall m, hash_order m ≡ₚ map_to_list m) ->
  refs_ok h ext -> tree n h a -> null_count h + tree_size n h a < 2 ^ 64 ->
  exists a' h', bt_value_copy dev debug malloc hash_order n h a = Some (a', h') /\
    refs_ok h' (with_refs ext [a']) /\ copied h h' /\ same eq n h h' a a' /\
    (a' = bt_value_null \/ h !! a' = None).
Proof.
  intros Hm Hp Hok Ht Hroom.
  destruct (copies_all dev debug malloc hash_order Hm Hp n h ext a Hok Ht Hroom) as (a' & h' & Hc & Hok' & Hcp & Hs & Ha & _).
  exists a', h'. auto.
Qed.

(** C34: Comparing two values decides whether they are the same tree, with the real
    numbers compared as [double]s: a comparison that ends is right, and it ends when,
    wherever maps of the same size are compared, they have the same keys. *)
Theorem value_equality_decides n h a b :
  (forall m, hash_order m ≡ₚ map_to_list m) ->
  (forall r, bt_value_is_equal hash_order n h a b = Some r -> r = true <-> same real_equal n h h a b) /\
  (comparable n h a b -> exists r, bt_value_is_equal hash_order n h a b = Some r).
Proof. intros Hp. split; [intros r; by apply is_equal_sound|by apply is_equal_total]. Qed.

(** Comparing two maps of the same size of which one has a key that the other does
    not have dereferences a null pointer, or fails its precondition in developer mode,
    when the values of the keys that both have are equal. *)
Theorem map_equality_missing_key n h a b v w m m' key x :
  (forall m, hash_order m ≡ₚ map_to_list m) ->
  h !! a = Some v -> h !! b = Some w -> contents v = MapValue m -> contents w = MapValue m' ->
  size m = size m' -> m !! key = Some x -> m' !! key = None ->
  (forall k y z, m !! k = Some y -> m' !! k = Some z -> bt_value_is_equal hash_order n h y z = Some true) ->
  bt_value_is_equal hash_order (S n) h a b = None.
Proof.
  intros Hp Ha Hb Hv Hw Hsz Hk Hk' Heq. cbn [bt_value_is_equal]. rewrite Ha, Hb, Hv, Hw. unfold bt_value_map_is_equal.
  rewrite Hsz, Nat.eqb_refl. simpl negb. cbv iota.
  assert (Hin : (key, x) ∈ hash_order m) by (rewrite Hp; by apply elem_of_map_to_list).
  assert (Hall : Forall (fun p => m !! p.1 = Some p.2) (hash_order m)).
  { apply hash_order_Forall; [done|]. by intros. }
  revert Hin. induction Hall as [|[k y] es Hy _ IH]; intros Hin; [by apply elem_of_nil in Hin|].
  cbn [entries_equal]. destruct (m' !! k) as [z|] eqn:Hz; [|done]. rewrite (Heq k y z Hy Hz).
  apply IH. apply elem_of_cons in Hin as [[= <- <-]|Hin]; [congruence|done].
Qed.

(** C36: In developer mode, freezing a value ends and freezes its whole tree, which no
    sequence of operations then changes as long as the client keeps a reference to it;
    setting a boolean is the exception: it does not check that the value is not
    frozen. *)
Theorem frozen_values_do_not_change n h ext a :
  (forall h, h !! malloc h = None) -> (forall m, hash_order m ≡ₚ map_to_list m) ->
  refs_ok h ext -> frozen_closed h -> tree n h a ->
  exists h1, bt_value_freeze true hash_order n h a = Some h1 /\ refs_ok h1 ext /\ frozen_at h1 a /\
    (forall h2 ext2, value_steps debug malloc hash_order a h1 ext h2 ext2 -> same eq n h h2 a a) /\
    (forall v x y, h !! a = Some v -> contents v = BoolValue x ->
       exists h2, bt_value_bool_set h1 a y = Some h2 /\ frozen_at h2 a /\ bt_value_bool_get h2 a = Some y).
Proof.
  intros Hm Hp Hok Hcl Ht. destruct (freeze_ok hash_order Hp n h a Ht Hcl) as (h1 & Hf & Hz & Hcl1 & Ha1).
  exists h1. split; [exact Hf|]. split; [by apply (fz_refs _ _ Hz)|]. split; [done|]. split.
  - intros h2 ext2 Hst. eapply (frozen_steps debug malloc hash_order a h1 ext); try done.
    + by apply (fz_refs _ _ Hz).
    + assert (Hid : agree (fun _ => True) h h).
      { intros u v _ Hv. split; [by exists v|by apply Forall_true]. }
      apply (same_change eq n (fun _ => True) (fun _ => True) h h h h1); [done|by apply froze_agree|done|done|].
      by apply same_refl.
  - intros v x y Hv Hc. destruct Ha1 as (v1 & Hv1 & Hf1). destruct (fz_there _ _ Hz a v Hv) as (v2 & Hv2 & Hc2 & _).
    simplify_eq. unfold bt_value_bool_set, bt_value_bool_get. rewrite Hv1, Hc2, Hc. eexists. split; [reflexivity|].
    split; [eexists; by rewrite lookup_insert_eq|]. by rewrite lookup_insert_eq.
Qed.
End claims.

(** * Witnesses *)

#[local] Instance release_eq_dec : EqDecision release.
Proof. solve_decision. Defined.
#[local] Instance bt_object_eq_dec : EqDecision bt_object.
Proof. solve_decision. Defined.

(** Decides [refs_ok] for the references of a list. *)
Definition refs_check (h : values) (l : list addr) : bool :=
  forallb (fun kv : addr * bt_value =>
    let '(a, v) := kv in
    let o := v_base v in
    (ref_count o =? owned (fun x => count x l) a + contained h a) &&
    bool_decide (o = BtObject true (ref_count o)
        (Some (ReleaseFunc (if decide (a = bt_value_null) then null_release_func else destroy_value_func))) None None None) &&
    match contents v with NullValue => bool_decide (a = bt_value_null) | _ => negb (bool_decide (a = bt_value_null)) end &&
    (ref_count o <? 2 ^ 64)) (map_to_list h) &&
  forallb (fun x => bool_decide (is_Some (h !! x)))
    (bt_value_null :: l ++ concat (map (fun kv => children kv.2) (map_to_list h))).

Lemma refs_check_ok h l : refs_check h l = true -> refs_ok h (fun x => count x l).
Proof.
  intros Hch. apply andb_true_iff in Hch as [Hall Hth]. rewrite forallb_forall in Hall, Hth.
  assert (Hat : forall a v, h !! a = Some v ->
    ref_count (v_base v) = owned (fun x => count x l) a + contained h a /\ base_of a (v_base v) /\
    (contents v = NullValue <-> a = bt_value_null) /\ ref_count (v_base v) < 2 ^ 64).
  { intros a v Ha. specialize (Hall (a, v)). cbn beta iota zeta in Hall.
    rewrite !andb_true_iff, Z.eqb_eq, Z.ltb_lt, bool_decide_eq_true in Hall.
    destruct Hall as [[[Hc Hb] Hn] Hr]; [by apply list_elem_of_In, elem_of_map_to_list|].
    split; [done|]. split; [exact Hb|]. split; [|done].
    destruct (contents v); rewrite ?negb_true_iff, ?bool_decide_eq_true, ?bool_decide_eq_false in Hn; split; done. }
  split.
  - intros a v Ha. by apply Hat.
  - intros a. apply count_nonneg.
  - intros a Ha. apply (bool_decide_eq_true (is_Some (h !! a))), Hth, list_elem_of_In.
    unfold owned in Ha. destruct (decide (a = bt_value_null)) as [-> |Hne]; [by left|]. right. apply elem_of_app.
    destruct (Z_lt_dec 0 (count a l)) as [Hl|Hl]; [left; by apply count_pos|]. right. apply count_pos.
    unfold contained in Ha. pose proof (count_nonneg a l). lia.
  - intros a v Ha. by apply Hat.
  - intros a v Ha. by apply Hat.
  - intros a v Ha. by destruct (Hat a v Ha) as (_ & _ & _ & ?).
Qed.

Definition ex_malloc (h : values) : addr := fresh (dom h : gset addr).
Lemma ex_malloc_fresh h : h !! ex_malloc h = None.
Proof. pose proof (is_fresh (dom h : gset addr)) as Hf. by apply not_elem_of_dom in Hf. Qed.
Definition ex_order (m : gmap (list Z) addr) : list (list Z * addr) := map_to_list m.
Lemma ex_order_perm m : ex_order m ≡ₚ map_to_list m.
Proof. done. Qed.

(** A value of the store. *)
Definition ex_value (refs : Z) (c : value_contents) : bt_value :=
  BtValue (BtObject true refs (Some (ReleaseFunc destroy_value_func)) None None None) false c.
(** The array 3 has a boolean, and null twice; the map 4 has the array; the client has
    the map and the integer 5. *)
Definition ex_values : values :=
  list_to_map [(bt_value_null, BtValue (BtObject true 3 (Some (ReleaseFunc null_release_func)) None None None) true NullValue);
               (2%positive, ex_value 1 (BoolValue 1));
               (3%positive, ex_value 1 (ArrayValue [2%positive; bt_value_null; bt_value_null]));
               (4%positive, ex_value 1 (MapValue {[ [107] := 3%positive ]}));
               (5%positive, ex_value 1 (IntegerValue true 7))].
Definition ex_ext : addr -> Z := fun x => count x [4%positive; 5%positive].
Lemma ex_refs : refs_ok ex_values ex_ext.
Proof. apply refs_check_ok. vm_compute. reflexivity. Qed.
Lemma ex_tree : tree 3 ex_values 4%positive.
Proof.
  eexists. split; [reflexivity|]. repeat constructor.
  eexists. split; [reflexivity|]. repeat constructor; eexists; (split; [reflexivity|constructor]).
Qed.

(** The client also has the map 6, with the integer 5 and null. *)
Definition ex_extension : values :=
  <[6%positive := ex_value 1 (MapValue {[ [107] := 5%positive; [108] := bt_value_null ]})]>
  (<[5%positive := ex_value 2 (IntegerValue true 7)]>
  (<[bt_value_null := BtValue (BtObject true 4 (Some (ReleaseFunc null_release_func)) None None None) true NullValue]> ex_values)).
Definition ex_ext6 : addr -> Z := fun x => count x [4%positive; 5%positive; 6%positive].
Lemma ex_refs6 : refs_ok ex_extension ex_ext6.
Proof. apply refs_check_ok. vm_compute. reflexivity. Qed.

(** Extending the map 4 by the map 6 replaces its array, which is destroyed, by a copy of
    the integer. *)
Lemma value_operations_exact_witness :
  (exists h', exec true true ex_malloc ex_order (OpInsert 4%positive [107] 5%positive) ex_values = Some h' /\
    h' !! 3%positive = None /\ bt_value_map_borrow_entry_value h' 4%positive [107] = Some (Some 5%positive)) /\
  (exists h', exec true true ex_malloc ex_order (OpExtend 1 4%positive 6%positive) ex_extension = Some h' /\
    refs_ok h' ex_ext6 /\ h' !! 3%positive = None /\
    exists y, bt_value_map_borrow_entry_value h' 4%positive [107] = Some (Some y) /\ y <> 5%positive /\
      bt_value_integer_signed_get h' y = Some 7).
Proof.
  split.
  - destruct (value_operations_exact true true ex_malloc ex_order (OpInsert 4%positive [107] 5%positive) ex_values ex_ext
      ex_malloc_fresh ex_order_perm ex_refs) as (h' & He & _).
    + split; [|eexists; split; [reflexivity|]; vm_compute; reflexivity].
      eexists. split; [reflexivity|]. split; [|intros _; reflexivity]. eexists. split; [reflexivity|].
      intros _. split; apply owned_reached; reflexivity.
    + exists h'. split; [exact He|]. vm_compute in He. injection He as <-. split; reflexivity.
  - destruct (value_operations_exact true true ex_malloc ex_order (OpExtend 1 4%positive 6%positive) ex_extension ex_ext6
      ex_malloc_fresh ex_order_perm ex_refs6) as (h' & He & Hr & _).
    + eexists. split; [reflexivity|]. split; [|intros _; reflexivity]. eexists _, _, _. split; [reflexivity|]. split; [reflexivity|].
      split; [reflexivity|]. split; [vm_compute; repeat constructor; eexists; (split; [reflexivity|constructor])|]. split.
      * intros Hr.
        assert (Hc : forall x, rtc (has_element ex_extension) 6%positive x -> x = 6%positive \/ x = 5%positive \/ x = bt_value_null).
        { intros x Hx. apply (rtc_ind_r (fun x => x = 6%positive \/ x = 5%positive \/ x = bt_value_null)) in Hx; [done|by left|].
          intros y z _ (v & Hv & Hz) [-> |[-> | ->]]; apply list_elem_of_In in Hz; vm_compute in Hv; injection Hv as <-; vm_compute in Hz; intuition auto. }
        destruct (Hc _ Hr) as [? |[? | ?]]; discriminate.
      * split; [apply owned_reached; reflexivity|]. split; [apply owned_reached; reflexivity|vm_compute; reflexivity].
    + exists h'. split; [exact He|]. split; [exact Hr|]. vm_compute in He. injection He as <-. split; [reflexivity|].
      eexists. split; [reflexivity|]. split; [discriminate|reflexivity].
Defined.

(** The values only contain values with a smaller address. *)
Lemma ex_has_element x y : has_element ex_values x y -> (Pos.to_nat y < Pos.to_nat x)%nat.
Proof.
  intros (v & Hv & Hy). assert (Hall : map_Forall (fun x v => Forall (fun y => (y < x)%positive) (children v)) ex_values).
  { apply map_Forall_to_list. vm_compute. repeat constructor. }
  specialize (Hall x v Hv). rewrite Forall_forall in Hall. specialize (Hall y Hy). lia.
Qed.

Lemma value_put_ref_collects_witness :
  exists h', bt_value_put_ref true ex_order ex_values 4%positive = Some h' /\
    (forall x v', h' !! x = Some v' -> exists v, ex_values !! x = Some v /\ same_value v v') /\
    (map_to_list h').*1 = [5%positive; 1%positive].
Proof.
  destruct (value_put_ref_collects true ex_malloc ex_order ex_values ex_ext Pos.to_nat 4%positive) as (h' & Hp & _ & Hs & _).
  - exact ex_order_perm.
  - exact ex_refs.
  - reflexivity.
  - assert (Hall : map_Forall (fun _ v => 0 < ref_count (v_base v)) ex_values).
    { apply map_Forall_to_list. vm_compute. repeat constructor. }
    intros x v Hx. exact (Hall x v Hx).
  - exact ex_has_element.
  - exists h'. split; [exact Hp|]. split; [exact Hs|]. vm_compute in Hp. injection Hp as <-. reflexivity.
Defined.

Lemma replacing_by_itself_witness :
  insert_map_value_entry true true ex_order ex_values 4%positive [107] 3%positive = None.
Proof.
  exact (replacing_by_itself true true ex_order ex_values ex_ext 4%positive _ 3%positive ex_order_perm ex_refs
    eq_refl eq_refl eq_refl eq_refl ltac:(discriminate) [107] eq_refl).
Defined.

Lemma value_copy_exact_witness :
  exists a' h', bt_value_copy true true ex_malloc ex_order 3 ex_values 4%positive = Some (a', h') /\
    copied ex_values h' /\ same eq 3 ex_values h' 4%positive a' /\
    bt_value_is_equal ex_order 3 h' 4%positive a' = Some true.
Proof.
  destruct (value_copy_exact true true ex_malloc ex_order 3 ex_values ex_ext 4%positive ex_malloc_fresh ex_order_perm
    ex_refs ex_tree) as (a' & h' & Hc & _ & Hcp & Hs & _); [reflexivity|].
  exists a', h'. split; [exact Hc|]. split; [exact Hcp|]. split; [exact Hs|].
  vm_compute in Hc. injection Hc as <- <-. reflexivity.
Defined.

Lemma value_equality_decides_witness :
  exists r, bt_value_is_equal ex_order 3 ex_values 3%positive 3%positive = Some r /\
    (r = true <-> same real_equal 3 ex_values ex_values 3%positive 3%positive).
Proof.
  destruct (value_equality_decides ex_order 3 ex_values 3%positive 3%positive ex_order_perm) as [Hs Ht].
  destruct Ht as [r Hr].
  - do 2 eexists. split; [reflexivity|]. split; [reflexivity|]. intros _.
    repeat constructor; do 2 eexists; repeat split; reflexivity.
  - exists r. split; [exact Hr|exact (Hs r Hr)].
Defined.

Definition ex_two_maps : values := <[6%positive := ex_value 1 (MapValue {[ [108] := 5%positive ]})]> ex_values.
Lemma map_equality_missing_key_witness :
  bt_value_is_equal ex_order 2 ex_two_maps 4%positive 6%positive = None.
Proof.
  refine (map_equality_missing_key ex_order 1 ex_two_maps 4%positive 6%positive (ex_value 1 (MapValue {[ [107] := 3%positive ]}))
    (ex_value 1 (MapValue {[ [108] := 5%positive ]})) {[ [107] := 3%positive ]} {[ [108] := 5%positive ]}
    [107] 3%positive ex_order_perm eq_refl eq_refl eq_refl eq_refl eq_refl eq_refl eq_refl _).
  intros k y z Hk Hk'. apply lookup_singleton_Some in Hk as [<- _]. discriminate Hk'.
Defined.

Lemma frozen_values_do_not_change_witness :
  exists h1, bt_value_freeze true ex_order 3 ex_values 4%positive = Some h1 /\ frozen_at h1 4%positive /\
    forall h2 ext2, value_steps true ex_malloc ex_order 4%positive h1 ex_ext h2 ext2 ->
      same eq 3 ex_values h2 4%positive 4%positive.
Proof.
  destruct (frozen_values_do_not_change true ex_malloc ex_order 3 ex_values ex_ext 4%positive ex_malloc_fresh ex_order_perm
    ex_refs) as (h1 & Hf & _ & Ha & Hst & _).
  - split.
    + assert (Hall : map_Forall (fun x v => v_frozen v = true -> children v = []) ex_values).
      { apply map_Forall_to_list. vm_compute. repeat constructor; discriminate. }
      intros x v Hx Hv. rewrite (Hall x v Hx Hv). constructor.
    + assert (Hall : map_Forall (fun x v => contents v = NullValue -> v_frozen v = true) ex_values).
      { apply map_Forall_to_list. vm_compute. repeat constructor; discriminate. }
      exact Hall.
  - exact ex_tree.
  - exists h1. split; [exact Hf|]. split; [exact Ha|exact Hst].
Defined.
