(* ===== verification/ParamValid.v ===== *)
(** Parameter validation: [src/src/plugins/common/param-validation/param-validation.c].

    A plugin describes the parameters that it supports with descriptors; validating
    a value reports the first thing that is wrong, with the path to it.  Strings are
    lists of characters.  The store of values does not change; [hash_order] is the
    order in which GLib iterates on the entries of a map, as in [Value]. *)

From Stdlib Require Import String Ascii.
From stdpp Require Import list gmap.
From S2P Require Import Prelude Text Object Value ValueRefs ValueTree.

(** The characters of a literal. *)
Definition text (s : string) : list Z :=
  map (fun c => Z.of_nat (nat_of_ascii c)) (list_ascii_of_string s).

Inductive validate_ctx_stack_element :=
| MapElement (map_key_name : list Z)
| ArrayElement (array_index : Z).

Record bt_param_validation_context := ValidationContext {
  error : option (list Z);
  scope_stack : list validate_ctx_stack_element
}.

Inductive bt_param_validation_status := ValidationOk | ValidationMemoryError | ValidationError.
#[export] Instance bt_param_validation_status_eq_dec : EqDecision bt_param_validation_status.
Proof. solve_decision. Defined.

Definition bt_param_validation_func : Type :=
  values -> addr -> bt_param_validation_context ->
  option (bt_param_validation_status * bt_param_validation_context).

(** The checks are the union of the descriptor, which its type selects. *)
Inductive bt_param_validation_value_descr :=
| ValueDescr (type : bt_value_type) (checks : value_checks) (validation_func : option bt_param_validation_func)
with value_checks :=
| NoCheck
| ArrayChecks (min_length max_length : Z) (element_type : bt_param_validation_value_descr)
| MapChecks (entries : list bt_param_validation_map_value_entry_descr)
| StringChecks (choices : option (list (list Z)))
with bt_param_validation_map_value_entry_descr :=
| EntryDescr (key : list Z) (is_optional : bool) (value_descr : bt_param_validation_value_descr).

Definition entry_key (e : bt_param_validation_map_value_entry_descr) : list Z :=
  let '(EntryDescr key _ _) := e in key.
Definition entry_is_optional (e : bt_param_validation_map_value_entry_descr) : bool :=
  let '(EntryDescr _ is_optional _) := e in is_optional.
Definition entry_value_descr (e : bt_param_validation_map_value_entry_descr)
    : bt_param_validation_value_descr :=
  let '(EntryDescr _ _ value_descr) := e in value_descr.

(** * Scopes and messages *)

Definition validate_ctx_push_map_scope (ctx : bt_param_validation_context) (key : list Z)
    : bt_param_validation_context :=
  ValidationContext (error ctx) (scope_stack ctx ++ [MapElement key]).
Definition validate_ctx_push_array_scope (ctx : bt_param_validation_context) (index : Z)
    : bt_param_validation_context :=
  ValidationContext (error ctx) (scope_stack ctx ++ [ArrayElement index]).
Definition validate_ctx_pop_scope (ctx : bt_param_validation_context)
    : option bt_param_validation_context :=
  guard_ub (0 <? length (scope_stack ctx))%nat;
  Some (ValidationContext (error ctx) (removelast (scope_stack ctx))).

(** The decimal digits of a [uint64_t]. *)
Definition dec64 (v : Z) : list Z := dec_digits 20 v [].

Definition append_scope_to_string (str : list Z) (elem : validate_ctx_stack_element) (first : bool) : list Z :=
  match elem with
  | MapElement key => str ++ (if first then [] else text ".") ++ key
  | ArrayElement index => str ++ text "[" ++ dec64 index ++ text "]"
  end.

(** The start of a message, before the formatted text. *)
Definition message_scope (stack : list validate_ctx_stack_element) : list Z :=
  match stack with
  | [] => text "Error validating parameters: "
  | elem :: stack =>
    fold_left (fun str elem => append_scope_to_string str elem false) stack
      (append_scope_to_string (text "Error validating parameter `") elem true) ++ text "`: "
  end.

Definition bt_param_validation_error (ctx : bt_param_validation_context) (formatted : list Z)
    : bt_param_validation_status * bt_param_validation_context :=
  (ValidationError,
   ValidationContext (Some (message_scope (scope_stack ctx) ++ formatted)) (scope_stack ctx)).

Definition bt_common_value_type_string (type : bt_value_type) : list Z :=
  text match type with
       | NullType => "NULL" | BoolType => "BOOL" | IntegerType => "INTEGER"
       | UnsignedIntegerType => "UNSIGNED_INTEGER" | SignedIntegerType => "SIGNED_INTEGER"
       | RealType => "REAL" | StringType => "STRING" | ArrayType => "ARRAY" | MapType => "MAP"
       end.

(** GLib's [g_strjoinv] with ", ". *)
Fixpoint join (strings : list (list Z)) : list Z :=
  match strings with
  | [] => []
  | [s] => s
  | s :: strings => s ++ text ", " ++ join strings
  end.

(** * Validation *)

Record validate_map_value_data := MapValueData {
  available_keys : list bt_param_validation_map_value_entry_descr;
  data_status : bt_param_validation_status;
  data_ctx : bt_param_validation_context
}.

Section validation.
Context (hash_order : gmap (list Z) addr -> list (list Z * addr)).

(** [validate] is [validate_value] on what a value contains. *)
Section containers.
Context (validate : addr -> bt_param_validation_value_descr -> bt_param_validation_context ->
  option (bt_param_validation_status * bt_param_validation_context)).

Definition validate_map_value_entry (key : list Z) (value : addr) (data : validate_map_value_data)
    : option (func_status * validate_map_value_data) :=
  do data <-
    match list_find (fun candidate => entry_key candidate = key) (available_keys data) with
    | Some (i, entry) =>
      let available_keys := remove_index_fast (available_keys data) i in
      do r <- validate value (entry_value_descr entry) (validate_ctx_push_map_scope (data_ctx data) key);
      let '(status, ctx) := r in
      do ctx <- validate_ctx_pop_scope ctx;
      Some (MapValueData available_keys status ctx)
    | None =>
      let '(status, ctx) :=
        bt_param_validation_error (data_ctx data) (text "unexpected key `" ++ key ++ text "`.") in
      Some (MapValueData (available_keys data) status ctx)
    end;
  Some (if bool_decide (data_status data = ValidationOk) then (FuncOk, data) else (FuncInterrupted, data)).

Definition validate_map_value (entries : list bt_param_validation_map_value_entry_descr)
    (h : values) (map : addr) (ctx : bt_param_validation_context)
    : option (bt_param_validation_status * bt_param_validation_context) :=
  do r <- bt_value_map_foreach_entry_const hash_order validate_map_value_entry h map
            (MapValueData entries ValidationOk ctx);
  let '(foreach_entry_status, data) := r in
  match foreach_entry_status with
  | FuncInterrupted =>
    guard_ub negb (bool_decide (data_status data = ValidationOk));
    Some (data_status data, data_ctx data)
  | _ =>
    guard_ub bool_decide (data_status data = ValidationOk);
    match list_find (fun entry => entry_is_optional entry = false) (available_keys data) with
    | Some (_, entry) =>
      Some (bt_param_validation_error (data_ctx data) (text "missing mandatory entry `" ++ entry_key entry ++ text "`"))
    | None => Some (ValidationOk, data_ctx data)
    end
  end.

Fixpoint validate_elements (element_type : bt_param_validation_value_descr) (i : Z) (elements : list addr)
    (ctx : bt_param_validation_context) : option (bt_param_validation_status * bt_param_validation_context) :=
  match elements with
  | [] => Some (ValidationOk, ctx)
  | element :: elements =>
    do r <- validate element element_type (validate_ctx_push_array_scope ctx i);
    let '(status, ctx) := r in
    do ctx <- validate_ctx_pop_scope ctx;
    if bool_decide (status = ValidationOk) then validate_elements element_type (i + 1) elements ctx
    else Some (status, ctx)
  end.

Definition validate_array_value (min_length max_length : Z) (element_type : bt_param_validation_value_descr)
    (elements : list addr) (ctx : bt_param_validation_context)
    : option (bt_param_validation_status * bt_param_validation_context) :=
  let len := Z.of_nat (length elements) in
  if len <? min_length then
    Some (bt_param_validation_error ctx
      (text "array is smaller than the minimum length: array-length=" ++ dec64 len ++
       text ", min-length=" ++ dec64 min_length))
  else if max_length <? len then
    Some (bt_param_validation_error ctx
      (text "array is larger than the maximum length: array-length=" ++ dec64 len ++
       text ", max-length=" ++ dec64 max_length))
  else validate_elements element_type 0 elements ctx.

Definition validate_string_value (choices : option (list (list Z))) (s : list Z)
    (ctx : bt_param_validation_context) : bt_param_validation_status * bt_param_validation_context :=
  match choices with
  | Some choices =>
    if bool_decide (s ∈ choices) then (ValidationOk, ctx)
    else bt_param_validation_error ctx
           (text "string is not amongst the available choices: string=" ++ s ++
            text ", choices=[" ++ join choices ++ text "]")
  | None => (ValidationOk, ctx)
  end.
End containers.

(** [fuel] bounds the depth of the value. *)
Fixpoint validate_value (fuel : nat) (h : values) (value : addr) (descr : bt_param_validation_value_descr)
    (ctx : bt_param_validation_context) : option (bt_param_validation_status * bt_param_validation_context) :=
  match fuel with
  | O => None
  | S fuel =>
    let '(ValueDescr type checks validation_func) := descr in
    match validation_func with
    | Some validation_func =>
      do r <- validation_func h value ctx;
      let '(status, ctx) := r in
      guard_ub negb (bool_decide (status = ValidationError)) || bool_decide (is_Some (error ctx));
      Some (status, ctx)
    | None =>
      do value_type <- bt_value_get_type h value;
      if negb (bool_decide (value_type = type)) then
        Some (bt_param_validation_error ctx
          (text "unexpected type: expected-type=" ++ bt_common_value_type_string type ++
           text ", actual-type=" ++ bt_common_value_type_string value_type))
      else
        do v <- h !! value;
        match contents v, checks with
        | MapValue _, MapChecks entries => validate_map_value (validate_value fuel h) entries h value ctx
        | ArrayValue elements, ArrayChecks min_length max_length element_type =>
          validate_array_value (validate_value fuel h) min_length max_length element_type elements ctx
        | StringValue s, StringChecks choices => Some (validate_string_value choices s ctx)
        | (MapValue _ | ArrayValue _ | StringValue _), _ => None
        | _, _ => Some (ValidationOk, ctx)
        end
    end
  end.

(** The status, and the error's message. *)
Definition bt_param_validation_validate (fuel : nat) (h : values) (params : addr)
    (entries : list bt_param_validation_map_value_entry_descr)
    : option (bt_param_validation_status * option (list Z)) :=
  let ctx := ValidationContext None [] in
  do type <- bt_value_get_type h params;
  do r <-
    if negb (bool_decide (type = MapType)) then
      Some (bt_param_validation_error ctx (text "top-level is not a map value"))
    else validate_map_value (validate_value fuel h) entries h params ctx;
  let '(status, ctx) := r in
  Some (status, error ctx).
End validation.

(** * What descriptors mean *)

(** A custom function accepts a value or, as its documentation requires, sets the
    error through [bt_param_validation_error]; it does not depend on the context. *)
Definition well_behaved (f : bt_param_validation_func) : Prop :=
  forall h a, (forall ctx, f h a ctx = Some (ValidationOk, ctx)) \/
    (forall ctx, exists formatted, f h a ctx = Some (bt_param_validation_error ctx formatted)).

Inductive proper : bt_param_validation_value_descr -> Prop :=
| proper_custom type checks f : well_behaved f -> proper (ValueDescr type checks (Some f))
| proper_map entries : NoDup (entry_key <$> entries) -> (forall e, e ∈ entries -> proper (entry_value_descr e)) ->
    proper (ValueDescr MapType (MapChecks entries) None)
| proper_array lo hi d : proper d -> proper (ValueDescr ArrayType (ArrayChecks lo hi d) None)
| proper_string choices : proper (ValueDescr StringType (StringChecks choices) None)
| proper_scalar type : type ∉ [MapType; ArrayType; StringType] -> proper (ValueDescr type NoCheck None).

Section meaning.
Context (h : values).

(** The value follows the descriptor. *)
Inductive valid : addr -> bt_param_validation_value_descr -> Prop :=
| valid_custom type checks f a : (forall ctx, f h a ctx = Some (ValidationOk, ctx)) ->
    valid a (ValueDescr type checks (Some f))
| valid_map a v m entries : h !! a = Some v -> contents v = MapValue m ->
    (forall k, is_Some (m !! k) -> k ∈ entry_key <$> entries) ->
    (forall e x, e ∈ entries -> m !! entry_key e = Some x -> valid x (entry_value_descr e)) ->
    (forall e, e ∈ entries -> entry_is_optional e = false -> is_Some (m !! entry_key e)) ->
    valid a (ValueDescr MapType (MapChecks entries) None)
| valid_array a v l lo hi d : h !! a = Some v -> contents v = ArrayValue l ->
    lo <= Z.of_nat (length l) <= hi -> (forall x, x ∈ l -> valid x d) ->
    valid a (ValueDescr ArrayType (ArrayChecks lo hi d) None)
| valid_string a v s choices : h !! a = Some v -> contents v = StringValue s ->
    match choices with Some choices => s ∈ choices | None => True end ->
    valid a (ValueDescr StringType (StringChecks choices) None)
| valid_scalar a type : bt_value_get_type h a = Some type -> type ∉ [MapType; ArrayType; StringType] ->
    valid a (ValueDescr type NoCheck None).

(** At the end of a path from the value, something does not follow the descriptor. *)
Inductive faulty : addr -> bt_param_validation_value_descr -> list validate_ctx_stack_element -> Prop :=
| faulty_custom type checks f a formatted :
    f h a (ValidationContext None []) = Some (bt_param_validation_error (ValidationContext None []) formatted) ->
    faulty a (ValueDescr type checks (Some f)) []
| faulty_type a type checks type' : bt_value_get_type h a = Some type' -> type' <> type ->
    faulty a (ValueDescr type checks None) []
| faulty_key a v m entries k : h !! a = Some v -> contents v = MapValue m -> is_Some (m !! k) ->
    k ∉ entry_key <$> entries -> faulty a (ValueDescr MapType (MapChecks entries) None) []
| faulty_missing a v m entries e : h !! a = Some v -> contents v = MapValue m -> e ∈ entries ->
    entry_is_optional e = false -> m !! entry_key e = None ->
    faulty a (ValueDescr MapType (MapChecks entries) None) []
| faulty_length a v l lo hi d : h !! a = Some v -> contents v = ArrayValue l ->
    ~ lo <= Z.of_nat (length l) <= hi -> faulty a (ValueDescr ArrayType (ArrayChecks lo hi d) None) []
| faulty_choice a v s choices : h !! a = Some v -> contents v = StringValue s -> s ∉ choices ->
    faulty a (ValueDescr StringType (StringChecks (Some choices)) None) []
| faulty_entry a v m entries e x path : h !! a = Some v -> contents v = MapValue m ->
    m !! entry_key e = Some x -> e ∈ entries -> faulty x (entry_value_descr e) path ->
    faulty a (ValueDescr MapType (MapChecks entries) None) (MapElement (entry_key e) :: path)
| faulty_element a v l lo hi d i x path : h !! a = Some v -> contents v = ArrayValue l -> l !! i = Some x ->
    faulty x d path ->
    faulty a (ValueDescr ArrayType (ArrayChecks lo hi d) None) (ArrayElement (Z.of_nat i) :: path).

Lemma faulty_not_valid a d path : faulty a d path -> proper d -> ~ valid a d.
Proof.
  induction 1 as [type checks f a txt Hf|a type checks type' Ht Hne|a v m es k Hv Hm Hk Hni|a v m es e Hv Hm He Ho Hn
    |a v l lo hi d Hv Hl Hlen|a v s choices Hv Hs Hni|a v m es e x path Hv Hm Hx He _ IH|a v l lo hi d i x path Hv Hl Hx _ IH];
    intros Hp Hval; inversion Hval as [? ? ? ? Hacc|? v' m' ? Hv' Hm' Hkeys Hes Hman|? v' l' ? ? ? Hv' Hl' Hlen' Hall
    |? v' s' ? Hv' Hs' Hch|? ? Ht' Hnt]; subst; simplify_eq;
    repeat match goal with H1 : contents ?v = _, H2 : contents ?v = _ |- _ => rewrite H1 in H2; simplify_eq end.
  - by rewrite Hacc in Hf.
  - apply Hne. unfold bt_value_get_type in Ht. rewrite Hv', Hm' in Ht. congruence.
  - apply Hne. unfold bt_value_get_type in Ht. rewrite Hv', Hl' in Ht. congruence.
  - apply Hne. unfold bt_value_get_type in Ht. rewrite Hv', Hs' in Ht. congruence.
  - by apply Hni, Hkeys.
  - destruct (Hman e He Ho). congruence.
  - done.
  - done.
  - inversion Hp as [|? _ Hpe| | |]; subst. apply IH; [by apply Hpe|by apply Hes].
  - inversion Hp; subst. apply IH; [done|]. apply Hall. by eapply list_elem_of_lookup_2.
Qed.
End meaning.

(** * Validating decides it *)

(** What validating [a] returns. *)
Definition outcome_ok (h : values) (a : addr) (d : bt_param_validation_value_descr) (ctx : bt_param_validation_context)
    (r : bt_param_validation_status * bt_param_validation_context) : Prop :=
  (r = (ValidationOk, ctx) /\ valid h a d) \/
  exists path formatted, faulty h a d path /\
    r = (ValidationError, ValidationContext (Some (message_scope (scope_stack ctx ++ path) ++ formatted)) (scope_stack ctx)).

Lemma outcome_error h a d ctx formatted : faulty h a d [] -> outcome_ok h a d ctx (bt_param_validation_error ctx formatted).
Proof. intros Hf. right. exists [], formatted. by rewrite app_nil_r. Qed.

(** The entries of the map [m] left to see, and the descriptors left. *)
Record scanning (h : values) (m : gmap (list Z) addr) (entries : list bt_param_validation_map_value_entry_descr)
    (todo : list (list Z * addr)) (avail : list bt_param_validation_map_value_entry_descr) : Prop := {
  s_todo_nodup : NoDup todo.*1;
  s_avail e : e ∈ avail -> e ∈ entries;
  s_nodup : NoDup (entry_key <$> avail);
  s_done e : e ∈ entries -> e ∈ avail \/ exists x, m !! entry_key e = Some x /\ valid h x (entry_value_descr e);
  s_todo k x : (k, x) ∈ todo -> m !! k = Some x /\ forall e, e ∈ entries -> entry_key e = k -> e ∈ avail;
  s_avail_todo e x : e ∈ avail -> m !! entry_key e = Some x -> (entry_key e, x) ∈ todo;
  s_keys k x : m !! k = Some x -> (k, x) ∈ todo \/ k ∈ entry_key <$> entries
}.

Section decides.
Context (hash_order : gmap (list Z) addr -> list (list Z * addr)).
Context (hash_order_perm : forall m, hash_order m ≡ₚ map_to_list m).

Lemma scanning_start h m entries : NoDup (entry_key <$> entries) -> scanning h m entries (hash_order m) entries.
Proof.
  intros Hnd. assert (Hin : forall k x, (k, x) ∈ hash_order m <-> m !! k = Some x).
  { intros k x. rewrite hash_order_perm. apply elem_of_map_to_list. }
  split; try done.
  - rewrite hash_order_perm. apply NoDup_fst_map_to_list.
  - intros e He. by left.
  - intros k x Hk. apply Hin in Hk. split; [done|]. by intros.
  - intros e x _ Hx. by apply Hin.
  - intros k x Hk. left. by apply Hin.
Qed.

Lemma scanning_step h m entries k x todo avail i e :
  scanning h m entries ((k, x) :: todo) avail -> avail !! i = Some e -> entry_key e = k ->
  valid h x (entry_value_descr e) -> scanning h m entries todo (remove_index_fast avail i).
Proof.
  intros [Htn Hav Hnd Hdone Htodo Hat Hkeys] Hi Hk Hval. pose proof (remove_index_fast_perm _ _ _ Hi) as Hp.
  set (rest := remove_index_fast avail i) in *. clearbody rest.
  assert (Hsplit : forall e', e' ∈ avail <-> e' = e \/ e' ∈ rest) by (intros e'; rewrite Hp; apply elem_of_cons).
  apply NoDup_cons in Htn as [Hkt Htn]. rewrite Hp in Hnd. simpl in Hnd. apply NoDup_cons in Hnd as [Her Hnd].
  assert (Hother : forall e', e' ∈ rest -> entry_key e' <> k).
  { intros e' He' Hke. apply Her. rewrite Hk, <- Hke. by apply list_elem_of_fmap_2. }
  destruct (Htodo k x) as [Hmk _]; [by left|]. split; [done| |done| | | |].
  - intros e' He'. apply Hav, Hsplit. by right.
  - intros e' He'. destruct (Hdone e' He') as [Ha|Hx]; [|by right]. apply Hsplit in Ha as [-> |Ha]; [right|by left].
    exists x. by rewrite Hk.
  - intros k' x' Hin. destruct (Htodo k' x') as [Hmk' Hall]; [by right|]. split; [done|]. intros e' He' Hke'.
    destruct (proj1 (Hsplit e') (Hall e' He' Hke')) as [-> |]; [|done]. exfalso. apply Hkt. apply list_elem_of_fmap.
    exists (k', x'). split; [simpl; congruence|done].
  - intros e' x' He' Hx'. assert ((entry_key e', x') ∈ (k, x) :: todo) as Hin by (apply Hat; [apply Hsplit; by right|done]).
    apply elem_of_cons in Hin as [[= Hke _]|]; [|done]. by destruct (Hother e' He').
  - intros k' x' Hk'. destruct (Hkeys k' x' Hk') as [Hin|]; [|by right]. apply elem_of_cons in Hin as [[= -> ->]|]; [|by left].
    right. rewrite <- Hk. apply list_elem_of_fmap_2, Hav, Hsplit. by left.
Qed.

(** [validate] decides the descriptors of what the value [a] contains. *)
Definition decides (h : values) (validate : addr -> bt_param_validation_value_descr -> bt_param_validation_context ->
    option (bt_param_validation_status * bt_param_validation_context)) (a : addr) : Prop :=
  forall d ctx, proper d -> exists r, validate a d ctx = Some r /\ outcome_ok h a d ctx r.

Lemma pop_pushed e stack s : validate_ctx_pop_scope (ValidationContext e (stack ++ [s])) = Some (ValidationContext e stack).
Proof.
  unfold validate_ctx_pop_scope. simpl. rewrite length_app, removelast_last.
  by rewrite (proj2 (Nat.ltb_lt _ _)) by (simpl; lia).
Qed.

#[local] Arguments validate_ctx_pop_scope : simpl never.

Lemma foreach_entries_ok h validate a v m entries ctx : h !! a = Some v -> contents v = MapValue m ->
  (forall e, e ∈ entries -> proper (entry_value_descr e)) ->
  forall todo avail, scanning h m entries todo avail -> Forall (fun p => decides h validate p.2) todo ->
  exists fs data, foreach_loop (validate_map_value_entry validate) todo (MapValueData avail ValidationOk ctx) = Some (fs, data) /\
    ((fs = FuncOk /\ data_status data = ValidationOk /\ data_ctx data = ctx /\ scanning h m entries [] (available_keys data)) \/
     (fs = FuncInterrupted /\ data_status data = ValidationError /\
      exists path formatted, faulty h a (ValueDescr MapType (MapChecks entries) None) path /\
        data_ctx data = ValidationContext (Some (message_scope (scope_stack ctx ++ path) ++ formatted)) (scope_stack ctx))).
Proof.
  intros Hv Hm Hprop. induction todo as [|[k x] todo IH]; intros avail Hscan Hall.
  { eexists _, _. split; [reflexivity|]. left. auto. }
  apply Forall_cons in Hall as [Hdec Hall]. simpl in Hdec. cbn [foreach_loop]. unfold validate_map_value_entry. simpl.
  destruct (s_todo _ _ _ _ _ Hscan k x) as [Hx Hkav]; [by left|].
  destruct (list_find _ avail) as [[i e]|] eqn:Hf.
  - apply list_find_Some in Hf as (Hi & Hk & _). assert (e ∈ entries) as He.
    { apply (s_avail _ _ _ _ _ Hscan). by eapply list_elem_of_lookup_2. }
    destruct (Hdec (entry_value_descr e) (validate_ctx_push_map_scope ctx k) (Hprop e He))
      as (r & -> & [[-> Hval]|(path & txt & Hfault & ->)]); unfold validate_ctx_push_map_scope; simpl; rewrite pop_pushed; simpl.
    + destruct ctx as [er st]. apply IH; [|done]. by eapply scanning_step.
    + eexists _, _. split; [reflexivity|]. right. split; [done|]. split; [done|].
      exists (MapElement k :: path), txt. split; [|simpl; by rewrite <- app_assoc]. subst k. by eapply faulty_entry.
  - eexists _, _. split; [reflexivity|]. right. split; [done|]. split; [done|].
    exists [], (text "unexpected key `" ++ k ++ text "`."). split; [|simpl; by rewrite app_nil_r].
    eapply faulty_key; [done..|by exists x|]. intros (e & Hk & He)%list_elem_of_fmap.
    apply list_find_None in Hf. rewrite Forall_forall in Hf. by apply (Hf e); [apply Hkav|].
Qed.

Lemma validate_map_ok h validate a v m entries ctx : h !! a = Some v -> contents v = MapValue m ->
  NoDup (entry_key <$> entries) -> (forall e, e ∈ entries -> proper (entry_value_descr e)) ->
  (forall k x, m !! k = Some x -> decides h validate x) ->
  exists r, validate_map_value hash_order validate entries h a ctx = Some r /\
    outcome_ok h a (ValueDescr MapType (MapChecks entries) None) ctx r.
Proof.
  intros Hv Hm Hnd Hprop Hdec.
  destruct (foreach_entries_ok h validate a v m entries ctx Hv Hm Hprop _ _ (scanning_start h m entries Hnd))
    as (fs & data & Hloop & Hres).
  { apply (hash_order_Forall hash_order); [done|]. intros k x Hx. by eapply Hdec. }
  unfold validate_map_value, bt_value_map_foreach_entry_const, foreach_map_entry. rewrite Hv, Hm, Hloop.
  destruct Hres as [(-> & Hst & Hctx & Hscan)|(-> & Hst & path & txt & Hfault & Hctx)]; cbv iota beta; rewrite Hst; simpl.
  - destruct (list_find _ _) as [[i e]|] eqn:Hf.
    + apply list_find_Some in Hf as (Hi & Ho & _). eexists. split; [reflexivity|]. rewrite Hctx. apply outcome_error.
      apply list_elem_of_lookup_2 in Hi. eapply faulty_missing; [done..|by apply (s_avail _ _ _ _ _ Hscan)|done|].
      destruct (m !! entry_key e) as [x|] eqn:Hx; [|done]. by apply (s_avail_todo _ _ _ _ _ Hscan e x Hi), elem_of_nil in Hx.
    + eexists. split; [reflexivity|]. left. rewrite Hctx. split; [done|]. apply list_find_None in Hf. rewrite Forall_forall in Hf.
      eapply valid_map; [done..| | |].
      * intros k [x Hx]. destruct (s_keys _ _ _ _ _ Hscan k x Hx) as [Hin|]; [by apply elem_of_nil in Hin|done].
      * intros e x He Hx. destruct (s_done _ _ _ _ _ Hscan e He) as [Ha|(x' & Hx' & Hval)]; [|congruence].
        by apply (s_avail_todo _ _ _ _ _ Hscan e x Ha), elem_of_nil in Hx.
      * intros e He Ho. destruct (s_done _ _ _ _ _ Hscan e He) as [Ha|(x' & Hx' & _)]; [by destruct (Hf e Ha)|by exists x'].
  - eexists. split; [reflexivity|]. right. exists path, txt. split; [done|]. by rewrite Hctx.
Qed.

Lemma validate_elements_ok h validate a v l lo hi d ctx : h !! a = Some v -> contents v = ArrayValue l -> proper d ->
  forall els i, (forall j x, els !! j = Some x -> l !! (i + j)%nat = Some x) -> Forall (decides h validate) els ->
  exists r, validate_elements validate d (Z.of_nat i) els ctx = Some r /\
    ((r = (ValidationOk, ctx) /\ Forall (fun x => valid h x d) els) \/
     exists path formatted, faulty h a (ValueDescr ArrayType (ArrayChecks lo hi d) None) path /\
       r = (ValidationError, ValidationContext (Some (message_scope (scope_stack ctx ++ path) ++ formatted)) (scope_stack ctx))).
Proof.
  intros Hv Hl Hp. induction els as [|x els IH]; intros i Hat Hall.
  { eexists. split; [reflexivity|]. left. by split. }
  apply Forall_cons in Hall as [Hdec Hall]. cbn [validate_elements].
  destruct (Hdec d (validate_ctx_push_array_scope ctx (Z.of_nat i)) Hp) as (r & -> & [[-> Hval]|(path & txt & Hfault & ->)]);
    unfold validate_ctx_push_array_scope; simpl; rewrite pop_pushed; simpl.
  - destruct ctx as [er st]. replace (Z.of_nat i + 1) with (Z.of_nat (S i)) by lia.
    destruct (IH (S i)) as (r & Hr & Hres); [|done|].
    { intros j y Hj. replace (S i + j)%nat with (i + S j)%nat by lia. by apply Hat. }
    exists r. split; [exact Hr|]. destruct Hres as [[-> Hvals]|Hres]; [left; split; [done|by constructor]|by right].
  - eexists. split; [reflexivity|]. right. exists (ArrayElement (Z.of_nat i) :: path), txt.
    split; [|by rewrite <- app_assoc]. apply (faulty_element h a v l lo hi d i x path); [done..| |done].
    specialize (Hat 0%nat x eq_refl). by rewrite Nat.add_0_r in Hat.
Qed.

Lemma validate_array_ok h validate a v l lo hi d ctx : h !! a = Some v -> contents v = ArrayValue l -> proper d ->
  Forall (decides h validate) l ->
  exists r, validate_array_value validate lo hi d l ctx = Some r /\
    outcome_ok h a (ValueDescr ArrayType (ArrayChecks lo hi d) None) ctx r.
Proof.
  intros Hv Hl Hp Hall. unfold validate_array_value.
  assert (Hlen : ~ lo <= Z.of_nat (length l) <= hi -> faulty h a (ValueDescr ArrayType (ArrayChecks lo hi d) None) [])
    by (intros; by eapply faulty_length).
  destruct (Z.ltb_spec (Z.of_nat (length l)) lo); [|destruct (Z.ltb_spec hi (Z.of_nat (length l)))].
  1, 2: eexists; (split; [reflexivity|]); apply outcome_error, Hlen; lia.
  destruct (validate_elements_ok h validate a v l lo hi d ctx Hv Hl Hp l 0 ltac:(done) Hall) as (r & Hr & Hres).
  exists r. split; [exact Hr|]. destruct Hres as [[-> Hvals]|Hres]; [left|by right]. split; [done|].
  rewrite Forall_forall in Hvals. by eapply valid_array.
Qed.

Lemma validate_value_ok n h a : tree n h a -> decides h (validate_value hash_order n h) a.
Proof.
  revert a. induction n as [|n IH]; [done|]. intros a (v & Hv & Hkids) d ctx Hp. destruct d as [type checks f].
  cbn [validate_value]. destruct f as [f|].
  { inversion Hp as [? ? ? Hf| | | |]; subst. destruct (Hf h a) as [Hok|Herr].
    - rewrite (Hok ctx). eexists. split; [reflexivity|]. left. split; [done|]. by apply valid_custom.
    - destruct (Herr ctx) as [txt Ht]. rewrite Ht. eexists. split; [reflexivity|]. apply outcome_error. destruct (Herr (ValidationContext None [])) as [txt' Ht']. by eapply faulty_custom. }
  assert (Hty : exists ty, bt_value_get_type h a = Some ty) by (unfold bt_value_get_type; rewrite Hv; by eexists).
  destruct Hty as [ty Hty]. rewrite Hty. destruct (decide (ty = type)) as [<-|Hne].
  2: { rewrite bool_decide_eq_false_2 by done. eexists. split; [reflexivity|].
       by eapply outcome_error, faulty_type. }
  rewrite bool_decide_eq_true_2 by done. rewrite Hv. simpl negb. cbv iota.
  rewrite children_kids in Hkids. inversion Hp as [|es Hnd Hes|lo hi d Hd|choices|? Hscalar]; subst;
    assert (Hty' := Hty); unfold bt_value_get_type in Hty'; rewrite Hv in Hty';
    destruct (contents v) as [| |[]| | |l|m] eqn:Hc; simplify_eq;
    try (eexists; split; [reflexivity|left; split; [reflexivity|by apply valid_scalar]]);
    try (exfalso; apply Hscalar; set_solver).
  - eapply validate_map_ok; try done. intros k x Hx. apply IH. rewrite Forall_forall in Hkids. apply Hkids. by eapply map_kid.
  - eapply validate_array_ok; try done. eapply Forall_impl; [exact Hkids|]. exact IH.
  - eexists. split; [reflexivity|]. destruct choices as [choices|]; simpl; [|left; split; [done|by eapply valid_string]].
    case_bool_decide; [left; split; [done|by eapply valid_string]|]. by eapply outcome_error, faulty_choice.
Qed.
End decides.


(** * Witness *)

(** The map 4 has the array 3 of the boolean 2 and null. *)
Definition ex_params : values :=
  let value c := BtValue (BtObject true 1 None None None None) false c in
  list_to_map [(1%positive, value NullValue); (2%positive, value (BoolValue 1));
               (3%positive, value (ArrayValue [2%positive; 1%positive]));
               (4%positive, value (MapValue {[ text "i" := 3%positive ]}))].
Definition ex_descr (max_length : Z) : list bt_param_validation_map_value_entry_descr :=
  [EntryDescr (text "i") false
     (ValueDescr ArrayType (ArrayChecks 1 max_length (ValueDescr BoolType NoCheck None)) None)].

