(* ===== verification/PrioHeap.v ===== *)
(** The priority heap of [src/src/cpp-common/bt2c/prio-heap.hpp]: an array whose
    first element is the greatest one for a comparator.

    The comparator is an argument of each operation, because its result may depend
    on a state that changes between the operations (the muxer compares the current
    messages of message iterators); [None] means that it aborts.  Positions are
    far from the limits of [std::size_t]. *)

From S2P Require Import Prelude.
From stdpp Require Import list.
#[local] Open Scope nat_scope.

Section PrioHeap.
Context {T : Type}.
(** Whether the debug assertions are compiled in, the value of a
    default-constructed element and the comparator. *)
Context (debug : bool) (dflt : T) (_gt : T -> T -> option bool).
Implicit Types (h : list T) (elem : T).

Definition _parentPos (pos : nat) : nat := (pos - 1) / 2.

(** The loop of [_validate] on the positions from 1. *)
Fixpoint validate_elems (front : T) (elems : list T) : option unit :=
  match elems with
  | [] => Some tt
  | e :: elems =>
    match _gt e front with
    | Some false => validate_elems front elems
    | _ => None
    end
  end.

Definition _validate h : option unit :=
  if debug then
    match h with
    | [] => Some tt
    | front :: elems => validate_elems front elems
    end
  else Some tt.

Definition top h : option T :=
  BT_ASSERT_DBG debug (negb (bool_decide (h = []))) (match _validate h with Some tt => head h | None => None end).

(** The loop of [insert] that moves parents down. *)
Fixpoint insert_loop (fuel : nat) h (pos : nat) elem : option (list T) :=
  match fuel with
  | O => None
  | S fuel =>
    if 0 <? pos then
      match h !! _parentPos pos with
      | Some p =>
        match _gt elem p with
        | Some true => insert_loop fuel (<[pos := p]> h) (_parentPos pos) elem
        | Some false => Some (<[pos := elem]> h)
        | None => None
        end
      | None => None
      end
    else Some (<[pos := elem]> h)
  end.

Definition insert h elem : option (list T) :=
  match insert_loop (S (length h)) (h ++ [dflt]) (length h) elem with
  | Some h => match _validate h with Some tt => Some h | None => None end
  | None => None
  end.

(** The position of the greatest of an element and its child at [child]. *)
Definition larger h (pos child : nat) : option nat :=
  if child <? length h then
    match h !! child, h !! pos with
    | Some c, Some e =>
      match _gt c e with Some g => Some (if g : bool then child else pos) | None => None end
    | _, _ => None
    end
  else Some pos.

Fixpoint heapify_loop (fuel : nat) h (pos : nat) : option (list T) :=
  match fuel with
  | O => None
  | S fuel =>
    match larger h pos (2 * pos + 1) with
    | Some largestPos =>
      match larger h largestPos (2 * pos + 2) with
      | Some largestPos =>
        if largestPos =? pos then Some h
        else
          match h !! pos, h !! largestPos with
          | Some tmpElem, Some largest =>
            heapify_loop fuel (<[largestPos := tmpElem]> (<[pos := largest]> h)) largestPos
          | _, _ => None
          end
      | None => None
      end
    | None => None
    end
  end.

Definition _heapify h (pos : nat) : option (list T) :=
  match heapify_loop (length h) h pos with
  | Some h => match _validate h with Some tt => Some h | None => None end
  | None => None
  end.

Definition replaceTop h elem : option (list T) :=
  BT_ASSERT_DBG debug (negb (bool_decide (h = [])))
    (if bool_decide (h = []) then None else _heapify (<[0 := elem]> h) 0).

Definition removeTop h : option (list T) :=
  BT_ASSERT_DBG debug (negb (bool_decide (h = [])))
    match h with
    | [] => None
    | [_] => Some []
    | _ =>
      match h !! (length h - 1) with
      | Some lastElem => replaceTop (take (length h - 1) h) lastElem
      | None => None
      end
    end.

End PrioHeap.

(** * Specification *)

(** [gt] orders the elements that satisfy [P] weakly: "not greater" is total and
    transitive. *)
Record strict_weak {T} (P : T -> Prop) (gt : T -> T -> bool) : Prop := {
  sw_asym a b : P a -> P b -> gt a b = true -> gt b a = false;
  sw_trans a b c : P a -> P b -> P c -> gt a b = false -> gt b c = false -> gt a c = false
}.

(** No element is greater than its parent, but those whose parent is at [pos]. *)
Definition heap_except {T} (gt : T -> T -> bool) (pos : nat) (h : list T) : Prop :=
  forall i x p, 0 < i -> _parentPos i <> pos -> h !! i = Some x -> h !! _parentPos i = Some p ->
  gt x p = false.
Definition heap_ok {T} (gt : T -> T -> bool) (h : list T) : Prop :=
  forall i x p, 0 < i -> h !! i = Some x -> h !! _parentPos i = Some p -> gt x p = false.

Lemma parent_lt i : 0 < i -> _parentPos i < i.
Proof. intros. unfold _parentPos. apply Nat.Div0.div_lt_upper_bound. lia. Qed.

Lemma parent_children i pos : 0 < i -> _parentPos i = pos <-> i = 2 * pos + 1 \/ i = 2 * pos + 2.
Proof.
  intros. unfold _parentPos. pose proof (Nat.div_mod (i - 1) 2 ltac:(done)).
  pose proof (Nat.mod_upper_bound (i - 1) 2 ltac:(done)). lia.
Qed.

(** ** Lists with an element replaced *)

Lemma insert_perm {T} (l : list T) i x y :
  l !! i = Some x -> x :: <[i := y]> l ≡ₚ y :: l.
Proof.
  revert i. induction l as [|z l IH]; intros [|i] Hi; simplify_eq/=; [apply perm_swap|].
  rewrite perm_swap, (IH i Hi). apply perm_swap.
Qed.

Lemma swap_perm {T} (l : list T) i j x y :
  l !! i = Some x -> l !! j = Some y -> <[j := x]> (<[i := y]> l) ≡ₚ l.
Proof.
  intros Hi Hj. destruct (decide (i = j)) as [-> |Hne].
  { rewrite Hj in Hi. injection Hi as ->. rewrite list_insert_insert_eq. by rewrite list_insert_id. }
  apply (Permutation_cons_inv (a := y)).
  rewrite (insert_perm _ j y x) by (by rewrite list_lookup_insert_ne).
  by apply insert_perm.
Qed.

Section laws.
Context {T : Type} (debug : bool) (dflt : T) (_gt : T -> T -> option bool).
Context (P : T -> Prop) (gt : T -> T -> bool).
Context (gt_spec : forall a b, P a -> P b -> _gt a b = Some (gt a b)) (Hsw : strict_weak P gt).
Implicit Types (h : list T) (elem : T).

Lemma gt_irrefl a : P a -> gt a a = false.
Proof. intros Ha. destruct (gt a a) eqn:E; [|done]. by rewrite (sw_asym P gt Hsw a a) in E. Qed.

Lemma elem_P h i x : Forall P h -> h !! i = Some x -> P x.
Proof. intros Hp Hi. eapply Forall_lookup_1; eauto. Qed.

(** The first element is not less than any other one. *)
Lemma heap_top h x front : Forall P h -> heap_ok gt h -> head h = Some front -> x ∈ h -> gt x front = false.
Proof.
  intros Hp Hok Hf Hin. apply list_elem_of_lookup in Hin as [i Hi].
  assert (H0 : h !! 0 = Some front) by (by destruct h).
  revert x Hi. induction i as [i IH] using lt_wf_ind. intros x Hi. destruct i as [|i].
  { rewrite H0 in Hi. injection Hi as <-. apply gt_irrefl. by eapply elem_P. }
  pose proof (parent_lt (S i) ltac:(lia)).
  destruct (lookup_lt_is_Some_2 h (_parentPos (S i))) as [p Hpar].
  { apply lookup_lt_Some in Hi. lia. }
  apply (sw_trans P gt Hsw x p front); eauto using elem_P.
  apply (Hok (S i)); auto; lia.
Qed.

Lemma validate_ok h : Forall P h -> heap_ok gt h -> _validate debug _gt h = Some tt.
Proof.
  intros Hp Hok. unfold _validate. destruct debug; [|done]. destruct h as [|front h]; [done|].
  assert (Hall : forall x, x ∈ h -> P x /\ gt x front = false).
  { intros x Hx. assert (x ∈ front :: h) by (by right). split.
    - rewrite Forall_forall in Hp. auto.
    - by apply (heap_top (front :: h)). }
  assert (Pf : P front) by (by apply Forall_cons_1 in Hp as [? _]).
  clear Hp Hok. induction h as [|x h IH]; [done|]. simpl.
  destruct (Hall x ltac:(left)) as [Hx Hg]. rewrite gt_spec, Hg by done.
  apply IH. intros y Hy. apply Hall. by right.
Qed.

Lemma top_ok h : Forall P h -> heap_ok gt h -> h <> [] -> top debug _gt h = head h.
Proof.
  intros Hp Hok Hne. unfold top, BT_ASSERT_DBG. rewrite bool_decide_eq_false_2 by done.
  by rewrite andb_false_r, validate_ok.
Qed.

(** ** Moving an element up *)

(** The heap with a hole at [pos] where [elem] may go, or move up. *)
Definition hole_ok h (pos : nat) elem : Prop :=
  (forall i x p, 0 < i -> i <> pos -> _parentPos i <> pos -> h !! i = Some x ->
     h !! _parentPos i = Some p -> gt x p = false) /\
  (forall i x, 0 < i -> _parentPos i = pos -> h !! i = Some x -> gt x elem = false) /\
  (forall i x p, 0 < i -> _parentPos i = pos -> 0 < pos -> h !! i = Some x ->
     h !! _parentPos pos = Some p -> gt x p = false).

Lemma hole_fill h pos elem :
  hole_ok h pos elem ->
  (0 < pos -> forall p, h !! _parentPos pos = Some p -> gt elem p = false) ->
  heap_ok gt (<[pos := elem]> h).
Proof.
  intros (Ha & Hb & _) Hup i x p Hi Hx Hp.
  destruct (decide (i = pos)) as [-> |Hne].
  - pose proof (parent_lt pos Hi). rewrite list_lookup_insert_ne in Hp by lia.
    apply list_lookup_insert_Some in Hx as [(_ & -> & _)|[? _]]; [|done]. by apply Hup.
  - rewrite list_lookup_insert_ne in Hx by done.
    destruct (decide (_parentPos i = pos)) as [Hpar|Hpar].
    + rewrite Hpar in Hp. apply list_lookup_insert_Some in Hp as [(_ & -> & _)|[? _]]; [|done]. eauto.
    + rewrite list_lookup_insert_ne in Hp by done. by apply (Ha i).
Qed.

Lemma hole_up h pos elem p :
  Forall P h -> P elem -> 0 < pos -> pos < length h -> hole_ok h pos elem ->
  h !! _parentPos pos = Some p -> gt elem p = true -> hole_ok (<[pos := p]> h) (_parentPos pos) elem.
Proof.
  intros HP He Hpos Hlen (Ha & Hb & Hc) Hp Hgt.
  pose proof (parent_lt pos Hpos) as Hlt. assert (Pp : P p) by (by eapply elem_P).
  assert (Hsib : forall i x, 0 < i -> i <> pos -> _parentPos i = _parentPos pos ->
    h !! i = Some x -> P x /\ gt x p = false).
  { intros i x Hi Hne Hpar Hx. split; [by eapply elem_P|].
    apply (Ha i); auto; [lia|]. by rewrite Hpar. }
  split; [|split].
  - intros i x q Hi Hn1 Hn2 Hx Hq. destruct (decide (i = pos)) as [-> |Hne]; [done|].
    rewrite list_lookup_insert_ne in Hx by done.
    destruct (decide (_parentPos i = pos)) as [Hpar|Hpar].
    + rewrite Hpar in Hq. apply list_lookup_insert_Some in Hq as [(_ & -> & _)|[? _]]; [|done]. eauto.
    + rewrite list_lookup_insert_ne in Hq by done. by apply (Ha i).
  - intros i x Hi Hpar Hx. destruct (decide (i = pos)) as [-> |Hne].
    + apply list_lookup_insert_Some in Hx as [(_ & -> & _)|[? _]]; [|done].
      by apply (sw_asym P gt Hsw).
    + rewrite list_lookup_insert_ne in Hx by done.
      destruct (Hsib i x Hi Hne Hpar Hx) as [Px Hxp].
      apply (sw_trans P gt Hsw x p elem); auto. by apply (sw_asym P gt Hsw).
  - intros i x q Hi Hpar Hp1 Hx Hq. pose proof (parent_lt _ Hp1).
    rewrite list_lookup_insert_ne in Hq by lia.
    assert (Hpq : gt p q = false) by (apply (Ha (_parentPos pos)); auto; lia).
    destruct (decide (i = pos)) as [-> |Hne].
    + apply list_lookup_insert_Some in Hx as [(_ & -> & _)|[? _]]; done.
    + rewrite list_lookup_insert_ne in Hx by done.
      destruct (Hsib i x Hi Hne Hpar Hx) as [Px Hxp].
      apply (sw_trans P gt Hsw x p q); eauto using elem_P.
Qed.

Lemma insert_loop_ok fuel elem : forall h pos,
  pos < fuel -> pos < length h -> Forall P h -> P elem -> hole_ok h pos elem ->
  exists h', insert_loop _gt fuel h pos elem = Some h' /\ heap_ok gt h' /\ h' ≡ₚ <[pos := elem]> h.
Proof.
  induction fuel as [|fuel IH]; intros h pos Hf Hlen HP He Hok; [lia|]. cbn [insert_loop].
  destruct (Nat.ltb_spec 0 pos) as [Hpos|Hpos].
  2: { eexists. split; [done|]. split; [|done]. apply hole_fill; [done|lia]. }
  pose proof (parent_lt pos Hpos). destruct (lookup_lt_is_Some_2 h (_parentPos pos)) as [p Hp]; [lia|].
  rewrite Hp, gt_spec by eauto using elem_P. destruct (gt elem p) eqn:Hg.
  - destruct (IH (<[pos := p]> h) (_parentPos pos)) as (h' & -> & Hh & Hperm);
      [lia|rewrite length_insert; lia|apply Forall_insert; eauto using elem_P|done|by apply hole_up|].
    exists h'. split; [done|]. split; [done|]. rewrite Hperm.
    rewrite <- (swap_perm (<[pos := elem]> h) pos (_parentPos pos) elem p).
    + by rewrite list_insert_insert_eq.
    + by apply list_lookup_insert_eq.
    + by rewrite list_lookup_insert_ne by lia.
  - eexists. split; [done|]. split; [|done]. apply hole_fill; [done|]. intros _ q Hq. congruence.
Qed.

(** What is in the hole does not count. *)
Lemma insert_loop_hole fuel h pos elem x :
  insert_loop _gt fuel (<[pos := x]> h) pos elem = insert_loop _gt fuel h pos elem.
Proof.
  destruct fuel as [|fuel]; [done|]. cbn [insert_loop]. destruct (Nat.ltb_spec 0 pos) as [Hp|_].
  - pose proof (parent_lt pos Hp). rewrite list_lookup_insert_ne by lia.
    destruct (h !! _parentPos pos) as [p|]; [|done]. by rewrite !list_insert_insert_eq.
  - by rewrite list_insert_insert_eq.
Qed.

Lemma insert_ok h elem :
  Forall P h -> P elem -> heap_ok gt h ->
  exists h', insert debug dflt _gt h elem = Some h' /\ heap_ok gt h' /\ h' ≡ₚ elem :: h.
Proof.
  intros HP He Hok. unfold insert.
  rewrite <- (insert_loop_hole _ _ _ _ elem), insert_app_r_alt, Nat.sub_diag by done. simpl (<[0:=_]> _).
  destruct (insert_loop_ok (S (length h)) elem (h ++ [elem]) (length h)) as (h' & -> & Hh & Hperm).
  - lia.
  - rewrite length_app. simpl. lia.
  - by apply Forall_app_2; [|constructor].
  - done.
  - assert (Hin : forall i x, i <> length h -> (h ++ [elem]) !! i = Some x -> h !! i = Some x).
    { intros i x Hne Hx. pose proof (lookup_lt_Some _ _ _ Hx) as Hl.
      rewrite length_app in Hl. simpl in Hl. by rewrite lookup_app_l in Hx by lia. }
    split; [|split].
    + intros i x p Hi Hne Hpar Hx Hp. apply (Hok i); auto.
    + intros i x Hi Hpar Hx. apply lookup_lt_Some in Hx. rewrite length_app in Hx. simpl in Hx.
      apply parent_children in Hpar; lia.
    + intros i x p Hi Hpar _ Hx. apply lookup_lt_Some in Hx. rewrite length_app in Hx. simpl in Hx.
      apply parent_children in Hpar; lia.
  - assert (Hp' : h' ≡ₚ elem :: h).
    { rewrite Hperm, insert_app_r_alt, Nat.sub_diag by lia. simpl. by rewrite Permutation_app_comm. }
    rewrite validate_ok; eauto. rewrite Hp'. by constructor.
Qed.

(** ** Moving an element down *)

Lemma larger_ok h pos child e :
  Forall P h -> h !! pos = Some e ->
  (exists c, larger _gt h pos child = Some child /\ h !! child = Some c /\ gt c e = true) \/
  (larger _gt h pos child = Some pos /\ forall c, h !! child = Some c -> gt c e = false).
Proof.
  intros HP He. unfold larger. destruct (Nat.ltb_spec child (length h)) as [Hl|Hl].
  - destruct (lookup_lt_is_Some_2 h child Hl) as [c Hc]. rewrite Hc, He, gt_spec by eauto using elem_P.
    destruct (gt c e) eqn:Hg; [left; eauto|right]. split; [done|]. intros c' [= <-]. done.
  - right. split; [done|]. intros c Hc. apply lookup_lt_Some in Hc. lia.
Qed.

(** The greatest of an element and its two children. *)
Lemma largest_ok h pos e :
  Forall P h -> h !! pos = Some e ->
  exists l m, larger _gt h pos (2 * pos + 1) = Some l /\ larger _gt h l (2 * pos + 2) = Some m /\
    ((m = pos /\ forall i x, 0 < i -> _parentPos i = pos -> h !! i = Some x -> gt x e = false) \/
     (exists y, (m = 2 * pos + 1 \/ m = 2 * pos + 2) /\ h !! m = Some y /\ gt y e = true /\
      forall i x, 0 < i -> i <> m -> _parentPos i = pos -> h !! i = Some x -> gt x y = false)).
Proof.
  intros HP He. assert (Pe : P e) by (by eapply elem_P).
  destruct (larger_ok h pos (2 * pos + 1) e HP He) as [(cl & -> & Hcl & Hgl)|[-> Hnl]].
  - destruct (larger_ok h (2 * pos + 1) (2 * pos + 2) cl HP Hcl) as [(cr & Hr & Hcr & Hgr)|[Hr Hnr]];
      eexists _, _; (split; [reflexivity|]); (split; [exact Hr|]); right.
    + exists cr. split; [by right|]. split; [done|].
      assert (Pl : P cl) by (by eapply elem_P). assert (Pr : P cr) by (by eapply elem_P).
      split.
      * destruct (gt cr e) eqn:Hg; [done|].
        rewrite (sw_trans P gt Hsw cr e cl) in Hgr; auto. by apply (sw_asym P gt Hsw).
      * intros i x Hi Hne Hpar Hx. apply parent_children in Hpar; [|done].
        assert (i = 2 * pos + 1) as -> by lia. rewrite Hcl in Hx. injection Hx as <-.
        by apply (sw_asym P gt Hsw).
    + exists cl. split; [by left|]. split; [done|]. split; [done|].
      intros i x Hi Hne Hpar Hx. apply parent_children in Hpar; [|done].
      assert (i = 2 * pos + 2) as -> by lia. by apply Hnr.
  - destruct (larger_ok h pos (2 * pos + 2) e HP He) as [(cr & Hr & Hcr & Hgr)|[Hr Hnr]];
      eexists _, _; (split; [reflexivity|]); (split; [exact Hr|]).
    + right. exists cr. split; [by right|]. split; [done|]. split; [done|].
      intros i x Hi Hne Hpar Hx. apply parent_children in Hpar; [|done].
      assert (i = 2 * pos + 1) as -> by lia.
      apply (sw_trans P gt Hsw x e cr); eauto using elem_P.
      apply (sw_asym P gt Hsw); eauto using elem_P.
    + left. split; [done|]. intros i x Hi Hpar Hx.
      apply parent_children in Hpar as [->| ->]; auto.
Qed.

(** The heap but for the element at [pos], which may be less than its children. *)
Definition sink_ok h (pos : nat) : Prop :=
  heap_except gt pos h /\
  (forall i x p, 0 < i -> _parentPos i = pos -> 0 < pos -> h !! i = Some x ->
     h !! _parentPos pos = Some p -> gt x p = false).

Lemma sink_step h pos m e y :
  Forall P h -> sink_ok h pos -> (m = 2 * pos + 1 \/ m = 2 * pos + 2) ->
  h !! pos = Some e -> h !! m = Some y -> gt y e = true ->
  (forall i x, 0 < i -> i <> m -> _parentPos i = pos -> h !! i = Some x -> gt x y = false) ->
  sink_ok (<[m := e]> (<[pos := y]> h)) m.
Proof.
  intros HP [Hex Hgr] Hm He Hy Hg Hsib.
  assert (Hpm : _parentPos m = pos) by (apply parent_children; lia).
  assert (Hl : forall i, i <> m -> i <> pos -> <[m := e]> (<[pos := y]> h) !! i = h !! i)
    by (intros i ? ?; by rewrite !list_lookup_insert_ne by done).
  assert (Hlm : <[m := e]> (<[pos := y]> h) !! m = Some e).
  { apply list_lookup_insert_eq. rewrite length_insert. by eapply lookup_lt_Some. }
  assert (Hlp : <[m := e]> (<[pos := y]> h) !! pos = Some y).
  { rewrite list_lookup_insert_ne by lia. apply list_lookup_insert_eq. by eapply lookup_lt_Some. }
  split.
  - intros i x p Hi Hpar Hx Hp. pose proof (parent_lt i Hi).
    destruct (decide (i = m)) as [->|Hnm].
    { rewrite Hpm, Hlp in Hp. rewrite Hlm in Hx. simplify_eq.
      apply (sw_asym P gt Hsw); eauto using elem_P. }
    destruct (decide (_parentPos i = pos)) as [Hpp|Hpp].
    { rewrite Hpp, Hlp in Hp. rewrite Hl in Hx by lia. simplify_eq. eauto. }
    rewrite (Hl (_parentPos i)) in Hp by done.
    destruct (decide (i = pos)) as [->|Hnp].
    { rewrite Hlp in Hx. injection Hx as <-. apply (Hgr m); auto; lia. }
    rewrite Hl in Hx by done. by apply (Hex i).
  - intros i x p Hi Hpar _ Hx Hp. pose proof (parent_lt i Hi).
    rewrite Hl in Hx by lia. rewrite Hpm, Hlp in Hp. injection Hp as <-.
    apply (Hex i); auto; [lia|]. by rewrite Hpar.
Qed.

Lemma heapify_loop_ok fuel : forall h pos,
  length h - pos <= fuel -> pos < length h -> Forall P h -> sink_ok h pos ->
  exists h', heapify_loop _gt fuel h pos = Some h' /\ heap_ok gt h' /\ h' ≡ₚ h.
Proof.
  induction fuel as [|fuel IH]; intros h pos Hf Hlen HP Hok; [lia|]. cbn [heapify_loop].
  destruct (lookup_lt_is_Some_2 h pos Hlen) as [e He].
  destruct (largest_ok h pos e HP He) as (l & m & -> & -> & [[-> Hch]|(y & Hm & Hy & Hg & Hsib)]).
  - rewrite Nat.eqb_refl. eexists. split; [done|]. split; [|done].
    intros i x p Hi Hx Hp. destruct (decide (_parentPos i = pos)) as [Hpar|Hpar].
    + rewrite Hpar, He in Hp. injection Hp as <-. by eapply Hch.
    + by apply (proj1 Hok i).
  - rewrite (proj2 (Nat.eqb_neq m pos)) by lia. rewrite He, Hy.
    pose proof (lookup_lt_Some _ _ _ Hy) as Hml.
    destruct (IH (<[m := e]> (<[pos := y]> h)) m) as (h' & -> & Hh & Hperm).
    + rewrite !length_insert. lia.
    + by rewrite !length_insert.
    + repeat apply Forall_insert; eauto using elem_P.
    + by eapply sink_step.
    + exists h'. split; [done|]. split; [done|]. rewrite Hperm. by apply swap_perm.
Qed.

(** Replacing the first element, whatever it is compared with the others. *)
Lemma replaceTop_ok e h elem :
  Forall P h -> P elem -> heap_except gt 0 (e :: h) ->
  exists h', replaceTop debug _gt (e :: h) elem = Some h' /\ heap_ok gt h' /\ h' ≡ₚ elem :: h.
Proof.
  intros HP He Hok. unfold replaceTop, BT_ASSERT_DBG. rewrite bool_decide_eq_false_2 by done.
  rewrite andb_false_r. unfold _heapify. cbn [insert list_insert].
  destruct (heapify_loop_ok (length (elem :: h)) (elem :: h) 0) as (h' & Hl & Hh & Hperm).
  - simpl. lia.
  - simpl. lia.
  - by constructor.
  - split; [|lia]. intros [|i] x p Hi Hne Hx Hp; [lia|].
    apply (Hok (S i)); auto. destruct (_parentPos (S i)); done.
  - change (<[0 := elem]> (e :: h)) with (elem :: h). rewrite Hl. rewrite validate_ok; eauto.
    rewrite Hperm. by constructor.
Qed.

Lemma removeTop_ok e h :
  Forall P h -> heap_except gt 0 (e :: h) ->
  exists h', removeTop debug _gt (e :: h) = Some h' /\ heap_ok gt h' /\ h' ≡ₚ h.
Proof.
  intros HP Hok. unfold removeTop, BT_ASSERT_DBG. rewrite bool_decide_eq_false_2 by done.
  rewrite andb_false_r. destruct h as [|a h]; [by exists []|].
  destruct (exists_last (l := a :: h) ltac:(done)) as (h0 & z & E). rewrite E in *.
  assert (Hlen : length (e :: h0 ++ [z]) - 1 = length (e :: h0)) by (simpl; rewrite length_app; simpl; lia).
  rewrite Hlen. change (e :: h0 ++ [z]) with ((e :: h0) ++ [z]).
  rewrite lookup_app_r, Nat.sub_diag by done. cbn [lookup list_lookup].
  rewrite take_app_le, take_ge by done. apply Forall_app in HP as [HP Hz].
  destruct (replaceTop_ok e h0 z HP) as (h' & -> & Hh & Hperm).
  - by apply Forall_cons_1 in Hz as [? _].
  - intros i x p Hi Hne Hx Hp. apply (Hok i); auto;
      change (e :: h0 ++ [z]) with ((e :: h0) ++ [z]); by apply lookup_app_l_Some.
  - exists h'. split; [done|]. split; [done|]. rewrite Hperm. by rewrite Permutation_app_comm.
Qed.
End laws.

(** C28: The heap is a multiset from which the greatest element is taken.  For a
    comparator that orders the elements weakly, from an array in heap order, the
    four operations never fail an assertion and keep the heap order; inserting
    adds the element, the top is not less than any element, removing it removes
    exactly it, and replacing it removes exactly it and adds the element. *)
Theorem heap_operations {T} (debug : bool) (dflt : T) (_gt : T -> T -> option bool)
    (P : T -> Prop) (gt : T -> T -> bool) (h : list T) (elem : T) :
  (forall a b, P a -> P b -> _gt a b = Some (gt a b)) -> strict_weak P gt ->
  Forall P h -> P elem -> heap_ok gt h ->
  (exists h', insert debug dflt _gt h elem = Some h' /\ heap_ok gt h' /\ h' ≡ₚ elem :: h) /\
  (forall e t, h = e :: t ->
     top debug _gt h = Some e /\ Forall (fun x => gt x e = false) h /\
     (exists h', removeTop debug _gt h = Some h' /\ heap_ok gt h' /\ h' ≡ₚ t) /\
     (exists h', replaceTop debug _gt h elem = Some h' /\ heap_ok gt h' /\ h' ≡ₚ elem :: t)).
Proof.
  intros Hgt Hsw HP He Hok. split; [by eapply insert_ok|]. intros e t ->.
  assert (Hex : heap_except gt 0 (e :: t)) by (intros i x p ? _; by apply Hok).
  assert (HPt : Forall P t) by (by apply Forall_cons_1 in HP as [_ ?]).
  split; [by rewrite (top_ok debug _gt P gt)|].
  split; [apply Forall_forall; intros x Hx; by eapply (heap_top P gt Hsw (e :: t))|].
  split; [by eapply removeTop_ok|by eapply replaceTop_ok].
Qed.

(** * Witness *)

Definition ex_gt (a b : nat) : option bool := Some (Nat.ltb b a).

Lemma heap_operations_witness :
  heap_ok (fun a b => Nat.ltb b a) [9; 5; 8; 1; 4] /\
  insert true 0 ex_gt [9; 5; 8; 1; 4] 10 = Some [10; 5; 9; 1; 4; 8] /\
  removeTop true ex_gt [9; 5; 8; 1; 4] = Some [8; 5; 4; 1] /\
  exists h', replaceTop true ex_gt [9; 5; 8; 1; 4] 3 = Some h' /\ h' ≡ₚ [3; 5; 8; 1; 4].
Proof.
  assert (Hok : heap_ok (fun a b => Nat.ltb b a) [9; 5; 8; 1; 4]).
  { intros i x p Hi Hx Hp. do 5 (destruct i as [|i]; [by simplify_eq/=|]). done. }
  split; [exact Hok|]. split; [reflexivity|]. split; [reflexivity|].
  destruct (heap_operations true 0 ex_gt (fun _ => True) (fun a b => Nat.ltb b a) [9; 5; 8; 1; 4] 3)
    as [_ Ht].
  - done.
  - split; intros *; intros _ _; rewrite ?Nat.ltb_ge, ?Nat.ltb_lt; [lia|]. intros _.
    rewrite ?Nat.ltb_ge. lia.
  - repeat constructor.
  - done.
  - exact Hok.
  - destruct (Ht 9 [5; 8; 1; 4] eq_refl) as (_ & _ & _ & h' & E & _ & Hperm). by exists h'.
Defined.
