(* ===== verification/IntRange.v ===== *)
(** Integer range sets: [src/src/lib/integer-range-set.c] and
    [src/src/lib/integer-range-set.h].

    A range holds two 64-bit words, seen as unsigned or as signed integers through
    a union; a range set is an object with an array of ranges.  The functions work
    on the store of the range sets, by address ([Object]); [dev] tells whether the
    library is built in developer mode, [debug] in debug mode, and [thread_error]
    whether the current thread has an error.  [None] is a failed precondition or
    assertion, or an access to a set or range that is not there. *)

From S2P Require Import Prelude Object.

(** [lower.u] and [upper.u]. *)
Record bt_integer_range := BtIntegerRange { lower : Z; upper : Z }.

(** [lower.i] and [upper.i]. *)
Definition lower_i (r : bt_integer_range) : Z := wraps 64 (lower r).
Definition upper_i (r : bt_integer_range) : Z := wraps 64 (upper r).

Record bt_integer_range_set := BtIntegerRangeSet {
  rs_base : bt_object;
  ranges : list bt_integer_range;
  frozen : bool
}.

#[export] Instance range_set_base : ObjectBase bt_integer_range_set := {
  base := rs_base;
  set_base s b := BtIntegerRangeSet b (ranges s) (frozen s)
}.
#[export] Instance range_set_base_laws : ObjectBaseLaws bt_integer_range_set.
Proof. split; try done. by intros []. Qed.

Abbreviation range_sets := (gmap addr bt_integer_range_set).

(** The release function of a range set. *)
Definition destroy_range_set_func : func := 1%positive.

Section ops.
Context (dev debug thread_error : bool).

(** ** Ranges *)

Definition bt_integer_range_unsigned_get_lower (r : bt_integer_range) : Z := lower r.
Definition bt_integer_range_unsigned_get_upper (r : bt_integer_range) : Z := upper r.
Definition bt_integer_range_signed_get_lower (r : bt_integer_range) : Z := lower_i r.
Definition bt_integer_range_signed_get_upper (r : bt_integer_range) : Z := upper_i r.

Definition compare_ranges (a b : bt_integer_range) : bool :=
  (lower a =? lower b) && (upper a =? upper b).

Definition bt_integer_range_unsigned_is_equal (a b : bt_integer_range) : bool :=
  compare_ranges a b.
Definition bt_integer_range_signed_is_equal (a b : bt_integer_range) : bool :=
  compare_ranges a b.

(** ** Life of a range set *)

Definition destroy_range_set (obj : addr) (h : range_sets) : option range_sets :=
  do s <- h !! obj; Some (delete obj h).

(** What a function pointer of a range set does. *)
Definition call_range_set (f : func) (obj : addr) (h : range_sets) : option range_sets :=
  guard_ub bool_decide (f = destroy_range_set_func); destroy_range_set obj h.

(** [new] is the address of the new object. *)
Definition create_range_set (h : range_sets) (new : addr) : option range_sets :=
  guard_ub bool_decide (h !! new = None);
  Some (<[new := BtIntegerRangeSet
                   (bt_object_init_shared (ReleaseFunc destroy_range_set_func)) [] false]> h).

Definition bt_integer_range_set_unsigned_create (h : range_sets) (new : addr)
    : option range_sets :=
  BT_ASSERT_PRE (negb thread_error) (create_range_set h new).
Definition bt_integer_range_set_signed_create (h : range_sets) (new : addr)
    : option range_sets :=
  BT_ASSERT_PRE (negb thread_error) (create_range_set h new).

Definition bt_integer_range_set_get_ref (h : range_sets) (p : option addr)
    : option range_sets :=
  bt_object_get_ref debug h p.
Definition bt_integer_range_set_put_ref (h : range_sets) (p : option addr)
    : option range_sets :=
  do r <- bt_object_put_ref debug call_range_set h p;
  run call_range_set r.

(** ** Contents *)

Definition bt_integer_range_set_get_range_count (h : range_sets) (a : addr) : option Z :=
  do s <- h !! a; Some (Z.of_nat (length (ranges s))).

Definition borrow_range_by_index_const (h : range_sets) (a : addr) (index : Z)
    : option bt_integer_range :=
  do s <- h !! a;
  BT_ASSERT_PRE_DEV dev (index <? Z.of_nat (length (ranges s)))
    (guard_ub (0 <=? index); ranges s !! Z.to_nat index).

Definition add_range_to_range_set (h : range_sets) (a : addr) (u_lower u_upper : Z)
    : option range_sets :=
  do s <- h !! a;
  BT_ASSERT_PRE_DEV dev (negb (frozen s))
    (Some (<[a := BtIntegerRangeSet (rs_base s)
                    (ranges s ++ [BtIntegerRange u_lower u_upper]) (frozen s)]> h)).

Definition bt_integer_range_set_unsigned_add_range
    (h : range_sets) (a : addr) (lower upper : Z) : option range_sets :=
  BT_ASSERT_PRE (negb thread_error)
    (BT_ASSERT_PRE (lower <=? upper) (add_range_to_range_set h a lower upper)).

(** The signed bounds are converted to [uint64_t]. *)
Definition bt_integer_range_set_signed_add_range
    (h : range_sets) (a : addr) (lower upper : Z) : option range_sets :=
  BT_ASSERT_PRE (negb thread_error)
    (BT_ASSERT_PRE (lower <=? upper)
      (add_range_to_range_set h a (wrapu 64 lower) (wrapu 64 upper))).

Definition _bt_integer_range_set_freeze (h : range_sets) (a : addr) : option range_sets :=
  do s <- h !! a;
  Some (<[a := BtIntegerRangeSet (rs_base s) (ranges s) true]> h).

(** ** Overlaps *)

(** The loop on [j]; [rs] are the ranges from index [j] on. *)
Fixpoint overlaps_j (lo up : bt_integer_range -> Z) (i : nat) (range_i : bt_integer_range)
    (j : nat) (rs : list bt_integer_range) : bool :=
  match rs with
  | [] => false
  | range_j :: rs =>
    if bool_decide (i = j) then overlaps_j lo up i range_i (S j) rs
    else if (lo range_i <=? up range_j) && (lo range_j <=? up range_i) then true
    else overlaps_j lo up i range_i (S j) rs
  end.

(** The loop on [i]; [rs] are the ranges from index [i] on. *)
Fixpoint overlaps_i (lo up : bt_integer_range -> Z) (all : list bt_integer_range)
    (i : nat) (rs : list bt_integer_range) : bool :=
  match rs with
  | [] => false
  | range_i :: rs =>
    if overlaps_j lo up i range_i 0 all then true else overlaps_i lo up all (S i) rs
  end.

Definition bt_integer_range_set_unsigned_has_overlaps (h : range_sets) (a : addr)
    : option bool :=
  do s <- h !! a; Some (overlaps_i lower upper (ranges s) 0 (ranges s)).
Definition bt_integer_range_set_signed_has_overlaps (h : range_sets) (a : addr)
    : option bool :=
  do s <- h !! a; Some (overlaps_i lower_i upper_i (ranges s) 0 (ranges s)).

(** ** Equality *)

(** The loop on [b_i]. *)
Fixpoint b_has_range (range_a : bt_integer_range) (rs_b : list bt_integer_range) : bool :=
  match rs_b with
  | [] => false
  | range_b :: rs_b =>
    if compare_ranges range_a range_b then true else b_has_range range_a rs_b
  end.

(** The loop on [a_i]. *)
Fixpoint a_ranges_in_b (rs_a rs_b : list bt_integer_range) : bool :=
  match rs_a with
  | [] => true
  | range_a :: rs_a =>
    if negb (b_has_range range_a rs_b) then false else a_ranges_in_b rs_a rs_b
  end.

Definition compare_range_sets (h : range_sets) (a b : addr) : option bool :=
  do sa <- h !! a;
  do sb <- h !! b;
  if bool_decide (a = b) then Some true
  else if negb (length (ranges sa) =? length (ranges sb))%nat then Some false
  else Some (a_ranges_in_b (ranges sa) (ranges sb)).

Definition bt_integer_range_set_unsigned_is_equal (h : range_sets) (a b : addr)
    : option bool := compare_range_sets h a b.
Definition bt_integer_range_set_signed_is_equal (h : range_sets) (a b : addr)
    : option bool := compare_range_sets h a b.

End ops.

(** * Specifications *)

(** [v] is in a range of the set, for one of the two views of its bounds. *)
Definition contains (lo up : bt_integer_range -> Z) (rs : list bt_integer_range) (v : Z) : Prop :=
  Exists (fun r => lo r <= v <= up r) rs.

(** Two different ranges of the set (by index) have a value in common. *)
Definition overlapping (lo up : bt_integer_range -> Z) (rs : list bt_integer_range) : Prop :=
  exists i j ri rj v, (i < j)%nat /\ rs !! i = Some ri /\ rs !! j = Some rj /\
    lo ri <= v <= up ri /\ lo rj <= v <= up rj.

(** What the preconditions of the "add range" functions ensure. *)
Definition ordered (lo up : bt_integer_range -> Z) (rs : list bt_integer_range) : Prop :=
  Forall (fun r => lo r <= up r) rs.

#[export] Instance bt_integer_range_eq_dec : EqDecision bt_integer_range.
Proof. solve_decision. Defined.

(** What the functions keep true of each range set of the store. *)
Definition range_set_wf (s : bt_integer_range_set) : Prop :=
  is_shared (rs_base s) = true /\ 1 <= ref_count (rs_base s) < 2 ^ 64 - 1 /\
  parent (rs_base s) = None /\
  release_func (rs_base s) = Some (ReleaseFunc destroy_range_set_func).

(** * Lemmas *)

Lemma compare_ranges_spec a b : compare_ranges a b = true <-> a = b.
Proof.
  unfold compare_ranges. destruct a as [la ua], b as [lb ub]; simpl. rewrite andb_true_iff.
  split; [intros [? ?]; f_equal; lia|intros [= -> ->]; lia].
Qed.

Lemma b_has_range_spec r rs : b_has_range r rs = true <-> r ∈ rs.
Proof.
  induction rs as [|x rs IH]; simpl.
  - rewrite elem_of_nil. done.
  - rewrite elem_of_cons, <- IH, <- compare_ranges_spec. destruct (compare_ranges r x); intuition congruence.
Qed.

Lemma a_ranges_in_b_spec rs_a rs_b : a_ranges_in_b rs_a rs_b = true <-> rs_a ⊆ rs_b.
Proof.
  induction rs_a as [|r rs IH]; simpl.
  - split; [|done]. intros _ x Hx. by apply elem_of_nil in Hx.
  - pose proof (b_has_range_spec r rs_b) as Hb. destruct (b_has_range r rs_b); simpl.
    + rewrite IH. split.
      * intros Hs x [-> |Hx]%elem_of_cons; [by apply Hb|by apply Hs].
      * intros Hs x Hx. apply Hs. by right.
    + split; [done|]. intros Hs. apply Hb. apply Hs. by left.
Qed.

(** Included lists of the same length, the first without duplicates. *)
Lemma included_same_length {A} (l k : list A) :
  NoDup l -> l ⊆ k -> length l = length k -> l ≡ₚ k.
Proof.
  intros Hl Hs Hlen. apply submseteq_length_Permutation; [|lia].
  apply NoDup_submseteq; [done|]. intros x. apply Hs.
Qed.

Lemma ranges_equal_iff rs_a rs_b :
  NoDup rs_a ->
  (length rs_a =? length rs_b)%nat && a_ranges_in_b rs_a rs_b = true <-> rs_a ≡ₚ rs_b.
Proof.
  intros Hn. rewrite andb_true_iff, Nat.eqb_eq, a_ranges_in_b_spec. split.
  - intros [? ?]. by apply included_same_length.
  - intros Hp. split; [by apply Permutation_length|]. intros x. by rewrite Hp.
Qed.

Lemma overlaps_j_spec lo up i ri rs : forall j,
  overlaps_j lo up i ri j rs = true <->
  exists k rk, rs !! k = Some rk /\ (j + k)%nat <> i /\ lo ri <= up rk /\ lo rk <= up ri.
Proof.
  induction rs as [|r rs IH]; intros j; simpl.
  { split; [done|]. intros (k & rk & ? & _). done. }
  assert (Hshift : (exists k rk, rs !! k = Some rk /\ (S j + k)%nat <> i /\ lo ri <= up rk /\ lo rk <= up ri)
    <-> (exists k rk, (0 < k)%nat /\ (r :: rs) !! k = Some rk /\ (j + k)%nat <> i /\ lo ri <= up rk /\ lo rk <= up ri)).
  { split.
    - intros (k & rk & ? & ? & ?). exists (S k), rk. repeat split; [lia|done|lia|tauto|tauto].
    - intros (k & rk & ? & Hk & ? & ?). destruct k as [|k]; [lia|]. exists k, rk.
      repeat split; [done|lia|tauto|tauto]. }
  case_bool_decide as Hij; [|destruct (_ && _) eqn:Hc].
  - rewrite IH, Hshift. split; intros (k & rk & Hk); exists k, rk; [tauto|].
    split; [|tauto]. destruct k; [lia|lia].
  - split; [intros _|done]. exists O, r. b2p. repeat split; [lia|lia|lia].
  - rewrite IH, Hshift. split; intros (k & rk & Hk); exists k, rk; [tauto|].
    split; [|tauto]. destruct k as [|k]; [|lia]. destruct Hk as (Hr & _ & ? & ?).
    injection Hr as <-. lia.
Qed.

Lemma overlaps_i_spec lo up all rs : forall i,
  overlaps_i lo up all i rs = true <->
  exists k rk, rs !! k = Some rk /\ overlaps_j lo up (i + k) rk 0 all = true.
Proof.
  induction rs as [|r rs IH]; intros i; simpl.
  { split; [done|]. intros (k & rk & ? & _). done. }
  destruct (overlaps_j lo up i r 0 all) eqn:E.
  - split; [intros _|done]. exists O, r. by rewrite Nat.add_0_r.
  - rewrite IH. split; intros (k & rk & Hk & Ho).
    + exists (S k), rk. by rewrite <- Nat.add_succ_comm.
    + destruct k as [|k]; [simpl in Hk; rewrite Nat.add_0_r in Ho; congruence|].
      exists k, rk. by rewrite Nat.add_succ_comm.
Qed.

Lemma overlaps_i_correct lo up rs :
  ordered lo up rs -> overlaps_i lo up rs 0 rs = true <-> overlapping lo up rs.
Proof.
  intros Hwf. rewrite overlaps_i_spec. split.
  - intros (i & ri & Hi & Hj). apply overlaps_j_spec in Hj as (j & rj & Hj & Hne & H1 & H2).
    simpl in Hne. pose proof (Forall_lookup_1 _ _ _ _ Hwf Hi). pose proof (Forall_lookup_1 _ _ _ _ Hwf Hj).
    simpl in *. destruct (decide (i < j)%nat);
      [exists i, j, ri, rj|exists j, i, rj, ri];
      exists (Z.max (lo ri) (lo rj)); (split; [lia|]; do 2 (split; [done|]); lia).
  - intros (i & j & ri & rj & v & Hlt & Hi & Hj & ? & ?). exists i, ri. split; [done|].
    apply overlaps_j_spec. exists j, rj. repeat split; [done|simpl; lia|lia|lia].
Qed.

Lemma contains_snoc lo up rs r v :
  contains lo up (rs ++ [r]) v <-> contains lo up rs v \/ lo r <= v <= up r.
Proof.
  unfold contains. rewrite Exists_app, Exists_cons, Exists_nil. tauto.
Qed.

Lemma ordered_snoc lo up rs r : ordered lo up rs -> lo r <= up r -> ordered lo up (rs ++ [r]).
Proof. intros. apply Forall_app. split; [done|]. by apply Forall_singleton. Qed.

Lemma wraps_wrapu z : is_i64 z -> wraps 64 (wrapu 64 z) = z.
Proof.
  intros Hz. unfold is_i64, INT64_MIN, INT64_MAX in Hz. unfold wraps, wrapu.
  rewrite Zplus_mod_idemp_l. apply (wraps_small 64); lia.
Qed.

Lemma add_range_ok dev h a s lo up :
  h !! a = Some s -> dev && frozen s = false ->
  add_range_to_range_set dev h a lo up =
    Some (<[a := BtIntegerRangeSet (rs_base s) (ranges s ++ [BtIntegerRange lo up]) (frozen s)]> h).
Proof.
  intros Ha Hf. unfold add_range_to_range_set, BT_ASSERT_PRE_DEV. rewrite Ha.
  by rewrite negb_involutive, Hf.
Qed.

(** * Claims *)

(** The overlap checks are exact: for a set whose ranges are ordered, as the
    "add range" functions ensure, each answers whether two of its ranges, at
    different indexes, have a value in common, the bounds being seen as unsigned
    or as signed integers. *)
Theorem range_set_overlaps_exact h a s :
  h !! a = Some s ->
  (ordered lower upper (ranges s) ->
   exists b, bt_integer_range_set_unsigned_has_overlaps h a = Some b /\
     (b = true <-> overlapping lower upper (ranges s))) /\
  (ordered lower_i upper_i (ranges s) ->
   exists b, bt_integer_range_set_signed_has_overlaps h a = Some b /\
     (b = true <-> overlapping lower_i upper_i (ranges s))).
Proof.
  intros Ha. unfold bt_integer_range_set_unsigned_has_overlaps,
    bt_integer_range_set_signed_has_overlaps. rewrite Ha.
  split; intros Ho; eexists; (split; [done|]); by apply overlaps_i_correct.
Qed.

(** When no range occurs twice in set A, the equality of A and B decides
    whether B has the same ranges, in any order; so it is then symmetric and
    equal sets contain the same values. *)
Theorem range_set_equal_exact h a b sa sb :
  h !! a = Some sa -> h !! b = Some sb -> NoDup (ranges sa) ->
  exists r, bt_integer_range_set_unsigned_is_equal h a b = Some r /\
    bt_integer_range_set_signed_is_equal h a b = Some r /\
    (r = true <-> ranges sa ≡ₚ ranges sb) /\
    (r = true -> bt_integer_range_set_unsigned_is_equal h b a = Some true /\
      forall lo up v, contains lo up (ranges sa) v <-> contains lo up (ranges sb) v).
Proof.
  intros Ha Hb Hn. unfold bt_integer_range_set_unsigned_is_equal,
    bt_integer_range_set_signed_is_equal, compare_range_sets. rewrite Ha, Hb.
  case_bool_decide as Hab.
  { subst b. assert (sb = sa) as -> by congruence. exists true.
    rewrite bool_decide_eq_true_2 by done. naive_solver. }
  rewrite (bool_decide_eq_false_2 (b = a)) by congruence.
  exists ((length (ranges sa) =? length (ranges sb))%nat && a_ranges_in_b (ranges sa) (ranges sb)).
  pose proof (ranges_equal_iff (ranges sa) (ranges sb) Hn) as Heq.
  split; [by destruct (_ =? _)%nat|]. split; [by destruct (_ =? _)%nat|]. split; [exact Heq|].
  intros Hr. apply Heq in Hr. split.
  - assert (Hn' : NoDup (ranges sb)) by (by rewrite <- Hr).
    pose proof (proj2 (ranges_equal_iff _ _ Hn') (Permutation_sym Hr)) as Hba.
    apply andb_true_iff in Hba as [-> ->]. done.
  - intros lo up v. unfold contains. by rewrite Hr.
Qed.

(** The store after the calls that make set 1 hold [1, 2] twice and set 2 hold
    [1, 2] and [5, 6]. *)
Definition duplicates : option range_sets :=
  do h <- bt_integer_range_set_unsigned_create false ∅ 1%positive;
  do h <- bt_integer_range_set_unsigned_create false h 2%positive;
  do h <- bt_integer_range_set_unsigned_add_range true false h 1%positive 1 2;
  do h <- bt_integer_range_set_unsigned_add_range true false h 1%positive 1 2;
  do h <- bt_integer_range_set_unsigned_add_range true false h 2%positive 1 2;
  bt_integer_range_set_unsigned_add_range true false h 2%positive 5 6.

(** Equality of range sets is not exact when a range was added twice: through
    the public functions, one makes a set that holds [1, 2] twice and one that
    holds [1, 2] and [5, 6]; the first is equal to the second, the second is not
    equal to the first, and only the second contains 5. *)
Theorem range_set_equal_not_symmetric :
  exists h s1 s2, duplicates = Some h /\ h !! 1%positive = Some s1 /\ h !! 2%positive = Some s2 /\
    bt_integer_range_set_unsigned_is_equal h 1%positive 2%positive = Some true /\
    bt_integer_range_set_unsigned_is_equal h 2%positive 1%positive = Some false /\
    contains lower upper (ranges s2) 5 /\ ~ contains lower upper (ranges s1) 5.
Proof.
  do 3 eexists. do 3 (split; [by vm_compute|]). do 2 (split; [by vm_compute|]). split.
  - right. left. simpl. lia.
  - intros Hc. apply Exists_cons in Hc as [Hc|Hc]; [simpl in Hc; lia|].
    apply Exists_cons in Hc as [Hc|Hc]; [simpl in Hc; lia|]. by apply Exists_nil in Hc.
Qed.

(** Adding a range succeeds exactly when the thread has no error, the bounds
    are in order and, in developer mode, the set is not frozen; the set then
    contains the values of the new range too, seen with the signedness of the
    call, its ranges stay in order, and the other sets are unchanged. *)
Theorem range_set_add_range_exact dev err (h : range_sets) a s lo up :
  h !! a = Some s ->
  (is_u64 lo -> is_u64 up ->
   match bt_integer_range_set_unsigned_add_range dev err h a lo up with
   | None => err = true \/ up < lo \/ (dev = true /\ frozen s = true)
   | Some h' => err = false /\ lo <= up /\ (dev = true -> frozen s = false) /\
     exists s', h' = <[a := s']> h /\ rs_base s' = rs_base s /\ frozen s' = frozen s /\
       (ordered lower upper (ranges s) -> ordered lower upper (ranges s')) /\
       forall v, contains lower upper (ranges s') v <->
         contains lower upper (ranges s) v \/ lo <= v <= up
   end) /\
  (is_i64 lo -> is_i64 up ->
   match bt_integer_range_set_signed_add_range dev err h a lo up with
   | None => err = true \/ up < lo \/ (dev = true /\ frozen s = true)
   | Some h' => err = false /\ lo <= up /\ (dev = true -> frozen s = false) /\
     exists s', h' = <[a := s']> h /\ rs_base s' = rs_base s /\ frozen s' = frozen s /\
       (ordered lower_i upper_i (ranges s) -> ordered lower_i upper_i (ranges s')) /\
       forall v, contains lower_i upper_i (ranges s') v <->
         contains lower_i upper_i (ranges s) v \/ lo <= v <= up
   end).
Proof.
  intros Ha. unfold bt_integer_range_set_unsigned_add_range,
    bt_integer_range_set_signed_add_range, BT_ASSERT_PRE.
  split; intros Hlo Hup; (destruct err; simpl; [by left|]);
    (destruct (Z.leb_spec lo up); [|by auto]);
    (destruct (dev && frozen s) eqn:Hf;
     [unfold add_range_to_range_set, BT_ASSERT_PRE_DEV;
      rewrite Ha, negb_involutive, Hf; apply andb_true_iff in Hf; by auto|]);
    rewrite (add_range_ok _ _ _ _ _ _ Ha Hf);
    (do 2 (split; [done|])); (split; [intros ->; exact Hf|]);
    eexists; (split; [reflexivity|]); (do 2 (split; [done|])); simpl; split.
  - intros Ho. by apply ordered_snoc.
  - intros v. apply contains_snoc.
  - intros Ho. apply ordered_snoc; [done|]. unfold lower_i, upper_i. simpl.
    by rewrite !wraps_wrapu.
  - intros v. rewrite contains_snoc. unfold lower_i at 2, upper_i at 2. simpl.
    by rewrite !wraps_wrapu.
Qed.

(** Life of a range set: creating one makes it empty, with one reference;
    taking and putting a reference counts it and keeps every set well formed;
    putting the last reference, and only this, removes the set from the store. *)
Theorem range_set_life debug (h : range_sets) a new :
  map_Forall (fun _ s => range_set_wf s) h ->
  (h !! new = None ->
   exists s, create_range_set h new = Some (<[new := s]> h) /\ range_set_wf s /\
     ref_count (rs_base s) = 1 /\ ranges s = [] /\ frozen s = false) /\
  (forall s, h !! a = Some s ->
   (ref_count (rs_base s) + 1 < 2 ^ 64 - 1 ->
    exists s', bt_integer_range_set_get_ref debug h (Some a) = Some (<[a := s']> h) /\
      range_set_wf s' /\ ref_count (rs_base s') = ref_count (rs_base s) + 1 /\
      ranges s' = ranges s /\ frozen s' = frozen s) /\
   exists h', bt_integer_range_set_put_ref debug h (Some a) = Some h' /\
     if ref_count (rs_base s) =? 1 then h' = delete a h
     else exists s', h' = <[a := s']> h /\ range_set_wf s' /\
       ref_count (rs_base s') = ref_count (rs_base s) - 1 /\
       ranges s' = ranges s /\ frozen s' = frozen s).
Proof.
  intros W. split.
  - intros Hn. unfold create_range_set. rewrite bool_decide_eq_true_2 by done.
    eexists. split; [done|]. split; [|done]. unfold range_set_wf. simpl. repeat split; lia || done.
  - intros s Ha. destruct (W a s Ha) as (Hs & Hr & Hp & Hf). split.
    + intros Hroom. eexists. split; [apply get_ref_plain; simpl; eauto; lia|].
      unfold range_set_wf. simpl. repeat split; lia || done.
    + unfold bt_integer_range_set_put_ref.
      rewrite (put_ref_plain debug call_range_set h a s destroy_range_set_func) by (done || (simpl; lia)).
      change (base s) with (rs_base s). destruct (Z.eqb_spec (ref_count (rs_base s)) 1); simpl.
      * unfold call_range_set, destroy_range_set. rewrite bool_decide_eq_true_2 by done.
        rewrite lookup_insert_eq, delete_insert_eq. by eexists.
      * eexists. split; [done|]. eexists. split; [done|].
        unfold range_set_wf. simpl. repeat split; lia || done.
Qed.

(** * Witnesses *)

Definition ex_set (rs : list bt_integer_range) : bt_integer_range_set :=
  BtIntegerRangeSet (bt_object_init_shared (ReleaseFunc destroy_range_set_func)) rs false.
Definition ex_ranges : list bt_integer_range :=
  [BtIntegerRange 1 4; BtIntegerRange 10 12; BtIntegerRange 3 6].
Definition ex_sets : range_sets :=
  <[1%positive := ex_set ex_ranges]> (<[2%positive := ex_set (rev ex_ranges)]> ∅).

Lemma range_set_overlaps_exact_witness :
  ex_sets !! 1%positive = Some (ex_set ex_ranges) /\ ordered lower upper ex_ranges /\
  bt_integer_range_set_unsigned_has_overlaps ex_sets 1%positive = Some true /\
  overlapping lower upper ex_ranges.
Proof.
  assert (Ho : ordered lower upper ex_ranges) by (repeat constructor; simpl; lia).
  split; [reflexivity|]. split; [exact Ho|]. split; [by vm_compute|].
  destruct (range_set_overlaps_exact ex_sets 1%positive (ex_set ex_ranges) eq_refl) as [Hu _].
  destruct (Hu Ho) as (b & Hb & Hiff). apply Hiff. vm_compute in Hb. by injection Hb.
Defined.

Lemma range_set_equal_exact_witness :
  NoDup ex_ranges /\
  bt_integer_range_set_unsigned_is_equal ex_sets 1%positive 2%positive = Some true /\
  ex_ranges ≡ₚ rev ex_ranges.
Proof.
  assert (Hn : NoDup ex_ranges) by (by vm_compute; apply (bool_decide_unpack (NoDup _)); vm_compute).
  split; [exact Hn|]. split; [by vm_compute|].
  destruct (range_set_equal_exact ex_sets 1%positive 2%positive (ex_set ex_ranges)
    (ex_set (rev ex_ranges)) eq_refl eq_refl Hn) as (r & Hr & _ & Hiff & _).
  apply Hiff. vm_compute in Hr. by injection Hr.
Defined.

Lemma range_set_add_range_exact_witness :
  is_i64 (-5) /\ is_i64 7 /\
  exists h', bt_integer_range_set_signed_add_range true false ex_sets 1%positive (-5) 7 = Some h' /\
    exists s', h' = <[1%positive := s']> ex_sets /\ contains lower_i upper_i (ranges s') (-3).
Proof.
  assert (H1 : is_i64 (-5)) by (unfold is_i64, INT64_MIN, INT64_MAX; lia).
  assert (H2 : is_i64 7) by (unfold is_i64, INT64_MIN, INT64_MAX; lia).
  split; [exact H1|]. split; [exact H2|].
  pose proof (proj2 (range_set_add_range_exact true false ex_sets 1%positive (ex_set ex_ranges)
    (-5) 7 eq_refl) H1 H2) as Hadd.
  destruct (bt_integer_range_set_signed_add_range true false ex_sets 1%positive (-5) 7) as [h'|].
  - exists h'. split; [done|]. destruct Hadd as (_ & _ & _ & s' & -> & _ & _ & _ & Hc).
    exists s'. split; [done|]. apply Hc. right. lia.
  - exfalso. simpl in Hadd. destruct Hadd as [?|[?|[_ ?]]]; [done|lia|done].
Defined.

Lemma ex_sets_wf : map_Forall (fun _ s => range_set_wf s) ex_sets.
Proof.
  unfold ex_sets. intros a s Ha. apply lookup_insert_Some in Ha as [[_ <-]|[_ Ha]].
  - unfold range_set_wf. simpl. repeat split; lia || done.
  - apply lookup_insert_Some in Ha as [[_ <-]|[_ Ha]]; [|done].
    unfold range_set_wf. simpl. repeat split; lia || done.
Qed.

Lemma range_set_life_witness :
  map_Forall (fun _ s => range_set_wf s) ex_sets /\
  bt_integer_range_set_put_ref true ex_sets (Some 2%positive) = Some (delete 2%positive ex_sets).
Proof.
  split; [apply ex_sets_wf|].
  destruct (proj2 (range_set_life true ex_sets 2%positive 3%positive ex_sets_wf)
    (ex_set (rev ex_ranges)) eq_refl) as (_ & h' & Hp & ->). exact Hp.
Defined.
