(* ===== verification/Mip.v ===== *)
(** The message interchange protocol (MIP) version that components share:
    [src/src/lib/graph/mip.c].

    A component class may have a method that adds the versions it supports to a new
    range set.  Range sets are in a store, by address ([IntRange]); [malloc] gives
    the address of a new one.  The component descriptors are seen through their "get
    supported MIP versions" methods, and no error is pending in the current thread.
    A status is a number, 0 for success and negative for an error. *)

From S2P Require Import Prelude Object IntRange.

Definition MAX_MIP_VERSION : nat := 1.
Definition BT_FUNC_STATUS_OK : Z := 0.
Definition BT_FUNC_STATUS_NO_MATCH : Z := 6.

(** The loop stops at the first range that has the value. *)
Definition unsigned_integer_range_set_contains (rs : list bt_integer_range) (value : Z) : bool :=
  existsb (fun range => (lower range <=? value) && (value <=? upper range)) rs.

(** What a component class's method does with a range set, and its status. *)
Definition get_supported_method : Type := range_sets -> addr -> option (Z * range_sets).

Record bt_component_descriptor_set := ComponentDescriptorSet {
  sources : list (option get_supported_method);
  filters : list (option get_supported_method);
  sinks : list (option get_supported_method)
}.

Section ops.
Context (dev debug : bool) (malloc : range_sets -> addr).

(** The status, the range sets with the new ones, and the store. *)
Fixpoint get_supported_mip_version_ranges (descriptors : list (option get_supported_method))
    (supported_ranges : list addr) (h : range_sets) : option (Z * list addr * range_sets) :=
  match descriptors with
  | [] => Some (BT_FUNC_STATUS_OK, supported_ranges, h)
  | descr :: descriptors =>
    let range_set := malloc h in
    do h <- bt_integer_range_set_unsigned_create false h range_set;
    do r <-
      match descr with
      | Some method =>
        do r <- method h range_set;
        let '(method_status, h) := r in
        do count <- bt_integer_range_set_get_range_count h range_set;
        guard_ub negb (method_status =? BT_FUNC_STATUS_OK) || (0 <? count);
        Some (if method_status <? 0 then method_status else BT_FUNC_STATUS_OK, h)
      | None =>
        do h <- bt_integer_range_set_unsigned_add_range dev false h range_set 0 0;
        Some (BT_FUNC_STATUS_OK, h)
      end;
    let '(status, h) := r in
    if status =? BT_FUNC_STATUS_OK then
      get_supported_mip_version_ranges descriptors (supported_ranges ++ [range_set]) h
    else
      do h <- bt_integer_range_set_put_ref debug h (Some range_set);
      Some (status, supported_ranges, h)
  end.

(** Clears the versions that the ranges do not have. *)
Definition clear_unsupported (rs : list bt_integer_range) (versions : list bool) : list bool :=
  imap (fun v supported => if negb (unsigned_integer_range_set_contains rs (Z.of_nat v)) then false else supported)
    versions.

Fixpoint clear_all (supported_ranges : list addr) (h : range_sets) (versions : list bool) : option (list bool) :=
  match supported_ranges with
  | [] => Some versions
  | range_set :: supported_ranges =>
    do s <- h !! range_set;
    clear_all supported_ranges h (clear_unsupported (ranges s) versions)
  end.

(** From the version [v - 1] down. *)
Fixpoint greatest_set (v : nat) (versions : list bool) : option Z :=
  match v with
  | O => None
  | S v => if default false (versions !! v) then Some (Z.of_nat v) else greatest_set v versions
  end.

(** The version, or [None] for "no match". *)
Definition find_greatest_compatible_mip_version (supported_ranges : list addr)
    (mip_version_restriction : option addr) (h : range_sets) : option (option Z) :=
  let versions := replicate (S MAX_MIP_VERSION) true in
  do versions <-
    match mip_version_restriction with
    | Some restriction => do s <- h !! restriction; Some (clear_unsupported (ranges s) versions)
    | None => Some versions
    end;
  do versions <- clear_all supported_ranges h versions;
  Some (greatest_set (S MAX_MIP_VERSION) versions).

(** [g_ptr_array_free], which puts each range set. *)
Fixpoint free_ranges (supported_ranges : list addr) (h : range_sets) : option range_sets :=
  match supported_ranges with
  | [] => Some h
  | range_set :: supported_ranges =>
    do h <- bt_integer_range_set_put_ref debug h (Some range_set);
    free_ranges supported_ranges h
  end.

(** The status, the version that is written on success, and the store. *)
Definition bt_get_greatest_operative_mip_version_with_restriction
    (comp_descr_set : bt_component_descriptor_set) (mip_version_restriction : option addr)
    (h : range_sets) : option (Z * option Z * range_sets) :=
  let comp_count := wrapu 32 (Z.of_nat (length (sources comp_descr_set) + length (filters comp_descr_set) +
                                        length (sinks comp_descr_set))) in
  BT_ASSERT_PRE (0 <? comp_count)
    (let finish status version supported_ranges h :=
       do h <- free_ranges supported_ranges h; Some (status, version, h) in
     do r <- get_supported_mip_version_ranges (sources comp_descr_set) [] h;
     let '(status, supported_ranges, h) := r in
     if negb (status =? BT_FUNC_STATUS_OK) then finish status None supported_ranges h else
     do r <- get_supported_mip_version_ranges (filters comp_descr_set) supported_ranges h;
     let '(status, supported_ranges, h) := r in
     if negb (status =? BT_FUNC_STATUS_OK) then finish status None supported_ranges h else
     do r <- get_supported_mip_version_ranges (sinks comp_descr_set) supported_ranges h;
     let '(status, supported_ranges, h) := r in
     if negb (status =? BT_FUNC_STATUS_OK) then finish status None supported_ranges h else
     do version <- find_greatest_compatible_mip_version supported_ranges mip_version_restriction h;
     finish (match version with Some _ => BT_FUNC_STATUS_OK | None => BT_FUNC_STATUS_NO_MATCH end) version supported_ranges h).

Definition bt_get_greatest_operative_mip_version (comp_descr_set : bt_component_descriptor_set)
    (h : range_sets) : option (Z * option Z * range_sets) :=
  bt_get_greatest_operative_mip_version_with_restriction comp_descr_set None h.

Definition bt_get_maximal_mip_version : Z := Z.of_nat MAX_MIP_VERSION.
End ops.

(** * The greatest version that all support *)

(** A method does not fail and adds these ranges, at least one, to the new set. *)
Definition declares (descr : option get_supported_method) (rs : list bt_integer_range) : Prop :=
  match descr with
  | Some method => rs <> [] /\ forall h a s, h !! a = Some s -> ranges s = [] -> frozen s = false ->
      method h a = Some (BT_FUNC_STATUS_OK, <[a := BtIntegerRangeSet (rs_base s) rs false]> h)
  | None => rs = [BtIntegerRange 0 0]
  end.

(** The version [v] is in every set of ranges. *)
Definition common (rss : list (list bt_integer_range)) (v : Z) : Prop :=
  Forall (fun rs => contains lower upper rs v) rss.

Definition new_set (rs : list bt_integer_range) : bt_integer_range_set :=
  BtIntegerRangeSet (bt_object_init_shared (ReleaseFunc destroy_range_set_func)) rs false.

(** The store [h1] is [h] with the new sets at [ads]. *)
Record with_sets (h : range_sets) (ads : list addr) (rss : list (list bt_integer_range)) (h1 : range_sets) : Prop := {
  ws_length : length ads = length rss;
  ws_new i a rs : ads !! i = Some a -> rss !! i = Some rs -> h !! a = None /\ h1 !! a = Some (new_set rs);
  ws_nodup : NoDup ads;
  ws_old x : x ∉ ads -> h1 !! x = h !! x
}.

Section greatest.
Context (dev debug : bool) (malloc : range_sets -> addr).

Lemma contains_spec rs v : unsigned_integer_range_set_contains rs v = true <-> contains lower upper rs v.
Proof.
  unfold unsigned_integer_range_set_contains, contains. rewrite existsb_exists, Exists_exists.
  split; intros (r & Hin & Hr); exists r; rewrite ?list_elem_of_In in *; (split; [done|]); lia.
Qed.

Lemma with_sets_nil h : with_sets h [] [] h.
Proof. split; [done|by intros [] |constructor|done]. Qed.

Lemma with_sets_new h ads rss h1 a : with_sets h ads rss h1 -> a ∈ ads -> is_Some (h1 !! a).
Proof.
  intros [Hlen Hnew _ _] [i Hi]%list_elem_of_lookup. destruct (lookup_lt_is_Some_2 rss i) as [rs Hrs].
  { rewrite <- Hlen. by eapply lookup_lt_Some. }
  destruct (Hnew i a rs Hi Hrs) as [_ ->]. by eexists.
Qed.

Lemma with_sets_fresh h ads rss h1 a : with_sets h ads rss h1 -> a ∈ ads -> h !! a = None.
Proof.
  intros [Hlen Hnew _ _] [i Hi]%list_elem_of_lookup. destruct (lookup_lt_is_Some_2 rss i) as [rs Hrs].
  { rewrite <- Hlen. by eapply lookup_lt_Some. }
  by destruct (Hnew i a rs Hi Hrs).
Qed.

Lemma with_sets_snoc h ads rss h1 a rs : with_sets h ads rss h1 -> h1 !! a = None ->
  with_sets h (ads ++ [a]) (rss ++ [rs]) (<[a := new_set rs]> h1).
Proof.
  intros Hw Ha. assert (Hna : a ∉ ads).
  { intros Hin. destruct (with_sets_new _ _ _ _ _ Hw Hin). congruence. }
  destruct Hw as [Hlen Hnew Hnd Hold]. split.
  - rewrite !length_app. simpl. lia.
  - intros i b rs' Hi Hrs. apply lookup_app_Some in Hi as [Hi|[Hge Hi]].
    + rewrite lookup_app_l in Hrs by (rewrite <- Hlen; by eapply lookup_lt_Some).
      rewrite lookup_insert_ne; [by eapply Hnew|]. intros ->. apply Hna. by eapply list_elem_of_lookup_2.
    + apply list_lookup_singleton_Some in Hi as [Hi <-]. rewrite lookup_app_r, <- Hlen, Hi in Hrs by lia.
      injection Hrs as <-. rewrite lookup_insert_eq. split; [|done]. by rewrite <- Hold.
  - apply NoDup_app. split; [done|]. split; [|apply NoDup_singleton]. intros x Hx ->%list_elem_of_singleton. done.
  - intros x [Hx Hxa]%not_elem_of_app. rewrite lookup_insert_ne; [by apply Hold|]. intros <-. apply Hxa. by left.
Qed.

(** What the loop leaves when all the methods declare their ranges. *)
Lemma get_supported_ok descrs drs : (forall h, h !! malloc h = None) -> Forall2 declares descrs drs -> forall h ads rss h1, with_sets h ads rss h1 ->
  exists ads' h2, get_supported_mip_version_ranges dev debug malloc descrs ads h1 = Some (BT_FUNC_STATUS_OK, ads', h2) /\
    with_sets h ads' (rss ++ drs) h2.
Proof.
  intros malloc_fresh. induction 1 as [|descr rs descrs drs Hd _ IH]; intros h ads rss h1 Hw; cbn [get_supported_mip_version_ranges].
  { exists ads, h1. by rewrite app_nil_r. }
  set (a := malloc h1). assert (Ha : h1 !! a = None) by apply malloc_fresh.
  unfold bt_integer_range_set_unsigned_create, create_range_set, BT_ASSERT_PRE. rewrite bool_decide_eq_true_2 by done. simpl negb.
  cbv iota. fold (new_set []). set (h2 := <[a := new_set []]> h1).
  assert (Hd' : h2 !! a = Some (new_set [])) by apply lookup_insert_eq.
  assert (Hnext : <[a := new_set rs]> h2 = <[a := new_set rs]> h1) by apply insert_insert_eq.
  destruct (IH h (ads ++ [a]) (rss ++ [rs]) (<[a := new_set rs]> h1)) as (ads' & h3 & Hr & Hw').
  { by apply with_sets_snoc. }
  exists ads', h3. rewrite <- app_assoc in Hw'. split; [|exact Hw']. destruct descr as [method|]; simpl in Hd.
  - destruct Hd as [Hne Hm]. rewrite (Hm h2 a (new_set []) Hd' eq_refl eq_refl). unfold bt_integer_range_set_get_range_count.
    change (BtIntegerRangeSet (rs_base (new_set [])) rs false) with (new_set rs). rewrite Hnext, lookup_insert_eq. simpl ranges.
    assert (Hpos : (0 <? Z.of_nat (length rs)) = true) by (destruct rs; [done|simpl; lia]). rewrite Hpos. exact Hr.
  - subst rs. unfold bt_integer_range_set_unsigned_add_range, add_range_to_range_set, BT_ASSERT_PRE, BT_ASSERT_PRE_DEV.
    simpl. rewrite Hd'. simpl. rewrite andb_false_r. unfold new_set in Hnext. simpl in Hnext. rewrite Hnext. exact Hr.
Qed.

(** Putting the only reference of a range set frees it. *)
Lemma put_new_set h a rs : h !! a = Some (new_set rs) ->
  bt_integer_range_set_put_ref debug h (Some a) = Some (delete a h).
Proof.
  intros Ha. unfold bt_integer_range_set_put_ref.
  rewrite (put_ref_plain debug call_range_set h a (new_set rs) destroy_range_set_func Ha) by (simpl; done || lia).
  simpl. unfold call_range_set. rewrite bool_decide_eq_true_2 by done. unfold destroy_range_set.
  rewrite lookup_insert_eq. by rewrite delete_insert_eq.
Qed.

Lemma free_ranges_ok h ads : forall rss h1, with_sets h ads rss h1 -> free_ranges debug ads h1 = Some h.
Proof.
  induction ads as [|a ads IH]; intros rss h1 Hw; cbn [free_ranges].
  { f_equal. apply map_eq. intros x. apply (ws_old _ _ _ _ Hw). set_solver. }
  destruct Hw as [Hlen Hnew Hnd Hold]. destruct rss as [|rs rss]; [done|].
  destruct (Hnew O a rs eq_refl eq_refl) as [Ha0 Ha]. rewrite (put_new_set h1 a rs Ha).
  apply NoDup_cons in Hnd as [Hna Hnd]. apply (IH rss). split; [by injection Hlen| |done|].
  - intros i b rs' Hi Hrs. rewrite lookup_delete_ne; [by apply (Hnew (S i))|]. intros ->. apply Hna. by eapply list_elem_of_lookup_2.
  - intros x Hx. destruct (decide (x = a)) as [-> |Hne]; [by rewrite lookup_delete_eq|].
    rewrite lookup_delete_ne by done. apply Hold. rewrite not_elem_of_cons. done.
Qed.

(** The versions after the ranges [rss] were seen. *)
Definition left_versions (rss : list (list bt_integer_range)) (versions : list bool) : Prop :=
  length versions = S MAX_MIP_VERSION /\
  forall v, (v <= MAX_MIP_VERSION)%nat -> versions !! v = Some true <-> common rss (Z.of_nat v).

Lemma clear_left rss rs versions : left_versions rss versions -> left_versions (rss ++ [rs]) (clear_unsupported rs versions).
Proof.
  intros [Hlen Hv]. split; [unfold clear_unsupported; by rewrite length_imap|]. intros v Hle. specialize (Hv v Hle).
  unfold clear_unsupported, common in *. rewrite list_lookup_imap, Forall_app, Forall_singleton, <- Hv, <- contains_spec.
  destruct (lookup_lt_is_Some_2 versions v) as [b Hb]; [lia|]. rewrite Hb. simpl.
  destruct (unsigned_integer_range_set_contains rs (Z.of_nat v)); simpl; [|by split; [intros [=]|intros [_ [=]]]].
  split; [by intros ->|tauto].
Qed.

Lemma clear_all_left h1 ads : forall rss seen versions,
  Forall2 (fun a rs => h1 !! a = Some (new_set rs)) ads rss -> left_versions seen versions ->
  exists versions', clear_all ads h1 versions = Some versions' /\ left_versions (seen ++ rss) versions'.
Proof.
  induction ads as [|a ads IH]; intros rss seen versions Hall Hl; inversion Hall as [|? rs ? rss' Ha Hall']; subst; cbn [clear_all].
  { exists versions. by rewrite app_nil_r. }
  rewrite Ha. simpl ranges. destruct (IH rss' (seen ++ [rs]) (clear_unsupported rs versions)) as (vs & Hc & Hl'); [done|by apply clear_left|].
  exists vs. by rewrite <- app_assoc in Hl'.
Qed.

Lemma with_sets_Forall2 h ads rss h1 : with_sets h ads rss h1 -> Forall2 (fun a rs => h1 !! a = Some (new_set rs)) ads rss.
Proof.
  intros [Hlen Hnew _ _]. apply Forall2_same_length_lookup_2; [done|]. intros i a rs Ha Hrs. by eapply Hnew.
Qed.

(** What [greatest_set] finds below the version [n]. *)
Lemma greatest_set_spec versions n :
  match greatest_set n versions with
  | Some v => exists k, v = Z.of_nat k /\ (k < n)%nat /\ versions !! k = Some true /\
      forall j, (k < j < n)%nat -> versions !! j <> Some true
  | None => forall j, (j < n)%nat -> versions !! j <> Some true
  end.
Proof.
  induction n as [|n IH]; cbn [greatest_set]; [intros; lia|].
  destruct (versions !! n) as [[|]|] eqn:Hn; simpl.
  1: { exists n. split; [done|]. split; [lia|]. split; [done|]. intros. lia. }
  all: destruct (greatest_set n versions) as [v|].
  all: try (destruct IH as (k & -> & Hk & Ht & Hlast); exists k; repeat split; try done; try lia;
            intros j Hj; destruct (decide (j = n)) as [-> |]; [congruence|apply Hlast; lia]).
  all: intros j Hj; (destruct (decide (j = n)) as [-> |]; [congruence|apply IH; lia]).
Qed.
End greatest.

(** When the methods declare the versions they support without failing, the
    function returns the greatest version that all the components and the restriction
    have, or "no match" when there is none, and the store is as it was. *)
Theorem greatest_mip_version dev debug malloc (d : bt_component_descriptor_set) restriction drs rrs h :
  (forall h, h !! malloc h = None) ->
  Forall2 declares (sources d ++ filters d ++ sinks d) drs ->
  0 < Z.of_nat (length drs) < 2 ^ 32 ->
  match restriction with Some a => exists s, h !! a = Some s /\ rrs = [ranges s] | None => rrs = [] end ->
  exists status version,
    bt_get_greatest_operative_mip_version_with_restriction dev debug malloc d restriction h = Some (status, version, h) /\
    match version with
    | Some v => status = BT_FUNC_STATUS_OK /\ 0 <= v <= bt_get_maximal_mip_version /\ common (rrs ++ drs) v /\
        forall w, v < w <= bt_get_maximal_mip_version -> ~ common (rrs ++ drs) w
    | None => status = BT_FUNC_STATUS_NO_MATCH /\
        forall w, 0 <= w <= bt_get_maximal_mip_version -> ~ common (rrs ++ drs) w
    end.
Proof.
  intros Hm Hd Hn Hr. apply Forall2_app_inv_l in Hd as (d1 & d23 & Hd1 & Hd & ->).
  apply Forall2_app_inv_l in Hd as (d2 & d3 & Hd2 & Hd3 & ->).
  pose proof (Forall2_length _ _ _ Hd1). pose proof (Forall2_length _ _ _ Hd2). pose proof (Forall2_length _ _ _ Hd3).
  destruct (get_supported_ok dev debug malloc _ _ Hm Hd1 h [] [] h (with_sets_nil h)) as (a1 & h1 & E1 & W1).
  destruct (get_supported_ok dev debug malloc _ _ Hm Hd2 h a1 _ h1 W1) as (a2 & h2 & E2 & W2).
  destruct (get_supported_ok dev debug malloc _ _ Hm Hd3 h a2 _ h2 W2) as (a3 & h3 & E3 & W3).
  rewrite <- app_assoc in W3. simpl in W3.
  assert (Hstart : left_versions [] (replicate (S MAX_MIP_VERSION) true)).
  { split; [done|]. intros v Hv. split; [constructor|]. intros _. by apply lookup_replicate_2, le_n_S. }
  assert (exists versions, left_versions rrs versions /\
    match restriction with
    | Some a => do s <- h3 !! a; Some (clear_unsupported (ranges s) (replicate (S MAX_MIP_VERSION) true))
    | None => Some (replicate (S MAX_MIP_VERSION) true)
    end = Some versions) as (vs & Hvs & Er).
  { destruct restriction as [a|]; [|subst; by eexists]. destruct Hr as (s & Hs & ->).
    rewrite (ws_old _ _ _ _ W3), Hs; [|intros Hin; pose proof (with_sets_fresh _ _ _ _ _ W3 Hin); congruence].
    eexists. split; [|reflexivity]. by apply (clear_left []). }
  destruct (clear_all_left h3 a3 _ rrs vs (with_sets_Forall2 _ _ _ _ W3) Hvs) as (vs' & Ec & [_ Hvs']).
  pose proof (greatest_set_spec vs' (S MAX_MIP_VERSION)) as Hg. set (version := greatest_set (S MAX_MIP_VERSION) vs') in *.
  exists (match version with Some _ => BT_FUNC_STATUS_OK | None => BT_FUNC_STATUS_NO_MATCH end), version. split.
  - unfold bt_get_greatest_operative_mip_version_with_restriction, BT_ASSERT_PRE.
    rewrite wrapu_small, (proj2 (Z.ltb_lt _ _)) by (rewrite !length_app in Hn; lia). rewrite E1. simpl. rewrite E2. simpl.
    rewrite E3. simpl. unfold find_greatest_compatible_mip_version. rewrite Er, Ec. fold version.
    by rewrite (free_ranges_ok debug h a3 _ h3 W3).
  - unfold bt_get_maximal_mip_version in *. destruct version as [v|]; [destruct Hg as (k & -> & Hk & Ht & Hl)|]; (split; [done|]).
    + split; [lia|]. split; [apply Hvs'; [lia|done]|]. intros w Hw Hc. apply (Hl (Z.to_nat w)); [lia|].
      apply Hvs'; [lia|]. by rewrite Z2Nat.id by lia.
    + intros w Hw Hc. apply (Hg (Z.to_nat w)); [lia|]. apply Hvs'; [lia|]. by rewrite Z2Nat.id by lia.
Qed.

(** * Witness *)

Definition ex_method (rs : list bt_integer_range) : get_supported_method :=
  fun h a => do s <- h !! a; Some (BT_FUNC_STATUS_OK, <[a := BtIntegerRangeSet (rs_base s) rs false]> h).
Definition ex_malloc (h : range_sets) : addr := fresh (dom h : gset addr).

(** A source for both versions, a sink that only declares later ones and one without a
    method: with the last, no version is common. *)
Lemma greatest_mip_version_witness :
  bt_get_greatest_operative_mip_version true true ex_malloc
    (ComponentDescriptorSet [Some (ex_method [BtIntegerRange 0 1])] [] [Some (ex_method [BtIntegerRange 1 7])]) ∅ =
    Some (0, Some 1, ∅) /\
  exists status, bt_get_greatest_operative_mip_version true true ex_malloc
    (ComponentDescriptorSet [Some (ex_method [BtIntegerRange 0 1])] [] [Some (ex_method [BtIntegerRange 1 7]); None]) ∅ =
    Some (status, None, ∅).
Proof.
  split; [vm_compute; reflexivity|].
  destruct (greatest_mip_version true true ex_malloc
    (ComponentDescriptorSet [Some (ex_method [BtIntegerRange 0 1])] [] [Some (ex_method [BtIntegerRange 1 7]); None]) None
    [[BtIntegerRange 0 1]; [BtIntegerRange 1 7]; [BtIntegerRange 0 0]] [] ∅) as (status & version & He & Hv).
  - intros h. pose proof (is_fresh (dom h : gset addr)) as Hf. by apply not_elem_of_dom in Hf.
  - repeat constructor; try done; intros h a s Hs _ _; unfold ex_method; by rewrite Hs.
  - done.
  - done.
  - exists status. destruct version as [v|]; [|exact He]. vm_compute in He. discriminate He.
Defined.
