(* ===== verification/IrObj.v ===== *)
(** The objects of a trace, as the library has them: field classes
    ([src/src/lib/trace-ir/field-class.h]), trace, stream and event classes
    ([trace-class.h], [stream-class.h], [event-class.h]), traces ([trace.h]) and streams
    ([stream.h]).

    One store maps addresses to the objects, which all start with a [bt_object]
    ([Object]): a reference is an address.  A string is a list of characters.  A field
    path is a value of the field class that owns it, and so is the environment of a trace.
    User attributes, media types and object pools are left out. *)

From stdpp Require Import list gmap.
From S2P Require Import Prelude Object IntRange.

(** * Types *)

Definition BT_FIELD_CLASS_TYPE_BOOL : Z := 2 ^ 0.
Definition BT_FIELD_CLASS_TYPE_BIT_ARRAY : Z := 2 ^ 1.
Definition BT_FIELD_CLASS_TYPE_INTEGER : Z := 2 ^ 2.
Definition BT_FIELD_CLASS_TYPE_UNSIGNED_INTEGER : Z := Z.lor (2 ^ 3) BT_FIELD_CLASS_TYPE_INTEGER.
Definition BT_FIELD_CLASS_TYPE_SIGNED_INTEGER : Z := Z.lor (2 ^ 4) BT_FIELD_CLASS_TYPE_INTEGER.
Definition BT_FIELD_CLASS_TYPE_ENUMERATION : Z := 2 ^ 5.
Definition BT_FIELD_CLASS_TYPE_UNSIGNED_ENUMERATION : Z :=
  Z.lor BT_FIELD_CLASS_TYPE_ENUMERATION BT_FIELD_CLASS_TYPE_UNSIGNED_INTEGER.
Definition BT_FIELD_CLASS_TYPE_SIGNED_ENUMERATION : Z :=
  Z.lor BT_FIELD_CLASS_TYPE_ENUMERATION BT_FIELD_CLASS_TYPE_SIGNED_INTEGER.
Definition BT_FIELD_CLASS_TYPE_REAL : Z := 2 ^ 6.
Definition BT_FIELD_CLASS_TYPE_SINGLE_PRECISION_REAL : Z := Z.lor (2 ^ 7) BT_FIELD_CLASS_TYPE_REAL.
Definition BT_FIELD_CLASS_TYPE_DOUBLE_PRECISION_REAL : Z := Z.lor (2 ^ 8) BT_FIELD_CLASS_TYPE_REAL.
Definition BT_FIELD_CLASS_TYPE_STRING : Z := 2 ^ 9.
Definition BT_FIELD_CLASS_TYPE_STRUCTURE : Z := 2 ^ 10.
Definition BT_FIELD_CLASS_TYPE_ARRAY : Z := 2 ^ 11.
Definition BT_FIELD_CLASS_TYPE_STATIC_ARRAY : Z := Z.lor (2 ^ 12) BT_FIELD_CLASS_TYPE_ARRAY.
Definition BT_FIELD_CLASS_TYPE_DYNAMIC_ARRAY : Z := Z.lor (2 ^ 13) BT_FIELD_CLASS_TYPE_ARRAY.
Definition BT_FIELD_CLASS_TYPE_DYNAMIC_ARRAY_WITHOUT_LENGTH_FIELD : Z := Z.lor (2 ^ 14) BT_FIELD_CLASS_TYPE_DYNAMIC_ARRAY.
Definition BT_FIELD_CLASS_TYPE_DYNAMIC_ARRAY_WITH_LENGTH_FIELD : Z := Z.lor (2 ^ 15) BT_FIELD_CLASS_TYPE_DYNAMIC_ARRAY.
Definition BT_FIELD_CLASS_TYPE_OPTION : Z := 2 ^ 16.
Definition BT_FIELD_CLASS_TYPE_OPTION_WITHOUT_SELECTOR_FIELD : Z := Z.lor (2 ^ 17) BT_FIELD_CLASS_TYPE_OPTION.
Definition BT_FIELD_CLASS_TYPE_OPTION_WITH_SELECTOR_FIELD : Z := Z.lor (2 ^ 18) BT_FIELD_CLASS_TYPE_OPTION.
Definition BT_FIELD_CLASS_TYPE_OPTION_WITH_BOOL_SELECTOR_FIELD : Z :=
  Z.lor (2 ^ 19) BT_FIELD_CLASS_TYPE_OPTION_WITH_SELECTOR_FIELD.
Definition BT_FIELD_CLASS_TYPE_OPTION_WITH_INTEGER_SELECTOR_FIELD : Z :=
  Z.lor (2 ^ 20) BT_FIELD_CLASS_TYPE_OPTION_WITH_SELECTOR_FIELD.
Definition BT_FIELD_CLASS_TYPE_OPTION_WITH_UNSIGNED_INTEGER_SELECTOR_FIELD : Z :=
  Z.lor (2 ^ 21) BT_FIELD_CLASS_TYPE_OPTION_WITH_INTEGER_SELECTOR_FIELD.
Definition BT_FIELD_CLASS_TYPE_OPTION_WITH_SIGNED_INTEGER_SELECTOR_FIELD : Z :=
  Z.lor (2 ^ 22) BT_FIELD_CLASS_TYPE_OPTION_WITH_INTEGER_SELECTOR_FIELD.
Definition BT_FIELD_CLASS_TYPE_VARIANT : Z := 2 ^ 23.
Definition BT_FIELD_CLASS_TYPE_VARIANT_WITHOUT_SELECTOR_FIELD : Z := Z.lor (2 ^ 24) BT_FIELD_CLASS_TYPE_VARIANT.
Definition BT_FIELD_CLASS_TYPE_VARIANT_WITH_SELECTOR_FIELD : Z := Z.lor (2 ^ 25) BT_FIELD_CLASS_TYPE_VARIANT.
Definition BT_FIELD_CLASS_TYPE_VARIANT_WITH_INTEGER_SELECTOR_FIELD : Z :=
  Z.lor (2 ^ 26) BT_FIELD_CLASS_TYPE_VARIANT_WITH_SELECTOR_FIELD.
Definition BT_FIELD_CLASS_TYPE_VARIANT_WITH_UNSIGNED_INTEGER_SELECTOR_FIELD : Z :=
  Z.lor (2 ^ 27) BT_FIELD_CLASS_TYPE_VARIANT_WITH_INTEGER_SELECTOR_FIELD.
Definition BT_FIELD_CLASS_TYPE_VARIANT_WITH_SIGNED_INTEGER_SELECTOR_FIELD : Z :=
  Z.lor (2 ^ 28) BT_FIELD_CLASS_TYPE_VARIANT_WITH_INTEGER_SELECTOR_FIELD.

Definition bt_field_class_type_is (type other_type : Z) : bool := Z.land type other_type =? other_type.

(** * Data *)

Inductive bt_field_path_scope := PacketContext | EventCommonContext | EventSpecificContext | EventPayload.
#[export] Instance bt_field_path_scope_eq_dec : EqDecision bt_field_path_scope.
Proof. solve_decision. Defined.

Inductive bt_field_path_item := ItemIndex (index : Z) | CurrentArrayElement | CurrentOptionContent.
#[export] Instance bt_field_path_item_eq_dec : EqDecision bt_field_path_item.
Proof. solve_decision. Defined.

Record bt_field_path := BtFieldPath { fp_root : bt_field_path_scope; fp_items : list bt_field_path_item }.
#[export] Instance bt_field_path_eq_dec : EqDecision bt_field_path.
Proof. solve_decision. Defined.

(** The selector or length field of a field class, by path or by location; a path is set
    once it is resolved. *)
Inductive field_xref := XrefPath (class : addr) (path : option bt_field_path) | XrefLocation (location : addr).

Record bt_field_class_bit_array_flag := BitArrayFlag { flag_label : list Z; flag_range_set : addr; flag_mask : Z }.
Record bt_field_class_enumeration_mapping := EnumMapping { mapping_label : list Z; mapping_range_set : addr }.

(** A member or an option; only an option of a variant with a selector has a range set. *)
Record bt_named_field_class := NamedFieldClass {
  nf_name : option (list Z);
  nf_fc : addr;
  nf_frozen : bool;
  nf_range_set : option addr
}.

(** What a field class has besides [struct bt_field_class], by structure. *)
Inductive fc_contents :=
| NoContents
| BitArrayContents (length : Z) (flags : list bt_field_class_bit_array_flag)
| IntegerContents (range hints base : Z)
| EnumerationContents (range hints base : Z) (mappings : list bt_field_class_enumeration_mapping)
| ContainerContents (name_to_index : gmap (list Z) nat) (named_fcs : list bt_named_field_class)
    (selector_field : option field_xref)
| StaticArrayContents (element_fc : addr) (length : Z)
| DynamicArrayContents (element_fc : addr) (length_field : option field_xref)
| OptionContents (content_fc : addr) (selector_field : option field_xref) (sel_is_reversed : bool) (range_set : option addr).

Record bt_field_class := BtFieldClass {
  fc_base : bt_object;
  fc_type : Z;
  fc_frozen : bool;
  part_of_trace_class : bool;
  mip_version : Z;
  fc_data : fc_contents
}.

(** ** Classes, traces and streams *)

(** A namespace, a name and a unique identifier, all optional. *)
Record ir_names := IrNames { ns : option (list Z); name : option (list Z); uid : option (list Z) }.

(** A destruction listener: the function and its data.  A place whose listener was removed
    is [None]. *)
Definition destruction_listener : Type := Z.

Record bt_trace_class := BtTraceClass {
  tc_base : bt_object;
  tc_mip_version : Z;
  stream_classes : list addr;
  assigns_automatic_stream_class_id : bool;
  tc_destruction_listeners : list (option destruction_listener);
  tc_frozen : bool
}.

(** The support of packets and discarded items of a stream class. *)
Record sc_support := ScSupport {
  supports_packets : bool;
  packets_have_beginning_default_clock_snapshot : bool;
  packets_have_end_default_clock_snapshot : bool;
  supports_discarded_events : bool;
  discarded_events_have_default_clock_snapshots : bool;
  supports_discarded_packets : bool;
  discarded_packets_have_default_clock_snapshots : bool
}.

Record bt_stream_class := BtStreamClass {
  sc_base : bt_object;
  sc_names : ir_names;
  sc_id : Z;
  assigns_automatic_event_class_id : bool;
  assigns_automatic_stream_id : bool;
  support : sc_support;
  packet_context_fc : option addr;
  event_common_context_fc : option addr;
  default_clock_class : option addr;
  event_classes : list addr;
  sc_frozen : bool
}.

Record bt_event_class := BtEventClass {
  ec_base : bt_object;
  specific_context_fc : option addr;
  payload_fc : option addr;
  ec_names : ir_names;
  ec_id : Z;
  log_level : option Z;
  emf_uri : option (list Z);
  ec_frozen : bool
}.

Inductive env_value := EnvInteger (z : Z) | EnvString (s : list Z).

Record bt_trace := BtTrace {
  trace_base : bt_object;
  trace_class : addr;
  trace_names : ir_names;
  environment : list (list Z * env_value);
  streams : list addr;
  stream_classes_stream_count : gmap addr Z;
  trace_destruction_listeners : list (option destruction_listener);
  trace_frozen : bool
}.

Record bt_stream := BtStream {
  stream_base : bt_object;
  stream_class : addr;
  stream_name : option (list Z);
  stream_id : Z;
  stream_frozen : bool
}.

(** ** The store *)

Inductive ir_object :=
| FieldClassObject (fc : bt_field_class)
| RangeSetObject (s : bt_integer_range_set)
| LocationObject (b : bt_object)
| ClockClassObject (b : bt_object) (frozen : bool)
| TraceClassObject (tc : bt_trace_class)
| StreamClassObject (sc : bt_stream_class)
| EventClassObject (ec : bt_event_class)
| TraceObject (t : bt_trace)
| StreamObject (s : bt_stream).

Definition ir_base (o : ir_object) : bt_object :=
  match o with
  | FieldClassObject fc => fc_base fc
  | RangeSetObject s => rs_base s
  | LocationObject b | ClockClassObject b _ => b
  | TraceClassObject tc => tc_base tc
  | StreamClassObject sc => sc_base sc
  | EventClassObject ec => ec_base ec
  | TraceObject t => trace_base t
  | StreamObject s => stream_base s
  end.
Definition ir_set_base (o : ir_object) (b : bt_object) : ir_object :=
  match o with
  | FieldClassObject fc =>
    FieldClassObject (BtFieldClass b (fc_type fc) (fc_frozen fc) (part_of_trace_class fc) (mip_version fc) (fc_data fc))
  | RangeSetObject s => RangeSetObject (BtIntegerRangeSet b (ranges s) (frozen s))
  | LocationObject _ => LocationObject b
  | ClockClassObject _ frozen => ClockClassObject b frozen
  | TraceClassObject tc =>
    TraceClassObject (BtTraceClass b (tc_mip_version tc) (stream_classes tc) (assigns_automatic_stream_class_id tc)
                        (tc_destruction_listeners tc) (tc_frozen tc))
  | StreamClassObject sc =>
    StreamClassObject (BtStreamClass b (sc_names sc) (sc_id sc) (assigns_automatic_event_class_id sc)
                         (assigns_automatic_stream_id sc) (support sc) (packet_context_fc sc) (event_common_context_fc sc)
                         (default_clock_class sc) (event_classes sc) (sc_frozen sc))
  | EventClassObject ec =>
    EventClassObject (BtEventClass b (specific_context_fc ec) (payload_fc ec) (ec_names ec) (ec_id ec) (log_level ec)
                        (emf_uri ec) (ec_frozen ec))
  | TraceObject t =>
    TraceObject (BtTrace b (trace_class t) (trace_names t) (environment t) (streams t) (stream_classes_stream_count t)
                   (trace_destruction_listeners t) (trace_frozen t))
  | StreamObject s => StreamObject (BtStream b (stream_class s) (stream_name s) (stream_id s) (stream_frozen s))
  end.
#[export] Instance ir_object_base : ObjectBase ir_object := { base := ir_base; set_base := ir_set_base }.
#[export] Instance ir_object_base_laws : ObjectBaseLaws ir_object.
Proof. split; [by intros []|by intros [[]|[]|? |? ?|[]|[]|[]|[]|[]]|by intros []]. Qed.

Abbreviation ir := (gmap addr ir_object).

Definition get_fc (h : ir) (a : addr) : option bt_field_class :=
  match h !! a with Some (FieldClassObject fc) => Some fc | _ => None end.
Definition get_ranges (h : ir) (a : addr) : option bt_integer_range_set :=
  match h !! a with Some (RangeSetObject s) => Some s | _ => None end.
Definition get_tc (h : ir) (a : addr) : option bt_trace_class :=
  match h !! a with Some (TraceClassObject tc) => Some tc | _ => None end.
Definition get_sc (h : ir) (a : addr) : option bt_stream_class :=
  match h !! a with Some (StreamClassObject sc) => Some sc | _ => None end.
Definition get_ec (h : ir) (a : addr) : option bt_event_class :=
  match h !! a with Some (EventClassObject ec) => Some ec | _ => None end.
Definition get_trace (h : ir) (a : addr) : option bt_trace :=
  match h !! a with Some (TraceObject t) => Some t | _ => None end.
Definition get_stream (h : ir) (a : addr) : option bt_stream :=
  match h !! a with Some (StreamObject s) => Some s | _ => None end.
Definition get_location (h : ir) (a : addr) : option bt_object :=
  match h !! a with Some (LocationObject b) => Some b | _ => None end.

Definition with_data (fc : bt_field_class) (d : fc_contents) : bt_field_class :=
  BtFieldClass (fc_base fc) (fc_type fc) (fc_frozen fc) (part_of_trace_class fc) (mip_version fc) d.
Definition with_frozen (fc : bt_field_class) (b : bool) : bt_field_class :=
  BtFieldClass (fc_base fc) (fc_type fc) b (part_of_trace_class fc) (mip_version fc) (fc_data fc).
Definition with_part_of (fc : bt_field_class) (b : bool) : bt_field_class :=
  BtFieldClass (fc_base fc) (fc_type fc) (fc_frozen fc) b (mip_version fc) (fc_data fc).
Definition set_fc (h : ir) (a : addr) (fc : bt_field_class) : ir := <[a := FieldClassObject fc]> h.
Definition set_data (h : ir) (a : addr) (d : fc_contents) : option ir := do fc <- get_fc h a; Some (set_fc h a (with_data fc d)).
