(* ===== verification/FieldClass.v ===== *)
(** Field classes: [src/src/lib/trace-ir/field-class.c] and [field-class.h].

    The functions work on the store of [IrObj].  [dev] tells whether the library is built
    in developer mode and [debug] in debug mode; no error is pending in the current thread;
    allocations succeed at an address [new] that the caller gives.  User attributes and
    media types are left out. *)

From stdpp Require Import list gmap.
From S2P Require Import Prelude Object IntRange IrObj.

Definition is_container (fc : bt_field_class) : bool :=
  (fc_type fc =? BT_FIELD_CLASS_TYPE_STRUCTURE) || bt_field_class_type_is (fc_type fc) BT_FIELD_CLASS_TYPE_VARIANT.
Definition BT_ASSERT_PRE_FC_IS_INT (fc : bt_field_class) : bool :=
  bool_decide (fc_type fc ∈ [BT_FIELD_CLASS_TYPE_UNSIGNED_INTEGER; BT_FIELD_CLASS_TYPE_SIGNED_INTEGER;
                             BT_FIELD_CLASS_TYPE_UNSIGNED_ENUMERATION; BT_FIELD_CLASS_TYPE_SIGNED_ENUMERATION]).
Definition BT_ASSERT_PRE_FC_IS_UNSIGNED_INT (fc : bt_field_class) : bool :=
  bool_decide (fc_type fc ∈ [BT_FIELD_CLASS_TYPE_UNSIGNED_INTEGER; BT_FIELD_CLASS_TYPE_UNSIGNED_ENUMERATION]).
Definition BT_ASSERT_PRE_FC_IS_SIGNED_INT (fc : bt_field_class) : bool :=
  bool_decide (fc_type fc ∈ [BT_FIELD_CLASS_TYPE_SIGNED_INTEGER; BT_FIELD_CLASS_TYPE_SIGNED_ENUMERATION]).

Definition destroy_field_class_func : func := 1%positive.
Definition destroy_range_set_func : func := 2%positive.
Definition destroy_field_location_func : func := 3%positive.

(** * Operations *)

Section ops.
Context (dev debug : bool).

(** ** The end of a field class *)

Section ends.
Context (call : func -> addr -> ir -> option ir).

Definition put_ref (h : ir) (p : option addr) : option ir := do r <- bt_object_put_ref debug call h p; run call r.

Definition put_xref (h : ir) (x : option field_xref) : option ir :=
  match x with
  | Some (XrefPath class _) => put_ref h (Some class)
  | Some (XrefLocation location) => put_ref h (Some location)
  | None => Some h
  end.

(** [destroy_named_field_class], or [destroy_variant_with_selector_field_option]. *)
Definition destroy_named_field_class (h : ir) (named_fc : bt_named_field_class) : option ir :=
  do h <- put_ref h (Some (nf_fc named_fc)); put_ref h (nf_range_set named_fc).

Fixpoint put_all {A} (put : ir -> A -> option ir) (l : list A) (h : ir) : option ir :=
  match l with [] => Some h | a :: l => do h <- put h a; put_all put l h end.

Definition destroy_field_class (h : ir) (obj : addr) : option ir :=
  do fc <- get_fc h obj;
  do h <- match fc_data fc with
          | NoContents | IntegerContents _ _ _ => Some h
          | BitArrayContents _ flags => put_all (fun h f => put_ref h (Some (flag_range_set f))) flags h
          | EnumerationContents _ _ _ mappings => put_all (fun h m => put_ref h (Some (mapping_range_set m))) mappings h
          | ContainerContents _ named_fcs selector_field =>
            do h <- put_all destroy_named_field_class named_fcs h; put_xref h selector_field
          | StaticArrayContents element_fc _ => put_ref h (Some element_fc)
          | DynamicArrayContents element_fc length_field => do h <- put_ref h (Some element_fc); put_xref h length_field
          | OptionContents content_fc selector_field _ range_set =>
            do h <- put_ref h (Some content_fc); do h <- put_xref h selector_field; put_ref h range_set
          end;
  Some (delete obj h).
End ends.

Fixpoint call_ir (fuel : nat) (f : func) (a : addr) (h : ir) : option ir :=
  match fuel with
  | O => None
  | S fuel => if bool_decide (f = destroy_field_class_func) then destroy_field_class (call_ir fuel) h a else Some (delete a h)
  end.

(** ** Freezing *)

Definition _bt_named_field_class_freeze (h : ir) (named_fc : bt_named_field_class) : option bt_named_field_class :=
  do fc <- get_fc h (nf_fc named_fc);
  guard_ub fc_frozen fc;
  Some (NamedFieldClass (nf_name named_fc) (nf_fc named_fc) true (nf_range_set named_fc)).

Fixpoint freeze_all (h : ir) (l : list bt_named_field_class) : option (list bt_named_field_class) :=
  match l with
  | [] => Some []
  | nf :: l => do nf <- _bt_named_field_class_freeze h nf; do l <- freeze_all h l; Some (nf :: l)
  end.

Definition _bt_field_class_freeze (h : ir) (c_fc : addr) : option ir :=
  do fc <- get_fc h c_fc;
  let h := set_fc h c_fc (with_frozen fc true) in
  match fc_data fc with
  | ContainerContents names named_fcs sel =>
    do named_fcs <- freeze_all h named_fcs;
    Some (set_fc h c_fc (with_data (with_frozen fc true) (ContainerContents names named_fcs sel)))
  | _ => Some h
  end.
Definition bt_field_class_freeze (h : ir) (fc : addr) : option ir := if dev then _bt_field_class_freeze h fc else Some h.

Definition bt_integer_range_set_freeze (h : ir) (a : addr) : option ir :=
  do s <- get_ranges h a;
  Some (if dev then <[a := RangeSetObject (BtIntegerRangeSet (rs_base s) (ranges s) true)]> h else h).

(** ** Creation *)

Definition get_ref (h : ir) (a : addr) : option ir := bt_object_get_ref_no_null_check debug h a.

Definition init_field_class (h : ir) (new : addr) (type mip : Z) (d : fc_contents) : option ir :=
  guard_ub bool_decide (h !! new = None);
  Some (set_fc h new (BtFieldClass (bt_object_init_shared (ReleaseFunc destroy_field_class_func)) type false false mip d)).

Section create.
(** The new object and the MIP version of the trace class. *)
Context (h : ir) (new : addr) (mip : Z).

Definition bt_field_class_bool_create : option ir := init_field_class h new BT_FIELD_CLASS_TYPE_BOOL mip NoContents.
Definition bt_field_class_string_create : option ir := init_field_class h new BT_FIELD_CLASS_TYPE_STRING mip NoContents.
Definition create_real_field_class (type : Z) : option ir := init_field_class h new type mip NoContents.
Definition bt_field_class_bit_array_create (length : Z) : option ir :=
  BT_ASSERT_PRE ((0 <? length) && (length <=? 64))
    (init_field_class h new BT_FIELD_CLASS_TYPE_BIT_ARRAY mip (BitArrayContents length [])).
(** The base is decimal. *)
Definition create_integer_field_class (type : Z) : option ir := init_field_class h new type mip (IntegerContents 64 0 10).
Definition bt_field_class_integer_unsigned_create : option ir := create_integer_field_class BT_FIELD_CLASS_TYPE_UNSIGNED_INTEGER.
Definition bt_field_class_integer_signed_create : option ir := create_integer_field_class BT_FIELD_CLASS_TYPE_SIGNED_INTEGER.
Definition create_enumeration_field_class (type : Z) : option ir :=
  init_field_class h new type mip (EnumerationContents 64 0 10 []).
Definition bt_field_class_enumeration_unsigned_create : option ir :=
  create_enumeration_field_class BT_FIELD_CLASS_TYPE_UNSIGNED_ENUMERATION.
Definition bt_field_class_enumeration_signed_create : option ir :=
  create_enumeration_field_class BT_FIELD_CLASS_TYPE_SIGNED_ENUMERATION.
Definition bt_field_class_structure_create : option ir :=
  init_field_class h new BT_FIELD_CLASS_TYPE_STRUCTURE mip (ContainerContents ∅ [] None).

(** The references that an array or an option takes of its element or content. *)
Definition own_field_class (h : ir) (fc : addr) : option ir := do h <- get_ref h fc; bt_field_class_freeze h fc.

Definition bt_field_class_array_static_create (element_fc : addr) (length : Z) : option ir :=
  do h <- init_field_class h new BT_FIELD_CLASS_TYPE_STATIC_ARRAY mip (StaticArrayContents element_fc length);
  own_field_class h element_fc.

Definition create_dynamic_array_field_class (element_fc : addr) (fc_type : Z) : option ir :=
  do h <- init_field_class h new fc_type mip (DynamicArrayContents element_fc None);
  own_field_class h element_fc.

Definition bt_field_class_array_dynamic_create (element_fc : addr) (length_fc : option addr) : option ir :=
  BT_ASSERT_PRE (mip =? 0)
    (do h <- create_dynamic_array_field_class element_fc
               match length_fc with
               | Some _ => BT_FIELD_CLASS_TYPE_DYNAMIC_ARRAY_WITH_LENGTH_FIELD
               | None => BT_FIELD_CLASS_TYPE_DYNAMIC_ARRAY_WITHOUT_LENGTH_FIELD
               end;
     match length_fc with
     | Some length_fc =>
       do fc <- get_fc h length_fc;
       BT_ASSERT_PRE (BT_ASSERT_PRE_FC_IS_UNSIGNED_INT fc)
         (do h <- set_data h new (DynamicArrayContents element_fc (Some (XrefPath length_fc None)));
          own_field_class h length_fc)
     | None => Some h
     end).
Definition bt_field_class_array_dynamic_without_length_field_location_create (element_fc : addr) : option ir :=
  BT_ASSERT_PRE (1 <=? mip)
    (create_dynamic_array_field_class element_fc BT_FIELD_CLASS_TYPE_DYNAMIC_ARRAY_WITHOUT_LENGTH_FIELD).
Definition bt_field_class_array_dynamic_with_length_field_location_create (element_fc location : addr) : option ir :=
  BT_ASSERT_PRE (1 <=? mip)
    (do h <- create_dynamic_array_field_class element_fc BT_FIELD_CLASS_TYPE_DYNAMIC_ARRAY_WITH_LENGTH_FIELD;
     do h <- set_data h new (DynamicArrayContents element_fc (Some (XrefLocation location)));
     get_ref h location).

(** [selector] is the field class, the field location or neither. *)
Definition create_option_field_class (fc_type : Z) (content_fc : addr) (selector : option (addr + addr))
    (range_set : option addr) : option ir :=
  guard_ub bool_decide ((fc_type = BT_FIELD_CLASS_TYPE_OPTION_WITHOUT_SELECTOR_FIELD) <-> selector = None);
  let selector_field :=
    match selector with
    | Some (inl selector_fc) => Some (XrefPath selector_fc None)
    | Some (inr selector_fl) => Some (XrefLocation selector_fl)
    | None => None
    end in
  do h <- match selector with
          | Some (inl a) | Some (inr a) => get_ref h a
          | None => Some h
          end;
  do h <- init_field_class h new fc_type mip (OptionContents content_fc selector_field false range_set);
  do h <- own_field_class h content_fc;
  match selector with
  | Some (inl selector_fc) => bt_field_class_freeze h selector_fc
  | _ => Some h
  end.

Definition bt_field_class_option_without_selector_create (content_fc : addr) : option ir :=
  BT_ASSERT_PRE (mip =? 0)
    (create_option_field_class BT_FIELD_CLASS_TYPE_OPTION_WITHOUT_SELECTOR_FIELD content_fc None None).
Definition bt_field_class_option_without_selector_field_location_create (content_fc : addr) : option ir :=
  BT_ASSERT_PRE (1 <=? mip)
    (create_option_field_class BT_FIELD_CLASS_TYPE_OPTION_WITHOUT_SELECTOR_FIELD content_fc None None).
Definition bt_field_class_option_with_selector_field_bool_create (content_fc selector_fc : addr) : option ir :=
  BT_ASSERT_PRE (mip =? 0)
    (do fc <- get_fc h selector_fc;
     BT_ASSERT_PRE (fc_type fc =? BT_FIELD_CLASS_TYPE_BOOL)
       (create_option_field_class BT_FIELD_CLASS_TYPE_OPTION_WITH_BOOL_SELECTOR_FIELD content_fc (Some (inl selector_fc)) None)).
Definition bt_field_class_option_with_selector_field_location_bool_create (content_fc selector_fl : addr) : option ir :=
  BT_ASSERT_PRE (1 <=? mip)
    (create_option_field_class BT_FIELD_CLASS_TYPE_OPTION_WITH_BOOL_SELECTOR_FIELD content_fc (Some (inr selector_fl)) None).

(** The four options with an integer selector; the range set is set once the option is
    created. *)
Definition create_option_with_ranges (fc_type : Z) (content_fc : addr) (selector : addr + addr) (range_set : addr) : option ir :=
  do s <- get_ranges h range_set;
  BT_ASSERT_PRE (0 <? length (ranges s))%nat
    (do h <- create_option_field_class fc_type content_fc (Some selector) (Some range_set);
     do h <- get_ref h range_set;
     bt_integer_range_set_freeze h range_set).
Definition bt_field_class_option_with_selector_field_integer_unsigned_create (content_fc selector_fc u_range_set : addr) : option ir :=
  BT_ASSERT_PRE (mip =? 0)
    (do fc <- get_fc h selector_fc;
     BT_ASSERT_PRE (BT_ASSERT_PRE_FC_IS_UNSIGNED_INT fc)
       (create_option_with_ranges BT_FIELD_CLASS_TYPE_OPTION_WITH_UNSIGNED_INTEGER_SELECTOR_FIELD content_fc
          (inl selector_fc) u_range_set)).
Definition bt_field_class_option_with_selector_field_integer_signed_create (content_fc selector_fc i_range_set : addr) : option ir :=
  BT_ASSERT_PRE (mip =? 0)
    (do fc <- get_fc h selector_fc;
     BT_ASSERT_PRE (BT_ASSERT_PRE_FC_IS_SIGNED_INT fc)
       (create_option_with_ranges BT_FIELD_CLASS_TYPE_OPTION_WITH_SIGNED_INTEGER_SELECTOR_FIELD content_fc
          (inl selector_fc) i_range_set)).
Definition bt_field_class_option_with_selector_field_location_integer_unsigned_create
    (content_fc selector_fl u_range_set : addr) : option ir :=
  BT_ASSERT_PRE (1 <=? mip)
    (create_option_with_ranges BT_FIELD_CLASS_TYPE_OPTION_WITH_UNSIGNED_INTEGER_SELECTOR_FIELD content_fc
       (inr selector_fl) u_range_set).
Definition bt_field_class_option_with_selector_field_location_integer_signed_create
    (content_fc selector_fl i_range_set : addr) : option ir :=
  BT_ASSERT_PRE (1 <=? mip)
    (create_option_with_ranges BT_FIELD_CLASS_TYPE_OPTION_WITH_SIGNED_INTEGER_SELECTOR_FIELD content_fc
       (inr selector_fl) i_range_set).

Definition create_variant_field_class (fc_type : Z) (selector : option (addr + addr)) : option ir :=
  if fc_type =? BT_FIELD_CLASS_TYPE_VARIANT_WITHOUT_SELECTOR_FIELD
  then init_field_class h new fc_type mip (ContainerContents ∅ [] None)
  else
    match selector with
    | Some (inl selector_fc) =>
      do h <- init_field_class h new fc_type mip (ContainerContents ∅ [] (Some (XrefPath selector_fc None)));
      own_field_class h selector_fc
    | Some (inr selector_fl) =>
      do h <- init_field_class h new fc_type mip (ContainerContents ∅ [] (Some (XrefLocation selector_fl)));
      get_ref h selector_fl
    | None => None
    end.
Definition bt_field_class_variant_create (selector_fc : option addr) : option ir :=
  BT_ASSERT_PRE (mip =? 0)
    match selector_fc with
    | Some selector_fc =>
      do fc <- get_fc h selector_fc;
      BT_ASSERT_PRE (BT_ASSERT_PRE_FC_IS_INT fc)
        (create_variant_field_class
           (if bt_field_class_type_is (fc_type fc) BT_FIELD_CLASS_TYPE_UNSIGNED_INTEGER
            then BT_FIELD_CLASS_TYPE_VARIANT_WITH_UNSIGNED_INTEGER_SELECTOR_FIELD
            else BT_FIELD_CLASS_TYPE_VARIANT_WITH_SIGNED_INTEGER_SELECTOR_FIELD) (Some (inl selector_fc)))
    | None => create_variant_field_class BT_FIELD_CLASS_TYPE_VARIANT_WITHOUT_SELECTOR_FIELD None
    end.
Definition bt_field_class_variant_without_selector_field_location_create : option ir :=
  BT_ASSERT_PRE (1 <=? mip) (create_variant_field_class BT_FIELD_CLASS_TYPE_VARIANT_WITHOUT_SELECTOR_FIELD None).
Definition bt_field_class_variant_with_selector_field_location_integer_unsigned_create (selector_fl : addr) : option ir :=
  BT_ASSERT_PRE (1 <=? mip)
    (create_variant_field_class BT_FIELD_CLASS_TYPE_VARIANT_WITH_UNSIGNED_INTEGER_SELECTOR_FIELD (Some (inr selector_fl))).
Definition bt_field_class_variant_with_selector_field_location_integer_signed_create (selector_fl : addr) : option ir :=
  BT_ASSERT_PRE (1 <=? mip)
    (create_variant_field_class BT_FIELD_CLASS_TYPE_VARIANT_WITH_SIGNED_INTEGER_SELECTOR_FIELD (Some (inr selector_fl))).
End create.

(** ** Bit arrays *)

Fixpoint borrow_flag (flags : list bt_field_class_bit_array_flag) (label : list Z) : option bt_field_class_bit_array_flag :=
  match flags with
  | [] => None
  | candidate :: flags => if bool_decide (flag_label candidate = label) then Some candidate else borrow_flag flags label
  end.

(** The loop on the bits of a range, from [bit_index], [n] bits. *)
Fixpoint mask_bits (n : nat) (bit_index : Z) (mask : Z) : Z :=
  match n with
  | O => mask
  | S n => mask_bits n (bit_index + 1) (Z.lor mask (wrapu 64 (Z.shiftl 1 bit_index)))
  end.
Fixpoint flag_mask_of (rs : list bt_integer_range) (mask : Z) : Z :=
  match rs with
  | [] => mask
  | range :: rs => flag_mask_of rs (mask_bits (Z.to_nat (upper range - lower range + 1)) (lower range) mask)
  end.

Definition bt_field_class_bit_array_add_flag (h : ir) (a : addr) (label : list Z) (index_ranges : addr) : option ir :=
  do fc <- get_fc h a;
  BT_ASSERT_PRE (1 <=? mip_version fc)
    (BT_ASSERT_PRE (fc_type fc =? BT_FIELD_CLASS_TYPE_BIT_ARRAY)
      match fc_data fc with
      | BitArrayContents length flags =>
        BT_ASSERT_PRE (negb (bool_decide (is_Some (borrow_flag flags label))))
          (do s <- get_ranges h index_ranges;
           BT_ASSERT_PRE (forallb (fun range => upper range <? length) (ranges s))
             (do h <- get_ref h index_ranges;
              set_data h a (BitArrayContents length (flags ++ [BitArrayFlag label index_ranges (flag_mask_of (ranges s) 0)]))))
      | _ => None
      end).

Fixpoint active_labels (flags : list bt_field_class_bit_array_flag) (value : Z) : list (list Z) :=
  match flags with
  | [] => []
  | flag :: flags =>
    if negb (Z.land value (flag_mask flag) =? 0) then flag_label flag :: active_labels flags value else active_labels flags value
  end.
Definition bt_field_class_bit_array_get_active_flag_labels_for_value_as_integer (h : ir) (a : addr) (value : Z)
    : option (list (list Z)) :=
  do fc <- get_fc h a;
  BT_ASSERT_PRE_DEV dev (1 <=? mip_version fc)
    (BT_ASSERT_PRE_DEV dev (fc_type fc =? BT_FIELD_CLASS_TYPE_BIT_ARRAY)
      match fc_data fc with BitArrayContents _ flags => Some (active_labels flags value) | _ => None end).

(** ** Integers and enumerations *)

Definition set_integer (h : ir) (a : addr) (f : Z -> Z -> Z -> Z * Z * Z) : option ir :=
  do fc <- get_fc h a;
  match fc_data fc with
  | IntegerContents range hints base => let '(range, hints, base) := f range hints base in set_data h a (IntegerContents range hints base)
  | EnumerationContents range hints base mappings =>
    let '(range, hints, base) := f range hints base in set_data h a (EnumerationContents range hints base mappings)
  | _ => None
  end.
Definition bt_field_class_integer_set_field_value_range (h : ir) (a : addr) (size : Z) : option ir :=
  do fc <- get_fc h a;
  BT_ASSERT_PRE (BT_ASSERT_PRE_FC_IS_INT fc)
    (BT_ASSERT_PRE_DEV dev (negb (fc_frozen fc))
      (BT_ASSERT_PRE ((1 <=? size) && (size <=? 64)) (set_integer h a (fun _ hints base => (size, hints, base))))).
Definition bt_field_class_integer_set_field_value_hints (h : ir) (a : addr) (hints : Z) : option ir :=
  do fc <- get_fc h a;
  BT_ASSERT_PRE (BT_ASSERT_PRE_FC_IS_INT fc)
    (BT_ASSERT_PRE_DEV dev (negb (fc_frozen fc))
      (BT_ASSERT_PRE (1 <=? mip_version fc)
        (BT_ASSERT_PRE ((hints =? 0) || (hints =? 1)) (set_integer h a (fun range _ base => (range, hints, base)))))).
Definition bt_field_class_integer_set_preferred_display_base (h : ir) (a : addr) (base : Z) : option ir :=
  do fc <- get_fc h a;
  BT_ASSERT_PRE (BT_ASSERT_PRE_FC_IS_INT fc)
    (BT_ASSERT_PRE_DEV dev (negb (fc_frozen fc)) (set_integer h a (fun range hints _ => (range, hints, base)))).

Fixpoint borrow_enumeration_field_class_mapping_by_label (mappings : list bt_field_class_enumeration_mapping) (label : list Z)
    : option bt_field_class_enumeration_mapping :=
  match mappings with
  | [] => None
  | this_mapping :: mappings =>
    if bool_decide (mapping_label this_mapping = label) then Some this_mapping
    else borrow_enumeration_field_class_mapping_by_label mappings label
  end.
Fixpoint enumeration_field_class_has_mapping_with_label (mappings : list bt_field_class_enumeration_mapping) (label : list Z) : bool :=
  match mappings with
  | [] => false
  | candidate :: mappings =>
    if bool_decide (mapping_label candidate = label) then true else enumeration_field_class_has_mapping_with_label mappings label
  end.

Definition add_mapping_to_enumeration_field_class (h : ir) (a : addr) (label : list Z) (range_set : addr) : option ir :=
  do fc <- get_fc h a;
  match fc_data fc with
  | EnumerationContents range hints base mappings =>
    BT_ASSERT_PRE (negb (enumeration_field_class_has_mapping_with_label mappings label))
      (do h <- bt_object_get_ref debug h (Some range_set);
       set_data h a (EnumerationContents range hints base (mappings ++ [EnumMapping label range_set])))
  | _ => None
  end.
Definition bt_field_class_enumeration_unsigned_add_mapping (h : ir) (a : addr) (label : list Z) (range_set : addr) : option ir :=
  do fc <- get_fc h a;
  BT_ASSERT_PRE (fc_type fc =? BT_FIELD_CLASS_TYPE_UNSIGNED_ENUMERATION)
    (add_mapping_to_enumeration_field_class h a label range_set).
Definition bt_field_class_enumeration_signed_add_mapping (h : ir) (a : addr) (label : list Z) (range_set : addr) : option ir :=
  do fc <- get_fc h a;
  BT_ASSERT_PRE (fc_type fc =? BT_FIELD_CLASS_TYPE_SIGNED_ENUMERATION)
    (add_mapping_to_enumeration_field_class h a label range_set).

(** The loop on the ranges of a mapping. *)
Fixpoint in_ranges (lo up : bt_integer_range -> Z) (rs : list bt_integer_range) (value : Z) : bool :=
  match rs with
  | [] => false
  | range :: rs => if (lo range <=? value) && (value <=? up range) then true else in_ranges lo up rs value
  end.
Fixpoint labels_for_value (h : ir) (lo up : bt_integer_range -> Z) (mappings : list bt_field_class_enumeration_mapping) (value : Z)
    : option (list (list Z)) :=
  match mappings with
  | [] => Some []
  | mapping :: mappings =>
    do s <- get_ranges h (mapping_range_set mapping);
    do l <- labels_for_value h lo up mappings value;
    Some (if in_ranges lo up (ranges s) value then mapping_label mapping :: l else l)
  end.
Definition get_mapping_labels_for_value (type : Z) (lo up : bt_integer_range -> Z) (h : ir) (a : addr) (value : Z)
    : option (list (list Z)) :=
  do fc <- get_fc h a;
  BT_ASSERT_PRE_DEV dev (fc_type fc =? type)
    match fc_data fc with EnumerationContents _ _ _ mappings => labels_for_value h lo up mappings value | _ => None end.
Definition bt_field_class_enumeration_unsigned_get_mapping_labels_for_value (h : ir) (a : addr) (value : Z) : option (list (list Z)) :=
  get_mapping_labels_for_value BT_FIELD_CLASS_TYPE_UNSIGNED_ENUMERATION lower upper h a value.
Definition bt_field_class_enumeration_signed_get_mapping_labels_for_value (h : ir) (a : addr) (value : Z) : option (list (list Z)) :=
  get_mapping_labels_for_value BT_FIELD_CLASS_TYPE_SIGNED_ENUMERATION lower_i upper_i h a value.

(** ** Structures and variants *)

(** The new member or option, and a reference of its field class. *)
Definition create_named_field_class (h : ir) (name : option (list Z)) (fc : addr) : option (bt_named_field_class * ir) :=
  do h <- get_ref h fc; Some (NamedFieldClass name fc false None, h).
Definition create_variant_with_selector_field_option (h : ir) (name : option (list Z)) (fc range_set : addr)
    : option (bt_named_field_class * ir) :=
  do h <- get_ref h fc;
  do h <- get_ref h range_set;
  do h <- bt_integer_range_set_freeze h range_set;
  Some (NamedFieldClass name fc false (Some range_set), h).

Definition append_named_field_class_to_container_field_class (h : ir) (a : addr) (named_fc : bt_named_field_class) : option ir :=
  do fc <- get_fc h a;
  match fc_data fc with
  | ContainerContents name_to_index _ _ =>
    BT_ASSERT_PRE_DEV dev (negb (fc_frozen fc))
      (BT_ASSERT_PRE match nf_name named_fc with Some name => bool_decide (name_to_index !! name = None) | None => true end
        (do h <- bt_field_class_freeze h (nf_fc named_fc);
         do fc <- get_fc h a;
         match fc_data fc with
         | ContainerContents name_to_index named_fcs selector =>
           let named_fcs := named_fcs ++ [named_fc] in
           let name_to_index :=
             match nf_name named_fc with Some name => <[name := pred (length named_fcs)]> name_to_index | None => name_to_index end in
           set_data h a (ContainerContents name_to_index named_fcs selector)
         | _ => None
         end))
  | _ => None
  end.

Definition bt_field_class_structure_append_member (h : ir) (a : addr) (name : list Z) (member_fc : addr) : option ir :=
  do fc <- get_fc h a;
  BT_ASSERT_PRE (fc_type fc =? BT_FIELD_CLASS_TYPE_STRUCTURE)
    (do r <- create_named_field_class h (Some name) member_fc;
     let '(named_fc, h) := r in
     append_named_field_class_to_container_field_class h a named_fc).

(** The name can be left out from version 1 on. *)
Definition name_is_given (fc : bt_field_class) (name : option (list Z)) : bool :=
  negb (mip_version fc =? 0) || bool_decide (is_Some name).

Definition bt_field_class_variant_without_selector_append_option (h : ir) (a : addr) (name : option (list Z)) (option_fc : addr)
    : option ir :=
  do fc <- get_fc h a;
  BT_ASSERT_PRE (name_is_given fc name)
    (BT_ASSERT_PRE (fc_type fc =? BT_FIELD_CLASS_TYPE_VARIANT_WITHOUT_SELECTOR_FIELD)
      (do r <- create_named_field_class h name option_fc;
       let '(named_fc, h) := r in
       append_named_field_class_to_container_field_class h a named_fc)).

(** [full] is a store of the temporary range set. *)
Fixpoint add_ranges (is_signed : bool) (rs : list bt_integer_range) (full : range_sets) : option range_sets :=
  match rs with
  | [] => Some full
  | range :: rs =>
    do full <- (if is_signed then bt_integer_range_set_signed_add_range dev false full 1%positive (lower_i range) (upper_i range)
                else bt_integer_range_set_unsigned_add_range dev false full 1%positive (lower range) (upper range));
    add_ranges is_signed rs full
  end.
Fixpoint add_option_ranges (h : ir) (is_signed : bool) (opts : list bt_named_field_class) (full : range_sets) : option range_sets :=
  match opts with
  | [] => Some full
  | opt :: opts =>
    do a <- nf_range_set opt;
    do s <- get_ranges h a;
    do full <- add_ranges is_signed (ranges s) full;
    add_option_ranges h is_signed opts full
  end.
Definition ranges_overlap (h : ir) (var_fc_opts : list bt_named_field_class) (range_set : addr) (is_signed : bool) : option bool :=
  do full <- bt_integer_range_set_unsigned_create false ∅ 1%positive;
  do full <- add_option_ranges h is_signed var_fc_opts full;
  do s <- get_ranges h range_set;
  do full <- add_ranges is_signed (ranges s) full;
  if is_signed then bt_integer_range_set_signed_has_overlaps full 1%positive
  else bt_integer_range_set_unsigned_has_overlaps full 1%positive.

Definition append_option_to_variant_with_selector_field_field_class (h : ir) (a : addr) (name : option (list Z))
    (option_fc range_set : addr) (expected_type : Z) : option ir :=
  do fc <- get_fc h a;
  BT_ASSERT_PRE (name_is_given fc name)
    (do s <- get_ranges h range_set;
     BT_ASSERT_PRE (0 <? length (ranges s))%nat
       match fc_data fc with
       | ContainerContents _ named_fcs _ =>
         do has_overlap <- ranges_overlap h named_fcs range_set
           (expected_type =? BT_FIELD_CLASS_TYPE_VARIANT_WITH_SIGNED_INTEGER_SELECTOR_FIELD);
         BT_ASSERT_PRE (negb has_overlap)
           (do r <- create_variant_with_selector_field_option h name option_fc range_set;
            let '(opt, h) := r in
            append_named_field_class_to_container_field_class h a opt)
       | _ => None
       end).
Definition bt_field_class_variant_with_selector_field_integer_unsigned_append_option (h : ir) (a : addr) (name : option (list Z))
    (option_fc range_set : addr) : option ir :=
  do fc <- get_fc h a;
  BT_ASSERT_PRE (fc_type fc =? BT_FIELD_CLASS_TYPE_VARIANT_WITH_UNSIGNED_INTEGER_SELECTOR_FIELD)
    (append_option_to_variant_with_selector_field_field_class h a name option_fc range_set
       BT_FIELD_CLASS_TYPE_VARIANT_WITH_UNSIGNED_INTEGER_SELECTOR_FIELD).
Definition bt_field_class_variant_with_selector_field_integer_signed_append_option (h : ir) (a : addr) (name : option (list Z))
    (option_fc range_set : addr) : option ir :=
  do fc <- get_fc h a;
  BT_ASSERT_PRE (fc_type fc =? BT_FIELD_CLASS_TYPE_VARIANT_WITH_SIGNED_INTEGER_SELECTOR_FIELD)
    (append_option_to_variant_with_selector_field_field_class h a name option_fc range_set
       BT_FIELD_CLASS_TYPE_VARIANT_WITH_SIGNED_INTEGER_SELECTOR_FIELD).

Definition borrow_named_field_class_from_container_field_class_at_index (fc : bt_field_class) (index : Z) : option bt_named_field_class :=
  match fc_data fc with
  | ContainerContents _ named_fcs _ =>
    BT_ASSERT_PRE_DEV dev (index <? Z.of_nat (length named_fcs)) (guard_ub (0 <=? index); named_fcs !! Z.to_nat index)
  | _ => None
  end.
(** [Some None] when there is none with this name. *)
Definition borrow_named_field_class_from_container_field_class_by_name (fc : bt_field_class) (name : list Z)
    : option (option bt_named_field_class) :=
  match fc_data fc with
  | ContainerContents name_to_index named_fcs _ =>
    match name_to_index !! name with
    | None => Some None
    | Some index => do nf <- named_fcs !! index; Some (Some nf)
    end
  | _ => None
  end.

(** ** Options *)

Definition bt_field_class_option_with_selector_field_bool_set_selector_is_reversed (h : ir) (a : addr) (b : bool) : option ir :=
  do fc <- get_fc h a;
  BT_ASSERT_PRE (fc_type fc =? BT_FIELD_CLASS_TYPE_OPTION_WITH_BOOL_SELECTOR_FIELD)
    (BT_ASSERT_PRE_DEV dev (negb (fc_frozen fc))
      match fc_data fc with
      | OptionContents content selector _ range_set => set_data h a (OptionContents content selector b range_set)
      | _ => None
      end).

(** ** Trace classes *)

(** The loop on the members: [mark] is [bt_field_class_make_part_of_trace_class]. *)
Fixpoint mark_all (mark : ir -> addr -> option ir) (l : list bt_named_field_class) (h : ir) : option ir :=
  match l with [] => Some h | nf :: l => do h <- mark h (nf_fc nf); mark_all mark l h end.

Fixpoint bt_field_class_make_part_of_trace_class (fuel : nat) (h : ir) (c_fc : addr) : option ir :=
  match fuel with
  | O => None
  | S fuel =>
    do fc <- get_fc h c_fc;
    BT_ASSERT_PRE (negb (part_of_trace_class fc))
      (let h := set_fc h c_fc (with_part_of fc true) in
       if is_container fc then
         match fc_data fc with
         | ContainerContents _ named_fcs _ => mark_all (bt_field_class_make_part_of_trace_class fuel) named_fcs h
         | _ => None
         end
       else if bt_field_class_type_is (fc_type fc) BT_FIELD_CLASS_TYPE_ARRAY then
         match fc_data fc with
         | StaticArrayContents element_fc _ | DynamicArrayContents element_fc _ =>
           bt_field_class_make_part_of_trace_class fuel h element_fc
         | _ => None
         end
       else Some h)
  end.
End ops.
