(* ===== verification/FieldClassFacts.v ===== *)
(** The structure of field classes ([FieldClass]) whatever the operations: names, labels
    and the ranges of options. *)

From stdpp Require Import list gmap.
From S2P Require Import Prelude Object IntRange IrObj FieldClass.

(** * What the operations keep *)

(** Two field classes but for their reference counts and what is frozen or marked. *)
Definition named_fc_same (x y : bt_named_field_class) : Prop :=
  nf_name x = nf_name y /\ nf_fc x = nf_fc y /\ nf_range_set x = nf_range_set y.
Definition data_same (d d' : fc_contents) : Prop :=
  match d, d' with
  | ContainerContents names nfs sel, ContainerContents names' nfs' sel' =>
    names = names' /\ Forall2 named_fc_same nfs nfs' /\ sel = sel'
  | ContainerContents _ _ _, _ | _, ContainerContents _ _ _ => False
  | _, _ => d = d'
  end.
Definition fc_same (fc fc' : bt_field_class) : Prop :=
  fc_type fc = fc_type fc' /\ mip_version fc = mip_version fc' /\ data_same (fc_data fc) (fc_data fc').
(** A frozen range set does not change. *)
Definition set_kept (s s' : bt_integer_range_set) : Prop := ranges s = ranges s' /\ (frozen s = true -> frozen s' = true).

(** The stores have the same objects. *)
Record ir_same (h h' : ir) : Prop := {
  is_fc a : option_Forall2 fc_same (get_fc h a) (get_fc h' a);
  is_set a : option_Forall2 set_kept (get_ranges h a) (get_ranges h' a)
}.

#[export] Instance named_fc_same_refl : Reflexive named_fc_same.
Proof. by intros x. Qed.
#[export] Instance named_fc_same_trans : Transitive named_fc_same.
Proof. intros x y z (?&?&?) (?&?&?). split_and!; congruence. Qed.
#[export] Instance data_same_refl : Reflexive data_same.
Proof. intros []; simpl; done. Qed.
#[export] Instance data_same_trans : Transitive data_same.
Proof.
  intros [] [] []; simpl; try done; try congruence.
  intros (-> & H1 & ->) (-> & H2 & ->). split; [done|]. split; [|done]. exact (transitivity H1 H2).
Qed.
#[export] Instance fc_same_refl : Reflexive fc_same.
Proof. by intros x. Qed.
#[export] Instance fc_same_trans : Transitive fc_same.
Proof. intros x y z (?&?&?) (?&?&?). split; [congruence|]. split; [congruence|]. by etrans. Qed.
#[export] Instance set_kept_refl : Reflexive set_kept.
Proof. by intros x. Qed.
#[export] Instance set_kept_trans : Transitive set_kept.
Proof. intros x y z [? ?] [? ?]. split; [congruence|tauto]. Qed.
#[export] Instance ir_same_refl : Reflexive ir_same.
Proof. by intros h. Qed.
#[export] Instance ir_same_trans : Transitive ir_same.
Proof.
  intros x y z [H1 H2] [H3 H4]. split; intros a.
  - specialize (H1 a). specialize (H3 a). inversion H1; inversion H3; try congruence; constructor. etrans; [done|congruence].
  - specialize (H2 a). specialize (H4 a). inversion H2; inversion H4; try congruence; constructor. etrans; [done|congruence].
Qed.

Lemma get_fc_Some h a fc : get_fc h a = Some fc <-> h !! a = Some (FieldClassObject fc).
Proof. unfold get_fc. destruct (h !! a) as [[]|]; split; intros [=]; by subst. Qed.
Lemma get_ranges_Some h a s : get_ranges h a = Some s <-> h !! a = Some (RangeSetObject s).
Proof. unfold get_ranges. destruct (h !! a) as [[]|]; split; intros [=]; by subst. Qed.
Lemma get_fc_set h a fc b : get_fc (set_fc h a fc) b = if decide (b = a) then Some fc else get_fc h b.
Proof. unfold get_fc, set_fc. rewrite lookup_insert. repeat case_decide; congruence. Qed.
Lemma get_ranges_set h a fc b : get_ranges (set_fc h a fc) b = if decide (b = a) then None else get_ranges h b.
Proof. unfold get_ranges, set_fc. rewrite lookup_insert. repeat case_decide; congruence. Qed.
Lemma get_ranges_fc h a fc : get_fc h a = Some fc -> get_ranges h a = None.
Proof. intros Ha%get_fc_Some. unfold get_ranges. by rewrite Ha. Qed.

(** Replacing a field class by one that is the same. *)
Lemma ir_same_set h a fc fc' : get_fc h a = Some fc -> fc_same fc fc' -> ir_same h (set_fc h a fc').
Proof.
  intros Ha Hs. split; intros b.
  - rewrite get_fc_set. case_decide; [subst b; rewrite Ha; by constructor|done].
  - rewrite get_ranges_set. case_decide; [subst b; by rewrite (get_ranges_fc _ _ _ Ha)|done].
Qed.

(** Changing the base of an object. *)
Lemma ir_same_base h a o b : h !! a = Some o -> ir_same h (<[a := set_base o b]> h).
Proof.
  intros Ha. split; intros x; unfold get_fc, get_ranges; rewrite lookup_insert; (case_decide; [subst x|done]); rewrite Ha.
  - destruct o; simpl; constructor. by destruct fc.
  - destruct o; simpl; constructor. by destruct s.
Qed.

(** Taking a reference changes bases only. *)
Lemma get_ref_chain_rel (R : relation ir) `{!Transitive R} debug fuel :
  (forall h a o b, h !! a = Some o -> R h (<[a := set_base o b]> h)) -> forall h a h', get_ref_chain debug fuel h a = Some h' -> R h h'.
Proof.
  intros Hbase. induction fuel as [|fuel IH]; intros h a h' Hr; [done|]. cbn [get_ref_chain] in Hr.
  destruct (h !! a) as [t|] eqn:Ha; [|done]. unfold BT_ASSERT_DBG in Hr. destruct (debug && _); [done|].
  destruct (bt_object_get_ref_count debug h a) as [c|]; [|done].
  assert (Hinc : forall h0, bt_object_inc_ref_count debug h0 a = Some h' -> R h0 h').
  { intros h0 Hi. unfold bt_object_inc_ref_count, BT_ASSERT_DBG, store_base in Hi. destruct (h0 !! a) as [t0|] eqn:Ha0; [|done].
    destruct (debug && _); [done|]. destruct (debug && _); [done|]. injection Hi as <-. by apply Hbase. }
  destruct (parent (base t)) as [p|]; [destruct (c =? 0)|].
  - destruct (get_ref_chain debug fuel h p) as [h0|] eqn:Hp; [|done]. etrans; [by eapply IH|by apply Hinc].
  - by apply Hinc.
  - by apply Hinc.
Qed.

Lemma get_ref_same debug h a h' : get_ref debug h a = Some h' -> ir_same h h'.
Proof. apply (get_ref_chain_rel ir_same). apply ir_same_base. Qed.

Lemma freeze_all_same h l l' : freeze_all h l = Some l' -> Forall2 named_fc_same l l'.
Proof.
  revert l'. induction l as [|nf l IH]; intros l' Hf; simpl in Hf; [by injection Hf as <-|].
  unfold _bt_named_field_class_freeze in Hf. destruct (get_fc h (nf_fc nf)) as [fc|]; [|done]. destruct (fc_frozen fc); [|done].
  destruct (freeze_all h l) as [l0|]; [|done]. injection Hf as <-. constructor; [done|by apply IH].
Qed.

Lemma freeze_same dev h a h' : bt_field_class_freeze dev h a = Some h' -> ir_same h h'.
Proof.
  unfold bt_field_class_freeze. destruct dev; [|by intros [= <-]]. unfold _bt_field_class_freeze. intros Hf.
  destruct (get_fc h a) as [fc|] eqn:Ha; [|done].
  assert (Hset : ir_same h (set_fc h a (with_frozen fc true))) by by eapply ir_same_set.
  destruct (fc_data fc) as [| | | |names nfs sel| | |] eqn:Hd; try by injection Hf as <-.
  destruct (freeze_all _ nfs) as [nfs'|] eqn:Hn; [|done]. injection Hf as <-. unfold set_fc at 1 2. rewrite insert_insert_eq.
  apply (ir_same_set h a fc); [done|]. split; [done|]. split; [done|]. simpl. rewrite Hd. simpl. split; [done|]. split; [|done].
  by eapply freeze_all_same.
Qed.

Lemma range_set_freeze_same dev h a h' : bt_integer_range_set_freeze dev h a = Some h' -> ir_same h h'.
Proof.
  unfold bt_integer_range_set_freeze. intros Hf. destruct (get_ranges h a) as [s|] eqn:Ha; [|done]. injection Hf as <-.
  destruct dev; [|done]. pose proof Ha as Ha'%get_ranges_Some.
  split; intros b; unfold get_fc, get_ranges; rewrite lookup_insert; (case_decide; [subst b; rewrite Ha'|done]); [constructor|].
  by constructor.
Qed.

Lemma own_same dev debug h a h' : own_field_class dev debug h a = Some h' -> ir_same h h'.
Proof.
  unfold own_field_class. intros Ho. destruct (get_ref debug h a) as [h1|] eqn:Hr; [|done].
  etrans; [by eapply get_ref_same|by eapply freeze_same].
Qed.

(** * The invariant *)

(** The table of names of a structure or variant has the names of its members. *)
Definition names_ok (name_to_index : gmap (list Z) nat) (nfs : list bt_named_field_class) : Prop :=
  forall name i, name_to_index !! name = Some i <-> exists nf, nfs !! i = Some nf /\ nf_name nf = Some name.

(** The view of the words of a range by a variant's selector. *)
Definition lo (is_signed : bool) : bt_integer_range -> Z := if is_signed then lower_i else lower.
Definition up (is_signed : bool) : bt_integer_range -> Z := if is_signed then upper_i else upper.

(** The value [v] of the selector selects the option. *)
Definition selects (h : ir) (is_signed : bool) (nf : bt_named_field_class) (v : Z) : Prop :=
  exists a s, nf_range_set nf = Some a /\ get_ranges h a = Some s /\ contains (lo is_signed) (up is_signed) (ranges s) v.

Record options_ok (h : ir) (is_signed : bool) (nfs : list bt_named_field_class) : Prop := {
  oo_sets i nf : nfs !! i = Some nf -> exists a s, nf_range_set nf = Some a /\ get_ranges h a = Some s /\ frozen s = true;
  oo_disjoint i j nf nf' v : nfs !! i = Some nf -> nfs !! j = Some nf' -> selects h is_signed nf v -> selects h is_signed nf' v -> i = j
}.

Definition data_ok (h : ir) (type : Z) (d : fc_contents) : Prop :=
  match d with
  | ContainerContents names nfs _ =>
    names_ok names nfs /\
    (type = BT_FIELD_CLASS_TYPE_STRUCTURE -> Forall (fun nf => is_Some (nf_name nf)) nfs) /\
    (type = BT_FIELD_CLASS_TYPE_VARIANT_WITH_UNSIGNED_INTEGER_SELECTOR_FIELD -> options_ok h false nfs) /\
    (type = BT_FIELD_CLASS_TYPE_VARIANT_WITH_SIGNED_INTEGER_SELECTOR_FIELD -> options_ok h true nfs)
  | BitArrayContents length flags => 0 < length <= 64 /\ NoDup (flag_label <$> flags)
  | EnumerationContents _ _ _ mappings => NoDup (mapping_label <$> mappings)
  | _ => True
  end.
Definition ir_ok (h : ir) : Prop := forall a fc, get_fc h a = Some fc -> data_ok h (fc_type fc) (fc_data fc).

(** The range sets that are frozen in [h] are in [h'], with the same ranges. *)
Definition frozen_kept (h h' : ir) : Prop :=
  forall a s, get_ranges h a = Some s -> frozen s = true ->
    exists s', get_ranges h' a = Some s' /\ frozen s' = true /\ ranges s' = ranges s.

Lemma ir_same_frozen h h' : ir_same h h' -> frozen_kept h h'.
Proof.
  intros [_ Hs] a s Ha Hf. specialize (Hs a). rewrite Ha in Hs. inversion Hs as [? s' [Hr Hfr] E1 E2|]. subst.
  exists s'. split; [done|]. split; [tauto|congruence].
Qed.

Lemma options_ok_mono h h' b nfs nfs' : options_ok h b nfs -> frozen_kept h h' -> Forall2 named_fc_same nfs nfs' -> options_ok h' b nfs'.
Proof.
  intros [Hs Hd] Hk Hn.
  assert (Hback : forall i nf', nfs' !! i = Some nf' -> exists nf, nfs !! i = Some nf /\ nf_range_set nf' = nf_range_set nf).
  { intros i nf' Hi. destruct (Forall2_lookup_r _ _ _ _ _ Hn Hi) as (nf & Hnf & _ & _ & Hr). by exists nf. }
  assert (Hsel : forall i nf nf' v, nfs !! i = Some nf -> nf_range_set nf' = nf_range_set nf -> selects h' b nf' v -> selects h b nf v).
  { intros i nf nf' v Hi Hr (a & s & Ha & Hget & Hv). destruct (Hs i nf Hi) as (a0 & s0 & Ha0 & Hget0 & Hf).
    destruct (Hk a0 s0 Hget0 Hf) as (s1 & Hget1 & _ & Hr1). assert (a0 = a) as -> by congruence. exists a, s0.
    split; [done|]. split; [done|]. rewrite <- Hr1. by assert (s1 = s) as -> by congruence. }
  split.
  - intros i nf' Hi. destruct (Hback i nf' Hi) as (nf & Hnf & Hr). destruct (Hs i nf Hnf) as (a & s & Ha & Hget & Hf).
    destruct (Hk a s Hget Hf) as (s' & Hget' & Hf' & _). exists a, s'. by rewrite Hr.
  - intros i j x y v Hi Hj Hx Hy. destruct (Hback i x Hi) as (x0 & Hx0 & ?). destruct (Hback j y Hj) as (y0 & Hy0 & ?).
    apply (Hd i j x0 y0 v); [done|done|by eapply Hsel|by eapply Hsel].
Qed.

Lemma names_ok_same names nfs nfs' : names_ok names nfs -> Forall2 named_fc_same nfs nfs' -> names_ok names nfs'.
Proof.
  intros Hn Hf name i. rewrite (Hn name i). split; intros (nf & Hi & Hnm).
  - destruct (Forall2_lookup_l _ _ _ _ _ Hf Hi) as (nf' & Hi' & Heq & _). exists nf'. by rewrite <- Heq.
  - destruct (Forall2_lookup_r _ _ _ _ _ Hf Hi) as (nf' & Hi' & Heq & _). exists nf'. by rewrite Heq.
Qed.

Lemma data_ok_mono h h' type d d' : data_ok h type d -> frozen_kept h h' -> data_same d d' -> data_ok h' type d'.
Proof.
  intros Hd Hk Hs. destruct d, d'; simpl in Hs; try done; try (simplify_eq; exact Hd).
  destruct Hs as (-> & Hf & ->). destruct Hd as (Hn & Hst & Hu & Hsg). split; [by eapply names_ok_same|]. split; [|split].
  - intros Ht. specialize (Hst Ht). rewrite Forall_lookup in Hst |- *. intros i nf' Hi.
    destruct (Forall2_lookup_r _ _ _ _ _ Hf Hi) as (nf & Hnf & Heq & _). rewrite <- Heq. by eapply Hst.
  - intros Ht. eapply options_ok_mono; [by apply Hu|done|done].
  - intros Ht. eapply options_ok_mono; [by apply Hsg|done|done].
Qed.

Lemma ir_ok_same h h' : ir_ok h -> ir_same h h' -> ir_ok h'.
Proof.
  intros Hok Hs a fc' Ha. pose proof (is_fc _ _ Hs a) as Hf. rewrite Ha in Hf. inversion Hf as [fc ? (Ht & _ & Hd) E1 E2|]. subst.
  rewrite <- Ht. eapply data_ok_mono; [by apply (Hok a fc)|by apply ir_same_frozen|done].
Qed.

Lemma frozen_kept_set_fc h a fc fc0 : get_fc h a = Some fc0 \/ h !! a = None -> frozen_kept h (set_fc h a fc).
Proof.
  intros Ha b s Hb Hf. exists s. rewrite get_ranges_set. rewrite decide_False; [done|]. intros ->.
  apply get_ranges_Some in Hb. destruct Ha as [Ha%get_fc_Some|Ha]; congruence.
Qed.

(** A field class that is added or replaced. *)
Lemma ir_ok_set h a fc : ir_ok h -> (h !! a = None \/ is_Some (get_fc h a)) -> data_ok (set_fc h a fc) (fc_type fc) (fc_data fc) ->
  ir_ok (set_fc h a fc).
Proof.
  intros Hok Ha Hd b fcb. rewrite get_fc_set. case_decide; [by intros [= <-]|]. intros Hb.
  eapply data_ok_mono; [by apply (Hok b fcb)| |done]. destruct Ha as [Ha|[fc0 Ha]]; eapply frozen_kept_set_fc; [by right|by left].
  Unshelve. exact fc.
Qed.

Lemma init_ok h new type mip d h' : ir_ok h -> init_field_class h new type mip d = Some h' ->
  (forall h', data_ok h' type d) -> ir_ok h' /\ get_fc h' new = Some (BtFieldClass (bt_object_init_shared (ReleaseFunc destroy_field_class_func)) type false false mip d).
Proof.
  unfold init_field_class. intros Hok Hi Hd. case_bool_decide as Hn; [|done]. injection Hi as <-. split.
  - apply ir_ok_set; [done|by left|apply Hd].
  - by rewrite get_fc_set, decide_True.
Qed.

Lemma set_data_ok h a d h' : ir_ok h -> set_data h a d = Some h' ->
  (forall fc, get_fc h a = Some fc -> data_ok h (fc_type fc) d) -> ir_ok h'.
Proof.
  unfold set_data. intros Hok Hs Hd. destruct (get_fc h a) as [fc|] eqn:Ha; [|done]. injection Hs as <-.
  apply ir_ok_set; [done|right; by rewrite Ha|]. eapply data_ok_mono; [by apply (Hd fc)|eapply frozen_kept_set_fc; by left|done].
Qed.

(** * Appending members and options *)

Lemma names_ok_snoc names nfs nf : names_ok names nfs -> (forall name, nf_name nf = Some name -> names !! name = None) ->
  names_ok (match nf_name nf with Some name => <[name := pred (length (nfs ++ [nf]))]> names | None => names end) (nfs ++ [nf]).
Proof.
  intros Hn Hnew name i. rewrite length_app, Nat.add_1_r. simpl pred.
  assert (Hlen : forall j, names !! name = Some j -> (j < length nfs)%nat).
  { intros j (x & Hx & _)%Hn. by eapply lookup_lt_Some. }
  assert (Hiff : (exists x, (nfs ++ [nf]) !! i = Some x /\ nf_name x = Some name) <->
    names !! name = Some i \/ (i = length nfs /\ nf_name nf = Some name)).
  { rewrite (Hn name i). split.
    - intros (x & Hx & Hnm). apply lookup_app_Some in Hx as [Hx|[Hle Hx]]; [left; by exists x|].
      apply list_lookup_singleton_Some in Hx as [Hi <-]. right. split; [lia|done].
    - intros [(x & Hx & Hnm)|[-> Hnm]]; [exists x|exists nf]; (split; [|done]); [by apply lookup_app_l_Some|].
      by rewrite lookup_app_r, Nat.sub_diag. }
  rewrite Hiff. destruct (nf_name nf) as [n|] eqn:Hnf.
  - specialize (Hnew n eq_refl). rewrite lookup_insert. case_decide.
    + subst name. rewrite Hnew. split; [intros [= <-]; by right|by intros [[=]|[-> _]]].
    + split; [by left|by intros [?|[_ [=]]]].
  - split; [by left|by intros [?|[_ [=]]]].
Qed.

Lemma fc_append_ok dev h a nf h' : ir_ok h ->
  append_named_field_class_to_container_field_class dev h a nf = Some h' ->
  (forall fc names nfs sel, get_fc h a = Some fc -> fc_data fc = ContainerContents names nfs sel ->
     (fc_type fc = BT_FIELD_CLASS_TYPE_STRUCTURE -> is_Some (nf_name nf)) /\
     (fc_type fc = BT_FIELD_CLASS_TYPE_VARIANT_WITH_UNSIGNED_INTEGER_SELECTOR_FIELD -> options_ok h false (nfs ++ [nf])) /\
     (fc_type fc = BT_FIELD_CLASS_TYPE_VARIANT_WITH_SIGNED_INTEGER_SELECTOR_FIELD -> options_ok h true (nfs ++ [nf]))) ->
  ir_ok h'.
Proof.
  unfold append_named_field_class_to_container_field_class, BT_ASSERT_PRE_DEV, BT_ASSERT_PRE. intros Hok Ha Hcond.
  destruct (get_fc h a) as [fc|] eqn:Hfc; [|done]. pose proof (Hok a fc Hfc) as Hd.
  destruct (fc_data fc) as [| | | |names nfs sel| | |] eqn:Hdata; try done. destruct (dev && _); [done|].
  destruct (match nf_name nf with Some name => bool_decide (names !! name = None) | None => true end) eqn:Hnew; [|done].
  destruct (bt_field_class_freeze dev h (nf_fc nf)) as [h1|] eqn:Hfr; [|done]. pose proof (freeze_same _ _ _ _ Hfr) as Hs.
  pose proof (is_fc _ _ Hs a) as H1. rewrite Hfc in H1. inversion H1 as [? fc1 (Ht & _ & Hds) E1 E2|]. subst. symmetry in E2.
  rewrite E2 in Ha. destruct (Hcond fc names nfs sel eq_refl Hdata) as (Hc1 & Hc2 & Hc3).
  rewrite Hdata in Hds. destruct (fc_data fc1) as [| | | |names1 nfs1 sel1| | |]; try done. destruct Hds as (<- & Hf & <-).
  eapply set_data_ok; [by eapply ir_ok_same|exact Ha|]. intros fc2 Hfc2. assert (fc2 = fc1) as -> by congruence. rewrite <- Ht.
  eapply (data_ok_mono h h1 (fc_type fc) (ContainerContents _ (nfs ++ [nf]) sel)); [|by apply ir_same_frozen|].
  - destruct Hd as (Hn & Hst & _). split; [apply names_ok_snoc; [done|]|].
    + intros name Hname. rewrite Hname in Hnew. by apply bool_decide_eq_true in Hnew.
    + split; [|done]. intros Hx. apply Forall_app. split; [by apply Hst|]. by apply Forall_singleton, Hc1.
  - simpl. rewrite !length_app, (Forall2_length _ _ _ Hf). split; [done|]. split; [|done]. apply Forall2_app; [done|]. by repeat constructor.
Qed.

(** * Ranges of options *)

(** The words of a range that [add_ranges] copies. *)
Definition copy_range (b : bool) (r : bt_integer_range) : bt_integer_range :=
  if b then BtIntegerRange (wrapu 64 (lower_i r)) (wrapu 64 (upper_i r)) else r.

Lemma wraps64_i64 z : is_i64 (wraps 64 z).
Proof. pose proof (wraps_range 64 z ltac:(lia)). unfold is_i64, INT64_MIN, INT64_MAX. lia. Qed.

Lemma copy_range_bounds b r : lo b (copy_range b r) = lo b r /\ up b (copy_range b r) = up b r.
Proof.
  destruct b; [|done]. unfold copy_range, lo, up, lower_i, upper_i. simpl. by rewrite !wraps_wrapu by apply wraps64_i64.
Qed.

Lemma contains_copy b rs v : contains (lo b) (up b) (copy_range b <$> rs) v <-> contains (lo b) (up b) rs v.
Proof.
  unfold contains. rewrite !Exists_exists. setoid_rewrite list_elem_of_fmap. split.
  - intros (x & (r & -> & Hr) & Hv). destruct (copy_range_bounds b r) as [E1 E2]. rewrite E1, E2 in Hv. by exists r.
  - intros (r & Hr & Hv). exists (copy_range b r). destruct (copy_range_bounds b r) as [-> ->]. split; [by exists r|done].
Qed.

Lemma contains_app l u rs rs' v : contains l u (rs ++ rs') v <-> contains l u rs v \/ contains l u rs' v.
Proof. apply Exists_app. Qed.

Lemma overlapping_app l u rs rs' v : contains l u rs v -> contains l u rs' v -> overlapping l u (rs ++ rs').
Proof.
  unfold contains. rewrite !Exists_exists. intros (ri & Hi & Hvi) (rj & Hj & Hvj).
  apply list_elem_of_lookup in Hi as (i & Hi). apply list_elem_of_lookup in Hj as (j & Hj).
  exists i, (length rs + j)%nat, ri, rj, v. apply lookup_lt_Some in Hi as Hlt. split; [lia|].
  split; [by apply lookup_app_l_Some|]. rewrite lookup_app_r by lia. split; [|done]. by replace (_ + j - _)%nat with j by lia.
Qed.

(** The set [full] has the ranges [l]. *)
Definition full_has (b : bool) (full : range_sets) (l : list bt_integer_range) : Prop :=
  exists s, full !! 1%positive = Some s /\ frozen s = false /\ ranges s = copy_range b <$> l /\ ordered (lo b) (up b) (ranges s).

Lemma add_one_ok dev b full l r full' : full_has b full l ->
  (if b then bt_integer_range_set_signed_add_range dev false full 1%positive (lower_i r) (upper_i r)
   else bt_integer_range_set_unsigned_add_range dev false full 1%positive (lower r) (upper r)) = Some full' ->
  full_has b full' (l ++ [r]).
Proof.
  intros (s & Hs & Hf & Hr & Ho) Ha.
  assert (Hadd : add_range_to_range_set dev full 1%positive (lower (copy_range b r)) (upper (copy_range b r)) = Some full' /\ lo b r <= up b r).
  { destruct b; unfold bt_integer_range_set_signed_add_range, bt_integer_range_set_unsigned_add_range, BT_ASSERT_PRE in Ha; simpl in Ha;
      (destruct (_ <=? _) eqn:Hle in Ha; [|done]); apply Z.leb_le in Hle; by split. }
  destruct Hadd as [Hadd Hle]. rewrite (add_range_ok _ _ _ _ _ _ Hs) in Hadd by (by rewrite Hf, andb_false_r). injection Hadd as <-.
  eexists. split; [apply lookup_insert_eq|]. split; [done|]. simpl. split.
  - rewrite fmap_app, Hr. simpl. f_equal. by destruct (copy_range b r).
  - apply ordered_snoc; [done|]. destruct (copy_range_bounds b r) as [E1 E2]. destruct (copy_range b r). simpl in *. by rewrite E1, E2.
Qed.

Lemma add_ranges_ok dev b : forall rs full l full', full_has b full l -> add_ranges dev b rs full = Some full' -> full_has b full' (l ++ rs).
Proof.
  induction rs as [|r rs IH]; intros full l full' Hf Ha; simpl in Ha; [injection Ha as <-; by rewrite app_nil_r|].
  destruct (if b then _ else _) as [full1|] eqn:Hone in Ha; [|done]. rewrite cons_middle, app_assoc. eapply IH; [|exact Ha].
  by eapply add_one_ok.
Qed.

Lemma add_option_ranges_ok dev h b : forall opts full l full', full_has b full l -> add_option_ranges dev h b opts full = Some full' ->
  exists l', full_has b full' (l ++ l') /\ forall nf v, nf ∈ opts -> selects h b nf v -> contains (lo b) (up b) l' v.
Proof.
  induction opts as [|nf opts IH]; intros full l full' Hf Ha; cbn [add_option_ranges] in Ha.
  { injection Ha as <-. exists []. rewrite app_nil_r. split; [done|]. intros nf v []%elem_of_nil. }
  destruct (nf_range_set nf) as [a|] eqn:Hnf; [|done]. destruct (get_ranges h a) as [s|] eqn:Hs; [|done].
  destruct (add_ranges dev b (ranges s) full) as [full1|] eqn:H1; [|done].
  destruct (IH full1 (l ++ ranges s) full') as (l' & Hl' & Hsel); [by eapply add_ranges_ok|done|].
  exists (ranges s ++ l'). rewrite app_assoc. split; [done|]. intros x v Hx Hv. apply contains_app. apply elem_of_cons in Hx as [->|Hx].
  - left. destruct Hv as (a' & s' & E1 & E2 & Hv). rewrite E1 in Hnf. injection Hnf as ->. rewrite E2 in Hs. by injection Hs as ->.
  - right. by eapply Hsel.
Qed.

Lemma has_overlaps_ok (b : bool) (full : range_sets) s : full !! 1%positive = Some s ->
  (if b then bt_integer_range_set_signed_has_overlaps full 1%positive else bt_integer_range_set_unsigned_has_overlaps full 1%positive) =
  Some (overlaps_i (lo b) (up b) (ranges s) 0 (ranges s)).
Proof.
  intros Hs. destruct b.
  - unfold bt_integer_range_set_signed_has_overlaps. by setoid_rewrite Hs.
  - unfold bt_integer_range_set_unsigned_has_overlaps. by setoid_rewrite Hs.
Qed.

(** No overlap: the new ranges have no value of an option. *)
Lemma ranges_overlap_false dev h b opts a s : ranges_overlap dev h opts a b = Some false -> get_ranges h a = Some s ->
  forall nf v, nf ∈ opts -> selects h b nf v -> contains (lo b) (up b) (ranges s) v -> False.
Proof.
  unfold ranges_overlap. intros Ho Hs nf v Hnf Hsel Hv. cbv [bt_integer_range_set_unsigned_create BT_ASSERT_PRE create_range_set negb] in Ho.
  rewrite bool_decide_eq_true_2 in Ho by done. match type of Ho with context [add_option_ranges _ _ _ _ ?f] => set (full := f) in Ho end.
  assert (H0 : full_has b full []).
  { eexists. split; [apply lookup_insert_eq|]. split; [done|]. split; [done|]. by apply Forall_nil_2. }
  destruct (add_option_ranges dev h b opts full) as [full1|] eqn:H1; [|done]. rewrite Hs in Ho.
  destruct (add_option_ranges_ok _ _ _ _ _ _ _ H0 H1) as (l' & Hl' & Hc). simpl in Hl'.
  destruct (add_ranges dev b (ranges s) full1) as [full2|] eqn:H2; [|done].
  destruct (add_ranges_ok _ _ _ _ _ _ Hl' H2) as (s2 & Hs2 & _ & Hr2 & Ho2).
  assert (Hcheck : overlaps_i (lo b) (up b) (ranges s2) 0 (ranges s2) = false).
  { rewrite (has_overlaps_ok b full2 s2 Hs2) in Ho. by injection Ho. }
  apply not_true_iff_false in Hcheck. apply Hcheck, overlaps_i_correct; [done|]. rewrite Hr2, fmap_app.
  apply (overlapping_app _ _ _ _ v); apply contains_copy; [by eapply Hc|done].
Qed.

(** * The operations *)

Section operations.
Context (debug : bool).

Lemma own_ok dev h a h' : ir_ok h -> own_field_class dev debug h a = Some h' -> ir_ok h'.
Proof. intros Hok Ho. eapply ir_ok_same; [done|by eapply own_same]. Qed.
Lemma fc_get_ref_ok h a h' : ir_ok h -> get_ref debug h a = Some h' -> ir_ok h'.
Proof. intros Hok Ho. eapply ir_ok_same; [done|by eapply get_ref_same]. Qed.
Lemma fc_freeze_ok dev h a h' : ir_ok h -> bt_field_class_freeze dev h a = Some h' -> ir_ok h'.
Proof. intros Hok Ho. eapply ir_ok_same; [done|by eapply freeze_same]. Qed.
Lemma range_set_freeze_ok dev h a h' : ir_ok h -> bt_integer_range_set_freeze dev h a = Some h' -> ir_ok h'.
Proof. intros Hok Ho. eapply ir_ok_same; [done|by eapply range_set_freeze_same]. Qed.
Lemma init_ok' h new type mip d h' : ir_ok h -> init_field_class h new type mip d = Some h' -> (forall h', data_ok h' type d) -> ir_ok h'.
Proof. intros Hok Hi Hd. by apply (init_ok h new type mip d h'). Qed.
End operations.
