(* ===== verification/FieldClassOps.v ===== *)
(** What a user can do with field classes ([FieldClass]) as a step relation, and what
    every reachable state ensures. *)

From stdpp Require Import list gmap.
From S2P Require Import Prelude Object IntRange IrObj FieldClass FieldClassFacts.

(** * Steps *)

(** A call to a function of the library that succeeds, with a library built in developer
    mode.  Putting references is not a step. *)
Section steps.
Context (debug : bool).

Inductive ir_step (h : ir) : ir -> Prop :=
| step_bool new mip h' : bt_field_class_bool_create h new mip = Some h' -> ir_step h h'
| step_string new mip h' : bt_field_class_string_create h new mip = Some h' -> ir_step h h'
| step_real new mip type h' : create_real_field_class h new mip type = Some h' ->
    type ∈ [BT_FIELD_CLASS_TYPE_SINGLE_PRECISION_REAL; BT_FIELD_CLASS_TYPE_DOUBLE_PRECISION_REAL] -> ir_step h h'
| step_bit_array new mip length h' : bt_field_class_bit_array_create h new mip length = Some h' -> ir_step h h'
| step_unsigned new mip h' : bt_field_class_integer_unsigned_create h new mip = Some h' -> ir_step h h'
| step_signed new mip h' : bt_field_class_integer_signed_create h new mip = Some h' -> ir_step h h'
| step_unsigned_enumeration new mip h' : bt_field_class_enumeration_unsigned_create h new mip = Some h' -> ir_step h h'
| step_signed_enumeration new mip h' : bt_field_class_enumeration_signed_create h new mip = Some h' -> ir_step h h'
| step_structure new mip h' : bt_field_class_structure_create h new mip = Some h' -> ir_step h h'
| step_static_array new mip element length h' :
    bt_field_class_array_static_create true debug h new mip element length = Some h' -> ir_step h h'
| step_dynamic_array new mip element length_fc h' :
    bt_field_class_array_dynamic_create true debug h new mip element length_fc = Some h' -> ir_step h h'
| step_dynamic_array_no_length new mip element h' :
    bt_field_class_array_dynamic_without_length_field_location_create true debug h new mip element = Some h' -> ir_step h h'
| step_dynamic_array_location new mip element location h' :
    bt_field_class_array_dynamic_with_length_field_location_create true debug h new mip element location = Some h' -> ir_step h h'
| step_option new mip content h' :
    bt_field_class_option_without_selector_create true debug h new mip content = Some h' -> ir_step h h'
| step_option_1 new mip content h' :
    bt_field_class_option_without_selector_field_location_create true debug h new mip content = Some h' -> ir_step h h'
| step_option_bool new mip content selector h' :
    bt_field_class_option_with_selector_field_bool_create true debug h new mip content selector = Some h' -> ir_step h h'
| step_option_bool_location new mip content location h' :
    bt_field_class_option_with_selector_field_location_bool_create true debug h new mip content location = Some h' -> ir_step h h'
| step_option_unsigned new mip content selector rs h' :
    bt_field_class_option_with_selector_field_integer_unsigned_create true debug h new mip content selector rs = Some h' -> ir_step h h'
| step_option_signed new mip content selector rs h' :
    bt_field_class_option_with_selector_field_integer_signed_create true debug h new mip content selector rs = Some h' -> ir_step h h'
| step_option_unsigned_location new mip content location rs h' :
    bt_field_class_option_with_selector_field_location_integer_unsigned_create true debug h new mip content location rs = Some h' ->
    ir_step h h'
| step_option_signed_location new mip content location rs h' :
    bt_field_class_option_with_selector_field_location_integer_signed_create true debug h new mip content location rs = Some h' ->
    ir_step h h'
| step_variant new mip selector h' : bt_field_class_variant_create true debug h new mip selector = Some h' -> ir_step h h'
| step_variant_1 new mip h' :
    bt_field_class_variant_without_selector_field_location_create true debug h new mip = Some h' -> ir_step h h'
| step_variant_unsigned new mip location h' :
    bt_field_class_variant_with_selector_field_location_integer_unsigned_create true debug h new mip location = Some h' -> ir_step h h'
| step_variant_signed new mip location h' :
    bt_field_class_variant_with_selector_field_location_integer_signed_create true debug h new mip location = Some h' -> ir_step h h'
| step_add_flag a label rs h' : bt_field_class_bit_array_add_flag debug h a label rs = Some h' -> ir_step h h'
| step_range a size h' : bt_field_class_integer_set_field_value_range true h a size = Some h' -> ir_step h h'
| step_hints a hints h' : bt_field_class_integer_set_field_value_hints true h a hints = Some h' -> ir_step h h'
| step_base a base h' : bt_field_class_integer_set_preferred_display_base true h a base = Some h' -> ir_step h h'
| step_unsigned_mapping a label rs h' : bt_field_class_enumeration_unsigned_add_mapping debug h a label rs = Some h' -> ir_step h h'
| step_signed_mapping a label rs h' : bt_field_class_enumeration_signed_add_mapping debug h a label rs = Some h' -> ir_step h h'
| step_member a name fc h' : bt_field_class_structure_append_member true debug h a name fc = Some h' -> ir_step h h'
| step_option_of_variant a name fc h' :
    bt_field_class_variant_without_selector_append_option true debug h a name fc = Some h' -> ir_step h h'
| step_unsigned_option a name fc rs h' :
    bt_field_class_variant_with_selector_field_integer_unsigned_append_option true debug h a name fc rs = Some h' -> ir_step h h'
| step_signed_option a name fc rs h' :
    bt_field_class_variant_with_selector_field_integer_signed_append_option true debug h a name fc rs = Some h' -> ir_step h h'
| step_reversed a b h' :
    bt_field_class_option_with_selector_field_bool_set_selector_is_reversed true h a b = Some h' -> ir_step h h'
| step_trace_class fuel a h' : bt_field_class_make_part_of_trace_class fuel h a = Some h' -> ir_step h h'
| step_get_ref a h' : get_ref debug h a = Some h' -> ir_step h h'
| step_location new : h !! new = None ->
    ir_step h (<[new := LocationObject (bt_object_init_shared (ReleaseFunc destroy_field_location_func))]> h)
| step_range_set new sets s : h !! new = None -> create_range_set ∅ new = Some sets -> sets !! new = Some s ->
    ir_step h (<[new := RangeSetObject s]> h)
| step_add_range (is_signed : bool) a s lower upper sets s' : get_ranges h a = Some s ->
    (if is_signed then bt_integer_range_set_signed_add_range true false {[a := s]} a lower upper
     else bt_integer_range_set_unsigned_add_range true false {[a := s]} a lower upper) = Some sets ->
    sets !! a = Some s' -> ir_step h (<[a := RangeSetObject s']> h).
End steps.

(** * Steps keep the invariant *)

Lemma data_ok_empty h type sel : data_ok h type (ContainerContents ∅ [] sel).
Proof.
  split; [|split; [intros _; by apply Forall_nil_2|]].
  - intros name i. rewrite lookup_empty. split; [done|]. intros (nf & Hnf & _). by rewrite lookup_nil in Hnf.
  - split; intros _; (split; [intros i nf Hi|intros i j nf nf' v Hi]; by rewrite lookup_nil in Hi).
Qed.

(** Split what a successful call computes. *)
Ltac split_call H :=
  unfold BT_ASSERT_PRE, BT_ASSERT_PRE_DEV in H;
  repeat match type of H with
    | context [match ?x with _ => _ end] => let E := fresh "E" in destruct x eqn:E; try discriminate H
    end.

(** What [set_data_ok] and [init_ok'] ask of contents without names. *)
Definition plain (d : fc_contents) : Prop :=
  match d with ContainerContents _ _ _ | BitArrayContents _ _ | EnumerationContents _ _ _ _ => False | _ => True end.
Lemma plain_ok h type d : plain d -> data_ok h type d.
Proof. by destruct d. Qed.

Lemma object_get_ref_ok debug h a h' : ir_ok h -> bt_object_get_ref debug h (Some a) = Some h' -> ir_ok h'.
Proof.
  unfold bt_object_get_ref, BT_ASSERT_DBG. intros Hok H. split_call H. eapply fc_get_ref_ok; [exact Hok|exact H].
Qed.

(** The invariant before the call that made the store of the goal. *)
Ltac call_ok :=
  repeat match goal with
    | |- ir_ok ?h => assumption
    | H : own_field_class _ _ _ _ = Some ?h |- ir_ok ?h => eapply own_ok; [|exact H]
    | H : get_ref _ _ _ = Some ?h |- ir_ok ?h => eapply fc_get_ref_ok; [|exact H]
    | H : bt_object_get_ref _ _ (Some _) = Some ?h |- ir_ok ?h => eapply object_get_ref_ok; [|exact H]
    | H : bt_field_class_freeze _ _ _ = Some ?h |- ir_ok ?h => eapply fc_freeze_ok; [|exact H]
    | H : bt_integer_range_set_freeze _ _ _ = Some ?h |- ir_ok ?h => eapply range_set_freeze_ok; [|exact H]
    | H : init_field_class _ _ _ _ _ = Some ?h |- ir_ok ?h => eapply init_ok'; [|exact H|intros; apply plain_ok; exact I]
    | H : init_field_class _ _ _ _ _ = Some ?h |- ir_ok ?h => eapply init_ok'; [|exact H|intros; apply data_ok_empty]
    | H : set_data _ _ _ = Some ?h |- ir_ok ?h => eapply set_data_ok; [|exact H|intros; apply plain_ok; exact I]
    end.

Section operations.
Context (debug : bool).

Lemma create_option_ok h new mip type content selector rs h' :
  create_option_field_class true debug h new mip type content selector rs = Some h' -> ir_ok h -> ir_ok h'.
Proof. unfold create_option_field_class. intros H Hok. split_call H; simplify_eq; call_ok. Qed.

Lemma create_option_with_ranges_ok h new mip type content selector rs h' :
  create_option_with_ranges true debug h new mip type content selector rs = Some h' -> ir_ok h -> ir_ok h'.
Proof.
  unfold create_option_with_ranges. intros H Hok. split_call H. call_ok. by eapply create_option_ok.
Qed.

Lemma create_dynamic_array_ok h new mip element type h' :
  create_dynamic_array_field_class true debug h new mip element type = Some h' -> ir_ok h -> ir_ok h'.
Proof. unfold create_dynamic_array_field_class. intros H Hok. split_call H. call_ok. Qed.

Lemma create_variant_ok h new mip type selector h' :
  create_variant_field_class true debug h new mip type selector = Some h' -> ir_ok h -> ir_ok h'.
Proof. unfold create_variant_field_class. intros H Hok. split_call H; simplify_eq; call_ok. Qed.

Lemma bit_array_create_ok h new mip n h' : bt_field_class_bit_array_create h new mip n = Some h' -> ir_ok h -> ir_ok h'.
Proof.
  unfold bt_field_class_bit_array_create. intros H Hok. split_call H. eapply init_ok'; [exact Hok|exact H|].
  intros h0. split; [b2p; lia|constructor].
Qed.

Lemma enumeration_create_ok h new mip type h' : create_enumeration_field_class h new mip type = Some h' -> ir_ok h -> ir_ok h'.
Proof. intros H Hok. eapply init_ok'; [exact Hok|exact H|]. intros h0. constructor. Qed.

Lemma borrow_flag_None flags label : borrow_flag flags label = None -> label ∉ flag_label <$> flags.
Proof.
  induction flags as [|f flags IH]; simpl; [by intros _ ?%elem_of_nil|]. case_bool_decide; [done|].
  intros Hb [Heq|Hin]%elem_of_cons; [congruence|by apply IH].
Qed.
Lemma has_mapping_false mappings label :
  enumeration_field_class_has_mapping_with_label mappings label = false -> label ∉ mapping_label <$> mappings.
Proof.
  induction mappings as [|m mappings IH]; simpl; [by intros _ ?%elem_of_nil|]. case_bool_decide; [done|].
  intros Hb [Heq|Hin]%elem_of_cons; [congruence|by apply IH].
Qed.
Lemma NoDup_snoc {A B} (f : A -> B) l x : NoDup (f <$> l) -> f x ∉ f <$> l -> NoDup (f <$> (l ++ [x])).
Proof.
  intros Hn Hx. rewrite fmap_app. apply NoDup_app. split; [done|]. split; [|by apply NoDup_singleton].
  intros y Hy Hs. simpl in Hs. apply list_elem_of_singleton in Hs as ->. done.
Qed.

Lemma ir_same_back h h' a fc' : ir_same h h' -> get_fc h' a = Some fc' -> exists fc, get_fc h a = Some fc /\ fc_same fc fc'.
Proof. intros Hs Ha. pose proof (is_fc _ _ Hs a) as Hf. rewrite Ha in Hf. inversion Hf as [fc ? Hx E|]; subst. by exists fc. Qed.

Lemma add_flag_ok h a label rs h' : bt_field_class_bit_array_add_flag debug h a label rs = Some h' -> ir_ok h -> ir_ok h'.
Proof.
  unfold bt_field_class_bit_array_add_flag, BT_ASSERT_PRE. intros H Hok. destruct (get_fc h a) as [fc|] eqn:Hfc; [|done].
  pose proof (Hok a fc Hfc) as Hd. destruct (1 <=? mip_version fc), (fc_type fc =? BT_FIELD_CLASS_TYPE_BIT_ARRAY); try done. destruct (fc_data fc) as [|n flags| | | | | |] eqn:Hdata; try done.
  destruct (borrow_flag flags label) eqn:Hlabel; [done|]. destruct (get_ranges h rs) as [s|]; [|done].
  simpl in H. destruct (forallb _ _); [|done]. destruct (get_ref debug h rs) as [h1|] eqn:Hr; [|done].
  eapply set_data_ok; [|exact H|]; [call_ok|]. intros fc1 _.
  destruct Hd as [Hl Hn]. split; [done|]. apply NoDup_snoc; [done|by apply borrow_flag_None].
Qed.

Lemma add_mapping_ok h a label rs h' : add_mapping_to_enumeration_field_class debug h a label rs = Some h' -> ir_ok h -> ir_ok h'.
Proof.
  unfold add_mapping_to_enumeration_field_class, BT_ASSERT_PRE. intros H Hok. destruct (get_fc h a) as [fc|] eqn:Hfc; [|done].
  pose proof (Hok a fc Hfc) as Hd. destruct (fc_data fc) as [| | |range hints base mappings| | | |] eqn:Hdata; try done.
  destruct (enumeration_field_class_has_mapping_with_label mappings label) eqn:Hlabel; [done|]. cbn [negb] in H.
  destruct (bt_object_get_ref debug h (Some rs)) as [h1|] eqn:Hr; [|done].
  eapply set_data_ok; [|exact H|]; [call_ok|]. intros fc1 Hfc1. simpl. apply NoDup_snoc; [exact Hd|]. by apply has_mapping_false.
Qed.

Lemma set_integer_ok h a f h' : set_integer h a f = Some h' -> ir_ok h -> ir_ok h'.
Proof.
  unfold set_integer. intros H Hok. destruct (get_fc h a) as [fc|] eqn:Hfc; [|done].
  pose proof (Hok a fc Hfc) as Hd. destruct (fc_data fc) as [| |range hints base|range hints base mappings| | | |] eqn:Hdata; try done;
    destruct (f range hints base) as [[r t] b]; [call_ok|]. by eapply set_data_ok; [exact Hok|exact H|].
Qed.

(** A member, or an option of a variant without a selector. *)
Lemma append_plain_ok h a name fc0 h1 nf h' : ir_ok h -> create_named_field_class debug h name fc0 = Some (nf, h1) ->
  append_named_field_class_to_container_field_class true h1 a nf = Some h' ->
  (forall fc, get_fc h a = Some fc -> (fc_type fc = BT_FIELD_CLASS_TYPE_STRUCTURE /\ is_Some name) \/
    fc_type fc = BT_FIELD_CLASS_TYPE_VARIANT_WITHOUT_SELECTOR_FIELD) -> ir_ok h'.
Proof.
  intros Hok Hc Ha Ht. unfold create_named_field_class in Hc. destruct (get_ref debug h fc0) as [h2|] eqn:Hr; [|done].
  injection Hc as <- <-. eapply fc_append_ok; [|exact Ha|]; [call_ok|]. intros fc names nfs sel Hfc _.
  destruct (ir_same_back _ _ _ _ (get_ref_same _ _ _ _ Hr) Hfc) as (fc1 & Hfc1 & <- & _).
  simpl. destruct (Ht fc1 Hfc1) as [[-> Hn]| ->]; (split; [done|]); split; intros Hx; vm_compute in Hx; discriminate.
Qed.

Lemma options_ok_snoc h b nfs nf a s : options_ok h b nfs -> nf_range_set nf = Some a -> get_ranges h a = Some s -> frozen s = true ->
  (forall x v, x ∈ nfs -> selects h b x v -> selects h b nf v -> False) -> options_ok h b (nfs ++ [nf]).
Proof.
  intros [Hs Hd] Ha Hget Hf Hnew. split.
  - intros i x [Hx|[_ Hx]]%lookup_app_Some; [by eapply Hs|]. apply list_lookup_singleton_Some in Hx as [_ <-]. by exists a, s.
  - intros i j x y v [Hx|[Hi Hx]]%lookup_app_Some [Hy|[Hj Hy]]%lookup_app_Some Hvx Hvy; [by eapply Hd| | |].
    + apply list_lookup_singleton_Some in Hy as [_ <-]. exfalso. eapply Hnew; [by eapply list_elem_of_lookup_2|done|done].
    + apply list_lookup_singleton_Some in Hx as [_ <-]. exfalso. eapply Hnew; [by eapply list_elem_of_lookup_2|done|done].
    + apply list_lookup_singleton_Some in Hx as [? _]. apply list_lookup_singleton_Some in Hy as [? _]. lia.
Qed.

Lemma selects_back h h' b nf nf' v : ir_same h h' -> nf_range_set nf = nf_range_set nf' -> selects h' b nf' v -> selects h b nf v.
Proof.
  intros Hs Hr (a & s' & Ha & Hget & Hv). pose proof (is_set _ _ Hs a) as Hx. rewrite Hget in Hx. inversion Hx as [s ? [Hrs _] E|]; subst.
  exists a, s. by rewrite Hr, Hrs.
Qed.

(** The type of a variant with a selector. *)
Definition selector_type (b : bool) : Z :=
  if b then BT_FIELD_CLASS_TYPE_VARIANT_WITH_SIGNED_INTEGER_SELECTOR_FIELD
  else BT_FIELD_CLASS_TYPE_VARIANT_WITH_UNSIGNED_INTEGER_SELECTOR_FIELD.

Lemma create_option_of_variant_same h name fc rs opt h' :
  create_variant_with_selector_field_option true debug h name fc rs = Some (opt, h') ->
  opt = NamedFieldClass name fc false (Some rs) /\ ir_same h h' /\ exists s, get_ranges h' rs = Some s /\ frozen s = true.
Proof.
  unfold create_variant_with_selector_field_option. intros H. destruct (get_ref debug h fc) as [h1|] eqn:H1; [|done].
  destruct (get_ref debug h1 rs) as [h2|] eqn:H2; [|done]. destruct (bt_integer_range_set_freeze true h2 rs) as [h3|] eqn:H3; [|done].
  injection H as <- <-. split; [done|]. split.
  - etrans; [by eapply get_ref_same|]. etrans; [by eapply get_ref_same|by eapply range_set_freeze_same].
  - unfold bt_integer_range_set_freeze in H3. destruct (get_ranges h2 rs) as [s|]; [|done]. injection H3 as <-.
    eexists. split; [apply get_ranges_Some, lookup_insert_eq|done].
Qed.

Lemma append_option_ok b h a name fc0 rs h' : ir_ok h ->
  append_option_to_variant_with_selector_field_field_class true debug h a name fc0 rs (selector_type b) = Some h' ->
  (forall fc, get_fc h a = Some fc -> fc_type fc = selector_type b) -> ir_ok h'.
Proof.
  unfold append_option_to_variant_with_selector_field_field_class, BT_ASSERT_PRE. intros Hok H Ht.
  destruct (get_fc h a) as [fc|] eqn:Hfc; [|done]. specialize (Ht fc eq_refl). destruct (name_is_given fc name); [|done].
  destruct (get_ranges h rs) as [s|] eqn:Hs; [|done]. destruct (0 <? _)%nat; [|done].
  destruct (fc_data fc) as [| | | |names nfs sel| | |] eqn:Hdata; try done.
  replace (selector_type b =? _) with b in H by by destruct b.
  destruct (ranges_overlap true h nfs rs b) as [[]|] eqn:Ho; [done| |done]. simpl in H.
  destruct (create_variant_with_selector_field_option true debug h name fc0 rs) as [[opt h1]|] eqn:Hc; [|done].
  destruct (create_option_of_variant_same _ _ _ _ _ _ Hc) as (-> & Hsame & s1 & Hs1 & Hf1).
  eapply fc_append_ok; [|exact H|]; [by eapply ir_ok_same|]. intros fc1 names1 nfs1 sel1 Hfc1 Hdata1.
  destruct (ir_same_back _ _ _ _ Hsame Hfc1) as (fc2 & Hfc2 & Ht1 & _ & Hds). assert (fc2 = fc) as -> by congruence.
  rewrite Hdata, Hdata1 in Hds. destruct Hds as (_ & Hf & _). rewrite <- Ht1, Ht.
  assert (Hsnoc : options_ok h b nfs -> options_ok h1 b (nfs1 ++ [NamedFieldClass name fc0 false (Some rs)])).
  { intros Hopts. eapply options_ok_snoc; [|reflexivity|exact Hs1|done|].
    - eapply options_ok_mono; [exact Hopts|by apply ir_same_frozen|done].
    - intros x v Hx Hvx Hvn. apply list_elem_of_lookup in Hx as (i & Hi). destruct (Forall2_lookup_r _ _ _ _ _ Hf Hi) as (y & Hy & _ & _ & Hr).
      eapply (ranges_overlap_false true h b nfs rs s Ho Hs y v); [by eapply list_elem_of_lookup_2|by eapply selects_back|].
      destruct (selects_back h h1 b _ (NamedFieldClass name fc0 false (Some rs)) v Hsame eq_refl Hvn) as (a' & s' & Ha' & Hs' & Hv).
      injection Ha' as <-. by assert (s' = s) as -> by congruence. }
  pose proof (Hok a fc Hfc) as Hd. rewrite Hdata, Ht in Hd. destruct Hd as (_ & _ & Hu & Hsg).
  destruct b; (split; [intros Hx; vm_compute in Hx; discriminate|]); split; intros Hx;
    try (vm_compute in Hx; discriminate); [by apply Hsnoc, Hsg|by apply Hsnoc, Hu].
Qed.

Lemma mark_same fuel : forall h a h', bt_field_class_make_part_of_trace_class fuel h a = Some h' -> ir_same h h'.
Proof.
  induction fuel as [|fuel IH]; intros h a h' H; [done|]. cbn [bt_field_class_make_part_of_trace_class] in H. unfold BT_ASSERT_PRE in H.
  destruct (get_fc h a) as [fc|] eqn:Hfc; [|done]. destruct (negb _); [|done].
  assert (Hset : ir_same h (set_fc h a (with_part_of fc true))) by by eapply ir_same_set.
  assert (Hall : forall nfs h0, mark_all (bt_field_class_make_part_of_trace_class fuel) nfs h0 = Some h' -> ir_same h0 h').
  { induction nfs as [|nf nfs IHn]; intros h0 H0; simpl in H0; [by injection H0 as <-|].
    destruct (bt_field_class_make_part_of_trace_class fuel h0 (nf_fc nf)) as [h1|] eqn:H1; [|done]. etrans; [by eapply IH|by apply IHn]. }
  etrans; [exact Hset|]. destruct (is_container fc); [|destruct (bt_field_class_type_is _ _)]; [| |by injection H as <-];
    destruct (fc_data fc); try done; eauto.
Qed.

(** A change of the objects that are not field classes. *)
Lemma ir_ok_frozen_kept h h' : ir_ok h -> (forall a, get_fc h' a = get_fc h a) -> frozen_kept h h' -> ir_ok h'.
Proof. intros Hok Hg Hk a fc Ha. rewrite Hg in Ha. eapply data_ok_mono; [by apply (Hok a fc)|done|done]. Qed.

Lemma ir_ok_insert h a o : ir_ok h -> match o with FieldClassObject _ => False | _ => True end -> get_fc h a = None ->
  (forall s, get_ranges h a = Some s -> frozen s = true -> o = RangeSetObject s) -> ir_ok (<[a := o]> h).
Proof.
  intros Hok Ho Ha Hs. eapply ir_ok_frozen_kept; [exact Hok| |].
  - intros b. unfold get_fc in *. rewrite lookup_insert. case_decide; [subst b; rewrite Ha; by destruct o|done].
  - intros b s Hb Hf. exists s. unfold get_ranges in *. rewrite lookup_insert. case_decide; [subst b; by rewrite (Hs s Hb Hf)|done].
Qed.

Lemma add_range_ok' h a s (b : bool) l u sets s' : ir_ok h -> get_ranges h a = Some s ->
  (if b then bt_integer_range_set_signed_add_range true false {[a := s]} a l u
   else bt_integer_range_set_unsigned_add_range true false {[a := s]} a l u) = Some sets -> ir_ok (<[a := RangeSetObject s']> h).
Proof.
  intros Hok Ha H. assert (Hf : frozen s = false).
  { destruct b; unfold bt_integer_range_set_signed_add_range, bt_integer_range_set_unsigned_add_range, BT_ASSERT_PRE in H;
      (destruct (negb false && _) in H || destruct (negb false) in H; [|done]); (destruct (_ <=? _) in H; [|done]);
      unfold add_range_to_range_set, BT_ASSERT_PRE_DEV in H; rewrite lookup_singleton_eq in H; by destruct (frozen s). }
  apply ir_ok_insert; [done|done| |].
  - apply get_ranges_Some in Ha. unfold get_fc. by rewrite Ha.
  - intros s0 Hs0 Hf0. congruence.
Qed.
End operations.

Lemma type_is (b : bool) x y : (x =? y) = true -> x = y.
Proof. by apply Z.eqb_eq. Qed.

Lemma ir_step_ok debug h h' : ir_step debug h h' -> ir_ok h -> ir_ok h'.
Proof.
  intros Hstep Hok. destruct Hstep as
    [new mip h' H|new mip h' H|new mip type h' H _|new mip n h' H|new mip h' H|new mip h' H|new mip h' H|new mip h' H|new mip h' H
    |new mip el n h' H|new mip el len h' H|new mip el h' H|new mip el loc h' H
    |new mip c h' H|new mip c h' H|new mip c sel h' H|new mip c loc h' H|new mip c sel rs h' H|new mip c sel rs h' H
    |new mip c sel rs h' H|new mip c sel rs h' H|new mip sel h' H|new mip h' H|new mip loc h' H|new mip loc h' H
    |a label rs h' H|a n h' H|a n h' H|a n h' H|a label rs h' H|a label rs h' H
    |a name fc h' H|a name fc h' H|a name fc rs h' H|a name fc rs h' H|a b h' H|fuel a h' H|a h' H|new Hn|new sets s Hn Hc Hs|b a s l u sets s' Ha H Hs'].
  - unfold bt_field_class_bool_create in H. call_ok.
  - unfold bt_field_class_string_create in H. call_ok.
  - unfold create_real_field_class in H. call_ok.
  - by eapply bit_array_create_ok.
  - unfold bt_field_class_integer_unsigned_create, create_integer_field_class in H. call_ok.
  - unfold bt_field_class_integer_signed_create, create_integer_field_class in H. call_ok.
  - by eapply enumeration_create_ok.
  - by eapply enumeration_create_ok.
  - unfold bt_field_class_structure_create in H. call_ok.
  - unfold bt_field_class_array_static_create in H. split_call H. call_ok.
  - unfold bt_field_class_array_dynamic_create in H. split_call H; simplify_eq; call_ok; by eapply create_dynamic_array_ok.
  - unfold bt_field_class_array_dynamic_without_length_field_location_create in H. split_call H. by eapply create_dynamic_array_ok.
  - unfold bt_field_class_array_dynamic_with_length_field_location_create in H. split_call H. call_ok. by eapply create_dynamic_array_ok.
  - unfold bt_field_class_option_without_selector_create in H. split_call H. by eapply create_option_ok.
  - unfold bt_field_class_option_without_selector_field_location_create in H. split_call H. by eapply create_option_ok.
  - unfold bt_field_class_option_with_selector_field_bool_create in H. split_call H. by eapply create_option_ok.
  - unfold bt_field_class_option_with_selector_field_location_bool_create in H. split_call H. by eapply create_option_ok.
  - unfold bt_field_class_option_with_selector_field_integer_unsigned_create in H. split_call H. by eapply create_option_with_ranges_ok.
  - unfold bt_field_class_option_with_selector_field_integer_signed_create in H. split_call H. by eapply create_option_with_ranges_ok.
  - unfold bt_field_class_option_with_selector_field_location_integer_unsigned_create in H. split_call H. by eapply create_option_with_ranges_ok.
  - unfold bt_field_class_option_with_selector_field_location_integer_signed_create in H. split_call H. by eapply create_option_with_ranges_ok.
  - unfold bt_field_class_variant_create in H. split_call H; by eapply create_variant_ok.
  - unfold bt_field_class_variant_without_selector_field_location_create in H. split_call H. by eapply create_variant_ok.
  - unfold bt_field_class_variant_with_selector_field_location_integer_unsigned_create in H. split_call H. by eapply create_variant_ok.
  - unfold bt_field_class_variant_with_selector_field_location_integer_signed_create in H. split_call H. by eapply create_variant_ok.
  - by eapply add_flag_ok.
  - unfold bt_field_class_integer_set_field_value_range in H. split_call H; by eapply set_integer_ok.
  - unfold bt_field_class_integer_set_field_value_hints in H. split_call H; by eapply set_integer_ok.
  - unfold bt_field_class_integer_set_preferred_display_base in H. split_call H; by eapply set_integer_ok.
  - unfold bt_field_class_enumeration_unsigned_add_mapping in H. split_call H. by eapply add_mapping_ok.
  - unfold bt_field_class_enumeration_signed_add_mapping in H. split_call H. by eapply add_mapping_ok.
  - unfold bt_field_class_structure_append_member in H. split_call H. subst. eapply append_plain_ok; [done|done|done|].
    intros fc0 Hfc0. left. split; [|done]. apply (type_is true). congruence.
  - unfold bt_field_class_variant_without_selector_append_option in H. split_call H. subst. eapply append_plain_ok; [done|done|done|].
    intros fc0 Hfc0. right. apply (type_is true). congruence.
  - unfold bt_field_class_variant_with_selector_field_integer_unsigned_append_option in H. split_call H.
    eapply (append_option_ok debug false); [done|exact H|]. intros fc0 Hfc0. apply (type_is true). simpl. congruence.
  - unfold bt_field_class_variant_with_selector_field_integer_signed_append_option in H. split_call H.
    eapply (append_option_ok debug true); [done|exact H|]. intros fc0 Hfc0. apply (type_is true). simpl. congruence.
  - unfold bt_field_class_option_with_selector_field_bool_set_selector_is_reversed in H. split_call H; call_ok.
  - eapply ir_ok_same; [done|by eapply mark_same].
  - call_ok.
  - apply ir_ok_insert; [done|done| |]; intros; unfold get_fc, get_ranges in *; by rewrite Hn in *.
  - apply ir_ok_insert; [done|done| |]; intros; unfold get_fc, get_ranges in *; by rewrite Hn in *.
  - by eapply add_range_ok'.
Qed.

Lemma ir_reachable_ok debug h : rtc (ir_step debug) ∅ h -> ir_ok h.
Proof.
  intros Hr. assert (H0 : ir_ok ∅) by (intros a fc Ha; unfold get_fc in Ha; by rewrite lookup_empty in Ha). revert H0.
  induction Hr as [|x y z Hxy _ IH]; [done|]. intros Hx. by apply IH, (ir_step_ok debug x).
Qed.

(** * Names *)

Lemma names_by_name names nfs sel fc name : names_ok names nfs -> fc_data fc = ContainerContents names nfs sel ->
  match borrow_named_field_class_from_container_field_class_by_name fc name with
  | Some (Some nf) => nf_name nf = Some name /\ exists i, nfs !! i = Some nf /\ forall j nf', nfs !! j = Some nf' -> nf_name nf' = Some name -> j = i
  | Some None => forall nf, nf ∈ nfs -> nf_name nf <> Some name
  | None => False
  end.
Proof.
  intros Hn Hdata. unfold borrow_named_field_class_from_container_field_class_by_name. rewrite Hdata.
  destruct (names !! name) as [i|] eqn:Hi.
  - pose proof Hi as (nf & Hnf & Hname)%Hn. rewrite Hnf. split; [done|]. exists i. split; [done|]. intros j nf' Hj Hname'.
    assert (Hj' : names !! name = Some j) by (apply Hn; by exists nf'). congruence.
  - intros nf (i & Hnf)%list_elem_of_lookup Hname. assert (names !! name = Some i) by (apply Hn; by exists nf). congruence.
Qed.

(** * Bit arrays *)

Lemma mask_bits_spec n : forall i mask k, 0 <= i -> 0 <= k -> i + Z.of_nat n <= 64 ->
  Z.testbit (mask_bits n i mask) k = Z.testbit mask k || ((i <=? k) && (k <? i + Z.of_nat n)).
Proof.
  induction n as [|n IH]; intros i mask k Hi Hk Hn; cbn [mask_bits].
  { replace (_ && _) with false by (symmetry; apply andb_false_iff; destruct (Z.leb_spec i k); [right; apply Z.ltb_ge; lia|by left]).
    by rewrite orb_false_r. }
  assert (Hbit : wrapu 64 (Z.shiftl 1 i) = 2 ^ i).
  { rewrite Z.shiftl_1_l. apply wrapu_small. split; [apply Z.pow_nonneg; lia|apply Z.pow_lt_mono_r; lia]. }
  rewrite (IH (i + 1)), Hbit, Z.lor_spec, Z.pow2_bits_eqb by lia. rewrite <- orb_assoc. f_equal.
  apply eq_iff_eq_true. rewrite orb_true_iff, !andb_true_iff, !Z.leb_le, !Z.ltb_lt, Z.eqb_eq. lia.
Qed.

Lemma flag_mask_spec rs : forall mask k, 0 <= k -> Forall (fun r => 0 <= lower r /\ upper r < 64) rs ->
  Z.testbit (flag_mask_of rs mask) k = true <-> Z.testbit mask k = true \/ contains lower upper rs k.
Proof.
  induction rs as [|r rs IH]; intros mask k Hk Hrs; cbn [flag_mask_of].
  { unfold contains. rewrite Exists_nil. tauto. }
  apply Forall_cons in Hrs as [[H0 H64] Hrs]. rewrite IH by done. unfold contains. rewrite Exists_cons.
  assert (Hone : Z.testbit (mask_bits (Z.to_nat (upper r - lower r + 1)) (lower r) mask) k = true <->
    Z.testbit mask k = true \/ lower r <= k <= upper r).
  { destruct (decide (lower r <= upper r)).
    - rewrite mask_bits_spec by lia. rewrite orb_true_iff, andb_true_iff, Z.leb_le, Z.ltb_lt. lia.
    - replace (Z.to_nat _) with O by lia. simpl. split; [tauto|intros [?|?]; [done|lia]]. }
  rewrite Hone. tauto.
Qed.

(** The value has a bit at an index of the ranges. *)
Definition has_bit_in (rs : list bt_integer_range) (value : Z) : Prop :=
  exists k, contains lower upper rs k /\ Z.testbit value k = true.

Lemma land_mask rs value : 0 <= value -> Forall (fun r => 0 <= lower r /\ upper r < 64) rs ->
  Z.land value (flag_mask_of rs 0) <> 0 <-> has_bit_in rs value.
Proof.
  intros Hv Hrs.
  assert (Hbit : forall k, 0 <= k -> Z.testbit (Z.land value (flag_mask_of rs 0)) k = true <->
    Z.testbit value k = true /\ contains lower upper rs k).
  { intros k Hk. rewrite Z.land_spec, andb_true_iff, flag_mask_spec by done. rewrite Z.bits_0. split; [by intros [? [?|?]]|intros [? ?]; split; [done|by right]]. }
  split.
  - intros Hnz. assert (Hpos : 0 <= Z.land value (flag_mask_of rs 0)) by (apply Z.land_nonneg; by left).
    pose proof (Z.bit_log2 (Z.land value (flag_mask_of rs 0)) ltac:(lia)) as Hb. apply Hbit in Hb as [? ?]; [|apply Z.log2_nonneg].
    by exists (Z.log2 (Z.land value (flag_mask_of rs 0))).
  - intros (k & Hc & Hb) Heq. assert (0 <= k).
    { unfold contains in Hc. apply Exists_exists in Hc as (r & Hr & ?). rewrite Forall_forall in Hrs. specialize (Hrs r Hr). lia. }
    assert (Ht : Z.testbit (Z.land value (flag_mask_of rs 0)) k = true) by by apply Hbit. by rewrite Heq, Z.bits_0 in Ht.
Qed.

Lemma active_labels_app flags flags' value : active_labels (flags ++ flags') value = active_labels flags value ++ active_labels flags' value.
Proof. induction flags as [|f flags IH]; simpl; [done|]. case_match; by rewrite IH. Qed.

(** * Enumerations *)

Lemma in_ranges_spec l u rs v : in_ranges l u rs v = true <-> contains l u rs v.
Proof.
  induction rs as [|r rs IH]; simpl; unfold contains; [by rewrite Exists_nil|]. rewrite Exists_cons.
  destruct (_ && _) eqn:Hr; b2p.
  - split; [by left|done].
  - rewrite IH. unfold contains. split; [by right|intros [?|?]; [lia|done]].
Qed.

Lemma labels_for_value_spec h l u mappings value labels : labels_for_value h l u mappings value = Some labels ->
  (forall label, label ∈ labels <-> exists m s, m ∈ mappings /\ mapping_label m = label /\
     get_ranges h (mapping_range_set m) = Some s /\ contains l u (ranges s) value) /\
  sublist labels (mapping_label <$> mappings).
Proof.
  revert labels. induction mappings as [|m mappings IH]; intros labels; simpl.
  { intros [= <-]. split; [|done]. intros label. split; [by intros ?%elem_of_nil|]. intros (m & s & Hm & _). by apply elem_of_nil in Hm. }
  destruct (get_ranges h (mapping_range_set m)) as [s|] eqn:Hs; [|done].
  destruct (labels_for_value h l u mappings value) as [labels0|]; [|done]. destruct (IH labels0 eq_refl) as [Hl Hsub]. intros [= <-].
  destruct (in_ranges l u (ranges s) value) eqn:Hin; (split; [|by constructor]); intros label.
  - apply in_ranges_spec in Hin. rewrite elem_of_cons, Hl. split.
    + intros [->|(m0 & s0 & Hm0 & ?)]; [exists m, s|exists m0, s0]; (split; [by apply elem_of_cons; auto|done]).
    + intros (m0 & s0 & [->|Hm0]%elem_of_cons & Hlab & Hrest); [by left|]. right. by exists m0, s0.
  - assert (Hno : ~ contains l u (ranges s) value) by (rewrite <- in_ranges_spec; by rewrite Hin). rewrite Hl. split.
    + intros (m0 & s0 & Hm0 & ?). exists m0, s0. split; [by apply elem_of_cons; right|done].
    + intros (m0 & s0 & [->|Hm0]%elem_of_cons & Hlab & Hs0 & Hc); [|by exists m0, s0]. exfalso. apply Hno. congruence.
Qed.

(** * Claims *)

(** C10: Whatever sequence of calls built the field classes, in developer mode, from an
    empty store, looking up the member or option of a name in a structure or variant finds
    exactly the one that has the name, and tells when there is none; each member of a
    structure has a name; a value of the selector of a variant selects at most one of its
    options; two flags of a bit array, or two mappings of an enumeration, have different
    labels; and a bit array has from 1 to 64 bits. *)
Theorem field_classes_stay_consistent debug h a fc : rtc (ir_step debug) ∅ h -> get_fc h a = Some fc ->
  match fc_data fc with
  | ContainerContents _ nfs _ =>
    (forall name,
       match borrow_named_field_class_from_container_field_class_by_name fc name with
       | Some (Some nf) => nf_name nf = Some name /\ exists i, nfs !! i = Some nf /\
           forall j nf', nfs !! j = Some nf' -> nf_name nf' = Some name -> j = i
       | Some None => forall nf, nf ∈ nfs -> nf_name nf <> Some name
       | None => False
       end) /\
    (fc_type fc = BT_FIELD_CLASS_TYPE_STRUCTURE -> forall nf, nf ∈ nfs -> is_Some (nf_name nf)) /\
    (forall b, fc_type fc = selector_type b -> forall i j nf nf' v, nfs !! i = Some nf -> nfs !! j = Some nf' ->
       selects h b nf v -> selects h b nf' v -> i = j)
  | BitArrayContents length flags => 0 < length <= 64 /\ NoDup (flag_label <$> flags)
  | EnumerationContents _ _ _ mappings => NoDup (mapping_label <$> mappings)
  | _ => True
  end.
Proof.
  intros Hr Ha. pose proof (ir_reachable_ok debug h Hr a fc Ha) as Hd.
  destruct (fc_data fc) as [| | | |names nfs sel| | |] eqn:Hdata; try exact Hd. destruct Hd as (Hn & Hst & Hu & Hs).
  split; [|split].
  - intros name. by apply (names_by_name names nfs sel).
  - intros Ht nf Hnf. specialize (Hst Ht). rewrite Forall_forall in Hst. by apply Hst.
  - intros b Hb. destruct b; [eapply oo_disjoint, Hs, Hb|eapply oo_disjoint, Hu, Hb].
Qed.

(** Adding a flag to a bit array field class keeps, for each value, the active labels
    that there were, and adds the label of the flag exactly when one of the bits of the
    value at the indexes of the ranges of the flag is set. *)
Theorem bit_array_flag_exact dev debug h a label rs h' s value old :
  bt_field_class_bit_array_add_flag debug h a label rs = Some h' ->
  get_ranges h rs = Some s -> Forall (fun r => 0 <= lower r) (ranges s) ->
  (forall fc length flags, get_fc h a = Some fc -> fc_data fc = BitArrayContents length flags -> length <= 64) -> 0 <= value ->
  bt_field_class_bit_array_get_active_flag_labels_for_value_as_integer dev h a value = Some old ->
  exists new, bt_field_class_bit_array_get_active_flag_labels_for_value_as_integer dev h' a value = Some (old ++ new) /\
    ((has_bit_in (ranges s) value /\ new = [label]) \/ (~ has_bit_in (ranges s) value /\ new = [])).
Proof.
  unfold bt_field_class_bit_array_add_flag, BT_ASSERT_PRE. intros H Hs Hpos Hlen Hv Hold.
  destruct (get_fc h a) as [fc|] eqn:Hfc; [|done]. destruct (1 <=? mip_version fc) eqn:Hmip; [|done].
  destruct (fc_type fc =? BT_FIELD_CLASS_TYPE_BIT_ARRAY) eqn:Ht; [|done].
  destruct (fc_data fc) as [|n flags| | | | | |] eqn:Hdata; try done. destruct (negb _); [|done]. rewrite Hs in H.
  destruct (forallb _ _) eqn:Hup; [|done]. destruct (get_ref debug h rs) as [h1|] eqn:Hr; [|done].
  unfold set_data in H. destruct (get_fc h1 a) as [fc1|] eqn:Hfc1; [|done]. injection H as <-.
  destruct (ir_same_back _ _ _ _ (get_ref_same _ _ _ _ Hr) Hfc1) as (fc2 & Hfc2 & Ht1 & Hm1 & _).
  assert (fc2 = fc) as -> by congruence.
  unfold bt_field_class_bit_array_get_active_flag_labels_for_value_as_integer in *. rewrite get_fc_set, decide_True by done. simpl.
  rewrite <- Ht1, <- Hm1. rewrite Hfc, Hmip, Ht, Hdata in Hold. rewrite Hmip, Ht.
  unfold BT_ASSERT_PRE_DEV in *. rewrite !andb_false_r in *. injection Hold as <-. rewrite active_labels_app. eexists. split; [done|].
  assert (Hrs : Forall (fun r => 0 <= lower r /\ upper r < 64) (ranges s)).
  { specialize (Hlen fc n flags eq_refl Hdata). rewrite Forall_forall in Hpos |- *. intros r Hin. split; [by apply Hpos|].
    rewrite forallb_forall in Hup. specialize (Hup r (proj1 (list_elem_of_In _ _) Hin)). apply Z.ltb_lt in Hup. lia. }
  pose proof (land_mask (ranges s) value Hv Hrs) as Hmask. simpl. destruct (Z.eqb_spec (Z.land value (flag_mask_of (ranges s) 0)) 0) as [E|E]; simpl.
  - right. split; [tauto|done].
  - left. split; [tauto|done].
Qed.

(** The labels that an enumeration field class gives for a value are those of its
    mappings with a range that contains the value, the words of the ranges being signed
    exactly for a signed enumeration, in the order of the mappings, each once per mapping. *)
Theorem enumeration_labels_exact dev h a fc range hints base mappings value :
  get_fc h a = Some fc -> fc_data fc = EnumerationContents range hints base mappings ->
  (forall m, m ∈ mappings -> is_Some (get_ranges h (mapping_range_set m))) ->
  forall b, fc_type fc = (if b : bool then BT_FIELD_CLASS_TYPE_SIGNED_ENUMERATION else BT_FIELD_CLASS_TYPE_UNSIGNED_ENUMERATION) ->
  exists labels,
    (if b then bt_field_class_enumeration_signed_get_mapping_labels_for_value dev h a value
     else bt_field_class_enumeration_unsigned_get_mapping_labels_for_value dev h a value) = Some labels /\
    sublist labels (mapping_label <$> mappings) /\
    forall label, label ∈ labels <-> exists m s, m ∈ mappings /\ mapping_label m = label /\
      get_ranges h (mapping_range_set m) = Some s /\ contains (lo b) (up b) (ranges s) value.
Proof.
  intros Hfc Hdata Hsets b Ht.
  assert (Htotal : forall l u, exists labels, labels_for_value h l u mappings value = Some labels).
  { intros l u. clear -Hsets. induction mappings as [|m ms IH]; simpl; [by eexists|].
    destruct (Hsets m) as [s ->]; [apply elem_of_cons; by left|]. destruct IH as [labels ->]; [intros x Hx; apply Hsets, elem_of_cons; by right|].
    by eexists. }
  destruct (Htotal (lo b) (up b)) as [labels Hl]. exists labels. split; [|apply and_comm; by apply labels_for_value_spec].
  destruct b; unfold bt_field_class_enumeration_signed_get_mapping_labels_for_value,
    bt_field_class_enumeration_unsigned_get_mapping_labels_for_value, get_mapping_labels_for_value, BT_ASSERT_PRE_DEV;
    rewrite Hfc, Hdata, Ht, Z.eqb_refl, andb_false_r; exact Hl.
Qed.

(** * Witnesses *)

Definition label_a : list Z := [97].
Definition label_b : list Z := [98].

Definition new_range_set (new : addr) (h : ir) : option ir :=
  guard_ub bool_decide (h !! new = None);
  do sets <- create_range_set ∅ new;
  do s <- sets !! new; Some (<[new := RangeSetObject s]> h).
Definition add_signed_range (a : addr) (lower upper : Z) (h : ir) : option ir :=
  do s <- get_ranges h a;
  do sets <- bt_integer_range_set_signed_add_range true false {[a := s]} a lower upper;
  do s' <- sets !! a; Some (<[a := RangeSetObject s']> h).

(** A call that is a step when it succeeds. *)
Definition is_call (c : ir -> option ir) : Prop := forall h h', c h = Some h' -> ir_step true h h'.

Lemma new_range_set_call new : is_call (new_range_set new).
Proof.
  intros h h' H. unfold new_range_set in H. case_bool_decide; [|done]. destruct (create_range_set ∅ new) as [sets|] eqn:Hc; [|done].
  destruct (sets !! new) as [s|] eqn:Hs; [|done]. injection H as <-. by eapply step_range_set.
Qed.
Lemma add_signed_range_call a l u : is_call (add_signed_range a l u).
Proof.
  intros h h' H. unfold add_signed_range in H. destruct (get_ranges h a) as [s|] eqn:Ha; [|done].
  destruct (bt_integer_range_set_signed_add_range _ _ _ _ _ _) as [sets|] eqn:Hadd; [|done].
  destruct (sets !! a) as [s'|] eqn:Hs; [|done]. injection H as <-. by apply (step_add_range true h true a s l u sets).
Qed.

Fixpoint run_calls (cs : list (ir -> option ir)) (h : ir) : option ir :=
  match cs with [] => Some h | c :: cs => do h <- c h; run_calls cs h end.
Lemma run_calls_steps cs : forall h h', Forall is_call cs -> run_calls cs h = Some h' -> rtc (ir_step true) h h'.
Proof.
  induction cs as [|c cs IH]; intros h h' Hc H; simpl in H; [by injection H as <-|]. apply Forall_cons in Hc as [Hc Hcs].
  destruct (c h) as [h1|] eqn:H1; [|done]. eapply rtc_l; [by apply Hc|by apply IH].
Qed.

(** A variant with a signed selector, whose options have the ranges [-2, 3] and [7, 9]. *)
Definition ex_variant : list (ir -> option ir) :=
  [fun h => bt_field_class_integer_signed_create h 1%positive 0;
   fun h => bt_field_class_variant_create true true h 2%positive 0 (Some 1%positive);
   fun h => bt_field_class_string_create h 3%positive 0;
   new_range_set 4%positive; add_signed_range 4%positive (-2) 3;
   new_range_set 5%positive; add_signed_range 5%positive 7 9;
   fun h => bt_field_class_variant_with_selector_field_integer_signed_append_option true true h 2%positive (Some label_a) 3%positive 4%positive;
   fun h => bt_field_class_variant_with_selector_field_integer_signed_append_option true true h 2%positive (Some label_b) 3%positive 5%positive].

Lemma ex_variant_calls : Forall is_call ex_variant.
Proof.
  unfold ex_variant. repeat apply Forall_cons_2; try apply Forall_nil_2;
    try apply new_range_set_call; try apply add_signed_range_call; intros h h' H.
  - by eapply step_signed.
  - by eapply step_variant.
  - by eapply step_string.
  - by eapply step_signed_option.
  - by eapply step_signed_option.
Qed.

(** The store after the calls. *)
Definition ex_store (cs : list (ir -> option ir)) : ir := default ∅ (run_calls cs ∅).

(** Not even with one more range: [2, 7] overlaps both. *)
Example ex_variant_overlap : run_calls (ex_variant ++ [new_range_set 6%positive; add_signed_range 6%positive 2 7;
   fun h => bt_field_class_variant_with_selector_field_integer_signed_append_option true true h 2%positive None 3%positive 6%positive]) ∅ = None.
Proof. by vm_compute. Qed.

Lemma field_classes_stay_consistent_witness :
  rtc (ir_step true) ∅ (ex_store ex_variant) /\
  exists fc, get_fc (ex_store ex_variant) 2%positive = Some fc /\
    fc_type fc = BT_FIELD_CLASS_TYPE_VARIANT_WITH_SIGNED_INTEGER_SELECTOR_FIELD /\
    forall nf nf', match fc_data fc with ContainerContents _ nfs _ => nfs | _ => [] end = [nf; nf'] ->
      nf_name nf' = Some label_b /\ forall v, selects (ex_store ex_variant) true nf v -> ~ selects (ex_store ex_variant) true nf' v.
Proof.
  assert (Hr : rtc (ir_step true) ∅ (ex_store ex_variant)).
  { apply (run_calls_steps ex_variant); [apply ex_variant_calls|by vm_compute]. }
  split; [exact Hr|]. destruct (get_fc (ex_store ex_variant) 2%positive) as [fc|] eqn:Hfc; [|by vm_compute in Hfc].
  exists fc. split; [done|]. pose proof (field_classes_stay_consistent true _ 2%positive fc Hr Hfc) as Hok.
  vm_compute in Hfc. injection Hfc as <-. split; [by vm_compute|]. intros nf nf' [= <- <-].
  split; [done|]. intros v Hv Hv'. simpl in Hok. destruct Hok as (_ & _ & Hd).
  specialize (Hd true eq_refl 0%nat 1%nat _ _ v eq_refl eq_refl Hv Hv'). done.
Defined.

(** A bit array of 8 bits. *)
Definition ex_bit_array : list (ir -> option ir) :=
  [fun h => bt_field_class_bit_array_create h 1%positive 1 8; new_range_set 2%positive; add_signed_range 2%positive 4 6].

Lemma bit_array_flag_exact_witness :
  exists h', bt_field_class_bit_array_add_flag true (ex_store ex_bit_array) 1%positive label_a 2%positive = Some h' /\
    bt_field_class_bit_array_get_active_flag_labels_for_value_as_integer true h' 1%positive 33 = Some [label_a] /\
    bt_field_class_bit_array_get_active_flag_labels_for_value_as_integer true h' 1%positive 15 = Some [] /\
    ~ has_bit_in [BtIntegerRange 4 6] 15.
Proof.
  destruct (bt_field_class_bit_array_add_flag true (ex_store ex_bit_array) 1%positive label_a 2%positive) as [h'|] eqn:H;
    [|by vm_compute in H].
  pose proof (fun s value old Hs Hp Hl Hv Ho => bit_array_flag_exact true true _ _ _ _ h' s value old H Hs Hp Hl Hv Ho) as Hx.
  exists h'. split; [done|].
  assert (Hlen : forall fc length flags, get_fc (ex_store ex_bit_array) 1%positive = Some fc ->
    fc_data fc = BitArrayContents length flags -> length <= 64).
  { intros fc l flags Hfc Hd. vm_compute in Hfc. injection Hfc as <-. injection Hd as <- _. lia. }
  split; [vm_compute in H; injection H as <-; by vm_compute|]. split; [vm_compute in H; injection H as <-; by vm_compute|].
  destruct (Hx _ 15 [] ltac:(vm_compute; reflexivity) ltac:(repeat constructor; simpl; lia) Hlen ltac:(lia) ltac:(vm_compute; reflexivity))
    as (new & Hnew & Hcase).
  vm_compute in H. injection H as <-. vm_compute in Hnew. injection Hnew as <-. destruct Hcase as [[_ [=]]|[Hno _]]. exact Hno.
Defined.

(** An enumeration with a label for [-2, 3]. *)
Definition ex_enumeration : list (ir -> option ir) :=
  [fun h => bt_field_class_enumeration_signed_create h 1%positive 0; new_range_set 2%positive; add_signed_range 2%positive (-2) 3;
   fun h => bt_field_class_enumeration_signed_add_mapping true h 1%positive label_a 2%positive].

Lemma enumeration_labels_exact_witness :
  exists labels, bt_field_class_enumeration_signed_get_mapping_labels_for_value true (ex_store ex_enumeration) 1%positive (-1) = Some labels /\
    label_a ∈ labels.
Proof.
  destruct (get_fc (ex_store ex_enumeration) 1%positive) as [fc|] eqn:Hfc; [|by vm_compute in Hfc]. pose proof Hfc as Hval.
  vm_compute in Hval. injection Hval as Hval.
  destruct (enumeration_labels_exact true (ex_store ex_enumeration) 1%positive fc 64 0 10 [EnumMapping label_a 2%positive] (-1)
    Hfc ltac:(by rewrite <- Hval) ltac:(intros m ->%list_elem_of_singleton; vm_compute; by eexists) true ltac:(by rewrite <- Hval))
    as (labels & Hl & _ & Hiff).
  exists labels. split; [exact Hl|]. apply Hiff. eexists (EnumMapping label_a 2%positive), _. split; [by apply list_elem_of_singleton|].
  split; [done|]. split; [vm_compute; reflexivity|]. left. vm_compute. split; discriminate.
Defined.
