(* ===== verification/FieldPath.v ===== *)
(** Field paths and their resolution: [src/src/lib/trace-ir/field-path.c], [field-path.h],
    [resolve-field-path.c] and [resolve-field-xref.h].

    A field path is a value (a root scope and a list of items): the program creates one,
    fills it and gives it to one owner.  The functions that follow the tree of a field
    class are recursive: they have a fuel, which is enough when it is greater than the
    depth of the tree ([FieldPathFacts]).  Allocations succeed, so that the status is
    always OK and left out.  [dev] tells whether the library is built in developer mode;
    the functions of the validity check are compiled only then. *)

From stdpp Require Import list gmap.
From S2P Require Import Prelude Object IrObj FieldClass.

(** * Field paths *)

Definition bt_field_path_create : bt_field_path := BtFieldPath PacketContext [].
Definition bt_field_path_append_item (p : bt_field_path) (item : bt_field_path_item) : bt_field_path :=
  BtFieldPath (fp_root p) (fp_items p ++ [item]).
Definition bt_field_path_remove_last_item (p : bt_field_path) : option bt_field_path :=
  guard_ub (0 <? length (fp_items p))%nat; Some (BtFieldPath (fp_root p) (take (length (fp_items p) - 1) (fp_items p))).
Definition bt_field_path_get_root_scope (p : bt_field_path) : bt_field_path_scope := fp_root p.
Definition bt_field_path_get_item_count (p : bt_field_path) : Z := Z.of_nat (length (fp_items p)).
Definition bt_field_path_borrow_item_by_index_const (dev : bool) (p : bt_field_path) (index : Z) : option bt_field_path_item :=
  BT_ASSERT_PRE_DEV dev (index <? Z.of_nat (length (fp_items p))) (guard_ub (0 <=? index); fp_items p !! Z.to_nat index).
Definition bt_field_path_item_index_get_index (dev : bool) (item : bt_field_path_item) : option Z :=
  match item with ItemIndex index => Some index | _ => BT_ASSERT_PRE_DEV dev false (Some (2 ^ 64 - 1)) end.

(** [scope < scope'] compares the enumerators. *)
Definition scope_number (s : bt_field_path_scope) : Z :=
  match s with PacketContext => 0 | EventCommonContext => 1 | EventSpecificContext => 2 | EventPayload => 3 end.

(** * Resolution *)

Record bt_resolve_field_xref_context := BtResolveFieldXrefContext {
  packet_context : option addr;
  event_common_context : option addr;
  event_specific_context : option addr;
  event_payload : option addr
}.

Section find.
(** [h] is the store, which the search does not change. *)
Context (h : ir).

(** The loop on the members, from index [i]: the remaining members are [nfs]. *)
Section members.
Context (find : addr -> bt_field_path -> option (bool * bt_field_path)).
Fixpoint find_in_members (i : nat) (nfs : list bt_named_field_class) (field_path : bt_field_path) : option (bool * bt_field_path) :=
  match nfs with
  | [] => Some (false, field_path)
  | named_fc :: nfs =>
    do r <- find (nf_fc named_fc) (bt_field_path_append_item field_path (ItemIndex (Z.of_nat i)));
    let '(found, field_path) := r in
    if found : bool then Some (true, field_path)
    else do field_path <- bt_field_path_remove_last_item field_path; find_in_members (S i) nfs field_path
  end.
(** The content of an option, or the element of an array. *)
Definition find_in_content (content : addr) (item : bt_field_path_item) (field_path : bt_field_path) : option (bool * bt_field_path) :=
  do r <- find content (bt_field_path_append_item field_path item);
  let '(found, field_path) := r in
  if found : bool then Some (true, field_path)
  else do field_path <- bt_field_path_remove_last_item field_path; Some (false, field_path).
End members.

Fixpoint find_field_class_recursive (fuel : nat) (tgt_fc fc : addr) (field_path : bt_field_path) : option (bool * bt_field_path) :=
  match fuel with
  | O => None
  | S fuel =>
    if bool_decide (tgt_fc = fc) then Some (true, field_path)
    else
      do c <- get_fc h fc;
      if bt_field_class_type_is (fc_type c) BT_FIELD_CLASS_TYPE_OPTION then
        match fc_data c with
        | OptionContents content _ _ _ =>
          find_in_content (find_field_class_recursive fuel tgt_fc) content CurrentOptionContent field_path
        | _ => None
        end
      else if is_container c then
        match fc_data c with
        | ContainerContents _ named_fcs _ => find_in_members (find_field_class_recursive fuel tgt_fc) 0 named_fcs field_path
        | _ => None
        end
      else if bt_field_class_type_is (fc_type c) BT_FIELD_CLASS_TYPE_ARRAY then
        match fc_data c with
        | StaticArrayContents element _ | DynamicArrayContents element _ =>
          find_in_content (find_field_class_recursive fuel tgt_fc) element CurrentArrayElement field_path
        | _ => None
        end
      else Some (false, field_path)
  end.

(** The field path that is found, if any. *)
Definition find_field_class (fuel : nat) (root_fc : option addr) (root_scope : bt_field_path_scope) (tgt_fc : addr)
    : option (option bt_field_path) :=
  match root_fc with
  | None => Some None
  | Some root_fc =>
    let field_path := BtFieldPath root_scope (fp_items bt_field_path_create) in
    do r <- find_field_class_recursive fuel tgt_fc root_fc field_path;
    Some (if fst r then Some (snd r) else None)
  end.

Definition find_field_class_in_ctx (fuel : nat) (fc : addr) (ctx : bt_resolve_field_xref_context) : option (option bt_field_path) :=
  do r <- find_field_class fuel (packet_context ctx) PacketContext fc;
  if bool_decide (is_Some r) then Some r else
  do r <- find_field_class fuel (event_common_context ctx) EventCommonContext fc;
  if bool_decide (is_Some r) then Some r else
  do r <- find_field_class fuel (event_specific_context ctx) EventSpecificContext fc;
  if bool_decide (is_Some r) then Some r else
  find_field_class fuel (event_payload ctx) EventPayload fc.

(** ** Validity *)

(** The loop of [target_is_before_source]: the body and the header both move to the next
    items. *)
Fixpoint target_before_loop (src tgt : list bt_field_path_item) : bool :=
  match src, tgt with
  | src_fp_item :: src, tgt_fp_item :: tgt =>
    match src_fp_item, tgt_fp_item with
    | ItemIndex s, ItemIndex t => if s <? t then false else
        match src, tgt with _ :: src, _ :: tgt => target_before_loop src tgt | _, _ => true end
    | _, _ => match src, tgt with _ :: src, _ :: tgt => target_before_loop src tgt | _, _ => true end
    end
  | _, _ => true
  end.
Definition target_is_before_source (src_field_path tgt_field_path : bt_field_path) : bool :=
  if scope_number (fp_root tgt_field_path) <? scope_number (fp_root src_field_path) then true
  else if scope_number (fp_root src_field_path) <? scope_number (fp_root tgt_field_path) then false
  else target_before_loop (fp_items src_field_path) (fp_items tgt_field_path).

Definition borrow_root_field_class (ctx : bt_resolve_field_xref_context) (scope : bt_field_path_scope) : option addr :=
  match scope with
  | PacketContext => packet_context ctx
  | EventCommonContext => event_common_context ctx
  | EventSpecificContext => event_specific_context ctx
  | EventPayload => event_payload ctx
  end.

(** [Some None] is a null pointer. *)
Definition borrow_child_field_class (parent_fc : addr) (fp_item : bt_field_path_item) : option (option addr) :=
  do c <- get_fc h parent_fc;
  if bt_field_class_type_is (fc_type c) BT_FIELD_CLASS_TYPE_OPTION then
    match fc_data c, fp_item with OptionContents content _ _ _, CurrentOptionContent => Some (Some content) | _, _ => None end
  else if is_container c then
    match fc_data c, fp_item with
    | ContainerContents _ named_fcs _, ItemIndex index =>
      guard_ub (0 <=? index); do nf <- named_fcs !! Z.to_nat index; Some (Some (nf_fc nf))
    | _, _ => None
    end
  else if bt_field_class_type_is (fc_type c) BT_FIELD_CLASS_TYPE_ARRAY then
    match fc_data c, fp_item with
    | StaticArrayContents element _, CurrentArrayElement | DynamicArrayContents element _, CurrentArrayElement => Some (Some element)
    | _, _ => None
    end
  else Some None.

Definition is_array_option_or_variant (c : bt_field_class) : bool :=
  bt_field_class_type_is (fc_type c) BT_FIELD_CLASS_TYPE_ARRAY || bt_field_class_type_is (fc_type c) BT_FIELD_CLASS_TYPE_OPTION ||
  bt_field_class_type_is (fc_type c) BT_FIELD_CLASS_TYPE_VARIANT.

(** The loops on the items to the target: [check] is whether the type of the item is
    asserted. *)
Fixpoint struct_fc_only (check : bool) (fc : option addr) (items : list bt_field_path_item) : option bool :=
  match items with
  | [] => Some true
  | fp_item :: items =>
    do fc <- fc;
    do c <- get_fc h fc;
    if is_array_option_or_variant c then Some false
    else
      BT_ASSERT_DBG check match fp_item with ItemIndex _ => true | _ => false end
        (do fc <- borrow_child_field_class fc fp_item; struct_fc_only check fc items)
  end.

Definition target_field_path_in_different_scope_has_struct_fc_only (src_field_path tgt_field_path : bt_field_path)
    (ctx : bt_resolve_field_xref_context) : option bool :=
  if bool_decide (fp_root src_field_path = fp_root tgt_field_path) then Some true
  else struct_fc_only true (borrow_root_field_class ctx (fp_root tgt_field_path)) (fp_items tgt_field_path).

Fixpoint lca_loop (prev_fc src_fc tgt_fc : option addr) (src tgt : list bt_field_path_item) : option bool :=
  match src, tgt with
  | src_fp_item :: src, tgt_fp_item :: tgt =>
    if bool_decide (src_fc <> tgt_fc) then
      match prev_fc with
      | None => Some true
      | Some prev_fc => do c <- get_fc h prev_fc; Some (fc_type c =? BT_FIELD_CLASS_TYPE_STRUCTURE)
      end
    else
      do s <- src_fc; do t <- tgt_fc;
      do src_child <- borrow_child_field_class s src_fp_item;
      do tgt_child <- borrow_child_field_class t tgt_fp_item;
      lca_loop (Some s) src_child tgt_child src tgt
  | _, _ => Some true
  end.
Definition lca_is_structure_field_class (src_field_path tgt_field_path : bt_field_path) (ctx : bt_resolve_field_xref_context)
    : option bool :=
  if bool_decide (fp_root src_field_path <> fp_root tgt_field_path) then Some true
  else
    do src_fc <- borrow_root_field_class ctx (fp_root src_field_path);
    do tgt_fc <- borrow_root_field_class ctx (fp_root tgt_field_path);
    lca_loop None (Some src_fc) (Some tgt_fc) (fp_items src_field_path) (fp_items tgt_field_path).

(** The loop that should find the common ancestor: it stops only at the end of a path,
    its two indexes being equal.  The field class of the target and its remaining items. *)
Fixpoint find_lca (src_fc tgt_fc : option addr) (src tgt : list bt_field_path_item) : option (option addr * list bt_field_path_item) :=
  match src, tgt with
  | src_fp_item :: src, tgt_fp_item :: tgt =>
    do s <- src_fc; do t <- tgt_fc;
    do src_child <- borrow_child_field_class s src_fp_item;
    do tgt_child <- borrow_child_field_class t tgt_fp_item;
    find_lca src_child tgt_child src tgt
  | _, _ => Some (tgt_fc, tgt)
  end.
Definition lca_to_target_has_struct_fc_only (src_field_path tgt_field_path : bt_field_path) (ctx : bt_resolve_field_xref_context)
    : option bool :=
  if bool_decide (fp_root src_field_path <> fp_root tgt_field_path) then Some true
  else
    do src_fc <- borrow_root_field_class ctx (fp_root src_field_path);
    do tgt_fc <- borrow_root_field_class ctx (fp_root tgt_field_path);
    guard_ub bool_decide (src_fc = tgt_fc);
    do r <- find_lca (Some src_fc) (Some tgt_fc) (fp_items src_field_path) (fp_items tgt_field_path);
    struct_fc_only false (fst r) (snd r).

Definition field_path_is_valid (fuel : nat) (src_fc tgt_fc : addr) (ctx : bt_resolve_field_xref_context) : option bool :=
  do src_field_path <- find_field_class_in_ctx fuel src_fc ctx;
  match src_field_path with
  | None => Some false
  | Some src_field_path =>
    do tgt_field_path <- find_field_class_in_ctx fuel tgt_fc ctx;
    match tgt_field_path with
    | None => Some false
    | Some tgt_field_path =>
      if negb (target_is_before_source src_field_path tgt_field_path) then Some false else
      do b <- target_field_path_in_different_scope_has_struct_fc_only src_field_path tgt_field_path ctx;
      if negb b then Some false else
      do b <- lca_is_structure_field_class src_field_path tgt_field_path ctx;
      if negb b then Some false else
      lca_to_target_has_struct_fc_only src_field_path tgt_field_path ctx
    end
  end.

Definition resolve_field_path (dev : bool) (fuel : nat) (src_fc tgt_fc : addr) (ctx : bt_resolve_field_xref_context)
    : option (option bt_field_path) :=
  do valid <- (if dev then field_path_is_valid fuel src_fc tgt_fc ctx else Some true);
  BT_ASSERT_PRE_DEV dev valid (find_field_class_in_ctx fuel tgt_fc ctx).
End find.

Section resolve.
Context (dev : bool) (fuel0 : nat) (ctx : bt_resolve_field_xref_context).

(** A cross-reference by path gets its path; one by location stays. *)
Definition resolve_xref (h : ir) (fc : addr) (x : option field_xref) : option (option field_xref) :=
  do x <- x;
  match x with
  | XrefPath class path =>
    guard_ub bool_decide (path = None);
    do path <- resolve_field_path h dev fuel0 fc class ctx;
    Some (Some (XrefPath class path))
  | XrefLocation location => Some (Some (XrefLocation location))
  end.

(** The resolving part of [bt_resolve_field_paths]. *)
Definition resolve_own (h : ir) (a : addr) : option ir :=
  do c <- get_fc h a;
  if bt_field_class_type_is (fc_type c) BT_FIELD_CLASS_TYPE_OPTION_WITH_SELECTOR_FIELD then
    match fc_data c with
    | OptionContents content selector_field reversed range_set =>
      do x <- resolve_xref h a selector_field; set_data h a (OptionContents content x reversed range_set)
    | _ => None
    end
  else if fc_type c =? BT_FIELD_CLASS_TYPE_DYNAMIC_ARRAY_WITH_LENGTH_FIELD then
    match fc_data c with
    | DynamicArrayContents element length_field =>
      do x <- resolve_xref h a length_field; set_data h a (DynamicArrayContents element x)
    | _ => None
    end
  else if bt_field_class_type_is (fc_type c) BT_FIELD_CLASS_TYPE_VARIANT_WITH_SELECTOR_FIELD then
    match fc_data c with
    | ContainerContents names named_fcs selector_field =>
      do x <- resolve_xref h a selector_field; set_data h a (ContainerContents names named_fcs x)
    | _ => None
    end
  else Some h.

Fixpoint resolve_all (resolve : ir -> addr -> option ir) (nfs : list bt_named_field_class) (h : ir) : option ir :=
  match nfs with [] => Some h | nf :: nfs => do h <- resolve h (nf_fc nf); resolve_all resolve nfs h end.

Fixpoint bt_resolve_field_paths (fuel : nat) (h : ir) (fc : addr) : option ir :=
  match fuel with
  | O => None
  | S fuel =>
    do h <- resolve_own h fc;
    do c <- get_fc h fc;
    if bt_field_class_type_is (fc_type c) BT_FIELD_CLASS_TYPE_OPTION then
      match fc_data c with OptionContents content _ _ _ => bt_resolve_field_paths fuel h content | _ => None end
    else if is_container c then
      match fc_data c with
      | ContainerContents _ named_fcs _ => resolve_all (bt_resolve_field_paths fuel) named_fcs h
      | _ => None
      end
    else if bt_field_class_type_is (fc_type c) BT_FIELD_CLASS_TYPE_ARRAY then
      match fc_data c with
      | StaticArrayContents element _ | DynamicArrayContents element _ => bt_resolve_field_paths fuel h element
      | _ => None
      end
    else Some h
  end.
End resolve.
