(* ===== verification/FieldPathFacts.v ===== *)
(** The trees of field classes, and what resolving field paths ([FieldPath]) gives. *)

From stdpp Require Import list gmap.
From S2P Require Import Prelude Object IrObj FieldClass FieldPath.

(** * Trees *)

Definition members (nfs : list bt_named_field_class) (i : nat) : list (bt_field_path_item * addr) :=
  imap (fun k nf => (ItemIndex (Z.of_nat (i + k)), nf_fc nf)) nfs.

(** The children of a field class, with the items that lead to them. *)
Definition children (c : bt_field_class) : option (list (bt_field_path_item * addr)) :=
  if bt_field_class_type_is (fc_type c) BT_FIELD_CLASS_TYPE_OPTION then
    match fc_data c with OptionContents content _ _ _ => Some [(CurrentOptionContent, content)] | _ => None end
  else if is_container c then
    match fc_data c with ContainerContents _ nfs _ => Some (members nfs 0) | _ => None end
  else if bt_field_class_type_is (fc_type c) BT_FIELD_CLASS_TYPE_ARRAY then
    match fc_data c with
    | StaticArrayContents element _ | DynamicArrayContents element _ => Some [(CurrentArrayElement, element)]
    | _ => None
    end
  else Some [].

(** The field classes of a tree, in order, when its depth is less than [n]. *)
Fixpoint nodes (n : nat) (h : ir) (a : addr) : option (list addr) :=
  match n with
  | O => None
  | S n => do c <- get_fc h a; do cs <- children c; do ls <- mapM (nodes n h) cs.*2; Some (a :: concat ls)
  end.

(** The field class at a path. *)
Fixpoint walk (h : ir) (a : addr) (q : list bt_field_path_item) : option addr :=
  match q with
  | [] => Some a
  | item :: q => do o <- borrow_child_field_class h a item; do x <- o; walk h x q
  end.

(** The order of the paths in a tree. *)
Fixpoint path_le (q q' : list bt_field_path_item) : Prop :=
  match q, q' with
  | [], _ => True
  | _ :: _, [] => False
  | item :: q, item' :: q' =>
    match item, item' with
    | ItemIndex i, ItemIndex i' => i < i' \/ (i = i' /\ path_le q q')
    | _, _ => item = item' /\ path_le q q'
    end
  end.

Lemma members_cons nf nfs i : members (nf :: nfs) i = (ItemIndex (Z.of_nat i), nf_fc nf) :: members nfs (S i).
Proof.
  unfold members. simpl. rewrite Nat.add_0_r. f_equal. apply imap_ext. intros k x _. simpl. by rewrite Nat.add_succ_r.
Qed.

Lemma members_lookup nfs k item x : members nfs 0 !! k = Some (item, x) <->
  item = ItemIndex (Z.of_nat k) /\ exists nf, nfs !! k = Some nf /\ x = nf_fc nf.
Proof.
  unfold members. rewrite list_lookup_imap. destruct (nfs !! k) as [nf|]; simpl.
  - split; [intros [= <- <-]; split; [done|by exists nf]|intros (-> & nf' & [= <-] & ->); done].
  - split; [done|by intros (_ & nf' & ? & _)].
Qed.

(** The child at an item is the one that the list of children gives. *)
Lemma borrow_child_iff h a c cs item x : get_fc h a = Some c -> children c = Some cs ->
  borrow_child_field_class h a item = Some (Some x) <-> (item, x) ∈ cs.
Proof.
  intros Ha Hc. unfold borrow_child_field_class, children in *. rewrite Ha.
  destruct (bt_field_class_type_is _ BT_FIELD_CLASS_TYPE_OPTION).
  { destruct (fc_data c); try done. injection Hc as <-. rewrite list_elem_of_singleton. destruct item; split; try done; by intros [= ->]. }
  destruct (is_container c).
  { destruct (fc_data c) as [| | | |names nfs sel| | |]; try done. injection Hc as <-. rewrite list_elem_of_lookup. destruct item as [index| |].
    - split.
      + intros Hb. case_bool_decide || idtac. destruct (0 <=? index) eqn:Hi; [|done]. destruct (nfs !! Z.to_nat index) as [nf|] eqn:Hnf; [|done].
        injection Hb as <-. apply Z.leb_le in Hi. exists (Z.to_nat index). apply members_lookup. split; [f_equal; lia|by exists nf].
      + intros (k & (Hk & nf & Hnf & ->)%members_lookup). injection Hk as ->. rewrite (proj2 (Z.leb_le _ _)) by lia. by rewrite Nat2Z.id, Hnf.
    - split; [done|]. by intros (k & (Hk & _)%members_lookup).
    - split; [done|]. by intros (k & (Hk & _)%members_lookup). }
  destruct (bt_field_class_type_is _ BT_FIELD_CLASS_TYPE_ARRAY).
  { destruct (fc_data c); try done; injection Hc as <-; rewrite list_elem_of_singleton; destruct item; split; try done; by intros [= ->]. }
  injection Hc as <-. split; [done|]. by intros ?%elem_of_nil.
Qed.

(** ** The search and the resolution, on the list of children *)

Fixpoint find_in_children (find : addr -> bt_field_path -> option (bool * bt_field_path)) (cs : list (bt_field_path_item * addr))
    (p : bt_field_path) : option (bool * bt_field_path) :=
  match cs with
  | [] => Some (false, p)
  | (item, x) :: cs =>
    do r <- find x (bt_field_path_append_item p item);
    let '(found, p) := r in
    if found : bool then Some (true, p) else do p <- bt_field_path_remove_last_item p; find_in_children find cs p
  end.

Lemma find_in_members_children find nfs : forall i p, find_in_members find i nfs p = find_in_children find (members nfs i) p.
Proof.
  induction nfs as [|nf nfs IH]; intros i p; [done|]. rewrite members_cons. simpl.
  destruct (find _ _) as [[[] p']|]; [done| |done]. destruct (bt_field_path_remove_last_item p'); [apply IH|done].
Qed.

Lemma find_unfold h fuel tgt a p : find_field_class_recursive h (S fuel) tgt a p =
  if bool_decide (tgt = a) then Some (true, p)
  else do c <- get_fc h a; do cs <- children c; find_in_children (find_field_class_recursive h fuel tgt) cs p.
Proof.
  cbn [find_field_class_recursive]. case_bool_decide; [done|]. destruct (get_fc h a) as [c|]; [|done]. unfold children.
  destruct (bt_field_class_type_is _ BT_FIELD_CLASS_TYPE_OPTION); [by destruct (fc_data c)|].
  destruct (is_container c); [destruct (fc_data c); try done; apply find_in_members_children|].
  destruct (bt_field_class_type_is _ BT_FIELD_CLASS_TYPE_ARRAY); [by destruct (fc_data c)|done].
Qed.

Lemma remove_append p item : bt_field_path_remove_last_item (bt_field_path_append_item p item) = Some p.
Proof.
  unfold bt_field_path_remove_last_item, bt_field_path_append_item. destruct p as [root items]. simpl. rewrite length_app. simpl.
  rewrite (proj2 (Nat.ltb_lt _ _)) by lia. by rewrite Nat.add_sub, take_app_length.
Qed.

(** The path [p] followed by [q]. *)
Definition extend (p : bt_field_path) (q : list bt_field_path_item) : bt_field_path := BtFieldPath (fp_root p) (fp_items p ++ q).

Lemma extend_append p item q : extend (bt_field_path_append_item p item) q = extend p (item :: q).
Proof. unfold extend. simpl. by rewrite <- app_assoc. Qed.
Lemma extend_nil p : extend p [] = p.
Proof. unfold extend. rewrite app_nil_r. by destruct p. Qed.

Lemma nodes_self n h a l : nodes n h a = Some l -> a ∈ l.
Proof.
  destruct n as [|n]; [done|]. simpl. destruct (get_fc h a); [|done]. destruct (children _); [|done]. destruct (mapM _ _); [|done].
  intros [= <-]. by apply elem_of_cons; left.
Qed.

(** A class at a path is in the tree. *)
Lemma walk_nodes n h : forall a l q x, nodes n h a = Some l -> walk h a q = Some x -> x ∈ l.
Proof.
  induction n as [|n IH]; intros a l q x Hn Hw; [done|]. destruct q as [|item q]; [injection Hw as <-; by eapply nodes_self|].
  cbn [nodes walk] in *. destruct (get_fc h a) as [c|] eqn:Ha; [|done]. destruct (children c) as [cs|] eqn:Hc; [|done].
  destruct (mapM (nodes n h) cs.*2) as [ls|] eqn:Hls; [|done]. injection Hn as <-. apply mapM_Some in Hls.
  destruct (borrow_child_field_class h a item) as [[y|]|] eqn:Hb; [|done|done].
  apply (borrow_child_iff h a c cs item y Ha Hc) in Hb. apply list_elem_of_lookup in Hb as (k & Hk).
  assert (Hy : cs.*2 !! k = Some y) by by rewrite list_lookup_fmap, Hk.
  destruct (Forall2_lookup_l _ _ _ _ _ Hls Hy) as (l & Hl & Hnl). apply elem_of_cons. right.
  apply list_elem_of_In, in_concat. exists l. split; [apply list_elem_of_In; by eapply list_elem_of_lookup_2|].
  apply list_elem_of_In. by eapply IH.
Qed.

(** ** The search finds the first path *)

(** [q] is the first path from [x] to the target, or there is none. *)
Definition search_result (h : ir) (tgt x : addr) (found : bool) (q : list bt_field_path_item) : Prop :=
  if found then walk h x q = Some tgt /\ forall q', walk h x q' = Some tgt -> path_le q q'
  else q = [] /\ forall q', walk h x q' <> Some tgt.

Definition finds (h : ir) (tgt : addr) (find : addr -> bt_field_path -> option (bool * bt_field_path)) (x : addr) : Prop :=
  forall p, exists b q, find x p = Some (b, extend p q) /\ search_result h tgt x b q.

Lemma find_in_children_spec h tgt find cs : (forall item x, (item, x) ∈ cs -> finds h tgt find x) -> forall p,
  exists b q, find_in_children find cs p = Some (b, extend p q) /\
    if b : bool then exists k item x q0, q = item :: q0 /\ cs !! k = Some (item, x) /\ search_result h tgt x true q0 /\
      forall j item' x' q', (j < k)%nat -> cs !! j = Some (item', x') -> walk h x' q' <> Some tgt
    else q = [] /\ forall item x q', (item, x) ∈ cs -> walk h x q' <> Some tgt.
Proof.
  induction cs as [|[item x] cs IH]; intros Hf p; cbn [find_in_children].
  { exists false, []. rewrite extend_nil. split; [done|]. split; [done|]. by intros ? ? ? ?%elem_of_nil. }
  destruct (Hf item x (list_elem_of_here _ _) (bt_field_path_append_item p item)) as (b & q & -> & Hq).
  rewrite extend_append. destruct b.
  - exists true, (item :: q). split; [done|]. exists O, item, x, q. split; [done|]. split; [done|]. split; [done|]. intros j; lia.
  - destruct Hq as [-> Hno]. rewrite <- extend_append, extend_nil, remove_append.
    destruct (IH (fun i y Hin => Hf i y (list_elem_of_further _ _ _ Hin)) p) as (b & q & -> & Hb). exists b, q. split; [done|].
    destruct b.
    + destruct Hb as (k & item' & x' & q0 & -> & Hk & Hs & Hlt). exists (S k), item', x', q0. split; [done|]. split; [done|]. split; [done|].
      intros [|j] i y q' Hj Hcs; simpl in Hcs; [by injection Hcs as <- <-|]. eapply Hlt; [|exact Hcs]. lia.
    + destruct Hb as [-> Hall]. split; [done|]. intros i y q' [[= -> ->]|Hin]%elem_of_cons; [done|by eapply Hall].
Qed.

(** The items of the children are different, and in order. *)
Lemma children_items c cs k k' item item' x x' : children c = Some cs -> cs !! k = Some (item, x) -> cs !! k' = Some (item', x') ->
  (k = k' /\ item = item' /\ x = x') \/ exists i i', item = ItemIndex i /\ item' = ItemIndex i' /\ ((i < i' /\ (k < k')%nat) \/ (i' < i /\ (k' < k)%nat)).
Proof.
  unfold children. intros Hc Hk Hk'. destruct (decide (k = k')) as [<-|Hne]; [left; naive_solver|].
  assert (Hsingle : forall a b, [(a, b)] !! k = Some (item, x) -> [(a, b)] !! k' = Some (item', x') -> False).
  { intros a b [? _]%list_lookup_singleton_Some [? _]%list_lookup_singleton_Some. lia. }
  destruct (bt_field_class_type_is _ BT_FIELD_CLASS_TYPE_OPTION); [destruct (fc_data c); try done; injection Hc as <-; by edestruct Hsingle|].
  destruct (is_container c).
  { destruct (fc_data c); try done. injection Hc as <-. apply members_lookup in Hk as (-> & _). apply members_lookup in Hk' as (-> & _).
    right. do 2 eexists. split; [done|]. split; [done|]. lia. }
  destruct (bt_field_class_type_is _ BT_FIELD_CLASS_TYPE_ARRAY).
  { destruct (fc_data c); try done; injection Hc as <-; by edestruct Hsingle. }
  injection Hc as <-. by rewrite lookup_nil in Hk.
Qed.

Lemma find_spec n h tgt : forall a l, nodes n h a = Some l -> finds h tgt (find_field_class_recursive h n tgt) a.
Proof.
  induction n as [|n IH]; intros a l Hn p; [done|]. rewrite find_unfold. case_bool_decide as Heq.
  { subst a. exists true, []. rewrite extend_nil. by repeat split. }
  cbn [nodes] in Hn. destruct (get_fc h a) as [c|] eqn:Ha; [|done]. destruct (children c) as [cs|] eqn:Hc; [|done].
  destruct (mapM (nodes n h) cs.*2) as [ls|] eqn:Hls; [|done]. injection Hn as <-. apply mapM_Some in Hls.
  assert (Hwalk : forall q', walk h a q' = Some tgt -> exists k item x q0, q' = item :: q0 /\ cs !! k = Some (item, x) /\ walk h x q0 = Some tgt).
  { intros [|item q0] Hw; [injection Hw as ->; done|]. cbn [walk] in Hw.
    destruct (borrow_child_field_class h a item) as [[x|]|] eqn:Hb; [|done|done].
    apply (borrow_child_iff h a c cs item x Ha Hc) in Hb. apply list_elem_of_lookup in Hb as (k & Hk). by exists k, item, x, q0. }
  destruct (find_in_children_spec h tgt (find_field_class_recursive h n tgt) cs) with (p := p) as (b & q & -> & Hb).
  { intros item x (k & Hk)%list_elem_of_lookup. assert (Hx : cs.*2 !! k = Some x) by by rewrite list_lookup_fmap, Hk.
    destruct (Forall2_lookup_l _ _ _ _ _ Hls Hx) as (l & _ & Hl). by eapply IH. }
  exists b, q. split; [done|]. destruct b.
  - destruct Hb as (k & item & x & q0 & -> & Hk & [Hw Hle] & Hlt). split.
    + cbn [walk]. rewrite (proj2 (borrow_child_iff h a c cs item x Ha Hc)); [done|]. by eapply list_elem_of_lookup_2.
    + intros q' (k' & item' & x' & q1 & -> & Hk' & Hw')%Hwalk.
      destruct (children_items c cs k k' item item' x x' Hc Hk Hk') as [(<- & <- & <-)|(i & i' & -> & -> & [[Hi Hkk]|[Hi Hkk]])].
      * specialize (Hle q1 Hw'). simpl. destruct item; auto.
      * simpl. by left.
      * by destruct (Hlt k' (ItemIndex i') x' q1).
  - destruct Hb as [-> Hall]. split; [done|]. intros q' (k' & item' & x' & q1 & -> & Hk' & Hw')%Hwalk.
    eapply Hall; [by eapply list_elem_of_lookup_2|done].
Qed.

(** ** The context *)

Definition ctx_trees (n : nat) (h : ir) (ctx : bt_resolve_field_xref_context) : Prop :=
  forall s root, borrow_root_field_class ctx s = Some root -> is_Some (nodes n h root).

(** The order of the field paths: of their scopes, then of their items. *)
Definition field_path_le (p p' : bt_field_path) : Prop :=
  scope_number (fp_root p) < scope_number (fp_root p') \/ (fp_root p = fp_root p' /\ path_le (fp_items p) (fp_items p')).

(** The field class at a field path. *)
Definition at_path (h : ir) (ctx : bt_resolve_field_xref_context) (p : bt_field_path) (a : addr) : Prop :=
  exists root, borrow_root_field_class ctx (fp_root p) = Some root /\ walk h root (fp_items p) = Some a.

Lemma find_field_class_spec n h root scope tgt : (forall r, root = Some r -> is_Some (nodes n h r)) ->
  exists r, find_field_class h n root scope tgt = Some r /\
    match r with
    | Some p => exists a, root = Some a /\ fp_root p = scope /\ search_result h tgt a true (fp_items p)
    | None => forall a q, root = Some a -> walk h a q <> Some tgt
    end.
Proof.
  intros Hr. unfold find_field_class. destruct root as [a|]; [|by exists None].
  destruct (Hr a eq_refl) as [l Hl]. destruct (find_spec n h tgt a l Hl (BtFieldPath scope (fp_items bt_field_path_create))) as (b & q & -> & Hq).
  eexists. split; [done|]. destruct b; simpl.
  - by exists a.
  - destruct Hq as [_ Hq]. intros a' q' [= <-]. apply Hq.
Qed.

Lemma find_in_ctx_spec n h ctx tgt : ctx_trees n h ctx ->
  exists r, find_field_class_in_ctx h n tgt ctx = Some r /\
    match r with
    | Some p => at_path h ctx p tgt /\ forall p', at_path h ctx p' tgt -> field_path_le p p'
    | None => forall p', ~ at_path h ctx p' tgt
    end.
Proof.
  intros Ht. unfold find_field_class_in_ctx.
  destruct (find_field_class_spec n h (packet_context ctx) PacketContext tgt) as (r0 & -> & H0); [intros r Hr; by apply (Ht PacketContext)|].
  destruct (find_field_class_spec n h (event_common_context ctx) EventCommonContext tgt) as (r1 & -> & H1); [intros r Hr; by apply (Ht EventCommonContext)|].
  destruct (find_field_class_spec n h (event_specific_context ctx) EventSpecificContext tgt) as (r2 & -> & H2); [intros r Hr; by apply (Ht EventSpecificContext)|].
  destruct (find_field_class_spec n h (event_payload ctx) EventPayload tgt) as (r3 & -> & H3); [intros r Hr; by apply (Ht EventPayload)|].
  assert (Hfound : forall p a, borrow_root_field_class ctx (fp_root p) = Some a -> search_result h tgt a true (fp_items p) ->
    (forall p', scope_number (fp_root p') < scope_number (fp_root p) -> ~ at_path h ctx p' tgt) ->
    at_path h ctx p tgt /\ forall p', at_path h ctx p' tgt -> field_path_le p p').
  { intros p a Ha [Hw Hle] Hlt. split; [by exists a|]. intros p' Hp'. unfold field_path_le.
    destruct (Z.lt_trichotomy (scope_number (fp_root p)) (scope_number (fp_root p'))) as [?|[He|?]]; [by left| |by destruct (Hlt p')].
    right. assert (Hroot : fp_root p = fp_root p') by (by destruct (fp_root p), (fp_root p')). split; [done|].
    destruct Hp' as (root & Hr & Hw'). apply Hle. rewrite <- Hroot, Ha in Hr. by injection Hr as ->. }
  assert (Hno : forall s, (forall a q, borrow_root_field_class ctx s = Some a -> walk h a q <> Some tgt) -> forall p', fp_root p' = s -> ~ at_path h ctx p' tgt).
  { intros s Hs p' <- (root & Hr & Hw). by eapply Hs. }
  repeat case_bool_decide; eexists; (split; [reflexivity|]).
  - destruct r0 as [p|]; [|by destruct H as [? ?]]. destruct H0 as (a & Ha & Hs & Hq). apply (Hfound p a); [by rewrite Hs|done|].
    rewrite Hs. intros p' Hp'. destruct (fp_root p'); simpl in Hp'; lia.
  - apply eq_None_not_Some in H as ->. destruct r1 as [p|]; [|by destruct H4 as [? ?]]. destruct H1 as (a & Ha & Hs & Hq).
    apply (Hfound p a); [by rewrite Hs|done|]. rewrite Hs. intros p' Hp'. destruct (fp_root p') eqn:E; simpl in Hp'; try lia.
    by apply (Hno PacketContext).
  - apply eq_None_not_Some in H as ->. apply eq_None_not_Some in H4 as ->. destruct r2 as [p|]; [|by destruct H5 as [? ?]].
    destruct H2 as (a & Ha & Hs & Hq). apply (Hfound p a); [by rewrite Hs|done|]. rewrite Hs. intros p' Hp'.
    destruct (fp_root p') eqn:E; simpl in Hp'; try lia; [by apply (Hno PacketContext)|by apply (Hno EventCommonContext)].
  - apply eq_None_not_Some in H as ->. apply eq_None_not_Some in H4 as ->. apply eq_None_not_Some in H5 as ->. destruct r3 as [p|].
    + destruct H3 as (a & Ha & Hs & Hq). apply (Hfound p a); [by rewrite Hs|done|]. rewrite Hs. intros p' Hp'.
      destruct (fp_root p') eqn:E; simpl in Hp'; try lia;
        [by apply (Hno PacketContext)|by apply (Hno EventCommonContext)|by apply (Hno EventSpecificContext)].
    + intros p'. destruct (fp_root p') eqn:E;
        [by apply (Hno PacketContext)|by apply (Hno EventCommonContext)|by apply (Hno EventSpecificContext)|by apply (Hno EventPayload)].
Qed.
