(* ===== verification/FieldPathResolve.v ===== *)
(** Resolving the field paths of a tree ([FieldPath]): exactly the cross-references by path
    of its field classes change. *)

From stdpp Require Import list gmap.
From S2P Require Import Prelude Object IrObj FieldClass FieldPath FieldPathFacts.

(** * Cross-references *)

(** The place of a field class for a cross-reference. *)
Inductive xref_slot := NoSlot | BadSlot | Slot (x : option field_xref).

Definition slot (c : bt_field_class) : xref_slot :=
  if bt_field_class_type_is (fc_type c) BT_FIELD_CLASS_TYPE_OPTION_WITH_SELECTOR_FIELD then
    match fc_data c with OptionContents _ x _ _ => Slot x | _ => BadSlot end
  else if fc_type c =? BT_FIELD_CLASS_TYPE_DYNAMIC_ARRAY_WITH_LENGTH_FIELD then
    match fc_data c with DynamicArrayContents _ x => Slot x | _ => BadSlot end
  else if bt_field_class_type_is (fc_type c) BT_FIELD_CLASS_TYPE_VARIANT_WITH_SELECTOR_FIELD then
    match fc_data c with ContainerContents _ _ x => Slot x | _ => BadSlot end
  else NoSlot.

Definition put_xref_data (d : fc_contents) (x : option field_xref) : fc_contents :=
  match d with
  | OptionContents content _ reversed range_set => OptionContents content x reversed range_set
  | DynamicArrayContents element _ => DynamicArrayContents element x
  | ContainerContents names nfs _ => ContainerContents names nfs x
  | d => d
  end.
Definition put_slot (c : bt_field_class) (x : option field_xref) : bt_field_class := with_data c (put_xref_data (fc_data c) x).

(** The class of the cross-reference, when it is by path, and not resolved. *)
Definition unresolved (c : bt_field_class) : option addr :=
  match slot c with Slot (Some (XrefPath class None)) => Some class | _ => None end.

(** Every cross-reference is by location or not resolved. *)
Definition slot_ready (c : bt_field_class) : Prop :=
  match slot c with
  | NoSlot | Slot (Some (XrefLocation _)) | Slot (Some (XrefPath _ None)) => True
  | _ => False
  end.

Lemma slot_put_slot c x y : slot c = Slot y -> slot (put_slot c x) = Slot x.
Proof.
  unfold slot, put_slot. destruct c as [b t fr po m d]. cbn [fc_type fc_data with_data].
  destruct (bt_field_class_type_is t _); [by destruct d|]. destruct (t =? _); [by destruct d|].
  destruct (bt_field_class_type_is t _); [by destruct d|done].
Qed.

Lemma resolve_own_slot dev n ctx h a : resolve_own dev n ctx h a =
  (do c <- get_fc h a;
   match slot c with
   | NoSlot => Some h
   | BadSlot => None
   | Slot x => do x <- resolve_xref dev n ctx h a x; Some (set_fc h a (put_slot c x))
   end).
Proof.
  unfold resolve_own, slot, put_slot, set_data. destruct (get_fc h a) as [c|]; [|done].
  destruct (bt_field_class_type_is _ BT_FIELD_CLASS_TYPE_OPTION_WITH_SELECTOR_FIELD); [by destruct (fc_data c)|].
  destruct (_ =? _); [by destruct (fc_data c)|].
  destruct (bt_field_class_type_is _ BT_FIELD_CLASS_TYPE_VARIANT_WITH_SELECTOR_FIELD); [by destruct (fc_data c)|done].
Qed.

(** ** What the search depends on *)

Definition skeleton (c : bt_field_class) : Z * fc_contents := (fc_type c, put_xref_data (fc_data c) None).
Definition shape_eq (h h' : ir) : Prop := forall a, skeleton <$> get_fc h a = skeleton <$> get_fc h' a.

#[export] Instance shape_eq_equiv : Equivalence shape_eq.
Proof. split; [by intros h a|by intros h h' H a|intros x y z H1 H2 a; by rewrite H1]. Qed.

Lemma shape_eq_cases h h' a : shape_eq h h' ->
  (get_fc h a = None /\ get_fc h' a = None) \/
  exists c c', get_fc h a = Some c /\ get_fc h' a = Some c' /\ fc_type c = fc_type c' /\
    put_xref_data (fc_data c) None = put_xref_data (fc_data c') None.
Proof.
  intros Hs. specialize (Hs a). destruct (get_fc h a) as [c|], (get_fc h' a) as [c'|]; simpl in Hs; try done; [|by left].
  injection Hs as Ht Hd. right. by exists c, c'.
Qed.

Lemma skeleton_children c c' : fc_type c = fc_type c' -> put_xref_data (fc_data c) None = put_xref_data (fc_data c') None ->
  children c = children c' /\ is_container c = is_container c'.
Proof.
  intros Ht Hd. unfold children, is_container. rewrite Ht. split; [|done].
  destruct (fc_data c), (fc_data c'); simpl in Hd; try discriminate; try injection Hd as ? ? ?; subst; done || (injection Hd as ?; by subst).
Qed.

(** Splits on what the two stores have at an address. *)
Ltac shape_cases Hs a :=
  let c := fresh "c" in let c' := fresh "c'" in let E := fresh "E" in let E' := fresh "E'" in let Ht := fresh "Ht" in let Hd := fresh "Hd" in
  destruct (shape_eq_cases _ _ a Hs) as [[E E']|(c & c' & E & E' & Ht & Hd)]; rewrite E, E'; [done|].

Lemma nodes_shape h h' n : shape_eq h h' -> forall a, nodes n h a = nodes n h' a.
Proof.
  intros Hs. induction n as [|n IH]; intros a; [done|]. cbn [nodes]. shape_cases Hs a.
  destruct (skeleton_children c c' Ht Hd) as [-> _]. destruct (children c') as [cs|]; [|done].
  by rewrite (mapM_ext (nodes n h) (nodes n h') cs.*2 (fun x => IH x)).
Qed.

Lemma find_shape h h' tgt n : shape_eq h h' -> forall a p, find_field_class_recursive h n tgt a p = find_field_class_recursive h' n tgt a p.
Proof.
  intros Hs. induction n as [|n IH]; intros a p; [done|]. rewrite !find_unfold. case_bool_decide; [done|]. shape_cases Hs a.
  destruct (skeleton_children c c' Ht Hd) as [-> _]. destruct (children c') as [cs|]; [|done]. clear E E' Hd Ht. revert p.
  induction cs as [|[item x] cs IHc]; intros p; [done|]. cbn [find_in_children]. rewrite IH.
  destruct (find_field_class_recursive h' n tgt x _) as [[[] p']|]; [done| |done].
  destruct (bt_field_path_remove_last_item p'); [apply IHc|done].
Qed.

Lemma find_in_ctx_shape h h' n tgt ctx : shape_eq h h' -> find_field_class_in_ctx h n tgt ctx = find_field_class_in_ctx h' n tgt ctx.
Proof.
  intros Hs. unfold find_field_class_in_ctx, find_field_class.
  destruct (packet_context ctx), (event_common_context ctx), (event_specific_context ctx), (event_payload ctx);
    by rewrite ?(find_shape h h' tgt n Hs).
Qed.

Lemma borrow_child_shape h h' a item : shape_eq h h' -> borrow_child_field_class h a item = borrow_child_field_class h' a item.
Proof.
  intros Hs. unfold borrow_child_field_class. shape_cases Hs a. destruct (skeleton_children c c' Ht Hd) as [_ ->]. rewrite Ht.
  destruct (fc_data c), (fc_data c'); simpl in Hd; try discriminate; try injection Hd as ? ? ?; subst; done || (injection Hd as ?; by subst).
Qed.

Lemma struct_fc_only_shape h h' check : shape_eq h h' -> forall q o, struct_fc_only h check o q = struct_fc_only h' check o q.
Proof.
  intros Hs. induction q as [|item q IH]; intros [a|]; try done. cbn [struct_fc_only]. rewrite (borrow_child_shape h h' a item Hs).
  shape_cases Hs a. unfold is_array_option_or_variant. rewrite Ht. destruct (_ || _); [done|]. unfold BT_ASSERT_DBG.
  destruct (check && _); [done|]. destruct (borrow_child_field_class h' a item) as [o|]; [apply IH|done].
Qed.

Lemma lca_loop_shape h h' : shape_eq h h' -> forall src tgt prev s t, lca_loop h prev s t src tgt = lca_loop h' prev s t src tgt.
Proof.
  intros Hs. induction src as [|i src IH]; intros [|j tgt] prev s t; try done. cbn [lca_loop]. case_bool_decide.
  - destruct prev as [prev|]; [|done]. shape_cases Hs prev. by rewrite Ht.
  - destruct s as [s|], t as [t|]; try done. rewrite !(borrow_child_shape h h') by done.
    destruct (borrow_child_field_class h' s i); [|done]. destruct (borrow_child_field_class h' t j); [apply IH|done].
Qed.

Lemma find_lca_shape h h' : shape_eq h h' -> forall src tgt s t, find_lca h s t src tgt = find_lca h' s t src tgt.
Proof.
  intros Hs. induction src as [|i src IH]; intros [|j tgt] s t; try done. cbn [find_lca].
  destruct s as [s|], t as [t|]; try done. rewrite !(borrow_child_shape h h') by done.
  destruct (borrow_child_field_class h' s i); [|done]. destruct (borrow_child_field_class h' t j); [apply IH|done].
Qed.

Lemma valid_shape h h' n src tgt ctx : shape_eq h h' -> field_path_is_valid h n src tgt ctx = field_path_is_valid h' n src tgt ctx.
Proof.
  intros Hs. unfold field_path_is_valid. rewrite !(find_in_ctx_shape h h') by done.
  destruct (find_field_class_in_ctx h' n src ctx) as [[ps|]|]; try done.
  destruct (find_field_class_in_ctx h' n tgt ctx) as [[pt|]|]; try done. destruct (negb _); [done|].
  unfold target_field_path_in_different_scope_has_struct_fc_only. rewrite (struct_fc_only_shape h h') by done.
  destruct (if bool_decide (fp_root ps = _) then _ else _) as [[]|]; try done.
  unfold lca_is_structure_field_class, lca_to_target_has_struct_fc_only. case_bool_decide; [done|].
  destruct (borrow_root_field_class ctx (fp_root ps)); [|done]. destruct (borrow_root_field_class ctx (fp_root pt)); [|done].
  rewrite (lca_loop_shape h h') by done. destruct (lca_loop h' _ _ _ _ _) as [[]|]; try done.
  rewrite (find_lca_shape h h') by done. destruct (bool_decide _); [|done].
  destruct (find_lca h' _ _ _ _) as [[o q]|]; [|done]. by apply struct_fc_only_shape.
Qed.

(** The addresses of a tree are field classes. *)
Lemma nodes_get n h : forall a l x, nodes n h a = Some l -> x ∈ l -> is_Some (get_fc h x).
Proof.
  induction n as [|n IH]; intros a l x Hl Hx; [done|]. cbn [nodes] in Hl. destruct (get_fc h a) as [c|] eqn:Ha; [|done].
  destruct (children c) as [cs|]; [|done]. destruct (mapM (nodes n h) cs.*2) as [ls|] eqn:Hls; [|done]. injection Hl as <-.
  apply elem_of_cons in Hx as [->|Hx]; [by rewrite Ha|]. apply mapM_Some in Hls.
  apply list_elem_of_In, in_concat in Hx as (l & Hl%list_elem_of_In & Hx%list_elem_of_In). apply list_elem_of_lookup in Hl as (k & Hk).
  destruct (Forall2_lookup_r _ _ _ _ _ Hls Hk) as (y & _ & Hy). by eapply IH.
Qed.

(** * The whole tree *)

Section tree.
(** The store before the resolution. *)
Context (dev : bool) (n0 : nat) (ctx : bt_resolve_field_xref_context) (h0 : ir).

(** The field class once it is resolved. *)
Definition resolved (c : bt_field_class) : bt_field_class :=
  match unresolved c with
  | Some class => put_slot c (Some (XrefPath class (default None (find_field_class_in_ctx h0 n0 class ctx))))
  | None => c
  end.
Definition resolved_object (o : ir_object) : ir_object :=
  match o with FieldClassObject c => FieldClassObject (resolved c) | o => o end.

(** The objects at [l] are resolved and nothing else changes. *)
Definition updates (l : list addr) (h h' : ir) : Prop :=
  forall x, h' !! x = if bool_decide (x ∈ l) then resolved_object <$> h !! x else h !! x.

Lemma skeleton_put_slot c x : skeleton (put_slot c x) = skeleton c.
Proof. unfold skeleton, put_slot. simpl. by destruct (fc_data c). Qed.
Lemma skeleton_resolved c : skeleton (resolved c) = skeleton c.
Proof. unfold resolved. destruct (unresolved c); [apply skeleton_put_slot|done]. Qed.

Lemma updates_get l h h' : updates l h h' -> forall x, get_fc h' x = if bool_decide (x ∈ l) then resolved <$> get_fc h x else get_fc h x.
Proof. intros Hu x. unfold get_fc. rewrite (Hu x). case_bool_decide; [|done]. by destruct (h !! x) as [[]|]. Qed.

Lemma updates_shape l h h' : updates l h h' -> shape_eq h h'.
Proof.
  intros Hu x. rewrite (updates_get l h h' Hu). case_bool_decide; [|done]. destruct (get_fc h x); [|done]. simpl. by rewrite skeleton_resolved.
Qed.

Lemma updates_app l l' h h1 h' : updates l h h1 -> updates l' h1 h' -> (forall x, x ∈ l -> x ∈ l' -> False) -> updates (l ++ l') h h'.
Proof.
  intros H1 H2 Hd x. rewrite (H2 x), (H1 x). destruct (decide (x ∈ l)) as [Hl|Hl], (decide (x ∈ l')) as [Hl'|Hl']; [by destruct (Hd x)| | |];
    rewrite ?(bool_decide_eq_true_2 (x ∈ l)), ?(bool_decide_eq_false_2 (x ∈ l)), ?(bool_decide_eq_true_2 (x ∈ l')), ?(bool_decide_eq_false_2 (x ∈ l')),
      ?bool_decide_eq_true_2, ?bool_decide_eq_false_2 by (rewrite ?elem_of_app; tauto); done.
Qed.

(** What the resolution needs of the field class at [x]. *)
Definition ready (h : ir) (x : addr) : Prop :=
  forall c, get_fc h x = Some c -> slot_ready c /\
    forall class, unresolved c = Some class -> dev = true -> field_path_is_valid h0 n0 x class ctx = Some true.

Lemma ready_updates l h h' x : updates l h h' -> x ∉ l -> ready h x -> ready h' x.
Proof. intros Hu Hx Hr c Hc. rewrite (updates_get l h h' Hu), bool_decide_eq_false_2 in Hc by done. by apply Hr. Qed.

Hypothesis trees : ctx_trees n0 h0 ctx.

Lemma resolve_own_ok h a c : shape_eq h0 h -> get_fc h a = Some c -> ready h a ->
  exists h', resolve_own dev n0 ctx h a = Some h' /\ updates [a] h h'.
Proof.
  intros Hs Ha Hr. rewrite resolve_own_slot, Ha. destruct (Hr c Ha) as [Hok Hv]. unfold slot_ready in Hok.
  assert (Hsame : resolved c = c -> updates [a] h h).
  { intros Hc x. case_bool_decide as Hx; [|done]. apply list_elem_of_singleton in Hx as ->. 
    unfold get_fc in Ha. destruct (h !! a) as [[c'| | | | | | | |]|]; try done. injection Ha as ->. simpl. by rewrite Hc. }
  assert (Hset : forall c', resolved c = c' -> updates [a] h (set_fc h a c')).
  { intros c' <- x. unfold set_fc. rewrite lookup_insert. case_decide as Hx; [subst x; rewrite bool_decide_eq_true_2 by by apply list_elem_of_singleton|
      rewrite bool_decide_eq_false_2 by (rewrite list_elem_of_singleton; congruence); done].
    unfold get_fc in Ha. destruct (h !! a) as [[c'| | | | | | | |]|]; try done. by injection Ha as ->. }
  assert (Hput : forall x, slot c = Slot x -> put_slot c x = c).
  { intros x. unfold slot, put_slot, with_data. destruct c as [b t fr po m d]. simpl. repeat case_match; intros [= <-]; by subst. }
  destruct (slot c) as [| |[[class [path|]|location]|]] eqn:Hslot; try done.
  - exists h. split; [done|]. apply Hsame. unfold resolved, unresolved. by rewrite Hslot.
  - unfold resolve_xref, resolve_field_path. rewrite bool_decide_eq_true_2 by done.
    assert (Hun : unresolved c = Some class) by (unfold unresolved; by rewrite Hslot).
    rewrite <- !(valid_shape h0 h), <- (find_in_ctx_shape h0 h) by done.
    destruct (find_in_ctx_spec n0 h0 ctx class trees) as (r & Hfind & _).
    assert (Hres : resolved c = put_slot c (Some (XrefPath class r))) by (unfold resolved; by rewrite Hun, Hfind).
    unfold BT_ASSERT_PRE_DEV. destruct dev; [rewrite (Hv class Hun eq_refl)|]; simpl; rewrite Hfind; eexists; (split; [done|]); by apply Hset.
  - eexists. split; [done|]. apply Hset. unfold resolved, unresolved. rewrite Hslot. symmetry. by apply Hput.
Qed.

Lemma resolve_unfold n h a : bt_resolve_field_paths dev n0 ctx (S n) h a =
  (do h <- resolve_own dev n0 ctx h a; do c <- get_fc h a; do cs <- children c;
   resolve_all (bt_resolve_field_paths dev n0 ctx n) ((fun x => NamedFieldClass None x false None) <$> cs.*2) h).
Proof.
  cbn [bt_resolve_field_paths]. destruct (resolve_own dev n0 ctx h a) as [h1|]; [|done]. destruct (get_fc h1 a) as [c|]; [|done].
  unfold children. set (f := bt_resolve_field_paths dev n0 ctx n).
  assert (Hone : forall x, f h1 x = resolve_all f [NamedFieldClass None x false None] h1) by (intros x; simpl; by destruct (f h1 x)).
  destruct (bt_field_class_type_is _ BT_FIELD_CLASS_TYPE_OPTION); [destruct (fc_data c); try done; apply Hone|].
  destruct (is_container c).
  { destruct (fc_data c) as [| | | |names nfs x| | |]; try done. generalize 0%nat as i. clear Hone. revert h1.
    induction nfs as [|nf nfs IH]; intros h1 i; [done|]. rewrite members_cons. simpl. destruct (f h1 (nf_fc nf)); [apply IH|done]. }
  destruct (bt_field_class_type_is _ BT_FIELD_CLASS_TYPE_ARRAY); [destruct (fc_data c); try done; apply Hone|done].
Qed.

Lemma resolve_all_ok f as_ ls :
  (forall a l h, (a, l) ∈ zip as_ ls -> shape_eq h0 h -> NoDup l -> Forall (ready h) l -> exists h', f h a = Some h' /\ updates l h h') ->
  length as_ = length ls -> forall h, shape_eq h0 h -> NoDup (concat ls) -> Forall (ready h) (concat ls) ->
  exists h', resolve_all f ((fun x => NamedFieldClass None x false None) <$> as_) h = Some h' /\ updates (concat ls) h h'.
Proof.
  revert ls. induction as_ as [|a as_ IH]; intros [|l ls] Hf Hlen h Hs Hn Hr; try discriminate Hlen.
  { exists h. split; [done|]. by intros x. }
  cbn [concat zip zip_with length] in *. rewrite fmap_cons. cbn [resolve_all nf_fc]. apply NoDup_app in Hn as (Hnl & Hd & Hnls). apply Forall_app in Hr as [Hrl Hrls].
  destruct (Hf a l h (list_elem_of_here _ _) Hs Hnl Hrl) as (h1 & -> & Hu1).
  destruct (IH ls) with (h := h1) as (h' & -> & Hu2).
  - intros a' l' h' Hin. by apply Hf, list_elem_of_further.
  - by injection Hlen.
  - etrans; [exact Hs|by eapply updates_shape].
  - done.
  - rewrite Forall_forall in Hrls |- *. intros x Hx. eapply ready_updates; [exact Hu1| |by apply Hrls]. intros Hxl. by apply (Hd x).
  - exists h'. split; [done|]. eapply updates_app; [done|done|done].
Qed.

Lemma resolve_tree n : forall a l h, nodes n h0 a = Some l -> shape_eq h0 h -> NoDup l -> Forall (ready h) l ->
  exists h', bt_resolve_field_paths dev n0 ctx n h a = Some h' /\ updates l h h'.
Proof.
  induction n as [|n IH]; intros a l h Hl Hs Hn Hr; [done|]. rewrite resolve_unfold. cbn [nodes] in Hl.
  destruct (get_fc h0 a) as [c0|] eqn:Ha0; [|done]. destruct (children c0) as [cs|] eqn:Hc0; [|done].
  destruct (mapM (nodes n h0) cs.*2) as [ls|] eqn:Hls; [|done]. injection Hl as <-. apply mapM_Some in Hls.
  apply NoDup_cons in Hn as [Hna Hn]. apply Forall_cons in Hr as [Hra Hr].
  destruct (shape_eq_cases h0 h a Hs) as [[? _]|(c1 & c & E1 & Ha & Ht & Hd)]; [congruence|]. assert (c1 = c0) as -> by congruence.
  destruct (resolve_own_ok h a c Hs Ha Hra) as (h1 & -> & Hu1).
  rewrite (updates_get [a] h h1 Hu1 a), bool_decide_eq_true_2, Ha by by apply list_elem_of_singleton. simpl.
  pose proof (skeleton_resolved c) as Hsk. injection Hsk as Htr Hdr.
  rewrite (proj1 (skeleton_children c0 (resolved c) ltac:(congruence) ltac:(congruence))) in Hc0. rewrite Hc0.
  destruct (resolve_all_ok (bt_resolve_field_paths dev n0 ctx n) cs.*2 ls) with (h := h1) as (h' & -> & Hu2).
  - intros x l h' Hin Hs' Hnl Hrl. apply list_elem_of_lookup in Hin as (k & Hk). apply lookup_zip_Some in Hk as [Hx Hl].
    apply IH; [|done|done|done]. exact (Forall2_lookup_lr _ _ _ _ _ _ Hls Hx Hl).
  - by eapply Forall2_length.
  - etrans; [exact Hs|by eapply updates_shape].
  - done.
  - rewrite Forall_forall in Hr |- *. intros x Hx. eapply ready_updates; [exact Hu1| |by apply Hr].
    intros ->%list_elem_of_singleton. done.
  - exists h'. split; [done|]. change (a :: concat ls) with ([a] ++ concat ls). eapply updates_app; [done|done|].
    by intros x ->%list_elem_of_singleton.
Qed.
End tree.
