(* ===== verification/FieldPathClaims.v ===== *)
(** What the search and the resolution of field paths ([FieldPath]) give, and the faults of
    their validity check, on layouts made with the functions of [FieldClass]. *)

From stdpp Require Import list gmap.
From S2P Require Import Prelude Object IrObj FieldClass FieldClassOps FieldPath FieldPathFacts FieldPathResolve.

(** * Claims *)

(** The search for a field class in a context finds the first of the field paths that
    lead to it, by scope and then by index in the order of the members, and none only when
    none leads to it; the items of the path that it gives are the children to follow. *)
Theorem find_field_class_exact n h ctx tgt : ctx_trees n h ctx ->
  exists r, find_field_class_in_ctx h n tgt ctx = Some r /\
    match r with
    | Some p => at_path h ctx p tgt /\ forall p', at_path h ctx p' tgt -> field_path_le p p'
    | None => forall p', ~ at_path h ctx p' tgt
    end.
Proof. apply find_in_ctx_spec. Qed.

(** C11: Resolving the field paths of a tree of field classes whose cross-references are not
    resolved yet succeeds: each field class of the tree with a cross-reference by path gets
    the first field path of the context that leads to the class it refers to, or none when
    there is none; everything else is unchanged.  In developer mode, this needs that the
    check of the validity accepts each of them. *)
Theorem resolve_field_paths_exact dev n h ctx a l : ctx_trees n h ctx -> nodes n h a = Some l -> NoDup l ->
  Forall (ready dev n ctx h h) l ->
  exists h', bt_resolve_field_paths dev n ctx n h a = Some h' /\
    (forall x, x ∉ l -> h' !! x = h !! x) /\
    (forall x, x ∈ l -> exists c c', get_fc h x = Some c /\ get_fc h' x = Some c' /\
       match unresolved c with
       | None => c' = c
       | Some class => exists r, c' = put_slot c (Some (XrefPath class r)) /\
           match r with
           | Some p => at_path h ctx p class /\ forall p', at_path h ctx p' class -> field_path_le p p'
           | None => forall p', ~ at_path h ctx p' class
           end
       end).
Proof.
  intros Ht Hl Hn Hr. destruct (resolve_tree dev n ctx h Ht n a l h Hl ltac:(done) Hn Hr) as (h' & Hh' & Hu).
  exists h'. split; [done|]. split; [intros x Hx; by rewrite (Hu x), bool_decide_eq_false_2|].
  intros x Hx. destruct (nodes_get n h a l x Hl Hx) as [c Hc]. exists c, (resolved n ctx h c). split; [done|].
  split; [by rewrite (updates_get n ctx h l h h' Hu), bool_decide_eq_true_2, Hc|].
  unfold resolved. destruct (unresolved c) as [class|]; [|done]. destruct (find_in_ctx_spec n h ctx class Ht) as (r & -> & Hspec).
  by exists r.
Qed.

(** * Layouts *)

Definition uint (new : addr) (h : ir) : option ir := bt_field_class_integer_unsigned_create h new 0.
Definition struct_of (new : addr) (members : list addr) (h : ir) : option ir :=
  do h <- bt_field_class_structure_create h new 0;
  foldl (fun h m => do h <- h; bt_field_class_structure_append_member true true h new [Zpos m] m) (Some h) members.
Definition variant_of (new : addr) (options : list addr) (h : ir) : option ir :=
  do h <- bt_field_class_variant_create true true h new 0 None;
  foldl (fun h m => do h <- h; bt_field_class_variant_without_selector_append_option true true h new (Some [Zpos m]) m) (Some h) options.
(** An array of integers whose length is a field of class [len]. *)
Definition array_by (new element len : addr) (h : ir) : option ir :=
  do h <- uint element h; bt_field_class_array_dynamic_create true true h new 0 element (Some len).
Definition array_of (new element : addr) (h : ir) : option ir := bt_field_class_array_static_create true true h new 0 element 2.

Definition payload (a : addr) : bt_resolve_field_xref_context := BtResolveFieldXrefContext None None None (Some a).
Definition store (cs : list (ir -> option ir)) : ir := default ∅ (run_calls cs ∅).

(** [{ { len; array(len) } }] *)
Definition before : ir := store [uint 1; array_by 3 2 1; struct_of 4 [1%positive; 3%positive]; struct_of 5 [4%positive]]%positive.
(** [{ { array(len); len } }] *)
Definition after : ir := store [uint 1; array_by 3 2 1; struct_of 4 [3%positive; 1%positive]; struct_of 5 [4%positive]]%positive.
(** [{ { { int; len } }; { { array(len) } } }] *)
Definition apart : ir :=
  store [uint 1; uint 6; array_by 3 2 1; struct_of 4 [6%positive; 1%positive]; struct_of 7 [4%positive];
         struct_of 8 [3%positive]; struct_of 9 [8%positive]; struct_of 5 [7%positive; 9%positive]]%positive.
(** [{ <len; array(len)> }] *)
Definition in_variant : ir := store [uint 1; array_by 3 2 1; variant_of 4 [1%positive; 3%positive]; struct_of 5 [4%positive]]%positive.
(** [{ len[2]; { array(len) } }] *)
Definition in_array : ir :=
  store [uint 1; array_by 3 2 1; array_of 4 1; struct_of 6 [3%positive]; struct_of 5 [4%positive; 6%positive]]%positive.

Definition items_to (h : ir) (a : addr) : option (list bt_field_path_item) :=
  match find_field_class_in_ctx h 8 a (payload 5%positive) with Some (Some p) => Some (fp_items p) | _ => None end.

(** * The order *)

(** The items that are compared. *)
Lemma target_before_loop_spec n : forall src tgt, (length src <= n)%nat ->
  target_before_loop src tgt = true <->
  forall k i j, src !! (2 * k)%nat = Some (ItemIndex i) -> tgt !! (2 * k)%nat = Some (ItemIndex j) -> j <= i.
Proof.
  induction n as [|n IH]; intros src tgt Hn.
  { destruct src; [|simpl in Hn; lia]. split; [|done]. intros _ k i j Hk. by rewrite lookup_nil in Hk. }
  destruct src as [|s src]; [split; [|done]; intros _ k i j Hk; by rewrite lookup_nil in Hk|].
  destruct tgt as [|t tgt]; [split; [|by destruct s]; intros _ k i j _ Hk; by rewrite lookup_nil in Hk|].
  set (rest := match src, tgt with _ :: src, _ :: tgt => target_before_loop src tgt | _, _ => true end).
  assert (Hrest : rest = true <-> forall k i j, (s :: src) !! (2 * S k)%nat = Some (ItemIndex i) -> (t :: tgt) !! (2 * S k)%nat = Some (ItemIndex j) -> j <= i).
  { unfold rest. destruct src as [|s' src]; [split; [|done]; intros _ k i j Hk; by replace (2 * S k)%nat with (S (S (2 * k))) in Hk by lia|].
    destruct tgt as [|t' tgt]; [split; [|done]; intros _ k i j _ Hk; by replace (2 * S k)%nat with (S (S (2 * k))) in Hk by lia|].
    rewrite (IH src tgt) by (simpl in Hn; lia). split; intros H k i j; specialize (H k i j);
      replace (2 * S k)%nat with (S (S (2 * k))) in * by lia; exact H. }
  assert (Hstep : target_before_loop (s :: src) (t :: tgt) = true <->
    (forall i j, s = ItemIndex i -> t = ItemIndex j -> j <= i) /\ rest = true).
  { simpl. fold rest. destruct s as [i| |]; [destruct t as [j| |]; [destruct (Z.ltb_spec i j)| |]| |]; split;
      try (intros Hr; split; [|exact Hr]); try (by intros [_ Hr]); try (by intros ? ?); intros.
    - done.
    - destruct H0 as [H0 _]. specialize (H0 i j eq_refl eq_refl). lia.
    - simplify_eq. lia. }
  rewrite Hstep, Hrest. split.
  - intros [H0 H] [|k] i j Hs Ht; [injection Hs as ->; injection Ht as ->; by apply H0|by eapply H].
  - intros H. split; [intros i j -> ->; by apply (H O)|]. intros k i j. apply H.
Qed.

(** For paths of one scope, the check that the target is before the source compares
    the indexes at every second level only, without regard to the levels before.  So it
    accepts an array whose length follows it in the same nested structure, and rejects one
    whose length is in an earlier structure but at a greater index. *)
Theorem target_order_skips_levels :
  (forall src tgt, fp_root src = fp_root tgt -> target_is_before_source src tgt = true <->
     forall k i j, fp_items src !! (2 * k)%nat = Some (ItemIndex i) -> fp_items tgt !! (2 * k)%nat = Some (ItemIndex j) -> j <= i) /\
  (items_to after 3%positive = Some [ItemIndex 0; ItemIndex 0] /\ items_to after 1%positive = Some [ItemIndex 0; ItemIndex 1] /\
   field_path_is_valid after 8 3%positive 1%positive (payload 5%positive) = Some true) /\
  (items_to apart 3%positive = Some [ItemIndex 1; ItemIndex 0; ItemIndex 0] /\ items_to apart 1%positive = Some [ItemIndex 0; ItemIndex 0; ItemIndex 1] /\
   field_path_is_valid apart 8 3%positive 1%positive (payload 5%positive) = Some false).
Proof.
  split; [|split; by vm_compute].
  intros src tgt Hr. unfold target_is_before_source. rewrite Hr, Z.ltb_irrefl.
  apply (target_before_loop_spec (length (fp_items src))). lia.
Qed.

(** The checks of the lowest common ancestor miss the last level that the two paths
    share: the length of an array may be in another option of the same variant, or in an
    array next to the structure that has it, and the field path is accepted and set. *)
Theorem common_ancestor_checks_miss :
  ((do h' <- bt_resolve_field_paths true 8 (payload 5%positive) 8 in_variant 5%positive; slot <$> get_fc h' 3%positive) =
     Some (Slot (Some (XrefPath 1%positive (Some (BtFieldPath EventPayload [ItemIndex 0; ItemIndex 0]))))) /\
   items_to in_variant 3%positive = Some [ItemIndex 0; ItemIndex 1] /\
   fc_type <$> get_fc in_variant 4%positive = Some BT_FIELD_CLASS_TYPE_VARIANT_WITHOUT_SELECTOR_FIELD) /\
  ((do h' <- bt_resolve_field_paths true 8 (payload 5%positive) 8 in_array 5%positive; slot <$> get_fc h' 3%positive) =
     Some (Slot (Some (XrefPath 1%positive (Some (BtFieldPath EventPayload [ItemIndex 0; CurrentArrayElement]))))) /\
   items_to in_array 3%positive = Some [ItemIndex 1; ItemIndex 0]).
Proof. by vm_compute. Qed.

(** * Witnesses *)

(** Decides [ready]. *)
Definition readyb (dev : bool) (n : nat) (ctx : bt_resolve_field_xref_context) (h : ir) (x : addr) : bool :=
  match get_fc h x with
  | Some c =>
    match slot c with
    | NoSlot | Slot (Some (XrefLocation _)) => true
    | Slot (Some (XrefPath class None)) =>
      negb dev || match field_path_is_valid h n x class ctx with Some b => b | None => false end
    | _ => false
    end
  | None => true
  end.
Lemma readyb_ok dev n ctx h x : readyb dev n ctx h x = true -> ready dev n ctx h h x.
Proof.
  unfold readyb, ready, slot_ready, unresolved. intros Hb c Hc. rewrite Hc in Hb.
  destruct (slot c) as [| |[[class [|]|]|]]; try done. split; [done|]. intros class' [= <-] ->. simpl in Hb.
  by destruct (field_path_is_valid h n x class ctx) as [[]|].
Qed.

Lemma find_field_class_exact_witness :
  ctx_trees 8 before (payload 5%positive) /\
  find_field_class_in_ctx before 8 1%positive (payload 5%positive) = Some (Some (BtFieldPath EventPayload [ItemIndex 0; ItemIndex 0])) /\
  forall p, at_path before (payload 5%positive) p 1%positive -> field_path_le (BtFieldPath EventPayload [ItemIndex 0; ItemIndex 0]) p.
Proof.
  assert (Ht : ctx_trees 8 before (payload 5%positive)) by (intros [] root [= <-]; vm_compute; by eexists).
  split; [exact Ht|]. destruct (find_field_class_exact 8 before (payload 5%positive) 1%positive Ht) as (r & Hr & Hspec).
  split; [by vm_compute|]. vm_compute in Hr. injection Hr as <-. apply Hspec.
Defined.

Lemma resolve_field_paths_exact_witness :
  exists h' c' p, bt_resolve_field_paths true 8 (payload 5%positive) 8 before 5%positive = Some h' /\ get_fc h' 3%positive = Some c' /\
    slot c' = Slot (Some (XrefPath 1%positive (Some p))) /\ at_path before (payload 5%positive) p 1%positive.
Proof.
  assert (Ht : ctx_trees 8 before (payload 5%positive)) by (intros [] root [= <-]; vm_compute; by eexists).
  assert (Hn : nodes 8 before 5%positive = Some [5; 4; 1; 3; 2]%positive) by by vm_compute.
  assert (Hd : NoDup [5; 4; 1; 3; 2]%positive) by (apply (bool_decide_unpack _); by vm_compute).
  assert (Hr : Forall (ready true 8 (payload 5%positive) before before) [5; 4; 1; 3; 2]%positive)
    by (repeat apply Forall_cons_2; try apply Forall_nil_2; apply readyb_ok; by vm_compute).
  destruct (resolve_field_paths_exact true 8 before (payload 5%positive) 5%positive _ Ht Hn Hd Hr) as (h' & Hh' & _ & Hin).
  destruct (Hin 3%positive ltac:(apply (bool_decide_unpack _); by vm_compute)) as (c & c' & Hc & Hc' & Hcase).
  assert (Hs : slot <$> get_fc before 3%positive = Some (Slot (Some (XrefPath 1%positive None)))) by by vm_compute.
  rewrite Hc in Hs. injection Hs as Hs. unfold unresolved in Hcase. rewrite Hs in Hcase. destruct Hcase as (r & -> & Hr').
  destruct r as [p|].
  - exists h', (put_slot c (Some (XrefPath 1%positive (Some p)))), p. split; [exact Hh'|]. split; [exact Hc'|]. split; [by eapply slot_put_slot|apply Hr'].
  - exfalso. apply (Hr' (BtFieldPath EventPayload [ItemIndex 0; ItemIndex 0])). exists 5%positive. split; [done|by vm_compute].
Defined.
