(* ===== verification/TraceIr.v ===== *)
(** Trace, stream and event classes, traces and streams: [src/src/lib/trace-ir/trace-class.c],
    [stream-class.c], [event-class.c], [trace.c], [stream.c] and [attributes.c].

    The functions work on the store of [IrObj] and use those of [FieldClass] and
    [FieldPath].  [dev] tells whether the library is built in developer mode and [debug] in
    debug mode; no error is pending in the current thread; allocations succeed at an address
    [new] that the caller gives.  [listener] is what a destruction listener does to the
    store.  User attributes and object pools are left out. *)

From stdpp Require Import list gmap.
From S2P Require Import Prelude Object IntRange IrObj FieldClass FieldPath.

(** * Fields of the objects *)

Definition with_stream_classes (tc : bt_trace_class) (l : list addr) : bt_trace_class :=
  BtTraceClass (tc_base tc) (tc_mip_version tc) l (assigns_automatic_stream_class_id tc) (tc_destruction_listeners tc) (tc_frozen tc).
Definition with_assigns_automatic_stream_class_id (tc : bt_trace_class) (b : bool) : bt_trace_class :=
  BtTraceClass (tc_base tc) (tc_mip_version tc) (stream_classes tc) b (tc_destruction_listeners tc) (tc_frozen tc).
Definition with_tc_listeners (tc : bt_trace_class) (l : list (option destruction_listener)) : bt_trace_class :=
  BtTraceClass (tc_base tc) (tc_mip_version tc) (stream_classes tc) (assigns_automatic_stream_class_id tc) l (tc_frozen tc).
Definition with_tc_frozen (tc : bt_trace_class) : bt_trace_class :=
  BtTraceClass (tc_base tc) (tc_mip_version tc) (stream_classes tc) (assigns_automatic_stream_class_id tc) (tc_destruction_listeners tc) true.

Definition with_sc_names (sc : bt_stream_class) (n : ir_names) : bt_stream_class :=
  BtStreamClass (sc_base sc) n (sc_id sc) (assigns_automatic_event_class_id sc) (assigns_automatic_stream_id sc) (support sc)
    (packet_context_fc sc) (event_common_context_fc sc) (default_clock_class sc) (event_classes sc) (sc_frozen sc).
Definition with_automatic (sc : bt_stream_class) (event_class stream : bool) : bt_stream_class :=
  BtStreamClass (sc_base sc) (sc_names sc) (sc_id sc) event_class stream (support sc)
    (packet_context_fc sc) (event_common_context_fc sc) (default_clock_class sc) (event_classes sc) (sc_frozen sc).
Definition with_support (sc : bt_stream_class) (s : sc_support) : bt_stream_class :=
  BtStreamClass (sc_base sc) (sc_names sc) (sc_id sc) (assigns_automatic_event_class_id sc) (assigns_automatic_stream_id sc) s
    (packet_context_fc sc) (event_common_context_fc sc) (default_clock_class sc) (event_classes sc) (sc_frozen sc).
Definition with_contexts (sc : bt_stream_class) (packet_context event_common_context : option addr) : bt_stream_class :=
  BtStreamClass (sc_base sc) (sc_names sc) (sc_id sc) (assigns_automatic_event_class_id sc) (assigns_automatic_stream_id sc) (support sc)
    packet_context event_common_context (default_clock_class sc) (event_classes sc) (sc_frozen sc).
Definition with_default_clock_class (sc : bt_stream_class) (cc : option addr) : bt_stream_class :=
  BtStreamClass (sc_base sc) (sc_names sc) (sc_id sc) (assigns_automatic_event_class_id sc) (assigns_automatic_stream_id sc) (support sc)
    (packet_context_fc sc) (event_common_context_fc sc) cc (event_classes sc) (sc_frozen sc).
Definition with_event_classes (sc : bt_stream_class) (l : list addr) : bt_stream_class :=
  BtStreamClass (sc_base sc) (sc_names sc) (sc_id sc) (assigns_automatic_event_class_id sc) (assigns_automatic_stream_id sc) (support sc)
    (packet_context_fc sc) (event_common_context_fc sc) (default_clock_class sc) l (sc_frozen sc).
Definition with_sc_frozen (sc : bt_stream_class) : bt_stream_class :=
  BtStreamClass (sc_base sc) (sc_names sc) (sc_id sc) (assigns_automatic_event_class_id sc) (assigns_automatic_stream_id sc) (support sc)
    (packet_context_fc sc) (event_common_context_fc sc) (default_clock_class sc) (event_classes sc) true.

Definition with_ec_fields (ec : bt_event_class) (specific_context payload : option addr) : bt_event_class :=
  BtEventClass (ec_base ec) specific_context payload (ec_names ec) (ec_id ec) (log_level ec) (emf_uri ec) (ec_frozen ec).
Definition with_ec_names (ec : bt_event_class) (n : ir_names) : bt_event_class :=
  BtEventClass (ec_base ec) (specific_context_fc ec) (payload_fc ec) n (ec_id ec) (log_level ec) (emf_uri ec) (ec_frozen ec).
Definition with_log_level (ec : bt_event_class) (level : option Z) (uri : option (list Z)) : bt_event_class :=
  BtEventClass (ec_base ec) (specific_context_fc ec) (payload_fc ec) (ec_names ec) (ec_id ec) level uri (ec_frozen ec).

Definition with_trace_names (t : bt_trace) (n : ir_names) : bt_trace :=
  BtTrace (trace_base t) (trace_class t) n (environment t) (streams t) (stream_classes_stream_count t)
    (trace_destruction_listeners t) (trace_frozen t).
Definition with_environment (t : bt_trace) (env : list (list Z * env_value)) : bt_trace :=
  BtTrace (trace_base t) (trace_class t) (trace_names t) env (streams t) (stream_classes_stream_count t)
    (trace_destruction_listeners t) (trace_frozen t).
Definition with_streams (t : bt_trace) (l : list addr) (count : gmap addr Z) : bt_trace :=
  BtTrace (trace_base t) (trace_class t) (trace_names t) (environment t) l count (trace_destruction_listeners t) (trace_frozen t).
Definition with_trace_listeners (t : bt_trace) (l : list (option destruction_listener)) : bt_trace :=
  BtTrace (trace_base t) (trace_class t) (trace_names t) (environment t) (streams t) (stream_classes_stream_count t) l (trace_frozen t).
Definition with_trace_frozen (t : bt_trace) : bt_trace :=
  BtTrace (trace_base t) (trace_class t) (trace_names t) (environment t) (streams t) (stream_classes_stream_count t)
    (trace_destruction_listeners t) true.
Definition with_stream (s : bt_stream) (name : option (list Z)) (frozen : bool) : bt_stream :=
  BtStream (stream_base s) (stream_class s) name (stream_id s) frozen.

Definition update_tc (h : ir) (a : addr) (f : bt_trace_class -> bt_trace_class) : option ir :=
  do tc <- get_tc h a; Some (<[a := TraceClassObject (f tc)]> h).
Definition update_sc (h : ir) (a : addr) (f : bt_stream_class -> bt_stream_class) : option ir :=
  do sc <- get_sc h a; Some (<[a := StreamClassObject (f sc)]> h).
Definition update_ec (h : ir) (a : addr) (f : bt_event_class -> bt_event_class) : option ir :=
  do ec <- get_ec h a; Some (<[a := EventClassObject (f ec)]> h).
Definition update_trace (h : ir) (a : addr) (f : bt_trace -> bt_trace) : option ir :=
  do t <- get_trace h a; Some (<[a := TraceObject (f t)]> h).
Definition update_stream (h : ir) (a : addr) (f : bt_stream -> bt_stream) : option ir :=
  do s <- get_stream h a; Some (<[a := StreamObject (f s)]> h).

Definition destroy_trace_class_func : func := 4%positive.
Definition destroy_stream_class_func : func := 5%positive.
Definition destroy_event_class_func : func := 6%positive.
Definition destroy_trace_func : func := 7%positive.
Definition destroy_stream_func : func := 8%positive.
Definition destroy_clock_class_func : func := 9%positive.

Section ops.
Context (dev debug : bool).
Context (listener : destruction_listener -> addr -> ir -> option ir).

(** * Ends *)

Section ends.
Context (call : func -> addr -> ir -> option ir).

Fixpoint try_spec_release_all (l : list addr) (h : ir) : option ir :=
  match l with
  | [] => Some h
  | a :: l => do r <- bt_object_try_spec_release debug h a; do h <- run call r; try_spec_release_all l h
  end.

(** The loop on the destruction listeners, from index [i], of an object that [get] reads. *)
Fixpoint call_destruction_listeners (get : ir -> addr -> option (bt_object * list (option destruction_listener)))
    (fuel : nat) (a : addr) (i : nat) (h : ir) : option ir :=
  match fuel with
  | O => None
  | S fuel =>
    do r <- get h a;
    match snd r !! i with
    | None => Some h
    | Some elem =>
      do h <- match elem with Some f => listener f a h | None => Some h end;
      do r <- get h a;
      guard_ub (ref_count (fst r) =? 1);
      call_destruction_listeners get fuel a (S i) h
    end
  end.

(** [obj->base.ref_count++] *)
Definition increment_ref_count (h : ir) (a : addr) : option ir :=
  do o <- h !! a; Some (<[a := set_base o (set_ref_count (base o) (wrapu 64 (ref_count (base o) + 1)))]> h).

Definition tc_view (h : ir) (a : addr) : option (bt_object * list (option destruction_listener)) :=
  do tc <- get_tc h a; Some (tc_base tc, tc_destruction_listeners tc).
Definition trace_view (h : ir) (a : addr) : option (bt_object * list (option destruction_listener)) :=
  do t <- get_trace h a; Some (trace_base t, trace_destruction_listeners t).

(** [fuel] bounds the loop on the listeners, which can add listeners. *)
Definition destroy_trace_class (fuel : nat) (h : ir) (tc : addr) : option ir :=
  do h <- increment_ref_count h tc;
  do h <- call_destruction_listeners tc_view fuel tc 0 h;
  do t <- get_tc h tc;
  do h <- try_spec_release_all (stream_classes t) h;
  Some (delete tc h).

Definition destroy_stream_class (h : ir) (stream_class : addr) : option ir :=
  do sc <- get_sc h stream_class;
  do h <- put_ref debug call h (default_clock_class sc);
  do h <- try_spec_release_all (event_classes sc) h;
  do h <- put_ref debug call h (packet_context_fc sc);
  do h <- put_ref debug call h (event_common_context_fc sc);
  Some (delete stream_class h).

Definition destroy_event_class (h : ir) (event_class : addr) : option ir :=
  do ec <- get_ec h event_class;
  do h <- put_ref debug call h (specific_context_fc ec);
  do h <- put_ref debug call h (payload_fc ec);
  Some (delete event_class h).

Definition destroy_trace (fuel : nat) (h : ir) (trace : addr) : option ir :=
  do h <- increment_ref_count h trace;
  do h <- call_destruction_listeners trace_view fuel trace 0 h;
  do t <- get_trace h trace;
  do h <- try_spec_release_all (streams t) h;
  do h <- put_ref debug call h (Some (trace_class t));
  Some (delete trace h).

Definition destroy_stream (h : ir) (stream : addr) : option ir :=
  do s <- get_stream h stream;
  do h <- put_ref debug call h (Some (stream_class s));
  Some (delete stream h).
End ends.

Fixpoint call_trace_ir (fuel : nat) (f : func) (a : addr) (h : ir) : option ir :=
  match fuel with
  | O => None
  | S fuel =>
    let call := call_trace_ir fuel in
    if bool_decide (f = destroy_field_class_func) then destroy_field_class debug call h a
    else if bool_decide (f = destroy_trace_class_func) then destroy_trace_class call fuel h a
    else if bool_decide (f = destroy_stream_class_func) then destroy_stream_class call h a
    else if bool_decide (f = destroy_event_class_func) then destroy_event_class call h a
    else if bool_decide (f = destroy_trace_func) then destroy_trace call fuel h a
    else if bool_decide (f = destroy_stream_func) then destroy_stream call h a
    else Some (delete a h)
  end.

(** * Destruction listeners *)

(** The next available place, from index [i]. *)
Fixpoint find_place (l : list (option destruction_listener)) (i : nat) : nat :=
  match l with
  | [] => i
  | elem :: l => if bool_decide (elem = None) then i else find_place l (S i)
  end.
(** The listeners once [f] is added, and its identifier: [g_array_insert_val] moves the
    elements from the place on. *)
Definition add_listener (l : list (option destruction_listener)) (f : destruction_listener)
    : list (option destruction_listener) * Z :=
  let i := find_place l 0 in (take i l ++ Some f :: drop i l, Z.of_nat i).

Definition has_listener_id (l : list (option destruction_listener)) (listener_id : Z) : option bool :=
  guard_ub ((0 <=? listener_id) && (listener_id <? Z.of_nat (length l)));
  do elem <- l !! Z.to_nat listener_id; Some (bool_decide (is_Some elem)).

Definition bt_trace_class_add_destruction_listener (h : ir) (tc : addr) (f : destruction_listener) : option (Z * ir) :=
  do c <- get_tc h tc;
  let '(l, id) := add_listener (tc_destruction_listeners c) f in
  do h <- update_tc h tc (fun c => with_tc_listeners c l); Some (id, h).
Definition bt_trace_class_remove_destruction_listener (h : ir) (tc : addr) (listener_id : Z) : option ir :=
  do c <- get_tc h tc;
  do b <- has_listener_id (tc_destruction_listeners c) listener_id;
  BT_ASSERT_PRE b (update_tc h tc (fun c => with_tc_listeners c (<[Z.to_nat listener_id := None]> (tc_destruction_listeners c)))).
Definition bt_trace_add_destruction_listener (h : ir) (trace : addr) (f : destruction_listener) : option (Z * ir) :=
  do t <- get_trace h trace;
  let '(l, id) := add_listener (trace_destruction_listeners t) f in
  do h <- update_trace h trace (fun t => with_trace_listeners t l); Some (id, h).
Definition bt_trace_remove_destruction_listener (h : ir) (trace : addr) (listener_id : Z) : option ir :=
  do t <- get_trace h trace;
  do b <- has_listener_id (trace_destruction_listeners t) listener_id;
  BT_ASSERT_PRE b
    (update_trace h trace (fun t => with_trace_listeners t (<[Z.to_nat listener_id := None]> (trace_destruction_listeners t)))).

(** * Trace classes *)

(** [mip] is the version of the graph of the component. *)
Definition bt_trace_class_create (h : ir) (new : addr) (mip : Z) : option ir :=
  guard_ub bool_decide (h !! new = None);
  Some (<[new := TraceClassObject (BtTraceClass (bt_object_init_shared_with_parent destroy_trace_class_func) mip [] true [] false)]> h).

Definition bt_trace_class_freeze (h : ir) (tc : addr) : option ir := if dev then update_tc h tc with_tc_frozen else Some h.

Definition bt_trace_class_set_assigns_automatic_stream_class_id (h : ir) (tc : addr) (value : bool) : option ir :=
  do c <- get_tc h tc;
  BT_ASSERT_PRE_DEV dev (negb (tc_frozen c)) (update_tc h tc (fun c => with_assigns_automatic_stream_class_id c value)).

Definition bt_trace_class_borrow_stream_class_by_index (h : ir) (tc : addr) (index : Z) : option addr :=
  do c <- get_tc h tc;
  BT_ASSERT_PRE_DEV dev (index <? Z.of_nat (length (stream_classes c))) (guard_ub (0 <=? index); stream_classes c !! Z.to_nat index).

(** The loops that look for an identifier among the objects [l]; [Some None] when there is
    none. *)
Fixpoint borrow_by_id (get_id : ir -> addr -> option Z) (h : ir) (l : list addr) (id : Z) : option (option addr) :=
  match l with
  | [] => Some None
  | candidate :: l =>
    do i <- get_id h candidate;
    if i =? id then Some (Some candidate) else borrow_by_id get_id h l id
  end.
Fixpoint id_is_unique (get_id : ir -> addr -> option Z) (h : ir) (l : list addr) (id : Z) : option bool :=
  match l with
  | [] => Some true
  | a :: l => do i <- get_id h a; if i =? id then Some false else id_is_unique get_id h l id
  end.
Definition get_sc_id (h : ir) (a : addr) : option Z := do sc <- get_sc h a; Some (sc_id sc).
Definition get_ec_id (h : ir) (a : addr) : option Z := do ec <- get_ec h a; Some (ec_id ec).
Definition get_stream_id (h : ir) (a : addr) : option Z := do s <- get_stream h a; Some (stream_id s).

Definition bt_trace_class_borrow_stream_class_by_id (h : ir) (tc : addr) (id : Z) : option (option addr) :=
  do c <- get_tc h tc; borrow_by_id get_sc_id h (stream_classes c) id.

(** * Stream classes *)

Definition bt_stream_class_borrow_trace_class_inline (h : ir) (stream_class : addr) : option addr :=
  do p <- bt_object_borrow_parent debug h stream_class; p.
Definition sc_mip_version (h : ir) (stream_class : addr) : option Z :=
  do tc <- bt_stream_class_borrow_trace_class_inline h stream_class; do c <- get_tc h tc; Some (tc_mip_version c).

Definition bt_stream_class_freeze (h : ir) (stream_class : addr) : option ir :=
  if dev then update_sc h stream_class with_sc_frozen else Some h.

Definition stream_class_id_is_unique (h : ir) (tc : bt_trace_class) (id : Z) : option bool :=
  id_is_unique get_sc_id h (stream_classes tc) id.

Definition create_stream_class_with_id (h : ir) (tc new : addr) (id : Z) : option ir :=
  do c <- get_tc h tc;
  do unique <- stream_class_id_is_unique h c id;
  BT_ASSERT_PRE unique
    (guard_ub bool_decide (h !! new = None);
     let h := <[new := StreamClassObject
                  (BtStreamClass (bt_object_init_shared_with_parent destroy_stream_class_func) (IrNames None None None) id true true
                     (ScSupport false false false false false false false) None None None [] false)]> h in
     do h <- bt_object_set_parent debug (fun _ _ _ => None) h new (Some tc);
     do h <- update_tc h tc (fun c => with_stream_classes c (stream_classes c ++ [new]));
     bt_trace_class_freeze h tc).
Definition bt_stream_class_create (h : ir) (tc new : addr) : option ir :=
  do c <- get_tc h tc;
  BT_ASSERT_PRE (assigns_automatic_stream_class_id c)
    (create_stream_class_with_id h tc new (Z.of_nat (length (stream_classes c)))).
Definition bt_stream_class_create_with_id (h : ir) (tc new : addr) (id : Z) : option ir :=
  do c <- get_tc h tc;
  BT_ASSERT_PRE (negb (assigns_automatic_stream_class_id c)) (create_stream_class_with_id h tc new id).

(** A change of a stream class that is not frozen. *)
Definition set_hot_sc (h : ir) (stream_class : addr) (f : bt_stream_class -> bt_stream_class) : option ir :=
  do sc <- get_sc h stream_class;
  BT_ASSERT_PRE_DEV dev (negb (sc_frozen sc)) (update_sc h stream_class f).

Definition bt_stream_class_set_namespace (h : ir) (stream_class : addr) (s : list Z) : option ir :=
  do mip <- sc_mip_version h stream_class;
  BT_ASSERT_PRE (1 <=? mip)
    (set_hot_sc h stream_class (fun sc => with_sc_names sc (IrNames (Some s) (name (sc_names sc)) (uid (sc_names sc))))).
Definition bt_stream_class_set_name (h : ir) (stream_class : addr) (s : list Z) : option ir :=
  set_hot_sc h stream_class (fun sc => with_sc_names sc (IrNames (ns (sc_names sc)) (Some s) (uid (sc_names sc)))).
Definition bt_stream_class_set_uid (h : ir) (stream_class : addr) (s : list Z) : option ir :=
  do mip <- sc_mip_version h stream_class;
  BT_ASSERT_PRE (1 <=? mip)
    (set_hot_sc h stream_class (fun sc => with_sc_names sc (IrNames (ns (sc_names sc)) (name (sc_names sc)) (Some s)))).

Definition bt_stream_class_borrow_event_class_by_index (h : ir) (stream_class : addr) (index : Z) : option addr :=
  do sc <- get_sc h stream_class;
  BT_ASSERT_PRE_DEV dev (index <? Z.of_nat (length (event_classes sc))) (guard_ub (0 <=? index); event_classes sc !! Z.to_nat index).
Definition bt_stream_class_borrow_event_class_by_id (h : ir) (stream_class : addr) (id : Z) : option (option addr) :=
  do sc <- get_sc h stream_class; borrow_by_id get_ec_id h (event_classes sc) id.

Definition bt_stream_class_set_assigns_automatic_event_class_id (h : ir) (stream_class : addr) (value : bool) : option ir :=
  set_hot_sc h stream_class (fun sc => with_automatic sc value (assigns_automatic_stream_id sc)).
Definition bt_stream_class_set_assigns_automatic_stream_id (h : ir) (stream_class : addr) (value : bool) : option ir :=
  set_hot_sc h stream_class (fun sc => with_automatic sc (assigns_automatic_event_class_id sc) value).

Definition bt_stream_class_set_supports_discarded_events (h : ir) (stream_class : addr)
    (supports_discarded_events with_default_clock_snapshots : bool) : option ir :=
  do sc <- get_sc h stream_class;
  BT_ASSERT_PRE_DEV dev (negb (sc_frozen sc))
    (BT_ASSERT_PRE (supports_discarded_events || negb with_default_clock_snapshots)
      (BT_ASSERT_PRE (negb with_default_clock_snapshots || bool_decide (is_Some (default_clock_class sc)))
        (update_sc h stream_class (fun sc =>
           let s := support sc in
           with_support sc
             (ScSupport (supports_packets s) (packets_have_beginning_default_clock_snapshot s)
                (packets_have_end_default_clock_snapshot s) supports_discarded_events with_default_clock_snapshots
                (supports_discarded_packets s) (discarded_packets_have_default_clock_snapshots s)))))).

Definition bt_stream_class_set_supports_discarded_packets (h : ir) (stream_class : addr)
    (supports_discarded_packets with_default_clock_snapshots : bool) : option ir :=
  do sc <- get_sc h stream_class;
  BT_ASSERT_PRE_DEV dev (negb (sc_frozen sc))
    (BT_ASSERT_PRE (negb supports_discarded_packets || supports_packets (support sc))
      (BT_ASSERT_PRE (supports_discarded_packets || negb with_default_clock_snapshots)
        (BT_ASSERT_PRE (negb with_default_clock_snapshots || bool_decide (is_Some (default_clock_class sc)))
          (update_sc h stream_class (fun sc =>
             let s := support sc in
             with_support sc
               (ScSupport (supports_packets s) (packets_have_beginning_default_clock_snapshot s)
                  (packets_have_end_default_clock_snapshot s) (supports_discarded_events s)
                  (discarded_events_have_default_clock_snapshots s) supports_discarded_packets with_default_clock_snapshots)))))).

Definition bt_stream_class_set_supports_packets (h : ir) (stream_class : addr)
    (supports_packets with_beginning with_end : bool) : option ir :=
  do sc <- get_sc h stream_class;
  let with_default_clock_snapshot := with_beginning || with_end in
  BT_ASSERT_PRE_DEV dev (negb (sc_frozen sc))
    (BT_ASSERT_PRE (supports_packets || negb with_default_clock_snapshot)
      (BT_ASSERT_PRE (negb with_default_clock_snapshot || bool_decide (is_Some (default_clock_class sc)))
        (BT_ASSERT_PRE (supports_packets || bool_decide (packet_context_fc sc = None))
          (BT_ASSERT_PRE (supports_packets || negb (supports_discarded_packets (support sc)))
            (update_sc h stream_class (fun sc =>
               let s := support sc in
               with_support sc
                 (ScSupport supports_packets with_beginning with_end (supports_discarded_events s)
                    (discarded_events_have_default_clock_snapshots s) (supports_discarded_packets s)
                    (discarded_packets_have_default_clock_snapshots s)))))))).

Definition bt_clock_class_freeze (h : ir) (clock_class : addr) : option ir :=
  match h !! clock_class with
  | Some (ClockClassObject b frozen) => Some (if dev then <[clock_class := ClockClassObject b true]> h else h)
  | _ => None
  end.

Section set.
Context (call : func -> addr -> ir -> option ir).
(** The fuel of the functions on field classes: more than the depth of their trees. *)
Context (fuel : nat).

Definition bt_stream_class_set_default_clock_class (h : ir) (stream_class clock_class : addr) : option ir :=
  do sc <- get_sc h stream_class;
  BT_ASSERT_PRE_DEV dev (negb (sc_frozen sc))
    (do h <- put_ref debug call h (default_clock_class sc);
     do h <- update_sc h stream_class (fun sc => with_default_clock_class sc (Some clock_class));
     do h <- get_ref debug h clock_class;
     bt_clock_class_freeze h clock_class).

(** The steps that the four setters of a field class share: resolving and marking the field
    class, and changing the reference of the owner, which was [old], with [set]. *)
Definition set_root_field_class (h : ir) (field_class : addr) (ctx : bt_resolve_field_xref_context) (old : option addr)
    (set : ir -> option ir) : option ir :=
  do fc <- get_fc h field_class;
  BT_ASSERT_PRE (fc_type fc =? BT_FIELD_CLASS_TYPE_STRUCTURE)
    (do h <- bt_resolve_field_paths dev fuel ctx fuel h field_class;
     do h <- bt_field_class_make_part_of_trace_class fuel h field_class;
     do h <- put_ref debug call h old;
     do h <- set h;
     do h <- get_ref debug h field_class;
     bt_field_class_freeze dev h field_class).

Definition bt_stream_class_set_packet_context_field_class (h : ir) (stream_class field_class : addr) : option ir :=
  do sc <- get_sc h stream_class;
  BT_ASSERT_PRE (supports_packets (support sc))
    (BT_ASSERT_PRE_DEV dev (negb (sc_frozen sc))
      (set_root_field_class h field_class (BtResolveFieldXrefContext (Some field_class) None None None) (packet_context_fc sc)
         (fun h => update_sc h stream_class (fun sc => with_contexts sc (Some field_class) (event_common_context_fc sc))))).

Definition bt_stream_class_set_event_common_context_field_class (h : ir) (stream_class field_class : addr) : option ir :=
  do sc <- get_sc h stream_class;
  BT_ASSERT_PRE_DEV dev (negb (sc_frozen sc))
    (set_root_field_class h field_class (BtResolveFieldXrefContext (packet_context_fc sc) (Some field_class) None None)
       (event_common_context_fc sc)
       (fun h => update_sc h stream_class (fun sc => with_contexts sc (packet_context_fc sc) (Some field_class)))).

(** * Event classes *)

Definition bt_event_class_borrow_stream_class_inline (h : ir) (event_class : addr) : option addr :=
  do p <- bt_object_borrow_parent debug h event_class; p.

Definition bt_event_class_set_specific_context_field_class (h : ir) (event_class field_class : addr) : option ir :=
  do ec <- get_ec h event_class;
  BT_ASSERT_PRE_DEV dev (negb (ec_frozen ec))
    (do stream_class <- bt_event_class_borrow_stream_class_inline h event_class;
     do sc <- get_sc h stream_class;
     set_root_field_class h field_class
       (BtResolveFieldXrefContext (packet_context_fc sc) (event_common_context_fc sc) (Some field_class) None)
       (specific_context_fc ec)
       (fun h => update_ec h event_class (fun ec => with_ec_fields ec (Some field_class) (payload_fc ec)))).

Definition bt_event_class_set_payload_field_class (h : ir) (event_class field_class : addr) : option ir :=
  do ec <- get_ec h event_class;
  BT_ASSERT_PRE_DEV dev (negb (ec_frozen ec))
    (do stream_class <- bt_event_class_borrow_stream_class_inline h event_class;
     do sc <- get_sc h stream_class;
     set_root_field_class h field_class
       (BtResolveFieldXrefContext (packet_context_fc sc) (event_common_context_fc sc) (specific_context_fc ec) (Some field_class))
       (payload_fc ec)
       (fun h => update_ec h event_class (fun ec => with_ec_fields ec (specific_context_fc ec) (Some field_class)))).
End set.

Definition event_class_id_is_unique (h : ir) (sc : bt_stream_class) (id : Z) : option bool :=
  id_is_unique get_ec_id h (event_classes sc) id.

Definition create_event_class_with_id (h : ir) (stream_class new : addr) (id : Z) : option ir :=
  do sc <- get_sc h stream_class;
  do unique <- event_class_id_is_unique h sc id;
  BT_ASSERT_PRE unique
    (guard_ub bool_decide (h !! new = None);
     let h := <[new := EventClassObject
                  (BtEventClass (bt_object_init_shared_with_parent destroy_event_class_func) None None (IrNames None None None) id None None false)]> h in
     do h <- bt_object_set_parent debug (fun _ _ _ => None) h new (Some stream_class);
     do h <- update_sc h stream_class (fun sc => with_event_classes sc (event_classes sc ++ [new]));
     bt_stream_class_freeze h stream_class).
Definition bt_event_class_create (h : ir) (stream_class new : addr) : option ir :=
  do sc <- get_sc h stream_class;
  BT_ASSERT_PRE (assigns_automatic_event_class_id sc)
    (create_event_class_with_id h stream_class new (Z.of_nat (length (event_classes sc)))).
Definition bt_event_class_create_with_id (h : ir) (stream_class new : addr) (id : Z) : option ir :=
  do sc <- get_sc h stream_class;
  BT_ASSERT_PRE (negb (assigns_automatic_event_class_id sc)) (create_event_class_with_id h stream_class new id).

(** A change of an event class that is not frozen. *)
Definition set_hot_ec (h : ir) (event_class : addr) (f : bt_event_class -> bt_event_class) : option ir :=
  do ec <- get_ec h event_class;
  BT_ASSERT_PRE_DEV dev (negb (ec_frozen ec)) (update_ec h event_class f).
Definition ec_mip_version (h : ir) (event_class : addr) : option Z :=
  do sc <- bt_event_class_borrow_stream_class_inline h event_class; sc_mip_version h sc.

Definition bt_event_class_set_namespace (h : ir) (event_class : addr) (s : list Z) : option ir :=
  do mip <- ec_mip_version h event_class;
  BT_ASSERT_PRE (1 <=? mip)
    (set_hot_ec h event_class (fun ec => with_ec_names ec (IrNames (Some s) (name (ec_names ec)) (uid (ec_names ec))))).
Definition bt_event_class_set_name (h : ir) (event_class : addr) (s : list Z) : option ir :=
  set_hot_ec h event_class (fun ec => with_ec_names ec (IrNames (ns (ec_names ec)) (Some s) (uid (ec_names ec)))).
Definition bt_event_class_set_uid (h : ir) (event_class : addr) (s : list Z) : option ir :=
  do mip <- ec_mip_version h event_class;
  BT_ASSERT_PRE (1 <=? mip)
    (set_hot_ec h event_class (fun ec => with_ec_names ec (IrNames (ns (ec_names ec)) (name (ec_names ec)) (Some s)))).
Definition bt_event_class_set_log_level (h : ir) (event_class : addr) (level : Z) : option ir :=
  set_hot_ec h event_class (fun ec => with_log_level ec (Some level) (emf_uri ec)).
Definition bt_event_class_set_emf_uri (h : ir) (event_class : addr) (uri : list Z) : option ir :=
  set_hot_ec h event_class (fun ec => with_log_level ec (log_level ec) (Some uri)).
Definition _bt_event_class_freeze (h : ir) (event_class : addr) : option ir :=
  update_ec h event_class (fun ec =>
    BtEventClass (ec_base ec) (specific_context_fc ec) (payload_fc ec) (ec_names ec) (ec_id ec) (log_level ec) (emf_uri ec) true).

(** * Traces *)

Definition bt_trace_create (h : ir) (new tc : addr) : option ir :=
  guard_ub bool_decide (h !! new = None);
  let h := <[new := TraceObject (BtTrace (bt_object_init_shared (ReleaseFunc destroy_trace_func)) tc (IrNames None None None) [] [] ∅ [] false)]> h in
  get_ref debug h tc.

(** A change of a trace that is not frozen. *)
Definition set_hot_trace (h : ir) (trace : addr) (f : bt_trace -> bt_trace) : option ir :=
  do t <- get_trace h trace;
  BT_ASSERT_PRE_DEV dev (negb (trace_frozen t)) (update_trace h trace f).
Definition trace_mip_version (h : ir) (trace : addr) : option Z :=
  do t <- get_trace h trace; do tc <- get_tc h (trace_class t); Some (tc_mip_version tc).

Definition bt_trace_set_namespace (h : ir) (trace : addr) (s : list Z) : option ir :=
  do mip <- trace_mip_version h trace;
  BT_ASSERT_PRE (1 <=? mip)
    (set_hot_trace h trace (fun t => with_trace_names t (IrNames (Some s) (name (trace_names t)) (uid (trace_names t))))).
Definition bt_trace_set_name (h : ir) (trace : addr) (s : list Z) : option ir :=
  set_hot_trace h trace (fun t => with_trace_names t (IrNames (ns (trace_names t)) (Some s) (uid (trace_names t)))).
(** The UUID with version 0, the unique identifier from version 1 on. *)
Definition bt_trace_set_uuid (h : ir) (trace : addr) (s : list Z) : option ir :=
  do mip <- trace_mip_version h trace;
  BT_ASSERT_PRE (mip =? 0)
    (set_hot_trace h trace (fun t => with_trace_names t (IrNames (ns (trace_names t)) (name (trace_names t)) (Some s)))).
Definition bt_trace_set_uid (h : ir) (trace : addr) (s : list Z) : option ir :=
  do mip <- trace_mip_version h trace;
  BT_ASSERT_PRE (1 <=? mip)
    (set_hot_trace h trace (fun t => with_trace_names t (IrNames (ns (trace_names t)) (name (trace_names t)) (Some s)))).

(** ** The environment *)

Fixpoint bt_attributes_borrow_field_value_by_name (env : list (list Z * env_value)) (name : list Z) : option env_value :=
  match env with
  | [] => None
  | (field_name, value) :: env => if bool_decide (field_name = name) then Some value else bt_attributes_borrow_field_value_by_name env name
  end.
(** Replaces the value of the first attribute with the name, or appends an attribute. *)
Fixpoint bt_attributes_set_field_value (env : list (list Z * env_value)) (name : list Z) (value : env_value) : list (list Z * env_value) :=
  match env with
  | [] => [(name, value)]
  | (field_name, old) :: env =>
    if bool_decide (field_name = name) then (field_name, value) :: env
    else (field_name, old) :: bt_attributes_set_field_value env name value
  end.
Definition set_environment_entry (h : ir) (trace : addr) (name : list Z) (value : env_value) : option ir :=
  do t <- get_trace h trace;
  BT_ASSERT_PRE (negb (trace_frozen t) || bool_decide (bt_attributes_borrow_field_value_by_name (environment t) name = None))
    (update_trace h trace (fun t => with_environment t (bt_attributes_set_field_value (environment t) name value))).
Definition bt_trace_set_environment_entry_string (h : ir) (trace : addr) (name value : list Z) : option ir :=
  set_environment_entry h trace name (EnvString value).
Definition bt_trace_set_environment_entry_integer (h : ir) (trace : addr) (name : list Z) (value : Z) : option ir :=
  set_environment_entry h trace name (EnvInteger value).
Definition bt_trace_borrow_environment_entry_by_index_const (h : ir) (trace : addr) (index : Z) : option (list Z * env_value) :=
  do t <- get_trace h trace;
  BT_ASSERT_PRE_DEV dev (index <? Z.of_nat (length (environment t))) (guard_ub (0 <=? index); environment t !! Z.to_nat index).
Definition bt_trace_borrow_environment_entry_value_by_name_const (h : ir) (trace : addr) (name : list Z) : option (option env_value) :=
  do t <- get_trace h trace; Some (bt_attributes_borrow_field_value_by_name (environment t) name).

(** ** Streams *)

Definition bt_trace_freeze (h : ir) (trace : addr) : option ir :=
  if dev then
    do t <- get_trace h trace;
    do h <- bt_trace_class_freeze h (trace_class t);
    update_trace h trace with_trace_frozen
  else Some h.

Definition bt_trace_add_stream (h : ir) (trace stream : addr) : option ir :=
  do h <- bt_object_set_parent debug (fun _ _ _ => None) h stream (Some trace);
  do h <- update_trace h trace (fun t => with_streams t (streams t ++ [stream]) (stream_classes_stream_count t));
  do h <- bt_trace_freeze h trace;
  do s <- get_stream h stream;
  do t <- get_trace h trace;
  let count := default 0 (stream_classes_stream_count t !! stream_class s) in
  update_trace h trace (fun t =>
    with_streams t (streams t) (<[stream_class s := wrapu 32 (count + 1)]> (stream_classes_stream_count t))).

Definition bt_trace_get_automatic_stream_id (t : bt_trace) (stream_class : addr) : Z :=
  default 0 (stream_classes_stream_count t !! stream_class).

(** The loop on the streams of the trace [l]. *)
Fixpoint stream_id_is_unique (h : ir) (l : list addr) (class : addr) (id : Z) : option bool :=
  match l with
  | [] => Some true
  | a :: l =>
    do s <- get_stream h a;
    if bool_decide (stream_class s <> class) then stream_id_is_unique h l class id
    else if stream_id s =? id then Some false else stream_id_is_unique h l class id
  end.

Definition create_stream_with_id (h : ir) (new class trace : addr) (id : Z) : option ir :=
  do t <- get_trace h trace;
  do tc <- bt_stream_class_borrow_trace_class_inline h class;
  BT_ASSERT_PRE (bool_decide (trace_class t = tc))
    (do unique <- stream_id_is_unique h (streams t) class id;
     BT_ASSERT_PRE unique
       (guard_ub bool_decide (h !! new = None);
        let h := <[new := StreamObject (BtStream (bt_object_init_shared_with_parent destroy_stream_func) class None id false)]> h in
        do h <- get_ref debug h class;
        do h <- bt_trace_add_stream h trace new;
        bt_stream_class_freeze h class)).
Definition bt_stream_create (h : ir) (new class trace : addr) : option ir :=
  do sc <- get_sc h class;
  BT_ASSERT_PRE (assigns_automatic_stream_id sc)
    (do t <- get_trace h trace; create_stream_with_id h new class trace (bt_trace_get_automatic_stream_id t class)).
Definition bt_stream_create_with_id (h : ir) (new class trace : addr) (id : Z) : option ir :=
  do sc <- get_sc h class;
  BT_ASSERT_PRE (negb (assigns_automatic_stream_id sc)) (create_stream_with_id h new class trace id).

Definition bt_trace_borrow_stream_by_index (h : ir) (trace : addr) (index : Z) : option addr :=
  do t <- get_trace h trace;
  BT_ASSERT_PRE_DEV dev (index <? Z.of_nat (length (streams t))) (guard_ub (0 <=? index); streams t !! Z.to_nat index).
Definition bt_trace_borrow_stream_by_id (h : ir) (trace : addr) (id : Z) : option (option addr) :=
  do t <- get_trace h trace; borrow_by_id get_stream_id h (streams t) id.

Definition bt_stream_set_name (h : ir) (stream : addr) (s : list Z) : option ir :=
  do st <- get_stream h stream;
  BT_ASSERT_PRE_DEV dev (negb (stream_frozen st)) (update_stream h stream (fun st => with_stream st (Some s) (stream_frozen st))).
Definition _bt_stream_freeze (h : ir) (stream : addr) : option ir := update_stream h stream (fun s => with_stream s (stream_name s) true).
End ops.
