(* ===== verification/TraceIrFacts.v ===== *)
(** Identifiers and support flags of classes and streams ([TraceIr]): an abstract view of
    the store, what each function does to the view, and the invariant of the view. *)

From stdpp Require Import list gmap.
From S2P Require Import Prelude Object IntRange IrObj FieldClass FieldClassFacts FieldPath TraceIr.

(** * The view *)

Inductive cview :=
| VTraceClass (stream_classes : list addr) (automatic frozen : bool)
| VStreamClass (id : Z) (automatic_event_class automatic_stream : bool) (s : sc_support) (has_packet_context has_clock_class : bool)
    (event_classes : list addr) (frozen : bool)
| VEventClass (id : Z)
| VTrace (streams : list addr) (count : gmap addr Z)
| VStream (class : addr) (id : Z).

Definition view_sc (sc : bt_stream_class) : cview :=
  VStreamClass (sc_id sc) (assigns_automatic_event_class_id sc) (assigns_automatic_stream_id sc) (support sc)
    (bool_decide (is_Some (packet_context_fc sc))) (bool_decide (is_Some (default_clock_class sc))) (event_classes sc) (sc_frozen sc).
Definition view_tc (tc : bt_trace_class) : cview :=
  VTraceClass (stream_classes tc) (assigns_automatic_stream_class_id tc) (tc_frozen tc).
Definition view_trace (t : bt_trace) : cview := VTrace (streams t) (stream_classes_stream_count t).
Definition view_stream (s : bt_stream) : cview := VStream (stream_class s) (stream_id s).

Definition cview_of (o : ir_object) : option cview :=
  match o with
  | TraceClassObject tc => Some (view_tc tc)
  | StreamClassObject sc => Some (view_sc sc)
  | EventClassObject ec => Some (VEventClass (ec_id ec))
  | TraceObject t => Some (view_trace t)
  | StreamObject s => Some (view_stream s)
  | _ => None
  end.
Definition view (h : ir) (a : addr) : option cview := o ← h !! a; cview_of o.

(** The classes, traces and streams are the same for the view. *)
Definition view_eq (h h' : ir) : Prop := forall a, view h' a = view h a.
#[export] Instance view_eq_refl : Reflexive view_eq.
Proof. by intros h a. Qed.
#[export] Instance view_eq_trans : Transitive view_eq.
Proof. intros x y z H1 H2 a. by rewrite H2, H1. Qed.

Lemma view_insert h a o b : view (<[a := o]> h) b = if decide (b = a) then cview_of o else view h b.
Proof. unfold view. rewrite lookup_insert. repeat case_decide; by simplify_eq. Qed.
Lemma view_get h a o : h !! a = Some o -> view h a = cview_of o.
Proof. unfold view. by intros ->. Qed.
Lemma view_new h a : h !! a = None -> view h a = None.
Proof. unfold view. by intros ->. Qed.

Lemma view_eq_insert h a o o' : h !! a = Some o -> cview_of o' = cview_of o -> view_eq h (<[a := o']> h).
Proof. intros Ha Ho b. rewrite view_insert. case_decide; [subst b; by rewrite (view_get _ _ _ Ha)|done]. Qed.
Lemma view_eq_new h a o : h !! a = None -> cview_of o = None -> view_eq h (<[a := o]> h).
Proof. intros Ha Ho b. rewrite view_insert. case_decide; [subst b; by rewrite (view_new _ _ Ha)|done]. Qed.

Lemma view_eq_base h a o b : h !! a = Some o -> view_eq h (<[a := set_base o b]> h).
Proof. intros Ha. eapply view_eq_insert; [exact Ha|]. by destruct o. Qed.

Lemma get_ref_view debug h a h' : get_ref debug h a = Some h' -> view_eq h h'.
Proof. apply (get_ref_chain_rel view_eq). apply view_eq_base. Qed.

(** Setting the parent of a new object. *)
Lemma set_parent_view debug call h a p h' : bt_object_set_parent debug call h a (Some p) = Some h' -> view_eq h h'.
Proof.
  unfold bt_object_set_parent, BT_ASSERT_DBG, store_base. intros H. destruct (h !! a) as [o|] eqn:Ha; [|done].
  destruct (debug && _); [done|]. destruct (debug && _); [done|]. etrans; [by eapply view_eq_base|by eapply get_ref_view].
Qed.

Lemma set_fc_view h a fc fc' : get_fc h a = Some fc -> view_eq h (set_fc h a fc').
Proof. intros Ha%get_fc_Some. by eapply view_eq_insert. Qed.

Lemma freeze_view dev h a h' : bt_field_class_freeze dev h a = Some h' -> view_eq h h'.
Proof.
  unfold bt_field_class_freeze, _bt_field_class_freeze. intros Hf. destruct dev; [|by injection Hf as <-].
  destruct (get_fc h a) as [fc|] eqn:Ha; [|done].
  assert (Hs : view_eq h (set_fc h a (with_frozen fc true))) by by eapply set_fc_view.
  destruct (fc_data fc); try by injection Hf as <-. destruct (freeze_all _ _); [|done]. injection Hf as <-.
  etrans; [exact Hs|]. eapply set_fc_view. by rewrite get_fc_set, decide_True.
Qed.

Lemma mark_view fuel : forall h a h', bt_field_class_make_part_of_trace_class fuel h a = Some h' -> view_eq h h'.
Proof.
  induction fuel as [|fuel IH]; intros h a h' H; [done|]. cbn [bt_field_class_make_part_of_trace_class] in H. unfold BT_ASSERT_PRE in H.
  destruct (get_fc h a) as [fc|] eqn:Hfc; [|done]. destruct (negb _); [|done].
  assert (Hall : forall nfs h0, mark_all (bt_field_class_make_part_of_trace_class fuel) nfs h0 = Some h' -> view_eq h0 h').
  { induction nfs as [|nf nfs IHn]; intros h0 H0; simpl in H0; [by injection H0 as <-|].
    destruct (bt_field_class_make_part_of_trace_class fuel h0 (nf_fc nf)) as [h1|] eqn:H1; [|done]. etrans; [by eapply IH|by apply IHn]. }
  etrans; [by eapply set_fc_view|]. destruct (is_container fc); [|destruct (bt_field_class_type_is _ _)]; [| |by injection H as <-];
    destruct (fc_data fc); try done; eauto.
Qed.

Lemma resolve_own_view dev n ctx h a h' : resolve_own dev n ctx h a = Some h' -> view_eq h h'.
Proof.
  assert (Hset : forall d h', set_data h a d = Some h' -> view_eq h h').
  { intros d h1 Hs. unfold set_data in Hs. destruct (get_fc h a) as [fc|] eqn:Ha; [|done]. injection Hs as <-. by eapply set_fc_view. }
  unfold resolve_own. intros H. destruct (get_fc h a) as [c|]; [|done].
  repeat match type of H with
    | (if ?b then _ else _) = _ => destruct b
    | match fc_data c with _ => _ end = _ => destruct (fc_data c); try discriminate H
    | match resolve_xref ?d ?n ?ctx ?h ?a ?x with _ => _ end = _ => destruct (resolve_xref d n ctx h a x); try discriminate H
    end; try by eapply Hset. by injection H as <-.
Qed.

Lemma resolve_view dev n ctx fuel : forall h a h', bt_resolve_field_paths dev n ctx fuel h a = Some h' -> view_eq h h'.
Proof.
  induction fuel as [|fuel IH]; intros h a h' H; [done|]. cbn [bt_resolve_field_paths] in H.
  destruct (resolve_own dev n ctx h a) as [h1|] eqn:H1; [|done]. etrans; [by eapply resolve_own_view|].
  destruct (get_fc h1 a) as [c|]; [|done].
  assert (Hall : forall nfs h0, resolve_all (bt_resolve_field_paths dev n ctx fuel) nfs h0 = Some h' -> view_eq h0 h').
  { induction nfs as [|nf nfs IHn]; intros h0 H0; simpl in H0; [by injection H0 as <-|].
    destruct (bt_resolve_field_paths dev n ctx fuel h0 (nf_fc nf)) as [h2|] eqn:H2; [|done]. etrans; [by eapply IH|by apply IHn]. }
  destruct (bt_field_class_type_is _ BT_FIELD_CLASS_TYPE_OPTION); [destruct (fc_data c); try done; eauto|].
  destruct (is_container c); [destruct (fc_data c); try done; eauto|].
  destruct (bt_field_class_type_is _ BT_FIELD_CLASS_TYPE_ARRAY); [destruct (fc_data c); try done; eauto|by injection H as <-].
Qed.

(** * The invariant *)

Definition view_state : Type := addr -> option cview.

Definition v_sc_id (o : cview) : option Z := match o with VStreamClass id _ _ _ _ _ _ _ => Some id | _ => None end.
Definition v_ec_id (o : cview) : option Z := match o with VEventClass id => Some id | _ => None end.

(** The objects [l] have different identifiers; the owner is frozen once it has one, and
    with automatic identifiers they are their indexes. *)
Definition ids_ok (id_of : cview -> option Z) (v : view_state) (l : list addr) (automatic frozen : bool) : Prop :=
  exists ids, Forall2 (fun x i => (v x ≫= id_of) = Some i) l ids /\ NoDup ids /\ (l <> [] -> frozen = true) /\
    (automatic = true -> ids = seqZ 0 (Z.of_nat (length ids))).

Definition support_ok (s : sc_support) (has_packet_context has_clock_class : bool) : Prop :=
  (packets_have_beginning_default_clock_snapshot s = true \/ packets_have_end_default_clock_snapshot s = true ->
     supports_packets s = true /\ has_clock_class = true) /\
  (discarded_events_have_default_clock_snapshots s = true -> supports_discarded_events s = true /\ has_clock_class = true) /\
  (discarded_packets_have_default_clock_snapshots s = true -> supports_discarded_packets s = true /\ has_clock_class = true) /\
  (supports_discarded_packets s = true -> supports_packets s = true) /\
  (has_packet_context = true -> supports_packets s = true).

(** The identifiers of the streams of a class. *)
Definition ids_of (class : addr) (infos : list (addr * Z)) : list Z := (filter (fun i => i.1 = class) infos).*2.

(** The streams of a class have different identifiers, the trace counts them, and their
    class is frozen; with automatic identifiers they are the first ones. *)
Definition streams_ok (v : view_state) (l : list addr) (count : gmap addr Z) : Prop :=
  exists infos, Forall2 (fun x i => v x = Some (VStream i.1 i.2)) l infos /\
    forall class, NoDup (ids_of class infos) /\
      default 0 (count !! class) = wrapu 32 (Z.of_nat (length (ids_of class infos))) /\
      (ids_of class infos <> [] -> exists id ae automatic s p c ecs,
         v class = Some (VStreamClass id ae automatic s p c ecs true) /\
         (automatic = true -> ids_of class infos = seqZ 0 (Z.of_nat (length (ids_of class infos))))).

Definition local_ok (v : view_state) (o : cview) : Prop :=
  match o with
  | VTraceClass l automatic frozen => ids_ok v_sc_id v l automatic frozen
  | VStreamClass _ ae _ s p c ecs frozen => ids_ok v_ec_id v ecs ae frozen /\ support_ok s p c
  | VTrace l count => streams_ok v l count
  | _ => True
  end.
Definition vok (v : view_state) : Prop := forall a o, v a = Some o -> local_ok v o.

(** What later states keep of an object. *)
Definition kept (o o' : cview) : Prop :=
  match o, o' with
  | VTraceClass _ _ _, VTraceClass _ _ _ | VTrace _ _, VTrace _ _ => True
  | VStreamClass id _ automatic _ _ _ _ frozen, VStreamClass id' _ automatic' _ _ _ _ frozen' =>
    id' = id /\ (frozen = true -> frozen' = true /\ automatic' = automatic)
  | VEventClass id, VEventClass id' => id' = id
  | VStream c id, VStream c' id' => c' = c /\ id' = id
  | _, _ => False
  end.
Definition extends (v v' : view_state) : Prop := forall x o, v x = Some o -> exists o', v' x = Some o' /\ kept o o'.

Lemma view_kept_refl o : kept o o.
Proof. destruct o; simpl; auto. Qed.

Lemma ids_extends id_of v v' l ids : (id_of = v_sc_id \/ id_of = v_ec_id) -> extends v v' ->
  Forall2 (fun x i => (v x ≫= id_of) = Some i) l ids -> Forall2 (fun x i => (v' x ≫= id_of) = Some i) l ids.
Proof.
  intros Hid He Hl. eapply Forall2_impl; [exact Hl|]. intros x i Hx.
  apply bind_Some in Hx as (o & Hv & Ho). destruct (He x o Hv) as (o' & Hv' & Hk). apply bind_Some. exists o'. split; [done|].
  destruct Hid as [-> | ->], o, o'; simpl in Hk; try done; [destruct Hk as [-> _]|subst]; exact Ho.
Qed.

Lemma ids_ok_extends id_of v v' l automatic frozen : (id_of = v_sc_id \/ id_of = v_ec_id) -> extends v v' ->
  ids_ok id_of v l automatic frozen -> ids_ok id_of v' l automatic frozen.
Proof. intros Hid He (ids & Hl & Hrest). exists ids. split; [by eapply ids_extends|done]. Qed.

Lemma streams_ok_extends v v' l count : extends v v' -> streams_ok v l count -> streams_ok v' l count.
Proof.
  intros He (infos & Hl & Hc). exists infos. split.
  - eapply Forall2_impl; [exact Hl|]. intros x i Hx. destruct (He x _ Hx) as (o' & Hv' & Hk). destruct o'; simpl in Hk; try done. by destruct Hk as [-> ->].
  - intros class. destruct (Hc class) as (Hn & Hcount & Hex). split; [done|]. split; [done|]. intros Hne.
    destruct (Hex Hne) as (id & ae & au & s & p & c & ecs & Hv & Hseq). destruct (He class _ Hv) as (o' & Hv' & Hk).
    destruct o' as [|id' ae' au' s' p' c' ecs' fr'| | |]; simpl in Hk; try done. destruct Hk as (-> & Hk). destruct (Hk eq_refl) as [-> ->].
    by do 7 eexists.
Qed.

Lemma local_ok_extends v v' o : extends v v' -> local_ok v o -> local_ok v' o.
Proof.
  intros He. destruct o; simpl; [apply ids_ok_extends; auto| |done|by apply streams_ok_extends|done].
  intros [H1 H2]. split; [eapply ids_ok_extends; eauto|done].
Qed.

(** The state with [o] at [a]. *)
Definition vset (v : view_state) (a : addr) (o : cview) : view_state := fun x => if decide (x = a) then Some o else v x.

Lemma vset_extends v a o : (forall old, v a = Some old -> kept old o) -> extends v (vset v a o).
Proof.
  intros Hk x old Hx. unfold vset. case_decide as E; [subst x; exists o; split; [done|by apply Hk]|exists old; split; [done|apply view_kept_refl]].
Qed.

Lemma vok_set v a o : vok v -> (forall old, v a = Some old -> kept old o) -> local_ok (vset v a o) o -> vok (vset v a o).
Proof.
  intros Hok Hk Ho x old Hx. unfold vset in Hx. case_decide as E; [by injection Hx as <-|].
  eapply local_ok_extends; [by apply vset_extends|by apply (Hok x)].
Qed.

Lemma local_ok_eq v v' o : (forall x, v' x = v x) -> local_ok v o -> local_ok v' o.
Proof. intros He. apply local_ok_extends. intros x old Hx. exists old. rewrite He. split; [done|apply view_kept_refl]. Qed.
Lemma vok_eq v v' : (forall x, v' x = v x) -> vok v -> vok v'.
Proof. intros He Hok x o Hx. eapply local_ok_eq; [exact He|]. apply (Hok x). by rewrite <- He. Qed.

(** ** Adding an object to its owner *)

Lemma ids_ok_snoc id_of v l automatic frozen new i ids : Forall2 (fun x i => (v x ≫= id_of) = Some i) l ids -> NoDup ids ->
  (automatic = true -> ids = seqZ 0 (Z.of_nat (length ids))) -> (v new ≫= id_of) = Some i -> i ∉ ids -> frozen = true ->
  (automatic = true -> i = Z.of_nat (length ids)) -> ids_ok id_of v (l ++ [new]) automatic frozen.
Proof.
  intros Hl Hn Hseq Hnew Hi Hf Hau. exists (ids ++ [i]). split; [by apply Forall2_app; [|constructor]|]. split.
  - apply NoDup_app. split; [done|]. split; [|apply NoDup_singleton]. by intros x Hx ->%list_elem_of_singleton.
  - split; [done|]. intros Ha. rewrite (Hseq Ha), (Hau Ha) at 1. rewrite length_app, Nat2Z.inj_add, seqZ_app by (simpl; lia).
    simpl. by rewrite Z.add_0_l.
Qed.

Lemma id_is_unique_spec get_id h l ids id : Forall2 (fun x i => get_id h x = Some i) l ids ->
  id_is_unique get_id h l id = Some (bool_decide (id ∉ ids)).
Proof.
  induction 1 as [|x i l ids Hx Hl IH]; cbn [id_is_unique]; [by rewrite bool_decide_eq_true_2 by apply not_elem_of_nil|].
  rewrite Hx, IH. destruct (Z.eqb_spec i id) as [->|Hne].
  - rewrite bool_decide_eq_false_2; [done|]. intros Hni. apply Hni, elem_of_cons. by left.
  - f_equal. apply bool_decide_ext. rewrite not_elem_of_cons. split; [intros Hn; split; [congruence|done]|by intros [_ ?]].
Qed.

Lemma borrow_by_id_spec get_id h l ids id : Forall2 (fun x i => get_id h x = Some i) l ids -> NoDup ids ->
  match borrow_by_id get_id h l id with
  | Some (Some a) => exists k, l !! k = Some a /\ ids !! k = Some id /\ forall k', ids !! k' = Some id -> k' = k
  | Some None => id ∉ ids
  | None => False
  end.
Proof.
  induction 1 as [|x i l ids Hx Hl IH]; intros Hn; simpl; [apply not_elem_of_nil|]. apply NoDup_cons in Hn as [Hni Hn]. rewrite Hx.
  destruct (Z.eqb_spec i id) as [->|Hne].
  - exists O. split; [done|]. split; [done|]. intros [|k'] Hk'; [done|]. exfalso. apply Hni. by eapply list_elem_of_lookup_2.
  - specialize (IH Hn). destruct (borrow_by_id get_id h l id) as [[a|]|]; [| |done].
    + destruct IH as (k & Hk & Hk1 & Hk2). exists (S k). split; [done|]. split; [done|]. intros [|k'] Hk'; simpl in Hk'; [congruence|by f_equal; apply Hk2].
    + apply not_elem_of_cons. split; [congruence|done].
Qed.

(** Adding a new object to the list of its owner. *)
Lemma ids_ok_add id_of v v' l ids automatic new i : (id_of = v_sc_id \/ id_of = v_ec_id) -> extends v v' ->
  Forall2 (fun x i => (v x ≫= id_of) = Some i) l ids -> NoDup ids ->
  (automatic = true -> ids = seqZ 0 (Z.of_nat (length ids))) -> (v' new ≫= id_of) = Some i -> i ∉ ids ->
  (automatic = true -> i = Z.of_nat (length l)) -> ids_ok id_of v' (l ++ [new]) automatic true.
Proof.
  intros Hid He Hl Hn Hseq Hnew Hi Hau. rewrite (Forall2_length _ _ _ Hl) in Hau.
  eapply ids_ok_snoc; [by eapply ids_extends|done|done|done|done|done|done].
Qed.

Lemma vset_new_extends v new o a o' : v new = None -> (forall old, v a = Some old -> kept old o') -> extends v (vset (vset v new o) a o').
Proof.
  intros Hn Hk x old Hx. unfold vset. case_decide as E1; [subst x; exists o'; split; [done|by apply Hk]|].
  case_decide as E2; [congruence|]. exists old. split; [done|apply view_kept_refl].
Qed.
