(* ===== verification/TraceIrOps.v ===== *)
(** What a user can do with classes, traces and streams ([TraceIr]) as a step relation, and
    what every reachable state ensures. *)

From stdpp Require Import list gmap.
From S2P Require Import Prelude Object IntRange IrObj FieldClass FieldClassFacts FieldPath TraceIr TraceIrFacts.

(** * Steps *)

(** A call that succeeds, with a library built in developer mode, or a change that keeps the
    classes, traces and streams but for what the view leaves out, as the functions of
    [FieldClass] do.  Putting references, and setting a field class or a clock class again,
    which puts a reference, are not steps. *)
Inductive tir_step (debug : bool) (h : ir) : ir -> Prop :=
| step_other h' : view_eq h h' -> tir_step debug h h'
| step_tc_create new mip h' : bt_trace_class_create h new mip = Some h' -> tir_step debug h h'
| step_tc_automatic a b h' : bt_trace_class_set_assigns_automatic_stream_class_id true h a b = Some h' -> tir_step debug h h'
| step_sc_create tc new h' : bt_stream_class_create true debug h tc new = Some h' -> tir_step debug h h'
| step_sc_create_id tc new id h' : bt_stream_class_create_with_id true debug h tc new id = Some h' -> tir_step debug h h'
| step_sc_namespace a s h' : bt_stream_class_set_namespace true debug h a s = Some h' -> tir_step debug h h'
| step_sc_name a s h' : bt_stream_class_set_name true h a s = Some h' -> tir_step debug h h'
| step_sc_uid a s h' : bt_stream_class_set_uid true debug h a s = Some h' -> tir_step debug h h'
| step_sc_automatic_ec a b h' : bt_stream_class_set_assigns_automatic_event_class_id true h a b = Some h' -> tir_step debug h h'
| step_sc_automatic_stream a b h' : bt_stream_class_set_assigns_automatic_stream_id true h a b = Some h' -> tir_step debug h h'
| step_sc_discarded_events a b b' h' : bt_stream_class_set_supports_discarded_events true h a b b' = Some h' -> tir_step debug h h'
| step_sc_discarded_packets a b b' h' : bt_stream_class_set_supports_discarded_packets true h a b b' = Some h' -> tir_step debug h h'
| step_sc_packets a b b' b'' h' : bt_stream_class_set_supports_packets true h a b b' b'' = Some h' -> tir_step debug h h'
| step_sc_clock call a sc cc h' : get_sc h a = Some sc -> default_clock_class sc = None ->
    bt_stream_class_set_default_clock_class true debug call h a cc = Some h' -> tir_step debug h h'
| step_sc_packet_context call fuel a sc fc h' : get_sc h a = Some sc -> packet_context_fc sc = None ->
    bt_stream_class_set_packet_context_field_class true debug call fuel h a fc = Some h' -> tir_step debug h h'
| step_sc_common_context call fuel a sc fc h' : get_sc h a = Some sc -> event_common_context_fc sc = None ->
    bt_stream_class_set_event_common_context_field_class true debug call fuel h a fc = Some h' -> tir_step debug h h'
| step_ec_create sc new h' : bt_event_class_create true debug h sc new = Some h' -> tir_step debug h h'
| step_ec_create_id sc new id h' : bt_event_class_create_with_id true debug h sc new id = Some h' -> tir_step debug h h'
| step_ec_namespace a s h' : bt_event_class_set_namespace true debug h a s = Some h' -> tir_step debug h h'
| step_ec_name a s h' : bt_event_class_set_name true h a s = Some h' -> tir_step debug h h'
| step_ec_uid a s h' : bt_event_class_set_uid true debug h a s = Some h' -> tir_step debug h h'
| step_ec_log_level a l h' : bt_event_class_set_log_level true h a l = Some h' -> tir_step debug h h'
| step_ec_emf_uri a s h' : bt_event_class_set_emf_uri true h a s = Some h' -> tir_step debug h h'
| step_ec_freeze a h' : _bt_event_class_freeze h a = Some h' -> tir_step debug h h'
| step_ec_specific_context call fuel a ec fc h' : get_ec h a = Some ec -> specific_context_fc ec = None ->
    bt_event_class_set_specific_context_field_class true debug call fuel h a fc = Some h' -> tir_step debug h h'
| step_ec_payload call fuel a ec fc h' : get_ec h a = Some ec -> payload_fc ec = None ->
    bt_event_class_set_payload_field_class true debug call fuel h a fc = Some h' -> tir_step debug h h'
| step_trace_create new tc h' : bt_trace_create debug h new tc = Some h' -> tir_step debug h h'
| step_trace_namespace a s h' : bt_trace_set_namespace true h a s = Some h' -> tir_step debug h h'
| step_trace_name a s h' : bt_trace_set_name true h a s = Some h' -> tir_step debug h h'
| step_trace_uuid a s h' : bt_trace_set_uuid true h a s = Some h' -> tir_step debug h h'
| step_trace_uid a s h' : bt_trace_set_uid true h a s = Some h' -> tir_step debug h h'
| step_trace_environment a n x h' : set_environment_entry h a n x = Some h' -> tir_step debug h h'
| step_stream_create new class trace h' : bt_stream_create true debug h new class trace = Some h' -> tir_step debug h h'
| step_stream_create_id new class trace id h' : bt_stream_create_with_id true debug h new class trace id = Some h' -> tir_step debug h h'
| step_stream_name a s h' : bt_stream_set_name true h a s = Some h' -> tir_step debug h h'
| step_stream_freeze a h' : _bt_stream_freeze h a = Some h' -> tir_step debug h h'
| step_tc_add_listener a f r h' : bt_trace_class_add_destruction_listener h a f = Some (r, h') -> tir_step debug h h'
| step_tc_remove_listener a i h' : bt_trace_class_remove_destruction_listener h a i = Some h' -> tir_step debug h h'
| step_trace_add_listener a f r h' : bt_trace_add_destruction_listener h a f = Some (r, h') -> tir_step debug h h'
| step_trace_remove_listener a i h' : bt_trace_remove_destruction_listener h a i = Some h' -> tir_step debug h h'.

(** * What the functions do to the view *)

(** [h'] is [h] with [o] at [a], for the view. *)
Definition view_set (h : ir) (a : addr) (o : cview) (h' : ir) : Prop := forall x, view h' x = vset (view h) a o x.

Lemma view_set_insert h a o o' : cview_of o' = Some o -> view_set h a o (<[a := o']> h).
Proof. intros Ho x. rewrite view_insert, Ho. unfold vset. by case_decide. Qed.
Lemma view_set_eq h h1 h' a o : view_set h a o h1 -> view_eq h1 h' -> view_set h a o h'.
Proof. intros H1 H2 x. by rewrite H2. Qed.
Lemma view_eq_set h h1 h' a o : view_eq h h1 -> view_set h1 a o h' -> view_set h a o h'.
Proof. intros H1 H2 x. rewrite H2. unfold vset. case_decide; [done|apply H1]. Qed.
Lemma view_set_twice h h1 h' a o o' : view_set h a o h1 -> view_set h1 a o' h' -> view_set h a o' h'.
Proof. intros H1 H2 x. rewrite H2. unfold vset. case_decide; [done|]. rewrite H1. unfold vset. by rewrite decide_False. Qed.

Ltac get_object H h a := let E := fresh "E" in destruct (h !! a) as [[]|] eqn:E; try discriminate H; injection H as <-.

Lemma view_get_sc h a sc : get_sc h a = Some sc -> view h a = Some (view_sc sc).
Proof. unfold get_sc. intros H. get_object H h a. by rewrite (view_get _ _ _ E). Qed.
Lemma view_get_tc h a tc : get_tc h a = Some tc -> view h a = Some (view_tc tc).
Proof. unfold get_tc. intros H. get_object H h a. by rewrite (view_get _ _ _ E). Qed.
Lemma view_get_ec h a ec : get_ec h a = Some ec -> view h a = Some (VEventClass (ec_id ec)).
Proof. unfold get_ec. intros H. get_object H h a. by rewrite (view_get _ _ _ E). Qed.
Lemma view_get_trace h a t : get_trace h a = Some t -> view h a = Some (view_trace t).
Proof. unfold get_trace. intros H. get_object H h a. by rewrite (view_get _ _ _ E). Qed.
Lemma view_get_stream h a s : get_stream h a = Some s -> view h a = Some (view_stream s).
Proof. unfold get_stream. intros H. get_object H h a. by rewrite (view_get _ _ _ E). Qed.

Lemma update_sc_view h a f h' : update_sc h a f = Some h' -> exists sc, get_sc h a = Some sc /\ view_set h a (view_sc (f sc)) h'.
Proof. unfold update_sc. destruct (get_sc h a) as [sc|]; [|done]. intros [= <-]. exists sc. split; [done|by apply view_set_insert]. Qed.
Lemma update_tc_view h a f h' : update_tc h a f = Some h' -> exists tc, get_tc h a = Some tc /\ view_set h a (view_tc (f tc)) h'.
Proof. unfold update_tc. destruct (get_tc h a) as [tc|]; [|done]. intros [= <-]. exists tc. split; [done|by apply view_set_insert]. Qed.
Lemma update_ec_view h a f h' : update_ec h a f = Some h' -> exists ec, get_ec h a = Some ec /\ view_set h a (VEventClass (ec_id (f ec))) h'.
Proof. unfold update_ec. destruct (get_ec h a) as [ec|]; [|done]. intros [= <-]. exists ec. split; [done|by apply view_set_insert]. Qed.
Lemma update_trace_view h a f h' : update_trace h a f = Some h' -> exists t, get_trace h a = Some t /\ view_set h a (view_trace (f t)) h'.
Proof. unfold update_trace. destruct (get_trace h a) as [t|]; [|done]. intros [= <-]. exists t. split; [done|by apply view_set_insert]. Qed.
Lemma update_stream_view h a f h' : update_stream h a f = Some h' -> exists s, get_stream h a = Some s /\ view_set h a (view_stream (f s)) h'.
Proof. unfold update_stream. destruct (get_stream h a) as [s|]; [|done]. intros [= <-]. exists s. split; [done|by apply view_set_insert]. Qed.

Lemma view_set_same h a o h' : view h a = Some o -> view_set h a o h' -> view_eq h h'.
Proof. intros Ha Hs x. rewrite Hs. unfold vset. case_decide; [by subst x|done]. Qed.

(** Updates that the view does not see. *)
Lemma update_tc_same h a f h' : (forall tc, view_tc (f tc) = view_tc tc) -> update_tc h a f = Some h' -> view_eq h h'.
Proof. intros Hf H. apply update_tc_view in H as (tc & Ha & Hs). rewrite Hf in Hs. eapply view_set_same; [by apply view_get_tc|done]. Qed.
Lemma update_ec_same h a f h' : (forall ec, ec_id (f ec) = ec_id ec) -> update_ec h a f = Some h' -> view_eq h h'.
Proof. intros Hf H. apply update_ec_view in H as (ec & Ha & Hs). rewrite Hf in Hs. eapply view_set_same; [by apply view_get_ec|done]. Qed.
Lemma update_trace_same h a f h' : (forall t, view_trace (f t) = view_trace t) -> update_trace h a f = Some h' -> view_eq h h'.
Proof. intros Hf H. apply update_trace_view in H as (t & Ha & Hs). rewrite Hf in Hs. eapply view_set_same; [by apply view_get_trace|done]. Qed.
Lemma update_stream_same h a f h' : (forall s, view_stream (f s) = view_stream s) -> update_stream h a f = Some h' -> view_eq h h'.
Proof. intros Hf H. apply update_stream_view in H as (s & Ha & Hs). rewrite Hf in Hs. eapply view_set_same; [by apply view_get_stream|done]. Qed.

(** ** Changes of one object *)

Lemma vok_view_eq h h' : view_eq h h' -> vok (view h) -> vok (view h').
Proof. apply vok_eq. Qed.
Lemma vok_view_set h a o h' : view_set h a o h' -> vok (view h) -> (forall old, view h a = Some old -> kept old o) ->
  local_ok (vset (view h) a o) o -> vok (view h').
Proof. intros Hs Hok Hk Ho. apply (vok_eq (vset (view h) a o)); [exact Hs|]. by apply vok_set. Qed.

Lemma ids_ok_nil id_of v automatic frozen : ids_ok id_of v [] automatic frozen.
Proof. exists []. split; [constructor|]. split; [constructor|]. done. Qed.

(** A stream class that is not frozen has no event class: its properties can change. *)
Lemma vok_hot_sc h a sc h' ae automatic s p c : vok (view h) -> get_sc h a = Some sc -> sc_frozen sc = false -> support_ok s p c ->
  view_set h a (VStreamClass (sc_id sc) ae automatic s p c (event_classes sc) false) h' -> vok (view h').
Proof.
  intros Hok Ha Hf Hs Hv. pose proof (view_get_sc _ _ _ Ha) as Hview. eapply vok_view_set; [exact Hv|done| |].
  - intros old Hold. rewrite Hview in Hold. injection Hold as <-. simpl. rewrite Hf. done.
  - split; [|done]. destruct (Hok a _ Hview) as [(ids & _ & _ & Hfr & _) _]. rewrite Hf in Hfr.
    destruct (event_classes sc); [apply ids_ok_nil|]. by discriminate Hfr.
Qed.

Lemma support_of h a sc : vok (view h) -> get_sc h a = Some sc ->
  support_ok (support sc) (bool_decide (is_Some (packet_context_fc sc))) (bool_decide (is_Some (default_clock_class sc))).
Proof. intros Hok Ha. by destruct (Hok a _ (view_get_sc _ _ _ Ha)). Qed.

(** ** Adding a class to its owner *)

Lemma get_sc_id_view h x : get_sc_id h x = (view h x ≫= v_sc_id).
Proof. unfold get_sc_id, get_sc, view. by destruct (h !! x) as [[]|]. Qed.
Lemma get_ec_id_view h x : get_ec_id h x = (view h x ≫= v_ec_id).
Proof. unfold get_ec_id, get_ec, view. by destruct (h !! x) as [[]|]. Qed.

Lemma sc_unique h l ids id : Forall2 (fun x i => (view h x ≫= v_sc_id) = Some i) l ids ->
  id_is_unique get_sc_id h l id = Some (bool_decide (id ∉ ids)).
Proof. intros Hl. apply id_is_unique_spec. eapply Forall2_impl; [exact Hl|]. intros x i. by rewrite get_sc_id_view. Qed.
Lemma ec_unique h l ids id : Forall2 (fun x i => (view h x ≫= v_ec_id) = Some i) l ids ->
  id_is_unique get_ec_id h l id = Some (bool_decide (id ∉ ids)).
Proof. intros Hl. apply id_is_unique_spec. eapply Forall2_impl; [exact Hl|]. intros x i. by rewrite get_ec_id_view. Qed.

Definition new_stream_class (id : Z) : cview :=
  VStreamClass id true true (ScSupport false false false false false false false) false false [] false.

Lemma view_eq_get_tc h h' a tc : view_eq h h' -> get_tc h' a = Some tc -> view h a = Some (view_tc tc).
Proof. intros He Ha. rewrite <- (He a). by apply view_get_tc. Qed.

(** A stream class is added with an identifier that no other one of the trace class has. *)
Lemma create_stream_class_view debug h tc c new id h' : get_tc h tc = Some c -> create_stream_class_with_id true debug h tc new id = Some h' ->
  h !! new = None /\ id_is_unique get_sc_id h (stream_classes c) id = Some true /\
  forall x, view h' x = vset (vset (view h) new (new_stream_class id)) tc
                          (VTraceClass (stream_classes c ++ [new]) (assigns_automatic_stream_class_id c) true) x.
Proof.
  unfold create_stream_class_with_id, BT_ASSERT_PRE, stream_class_id_is_unique. intros Hc H. rewrite Hc in H.
  destruct (id_is_unique _ _ _ _) as [[]|] eqn:Hu; try done. case_bool_decide as Hn; [|done]. split; [done|]. split; [done|].
  match type of H with context [<[new := ?o]> h] => set (h0 := <[new := o]> h) in H end.
  destruct (bt_object_set_parent _ _ h0 new (Some tc)) as [h1|] eqn:H1; [|done].
  destruct (update_tc h1 tc _) as [h2|] eqn:H2; [|done]. unfold bt_trace_class_freeze in H.
  apply set_parent_view in H1. apply update_tc_view in H2 as (c1 & Hc1 & H2). apply update_tc_view in H as (c2 & Hc2 & H).
  apply view_get_tc in Hc2. rewrite (H2 tc) in Hc2. unfold vset in Hc2. rewrite decide_True in Hc2 by done. injection Hc2 as E1 E2 _.
  pose proof (view_eq_get_tc _ _ _ _ H1 Hc1) as Hc1'. unfold h0 in Hc1'. rewrite view_insert in Hc1'.
  assert (tc <> new) by (intros ->; unfold get_tc in Hc; by rewrite Hn in Hc).
  rewrite decide_False, (view_get_tc _ _ _ Hc) in Hc1' by done. injection Hc1' as E3 E4 _.
  intros x. rewrite H. unfold vset, view_tc. simpl. rewrite <- E1, <- E2, <- E3, <- E4. case_decide; [done|]. rewrite H2. unfold vset.
  rewrite decide_False by done. rewrite (H1 x). unfold h0. by rewrite view_insert.
Qed.

Lemma create_stream_class_ok debug h tc c new id h' : vok (view h) -> get_tc h tc = Some c ->
  (assigns_automatic_stream_class_id c = true -> id = Z.of_nat (length (stream_classes c))) ->
  create_stream_class_with_id true debug h tc new id = Some h' -> vok (view h').
Proof.
  intros Hok Hc Hid H. destruct (create_stream_class_view _ _ _ _ _ _ _ Hc H) as (Hn & Hu & Hv).
  apply (vok_eq (vset (vset (view h) new (new_stream_class id)) tc (VTraceClass (stream_classes c ++ [new]) (assigns_automatic_stream_class_id c) true)));
    [exact Hv|].
  pose proof (view_get_tc _ _ _ Hc) as Hview. pose proof (view_new _ _ Hn) as Hnew.
  assert (Htn : tc <> new) by (intros ->; congruence).
  assert (H0 : vok (vset (view h) new (new_stream_class id))).
  { apply vok_set; [done|by rewrite Hnew|]. split; [apply ids_ok_nil|]. unfold support_ok. simpl. intuition discriminate. }
  apply vok_set; [exact H0| |].
  - unfold vset. rewrite decide_False by done. rewrite Hview. by intros old [= <-].
  - destruct (Hok tc _ Hview) as (ids & Hl & Hnd & Hfr & Hseq). eapply (ids_ok_add v_sc_id (view h)); [by left| |exact Hl|done|done| | |done].
    + apply vset_new_extends; [done|]. rewrite Hview. by intros old [= <-].
    + unfold vset. by rewrite decide_False, decide_True by congruence.
    + rewrite (sc_unique _ _ _ _ Hl) in Hu. injection Hu as Hu. by apply bool_decide_eq_true in Hu.
Qed.

Lemma create_event_class_view debug h a sc new id h' : get_sc h a = Some sc -> create_event_class_with_id true debug h a new id = Some h' ->
  h !! new = None /\ id_is_unique get_ec_id h (event_classes sc) id = Some true /\
  forall x, view h' x = vset (vset (view h) new (VEventClass id)) a (view_sc (with_sc_frozen (with_event_classes sc (event_classes sc ++ [new])))) x.
Proof.
  unfold create_event_class_with_id, BT_ASSERT_PRE, event_class_id_is_unique. intros Hc H. rewrite Hc in H.
  destruct (id_is_unique _ _ _ _) as [[]|] eqn:Hu; try done. case_bool_decide as Hn; [|done]. split; [done|]. split; [done|].
  match type of H with context [<[new := ?o]> h] => set (h0 := <[new := o]> h) in H end.
  destruct (bt_object_set_parent _ _ h0 new (Some a)) as [h1|] eqn:H1; [|done].
  destruct (update_sc h1 a _) as [h2|] eqn:H2; [|done]. unfold bt_stream_class_freeze in H.
  apply set_parent_view in H1. apply update_sc_view in H2 as (c1 & Hc1 & H2). apply update_sc_view in H as (c2 & Hc2 & H).
  apply view_get_sc in Hc2. rewrite (H2 a) in Hc2. unfold vset in Hc2. rewrite decide_True in Hc2 by done.
  apply view_get_sc in Hc1. rewrite (H1 a) in Hc1. unfold h0 in Hc1. rewrite view_insert in Hc1.
  assert (a <> new) by (intros ->; unfold get_sc in Hc; by rewrite Hn in Hc).
  rewrite decide_False, (view_get_sc _ _ _ Hc) in Hc1 by done. unfold view_sc in Hc1, Hc2. simpl in Hc2. injection Hc1 as E1 E2 E3 E4 E5 E6 E7 _.
  injection Hc2 as F1 F2 F3 F4 F5 F6 F7 _.
  intros x. rewrite H. unfold vset, view_sc. simpl. case_decide.
  - rewrite E1, E2, E3, E4, E5, E6, E7, F1, F2, F3, F4, F5, F6, F7. done.
  - rewrite H2. unfold vset. rewrite decide_False by done. rewrite (H1 x). unfold h0. by rewrite view_insert.
Qed.

Lemma create_event_class_ok debug h a sc new id h' : vok (view h) -> get_sc h a = Some sc ->
  (assigns_automatic_event_class_id sc = true -> id = Z.of_nat (length (event_classes sc))) ->
  create_event_class_with_id true debug h a new id = Some h' -> vok (view h').
Proof.
  intros Hok Hc Hid H. destruct (create_event_class_view _ _ _ _ _ _ _ Hc H) as (Hn & Hu & Hv).
  eapply vok_eq; [exact Hv|]. pose proof (view_get_sc _ _ _ Hc) as Hview. pose proof (view_new _ _ Hn) as Hnew.
  assert (Htn : a <> new) by (intros ->; congruence).
  assert (H0 : vok (vset (view h) new (VEventClass id))) by (apply vok_set; [done|by rewrite Hnew|done]).
  assert (Hk : forall old, view h a = Some old -> kept old (view_sc (with_sc_frozen (with_event_classes sc (event_classes sc ++ [new]))))).
  { rewrite Hview. intros old [= <-]. simpl. done. }
  apply vok_set; [exact H0| |].
  - unfold vset. by rewrite decide_False.
  - destruct (Hok a _ Hview) as [(ids & Hl & Hnd & Hfr & Hseq) Hs]. split; [|exact Hs].
    eapply (ids_ok_add v_ec_id (view h)); [by right| |exact Hl|done|done| | |done].
    + by apply vset_new_extends.
    + unfold vset. by rewrite decide_False, decide_True by congruence.
    + rewrite (ec_unique _ _ _ _ Hl) in Hu. injection Hu as Hu. by apply bool_decide_eq_true in Hu.
Qed.

(** ** Setters *)

Lemma set_hot_sc_ok h a f h' : vok (view h) -> set_hot_sc true h a f = Some h' ->
  (forall sc, get_sc h a = Some sc -> sc_frozen sc = false -> exists ae automatic,
     view_sc (f sc) = VStreamClass (sc_id sc) ae automatic (support sc) (bool_decide (is_Some (packet_context_fc sc)))
                        (bool_decide (is_Some (default_clock_class sc))) (event_classes sc) false) -> vok (view h').
Proof.
  unfold set_hot_sc, BT_ASSERT_PRE_DEV. intros Hok H Hf. destruct (get_sc h a) as [sc|] eqn:Ha; [|done].
  destruct (sc_frozen sc) eqn:Hfr; [done|]. apply update_sc_view in H as (sc1 & Ha1 & Hv). assert (sc1 = sc) as -> by congruence.
  destruct (Hf sc eq_refl Hfr) as (ae & au & E). rewrite E in Hv. eapply vok_hot_sc; [done|exact Ha|done|by eapply support_of|exact Hv].
Qed.

Lemma set_supports_discarded_events_ok h a b b' h' : vok (view h) ->
  bt_stream_class_set_supports_discarded_events true h a b b' = Some h' -> vok (view h').
Proof.
  unfold bt_stream_class_set_supports_discarded_events, BT_ASSERT_PRE, BT_ASSERT_PRE_DEV. intros Hok H.
  destruct (get_sc h a) as [sc|] eqn:Ha; [|done]. destruct (sc_frozen sc) eqn:Hf; [done|]. simpl in H.
  destruct (b || negb b') eqn:Hb; [|done]. destruct (negb b' || _) eqn:Hc; [|done].
  apply update_sc_view in H as (sc1 & Ha1 & Hv). assert (sc1 = sc) as -> by congruence.
  eapply vok_hot_sc; [exact Hok|exact Ha|done| |unfold view_sc in Hv; simpl in Hv; rewrite Hf in Hv; exact Hv].
  pose proof (support_of _ _ _ Hok Ha) as Hs. unfold support_ok in *. simpl in *. destruct b, b'; simpl in *; intuition congruence.
Qed.

Lemma set_supports_discarded_packets_ok h a b b' h' : vok (view h) ->
  bt_stream_class_set_supports_discarded_packets true h a b b' = Some h' -> vok (view h').
Proof.
  unfold bt_stream_class_set_supports_discarded_packets, BT_ASSERT_PRE, BT_ASSERT_PRE_DEV. intros Hok H.
  destruct (get_sc h a) as [sc|] eqn:Ha; [|done]. destruct (sc_frozen sc) eqn:Hf; [done|]. simpl in H.
  destruct (negb b || _) eqn:Hp; [|done]. destruct (b || negb b') eqn:Hb; [|done]. destruct (negb b' || _) eqn:Hc; [|done].
  apply update_sc_view in H as (sc1 & Ha1 & Hv). assert (sc1 = sc) as -> by congruence.
  eapply vok_hot_sc; [exact Hok|exact Ha|done| |unfold view_sc in Hv; simpl in Hv; rewrite Hf in Hv; exact Hv].
  pose proof (support_of _ _ _ Hok Ha) as Hs. unfold support_ok in *. simpl in *. destruct b, b'; simpl in *; intuition congruence.
Qed.

Lemma set_supports_packets_ok h a b b' b'' h' : vok (view h) ->
  bt_stream_class_set_supports_packets true h a b b' b'' = Some h' -> vok (view h').
Proof.
  unfold bt_stream_class_set_supports_packets, BT_ASSERT_PRE, BT_ASSERT_PRE_DEV. intros Hok H.
  destruct (get_sc h a) as [sc|] eqn:Ha; [|done]. destruct (sc_frozen sc) eqn:Hf; [done|]. simpl in H.
  destruct (b || negb (b' || b'')) eqn:Hb; [|done]. destruct (negb (b' || b'') || _) eqn:Hc; [|done].
  destruct (b || bool_decide (packet_context_fc sc = None)) eqn:Hp; [|done]. destruct (b || negb (supports_discarded_packets (support sc))) eqn:Hd; [|done].
  apply update_sc_view in H as (sc1 & Ha1 & Hv). assert (sc1 = sc) as -> by congruence.
  eapply vok_hot_sc; [exact Hok|exact Ha|done| |unfold view_sc in Hv; simpl in Hv; rewrite Hf in Hv; exact Hv].
  pose proof (support_of _ _ _ Hok Ha) as Hs. unfold support_ok in *. simpl in *.
  assert (Hctx : b = false -> bool_decide (is_Some (packet_context_fc sc)) = false).
  { intros ->. simpl in Hp. apply bool_decide_eq_true in Hp as ->. done. }
  destruct (supports_discarded_packets (support sc)), b, b', b''; simpl in *; intuition congruence.
Qed.

Lemma put_ref_None debug call h : put_ref debug call h None = Some h.
Proof. done. Qed.

(** Setting a field class that was not set: the change of the owner is [set]. *)
Lemma set_root_view debug call fuel h fc ctx set h' : set_root_field_class true debug call fuel h fc ctx None set = Some h' ->
  exists h1 h2, view_eq h h1 /\ set h1 = Some h2 /\ view_eq h2 h'.
Proof.
  unfold set_root_field_class, BT_ASSERT_PRE. intros H. destruct (get_fc h fc); [|done]. destruct (_ =? _); [|done].
  destruct (bt_resolve_field_paths _ _ _ _ _ _) as [h0|] eqn:H0; [|done].
  destruct (bt_field_class_make_part_of_trace_class _ _ _) as [h1|] eqn:H1; [|done]. rewrite put_ref_None in H.
  destruct (set h1) as [h2|] eqn:H2; [|done]. destruct (get_ref debug h2 fc) as [h3|] eqn:H3; [|done].
  exists h1, h2. split; [etrans; [by eapply resolve_view|by eapply mark_view]|]. split; [done|].
  etrans; [by eapply get_ref_view|by eapply freeze_view].
Qed.

Lemma view_eq_sc h h' a sc sc' : view_eq h h' -> get_sc h a = Some sc -> get_sc h' a = Some sc' -> view_sc sc' = view_sc sc.
Proof. intros He Ha Ha'. apply view_get_sc in Ha, Ha'. rewrite (He a) in Ha'. congruence. Qed.

Lemma set_clock_ok debug call h a sc cc h' : vok (view h) -> get_sc h a = Some sc -> default_clock_class sc = None ->
  bt_stream_class_set_default_clock_class true debug call h a cc = Some h' -> vok (view h').
Proof.
  unfold bt_stream_class_set_default_clock_class, BT_ASSERT_PRE_DEV. intros Hok Ha Hnone H. rewrite Ha, Hnone, put_ref_None in H.
  destruct (sc_frozen sc) eqn:Hf; [done|]. simpl in H. destruct (update_sc h a _) as [h1|] eqn:H1; [|done].
  destruct (get_ref debug h1 cc) as [h2|] eqn:H2; [|done]. apply update_sc_view in H1 as (sc1 & Ha1 & Hv). assert (sc1 = sc) as -> by congruence.
  apply (vok_view_eq h1).
  - etrans; [by eapply get_ref_view|]. unfold bt_clock_class_freeze in H. destruct (h2 !! cc) as [[]|] eqn:Hcc; try done.
    injection H as <-. by eapply view_eq_insert.
  - eapply vok_hot_sc; [exact Hok|exact Ha|done| |unfold view_sc in Hv; simpl in Hv; rewrite Hf in Hv; exact Hv].
    pose proof (support_of _ _ _ Hok Ha) as Hs. unfold support_ok in *. simpl. intuition.
Qed.

Lemma set_packet_context_ok debug call fuel h a sc fc h' : vok (view h) -> get_sc h a = Some sc -> packet_context_fc sc = None ->
  bt_stream_class_set_packet_context_field_class true debug call fuel h a fc = Some h' -> vok (view h').
Proof.
  unfold bt_stream_class_set_packet_context_field_class, BT_ASSERT_PRE, BT_ASSERT_PRE_DEV. intros Hok Ha Hnone H. rewrite Ha, Hnone in H.
  destruct (supports_packets (support sc)) eqn:Hp; [|done]. destruct (sc_frozen sc) eqn:Hf; [done|].
  apply set_root_view in H as (h1 & h2 & H1 & H2 & H3). apply update_sc_view in H2 as (sc1 & Ha1 & Hv).
  pose proof (view_eq_sc _ _ _ _ _ H1 Ha Ha1) as E. unfold view_sc in E. injection E as E1 E2 E3 E4 E5 E6 E7 E8.
  apply (vok_view_eq h2); [done|]. pose proof (vok_view_eq _ _ H1 Hok) as Hok1.
  eapply (vok_hot_sc h1 a sc1); [exact Hok1|exact Ha1|congruence| |unfold view_sc in Hv; simpl in Hv; rewrite E8, Hf in Hv; exact Hv].
  pose proof (support_of _ _ _ Hok Ha) as Hs. rewrite E6, E4. unfold support_ok in *. simpl. intuition.
Qed.

Lemma set_common_context_ok debug call fuel h a sc fc h' : vok (view h) -> get_sc h a = Some sc -> event_common_context_fc sc = None ->
  bt_stream_class_set_event_common_context_field_class true debug call fuel h a fc = Some h' -> vok (view h').
Proof.
  unfold bt_stream_class_set_event_common_context_field_class, BT_ASSERT_PRE_DEV. intros Hok Ha Hnone H. rewrite Ha, Hnone in H.
  destruct (sc_frozen sc) eqn:Hf; [done|]. apply set_root_view in H as (h1 & h2 & H1 & H2 & H3). apply (vok_view_eq h2); [done|].
  apply update_sc_view in H2 as (sc1 & Ha1 & Hv). eapply (vok_view_eq h1); [|by eapply vok_view_eq].
  eapply view_set_same; [by apply view_get_sc|exact Hv].
Qed.

Lemma set_ec_fields_ok debug call fuel h a fc ctx f h' : vok (view h) -> (forall ec, ec_id (f ec) = ec_id ec) ->
  set_root_field_class true debug call fuel h fc ctx None (fun h => update_ec h a f) = Some h' -> vok (view h').
Proof.
  intros Hok Hf H. apply set_root_view in H as (h1 & h2 & H1 & H2 & H3). eapply vok_view_eq; [|exact Hok].
  etrans; [exact H1|]. etrans; [by eapply update_ec_same|exact H3].
Qed.

Lemma set_specific_context_ok debug call fuel h a ec fc h' : vok (view h) -> get_ec h a = Some ec -> specific_context_fc ec = None ->
  bt_event_class_set_specific_context_field_class true debug call fuel h a fc = Some h' -> vok (view h').
Proof.
  unfold bt_event_class_set_specific_context_field_class, BT_ASSERT_PRE_DEV. intros Hok -> -> H. destruct (true && _); [done|].
  destruct (bt_event_class_borrow_stream_class_inline _ _ _) as [sc|]; [|done]. destruct (get_sc h sc); [|done].
  eapply set_ec_fields_ok; [exact Hok| |exact H]. done.
Qed.
Lemma set_payload_ok debug call fuel h a ec fc h' : vok (view h) -> get_ec h a = Some ec -> payload_fc ec = None ->
  bt_event_class_set_payload_field_class true debug call fuel h a fc = Some h' -> vok (view h').
Proof.
  unfold bt_event_class_set_payload_field_class, BT_ASSERT_PRE_DEV. intros Hok -> -> H. destruct (true && _); [done|].
  destruct (bt_event_class_borrow_stream_class_inline _ _ _) as [sc|]; [|done]. destruct (get_sc h sc); [|done].
  eapply set_ec_fields_ok; [exact Hok| |exact H]. done.
Qed.

Lemma set_hot_ec_same h a f h' : (forall ec, ec_id (f ec) = ec_id ec) -> set_hot_ec true h a f = Some h' -> view_eq h h'.
Proof.
  unfold set_hot_ec, BT_ASSERT_PRE_DEV. intros Hf H. destruct (get_ec h a); [|done]. destruct (true && _); [done|]. by eapply update_ec_same.
Qed.
Lemma set_hot_trace_same h a f h' : (forall t, view_trace (f t) = view_trace t) -> set_hot_trace true h a f = Some h' -> view_eq h h'.
Proof.
  unfold set_hot_trace, BT_ASSERT_PRE_DEV. intros Hf H. destruct (get_trace h a); [|done]. destruct (true && _); [done|]. by eapply update_trace_same.
Qed.

(** ** Streams *)

Lemma ids_of_snoc class infos c id : ids_of class (infos ++ [(c, id)]) = ids_of class infos ++ (if decide (c = class) then [id] else []).
Proof.
  unfold ids_of. rewrite filter_app, fmap_app. f_equal. destruct (decide (c = class)) as [E|E].
  - by rewrite filter_cons_True.
  - by rewrite filter_cons_False.
Qed.

Lemma stream_id_is_unique_spec h l infos class id : Forall2 (fun x i => view h x = Some (VStream i.1 i.2)) l infos ->
  stream_id_is_unique h l class id = Some (bool_decide (id ∉ ids_of class infos)).
Proof.
  induction 1 as [|x [c i] l infos Hx Hl IH]; cbn [stream_id_is_unique]; [by rewrite bool_decide_eq_true_2 by apply not_elem_of_nil|].
  unfold view, get_stream in *. destruct (h !! x) as [[]|]; try done. unfold view_stream in Hx. injection Hx as E1 E2.
  rewrite E1, E2. change ((c, i) :: infos) with ([(c, i)] ++ infos). unfold ids_of. rewrite filter_app, fmap_app. fold (ids_of class infos).
  rewrite IH. destruct (decide (c = class)) as [E|E].
  - rewrite bool_decide_eq_false_2 by tauto. rewrite filter_cons_True by done. simpl.
    destruct (Z.eqb_spec i id) as [->|Hne].
    + rewrite bool_decide_eq_false_2; [done|]. intros Hn. apply Hn, elem_of_cons. by left.
    + f_equal. apply bool_decide_ext. rewrite not_elem_of_cons. split; [intros Hn; split; [congruence|done]|by intros [_ ?]].
  - rewrite bool_decide_eq_true_2 by done. by rewrite filter_cons_False.
Qed.

(** The streams of the trace with a new one, whose class is frozen. *)
Lemma streams_ok_add v l count new class id sid ae automatic s p c ecs :
  streams_ok v l count -> v new = Some (VStream class id) -> v class = Some (VStreamClass sid ae automatic s p c ecs true) ->
  (forall infos, Forall2 (fun x i => v x = Some (VStream i.1 i.2)) l infos -> id ∉ ids_of class infos) ->
  (automatic = true -> id = default 0 (count !! class)) ->
  streams_ok v (l ++ [new]) (<[class := wrapu 32 (default 0 (count !! class) + 1)]> count).
Proof.
  intros (infos & Hl & Hc) Hnew Hclass Hid Hau. exists (infos ++ [(class, id)]). split; [by apply Forall2_app; [|constructor]|].
  intros c'. specialize (Hid infos Hl). rewrite ids_of_snoc. destruct (decide (class = c')) as [<-|Hne].
  - destruct (Hc class) as (Hn & Hcount & Hex). split; [|split].
    + apply NoDup_app. split; [done|]. split; [|apply NoDup_singleton]. by intros x Hx ->%list_elem_of_singleton.
    + rewrite lookup_insert_eq. simpl. rewrite Hcount, length_app, Nat2Z.inj_add. simpl. unfold wrapu. by rewrite Zplus_mod_idemp_l.
    + intros _. exists sid, ae, automatic, s, p, c, ecs. split; [done|]. intros Ha. specialize (Hau Ha). rewrite Hcount in Hau.
      assert (Hseq : ids_of class infos = seqZ 0 (Z.of_nat (length (ids_of class infos)))).
      { destruct (ids_of class infos) as [|i0 l0] eqn:E; [done|]. destruct (Hex ltac:(done)) as (sid' & ae' & au' & s' & p' & c' & ecs' & Hv & Hs).
        rewrite Hclass in Hv. injection Hv as <- <- <- <- <- <- <-. by apply Hs. }
      assert (Hlt : id = Z.of_nat (length (ids_of class infos))).
      { rewrite Hseq, elem_of_seqZ in Hid. pose proof (Z.mod_pos_bound (Z.of_nat (length (ids_of class infos))) (2 ^ 32) ltac:(lia)).
        pose proof (Z.mod_le (Z.of_nat (length (ids_of class infos))) (2 ^ 32) ltac:(lia) ltac:(lia)). unfold wrapu in Hau. lia. }
      rewrite Hseq at 1. rewrite length_app, Nat2Z.inj_add, seqZ_app by (simpl; lia). simpl. by rewrite Z.add_0_l, <- Hlt.
  - rewrite app_nil_r. destruct (Hc c') as (Hn & Hcount & Hex). split; [done|]. split; [by rewrite lookup_insert_ne|done].
Qed.

Lemma trace_freeze_view h trace t h' : get_trace h trace = Some t -> bt_trace_freeze true h trace = Some h' ->
  exists tc, get_tc h (trace_class t) = Some tc /\ view_set h (trace_class t) (view_tc (with_tc_frozen tc)) h'.
Proof.
  unfold bt_trace_freeze, bt_trace_class_freeze. intros Ht H. rewrite Ht in H.
  destruct (update_tc h (trace_class t) with_tc_frozen) as [h1|] eqn:H1; [|done].
  apply update_tc_view in H1 as (tc & Htc & H1). exists tc. split; [done|]. eapply view_set_eq; [exact H1|].
  eapply update_trace_same; [|exact H]. done.
Qed.

(** What the view of the last of a chain of stores is, in terms of the first. *)
Ltac vget H :=
  repeat match type of H with
    | context [view ?h' ?x] =>
      match goal with
      | V : view_set _ _ _ h' |- _ =>
        rewrite (V x) in H; unfold vset in H; first [rewrite decide_True in H by congruence|rewrite decide_False in H by congruence]
      | V : view_eq _ h' |- _ => rewrite (V x) in H
      end
    end.

Lemma add_stream_view debug h trace new t s h' : get_trace h trace = Some t -> get_stream h new = Some s ->
  bt_trace_add_stream true debug h trace new = Some h' ->
  exists tca tc, get_tc h tca = Some tc /\
    forall x, view h' x = vset (vset (view h) tca (view_tc (with_tc_frozen tc))) trace
      (VTrace (streams t ++ [new])
         (<[stream_class s := wrapu 32 (default 0 (stream_classes_stream_count t !! stream_class s) + 1)]> (stream_classes_stream_count t))) x.
Proof.
  unfold bt_trace_add_stream. intros Ht Hs H. destruct (bt_object_set_parent _ _ h new _) as [h2|] eqn:H2; [|done]. apply set_parent_view in H2.
  destruct (update_trace h2 trace _) as [h3|] eqn:H3; [|done]. destruct (bt_trace_freeze true h3 trace) as [h4|] eqn:H4; [|done].
  destruct (get_stream h4 new) as [s4|] eqn:Hs4; [|done]. destruct (get_trace h4 trace) as [t4|] eqn:Ht4; [|done].
  pose proof (view_get_trace _ _ _ Ht) as Vt. pose proof (view_get_stream _ _ _ Hs) as Vs. assert (Hnt : new <> trace) by (intros E; rewrite E, Vt in Vs; discriminate Vs).
  apply update_trace_view in H3 as (t2 & Ht2 & V3). apply view_get_trace in Ht2. vget Ht2.
  rewrite Vt in Ht2. injection Ht2 as F1 F2. unfold view_trace in V3. simpl in V3. rewrite <- F1, <- F2 in V3.
  destruct (get_trace h3 trace) as [t3|] eqn:Ht3; [|unfold bt_trace_freeze in H4; by rewrite Ht3 in H4].
  destruct (trace_freeze_view _ _ _ _ Ht3 H4) as (tc & Htc & V4). pose proof (view_get_tc _ _ _ Htc) as Vtc. set (tca := trace_class t3) in *.
  pose proof (view_get_trace _ _ _ Ht3) as Vt3.
  assert (Hta : tca <> trace) by (intros E; rewrite E, Vt3 in Vtc; discriminate Vtc). vget Vtc.
  assert (Hna : tca <> new) by (intros E; rewrite E, Vs in Vtc; discriminate Vtc).
  apply view_get_stream in Hs4. vget Hs4. rewrite Vs in Hs4. injection Hs4 as G1 _.
  apply view_get_trace in Ht4. vget Ht4. injection Ht4 as G2 G3.
  apply update_trace_view in H as (t5 & Ht5 & V5). apply view_get_trace in Ht5. vget Ht5. injection Ht5 as G4 G5.
  unfold view_trace in V5. simpl in V5. rewrite <- G1, <- G3, <- G4, <- G5 in V5.
  destruct (get_tc h tca) as [tc0|] eqn:Htc0; [|unfold view, get_tc in *; by destruct (h !! tca) as [[]|]].
  exists tca, tc0. split; [done|]. pose proof (view_get_tc _ _ _ Htc0) as Vtc0. rewrite Vtc0 in Vtc. injection Vtc as I1 I2 I3.
  intros x. rewrite V5. unfold vset. case_decide; [done|]. rewrite V4. unfold vset, view_tc. simpl. case_decide; [by rewrite I1, I2|].
  rewrite V3. unfold vset. rewrite decide_False by done. apply H2.
Qed.

Lemma vok_freeze_tc v a l automatic frozen : vok v -> v a = Some (VTraceClass l automatic frozen) -> vok (vset v a (VTraceClass l automatic true)).
Proof.
  intros Hok Ha. assert (Hk : forall old, v a = Some old -> kept old (VTraceClass l automatic true)) by (rewrite Ha; by intros old [= <-]).
  apply vok_set; [done|done|]. eapply local_ok_extends; [by apply vset_extends|].
  destruct (Hok a _ Ha) as (ids & ? & ? & _ & ?). by exists ids.
Qed.
Lemma vok_freeze_sc v a id ae au s p c l frozen : vok v -> v a = Some (VStreamClass id ae au s p c l frozen) ->
  vok (vset v a (VStreamClass id ae au s p c l true)).
Proof.
  intros Hok Ha. assert (Hk : forall old, v a = Some old -> kept old (VStreamClass id ae au s p c l true)) by (rewrite Ha; by intros old [= <-]).
  apply vok_set; [done|done|]. eapply local_ok_extends; [by apply vset_extends|].
  destruct (Hok a _ Ha) as [(ids & ? & ? & _ & ?) ?]. split; [by exists ids|done].
Qed.

Lemma infos_unique (v : view_state) l infos infos' : Forall2 (fun x i => v x = Some (VStream i.1 i.2)) l infos ->
  Forall2 (fun x i => v x = Some (VStream i.1 i.2)) l infos' -> infos' = infos.
Proof.
  intros H. revert infos'. induction H as [|x [c i] l infos Hx _ IH]; intros infos' H'; inversion H' as [|? [c' i'] ? infos1 Hx' H1]; subst; [done|].
  simpl in *. rewrite Hx in Hx'. injection Hx' as <- <-. by rewrite (IH _ H1).
Qed.

(** The state once a stream is added. *)
Lemma vok_add_stream v new class trace tca id l count cs a f sid ae au s p c ecs fr :
  vok v -> v new = None -> v trace = Some (VTrace l count) -> v tca = Some (VTraceClass cs a f) ->
  v class = Some (VStreamClass sid ae au s p c ecs fr) ->
  (forall infos, Forall2 (fun x i => v x = Some (VStream i.1 i.2)) l infos -> id ∉ ids_of class infos) ->
  (au = true -> id = default 0 (count !! class)) ->
  vok (vset (vset (vset (vset v new (VStream class id)) tca (VTraceClass cs a true)) class (VStreamClass sid ae au s p c ecs true))
         trace (VTrace (l ++ [new]) (<[class := wrapu 32 (default 0 (count !! class) + 1)]> count))).
Proof.
  intros Hok Hnew Htrace Htca Hclass Hid Hau.
  assert (Hn1 : tca <> new) by congruence. assert (Hn2 : class <> new) by congruence. assert (Hn3 : trace <> new) by congruence.
  assert (Hn4 : class <> tca) by congruence. assert (Hn5 : trace <> tca) by congruence. assert (Hn6 : trace <> class) by congruence.
  set (v1 := vset v new _). assert (Hok1 : vok v1) by (apply vok_set; [done|by rewrite Hnew|done]).
  assert (E1 : v1 tca = Some (VTraceClass cs a f)) by (unfold v1, vset; by rewrite decide_False).
  set (v2 := vset v1 tca _). assert (Hok2 : vok v2) by by eapply vok_freeze_tc.
  assert (E2 : v2 class = Some (VStreamClass sid ae au s p c ecs fr)) by (unfold v2, v1, vset; by rewrite !decide_False).
  set (v3 := vset v2 class _). assert (Hok3 : vok v3) by by eapply vok_freeze_sc.
  assert (E3 : v3 trace = Some (VTrace l count)) by (unfold v3, v2, v1, vset; by rewrite !decide_False).
  assert (Hk : forall count', extends v3 (vset v3 trace (VTrace (l ++ [new]) count'))) by (intros count'; apply vset_extends; rewrite E3; by intros old [= <-]).
  apply vok_set; [done|rewrite E3; by intros old [= <-]|]. eapply local_ok_extends; [apply Hk|]. apply (streams_ok_add v3 l count new class id sid ae au s p c ecs).
  - exact (Hok3 trace _ E3).
  - unfold v3, v2, v1, vset. rewrite !decide_False by done. by rewrite decide_True.
  - unfold v3, vset. by rewrite decide_True.
  - destruct (Hok trace _ Htrace) as (infos & Hl & _). intros infos' Hl'. rewrite (infos_unique v3 l infos infos'); [by apply Hid| |exact Hl'].
    eapply Forall2_impl; [exact Hl|]. intros x i Hx. unfold v3, v2, v1, vset. by rewrite !decide_False by congruence.
  - done.
Qed.

Lemma get_trace_of_view h a l count : view h a = Some (VTrace l count) ->
  exists t, get_trace h a = Some t /\ streams t = l /\ stream_classes_stream_count t = count.
Proof. unfold view, get_trace. destruct (h !! a) as [[]|]; simpl; intros E; try done. injection E as <- <-. by eexists. Qed.
Lemma get_stream_of_view h a c id : view h a = Some (VStream c id) -> exists s, get_stream h a = Some s /\ stream_class s = c /\ stream_id s = id.
Proof. unfold view, get_stream. destruct (h !! a) as [[]|]; simpl; intros E; try done. injection E as <- <-. by eexists. Qed.

(** What creating a stream does to the view: the stream is new, its identifier is not one of
    its class in the trace, and the class and that of the trace are frozen. *)
Lemma create_stream_view debug h new class trace id sc h' : get_sc h class = Some sc ->
  create_stream_with_id true debug h new class trace id = Some h' ->
  exists t tca tc, get_trace h trace = Some t /\ get_tc h tca = Some tc /\ view h new = None /\
    stream_id_is_unique h (streams t) class id = Some true /\
    forall x, view h' x = vset (vset (vset (vset (view h) new (VStream class id)) tca (view_tc (with_tc_frozen tc)))
                                  class (view_sc (with_sc_frozen sc))) trace
      (VTrace (streams t ++ [new])
         (<[class := wrapu 32 (default 0 (stream_classes_stream_count t !! class) + 1)]> (stream_classes_stream_count t))) x.
Proof.
  unfold create_stream_with_id, BT_ASSERT_PRE. intros Hsc H. destruct (get_trace h trace) as [t|] eqn:Ht; [|done].
  destruct (bt_stream_class_borrow_trace_class_inline _ _ _) as [tca0|]; [|done]. case_bool_decide; [|done].
  destruct (stream_id_is_unique _ _ _ _) as [[]|] eqn:Hu; try done. case_bool_decide as Hn; [|done].
  match type of H with context [<[new := ?o]> h] => set (h0 := <[new := o]> h) in H end.
  destruct (get_ref debug h0 class) as [h1|] eqn:H1; [|done]. apply get_ref_view in H1.
  destruct (bt_trace_add_stream _ _ _ _ _) as [h2|] eqn:H2; [|done]. unfold bt_stream_class_freeze in H.
  assert (V0 : view_set h new (VStream class id) h1) by (apply (view_set_eq h h0); [by apply view_set_insert|exact H1]).
  pose proof (view_new _ _ Hn) as Vnew. pose proof (view_get_trace _ _ _ Ht) as Vt. pose proof (view_get_sc _ _ _ Hsc) as Vsc.
  assert (trace <> new) by (intros E; rewrite E, Vnew in Vt; discriminate Vt).
  assert (class <> new) by (intros E; rewrite E, Vnew in Vsc; discriminate Vsc).
  assert (class <> trace) by (intros E; rewrite E, Vt in Vsc; discriminate Vsc).
  assert (Vt1 : view h1 trace = Some (view_trace t)) by (rewrite (V0 trace); unfold vset; by rewrite decide_False).
  apply get_trace_of_view in Vt1 as (t1 & Ht1 & T1 & T2).
  assert (Vs1 : view h1 new = Some (VStream class id)) by (rewrite (V0 new); unfold vset; by rewrite decide_True).
  apply get_stream_of_view in Vs1 as (s1 & Hs1 & S1 & _).
  destruct (add_stream_view _ _ _ _ _ _ _ Ht1 Hs1 H2) as (tca & tc1 & Htc1 & V2). rewrite S1, T1, T2 in V2.
  pose proof (view_get_tc _ _ _ Htc1) as Vtc1.
  assert (tca <> new) by (intros E; rewrite E, (view_get_stream _ _ _ Hs1) in Vtc1; discriminate Vtc1). vget Vtc1.
  assert (class <> tca) by (intros E; rewrite <- E, Vsc in Vtc1; discriminate Vtc1).
  destruct (get_tc h tca) as [tc|] eqn:Htc; [|unfold view, get_tc in *; by destruct (h !! tca) as [[]|]].
  exists t, tca, tc. split; [done|]. split; [done|]. split; [done|]. split; [done|].
  apply update_sc_view in H as (sc2 & Hsc2 & V). apply view_get_sc in Hsc2. rewrite (V2 class) in Hsc2. unfold vset in Hsc2.
  rewrite !decide_False in Hsc2 by done. vget Hsc2. rewrite Vsc in Hsc2. injection Hsc2 as E1 E2 E3 E4 E5 E6 E7 _.
  rewrite (view_get_tc _ _ _ Htc) in Vtc1. injection Vtc1 as F1 F2 _.
  intros x. rewrite V. unfold vset at 1 2 3. unfold view_sc. simpl. rewrite <- E1, <- E2, <- E3, <- E4, <- E5, <- E6, <- E7.
  destruct (decide (x = class)) as [->|]; [by rewrite decide_False|]. rewrite V2. unfold vset at 1 2 3.
  case_decide; [done|]. case_decide; [unfold view_tc; simpl; by rewrite F1, F2|apply V0].
Qed.

Lemma create_stream_ok debug h new class trace id sc h' : vok (view h) -> get_sc h class = Some sc ->
  (assigns_automatic_stream_id sc = true -> exists t, get_trace h trace = Some t /\ id = bt_trace_get_automatic_stream_id t class) ->
  create_stream_with_id true debug h new class trace id = Some h' -> vok (view h').
Proof.
  intros Hok Hsc Hid H. destruct (create_stream_view _ _ _ _ _ _ _ _ Hsc H) as (t & tca & tc & Ht & Htc & Hnew & Hu & Hv).
  eapply vok_eq; [exact Hv|]. eapply vok_add_stream; [exact Hok|exact Hnew|by rewrite (view_get_trace _ _ _ Ht)|by rewrite (view_get_tc _ _ _ Htc)|by rewrite (view_get_sc _ _ _ Hsc)| |].
  - intros infos Hl. rewrite (stream_id_is_unique_spec _ _ _ _ _ Hl) in Hu. injection Hu as Hu. by apply bool_decide_eq_true in Hu.
  - intros Ha. destruct (Hid Ha) as (t' & Ht' & ->). by assert (t' = t) as -> by congruence.
Qed.

(** ** Every step *)

Lemma tc_create_ok h new mip h' : vok (view h) -> bt_trace_class_create h new mip = Some h' -> vok (view h').
Proof.
  unfold bt_trace_class_create. intros Hok H. case_bool_decide as Hn; [|done]. injection H as <-.
  eapply (vok_view_set h new); [by apply view_set_insert|done|rewrite (view_new _ _ Hn); done|]. apply ids_ok_nil.
Qed.
Lemma tc_automatic_ok h a b h' : vok (view h) -> bt_trace_class_set_assigns_automatic_stream_class_id true h a b = Some h' -> vok (view h').
Proof.
  unfold bt_trace_class_set_assigns_automatic_stream_class_id, BT_ASSERT_PRE_DEV. intros Hok H. destruct (get_tc h a) as [c|] eqn:Ha; [|done].
  destruct (tc_frozen c) eqn:Hf; [done|]. apply update_tc_view in H as (c1 & Ha1 & Hv). assert (c1 = c) as -> by congruence.
  pose proof (view_get_tc _ _ _ Ha) as Va. eapply vok_view_set; [exact Hv|done|rewrite Va; by intros old [= <-]|].
  destruct (Hok a _ Va) as (ids & _ & _ & Hfr & _). rewrite Hf in Hfr. unfold view_tc. simpl.
  destruct (stream_classes c); [apply ids_ok_nil|by discriminate Hfr].
Qed.
Lemma trace_create_ok debug h new tc h' : vok (view h) -> bt_trace_create debug h new tc = Some h' -> vok (view h').
Proof.
  unfold bt_trace_create. intros Hok H. case_bool_decide as Hn; [|done]. apply get_ref_view in H.
  eapply vok_view_eq; [exact H|]. eapply (vok_view_set h new); [by apply view_set_insert|done|rewrite (view_new _ _ Hn); done|].
  exists []. split; [constructor|]. intros class. split; [constructor|]. split; [done|done].
Qed.
Lemma stream_name_same h a s h' : bt_stream_set_name true h a s = Some h' -> view_eq h h'.
Proof.
  unfold bt_stream_set_name, BT_ASSERT_PRE_DEV. destruct (get_stream h a); [|done]. destruct (true && _); [done|]. by apply update_stream_same.
Qed.
Lemma environment_same h a n x h' : set_environment_entry h a n x = Some h' -> view_eq h h'.
Proof.
  unfold set_environment_entry, BT_ASSERT_PRE. destruct (get_trace h a); [|done]. destruct (_ || _); [|done]. by apply update_trace_same.
Qed.
Lemma tc_add_listener_same h a f r h' : bt_trace_class_add_destruction_listener h a f = Some (r, h') -> view_eq h h'.
Proof.
  unfold bt_trace_class_add_destruction_listener. destruct (get_tc h a); [|done]. destruct (add_listener _ _) as [l id].
  destruct (update_tc h a _) as [h1|] eqn:E; [|done]. intros [= <- <-]. revert E. by apply update_tc_same.
Qed.
Lemma trace_add_listener_same h a f r h' : bt_trace_add_destruction_listener h a f = Some (r, h') -> view_eq h h'.
Proof.
  unfold bt_trace_add_destruction_listener. destruct (get_trace h a); [|done]. destruct (add_listener _ _) as [l id].
  destruct (update_trace h a _) as [h1|] eqn:E; [|done]. intros [= <- <-]. revert E. by apply update_trace_same.
Qed.
Lemma tc_remove_listener_same h a i h' : bt_trace_class_remove_destruction_listener h a i = Some h' -> view_eq h h'.
Proof.
  unfold bt_trace_class_remove_destruction_listener, BT_ASSERT_PRE. destruct (get_tc h a); [|done].
  destruct (has_listener_id _ _) as [[]|]; [|done..]. by apply update_tc_same.
Qed.
Lemma trace_remove_listener_same h a i h' : bt_trace_remove_destruction_listener h a i = Some h' -> view_eq h h'.
Proof.
  unfold bt_trace_remove_destruction_listener, BT_ASSERT_PRE. destruct (get_trace h a); [|done].
  destruct (has_listener_id _ _) as [[]|]; [|done..]. by apply update_trace_same.
Qed.

Lemma set_hot_sc_names_ok h a n h' : vok (view h) -> set_hot_sc true h a (fun sc => with_sc_names sc (n sc)) = Some h' -> vok (view h').
Proof. intros Hok H. eapply set_hot_sc_ok; [exact Hok|exact H|]. intros sc _ Hf. unfold view_sc. simpl. rewrite Hf. by do 2 eexists. Qed.

(** The version check that the namespaces and unique identifiers need. *)
Lemma mip_guard (mip : option Z) (check : Z -> bool) (r : option ir) h' :
  (do m <- mip; BT_ASSERT_PRE (check m) r) = Some h' -> r = Some h'.
Proof. destruct mip; [|done]. unfold BT_ASSERT_PRE. by destruct (check _). Qed.

(** Changes that the view does not see. *)
Ltac same H :=
  eapply vok_view_eq; [|eassumption];
  first
    [ eapply set_hot_ec_same; [|exact H]; done | eapply set_hot_trace_same; [|exact H]; done
    | eapply update_ec_same; [|exact H]; done | eapply update_stream_same; [|exact H]; done
    | eapply environment_same; exact H | eapply stream_name_same; exact H
    | eapply tc_remove_listener_same; exact H | eapply trace_remove_listener_same; exact H ].

Create HintDb tir.
#[local] Hint Resolve tc_create_ok tc_automatic_ok set_supports_discarded_events_ok set_supports_discarded_packets_ok
  set_supports_packets_ok set_clock_ok set_packet_context_ok set_common_context_ok
  set_specific_context_ok set_payload_ok trace_create_ok vok_view_eq tc_add_listener_same trace_add_listener_same : tir.

Lemma tir_step_ok debug h h' : tir_step debug h h' -> vok (view h) -> vok (view h').
Proof.
  intros H Hok. destruct H; try solve [eauto 3 with tir];
    match goal with H : ?f = Some ?x |- vok (view ?x) => rename H into Hf end; try apply mip_guard in Hf; try (apply (mip_guard _ (fun m => m =? 0)) in Hf);
    try solve [same Hf | eapply set_hot_sc_names_ok; [exact Hok|exact Hf]].
  - unfold bt_stream_class_create, BT_ASSERT_PRE in Hf. destruct (get_tc h tc) as [c|] eqn:Hc; [|done].
    destruct (assigns_automatic_stream_class_id c); [|done]. by eapply create_stream_class_ok.
  - unfold bt_stream_class_create_with_id, BT_ASSERT_PRE in Hf. destruct (get_tc h tc) as [c|] eqn:Hc; [|done].
    destruct (assigns_automatic_stream_class_id c) eqn:Hau; [done|]. eapply create_stream_class_ok; [done|exact Hc| |exact Hf]. by rewrite Hau.
  - eapply set_hot_sc_ok; [exact Hok|exact Hf|]. intros sc _ Hfr. unfold view_sc. simpl. rewrite Hfr. by do 2 eexists.
  - eapply set_hot_sc_ok; [exact Hok|exact Hf|]. intros sc _ Hfr. unfold view_sc. simpl. rewrite Hfr. by do 2 eexists.
  - unfold bt_event_class_create, BT_ASSERT_PRE in Hf. destruct (get_sc h sc) as [c|] eqn:Hc; [|done].
    destruct (assigns_automatic_event_class_id c); [|done]. by eapply create_event_class_ok.
  - unfold bt_event_class_create_with_id, BT_ASSERT_PRE in Hf. destruct (get_sc h sc) as [c|] eqn:Hc; [|done].
    destruct (assigns_automatic_event_class_id c) eqn:Hau; [done|]. eapply create_event_class_ok; [done|exact Hc| |exact Hf]. by rewrite Hau.
  - unfold bt_stream_create, BT_ASSERT_PRE in Hf. destruct (get_sc h class) as [sc|] eqn:Hsc; [|done].
    destruct (assigns_automatic_stream_id sc); [|done]. destruct (get_trace h trace) as [t|] eqn:Ht; [|done].
    eapply create_stream_ok; [done|exact Hsc| |exact Hf]. intros _. by exists t.
  - unfold bt_stream_create_with_id, BT_ASSERT_PRE in Hf. destruct (get_sc h class) as [sc|] eqn:Hsc; [|done].
    destruct (assigns_automatic_stream_id sc) eqn:Hau; [done|]. eapply create_stream_ok; [done|exact Hsc| |exact Hf]. by rewrite Hau.
Qed.

Lemma vok_empty : vok (view ∅).
Proof. intros a o H. unfold view in H. by rewrite lookup_empty in H. Qed.

Lemma tir_reachable_ok debug h : rtc (tir_step debug) ∅ h -> vok (view h).
Proof.
  intros H. pose proof vok_empty as H0. revert H0. induction H as [|h1 h2 h3 Hs _ IH]; [done|]. intros H1. apply IH. by eapply tir_step_ok.
Qed.
