(* ===== verification/TraceIrClaims.v ===== *)
(** What every reachable state of the classes, traces and streams ensures ([TraceIrOps]): the
    look-ups by identifier are exact, automatic identifiers do not clash below 2^32 streams,
    the support flags agree, and the identifiers of the destruction listeners. *)

From stdpp Require Import list gmap.
From S2P Require Import Prelude Object IntRange IrObj FieldClass FieldPath TraceIr TraceIrFacts TraceIrOps.

(** * Looking up by identifier *)

(** [r] is the only one of the objects [l] that has the identifier [id], if there is one. *)
Definition found_by_id (get_id : addr -> option Z) (l : list addr) (id : Z) (r : option (option addr)) : Prop :=
  match r with
  | Some (Some a) => a ∈ l /\ get_id a = Some id /\ forall b, b ∈ l -> get_id b = Some id -> b = a
  | Some None => forall b, b ∈ l -> get_id b <> Some id
  | None => False
  end.

Lemma found_by_id_ok get_id h l ids id : Forall2 (fun x i => get_id h x = Some i) l ids -> NoDup ids ->
  found_by_id (get_id h) l id (borrow_by_id get_id h l id).
Proof.
  intros Hl Hn. pose proof (borrow_by_id_spec get_id h l ids id Hl Hn) as H.
  assert (Hin : forall b, b ∈ l -> get_id h b = Some id -> exists k, l !! k = Some b /\ ids !! k = Some id).
  { intros b (k & Hk)%list_elem_of_lookup_1 Hb. exists k. split; [done|].
    destruct (Forall2_lookup_l _ _ _ _ _ Hl Hk) as (i & Hi & E). congruence. }
  destruct (borrow_by_id get_id h l id) as [[a|]|]; simpl; [| |done].
  - destruct H as (k & Hk & Hi & Hu). split; [by eapply list_elem_of_lookup_2|].
    destruct (Forall2_lookup_l _ _ _ _ _ Hl Hk) as (i & Hi' & E). split; [congruence|].
    intros b Hb Hid. destruct (Hin b Hb Hid) as (k' & Hk' & Hi2). rewrite (Hu k' Hi2) in Hk'. congruence.
  - intros b Hb Hid. destruct (Hin b Hb Hid) as (k & _ & Hi). apply H. by eapply list_elem_of_lookup_2.
Qed.

Lemma sc_ids h l ids : Forall2 (fun x i => (view h x ≫= v_sc_id) = Some i) l ids -> Forall2 (fun x i => get_sc_id h x = Some i) l ids.
Proof. intros Hl. eapply Forall2_impl; [exact Hl|]. intros x i. by rewrite get_sc_id_view. Qed.
Lemma ec_ids h l ids : Forall2 (fun x i => (view h x ≫= v_ec_id) = Some i) l ids -> Forall2 (fun x i => get_ec_id h x = Some i) l ids.
Proof. intros Hl. eapply Forall2_impl; [exact Hl|]. intros x i. by rewrite get_ec_id_view. Qed.

(** * Automatic identifiers *)

Definition is_stream_of (h : ir) (class a : addr) : bool :=
  match get_stream h a with Some s => bool_decide (stream_class s = class) | None => false end.
(** The number of streams of the trace with this class. *)
Definition streams_of (h : ir) (t : bt_trace) (class : addr) : Z := Z.of_nat (length (filter (fun a => is_stream_of h class a = true) (streams t))).

Lemma streams_of_ids h class l infos : Forall2 (fun x i => view h x = Some (VStream i.1 i.2)) l infos ->
  length (filter (fun a => is_stream_of h class a = true) l) = length (ids_of class infos).
Proof.
  induction 1 as [|x [c i] l infos Hx _ IH]; [done|]. apply get_stream_of_view in Hx as (s & Hs & E & _). simpl in E. unfold ids_of in *.
  destruct (decide (c = class)) as [->|Hne].
  - rewrite !filter_cons_True; [simpl; by rewrite IH|done|]. unfold is_stream_of. rewrite Hs. by rewrite bool_decide_eq_true_2.
  - rewrite !filter_cons_False; [done|done|]. unfold is_stream_of. rewrite Hs. rewrite bool_decide_eq_false_2; [done|congruence].
Qed.

Lemma length_not_in_seqZ n : Z.of_nat n ∉ seqZ 0 (Z.of_nat n).
Proof. rewrite elem_of_seqZ. lia. Qed.

Lemma wrapped_not_in_seqZ n : 0 <= n -> bool_decide (wrapu 32 n ∉ seqZ 0 n) = bool_decide (n < 2 ^ 32).
Proof.
  intros Hn. apply bool_decide_ext. rewrite elem_of_seqZ. unfold wrapu.
  pose proof (Z.mod_pos_bound n (2 ^ 32) ltac:(lia)). split; intros Hi.
  - destruct (Z.lt_ge_cases n (2 ^ 32)); lia.
  - rewrite Z.mod_small by lia. lia.
Qed.

Lemma ids_of_elem class id infos j : infos !! j = Some (class, id) -> id ∈ ids_of class infos.
Proof.
  intros Hj. unfold ids_of. apply list_elem_of_fmap. exists (class, id). split; [done|]. apply list_elem_of_filter. split; [done|].
  by eapply list_elem_of_lookup_2.
Qed.
Lemma ids_of_inj class id infos : forall i j, NoDup (ids_of class infos) -> infos !! i = Some (class, id) -> infos !! j = Some (class, id) -> i = j.
Proof.
  induction infos as [|[c x] infos IH]; intros [|i] [|j] Hn Hi Hj; simpl in *; try done; simplify_eq.
  - exfalso. unfold ids_of in Hn. rewrite filter_cons_True in Hn by done. apply NoDup_cons in Hn as [Hn _]. eapply Hn, ids_of_elem, Hj.
  - exfalso. unfold ids_of in Hn. rewrite filter_cons_True in Hn by done. apply NoDup_cons in Hn as [Hn _]. eapply Hn, ids_of_elem, Hi.
  - f_equal. eapply IH; [|exact Hi|exact Hj]. unfold ids_of in *. destruct (decide (c = class)).
    + rewrite filter_cons_True in Hn by done. by apply NoDup_cons in Hn as [_ ?].
    + by rewrite filter_cons_False in Hn.
Qed.

Section reachable.
Context (debug : bool) (h : ir) (Hh : rtc (tir_step debug) ∅ h).

Lemma tc_ids_ok a tc : get_tc h a = Some tc -> ids_ok v_sc_id (view h) (stream_classes tc) (assigns_automatic_stream_class_id tc) (tc_frozen tc).
Proof. intros Ha. exact (tir_reachable_ok _ _ Hh a _ (view_get_tc _ _ _ Ha)). Qed.
Lemma sc_ids_ok a sc : get_sc h a = Some sc -> ids_ok v_ec_id (view h) (event_classes sc) (assigns_automatic_event_class_id sc) (sc_frozen sc).
Proof. intros Ha. by destruct (tir_reachable_ok _ _ Hh a _ (view_get_sc _ _ _ Ha)). Qed.
Lemma trace_streams_ok a t : get_trace h a = Some t -> streams_ok (view h) (streams t) (stream_classes_stream_count t).
Proof. intros Ha. exact (tir_reachable_ok _ _ Hh a _ (view_get_trace _ _ _ Ha)). Qed.
End reachable.

(** C12: from an empty store, with any sequence of creations and changes, looking up a stream
    class of a trace class, or an event class of a stream class, by identifier gives the only
    one with it when there is one, and nothing otherwise; the streams of a stream class in a
    trace have different identifiers, and the support flags of a stream class agree: default
    clock snapshots need a clock class and the support of what they are for, discarded
    packets and a packet context need packets. *)
Theorem class_identifiers_exact debug h : rtc (tir_step debug) ∅ h ->
  (forall a tc id, get_tc h a = Some tc ->
     found_by_id (get_sc_id h) (stream_classes tc) id (bt_trace_class_borrow_stream_class_by_id h a id)) /\
  (forall a sc id, get_sc h a = Some sc ->
     found_by_id (get_ec_id h) (event_classes sc) id (bt_stream_class_borrow_event_class_by_id h a id)) /\
  (forall a t i j x y s s', get_trace h a = Some t -> streams t !! i = Some x -> streams t !! j = Some y ->
     get_stream h x = Some s -> get_stream h y = Some s' -> stream_class s = stream_class s' -> stream_id s = stream_id s' -> i = j) /\
  (forall a sc, get_sc h a = Some sc ->
     support_ok (support sc) (bool_decide (is_Some (packet_context_fc sc))) (bool_decide (is_Some (default_clock_class sc)))).
Proof.
  intros Hh. split; [|split; [|split]].
  - intros a tc id Ha. destruct (tc_ids_ok _ _ Hh a tc Ha) as (ids & Hl & Hn & _). unfold bt_trace_class_borrow_stream_class_by_id. rewrite Ha.
    eapply found_by_id_ok; [by apply sc_ids|done].
  - intros a sc id Ha. destruct (sc_ids_ok _ _ Hh a sc Ha) as (ids & Hl & Hn & _). unfold bt_stream_class_borrow_event_class_by_id. rewrite Ha.
    eapply found_by_id_ok; [by apply ec_ids|done].
  - intros a t i j x y s s' Ha Hi Hj Hs Hs' Hc Hid. destruct (trace_streams_ok _ _ Hh a t Ha) as (infos & Hl & Hok).
    destruct (Hok (stream_class s)) as (Hn & _). 
    destruct (Forall2_lookup_l _ _ _ _ _ Hl Hi) as ([c1 i1] & Hi1 & E1). destruct (Forall2_lookup_l _ _ _ _ _ Hl Hj) as ([c2 i2] & Hj1 & E2).
    rewrite (view_get_stream _ _ _ Hs) in E1. rewrite (view_get_stream _ _ _ Hs') in E2. unfold view_stream in E1, E2. simpl in E1, E2. simplify_eq.
    eapply (ids_of_inj (stream_class s)); [exact Hn|exact Hi1|]. by rewrite Hc, Hid.
  - intros a sc Ha. eapply support_of; [by eapply tir_reachable_ok|exact Ha].
Qed.


(** * Destruction listeners *)

Lemma find_place_S l i : find_place l (S i) = S (find_place l i).
Proof. revert i. induction l as [|x l IH]; intros i; simpl; [done|]. case_bool_decide; [done|]. by rewrite IH. Qed.

Lemma find_place_spec l : (find_place l 0 <= length l)%nat /\
  (l !! find_place l 0 = Some None \/ (find_place l 0 = length l /\ None ∉ l)).
Proof.
  induction l as [|x l [Hle IH]]; simpl; [split; [lia|right; split; [done|apply not_elem_of_nil]]|].
  case_bool_decide as Hx; [subst x; split; [lia|by left]|]. rewrite find_place_S. split; [lia|]. simpl.
  destruct IH as [IH|[IH Hn]]; [by left|right]. split; [by rewrite IH|]. rewrite not_elem_of_cons. split; [congruence|done].
Qed.

Lemma add_listener_lookup l f k : (add_listener l f).1 !! k =
  if bool_decide (k = find_place l 0) then Some (Some f) else if bool_decide (k < find_place l 0)%nat then l !! k else l !! pred k.
Proof.
  pose proof (find_place_spec l) as [Hle _]. unfold add_listener. simpl. set (i := find_place l 0) in *.
  repeat case_bool_decide.
  - subst k. rewrite lookup_app_r; rewrite length_take, Nat.min_l by lia; [by rewrite Nat.sub_diag|lia].
  - rewrite lookup_app_l by (rewrite length_take; lia). by rewrite lookup_take_lt.
  - rewrite lookup_app_r; rewrite length_take, Nat.min_l by lia; [|lia]. destruct (k - i)%nat as [|m] eqn:E; [lia|]. simpl.
    rewrite lookup_drop. f_equal. lia.
Qed.

(** What adding a listener ensures of the listeners [l] and [l'] before and after, and of the
    identifier [id] that it returns. *)
Definition listener_added (l l' : list (option destruction_listener)) (f : destruction_listener) (id : Z) : Prop :=
  let i := Z.to_nat id in
  0 <= id /\ l' !! i = Some (Some f) /\
  (forall k, (k < i)%nat -> exists g, l !! k = Some (Some g) /\ l' !! k = Some (Some g)) /\
  (None ∉ l -> id = Z.of_nat (length l) /\ length l' = S (length l)) /\
  (None ∈ l -> l' !! S i = Some None /\ forall k g, (i < k)%nat -> l !! k = Some g -> l' !! S k = Some g).

Lemma add_listener_spec l f : listener_added l (add_listener l f).1 f (add_listener l f).2.
Proof.
  unfold listener_added. change (add_listener l f).2 with (Z.of_nat (find_place l 0)). rewrite Nat2Z.id.
  destruct (find_place_spec l) as [Hle Hp]. split; [lia|]. split; [by rewrite add_listener_lookup, bool_decide_eq_true_2|]. split; [|split].
  - intros k Hk. assert (Hg : exists g, l !! k = Some (Some g)).
    { clear Hp Hle. revert k Hk. induction l as [|x l IH]; intros k Hk; simpl in *; [lia|]. case_bool_decide as Hx; [lia|].
      rewrite find_place_S in Hk. destruct k as [|k]; simpl; [destruct x as [g|]; [by exists g|done]|apply IH; lia]. }
    destruct Hg as [g Hg]. exists g. split; [done|]. rewrite add_listener_lookup, bool_decide_eq_false_2, bool_decide_eq_true_2; [done|lia|lia].
  - intros Hn. destruct Hp as [Hp|[Hp _]]; [exfalso; apply Hn; by eapply list_elem_of_lookup_2|]. rewrite Hp. split; [done|].
    unfold add_listener. simpl. rewrite length_app, length_take. simpl. rewrite length_drop. lia.
  - intros Hin. destruct Hp as [Hp|[_ Hp]]; [|done]. split.
    + rewrite add_listener_lookup, bool_decide_eq_false_2, bool_decide_eq_false_2; [exact Hp|lia|lia].
    + intros k g Hk Hg. rewrite add_listener_lookup, bool_decide_eq_false_2, bool_decide_eq_false_2; [exact Hg|lia|lia].
Qed.

Lemma no_listener l i : l !! S i = Some None -> has_listener_id l (Z.of_nat (S i)) = Some false.
Proof.
  intros Hi. unfold has_listener_id. rewrite Nat2Z.id, Hi. pose proof (lookup_lt_Some _ _ _ Hi).
  replace (_ && _) with true; [done|]. symmetry. apply andb_true_iff. split; [apply Z.leb_le|apply Z.ltb_lt]; lia.
Qed.

(** a destruction listener added to a trace class or a trace gets the identifier of its
    place; when the place is one whose listener was removed, the listeners after it move by
    one place, so that their identifiers no longer name them, and removing the one whose
    identifier was the next breaks the precondition of the function. *)
Theorem added_listener_moves_others h a f id h' :
  (forall c, get_tc h a = Some c -> bt_trace_class_add_destruction_listener h a f = Some (id, h') ->
     exists c', get_tc h' a = Some c' /\ listener_added (tc_destruction_listeners c) (tc_destruction_listeners c') f id /\
       (None ∈ tc_destruction_listeners c -> bt_trace_class_remove_destruction_listener h' a (id + 1) = None)) /\
  (forall t, get_trace h a = Some t -> bt_trace_add_destruction_listener h a f = Some (id, h') ->
     exists t', get_trace h' a = Some t' /\ listener_added (trace_destruction_listeners t) (trace_destruction_listeners t') f id /\
       (None ∈ trace_destruction_listeners t -> bt_trace_remove_destruction_listener h' a (id + 1) = None)).
Proof.
  split; intros c Ha H.
  - unfold bt_trace_class_add_destruction_listener in H. rewrite Ha in H. destruct (add_listener _ _) as [l i] eqn:E.
    unfold update_tc in H. rewrite Ha in H. injection H as -> <-. pose proof (add_listener_spec (tc_destruction_listeners c) f) as Hs. rewrite E in Hs.
    eexists. split; [unfold get_tc; by rewrite lookup_insert_eq|]. split; [exact Hs|]. intros Hin.
    unfold bt_trace_class_remove_destruction_listener, get_tc. rewrite lookup_insert_eq. simpl.
    destruct Hs as (Hi & _ & _ & _ & Hs). destruct (Hs Hin) as [Hs1 _]. simpl in Hs1. apply no_listener in Hs1.
    rewrite Nat2Z.inj_succ, Z2Nat.id in Hs1 by done. unfold Z.succ in Hs1. by rewrite Hs1.
  - unfold bt_trace_add_destruction_listener in H. rewrite Ha in H. destruct (add_listener _ _) as [l i] eqn:E.
    unfold update_trace in H. rewrite Ha in H. injection H as -> <-. pose proof (add_listener_spec (trace_destruction_listeners c) f) as Hs. rewrite E in Hs.
    eexists. split; [unfold get_trace; by rewrite lookup_insert_eq|]. split; [exact Hs|]. intros Hin.
    unfold bt_trace_remove_destruction_listener, get_trace. rewrite lookup_insert_eq. simpl.
    destruct Hs as (Hi & _ & _ & _ & Hs). destruct (Hs Hin) as [Hs1 _]. simpl in Hs1. apply no_listener in Hs1.
    rewrite Nat2Z.inj_succ, Z2Nat.id in Hs1 by done. unfold Z.succ in Hs1. by rewrite Hs1.
Qed.

(** * A concrete run *)

(** Two stream classes, the first with an event class and two streams in a trace. *)
Definition example_run : option ir :=
  do h <- bt_trace_class_create ∅ 1%positive 0;
  do h <- bt_stream_class_create true false h 1%positive 2%positive;
  do h <- bt_stream_class_create true false h 1%positive 3%positive;
  do h <- bt_stream_class_set_supports_packets true h 2%positive true false false;
  do h <- bt_event_class_create true false h 2%positive 4%positive;
  do h <- bt_trace_create false h 5%positive 1%positive;
  do h <- bt_stream_create true false h 6%positive 2%positive 5%positive;
  bt_stream_create true false h 7%positive 2%positive 5%positive.

Lemma example_reachable h : example_run = Some h -> rtc (tir_step false) ∅ h.
Proof.
  unfold example_run. intros H. destruct (bt_trace_class_create _ _ _) as [h1|] eqn:E1; [|done].
  destruct (bt_stream_class_create _ _ h1 _ _) as [h2|] eqn:E2; [|done]. destruct (bt_stream_class_create _ _ h2 _ _) as [h3|] eqn:E3; [|done].
  destruct (bt_stream_class_set_supports_packets _ _ _ _ _ _) as [h4|] eqn:E4; [|done].
  destruct (bt_event_class_create _ _ _ _ _) as [h5|] eqn:E5; [|done]. destruct (bt_trace_create _ _ _ _) as [h6|] eqn:E6; [|done].
  destruct (bt_stream_create _ _ h6 _ _ _) as [h7|] eqn:E7; [|done].
  eapply rtc_l; [by eapply step_tc_create|]. eapply rtc_l; [by eapply step_sc_create|]. eapply rtc_l; [by eapply step_sc_create|].
  eapply rtc_l; [by eapply step_sc_packets|]. eapply rtc_l; [by eapply step_ec_create|]. eapply rtc_l; [by eapply step_trace_create|].
  eapply rtc_l; [by eapply step_stream_create|]. eapply rtc_once. by eapply step_stream_create.
Qed.

(** What the run gives: the stream class with identifier 1, the number of streams of the
    first class, and the next automatic identifier. *)
Definition example_result : option (option addr * Z * Z) :=
  do h <- example_run;
  do r <- bt_trace_class_borrow_stream_class_by_id h 1%positive 1;
  do t <- get_trace h 5%positive;
  Some (r, streams_of h t 2%positive, bt_trace_get_automatic_stream_id t 2%positive).
Example example_result_ok : example_result = Some (Some 3%positive, 2, 2).
Proof. vm_compute. reflexivity. Qed.

Lemma example_run_result : exists h t sc, example_run = Some h /\ get_trace h 5%positive = Some t /\ get_sc h 2%positive = Some sc /\
  assigns_automatic_stream_id sc = true /\ streams_of h t 2%positive = 2 /\ bt_trace_get_automatic_stream_id t 2%positive = 2.
Proof.
  assert (H : match example_run with
    | Some h => match get_trace h 5%positive, get_sc h 2%positive with
      | Some t, Some sc => assigns_automatic_stream_id sc = true /\ streams_of h t 2%positive = 2 /\ bt_trace_get_automatic_stream_id t 2%positive = 2
      | _, _ => False end
    | None => False end) by (vm_compute; done).
  destruct example_run as [h|]; [|done]. destruct (get_trace h _) as [t|] eqn:Ht; [|done]. destruct (get_sc h _) as [sc|] eqn:Hsc; [|done].
  by exists h, t, sc.
Qed.

Lemma class_identifiers_exact_witness : exists h, example_run = Some h /\
  (forall tc id, get_tc h 1%positive = Some tc ->
     found_by_id (get_sc_id h) (stream_classes tc) id (bt_trace_class_borrow_stream_class_by_id h 1%positive id)).
Proof.
  destruct example_run_result as (h & t & sc & Hr & _). exists h. split; [done|]. intros tc id Htc.
  apply (proj1 (class_identifiers_exact false h (example_reachable h Hr)) 1%positive tc id Htc).
Defined.


(** A trace class whose first listener was removed and whose second one is still there. *)
Definition listeners_example : ir :=
  {[ 1%positive := TraceClassObject (BtTraceClass (bt_object_init_shared_with_parent destroy_trace_class_func) 0 [] true [None; Some 8] false) ]}.

Lemma added_listener_moves_others_witness : exists h', bt_trace_class_add_destruction_listener listeners_example 1%positive 9 = Some (0, h') /\
  option_map tc_destruction_listeners (get_tc h' 1%positive) = Some [Some 9; None; Some 8] /\
  bt_trace_class_remove_destruction_listener h' 1%positive 1 = None.
Proof.
  destruct (bt_trace_class_add_destruction_listener listeners_example 1%positive 9) as [[id h']|] eqn:E; [|done].
  destruct (proj1 (added_listener_moves_others listeners_example 1%positive 9 id h') _ eq_refl E) as (c' & Hc' & _ & Hr).
  assert (Hid : id = 0) by (injection E as <- _; reflexivity). subst id. exists h'. split; [done|]. split.
  - injection E as <-. reflexivity.
  - apply Hr. simpl. apply elem_of_cons. by left.
Defined.
