(* ===== verification/GraphObj.v ===== *)
(** The objects of a trace processing graph: [graph.h], [component.h],
    [component-class.h], [port.h], [connection.h], [interrupter.h] and [iterator.h] of
    [src/src/lib/graph].

    One store maps the address of an object to it, whatever its type; each object
    starts with a [bt_object] ([Object]).  [U] is the type of the user's data.  A
    message iterator is seen here through what its creation and its end use; [Iterator]
    models how it gets messages.  The message pools of a graph are left out. *)

From stdpp Require Import list gmap.
From S2P Require Import Prelude Object Mip.

(** * Statuses *)

Definition BT_FUNC_STATUS_MEMORY_ERROR : Z := -12.
Definition BT_FUNC_STATUS_ERROR : Z := -1.
Definition BT_FUNC_STATUS_END : Z := 1.
Definition BT_FUNC_STATUS_AGAIN : Z := 11.

(** * Data *)

(** GLib's [GQueue]: its links, in order, and the length that it keeps. *)
Record gqueue := GQueue { links : list addr; queue_length : Z }.
Definition g_queue_new : gqueue := GQueue [] 0.
Definition g_queue_push_tail (q : gqueue) (a : addr) : gqueue :=
  GQueue (links q ++ [a]) (wrapu 32 (queue_length q + 1)).
Definition g_queue_pop_head_link (q : gqueue) : option (addr * gqueue) :=
  match links q with
  | [] => None
  | a :: l => Some (a, GQueue l (wrapu 32 (queue_length q - 1)))
  end.
Definition g_queue_pop_nth_link (q : gqueue) (n : nat) : option (addr * gqueue) :=
  do a <- links q !! n; Some (a, GQueue (delete n (links q)) (wrapu 32 (queue_length q - 1))).

Inductive bt_port_type := PortInput | PortOutput.
#[export] Instance bt_port_type_eq_dec : EqDecision bt_port_type.
Proof. solve_decision. Defined.

Inductive bt_component_class_type := ClassSource | ClassFilter | ClassSink.
#[export] Instance bt_component_class_type_eq_dec : EqDecision bt_component_class_type.
Proof. solve_decision. Defined.

Inductive bt_graph_configuration_state :=
| Configuring | PartiallyConfigured | Configured | Faulty | Destroying.
#[export] Instance bt_graph_configuration_state_eq_dec : EqDecision bt_graph_configuration_state.
Proof. solve_decision. Defined.

Inductive iterator_life := NonInitialized | Active | Finalizing | Finalized.
#[export] Instance iterator_life_eq_dec : EqDecision iterator_life.
Proof. solve_decision. Defined.

Record bt_interrupter := BtInterrupter { intr_base : bt_object; is_set : bool }.

(** What the library uses of a class; its methods are in [GraphUser]. *)
Record bt_component_class := BtComponentClass {
  cls_base : bt_object;
  cls_type : bt_component_class_type;
  cls_frozen : bool
}.

Section data.
Context {U : Type}.

Record bt_port := BtPort {
  port_base : bt_object;
  port_type : bt_port_type;
  port_name : list Z;
  port_connection : option addr;
  port_user_data : U
}.

Record bt_connection := BtConnection {
  conn_base : bt_object;
  downstream_port : option addr;
  upstream_port : option addr;
  iterators : list addr;
  notified_upstream_port_connected : bool;
  notified_downstream_port_connected : bool
}.

(** The last member is the one of [struct bt_component_sink]. *)
Record bt_component := BtComponent {
  comp_base : bt_object;
  comp_class : addr;
  comp_name : list Z;
  log_level : Z;
  comp_user_data : U;
  input_ports : list addr;
  output_ports : list addr;
  destroy_listeners : list (func * U);
  initialized : bool;
  graph_is_configured_method_called : bool
}.

(** The state is [Active] for all the states between the initialization and the
    finalization. *)
Record bt_message_iterator := BtMessageIterator {
  iter_base : bt_object;
  upstream_component : option addr;
  iter_upstream_port : option addr;
  iter_connection : option addr;
  iter_graph : addr;
  config_frozen : bool;
  can_seek_forward : bool;
  upstream_msg_iters : list addr;
  downstream_msg_iter : option addr;
  iter_state : iterator_life;
  iter_user_data : U
}.

Record bt_graph_listener_port_added := PortAddedListener { listener_func : func; listener_data : U }.

Record graph_listeners := GraphListeners {
  source_output_port_added : list bt_graph_listener_port_added;
  filter_output_port_added : list bt_graph_listener_port_added;
  filter_input_port_added : list bt_graph_listener_port_added;
  sink_input_port_added : list bt_graph_listener_port_added
}.

Record bt_graph := BtGraph {
  graph_base : bt_object;
  connections : list addr;
  components : list addr;
  sinks_to_consume : gqueue;
  mip_version : Z;
  interrupters : list addr;
  default_interrupter : option addr;
  has_sink : bool;
  can_consume : bool;
  config_state : bt_graph_configuration_state;
  listeners : graph_listeners
}.

Inductive object :=
| GraphObject (g : bt_graph)
| ComponentObject (c : bt_component)
| PortObject (p : bt_port)
| ConnectionObject (x : bt_connection)
| IteratorObject (i : bt_message_iterator)
| InterrupterObject (i : bt_interrupter)
| ClassObject (c : bt_component_class).

(** * Members *)

Definition with_port_connection (p : bt_port) (x : option addr) : bt_port :=
  BtPort (port_base p) (port_type p) (port_name p) x (port_user_data p).

Definition with_ports (x : bt_connection) (down up : option addr) : bt_connection :=
  BtConnection (conn_base x) down up (iterators x) (notified_upstream_port_connected x)
    (notified_downstream_port_connected x).
Definition with_iterators (x : bt_connection) (l : list addr) : bt_connection :=
  BtConnection (conn_base x) (downstream_port x) (upstream_port x) l (notified_upstream_port_connected x)
    (notified_downstream_port_connected x).
Definition with_notified (x : bt_connection) (up down : bool) : bt_connection :=
  BtConnection (conn_base x) (downstream_port x) (upstream_port x) (iterators x) up down.

Definition with_input_ports (c : bt_component) (l : list addr) : bt_component :=
  BtComponent (comp_base c) (comp_class c) (comp_name c) (log_level c) (comp_user_data c) l (output_ports c)
    (destroy_listeners c) (initialized c) (graph_is_configured_method_called c).
Definition with_output_ports (c : bt_component) (l : list addr) : bt_component :=
  BtComponent (comp_base c) (comp_class c) (comp_name c) (log_level c) (comp_user_data c) (input_ports c) l
    (destroy_listeners c) (initialized c) (graph_is_configured_method_called c).
Definition with_destroy_listeners (c : bt_component) (l : list (func * U)) : bt_component :=
  BtComponent (comp_base c) (comp_class c) (comp_name c) (log_level c) (comp_user_data c) (input_ports c)
    (output_ports c) l (initialized c) (graph_is_configured_method_called c).
Definition with_initialized (c : bt_component) (b : bool) : bt_component :=
  BtComponent (comp_base c) (comp_class c) (comp_name c) (log_level c) (comp_user_data c) (input_ports c)
    (output_ports c) (destroy_listeners c) b (graph_is_configured_method_called c).
Definition with_method_called (c : bt_component) (b : bool) : bt_component :=
  BtComponent (comp_base c) (comp_class c) (comp_name c) (log_level c) (comp_user_data c) (input_ports c)
    (output_ports c) (destroy_listeners c) (initialized c) b.

Definition with_state (i : bt_message_iterator) (s : iterator_life) : bt_message_iterator :=
  BtMessageIterator (iter_base i) (upstream_component i) (iter_upstream_port i) (iter_connection i) (iter_graph i)
    (config_frozen i) (can_seek_forward i) (upstream_msg_iters i) (downstream_msg_iter i) s (iter_user_data i).
Definition with_connection (i : bt_message_iterator) (x : option addr) : bt_message_iterator :=
  BtMessageIterator (iter_base i) (upstream_component i) (iter_upstream_port i) x (iter_graph i)
    (config_frozen i) (can_seek_forward i) (upstream_msg_iters i) (downstream_msg_iter i) (iter_state i) (iter_user_data i).
Definition with_upstream (i : bt_message_iterator) (comp port : option addr) : bt_message_iterator :=
  BtMessageIterator (iter_base i) comp port (iter_connection i) (iter_graph i)
    (config_frozen i) (can_seek_forward i) (upstream_msg_iters i) (downstream_msg_iter i) (iter_state i) (iter_user_data i).
Definition with_upstream_msg_iters (i : bt_message_iterator) (l : list addr) : bt_message_iterator :=
  BtMessageIterator (iter_base i) (upstream_component i) (iter_upstream_port i) (iter_connection i) (iter_graph i)
    (config_frozen i) (can_seek_forward i) l (downstream_msg_iter i) (iter_state i) (iter_user_data i).
Definition with_downstream (i : bt_message_iterator) (d : option addr) : bt_message_iterator :=
  BtMessageIterator (iter_base i) (upstream_component i) (iter_upstream_port i) (iter_connection i) (iter_graph i)
    (config_frozen i) (can_seek_forward i) (upstream_msg_iters i) d (iter_state i) (iter_user_data i).
Definition with_config_frozen (i : bt_message_iterator) : bt_message_iterator :=
  BtMessageIterator (iter_base i) (upstream_component i) (iter_upstream_port i) (iter_connection i) (iter_graph i)
    true (can_seek_forward i) (upstream_msg_iters i) (downstream_msg_iter i) (iter_state i) (iter_user_data i).

Definition with_connections (g : bt_graph) (l : list addr) : bt_graph :=
  BtGraph (graph_base g) l (components g) (sinks_to_consume g) (mip_version g) (interrupters g) (default_interrupter g)
    (has_sink g) (can_consume g) (config_state g) (listeners g).
Definition with_components (g : bt_graph) (l : list addr) : bt_graph :=
  BtGraph (graph_base g) (connections g) l (sinks_to_consume g) (mip_version g) (interrupters g) (default_interrupter g)
    (has_sink g) (can_consume g) (config_state g) (listeners g).
Definition with_sinks (g : bt_graph) (q : gqueue) : bt_graph :=
  BtGraph (graph_base g) (connections g) (components g) q (mip_version g) (interrupters g) (default_interrupter g)
    (has_sink g) (can_consume g) (config_state g) (listeners g).
Definition with_interrupters (g : bt_graph) (l : list addr) (d : option addr) : bt_graph :=
  BtGraph (graph_base g) (connections g) (components g) (sinks_to_consume g) (mip_version g) l d
    (has_sink g) (can_consume g) (config_state g) (listeners g).
Definition with_has_sink (g : bt_graph) (b : bool) : bt_graph :=
  BtGraph (graph_base g) (connections g) (components g) (sinks_to_consume g) (mip_version g) (interrupters g)
    (default_interrupter g) b (can_consume g) (config_state g) (listeners g).
Definition with_can_consume (g : bt_graph) (b : bool) : bt_graph :=
  BtGraph (graph_base g) (connections g) (components g) (sinks_to_consume g) (mip_version g) (interrupters g)
    (default_interrupter g) (has_sink g) b (config_state g) (listeners g).
Definition with_config_state (g : bt_graph) (s : bt_graph_configuration_state) : bt_graph :=
  BtGraph (graph_base g) (connections g) (components g) (sinks_to_consume g) (mip_version g) (interrupters g)
    (default_interrupter g) (has_sink g) (can_consume g) s (listeners g).
Definition with_listeners (g : bt_graph) (l : graph_listeners) : bt_graph :=
  BtGraph (graph_base g) (connections g) (components g) (sinks_to_consume g) (mip_version g) (interrupters g)
    (default_interrupter g) (has_sink g) (can_consume g) (config_state g) l.

(** * The base of an object *)

Definition object_base (o : object) : bt_object :=
  match o with
  | GraphObject g => graph_base g
  | ComponentObject c => comp_base c
  | PortObject p => port_base p
  | ConnectionObject x => conn_base x
  | IteratorObject i => iter_base i
  | InterrupterObject i => intr_base i
  | ClassObject c => cls_base c
  end.
Definition with_base (o : object) (b : bt_object) : object :=
  match o with
  | GraphObject g =>
    GraphObject (BtGraph b (connections g) (components g) (sinks_to_consume g) (mip_version g) (interrupters g)
      (default_interrupter g) (has_sink g) (can_consume g) (config_state g) (listeners g))
  | ComponentObject c =>
    ComponentObject (BtComponent b (comp_class c) (comp_name c) (log_level c) (comp_user_data c) (input_ports c)
      (output_ports c) (destroy_listeners c) (initialized c) (graph_is_configured_method_called c))
  | PortObject p => PortObject (BtPort b (port_type p) (port_name p) (port_connection p) (port_user_data p))
  | ConnectionObject x =>
    ConnectionObject (BtConnection b (downstream_port x) (upstream_port x) (iterators x)
      (notified_upstream_port_connected x) (notified_downstream_port_connected x))
  | IteratorObject i =>
    IteratorObject (BtMessageIterator b (upstream_component i) (iter_upstream_port i) (iter_connection i) (iter_graph i)
      (config_frozen i) (can_seek_forward i) (upstream_msg_iters i) (downstream_msg_iter i) (iter_state i)
      (iter_user_data i))
  | InterrupterObject i => InterrupterObject (BtInterrupter b (is_set i))
  | ClassObject c => ClassObject (BtComponentClass b (cls_type c) (cls_frozen c))
  end.

#[export] Instance graph_object_base : ObjectBase object := { base := object_base; set_base := with_base }.
#[export] Instance graph_object_base_laws : ObjectBaseLaws object.
Proof. split; [by intros []|by intros [[]|[]|[]|[]|[]|[]|[]]|by intros []]. Qed.

(** * Access by type *)

Definition get_graph (h : gmap addr object) (a : addr) : option bt_graph :=
  match h !! a with Some (GraphObject g) => Some g | _ => None end.
Definition get_component (h : gmap addr object) (a : addr) : option bt_component :=
  match h !! a with Some (ComponentObject c) => Some c | _ => None end.
Definition get_port (h : gmap addr object) (a : addr) : option bt_port :=
  match h !! a with Some (PortObject p) => Some p | _ => None end.
Definition get_connection (h : gmap addr object) (a : addr) : option bt_connection :=
  match h !! a with Some (ConnectionObject x) => Some x | _ => None end.
Definition get_iterator (h : gmap addr object) (a : addr) : option bt_message_iterator :=
  match h !! a with Some (IteratorObject i) => Some i | _ => None end.
Definition get_interrupter (h : gmap addr object) (a : addr) : option bt_interrupter :=
  match h !! a with Some (InterrupterObject i) => Some i | _ => None end.
Definition get_class (h : gmap addr object) (a : addr) : option bt_component_class :=
  match h !! a with Some (ClassObject c) => Some c | _ => None end.

Definition update_graph (h : gmap addr object) (a : addr) (f : bt_graph -> bt_graph) : option (gmap addr object) :=
  do g <- get_graph h a; Some (<[a := GraphObject (f g)]> h).
Definition update_component (h : gmap addr object) (a : addr) (f : bt_component -> bt_component)
    : option (gmap addr object) :=
  do c <- get_component h a; Some (<[a := ComponentObject (f c)]> h).
Definition update_port (h : gmap addr object) (a : addr) (f : bt_port -> bt_port) : option (gmap addr object) :=
  do p <- get_port h a; Some (<[a := PortObject (f p)]> h).
Definition update_connection (h : gmap addr object) (a : addr) (f : bt_connection -> bt_connection)
    : option (gmap addr object) :=
  do x <- get_connection h a; Some (<[a := ConnectionObject (f x)]> h).
Definition update_iterator (h : gmap addr object) (a : addr) (f : bt_message_iterator -> bt_message_iterator)
    : option (gmap addr object) :=
  do i <- get_iterator h a; Some (<[a := IteratorObject (f i)]> h).
End data.
Arguments bt_port : clear implicits.
Arguments bt_component : clear implicits.
Arguments bt_message_iterator : clear implicits.
Arguments bt_graph_listener_port_added : clear implicits.
Arguments graph_listeners : clear implicits.
Arguments bt_graph : clear implicits.
Arguments object : clear implicits.
Abbreviation objects U := (gmap addr (object U)).

(** * Access to one object *)

Section access.
Context {U : Type}.
Implicit Types h : objects U.

Lemma get_graph_Some h a g : get_graph h a = Some g <-> h !! a = Some (GraphObject g).
Proof. unfold get_graph. destruct (h !! a) as [[]|]; split; intros [=]; by subst. Qed.
Lemma get_component_Some h a c : get_component h a = Some c <-> h !! a = Some (ComponentObject c).
Proof. unfold get_component. destruct (h !! a) as [[]|]; split; intros [=]; by subst. Qed.
Lemma get_port_Some h a c : get_port h a = Some c <-> h !! a = Some (PortObject c).
Proof. unfold get_port. destruct (h !! a) as [[]|]; split; intros [=]; by subst. Qed.
Lemma get_connection_Some h a c : get_connection h a = Some c <-> h !! a = Some (ConnectionObject c).
Proof. unfold get_connection. destruct (h !! a) as [[]|]; split; intros [=]; by subst. Qed.
Lemma get_class_Some h a c : get_class h a = Some c <-> h !! a = Some (ClassObject c).
Proof. unfold get_class. destruct (h !! a) as [[]|]; split; intros [=]; by subst. Qed.

Lemma get_graph_insert h a g : get_graph (<[a := GraphObject g]> h) a = Some g.
Proof. unfold get_graph. by rewrite lookup_insert_eq. Qed.
Lemma get_component_insert h a c : get_component (<[a := ComponentObject c]> h) a = Some c.
Proof. unfold get_component. by rewrite lookup_insert_eq. Qed.

(** Changing a graph does not change the other objects. *)
Lemma get_component_graph h a g g' b : get_graph h a = Some g ->
  get_component (<[a := GraphObject g']> h) b = get_component h b.
Proof.
  intros Hg%get_graph_Some. unfold get_component. destruct (decide (a = b)) as [<-|Hne].
  - by rewrite lookup_insert_eq, Hg.
  - by rewrite lookup_insert_ne.
Qed.
Lemma get_class_graph h a g g' b : get_graph h a = Some g ->
  get_class (<[a := GraphObject g']> h) b = get_class h b.
Proof.
  intros Hg%get_graph_Some. unfold get_class. destruct (decide (a = b)) as [<-|Hne].
  - by rewrite lookup_insert_eq, Hg.
  - by rewrite lookup_insert_ne.
Qed.
Lemma get_interrupter_graph h a g g' b : get_graph h a = Some g ->
  get_interrupter (<[a := GraphObject g']> h) b = get_interrupter h b.
Proof.
  intros Hg%get_graph_Some. unfold get_interrupter. destruct (decide (a = b)) as [<-|Hne].
  - by rewrite lookup_insert_eq, Hg.
  - by rewrite lookup_insert_ne.
Qed.
Lemma get_graph_component h a c c' b : get_component h a = Some c ->
  get_graph (<[a := ComponentObject c']> h) b = get_graph h b.
Proof.
  intros Hc%get_component_Some. unfold get_graph. destruct (decide (a = b)) as [<-|Hne].
  - by rewrite lookup_insert_eq, Hc.
  - by rewrite lookup_insert_ne.
Qed.
Lemma get_class_component h a c c' b : get_component h a = Some c ->
  get_class (<[a := ComponentObject c']> h) b = get_class h b.
Proof.
  intros Hc%get_component_Some. unfold get_class. destruct (decide (a = b)) as [<-|Hne].
  - by rewrite lookup_insert_eq, Hc.
  - by rewrite lookup_insert_ne.
Qed.

Lemma update_graph_ok h a g f : get_graph h a = Some g -> update_graph h a f = Some (<[a := GraphObject (f g)]> h).
Proof. intros Hg. unfold update_graph. by rewrite Hg. Qed.
Lemma update_port_ok h a p f : get_port h a = Some p -> update_port h a f = Some (<[a := PortObject (f p)]> h).
Proof. intros Hp. unfold update_port. by rewrite Hp. Qed.
Lemma update_connection_ok h a x f : get_connection h a = Some x ->
  update_connection h a f = Some (<[a := ConnectionObject (f x)]> h).
Proof. intros Hx. unfold update_connection. by rewrite Hx. Qed.
Lemma update_component_ok h a c f : get_component h a = Some c ->
  update_component h a f = Some (<[a := ComponentObject (f c)]> h).
Proof. intros Hc. unfold update_component. by rewrite Hc. Qed.
End access.

(** Two chains of insertions of distinct addresses. *)
Ltac solve_inserts :=
  apply map_eq; let i := fresh "i" in intros i; rewrite ?lookup_insert; repeat case_decide; simplify_eq; done.
