(* ===== verification/Graph.v ===== *)
(** Trace processing graphs: [graph.c], [component.c], [port.c], [connection.c],
    [interrupter.c] of [src/src/lib/graph], and the creation and the end of message
    iterators ([iterator.c]).

    The methods of the user's classes and the graph's listeners are functions on the
    whole store (class [GraphUser]): they can call the functions below.  [malloc] gives
    the address of a new object and [null] is a null user data pointer.  No error is
    pending in the current thread.  [delete_popped_link] is what GLib's
    [g_queue_delete_link] does with a link that is not in the queue any more, which its
    documentation does not say. *)

From stdpp Require Import list gmap.
From S2P Require Import Prelude Object Mip GraphObj.

Definition destroy_graph_func : func := 1%positive.
Definition destroy_component_func : func := 2%positive.
Definition destroy_port_func : func := 3%positive.
Definition destroy_connection_func : func := 4%positive.
Definition parent_is_owner_func : func := 5%positive.
Definition bt_message_iterator_destroy_func : func := 6%positive.
Definition destroy_interrupter_func : func := 7%positive.
Definition destroy_component_class_func : func := 8%positive.

(** The user's methods, by class; [None] is a method that is not set.  A method gets
    the addresses of its arguments and gives a status; the data of an initialization
    method is of type [U]. *)
Class GraphUser (U : Type) := {
  init_method : addr -> option (addr -> U -> objects U -> option (Z * objects U));
  finalize_method : addr -> option (addr -> objects U -> option (objects U));
  port_connected_method : addr -> bt_port_type -> option (addr -> addr -> addr -> objects U -> option (Z * objects U));
  graph_is_configured_method : addr -> option (addr -> objects U -> option (Z * objects U));
  consume_method : addr -> addr -> objects U -> option (Z * objects U);
  iterator_initialize_method : addr -> option (addr -> addr -> objects U -> option (Z * objects U));
  iterator_finalize_method : addr -> option (addr -> objects U -> option (objects U));
  port_added_func : func -> addr -> addr -> U -> objects U -> option (Z * objects U);
  destroy_listener_func : func -> addr -> U -> objects U -> option (objects U)
}.

(** A function on the elements of an array. *)
Fixpoint for_objects {U} (f : objects U -> addr -> option (objects U)) (l : list addr) (h : objects U)
    : option (objects U) :=
  match l with
  | [] => Some h
  | a :: l => do h <- f h a; for_objects f l h
  end.

Section graph.
Context {U : Type} `{GraphUser U}.
Context (dev debug : bool).

(** * Ends *)

Section ends.
(** What a function pointer does: the functions of this section, one level down. *)
Context (call : func -> addr -> objects U -> option (objects U)).
(** Bounds the loops on arrays that the user's methods can change. *)
Context (fuel : nat).

Definition put_ref (h : objects U) (p : option addr) : option (objects U) :=
  do r <- bt_object_put_ref debug call h p; run call r.
Definition try_spec_release (h : objects U) (a : addr) : option (objects U) :=
  do r <- bt_object_try_spec_release debug h a; run call r.
(** [obj->ref_count++] *)
Definition increment_ref_count (h : objects U) (a : addr) : option (objects U) :=
  do o <- h !! a;
  Some (<[a := set_base o (set_ref_count (base o) (wrapu 64 (ref_count (base o) + 1)))]> h).

Definition destroy_port (h : objects U) (port : addr) : option (objects U) :=
  do _ <- get_port h port; Some (delete port h).
Definition destroy_interrupter (h : objects U) (intr : addr) : option (objects U) :=
  do _ <- get_interrupter h intr; Some (delete intr h).

Definition bt_port_set_connection (h : objects U) (port : addr) (connection : option addr) : option (objects U) :=
  update_port h port (fun p => with_port_connection p connection).

(** GLib frees the element, then removes it from the array. *)
Definition bt_graph_remove_connection (h : objects U) (graph connection : addr) : option (objects U) :=
  do g <- get_graph h graph;
  if bool_decide (connection ∈ connections g) then
    do h <- try_spec_release h connection;
    update_graph h graph (fun g =>
      with_connections g
        match list_find (fun x => x = connection) (connections g) with
        | Some (i, _) => delete i (connections g)
        | None => connections g
        end)
  else Some h.

Definition try_remove_connection_from_graph (h : objects U) (connection : addr) : option (objects U) :=
  do c <- get_connection h connection;
  do graph <- bt_object_borrow_parent debug h connection;
  if (0 <? ref_count (conn_base c)) || bool_decide (is_Some (downstream_port c)) ||
     bool_decide (is_Some (upstream_port c)) || (0 <? length (iterators c))%nat
  then Some h
  else do graph <- graph; bt_graph_remove_connection h graph connection.

Definition bt_message_iterator_set_connection (h : objects U) (iterator : addr) (connection : option addr)
    : option (objects U) :=
  update_iterator h iterator (fun i => with_connection i connection).

(** The user's finalization method, unless the initialization did not succeed. *)
Definition call_iterator_finalize (h : objects U) (iterator : addr) : option (objects U) :=
  do i <- get_iterator h iterator;
  do comp <- upstream_component i;
  do c <- get_component h comp;
  do cls <- get_class h (comp_class c);
  guard_ub negb (bool_decide (cls_type cls = ClassSink));
  match iterator_finalize_method (comp_class c) with
  | Some method => method iterator h
  | None => Some h
  end.

Definition bt_message_iterator_try_finalize (h : objects U) (iterator : addr) : option (objects U) :=
  do i <- get_iterator h iterator;
  let finalize (call_user_finalize : bool) :=
    do h <- update_iterator h iterator (fun i => with_state i Finalizing);
    guard_ub bool_decide (is_Some (upstream_component i));
    do h <- (if call_user_finalize then call_iterator_finalize h iterator else Some h);
    do i <- get_iterator h iterator;
    do h <- for_objects (fun h up => update_iterator h up (fun u => with_downstream u None)) (upstream_msg_iters i) h;
    do h <- update_iterator h iterator (fun i => with_upstream_msg_iters i []);
    do i <- get_iterator h iterator;
    do h <- match downstream_msg_iter i with
            | Some down =>
              do d <- get_iterator h down;
              do r <- list_find (fun x => x = iterator) (upstream_msg_iters d);
              update_iterator h down (fun d => with_upstream_msg_iters d (remove_index_fast (upstream_msg_iters d) (fst r)))
            | None => Some h
            end;
    update_iterator h iterator (fun i => with_state (with_upstream i None None) Finalized)
  in
  match iter_state i with
  | NonInitialized => finalize false
  | Finalized => Some h
  | Finalizing => None
  | Active => finalize true
  end.

(** The loop on the message iterators of a connection, from index [i]. *)
Fixpoint finalize_iterators (n : nat) (h : objects U) (conn : addr) (i : nat) : option (objects U) :=
  match n with
  | O => None
  | S n =>
    do c <- get_connection h conn;
    match iterators c !! i with
    | None => Some h
    | Some iterator =>
      do h <- bt_message_iterator_try_finalize h iterator;
      do h <- bt_message_iterator_set_connection h iterator None;
      finalize_iterators n h conn (S i)
    end
  end.

Definition bt_connection_end (h : objects U) (conn : addr) (try_remove_from_graph : bool) : option (objects U) :=
  do c <- get_connection h conn;
  let down := downstream_port c in
  let up := upstream_port c in
  do h <- bt_object_get_ref debug h down;
  do h <- bt_object_get_ref debug h up;
  do h <- match down with
          | Some port =>
            do h <- bt_port_set_connection h port None;
            update_connection h conn (fun c => with_ports c None (upstream_port c))
          | None => Some h
          end;
  do h <- match up with
          | Some port =>
            do h <- bt_port_set_connection h port None;
            update_connection h conn (fun c => with_ports c (downstream_port c) None)
          | None => Some h
          end;
  do h <- put_ref h down;
  do h <- put_ref h up;
  do h <- finalize_iterators fuel h conn 0;
  do h <- update_connection h conn (fun c => with_iterators c []);
  if try_remove_from_graph then try_remove_connection_from_graph h conn else Some h.

Definition destroy_connection (h : objects U) (connection : addr) : option (objects U) :=
  do h <- bt_connection_end h connection false;
  Some (delete connection h).

Definition parent_is_owner (h : objects U) (connection : addr) : option (objects U) :=
  try_remove_connection_from_graph h connection.

Definition bt_connection_remove_iterator (h : objects U) (conn iterator : addr) : option (objects U) :=
  do h <- update_connection h conn (fun c =>
    with_iterators c
      match list_find (fun x => x = iterator) (iterators c) with
      | Some (i, _) => delete i (iterators c)
      | None => iterators c
      end);
  try_remove_connection_from_graph h conn.

Definition bt_message_iterator_destroy (h : objects U) (iterator : addr) : option (objects U) :=
  do h <- increment_ref_count h iterator;
  do h <- bt_message_iterator_try_finalize h iterator;
  do i <- get_iterator h iterator;
  do h <- match iter_connection i with
          | Some conn =>
            do h <- bt_connection_remove_iterator h conn iterator;
            bt_message_iterator_set_connection h iterator None
          | None => Some h
          end;
  do i <- get_iterator h iterator;
  guard_ub (length (upstream_msg_iters i) =? 0)%nat;
  Some (delete iterator h).

Definition finalize_component (h : objects U) (comp : addr) : option (objects U) :=
  do c <- get_component h comp;
  match finalize_method (comp_class c) with
  | Some method => method comp h
  | None => Some h
  end.

(** The destroy listeners below index [n], last first. *)
Fixpoint call_destroy_listeners (n : nat) (h : objects U) (comp : addr) : option (objects U) :=
  match n with
  | O => Some h
  | S n =>
    do c <- get_component h comp;
    do l <- destroy_listeners c !! n;
    do h <- destroy_listener_func (fst l) comp (snd l) h;
    call_destroy_listeners n h comp
  end.

(** GLib empties an array before it frees its elements. *)
Definition destroy_component (h : objects U) (component : addr) : option (objects U) :=
  do h <- increment_ref_count h component;
  do c <- get_component h component;
  do h <- call_destroy_listeners (length (destroy_listeners c)) h component;
  do c <- get_component h component;
  do h <- (if initialized c then finalize_component h component else Some h);
  do c <- get_component h component;
  do h <- update_component h component (fun c => with_input_ports c []);
  do h <- for_objects try_spec_release (input_ports c) h;
  do c <- get_component h component;
  do h <- update_component h component (fun c => with_output_ports c []);
  do h <- for_objects try_spec_release (output_ports c) h;
  do c <- get_component h component;
  do h <- put_ref h (Some (comp_class c));
  Some (delete component h).

Definition destroy_component_class (h : objects U) (class : addr) : option (objects U) :=
  do _ <- get_class h class; Some (delete class h).

Definition destroy_graph (h : objects U) (graph : addr) : option (objects U) :=
  do h <- increment_ref_count h graph;
  do h <- update_graph h graph (fun g => with_config_state g Destroying);
  do g <- get_graph h graph;
  do h <- update_graph h graph (fun g => with_connections g []);
  do h <- for_objects try_spec_release (connections g) h;
  do g <- get_graph h graph;
  do h <- update_graph h graph (fun g => with_components g []);
  do h <- for_objects try_spec_release (components g) h;
  do g <- get_graph h graph;
  do h <- update_graph h graph (fun g => with_interrupters g [] (default_interrupter g));
  do h <- for_objects (fun h a => put_ref h (Some a)) (interrupters g) h;
  do g <- get_graph h graph;
  do h <- put_ref h (default_interrupter g);
  Some (delete graph h).
End ends.

(** Calls nest at most [fuel] deep. *)
Fixpoint call_object (fuel : nat) (f : func) (a : addr) (h : objects U) : option (objects U) :=
  match fuel with
  | O => None
  | S fuel =>
    let call := call_object fuel in
    if bool_decide (f = destroy_graph_func) then destroy_graph call h a
    else if bool_decide (f = destroy_component_func) then destroy_component call h a
    else if bool_decide (f = destroy_port_func) then destroy_port h a
    else if bool_decide (f = destroy_connection_func) then destroy_connection call fuel h a
    else if bool_decide (f = parent_is_owner_func) then parent_is_owner call h a
    else if bool_decide (f = bt_message_iterator_destroy_func) then bt_message_iterator_destroy call h a
    else if bool_decide (f = destroy_interrupter_func) then destroy_interrupter h a
    else if bool_decide (f = destroy_component_class_func) then destroy_component_class h a
    else None
  end.

(** * Ports, interrupters and components *)

Section api.
Context (fuel : nat) (malloc : objects U -> addr) (null : U).
Let call := call_object fuel.

Definition alloc (h : objects U) (o : object U) : addr * objects U :=
  let a := malloc h in (a, <[a := o]> h).

Definition bt_port_is_connected (h : objects U) (port : addr) : option bool :=
  do p <- get_port h port; Some (bool_decide (is_Some (port_connection p))).
Definition bt_port_borrow_component_inline (h : objects U) (port : addr) : option (option addr) :=
  do _ <- get_port h port; bt_object_borrow_parent debug h port.

Definition bt_port_create (h : objects U) (parent_component : addr) (type : bt_port_type) (name : list Z)
    (user_data : U) : option (addr * objects U) :=
  guard_ub (0 <? length name)%nat;
  let '(port, h) := alloc h (PortObject
    (BtPort (bt_object_init_shared_with_parent destroy_port_func) type name None user_data)) in
  do h <- bt_object_set_parent debug call h port (Some parent_component);
  Some (port, h).

Definition bt_interrupter_create (h : objects U) : addr * objects U :=
  alloc h (InterrupterObject
    (BtInterrupter (bt_object_init_shared (ReleaseFunc destroy_interrupter_func)) false)).
Definition bt_interrupter_set (h : objects U) (intr : addr) : option (objects U) :=
  do i <- get_interrupter h intr; Some (<[intr := InterrupterObject (BtInterrupter (intr_base i) true)]> h).
Definition bt_interrupter_reset (h : objects U) (intr : addr) : option (objects U) :=
  do i <- get_interrupter h intr; Some (<[intr := InterrupterObject (BtInterrupter (intr_base i) false)]> h).
Definition bt_interrupter_is_set (h : objects U) (intr : addr) : option bool :=
  do i <- get_interrupter h intr; Some (is_set i).

(** The loop stops at the first one that is set. *)
Fixpoint bt_interrupter_array_any_is_set (h : objects U) (l : list addr) : option bool :=
  match l with
  | [] => Some false
  | intr :: l => do i <- get_interrupter h intr; if is_set i then Some true else bt_interrupter_array_any_is_set h l
  end.

Definition bt_component_borrow_graph (h : objects U) (comp : addr) : option (option addr) :=
  do _ <- get_component h comp; bt_object_borrow_parent debug h comp.
Definition bt_component_set_graph (h : objects U) (component : addr) (graph : option addr) : option (objects U) :=
  bt_object_set_parent debug call h component graph.

Definition bt_component_create (h : objects U) (component_class : addr) (name : list Z) (log_level : Z)
    : option (addr * objects U) :=
  do _ <- get_class h component_class;
  let '(component, h) := alloc h (ComponentObject
    (BtComponent (bt_object_init_shared_with_parent destroy_component_func) component_class name log_level null
       [] [] [] false false)) in
  do h <- bt_object_get_ref_no_null_check debug h component_class;
  Some (component, h).

Fixpoint port_name_is_unique (h : objects U) (ports : list addr) (name : list Z) : option bool :=
  match ports with
  | [] => Some true
  | port :: ports =>
    do p <- get_port h port;
    if bool_decide (port_name p = name) then Some false else port_name_is_unique h ports name
  end.

Fixpoint borrow_port_by_name (h : objects U) (ports : list addr) (name : list Z) : option (option addr) :=
  match ports with
  | [] => Some None
  | port :: ports =>
    do p <- get_port h port;
    if bool_decide (port_name p = name) then Some (Some port) else borrow_port_by_name h ports name
  end.
Definition borrow_port_by_index (ports : list addr) (index : Z) : option addr :=
  BT_ASSERT_PRE_DEV dev (index <? Z.of_nat (length ports)) (guard_ub (0 <=? index); ports !! Z.to_nat index).

(** The "port connected" method of the component's class, and its status. *)
Definition bt_component_port_connected (h : objects U) (comp self_port other_port : addr) : option (Z * objects U) :=
  do c <- get_component h comp;
  do cls <- get_class h (comp_class c);
  do p <- get_port h self_port;
  guard_ub
    match cls_type cls, port_type p with
    | ClassSource, PortOutput | ClassFilter, _ | ClassSink, PortInput => true
    | _, _ => false
    end;
  match port_connected_method (comp_class c) (port_type p) with
  | Some method =>
    do r <- method comp self_port other_port h;
    guard_ub bool_decide (fst r ∈ [BT_FUNC_STATUS_OK; BT_FUNC_STATUS_ERROR; BT_FUNC_STATUS_MEMORY_ERROR]);
    Some r
  | None => Some (BT_FUNC_STATUS_OK, h)
  end.

Definition bt_component_add_destroy_listener (h : objects U) (component : addr) (f : func) (data : U)
    : option (objects U) :=
  update_component h component (fun c => with_destroy_listeners c (destroy_listeners c ++ [(f, data)])).

(** * The graph's listeners *)

(** The array for a port of a component. *)
Definition listeners_for (ls : graph_listeners U) (cls : bt_component_class_type) (type : bt_port_type)
    : option (list (bt_graph_listener_port_added U)) :=
  match cls, type with
  | ClassSource, PortOutput => Some (source_output_port_added ls)
  | ClassFilter, PortInput => Some (filter_input_port_added ls)
  | ClassFilter, PortOutput => Some (filter_output_port_added ls)
  | ClassSink, PortInput => Some (sink_input_port_added ls)
  | _, _ => None
  end.

(** The loop on the listeners, from index [i]: a listener can add another one. *)
Fixpoint notify_port_added_loop (n : nat) (h : objects U) (graph comp port : addr) (cls : bt_component_class_type)
    (type : bt_port_type) (i : nat) : option (Z * objects U) :=
  match n with
  | O => None
  | S n =>
    do g <- get_graph h graph;
    do ls <- listeners_for (listeners g) cls type;
    match ls !! i with
    | None => Some (BT_FUNC_STATUS_OK, h)
    | Some listener =>
      do r <- port_added_func (listener_func listener) comp port (listener_data listener) h;
      let '(status, h) := r in
      if status =? BT_FUNC_STATUS_OK then notify_port_added_loop n h graph comp port cls type (S i)
      else Some (status, h)
    end
  end.

Definition bt_graph_notify_port_added (h : objects U) (graph port : addr) : option (Z * objects U) :=
  do comp <- bt_port_borrow_component_inline h port;
  do comp <- comp;
  do c <- get_component h comp;
  do cls <- get_class h (comp_class c);
  do p <- get_port h port;
  notify_port_added_loop fuel h graph comp port (cls_type cls) (port_type p) 0.

(** [has_out] tells whether the caller gave an address for the identifier; the status,
    the identifier that is written there, if any, and the store. *)
Definition add_listener (h : objects U) (graph : addr) (has_out : bool)
    (get : graph_listeners U -> list (bt_graph_listener_port_added U))
    (set : graph_listeners U -> list (bt_graph_listener_port_added U) -> graph_listeners U)
    (listener : bt_graph_listener_port_added U) : option (Z * option Z * objects U) :=
  do h <- update_graph h graph (fun g => with_listeners g (set (listeners g) (get (listeners g) ++ [listener])));
  do g <- get_graph h graph;
  let listener_id := Z.of_nat (length (get (listeners g))) - 1 in
  if negb (listener_id =? 0) then guard_ub has_out; Some (BT_FUNC_STATUS_OK, Some listener_id, h)
  else Some (BT_FUNC_STATUS_OK, None, h).

Definition bt_graph_add_source_component_output_port_added_listener (h : objects U) (graph : addr) (f : func)
    (data : U) (has_out : bool) : option (Z * option Z * objects U) :=
  add_listener h graph has_out source_output_port_added
    (fun ls l => GraphListeners l (filter_output_port_added ls) (filter_input_port_added ls) (sink_input_port_added ls))
    (PortAddedListener f data).
Definition bt_graph_add_filter_component_output_port_added_listener (h : objects U) (graph : addr) (f : func)
    (data : U) (has_out : bool) : option (Z * option Z * objects U) :=
  add_listener h graph has_out filter_output_port_added
    (fun ls l => GraphListeners (source_output_port_added ls) l (filter_input_port_added ls) (sink_input_port_added ls))
    (PortAddedListener f data).
Definition bt_graph_add_filter_component_input_port_added_listener (h : objects U) (graph : addr) (f : func)
    (data : U) (has_out : bool) : option (Z * option Z * objects U) :=
  add_listener h graph has_out filter_input_port_added
    (fun ls l => GraphListeners (source_output_port_added ls) (filter_output_port_added ls) l (sink_input_port_added ls))
    (PortAddedListener f data).
Definition bt_graph_add_sink_component_input_port_added_listener (h : objects U) (graph : addr) (f : func)
    (data : U) (has_out : bool) : option (Z * option Z * objects U) :=
  add_listener h graph has_out sink_input_port_added
    (fun ls l => GraphListeners (source_output_port_added ls) (filter_output_port_added ls) (filter_input_port_added ls) l)
    (PortAddedListener f data).

(** * Adding ports *)

Definition bt_graph_make_faulty (h : objects U) (graph : addr) : option (objects U) :=
  update_graph h graph (fun g => with_config_state g Faulty).
Definition bt_graph_set_can_consume (h : objects U) (graph : addr) (b : bool) : option (objects U) :=
  update_graph h graph (fun g => with_can_consume g b).

(** The status, the new port on success, and the store. *)
Definition add_port (h : objects U) (component : addr) (type : bt_port_type) (name : list Z) (user_data : U)
    : option (Z * option addr * objects U) :=
  do c <- get_component h component;
  do unique <- port_name_is_unique h (output_ports c) name;
  BT_ASSERT_PRE unique
    (BT_ASSERT_PRE (0 <? length name)%nat
      (do graph <- bt_component_borrow_graph h component;
       do graph <- graph;
       do g <- get_graph h graph;
       BT_ASSERT_PRE (bool_decide (config_state g = Configuring))
         (do r <- bt_port_create h component type name user_data;
          let '(new_port, h) := r in
          do h <- update_component h component (fun c =>
            match type with
            | PortInput => with_input_ports c (input_ports c ++ [new_port])
            | PortOutput => with_output_ports c (output_ports c ++ [new_port])
            end);
          do graph <- bt_component_borrow_graph h component;
          do r <- match graph with
                  | Some graph =>
                    do r <- bt_graph_notify_port_added h graph new_port;
                    let '(listener_status, h) := r in
                    if listener_status =? BT_FUNC_STATUS_OK then Some r
                    else do h <- bt_graph_make_faulty h graph; Some (listener_status, h)
                  | None => Some (BT_FUNC_STATUS_OK, h)
                  end;
          let '(status, h) := r in
          if status =? BT_FUNC_STATUS_OK then Some (status, Some new_port, h)
          else do h <- put_ref call h (Some new_port); Some (status, None, h)))).

Definition bt_component_add_input_port (h : objects U) (component : addr) (name : list Z) (user_data : U)
    : option (Z * option addr * objects U) :=
  add_port h component PortInput name user_data.
Definition bt_component_add_output_port (h : objects U) (component : addr) (name : list Z) (user_data : U)
    : option (Z * option addr * objects U) :=
  add_port h component PortOutput name user_data.

(** The component keeps the port: the caller's reference is put. *)
Definition bt_self_component_sink_add_input_port (h : objects U) (comp : addr) (name : list Z) (user_data : U)
    : option (Z * option addr * objects U) :=
  do r <- bt_component_add_input_port h comp name user_data;
  let '(status, port, h) := r in
  do h <- put_ref call h port; Some (status, port, h).
Definition bt_self_component_source_add_output_port (h : objects U) (comp : addr) (name : list Z) (user_data : U)
    : option (Z * option addr * objects U) :=
  do r <- bt_component_add_output_port h comp name user_data;
  let '(status, port, h) := r in
  do h <- put_ref call h port; Some (status, port, h).
Definition bt_self_component_filter_add_output_port (h : objects U) (comp : addr) (name : list Z) (user_data : U)
    : option (Z * option addr * objects U) :=
  do r <- bt_component_add_output_port h comp name user_data;
  let '(status, port, h) := r in
  do h <- put_ref call h port; Some (status, port, h).
Definition bt_self_component_filter_add_input_port (h : objects U) (comp : addr) (name : list Z) (user_data : U)
    : option (Z * option addr * objects U) :=
  do r <- bt_component_add_input_port h comp name user_data;
  let '(status, port, h) := r in
  do h <- put_ref call h port; Some (status, port, h).

(** * Creating a graph *)

Definition bt_graph_add_interrupter (h : objects U) (graph intr : addr) : option (objects U) :=
  do h <- update_graph h graph (fun g => with_interrupters g (interrupters g ++ [intr]) (default_interrupter g));
  bt_object_get_ref_no_null_check debug h intr.

Definition bt_graph_create (h : objects U) (mip_version : Z) : option (addr * objects U) :=
  BT_ASSERT_PRE (mip_version <=? bt_get_maximal_mip_version)
    (let '(graph, h) := alloc h (GraphObject
       (BtGraph (bt_object_init_shared (ReleaseFunc destroy_graph_func)) [] [] g_queue_new mip_version [] None
          false true Configuring (GraphListeners [] [] [] []))) in
     let '(intr, h) := bt_interrupter_create h in
     do h <- update_graph h graph (fun g => with_interrupters g (interrupters g) (Some intr));
     do h <- bt_graph_add_interrupter h graph intr;
     Some (graph, h)).

Definition bt_graph_is_interrupted (h : objects U) (graph : addr) : option bool :=
  do g <- get_graph h graph; bt_interrupter_array_any_is_set h (interrupters g).

(** * Connecting ports *)

Definition bt_connection_create (h : objects U) (graph upstream_port downstream_port : addr)
    : option (addr * objects U) :=
  let '(connection, h) := alloc h (ConnectionObject
    (BtConnection (bt_object_init_shared_with_parent destroy_connection_func) (Some downstream_port)
       (Some upstream_port) [] false false)) in
  do h <- bt_object_set_parent_is_owner_listener_func debug h connection parent_is_owner_func;
  do h <- bt_port_set_connection h upstream_port (Some connection);
  do h <- bt_port_set_connection h downstream_port (Some connection);
  do h <- bt_object_set_parent debug call h connection (Some graph);
  Some (connection, h).

(** One of the two notifications of [bt_graph_connect_ports]; a failure ends the
    connection. *)
Definition notify_connected (h : objects U) (connection comp self_port other_port : addr)
    (notified : bt_connection -> bt_connection) : option (Z * objects U) :=
  do r <- bt_component_port_connected h comp self_port other_port;
  let '(status, h) := r in
  if status =? BT_FUNC_STATUS_OK then do h <- update_connection h connection notified; Some (status, h)
  else do h <- bt_connection_end call fuel h connection true; Some (status, h).

(** The status, the connection for the user on success, and the store. *)
Definition bt_graph_connect_ports (h : objects U) (graph upstream_port downstream_port : addr)
    : option (Z * option addr * objects U) :=
  do g <- get_graph h graph;
  BT_ASSERT_PRE (bool_decide (config_state g = Configuring))
    (do up_connected <- bt_port_is_connected h upstream_port;
     BT_ASSERT_PRE (negb up_connected)
       (do down_connected <- bt_port_is_connected h downstream_port;
        BT_ASSERT_PRE (negb down_connected)
          (do upstream_component <- bt_port_borrow_component_inline h upstream_port;
           do upstream_component <- upstream_component;
           do downstream_component <- bt_port_borrow_component_inline h downstream_port;
           do downstream_component <- downstream_component;
           let init_can_consume := can_consume g in
           do h <- bt_graph_set_can_consume h graph false;
           do r <- bt_connection_create h graph upstream_port downstream_port;
           let '(connection, h) := r in
           do h <- update_graph h graph (fun g => with_connections g (connections g ++ [connection]));
           do r <- notify_connected h connection upstream_component upstream_port downstream_port
                     (fun c => with_notified c true (notified_downstream_port_connected c));
           let '(status, h) := r in
           do r <- (if status =? BT_FUNC_STATUS_OK
                    then notify_connected h connection downstream_component downstream_port upstream_port
                           (fun c => with_notified c (notified_upstream_port_connected c) true)
                    else Some (status, h));
           let '(status, h) := r in
           do h <- (if status =? BT_FUNC_STATUS_OK then Some h else bt_graph_make_faulty h graph);
           do h <- put_ref call h (Some connection);
           do h <- bt_graph_set_can_consume h graph init_can_consume;
           Some (status, if status =? BT_FUNC_STATUS_OK then Some connection else None, h)))).

(** * Adding components *)

Fixpoint component_name_exists (h : objects U) (comps : list addr) (name : list Z) : option bool :=
  match comps with
  | [] => Some false
  | other_comp :: comps =>
    do c <- get_component h other_comp;
    if bool_decide (name = comp_name c) then Some true else component_name_exists h comps name
  end.

(** GLib's [g_ptr_array_remove_fast] on the components: frees the element, then
    replaces it with the last one. *)
Definition remove_component_fast (h : objects U) (graph component : addr) : option (objects U) :=
  do g <- get_graph h graph;
  match list_find (fun c => c = component) (components g) with
  | Some (i, _) =>
    do h <- try_spec_release call h component;
    update_graph h graph (fun g => with_components g (remove_index_fast (components g) i))
  | None => Some h
  end.

(** The status, the component for the user on success, and the store. *)
Definition add_component_with_init_method_data (h : objects U) (graph comp_cls : addr) (name : list Z)
    (init_method_data : U) (log_level : Z) : option (Z * option addr * objects U) :=
  do g <- get_graph h graph;
  BT_ASSERT_PRE (bool_decide (config_state g = Configuring))
    (do exists_ <- component_name_exists h (components g) name;
     BT_ASSERT_PRE (negb exists_)
       (let init_can_consume := can_consume g in
        do h <- bt_graph_set_can_consume h graph false;
        do r <- bt_component_create h comp_cls name log_level;
        let '(component, h) := r in
        do h <- update_graph h graph (fun g => with_components g (components g ++ [component]));
        do h <- bt_component_set_graph h component (Some graph);
        do r <- match init_method comp_cls with
                | Some method => method component init_method_data h
                | None => Some (BT_FUNC_STATUS_OK, h)
                end;
        let '(status, h) := r in
        do h <-
          (if status =? BT_FUNC_STATUS_OK then
             do h <- update_component h component (fun c => with_initialized c true);
             do cls <- get_class h comp_cls;
             do h <- (if bool_decide (cls_type cls = ClassSink)
                      then update_graph h graph (fun g =>
                             with_has_sink (with_sinks g (g_queue_push_tail (sinks_to_consume g) component)) true)
                      else Some h);
             if dev then Some (<[comp_cls := ClassObject (BtComponentClass (cls_base cls) (cls_type cls) true)]> h)
             else Some h
           else
             do h <- bt_component_set_graph h component None;
             do h <- remove_component_fast h graph component;
             bt_graph_make_faulty h graph);
        do h <- put_ref call h (Some component);
        do h <- bt_graph_set_can_consume h graph init_can_consume;
        Some (status, if status =? BT_FUNC_STATUS_OK then Some component else None, h))).

Definition bt_graph_add_source_component (h : objects U) (graph comp_cls : addr) (name : list Z) (log_level : Z)
    : option (Z * option addr * objects U) :=
  add_component_with_init_method_data h graph comp_cls name null log_level.
Definition bt_graph_add_filter_component (h : objects U) (graph comp_cls : addr) (name : list Z) (log_level : Z)
    : option (Z * option addr * objects U) :=
  add_component_with_init_method_data h graph comp_cls name null log_level.
Definition bt_graph_add_sink_component (h : objects U) (graph comp_cls : addr) (name : list Z) (log_level : Z)
    : option (Z * option addr * objects U) :=
  add_component_with_init_method_data h graph comp_cls name null log_level.

(** * Message iterators *)

(** A new message iterator, for the downstream one if any: the status, the iterator on
    success, and the store. *)
Definition create_self_component_input_port_message_iterator (h : objects U) (downstream : option addr) (port : addr)
    : option (Z * option addr * objects U) :=
  do p <- get_port h port;
  do comp <- bt_port_borrow_component_inline h port;
  do conn <- port_connection p;
  do _ <- comp;
  do c <- get_connection h conn;
  do upstream_port <- upstream_port c;
  do upstream_comp <- bt_port_borrow_component_inline h upstream_port;
  do upstream_comp <- upstream_comp;
  do graph <- bt_component_borrow_graph h upstream_comp;
  do graph <- graph;
  do g <- get_graph h graph;
  BT_ASSERT_PRE (bool_decide (config_state g ∈ [PartiallyConfigured; Configured]))
    (do uc <- get_component h upstream_comp;
     do cls <- get_class h (comp_class uc);
     guard_ub negb (bool_decide (cls_type cls = ClassSink));
     do up <- get_port h upstream_port;
     let '(iterator, h) := alloc h (IteratorObject
       (BtMessageIterator (bt_object_init_shared (ReleaseFunc bt_message_iterator_destroy_func)) (Some upstream_comp)
          (Some upstream_port) (port_connection up) graph false false [] None NonInitialized null)) in
     do r <- match iterator_initialize_method (comp_class uc) with
             | Some method =>
               do r <- method iterator upstream_port h;
               let '(status, h) := r in
               if status =? BT_FUNC_STATUS_OK then do h <- update_iterator h iterator with_config_frozen; Some (status, h)
               else Some (status, h)
             | None => Some (BT_FUNC_STATUS_OK, h)
             end;
     let '(status, h) := r in
     if status =? BT_FUNC_STATUS_OK then
       do h <- match downstream with
               | Some d =>
                 do h <- update_iterator h iterator (fun i => with_downstream i (Some d));
                 update_iterator h d (fun i => with_upstream_msg_iters i (upstream_msg_iters i ++ [iterator]))
               | None => Some h
               end;
       do h <- update_iterator h iterator (fun i => with_state i Active);
       do p <- get_port h port;
       do conn <- port_connection p;
       do h <- update_connection h conn (fun c => with_iterators c (iterators c ++ [iterator]));
       Some (status, Some iterator, h)
     else do h <- put_ref call h (Some iterator); Some (status, None, h)).

Definition bt_message_iterator_create_from_message_iterator (h : objects U) (self_msg_iter input_port : addr)
    : option (Z * option addr * objects U) :=
  create_self_component_input_port_message_iterator h (Some self_msg_iter) input_port.
Definition bt_message_iterator_create_from_sink_component (h : objects U) (self_comp input_port : addr)
    : option (Z * option addr * objects U) :=
  do _ <- get_component h self_comp;
  create_self_component_input_port_message_iterator h None input_port.

(** * Running *)

Context (delete_popped_link : gqueue -> addr -> gqueue).

Definition consume_graph_sink (h : objects U) (comp : addr) : option (Z * objects U) :=
  do c <- get_component h comp;
  do r <- consume_method (comp_class c) comp h;
  if dev && negb (bool_decide (fst r ∈ [BT_FUNC_STATUS_OK; BT_FUNC_STATUS_END; BT_FUNC_STATUS_AGAIN;
                                        BT_FUNC_STATUS_ERROR; BT_FUNC_STATUS_MEMORY_ERROR]))
  then None else Some r.

(** [node] is not in the queue; it is added back unless the sink is ended. *)
Definition consume_sink_node (h : objects U) (graph node : addr) : option (Z * objects U) :=
  do r <- consume_graph_sink h node;
  let '(status, h) := r in
  if negb (status =? BT_FUNC_STATUS_END) then
    do h <- update_graph h graph (fun g => with_sinks g (g_queue_push_tail (sinks_to_consume g) node));
    Some (status, h)
  else
    do h <- update_graph h graph (fun g => with_sinks g (delete_popped_link (sinks_to_consume g) node));
    do g <- get_graph h graph;
    Some (if negb (bool_decide (links (sinks_to_consume g) = [])) then BT_FUNC_STATUS_OK else status, h).

Definition bt_graph_consume_sink_no_check (h : objects U) (graph sink : addr) : option (Z * objects U) :=
  do g <- get_graph h graph;
  if bool_decide (links (sinks_to_consume g) = []) then Some (BT_FUNC_STATUS_END, h)
  else
    match list_find (fun s => s = sink) (links (sinks_to_consume g)) with
    | None => Some (BT_FUNC_STATUS_END, h)
    | Some (index, _) =>
      do r <- g_queue_pop_nth_link (sinks_to_consume g) index;
      let '(sink_node, q) := r in
      do h <- update_graph h graph (fun g => with_sinks g q);
      consume_sink_node h graph sink_node
    end.

Definition consume_no_check (h : objects U) (graph : addr) : option (Z * objects U) :=
  do g <- get_graph h graph;
  BT_ASSERT_PRE_DEV dev (has_sink g)
    match g_queue_pop_head_link (sinks_to_consume g) with
    | None => Some (BT_FUNC_STATUS_END, h)
    | Some (current_node, q) =>
      do h <- update_graph h graph (fun g => with_sinks g q);
      consume_sink_node h graph current_node
    end.

(** The loop on the components, from index [i]. *)
Fixpoint configure_loop (n : nat) (h : objects U) (graph : addr) (i : nat) : option (Z * objects U) :=
  match n with
  | O => None
  | S n =>
    do g <- get_graph h graph;
    match components g !! i with
    | None => Some (BT_FUNC_STATUS_OK, h)
    | Some comp =>
      do c <- get_component h comp;
      do cls <- get_class h (comp_class c);
      if negb (bool_decide (cls_type cls = ClassSink)) || graph_is_configured_method_called c
      then configure_loop n h graph (S i)
      else
        do r <- match graph_is_configured_method (comp_class c) with
                | Some method =>
                  do r <- method comp h;
                  guard_ub bool_decide (fst r ∈ [BT_FUNC_STATUS_OK; BT_FUNC_STATUS_ERROR; BT_FUNC_STATUS_MEMORY_ERROR]);
                  Some r
                | None => Some (BT_FUNC_STATUS_OK, h)
                end;
        let '(comp_status, h) := r in
        if comp_status =? BT_FUNC_STATUS_OK then
          do h <- update_component h comp (fun c => with_method_called c true);
          configure_loop n h graph (S i)
        else Some (comp_status, h)
    end
  end.

Definition configure_graph (h : objects U) (graph : addr) : option (Z * objects U) :=
  do g <- get_graph h graph;
  BT_ASSERT_DBG debug (negb (bool_decide (config_state g = Faulty)))
    (if bool_decide (config_state g = Configured) then Some (BT_FUNC_STATUS_OK, h)
     else
       BT_ASSERT_PRE (has_sink g)
         (do h <- update_graph h graph (fun g => with_config_state g PartiallyConfigured);
          do r <- configure_loop fuel h graph 0;
          let '(status, h) := r in
          if status =? BT_FUNC_STATUS_OK
          then do h <- update_graph h graph (fun g => with_config_state g Configured); Some (status, h)
          else Some (status, h))).

Definition bt_graph_run_once (h : objects U) (graph : addr) : option (Z * objects U) :=
  do g <- get_graph h graph;
  BT_ASSERT_PRE_DEV dev (can_consume g)
    (BT_ASSERT_PRE_DEV dev (negb (bool_decide (config_state g = Faulty)))
      (do h <- bt_graph_set_can_consume h graph false;
       do r <- configure_graph h graph;
       let '(status, h) := r in
       if negb (status =? BT_FUNC_STATUS_OK) then Some (status, h)
       else
         do r <- consume_no_check h graph;
         let '(status, h) := r in
         do h <- bt_graph_set_can_consume h graph true;
         Some (status, h))).

(** The loop of [bt_graph_run], and the status after it. *)
Fixpoint run_loop (n : nat) (h : objects U) (graph : addr) : option (Z * objects U) :=
  match n with
  | O => None
  | S n =>
    do interrupted <- bt_graph_is_interrupted h graph;
    if (interrupted : bool) then Some (BT_FUNC_STATUS_AGAIN, h)
    else
      do r <- consume_no_check h graph;
      let '(status, h) := r in
      do g <- get_graph h graph;
      let status :=
        if (status =? BT_FUNC_STATUS_AGAIN) && (1 <? queue_length (sinks_to_consume g))
        then BT_FUNC_STATUS_OK else status in
      if status =? BT_FUNC_STATUS_OK then run_loop n h graph
      else Some (if status =? BT_FUNC_STATUS_END then BT_FUNC_STATUS_OK else status, h)
  end.

Definition bt_graph_run (h : objects U) (graph : addr) : option (Z * objects U) :=
  do g <- get_graph h graph;
  BT_ASSERT_PRE (can_consume g)
    (BT_ASSERT_PRE (negb (bool_decide (config_state g = Faulty)))
      (do h <- bt_graph_set_can_consume h graph false;
       do r <- configure_graph h graph;
       let '(status, h) := r in
       do r <- (if negb (status =? BT_FUNC_STATUS_OK) then Some (status, h) else run_loop fuel h graph);
       let '(status, h) := r in
       do h <- bt_graph_set_can_consume h graph true;
       Some (status, h))).
End api.
End graph.
