(* ===== verification/GraphRun.v ===== *)
(** Configuring and running a graph ([Graph]): the sinks are told once that the graph
    is configured, and then consume in turn until they are ended. *)

From stdpp Require Import list gmap.
From S2P Require Import Prelude Object Mip GraphObj Graph.

(** * The schedule *)

(** What remains of a queue of sinks after calls: the first sink is called, and goes to
    the end of the queue unless it is ended. *)
Fixpoint schedule (queue : list addr) (calls : list (addr * Z)) : option (list addr) :=
  match calls, queue with
  | [], _ => Some queue
  | (s, status) :: calls, s' :: queue =>
    if bool_decide (s = s')
    then schedule (if status =? BT_FUNC_STATUS_END then queue else queue ++ [s]) calls
    else None
  | _ :: _, [] => None
  end.

(** A sink that left the queue is not called again. *)
Lemma schedule_absent queue calls queue' s : schedule queue calls = Some queue' -> s ∉ queue ->
  (s ∉ calls.*1) /\ s ∉ queue'.
Proof.
  revert queue. induction calls as [|[s1 st] calls IH]; intros queue Hs Hn; simpl in *.
  { injection Hs as <-. split; [by apply not_elem_of_nil|done]. }
  destruct queue as [|s' queue]; [done|]. case_bool_decide; [subst s'|done].
  apply not_elem_of_cons in Hn as [Hne Hn].
  destruct (IH _ Hs) as [H1 H2]; [case_match; [done|by rewrite not_elem_of_app, list_elem_of_singleton]|]. split; [|done].
  apply not_elem_of_cons. done.
Qed.

(** When the queue becomes empty, each sink ended once, with its last call. *)
Lemma schedule_empty queue calls s : schedule queue calls = Some [] -> NoDup queue -> s ∈ queue ->
  exists before after, calls = before ++ ((s, BT_FUNC_STATUS_END) :: after) /\ (s ∉ after.*1) /\
    (s, BT_FUNC_STATUS_END) ∉ before.
Proof.
  revert queue. induction calls as [|[s1 st] calls IH]; intros queue Hs Hnd Hin; simpl in *.
  { injection Hs as ->. by apply elem_of_nil in Hin. }
  destruct queue as [|s' queue]; [done|]. case_bool_decide; [subst s'|done]. apply NoDup_cons in Hnd as [Hni Hnd].
  destruct (Z.eqb_spec st BT_FUNC_STATUS_END) as [->|Hst].
  - apply elem_of_cons in Hin as [->|Hin].
    + exists [], calls. split; [done|]. split; [apply (schedule_absent _ _ _ _ Hs Hni)|apply not_elem_of_nil].
    + destruct (IH _ Hs Hnd Hin) as (b & a & -> & Ha & Hb). exists ((s1, BT_FUNC_STATUS_END) :: b), a.
      split; [done|]. split; [done|]. apply not_elem_of_cons. split; [intros [= ->]; done|done].
  - destruct (IH _ Hs) as (b & a & -> & Ha & Hb).
    + apply NoDup_app. split; [done|]. split; [|apply NoDup_singleton]. by intros x Hx ->%list_elem_of_singleton.
    + apply elem_of_app. apply elem_of_cons in Hin as [-> |Hin]; [right; by left|by left].
    + exists ((s1, st) :: b), a. split; [done|]. split; [done|]. apply not_elem_of_cons. split; [congruence|done].
Qed.

Lemma schedule_NoDup queue calls queue' : schedule queue calls = Some queue' -> NoDup queue -> NoDup queue'.
Proof.
  revert queue. induction calls as [|[s st] calls IH]; intros queue Hs Hnd; simpl in *; [by simplify_eq|].
  destruct queue as [|s' queue]; [done|]. case_bool_decide; [subst s'|done]. apply NoDup_cons in Hnd as [Hn Hnd].
  apply (IH _ Hs). case_match; [done|]. apply NoDup_app. split; [done|]. split; [|apply NoDup_singleton].
  by intros x Hx ->%list_elem_of_singleton.
Qed.

(** Before the sink [s] is called, every sink in front of it is. *)
Lemma schedule_front rest queue s st after between queue' s' : s ∉ rest -> s ∉ between.*1 -> s' ∈ rest ->
  schedule (rest ++ queue) (between ++ ((s, st) :: after)) = Some queue' -> s' ∈ between.*1.
Proof.
  revert rest queue. induction between as [|[s2 st2] between IH]; intros rest queue Hs Hb Hin Hq; simpl in *;
    (destruct rest as [|r rest]; [by apply elem_of_nil in Hin|]); simpl in Hq; (case_bool_decide; [subst r|done]).
  - exfalso. apply Hs. by left.
  - apply elem_of_cons in Hin as [-> |Hin]; [by left|right]. apply not_elem_of_cons in Hs as [_ Hs].
    apply not_elem_of_cons in Hb as [_ Hb]. destruct (st2 =? _); [|rewrite <- app_assoc in Hq];
      exact (IH _ _ Hs Hb Hin Hq).
Qed.

(** Between two calls of a sink, every other sink of the queue is called. *)
Lemma schedule_fair queue before between after queue' s st st' :
  schedule queue (before ++ ((s, st) :: between ++ ((s, st') :: after))) = Some queue' -> NoDup queue -> s ∉ between.*1 ->
  exists rest, schedule queue before = Some (s :: rest) /\ forall s', s' ∈ rest -> s' ∈ between.*1.
Proof.
  revert queue. induction before as [|[s1 st1] before IH]; intros queue Hs Hnd Hb; simpl in *;
    (destruct queue as [|q0 queue]; [done|]); (case_bool_decide; [subst q0|done]).
  - exists queue. split; [done|]. intros s' Hin. apply NoDup_cons in Hnd as [Hn _].
    destruct (st =? _); [rewrite <- (app_nil_r queue) in Hs|]; exact (schedule_front _ _ _ _ _ _ _ _ Hn Hb Hin Hs).
  - apply IH; [done| |done]. apply NoDup_cons in Hnd as [Hn Hnd]. case_match; [done|].
    apply NoDup_app. split; [done|]. split; [|apply NoDup_singleton]. by intros x Hx ->%list_elem_of_singleton.
Qed.

(** * Running *)

Section run.
Context {U : Type} `{GraphUser U} (dev debug : bool) (delete_popped_link : gqueue -> addr -> gqueue).
(** GLib does not look for the link: it only counts one less. *)
Context (delete_popped_links : forall q a, links (delete_popped_link q a) = links q).
Context (graph : addr).

(** A call of the "consume" method of the first sink of the queue. *)
Definition call_sink (h : objects U) (s : addr) (status : Z) (h' : objects U) : Prop :=
  exists g q c h1 g1 q1,
    get_graph h graph = Some g /\ g_queue_pop_head_link (sinks_to_consume g) = Some (s, q) /\
    get_component h s = Some c /\
    consume_method (comp_class c) s (<[graph := GraphObject (with_sinks g q)]> h) = Some (status, h1) /\
    get_graph h1 graph = Some g1 /\ h' = <[graph := GraphObject (with_sinks g1 q1)]> h1.

(** Calls one after the other, none while the graph is interrupted. *)
Inductive calls_from : objects U -> list (addr * Z) -> objects U -> Prop :=
| calls_nil h : calls_from h [] h
| calls_cons h s status h1 calls h2 :
    bt_graph_is_interrupted h graph = Some false -> call_sink h s status h1 -> calls_from h1 calls h2 ->
    calls_from h ((s, status) :: calls) h2.

(** A call of the first sink of the queue, whatever its method does. *)
Lemma consume_no_check_eq h g s queue len c status h1 g1 :
  get_graph h graph = Some g -> has_sink g = true -> sinks_to_consume g = GQueue (s :: queue) len ->
  get_component h s = Some c ->
  consume_method (comp_class c) s (<[graph := GraphObject (with_sinks g (GQueue queue (wrapu 32 (len - 1))))]> h) = Some (status, h1) ->
  status ∈ [BT_FUNC_STATUS_OK; BT_FUNC_STATUS_END; BT_FUNC_STATUS_AGAIN; BT_FUNC_STATUS_ERROR; BT_FUNC_STATUS_MEMORY_ERROR] ->
  get_graph h1 graph = Some g1 ->
  consume_no_check dev delete_popped_link h graph =
    if status =? BT_FUNC_STATUS_END
    then let q := delete_popped_link (sinks_to_consume g1) s in
         Some (if bool_decide (links q = []) then BT_FUNC_STATUS_END else BT_FUNC_STATUS_OK,
               <[graph := GraphObject (with_sinks g1 q)]> h1)
    else Some (status, <[graph := GraphObject (with_sinks g1 (g_queue_push_tail (sinks_to_consume g1) s))]> h1).
Proof.
  intros Hg Hhas Hq Hc Hm Hst Hg1.
  unfold consume_no_check, BT_ASSERT_PRE_DEV. rewrite Hg, Hhas. simpl negb. rewrite andb_false_r.
  unfold g_queue_pop_head_link. rewrite Hq. cbn [links queue_length]. rewrite (update_graph_ok h graph g _ Hg).
  unfold consume_sink_node, consume_graph_sink. rewrite (get_component_graph h graph g), Hc, Hm by done. cbn [fst].
  rewrite (bool_decide_eq_true_2 (status ∈ _)) by done. simpl negb. rewrite andb_false_r.
  destruct (Z.eqb_spec status BT_FUNC_STATUS_END) as [->|Hne]; simpl negb; cbv iota.
  - rewrite (update_graph_ok h1 graph g1 _ Hg1), get_graph_insert. cbn [sinks_to_consume with_sinks].
    by case_bool_decide.
  - by rewrite (update_graph_ok h1 graph g1 _ Hg1).
Qed.

(** [bt_graph_run], once the graph is configured. *)
Lemma bt_graph_run_configured fuel h g : get_graph h graph = Some g -> can_consume g = true -> config_state g = Configured ->
  bt_graph_run dev debug fuel delete_popped_link h graph =
    do r <- run_loop dev delete_popped_link fuel (<[graph := GraphObject (with_can_consume g false)]> h) graph;
    let '(status, h1) := r in
    do h2 <- bt_graph_set_can_consume h1 graph true; Some (status, h2).
Proof.
  intros Hg Hcan Hconf. unfold bt_graph_run, BT_ASSERT_PRE. rewrite Hg, Hcan, Hconf.
  rewrite bool_decide_eq_false_2 by done. simpl negb. cbv iota.
  unfold bt_graph_set_can_consume at 1. rewrite (update_graph_ok h graph g _ Hg).
  unfold configure_graph, BT_ASSERT_DBG. rewrite get_graph_insert. cbn [config_state with_can_consume].
  rewrite Hconf. rewrite (bool_decide_eq_false_2 (Configured = Faulty)) by done. simpl negb. rewrite andb_false_r.
  by rewrite bool_decide_eq_true_2.
Qed.

(** What "consume" methods may assume ([I]) and must do: succeed, return a status of the
    interface, leave the graph's queue and its other sinks alone; [work] bounds the
    calls that do not end a sink. *)
Record consume_methods (sinks : list addr) (I : objects U -> Prop) (work : objects U -> nat) : Prop := {
  cm_graph h : I h -> exists g, get_graph h graph = Some g /\ has_sink g = true /\
    forall i, i ∈ interrupters g -> is_Some (get_interrupter h i);
  cm_queue h g q : I h -> get_graph h graph = Some g ->
    I (<[graph := GraphObject (with_sinks g q)]> h) /\ work (<[graph := GraphObject (with_sinks g q)]> h) = work h;
  cm_consume h s : I h -> s ∈ sinks -> exists c status h1,
    get_component h s = Some c /\ consume_method (comp_class c) s h = Some (status, h1) /\
    status ∈ [BT_FUNC_STATUS_OK; BT_FUNC_STATUS_END; BT_FUNC_STATUS_AGAIN; BT_FUNC_STATUS_ERROR; BT_FUNC_STATUS_MEMORY_ERROR] /\
    I h1 /\ (forall g g1, get_graph h graph = Some g -> get_graph h1 graph = Some g1 -> sinks_to_consume g1 = sinks_to_consume g) /\
    (work h1 <= work h)%nat /\
    (status = BT_FUNC_STATUS_OK \/ status = BT_FUNC_STATUS_AGAIN -> (work h1 < work h)%nat)
}.

Section methods.
Context (sinks : list addr) (I : objects U -> Prop) (work : objects U -> nat) (M : consume_methods sinks I work).

Definition sinks_left (h : objects U) (queue : list addr) : Prop :=
  exists g, get_graph h graph = Some g /\ links (sinks_to_consume g) = queue.

Lemma interrupted_total h : I h -> exists b, bt_graph_is_interrupted h graph = Some b.
Proof.
  intros (g & Hg & _ & Hi)%(cm_graph _ _ _ M). unfold bt_graph_is_interrupted. rewrite Hg. clear Hg.
  induction (interrupters g) as [|i l IH]; simpl; [by eexists|]. destruct (Hi i) as [o Ho]; [by left|]. rewrite Ho.
  destruct (is_set o); [by eexists|]. apply IH. intros j Hj. apply Hi. by right.
Qed.

(** One call of the next sink. *)
Lemma consume_step h s queue : I h -> sinks_left h (s :: queue) -> s ∈ sinks ->
  exists status h',
    consume_no_check dev delete_popped_link h graph =
      Some (if status =? BT_FUNC_STATUS_END
            then if bool_decide (queue = []) then BT_FUNC_STATUS_END else BT_FUNC_STATUS_OK else status, h') /\
    status ∈ [BT_FUNC_STATUS_OK; BT_FUNC_STATUS_END; BT_FUNC_STATUS_AGAIN; BT_FUNC_STATUS_ERROR; BT_FUNC_STATUS_MEMORY_ERROR] /\
    call_sink h s status h' /\ I h' /\
    sinks_left h' (if status =? BT_FUNC_STATUS_END then queue else queue ++ [s]) /\
    (work h' <= work h)%nat /\
    (status = BT_FUNC_STATUS_OK \/ status = BT_FUNC_STATUS_AGAIN -> (work h' < work h)%nat).
Proof.
  intros HI (g & Hg & Hq) Hs. destruct (cm_graph _ _ _ M h HI) as (g0 & Hg0 & Hhas & _). simplify_eq.
  destruct (sinks_to_consume g) as [l len] eqn:Hsinks. cbn [links] in Hq. subst l.
  set (q := GQueue queue (wrapu 32 (len - 1))). set (hp := <[graph := GraphObject (with_sinks g q)]> h).
  destruct (cm_queue _ _ _ M h g q HI Hg) as [HIp Hwp]. fold hp in HIp, Hwp.
  destruct (cm_consume _ _ _ M hp s HIp Hs) as (c & status & h1 & Hc & Hm & Hst & HI1 & Hkeep & Hw & Hlt).
  destruct (cm_graph _ _ _ M h1 HI1) as (g1 & Hg1 & _ & _).
  assert (Hq1 : links (sinks_to_consume g1) = queue).
  { rewrite (Hkeep (with_sinks g q) g1) by (done || apply get_graph_insert). done. }
  unfold hp in Hc. rewrite (get_component_graph h graph g) in Hc by done.
  rewrite (consume_no_check_eq h g s queue len c status h1 g1 Hg Hhas Hsinks Hc Hm Hst Hg1).
  assert (Hcall : forall q', call_sink h s status (<[graph := GraphObject (with_sinks g1 q')]> h1)).
  { intros q'. exists g, q, c, h1, g1, q'. unfold g_queue_pop_head_link. by rewrite Hsinks. }
  exists status. destruct (Z.eqb_spec status BT_FUNC_STATUS_END) as [->|Hne].
  - destruct (cm_queue _ _ _ M h1 g1 (delete_popped_link (sinks_to_consume g1) s) HI1 Hg1) as [HI2 Hw2].
    eexists. cbv zeta. rewrite delete_popped_links, Hq1. split; [done|]. split; [done|]. split; [apply Hcall|].
    split; [exact HI2|]. split.
    + eexists. split; [apply get_graph_insert|]. simpl. by rewrite delete_popped_links.
    + rewrite Hw2. split; [lia|]. intros [?|?]; done.
  - destruct (cm_queue _ _ _ M h1 g1 (g_queue_push_tail (sinks_to_consume g1) s) HI1 Hg1) as [HI2 Hw2].
    eexists. split; [reflexivity|]. split; [done|]. split; [apply Hcall|]. split; [exact HI2|]. split.
    + eexists. split; [apply get_graph_insert|]. simpl. by rewrite Hq1.
    + rewrite Hw2. split; [lia|]. intros Hs'. specialize (Hlt Hs'). lia.
Qed.

(** How a run ends. *)
Definition run_ends (status : Z) (h' : objects U) (calls : list (addr * Z)) (queue' : list addr) : Prop :=
  (status = BT_FUNC_STATUS_OK /\ queue' = []) \/
  (status = BT_FUNC_STATUS_AGAIN /\ bt_graph_is_interrupted h' graph = Some true) \/
  (status ∈ [BT_FUNC_STATUS_AGAIN; BT_FUNC_STATUS_ERROR; BT_FUNC_STATUS_MEMORY_ERROR] /\
   exists before s, calls = before ++ [(s, status)]).

Lemma run_ends_cons status h' calls queue' s st : run_ends status h' calls queue' -> run_ends status h' ((s, st) :: calls) queue'.
Proof.
  intros [?|[?|[? (b & s' & ->)]]]; [by left|by right; left|]. right. right. split; [done|]. by exists ((s, st) :: b), s'.
Qed.

Lemma run_loop_ok n : forall h queue, I h -> sinks_left h queue -> queue ⊆ sinks -> (work h + length queue < n)%nat ->
  exists status h' calls queue', run_loop dev delete_popped_link n h graph = Some (status, h') /\
    calls_from h calls h' /\ schedule queue calls = Some queue' /\ I h' /\ sinks_left h' queue' /\
    run_ends status h' calls queue'.
Proof.
  induction n as [|n IH]; intros h queue HI Hq Hsub Hn; [lia|]. cbn [run_loop].
  destruct (interrupted_total h HI) as [intr Hint]. rewrite Hint. destruct intr.
  { exists BT_FUNC_STATUS_AGAIN, h, [], queue. split; [done|]. split; [constructor|]. split; [done|]. split; [done|].
    split; [done|]. right. by left. }
  destruct queue as [|s queue].
  { destruct Hq as (g & Hg & Hl). destruct (cm_graph _ _ _ M h HI) as (g0 & Hg0 & Hhas & _). simplify_eq.
    unfold consume_no_check, BT_ASSERT_PRE_DEV, g_queue_pop_head_link. rewrite Hg, Hhas, Hl. simpl negb. rewrite andb_false_r.
    rewrite Hg. simpl. exists BT_FUNC_STATUS_OK, h, [], []. split; [done|]. split; [constructor|]. split; [done|].
    split; [done|]. split; [by exists g|]. by left. }
  destruct (consume_step h s queue HI Hq) as (st & h1 & Hcons & Hst & Hcall & HI1 & Hq1 & Hw & Hlt); [apply Hsub; by left|].
  rewrite Hcons. destruct Hq1 as (g1 & Hg1 & Hl1). rewrite Hg1.
  set (queue1 := if st =? BT_FUNC_STATUS_END then queue else queue ++ [s]) in *.
  assert (Hsub1 : queue1 ⊆ sinks).
  { intros x Hx. apply Hsub. unfold queue1 in Hx. destruct (st =? _); [by right|].
    apply elem_of_app in Hx as [Hx| ->%list_elem_of_singleton]; [by right|by left]. }
  assert (Hsched : forall calls, schedule (s :: queue) ((s, st) :: calls) = schedule queue1 calls).
  { intros calls. simpl. by rewrite bool_decide_eq_true_2. }
  assert (Hnext : (st = BT_FUNC_STATUS_OK \/ st = BT_FUNC_STATUS_AGAIN \/ st = BT_FUNC_STATUS_END /\ queue <> []) ->
    exists status h' calls queue', run_loop dev delete_popped_link n h1 graph = Some (status, h') /\
      calls_from h calls h' /\ schedule (s :: queue) calls = Some queue' /\ I h' /\ sinks_left h' queue' /\
      run_ends status h' calls queue').
  { intros Hcase. destruct (IH h1 queue1 HI1 ltac:(by exists g1) Hsub1) as (status & h' & calls & queue' & Hr & Hc & Hs' & HI' & Hl' & He).
    - unfold queue1. simpl in Hn. destruct Hcase as [->|[->|[-> _]]]; simpl; rewrite ?length_app; simpl; try (specialize (Hlt ltac:(tauto))); lia.
    - exists status, h', ((s, st) :: calls), queue'. split; [done|]. split; [by eapply calls_cons|].
      rewrite Hsched. split; [done|]. split; [done|]. split; [done|]. by apply run_ends_cons. }
  assert (Hend : (st = BT_FUNC_STATUS_AGAIN \/ st = BT_FUNC_STATUS_ERROR \/ st = BT_FUNC_STATUS_MEMORY_ERROR) ->
    exists status h' calls queue', Some (st, h1) = Some (status, h') /\
      calls_from h calls h' /\ schedule (s :: queue) calls = Some queue' /\ I h' /\ sinks_left h' queue' /\
      run_ends status h' calls queue').
  { intros Hcase. exists st, h1, [(s, st)], queue1. split; [done|]. split; [eapply calls_cons; [done|done|constructor]|].
    rewrite Hsched. split; [done|]. split; [done|]. split; [by exists g1|]. right. right.
    split; [rewrite !elem_of_cons; tauto|]. by exists [], s. }
  clearbody queue1. repeat (apply elem_of_cons in Hst as [->|Hst]); [..|by apply elem_of_nil in Hst]; simpl.
  - apply Hnext. by left.
  - case_bool_decide as Hemp; simpl.
    + exists BT_FUNC_STATUS_OK, h1, [(s, BT_FUNC_STATUS_END)], queue1. split; [done|].
      split; [eapply calls_cons; [done|done|constructor]|]. rewrite Hsched. split; [done|]. split; [done|].
      split; [by exists g1|]. left. split; [done|].
      pose proof (Hsched []) as Hx. simpl in Hx. rewrite bool_decide_eq_true_2 in Hx by done. congruence.
    + apply Hnext. right. by right.
  - destruct (1 <? _); simpl; [apply Hnext; tauto|apply Hend; tauto].
  - apply Hend. tauto.
  - apply Hend. tauto.
Qed.
End methods.
End run.

(** C3: From a configured graph whose sinks' "consume" methods keep their contract,
    [bt_graph_run] returns: it calls the sinks in turn, a sink going to the end of the
    queue unless it is ended, until all are ended (success), the graph is interrupted or a
    sink gives the status that it returns.  Between two calls of a sink every other sink
    of the queue is called; on success each sink ended once, with its last call; and the
    graph can be consumed again. *)
Theorem graph_run_schedules {U} `{GraphUser U} (dev debug : bool) (fuel : nat) (delete_popped_link : gqueue -> addr -> gqueue)
    (graph : addr) (sinks : list addr) (I : objects U -> Prop) (work : objects U -> nat) (h : objects U) (g : bt_graph U)
    (delete_popped_links : forall q a, links (delete_popped_link q a) = links q)
    (methods : consume_methods graph sinks I work)
    (Hg : get_graph h graph = Some g) (Hcan : can_consume g = true) (Hconf : config_state g = Configured)
    (Hnodup : NoDup (links (sinks_to_consume g))) (Hsub : links (sinks_to_consume g) ⊆ sinks)
    (HI : I (<[graph := GraphObject (with_can_consume g false)]> h))
    (Hfuel : (work (<[graph := GraphObject (with_can_consume g false)]> h) + length (links (sinks_to_consume g)) < fuel)%nat) :
  exists status h1 g1 calls queue',
    bt_graph_run dev debug fuel delete_popped_link h graph =
      Some (status, <[graph := GraphObject (with_can_consume g1 true)]> h1) /\
    get_graph h1 graph = Some g1 /\ links (sinks_to_consume g1) = queue' /\ I h1 /\
    calls_from graph (<[graph := GraphObject (with_can_consume g false)]> h) calls h1 /\
    schedule (links (sinks_to_consume g)) calls = Some queue' /\
    run_ends graph status h1 calls queue' /\
    (queue' = [] -> forall s, s ∈ links (sinks_to_consume g) -> exists before after,
       calls = before ++ ((s, BT_FUNC_STATUS_END) :: after) /\ (s ∉ after.*1) /\ (s, BT_FUNC_STATUS_END) ∉ before) /\
    (forall before s st between st' after, calls = before ++ ((s, st) :: between ++ ((s, st') :: after)) -> s ∉ between.*1 ->
       exists rest, schedule (links (sinks_to_consume g)) before = Some (s :: rest) /\ forall s', s' ∈ rest -> s' ∈ between.*1).
Proof.
  set (h0 := <[graph := GraphObject (with_can_consume g false)]> h) in *.
  destruct (run_loop_ok dev delete_popped_link delete_popped_links graph sinks I work methods fuel h0
              (links (sinks_to_consume g))) as (status & h1 & calls & queue' & Hr & Hc & Hs & HI1 & (g1 & Hg1 & Hl) & He); [done| |done|done|].
  { exists (with_can_consume g false). split; [apply get_graph_insert|done]. }
  exists status, h1, g1, calls, queue'. split.
  - rewrite (bt_graph_run_configured dev debug delete_popped_link graph fuel h g Hg Hcan Hconf). fold h0. rewrite Hr.
    unfold bt_graph_set_can_consume. by rewrite (update_graph_ok h1 graph g1 _ Hg1).
  - do 6 (split; [done|]). split.
    + intros -> s Hin. by apply (schedule_empty (links (sinks_to_consume g))).
    + intros before s st between st' after -> Hb. by apply (schedule_fair _ _ _ after queue' s st st').
Qed.

(** * Two sinks that consume a number of times *)

Section countdown.
#[local] Open Scope positive_scope.

(** A sink consumes as many times as its data says, then is ended. *)
Definition countdown_consume (comp : addr) (h : objects nat) : option (Z * objects nat) :=
  do c <- get_component h comp;
  match comp_user_data c with
  | O => Some (BT_FUNC_STATUS_END, h)
  | S n =>
    Some (BT_FUNC_STATUS_OK, <[comp := ComponentObject
      (BtComponent (comp_base c) (comp_class c) (comp_name c) (log_level c) n (input_ports c) (output_ports c)
         (destroy_listeners c) (initialized c) (graph_is_configured_method_called c))]> h)
  end.
Instance countdown_user : GraphUser nat := {|
  init_method _ := None;
  finalize_method _ := None;
  port_connected_method _ _ := None;
  graph_is_configured_method _ := None;
  consume_method _ := countdown_consume;
  iterator_initialize_method _ := None;
  iterator_finalize_method _ := None;
  port_added_func _ _ _ _ _ := None;
  destroy_listener_func _ _ _ _ := None
|}.

Definition shared_base : bt_object := bt_object_init_shared (ReleaseFunc destroy_component_func).
Definition countdown_sink (name : Z) (n : nat) : object nat :=
  ComponentObject (BtComponent shared_base 5 [name] 0 n [] [] [] true true).
Definition countdown_graph (q : gqueue) (consume : bool) : bt_graph nat :=
  BtGraph shared_base [] [2; 3] q 0 [4] (Some 4) true consume Configured (GraphListeners [] [] [] []).
Definition countdown_objects (q : gqueue) (consume : bool) (n m : nat) : objects nat :=
  <[1 := GraphObject (countdown_graph q consume)]> (<[2 := countdown_sink 2 n]> (<[3 := countdown_sink 3 m]>
    {[4 := InterrupterObject (BtInterrupter shared_base false)]})).

Definition countdown_work (h : objects nat) : nat :=
  match get_component h 2, get_component h 3 with
  | Some c, Some c' => (comp_user_data c + comp_user_data c')%nat
  | _, _ => O
  end.
(** What GLib does: it counts one link less. *)
Definition count_one_less (q : gqueue) (a : addr) : gqueue := GQueue (links q) (wrapu 32 (queue_length q - 1)).

Lemma countdown_methods : consume_methods 1 [2; 3] (fun h => exists q n m, h = countdown_objects q false n m) countdown_work.
Proof.
  split.
  - intros h (q & n & m & ->). exists (countdown_graph q false). split; [done|]. split; [done|].
    intros i ->%list_elem_of_singleton. by eexists.
  - intros h g q (q0 & n & m & ->) [= <-]. split; [|done]. by exists q, n, m.
  - intros h s (q & n & m & ->) [-> |[-> |[]%elem_of_nil]%elem_of_cons]%elem_of_cons;
      [exists (BtComponent shared_base 5 [2%Z] 0 n [] [] [] true true); destruct n as [|n]
      |exists (BtComponent shared_base 5 [3%Z] 0 m [] [] [] true true); destruct m as [|m]];
      (eexists; eexists; split; [reflexivity|]; split; [reflexivity|]; split; [rewrite !elem_of_cons; tauto|]).
    + split; [by exists q, O, m|]. split; [by intros g g1 [= <-] [= <-]|]. split; [done|by intros []].
    + split; [by exists q, n, m|]. split; [by intros g g1 [= <-] [= <-]|]. change (n + m <= S n + m /\ (BT_FUNC_STATUS_OK = BT_FUNC_STATUS_OK \/ BT_FUNC_STATUS_OK = BT_FUNC_STATUS_AGAIN -> n + m < S n + m))%nat. lia.
    + split; [by exists q, n, O|]. split; [by intros g g1 [= <-] [= <-]|]. split; [done|by intros []].
    + split; [by exists q, n, m|]. split; [by intros g g1 [= <-] [= <-]|]. change (n + m <= n + S m /\ (BT_FUNC_STATUS_OK = BT_FUNC_STATUS_OK \/ BT_FUNC_STATUS_OK = BT_FUNC_STATUS_AGAIN -> n + m < n + S m))%nat. lia.
Qed.

Lemma graph_run_schedules_witness :
  exists status h1 g1 calls queue',
    bt_graph_run true true 10 count_one_less (countdown_objects (GQueue [2; 3] 2) true 2 1) 1 =
      Some (status, <[1%positive := GraphObject (with_can_consume g1 true)]> h1) /\
    schedule [2; 3] calls = Some queue' /\ run_ends 1 status h1 calls queue'.
Proof.
  destruct (graph_run_schedules true true 10 count_one_less 1 [2; 3] _ countdown_work
              (countdown_objects (GQueue [2; 3] 2) true 2 1) (countdown_graph (GQueue [2; 3] 2) true)
              (fun _ _ => eq_refl) countdown_methods eq_refl eq_refl eq_refl
              ltac:(apply (bool_decide_unpack _); reflexivity) (fun _ H => H)
              ltac:(by exists (GQueue [2; 3] 2), 2%nat, 1%nat) ltac:(vm_compute; lia))
    as (status & h1 & g1 & calls & queue' & Hr & _ & _ & _ & _ & Hs & He & _).
  exists status, h1, g1, calls, queue'. exact (conj Hr (conj Hs He)).
Defined.
End countdown.
