(* ===== verification/GraphConf.v ===== *)
(** Configuring a graph ([Graph]): before the first consumption, the sinks are told once
    that the graph is configured. *)

From stdpp Require Import list gmap.
From S2P Require Import Prelude Object Mip GraphObj Graph.

Section configuration.
Context {U : Type} `{GraphUser U} (dev debug : bool) (graph : addr).
Implicit Types h : objects U.

(** Whether the component is a sink that is not told yet. *)
Definition waits (h : objects U) (comp : addr) : option bool :=
  do c <- get_component h comp;
  do cls <- get_class h (comp_class c);
  Some (bool_decide (cls_type cls = ClassSink) && negb (graph_is_configured_method_called c)).

(** Tells a sink: calls its "graph is configured" method, if any; the sink is told when
    the method succeeds. *)
Definition tell (h : objects U) (comp : addr) (status : Z) (h' : objects U) : Prop :=
  exists c h1 c1,
    get_component h comp = Some c /\
    match graph_is_configured_method (comp_class c) with
    | Some method => method comp h = Some (status, h1)
    | None => status = BT_FUNC_STATUS_OK /\ h1 = h
    end /\
    get_component h1 comp = Some c1 /\
    h' = if status =? BT_FUNC_STATUS_OK then <[comp := ComponentObject (with_method_called c1 true)]> h1 else h1.

Inductive tells : objects U -> list (addr * Z) -> objects U -> Prop :=
| tells_nil h : tells h [] h
| tells_cons h s status h1 l h2 : tell h s status h1 -> tells h1 l h2 -> tells h ((s, status) :: l) h2.

(** What "graph is configured" methods may assume ([I]) and must do: succeed, return a
    status of the interface, add no component and tell no sink. *)
Record configured_methods (I : objects U -> Prop) : Prop := {
  cf_graph h : I h -> exists g, get_graph h graph = Some g /\ has_sink g = true /\
    forall comp, comp ∈ components g -> is_Some (waits h comp);
  cf_state h g s : I h -> get_graph h graph = Some g -> I (<[graph := GraphObject (with_config_state g s)]> h);
  cf_told h c comp : I h -> get_component h comp = Some c -> I (<[comp := ComponentObject (with_method_called c true)]> h);
  cf_method h comp c method : I h -> get_component h comp = Some c -> graph_is_configured_method (comp_class c) = Some method ->
    exists status h1, method comp h = Some (status, h1) /\
      status ∈ [BT_FUNC_STATUS_OK; BT_FUNC_STATUS_ERROR; BT_FUNC_STATUS_MEMORY_ERROR] /\ I h1 /\
      (forall x, waits h1 x = waits h x) /\
      (forall g g1, get_graph h graph = Some g -> get_graph h1 graph = Some g1 ->
         components g1 = components g /\ config_state g1 = config_state g /\ can_consume g1 = can_consume g)
}.

Context (I : objects U -> Prop) (M : configured_methods I).

Lemma waits_component h comp b : waits h comp = Some b -> exists c cls, get_component h comp = Some c /\
  get_class h (comp_class c) = Some cls /\ b = bool_decide (cls_type cls = ClassSink) && negb (graph_is_configured_method_called c).
Proof.
  unfold waits. intros Hw. destruct (get_component h comp) as [c|]; [|done]. destruct (get_class h _) as [cls|] eqn:Hc; [|done].
  injection Hw as <-. by exists c, cls.
Qed.

(** A sink that is told does not wait any more; nothing changes for the others. *)
Lemma waits_told h comp c x : get_component h comp = Some c -> is_Some (waits h comp) ->
  waits (<[comp := ComponentObject (with_method_called c true)]> h) x = if bool_decide (x = comp) then Some false else waits h x.
Proof.
  intros Hc [b Hb]. destruct (waits_component _ _ _ Hb) as (c0 & cls & Hc0 & Hcls & _). simplify_eq.
  unfold waits. case_bool_decide as Hx.
  - subst x. rewrite get_component_insert. cbn [comp_class with_method_called]. rewrite (get_class_component h comp c) by done.
    rewrite Hcls. cbn. by rewrite andb_false_r.
  - assert (Hg : get_component (<[comp := ComponentObject (with_method_called c true)]> h) x = get_component h x).
    { unfold get_component. by rewrite lookup_insert_ne. }
    rewrite Hg. destruct (get_component h x) as [cx|]; [|done]. by rewrite (get_class_component h comp c).
Qed.

Lemma tell_ok h comp : I h -> is_Some (waits h comp) -> exists status h1,
  tell h comp status h1 /\ status ∈ [BT_FUNC_STATUS_OK; BT_FUNC_STATUS_ERROR; BT_FUNC_STATUS_MEMORY_ERROR] /\ I h1 /\
  (forall x, waits h1 x = if bool_decide (x = comp /\ status = BT_FUNC_STATUS_OK) then Some false else waits h x) /\
  (forall g g1, get_graph h graph = Some g -> get_graph h1 graph = Some g1 ->
     components g1 = components g /\ config_state g1 = config_state g /\ can_consume g1 = can_consume g).
Proof.
  intros HI [b Hb]. destruct (waits_component _ _ _ Hb) as (c & cls & Hc & Hcls & _).
  assert (Hm : exists status h1,
    match graph_is_configured_method (comp_class c) with
    | Some method => method comp h = Some (status, h1)
    | None => status = BT_FUNC_STATUS_OK /\ h1 = h
    end /\ status ∈ [BT_FUNC_STATUS_OK; BT_FUNC_STATUS_ERROR; BT_FUNC_STATUS_MEMORY_ERROR] /\ I h1 /\
    (forall x, waits h1 x = waits h x) /\
    (forall g g1, get_graph h graph = Some g -> get_graph h1 graph = Some g1 ->
       components g1 = components g /\ config_state g1 = config_state g /\ can_consume g1 = can_consume g)).
  { destruct (graph_is_configured_method (comp_class c)) as [method|] eqn:Hmeth.
    - exact (cf_method _ M h comp c method HI Hc Hmeth).
    - exists BT_FUNC_STATUS_OK, h. split; [done|]. split; [by left|]. split; [done|]. split; [done|]. intros; by simplify_eq. }
  destruct Hm as (status & h1 & Hm & Hst & HI1 & Hw & Hg).
  assert (Hb1 : waits h1 comp = Some b) by by rewrite Hw. destruct (waits_component _ _ _ Hb1) as (c1 & _ & Hc1 & _).
  eexists status, _. split; [by exists c, h1, c1|]. split; [done|].
  destruct (Z.eqb_spec status BT_FUNC_STATUS_OK) as [->|Hne].
  - split; [by apply (cf_told _ M)|]. split.
    + intros x. rewrite (waits_told h1 comp c1 x Hc1) by (by eexists). rewrite Hw. repeat case_bool_decide; first [done|tauto].
    + intros g g1. rewrite (get_graph_component h1 comp c1) by done. apply Hg.
  - split; [done|]. split; [|done]. intros x. rewrite Hw. case_bool_decide; [tauto|done].
Qed.

(** The sinks of [comps] to tell. *)
Definition waiting (h : objects U) (comps : list addr) : list addr := filter (fun c => waits h c = Some true) comps.

(** Tells the sinks [l] in order until one fails. *)
Definition told_in_order (l : list addr) (calls : list (addr * Z)) (status : Z) : Prop :=
  (status = BT_FUNC_STATUS_OK /\ calls = (fun s => (s, BT_FUNC_STATUS_OK)) <$> l) \/
  (status ∈ [BT_FUNC_STATUS_ERROR; BT_FUNC_STATUS_MEMORY_ERROR] /\ exists before s after,
     l = before ++ s :: after /\ calls = ((fun s => (s, BT_FUNC_STATUS_OK)) <$> before) ++ [(s, status)]).

Lemma told_in_order_cons s l calls status : told_in_order l calls status ->
  told_in_order (s :: l) ((s, BT_FUNC_STATUS_OK) :: calls) status.
Proof.
  intros [[-> ->]|(Hs & b & s' & a & -> & ->)]; [by left|right]. split; [done|]. by exists (s :: b), s', a.
Qed.

Lemma waiting_ext h h' comps : (forall x, x ∈ comps -> waits h' x = waits h x) -> waiting h' comps = waiting h comps.
Proof.
  intros Hw. induction comps as [|c comps IH]; [done|]. unfold waiting in *. rewrite !filter_cons, Hw by by left.
  rewrite IH by (intros x Hx; apply Hw; by right). done.
Qed.

Lemma configure_loop_ok n : forall h i g, I h -> get_graph h graph = Some g -> NoDup (components g) ->
  (length (components g) - i < n)%nat ->
  exists status h' calls g',
    configure_loop n h graph i = Some (status, h') /\ tells h calls h' /\ I h' /\ get_graph h' graph = Some g' /\
    components g' = components g /\ config_state g' = config_state g /\ can_consume g' = can_consume g /\
    told_in_order (waiting h (drop i (components g))) calls status /\
    (forall x, waits h' x = if bool_decide ((x, BT_FUNC_STATUS_OK) ∈ calls) then Some false else waits h x).
Proof.
  induction n as [|n IH]; intros h i g HI Hg Hnd Hn; [lia|]. cbn [configure_loop]. rewrite Hg.
  destruct (components g !! i) as [comp|] eqn:Hi.
  2: { exists BT_FUNC_STATUS_OK, h, [], g. split; [done|]. split; [constructor|]. split; [done|]. split; [done|].
       do 3 (split; [done|]). split; [|done]. left. split; [done|]. apply lookup_ge_None in Hi. by rewrite drop_ge. }
  rewrite (drop_S _ _ _ Hi). pose proof (lookup_lt_Some _ _ _ Hi) as Hlt.
  destruct (cf_graph _ M h HI) as (g0 & Hg0 & _ & Hws). simplify_eq.
  destruct (Hws comp) as [b Hb]; [by eapply list_elem_of_lookup_2|].
  destruct (waits_component _ _ _ Hb) as (c & cls & Hc & Hcls & ->). rewrite Hc, Hcls.
  rewrite <- (negb_involutive (graph_is_configured_method_called c)), <- negb_andb.
  assert (Hwait : waiting h (comp :: drop (S i) (components g)) =
    if bool_decide (cls_type cls = ClassSink) && negb (graph_is_configured_method_called c)
    then comp :: waiting h (drop (S i) (components g)) else waiting h (drop (S i) (components g))).
  { unfold waiting. rewrite filter_cons, Hb. by destruct (_ && _). }
  rewrite Hwait. destruct (bool_decide (cls_type cls = ClassSink) && _) eqn:Hpend; cbn [negb].
  2: { apply IH; [done|done|done|lia]. }
  destruct (tell_ok h comp HI) as (st & h1 & Htell & Hst & HI1 & Hw & Hsame); [by eexists|].
  pose proof Htell as (c' & hm & c1 & Hc' & Hm & Hc1 & Hh1). simplify_eq.
  set (r := match graph_is_configured_method _ with Some _ => _ | None => _ end).
  assert (Hr : r = Some (st, hm)).
  { unfold r. destruct (graph_is_configured_method _); [|by destruct Hm as [-> ->]]. rewrite Hm. cbn [fst].
    by rewrite bool_decide_eq_true_2. }
  rewrite Hr. clear r Hr.
  destruct (cf_graph _ M _ HI1) as (g1 & Hg1 & _ & _). destruct (Hsame g g1 Hg Hg1) as (Hcomps & Hcs & Hcc).
  destruct (Z.eqb_spec st BT_FUNC_STATUS_OK) as [->|Hne].
  - rewrite (update_component_ok hm comp c1 _ Hc1).
    destruct (IH _ (S i) g1 HI1 Hg1) as (status & h' & calls & g' & Hr & Ht & HI' & Hg' & ? & ? & ? & Hin & Hw');
      [by rewrite Hcomps|rewrite Hcomps; lia|].
    exists status, h', ((comp, BT_FUNC_STATUS_OK) :: calls), g'. split; [done|]. split; [by eapply tells_cons|].
    split; [done|]. split; [done|]. split; [congruence|]. split; [congruence|]. split; [congruence|]. split.
    + apply told_in_order_cons. rewrite Hcomps in Hin. erewrite waiting_ext in Hin; [exact Hin|].
      intros x Hx. rewrite Hw, bool_decide_eq_false_2; [done|]. intros [-> _].
      rewrite <- (take_drop_middle _ _ _ Hi) in Hnd. apply NoDup_app in Hnd as (_ & _ & Hnd).
      by apply NoDup_cons in Hnd as [? _].
    + intros x. rewrite Hw', Hw.
      assert (Hx : (x, BT_FUNC_STATUS_OK) ∈ (comp, BT_FUNC_STATUS_OK) :: calls <-> x = comp \/ (x, BT_FUNC_STATUS_OK) ∈ calls)
        by (rewrite elem_of_cons; split; (intros [?|?]; [left; congruence|by right])).
      rewrite (bool_decide_ext _ _ Hx). clear Hx. repeat case_bool_decide; first [done|tauto].
  - exists st, hm, [(comp, st)], g1. split; [done|]. split; [eapply tells_cons; [done|constructor]|].
    do 5 (split; [done|]). split.
    + right. split; [by apply elem_of_cons in Hst as [?|?]|]. by exists [], comp, (waiting h (drop (S i) (components g))).
    + intros x. rewrite Hw. rewrite !bool_decide_eq_false_2; [done| |tauto].
      intros [= -> ?]%list_elem_of_singleton. congruence.
Qed.

(** The sinks that are told do not wait any more. *)
Lemma waiting_after h h' comps told rest : NoDup comps -> waiting h comps = told ++ rest ->
  (forall x, waits h' x = if bool_decide (x ∈ told) then Some false else waits h x) -> waiting h' comps = rest.
Proof.
  intros Hnd Heq Hw.
  assert (Hf : waiting h' comps = filter (fun x => x ∉ told) (waiting h comps)).
  { unfold waiting. rewrite list_filter_filter. apply list_filter_iff. intros x. rewrite Hw. case_bool_decide; [split; [done|tauto]|tauto]. }
  assert (Hnd' : NoDup (told ++ rest)) by (rewrite <- Heq; by apply NoDup_filter).
  apply NoDup_app in Hnd' as (_ & Hdisj & _). rewrite Hf, Heq, filter_app.
  rewrite (filter_none _ told), (filter_all _ rest); [done| |].
  - intros x Hx Ht. exact (Hdisj x Ht Hx).
  - intros x Hx Hn. by apply Hn.
Qed.

Definition to_configure (g : bt_graph U) : Prop := config_state g ∈ [Configuring; PartiallyConfigured].

(** [configure_graph], before the graph is configured. *)
Lemma configure_graph_ok fuel h g : I h -> get_graph h graph = Some g -> to_configure g -> NoDup (components g) ->
  (length (components g) < fuel)%nat ->
  exists status h1 calls g1,
    tells (<[graph := GraphObject (with_config_state g PartiallyConfigured)]> h) calls h1 /\
    get_graph h1 graph = Some g1 /\ config_state g1 = PartiallyConfigured /\ components g1 = components g /\
    can_consume g1 = can_consume g /\
    configure_graph debug fuel h graph =
      Some (status, (if status =? BT_FUNC_STATUS_OK then <[graph := GraphObject (with_config_state g1 Configured)]> h1 else h1)) /\
    told_in_order (waiting h (components g)) calls status /\
    (forall x, waits h1 x = if bool_decide ((x, BT_FUNC_STATUS_OK) ∈ calls) then Some false else waits h x).
Proof.
  intros HI Hg Hstate Hnd Hfuel. destruct (cf_graph _ M h HI) as (g' & Hg' & Hhas & _). simplify_eq.
  set (h0 := <[graph := _]> h). assert (Hg0 : get_graph h0 graph = Some (with_config_state g PartiallyConfigured))
    by apply get_graph_insert.
  destruct (configure_loop_ok fuel h0 0 _ (cf_state _ M h g _ HI Hg) Hg0 Hnd)
    as (status & h1 & calls & g1 & Hr & Ht & HI1 & Hg1 & Hc & Hs & Hcc & Hin & Hw).
  { cbn [components with_config_state]. lia. }
  rewrite drop_0 in Hin. cbn [components config_state can_consume with_config_state] in *.
  assert (Hw0 : forall x, waits h0 x = waits h x).
  { intros x. unfold waits, h0. rewrite (get_component_graph h graph g) by done. destruct (get_component h x) as [c|]; [|done].
    by rewrite (get_class_graph h graph g). }
  rewrite (waiting_ext h h0) in Hin by (intros; apply Hw0).
  exists status, h1, calls, g1. do 5 (split; [done|]). split; [|split; [done|intros x; by rewrite Hw, Hw0]].
  assert (config_state g <> Faulty /\ config_state g <> Configured) as [Hf Hcf].
  { apply elem_of_cons in Hstate as [Hx|Hx%list_elem_of_singleton]; by rewrite Hx. }
  unfold configure_graph, BT_ASSERT_DBG, BT_ASSERT_PRE. rewrite Hg, Hhas.
  rewrite (bool_decide_eq_false_2 _ Hf), (bool_decide_eq_false_2 _ Hcf).
  simpl negb. rewrite andb_false_r. rewrite (update_graph_ok h graph g _ Hg). fold h0. rewrite Hr.
  case_match; [by rewrite (update_graph_ok h1 graph g1 _ Hg1)|done].
Qed.
End configuration.

(** C9: [configure_graph] tells the sinks that wait, in the order of the components, that
    the graph is configured, and stops at the first one that fails.  After it the sinks
    that were told do not wait any more, so that calling it again resumes at the one that
    failed: across the calls each sink is told once.  The graph is partially configured
    until all are told, then configured. *)
Theorem configure_graph_tells {U} `{GraphUser U} (debug : bool) (fuel : nat) (graph : addr) (I : objects U -> Prop)
    (h : objects U) (g : bt_graph U)
    (methods : configured_methods graph I) (HI : I h) (Hg : get_graph h graph = Some g)
    (Hstate : to_configure g) (Hnodup : NoDup (components g)) (Hfuel : (length (components g) < fuel)%nat) :
  exists told status h1 g1,
    get_graph h1 graph = Some g1 /\ config_state g1 = PartiallyConfigured /\ components g1 = components g /\
    can_consume g1 = can_consume g /\
    waiting h (components g) = told ++ waiting h1 (components g) /\
    let h0 := <[graph := GraphObject (with_config_state g PartiallyConfigured)]> h in
    let told_ok := (fun s => (s, BT_FUNC_STATUS_OK)) <$> told in
    (status = BT_FUNC_STATUS_OK /\ waiting h1 (components g) = [] /\ tells h0 told_ok h1 /\
     configure_graph debug fuel h graph =
       Some (BT_FUNC_STATUS_OK, <[graph := GraphObject (with_config_state g1 Configured)]> h1)) \/
    (status ∈ [BT_FUNC_STATUS_ERROR; BT_FUNC_STATUS_MEMORY_ERROR] /\ configure_graph debug fuel h graph = Some (status, h1) /\
     exists s after, waiting h1 (components g) = s :: after /\ tells h0 (told_ok ++ [(s, status)]) h1).
Proof.
  destruct (configure_graph_ok debug graph I methods fuel h g HI Hg Hstate Hnodup Hfuel)
    as (status & h1 & calls & g1 & Ht & Hg1 & Hs & Hc & Hcc & Hconf & Hin & Hw).
  assert (Hafter : forall told rest, waiting h (components g) = told ++ rest ->
    (forall x, (x, BT_FUNC_STATUS_OK) ∈ calls <-> x ∈ told) -> waiting h1 (components g) = rest).
  { intros told rest Heq Hx. apply (waiting_after h h1 _ told); [done|done|]. intros x. rewrite Hw.
    by rewrite (bool_decide_ext _ _ (Hx x)). }
  destruct Hin as [[-> ->]|(Hst & told & s & after & Heq & ->)].
  - exists (waiting h (components g)), BT_FUNC_STATUS_OK, h1, g1.
    rewrite (Hafter (waiting h (components g)) []); [|by rewrite app_nil_r|].
    + rewrite app_nil_r. do 5 (split; [done|]). left. done.
    + intros x. rewrite list_elem_of_fmap. split; [by intros (? & [= ->] & ?)|intros ?; by exists x].
  - exists told, status, h1, g1.
    assert (Hne : status <> BT_FUNC_STATUS_OK) by (intros ->; by apply elem_of_cons in Hst as [?|?%list_elem_of_singleton]).
    rewrite (Hafter told (s :: after)); [|done|].
    + do 5 (split; [done|]). right. rewrite Hconf, (proj2 (Z.eqb_neq _ _) Hne). split; [done|]. split; [done|]. by exists s, after.
    + intros x. rewrite elem_of_app, list_elem_of_fmap, list_elem_of_singleton.
      split; [by intros [(? & [= ->] & ?)|[=]]|intros ?; left; by exists x].
Qed.

(** When a sink cannot be configured, [bt_graph_run] leaves a graph that can be
    consumed, to try again; [bt_graph_run_once] leaves one that cannot: it returns the
    sink's status without setting the member again, and the next run breaks its
    precondition. *)
Theorem run_once_failed_configuration {U} `{GraphUser U} (dev debug : bool) (fuel : nat)
    (delete_popped_link : gqueue -> addr -> gqueue) (graph : addr) (I : objects U -> Prop)
    (h : objects U) (g : bt_graph U) (status : Z) (h1 : objects U)
    (methods : configured_methods graph I) (Hg : get_graph h graph = Some g)
    (HI : I (<[graph := GraphObject (with_can_consume g false)]> h)) (Hcan : can_consume g = true)
    (Hstate : to_configure g) (Hnodup : NoDup (components g)) (Hfuel : (length (components g) < fuel)%nat)
    (Hconf : configure_graph debug fuel (<[graph := GraphObject (with_can_consume g false)]> h) graph = Some (status, h1))
    (Hfail : status <> BT_FUNC_STATUS_OK) :
  bt_graph_run_once dev debug fuel delete_popped_link h graph = Some (status, h1) /\
  bt_graph_run dev debug fuel delete_popped_link h1 graph = None /\
  bt_graph_run_once true debug fuel delete_popped_link h1 graph = None /\
  exists g1, get_graph h1 graph = Some g1 /\ can_consume g1 = false /\ to_configure g1 /\
    bt_graph_run dev debug fuel delete_popped_link h graph =
      Some (status, <[graph := GraphObject (with_can_consume g1 true)]> h1).
Proof.
  set (h0 := <[graph := _]> h) in *.
  destruct (configure_graph_ok debug graph I methods fuel h0 (with_can_consume g false) HI (get_graph_insert _ _ _) Hstate Hnodup Hfuel)
    as (st & h1' & calls & g1 & _ & Hg1 & Hs & _ & Hcc & Hconf' & _).
  rewrite Hconf' in Hconf. injection Hconf as <- Hh1. rewrite (proj2 (Z.eqb_neq _ _) Hfail) in Hh1. subst h1'.
  rewrite (proj2 (Z.eqb_neq _ _) Hfail) in Hconf'. cbn [can_consume with_can_consume] in Hcc.
  assert (Hnf : config_state g <> Faulty).
  { intros Hx. unfold to_configure in Hstate. rewrite Hx in Hstate. by apply elem_of_cons in Hstate as [?|?%list_elem_of_singleton]. }
  assert (Hset : bt_graph_set_can_consume h graph false = Some h0) by exact (update_graph_ok h graph g _ Hg).
  unfold bt_graph_run_once, bt_graph_run, BT_ASSERT_PRE_DEV, BT_ASSERT_PRE.
  rewrite Hg, Hg1, Hcan, Hcc, (bool_decide_eq_false_2 _ Hnf), Hset, Hconf', (proj2 (Z.eqb_neq _ _) Hfail).
  simpl negb. rewrite andb_false_r. do 3 (split; [done|]). exists g1. split; [done|]. split; [done|].
  split; [unfold to_configure; rewrite Hs; by right; left|].
  unfold bt_graph_set_can_consume. by rewrite (update_graph_ok h1 graph g1 _ Hg1).
Qed.

(** * Two sinks whose configuration fails a number of times *)

Section stubborn.
#[local] Open Scope positive_scope.

(** A sink fails as many times as its data says. *)
Definition stubborn_configured (comp : addr) (h : objects nat) : option (Z * objects nat) :=
  do c <- get_component h comp;
  match comp_user_data c with
  | O => Some (BT_FUNC_STATUS_OK, h)
  | S n =>
    Some (BT_FUNC_STATUS_ERROR, <[comp := ComponentObject
      (BtComponent (comp_base c) (comp_class c) (comp_name c) (log_level c) n (input_ports c) (output_ports c)
         (destroy_listeners c) (initialized c) (graph_is_configured_method_called c))]> h)
  end.
Instance stubborn_user : GraphUser nat := {|
  init_method _ := None;
  finalize_method _ := None;
  port_connected_method _ _ := None;
  graph_is_configured_method _ := Some stubborn_configured;
  consume_method _ _ h := Some (BT_FUNC_STATUS_END, h);
  iterator_initialize_method _ := None;
  iterator_finalize_method _ := None;
  port_added_func _ _ _ _ _ := None;
  destroy_listener_func _ _ _ _ := None
|}.

Definition stubborn_base : bt_object := bt_object_init_shared (ReleaseFunc destroy_component_func).
Definition stubborn_sink (name : Z) (n : nat) (told : bool) : bt_component nat :=
  BtComponent stubborn_base 5 [name] 0 n [] [] [] true told.
Definition stubborn_graph (state : bt_graph_configuration_state) (consume : bool) : bt_graph nat :=
  BtGraph stubborn_base [] [2; 3] (GQueue [2; 3] 2) 0 [] None true consume state (GraphListeners [] [] [] []).
Definition stubborn_objects state (consume : bool) (n m : nat) (told told' : bool) : objects nat :=
  <[1 := GraphObject (stubborn_graph state consume)]> (<[2 := ComponentObject (stubborn_sink 2 n told)]>
    (<[3 := ComponentObject (stubborn_sink 3 m told')]> {[5 := ClassObject (BtComponentClass stubborn_base ClassSink true)]})).
Definition stubborn (h : objects nat) : Prop :=
  exists state consume n m told told', h = stubborn_objects state consume n m told told'.

Lemma stubborn_component state b n m t t' x c : get_component (stubborn_objects state b n m t t') x = Some c ->
  x = 2 /\ c = stubborn_sink 2 n t \/ x = 3 /\ c = stubborn_sink 3 m t'.
Proof.
  intros Hc%get_component_Some. unfold stubborn_objects in Hc.
  rewrite !lookup_insert_Some, lookup_singleton_Some in Hc.
  destruct Hc as [[_ [=]]|[_ [[<- [= <-]]|[_ [[<- [= <-]]|[_ [_ [=]]]]]]]]; tauto.
Qed.

Lemma stubborn_waits state b n m t t' x : waits (stubborn_objects state b n m t t') x =
  if bool_decide (x = 2) then Some (negb t) else if bool_decide (x = 3) then Some (negb t') else None.
Proof.
  case_bool_decide; [by subst|]. case_bool_decide; [by subst|]. unfold waits.
  destruct (get_component _ x) as [c|] eqn:Hc; [|done]. apply stubborn_component in Hc. tauto.
Qed.

Lemma stubborn_methods : configured_methods 1 stubborn.
Proof.
  split.
  - intros h (s & b & n & m & t & t' & ->). exists (stubborn_graph s b). split; [done|]. split; [done|].
    intros c [-> |[-> |[]%elem_of_nil]%elem_of_cons]%elem_of_cons; by eexists.
  - intros h g s' (s & b & n & m & t & t' & ->) [= <-]. by exists s', b, n, m, t, t'.
  - intros h c x (s & b & n & m & t & t' & ->) [[-> ->]|[-> ->]]%stubborn_component.
    + by exists s, b, n, m, true, t'.
    + by exists s, b, n, m, t, true.
  - intros h x c method (s & b & n & m & t & t' & ->) Hx [= <-].
    assert (forall n' m', stubborn (stubborn_objects s b n' m' t t') /\
      (forall x, waits (stubborn_objects s b n' m' t t') x = waits (stubborn_objects s b n m t t') x) /\
      (forall g g1, get_graph (stubborn_objects s b n m t t') 1 = Some g ->
         get_graph (stubborn_objects s b n' m' t t') 1 = Some g1 ->
         components g1 = components g /\ config_state g1 = config_state g /\ can_consume g1 = can_consume g)) as Hsame.
    { intros n' m'. split; [by exists s, b, n', m', t, t'|]. split; [intros y; by rewrite !stubborn_waits|].
      by intros g g1 [= <-] [= <-]. }
    apply stubborn_component in Hx as [[-> ->]|[-> ->]]; [destruct n as [|n]|destruct m as [|m]];
      (eexists; eexists; split; [reflexivity|]; split; [rewrite !elem_of_cons; tauto|]).
    + apply (Hsame O m).
    + apply (Hsame n m).
    + apply (Hsame n O).
    + apply (Hsame n m).
Qed.

Lemma configure_graph_tells_witness :
  exists told status h1 g1,
    get_graph h1 1 = Some g1 /\ waiting (stubborn_objects Configuring true 0 1 false false) [2; 3] = (told ++ waiting h1 [2; 3])%list /\
    configure_graph true 5 (stubborn_objects Configuring true 0 1 false false) 1 = Some (status, h1) /\ told = [2] /\
    status = BT_FUNC_STATUS_ERROR /\ config_state g1 = PartiallyConfigured.
Proof.
  destruct (configure_graph_tells true 5 1 stubborn (stubborn_objects Configuring true 0 1 false false)
              (stubborn_graph Configuring true) stubborn_methods
              ltac:(by exists Configuring, true, 0%nat, 1%nat, false, false) eq_refl ltac:(by left)
              ltac:(apply (bool_decide_unpack _); reflexivity) ltac:(simpl; lia))
    as (told & status & h1 & g1 & Hg1 & Hs & _ & _ & Hw & [(_ & _ & _ & Hc)|(_ & Hc & s & after & Hw1 & _)]); [discriminate|].
  exists told, status, h1, g1. split; [exact Hg1|]. split; [exact Hw|]. split; [exact Hc|].
  vm_compute in Hc. injection Hc as <- <-. split; [|split; [reflexivity|exact Hs]].
  vm_compute in Hw. destruct told as [|x [|y told]]; [discriminate|injection Hw as <-; reflexivity|].
  injection Hw as _ _ Hw. by apply app_cons_not_nil in Hw.
Defined.

Lemma run_once_failed_configuration_witness :
  exists h1, bt_graph_run_once true true 5 (fun q _ => q) (stubborn_objects Configuring true 0 1 false false) 1 =
      Some (BT_FUNC_STATUS_ERROR, h1) /\
    bt_graph_run true true 5 (fun q _ => q) h1 1 = None.
Proof.
  eexists.
  destruct (run_once_failed_configuration true true 5 (fun q _ => q) 1 stubborn
              (stubborn_objects Configuring true 0 1 false false) (stubborn_graph Configuring true) BT_FUNC_STATUS_ERROR
              (stubborn_objects PartiallyConfigured false 0 0 true false) stubborn_methods eq_refl
              ltac:(by exists Configuring, false, 0%nat, 1%nat, false, false) eq_refl ltac:(by left)
              ltac:(apply (bool_decide_unpack _); reflexivity) ltac:(simpl; lia) eq_refl ltac:(discriminate)) as (H1 & H2 & _).
  exact (conj H1 H2).
Defined.
End stubborn.
