(* ===== verification/GraphPorts.v ===== *)
(** Connecting ports ([Graph]), with "port connected" methods that can change the graph. *)

From stdpp Require Import list gmap.
From S2P Require Import Prelude Object Mip GraphObj Graph.

(** * Connections *)

Section connect.
Context {U : Type} `{GraphUser U} (debug : bool).
Implicit Types h : objects U.

(** The base of a connection that the user does not hold. *)
Definition connection_base (count : Z) (graph : addr) : bt_object :=
  BtObject true count (Some ReleaseWithParent) (Some destroy_connection_func) (Some parent_is_owner_func) (Some graph).

(** The store once [up] is connected to [down]. *)
Definition connected (h : objects U) (graph : addr) (g : bt_graph U) (up down : addr) (pu pd : bt_port U) (x : addr)
    : objects U :=
  <[x := ConnectionObject (BtConnection (connection_base 0 graph) (Some down) (Some up) [] true true)]>
    (<[graph := GraphObject (with_connections g (connections g ++ [x]))]>
      (<[down := PortObject (with_port_connection pd (Some x))]>
        (<[up := PortObject (with_port_connection pu (Some x))]> h))).

(** A connection and its ports know each other; the port that a connection names has
    the direction it should have. *)
Record links_ok (h : objects U) : Prop := {
  lk_upstream x c p : get_connection h x = Some c -> upstream_port c = Some p ->
    exists q, get_port h p = Some q /\ port_connection q = Some x /\ port_type q = PortOutput;
  lk_downstream x c p : get_connection h x = Some c -> downstream_port c = Some p ->
    exists q, get_port h p = Some q /\ port_connection q = Some x /\ port_type q = PortInput;
  lk_port p q x : get_port h p = Some q -> port_connection q = Some x ->
    exists c, get_connection h x = Some c /\
      match port_type q with PortOutput => upstream_port c = Some p | PortInput => downstream_port c = Some p end
}.

Definition graph_ok (h : objects U) (graph : addr) (g : bt_graph U) (f : func) : Prop :=
  get_graph h graph = Some g /\ is_shared (graph_base g) = true /\ parent (graph_base g) = None /\
  release_func (graph_base g) = Some (ReleaseFunc f) /\ 0 < ref_count (graph_base g) /\ ref_count (graph_base g) + 1 < 2 ^ 64.

Definition with_graph_base (g : bt_graph U) (b : bt_object) : object U := with_base (GraphObject g) b.

Lemma bt_connection_create_ok fuel malloc h graph g f up down pu pd :
  let x := malloc h in
  graph_ok h graph g f -> get_port h up = Some pu -> get_port h down = Some pd -> up <> down -> h !! x = None ->
  bt_connection_create debug fuel malloc h graph up down =
    Some (x, <[x := ConnectionObject (BtConnection (connection_base 1 graph) (Some down) (Some up) [] false false)]>
             (<[graph := with_graph_base g (set_ref_count (graph_base g) (ref_count (graph_base g) + 1))]>
             (<[down := PortObject (with_port_connection pd (Some x))]>
             (<[up := PortObject (with_port_connection pu (Some x))]> h)))).
Proof.
  intros x (Hg & Hs & Hp & _ & Hc & Hc') Hu Hd Hne Hx.
  apply get_graph_Some in Hg. apply get_port_Some in Hu. apply get_port_Some in Hd.
  assert (x <> graph) by congruence. assert (x <> up) by congruence. assert (x <> down) by congruence.
  assert (graph <> up) by congruence. assert (graph <> down) by congruence.
  unfold bt_connection_create, alloc. fold x.
  unfold bt_object_set_parent_is_owner_listener_func. rewrite lookup_insert_eq. unfold BT_ASSERT_DBG. cbn.
  rewrite andb_false_r. unfold store_base. cbn. rewrite insert_insert_eq.
  unfold bt_port_set_connection. erewrite update_port_ok; [|apply get_port_Some; rewrite lookup_insert_ne; done].
  erewrite update_port_ok; [|apply get_port_Some; rewrite !lookup_insert_ne; done].
  erewrite (set_parent_plain (T := object U)); [| | | |rewrite !lookup_insert_ne by done; exact Hg|..]; cycle 1.
  { rewrite 2!lookup_insert_ne by done. apply lookup_insert_eq. }
  all: try done. { simpl. lia. }
  do 2 f_equal. solve_inserts.
Qed.

(** The listener of a connection that has a port does nothing. *)
Lemma parent_is_owner_attached n h x c p : get_connection h x = Some c -> is_shared (conn_base c) = true ->
  downstream_port c = Some p -> call_object debug (S n) parent_is_owner_func x h = Some h.
Proof.
  intros Hx Hs Hp. pose proof Hx as Hx'%get_connection_Some.
  cbn [call_object]. rewrite !bool_decide_eq_false_2 by done. rewrite bool_decide_eq_true_2 by done.
  unfold parent_is_owner, try_remove_connection_from_graph, bt_object_borrow_parent, BT_ASSERT_DBG.
  rewrite Hx, Hx'. cbn [base object_base graph_object_base]. rewrite Hs, Hp, andb_false_r.
  rewrite (bool_decide_eq_true_2 (is_Some (Some p))) by by eexists. by rewrite orb_true_r.
Qed.

Definition with_conn_base (c : bt_connection) (b : bt_object) : bt_connection :=
  BtConnection b (downstream_port c) (upstream_port c) (iterators c) (notified_upstream_port_connected c)
    (notified_downstream_port_connected c).

(** What [bt_graph_connect_ports] assumes of its arguments: each port is one of a
    component, and is not connected. *)
Record connectable (h : objects U) (graph : addr) (g : bt_graph U) (up down : addr) (pu pd : bt_port U)
    (cu cd : addr) : Prop := {
  cn_graph : exists f, graph_ok h graph g f;
  cn_state : config_state g = Configuring;
  cn_up : get_port h up = Some pu /\ port_type pu = PortOutput /\ port_connection pu = None /\
    is_shared (port_base pu) = true /\ parent (port_base pu) = Some cu;
  cn_down : get_port h down = Some pd /\ port_type pd = PortInput /\ port_connection pd = None /\
    is_shared (port_base pd) = true /\ parent (port_base pd) = Some cd
}.

(** The base [b1] is [b] with, maybe, more references. *)
Definition counted (b b1 : bt_object) : Prop :=
  b1 = set_ref_count b (ref_count b1) /\ ref_count b <= ref_count b1 < 2 ^ 64.

(** What a "port connected" method that succeeds leaves of the connection [x] that it is
    told about: no function of the library lets it end one.  It can take references, add
    ports to its component, make other connections (a listener of the graph can) and
    change anything else. *)
Record keeps_connection (graph x up down : addr) (h h1 : objects U) : Prop := {
  kc_graph g : get_graph h graph = Some g ->
    exists g1 l, get_graph h1 graph = Some g1 /\ connections g1 = connections g ++ l /\ counted (graph_base g) (graph_base g1);
  kc_connection c : get_connection h x = Some c ->
    exists c1, get_connection h1 x = Some c1 /\ counted (conn_base c) (conn_base c1) /\
      downstream_port c1 = downstream_port c /\ upstream_port c1 = upstream_port c /\
      notified_upstream_port_connected c1 = notified_upstream_port_connected c;
  kc_port p q : p = up \/ p = down -> get_port h p = Some q ->
    exists q1, get_port h1 p = Some q1 /\ port_connection q1 = port_connection q;
  kc_links : links_ok h -> links_ok h1
}.

(** The component [comp] is told that its port [self] is connected to [other]. *)
Record told (graph x up down comp self other : addr) (h h1 : objects U) : Prop := {
  told_status : bt_component_port_connected h comp self other = Some (BT_FUNC_STATUS_OK, h1);
  told_keeps : keeps_connection graph x up down h h1
}.

Definition with_graph_count (g : bt_graph U) (d : Z) : bt_graph U :=
  BtGraph (set_ref_count (graph_base g) (ref_count (graph_base g) + d)) (connections g) (components g)
    (sinks_to_consume g) (mip_version g) (interrupters g) (default_interrupter g) (has_sink g) (can_consume g)
    (config_state g) (listeners g).

(** The graph gets its count and [can_consume] back. *)
Lemma graph_counted (g : bt_graph U) l :
  with_can_consume (with_graph_count (with_can_consume (with_connections (with_graph_count g 1) l) false) (-1)) (can_consume g) =
    with_connections g l.
Proof. destruct g as [[]]. unfold with_can_consume, with_graph_count, with_connections, set_ref_count. cbn. do 2 f_equal. lia. Qed.

(** The store when the upstream component is told: the connection has the reference of
    the caller, hence one of the graph. *)
Definition being_connected (h : objects U) (graph : addr) (g : bt_graph U) (up down : addr) (pu pd : bt_port U) (x : addr)
    : objects U :=
  <[x := ConnectionObject (BtConnection (connection_base 1 graph) (Some down) (Some up) [] false false)]>
    (<[graph := GraphObject (with_can_consume (with_connections (with_graph_count g 1) (connections g ++ [x])) false)]>
      (<[down := PortObject (with_port_connection pd (Some x))]>
        (<[up := PortObject (with_port_connection pu (Some x))]> h))).

(** The store in the end, from the one that the methods leave: the caller's reference of
    the connection is put, and the one of the graph with it when it was the last. *)
Definition finished (h : objects U) (graph : addr) (g : bt_graph U) (x : addr) (c : bt_connection) (can : bool)
    : objects U :=
  <[graph := GraphObject (with_can_consume (if ref_count (conn_base c) =? 1 then with_graph_count g (-1) else g) can)]>
    (<[x := ConnectionObject (with_conn_base (with_notified c true true)
              (set_ref_count (conn_base c) (ref_count (conn_base c) - 1)))]> h).

Lemma notify_connected_ok fuel h h1 x c comp self other notified :
  bt_component_port_connected h comp self other = Some (BT_FUNC_STATUS_OK, h1) -> get_connection h1 x = Some c ->
  notify_connected debug fuel h x comp self other notified =
    Some (BT_FUNC_STATUS_OK, <[x := ConnectionObject (notified c)]> h1).
Proof.
  intros Hm Hx. unfold notify_connected. rewrite Hm. cbn [Z.eqb BT_FUNC_STATUS_OK].
  by rewrite (update_connection_ok h1 x c).
Qed.

(** The caller's reference of a new connection is put: the graph keeps the connection. *)
Lemma put_connection_ok n h x c d graph g f :
  h !! x = Some (ConnectionObject c) -> conn_base c = connection_base 1 graph -> downstream_port c = Some d ->
  h !! graph = Some (GraphObject g) -> is_shared (graph_base g) = true -> release_func (graph_base g) = Some (ReleaseFunc f) ->
  1 < ref_count (graph_base g) < 2 ^ 64 ->
  put_ref debug (call_object debug (S n)) h (Some x) =
    Some (<[graph := with_graph_base g (set_ref_count (graph_base g) (ref_count (graph_base g) - 1))]>
           (<[x := ConnectionObject (with_conn_base c (connection_base 0 graph))]> h)).
Proof.
  intros Hx Hb Hd Hg Hs Hf Hr. unfold put_ref.
  rewrite (put_ref_child (T := object U) debug (call_object debug (S n)) h x (ConnectionObject c) graph (GraphObject g) f parent_is_owner_func);
    try done; cbn [base object_base graph_object_base set_base with_base]; rewrite ?Hb; try done; [| |congruence|lia].
  - rewrite (proj2 (Z.eqb_neq _ 1)) by lia. done.
  - cbv zeta. by apply (parent_is_owner_attached n _ x (with_conn_base c (connection_base 0 graph)) d);
      [apply get_connection_Some, lookup_insert_eq|..].
Qed.

Section links.
Context (h : objects U) (graph : addr) (g : bt_graph U) (up down : addr) (pu pd : bt_port U) (x : addr).
Context (Hg : get_graph h graph = Some g) (Hpu : get_port h up = Some pu) (Hpd : get_port h down = Some pd).
Context (Hx : h !! x = None) (Hne : up <> down).

Lemma connected_port p : get_port (connected h graph g up down pu pd x) p =
  if decide (p = down) then Some (with_port_connection pd (Some x))
  else if decide (p = up) then Some (with_port_connection pu (Some x)) else get_port h p.
Proof.
  apply get_graph_Some in Hg. pose proof Hpu as Hu%get_port_Some. pose proof Hpd as Hd%get_port_Some.
  unfold get_port, connected. rewrite !lookup_insert.
  repeat case_decide; subst; simplify_eq; try done; congruence || by rewrite ?Hx, ?Hg.
Qed.
Lemma connected_connection y : get_connection (connected h graph g up down pu pd x) y =
  if decide (y = x) then Some (BtConnection (connection_base 0 graph) (Some down) (Some up) [] true true) else get_connection h y.
Proof.
  apply get_graph_Some in Hg. pose proof Hpu as Hu%get_port_Some. pose proof Hpd as Hd%get_port_Some.
  unfold get_connection, connected. rewrite !lookup_insert.
  repeat case_decide; subst; simplify_eq; try done; congruence || by rewrite ?Hg, ?Hu, ?Hd.
Qed.

Lemma links_ok_connected : port_type pu = PortOutput -> port_connection pu = None ->
  port_type pd = PortInput -> port_connection pd = None ->
  links_ok h -> links_ok (connected h graph g up down pu pd x).
Proof.
  intros Htu Hcu Htd Hcd [L1 L2 L3]. split.
  - intros y c p. rewrite connected_connection, connected_port. intros Hy Hp. case_decide; simplify_eq.
    + cbn in Hp. simplify_eq. rewrite decide_False, decide_True by done. by eexists.
    + destruct (L1 y c p Hy Hp) as (q & Hq & Hqc & ?). rewrite !decide_False by congruence. by exists q.
  - intros y c p. rewrite connected_connection, connected_port. intros Hy Hp. case_decide; simplify_eq.
    + cbn in Hp. simplify_eq. rewrite decide_True by done. by eexists.
    + destruct (L2 y c p Hy Hp) as (q & Hq & Hqc & ?). rewrite !decide_False by congruence. by exists q.
  - intros p q y. rewrite connected_connection, connected_port. intros Hp Hy.
    assert (Hyx : get_connection h x = None) by (unfold get_connection; by rewrite Hx).
    repeat case_decide; simplify_eq; cbn in Hy; simplify_eq; try (destruct (L3 p q x) as (? & ? & _); [done|done|congruence]).
    + eexists. split; [done|]. cbn. by rewrite Htd.
    + eexists. split; [done|]. cbn. by rewrite Htu.
    + by apply L3.
Qed.
End links.

(** Links are ports and connections that name each other, whatever the rest. *)
Lemma links_ok_same h h' :
  (forall p, (fun q => (port_connection q, port_type q)) <$> get_port h' p =
             (fun q => (port_connection q, port_type q)) <$> get_port h p) ->
  (forall x, (fun c => (upstream_port c, downstream_port c)) <$> get_connection h' x =
             (fun c => (upstream_port c, downstream_port c)) <$> get_connection h x) ->
  links_ok h -> links_ok h'.
Proof.
  intros Hp Hx [L1 L2 L3].
  assert (Hq : forall p q, get_port h p = Some q -> exists q', get_port h' p = Some q' /\
            port_connection q' = port_connection q /\ port_type q' = port_type q).
  { intros p q Hq. pose proof (Hp p) as E. rewrite Hq in E. destruct (get_port h' p) as [q'|]; [|done].
    exists q'. by injection E. }
  assert (Hc : forall x c', get_connection h' x = Some c' -> exists c, get_connection h x = Some c /\
            upstream_port c = upstream_port c' /\ downstream_port c = downstream_port c').
  { intros x c' Hc'. pose proof (Hx x) as E. rewrite Hc' in E. destruct (get_connection h x) as [c|]; [|done].
    exists c. by injection E. }
  split.
  - intros x c' p Hc' Hu. destruct (Hc x c' Hc') as (c & Hxc & Eu & _). rewrite <- Eu in Hu.
    destruct (L1 x c p Hxc Hu) as (q & Hpq & <- & <-). by apply Hq.
  - intros x c' p Hc' Hd. destruct (Hc x c' Hc') as (c & Hxc & _ & Ed). rewrite <- Ed in Hd.
    destruct (L2 x c p Hxc Hd) as (q & Hpq & <- & <-). by apply Hq.
  - intros p q' x Hq' Hqx. pose proof (Hp p) as E. rewrite Hq' in E.
    destruct (get_port h p) as [q|] eqn:Hpq; [|done]. injection E as Ec Et. rewrite Ec in Hqx.
    destruct (L3 p q x Hpq Hqx) as (c & Hxc & Hm). rewrite <- Et in Hm. pose proof (Hx x) as E. rewrite Hxc in E.
    destruct (get_connection h' x) as [c'|]; [|done]. exists c'. injection E as Eu Ed.
    by destruct (port_type q'); rewrite ?Eu, ?Ed.
Qed.

(** Other members of the connection and of the graph. *)
Lemma links_ok_connection h x c c' : get_connection h x = Some c ->
  upstream_port c' = upstream_port c -> downstream_port c' = downstream_port c ->
  links_ok h -> links_ok (<[x := ConnectionObject c']> h).
Proof.
  intros Hx%get_connection_Some Hu Hd. apply links_ok_same; intros a.
  - unfold get_port. destruct (decide (a = x)) as [->|Hne]; [by rewrite lookup_insert_eq, Hx|by rewrite lookup_insert_ne].
  - unfold get_connection. destruct (decide (a = x)) as [->|Hne]; [|by rewrite lookup_insert_ne].
    rewrite lookup_insert_eq, Hx. cbn. by rewrite Hu, Hd.
Qed.
Lemma links_ok_graph h graph g g' : get_graph h graph = Some g -> links_ok h -> links_ok (<[graph := GraphObject g']> h).
Proof.
  intros Hg%get_graph_Some. apply links_ok_same; intros a.
  - unfold get_port. destruct (decide (a = graph)) as [->|Hne]; [by rewrite lookup_insert_eq, Hg|by rewrite lookup_insert_ne].
  - unfold get_connection. destruct (decide (a = graph)) as [->|Hne]; [by rewrite lookup_insert_eq, Hg|by rewrite lookup_insert_ne].
Qed.

Lemma counted_trans b b1 b2 : counted b b1 -> counted b1 b2 -> counted b b2.
Proof. intros [E1 H1] [E2 H2]. split; [rewrite E2, E1; done|lia]. Qed.

(** The end of [bt_graph_connect_ports]. *)
Lemma finish_ok n h graph g f x c d can :
  get_graph h graph = Some g -> get_connection h x = Some c -> downstream_port c = Some d ->
  is_shared (graph_base g) = true -> release_func (graph_base g) = Some (ReleaseFunc f) ->
  1 < ref_count (graph_base g) < 2 ^ 64 -> counted (connection_base 1 graph) (conn_base c) ->
  notified_upstream_port_connected c = true ->
  (do s <- put_ref debug (call_object debug (S n))
             (<[x := ConnectionObject (with_notified c (notified_upstream_port_connected c) true)]> h) (Some x);
   bt_graph_set_can_consume s graph can) = Some (finished h graph g x c can).
Proof.
  intros Hg Hx Hd Hs Hf Hr [Eb Hb] ->. pose proof Hg as Hg'%get_graph_Some. pose proof Hx as Hx'%get_connection_Some.
  assert (x <> graph) by congruence. cbn in Hb. unfold finished. set (h' := <[x := _]> h).
  assert (Hgh : h' !! graph = Some (GraphObject g)) by (unfold h'; by rewrite lookup_insert_ne).
  assert (Hxh : h' !! x = Some (ConnectionObject (with_notified c true true))) by apply lookup_insert_eq.
  destruct (decide (ref_count (conn_base c) = 1)) as [H1|H1].
  - rewrite (put_connection_ok n h' x (with_notified c true true) d graph g f);
      [|done|cbn; by rewrite Eb, H1|done..].
    unfold bt_graph_set_can_consume. erewrite update_graph_ok; [|apply get_graph_Some, lookup_insert_eq].
    rewrite insert_insert_eq. unfold h'. rewrite insert_insert_eq, Eb, H1. done.
  - unfold put_ref. rewrite (put_ref_shared (T := object U) debug _ h' x (ConnectionObject (with_notified c true true)));
      [|done|cbn; by rewrite Eb|cbn; lia].
    cbn [run]. unfold bt_graph_set_can_consume.
    rewrite (update_graph_ok _ graph g) by (apply get_graph_Some; by rewrite lookup_insert_ne).
    rewrite (proj2 (Z.eqb_neq _ 1)) by done. unfold h'. by rewrite insert_insert_eq.
Qed.

(** What both methods leave. *)
Lemma told_twice h graph g f up down pu pd cu cd x h1 h2 h3 :
  graph_ok h graph g f -> get_port h up = Some pu -> get_port h down = Some pd -> port_type pu = PortOutput ->
  port_type pd = PortInput -> port_connection pu = None -> port_connection pd = None -> h !! x = None ->
  told graph x up down cu up down (being_connected h graph g up down pu pd x) h1 ->
  update_connection h1 x (fun c => with_notified c true (notified_downstream_port_connected c)) = Some h2 ->
  told graph x up down cd down up h2 h3 ->
  exists g' c l qu qd, get_graph h3 graph = Some g' /\ get_connection h3 x = Some c /\
    connections g' = connections g ++ x :: l /\ counted (graph_base (with_graph_count g 1)) (graph_base g') /\
    counted (connection_base 1 graph) (conn_base c) /\ upstream_port c = Some up /\ downstream_port c = Some down /\
    notified_upstream_port_connected c = true /\
    get_port h3 up = Some qu /\ port_connection qu = Some x /\ get_port h3 down = Some qd /\ port_connection qd = Some x /\
    (links_ok h -> links_ok h3).
Proof.
  intros Hgok Hpu Hpd Htu Htd Hcu Hcd Hx [_ K1] Hflag [_ K2]. destruct Hgok as (Hg & _).
  pose proof Hg as Hg'%get_graph_Some. pose proof Hpu as Hpu'%get_port_Some. pose proof Hpd as Hpd'%get_port_Some.
  assert (up <> down) by congruence.
  assert (x <> graph /\ x <> up /\ x <> down /\ graph <> up /\ graph <> down) as (? & ? & ? & ? & ?) by (split_and!; congruence).
  set (h0 := being_connected h graph g up down pu pd x) in *.
  assert (Lg : get_graph h0 graph =
    Some (with_can_consume (with_connections (with_graph_count g 1) (connections g ++ [x])) false)).
  { apply get_graph_Some. unfold h0, being_connected. by rewrite lookup_insert_ne, lookup_insert_eq. }
  assert (Lx : get_connection h0 x = Some (BtConnection (connection_base 1 graph) (Some down) (Some up) [] false false)).
  { apply get_connection_Some, lookup_insert_eq. }
  assert (Lu : get_port h0 up = Some (with_port_connection pu (Some x))).
  { apply get_port_Some. unfold h0, being_connected. by rewrite 3!lookup_insert_ne, lookup_insert_eq. }
  assert (Ld : get_port h0 down = Some (with_port_connection pd (Some x))).
  { apply get_port_Some. unfold h0, being_connected. by rewrite 2!lookup_insert_ne, lookup_insert_eq. }
  destruct (kc_graph _ _ _ _ _ _ K1 _ Lg) as (g1 & l1 & Hg1 & El1 & Cg1).
  destruct (kc_connection _ _ _ _ _ _ K1 _ Lx) as (c1 & Hc1 & Cc1 & Ed1 & Eu1 & _).
  destruct (kc_port _ _ _ _ _ _ K1 up _ (or_introl eq_refl) Lu) as (qu1 & Hqu1 & Equ1).
  destruct (kc_port _ _ _ _ _ _ K1 down _ (or_intror eq_refl) Ld) as (qd1 & Hqd1 & Eqd1).
  rewrite (update_connection_ok h1 x c1 _ Hc1) in Hflag. injection Hflag as <-. set (h2 := <[x := _]> h1) in *.
  assert (Mg : get_graph h2 graph = Some g1).
  { apply get_graph_Some. unfold h2. rewrite lookup_insert_ne by done. by apply get_graph_Some. }
  assert (Mp : forall p q, p <> x -> get_port h1 p = Some q -> get_port h2 p = Some q).
  { intros p q Hne Hq. apply get_port_Some. unfold h2. rewrite lookup_insert_ne by done. by apply get_port_Some. }
  destruct (kc_graph _ _ _ _ _ _ K2 _ Mg) as (g' & l2 & Hg3 & El2 & Cg2).
  destruct (kc_connection _ _ _ _ _ _ K2 (with_notified c1 true (notified_downstream_port_connected c1)))
    as (c & Hc & Cc2 & Ed2 & Eu2 & En2); [apply get_connection_Some, lookup_insert_eq|].
  destruct (kc_port _ _ _ _ _ _ K2 up qu1 (or_introl eq_refl)) as (qu & Hqu & Equ); [by apply Mp|].
  destruct (kc_port _ _ _ _ _ _ K2 down qd1 (or_intror eq_refl)) as (qd & Hqd & Eqd); [by apply Mp|].
  exists g', c, (l1 ++ l2), qu, qd. split_and!; try done.
  - rewrite El2, El1. cbn. by rewrite <- !app_assoc.
  - exact (counted_trans _ _ _ Cg1 Cg2).
  - exact (counted_trans _ _ _ Cc1 Cc2).
  - rewrite Eu2. exact Eu1.
  - rewrite Ed2. exact Ed1.
  - by rewrite Equ, Equ1.
  - by rewrite Eqd, Eqd1.
  - intros L. apply (kc_links _ _ _ _ _ _ K2), (links_ok_connection _ _ c1); try done.
    apply (kc_links _ _ _ _ _ _ K1).
    pose proof (links_ok_connected h graph g up down pu pd x Hg Hpu Hpd Hx ltac:(done) Htu Hcu Htd Hcd L) as LC.
    set (hc := connected h graph g up down pu pd x) in *.
    replace h0 with (<[x := ConnectionObject (BtConnection (connection_base 1 graph) (Some down) (Some up) [] false false)]>
      (<[graph := GraphObject (with_can_consume (with_connections (with_graph_count g 1) (connections g ++ [x])) false)]> hc))
      by (unfold h0, hc, being_connected, connected; solve_inserts).
    apply (links_ok_connection _ _ (BtConnection (connection_base 0 graph) (Some down) (Some up) [] true true)); [|done..|].
    { apply get_connection_Some. rewrite lookup_insert_ne by done. apply lookup_insert_eq. }
    eapply links_ok_graph; [apply get_graph_Some|exact LC]. unfold hc, connected. by rewrite lookup_insert_ne, lookup_insert_eq.
Qed.
(** What [bt_graph_connect_ports] does until both components are told. *)
Lemma connect_told n malloc h graph g up down pu pd cu cd x h1 h2 h3 c :
  connectable h graph g up down pu pd cu cd ->
  malloc (<[graph := GraphObject (with_can_consume g false)]> h) = x -> h !! x = None ->
  told graph x up down cu up down (being_connected h graph g up down pu pd x) h1 ->
  update_connection h1 x (fun c => with_notified c true (notified_downstream_port_connected c)) = Some h2 ->
  told graph x up down cd down up h2 h3 -> get_connection h3 x = Some c ->
  bt_graph_connect_ports debug (S n) malloc h graph up down =
    (do s <- put_ref debug (call_object debug (S n))
               (<[x := ConnectionObject (with_notified c (notified_upstream_port_connected c) true)]> h3) (Some x);
     do s <- bt_graph_set_can_consume s graph (can_consume g); Some (BT_FUNC_STATUS_OK, Some x, s)).
Proof.
  intros [[f Hgok] Hstate (Hpu & Htu & Hcu & Hsu & Hparu) (Hpd & Htd & Hcd & Hsd & Hpard)] Hx Hfresh Hup Hflag Hdown Hc3.
  pose proof Hgok as (Hg & Hgs & Hgp & Hgr & Hgc & Hgb). pose proof Hg as Hg'%get_graph_Some.
  pose proof Hpu as Hpu'%get_port_Some. pose proof Hpd as Hpd'%get_port_Some.
  assert (up <> down) by congruence.
  assert (x <> graph /\ x <> up /\ x <> down /\ graph <> up /\ graph <> down) as (? & ? & ? & ? & ?) by (split_and!; congruence).
  set (g0 := GraphObject (with_can_consume g false)) in *. set (h' := <[graph := g0]> h) in *.
  unfold bt_graph_connect_ports, BT_ASSERT_PRE, bt_port_is_connected, bt_port_borrow_component_inline, bt_object_borrow_parent, BT_ASSERT_DBG.
  rewrite Hg, Hstate, Hpu, Hcu, Hpd, Hcd, Hpu', Hpd'. cbn [base object_base graph_object_base].
  rewrite Hsu, Hsd, Hparu, Hpard. simpl negb. rewrite !andb_false_r.
  rewrite bool_decide_eq_true_2 by done.
  unfold bt_graph_set_can_consume at 1. rewrite (update_graph_ok h graph g _ Hg). fold g0 h'.
  rewrite (bt_connection_create_ok (S n) malloc h' graph (with_can_consume g false) f up down pu pd).
  2: { split; [apply get_graph_insert|done]. }
  2, 3: apply get_port_Some; unfold h'; by rewrite lookup_insert_ne.
  2: done.
  2: { rewrite Hx. unfold h'. by rewrite lookup_insert_ne. }
  rewrite Hx. cbv zeta. erewrite update_graph_ok; [|apply get_graph_Some; rewrite lookup_insert_ne, lookup_insert_eq by done; done].
  replace (<[graph := _]> (<[x := _]> _)) with (being_connected h graph g up down pu pd x)
    by (unfold being_connected, h'; solve_inserts).
  destruct (kc_connection _ _ _ _ _ _ (told_keeps _ _ _ _ _ _ _ _ _ Hup) _ ltac:(apply get_connection_Some, lookup_insert_eq))
    as (c1 & Hc1 & _).
  rewrite (notify_connected_ok (S n) _ h1 x c1) by (done || apply Hup).
  rewrite (update_connection_ok h1 x c1 _ Hc1) in Hflag. injection Hflag as ->. cbn [Z.eqb BT_FUNC_STATUS_OK].
  rewrite (notify_connected_ok (S n) _ h3 x c) by (done || apply Hdown). cbn [Z.eqb BT_FUNC_STATUS_OK].
  done.
Qed.
End connect.

(** C8: Connecting two ports that are not connected, when the two "port connected" methods
    succeed, gives a connection that both ports name, which names them, which the graph
    lists after those that it had and before those that the methods made, and that it
    owns: the reference of the caller is put, and the one that the connection then has of
    the graph when no method took a reference of the connection ([finished]).  The graph can consume if
    it could, and the objects are otherwise as the methods leave them; methods that change
    nothing leave every other object as it was.  In a store whose connections and ports
    know each other, they still do.

    The methods can take references, add ports and connect others; they leave the new
    connection and its two ports connected, the graph alive with its connections, and the
    connections and ports knowing each other ([keeps_connection]). *)
Theorem connect_ports_exact {U} `{GraphUser U} (debug : bool) (n : nat) (malloc : objects U -> addr) (h : objects U)
    (graph : addr) (g : bt_graph U) (up down : addr) (pu pd : bt_port U) (cu cd : addr)
    (Hargs : connectable h graph g up down pu pd cu cd)
    (x : addr) (Hx : malloc (<[graph := GraphObject (with_can_consume g false)]> h) = x) (Hfresh : h !! x = None)
    (h1 h2 h3 : objects U)
    (Hup : told graph x up down cu up down (being_connected h graph g up down pu pd x) h1)
    (Hflag : update_connection h1 x (fun c => with_notified c true (notified_downstream_port_connected c)) = Some h2)
    (Hdown : told graph x up down cd down up h2 h3) :
  exists g' c l qu qd, let h' := finished h3 graph g' x c (can_consume g) in
    get_graph h3 graph = Some g' /\ get_connection h3 x = Some c /\
    bt_graph_connect_ports debug (S n) malloc h graph up down = Some (BT_FUNC_STATUS_OK, Some x, h') /\
    connections g' = connections g ++ x :: l /\
    upstream_port c = Some up /\ downstream_port c = Some down /\
    counted (connection_base 1 graph) (conn_base c) /\ counted (graph_base (with_graph_count g 1)) (graph_base g') /\
    get_port h' up = Some qu /\ port_connection qu = Some x /\
    get_port h' down = Some qd /\ port_connection qd = Some x /\
    (h1 = being_connected h graph g up down pu pd x -> h3 = h2 -> h' = connected h graph g up down pu pd x) /\
    (links_ok h -> links_ok h').
Proof.
  pose proof Hargs as [[f Hgok] Hstate (Hpu & Htu & Hcu & Hsu & Hparu) (Hpd & Htd & Hcd & Hsd & Hpard)].
  pose proof Hgok as (Hg & Hgs & Hgp & Hgr & Hgc & Hgb). pose proof Hg as Hg'%get_graph_Some.
  pose proof Hpu as Hpu'%get_port_Some. pose proof Hpd as Hpd'%get_port_Some.
  assert (up <> down) by congruence.
  assert (x <> graph /\ x <> up /\ x <> down /\ graph <> up /\ graph <> down) as (? & ? & ? & ? & ?) by (split_and!; congruence).
  assert (Hs2 : is_shared (graph_base g) = true) by done.
  destruct (told_twice h graph g f up down pu pd cu cd x h1 h2 h3 Hgok Hpu Hpd Htu Htd Hcu Hcd Hfresh Hup Hflag Hdown)
    as (g' & c & l & qu & qd & Hg3 & Hc3 & Hl & [Eg Cg] & Hcc & Hcup & Hcdown & Hn & Hqu & Equ & Hqd & Eqd & HL).
  pose proof Hg3 as Hg3'%get_graph_Some. pose proof Hc3 as Hc3'%get_connection_Some.
  exists g', c, l, qu, qd. cbv zeta.
  assert (Hother : forall a, a <> x -> a <> graph -> finished h3 graph g' x c (can_consume g) !! a = h3 !! a).
  { intros a Hax Hag. unfold finished. by rewrite !lookup_insert_ne. }
  assert (Hport : forall p q, get_port h3 p = Some q -> get_port (finished h3 graph g' x c (can_consume g)) p = Some q).
  { intros p q Hp%get_port_Some. apply get_port_Some. rewrite Hother; [done|congruence..]. }
  split_and!; try done; [|by apply Hport|by apply Hport| |].
  - rewrite (connect_told debug n malloc h graph g up down pu pd cu cd x h1 h2 h3 c) by done.
    pose proof (finish_ok debug n h3 graph g' f x c down (can_consume g) Hg3 Hc3 Hcdown) as E.
    cbn in Cg. specialize (E ltac:(by rewrite Eg) ltac:(by rewrite Eg) ltac:(lia) Hcc Hn).
    destruct (put_ref _ _ _ _) as [s|]; [|done]. by rewrite E.
  - intros -> ->. unfold being_connected in Hflag.
    erewrite update_connection_ok in Hflag by apply get_connection_Some, lookup_insert_eq.
    injection Hflag as <-. rewrite lookup_insert_eq in Hc3'. injection Hc3' as <-.
    unfold being_connected in Hg3'. rewrite lookup_insert_ne, lookup_insert_ne, lookup_insert_eq in Hg3' by done. injection Hg3' as <-.
    unfold finished, connected. cbn [conn_base with_notified ref_count connection_base Z.eqb Pos.eqb].
    rewrite graph_counted. solve_inserts.
  - intros L. unfold finished. eapply links_ok_graph.
    { apply get_graph_Some. by rewrite lookup_insert_ne. }
    apply (links_ok_connection _ _ c); [done..|by apply HL].
Qed.

(** * A source and a filter to connect *)

Section example.
#[local] Open Scope positive_scope.

Definition quiet_user : GraphUser Z := {|
  init_method _ := None;
  finalize_method _ := None;
  port_connected_method _ _ := Some (fun _ _ _ h => Some (BT_FUNC_STATUS_OK, h));
  graph_is_configured_method _ := None;
  consume_method _ _ h := Some (BT_FUNC_STATUS_END, h);
  iterator_initialize_method _ := None;
  iterator_finalize_method _ := None;
  port_added_func _ _ _ _ _ := None;
  destroy_listener_func _ _ _ _ := None
|}.

Definition free_address (h : objects Z) : addr := match h !! 8 with None => 8 | Some _ => 9 end.

(** A filter that always has one more input port, as [flt.utils.muxer]. *)
Instance growing_user : GraphUser Z := {|
  init_method _ := None;
  finalize_method _ := None;
  port_connected_method _ type :=
    match type with
    | PortInput => Some (fun comp _ _ h =>
        do r <- @bt_self_component_filter_add_input_port Z quiet_user true 5 free_address h comp [105%Z; 49%Z] 0%Z;
        let '(status, _, h) := r in Some (status, h))
    | PortOutput => None
    end;
  graph_is_configured_method _ := None;
  consume_method _ _ h := Some (BT_FUNC_STATUS_END, h);
  iterator_initialize_method _ := None;
  iterator_finalize_method _ := None;
  port_added_func _ _ _ _ _ := None;
  destroy_listener_func _ _ _ _ := None
|}.

Definition child_base (f : func) (p : addr) : bt_object := BtObject true 0 (Some ReleaseWithParent) (Some f) None (Some p).
Definition class_base : bt_object := bt_object_init_shared (ReleaseFunc destroy_component_class_func).
Definition unlinked_graph : bt_graph Z :=
  BtGraph (bt_object_init_shared (ReleaseFunc destroy_graph_func)) [] [2; 3] (GQueue [] 0) 0 [] None false true Configuring
    (GraphListeners [] [] [] []).
Definition source : bt_component Z := BtComponent (child_base destroy_component_func 1) 6 [115%Z] 0 0%Z [] [4] [] true false.
Definition filter : bt_component Z := BtComponent (child_base destroy_component_func 1) 7 [116%Z] 0 0%Z [5] [] [] true false.
Definition out : bt_port Z := BtPort (child_base destroy_port_func 2) PortOutput [111%Z] None 0%Z.
Definition inp : bt_port Z := BtPort (child_base destroy_port_func 3) PortInput [105%Z] None 0%Z.
Definition unlinked : objects Z :=
  <[1 := GraphObject unlinked_graph]> (<[2 := ComponentObject source]> (<[3 := ComponentObject filter]>
    (<[4 := PortObject out]> (<[5 := PortObject inp]>
      (<[6 := ClassObject (BtComponentClass class_base ClassSource false)]>
        {[7 := ClassObject (BtComponentClass class_base ClassFilter false)]}))))).

Definition links_check (h : objects Z) : bool :=
  forallb (fun ao =>
    match snd ao with
    | ConnectionObject c =>
      match upstream_port c with
      | Some p => if get_port h p is Some q then bool_decide (port_connection q = Some (fst ao) /\ port_type q = PortOutput) else false
      | None => true
      end &&
      match downstream_port c with
      | Some p => if get_port h p is Some q then bool_decide (port_connection q = Some (fst ao) /\ port_type q = PortInput) else false
      | None => true
      end
    | PortObject q =>
      match port_connection q with
      | Some x =>
        if get_connection h x is Some c
        then bool_decide (match port_type q with PortOutput => upstream_port c | PortInput => downstream_port c end = Some (fst ao))
        else false
      | None => true
      end
    | _ => true
    end) (map_to_list h).

Lemma links_check_ok h : links_check h = true -> links_ok h.
Proof.
  intros Hall. unfold links_check in Hall. rewrite forallb_forall in Hall.
  assert (Hin : forall a o, h !! a = Some o -> In (a, o) (map_to_list h)).
  { intros a o Ho. by apply list_elem_of_In, elem_of_map_to_list. }
  split.
  - intros x c p Hx%get_connection_Some%Hin%Hall Hp. cbn in Hx. rewrite Hp in Hx. apply andb_true_iff in Hx as [Hx _].
    destruct (get_port h p) as [q|]; [|done]. exists q. by apply bool_decide_eq_true in Hx as [? ?].
  - intros x c p Hx%get_connection_Some%Hin%Hall Hp. cbn in Hx. rewrite Hp in Hx. apply andb_true_iff in Hx as [_ Hx].
    destruct (get_port h p) as [q|]; [|done]. exists q. by apply bool_decide_eq_true in Hx as [? ?].
  - intros p q x Hp%get_port_Some%Hin%Hall Hx. cbn in Hp. rewrite Hx in Hp.
    destruct (get_connection h x) as [c|]; [|done]. exists c. apply bool_decide_eq_true in Hp. by destruct (port_type q).
Qed.

Lemma unlinked_connectable : connectable unlinked 1 unlinked_graph 4 5 out inp 2 3.
Proof. split; try done. by exists destroy_graph_func. Qed.

(** The stores when the source and the filter are told, and then. *)
Definition store1 : objects Z := being_connected unlinked 1 unlinked_graph 4 5 out inp 8.
Definition store2 : objects Z :=
  default store1 (update_connection store1 8 (fun c => with_notified c true (notified_downstream_port_connected c))).
Definition store3 : objects Z := default store2 (snd <$> bt_component_port_connected store2 3 5 4).

Lemma source_told : told 1 8 4 5 2 4 5 store1 store1.
Proof.
  split; [done|]. split; [| | |done].
  - intros g' [= <-]. eexists _, []. split_and!; [done|by rewrite app_nil_r|done].
  - intros c [= <-]. by eexists.
  - intros p q _ Hq. by exists q.
Qed.
Lemma filter_told : told 1 8 4 5 3 5 4 store2 store3.
Proof.
  split; [vm_compute; reflexivity|]. split.
  - intros g' [= <-]. eexists _, []. split_and!; [vm_compute; reflexivity|done|done].
  - intros c [= <-]. eexists. split_and!; [vm_compute; reflexivity|done..].
  - intros p q [-> | ->] [= <-]; eexists; (split; [vm_compute; reflexivity|done]).
  - intros _. apply links_check_ok. vm_compute. reflexivity.
Qed.

(** The filter has one more port in the end. *)
Lemma connect_ports_exact_witness :
  exists h', bt_graph_connect_ports true 5 free_address unlinked 1 4 5 = Some (BT_FUNC_STATUS_OK, Some 8, h') /\
    (exists g', get_graph h' 1 = Some g' /\ connections g' = [8] /\ ref_count (graph_base g') = 1%Z) /\
    (exists c, get_component h' 3 = Some c /\ input_ports c = [5; 9]) /\ links_ok h'.
Proof.
  destruct (connect_ports_exact true 4 free_address unlinked 1 unlinked_graph 4 5 out inp 2 3 unlinked_connectable
              8 eq_refl eq_refl store1 store2 store3 source_told eq_refl filter_told)
    as (g' & c & l & qu & qd & Hg & Hc & E & _ & _ & _ & _ & _ & _ & _ & _ & _ & _ & HL).
  eexists. split; [exact E|]. vm_compute in Hg, Hc. injection Hg as <-. injection Hc as <-.
  split; [by eexists|]. split; [by eexists|]. apply HL, links_check_ok. vm_compute. reflexivity.
Defined.
End example.
