(* ===== verification/GraphFaults.v ===== *)
(** Where graphs ([Graph]) do not do what they mean to: the identifiers of listeners, the
    length of the queue of sinks once a sink is ended, and the connections of a component
    whose initialization fails. *)

From stdpp Require Import list gmap.
From S2P Require Import Prelude Object Mip GraphObj Graph GraphRun.

(** Adding a listener gives its identifier when it is not the first: the functions test
    the identifier that they computed, not the address where to write it.  The first
    listener's identifier is never written, and giving no address for the one of a later
    listener is undefined. *)
Theorem listener_id_condition {U} `{GraphUser U} (h : objects U) (graph : addr) (g : bt_graph U)
    (get : graph_listeners U -> list (bt_graph_listener_port_added U))
    (set : graph_listeners U -> list (bt_graph_listener_port_added U) -> graph_listeners U)
    (listener : bt_graph_listener_port_added U)
    (Hget : forall ls l, get (set ls l) = l) (Hg : get_graph h graph = Some g) :
  let h' := <[graph := GraphObject (with_listeners g (set (listeners g) (get (listeners g) ++ [listener])))]> h in
  forall has_out, add_listener h graph has_out get set listener =
    if (length (get (listeners g)) =? 0)%nat then Some (BT_FUNC_STATUS_OK, None, h')
    else if has_out then Some (BT_FUNC_STATUS_OK, Some (Z.of_nat (length (get (listeners g)))), h') else None.
Proof.
  intros h' has_out. unfold add_listener. rewrite (update_graph_ok h graph g _ Hg), get_graph_insert.
  cbn [GraphObj.listeners with_listeners]. rewrite Hget, length_app. fold h'. cbn [length].
  replace (Z.of_nat (length (get (listeners g)) + 1) - 1) with (Z.of_nat (length (get (listeners g)))) by lia.
  destruct (Nat.eqb_spec (length (get (listeners g))) 0) as [->|Hne]; [done|].
  rewrite (proj2 (Z.eqb_neq _ 0)) by lia. done.
Qed.

(** A sink that is ended counts twice in the length of the queue of sinks, whose link
    is popped, then deleted (GLib counts a link less without looking for it).  With three
    sinks, the first one ended, a second one that gives "try again" ends [bt_graph_run],
    although the third one is left to consume: [bt_graph_run] means to go on with it. *)
Theorem again_with_sinks_left {U} `{GraphUser U} (dev debug : bool) (n : nat) (delete_popped_link : gqueue -> addr -> gqueue)
    (h : objects U) (graph : addr) (g : bt_graph U) (a b c : addr) (ca cb : bt_component U)
    (glib_delete_link : forall q s, delete_popped_link q s = GQueue (links q) (wrapu 32 (queue_length q - 1)))
    (Hg : get_graph h graph = Some g) (Hsinks : sinks_to_consume g = GQueue [a; b; c] 3)
    (Hcan : can_consume g = true) (Hconf : config_state g = Configured) (Hhas : has_sink g = true)
    (Hintr : interrupters g = [])
    (Ha : get_component h a = Some ca) (Hb : get_component h b = Some cb)
    (Hend : forall h1, consume_method (comp_class ca) a h1 = Some (BT_FUNC_STATUS_END, h1))
    (Hagain : forall h1, consume_method (comp_class cb) b h1 = Some (BT_FUNC_STATUS_AGAIN, h1)) :
  bt_graph_run dev debug (S (S n)) delete_popped_link h graph =
    Some (BT_FUNC_STATUS_AGAIN, <[graph := GraphObject (with_sinks g (GQueue [c; b] 1))]> h).
Proof.
  assert (Hc : forall s cs gg, get_component h s = Some cs -> get_component (<[graph := GraphObject gg]> h) s = Some cs).
  { intros s cs gg Hs. by rewrite (get_component_graph h graph g). }
  rewrite (bt_graph_run_configured dev debug delete_popped_link graph _ h g Hg Hcan Hconf).
  cbn [run_loop]. unfold bt_graph_is_interrupted. rewrite get_graph_insert. cbn [interrupters with_can_consume]. rewrite Hintr.
  cbn [bt_interrupter_array_any_is_set].
  erewrite (consume_no_check_eq dev delete_popped_link graph _ (with_can_consume g false) a [b; c] 3 ca BT_FUNC_STATUS_END);
    [|apply get_graph_insert|done|done|by apply Hc|apply Hend|by right; left|apply get_graph_insert].
  change (BT_FUNC_STATUS_END =? BT_FUNC_STATUS_END) with true. cbn [sinks_to_consume with_sinks]. cbv zeta iota. rewrite glib_delete_link. cbn [links].
  rewrite bool_decide_eq_false_2 by done. rewrite get_graph_insert. cbn [Z.eqb BT_FUNC_STATUS_OK BT_FUNC_STATUS_AGAIN andb].
  cbn [interrupters with_can_consume with_sinks]. rewrite Hintr. cbn [bt_interrupter_array_any_is_set]. rewrite !insert_insert_eq.
  erewrite (consume_no_check_eq dev delete_popped_link graph _ _ b [c] (wrapu 32 (wrapu 32 (3 - 1) - 1)) cb BT_FUNC_STATUS_AGAIN);
    [|apply get_graph_insert|done|done|by apply Hc|apply Hagain|by right; right; left|apply get_graph_insert].
  change (BT_FUNC_STATUS_AGAIN =? BT_FUNC_STATUS_END) with false. cbv iota. rewrite get_graph_insert. unfold bt_graph_set_can_consume. cbn.
  change (1 <? wrapu 32 (wrapu 32 (wrapu 32 (wrapu 32 (3 - 1) - 1) - 1) + 1)) with false. cbn.
  rewrite (update_graph_ok _ graph _ _ (get_graph_insert _ _ _)), !insert_insert_eq. do 4 f_equal.
  unfold with_can_consume, with_sinks. cbn. by rewrite Hcan.
Qed.

(** * Examples *)

Section examples.
#[local] Open Scope positive_scope.

Definition own_base (f : func) : bt_object := bt_object_init_shared (ReleaseFunc f).
Definition class_object (type : bt_component_class_type) : object Z :=
  ClassObject (BtComponentClass (own_base destroy_component_class_func) type false).
Definition count_less (q : gqueue) (a : addr) : gqueue := GQueue (links q) (wrapu 32 (queue_length q - 1)).

(** ** Three sinks *)

(** The class 5 is of sinks that are ended, the class 6 of sinks that have no data. *)
Definition patient_user : GraphUser Z := {|
  init_method _ := None;
  finalize_method _ := None;
  port_connected_method _ _ := None;
  graph_is_configured_method _ := None;
  consume_method cls _ h := Some (if bool_decide (cls = 5) then BT_FUNC_STATUS_END else BT_FUNC_STATUS_AGAIN, h);
  iterator_initialize_method _ := None;
  iterator_finalize_method _ := None;
  port_added_func _ _ _ _ h := Some (BT_FUNC_STATUS_OK, h);
  destroy_listener_func _ _ _ _ := None
|}.
Definition patient_sink (cls : addr) (name : Z) : bt_component Z :=
  BtComponent (own_base destroy_component_func) cls [name] 0 0%Z [] [] [] true true.
Definition patient_graph : bt_graph Z :=
  BtGraph (own_base destroy_graph_func) [] [2; 3; 4] (GQueue [2; 3; 4] 3) 0 [] None true true Configured
    (GraphListeners [] [] [] []).
Definition patient_objects : objects Z :=
  <[1 := GraphObject patient_graph]> (<[2 := ComponentObject (patient_sink 5 97)]>
    (<[3 := ComponentObject (patient_sink 6 98)]> {[4 := ComponentObject (patient_sink 6 99)]})).

Lemma again_with_sinks_left_witness :
  @bt_graph_run Z patient_user true true 10 count_less patient_objects 1 =
    Some (BT_FUNC_STATUS_AGAIN, <[1 := GraphObject (with_sinks patient_graph (GQueue [4; 3] 1))]> patient_objects).
Proof.
  apply (@again_with_sinks_left Z patient_user true true 8 count_less patient_objects 1 patient_graph 2 3 4
           (patient_sink 5 97) (patient_sink 6 98)); reflexivity.
Defined.

Lemma listener_id_condition_witness :
  exists h', @bt_graph_add_source_component_output_port_added_listener Z patient_objects 1 9 0%Z true =
    Some (BT_FUNC_STATUS_OK, None, h').
Proof.
  eexists. unfold bt_graph_add_source_component_output_port_added_listener.
  rewrite (@listener_id_condition Z patient_user patient_objects 1 patient_graph source_output_port_added
             (fun ls l => GraphListeners l (filter_output_port_added ls) (filter_input_port_added ls) (sink_input_port_added ls))
             (PortAddedListener 9 0%Z) (fun _ _ => eq_refl) eq_refl true).
  reflexivity.
Defined.

(** ** An initialization that fails *)

Definition new_address (h : objects Z) : addr := fresh (dom h : gset addr).

(** The class 1 is of sources, the class 2 of sinks, the class 3 of sources whose
    initialization fails once their port is added.  A listener connects the new port of a
    source to the port of the sink that its data gives.  [user] is what these methods
    find when they call the graph. *)
Definition connecting_user (user : GraphUser Z) : GraphUser Z := {|
  init_method cls :=
    Some (fun comp data h =>
      if bool_decide (cls = 2) then
        do r <- @bt_self_component_sink_add_input_port Z user true 50 new_address h comp [105%Z] 0%Z;
        let '(status, _, h) := r in Some (status, h)
      else
        do r <- @bt_self_component_source_add_output_port Z user true 50 new_address h comp [111%Z] 0%Z;
        let '(status, _, h) := r in Some (if bool_decide (cls = 3) then BT_FUNC_STATUS_ERROR else status, h));
  finalize_method _ := None;
  port_connected_method _ _ := None;
  graph_is_configured_method _ := None;
  consume_method _ _ h := Some (BT_FUNC_STATUS_END, h);
  iterator_initialize_method _ := None;
  iterator_finalize_method _ := None;
  port_added_func _ comp port data h :=
    do c <- get_component h (Z.to_pos data);
    do input <- head (input_ports c);
    do graph <- @bt_component_borrow_graph Z true h comp;
    do graph <- graph;
    do r <- @bt_graph_connect_ports Z user true 50 new_address h graph port input;
    let '(status, _, h) := r in Some (status, h);
  destroy_listener_func _ _ _ h := Some h
|}.
Instance connecting : GraphUser Z := connecting_user (connecting_user patient_user).

(** A graph with a sink, the listener, and a component of the class [cls]. *)
Definition add_source (cls : addr) : option (Z * addr * objects Z) :=
  do r <- bt_graph_create true new_address
            (<[1 := class_object ClassSource]> (<[2 := class_object ClassSink]> {[3 := class_object ClassSource]})) 0;
  let '(graph, h) := r in
  do r <- bt_graph_add_sink_component true true 50 new_address 0%Z h graph 2 [1%Z] 0;
  let '(_, sink, h) := r in
  do sink <- sink;
  do r <- bt_graph_add_source_component_output_port_added_listener h graph 9 (Z.pos sink) true;
  let '(_, _, h) := r in
  do r <- bt_graph_add_source_component true true 50 new_address 0%Z h graph cls [2%Z] 0;
  let '(status, _, h) := r in
  Some (status, graph, h).

(** Adding a component whose initialization fails after a listener connected its new
    port destroys the component and the port, but not the connection: it still names the
    port, and destroying the graph later uses it.  When the initialization succeeds,
    destroying the graph destroys all that is in it. *)
Theorem failed_initialization_dangles :
  (exists graph h g x c port,
    add_source 3 = Some (BT_FUNC_STATUS_ERROR, graph, h) /\ get_graph h graph = Some g /\ config_state g = Faulty /\
    connections g = [x] /\ get_connection h x = Some c /\ upstream_port c = Some port /\ h !! port = None /\
    put_ref true (call_object true 50) h (Some graph) = None) /\
  (exists graph h h',
    add_source 1 = Some (BT_FUNC_STATUS_OK, graph, h) /\ put_ref true (call_object true 50) h (Some graph) = Some h' /\
    forall a o, h' !! a = Some o -> match o with ClassObject _ => True | _ => False end).
Proof.
  split.
  - destruct (add_source 3) as [[[status graph] h]|] eqn:Hs; vm_compute in Hs; [injection Hs as <- <- <-|discriminate].
    do 6 eexists. do 7 (split; [reflexivity|]). vm_compute. reflexivity.
  - destruct (add_source 1) as [[[status graph] h]|] eqn:Hs; vm_compute in Hs; [injection Hs as <- <- <-|discriminate].
    do 3 eexists. do 2 (split; [vm_compute; reflexivity|]).
    apply (map_Forall_to_list (fun _ o => match o with ClassObject _ => True | _ => False end)). vm_compute. repeat constructor.
Qed.
End examples.
