(* ===== verification/Clock.v ===== *)
(** Clocks: conversions between clock values (cycles) and nanoseconds from the
    clock's origin: [src/src/common/safe.h], the conversion of
    [src/src/common/common.h], [src/src/lib/trace-ir/utils.h], and the parts of
    [clock-class.c], [clock-class.h], [clock-snapshot.c] and [clock-snapshot.h] (in
    [src/src/lib/trace-ir]) that convert.

    Integers are unbounded, cut to their width where the code converts or computes
    with unsigned ones; a signed overflow, a division by zero and a conversion of a
    floating-point value out of range leave the model ([None]), as does a failed
    assertion.  The [double] arithmetic is the Standard Library's specification of
    binary64 ([SpecFloat]), rounding to nearest, ties to even. *)

From Stdlib Require Import SpecFloat.
From S2P Require Import Prelude.

(** The value of a signed 64-bit expression; [None] when it overflows. *)
Definition sint64 (z : Z) : option Z :=
  if (INT64_MIN <=? z) && (z <=? INT64_MAX) then Some z else None.

(** * safe.h *)

Definition bt_safe_to_mul_int64 (a b : Z) : bool :=
  if (a =? 0) || (b =? 0) then true else a <? Z.quot INT64_MAX b.
Definition bt_safe_to_mul_uint64 (a b : Z) : bool :=
  if (a =? 0) || (b =? 0) then true else a <? UINT64_MAX / b.
Definition bt_safe_to_add_int64 (a b : Z) : option bool :=
  do d <- sint64 (INT64_MAX - b); Some (a <=? d).
Definition bt_safe_to_add_uint64 (a b : Z) : bool := a <=? wrapu 64 (UINT64_MAX - b).

(** * Clock value from nanoseconds *)

Definition NS_PER_S : Z := 1000000000.

(** The offset in cycles, in nanoseconds; [Some None] is the error path. *)
Definition offset_cycles_to_ns (cc_offset_cycles cc_freq : Z) : option (option Z) :=
  if cc_freq =? NS_PER_S then Some (Some (wraps 64 cc_offset_cycles))
  else if negb (bt_safe_to_mul_int64 (wraps 64 cc_offset_cycles) NS_PER_S) then Some None
  else
    do prod <- sint64 (wraps 64 cc_offset_cycles * NS_PER_S);
    guard_ub negb (wraps 64 cc_freq =? 0);
    do quot <- sint64 (Z.quot prod (wraps 64 cc_freq));
    Some (Some quot).

(** The clock value of [value_in_ns] nanoseconds after the offset: the returned
    status and [*raw_value]. *)
Definition raw_value_of_ns (cc_freq value_in_ns raw_value : Z) : option (Z * Z) :=
  let value_periods := value_in_ns / NS_PER_S in
  let rem_value_in_ns := value_in_ns - value_periods * NS_PER_S in
  guard_ub negb (cc_freq =? 0);
  if UINT64_MAX / cc_freq <? value_periods then Some (-1, raw_value)
  else if negb (bt_safe_to_mul_uint64 value_periods cc_freq) then Some (-1, raw_value)
  else
    let value_period_cycles := wrapu 64 (value_periods * cc_freq) in
    if negb (bt_safe_to_mul_uint64 cc_freq rem_value_in_ns) then Some (-1, raw_value)
    else if negb (bt_safe_to_add_uint64 (wrapu 64 (cc_freq * rem_value_in_ns) / NS_PER_S)
                    value_period_cycles) then Some (-1, raw_value)
    else Some (0, wrapu 64 (wrapu 64 (cc_freq * rem_value_in_ns) / NS_PER_S
                            + value_period_cycles)).

(** The returned status and [*raw_value], which holds [raw_value] at first. *)
Definition bt_common_clock_value_from_ns_from_origin
    (cc_offset_seconds cc_offset_cycles cc_freq ns_from_origin raw_value : Z)
    : option (Z * Z) :=
  if negb (bt_safe_to_mul_int64 cc_offset_seconds NS_PER_S) then Some (-1, raw_value)
  else
    do offset_in_ns <- sint64 (cc_offset_seconds * NS_PER_S);
    do to_add <- offset_cycles_to_ns cc_offset_cycles cc_freq;
    match to_add with
    | None => Some (-1, raw_value)
    | Some ns_to_add =>
      do safe <- bt_safe_to_add_int64 offset_in_ns ns_to_add;
      if negb safe then Some (-1, raw_value)
      else
        do offset_in_ns <- sint64 (offset_in_ns + ns_to_add);
        if ns_from_origin <? offset_in_ns then Some (-1, raw_value)
        else
          do value_in_ns <- sint64 (ns_from_origin - offset_in_ns);
          raw_value_of_ns cc_freq value_in_ns raw_value
    end.

(** * utils.h *)

Abbreviation double := spec_float.

(** The conversion of a 64-bit integer to [double]. *)
Definition double_of (z : Z) : double := binary_normalize 53 1024 z 0 false.
Definition dmul : double -> double -> double := SFmul 53 1024.
Definition ddiv : double -> double -> double := SFdiv 53 1024.

(** The conversion of a [double] to [uint64_t], which truncates. *)
Definition uint64_of_double (d : double) : option Z :=
  match d with
  | S754_zero _ => Some 0
  | S754_finite s m e =>
    let t := if s then - Z.shiftl (Zpos m) e else Z.shiftl (Zpos m) e in
    if (0 <=? t) && (t <=? UINT64_MAX) then Some t else None
  | _ => None
  end.

Definition bt_util_ns_from_value (frequency value_cycles : Z) : option Z :=
  if frequency =? 1000000000 then Some value_cycles
  else
    let dblres := ddiv (dmul (double_of 1000000000) (double_of value_cycles))
                    (double_of frequency) in
    if SFleb (double_of UINT64_MAX) dblres then Some UINT64_MAX
    else uint64_of_double dblres.

Section clock_class.
Context (dev debug : bool).

(** Whether it overflows, and [*base_offset_ns]. *)
Definition bt_util_get_base_offset_ns
    (offset_seconds offset_cycles frequency base_offset_ns : Z) : option (bool * Z) :=
  if (offset_seconds <=? Z.quot INT64_MIN 1000000000 - 1) ||
     (Z.quot INT64_MAX 1000000000 - 1 <=? offset_seconds)
  then Some (true, base_offset_ns)
  else
    do base <- sint64 (offset_seconds * 1000000000);
    BT_ASSERT_DBG debug (offset_cycles <? frequency)
      (do offset_cycles_ns <- bt_util_ns_from_value frequency offset_cycles;
       BT_ASSERT_DBG debug (offset_cycles_ns <? 1000000000)
         (do base <- sint64 (base + wraps 64 offset_cycles_ns);
          Some (false, base))).

(** The returned status and [*ns_from_origin]. *)
Definition bt_util_ns_from_origin_inline (base_offset_ns frequency value : Z)
    : option (Z * Z) :=
  let ns_from_origin := base_offset_ns in
  do value_ns_unsigned <- bt_util_ns_from_value frequency value;
  if INT64_MAX <=? value_ns_unsigned then Some (-1, ns_from_origin)
  else
    let value_ns_signed := wraps 64 value_ns_unsigned in
    BT_ASSERT_DBG debug (0 <=? value_ns_signed)
      (if (0 <? ns_from_origin) && (INT64_MAX - ns_from_origin <? value_ns_signed)
       then Some (-1, ns_from_origin)
       else do ns <- sint64 (ns_from_origin + value_ns_signed); Some (0, ns)).

(** * Clock classes and snapshots *)

(** [origin_kind] and [custom_origin]: strings are without their null character. *)
Inductive clock_origin :=
| UnixEpoch
| UnknownOrigin
| CustomOrigin (ns : option (list Z)) (name uid : list Z).

#[export] Instance clock_origin_eq_dec : EqDecision clock_origin.
Proof. solve_decision. Defined.

(** The address of a clock class and its members that are not numbers of the
    conversions. *)
Record clock_class_attrs := ClockClassAttrs {
  cc_address : positive;
  cc_mip_version : Z;
  cc_ns : option (list Z);
  cc_name : option (list Z);
  cc_uid : option (list Z);
  cc_precision : option Z;
  cc_accuracy : option Z;
  cc_uuid : option (list Z);
  cc_origin : clock_origin
}.

Record bt_clock_class := BtClockClass {
  frequency : Z;
  offset_seconds : Z;
  offset_cycles : Z;
  base_offset_value_ns : Z;
  base_offset_overflows : bool;
  cc_frozen : bool;
  attrs : clock_class_attrs
}.

(** [ns_from_origin] is what the variable holds before. *)
Definition bt_util_ns_from_origin_clock_class (cc : bt_clock_class) (value ns_from_origin : Z)
    : option (Z * Z) :=
  if base_offset_overflows cc then Some (-1, ns_from_origin)
  else bt_util_ns_from_origin_inline (base_offset_value_ns cc) (frequency cc) value.

Definition set_base_offset (cc : bt_clock_class) : option bt_clock_class :=
  do r <- bt_util_get_base_offset_ns (offset_seconds cc) (offset_cycles cc) (frequency cc)
            (base_offset_value_ns cc);
  Some (BtClockClass (frequency cc) (offset_seconds cc) (offset_cycles cc) (snd r) (fst r)
          (cc_frozen cc) (attrs cc)).

(** A new clock class at an address; [mip_version] is the graph's. *)
Definition bt_clock_class_create (address : positive) (mip_version : Z) : option bt_clock_class :=
  set_base_offset (BtClockClass 1000000000 0 0 0 false false
    (ClockClassAttrs address mip_version None None None
       (if mip_version =? 0 then Some 0 else None) None None UnixEpoch)).

Definition bt_clock_class_set_frequency (cc : bt_clock_class) (f : Z) : option bt_clock_class :=
  BT_ASSERT_PRE_DEV dev (negb (cc_frozen cc))
    (BT_ASSERT_PRE (negb (f =? UINT64_MAX) && negb (f =? 0))
      (BT_ASSERT_PRE (offset_cycles cc <? f)
        (set_base_offset (BtClockClass f (offset_seconds cc) (offset_cycles cc)
           (base_offset_value_ns cc) (base_offset_overflows cc) (cc_frozen cc) (attrs cc))))).

Definition bt_clock_class_set_offset (cc : bt_clock_class) (seconds cycles : Z)
    : option bt_clock_class :=
  BT_ASSERT_PRE_DEV dev (negb (cc_frozen cc))
    (BT_ASSERT_PRE (cycles <? frequency cc)
      (set_base_offset (BtClockClass (frequency cc) seconds cycles
         (base_offset_value_ns cc) (base_offset_overflows cc) (cc_frozen cc) (attrs cc)))).

Definition _bt_clock_class_freeze (cc : bt_clock_class) : bt_clock_class :=
  if cc_frozen cc then cc
  else BtClockClass (frequency cc) (offset_seconds cc) (offset_cycles cc)
         (base_offset_value_ns cc) (base_offset_overflows cc) true (attrs cc).

(** ** The other members

    [thread_error]: the thread has an error.  Setting a member does not change the
    numbers. *)
Definition set_attrs (cc : bt_clock_class) (a : clock_class_attrs) : bt_clock_class :=
  BtClockClass (frequency cc) (offset_seconds cc) (offset_cycles cc) (base_offset_value_ns cc)
    (base_offset_overflows cc) (cc_frozen cc) a.

Definition mip_version_ge (cc : bt_clock_class) (v : Z) : bool := v <=? cc_mip_version (attrs cc).

(** [BT_ASSERT_PRE_NO_ERROR] and [BT_ASSERT_PRE_DEV_CLOCK_CLASS_HOT]. *)
Definition set_pre {A} (thread_error : bool) (cc : bt_clock_class) (k : option A) : option A :=
  BT_ASSERT_PRE (negb thread_error) (BT_ASSERT_PRE_DEV dev (negb (cc_frozen cc)) k).

Definition bt_clock_class_set_namespace (thread_error : bool) (cc : bt_clock_class) (ns : list Z)
    : option bt_clock_class :=
  let a := attrs cc in
  set_pre thread_error cc (BT_ASSERT_PRE (mip_version_ge cc 1)
    (Some (set_attrs cc (ClockClassAttrs (cc_address a) (cc_mip_version a) (Some ns) (cc_name a)
       (cc_uid a) (cc_precision a) (cc_accuracy a) (cc_uuid a) (cc_origin a))))).

Definition bt_clock_class_set_name (thread_error : bool) (cc : bt_clock_class) (name : list Z)
    : option bt_clock_class :=
  let a := attrs cc in
  set_pre thread_error cc
    (Some (set_attrs cc (ClockClassAttrs (cc_address a) (cc_mip_version a) (cc_ns a) (Some name)
       (cc_uid a) (cc_precision a) (cc_accuracy a) (cc_uuid a) (cc_origin a)))).

Definition bt_clock_class_set_uid (thread_error : bool) (cc : bt_clock_class) (uid : list Z)
    : option bt_clock_class :=
  let a := attrs cc in
  set_pre thread_error cc (BT_ASSERT_PRE (mip_version_ge cc 1)
    (Some (set_attrs cc (ClockClassAttrs (cc_address a) (cc_mip_version a) (cc_ns a) (cc_name a)
       (Some uid) (cc_precision a) (cc_accuracy a) (cc_uuid a) (cc_origin a))))).

Definition bt_clock_class_set_precision (cc : bt_clock_class) (precision : Z)
    : option bt_clock_class :=
  let a := attrs cc in
  set_pre false cc (BT_ASSERT_PRE (negb (precision =? UINT64_MAX))
    (Some (set_attrs cc (ClockClassAttrs (cc_address a) (cc_mip_version a) (cc_ns a) (cc_name a)
       (cc_uid a) (Some precision) (cc_accuracy a) (cc_uuid a) (cc_origin a))))).

Definition bt_clock_class_set_accuracy (thread_error : bool) (cc : bt_clock_class) (accuracy : Z)
    : option bt_clock_class :=
  let a := attrs cc in
  set_pre thread_error cc (BT_ASSERT_PRE (mip_version_ge cc 1)
    (BT_ASSERT_PRE (negb (accuracy =? UINT64_MAX))
      (Some (set_attrs cc (ClockClassAttrs (cc_address a) (cc_mip_version a) (cc_ns a) (cc_name a)
         (cc_uid a) (cc_precision a) (Some accuracy) (cc_uuid a) (cc_origin a)))))).

Definition bt_clock_class_set_uuid (cc : bt_clock_class) (uuid : list Z) : option bt_clock_class :=
  let a := attrs cc in
  set_pre false cc (BT_ASSERT_PRE (cc_mip_version a =? 0)
    (Some (set_attrs cc (ClockClassAttrs (cc_address a) (cc_mip_version a) (cc_ns a) (cc_name a)
       (cc_uid a) (cc_precision a) (cc_accuracy a) (Some uuid) (cc_origin a))))).

Definition set_cc_origin (cc : bt_clock_class) (origin : clock_origin) : bt_clock_class :=
  let a := attrs cc in
  set_attrs cc (ClockClassAttrs (cc_address a) (cc_mip_version a) (cc_ns a) (cc_name a) (cc_uid a)
    (cc_precision a) (cc_accuracy a) (cc_uuid a) origin).
Definition bt_clock_class_set_origin_unix_epoch (thread_error : bool) (cc : bt_clock_class)
    : option bt_clock_class := set_pre thread_error cc (Some (set_cc_origin cc UnixEpoch)).
Definition bt_clock_class_set_origin_unknown (thread_error : bool) (cc : bt_clock_class)
    : option bt_clock_class := set_pre thread_error cc (Some (set_cc_origin cc UnknownOrigin)).
Definition bt_clock_class_set_origin_is_unix_epoch (thread_error : bool) (cc : bt_clock_class)
    (origin_is_unix_epoch : bool) : option bt_clock_class :=
  set_pre thread_error cc
    (Some (set_cc_origin cc (if origin_is_unix_epoch then UnixEpoch else UnknownOrigin))).
Definition bt_clock_class_set_origin (thread_error : bool) (cc : bt_clock_class)
    (ns : option (list Z)) (name uid : list Z) : option bt_clock_class :=
  set_pre thread_error cc (BT_ASSERT_PRE (mip_version_ge cc 1)
    (Some (set_cc_origin cc (CustomOrigin ns name uid)))).

Definition bt_clock_class_origin_is_unix_epoch (cc : bt_clock_class) : bool :=
  match cc_origin (attrs cc) with UnixEpoch => true | _ => false end.
Definition bt_clock_class_origin_is_known (cc : bt_clock_class) : bool :=
  match cc_origin (attrs cc) with UnknownOrigin => false | _ => true end.

Definition bt_clock_class_has_same_identity (cc_a cc_b : bt_clock_class) : option bool :=
  BT_ASSERT_PRE (mip_version_ge cc_a 1) (BT_ASSERT_PRE (mip_version_ge cc_b 1)
    (Some (bool_decide (cc_ns (attrs cc_a) = cc_ns (attrs cc_b)) &&
       match cc_name (attrs cc_a), cc_name (attrs cc_b), cc_uid (attrs cc_a), cc_uid (attrs cc_b) with
       | Some na, Some nb, Some ua, Some ub => bool_decide (na = nb) && bool_decide (ua = ub)
       | _, _, _, _ => false
       end))).

Inductive clock_status := ClockOk | ClockOverflowError.

Definition bt_clock_class_cycles_to_ns_from_origin (cc : bt_clock_class) (cycles ns : Z)
    : option (clock_status * Z) :=
  do r <- bt_util_ns_from_origin_clock_class cc cycles ns;
  Some (if negb (fst r =? 0) then ClockOverflowError else ClockOk, snd r).

Definition bt_clock_class_clock_value_from_ns_from_origin
    (cc : bt_clock_class) (ns_from_origin raw_value : Z) : option (clock_status * Z) :=
  do r <- bt_common_clock_value_from_ns_from_origin (offset_seconds cc) (offset_cycles cc)
            (frequency cc) ns_from_origin raw_value;
  Some (if negb (fst r =? 0) then ClockOverflowError else ClockOk, snd r).

Record bt_clock_snapshot := BtClockSnapshot {
  clock_class : bt_clock_class;
  value_cycles : Z;
  ns_from_origin_overflows : bool;
  ns_from_origin : Z;
  is_set : bool
}.

(** A snapshot as its pool allocates it, zeroed. *)
Definition bt_clock_snapshot_new (cc : bt_clock_class) : bt_clock_snapshot :=
  BtClockSnapshot (_bt_clock_class_freeze cc) 0 false 0 false.

Definition bt_clock_snapshot_set (cs : bt_clock_snapshot) : bt_clock_snapshot :=
  BtClockSnapshot (clock_class cs) (value_cycles cs) (ns_from_origin_overflows cs)
    (ns_from_origin cs) true.
Definition bt_clock_snapshot_reset (cs : bt_clock_snapshot) : bt_clock_snapshot :=
  BtClockSnapshot (clock_class cs) (value_cycles cs) (ns_from_origin_overflows cs)
    (ns_from_origin cs) false.

Definition set_ns_from_origin (cs : bt_clock_snapshot) : option bt_clock_snapshot :=
  do r <- bt_util_ns_from_origin_clock_class (clock_class cs) (value_cycles cs)
            (ns_from_origin cs);
  Some (BtClockSnapshot (clock_class cs) (value_cycles cs)
          (if negb (fst r =? 0) then true else ns_from_origin_overflows cs)
          (snd r) (is_set cs)).

Definition bt_clock_snapshot_set_raw_value (cs : bt_clock_snapshot) (cycles : Z)
    : option bt_clock_snapshot :=
  do cs <- set_ns_from_origin (BtClockSnapshot (clock_class cs) cycles
             (ns_from_origin_overflows cs) (ns_from_origin cs) (is_set cs));
  Some (bt_clock_snapshot_set cs).

(** The status and [*ret_value_ns], which holds [ret_value_ns] at first. *)
Definition bt_clock_snapshot_get_ns_from_origin (cs : bt_clock_snapshot) (ret_value_ns : Z)
    : option (clock_status * Z) :=
  BT_ASSERT_DBG debug (is_set cs)
    (if ns_from_origin_overflows cs then Some (ClockOverflowError, ret_value_ns)
     else Some (ClockOk, ns_from_origin cs)).

End clock_class.

(** ** Number checks of utils.h *)

Definition bt_util_value_is_in_range_signed (size value : Z) : bool :=
  let min_value := wraps 64 (wrapu 64 (Z.shiftl UINT64_MAX (size - 1))) in
  let max_value := wraps 64 (wrapu 64 (Z.shiftl 1 (size - 1)) - 1) in
  (min_value <=? value) && (value <=? max_value).

Definition bt_util_value_is_in_range_unsigned (size value : Z) : bool :=
  let max_value := if size =? 64 then UINT64_MAX else wrapu 64 (wrapu 64 (Z.shiftl 1 size) - 1) in
  value <=? max_value.

(** One hour after the origin of a 3 GHz clock that starts 10.5 s before it. *)
Example clock_value_ex :
  bt_common_clock_value_from_ns_from_origin (-11) 1500000000 3000000000 3600000000000 0 =
    Some (0, 3610500000000 * 3).
Proof. vm_compute. reflexivity. Qed.

Example ns_from_value_ex : bt_util_ns_from_value 3000000000 1500000000 = Some 500000000.
Proof. vm_compute. reflexivity. Qed.

(** * Specification *)

(** The offset of a clock from its origin, in nanoseconds, rounded down. *)
Definition offset_ns (seconds cycles freq : Z) : Z :=
  seconds * NS_PER_S + cycles * NS_PER_S / freq.

(** What the functions keep true of a clock class: the offset in cycles is less
    than one second, and the base offset is that of the other members. *)
Definition clock_class_wf (debug : bool) (cc : bt_clock_class) : Prop :=
  0 <= offset_cycles cc < frequency cc /\ frequency cc < UINT64_MAX /\
  is_i64 (offset_seconds cc) /\ set_base_offset debug cc = Some cc.

(** * Lemmas *)

Lemma sint64_Some z : is_i64 z -> sint64 z = Some z.
Proof. unfold is_i64, sint64. intros [? ?]. by rewrite !(proj2 (Z.leb_le _ _)). Qed.

Lemma sint64_None z : ~ is_i64 z -> sint64 z = None.
Proof. unfold is_i64, sint64. intros Hz. destruct (_ && _) eqn:E; [|done]. b2p. tauto. Qed.

Lemma wraps64_small z : is_i64 z -> wraps 64 z = z.
Proof. unfold is_i64, INT64_MIN, INT64_MAX. intros. apply wraps_small; lia. Qed.

Ltac i64 := unfold is_i64, INT64_MIN, INT64_MAX in *; lia.

Lemma safe_mul_ns z : bt_safe_to_mul_int64 z NS_PER_S = true <-> z < 9223372036 \/ z = 0.
Proof.
  unfold bt_safe_to_mul_int64. change (NS_PER_S =? 0) with false. rewrite orb_false_r.
  change (Z.quot INT64_MAX NS_PER_S) with 9223372036.
  destruct (Z.eqb_spec z 0); lia.
Qed.

Lemma offset_cycles_to_ns_ok cycles freq :
  0 <= cycles < freq -> freq <= INT64_MAX ->
  offset_cycles_to_ns cycles freq = Some (Some (cycles * NS_PER_S / freq)) \/
  (offset_cycles_to_ns cycles freq = Some None /\ 9223372036 < freq).
Proof.
  intros Hc Hf. unfold offset_cycles_to_ns. rewrite !wraps64_small by i64.
  destruct (Z.eqb_spec freq NS_PER_S) as [-> |Hne].
  { left. rewrite Z.div_mul by done. done. }
  destruct (bt_safe_to_mul_int64 cycles NS_PER_S) eqn:Es; simpl.
  - left. apply safe_mul_ns in Es. unfold NS_PER_S in *.
    rewrite sint64_Some by i64. rewrite (proj2 (Z.eqb_neq _ 0)) by lia. simpl.
    rewrite Z.quot_div_nonneg by lia. rewrite sint64_Some; [done|].
    assert (0 <= cycles * 1000000000 / freq <= cycles * 1000000000); [|i64].
    split; [apply Z.div_pos; lia|]. apply Z.div_le_upper_bound; nia.
  - right. split; [done|]. pose proof (safe_mul_ns cycles) as Hs.
    destruct (Z.lt_ge_cases cycles 9223372036); [|lia].
    rewrite (proj2 Hs) in Es by lia. done.
Qed.

Lemma offset_cycles_less cycles freq :
  0 <= cycles < freq -> 0 <= cycles * NS_PER_S / freq < NS_PER_S.
Proof.
  intros. unfold NS_PER_S. split; [apply Z.div_pos; lia|]. apply Z.div_lt_upper_bound; nia.
Qed.

Lemma safe_mul_u64 a b : 0 <= a -> 0 <= b -> bt_safe_to_mul_uint64 a b = true -> a * b <= UINT64_MAX.
Proof.
  intros Ha Hb. unfold bt_safe_to_mul_uint64.
  destruct (Z.eqb_spec a 0) as [-> |]; [unfold UINT64_MAX; lia|].
  destruct (Z.eqb_spec b 0) as [-> |]; [unfold UINT64_MAX; lia|]. simpl. rewrite Z.ltb_lt. intros Hlt.
  pose proof (Z.mul_div_le UINT64_MAX b). nia.
Qed.

Lemma safe_mul_u64_false a b :
  0 <= a -> 0 < b -> bt_safe_to_mul_uint64 a b = false -> UINT64_MAX < (a + 1) * b.
Proof.
  intros Ha Hb. unfold bt_safe_to_mul_uint64. destruct (_ || _); [done|]. rewrite Z.ltb_ge. intros Hge.
  pose proof (Z.mul_succ_div_gt UINT64_MAX b Hb). nia.
Qed.

(** The status and value of the last part, with enough room or not. *)
Lemma raw_value_of_ns_ok freq v raw :
  0 < freq -> freq <= INT64_MAX -> 0 <= v ->
  raw_value_of_ns freq v raw = Some (0, v * freq / NS_PER_S) \/
  (raw_value_of_ns freq v raw = Some (-1, raw) /\
   (9223372036 < freq \/ 2 ^ 64 <= (v / NS_PER_S + 1) * freq)).
Proof.
  intros Hf Hmax Hv. unfold raw_value_of_ns. rewrite (proj2 (Z.eqb_neq freq 0)) by lia. cbn [negb].
  set (p := v / NS_PER_S). set (r := v - p * NS_PER_S).
  assert (Hr : 0 <= r < NS_PER_S) by (subst p r; unfold NS_PER_S; div_lia).
  assert (Hp : 0 <= p) by (apply Z.div_pos; [lia|done]).
  assert (Hv' : v * freq / NS_PER_S = freq * r / NS_PER_S + p * freq).
  { rewrite <- Z.div_add by done. f_equal. subst r. ring. }
  assert (Hm : UINT64_MAX = 2 ^ 64 - 1) by done.
  assert (Hfr : 0 <= freq * r / NS_PER_S < freq).
  { unfold NS_PER_S in *. split; [apply Z.div_pos; nia|]. apply Z.div_lt_upper_bound; nia. }
  destruct (Z.ltb_spec (UINT64_MAX / freq) p) as [Hlt|Hge].
  { right. split; [done|]. right. pose proof (Z.mul_succ_div_gt UINT64_MAX freq Hf). nia. }
  destruct (bt_safe_to_mul_uint64 p freq) eqn:E1; cbn [negb].
  2: { right. split; [done|]. apply safe_mul_u64_false in E1; lia. }
  apply safe_mul_u64 in E1; [|lia..].
  destruct (bt_safe_to_mul_uint64 freq r) eqn:E2; cbn [negb].
  2: { right. split; [done|]. left. apply Z.lt_nge. intros Hle.
       unfold bt_safe_to_mul_uint64 in E2. destruct (Z.eqb_spec r 0); [by rewrite orb_true_r in E2|].
       destruct (_ || _); [done|]. apply Z.ltb_ge in E2.
       assert (UINT64_MAX / 1000000000 <= UINT64_MAX / r) by (apply Z.div_le_compat_l; unfold NS_PER_S in *; [done|lia]).
       change (UINT64_MAX / 1000000000) with 18446744073 in *. lia. }
  apply safe_mul_u64 in E2; [|lia..].
  rewrite !(wrapu_small 64 (p * freq)), !(wrapu_small 64 (freq * r)) by nia.
  unfold bt_safe_to_add_uint64. rewrite (wrapu_small 64 (UINT64_MAX - _)) by nia.
  destruct (Z.leb_spec (freq * r / NS_PER_S) (UINT64_MAX - p * freq)); cbn [negb].
  - left. rewrite wrapu_small, Hv' by lia. done.
  - right. split; [done|]. right. nia.
Qed.

Lemma get_base_offset_1ghz debug seconds cycles old :
  0 <= cycles < NS_PER_S ->
  bt_util_get_base_offset_ns debug seconds cycles NS_PER_S old =
    if (-9223372037 <? seconds) && (seconds <? 9223372035)
    then Some (false, seconds * NS_PER_S + cycles) else Some (true, old).
Proof.
  intros Hc. unfold bt_util_get_base_offset_ns, bt_util_ns_from_value, NS_PER_S in *.
  change (Z.quot INT64_MIN 1000000000 - 1) with (-9223372037).
  change (Z.quot INT64_MAX 1000000000 - 1) with 9223372035.
  change (1000000000 =? 1000000000) with true.
  destruct (Z.leb_spec seconds (-9223372037)), (Z.leb_spec 9223372035 seconds),
    (Z.ltb_spec (-9223372037) seconds), (Z.ltb_spec seconds 9223372035); try lia; try done.
  simpl orb. cbv iota. rewrite (sint64_Some (seconds * _)) by i64. unfold BT_ASSERT_DBG.
  rewrite (proj2 (Z.ltb_lt cycles 1000000000)), andb_false_r by lia.
  rewrite wraps64_small, sint64_Some by i64. done.
Qed.

Lemma set_base_offset_idem debug cc cc' :
  set_base_offset debug cc = Some cc' -> set_base_offset debug cc' = Some cc'.
Proof.
  unfold set_base_offset. destruct (bt_util_get_base_offset_ns _ _ _ _ _) as [[o b]|] eqn:E; [|done].
  intros [= <-]. simpl. revert E. unfold bt_util_get_base_offset_ns, BT_ASSERT_DBG.
  destruct (_ || _).
  { by intros [= <- <-]. }
  destruct (sint64 (offset_seconds cc * _)); [|done]. destruct (debug && _); [done|].
  destruct (bt_util_ns_from_value _ _); [|done]. destruct (debug && _); [done|].
  destruct (sint64 _); [|done]. by intros [= <- <-].
Qed.

Lemma ns_from_origin_1ghz debug base v :
  is_i64 base -> 0 <= v <= UINT64_MAX ->
  bt_util_ns_from_origin_inline debug base NS_PER_S v =
    if (v <? INT64_MAX) && (base + v <=? INT64_MAX) then Some (0, base + v) else Some (-1, base).
Proof.
  intros Hb Hv. unfold bt_util_ns_from_origin_inline, bt_util_ns_from_value.
  change (NS_PER_S =? 1000000000) with true. cbv iota.
  destruct (Z.leb_spec INT64_MAX v), (Z.ltb_spec v INT64_MAX); try lia; [done|].
  rewrite wraps64_small by i64. unfold BT_ASSERT_DBG.
  rewrite (proj2 (Z.leb_le 0 v)), andb_false_r by lia. rewrite andb_true_l.
  destruct (Z.ltb_spec 0 base), (Z.ltb_spec (INT64_MAX - base) v), (Z.leb_spec (base + v) INT64_MAX);
    try lia; cbn [andb]; try done; try (by rewrite sint64_Some by i64); exfalso; i64.
Qed.

(** * Claims *)

(** The conversion of a time to a clock value is exact.  For a clock whose
    offset in cycles is less than a second and whose offset and the time are such
    that no signed computation overflows, it returns; on success, the time is at
    or after the clock's offset and the value is the number of whole cycles
    between them; an error leaves the value alone and means that the time is
    before the offset, that the value (rounded up to a second) does not fit 64
    bits, or that the offset or the frequency is beyond the function's range. *)
Theorem clock_value_from_ns_exact seconds cycles freq ns raw :
  0 <= cycles < freq -> freq <= INT64_MAX -> -9223372036 <= seconds -> is_i64 ns ->
  let off := offset_ns seconds cycles freq in
  ns - off <= INT64_MAX ->
  exists ret raw', bt_common_clock_value_from_ns_from_origin seconds cycles freq ns raw =
      Some (ret, raw') /\
    (ret = 0 /\ off <= ns /\ raw' = (ns - off) * freq / NS_PER_S \/
     ret = -1 /\ raw' = raw /\
     (ns < off \/ 9223372036 <= seconds \/ 9223372036 < freq \/
      2 ^ 64 <= ((ns - off) / NS_PER_S + 1) * freq)).
Proof.
  intros Hc Hf Hs Hns off Hoff. unfold bt_common_clock_value_from_ns_from_origin.
  pose proof (offset_cycles_less _ _ Hc) as Hless. pose proof (safe_mul_ns seconds) as Hmul.
  destruct (bt_safe_to_mul_int64 seconds NS_PER_S) eqn:Es; cbn [negb].
  2: { do 2 eexists. split; [done|]. right. repeat split. right. left.
       destruct (Z.lt_ge_cases seconds 9223372036); [|done].
       discriminate (proj2 Hmul ltac:(lia)). }
  assert (Hs2 : seconds < 9223372036) by (destruct (proj1 Hmul eq_refl); lia).
  rewrite (sint64_Some (seconds * NS_PER_S)) by (unfold NS_PER_S; i64).
  destruct (offset_cycles_to_ns_ok cycles freq Hc Hf) as [-> |[-> ?]].
  2: { do 2 eexists. split; [done|]. right. auto 10. }
  unfold bt_safe_to_add_int64. rewrite (sint64_Some (INT64_MAX - _)) by (unfold NS_PER_S in *; i64).
  change (seconds * NS_PER_S + cycles * NS_PER_S / freq) with off.
  destruct (Z.leb_spec (seconds * NS_PER_S) (INT64_MAX - cycles * NS_PER_S / freq)); cbn [negb].
  2: { exfalso. unfold NS_PER_S in *. i64. }
  assert (Hoff64 : is_i64 off) by (subst off; unfold offset_ns, NS_PER_S in *; i64).
  rewrite (sint64_Some off Hoff64).
  destruct (Z.ltb_spec ns off).
  { do 2 eexists. split; [done|]. auto 10. }
  rewrite (sint64_Some (ns - off)) by i64.
  destruct (raw_value_of_ns_ok freq (ns - off) raw) as [-> |[-> ?]]; [lia|done|lia| |];
    (do 2 eexists; split; [done|]); [by left|]. right. repeat split; try done. tauto.
Qed.

(** The check before the multiplication of the offset in seconds does not
    protect it when the offset is negative: for each offset in seconds below
    -9223372036, the check passes and the signed multiplication overflows. *)
Theorem clock_value_negative_offset_overflows seconds cycles freq ns raw :
  is_i64 seconds -> seconds < -9223372036 ->
  bt_safe_to_mul_int64 seconds NS_PER_S = true /\
  bt_common_clock_value_from_ns_from_origin seconds cycles freq ns raw = None.
Proof.
  intros Hi Hs. assert (Hm : bt_safe_to_mul_int64 seconds NS_PER_S = true) by (apply safe_mul_ns; lia).
  split; [done|]. unfold bt_common_clock_value_from_ns_from_origin. rewrite Hm. cbn [negb].
  rewrite sint64_None; [done|]. unfold NS_PER_S. i64.
Qed.

(** A well-formed clock class keeps being so: creating one, setting its
    frequency and setting its offset give, when their preconditions hold, a class
    whose base offset is the one of its members. *)
Theorem clock_class_invariant dev debug cc cc' f seconds cycles :
  clock_class_wf debug cc -> is_u64 f -> is_i64 seconds -> 0 <= cycles ->
  (exists new, bt_clock_class_create debug 1 0 = Some new /\ clock_class_wf debug new) /\
  (bt_clock_class_set_frequency dev debug cc f = Some cc' ->
   clock_class_wf debug cc' /\ frequency cc' = f /\ offset_seconds cc' = offset_seconds cc /\
   offset_cycles cc' = offset_cycles cc /\ f <> 0 /\ f <> UINT64_MAX /\ offset_cycles cc < f) /\
  (bt_clock_class_set_offset dev debug cc seconds cycles = Some cc' ->
   clock_class_wf debug cc' /\ frequency cc' = frequency cc /\ offset_seconds cc' = seconds /\
   offset_cycles cc' = cycles /\ cycles < frequency cc).
Proof.
  intros (Hoc & Hfr & Hsec & _) Hf Hs Hcy. unfold is_u64 in Hf. split; [|split].
  - exists (BtClockClass 1000000000 0 0 0 false false (ClockClassAttrs 1 0 None None None (Some 0) None None UnixEpoch)). destruct debug; (split; [by vm_compute|]);
      (split; [simpl; lia|split; [simpl; unfold UINT64_MAX; lia|split; [simpl; i64|by vm_compute]]]).
  - unfold bt_clock_class_set_frequency, BT_ASSERT_PRE_DEV, BT_ASSERT_PRE.
    destruct (dev && _); [done|]. destruct (negb (f =? UINT64_MAX) && negb (f =? 0)) eqn:E; [|done].
    destruct (Z.ltb_spec (offset_cycles cc) f); [|done]. intros Hset. b2p.
    pose proof (set_base_offset_idem _ _ _ Hset) as Hid.
    unfold set_base_offset in Hset. destruct (bt_util_get_base_offset_ns _ _ _ _ _) as [r|]; [|done].
    simpl in Hset. injection Hset as <-. unfold clock_class_wf. simpl.
    repeat split; lia || apply Hsec || done.
  - unfold bt_clock_class_set_offset, BT_ASSERT_PRE_DEV, BT_ASSERT_PRE.
    destruct (dev && _); [done|]. destruct (Z.ltb_spec cycles (frequency cc)); [|done]. intros Hset.
    pose proof (set_base_offset_idem _ _ _ Hset) as Hid.
    unfold set_base_offset in Hset. destruct (bt_util_get_base_offset_ns _ _ _ _ _) as [r|]; [|done].
    simpl in Hset. injection Hset as <-. unfold clock_class_wf. simpl.
    repeat split; lia || apply Hs || done.
Qed.

(** For a well-formed 1 GHz clock class whose offset is at least two seconds
    inside the range of nanoseconds, a time at or after its offset converts to a
    clock value that converts back to the same time, by the class and by a
    snapshot. *)
Theorem clock_roundtrip_1ghz debug cc ns raw old :
  clock_class_wf debug cc -> frequency cc = NS_PER_S ->
  -9223372037 < offset_seconds cc < 9223372035 ->
  let off := offset_ns (offset_seconds cc) (offset_cycles cc) (frequency cc) in
  is_i64 ns -> off <= ns -> ns - off < INT64_MAX ->
  exists v, bt_clock_class_clock_value_from_ns_from_origin cc ns raw = Some (ClockOk, v) /\
    bt_clock_class_cycles_to_ns_from_origin debug cc v old = Some (ClockOk, ns) /\
    exists cs, bt_clock_snapshot_set_raw_value debug (bt_clock_snapshot_new cc) v = Some cs /\
      bt_clock_snapshot_get_ns_from_origin debug cs old = Some (ClockOk, ns).
Proof.
  intros (Hc & _ & _ & Hb) Hf Hs off Hns Hle Hlt.
  assert (Hoff : off = offset_seconds cc * NS_PER_S + offset_cycles cc).
  { subst off. unfold offset_ns. rewrite Hf, Z.div_mul by done. done. }
  rewrite Hf in Hc. unfold set_base_offset in Hb. rewrite Hf, get_base_offset_1ghz in Hb by done.
  rewrite (proj2 (Z.ltb_lt _ _)), (proj2 (Z.ltb_lt _ _)) in Hb by lia. simpl in Hb.
  assert (Hov : base_offset_overflows cc = false).
  { pose proof (f_equal (option_map base_offset_overflows) Hb). simpl in *. congruence. }
  assert (Hbase : base_offset_value_ns cc = off).
  { pose proof (f_equal (option_map base_offset_value_ns) Hb). simpl in *. rewrite Hoff. congruence. }
  assert (Hoff64 : is_i64 off) by (rewrite Hoff; unfold NS_PER_S in *; i64).
  assert (Hto : forall o, bt_util_ns_from_origin_clock_class debug cc (ns - off) o = Some (0, ns)).
  { intros o. unfold bt_util_ns_from_origin_clock_class.
    rewrite Hov, Hbase, Hf, ns_from_origin_1ghz by (done || (unfold UINT64_MAX; i64)).
    rewrite (proj2 (Z.ltb_lt _ _)), (proj2 (Z.leb_le _ _)) by i64. cbn [andb]. do 2 f_equal. lia. }
  exists (ns - off). split; [|split].
  - unfold bt_clock_class_clock_value_from_ns_from_origin, bt_common_clock_value_from_ns_from_origin.
    rewrite (proj2 (safe_mul_ns _)) by lia. cbn [negb].
    rewrite sint64_Some by (unfold NS_PER_S; i64). unfold offset_cycles_to_ns. rewrite Hf.
    change (NS_PER_S =? NS_PER_S) with true. cbv iota.
    rewrite wraps64_small by (unfold NS_PER_S in *; i64). unfold bt_safe_to_add_int64.
    rewrite sint64_Some by (unfold NS_PER_S in *; i64).
    rewrite (proj2 (Z.leb_le _ _)) by (unfold NS_PER_S in *; i64). cbn [negb].
    rewrite <- Hoff, (sint64_Some off), (proj2 (Z.ltb_ge _ _)), sint64_Some by (done || i64).
    destruct (raw_value_of_ns_ok NS_PER_S (ns - off) raw) as [-> |[-> [?|Hbig]]];
      [done|done|lia| |done|].
    + rewrite Z.div_mul by done. done.
    + exfalso. unfold NS_PER_S in Hbig. revert Hbig. unfold INT64_MAX in Hlt. div_lia.
  - unfold bt_clock_class_cycles_to_ns_from_origin. rewrite Hto. done.
  - unfold bt_clock_snapshot_set_raw_value, set_ns_from_origin, bt_clock_snapshot_new. cbn [clock_class value_cycles].
    assert (Hfz : forall v o, bt_util_ns_from_origin_clock_class debug (_bt_clock_class_freeze cc) v o =
                         bt_util_ns_from_origin_clock_class debug cc v o).
    { intros. unfold _bt_clock_class_freeze. destruct (cc_frozen cc); done. }
    rewrite Hfz, Hto. eexists. split; [done|].
    unfold bt_clock_snapshot_get_ns_from_origin, BT_ASSERT_DBG. simpl. by rewrite andb_false_r.
Qed.

(** A clock snapshot that once overflowed reports an overflow for ever:
    neither resetting it, when it goes back to its pool, nor setting another
    value clears the mark, whatever the new value.  For instance, with a new
    clock class, a snapshot set to 2^64 - 1, recycled, then set to 5, has a time of
    5 ns by its class but its time is an overflow. *)
Theorem clock_snapshot_overflow_sticks debug :
  (forall cs cycles cs' old,
   ns_from_origin_overflows cs = true ->
   bt_clock_snapshot_set_raw_value debug (bt_clock_snapshot_reset cs) cycles = Some cs' ->
   bt_clock_snapshot_get_ns_from_origin debug cs' old = Some (ClockOverflowError, old)) /\
  exists cc cs cs', bt_clock_class_create debug 1 0 = Some cc /\
    bt_clock_snapshot_set_raw_value debug (bt_clock_snapshot_new cc) UINT64_MAX = Some cs /\
    bt_clock_snapshot_set_raw_value debug (bt_clock_snapshot_reset cs) 5 = Some cs' /\
    bt_clock_class_cycles_to_ns_from_origin debug (clock_class cs') (value_cycles cs') 0 =
      Some (ClockOk, 5) /\
    bt_clock_snapshot_get_ns_from_origin debug cs' 0 = Some (ClockOverflowError, 0).
Proof.
  split.
  - intros cs cycles cs' old Ho. unfold bt_clock_snapshot_set_raw_value, set_ns_from_origin.
    destruct (bt_util_ns_from_origin_clock_class _ _ _ _) as [[r n]|]; [|done]. simpl.
    intros [= <-]. unfold bt_clock_snapshot_get_ns_from_origin, BT_ASSERT_DBG. simpl.
    rewrite andb_false_r, Ho. by destruct (negb _).
  - destruct debug; do 3 eexists; repeat (split; [by vm_compute|]); by vm_compute.
Qed.

(** The number checks are those of the two's complement and binary ranges. *)
Lemma value_is_in_range_exact size v :
  1 <= size <= 64 ->
  (is_i64 v -> bt_util_value_is_in_range_signed size v = true <->
               - 2 ^ (size - 1) <= v < 2 ^ (size - 1)) /\
  (0 <= v <= UINT64_MAX -> bt_util_value_is_in_range_unsigned size v = true <-> v < 2 ^ size).
Proof.
  intros Hs. assert (Hall : forallb (fun s =>
    (wraps 64 (wrapu 64 (Z.shiftl UINT64_MAX (s - 1))) =? - 2 ^ (s - 1)) &&
    (wraps 64 (wrapu 64 (Z.shiftl 1 (s - 1)) - 1) =? 2 ^ (s - 1) - 1) &&
    ((if s =? 64 then UINT64_MAX else wrapu 64 (wrapu 64 (Z.shiftl 1 s) - 1)) =? 2 ^ s - 1))
    (seqZ 1 64) = true) by (by vm_compute).
  rewrite forallb_forall in Hall. specialize (Hall size).
  rewrite <- list_elem_of_In, elem_of_seqZ in Hall. specialize (Hall ltac:(lia)). b2p.
  unfold bt_util_value_is_in_range_signed, bt_util_value_is_in_range_unsigned. split; intros Hv; lia.
Qed.

(** The offset in cycles can round up to a whole second for very high frequencies,
    so that the debug assertion that it is less than one second fails. *)
Example base_offset_rounds_up :
  bt_util_get_base_offset_ns true 0 (2 ^ 62 - 1) (2 ^ 62) 0 = None /\
  bt_util_get_base_offset_ns false 0 (2 ^ 62 - 1) (2 ^ 62) 0 = Some (false, NS_PER_S).
Proof. split; vm_compute; reflexivity. Qed.

(** * Witnesses *)

Lemma clock_value_from_ns_exact_witness :
  is_i64 3600000000000 /\
  exists ret raw', bt_common_clock_value_from_ns_from_origin (-11) 1500000000 3000000000
      3600000000000 0 = Some (ret, raw') /\ ret = 0.
Proof.
  split; [i64|].
  destruct (clock_value_from_ns_exact (-11) 1500000000 3000000000 3600000000000 0)
    as (ret & raw' & Hf & H); [lia|i64|lia|i64|vm_compute; discriminate|].
  exists ret, raw'. split; [exact Hf|]. vm_compute in Hf. by injection Hf.
Defined.

Lemma clock_value_negative_offset_overflows_witness :
  is_i64 (-9223372037) /\ bt_common_clock_value_from_ns_from_origin (-9223372037) 0 1000 0 0 = None.
Proof.
  split; [i64|]. apply (clock_value_negative_offset_overflows (-9223372037) 0 1000 0 0); [i64|lia].
Defined.

(** A 1 GHz clock that starts 10.5 s after its origin. *)
Definition ex_attrs : clock_class_attrs :=
  ClockClassAttrs 1 0 None None None (Some 0) None None UnixEpoch.
Definition ex_clock : bt_clock_class :=
  BtClockClass NS_PER_S 10 500000000 10500000000 false false ex_attrs.

Lemma ex_clock_wf debug : clock_class_wf debug ex_clock.
Proof.
  destruct debug; (split; [vm_compute; by split|split; [by vm_compute|split; [|by vm_compute]]]);
    simpl; i64.
Qed.

Lemma clock_class_invariant_witness :
  clock_class_wf true ex_clock /\
  exists cc', bt_clock_class_set_frequency true true ex_clock 3000000000 = Some cc' /\
    clock_class_wf true cc'.
Proof.
  split; [apply ex_clock_wf|].
  destruct (bt_clock_class_set_frequency true true ex_clock 3000000000) as [cc'|] eqn:E;
    [|vm_compute in E; discriminate].
  exists cc'. split; [done|].
  destruct (clock_class_invariant true true ex_clock cc' 3000000000 0 0) as (_ & Hset & _);
    [apply ex_clock_wf|unfold is_u64, UINT64_MAX; lia|i64|lia|exact (proj1 (Hset E))].
Defined.

Lemma clock_roundtrip_1ghz_witness :
  clock_class_wf true ex_clock /\
  exists v, bt_clock_class_clock_value_from_ns_from_origin ex_clock 20000000000 0 = Some (ClockOk, v) /\
    bt_clock_class_cycles_to_ns_from_origin true ex_clock v 0 = Some (ClockOk, 20000000000).
Proof.
  split; [apply ex_clock_wf|].
  destruct (clock_roundtrip_1ghz true ex_clock 20000000000 0 0 (ex_clock_wf true) eq_refl)
    as (v & Hv & Hn & _); [vm_compute; by split|i64|vm_compute; discriminate|by vm_compute|].
  exists v. split; [exact Hv|exact Hn].
Defined.
