(* ===== verification/Field.v ===== *)
(** Fields: [src/src/lib/trace-ir/field.c] and [field.h].

    A field owns its subfields and nothing else points to them, but for the selected field
    of an option or a variant, which is one of them: a field is a tree, and a field that is
    borrowed is a path in it.  Its class is in the store of [IrObj].  [dev] tells whether
    the library is built in developer mode, in which it keeps which fields are set and
    frozen, and [debug] in debug mode; no error is pending in the current thread;
    allocations succeed.  A string is a list of characters.  BLOB fields are left out. *)

From stdpp Require Import list gmap.
From Stdlib Require Import SpecFloat.
From S2P Require Import Prelude Object IntRange IrObj FieldClass Clock.

(** * Data *)

Record field_common := FieldCommon { field_class : addr; field_is_set : bool; field_frozen : bool }.

#[local] Set Warnings "-register-all".

(** What a field without subfields has besides [struct bt_field].  The union of an integer
    field is its 64 bits. *)
Inductive single_value :=
| BoolField (value : bool)
| BitArrayField (value_as_int : Z)
| IntegerField (value : Z)
| RealField (value : spec_float)
| StringField (buf : list Z) (length : Z).

(** A selected field is [content_field], or the option at [selected_index]. *)
Inductive bt_field :=
| SingleField (c : field_common) (v : single_value)
| StructureField (c : field_common) (fields : list bt_field)
| OptionField (c : field_common) (content_field : bt_field) (selected_field : bool)
| VariantField (c : field_common) (fields : list bt_field) (selected_field : bool) (selected_index : Z)
| ArrayField (c : field_common) (fields : list bt_field) (length : Z).

Definition common (f : bt_field) : field_common :=
  match f with SingleField c _ | StructureField c _ | OptionField c _ _ | VariantField c _ _ _ | ArrayField c _ _ => c end.
Definition with_common (f : bt_field) (c : field_common) : bt_field :=
  match f with
  | SingleField _ v => SingleField c v
  | StructureField _ fields => StructureField c fields
  | OptionField _ content_field selected => OptionField c content_field selected
  | VariantField _ fields selected index => VariantField c fields selected index
  | ArrayField _ fields length => ArrayField c fields length
  end.
Definition subfields (f : bt_field) : list bt_field :=
  match f with
  | SingleField _ _ => []
  | StructureField _ fields | VariantField _ fields _ _ | ArrayField _ fields _ => fields
  | OptionField _ content_field _ => [content_field]
  end.
(** The field with its subfield at [i] changed. *)
Definition with_subfield (f : bt_field) (i : nat) (s : bt_field) : bt_field :=
  match f with
  | SingleField c v => SingleField c v
  | StructureField c fields => StructureField c (<[i := s]> fields)
  | OptionField c content_field selected => OptionField c (if bool_decide (i = 0%nat) then s else content_field) selected
  | VariantField c fields selected index => VariantField c (<[i := s]> fields) selected index
  | ArrayField c fields length => ArrayField c (<[i := s]> fields) length
  end.

(** The field at a path, and a change of it. *)
Fixpoint field_at (f : bt_field) (p : list nat) : option bt_field :=
  match p with [] => Some f | i :: p => do s <- subfields f !! i; field_at s p end.
Fixpoint update_at (f : bt_field) (p : list nat) (op : bt_field -> option bt_field) : option bt_field :=
  match p with
  | [] => op f
  | i :: p => do s <- subfields f !! i; do s <- update_at s p op; Some (with_subfield f i s)
  end.

(** * Setting, resetting and freezing *)

Fixpoint _bt_field_is_set (f : bt_field) : option bool :=
  match f with
  | SingleField c _ => Some (field_is_set c)
  | StructureField _ fields =>
    (fix all (l : list bt_field) : option bool :=
       match l with [] => Some true | s :: l => do b <- _bt_field_is_set s; if b : bool then all l else Some false end) fields
  | OptionField _ content_field selected => if selected then _bt_field_is_set content_field else Some false
  | VariantField _ fields selected index =>
    if selected then
      (fix at_index (l : list bt_field) (i : nat) : option bool :=
         match l, i with [], _ => None | s :: _, O => _bt_field_is_set s | _ :: l, S i => at_index l i end) fields (Z.to_nat index)
    else Some false
  | ArrayField _ fields length =>
    (fix all (l : list bt_field) (n : nat) : option bool :=
       match n, l with
       | O, _ => Some true
       | S _, [] => None
       | S n, s :: l => do b <- _bt_field_is_set s; if b : bool then all l n else Some false
       end) fields (Z.to_nat length)
  end.

Definition with_is_set (c : field_common) (b : bool) : field_common := FieldCommon (field_class c) b (field_frozen c).
Definition with_field_frozen (c : field_common) (b : bool) : field_common := FieldCommon (field_class c) (field_is_set c) b.

Fixpoint _bt_field_reset (f : bt_field) : bt_field :=
  match f with
  | SingleField c v => SingleField (with_is_set c false) v
  | StructureField c fields => StructureField c (map _bt_field_reset fields)
  | OptionField c content_field _ => OptionField c (_bt_field_reset content_field) false
  | VariantField c fields selected index => VariantField c (map _bt_field_reset fields) selected index
  | ArrayField c fields length => ArrayField c (map _bt_field_reset fields) length
  end.

Fixpoint _bt_field_set_is_frozen (is_frozen : bool) (f : bt_field) : bt_field :=
  match f with
  | SingleField c v => SingleField (with_field_frozen c is_frozen) v
  | StructureField c fields => StructureField (with_field_frozen c is_frozen) (map (_bt_field_set_is_frozen is_frozen) fields)
  | OptionField c content_field selected => OptionField (with_field_frozen c is_frozen) (_bt_field_set_is_frozen is_frozen content_field) selected
  | VariantField c fields selected index =>
    VariantField (with_field_frozen c is_frozen) (map (_bt_field_set_is_frozen is_frozen) fields) selected index
  | ArrayField c fields length => ArrayField (with_field_frozen c is_frozen) (map (_bt_field_set_is_frozen is_frozen) fields) length
  end.

(** The conversions of a [float] to a [double] and back. *)
Definition double_of_float (v : spec_float) : spec_float :=
  match v with S754_finite s m e => binary_normalize 53 1024 (cond_Zopp s (Zpos m)) e s | _ => v end.
Definition float_of_double (v : spec_float) : spec_float :=
  match v with S754_finite s m e => binary_normalize 24 128 (cond_Zopp s (Zpos m)) e s | _ => v end.

Section ops.
Context (dev debug : bool).

Definition bt_field_reset (f : bt_field) : bt_field := if dev then _bt_field_reset f else f.
Definition bt_field_set_is_frozen (f : bt_field) (is_frozen : bool) : bt_field := if dev then _bt_field_set_is_frozen is_frozen f else f.
Definition bt_field_set_single (c : field_common) (value : bool) : field_common := if dev then with_is_set c value else c.

(** * Creating and destroying *)

Fixpoint create_all (create : ir -> addr -> option (bt_field * ir)) (l : list addr) (h : ir) : option (list bt_field * ir) :=
  match l with
  | [] => Some ([], h)
  | a :: l => do (f, h) <- create h a; do (fs, h) <- create_all create l h; Some (f :: fs, h)
  end.

Definition is_integer_type (type : Z) : bool :=
  bool_decide (type ∈ [BT_FIELD_CLASS_TYPE_UNSIGNED_INTEGER; BT_FIELD_CLASS_TYPE_SIGNED_INTEGER;
                       BT_FIELD_CLASS_TYPE_UNSIGNED_ENUMERATION; BT_FIELD_CLASS_TYPE_SIGNED_ENUMERATION]).
Definition is_real_type (type : Z) : bool :=
  bool_decide (type ∈ [BT_FIELD_CLASS_TYPE_SINGLE_PRECISION_REAL; BT_FIELD_CLASS_TYPE_DOUBLE_PRECISION_REAL]).
Definition is_dynamic_array_type (type : Z) : bool :=
  bool_decide (type ∈ [BT_FIELD_CLASS_TYPE_DYNAMIC_ARRAY_WITHOUT_LENGTH_FIELD; BT_FIELD_CLASS_TYPE_DYNAMIC_ARRAY_WITH_LENGTH_FIELD]).
Definition is_array_type (type : Z) : bool := (type =? BT_FIELD_CLASS_TYPE_STATIC_ARRAY) || is_dynamic_array_type type.
Definition is_option_type (type : Z) : bool :=
  bool_decide (type ∈ [BT_FIELD_CLASS_TYPE_OPTION_WITHOUT_SELECTOR_FIELD; BT_FIELD_CLASS_TYPE_OPTION_WITH_BOOL_SELECTOR_FIELD;
                       BT_FIELD_CLASS_TYPE_OPTION_WITH_UNSIGNED_INTEGER_SELECTOR_FIELD;
                       BT_FIELD_CLASS_TYPE_OPTION_WITH_SIGNED_INTEGER_SELECTOR_FIELD]).
Definition is_variant_type (type : Z) : bool :=
  bool_decide (type ∈ [BT_FIELD_CLASS_TYPE_VARIANT_WITHOUT_SELECTOR_FIELD;
                       BT_FIELD_CLASS_TYPE_VARIANT_WITH_UNSIGNED_INTEGER_SELECTOR_FIELD;
                       BT_FIELD_CLASS_TYPE_VARIANT_WITH_SIGNED_INTEGER_SELECTOR_FIELD]).

(** [fuel] is more than the depth of the tree of the class [fc].  GLib's arrays have their
    sizes in a [gint]. *)
Fixpoint bt_field_create (fuel : nat) (h : ir) (fc : addr) : option (bt_field * ir) :=
  match fuel with
  | O => None
  | S fuel =>
    do c <- get_fc h fc;
    let common := FieldCommon fc false false in
    do h <- get_ref debug h fc;
    if fc_type c =? BT_FIELD_CLASS_TYPE_BOOL then Some (SingleField common (BoolField false), h)
    else if fc_type c =? BT_FIELD_CLASS_TYPE_BIT_ARRAY then Some (SingleField common (BitArrayField 0), h)
    else if is_integer_type (fc_type c) then Some (SingleField common (IntegerField 0), h)
    else if is_real_type (fc_type c) then Some (SingleField common (RealField (S754_zero false)), h)
    else if fc_type c =? BT_FIELD_CLASS_TYPE_STRING then Some (SingleField common (StringField [0] 0), h)
    else if fc_type c =? BT_FIELD_CLASS_TYPE_STRUCTURE then
      match fc_data c with
      | ContainerContents _ named_fcs _ =>
        do (fields, h) <- create_all (bt_field_create fuel) (map nf_fc named_fcs) h; Some (StructureField common fields, h)
      | _ => None
      end
    else if fc_type c =? BT_FIELD_CLASS_TYPE_STATIC_ARRAY then
      match fc_data c with
      | StaticArrayContents element_fc length =>
        guard_ub (length <? 2 ^ 31);
        do (fields, h) <- create_all (bt_field_create fuel) (replicate (Z.to_nat length) element_fc) h;
        Some (ArrayField common fields length, h)
      | _ => None
      end
    else if is_dynamic_array_type (fc_type c) then Some (ArrayField common [] 0, h)
    else if is_option_type (fc_type c) then
      match fc_data c with
      | OptionContents content_fc _ _ _ => do (content, h) <- bt_field_create fuel h content_fc; Some (OptionField common content false, h)
      | _ => None
      end
    else if is_variant_type (fc_type c) then
      match fc_data c with
      | ContainerContents _ named_fcs _ =>
        do (fields, h) <- create_all (bt_field_create fuel) (map nf_fc named_fcs) h; Some (VariantField common fields false 0, h)
      | _ => None
      end
    else None
  end.

(** [destroy_*_field]: the class first, then the subfields. *)
Section destroy.
Context (call : func -> addr -> ir -> option ir).
Fixpoint bt_field_destroy (f : bt_field) (h : ir) : option ir :=
  let destroy_all := (fix destroy_all (l : list bt_field) (h : ir) : option ir :=
    match l with [] => Some h | s :: l => do h <- bt_field_destroy s h; destroy_all l h end) in
  do h <- put_ref debug call h (Some (field_class (common f)));
  match f with
  | SingleField _ _ => Some h
  | StructureField _ fields | VariantField _ fields _ _ | ArrayField _ fields _ => destroy_all fields h
  | OptionField _ content_field _ => bt_field_destroy content_field h
  end.
End destroy.

(** * Values *)

Definition type_of (h : ir) (f : bt_field) : option Z := do c <- get_fc h (field_class (common f)); Some (fc_type c).

(** The preconditions of developer mode: the type of the class, the field is set, it is not
    frozen. *)
Definition BT_ASSERT_PRE_DEV_FIELD_TYPE {A} (h : ir) (f : bt_field) (check : Z -> bool) (k : option A) : option A :=
  do type <- type_of h f; BT_ASSERT_PRE_DEV dev (check type) k.
Definition BT_ASSERT_PRE_DEV_FIELD_IS_SET {A} (f : bt_field) (k : option A) : option A :=
  if dev then do b <- _bt_field_is_set f; guard_ub b; k else k.
Definition BT_ASSERT_PRE_DEV_FIELD_HOT {A} (f : bt_field) (k : option A) : option A :=
  BT_ASSERT_PRE_DEV dev (negb (field_frozen (common f))) k.

Definition is_signed_type (type : Z) : bool :=
  bool_decide (type ∈ [BT_FIELD_CLASS_TYPE_SIGNED_INTEGER; BT_FIELD_CLASS_TYPE_SIGNED_ENUMERATION]).
Definition is_unsigned_type (type : Z) : bool :=
  bool_decide (type ∈ [BT_FIELD_CLASS_TYPE_UNSIGNED_INTEGER; BT_FIELD_CLASS_TYPE_UNSIGNED_ENUMERATION]).

(** A getter of a field without subfields. *)
Definition get_single {A} (h : ir) (f : bt_field) (check : Z -> bool) (get : single_value -> option A) : option A :=
  BT_ASSERT_PRE_DEV_FIELD_IS_SET f
    (BT_ASSERT_PRE_DEV_FIELD_TYPE h f check (match f with SingleField _ v => get v | _ => None end)).
(** A setter of one, whose class is not needed. *)
Definition set_single (h : ir) (f : bt_field) (check : Z -> bool) (set : single_value -> option single_value) : option bt_field :=
  BT_ASSERT_PRE_DEV_FIELD_TYPE h f check
    (BT_ASSERT_PRE_DEV_FIELD_HOT f
      match f with SingleField c v => do v <- set v; Some (SingleField (bt_field_set_single c true) v) | _ => None end).

Definition bt_field_bool_get_value (h : ir) (f : bt_field) : option bool :=
  get_single h f (Z.eqb BT_FIELD_CLASS_TYPE_BOOL) (fun v => match v with BoolField b => Some b | _ => None end).
Definition bt_field_bool_set_value (h : ir) (f : bt_field) (value : bool) : option bt_field :=
  set_single h f (Z.eqb BT_FIELD_CLASS_TYPE_BOOL) (fun v => match v with BoolField _ => Some (BoolField value) | _ => None end).

Definition bt_field_bit_array_get_value_as_integer (h : ir) (f : bt_field) : option Z :=
  get_single h f (Z.eqb BT_FIELD_CLASS_TYPE_BIT_ARRAY) (fun v => match v with BitArrayField z => Some z | _ => None end).
Definition bt_field_bit_array_set_value_as_integer (h : ir) (f : bt_field) (value : Z) : option bt_field :=
  do c <- get_fc h (field_class (common f));
  set_single h f (Z.eqb BT_FIELD_CLASS_TYPE_BIT_ARRAY) (fun v =>
    match v, fc_data c with
    | BitArrayField _, BitArrayContents length _ =>
      Some (BitArrayField (if length <? 64 then Z.land value (wrapu 64 (Z.shiftl 1 length) - 1) else value))
    | _, _ => None
    end).
Definition bt_field_bit_array_get_active_flag_labels (h : ir) (f : bt_field) : option (list (list Z)) :=
  do value <- bt_field_bit_array_get_value_as_integer h f;
  bt_field_class_bit_array_get_active_flag_labels_for_value_as_integer dev h (field_class (common f)) value.

(** The range of the values of an integer field class. *)
Definition integer_range (c : bt_field_class) : option Z :=
  match fc_data c with IntegerContents range _ _ | EnumerationContents range _ _ _ => Some range | _ => None end.
Definition set_integer (h : ir) (f : bt_field) (check : Z -> bool) (in_range : Z -> Z -> bool) (value : Z) : option bt_field :=
  do c <- get_fc h (field_class (common f));
  set_single h f check (fun v =>
    match v with
    | IntegerField _ =>
      if dev then do range <- integer_range c; guard_ub in_range range value; Some (IntegerField (wrapu 64 value))
      else Some (IntegerField (wrapu 64 value))
    | _ => None
    end).

Definition bt_field_integer_signed_get_value (h : ir) (f : bt_field) : option Z :=
  get_single h f is_signed_type (fun v => match v with IntegerField z => Some (wraps 64 z) | _ => None end).
Definition bt_field_integer_signed_set_value (h : ir) (f : bt_field) (value : Z) : option bt_field :=
  set_integer h f is_signed_type bt_util_value_is_in_range_signed value.
Definition bt_field_integer_unsigned_get_value (h : ir) (f : bt_field) : option Z :=
  get_single h f is_unsigned_type (fun v => match v with IntegerField z => Some z | _ => None end).
Definition bt_field_integer_unsigned_set_value (h : ir) (f : bt_field) (value : Z) : option bt_field :=
  set_integer h f is_unsigned_type bt_util_value_is_in_range_unsigned value.

Definition bt_field_real_single_precision_get_value (h : ir) (f : bt_field) : option spec_float :=
  get_single h f (Z.eqb BT_FIELD_CLASS_TYPE_SINGLE_PRECISION_REAL) (fun v => match v with RealField d => Some (float_of_double d) | _ => None end).
Definition bt_field_real_double_precision_get_value (h : ir) (f : bt_field) : option spec_float :=
  get_single h f (Z.eqb BT_FIELD_CLASS_TYPE_DOUBLE_PRECISION_REAL) (fun v => match v with RealField d => Some d | _ => None end).
Definition bt_field_real_single_precision_set_value (h : ir) (f : bt_field) (value : spec_float) : option bt_field :=
  set_single h f (Z.eqb BT_FIELD_CLASS_TYPE_SINGLE_PRECISION_REAL)
    (fun v => match v with RealField _ => Some (RealField (double_of_float value)) | _ => None end).
Definition bt_field_real_double_precision_set_value (h : ir) (f : bt_field) (value : spec_float) : option bt_field :=
  set_single h f (Z.eqb BT_FIELD_CLASS_TYPE_DOUBLE_PRECISION_REAL)
    (fun v => match v with RealField _ => Some (RealField value) | _ => None end).

Definition bt_field_enumeration_unsigned_get_mapping_labels (h : ir) (f : bt_field) : option (list (list Z)) :=
  do value <- get_single h f (Z.eqb BT_FIELD_CLASS_TYPE_UNSIGNED_ENUMERATION) (fun v => match v with IntegerField z => Some z | _ => None end);
  bt_field_class_enumeration_unsigned_get_mapping_labels_for_value dev h (field_class (common f)) value.
Definition bt_field_enumeration_signed_get_mapping_labels (h : ir) (f : bt_field) : option (list (list Z)) :=
  do value <- get_single h f (Z.eqb BT_FIELD_CLASS_TYPE_SIGNED_ENUMERATION) (fun v => match v with IntegerField z => Some (wraps 64 z) | _ => None end);
  bt_field_class_enumeration_signed_get_mapping_labels_for_value dev h (field_class (common f)) value.

(** ** Strings *)

Definition bt_field_string_get_value (h : ir) (f : bt_field) : option (list Z) :=
  get_single h f (Z.eqb BT_FIELD_CLASS_TYPE_STRING) (fun v => match v with StringField buf _ => Some (cstr_of buf) | _ => None end).
Definition bt_field_string_get_length (h : ir) (f : bt_field) : option Z :=
  get_single h f (Z.eqb BT_FIELD_CLASS_TYPE_STRING) (fun v => match v with StringField _ length => Some length | _ => None end).

Definition clear_string_field (f : bt_field) : option bt_field :=
  match f with
  | SingleField c (StringField buf _) =>
    guard_ub (0 <? Z.of_nat (length buf)); Some (SingleField (bt_field_set_single c true) (StringField (<[0%nat := 0]> buf) 0))
  | _ => None
  end.

(** [value] has at least [len] characters.  GLib's [g_array_set_size] takes a [guint]; the
    characters that it adds are not set: they are those of [garbage]. *)
Definition append_to_string_field_with_length (garbage : nat -> Z) (f : bt_field) (value : list Z) (len : Z) : option bt_field :=
  match f with
  | SingleField c (StringField buf length) =>
    guard_ub ((0 <=? len) && (len <=? Z.of_nat (Datatypes.length value)));
    let new_length := wrapu 64 (len + length) in
    let size := wrapu 64 (new_length + 1) in
    let buf := if Z.of_nat (Datatypes.length buf) <? size
               then let size := Z.to_nat (wrapu 32 size) in take size (buf ++ map garbage (seq (Datatypes.length buf) (size - Datatypes.length buf))) else buf in
    guard_ub ((new_length <? Z.of_nat (Datatypes.length buf)) && (length + len <=? Z.of_nat (Datatypes.length buf)));
    let buf := list_inserts (Z.to_nat length) (take (Z.to_nat len) value) buf in
    Some (SingleField (bt_field_set_single c true) (StringField (<[Z.to_nat new_length := 0]> buf) new_length))
  | _ => None
  end.

Definition bt_field_string_append_with_length (garbage : nat -> Z) (h : ir) (f : bt_field) (value : list Z) (len : Z) : option bt_field :=
  BT_ASSERT_PRE_DEV_FIELD_HOT f
    (BT_ASSERT_PRE_DEV_FIELD_TYPE h f (Z.eqb BT_FIELD_CLASS_TYPE_STRING)
      (BT_ASSERT_PRE_DEV dev (bool_decide (0 ∉ take (Z.to_nat len) value))
        (append_to_string_field_with_length garbage f value len))).
(** [value] is the C string without its null character. *)
Definition bt_field_string_append (garbage : nat -> Z) (h : ir) (f : bt_field) (value : list Z) : option bt_field :=
  bt_field_string_append_with_length garbage h f value (Z.of_nat (length value)).
Definition bt_field_string_set_value (garbage : nat -> Z) (h : ir) (f : bt_field) (value : list Z) : option bt_field :=
  BT_ASSERT_PRE_DEV_FIELD_HOT f
    (BT_ASSERT_PRE_DEV_FIELD_TYPE h f (Z.eqb BT_FIELD_CLASS_TYPE_STRING)
      (do f <- clear_string_field f; bt_field_string_append_with_length garbage h f value (Z.of_nat (length value)))).
Definition bt_field_string_clear (h : ir) (f : bt_field) : option bt_field :=
  BT_ASSERT_PRE_DEV_FIELD_HOT f (BT_ASSERT_PRE_DEV_FIELD_TYPE h f (Z.eqb BT_FIELD_CLASS_TYPE_STRING) (clear_string_field f)).

(** ** Subfields: the borrowing functions give the position of the subfield. *)

Definition bt_field_array_get_length (h : ir) (f : bt_field) : option Z :=
  BT_ASSERT_PRE_DEV_FIELD_TYPE h f is_array_type (match f with ArrayField _ _ length => Some length | _ => None end).

Section destroy_elements.
Context (call : func -> addr -> ir -> option ir).
Fixpoint destroy_elements (l : list bt_field) (h : ir) : option ir :=
  match l with [] => Some h | f :: l => do h <- bt_field_destroy call f h; destroy_elements l h end.

(** GLib's [g_ptr_array_set_size] takes a [gint] and destroys the elements that it removes. *)
Definition bt_field_array_dynamic_set_length (fuel : nat) (h : ir) (f : bt_field) (len : Z) : option (bt_field * ir) :=
  BT_ASSERT_PRE_DEV_FIELD_TYPE h f is_dynamic_array_type
    (BT_ASSERT_PRE_DEV_FIELD_HOT f
      match f with
      | ArrayField c fields _ =>
        if Z.of_nat (length fields) <? len then
          guard_ub (0 <=? wraps 32 len);
          let size := Z.to_nat (wraps 32 len) in
          do fc <- get_fc h (field_class c);
          match fc_data fc with
          | DynamicArrayContents element_fc _ =>
            do h <- destroy_elements (drop size fields) h;
            do (new, h) <- create_all (bt_field_create fuel) (replicate (size - length fields) element_fc) h;
            Some (ArrayField c (take size fields ++ new) len, h)
          | _ => None
          end
        else Some (ArrayField c fields len, h)
      | _ => None
      end).
End destroy_elements.

Definition bt_field_array_borrow_element_field_by_index (h : ir) (f : bt_field) (index : Z) : option nat :=
  BT_ASSERT_PRE_DEV_FIELD_TYPE h f is_array_type
    match f with
    | ArrayField _ fields len =>
      BT_ASSERT_PRE_DEV dev (index <? len)
        (guard_ub ((0 <=? index) && (index <? Z.of_nat (length fields))); Some (Z.to_nat index))
    | _ => None
    end.
Definition bt_field_structure_borrow_member_field_by_index (h : ir) (f : bt_field) (index : Z) : option nat :=
  BT_ASSERT_PRE_DEV_FIELD_TYPE h f (Z.eqb BT_FIELD_CLASS_TYPE_STRUCTURE)
    match f with
    | StructureField _ fields =>
      BT_ASSERT_PRE_DEV dev (index <? Z.of_nat (length fields))
        (guard_ub ((0 <=? index) && (index <? Z.of_nat (length fields))); Some (Z.to_nat index))
    | _ => None
    end.
(** [Some None] when no member has the name. *)
Definition bt_field_structure_borrow_member_field_by_name (h : ir) (f : bt_field) (name : list Z) : option (option nat) :=
  BT_ASSERT_PRE_DEV_FIELD_TYPE h f (Z.eqb BT_FIELD_CLASS_TYPE_STRUCTURE)
    (do c <- get_fc h (field_class (common f));
     match f, fc_data c with
     | StructureField _ fields, ContainerContents name_to_index _ _ =>
       match name_to_index !! name with
       | None => Some None
       | Some index => guard_ub (Z.of_nat index <? Z.of_nat (length fields)); Some (Some index)
       end
     | _, _ => None
     end).

Definition bt_field_option_set_has_field (h : ir) (f : bt_field) (has_field : bool) : option bt_field :=
  BT_ASSERT_PRE_DEV_FIELD_TYPE h f is_option_type
    (BT_ASSERT_PRE_DEV_FIELD_HOT f
      match f with OptionField c content_field _ => Some (OptionField c content_field has_field) | _ => None end).
Definition bt_field_option_borrow_field (h : ir) (f : bt_field) : option (option nat) :=
  BT_ASSERT_PRE_DEV_FIELD_TYPE h f is_option_type
    match f with OptionField _ _ selected => Some (if selected then Some 0%nat else None) | _ => None end.

Definition has_selected_field (f : bt_field) : bool :=
  match f with OptionField _ _ selected | VariantField _ _ selected _ => selected | _ => false end.
Definition bt_field_variant_borrow_selected_option_field (h : ir) (f : bt_field) : option (option nat) :=
  BT_ASSERT_PRE_DEV_FIELD_TYPE h f is_variant_type
    (BT_ASSERT_PRE_DEV dev (has_selected_field f)
      match f with VariantField _ _ selected index => Some (if selected then Some (Z.to_nat index) else None) | _ => None end).
Definition bt_field_variant_borrow_selected_option_class_const (h : ir) (f : bt_field) : option bt_named_field_class :=
  BT_ASSERT_PRE_DEV_FIELD_TYPE h f is_variant_type
    (BT_ASSERT_PRE_DEV dev (has_selected_field f)
      (do c <- get_fc h (field_class (common f));
       match f, fc_data c with
       | VariantField _ _ _ index, ContainerContents _ named_fcs _ => named_fcs !! Z.to_nat index
       | _, _ => None
       end)).
Definition bt_field_variant_select_option_by_index (h : ir) (f : bt_field) (index : Z) : option bt_field :=
  BT_ASSERT_PRE_DEV_FIELD_TYPE h f is_variant_type
    (BT_ASSERT_PRE_DEV_FIELD_HOT f
      match f with
      | VariantField c fields _ _ =>
        BT_ASSERT_PRE_DEV dev (index <? Z.of_nat (length fields))
          (guard_ub ((0 <=? index) && (index <? Z.of_nat (length fields))); Some (VariantField c fields true index))
      | _ => None
      end).
Definition bt_field_variant_get_selected_option_index (h : ir) (f : bt_field) : option Z :=
  BT_ASSERT_PRE_DEV_FIELD_TYPE h f is_variant_type
    (BT_ASSERT_PRE_DEV dev (has_selected_field f)
      match f with VariantField _ _ _ index => Some index | _ => None end).
End ops.
