(* ===== verification/FieldFacts.v ===== *)
(** Fields and their classes ([Field]): well-typed fields, trees of field classes, what
    creating a field does to the references of the classes. *)

From stdpp Require Import list gmap.
From Stdlib Require Import SpecFloat.
From S2P Require Import Prelude Object IntRange IrObj FieldClass FieldClassFacts Clock Field.

(** * Induction on fields *)

Section ind.
Context (P : bt_field -> Prop).
Context (Hsingle : forall c v, P (SingleField c v)).
Context (Hstructure : forall c l, Forall P l -> P (StructureField c l)).
Context (Hoption : forall c s b, P s -> P (OptionField c s b)).
Context (Hvariant : forall c l b i, Forall P l -> P (VariantField c l b i)).
Context (Harray : forall c l n, Forall P l -> P (ArrayField c l n)).
Fixpoint bt_field_induction (f : bt_field) : P f :=
  let all := fix all (l : list bt_field) : Forall P l :=
    match l with [] => List.Forall_nil _ | s :: l => List.Forall_cons _ _ _ (bt_field_induction s) (all l) end in
  match f with
  | SingleField c v => Hsingle c v
  | StructureField c l => Hstructure c l (all l)
  | OptionField c s b => Hoption c s b (bt_field_induction s)
  | VariantField c l b i => Hvariant c l b i (all l)
  | ArrayField c l n => Harray c l n (all l)
  end.
End ind.

(** [P] holds of the field and of all the fields under it. *)
Fixpoint all_nodes (P : bt_field -> Prop) (f : bt_field) : Prop :=
  P f /\ match f with
         | SingleField _ _ => True
         | OptionField _ s _ => all_nodes P s
         | StructureField _ l | VariantField _ l _ _ | ArrayField _ l _ => foldr (fun s Q => all_nodes P s /\ Q) True l
         end.

Lemma foldr_Forall {A} (P : A -> Prop) l : foldr (fun x Q => P x /\ Q) True l <-> Forall P l.
Proof. induction l as [|x l IH]; simpl; [by rewrite Forall_nil|]. by rewrite Forall_cons, IH. Qed.

Lemma all_nodes_eq P f : all_nodes P f <-> P f /\ Forall (all_nodes P) (subfields f).
Proof. destruct f; simpl; rewrite ?foldr_Forall, ?Forall_singleton, ?Forall_nil; done. Qed.

Lemma field_at_ok P f p s : all_nodes P f -> field_at f p = Some s -> all_nodes P s.
Proof.
  revert f. induction p as [|i p IH]; intros f Hf Hs; simpl in Hs; [by injection Hs as <-|].
  apply all_nodes_eq in Hf as [_ Hl]. destruct (subfields f !! i) as [s0|] eqn:Hi; [|done].
  eapply IH; [|exact Hs]. by eapply Forall_lookup_1.
Qed.

Definition class_of (f : bt_field) : addr := field_class (common f).

Lemma subfields_with f i s s0 : subfields f !! i = Some s0 -> subfields (with_subfield f i s) = <[i := s]> (subfields f).
Proof. destruct f; simpl; try done. intros [-> _]%list_lookup_singleton_Some. done. Qed.
Lemma common_with f i s : common (with_subfield f i s) = common f.
Proof. by destruct f. Qed.

(** * Types *)

(** The type and the contents of a class. *)
Definition cls (h : ir) (a : addr) : option (Z * fc_contents) := (fun c => (fc_type c, fc_data c)) <$> get_fc h a.
Definition classes_eq (h h' : ir) : Prop := forall a, cls h' a = cls h a.
#[export] Instance classes_eq_refl : Reflexive classes_eq.
Proof. by intros h a. Qed.
#[export] Instance classes_eq_trans : Transitive classes_eq.
Proof. intros x y z H1 H2 a. by rewrite H2, H1. Qed.

Lemma cls_get h a c : get_fc h a = Some c -> cls h a = Some (fc_type c, fc_data c).
Proof. unfold cls. by intros ->. Qed.
Lemma get_cls h a type d : cls h a = Some (type, d) -> exists c, get_fc h a = Some c /\ fc_type c = type /\ fc_data c = d.
Proof. unfold cls. destruct (get_fc h a) as [c|]; [|done]. simpl. intros [= <- <-]. by exists c. Qed.

Lemma classes_eq_base h a o b : h !! a = Some o -> classes_eq h (<[a := set_base o b]> h).
Proof.
  intros Ha x. unfold cls, get_fc. destruct (decide (x = a)) as [->|]; [rewrite lookup_insert_eq, Ha; by destruct o|by rewrite lookup_insert_ne].
Qed.
Lemma get_ref_classes debug h a h' : get_ref debug h a = Some h' -> classes_eq h h'.
Proof. apply (get_ref_chain_rel classes_eq). apply classes_eq_base. Qed.

(** What the 64 bits of an integer can be: the range of the values in bits. *)
Definition integer_ok (type range z : Z) : Prop :=
  is_u64 z /\ 1 <= range <= 64 /\
  if is_unsigned_type type then z < 2 ^ range else - 2 ^ (range - 1) <= wraps 64 z < 2 ^ (range - 1).

Definition single_ok (type : Z) (d : fc_contents) (v : single_value) : Prop :=
  match v, d with
  | BoolField _, NoContents => type = BT_FIELD_CLASS_TYPE_BOOL
  | BitArrayField z, BitArrayContents length _ => type = BT_FIELD_CLASS_TYPE_BIT_ARRAY /\ 1 <= length <= 64 /\ 0 <= z < 2 ^ length
  | IntegerField z, IntegerContents range _ _ | IntegerField z, EnumerationContents range _ _ _ => is_integer_type type = true /\ integer_ok type range z
  | RealField _, NoContents => is_real_type type = true
  | StringField buf len, NoContents =>
    type = BT_FIELD_CLASS_TYPE_STRING /\ 0 <= len < Z.of_nat (length buf) /\ Z.of_nat (length buf) < 2 ^ 32 /\ buf !! Z.to_nat len = Some 0 /\ no_nul (take (Z.to_nat len) buf)
  | _, _ => False
  end.

Definition contents_ok (type : Z) (d : fc_contents) (f : bt_field) : Prop :=
  match f, d with
  | SingleField _ v, _ => single_ok type d v
  | StructureField _ l, ContainerContents _ nfs _ => type = BT_FIELD_CLASS_TYPE_STRUCTURE /\ class_of <$> l = nf_fc <$> nfs
  | OptionField _ s _, OptionContents content _ _ _ => is_option_type type = true /\ class_of s = content
  | VariantField _ l selected i, ContainerContents _ nfs _ =>
    is_variant_type type = true /\ class_of <$> l = nf_fc <$> nfs /\ 0 <= i /\ (selected = true -> i < Z.of_nat (length l))
  | ArrayField _ l n, StaticArrayContents e len =>
    type = BT_FIELD_CLASS_TYPE_STATIC_ARRAY /\ class_of <$> l = replicate (length l) e /\ n = len /\ n = Z.of_nat (length l)
  | ArrayField _ l n, DynamicArrayContents e _ =>
    is_dynamic_array_type type = true /\ class_of <$> l = replicate (length l) e /\ 0 <= n <= Z.of_nat (length l)
  | _, _ => False
  end.
Definition node_ok (h : ir) (f : bt_field) : Prop := exists type d, cls h (class_of f) = Some (type, d) /\ contents_ok type d f.

(** The field has the shape of its class, as all the fields under it. *)
Definition field_ok (h : ir) : bt_field -> Prop := all_nodes (node_ok h).

Lemma field_ok_eq h h' f : classes_eq h h' -> field_ok h f -> field_ok h' f.
Proof.
  intros He. induction f as [c v|c l IH|c s b IH|c l b i IH|c l n IH] using bt_field_induction; unfold field_ok; rewrite !all_nodes_eq;
    intros [(type & d & Hc & Hd) Hl]; (split; [exists type, d; by rewrite (He _)|]); simpl in *;
    rewrite Forall_forall in *; rewrite ?Forall_forall in *; intros x Hx; [by apply elem_of_nil in Hx| | | |]; try (by apply IH; [|apply Hl]).
  apply list_elem_of_singleton in Hx as ->. apply IH, Hl. by apply list_elem_of_singleton.
Qed.

Lemma contents_ok_subfield type d f i s s0 : subfields f !! i = Some s0 -> class_of s = class_of s0 -> contents_ok type d f -> contents_ok type d (with_subfield f i s).
Proof.
  intros Hi Hs. assert (Hmap : forall l : list bt_field, l !! i = Some s0 -> class_of <$> <[i := s]> l = class_of <$> l).
  { intros l Hl. rewrite list_fmap_insert, Hs. apply list_insert_id. by rewrite list_lookup_fmap, Hl. }
  destruct f as [c v|c l|c s1 b|c l b k|c l n]; simpl in *; try done.
  - destruct d; try done. by rewrite Hmap.
  - apply list_lookup_singleton_Some in Hi as [-> ->]. simpl. destruct d; try done. by rewrite Hs.
  - destruct d; try done. by rewrite Hmap, length_insert.
  - destruct d; try done; by rewrite Hmap, length_insert.
Qed.
