(* ===== verification/FieldCreate.v ===== *)
(** Creating and destroying fields ([Field]): the field that a tree of field classes gives,
    and the references of the classes. *)

From stdpp Require Import list gmap.
From Stdlib Require Import SpecFloat.
From S2P Require Import Prelude Object IntRange IrObj FieldClass FieldClassFacts Clock Field FieldFacts.

(** * Trees of field classes *)

(** The contents are those of the type. *)
Definition shape_ok (type : Z) (d : fc_contents) : Prop :=
  match d with
  | NoContents => type = BT_FIELD_CLASS_TYPE_BOOL \/ is_real_type type = true \/ type = BT_FIELD_CLASS_TYPE_STRING
  | BitArrayContents length _ => type = BT_FIELD_CLASS_TYPE_BIT_ARRAY /\ 1 <= length <= 64
  | IntegerContents range _ _ | EnumerationContents range _ _ _ => is_integer_type type = true /\ 1 <= range <= 64
  | ContainerContents _ _ _ => type = BT_FIELD_CLASS_TYPE_STRUCTURE \/ is_variant_type type = true
  | StaticArrayContents _ length => type = BT_FIELD_CLASS_TYPE_STATIC_ARRAY /\ 0 <= length < 2 ^ 31
  | DynamicArrayContents _ _ => is_dynamic_array_type type = true
  | OptionContents _ _ _ _ => is_option_type type = true
  end.

(** The classes under a class, once for each field that is created with it. *)
Definition created_children (d : fc_contents) : list addr :=
  match d with
  | ContainerContents _ nfs _ => nf_fc <$> nfs
  | StaticArrayContents e length => replicate (Z.to_nat length) e
  | OptionContents content _ _ _ => [content]
  | _ => []
  end.
Definition class_children (d : fc_contents) : list addr :=
  match d with
  | DynamicArrayContents e _ => [e]
  | StaticArrayContents e _ => [e]
  | _ => created_children d
  end.

(** [a] is the root of a tree of classes that is less than [n] deep. *)
Fixpoint class_tree (n : nat) (h : ir) (a : addr) : Prop :=
  match n with
  | O => False
  | S n => exists type d, cls h a = Some (type, d) /\ shape_ok type d /\ Forall (class_tree n h) (class_children d)
  end.

(** The classes of the fields that creating a field makes, in order. *)
Fixpoint created (n : nat) (h : ir) (a : addr) : list addr :=
  match n, cls h a with
  | S n, Some (_, d) => a :: concat (map (created n h) (created_children d))
  | _, _ => []
  end.

Lemma class_tree_eq n : forall h h' a, classes_eq h h' -> class_tree n h a -> class_tree n h' a.
Proof.
  induction n as [|n IH]; intros h h' a He Ht; [done|]. destruct Ht as (type & d & Hc & Hs & Hl). exists type, d.
  rewrite (He a). split; [done|]. split; [done|]. eapply Forall_impl; [exact Hl|]. intros x. by apply IH.
Qed.
Lemma created_eq n : forall h h' a, classes_eq h h' -> created n h' a = created n h a.
Proof.
  induction n as [|n IH]; intros h h' a He; [done|]. cbn [created]. rewrite (He a). destruct (cls h a) as [[type d]|]; [|done].
  do 2 f_equal. apply map_ext. intros x. by apply IH.
Qed.

Lemma created_children_tree n h d : Forall (class_tree n h) (class_children d) -> Forall (class_tree n h) (created_children d).
Proof. destruct d; simpl; try done. intros [Ht _]%Forall_cons. by apply Forall_replicate. Qed.

(** * References *)

(** The objects [l] with one more reference each. *)
Definition inc_ref (h : ir) (a : addr) : ir :=
  match h !! a with Some o => <[a := set_base o (set_ref_count (base o) (ref_count (base o) + 1))]> h | None => h end.
Definition inc_refs (h : ir) (l : list addr) : ir := fold_left inc_ref l h.

(** [a] is an object without a parent whose count has room for [k] references. *)
Definition has_room (h : ir) (a : addr) (k : Z) : Prop :=
  exists o, h !! a = Some o /\ is_shared (base o) = true /\ parent (base o) = None /\ 0 < ref_count (base o) /\ ref_count (base o) + k < 2 ^ 64.

Lemma inc_ref_classes h a : classes_eq h (inc_ref h a).
Proof. unfold inc_ref. destruct (h !! a) as [o|] eqn:Ha; [by apply classes_eq_base|done]. Qed.
Lemma inc_refs_classes l : forall h, classes_eq h (inc_refs h l).
Proof. induction l as [|a l IH]; intros h; [done|]. etrans; [apply inc_ref_classes|apply IH]. Qed.

Lemma get_ref_room debug h a k : has_room h a k -> 1 <= k -> get_ref debug h a = Some (inc_ref h a).
Proof.
  intros (o & Ha & Hs & Hp & Hr & Hk) H1. pose proof (get_ref_plain debug h a o Ha Hs Hp ltac:(lia) ltac:(lia)) as Hg.
  unfold bt_object_get_ref, BT_ASSERT_DBG in Hg. rewrite Ha, Hs, andb_false_r in Hg. unfold get_ref, inc_ref. by rewrite Ha.
Qed.

Lemma has_room_inc h a b k : has_room h b (k + 1) -> has_room (inc_ref h a) b k.
Proof.
  intros (o & Hb & Hs & Hp & Hr & Hk). unfold inc_ref. destruct (h !! a) as [oa|] eqn:Ha; [|exists o; repeat split; try done; lia].
  destruct (decide (a = b)) as [->|Hne].
  - assert (oa = o) as -> by congruence. eexists. rewrite lookup_insert_eq. split; [done|]. rewrite base_set_base. unfold set_ref_count. cbn [is_shared parent ref_count]. repeat split; try done; lia.
  - exists o. rewrite lookup_insert_ne by done. repeat split; try done; lia.
Qed.
Lemma has_room_incs l : forall h b k, has_room h b (k + Z.of_nat (length l)) -> has_room (inc_refs h l) b k.
Proof.
  induction l as [|a l IH]; intros h b k Hr; simpl in *; [by rewrite Z.add_0_r in Hr|]. apply IH, has_room_inc.
  by replace (k + Z.of_nat (length l) + 1) with (k + Z.of_nat (S (length l))) by lia.
Qed.
Lemma has_room_le h a k k' : has_room h a k -> k' <= k -> has_room h a k'.
Proof. intros (o & Ha & Hs & Hp & Hr & Hk) Hle. exists o. repeat split; try done; lia. Qed.

(** * Creating *)

(** The classes of the fields of a field, in the order in which they are destroyed. *)
Fixpoint field_classes (f : bt_field) : list addr :=
  class_of f :: match f with
                | SingleField _ _ => []
                | OptionField _ s _ => field_classes s
                | StructureField _ l | VariantField _ l _ _ | ArrayField _ l _ => concat (map field_classes l)
                end.
Lemma field_classes_eq f : field_classes f = class_of f :: concat (map field_classes (subfields f)).
Proof. destruct f; simpl; by rewrite ?app_nil_r. Qed.

(** A field that was just created: nothing is set, selected or frozen. *)
Definition new_node (f : bt_field) : Prop :=
  field_is_set (common f) = false /\ field_frozen (common f) = false /\
  match f with
  | OptionField _ _ selected | VariantField _ _ selected _ => selected = false
  | _ => True
  end.

(** What [bt_field_create] does. *)
Definition creates (debug : bool) (n : nat) (h : ir) (a : addr) : Prop :=
  exists f, bt_field_create debug n h a = Some (f, inc_refs h (created n h a)) /\ class_of f = a /\ field_ok h f /\ all_nodes new_node f /\
    field_classes f = created n h a.

Lemma create_all_spec debug n : forall l h,
  (forall h' x, x ∈ l -> classes_eq h h' -> Forall (fun y => has_room h' y (Z.of_nat (length (created n h' x)))) (created n h' x) -> creates debug n h' x) ->
  Forall (fun y => has_room h y (Z.of_nat (length (concat (map (created n h) l))))) (concat (map (created n h) l)) ->
  exists fs, create_all (bt_field_create debug n) l h = Some (fs, inc_refs h (concat (map (created n h) l))) /\
    class_of <$> fs = l /\ Forall (field_ok h) fs /\ Forall (all_nodes new_node) fs /\ map field_classes fs = map (created n h) l.
Proof.
  induction l as [|x l IH]; intros h Hc Hr; [by exists []|]. cbn [create_all map concat] in *. rewrite length_app in Hr. apply Forall_app in Hr as [Hr1 Hr2].
  destruct (Hc h x (list_elem_of_here _ _) (reflexivity _)) as (f & Hf & Hcf & Hok & Hnew & Hcls).
  { eapply Forall_impl; [exact Hr1|]. intros y Hy. eapply has_room_le; [exact Hy|lia]. }
  rewrite Hf. set (h1 := inc_refs h (created n h x)). pose proof (inc_refs_classes (created n h x) h) as He.
  assert (Hcr : map (created n h1) l = map (created n h) l) by (apply map_ext; intros y; by apply created_eq).
  destruct (IH h1) as (fs & Hfs & Hcl & Hoks & Hnews & Hclss).
  - intros h' y Hy He' Hroom. apply Hc; [by right|by etrans|done].
  - rewrite Hcr. eapply Forall_impl; [exact Hr2|]. intros y Hy. apply has_room_incs. eapply has_room_le; [exact Hy|lia].
  - rewrite Hfs, Hcr. exists (f :: fs). split; [by unfold h1, inc_refs; rewrite fold_left_app|]. split; [by rewrite fmap_cons, Hcf, Hcl|].
    split; [|split; [by apply Forall_cons|simpl; by rewrite Hcls, Hclss, Hcr]]. apply Forall_cons. split; [done|].
    eapply Forall_impl; [exact Hoks|]. intros y. apply field_ok_eq. intros b. symmetry. apply He.
Qed.

Ltac type_cases H :=
  repeat first [ apply elem_of_cons in H; destruct H as [H|H] | apply elem_of_nil in H; destruct H ].

(** The field of the class [a] with the subfields [fs], by the contents of the class. *)
Definition make_field (a : addr) (type : Z) (d : fc_contents) (fs : list bt_field) : bt_field :=
  let c := FieldCommon a false false in
  match d with
  | NoContents =>
    SingleField c (if type =? BT_FIELD_CLASS_TYPE_BOOL then BoolField false
                   else if type =? BT_FIELD_CLASS_TYPE_STRING then StringField [0] 0 else RealField (S754_zero false))
  | BitArrayContents _ _ => SingleField c (BitArrayField 0)
  | IntegerContents _ _ _ | EnumerationContents _ _ _ _ => SingleField c (IntegerField 0)
  | ContainerContents _ _ _ => if type =? BT_FIELD_CLASS_TYPE_STRUCTURE then StructureField c fs else VariantField c fs false 0
  | StaticArrayContents _ length => ArrayField c fs length
  | DynamicArrayContents _ _ => ArrayField c [] 0
  | OptionContents _ _ _ _ => match fs with s :: _ => OptionField c s false | [] => SingleField c (BoolField false) end
  end.

Lemma create_shape debug n h a type d : cls h a = Some (type, d) -> shape_ok type d ->
  bt_field_create debug (S n) h a =
    do h1 <- get_ref debug h a;
    do (fs, h2) <- create_all (bt_field_create debug n) (created_children d) h1; Some (make_field a type d fs, h2).
Proof.
  intros Hc Hs. apply get_cls in Hc as (c & Hc & <- & <-). cbn [bt_field_create]. rewrite Hc. cbv zeta.
  destruct (get_ref debug h a) as [h1|]; [|done].
  destruct (fc_data c) as [| | | |names nfs sel|e len|e len|content sel rev rs]; simpl in Hs;
    unfold is_real_type, is_integer_type, is_variant_type, is_dynamic_array_type, is_option_type in Hs.
  - destruct Hs as [E|[E|E]]; [|apply bool_decide_eq_true in E; type_cases E|]; rewrite E; reflexivity.
  - destruct Hs as [E _]. rewrite E. reflexivity.
  - destruct Hs as [E _]. apply bool_decide_eq_true in E. type_cases E; rewrite E; reflexivity.
  - destruct Hs as [E _]. apply bool_decide_eq_true in E. type_cases E; rewrite E; reflexivity.
  - destruct Hs as [E|E]; [|apply bool_decide_eq_true in E; type_cases E]; rewrite E; reflexivity.
  - destruct Hs as [E Hlen]. rewrite E. cbn [created_children]. rewrite (proj2 (Z.ltb_lt len (2 ^ 31))) by lia. reflexivity.
  - apply bool_decide_eq_true in Hs. type_cases Hs; rewrite Hs; reflexivity.
  - cbn [created_children create_all]. apply bool_decide_eq_true in Hs. type_cases Hs; rewrite Hs;
      by destruct (bt_field_create debug n h1 content) as [[s h2]|].
Qed.

Lemma zero_integer_ok type range : 1 <= range <= 64 -> integer_ok type range 0.
Proof.
  intros Hr. split; [unfold is_u64, UINT64_MAX; lia|]. split; [done|]. pose proof (Z.pow_pos_nonneg 2 range ltac:(lia) ltac:(lia)).
  pose proof (Z.pow_pos_nonneg 2 (range - 1) ltac:(lia) ltac:(lia)). change (wraps 64 0) with 0. destruct (is_unsigned_type type); lia.
Qed.

Lemma subfields_make a type d fs : class_of <$> fs = created_children d -> subfields (make_field a type d fs) = fs.
Proof.
  intros Hcl. destruct d; simpl in *; try (by destruct fs); try (by destruct (type =? _), fs); try (by destruct (type =? _)).
  destruct fs as [|s [|]]; done.
Qed.

(** The field that is made is new, and has the shape of its class. *)
Lemma make_field_ok h a type d fs : cls h a = Some (type, d) -> shape_ok type d -> class_of <$> fs = created_children d -> Forall (field_ok h) fs ->
  class_of (make_field a type d fs) = a /\ field_ok h (make_field a type d fs) /\ new_node (make_field a type d fs).
Proof.
  intros Hc Hs Hcl Hoks. assert (Ha : class_of (make_field a type d fs) = a) by (destruct d; simpl; try done; [by destruct (type =? _)|by destruct fs]).
  split; [done|]. split; [|destruct d; simpl; try done; [by destruct (type =? _)|by destruct fs]].
  apply all_nodes_eq. rewrite subfields_make by done. split; [|done]. exists type, d. rewrite Ha. split; [done|].
  destruct d as [|len flags|range hints bs|range hints bs maps|names nfs sel|e len|e len|content sel rev rs]; simpl in *.
  - destruct Hs as [->|[Hs| ->]]; [done| |].
    + destruct (Z.eqb_spec type BT_FIELD_CLASS_TYPE_BOOL) as [->|]; [done|]. destruct (Z.eqb_spec type BT_FIELD_CLASS_TYPE_STRING) as [->|]; done.
    + split; [done|]. split; [simpl; lia|]. split; [simpl; lia|]. split; [done|by apply List.Forall_nil].
  - destruct Hs as [? Hlen]. split; [done|]. split; [done|]. pose proof (Z.pow_pos_nonneg 2 len ltac:(lia) ltac:(lia)). lia.
  - destruct Hs as [? Hlen]. split; [done|by apply zero_integer_ok].
  - destruct Hs as [? Hlen]. split; [done|by apply zero_integer_ok].
  - destruct (Z.eqb_spec type BT_FIELD_CLASS_TYPE_STRUCTURE) as [Et|Et]; [done|]. destruct Hs as [Hs|Hs]; [done|]. by split.
  - destruct Hs as [Hs Hlen]. assert (Hn : length fs = Z.to_nat len) by (rewrite <- (length_fmap class_of), Hcl; apply length_replicate).
    rewrite Hcl, Hn. split; [done|]. split; [done|]. split; [done|lia].
  - split; [done|]. split; [done|lia].
  - destruct fs as [|s fs]; [done|]. injection Hcl as Hcs _. by split.
Qed.

Lemma create_spec debug n : forall h a, class_tree n h a ->
  Forall (fun x => has_room h x (Z.of_nat (length (created n h a)))) (created n h a) -> creates debug n h a.
Proof.
  induction n as [|n IH]; intros h a Ht Hroom; [done|]. destruct Ht as (type & d & Hc & Hs & Hl). unfold creates.
  cbn [created] in *. rewrite Hc in *. cbn [length] in Hroom. apply Forall_cons in Hroom as [Hroom Hrooms]. unfold inc_refs. cbn [fold_left].
  rewrite (create_shape debug n h a type d Hc Hs), (get_ref_room _ _ _ _ Hroom) by lia. pose proof (inc_ref_classes h a) as He.
  assert (Hcr : forall l, map (created n (inc_ref h a)) l = map (created n h) l) by (intros l; apply map_ext; intros y; by apply created_eq).
  destruct (create_all_spec debug n (created_children d) (inc_ref h a)) as (fs & Hfs & Hcl & Hok & Hnew & Hclss).
  - intros h' x Hx He' Hroom'. apply IH; [|exact Hroom']. eapply class_tree_eq; [exact He'|]. eapply class_tree_eq; [exact He|].
    pose proof (created_children_tree n h d Hl) as Hl'. by eapply Forall_forall in Hl'.
  - rewrite Hcr. eapply Forall_impl; [exact Hrooms|]. intros y Hy. apply has_room_inc. eapply has_room_le; [exact Hy|lia].
  - rewrite Hcr in Hfs, Hclss. rewrite Hfs. eexists. split; [done|].
    assert (Hoks : Forall (field_ok h) fs) by (eapply Forall_impl; [exact Hok|]; intros y; apply field_ok_eq; intros b; symmetry; apply He).
    destruct (make_field_ok h a type d fs Hc Hs Hcl Hoks) as (Hca & Hf & Hn). split; [done|]. split; [done|].
    split; [apply all_nodes_eq; by rewrite subfields_make|]. by rewrite field_classes_eq, Hca, subfields_make, Hclss.
Qed.

(** A field that is created has the shape of its class, whatever room there is. *)
Lemma create_all_ok debug n l : forall h fs h', (forall h0 x f h1, x ∈ l -> classes_eq h h0 -> bt_field_create debug n h0 x = Some (f, h1) ->
    classes_eq h0 h1 /\ class_of f = x /\ field_ok h0 f) ->
  create_all (bt_field_create debug n) l h = Some (fs, h') -> classes_eq h h' /\ class_of <$> fs = l /\ Forall (field_ok h) fs.
Proof.
  induction l as [|x l IH]; intros h fs h' Hc H; simpl in H; [by injection H as <- <-|].
  destruct (bt_field_create debug n h x) as [[f h1]|] eqn:Hf; [|done]. destruct (create_all _ l h1) as [[fs1 h2]|] eqn:Hfs; [|done].
  injection H as <- <-. destruct (Hc h x f h1 (list_elem_of_here _ _) (reflexivity _) Hf) as (He & Hcl & Hok).
  destruct (IH h1 fs1 h2) as (He2 & Hcl2 & Hok2); [|exact Hfs|].
  { intros h0 y g h3 Hy He0. apply Hc; [by right|by etrans]. }
  split; [by etrans|]. split; [by rewrite fmap_cons, Hcl, Hcl2|]. apply Forall_cons. split; [done|].
  eapply Forall_impl; [exact Hok2|]. intros y. apply field_ok_eq. intros b. symmetry. apply He.
Qed.

Lemma field_created_ok debug n : forall h a f h', class_tree n h a -> bt_field_create debug n h a = Some (f, h') ->
  classes_eq h h' /\ class_of f = a /\ field_ok h f.
Proof.
  induction n as [|n IH]; intros h a f h' Ht H; [done|]. destruct Ht as (type & d & Hc & Hs & Hl).
  rewrite (create_shape debug n h a type d Hc Hs) in H. destruct (get_ref debug h a) as [h1|] eqn:Hr; [|done]. apply get_ref_classes in Hr.
  destruct (create_all _ _ h1) as [[fs h2]|] eqn:Hfs; [|done]. injection H as <- <-.
  destruct (create_all_ok debug n (created_children d) h1 fs h2) as (He & Hcl & Hoks); [|exact Hfs|].
  { intros h0 x g h3 Hx He0. apply IH. eapply class_tree_eq; [exact He0|]. eapply class_tree_eq; [exact Hr|].
    pose proof (created_children_tree n h d Hl) as Hl'. by eapply Forall_forall in Hl'. }
  split; [by etrans|]. destruct (make_field_ok h a type d fs Hc Hs Hcl) as (Hca & Hf & _); [|done].
  eapply Forall_impl; [exact Hoks|]. intros y. apply field_ok_eq. intros b. symmetry. apply Hr.
Qed.

(** * Destroying *)

(** The object with [k] more references. *)
Definition bump (k : Z) (o : ir_object) : ir_object := set_base o (set_ref_count (base o) (ref_count (base o) + k)).
Definition dec_ref (h : ir) (a : addr) : ir := match h !! a with Some o => <[a := bump (-1) o]> h | None => h end.
Definition dec_refs (h : ir) (l : list addr) : ir := fold_left dec_ref l h.
Definition occurrences (l : list addr) (x : addr) : Z := Z.of_nat (length (filter (fun y => y = x) l)).

Lemma bump_bump j k o : bump j (bump k o) = bump (k + j) o.
Proof. destruct o as [[? ? ? ? ? ?]|[]|? |? ?|[]|[]|[]|[]|[]]; unfold bump, set_ref_count; simpl; by rewrite Z.add_assoc. Qed.
Lemma bump_0 o : bump 0 o = o.
Proof. destruct o as [[[] ? ? ? ? ?]|[[]]|[] |[] ?|[[]]|[[]]|[[]]|[[]]|[[]]]; unfold bump, set_ref_count; simpl; by rewrite Z.add_0_r. Qed.

Lemma inc_ref_bump h a : inc_ref h a = match h !! a with Some o => <[a := bump 1 o]> h | None => h end.
Proof. done. Qed.

Lemma occurrences_cons a l x : occurrences (a :: l) x = (if decide (a = x) then 1 else 0) + occurrences l x.
Proof. unfold occurrences. destruct (decide (a = x)) as [->|]; [rewrite filter_cons_True by done; simpl; lia|by rewrite filter_cons_False]. Qed.

Lemma bump_refs step k l : (forall h a, step h a = match h !! a with Some o => <[a := bump k o]> h | None => h end) ->
  forall (h : ir) x, fold_left step l h !! x = bump (k * occurrences l x) <$> h !! x.
Proof.
  intros Hstep. induction l as [|a l IH]; intros h x; simpl.
  - unfold occurrences. simpl. rewrite Z.mul_0_r. destruct (h !! x) as [o|]; simpl; by rewrite ?bump_0.
  - rewrite IH, Hstep, occurrences_cons. destruct (h !! a) as [oa|] eqn:Ha; (destruct (decide (a = x)) as [->|Hne]).
    + rewrite lookup_insert_eq, Ha. simpl. rewrite bump_bump. do 2 f_equal. lia.
    + by rewrite lookup_insert_ne.
    + by rewrite Ha.
    + done.
Qed.

Lemma dec_inc_refs h l : dec_refs (inc_refs h l) l = h.
Proof.
  apply map_eq. intros x. unfold dec_refs, inc_refs. rewrite (bump_refs dec_ref (-1) l ltac:(done)), (bump_refs inc_ref 1 l ltac:(done)).
  destruct (h !! x) as [o|]; simpl; [|done]. rewrite bump_bump. f_equal. rewrite <- (bump_0 o) at 2. f_equal. lia.
Qed.

(** The objects [l] have more references than [l] has occurrences of them, and their last
    one would call a release function. *)
Definition can_put (h : ir) (l : list addr) : Prop :=
  forall x, x ∈ l -> exists o f, h !! x = Some o /\ is_shared (base o) = true /\ release_func (base o) = Some (ReleaseFunc f) /\
    occurrences l x < ref_count (base o) < 2 ^ 64.

Lemma occurrences_pos l x : 0 <= occurrences l x /\ (x ∈ l -> 0 < occurrences l x).
Proof.
  split; [unfold occurrences; lia|]. induction l as [|a l IH]; [by intros ?%elem_of_nil|]. rewrite occurrences_cons. destruct (decide (a = x)); [unfold occurrences; lia|].
  intros [->|Hx]%elem_of_cons; [done|]. by apply IH.
Qed.
Lemma occurrences_app l l' x : occurrences (l ++ l') x = occurrences l x + occurrences l' x.
Proof. unfold occurrences. rewrite filter_app, length_app. lia. Qed.

Lemma put_ref_can debug call h a l : can_put h (a :: l) -> put_ref debug call h (Some a) = Some (dec_ref h a) /\ can_put (dec_ref h a) l.
Proof.
  intros Hp. destruct (Hp a (list_elem_of_here _ _)) as (o & f & Ha & Hs & Hf & Hk). rewrite occurrences_cons, decide_True in Hk by done.
  pose proof (proj1 (occurrences_pos l a)) as Hpos. split.
  - unfold put_ref. rewrite (put_ref_plain debug call h a o f Ha Hs Hf ltac:(lia)). rewrite (proj2 (Z.eqb_neq _ 1)) by lia.
    simpl. unfold dec_ref. by rewrite Ha.
  - intros x Hx. unfold dec_ref. rewrite Ha. destruct (decide (a = x)) as [<-|Hne].
    + exists (bump (-1) o), f. rewrite lookup_insert_eq. split; [done|]. unfold bump. rewrite base_set_base. unfold set_ref_count.
      cbn [is_shared release_func ref_count]. repeat split; try done; lia.
    + destruct (Hp x (list_elem_of_further _ _ _ Hx)) as (ox & fx & Hox & Hsx & Hfx & Hkx). rewrite occurrences_cons, decide_False in Hkx by done.
      exists ox, fx. rewrite lookup_insert_ne by done. done.
Qed.

Lemma can_put_app h l l' : can_put h (l ++ l') -> can_put h l /\ can_put (dec_refs h l) l'.
Proof.
  revert h. induction l as [|a l IH]; intros h Hp; [split; [by intros x ?%elem_of_nil|exact Hp]|].
  destruct (put_ref_can true (fun _ _ _ => None) h a (l ++ l') Hp) as [_ Hp']. destruct (IH _ Hp') as [_ Hl']. split; [|exact Hl'].
  intros x Hx. destruct (Hp x) as (o & f & Ho & Hs & Hf & Hk); [simpl; rewrite app_comm_cons; apply elem_of_app; by left|]. exists o, f. do 3 (split; [done|]).
  rewrite occurrences_app in Hk. pose proof (proj1 (occurrences_pos l' x)). lia.
Qed.

(** The loop on the subfields. *)
Definition destroys (debug : bool) (call : func -> addr -> ir -> option ir) (f : bt_field) : Prop :=
  forall h, can_put h (field_classes f) -> bt_field_destroy debug call f h = Some (dec_refs h (field_classes f)).

Lemma destroy_loop debug call l : Forall (destroys debug call) l -> forall h, can_put h (concat (map field_classes l)) ->
  destroy_elements debug call l h = Some (dec_refs h (concat (map field_classes l))).
Proof.
  induction 1 as [|f l Hf _ IH]; intros h Hr; [done|]. simpl in *. apply can_put_app in Hr as [Hr1 Hr2].
  rewrite (Hf h Hr1), (IH _ Hr2). unfold dec_refs. by rewrite fold_left_app.
Qed.

Lemma destroy_unfold debug call f h : bt_field_destroy debug call f h =
  do h <- put_ref debug call h (Some (class_of f)); destroy_elements debug call (subfields f) h.
Proof.
  assert (Hall : forall l h, (fix destroy_all (l : list bt_field) (h : ir) : option ir :=
    match l with [] => Some h | s :: l => do h <- bt_field_destroy debug call s h; destroy_all l h end) l h = destroy_elements debug call l h).
  { induction l as [|s l IH]; intros h0; [done|]. simpl. destruct (bt_field_destroy debug call s h0); [apply IH|done]. }
  destruct f as [c v|c l|c s b|c l b i|c l k]; cbn [bt_field_destroy common subfields]; unfold class_of; cbn [common];
    (destruct (put_ref debug call h _) as [h1|]; [|done]); rewrite ?Hall; try done. simpl. by destruct (bt_field_destroy debug call s h1).
Qed.

Lemma destroy_spec debug call f : destroys debug call f.
Proof.
  assert (Hgen : forall f, Forall (destroys debug call) (subfields f) -> destroys debug call f).
  { intros g Hg h Hr. rewrite destroy_unfold, field_classes_eq in *. destruct (put_ref_can debug call _ _ _ Hr) as [-> Hr'].
    by rewrite destroy_loop. }
  induction f as [c v|c l IH|c s b IH|c l b i IH|c l n IH] using bt_field_induction; apply Hgen; simpl; [by apply List.Forall_nil|done|by apply Forall_singleton|done|done].
Qed.
