(* ===== verification/FieldOps.v ===== *)
(** Operations on fields ([Field]): what a user can do with a field as a step relation, and
    that every step keeps fields well typed. *)

From stdpp Require Import list gmap.
From Stdlib Require Import SpecFloat.
From S2P Require Import Prelude Object IntRange IrObj FieldClass FieldClassFacts Clock Field FieldFacts FieldCreate.

(** * Steps *)

(** A call that succeeds on one field, with a library built in developer mode, and resetting
    or freezing, as recycling an event or a packet does. *)
Inductive field_op (debug : bool) (call : func -> addr -> ir -> option ir) (garbage : nat -> Z) (h : ir) (f : bt_field) : ir -> bt_field -> Prop :=
| op_bool v f' : bt_field_bool_set_value true h f v = Some f' -> field_op debug call garbage h f h f'
| op_bit_array v f' : is_u64 v -> bt_field_bit_array_set_value_as_integer true h f v = Some f' -> field_op debug call garbage h f h f'
| op_signed v f' : is_i64 v -> bt_field_integer_signed_set_value true h f v = Some f' -> field_op debug call garbage h f h f'
| op_unsigned v f' : is_u64 v -> bt_field_integer_unsigned_set_value true h f v = Some f' -> field_op debug call garbage h f h f'
| op_single v f' : bt_field_real_single_precision_set_value true h f v = Some f' -> field_op debug call garbage h f h f'
| op_double v f' : bt_field_real_double_precision_set_value true h f v = Some f' -> field_op debug call garbage h f h f'
| op_append v n f' : bt_field_string_append_with_length true garbage h f v n = Some f' -> field_op debug call garbage h f h f'
| op_string v f' : bt_field_string_set_value true garbage h f v = Some f' -> field_op debug call garbage h f h f'
| op_clear f' : bt_field_string_clear true h f = Some f' -> field_op debug call garbage h f h f'
| op_length fuel n f' h' e x : 0 <= n < 2 ^ 31 -> cls h (class_of f) = Some (e, x) -> Forall (class_tree fuel h) (class_children x) ->
    bt_field_array_dynamic_set_length true debug call fuel h f n = Some (f', h') ->
    field_op debug call garbage h f h' f'
| op_has_field b f' : bt_field_option_set_has_field true h f b = Some f' -> field_op debug call garbage h f h f'
| op_select i f' : bt_field_variant_select_option_by_index true h f i = Some f' -> field_op debug call garbage h f h f'
| op_reset : field_op debug call garbage h f h (bt_field_reset true f)
| op_frozen b : field_op debug call garbage h f h (bt_field_set_is_frozen true f b).

(** A call on a field that was borrowed from the field. *)
Inductive field_step (debug : bool) (call : func -> addr -> ir -> option ir) (garbage : nat -> Z) : ir * bt_field -> ir * bt_field -> Prop :=
| field_step_at p s s' h f h' f' : field_at f p = Some s -> field_op debug call garbage h s h' s' -> update_at f p (fun _ => Some s') = Some f' ->
    field_step debug call garbage (h, f) (h', f').

(** * Fields without subfields *)

Lemma node_contents h f type d : field_ok h f -> cls h (class_of f) = Some (type, d) -> contents_ok type d f.
Proof. intros Hf Hc. apply all_nodes_eq in Hf as [(type' & d' & Hc' & Hd) _]. congruence. Qed.

(** The new field has the class of the old one, and its contents fit it. *)
Lemma node_change h f f' : field_ok h f -> class_of f' = class_of f ->
  (forall type d, cls h (class_of f) = Some (type, d) -> contents_ok type d f -> contents_ok type d f') ->
  Forall (field_ok h) (subfields f') -> field_ok h f' /\ class_of f' = class_of f.
Proof.
  intros Hf Hc Hd Hl. split; [|done]. pose proof Hf as Hf0. apply all_nodes_eq in Hf0 as [(type & d & Ht & Hk) _].
  apply all_nodes_eq. split; [|done]. exists type, d. rewrite Hc. split; [done|by apply Hd].
Qed.

Lemma subfields_ok h f : field_ok h f -> Forall (field_ok h) (subfields f).
Proof. by intros [_ Hl]%all_nodes_eq. Qed.

Lemma set_single_inv h f check set f' : set_single true h f check set = Some f' ->
  exists type d c v v', cls h (class_of f) = Some (type, d) /\ check type = true /\ f = SingleField c v /\ field_frozen c = false /\ set v = Some v' /\
    f' = SingleField (with_is_set c true) v'.
Proof.
  unfold set_single, BT_ASSERT_PRE_DEV_FIELD_TYPE, BT_ASSERT_PRE_DEV_FIELD_HOT, BT_ASSERT_PRE_DEV, type_of. intros H.
  destruct (get_fc h _) as [c|] eqn:Hc; [|done]. destruct (check (fc_type c)) eqn:Hk; [|done]. destruct (field_frozen (common f)) eqn:Hf; [done|].
  destruct f as [c0 v| | | |]; try done. destruct (set v) as [v'|] eqn:Hv; [|done]. injection H as <-.
  exists (fc_type c), (fc_data c), c0, v, v'. split; [by apply cls_get|]. done.
Qed.

Lemma set_single_ok h f check set f' : field_ok h f -> set_single true h f check set = Some f' ->
  (forall type d v v', cls h (class_of f) = Some (type, d) -> check type = true -> single_ok type d v -> set v = Some v' -> single_ok type d v') ->
  field_ok h f' /\ class_of f' = class_of f.
Proof.
  intros Hf H Hs. apply set_single_inv in H as (type & d & c & v & v' & Hc & Hk & -> & _ & Hv & ->).
  apply node_change; [done|done| |by apply List.Forall_nil]. intros type' d' Hc' Hd. assert (E : (type', d') = (type, d)) by congruence.
  injection E as -> ->. simpl in *. by eapply Hs.
Qed.

Lemma bool_ok h f v f' : field_ok h f -> bt_field_bool_set_value true h f v = Some f' -> field_ok h f' /\ class_of f' = class_of f.
Proof. intros Hf H. eapply set_single_ok; [exact Hf|exact H|]. intros type d [] v' _ _ Ho [= <-]. by destruct d. Qed.
Lemma single_precision_ok h f v f' : field_ok h f -> bt_field_real_single_precision_set_value true h f v = Some f' -> field_ok h f' /\ class_of f' = class_of f.
Proof. intros Hf H. eapply set_single_ok; [exact Hf|exact H|]. intros type d [] v' _ _ Ho [= <-]. by destruct d. Qed.
Lemma double_precision_ok h f v f' : field_ok h f -> bt_field_real_double_precision_set_value true h f v = Some f' -> field_ok h f' /\ class_of f' = class_of f.
Proof. intros Hf H. eapply set_single_ok; [exact Hf|exact H|]. intros type d [] v' _ _ Ho [= <-]. by destruct d. Qed.

Lemma bit_mask length v : 1 <= length <= 64 -> is_u64 v ->
  (if length <? 64 then Z.land v (wrapu 64 (Z.shiftl 1 length) - 1) else v) = v mod 2 ^ length.
Proof.
  intros Hl Hv. unfold is_u64, UINT64_MAX in Hv. destruct (Z.ltb_spec length 64).
  - rewrite Z.shiftl_1_l, wrapu_small by (split; [lia|apply Z.pow_lt_mono_r; lia]).
    replace (2 ^ length - 1) with (Z.ones length) by (rewrite Z.ones_equiv; lia). apply Z.land_ones. lia.
  - replace length with 64 by lia. symmetry. apply Z.mod_small. lia.
Qed.

Lemma bit_array_ok h f v f' : is_u64 v -> field_ok h f -> bt_field_bit_array_set_value_as_integer true h f v = Some f' -> field_ok h f' /\ class_of f' = class_of f.
Proof.
  intros Hv Hf H. unfold bt_field_bit_array_set_value_as_integer in H. destruct (get_fc h _) as [c|] eqn:Hc; [|done]. eapply set_single_ok; [exact Hf|exact H|].
  intros type d v0 v' Hcls _ Ho Hset. unfold class_of in Hcls; rewrite (cls_get _ _ _ Hc) in Hcls. injection Hcls as <- <-.
  destruct v0; try done. destruct (fc_data c); try done. injection Hset as <-. simpl in *. destruct Ho as (? & ? & _). split; [done|]. split; [done|].
  rewrite bit_mask by done. apply Z.mod_pos_bound. lia.
Qed.

Lemma wraps_of_wrapu v : is_i64 v -> wraps 64 (wrapu 64 v) = v.
Proof. intros Hv. unfold is_i64, INT64_MIN, INT64_MAX in Hv. unfold wraps, wrapu. rewrite Zplus_mod_idemp_l. rewrite Z.mod_small; lia. Qed.
Lemma wrapu_is_u64 v : is_u64 (wrapu 64 v).
Proof. pose proof (wrapu_range 64 v). unfold is_u64, UINT64_MAX. lia. Qed.

Lemma signed_not_unsigned type : is_signed_type type = true -> is_unsigned_type type = false.
Proof. unfold is_signed_type, is_unsigned_type. intros [->| ->%list_elem_of_singleton]%bool_decide_eq_true%elem_of_cons; reflexivity. Qed.

Lemma field_integer_ok h f check in_range v f' : field_ok h f -> set_integer true h f check in_range v = Some f' ->
  (forall type range, check type = true -> 1 <= range <= 64 -> in_range range v = true -> integer_ok type range (wrapu 64 v)) ->
  field_ok h f' /\ class_of f' = class_of f.
Proof.
  intros Hf H Hr. unfold set_integer in H. destruct (get_fc h _) as [c|] eqn:Hc; [|done]. eapply set_single_ok; [exact Hf|exact H|].
  intros type d v0 v' Hcls Hk Ho Hset. unfold class_of in Hcls; rewrite (cls_get _ _ _ Hc) in Hcls. injection Hcls as <- <-.
  destruct v0; try done. unfold integer_range in Hset. simpl in Hset. destruct (fc_data c); try done;
    destruct (in_range _ _) eqn:Hin; try done; injection Hset as <-; simpl in *; destruct Ho as (Ht & _ & Hw & _); (split; [done|by apply Hr]).
Qed.

Lemma signed_ok h f v f' : is_i64 v -> field_ok h f -> bt_field_integer_signed_set_value true h f v = Some f' -> field_ok h f' /\ class_of f' = class_of f.
Proof.
  intros Hv Hf H. eapply field_integer_ok; [exact Hf|exact H|]. intros type range Hk Hw Hr. split; [apply wrapu_is_u64|]. split; [done|].
  rewrite (signed_not_unsigned _ Hk), wraps_of_wrapu by done. destruct (value_is_in_range_exact range v Hw) as [Hs _]. by apply Hs.
Qed.
Lemma unsigned_ok h f v f' : is_u64 v -> field_ok h f -> bt_field_integer_unsigned_set_value true h f v = Some f' -> field_ok h f' /\ class_of f' = class_of f.
Proof.
  intros Hv Hf H. eapply field_integer_ok; [exact Hf|exact H|]. intros type range Hk Hw Hr. split; [apply wrapu_is_u64|]. split; [done|].
  rewrite Hk. unfold is_u64, UINT64_MAX in Hv. rewrite wrapu_small by lia. destruct (value_is_in_range_exact range v Hw) as [_ Hs]. apply Hs; [unfold UINT64_MAX; lia|done].
Qed.

(** * Strings *)

Lemma append_buf (b : list Z) len w : (len + length w < length b)%nat ->
  <[(len + length w)%nat := 0]> (list_inserts len w b) = take len b ++ w ++ 0 :: drop (S (len + length w)) b.
Proof.
  intros Hlt. rewrite <- (take_drop len b) at 1. rewrite <- (take_drop (length w) (drop len b)).
  assert (Hp : length (take len b) = len) by (rewrite length_take; lia).
  replace (list_inserts len w) with (list_inserts (length (take len b) + 0) w) by (by rewrite Hp, Nat.add_0_r).
  rewrite list_inserts_app_r, list_inserts_0_r by (rewrite length_take, length_drop; lia). rewrite drop_drop.
  rewrite insert_app_r_alt by lia. rewrite insert_app_r_alt by lia. rewrite Hp.
  replace (len + length w - len - length w)%nat with O by lia. do 2 f_equal.
  destruct (drop (len + length w) b) as [|x r] eqn:E; [apply (f_equal length) in E; rewrite length_drop in E; simpl in E; lia|].
  simpl. f_equal. replace (S (len + length w)) with (len + length w + 1)%nat by lia.
  by rewrite <- drop_drop, E.
Qed.

Definition string_ok (buf : list Z) (len : Z) : Prop :=
  0 <= len < Z.of_nat (length buf) /\ Z.of_nat (length buf) < 2 ^ 32 /\ buf !! Z.to_nat len = Some 0 /\ no_nul (take (Z.to_nat len) buf).

(** The buffer once the characters are appended. *)
Definition appended (buf : list Z) (len : Z) (w buf' : list Z) : Prop :=
  Z.of_nat (length buf') < 2 ^ 32 /\ exists rest, buf' = take (Z.to_nat len) buf ++ w ++ 0 :: rest.

Lemma appended_ok buf len w buf' : string_ok buf len -> no_nul w -> appended buf len w buf' -> string_ok buf' (len + Z.of_nat (length w)).
Proof.
  intros (Hl & _ & _ & Hn) Hw (Hlen & rest & ->). unfold string_ok. rewrite !length_app in *. simpl in *. rewrite length_take in *.
  assert (Hp : length (take (Z.to_nat len) buf) = Z.to_nat len) by (rewrite length_take; lia).
  replace (Z.to_nat (len + Z.of_nat (length w))) with (length (take (Z.to_nat len) buf ++ w)) by (rewrite length_app, Hp; lia).
  split; [lia|]. split; [lia|]. rewrite (assoc_L (++)). split; [by apply list_lookup_middle|]. rewrite take_app_length. by apply Forall_app.
Qed.

(** The buffer is made larger when it has to be. *)
Lemma append_inv garbage c buf len value n f' : string_ok buf len ->
  append_to_string_field_with_length true garbage (SingleField c (StringField buf len)) value n = Some f' ->
  exists buf', f' = SingleField (with_is_set c true) (StringField buf' (len + n)) /\ 0 <= n <= Z.of_nat (length value) /\
    appended buf len (take (Z.to_nat n) value) buf'.
Proof.
  intros (Hl & Hbuf & _ & _) H. unfold append_to_string_field_with_length in H. destruct (_ && _) eqn:Hn; [|done]. b2p.
  set (size := wrapu 64 (wrapu 64 (n + len) + 1)) in *.
  set (b := if Z.of_nat (length buf) <? size then _ else buf) in *. destruct (_ && _) eqn:Hg in H; [|done]. b2p. injection H as <-.
  assert (Hb : Z.of_nat (length b) < 2 ^ 32 /\ ((Z.to_nat len <= length b)%nat -> take (Z.to_nat len) b = take (Z.to_nat len) buf)).
  { unfold b. destruct (_ <? _); [|done]. rewrite length_take. pose proof (wrapu_range 32 size ltac:(lia)). split; [lia|].
    intros Hle. rewrite take_take, take_app_le by lia. f_equal. lia. }
  destruct Hb as [Hb1 Hb2]. assert (Hsum : wrapu 64 (n + len) = len + n) by (rewrite Z.add_comm, wrapu_small; lia). rewrite Hsum in *.
  eexists. split; [done|]. split; [done|]. split; [by rewrite length_insert, length_inserts|].
  replace (Z.to_nat (len + n)) with (Z.to_nat len + length (take (Z.to_nat n) value))%nat by (rewrite length_take; lia).
  rewrite append_buf by (rewrite length_take; lia). rewrite Hb2 by lia. by eexists.
Qed.

Lemma append_total garbage c buf len value n : string_ok buf len -> 0 <= n <= Z.of_nat (length value) -> len + n + 1 < 2 ^ 32 ->
  exists f', append_to_string_field_with_length true garbage (SingleField c (StringField buf len)) value n = Some f'.
Proof.
  intros (Hl & Hbuf & _ & _) Hn Hr. unfold append_to_string_field_with_length.
  rewrite (proj2 (andb_true_iff _ _)) by (split; apply Z.leb_le; lia).
  rewrite (wrapu_small 64 (n + len)), (wrapu_small 64 (n + len + 1)), (wrapu_small 32) by lia.
  set (b := if _ <? _ then _ else _). assert (Hb : n + len + 1 <= Z.of_nat (length b)).
  { unfold b. destruct (Z.ltb_spec (Z.of_nat (length buf)) (n + len + 1)); [|lia].
    rewrite length_take, length_app, length_map, length_seq. lia. }
  rewrite (proj2 (andb_true_iff _ _)) by (split; [apply Z.ltb_lt|apply Z.leb_le]; lia). by eexists.
Qed.

(** What a function that works on a string field needs. *)
Lemma string_field h f type d : field_ok h f -> cls h (class_of f) = Some (type, d) -> type = BT_FIELD_CLASS_TYPE_STRING ->
  forall c buf len, f = SingleField c (StringField buf len) -> string_ok buf len /\ d = NoContents.
Proof.
  intros Hf Hc -> c buf len ->. pose proof (node_contents _ _ _ _ Hf Hc) as Hd. simpl in Hd. destruct d; try done. by destruct Hd as (_ & ?).
Qed.

Lemma string_change h c buf len buf' len' c' : field_ok h (SingleField c (StringField buf len)) -> field_class c' = field_class c ->
  string_ok buf' len' -> field_ok h (SingleField c' (StringField buf' len')) /\ class_of (SingleField c' (StringField buf' len')) = field_class c.
Proof.
  intros Hf Hc Hs. apply (node_change h _ (SingleField c' (StringField buf' len')) Hf); [done| |by apply List.Forall_nil].
  intros type d _ Hd. simpl in *. destruct d; try done. by destruct Hd.
Qed.

Lemma take_no_nul n (v : list Z) : bool_decide (0 ∉ take n v) = true -> no_nul (take n v).
Proof. intros Hn%bool_decide_eq_true. apply Forall_forall. intros x Hx ->. by apply Hn. Qed.

Lemma field_append_ok garbage h f v n f' : field_ok h f -> bt_field_string_append_with_length true garbage h f v n = Some f' -> field_ok h f' /\ class_of f' = class_of f.
Proof.
  unfold bt_field_string_append_with_length, BT_ASSERT_PRE_DEV_FIELD_HOT, BT_ASSERT_PRE_DEV_FIELD_TYPE, BT_ASSERT_PRE_DEV, type_of. intros Hf H.
  destruct (true && _); [done|]. destruct (get_fc h _) as [c|] eqn:Hc; [|done]. destruct (_ =? _) eqn:Ht; [|done].
  destruct (bool_decide (0 ∉ _)) eqn:Hnul; [|done]. simpl in H. destruct f as [c0 []| | | |]; try done. b2p.
  destruct (string_field h _ _ _ Hf (cls_get _ _ _ Hc) (eq_sym Ht) _ _ _ eq_refl) as [Hs _].
  destruct (append_inv _ _ _ _ _ _ _ Hs H) as (buf' & -> & Hn & Ha). eapply string_change; [exact Hf|done|].
  apply (appended_ok _ _ _ _ Hs (take_no_nul _ _ Hnul)) in Ha. rewrite length_take, Nat.min_l, Z2Nat.id in Ha by lia. exact Ha.
Qed.

Lemma clear_inv c buf len f' : string_ok buf len -> clear_string_field true (SingleField c (StringField buf len)) = Some f' ->
  exists buf', f' = SingleField (with_is_set c true) (StringField buf' 0) /\ string_ok buf' 0.
Proof.
  intros (Hl & Hbuf & _ & _) H. simpl in H. destruct (0 <? _); [|done]. injection H as <-. eexists. split; [done|].
  split; [rewrite length_insert; lia|]. split; [by rewrite length_insert|]. split; [|by apply List.Forall_nil].
  destruct buf; simpl in *; [lia|done].
Qed.

Lemma clear_ok h f f' : field_ok h f -> clear_string_field true f = Some f' -> field_ok h f' /\ class_of f' = class_of f.
Proof.
  intros Hf H. destruct f as [c0 []| | | |]; try done. pose proof Hf as Hf0. apply all_nodes_eq in Hf0 as [(type & d & Hc & Hd) _]. simpl in Hd.
  destruct d; try done. destruct Hd as (_ & Hs). destruct (clear_inv _ _ _ _ Hs H) as (buf' & -> & Hs'). by eapply string_change.
Qed.

Lemma set_string_ok garbage h f v f' : field_ok h f -> bt_field_string_set_value true garbage h f v = Some f' -> field_ok h f' /\ class_of f' = class_of f.
Proof.
  unfold bt_field_string_set_value, BT_ASSERT_PRE_DEV_FIELD_HOT, BT_ASSERT_PRE_DEV_FIELD_TYPE, BT_ASSERT_PRE_DEV. intros Hf H.
  destruct (true && _); [done|]. destruct (type_of h f); [|done]. destruct (true && _); [done|].
  destruct (clear_string_field true f) as [f1|] eqn:H1; [|done]. destruct (clear_ok _ _ _ Hf H1) as [Hf1 <-]. by eapply field_append_ok.
Qed.
Lemma string_clear_ok h f f' : field_ok h f -> bt_field_string_clear true h f = Some f' -> field_ok h f' /\ class_of f' = class_of f.
Proof.
  unfold bt_field_string_clear, BT_ASSERT_PRE_DEV_FIELD_HOT, BT_ASSERT_PRE_DEV_FIELD_TYPE, BT_ASSERT_PRE_DEV. intros Hf H.
  destruct (true && _); [done|]. destruct (type_of h f); [|done]. destruct (true && _); [done|]. by eapply clear_ok.
Qed.

(** * Subfields *)

Lemma wraps_gint n : 0 <= n < 2 ^ 31 -> wraps 32 n = n.
Proof. intros Hn. apply wraps_small; lia. Qed.

Lemma set_length_inv debug call fuel h f n f' h' : 0 <= n < 2 ^ 31 -> bt_field_array_dynamic_set_length true debug call fuel h f n = Some (f', h') ->
  exists c l k new, f = ArrayField c l k /\ field_frozen c = false /\ f' = ArrayField c (l ++ new) n /\ n <= Z.of_nat (length (l ++ new)) /\
    ((new = [] /\ h' = h) \/ exists type e x, cls h (class_of f) = Some (type, DynamicArrayContents e x) /\
       create_all (bt_field_create debug fuel) (replicate (Z.to_nat n - length l) e) h = Some (new, h')).
Proof.
  unfold bt_field_array_dynamic_set_length, BT_ASSERT_PRE_DEV_FIELD_TYPE, BT_ASSERT_PRE_DEV_FIELD_HOT, BT_ASSERT_PRE_DEV. intros Hn H.
  destruct (type_of h f); [|done]. destruct (true && _); [done|]. destruct (field_frozen (common f)) eqn:Hf; [done|].
  destruct f as [| | | |c l k]; try done. simpl in H. destruct (Z.ltb_spec (Z.of_nat (length l)) n) as [Hlt|Hge].
  - rewrite wraps_gint in H by done. rewrite (proj2 (Z.leb_le 0 n)) in H by lia. destruct (get_fc h (field_class c)) as [fc|] eqn:Hc; [|done].
    destruct (fc_data fc) as [| | | | | |e x|] eqn:Hd; try done. rewrite drop_ge, take_ge in H by lia. simpl in H.
    destruct (create_all _ _ h) as [[new h2]|] eqn:Hnew; [|done]. injection H as <- <-. exists c, l, k, new. split; [done|]. split; [done|]. split; [done|].
    assert (Hlen : length new = (Z.to_nat n - length l)%nat).
    { clear -Hnew. revert Hnew. generalize (Z.to_nat n - length l)%nat as m. intros m. revert h new. induction m as [|m IH]; intros h new H; simpl in H; [by injection H as <- <-|].
      destruct (bt_field_create debug fuel h e) as [[f h1]|]; [|done]. destruct (create_all _ _ h1) as [[fs h3]|] eqn:E; [|done]. injection H as <- <-.
      simpl. f_equal. by eapply IH. }
    rewrite length_app, Hlen. split; [lia|]. right. exists (fc_type fc), e, x. split; [|done]. pose proof (cls_get _ _ _ Hc) as Hcls. rewrite Hd in Hcls. exact Hcls.
  - injection H as <- <-. exists c, l, k, []. rewrite app_nil_r. split; [done|]. split; [done|]. split; [done|]. split; [lia|by left].
Qed.

Lemma set_length_ok debug call fuel h f n f' h' type d : 0 <= n < 2 ^ 31 -> field_ok h f -> cls h (class_of f) = Some (type, d) ->
  Forall (class_tree fuel h) (class_children d) -> bt_field_array_dynamic_set_length true debug call fuel h f n = Some (f', h') ->
  classes_eq h h' /\ field_ok h f' /\ class_of f' = class_of f.
Proof.
  intros Hn Hf Hc Ht H. assert (Hdyn : is_dynamic_array_type type = true).
  { unfold bt_field_array_dynamic_set_length, BT_ASSERT_PRE_DEV_FIELD_TYPE, type_of in H. apply get_cls in Hc as (c0 & Hc0 & <- & <-). unfold class_of in Hc0.
    rewrite Hc0 in H. unfold BT_ASSERT_PRE_DEV in H. by destruct (is_dynamic_array_type (fc_type c0)). }
  apply set_length_inv in H as (c & l & k & new & -> & _ & -> & Hlen & Hnew); [|done]. pose proof (node_contents _ _ _ _ Hf Hc) as Hd.
  assert (Hnews : classes_eq h h' /\ Forall (field_ok h) new /\ forall e x, d = DynamicArrayContents e x -> class_of <$> new = replicate (length new) e).
  { destruct Hnew as [[-> ->]|(type' & e & x & Hc' & Hnew)]; [done|]. assert (E : Some (type, d) = Some (type', DynamicArrayContents e x)) by congruence.
    injection E as -> ->. destruct (create_all_ok debug fuel (replicate (Z.to_nat n - length l) e) h new h') as (He & Hcl & Hok); [|exact Hnew|].
    - intros h0 y g h3 Hy He0 Hg. apply elem_of_replicate in Hy as [-> _]. eapply field_created_ok; [|exact Hg]. eapply class_tree_eq; [exact He0|].
      by apply Forall_cons in Ht as [Ht _].
    - split; [done|]. split; [done|]. intros e' x' [= <- <-]. rewrite Hcl. f_equal. by rewrite <- (length_fmap class_of new), Hcl, length_replicate. }
  destruct Hnews as (He & Hok & Hcl). split; [done|]. apply node_change; [done|done| |].
  - intros type' d' Hc' _. assert (E : (type', d') = (type, d)) by congruence. injection E as -> ->. simpl in Hd |- *.
    destruct d as [| | | | |e len|e x|]; try done; [destruct Hd as [-> _]; done|]. destruct Hd as (_ & Hl & _). split; [done|].
    rewrite fmap_app, Hl, (Hcl e x) by done. rewrite length_app in Hlen |- *. rewrite replicate_add. split; [done|lia].
  - apply Forall_app. split; [|done]. by apply subfields_ok in Hf.
Qed.

Lemma has_field_ok h f b f' : field_ok h f -> bt_field_option_set_has_field true h f b = Some f' -> field_ok h f' /\ class_of f' = class_of f.
Proof.
  unfold bt_field_option_set_has_field, BT_ASSERT_PRE_DEV_FIELD_TYPE, BT_ASSERT_PRE_DEV_FIELD_HOT, BT_ASSERT_PRE_DEV. intros Hf H.
  destruct (type_of h f); [|done]. destruct (true && _); [done|]. destruct (true && _); [done|]. destruct f as [| |c s b0| |]; try done. injection H as <-.
  apply node_change; [done|done|by intros|by apply subfields_ok in Hf].
Qed.
Lemma select_ok h f i f' : field_ok h f -> bt_field_variant_select_option_by_index true h f i = Some f' -> field_ok h f' /\ class_of f' = class_of f.
Proof.
  unfold bt_field_variant_select_option_by_index, BT_ASSERT_PRE_DEV_FIELD_TYPE, BT_ASSERT_PRE_DEV_FIELD_HOT, BT_ASSERT_PRE_DEV. intros Hf H.
  destruct (type_of h f); [|done]. destruct (true && _); [done|]. destruct (true && _); [done|]. destruct f as [| | |c l b k|]; try done.
  destruct (true && _); [done|]. destruct (_ && _) eqn:Hi; [|done]. injection H as <-. b2p.
  apply node_change; [done|done| |by apply subfields_ok in Hf]. intros type d _ Hd. simpl in *. destruct d; try done.
  destruct Hd as (? & ? & _). repeat split; try done; lia.
Qed.

(** * Resetting and freezing *)

(** A change of all the fields of a field that keeps their classes and shapes. *)
Lemma map_field_ok h (g : bt_field -> bt_field) : (forall f, class_of (g f) = class_of f) -> (forall f, subfields (g f) = g <$> subfields f) ->
  (forall type d f, contents_ok type d f -> contents_ok type d (g f)) -> forall f, field_ok h f -> field_ok h (g f).
Proof.
  intros Hc Hs Hd f. induction f as [c v|c l IH|c s b IH|c l b i IH|c l n IH] using bt_field_induction; unfold field_ok; rewrite (all_nodes_eq _ (g _)), all_nodes_eq;
    intros [(type & d & Ht & Hk) Hl]; (split; [exists type, d; rewrite Hc; split; [done|by apply Hd]|]); rewrite Hs; simpl in *;
    apply Forall_fmap; rewrite ?Forall_forall in *; intros x Hx; try (by apply elem_of_nil in Hx); try (apply IH; [done|by apply Hl]).
  apply list_elem_of_singleton in Hx as ->. apply IH, Hl. by apply list_elem_of_singleton.
Qed.

Lemma reset_class f : class_of (_bt_field_reset f) = class_of f.
Proof. by destruct f. Qed.
Lemma reset_subfields f : subfields (_bt_field_reset f) = _bt_field_reset <$> subfields f.
Proof. by destruct f. Qed.
Lemma set_frozen_class b f : class_of (_bt_field_set_is_frozen b f) = class_of f.
Proof. by destruct f. Qed.
Lemma set_frozen_subfields b f : subfields (_bt_field_set_is_frozen b f) = _bt_field_set_is_frozen b <$> subfields f.
Proof. by destruct f. Qed.

Lemma map_class_of (g : bt_field -> bt_field) (l : list bt_field) : (forall f, class_of (g f) = class_of f) -> class_of <$> map g l = class_of <$> l.
Proof. intros Hg. induction l as [|x l IH]; [done|]. simpl. rewrite Hg. f_equal. exact IH. Qed.

Lemma reset_contents type d f : contents_ok type d f -> contents_ok type d (_bt_field_reset f).
Proof.
  destruct f as [c v|c l|c s b|c l b i|c l n]; simpl; try done; rewrite ?(map_class_of _ _ reset_class), ?length_map; try done.
  by rewrite reset_class.
Qed.
Lemma set_frozen_contents b type d f : contents_ok type d f -> contents_ok type d (_bt_field_set_is_frozen b f).
Proof.
  destruct f as [c v|c l|c s b0|c l b0 i|c l n]; simpl; try done; rewrite ?(map_class_of _ _ (set_frozen_class b)), ?length_map; try done.
  by rewrite set_frozen_class.
Qed.

Lemma reset_ok h f : field_ok h f -> field_ok h (_bt_field_reset f).
Proof. apply map_field_ok; [apply reset_class|apply reset_subfields|apply reset_contents]. Qed.
Lemma set_frozen_ok h b f : field_ok h f -> field_ok h (_bt_field_set_is_frozen b f).
Proof. apply map_field_ok; [apply set_frozen_class|apply set_frozen_subfields|apply set_frozen_contents]. Qed.

(** * Every step *)

Lemma field_op_ok debug call garbage h f h' f' : field_op debug call garbage h f h' f' -> field_ok h f ->
  classes_eq h h' /\ field_ok h f' /\ class_of f' = class_of f.
Proof.
  intros H Hf. destruct H as [v f' H|v f' Hv H|v f' Hv H|v f' Hv H|v f' H|v f' H|v n f' H|v f' H|f' H|fuel n f' h' e x Hn Hc Ht H|b f' H|i f' H| |b];
    try (split; [done|]).
  - by eapply bool_ok.
  - by eapply bit_array_ok.
  - by eapply signed_ok.
  - by eapply unsigned_ok.
  - by eapply single_precision_ok.
  - by eapply double_precision_ok.
  - by eapply field_append_ok.
  - by eapply set_string_ok.
  - by eapply string_clear_ok.
  - by eapply set_length_ok.
  - by eapply has_field_ok.
  - by eapply select_ok.
  - split; [by apply reset_ok|apply reset_class].
  - split; [by apply set_frozen_ok|apply set_frozen_class].
Qed.

Lemma field_step_ok debug call garbage h f h' f' : field_step debug call garbage (h, f) (h', f') -> field_ok h f ->
  classes_eq h h' /\ field_ok h' f' /\ class_of f' = class_of f.
Proof.
  intros H Hf. inversion H as [p s s' h0 f0 h1 f1 Hs Hop Hu]; subst. destruct (field_op_ok _ _ _ _ _ _ _ Hop (field_at_ok _ _ _ _ Hf Hs)) as (He & Hs' & Hc).
  split; [done|]. clear H Hop. revert f f' Hs Hu Hf.
  induction p as [|i p IH]; intros f f' Hs Hu Hf; simpl in Hs, Hu.
  - injection Hs as <-. injection Hu as <-. split; [|done]. by eapply field_ok_eq.
  - destruct (subfields f !! i) as [s0|] eqn:Hi; [|done]. destruct (update_at s0 p _) as [s1|] eqn:Hs1; [|done]. injection Hu as <-.
    assert (Hf0 : field_ok h s0) by (eapply Forall_lookup_1; [by apply subfields_ok|done]).
    destruct (IH s0 s1 Hs Hs1 Hf0) as [Ho Hcl]. split; [|unfold class_of; by rewrite common_with].
    pose proof Hf as Hf1. apply all_nodes_eq in Hf1 as [(type & d & Hcls & Hd) Hl]. apply all_nodes_eq. split.
    + exists type, d. rewrite (He _). split; [unfold class_of; by rewrite common_with|by eapply contents_ok_subfield].
    + rewrite (subfields_with _ _ _ _ Hi). apply Forall_insert; [|done]. eapply Forall_impl; [exact Hl|]. intros x. by apply field_ok_eq.
Qed.
