(* ===== verification/FloatConv.v ===== *)
(** A [float] that is kept as a [double], as the fields of [Field] keep the values of
    single-precision reals, is not changed. *)

From stdpp Require Import base numbers.
From Stdlib Require Import SpecFloat.
From S2P Require Import Prelude Field.

Lemma digits2_shift p m : digits2_pos (Pos.iter xO m p) = (digits2_pos m + p)%positive.
Proof. induction p as [|p IH] using Pos.peano_ind; [simpl; lia|]. rewrite Pos.iter_succ. simpl. rewrite IH. lia. Qed.

Lemma iter_pos_iter {A} (f : A -> A) p : forall x, @SpecFloat.iter_pos A f p x = Pos.iter f x p.
Proof. induction p as [p IH|p IH|]; intros x; simpl; rewrite ?IH; [by rewrite <- !Pos.iter_swap|done|done]. Qed.

Abbreviation exact_record m := {| shr_m := Zpos m; shr_r := false; shr_s := false |}.

Lemma shr_shift p m : @SpecFloat.iter_pos _ shr_1 p (exact_record (Pos.iter xO m p)) = exact_record m.
Proof.
  rewrite iter_pos_iter. induction p as [|p IH] using Pos.peano_ind; [done|]. rewrite Pos.iter_succ_r, Pos.iter_succ. exact IH.
Qed.

(** Shifting back a mantissa that was shifted, or not at all. *)
Lemma shr_fexp_exact prec emax m e : fexp prec emax (Zpos (digits2_pos m) + e) = e -> shr_fexp prec emax (Zpos m) e loc_Exact = (exact_record m, e).
Proof. intros He. unfold shr_fexp. cbn [shr_record_of_loc Zdigits2]. by rewrite He, Z.sub_diag. Qed.
Lemma shr_fexp_shifted prec emax m e p : fexp prec emax (Zpos (digits2_pos m) + e) = e ->
  shr_fexp prec emax (Zpos (Pos.iter xO m p)) (e - Zpos p) loc_Exact = (exact_record m, e).
Proof.
  intros He. unfold shr_fexp. cbn [shr_record_of_loc Zdigits2]. rewrite digits2_shift.
  replace (Zpos (digits2_pos m + p) + (e - Zpos p)) with (Zpos (digits2_pos m) + e) by lia. rewrite He.
  replace (e - (e - Zpos p)) with (Zpos p) by lia. cbn [shr]. rewrite shr_shift. f_equal. lia.
Qed.

(** Rounding what fits exactly, and what was shifted. *)
Lemma binary_round_aux_exact prec emax s m e : fexp prec emax (Zpos (digits2_pos m) + e) = e -> e <= emax - prec ->
  binary_round_aux prec emax s (Zpos m) e loc_Exact = S754_finite s m e.
Proof.
  intros He Hle. unfold binary_round_aux. rewrite shr_fexp_exact by done. cbn [loc_of_shr_record round_nearest_even shr_m].
  rewrite shr_fexp_exact by done. cbn [shr_m]. by rewrite (proj2 (Z.leb_le _ _) Hle).
Qed.
Lemma binary_round_aux_shifted prec emax s m e p : fexp prec emax (Zpos (digits2_pos m) + e) = e -> e <= emax - prec ->
  binary_round_aux prec emax s (Zpos (Pos.iter xO m p)) (e - Zpos p) loc_Exact = S754_finite s m e.
Proof.
  intros He Hle. unfold binary_round_aux. rewrite shr_fexp_shifted by done. cbn [loc_of_shr_record round_nearest_even shr_m].
  rewrite shr_fexp_exact by done. cbn [shr_m]. by rewrite (proj2 (Z.leb_le _ _) Hle).
Qed.

Lemma normalize_round prec emax s m e : binary_normalize prec emax (cond_Zopp s (Zpos m)) e s = binary_round prec emax s m e.
Proof. by destruct s. Qed.

Lemma float_double_roundtrip v : valid_binary 24 128 v = true -> float_of_double (double_of_float v) = v.
Proof.
  destruct v as [| | |s m e]; try done. cbn [valid_binary]. unfold bounded, canonical_mantissa. intros H. b2p.
  set (d := digits2_pos m) in *. assert (Hd : Zpos d <= 24 /\ -149 <= e) by (unfold fexp, emin in *; lia).
  cbn [double_of_float]. rewrite normalize_round. unfold binary_round. fold d.
  destruct (Z.sub 53 (Zpos d)) as [|p|p] eqn:Hp; [lia| |lia].
  assert (He : fexp 53 1024 (Zpos d + e) = e - Zpos p) by (unfold fexp, emin; lia). rewrite He. unfold shl_align.
  replace (e - Zpos p - e) with (Zneg p) by lia. rewrite binary_round_aux_exact; [|rewrite digits2_shift; fold d; unfold fexp, emin; lia|lia].
  cbn [float_of_double]. rewrite normalize_round. unfold binary_round. rewrite digits2_shift. fold d.
  assert (He2 : fexp 24 128 (Zpos (d + p) + (e - Zpos p)) = e) by (replace (Zpos (d + p) + (e - Zpos p)) with (Zpos d + e) by lia; done). rewrite He2.
  unfold shl_align. replace (e - (e - Zpos p)) with (Zpos p) by lia. by apply binary_round_aux_shifted.
Qed.

(** The number of the digits of a mantissa. *)
Lemma digits_size m : digits2_pos m = Pos.size m.
Proof. induction m as [m IH|m IH|]; simpl; [by rewrite IH..|done]. Qed.
Lemma digits_range m : 2 ^ (Zpos (digits2_pos m) - 1) <= Zpos m < 2 ^ Zpos (digits2_pos m).
Proof.
  rewrite digits_size. pose proof (Pos.size_gt m) as Hg. pose proof (Pos.size_le m) as Hl. split.
  - assert (H : 2 ^ Zpos (Pos.size m) <= 2 * Zpos m) by (rewrite <- Pos2Z.inj_pow; lia).
    replace (Zpos (Pos.size m)) with (Z.succ (Zpos (Pos.size m) - 1)) in H by lia. rewrite Z.pow_succ_r in H by lia. lia.
  - rewrite <- Pos2Z.inj_pow. lia.
Qed.
Lemma digits_le m n : 0 <= n -> Zpos m < 2 ^ n -> Zpos (digits2_pos m) <= n.
Proof.
  intros Hn Hm. pose proof (digits_range m) as [Hl _]. destruct (Z.le_gt_cases (Zpos (digits2_pos m)) n) as [|Hlt]; [done|].
  pose proof (Z.pow_le_mono_r 2 n (Zpos (digits2_pos m) - 1) ltac:(lia) ltac:(lia)). lia.
Qed.
Lemma digits_ge m n : 2 ^ n <= Zpos m -> n < Zpos (digits2_pos m).
Proof.
  intros Hm. pose proof (digits_range m) as [_ Hl]. destruct (Z.le_gt_cases (Zpos (digits2_pos m)) n) as [Hlt|]; [|done].
  pose proof (Z.pow_le_mono_r 2 (Zpos (digits2_pos m)) n ltac:(lia) ltac:(lia)). lia.
Qed.
