(* ===== verification/FieldClaims.v ===== *)
(** What fields ensure ([Field]): their creation and their end, their types, the values that
    they give back, freezing and resetting. *)

From stdpp Require Import list gmap.
From Stdlib Require Import SpecFloat.
From S2P Require Import Prelude Object IntRange IrObj FieldClass FieldClassFacts Clock Field FieldFacts FieldCreate FieldOps FloatConv.

(** * Being set *)

Lemma is_set_all (l : list bt_field) : Forall (fun s => is_Some (_bt_field_is_set s)) l ->
  is_Some ((fix all (l : list bt_field) : option bool :=
    match l with [] => Some true | s :: l => do b <- _bt_field_is_set s; if b : bool then all l else Some false end) l).
Proof. induction 1 as [|s l [b Hb] _ IH]; [by eexists|]. rewrite Hb. destruct b; [done|by eexists]. Qed.
Lemma is_set_at (l : list bt_field) : Forall (fun s => is_Some (_bt_field_is_set s)) l -> forall i, (i < length l)%nat ->
  is_Some ((fix at_index (l : list bt_field) (i : nat) : option bool :=
    match l, i with [], _ => None | s :: _, O => _bt_field_is_set s | _ :: l, S i => at_index l i end) l i).
Proof. induction 1 as [|s l Hs _ IH]; intros i Hi; simpl in Hi; [lia|]. destruct i as [|i]; [done|]. apply IH. lia. Qed.
Lemma is_set_first (l : list bt_field) : Forall (fun s => is_Some (_bt_field_is_set s)) l -> forall n, (n <= length l)%nat ->
  is_Some ((fix all (l : list bt_field) (n : nat) : option bool :=
    match n, l with
    | O, _ => Some true
    | S _, [] => None
    | S n, s :: l => do b <- _bt_field_is_set s; if b : bool then all l n else Some false
    end) l n).
Proof.
  induction 1 as [|s l [b Hb] _ IH]; intros n Hn; simpl in Hn; [destruct n; [by eexists|lia]|]. destruct n as [|n]; [by eexists|].
  rewrite Hb. destruct b; [apply IH; lia|by eexists].
Qed.

(** Whether a well-typed field is set can always be told. *)
Lemma is_set_total h f : field_ok h f -> is_Some (_bt_field_is_set f).
Proof.
  induction f as [c v|c l IH|c s b IH|c l b i IH|c l n IH] using bt_field_induction; intros Hf;
    pose proof Hf as Hf0; apply all_nodes_eq in Hf0 as [(type & d & _ & Hd) Hl]; simpl in *.
  - by eexists.
  - apply is_set_all. rewrite Forall_forall in *. intros s Hs. apply IH; [done|by apply Hl].
  - apply Forall_cons in Hl as [Hl _]. destruct b; [by apply IH|by eexists].
  - destruct b; [|by eexists]. apply is_set_at; [rewrite Forall_forall in *; intros s Hs; apply IH; [done|by apply Hl]|].
    destruct d; try done. destruct Hd as (_ & _ & ? & Hi). specialize (Hi eq_refl). lia.
  - apply is_set_first; [rewrite Forall_forall in *; intros s Hs; apply IH; [done|by apply Hl]|]. destruct d; try done; lia.
Qed.

(** * Types *)

(** A length of 2^32 makes no element, since GLib's size is a [gint]: an array of that length
    has nothing at its first index. *)
Lemma array_length_wraps debug call fuel h c k fc e x len : get_fc h (field_class c) = Some fc -> is_dynamic_array_type (fc_type fc) = true ->
  fc_data fc = DynamicArrayContents e x -> field_frozen c = false -> 0 < len -> wraps 32 len = 0 ->
  exists f', bt_field_array_dynamic_set_length true debug call fuel h (ArrayField c [] k) len = Some (f', h) /\
    bt_field_array_get_length true h f' = Some len /\ bt_field_array_borrow_element_field_by_index true h f' 0 = None /\
    _bt_field_is_set f' = None.
Proof.
  intros Hc Ht Hd Hf Hl Hw. exists (ArrayField c [] len).
  unfold bt_field_array_dynamic_set_length, bt_field_array_get_length, bt_field_array_borrow_element_field_by_index, BT_ASSERT_PRE_DEV_FIELD_TYPE,
    BT_ASSERT_PRE_DEV_FIELD_HOT, BT_ASSERT_PRE_DEV, type_of. cbn [common]. rewrite Hc. unfold is_array_type. rewrite Ht, orb_true_r, Hf, Hw.
  assert ((Z.of_nat (length (@nil bt_field)) <? len) = true) as -> by (apply Z.ltb_lt; simpl; lia).
  assert ((0 <? len) = true) as -> by lia. simpl. rewrite Hd. simpl. split; [done|]. split; [done|]. split; [done|].
  destruct (Z.to_nat len) eqn:E; [lia|done].
Qed.

(** C13: a field that was created for a tree of field classes is a tree of fields of the same
    shape after any steps of [field_step] on it and on the fields under it: integers are in
    the range of their class, bit arrays have its length, strings end with a null character,
    arrays have the elements of their length, selected options exist; and whether it is set
    can always be told.  A step is one call of a setter of any kind of field, of resetting
    or freezing, that succeeds with an argument of its C type; the length given to a dynamic
    array is less than 2^31 and the recursion that creates the elements has enough fuel for
    their class.  The bound of the length is needed: with 2^32, setting the length of a
    dynamic array without elements succeeds, but makes no element, and whether the array is
    set cannot be told. *)
Theorem fields_stay_well_typed debug call garbage n h a f h1 h2 g :
  class_tree n h a -> bt_field_create debug n h a = Some (f, h1) -> rtc (field_step debug call garbage) (h1, f) (h2, g) ->
  (classes_eq h h2 /\ field_ok h2 g /\ class_of g = a /\ is_Some (_bt_field_is_set g)) /\
  forall fuel c k fc e x, get_fc h2 (field_class c) = Some fc -> is_dynamic_array_type (fc_type fc) = true ->
    fc_data fc = DynamicArrayContents e x -> field_frozen c = false ->
    exists f', bt_field_array_dynamic_set_length true debug call fuel h2 (ArrayField c [] k) (2 ^ 32) = Some (f', h2) /\
      _bt_field_is_set f' = None.
Proof.
  intros Ht Hf Hs. split; [|intros fuel c k fc e x Hc Hty Hd Hfr; destruct (array_length_wraps debug call fuel h2 c k fc e x (2 ^ 32) Hc Hty Hd Hfr) as (f' & ? & _ & _ & ?); [done|done|by exists f']].
  destruct (field_created_ok debug n h a f h1 Ht Hf) as (He & Hc & Hok). apply (field_ok_eq _ _ _ He) in Hok.
  assert (Hinv : forall x y, rtc (field_step debug call garbage) x y -> field_ok x.1 x.2 -> classes_eq x.1 y.1 /\ field_ok y.1 y.2 /\ class_of y.2 = class_of x.2).
  { clear. intros x y Hs. induction Hs as [x|[hx fx] [hy fy] z Hxy _ IH]; intros Hx; [done|]. simpl in *.
    destruct (field_step_ok _ _ _ _ _ _ _ Hxy Hx) as (He & Hy & Hc). destruct (IH Hy) as (He' & Hz & Hc'). split; [by etrans|]. split; [done|congruence]. }
  destruct (Hinv _ _ Hs Hok) as (He2 & Hg & Hcg). simpl in *. split; [by etrans|]. split; [done|]. split; [congruence|by eapply is_set_total].
Qed.

(** * Creating and destroying *)

(** C14: creating a field for a tree of field classes, which have room for the references,
    ends and gives a new field of their shape in which nothing is set, selected or frozen,
    and takes one reference of its class for each field; destroying it then gives back the
    classes as they were. *)
Theorem field_create_exact debug call n h a : class_tree n h a ->
  Forall (fun x => has_room h x (Z.of_nat (length (created n h a)))) (created n h a) ->
  (forall x o, x ∈ created n h a -> h !! x = Some o -> exists f, release_func (base o) = Some (ReleaseFunc f)) ->
  exists f h', bt_field_create debug n h a = Some (f, h') /\ class_of f = a /\ field_ok h' f /\ all_nodes new_node f /\
    (forall x, h' !! x = bump (occurrences (created n h a) x) <$> h !! x) /\
    bt_field_destroy debug call f h' = Some h.
Proof.
  intros Ht Hr Hf. destruct (create_spec debug n h a Ht Hr) as (f & Hc & Hcl & Hok & Hnew & Hcls). eexists f, _. split; [exact Hc|]. split; [done|].
  split; [eapply field_ok_eq; [apply inc_refs_classes|done]|]. split; [done|].
  assert (Hat : forall x, inc_refs h (created n h a) !! x = bump (occurrences (created n h a) x) <$> h !! x).
  { intros x. unfold inc_refs. rewrite (bump_refs inc_ref 1) by done. by rewrite Z.mul_1_l. }
  split; [exact Hat|]. rewrite destroy_spec, Hcls, dec_inc_refs; [done|].
  rewrite Hcls. rewrite Forall_forall in *. intros x Hx. destruct (Hr x Hx) as (o & Ho & Hs & _ & Hpos & Hlt).
  destruct (Hf x o Hx Ho) as [r Hrel]. exists (bump (occurrences (created n h a) x) o), r. rewrite Hat, Ho. split; [done|].
  unfold bump. rewrite base_set_base. unfold set_ref_count. cbn [is_shared release_func ref_count]. split; [done|]. split; [done|].
  pose proof (length_filter (fun y => y = x) (created n h a)). unfold occurrences. lia.
Qed.

(** * Values *)

Lemma type_of_cls h f type : type_of h f = Some type -> exists d, cls h (class_of f) = Some (type, d).
Proof. unfold type_of, cls, class_of. destruct (get_fc h _) as [c|]; [|done]. intros [= <-]. by exists (fc_data c). Qed.

(** The cases that a type leaves for a well-typed field. *)
Ltac field_shape Hd :=
  match type of Hd with contents_ok _ ?d ?f => destruct f as [c w| | | |], d end; try done; simpl in Hd;
  repeat match type of Hd with _ /\ _ => let H := fresh "Hk" in destruct Hd as [H Hd] end; try done;
  try match type of Hd with match ?w with _ => _ end => destruct w | single_ok _ _ ?w => destruct w end; try done; simpl in Hd;
  repeat match type of Hd with _ /\ _ => let H := fresh "Hk" in destruct Hd as [H Hd] end; try done.

(** A setter that succeeds, and its getter. *)
Lemma set_get_single {A} h f (check : Z -> bool) (set : single_value -> option single_value) (get : single_value -> option A) c v v' x :
  f = SingleField c v -> (exists type, type_of h f = Some type /\ check type = true) -> field_frozen c = false -> set v = Some v' -> get v' = Some x ->
  exists f', set_single true h f check set = Some f' /\ get_single true h f' check get = Some x.
Proof.
  intros -> (type & Ht & Hk) Hf Hs Hg. unfold set_single, get_single, BT_ASSERT_PRE_DEV_FIELD_TYPE, BT_ASSERT_PRE_DEV_FIELD_HOT, BT_ASSERT_PRE_DEV_FIELD_IS_SET, BT_ASSERT_PRE_DEV.
  rewrite Ht, Hk. cbn [common negb andb]. rewrite Hf, Hs. eexists. split; [done|]. cbn [_bt_field_is_set field_is_set with_is_set bt_field_set_single].
  change (type_of h (SingleField (with_is_set c true) v')) with (type_of h (SingleField c v)). by rewrite Ht, Hk.
Qed.

(** Two types that differ. *)
Ltac type_absurd := match goal with H : _ = _ |- _ => discriminate H | H : _ = _ |- _ => vm_compute in H; discriminate H end.

Lemma signed_integer type : is_signed_type type = true -> is_integer_type type = true.
Proof. unfold is_signed_type. intros Ht%bool_decide_eq_true. type_cases Ht; rewrite Ht; reflexivity. Qed.
Lemma unsigned_integer type : is_unsigned_type type = true -> is_integer_type type = true.
Proof. unfold is_unsigned_type. intros Ht%bool_decide_eq_true. type_cases Ht; rewrite Ht; reflexivity. Qed.

Section values.
Context (garbage : nat -> Z) (h : ir) (f : bt_field) (type : Z) (d : fc_contents).
Context (Hf : field_ok h f) (Hc : cls h (class_of f) = Some (type, d)) (Hhot : field_frozen (common f) = false).

Lemma field_type_is : type_of h f = Some type.
Proof. apply get_cls in Hc as (c & Hg & <- & _). unfold type_of. unfold class_of in Hg. by rewrite Hg. Qed.

Lemma bool_get_set v : type = BT_FIELD_CLASS_TYPE_BOOL ->
  exists f', bt_field_bool_set_value true h f v = Some f' /\ bt_field_bool_get_value true h f' = Some v.
Proof.
  intros Ht. pose proof field_type_is as Hti. pose proof (node_contents _ _ _ _ Hf Hc) as Hd. rewrite Ht in Hd, Hti. field_shape Hd.
  eapply set_get_single; [done|eexists; split; [exact Hti|done]|exact Hhot|done|done].
Qed.
Lemma bit_array_get_set v length flags : d = BitArrayContents length flags -> is_u64 v ->
  exists f', bt_field_bit_array_set_value_as_integer true h f v = Some f' /\ bt_field_bit_array_get_value_as_integer true h f' = Some (v mod 2 ^ length).
Proof.
  intros Hd0 Hv. pose proof field_type_is as Hti. pose proof (node_contents _ _ _ _ Hf Hc) as Hd. rewrite Hd0 in Hd.
  apply get_cls in Hc as (fc & Hfc & Hfc1 & Hfc2). unfold class_of in Hfc. unfold bt_field_bit_array_set_value_as_integer. rewrite Hfc, Hfc2, Hd0. clear Hd0.
  destruct f as [c [ |z| | | ]| | | |]; try done. destruct Hd as (-> & Hlen & _). rewrite bit_mask by done.
  eapply set_get_single; [done|eexists; split; [exact Hti|done]|exact Hhot|done|done].
Qed.

(** The field of an integer, and the range of its class. *)
Lemma integer_shape : is_integer_type type = true ->
  exists c z fc range, f = SingleField c (IntegerField z) /\ get_fc h (field_class c) = Some fc /\ integer_range fc = Some range /\ integer_range (BtFieldClass (fc_base fc) type false false 0 d) = Some range /\ 1 <= range <= 64.
Proof.
  intros Ht. pose proof (node_contents _ _ _ _ Hf Hc) as Hd. unfold is_integer_type in Ht. apply bool_decide_eq_true in Ht.
  pose proof Hc as Hc'. apply get_cls in Hc' as (fc & Hfc & Hfc1 & Hfc2). unfold class_of in Hfc.
  destruct f as [c v|c l|c s b|c l b i|c l n]; simpl in Hd.
  - destruct v, d; simpl in Hd; try done; try (exfalso; type_cases Ht; rewrite Ht in Hd; decompose [and] Hd; type_absurd).
    + destruct Hd as (_ & _ & Hr & _). do 4 eexists. split; [reflexivity|]. split; [exact Hfc|]. split; [unfold integer_range; rewrite Hfc2; reflexivity|by split].
    + destruct Hd as (_ & _ & Hr & _). do 4 eexists. split; [reflexivity|]. split; [exact Hfc|]. split; [unfold integer_range; rewrite Hfc2; reflexivity|by split].
  - exfalso. destruct d; try done. destruct Hd as [-> _]. type_cases Ht; done.
  - exfalso. destruct d; try done. destruct Hd as [Hd _]. type_cases Ht; rewrite Ht in Hd; done.
  - exfalso. destruct d; try done. destruct Hd as [Hd _]. type_cases Ht; rewrite Ht in Hd; done.
  - exfalso. destruct d; try done; [destruct Hd as [-> _]|destruct Hd as [Hd _]]; type_cases Ht; try done; rewrite Ht in Hd; done.
Qed.

(** The range of the values of the class. *)
Definition value_range : option Z := integer_range (BtFieldClass bt_object_init_unique type false false 0 d).

Lemma signed_get_set v : is_signed_type type = true -> is_i64 v ->
  exists range, value_range = Some range /\
    if bool_decide (- 2 ^ (range - 1) <= v < 2 ^ (range - 1))
    then exists f', bt_field_integer_signed_set_value true h f v = Some f' /\ bt_field_integer_signed_get_value true h f' = Some v
    else bt_field_integer_signed_set_value true h f v = None.
Proof.
  intros Ht Hv. pose proof field_type_is as Hti. destruct (integer_shape (signed_integer _ Ht)) as (c & z & fc & range & -> & Hfc & Hr & Hr' & Hlen).
  exists range. split; [exact Hr'|]. unfold bt_field_integer_signed_set_value, set_integer. cbn [common]. rewrite Hfc, Hr.
  destruct (value_is_in_range_exact range v Hlen) as [Hs _]. specialize (Hs Hv). case_bool_decide as Hin.
  - eapply set_get_single; [done|exists type; by split|exact Hhot|by rewrite (proj2 Hs)|]. simpl. f_equal. by apply wraps_of_wrapu.
  - unfold set_single, BT_ASSERT_PRE_DEV_FIELD_TYPE, BT_ASSERT_PRE_DEV_FIELD_HOT, BT_ASSERT_PRE_DEV. rewrite Hti, Ht. cbn [negb andb]. rewrite Hhot. cbn [negb].
    by destruct (bt_util_value_is_in_range_signed range v); [destruct Hin; apply Hs|].
Qed.
Lemma unsigned_get_set v : is_unsigned_type type = true -> is_u64 v ->
  exists range, value_range = Some range /\
    if bool_decide (v < 2 ^ range)
    then exists f', bt_field_integer_unsigned_set_value true h f v = Some f' /\ bt_field_integer_unsigned_get_value true h f' = Some v
    else bt_field_integer_unsigned_set_value true h f v = None.
Proof.
  intros Ht Hv. pose proof field_type_is as Hti. destruct (integer_shape (unsigned_integer _ Ht)) as (c & z & fc & range & -> & Hfc & Hr & Hr' & Hlen).
  exists range. split; [exact Hr'|]. unfold bt_field_integer_unsigned_set_value, set_integer. cbn [common]. rewrite Hfc, Hr.
  destruct (value_is_in_range_exact range v Hlen) as [_ Hs]. specialize (Hs Hv). case_bool_decide as Hin.
  - eapply set_get_single; [done|exists type; by split|exact Hhot|by rewrite (proj2 Hs)|]. simpl. f_equal. unfold is_u64, UINT64_MAX in Hv. apply wrapu_small. lia.
  - unfold set_single, BT_ASSERT_PRE_DEV_FIELD_TYPE, BT_ASSERT_PRE_DEV_FIELD_HOT, BT_ASSERT_PRE_DEV. rewrite Hti, Ht. cbn [negb andb]. rewrite Hhot. cbn [negb].
    by destruct (bt_util_value_is_in_range_unsigned range v); [destruct Hin; apply Hs|].
Qed.
Lemma double_get_set v : type = BT_FIELD_CLASS_TYPE_DOUBLE_PRECISION_REAL ->
  exists f', bt_field_real_double_precision_set_value true h f v = Some f' /\ bt_field_real_double_precision_get_value true h f' = Some v.
Proof.
  intros Ht. pose proof field_type_is as Hti. pose proof (node_contents _ _ _ _ Hf Hc) as Hd. rewrite Ht in Hd, Hti. field_shape Hd.
  eapply set_get_single; [done|eexists; split; [exact Hti|done]|exact Hhot|done|done].
Qed.
Lemma single_get_set v : type = BT_FIELD_CLASS_TYPE_SINGLE_PRECISION_REAL -> valid_binary 24 128 v = true ->
  exists f', bt_field_real_single_precision_set_value true h f v = Some f' /\ bt_field_real_single_precision_get_value true h f' = Some v.
Proof.
  intros Ht Hv. pose proof field_type_is as Hti. pose proof (node_contents _ _ _ _ Hf Hc) as Hd. rewrite Ht in Hd, Hti. field_shape Hd.
  eapply set_get_single; [done|eexists; split; [exact Hti|done]|exact Hhot|done|]. f_equal. by apply float_double_roundtrip.
Qed.

Lemma string_shape : type = BT_FIELD_CLASS_TYPE_STRING -> exists c buf len, f = SingleField c (StringField buf len) /\ string_ok buf len.
Proof.
  intros Ht. pose proof (node_contents _ _ _ _ Hf Hc) as Hd. rewrite Ht in Hd. field_shape Hd. by exists c, buf, length.
Qed.

(** A getter of a string field that is set. *)
Lemma get_string {A} c v (get : single_value -> option A) : type = BT_FIELD_CLASS_TYPE_STRING -> field_class c = class_of f -> field_is_set c = true ->
  get_single true h (SingleField c v) (Z.eqb BT_FIELD_CLASS_TYPE_STRING) get = get v.
Proof.
  intros Ht Hcl Hs. pose proof field_type_is as Hti. rewrite Ht in Hti. unfold get_single, BT_ASSERT_PRE_DEV_FIELD_IS_SET, BT_ASSERT_PRE_DEV_FIELD_TYPE, BT_ASSERT_PRE_DEV.
  cbn [_bt_field_is_set]. rewrite Hs. unfold type_of in *. cbn [common]. rewrite Hcl. unfold class_of. by rewrite Hti.
Qed.

Lemma cstr_of_string buf len : string_ok buf len -> cstr_of buf = take (Z.to_nat len) buf.
Proof.
  intros (Hl & _ & Hz & Hn). rewrite <- (take_drop_middle buf (Z.to_nat len) 0 Hz) at 1. by apply cstr_of_app.
Qed.

Lemma append_get c buf len v n : type = BT_FIELD_CLASS_TYPE_STRING -> f = SingleField c (StringField buf len) \/ field_class c = class_of f /\ field_frozen c = false ->
  string_ok buf len -> no_nul (take (Z.to_nat n) v) -> 0 <= n <= Z.of_nat (length v) -> len + n + 1 < 2 ^ 32 ->
  exists f', bt_field_string_append_with_length true garbage h (SingleField c (StringField buf len)) v n = Some f' /\
    bt_field_string_get_value true h f' = Some (take (Z.to_nat len) buf ++ take (Z.to_nat n) v) /\ bt_field_string_get_length true h f' = Some (len + n).
Proof.
  intros Ht Hcl Hs Hn Hle Hroom. assert (Hc1 : field_class c = class_of f /\ field_frozen c = false) by (destruct Hcl as [Hcl|?]; [by rewrite Hcl in Hhot |- *|done]).
  clear Hcl. destruct Hc1 as [Hcl Hfr]. pose proof field_type_is as Hti. rewrite Ht in Hti.
  unfold bt_field_string_append_with_length, BT_ASSERT_PRE_DEV_FIELD_HOT, BT_ASSERT_PRE_DEV_FIELD_TYPE, BT_ASSERT_PRE_DEV.
  unfold type_of in *. cbn [common]. rewrite Hfr, Hcl. unfold class_of. rewrite Hti. change (BT_FIELD_CLASS_TYPE_STRING =? BT_FIELD_CLASS_TYPE_STRING) with true.
  rewrite bool_decide_eq_true_2 by (intros Hin; eapply Forall_forall in Hn; [|exact Hin]; done). cbn [negb andb].
  destruct (append_total garbage c buf len v n Hs Hle Hroom) as [f' Hf']. exists f'. split; [exact Hf'|].
  destruct (append_inv _ _ _ _ _ _ _ Hs Hf') as (buf' & -> & _ & Ha). unfold bt_field_string_get_value, bt_field_string_get_length.
  rewrite !get_string by done. split; [|done]. f_equal. destruct Ha as (_ & rest & ->). rewrite (assoc_L (++)). apply cstr_of_app.
  apply Forall_app. split; [|done]. by destruct Hs as (_ & _ & _ & ?).
Qed.

Lemma string_get_set v : type = BT_FIELD_CLASS_TYPE_STRING -> no_nul v -> Z.of_nat (length v) + 1 < 2 ^ 32 ->
  exists f', bt_field_string_set_value true garbage h f v = Some f' /\ bt_field_string_get_value true h f' = Some v /\
    bt_field_string_get_length true h f' = Some (Z.of_nat (length v)).
Proof.
  intros Ht Hv Hroom. pose proof field_type_is as Hti. rewrite Ht in Hti. destruct (string_shape Ht) as (c & buf & len & Hfs & Hs).
  unfold bt_field_string_set_value, BT_ASSERT_PRE_DEV_FIELD_HOT, BT_ASSERT_PRE_DEV_FIELD_TYPE, BT_ASSERT_PRE_DEV.
  rewrite Hhot, Hti. change (BT_FIELD_CLASS_TYPE_STRING =? BT_FIELD_CLASS_TYPE_STRING) with true. cbn [negb andb].
  destruct (clear_string_field true f) as [f1|] eqn:H1.
  - rewrite Hfs in H1. destruct (clear_inv _ _ _ _ Hs H1) as (buf' & -> & Hs').
    destruct (append_get (with_is_set c true) buf' 0 v (Z.of_nat (length v)) Ht) as (f' & Hf' & Hg & Hl); [|done| |lia|lia|].
    + right. pose proof Hhot as Hh. by rewrite Hfs in Hh |- *.
    + by rewrite Nat2Z.id, take_ge.
    + exists f'. split; [exact Hf'|]. rewrite Hg, Hl, Nat2Z.id, (take_ge v) by done. by rewrite Z.add_0_l.
  - rewrite Hfs in H1. destruct Hs as (Hl & _). simpl in H1. by rewrite (proj2 (Z.ltb_lt 0 _)) in H1 by lia.
Qed.

Lemma string_append v n : type = BT_FIELD_CLASS_TYPE_STRING -> no_nul (take (Z.to_nat n) v) -> 0 <= n <= Z.of_nat (length v) -> 
  exists w, (forall x, bt_field_string_get_value true h f = Some x -> x = w) /\
    (Z.of_nat (length w) + n + 1 < 2 ^ 32 -> exists f', bt_field_string_append_with_length true garbage h f v n = Some f' /\
       bt_field_string_get_value true h f' = Some (w ++ take (Z.to_nat n) v) /\ bt_field_string_get_length true h f' = Some (Z.of_nat (length w) + n)).
Proof.
  intros Ht Hn Hle. destruct (string_shape Ht) as (c & buf & len & Hfs & Hs). exists (take (Z.to_nat len) buf).
  assert (Hlen : Z.of_nat (length (take (Z.to_nat len) buf)) = len) by (rewrite length_take; destruct Hs; lia). rewrite Hlen. split.
  - intros x Hx. unfold bt_field_string_get_value, get_single, BT_ASSERT_PRE_DEV_FIELD_IS_SET, BT_ASSERT_PRE_DEV_FIELD_TYPE, BT_ASSERT_PRE_DEV in Hx.
    rewrite Hfs in Hx. destruct (_bt_field_is_set _) as [[]|]; try done. destruct (type_of _ _); [|done]. destruct (true && _); [done|].
    injection Hx as <-. by apply cstr_of_string.
  - intros Hroom. rewrite Hfs. apply append_get; try done. by left.
Qed.
End values.

(** C18: setting the value of a well-typed field that is not frozen works exactly when the
    value is in the range of its class, and getting it then gives the value, cut to the
    length of a bit array; a [float] is kept exactly as a [double]; a string is set to the
    value, or has it appended. *)
Theorem field_values_roundtrip garbage h f type d : field_ok h f -> cls h (class_of f) = Some (type, d) -> field_frozen (common f) = false ->
  (type = BT_FIELD_CLASS_TYPE_BOOL -> forall v,
     exists f', bt_field_bool_set_value true h f v = Some f' /\ bt_field_bool_get_value true h f' = Some v) /\
  (forall length flags v, d = BitArrayContents length flags -> is_u64 v ->
     exists f', bt_field_bit_array_set_value_as_integer true h f v = Some f' /\ bt_field_bit_array_get_value_as_integer true h f' = Some (v mod 2 ^ length)) /\
  (is_signed_type type = true -> forall v, is_i64 v -> exists range, value_range type d = Some range /\
     if bool_decide (- 2 ^ (range - 1) <= v < 2 ^ (range - 1))
     then exists f', bt_field_integer_signed_set_value true h f v = Some f' /\ bt_field_integer_signed_get_value true h f' = Some v
     else bt_field_integer_signed_set_value true h f v = None) /\
  (is_unsigned_type type = true -> forall v, is_u64 v -> exists range, value_range type d = Some range /\
     if bool_decide (v < 2 ^ range)
     then exists f', bt_field_integer_unsigned_set_value true h f v = Some f' /\ bt_field_integer_unsigned_get_value true h f' = Some v
     else bt_field_integer_unsigned_set_value true h f v = None) /\
  (type = BT_FIELD_CLASS_TYPE_SINGLE_PRECISION_REAL -> forall v, valid_binary 24 128 v = true ->
     exists f', bt_field_real_single_precision_set_value true h f v = Some f' /\ bt_field_real_single_precision_get_value true h f' = Some v) /\
  (type = BT_FIELD_CLASS_TYPE_DOUBLE_PRECISION_REAL -> forall v,
     exists f', bt_field_real_double_precision_set_value true h f v = Some f' /\ bt_field_real_double_precision_get_value true h f' = Some v) /\
  (type = BT_FIELD_CLASS_TYPE_STRING -> forall v, no_nul v -> Z.of_nat (length v) + 1 < 2 ^ 32 ->
     exists f', bt_field_string_set_value true garbage h f v = Some f' /\ bt_field_string_get_value true h f' = Some v /\
       bt_field_string_get_length true h f' = Some (Z.of_nat (length v))) /\
  (type = BT_FIELD_CLASS_TYPE_STRING -> forall v n, no_nul (take (Z.to_nat n) v) -> 0 <= n <= Z.of_nat (length v) ->
     exists w, (forall x, bt_field_string_get_value true h f = Some x -> x = w) /\
       (Z.of_nat (length w) + n + 1 < 2 ^ 32 ->
        exists f', bt_field_string_append_with_length true garbage h f v n = Some f' /\
          bt_field_string_get_value true h f' = Some (w ++ take (Z.to_nat n) v) /\ bt_field_string_get_length true h f' = Some (Z.of_nat (length w) + n))).
Proof.
  intros Hf Hc Hhot. split; [|split; [|split; [|split; [|split; [|split; [|split]]]]]].
  - intros Ht v. by eapply bool_get_set.
  - intros length flags v Hd Hv. by eapply bit_array_get_set.
  - intros Ht v Hv. by eapply signed_get_set.
  - intros Ht v Hv. by eapply unsigned_get_set.
  - intros Ht v Hv. by eapply single_get_set.
  - intros Ht v. by eapply double_get_set.
  - intros Ht v Hv Hroom. by eapply string_get_set.
  - intros Ht v n Hn Hle. by eapply string_append.
Qed.

(** * Freezing and resetting *)

Lemma set_frozen_twice b b' f : _bt_field_set_is_frozen b' (_bt_field_set_is_frozen b f) = _bt_field_set_is_frozen b' f.
Proof.
  assert (Hmap : forall l, Forall (fun s => _bt_field_set_is_frozen b' (_bt_field_set_is_frozen b s) = _bt_field_set_is_frozen b' s) l ->
    map (_bt_field_set_is_frozen b') (map (_bt_field_set_is_frozen b) l) = map (_bt_field_set_is_frozen b') l).
  { induction 1 as [|s l Hs _ IH]; [done|]. simpl. by rewrite Hs, IH. }
  induction f as [c v|c l IH|c s b0 IH|c l b0 i IH|c l n IH] using bt_field_induction; simpl; rewrite ?Hmap by done; try done. by rewrite IH.
Qed.

(** A property that a change of all the fields gives to each of them. *)
Lemma all_nodes_map (P : bt_field -> Prop) (g : bt_field -> bt_field) : (forall f, P (g f)) -> (forall f, subfields (g f) = g <$> subfields f) ->
  forall f, all_nodes P (g f).
Proof.
  intros HP Hs f. induction f as [c v|c l IH|c s b IH|c l b i IH|c l n IH] using bt_field_induction; apply all_nodes_eq; (split; [apply HP|]); rewrite Hs;
    apply Forall_fmap; simpl; try (by apply List.Forall_nil); try done. by apply Forall_singleton.
Qed.

Lemma set_frozen_same b f : all_nodes (fun s => field_frozen (common s) = b) f -> _bt_field_set_is_frozen b f = f.
Proof.
  assert (Hc : forall c, field_frozen c = b -> with_field_frozen c b = c) by (intros [] <-; done).
  assert (Hmap : forall l, Forall (fun s => all_nodes (fun s => field_frozen (common s) = b) s -> _bt_field_set_is_frozen b s = s) l ->
    Forall (all_nodes (fun s => field_frozen (common s) = b)) l -> map (_bt_field_set_is_frozen b) l = l).
  { induction 1 as [|s l Hs _ IH]; intros Hl; [done|]. apply Forall_cons in Hl as [Hl1 Hl2]. simpl. rewrite Hs, IH; done. }
  induction f as [c v|c l IH|c s b0 IH|c l b0 i IH|c l n IH] using bt_field_induction; intros [Hn Hl]%all_nodes_eq; simpl in *; rewrite Hc by done; try done;
    try (by rewrite Hmap). apply Forall_cons in Hl as [Hl _]. by rewrite IH.
Qed.

Lemma frozen_op debug call garbage h f h' f' : field_op debug call garbage h f h' f' -> field_frozen (common f) = true ->
  h' = h /\ (f' = _bt_field_reset f \/ exists b, f' = _bt_field_set_is_frozen b f).
Proof.
  intros H Hf. destruct H as [v f' H|v f' Hv H|v f' Hv H|v f' Hv H|v f' H|v f' H|v n f' H|v f' H|f' H|fuel n f' h' e x Hn Hc Ht H|b f' H|i f' H| |b];
    try (exfalso; match type of H with
      | ?t = _ => first
        [ apply set_single_inv in H as (? & ? & ? & ? & ? & ? & ? & -> & Hc & _); simpl in Hf; congruence
        | unfold bt_field_bit_array_set_value_as_integer, bt_field_integer_signed_set_value, bt_field_integer_unsigned_set_value, set_integer in H;
          destruct (get_fc h _); [|done]; apply set_single_inv in H as (? & ? & ? & ? & ? & ? & ? & -> & Hc & _); simpl in Hf; congruence
        | unfold bt_field_string_append_with_length, bt_field_string_set_value, bt_field_string_clear, BT_ASSERT_PRE_DEV_FIELD_HOT, BT_ASSERT_PRE_DEV in H;
          rewrite Hf in H; done
        | unfold bt_field_option_set_has_field, bt_field_variant_select_option_by_index, BT_ASSERT_PRE_DEV_FIELD_TYPE, BT_ASSERT_PRE_DEV_FIELD_HOT, BT_ASSERT_PRE_DEV in H;
          rewrite Hf in H; destruct (type_of h f); [|done]; by destruct (true && _)
        | apply set_length_inv in H as (? & ? & ? & ? & -> & Hc' & _); [simpl in Hf; congruence|done] ]
      end).
  - split; [done|by left].
  - split; [done|right; by exists b].
Qed.

(** C22: freezing a field freezes all the fields under it, and unfreezing it gives back what
    it was; no call changes a frozen field but resetting and freezing; resetting a field
    leaves no field under it set, so that their values cannot be got, but the options that
    variants selected stay selected. *)
Theorem frozen_and_reset_fields debug call garbage f :
  (forall b, all_nodes (fun s => field_frozen (common s) = b) (_bt_field_set_is_frozen b f)) /\
  (all_nodes (fun s => field_frozen (common s) = false) f -> _bt_field_set_is_frozen false (_bt_field_set_is_frozen true f) = f) /\
  (forall h h' p s s', field_at (_bt_field_set_is_frozen true f) p = Some s -> field_op debug call garbage h s h' s' ->
     h' = h /\ (s' = _bt_field_reset s \/ exists b, s' = _bt_field_set_is_frozen b s)) /\
  (forall p c v, field_at (_bt_field_reset f) p = Some (SingleField c v) ->
     field_is_set c = false /\ forall (A : Type) h check (get : single_value -> option A), get_single true h (SingleField c v) check get = None) /\
  (forall p c l b i, field_at f p = Some (VariantField c l b i) -> field_at (_bt_field_reset f) p = Some (VariantField c (map _bt_field_reset l) b i)).
Proof.
  assert (Hfr : forall b, all_nodes (fun s => field_frozen (common s) = b) (_bt_field_set_is_frozen b f)).
  { intros b. apply (all_nodes_map _ (_bt_field_set_is_frozen b)); [by intros []|apply set_frozen_subfields]. }
  split; [exact Hfr|]. split; [|split; [|split]].
  - intros Hn. rewrite set_frozen_twice. by apply set_frozen_same.
  - intros h h' p s s' Hs Hop. eapply frozen_op; [exact Hop|]. pose proof (field_at_ok _ _ _ _ (Hfr true) Hs) as Hn. by apply all_nodes_eq in Hn as [Hn _].
  - intros p c v Hs. assert (Hr : all_nodes (fun s => match s with SingleField c _ => field_is_set c = false | _ => True end) (_bt_field_reset f)).
    { apply (all_nodes_map _ _bt_field_reset); [by intros []|apply reset_subfields]. }
    pose proof (field_at_ok _ _ _ _ Hr Hs) as Hn. apply all_nodes_eq in Hn as [Hn _]. split; [done|]. intros A h check get.
    unfold get_single, BT_ASSERT_PRE_DEV_FIELD_IS_SET. simpl. by rewrite Hn.
  - intros p. clear Hfr. revert f. induction p as [|k p IH]; intros f c l b i Hs; simpl in *; [by injection Hs as ->|].
    destruct (subfields f !! k) as [s|] eqn:Hk; [|done]. rewrite reset_subfields, list_lookup_fmap, Hk. simpl. by apply IH.
Qed.

(** * Examples *)

(** A class with a member of 8 bits and a string. *)
Definition ex_class (type : Z) (d : fc_contents) : ir_object :=
  FieldClassObject (BtFieldClass (bt_object_init_shared (ReleaseFunc 1%positive)) type false false 0 d).
Definition ex_members : fc_contents :=
  ContainerContents (<[[98] := 1%nat]> (<[[97] := 0%nat]> ∅)) [NamedFieldClass (Some [97]) 2%positive false None; NamedFieldClass (Some [98]) 3%positive false None] None.
Definition ex_classes : ir :=
  <[1%positive := ex_class BT_FIELD_CLASS_TYPE_STRUCTURE ex_members]>
    (<[2%positive := ex_class BT_FIELD_CLASS_TYPE_UNSIGNED_INTEGER (IntegerContents 8 0 10)]>
      (<[3%positive := ex_class BT_FIELD_CLASS_TYPE_STRING NoContents]> ∅)).

Lemma ex_class_tree : class_tree 2 ex_classes 1%positive.
Proof.
  eexists _, _. split; [reflexivity|]. split; [by left|]. repeat apply Forall_cons_2; [| |apply Forall_nil_2];
    (eexists _, _; split; [reflexivity|]; split; [|apply Forall_nil_2]).
  - split; [reflexivity|lia].
  - right. right. reflexivity.
Qed.
Lemma ex_room : Forall (fun x => has_room ex_classes x (Z.of_nat (length (created 2 ex_classes 1%positive)))) (created 2 ex_classes 1%positive).
Proof.
  assert (created 2 ex_classes 1%positive = [1; 2; 3]%positive) as -> by reflexivity.
  repeat apply Forall_cons_2; [| | |apply Forall_nil_2]; (eexists; split; [reflexivity|]; repeat split; simpl; lia).
Qed.

Lemma field_create_exact_witness :
  exists f h', bt_field_create true 2 ex_classes 1%positive = Some (f, h') /\ (ref_count ∘ base <$> h' !! 2%positive) = Some 2 /\
    bt_field_destroy true (fun _ _ _ => None) f h' = Some ex_classes.
Proof.
  destruct (field_create_exact true (fun _ _ _ => None) 2 ex_classes 1%positive ex_class_tree ex_room) as (f & h' & Hf & _ & _ & _ & Hr & Hd).
  - intros x o Hx Ho. assert (Hall : map_Forall (fun _ o => release_func (base o) = Some (ReleaseFunc 1%positive)) ex_classes).
    { unfold ex_classes. repeat (apply map_Forall_insert_2; [reflexivity|]). apply map_Forall_empty. }
    exists 1%positive. by apply (Hall x).
  - exists f, h'. split; [done|]. split; [pose proof (Hr 2%positive) as Hr2; unfold addr, func in *; by rewrite Hr2|done].
Defined.

Lemma fields_stay_well_typed_witness :
  exists h f f', bt_field_create true 2 ex_classes 1%positive = Some (f, h) /\
    (do s <- field_at f [0%nat]; do s <- bt_field_integer_unsigned_set_value true h s 255; update_at f [0%nat] (fun _ => Some s)) = Some f' /\
    field_ok h f' /\ class_of f' = 1%positive /\ _bt_field_is_set f' = Some false.
Proof.
  destruct (bt_field_create true 2 ex_classes 1%positive) as [[f h]|] eqn:Hf; [|by vm_compute in Hf].
  destruct (do s <- field_at f [0%nat]; do s <- bt_field_integer_unsigned_set_value true h s 255; update_at f [0%nat] (fun _ => Some s)) as [f'|] eqn:Hs.
  - exists h, f, f'. split; [done|]. split; [done|].
    destruct (fields_stay_well_typed true (fun _ _ _ => None) (fun _ => 0) 2 ex_classes 1%positive f h h f' ex_class_tree Hf) as [(_ & Hok & Hcl & _) _].
    + apply rtc_once. destruct (field_at f [0%nat]) as [s|] eqn:Ha; [|done]. destruct (bt_field_integer_unsigned_set_value true h s 255) as [s'|] eqn:Hv; [|done].
      eapply field_step_at; [exact Ha| |exact Hs]. eapply op_unsigned; [|exact Hv]. unfold is_u64, UINT64_MAX. lia.
    + split; [done|]. split; [done|]. vm_compute in Hf. injection Hf as <- <-. vm_compute in Hs. injection Hs as <-. reflexivity.
  - exfalso. vm_compute in Hf. injection Hf as <- <-. by vm_compute in Hs.
Defined.

(** The field of the class of 8 bits. *)
Definition ex_field : bt_field := SingleField (FieldCommon 2%positive false false) (IntegerField 0).

Lemma field_values_roundtrip_witness :
  exists f', bt_field_integer_unsigned_set_value true ex_classes ex_field 200 = Some f' /\
    bt_field_integer_unsigned_get_value true ex_classes f' = Some 200 /\ bt_field_integer_unsigned_set_value true ex_classes ex_field 256 = None.
Proof.
  assert (Hok : field_ok ex_classes ex_field).
  { apply all_nodes_eq. split; [|by apply List.Forall_nil]. eexists _, _. split; [reflexivity|]. simpl. repeat split; vm_compute; congruence. }
  destruct (field_values_roundtrip (fun _ => 0) ex_classes ex_field BT_FIELD_CLASS_TYPE_UNSIGNED_INTEGER (IntegerContents 8 0 10) Hok eq_refl eq_refl)
    as (_ & _ & _ & Hu & _).
  assert (Hr : forall v, 0 <= v <= 256 -> is_u64 v) by (unfold is_u64, UINT64_MAX; lia).
  destruct (Hu eq_refl 200 ltac:(apply Hr; lia)) as (r & [= <-] & H1). destruct (Hu eq_refl 256 ltac:(apply Hr; lia)) as (r & [= <-] & H2).
  destruct (bool_decide_reflect (200 < 2 ^ 8)); [|lia]. destruct (bool_decide_reflect (256 < 2 ^ 8)); [lia|]. destruct H1 as (f' & Hs & Hg). by exists f'.
Defined.
