(* ===== verification/Utc.v ===== *)
(** [src/src/compat/utc.h]: the conversion from a broken-down UTC time to a number
    of seconds, for systems whose headers do not offer [timegm].  The trimmer uses
    it for its bounds.  [int] has 32 bits; [None] is a signed overflow. *)

From S2P Require Import Prelude.

(** The members of [struct tm] that are used. *)
Record tm := Tm {
  tm_sec : Z;
  tm_min : Z;
  tm_hour : Z;
  tm_mday : Z;
  tm_mon : Z;
  tm_year : Z
}.

Definition INT_MAX : Z := 2 ^ 31 - 1.
Definition INT_MIN : Z := - 2 ^ 31.
Definition sint32 (z : Z) : option Z :=
  if (INT_MIN <=? z) && (z <=? INT_MAX) then Some z else None.

Definition bt_leapyear (year : Z) : bool :=
  (Z.rem year 4 =? 0) && (negb (Z.rem year 100 =? 0) || (Z.rem year 400 =? 0)).

(** Days per month for a regular year and for a leap year. *)
Definition monthlen : list (list Z) :=
  [[31; 28; 31; 30; 31; 30; 31; 31; 30; 31; 30; 31];
   [31; 29; 31; 30; 31; 30; 31; 31; 30; 31; 30; 31]].

(** The loop on the years, [n] of which are left: [year] and [total_days]. *)
Fixpoint years_loop (n : nat) (year total_days : Z) : option (Z * Z) :=
  match n with
  | O => Some (year, total_days)
  | S n =>
    do y <- sint32 (1900 + year);
    do total_days <- (if bt_leapyear y then sint32 (total_days + 1) else Some total_days);
    years_loop n (year + 1) total_days
  end.

(** The loop on the months, [n] of which are left. *)
Fixpoint months_loop (n : nat) (year month total_days : Z) : option Z :=
  match n with
  | O => Some total_days
  | S n =>
    do y <- sint32 (1900 + year);
    do lens <- monthlen !! (if bt_leapyear y then 1 else 0)%nat;
    do len <- lens !! Z.to_nat month;
    do total_days <- sint32 (total_days + len);
    months_loop n year (month + 1) total_days
  end.

Definition bt_timegm (tm : tm) : option Z :=
  if (12 <=? tm_mon tm) || (32 <=? tm_mday tm) || (24 <=? tm_hour tm) || (60 <=? tm_min tm)
     || (61 <=? tm_sec tm)
  then Some (-1)
  else
    do years <- sint32 (tm_year tm - 70);
    do total_days <- sint32 (365 * years);
    do r <- years_loop (Z.to_nat (tm_year tm - 70)) 70 total_days;
    let '(year, total_days) := r in
    do total_days <- months_loop (Z.to_nat (tm_mon tm)) year 0 total_days;
    do days <- sint32 (tm_mday tm - 1);
    do total_days <- sint32 (total_days + days);
    do h <- sint32 (total_days * 24);
    do h <- sint32 (h + tm_hour tm);
    do m <- sint32 (h * 60);
    do m <- sint32 (m + tm_min tm);
    do s <- sint32 (m * 60);
    sint32 (s + tm_sec tm).

(** * Specification: the Gregorian calendar, day after day *)

Record date := Date { year : Z; month : Z; day : Z }.

Definition is_leap (y : Z) : bool :=
  (y mod 4 =? 0) && (negb (y mod 100 =? 0) || (y mod 400 =? 0)).
Definition days_in_month (y m : Z) : Z :=
  if m =? 2 then (if is_leap y then 29 else 28)
  else if (m =? 4) || (m =? 6) || (m =? 9) || (m =? 11) then 30 else 31.

Definition next_day (d : date) : date :=
  if day d <? days_in_month (year d) (month d) then Date (year d) (month d) (day d + 1)
  else if month d <? 12 then Date (year d) (month d + 1) 1
  else Date (year d + 1) 1 1.

(** The date [n] days after 1970-01-01. *)
Definition date_after (n : nat) : date := Nat.iter n next_day (Date 1970 1 1).

(** The day before, and the date [n] days before 1970-01-01. *)
Definition prev_day (d : date) : date :=
  if 1 <? day d then Date (year d) (month d) (day d - 1)
  else if 1 <? month d then Date (year d) (month d - 1) (days_in_month (year d) (month d - 1))
  else Date (year d - 1) 12 31.
Definition date_before (n : nat) : date := Nat.iter n prev_day (Date 1970 1 1).

Definition is_leap_day (d : date) : bool := (month d =? 2) && (day d =? 29).

(** How many of the [n] days before 1970-01-01 are leap days. *)
Fixpoint leap_days_before (n : nat) : Z :=
  match n with
  | O => 0
  | S k => leap_days_before k + Z.b2z (is_leap_day (date_before n))
  end.

(** A date and a time of the day as the C library has them. *)
Definition tm_of (d : date) (hour minute second : Z) : tm :=
  Tm second minute hour (day d) (month d - 1) (year d - 1900).

(** * The days before a date *)

Fixpoint leap_days (n : nat) (y : Z) : Z :=
  match n with
  | O => 0
  | S n => Z.b2z (is_leap y) + leap_days n (y + 1)
  end.
Fixpoint month_days (n : nat) (y m : Z) : Z :=
  match n with
  | O => 0
  | S n => days_in_month y m + month_days n y (m + 1)
  end.

Definition day_number (d : date) : Z :=
  365 * (year d - 1970) + leap_days (Z.to_nat (year d - 1970)) 1970
  + month_days (Z.to_nat (month d - 1)) (year d) 1 + day d - 1.

Definition valid_date (d : date) : Prop :=
  1970 <= year d /\ 1 <= month d <= 12 /\ 1 <= day d <= days_in_month (year d) (month d).

Lemma leap_days_snoc n : forall y, leap_days (S n) y = leap_days n y + Z.b2z (is_leap (y + Z.of_nat n)).
Proof.
  induction n as [|n IH]; intros y.
  - cbn [leap_days]. change (Z.of_nat 0) with 0. rewrite !Z.add_0_r. lia.
  - change (leap_days (S (S n)) y) with (Z.b2z (is_leap y) + leap_days (S n) (y + 1)).
    rewrite IH. cbn [leap_days]. replace (y + 1 + Z.of_nat n) with (y + Z.of_nat (S n)) by lia. lia.
Qed.

Lemma month_days_snoc n : forall y m,
  month_days (S n) y m = month_days n y m + days_in_month y (m + Z.of_nat n).
Proof.
  induction n as [|n IH]; intros y m.
  - cbn [month_days]. change (Z.of_nat 0) with 0. rewrite !Z.add_0_r. lia.
  - change (month_days (S (S n)) y m) with (days_in_month y m + month_days (S n) y (m + 1)).
    rewrite IH. cbn [month_days]. replace (m + 1 + Z.of_nat n) with (m + Z.of_nat (S n)) by lia. lia.
Qed.

Lemma days_in_month_pos y m : 1 <= days_in_month y m <= 31.
Proof. unfold days_in_month. repeat case_match; lia. Qed.

Lemma year_days y : month_days 11 y 1 + 31 = 365 + Z.b2z (is_leap y).
Proof. cbn [month_days]. unfold days_in_month. destruct (is_leap y); reflexivity. Qed.

Lemma next_day_valid d : valid_date d -> valid_date (next_day d).
Proof.
  destruct d as [y m d]. unfold valid_date, next_day. simpl. intros (Hy & Hm & Hd).
  destruct (Z.ltb_spec d (days_in_month y m)); simpl; [lia|].
  destruct (Z.ltb_spec m 12); simpl.
  - pose proof (days_in_month_pos y (m + 1)). lia.
  - unfold days_in_month. simpl. lia.
Qed.

Lemma next_day_number d : valid_date d -> day_number (next_day d) = day_number d + 1.
Proof.
  destruct d as [y m d]. unfold valid_date, next_day, day_number. simpl. intros (Hy & Hm & Hd).
  destruct (Z.ltb_spec d (days_in_month y m)); simpl; [lia|].
  assert (d = days_in_month y m) as -> by lia.
  destruct (Z.ltb_spec m 12); simpl.
  - replace (Z.to_nat (m + 1 - 1)) with (S (Z.to_nat (m - 1))) by lia.
    rewrite month_days_snoc. replace (1 + Z.of_nat (Z.to_nat (m - 1))) with m by lia. lia.
  - assert (m = 12) as -> by lia. replace (Z.to_nat (y + 1 - 1970)) with (S (Z.to_nat (y - 1970))) by lia.
    rewrite leap_days_snoc. replace (1970 + Z.of_nat (Z.to_nat (y - 1970))) with y by lia.
    change (Z.to_nat (12 - 1)) with 11%nat. pose proof (year_days y) as Hyd.
    assert (days_in_month y 12 = 31) as -> by reflexivity. lia.
Qed.

Lemma date_after_spec n : valid_date (date_after n) /\ day_number (date_after n) = Z.of_nat n.
Proof.
  induction n as [|n [Hv Hn]]; [by vm_compute|]. unfold date_after in *. simpl.
  split; [by apply next_day_valid|]. rewrite next_day_number by done. rewrite Hn. lia.
Qed.

(** * The loops compute them *)

Lemma sint32_Some z : INT_MIN <= z <= INT_MAX -> sint32 z = Some z.
Proof. unfold sint32. intros [? ?]. by rewrite !(proj2 (Z.leb_le _ _)). Qed.
Lemma sint32_None z : INT_MAX < z -> sint32 z = None.
Proof. unfold sint32. intros ?. rewrite (proj2 (Z.leb_gt z INT_MAX)) by done. by rewrite andb_false_r. Qed.

Lemma leapyear_is_leap y : 0 <= y -> bt_leapyear y = is_leap y.
Proof. intros ?. unfold bt_leapyear, is_leap. by rewrite !Z.rem_mod_nonneg by lia. Qed.

Lemma leap_days_bound n y : 0 <= leap_days n y <= Z.of_nat n.
Proof. revert y. induction n as [|n IH]; intros y; simpl; [lia|]. specialize (IH (y + 1)). destruct (is_leap y); simpl; lia. Qed.

Ltac i32 := unfold INT_MIN, INT_MAX in *; lia.

Lemma years_loop_ok n : forall year total,
  0 <= year -> 0 <= total -> year + Z.of_nat n + 1900 <= INT_MAX -> total + Z.of_nat n <= INT_MAX ->
  years_loop n year total = Some (year + Z.of_nat n, total + leap_days n (1900 + year)).
Proof.
  induction n as [|n IH]; intros year total Hy Ht Hyn Htn.
  { simpl. do 2 f_equal; lia. }
  cbn [years_loop leap_days]. rewrite sint32_Some by i32. rewrite leapyear_is_leap by lia.
  destruct (is_leap (1900 + year)); cbn [Z.b2z]; rewrite ?sint32_Some by i32; rewrite IH by i32;
    replace (1900 + (year + 1)) with (1900 + year + 1) by lia; do 2 f_equal; lia.
Qed.

Lemma monthlen_ok y m :
  0 <= m < 12 ->
  (do lens <- monthlen !! (if is_leap y then 1 else 0)%nat; lens !! Z.to_nat m) = Some (days_in_month y (m + 1)).
Proof.
  intros Hm. assert (Z.to_nat m < 12)%nat as Hn by lia.
  assert (m = Z.of_nat (Z.to_nat m)) as -> by lia. rewrite Nat2Z.id. revert Hn.
  generalize (Z.to_nat m). intros k Hk. unfold days_in_month.
  destruct (is_leap y); do 12 (destruct k as [|k]; [reflexivity|]); lia.
Qed.

Lemma month_days_bound n y m : 0 <= month_days n y m <= 31 * Z.of_nat n.
Proof.
  revert m. induction n as [|n IH]; intros m; [simpl; lia|]. cbn [month_days]. specialize (IH (m + 1)).
  pose proof (days_in_month_pos y m). lia.
Qed.

Lemma months_loop_ok n : forall year month total,
  0 <= year -> year + 1900 <= INT_MAX -> 0 <= month -> month + Z.of_nat n <= 12 -> INT_MIN <= total ->
  total + 31 * Z.of_nat n <= INT_MAX ->
  months_loop n year month total = Some (total + month_days n (1900 + year) (month + 1)).
Proof.
  induction n as [|n IH]; intros year month total Hy Hyn Hm Hmn Ht Htn.
  { simpl. f_equal. lia. }
  cbn [months_loop month_days]. rewrite sint32_Some by i32. rewrite leapyear_is_leap by lia.
  pose proof (monthlen_ok (1900 + year) month ltac:(lia)) as Hlen.
  destruct (monthlen !! _) as [lens|]; [|done]. rewrite Hlen.
  pose proof (days_in_month_pos (1900 + year) (month + 1)).
  rewrite sint32_Some by i32. rewrite IH by i32. f_equal. lia.
Qed.

Lemma timegm_ok (n : nat) (hour minute second : Z) :
  0 <= hour < 24 -> 0 <= minute < 60 -> 0 <= second <= 60 -> Z.of_nat n <= 366 * 10000 ->
  let t := Z.of_nat n * 86400 + hour * 3600 + minute * 60 + second in
  bt_timegm (tm_of (date_after n) hour minute second) = if t <=? INT_MAX then Some t else None.
Proof.
  intros Hh Hmi Hs Hn t. destruct (date_after_spec n) as [Hv Hd].
  destruct (date_after n) as [y m d]. unfold valid_date, day_number in *. simpl in Hv, Hd.
  destruct Hv as (Hy & Hm & Hday). pose proof (days_in_month_pos y m).
  pose proof (leap_days_bound (Z.to_nat (y - 1970)) 1970).
  pose proof (month_days_bound (Z.to_nat (m - 1)) y 1).
  unfold bt_timegm, tm_of. cbn [tm_sec tm_min tm_hour tm_mday tm_mon tm_year year month day].
  replace (_ || _) with false by lia.
  replace (y - 1900 - 70) with (y - 1970) by lia.
  rewrite (sint32_Some (y - 1970)), (sint32_Some (365 * (y - 1970))) by i32.
  rewrite years_loop_ok by i32. change (1900 + 70) with 1970. rewrite months_loop_ok by i32.
  replace (1900 + (70 + Z.of_nat (Z.to_nat (y - 1970)))) with y by lia.
  change (0 + 1) with 1. rewrite (sint32_Some (d - 1)), (sint32_Some (_ + (d - 1))) by i32.
  replace (_ + (d - 1)) with (Z.of_nat n) by lia. rewrite (sint32_Some (_ * 24)) by i32.
  rewrite (sint32_Some (_ + hour)) by i32.
  destruct (Z.leb_spec t INT_MAX) as [Hle|Hgt]; subst t.
  - rewrite !sint32_Some by i32. f_equal. lia.
  - destruct (Z.le_gt_cases ((Z.of_nat n * 24 + hour) * 60) INT_MAX); [|by rewrite sint32_None].
    rewrite (sint32_Some (_ * 60)) by i32.
    destruct (Z.le_gt_cases ((Z.of_nat n * 24 + hour) * 60 + minute) INT_MAX); [|by rewrite sint32_None].
    rewrite (sint32_Some (_ + minute)) by i32.
    destruct (Z.le_gt_cases (((Z.of_nat n * 24 + hour) * 60 + minute) * 60) INT_MAX); [|by rewrite sint32_None].
    rewrite (sint32_Some (_ * 60)) by i32. apply sint32_None. lia.
Qed.

(** * Dates before 1970

    The years loop does not run, and the months are those of 1970. *)

Definition common_number (d : date) : Z :=
  365 * (year d - 1970) + month_days (Z.to_nat (month d - 1)) 1970 1 + day d - 1.

Definition earlier_date (d : date) : Prop :=
  year d <= 1970 /\ 1 <= month d <= 12 /\ 1 <= day d <= days_in_month (year d) (month d) /\
  (year d = 1970 -> month d = 1 /\ day d = 1).

Lemma days_in_month_1970 y m :
  days_in_month y m = days_in_month 1970 m + Z.b2z (is_leap y && (m =? 2)).
Proof.
  unfold days_in_month. change (is_leap 1970) with false.
  destruct (Z.eqb_spec m 2); destruct (is_leap y); simpl; repeat case_match; lia.
Qed.

Lemma month_days_prev y m : 1 < m ->
  month_days (Z.to_nat (m - 1)) y 1 = month_days (Z.to_nat (m - 1 - 1)) y 1 + days_in_month y (m - 1).
Proof.
  intros Hm. replace (Z.to_nat (m - 1)) with (S (Z.to_nat (m - 1 - 1))) by lia.
  rewrite month_days_snoc. do 2 f_equal. lia.
Qed.

Lemma prev_day_earlier d :
  earlier_date d -> earlier_date (prev_day d) /\
  common_number (prev_day d) = common_number d - 1 + Z.b2z (is_leap_day (prev_day d)).
Proof.
  destruct d as [y m d]. unfold earlier_date, prev_day, common_number, is_leap_day. simpl.
  intros (Hy & Hm & Hd & H70).
  destruct (Z.ltb_spec 1 d); [|destruct (Z.ltb_spec 1 m)]; cbn [year month day].
  - pose proof (days_in_month_1970 y m). split; [lia|].
    pose proof (days_in_month_pos 1970 m). destruct (Z.eqb_spec m 2) as [-> |]; simpl; [|lia].
    unfold days_in_month in Hd. simpl in Hd. destruct (Z.eqb_spec (d - 1) 29); simpl; [|lia].
    exfalso. destruct (is_leap y); lia.
  - pose proof (days_in_month_pos y (m - 1)). split; [lia|]. rewrite (month_days_prev 1970 m) by lia.
    rewrite (days_in_month_1970 y (m - 1)). assert (d = 1) as -> by lia.
    destruct (Z.eqb_spec (m - 1) 2) as [-> |]; [|rewrite andb_false_r; simpl; lia].
    change (days_in_month 1970 2) with 28. by destruct (is_leap y); simpl; lia.
  - assert (days_in_month (y - 1) 12 = 31) as -> by reflexivity. split; [lia|].
    assert (m = 1) as -> by lia. assert (d = 1) as -> by lia.
    change (month_days (Z.to_nat (12 - 1)) 1970 1) with 334. change (month_days (Z.to_nat (1 - 1)) 1970 1) with 0.
    simpl Z.b2z. lia.
Qed.

Lemma date_before_spec n :
  earlier_date (date_before n) /\ common_number (date_before n) = leap_days_before n - Z.of_nat n.
Proof.
  induction n as [|n [Hv Hn]]; [split; [vm_compute; intuition discriminate|reflexivity]|].
  change (date_before (S n)) with (prev_day (date_before n)).
  destruct (prev_day_earlier _ Hv) as [Hv' Hn']. split; [done|]. rewrite Hn', Hn.
  cbn [leap_days_before]. change (date_before (S n)) with (prev_day (date_before n)). lia.
Qed.

Lemma leap_days_before_bound n : 0 <= leap_days_before n <= Z.of_nat n.
Proof.
  induction n as [|n IH]; [done|]. cbn [leap_days_before]. destruct (is_leap_day _); simpl; lia.
Qed.

Lemma timegm_before (n : nat) (hour minute second : Z) :
  0 <= hour < 24 -> 0 <= minute < 60 -> 0 <= second <= 60 -> Z.of_nat n <= 24855 ->
  bt_timegm (tm_of (date_before n) hour minute second) =
    Some ((leap_days_before n - Z.of_nat n) * 86400 + hour * 3600 + minute * 60 + second).
Proof.
  intros Hh Hmi Hs Hn. destruct (date_before_spec n) as [Hv Hd].
  pose proof (leap_days_before_bound n) as Hl.
  destruct (date_before n) as [y m d]. unfold earlier_date, common_number in *. simpl in Hv, Hd.
  destruct Hv as (Hy & Hm & Hday & _). pose proof (days_in_month_pos y m).
  pose proof (month_days_bound (Z.to_nat (m - 1)) 1970 1).
  unfold bt_timegm, tm_of. cbn [tm_sec tm_min tm_hour tm_mday tm_mon tm_year year month day].
  replace (_ || _) with false by lia. replace (y - 1900 - 70) with (y - 1970) by lia.
  rewrite (sint32_Some (y - 1970)), (sint32_Some (365 * (y - 1970))) by i32.
  replace (Z.to_nat (y - 1970)) with 0%nat by lia. cbn [years_loop].
  rewrite months_loop_ok by i32. change (1900 + 70) with 1970. change (0 + 1) with 1.
  rewrite (sint32_Some (d - 1)), (sint32_Some (_ + (d - 1))) by i32.
  replace (_ + (d - 1)) with (leap_days_before n - Z.of_nat n) by lia.
  rewrite !sint32_Some by i32. f_equal. lia.
Qed.

(** * Claim *)

(** C37: [bt_timegm] on the dates of the Gregorian calendar, at any time of the day,
    leap second included.  For the date [n] days after 1970-01-01, it returns the
    number of seconds since 1970-01-01 00:00:00, unless it is 2^31 or more (from
    2038-01-19 03:14:08): then its [int] computation overflows.  For the date [n]
    days before 1970-01-01, down to 1901-12-14, it forgets the leap days from the
    date on: the result is too large by 86400 for each of them, so it is right
    only from 1968-03-01 on. *)
Theorem timegm_exact (n : nat) (hour minute second : Z) :
  0 <= hour < 24 -> 0 <= minute < 60 -> 0 <= second <= 60 ->
  let time := hour * 3600 + minute * 60 + second in
  (Z.of_nat n <= 366 * 10000 ->
   let t := Z.of_nat n * 86400 + time in
   bt_timegm (tm_of (date_after n) hour minute second) = if t <=? INT_MAX then Some t else None) /\
  (Z.of_nat n <= 24855 ->
   bt_timegm (tm_of (date_before n) hour minute second) =
     Some (- Z.of_nat n * 86400 + time + 86400 * leap_days_before n)).
Proof.
  intros Hh Hm Hs time. subst time. split; intros Hn.
  - rewrite !Z.add_assoc. by apply timegm_ok.
  - rewrite timegm_before by done. f_equal. lia.
Qed.

Lemma timegm_exact_witness :
  date_after (Z.to_nat 24855) = Date 2038 1 19 /\
  bt_timegm (tm_of (Date 2038 1 19) 3 14 7) = Some 2147483647 /\
  bt_timegm (tm_of (Date 2038 1 19) 3 14 8) = None /\
  date_before (Z.to_nat 731) = Date 1968 1 1 /\ 731 * 86400 = 63158400 /\
  bt_timegm (tm_of (Date 1968 1 1) 0 0 0) = Some (-63072000).
Proof.
  assert (E : date_after (Z.to_nat 24855) = Date 2038 1 19) by (vm_compute; reflexivity).
  assert (E' : date_before (Z.to_nat 731) = Date 1968 1 1) by (vm_compute; reflexivity).
  pose proof (fun h m sec Hh Hm Hs => proj1 (timegm_exact (Z.to_nat 24855) h m sec Hh Hm Hs) ltac:(lia)) as Ha.
  pose proof (fun h m sec Hh Hm Hs => proj2 (timegm_exact (Z.to_nat 731) h m sec Hh Hm Hs) ltac:(lia)) as Hb.
  cbv zeta in Ha, Hb. rewrite E in Ha. rewrite E' in Hb. split; [exact E|].
  split; [rewrite Ha by lia; reflexivity|]. split; [rewrite Ha by lia; reflexivity|].
  split; [exact E'|]. split; [reflexivity|]. rewrite Hb by lia. vm_compute. reflexivity.
Defined.
