(* ===== verification/TrimBounds.v ===== *)
(** The bounds of the trimmer component, [src/src/plugins/utils/trimmer/trimmer.c]:
    their parsing from parameters, their completion with a date and their
    validation.

    GLib's regular expressions and the C library's local time are parameters
    (classes [BoundRegex] and [CTime]); [bt_timegm] is [Utc]'s.  Strings are lists
    of characters without their null character.  [None] is a failed assertion or a
    signed overflow. *)

From S2P Require Import Prelude Clock Text Utc.

Record trimmer_time := TrimmerTime { hour : Z; minute : Z; second : Z; ns : Z }.

Record trimmer_bound := TrimmerBound {
  b_ns_from_origin : Z;
  b_is_set : bool;
  b_is_infinite : bool;
  b_time : trimmer_time
}.

(** The members that do not identify the component. *)
Record trimmer_comp := TrimmerComp {
  tc_begin : trimmer_bound;
  tc_end : trimmer_bound;
  is_gmt : bool
}.

Definition zero_bound : trimmer_bound := TrimmerBound 0 false false (TrimmerTime 0 0 0 0).

(** [time_t] is a 64-bit integer. *)
Class CTime := {
  mktime : tm -> Z;
  gmtime_r : Z -> option tm;
  localtime_r : Z -> option tm
}.

(** The regular expressions of [set_bound_from_str], and the texts that a match
    captures, the whole match first. *)
Inductive bound_re := DATE_TIME_RE | DATE_RE | TIME_RE | S_NS_RE.
Class BoundRegex := { compile_and_match : bound_re -> list Z -> option (list (list Z)) }.

Section bounds.
Context `{CTime} `{BoundRegex}.

(** On a text of digits. *)
Definition match_to_uint (match_info : list (list Z)) (match_num : nat) : option Z :=
  do text <- match_info !! match_num;
  guard_ub (0 <? length text)%nat;
  let result := scan_digits text 0 in
  guard_ub (result <=? UINT64_MAX);
  Some result.

Definition match_to_uint_ns (match_info : list (list Z)) (match_num : nat) : option Z :=
  do nanoseconds <- match_to_uint match_info match_num;
  do text <- match_info !! match_num;
  let power := 9 - Z.of_nat (length text) in
  guard_ub (0 <=? power) && (power <=? 8);
  Some (wrapu 64 (nanoseconds * 10 ^ power)).

(** The returned value and the bound; the arguments are unsigned [int]s. *)
Definition set_bound_ns_from_origin (bound : trimmer_bound)
    (year month day hour minute second ns : Z) (is_gmt : bool) : option (Z * trimmer_bound) :=
  let tm := Tm (wraps 32 second) (wraps 32 minute) (wraps 32 hour) (wraps 32 day)
              (wraps 32 (month - 1)) (wraps 32 (year - 1900)) in
  do result <- (if is_gmt then bt_timegm tm else Some (mktime tm));
  if result <? 0 then Some (-1, bound)
  else
    do ns_from_origin <- sint64 (result * NS_PER_S);
    do ns_from_origin <- sint64 (ns_from_origin + ns);
    Some (0, TrimmerBound ns_from_origin true (b_is_infinite bound) (b_time bound)).

(** An optional group of a match, for [match_count] groups. *)
Definition match_or_0 (to_uint : list (list Z) -> nat -> option Z) (g : list (list Z)) (match_num : nat)
    : option Z :=
  if (S match_num <=? length g)%nat then to_uint g match_num else Some 0.

Definition uint32 (z : option Z) : option Z := do z <- z; Some (wrapu 32 z).

(** The returned value and the bound.  The value that
    [set_bound_ns_from_origin] returns is not used. *)
Definition set_bound_from_str (str : list Z) (bound : trimmer_bound) (is_gmt : bool)
    : option (Z * trimmer_bound) :=
  match compile_and_match DATE_TIME_RE str with
  | Some g =>
    guard_ub (6 <=? length g)%nat && (length g <=? 8)%nat;
    do year <- uint32 (match_to_uint g 1);
    do month <- uint32 (match_to_uint g 2);
    do day <- uint32 (match_to_uint g 3);
    do hours <- uint32 (match_to_uint g 4);
    do minutes <- uint32 (match_to_uint g 5);
    do seconds <- uint32 (match_or_0 match_to_uint g 6);
    do nanoseconds <- uint32 (match_or_0 match_to_uint_ns g 7);
    do r <- set_bound_ns_from_origin bound year month day hours minutes seconds nanoseconds is_gmt;
    Some (0, snd r)
  | None =>
  match compile_and_match DATE_RE str with
  | Some g =>
    guard_ub (length g =? 4)%nat;
    do year <- uint32 (match_to_uint g 1);
    do month <- uint32 (match_to_uint g 2);
    do day <- uint32 (match_to_uint g 3);
    do r <- set_bound_ns_from_origin bound year month day 0 0 0 0 is_gmt;
    Some (0, snd r)
  | None =>
  match compile_and_match TIME_RE str with
  | Some g =>
    guard_ub (3 <=? length g)%nat && (length g <=? 5)%nat;
    do h <- uint32 (match_to_uint g 1);
    do m <- uint32 (match_to_uint g 2);
    do s <- (if (4 <=? length g)%nat then uint32 (match_to_uint g 3) else Some (second (b_time bound)));
    do n <- (if (5 <=? length g)%nat then uint32 (match_to_uint_ns g 4) else Some (ns (b_time bound)));
    Some (0, TrimmerBound (b_ns_from_origin bound) (b_is_set bound) (b_is_infinite bound)
               (TrimmerTime h m s n))
  | None =>
  match compile_and_match S_NS_RE str with
  | Some g =>
    guard_ub (3 <=? length g)%nat && (length g <=? 4)%nat;
    do sign <- g !! 1%nat;
    let is_neg := (0 <? length sign)%nat in
    do seconds <- match_to_uint g 2;
    do nanoseconds <- match_or_0 match_to_uint_ns g 3;
    let ns_from_origin := wraps 64 (wrapu 64 (seconds * NS_PER_S + nanoseconds)) in
    do ns_from_origin <- (if is_neg then sint64 (- ns_from_origin) else Some ns_from_origin);
    Some (0, TrimmerBound ns_from_origin true (b_is_infinite bound) (b_time bound))
  | None => Some (-1, bound)
  end end end end.

(** A "begin" or "end" parameter: a signed integer or a string value. *)
Inductive bound_param := ParamInteger (v : Z) | ParamString (s : list Z).

(** [snprintf] of a 64-bit integer. *)
Definition int64_text (v : Z) : list Z :=
  if v <? 0 then 45 :: dec_digits 20 (- v) [] else dec_digits 20 v [].

Definition set_bound_from_param (param : bound_param) (bound : trimmer_bound) (is_gmt : bool)
    : option (Z * trimmer_bound) :=
  set_bound_from_str
    match param with ParamInteger v => int64_text v | ParamString s => s end bound is_gmt.

(** Whether the bounds are valid. *)
Definition validate_trimmer_bounds (begin end_ : trimmer_bound) : option bool :=
  guard_ub b_is_set begin;
  guard_ub b_is_set end_;
  Some
    (if negb (b_is_infinite begin) && negb (b_is_infinite end_)
        && (b_ns_from_origin end_ <? b_ns_from_origin begin) then false
     else if negb (b_is_infinite begin) && (b_ns_from_origin begin =? INT64_MIN) then false
     else if negb (b_is_infinite end_) && (b_ns_from_origin end_ =? INT64_MIN) then false
     else true).

(** One bound of the component. *)
Definition init_bound (param : option bound_param) (is_gmt : bool) : option (option trimmer_bound) :=
  match param with
  | Some p =>
    do r <- set_bound_from_param p zero_bound is_gmt;
    Some (if fst r =? 0 then Some (snd r) else None)
  | None => Some (Some (TrimmerBound 0 true true (TrimmerTime 0 0 0 0)))
  end.

(** From parameters of the right types: a component, or [Some None] for the status
    ERROR. *)
Definition init_trimmer_comp_from_params (gmt : option bool) (begin end_ : option bound_param)
    : option (option trimmer_comp) :=
  let is_gmt := from_option id false gmt in
  do b <- init_bound begin is_gmt;
  match b with
  | None => Some None
  | Some b =>
    do e <- init_bound end_ is_gmt;
    match e with
    | None => Some None
    | Some e =>
      do ok <- (if b_is_set b && b_is_set e then validate_trimmer_bounds b e else Some true);
      Some (if (ok : bool) then Some (TrimmerComp b e is_gmt) else None)
    end
  end.

(** Completes a bound that only has a time of the day with the date of a time. *)
Definition set_trimmer_iterator_bound (bound : trimmer_bound) (ns_from_origin : Z) (is_gmt : bool)
    : option (Z * trimmer_bound) :=
  let time_seconds := Z.quot ns_from_origin NS_PER_S in
  guard_ub negb (b_is_set bound);
  match (if is_gmt then gmtime_r time_seconds else localtime_r time_seconds) with
  | None => Some (-1, bound)
  | Some tm =>
    set_bound_ns_from_origin bound (tm_year tm + 1900) (tm_mon tm + 1) (tm_mday tm)
      (hour (b_time bound)) (minute (b_time bound)) (second (b_time bound)) (ns (b_time bound)) is_gmt
  end.
End bounds.

(** * What the bounds are *)

Section claims.
Context `{CTime} `{BoundRegex}.

Lemma uint_of_text (g : list (list Z)) k text v :
  g !! k = Some text -> text <> [] -> scan_digits text 0 = v -> 0 <= v < 2 ^ 32 ->
  uint32 (match_to_uint g k) = Some v.
Proof.
  intros Hg Ht Hv Hb. unfold uint32, match_to_uint. rewrite Hg, Hv.
  destruct text as [|c t]; [done|]. simpl length. cbn [Nat.ltb Nat.leb].
  rewrite (proj2 (Z.leb_le _ _)) by (unfold UINT64_MAX; lia). by rewrite wrapu_small.
Qed.

(** The captured texts are the numbers of a date. *)
Definition date_texts (g : list (list Z)) (y m d : Z) : Prop :=
  exists w ty tm td, g = [w; ty; tm; td] /\ ty <> [] /\ tm <> [] /\ td <> [] /\
    scan_digits ty 0 = y /\ scan_digits tm 0 = m /\ scan_digits td 0 = d /\
    0 <= y <= 9999 /\ 0 <= m <= 99 /\ 0 <= d <= 99.

Lemma date_bound str g y m d bound :
  compile_and_match DATE_TIME_RE str = None -> compile_and_match DATE_RE str = Some g ->
  date_texts g y m d ->
  set_bound_from_str str bound true =
    do r <- set_bound_ns_from_origin bound y m d 0 0 0 0 true; Some (0, snd r).
Proof.
  intros Hn Hm (w & ty & tm & td & -> & Hty & Htm & Htd & Hy & Hmo & Hd & By & Bm & Bd).
  unfold set_bound_from_str. rewrite Hn, Hm. cbn [length Nat.eqb].
  rewrite (uint_of_text _ 1 ty y), (uint_of_text _ 2 tm m), (uint_of_text _ 3 td d) by (done || lia).
  done.
Qed.

Lemma wraps32_small z : INT_MIN <= z <= INT_MAX -> wraps 32 z = z.
Proof. unfold INT_MIN, INT_MAX. intros ?. apply wraps_small; lia. Qed.

(** A date without a time, in UTC.  A date of the calendar up to 2038-01-19 sets
    the bound to the nanoseconds from 1970-01-01 to its midnight; with a month
    above 12 or a day above 31, parsing succeeds too, but does not set the bound,
    which then counts as a time of the day without a date. *)
Theorem gmt_date_bound str g y m d bound :
  compile_and_match DATE_TIME_RE str = None -> compile_and_match DATE_RE str = Some g ->
  date_texts g y m d ->
  (forall n, date_after n = Date y m d -> Z.of_nat n * 86400 <= INT_MAX ->
     set_bound_from_str str bound true =
       Some (0, TrimmerBound (Z.of_nat n * 86400 * NS_PER_S) true (b_is_infinite bound) (b_time bound))) /\
  (12 < m \/ 31 < d -> set_bound_from_str str bound true = Some (0, bound)).
Proof.
  intros Hn Hm Ht. rewrite (date_bound _ _ _ _ _ _ Hn Hm Ht).
  destruct Ht as (w & ty & tm & td & _ & _ & _ & _ & _ & _ & _ & By & Bm & Bd).
  unfold set_bound_ns_from_origin. rewrite !(wraps32_small _) by (unfold INT_MIN, INT_MAX; lia). split.
  - intros n Hdate Hle. pose proof (timegm_ok n 0 0 0 ltac:(lia) ltac:(lia) ltac:(lia)) as Htg.
    unfold INT_MAX in *. rewrite Hdate in Htg. unfold tm_of in Htg. simpl in Htg. simpl.
    rewrite Htg by lia. rewrite (proj2 (Z.leb_le _ _)) by lia.
    rewrite (proj2 (Z.ltb_ge _ _)) by lia. rewrite !sint64_Some by (unfold NS_PER_S; i64).
    simpl. do 3 f_equal. lia.
  - intros Hbad. unfold bt_timegm. cbn [tm_sec tm_min tm_hour tm_mday tm_mon tm_year].
    replace (_ || _) with true by lia. done.
Qed.
End claims.

(** * Witness *)

(** A regular expression engine that matches two dates, 2000-03-01 and 2000-13-01. *)
Definition ex_date (month : list Z) : list Z := [50; 48; 48; 48; 45] ++ month ++ [45; 48; 49].
Definition ex_groups (month : list Z) : list (list Z) :=
  [ex_date month; [50; 48; 48; 48]; month; [48; 49]].
#[local] Instance ex_regex : BoundRegex := {|
  compile_and_match := fun re str =>
    match re with
    | DATE_RE => if bool_decide (str = ex_date [48; 51]) then Some (ex_groups [48; 51])
                 else if bool_decide (str = ex_date [49; 51]) then Some (ex_groups [49; 51])
                 else None
    | _ => None
    end
|}.
#[local] Instance ex_time : CTime := {|
  mktime := fun _ => -1;
  gmtime_r := fun _ => None;
  localtime_r := fun _ => None
|}.

Lemma gmt_date_bound_witness :
  set_bound_from_str (ex_date [48; 51]) zero_bound true =
    Some (0, TrimmerBound 951868800000000000 true false (b_time zero_bound)) /\
  set_bound_from_str (ex_date [49; 51]) zero_bound true = Some (0, zero_bound).
Proof.
  split.
  - refine (proj1 (gmt_date_bound (ex_date [48; 51]) (ex_groups [48; 51]) 2000 3 1 zero_bound
      eq_refl eq_refl _) (Z.to_nat 11017) eq_refl _); [|done].
    do 4 eexists. do 7 (split; [done|]). done.
  - refine (proj2 (gmt_date_bound (ex_date [49; 51]) (ex_groups [49; 51]) 2000 13 1 zero_bound
      eq_refl eq_refl _) _); [|by left].
    do 4 eexists. do 7 (split; [done|]). done.
Defined.
