(* ===== verification/Msg.v ===== *)
(** Messages: the data of [src/src/lib/graph/message/*.h], as the code that handles
    sequences of messages sees them, and the message sequence rules of
    [src/include/babeltrace2/graph/message.h].

    Streams and packets are addresses; the class of a stream and the stream of a
    packet, which do not change once the object exists, are functions (class
    [TraceIr]).  A message keeps its type, the objects it refers to and its clock
    snapshots; of the event of an event message, its class, stream and packet.
    Strings are lists of characters without their null character. *)

From stdpp Require Export gmap.
From S2P Require Import Prelude Clock.
#[global] Open Scope Z_scope.

Definition bt_stream : Type := positive.
Definition bt_packet : Type := positive.

Record bt_stream_class := BtStreamClass {
  sc_id : Z;
  sc_name : option (list Z);
  assigns_automatic_event_class_id : bool;
  assigns_automatic_stream_id : bool;
  supports_packets : bool;
  packets_have_beginning_default_clock_snapshot : bool;
  packets_have_end_default_clock_snapshot : bool;
  supports_discarded_events : bool;
  supports_discarded_packets : bool;
  discarded_events_have_default_clock_snapshots : bool;
  discarded_packets_have_default_clock_snapshots : bool;
  default_clock_class : option bt_clock_class
}.

(** The members of an event class that identify it. *)
Record bt_event_class := BtEventClass {
  ec_id : Z;
  ec_name : option (list Z);
  ec_log_level : option Z;
  ec_emf_uri : option (list Z)
}.

(** [stream->class] and [packet->stream]. *)
Class TraceIr := {
  stream_class : bt_stream -> bt_stream_class;
  packet_stream : bt_packet -> bt_stream
}.

Inductive bt_message :=
| StreamBeginning (stream : bt_stream) (default_cs : option bt_clock_snapshot)
    (default_cs_known : bool)
| StreamEnd (stream : bt_stream) (default_cs : option bt_clock_snapshot)
    (default_cs_known : bool)
| Event (cls : bt_event_class) (stream : bt_stream) (packet : option bt_packet)
    (default_cs : option bt_clock_snapshot)
| PacketBeginning (packet : bt_packet) (default_cs : option bt_clock_snapshot)
| PacketEnd (packet : bt_packet) (default_cs : option bt_clock_snapshot)
| DiscardedEvents (stream : bt_stream) (default_begin_cs default_end_cs : option bt_clock_snapshot)
    (count : option Z)
| DiscardedPackets (stream : bt_stream) (default_begin_cs default_end_cs : option bt_clock_snapshot)
    (count : option Z)
| MessageIteratorInactivity (cs : bt_clock_snapshot).

(** [enum bt_message_type]. *)
Definition BT_MESSAGE_TYPE_STREAM_BEGINNING : Z := 1.
Definition BT_MESSAGE_TYPE_STREAM_END : Z := 2.
Definition BT_MESSAGE_TYPE_EVENT : Z := 4.
Definition BT_MESSAGE_TYPE_PACKET_BEGINNING : Z := 8.
Definition BT_MESSAGE_TYPE_PACKET_END : Z := 16.
Definition BT_MESSAGE_TYPE_DISCARDED_EVENTS : Z := 32.
Definition BT_MESSAGE_TYPE_DISCARDED_PACKETS : Z := 64.
Definition BT_MESSAGE_TYPE_MESSAGE_ITERATOR_INACTIVITY : Z := 128.

Definition msg_type (msg : bt_message) : Z :=
  match msg with
  | StreamBeginning _ _ _ => BT_MESSAGE_TYPE_STREAM_BEGINNING
  | StreamEnd _ _ _ => BT_MESSAGE_TYPE_STREAM_END
  | Event _ _ _ _ => BT_MESSAGE_TYPE_EVENT
  | PacketBeginning _ _ => BT_MESSAGE_TYPE_PACKET_BEGINNING
  | PacketEnd _ _ => BT_MESSAGE_TYPE_PACKET_END
  | DiscardedEvents _ _ _ _ => BT_MESSAGE_TYPE_DISCARDED_EVENTS
  | DiscardedPackets _ _ _ _ => BT_MESSAGE_TYPE_DISCARDED_PACKETS
  | MessageIteratorInactivity _ => BT_MESSAGE_TYPE_MESSAGE_ITERATOR_INACTIVITY
  end.

Section streams.
Context `{TraceIr}.

Definition get_stream_from_msg (msg : bt_message) : option bt_stream :=
  match msg with
  | StreamBeginning stream _ _ | StreamEnd stream _ _ => Some stream
  | Event _ stream _ _ => Some stream
  | PacketBeginning packet _ | PacketEnd packet _ => Some (packet_stream packet)
  | DiscardedEvents stream _ _ _ | DiscardedPackets stream _ _ _ => Some stream
  | MessageIteratorInactivity _ => None
  end.

(** ** Message sequence rules

    The rules of the Message Interchange Protocol for the messages of one stream:
    [SB (E | DE)* SE] without packets and
    [SB ((PB (E | DE)* PE) | DE | DP)* SE] with packets, where the events between a
    packet beginning and a packet end message are in this packet, and DE and DP
    are only there when the class supports them. *)

Definition discarded_events_of (c : bt_stream_class) (m : bt_message) : Prop :=
  (exists s b e n, m = DiscardedEvents s b e n) /\ supports_discarded_events c = true.
Definition discarded_packets_of (c : bt_stream_class) (m : bt_message) : Prop :=
  (exists s b e n, m = DiscardedPackets s b e n) /\ supports_discarded_packets c = true.
Definition event_in (p : option bt_packet) (m : bt_message) : Prop :=
  exists c s cs, m = Event c s p cs.

(** What is between the stream beginning and the stream end message. *)
Inductive stream_body (c : bt_stream_class) : list bt_message -> Prop :=
| BodyNil : stream_body c []
| BodyEvent m l :
    supports_packets c = false -> event_in None m -> stream_body c l -> stream_body c (m :: l)
| BodyDiscardedEvents m l :
    discarded_events_of c m -> stream_body c l -> stream_body c (m :: l)
| BodyDiscardedPackets m l :
    supports_packets c = true -> discarded_packets_of c m -> stream_body c l ->
    stream_body c (m :: l)
| BodyPacket p cs cs' es l :
    supports_packets c = true ->
    Forall (fun m => event_in (Some p) m \/ discarded_events_of c m) es ->
    stream_body c l ->
    stream_body c (PacketBeginning p cs :: es ++ PacketEnd p cs' :: l).

Inductive stream_sequence (c : bt_stream_class) : list bt_message -> Prop :=
| StreamSequence s cs k s' cs' k' l :
    stream_body c l ->
    stream_sequence c (StreamBeginning s cs k :: l ++ [StreamEnd s' cs' k']).

(** The messages of a stream. *)
Definition of_stream (s : bt_stream) (l : list bt_message) : list bt_message :=
  filter (fun m => get_stream_from_msg m = Some s) l.

(** A sequence of messages of any number of streams follows the rules so far, when
    for each stream, messages of the stream can complete it to a sequence that
    follows them; it follows them when each stream with messages is complete. *)
Definition follows_rules_so_far (l : list bt_message) : Prop :=
  forall s, exists rest, of_stream s rest = rest /\
    stream_sequence (stream_class s) (of_stream s l ++ rest).
Definition follows_rules (l : list bt_message) : Prop :=
  forall s, of_stream s l <> [] -> stream_sequence (stream_class s) (of_stream s l).

End streams.
