(* ===== verification/MsgCreate.v ===== *)
(** The creation of messages: [src/src/lib/graph/message/packet.c], [stream.c], [event.c] and
    [discarded-items.c], with the preconditions on the configuration of the stream
    class.  The library and the user's message iterators create messages with
    these functions ([Iterator], [Trimmer]).  [None] is a failed precondition or
    assertion; allocations succeed. *)

From stdpp Require Import list.
From S2P Require Import Prelude Clock Msg.

Section create.
Context `{TraceIr} (debug : bool).

(** A new clock snapshot of a clock class, set to a value. *)
Definition new_snapshot (cc : bt_clock_class) (raw_value : Z) : option bt_clock_snapshot :=
  bt_clock_snapshot_set_raw_value debug (bt_clock_snapshot_new cc) raw_value.

(** [raw_value]: of the clock snapshot, for the functions "with default clock
    snapshot"; [is_end]: whether the message is of the pool of packet end messages. *)
Definition create_packet_message (is_end : bool) (packet : bt_packet) (raw_value : option Z)
    : option bt_message :=
  let c := stream_class (packet_stream packet) in
  guard_ub supports_packets c;
  let need_cs := if is_end then packets_have_end_default_clock_snapshot c
                 else packets_have_beginning_default_clock_snapshot c in
  let with_cs := bool_decide (is_Some raw_value) in
  BT_ASSERT_PRE (implb need_cs with_cs)
    (BT_ASSERT_PRE (implb (negb need_cs) (negb with_cs))
      (do cs <-
         match raw_value with
         | Some v => do cc <- default_clock_class c; do cs <- new_snapshot cc v; Some (Some cs)
         | None => Some None
         end;
       Some (if is_end then PacketEnd packet cs else PacketBeginning packet cs))).

(** The snapshot of a new stream message is not set. *)
Definition create_stream_message (is_end : bool) (stream : bt_stream) : bt_message :=
  let cs := option_map bt_clock_snapshot_new (default_clock_class (stream_class stream)) in
  if is_end then StreamEnd stream cs false else StreamBeginning stream cs false.

Definition set_stream_default_clock_snapshot (msg : bt_message) (raw_value : Z)
    : option bt_message :=
  match msg with
  | StreamBeginning stream cs _ =>
    BT_ASSERT_PRE (bool_decide (is_Some (default_clock_class (stream_class stream))))
      (do cs <- cs;
       do cs <- bt_clock_snapshot_set_raw_value debug cs raw_value;
       Some (StreamBeginning stream (Some cs) true))
  | StreamEnd stream cs _ =>
    BT_ASSERT_PRE (bool_decide (is_Some (default_clock_class (stream_class stream))))
      (do cs <- cs;
       do cs <- bt_clock_snapshot_set_raw_value debug cs raw_value;
       Some (StreamEnd stream (Some cs) true))
  | _ => None
  end.

(** [raws]: the values of the two clock snapshots. *)
Definition create_discarded_items_message (is_packets : bool) (stream : bt_stream)
    (raws : option (Z * Z)) : option bt_message :=
  let c := stream_class stream in
  let has_support := if is_packets then supports_discarded_packets c
                     else supports_discarded_events c in
  let need_cs := if is_packets then discarded_packets_have_default_clock_snapshots c
                 else discarded_events_have_default_clock_snapshots c in
  let with_cs := bool_decide (is_Some raws) in
  BT_ASSERT_PRE has_support
    (BT_ASSERT_PRE (implb need_cs with_cs)
      (BT_ASSERT_PRE (implb (negb need_cs) (negb with_cs))
        (do css <-
           match raws with
           | Some (begin_raw, end_raw) =>
             do cc <- default_clock_class c;
             do b <- new_snapshot cc begin_raw;
             do e <- new_snapshot cc end_raw;
             Some (Some b, Some e)
           | None => Some (None, None)
           end;
         Some (if is_packets then DiscardedPackets stream (fst css) (snd css) None
               else DiscardedEvents stream (fst css) (snd css) None)))).

(** [bt_message_discarded_events_create_with_default_clock_snapshots] and the one
    of packets. *)
Definition create_with_default_clock_snapshots (is_packets : bool) (stream : bt_stream)
    (beginning_raw_value end_raw_value : Z) : option bt_message :=
  BT_ASSERT_PRE (beginning_raw_value <=? end_raw_value)
    (create_discarded_items_message is_packets stream (Some (beginning_raw_value, end_raw_value))).

(** [same_class]: whether the class of the event is one of the class of the stream, to which
    the packet belongs; [raw_value] as above. *)
Definition create_event_message (same_class : bool) (event_class : bt_event_class) (stream : bt_stream) (packet : option bt_packet)
    (raw_value : option Z) : option bt_message :=
  let c := stream_class stream in
  let with_cs := bool_decide (is_Some raw_value) in
  BT_ASSERT_PRE same_class
    (BT_ASSERT_PRE (Bool.eqb with_cs (bool_decide (is_Some (default_clock_class c))))
      (guard_ub implb (debug && bool_decide (is_Some packet)) (supports_packets c);
       do cs <-
         match raw_value with
         | Some v => do cc <- default_clock_class c; do cs <- new_snapshot cc v; Some (Some cs)
         | None => Some None
         end;
       Some (Event event_class stream packet cs))).

(** [bt_message_discarded_events_set_count] and the one of packets. *)
Definition set_discarded_items_count (msg : bt_message) (count : Z) : option bt_message :=
  match msg with
  | DiscardedEvents stream b e _ => BT_ASSERT_PRE (0 <? count) (Some (DiscardedEvents stream b e (Some count)))
  | DiscardedPackets stream b e _ => BT_ASSERT_PRE (0 <? count) (Some (DiscardedPackets stream b e (Some count)))
  | _ => None
  end.
End create.

Arguments create_packet_message : simpl never.
Arguments create_stream_message : simpl never.
Arguments set_stream_default_clock_snapshot : simpl never.
Arguments create_with_default_clock_snapshots : simpl never.
Arguments create_event_message : simpl never.
Arguments set_discarded_items_count : simpl never.
