(* ===== verification/MsgSeq.v ===== *)
(** The developer-mode checks of the messages that a message iterator's "next"
    method returns: [src/src/lib/graph/iterator.c].

    Each stream the iterator has met has a state: the expected types of its next
    message, a bit mask, and its current packet.  [None] is an abort: a failed
    postcondition of the "next" method or a failed assertion. *)

From Stdlib Require Import Sorting.Sorted.
From S2P Require Import Prelude Clock Msg.

Record per_stream_state := PerStreamState {
  cur_packet : option bt_packet;
  expected_msg_types : Z
}.

(** [iterator->per_stream_state]. *)
Abbreviation stream_states := (gmap bt_stream per_stream_state).

(** The statuses of a "next" method. *)
Inductive next_status :=
| NextOk | NextAgain | NextEnd | NextError | NextMemoryError.

Section checks.
Context `{TraceIr}.

Definition set_expected (state : per_stream_state) (types : Z) : per_stream_state :=
  PerStreamState (cur_packet state) types.

(** [types |= flag] when [b] holds. *)
Definition add_if (b : bool) (flag types : Z) : Z := if b then Z.lor types flag else types.

Definition update_expected_msg_type (stream : bt_stream) (state : per_stream_state)
    (msg : bt_message) : option per_stream_state :=
  let c := stream_class stream in
  match msg with
  | StreamBeginning _ _ _ =>
    let types := BT_MESSAGE_TYPE_STREAM_END in
    let types :=
      if supports_packets c then
        let types := Z.lor types BT_MESSAGE_TYPE_PACKET_BEGINNING in
        add_if (supports_discarded_packets c) BT_MESSAGE_TYPE_DISCARDED_PACKETS types
      else Z.lor types BT_MESSAGE_TYPE_EVENT in
    Some (set_expected state
            (add_if (supports_discarded_events c) BT_MESSAGE_TYPE_DISCARDED_EVENTS types))
  | StreamEnd _ _ _ => Some (set_expected state 0)
  | Event _ _ _ _ =>
    let types := BT_MESSAGE_TYPE_EVENT in
    let types :=
      if supports_packets c then Z.lor types BT_MESSAGE_TYPE_PACKET_END
      else Z.lor types BT_MESSAGE_TYPE_STREAM_END in
    Some (set_expected state
            (add_if (supports_discarded_events c) BT_MESSAGE_TYPE_DISCARDED_EVENTS types))
  | PacketBeginning _ _ =>
    let types := Z.lor BT_MESSAGE_TYPE_EVENT BT_MESSAGE_TYPE_PACKET_END in
    Some (set_expected state
            (add_if (supports_discarded_events c) BT_MESSAGE_TYPE_DISCARDED_EVENTS types))
  | PacketEnd _ _ =>
    let types := Z.lor BT_MESSAGE_TYPE_PACKET_BEGINNING BT_MESSAGE_TYPE_STREAM_END in
    let types := add_if (supports_discarded_events c) BT_MESSAGE_TYPE_DISCARDED_EVENTS types in
    Some (set_expected state
            (add_if (supports_discarded_packets c) BT_MESSAGE_TYPE_DISCARDED_PACKETS types))
  | DiscardedEvents _ _ _ _ =>
    let types := BT_MESSAGE_TYPE_DISCARDED_EVENTS in
    let types :=
      match cur_packet state with
      | Some _ => Z.lor types (Z.lor BT_MESSAGE_TYPE_EVENT BT_MESSAGE_TYPE_PACKET_END)
      | None =>
        let types := Z.lor types BT_MESSAGE_TYPE_STREAM_END in
        if supports_packets c then
          let types := Z.lor types BT_MESSAGE_TYPE_PACKET_BEGINNING in
          add_if (supports_discarded_packets c) BT_MESSAGE_TYPE_DISCARDED_PACKETS types
        else Z.lor types BT_MESSAGE_TYPE_EVENT
      end in
    Some (set_expected state types)
  | DiscardedPackets _ _ _ _ =>
    let types := Z.lor (Z.lor BT_MESSAGE_TYPE_DISCARDED_PACKETS BT_MESSAGE_TYPE_PACKET_BEGINNING)
                   BT_MESSAGE_TYPE_STREAM_END in
    Some (set_expected state
            (add_if (supports_discarded_events c) BT_MESSAGE_TYPE_DISCARDED_EVENTS types))
  | MessageIteratorInactivity _ => None
  end.

(** The state of the stream, made when it is not there yet. *)
Definition get_per_stream_state (states : stream_states) (stream : bt_stream)
    : per_stream_state * stream_states :=
  match states !! stream with
  | Some state => (state, states)
  | None =>
    let state := PerStreamState None BT_MESSAGE_TYPE_STREAM_BEGINNING in
    (state, <[stream := state]> states)
  end.

Definition assert_post_dev_expected_sequence (states : stream_states) (msg : bt_message)
    : option stream_states :=
  match get_stream_from_msg msg with
  | None => Some states
  | Some stream =>
    let '(state, states) := get_per_stream_state states stream in
    guard_ub negb (Z.land (msg_type msg) (expected_msg_types state) =? 0);
    do state' <- update_expected_msg_type stream state msg;
    Some (<[stream := state']> states)
  end.

Definition assert_post_dev_expected_packet (states : stream_states) (msg : bt_message)
    : option stream_states :=
  match get_stream_from_msg msg with
  | None => Some states
  | Some stream =>
    let '(state, states) := get_per_stream_state states stream in
    do r <-
      match msg with
      | Event _ _ packet _ => Some (packet, cur_packet state, cur_packet state)
      | PacketBeginning packet _ =>
        guard_ub bool_decide (cur_packet state = None);
        Some (None, None, Some packet)
      | PacketEnd packet _ =>
        guard_ub bool_decide (is_Some (cur_packet state));
        Some (Some packet, cur_packet state, None)
      | _ => Some (None, None, cur_packet state)
      end;
    let '(actual_packet, expected_packet, cur) := r in
    guard_ub bool_decide (actual_packet = expected_packet);
    Some (<[stream := PerStreamState cur (expected_msg_types state)]> states)
  end.

(** The loop on the messages. *)
Fixpoint assert_post_dev_messages (states : stream_states) (msgs : list bt_message)
    : option stream_states :=
  match msgs with
  | [] => Some states
  | msg :: msgs =>
    do states <- assert_post_dev_expected_sequence states msg;
    do states <- assert_post_dev_expected_packet states msg;
    assert_post_dev_messages states msgs
  end.

Definition assert_post_dev_next (states : stream_states) (status : next_status)
    (msgs : list bt_message) : option stream_states :=
  match status with
  | NextOk => assert_post_dev_messages states msgs
  | NextEnd =>
    guard_ub forallb (fun kv => expected_msg_types kv.2 =? 0) (map_to_list states);
    Some states
  | _ => Some states
  end.

(** ** Clock snapshots *)

(** The snapshot that is compared. *)
Definition compared_clock_snapshot (msg : bt_message) : option bt_clock_snapshot :=
  match msg with
  | Event _ _ _ default_cs => default_cs
  | MessageIteratorInactivity cs => Some cs
  | PacketBeginning _ default_cs | PacketEnd _ default_cs => default_cs
  | StreamBeginning _ default_cs known | StreamEnd _ default_cs known =>
    if (known : bool) then default_cs else None
  | DiscardedEvents _ default_begin_cs _ _ | DiscardedPackets _ default_begin_cs _ _ =>
    default_begin_cs
  end.

(** The result and [iterator->last_ns_from_origin]. *)
Definition clock_snapshots_are_monotonic_one (debug : bool) (last_ns_from_origin : Z)
    (msg : bt_message) : option (bool * Z) :=
  match compared_clock_snapshot msg with
  | None => Some (true, last_ns_from_origin)
  | Some clock_snapshot =>
    do r <- bt_clock_snapshot_get_ns_from_origin debug clock_snapshot 0;
    match r with
    | (ClockOverflowError, _) => Some (true, last_ns_from_origin)
    | (ClockOk, ns_from_origin) =>
      Some (last_ns_from_origin <=? ns_from_origin, ns_from_origin)
    end
  end.

Fixpoint clock_snapshots_are_monotonic (debug : bool) (last_ns_from_origin : Z)
    (msgs : list bt_message) : option (bool * Z) :=
  match msgs with
  | [] => Some (true, last_ns_from_origin)
  | msg :: msgs =>
    do r <- clock_snapshots_are_monotonic_one debug last_ns_from_origin msg;
    if fst r then clock_snapshots_are_monotonic debug (snd r) msgs else Some (false, snd r)
  end.

End checks.

(** * The checks as an automaton *)

Section automaton.
Context `{TraceIr}.

(** Where a stream is in its sequence. *)
Inductive phase := Ready | Within | InPacket (p : bt_packet) | Ended.

Definition phase_step (c : bt_stream_class) (ph : phase) (m : bt_message) : option phase :=
  match ph, m with
  | Ready, StreamBeginning _ _ _ => Some Within
  | Within, StreamEnd _ _ _ => Some Ended
  | Within, Event _ _ None _ => if supports_packets c then None else Some Within
  | Within, PacketBeginning p _ => if supports_packets c then Some (InPacket p) else None
  | Within, DiscardedEvents _ _ _ _ => if supports_discarded_events c then Some Within else None
  | Within, DiscardedPackets _ _ _ _ =>
    if supports_packets c && supports_discarded_packets c then Some Within else None
  | InPacket p, Event _ _ (Some q) _ => if decide (q = p) then Some (InPacket p) else None
  | InPacket p, DiscardedEvents _ _ _ _ =>
    if supports_discarded_events c then Some (InPacket p) else None
  | InPacket p, PacketEnd q _ => if decide (q = p) then Some Within else None
  | _, _ => None
  end.

Fixpoint phase_run (c : bt_stream_class) (ph : phase) (l : list bt_message) : option phase :=
  match l with
  | [] => Some ph
  | m :: l => match phase_step c ph m with Some ph => phase_run c ph l | None => None end
  end.

(** The state that stands for a phase. *)
Definition phase_types (c : bt_stream_class) (ph : phase) : Z :=
  match ph with
  | Ready => BT_MESSAGE_TYPE_STREAM_BEGINNING
  | Within =>
    add_if (supports_discarded_events c) BT_MESSAGE_TYPE_DISCARDED_EVENTS
      (if supports_packets c then
         add_if (supports_discarded_packets c) BT_MESSAGE_TYPE_DISCARDED_PACKETS
           (Z.lor BT_MESSAGE_TYPE_STREAM_END BT_MESSAGE_TYPE_PACKET_BEGINNING)
       else Z.lor BT_MESSAGE_TYPE_STREAM_END BT_MESSAGE_TYPE_EVENT)
  | InPacket _ =>
    add_if (supports_discarded_events c) BT_MESSAGE_TYPE_DISCARDED_EVENTS
      (Z.lor BT_MESSAGE_TYPE_EVENT BT_MESSAGE_TYPE_PACKET_END)
  | Ended => 0
  end.
Definition phase_packet (ph : phase) : option bt_packet :=
  match ph with InPacket p => Some p | _ => None end.
Definition phase_state (c : bt_stream_class) (ph : phase) : per_stream_state :=
  PerStreamState (phase_packet ph) (phase_types c ph).

(** A packet that is open is one of the stream, whose class supports packets. *)
Definition phase_ok (s : bt_stream) (ph : phase) : Prop :=
  match ph with
  | InPacket p => supports_packets (stream_class s) = true /\ packet_stream p = s
  | _ => True
  end.

(** The table of the checks says that the stream [s] is in the phase [ph]. *)
Definition in_phase (states : stream_states) (s : bt_stream) (ph : phase) : Prop :=
  phase_ok s ph /\
  match states !! s with
  | Some state => ph <> Ready /\ state = phase_state (stream_class s) ph
  | None => ph = Ready
  end.

Lemma in_phase_state states s ph :
  in_phase states s ph ->
  exists states', get_per_stream_state states s = (phase_state (stream_class s) ph, states') /\
    forall st, <[s := st]> states' = <[s := st]> states.
Proof.
  intros [_ Hs]. unfold get_per_stream_state. destruct (states !! s) as [st|] eqn:E.
  - destruct Hs as [_ ->]. by exists states.
  - subst. eexists. split; [done|]. intros st. apply insert_insert_eq.
Qed.

Definition check_one (states : stream_states) (m : bt_message) : option stream_states :=
  do states <- assert_post_dev_expected_sequence states m;
  assert_post_dev_expected_packet states m.

(** ** One message *)

Lemma phase_step_ok s ph m ph' :
  get_stream_from_msg m = Some s -> phase_ok s ph ->
  phase_step (stream_class s) ph m = Some ph' -> phase_ok s ph'.
Proof.
  intros Hm Hok. destruct ph, m as [| |? ? []| | | | |]; simpl; try done;
    repeat case_decide; repeat case_match; try done; intros [= <-]; simpl in *; try done.
  split; [done|]. by injection Hm.
Qed.

Lemma phase_step_ready c ph m ph' : phase_step c ph m = Some ph' -> ph' <> Ready.
Proof.
  destruct ph, m as [| |? ? []| | | | |]; simpl; repeat case_match; intros E; simplify_eq; done.
Qed.

(** The expected types of a phase, and those set after a message. *)
Lemma expected_iff c ph m :
  Z.land (msg_type m) (phase_types c ph) <> 0 <->
  match ph, m with
  | Ready, StreamBeginning _ _ _ => True
  | Within, StreamEnd _ _ _ => True
  | Within, Event _ _ _ _ => supports_packets c = false
  | Within, PacketBeginning _ _ => supports_packets c = true
  | Within, DiscardedEvents _ _ _ _ => supports_discarded_events c = true
  | Within, DiscardedPackets _ _ _ _ => supports_packets c = true /\ supports_discarded_packets c = true
  | InPacket _, Event _ _ _ _ | InPacket _, PacketEnd _ _ => True
  | InPacket _, DiscardedEvents _ _ _ _ => supports_discarded_events c = true
  | _, _ => False
  end.
Proof.
  unfold phase_types, add_if.
  destruct (supports_packets c), (supports_discarded_events c), (supports_discarded_packets c), ph, m;
    vm_compute; intuition congruence.
Qed.

(** The phase that the expected types announce once they are updated. *)
Definition announced (ph : phase) (m : bt_message) : phase :=
  match m with
  | StreamBeginning _ _ _ => Within
  | StreamEnd _ _ _ => Ended
  | PacketBeginning p _ => InPacket p
  | PacketEnd _ _ => Within
  | _ => ph
  end.

Lemma update_expected_phase s ph m :
  phase_ok s ph -> Z.land (msg_type m) (phase_types (stream_class s) ph) <> 0 ->
  update_expected_msg_type s (phase_state (stream_class s) ph) m =
    Some (PerStreamState (phase_packet ph) (phase_types (stream_class s) (announced ph m))).
Proof.
  intros Hok Hexp. apply expected_iff in Hexp.
  unfold update_expected_msg_type, set_expected, phase_state, phase_types, add_if.
  destruct ph, m; simpl in *; try done; try rewrite (proj1 Hok);
    try rewrite Hexp; try rewrite (proj1 Hexp), (proj2 Hexp); repeat case_match; done.
Qed.

(** The packet check, once the expected types are updated. *)
Lemma expected_packet_step states s ph m types :
  get_stream_from_msg m = Some s ->
  states !! s = Some (PerStreamState (phase_packet ph) types) ->
  Z.land (msg_type m) (phase_types (stream_class s) ph) <> 0 ->
  assert_post_dev_expected_packet states m =
    option_map (fun ph' => <[s := PerStreamState (phase_packet ph') types]> states)
      (phase_step (stream_class s) ph m).
Proof.
  intros Hm Hs Hexp. apply expected_iff in Hexp.
  unfold assert_post_dev_expected_packet, get_per_stream_state. rewrite Hm, Hs.
  destruct ph, m as [| |? ? []| | | | |]; simpl in *; try done;
    try rewrite Hexp; try rewrite (proj1 Hexp), (proj2 Hexp); try done;
    repeat case_bool_decide; repeat case_decide; repeat case_match; simplify_eq; try done;
    exfalso; naive_solver.
Qed.

Lemma check_one_step states s ph m :
  get_stream_from_msg m = Some s -> in_phase states s ph ->
  check_one states m =
    option_map (fun ph' => <[s := phase_state (stream_class s) ph']> states)
      (phase_step (stream_class s) ph m).
Proof.
  intros Hm Hph. destruct (in_phase_state _ _ _ Hph) as (states' & Hget & Hins).
  destruct Hph as [Hok _]. unfold check_one, assert_post_dev_expected_sequence. rewrite Hm, Hget.
  change (expected_msg_types (phase_state _ ph)) with (phase_types (stream_class s) ph).
  destruct (Z.eqb_spec (Z.land (msg_type m) (phase_types (stream_class s) ph)) 0) as [Hz|Hnz];
    cbn [negb].
  - assert (Hno : phase_step (stream_class s) ph m = None); [|by rewrite Hno].
    pose proof (expected_iff (stream_class s) ph m) as Hexp.
    destruct ph, m as [| |? ? []| | | | |]; simpl in *; try done; repeat case_match; try done;
      exfalso; b2p; apply Hexp in Hz; auto.
  - rewrite update_expected_phase, Hins by done.
    rewrite (expected_packet_step _ s ph m _ Hm (lookup_insert_eq _ _ _) Hnz).
    destruct (phase_step (stream_class s) ph m) as [ph'|] eqn:Hst; [|done].
    assert (Ha : announced ph m = ph' \/ exists p, ph' = InPacket p /\ ph = InPacket p).
    { destruct ph, m as [| |? ? []| | | | |]; simpl in *; try done; repeat case_match; try done;
        injection Hst as <-; eauto. }
    simpl. rewrite insert_insert_eq. unfold phase_state. do 3 f_equal.
    destruct Ha as [-> |(p & -> & ->)]; [done|]. destruct m; done || (simpl in *; repeat case_match; congruence).
Qed.

(** ** Sequences *)

Lemma no_stream_check states m : get_stream_from_msg m = None -> check_one states m = Some states.
Proof.
  intros Hm. unfold check_one, assert_post_dev_expected_sequence, assert_post_dev_expected_packet.
  by rewrite !Hm.
Qed.

Lemma messages_cons states m l :
  assert_post_dev_messages states (m :: l) =
    do states' <- check_one states m; assert_post_dev_messages states' l.
Proof.
  unfold check_one. simpl. destruct (assert_post_dev_expected_sequence states m); [|done].
  by destruct (assert_post_dev_expected_packet _ m).
Qed.

Lemma of_stream_cons s m l :
  of_stream s (m :: l) =
    if decide (get_stream_from_msg m = Some s) then m :: of_stream s l else of_stream s l.
Proof. unfold of_stream. by rewrite filter_cons. Qed.

(** The checks accept the messages when each stream's automaton does, and the table
    then has the phase of each stream. *)
Lemma messages_run l : forall states (phs : bt_stream -> phase),
  (forall s, in_phase states s (phs s)) ->
  match assert_post_dev_messages states l with
  | Some states' =>
    forall s, exists ph, phase_run (stream_class s) (phs s) (of_stream s l) = Some ph /\
      in_phase states' s ph
  | None => exists s, phase_run (stream_class s) (phs s) (of_stream s l) = None
  end.
Proof.
  induction l as [|m l IH]; intros states phs Hin.
  { intros s. exists (phs s). split; [done|apply Hin]. }
  rewrite messages_cons. destruct (get_stream_from_msg m) as [s0|] eqn:Hm.
  2: { rewrite no_stream_check by done. specialize (IH states phs Hin).
       assert (Hs : forall s, of_stream s (m :: l) = of_stream s l)
         by (intros s; rewrite of_stream_cons, Hm, decide_False by done; done).
       destruct (assert_post_dev_messages states l).
       - intros s. rewrite Hs. apply IH.
       - destruct IH as [s IH]. exists s. by rewrite Hs. }
  rewrite (check_one_step states s0 (phs s0) m Hm (Hin s0)).
  destruct (phase_step (stream_class s0) (phs s0) m) as [ph'|] eqn:Hst; simpl.
  2: { exists s0. rewrite of_stream_cons, Hm, decide_True by done. simpl. by rewrite Hst. }
  set (phs' := fun s => if decide (s = s0) then ph' else phs s).
  assert (Hin' : forall s, in_phase (<[s0 := phase_state (stream_class s0) ph']> states) s (phs' s)).
  { intros s. unfold phs'. destruct (decide (s = s0)) as [-> |Hne].
    - split; [eapply phase_step_ok; eauto; apply Hin|]. rewrite lookup_insert_eq.
      split; [by eapply phase_step_ready|done].
    - destruct (Hin s) as [Hok Hs]. split; [done|]. by rewrite lookup_insert_ne. }
  assert (Hrun : forall s, phase_run (stream_class s) (phs s) (of_stream s (m :: l)) =
                           phase_run (stream_class s) (phs' s) (of_stream s l)).
  { intros s. rewrite of_stream_cons, Hm. unfold phs'. destruct (decide (s = s0)) as [-> |Hne].
    - rewrite decide_True by done. simpl. by rewrite Hst.
    - rewrite decide_False by congruence. done. }
  specialize (IH _ phs' Hin'). destruct (assert_post_dev_messages _ l).
  - intros s. rewrite Hrun. apply IH.
  - destruct IH as [s IH]. exists s. by rewrite Hrun.
Qed.

(** ** The automaton and the rules *)

Lemma phase_run_app c ph l k :
  phase_run c ph (l ++ k) =
    match phase_run c ph l with Some ph => phase_run c ph k | None => None end.
Proof. revert ph. induction l as [|m l IH]; intros ph; [done|]. simpl. by destruct (phase_step c ph m). Qed.

Lemma packet_run c p es :
  supports_packets c = true ->
  Forall (fun m => event_in (Some p) m \/ discarded_events_of c m) es ->
  phase_run c (InPacket p) es = Some (InPacket p).
Proof.
  intros _. induction 1 as [|m es Hm _ IH]; [done|]. simpl.
  destruct Hm as [(ec & s & cs & ->)|[(s & b & e & n & ->) Hd]]; simpl.
  - by rewrite decide_True.
  - by rewrite Hd.
Qed.

Lemma body_run c l : stream_body c l -> phase_run c Within l = Some Within.
Proof.
  induction 1 as [|m l Hp (ec & s & cs & ->) _ IH|m l [(s & b & e & n & ->) Hd] _ IH
    |m l Hp [(s & b & e & n & ->) Hd] _ IH|p cs cs' es l Hp Hes _ IH]; simpl.
  - done.
  - by rewrite Hp.
  - by rewrite Hd.
  - by rewrite Hp, Hd.
  - rewrite Hp, phase_run_app, (packet_run c p es Hp Hes). simpl. by rewrite decide_True.
Qed.

(** What the automaton reads from within a stream or a packet to within the stream. *)
Lemma run_body c l :
  (phase_run c Within l = Some Within -> stream_body c l) /\
  (forall p, supports_packets c = true -> phase_run c (InPacket p) l = Some Within ->
   exists es cs l', l = es ++ PacketEnd p cs :: l' /\ stream_body c l' /\
     Forall (fun m => event_in (Some p) m \/ discarded_events_of c m) es).
Proof.
  induction l as [|m l [IHw IHp]]; [split; [constructor|done]|].
  split.
  - simpl. destruct m as [| |ec s [q|] cs|q cs| |s b e n|s b e n|]; simpl; try done.
    + by destruct l.
    + destruct (supports_packets c) eqn:Hp; [done|]. intros Hr.
      apply BodyEvent; [done|by do 3 eexists|by apply IHw].
    + destruct (supports_packets c) eqn:Hp; [|done]. intros Hr.
      destruct (IHp q eq_refl Hr) as (es & cs' & l' & -> & Hb & Hes). by apply BodyPacket.
    + destruct (supports_discarded_events c) eqn:Hd; [|done]. intros Hr.
      apply BodyDiscardedEvents; [|by apply IHw]. split; [by do 4 eexists|done].
    + destruct (supports_packets c) eqn:Hp; [|done].
      destruct (supports_discarded_packets c) eqn:Hd; [|done]. intros Hr.
      apply BodyDiscardedPackets; [done| |by apply IHw]. split; [by do 4 eexists|done].
  - intros p Hp. simpl. destruct m as [| |ec s [q|] cs|q cs|q cs|s b e n|s b e n|]; simpl; try done.
    + case_decide as Hq; [subst q|done]. intros Hr.
      destruct (IHp p Hp Hr) as (es & cs' & l' & -> & Hb & Hes).
      eexists (_ :: es), cs', l'. split; [done|]. split; [done|]. constructor; [|done].
      left. by do 3 eexists.
    + case_decide as Hq; [subst q|done]. intros Hr. exists [], cs, l. auto.
    + destruct (supports_discarded_events c) eqn:Hd; [|done]. intros Hr.
      destruct (IHp p Hp Hr) as (es & cs' & l' & -> & Hb & Hes).
      eexists (_ :: es), cs', l'. split; [done|]. split; [done|]. constructor; [|done].
      right. split; [by do 4 eexists|done].
Qed.

Lemma sequence_run c l : stream_sequence c l <-> phase_run c Ready l = Some Ended.
Proof.
  split.
  - intros [s cs k s' cs' k' b Hb]. simpl. by rewrite phase_run_app, (body_run c b Hb).
  - destruct l as [|m l]; [done|]. destruct m; try done. simpl. intros Hr.
    destruct l as [|m l _] using rev_ind; [done|].
    rewrite phase_run_app in Hr. destruct (phase_run c Within l) as [ph|] eqn:Hb; [|done].
    simpl in Hr. destruct (phase_step c ph m) as [ph'|] eqn:Hst; [|done]. injection Hr as ->.
    assert (ph = Within /\ exists s' cs' k', m = StreamEnd s' cs' k') as [-> (s' & cs' & k' & ->)].
    { destruct ph, m as [| |? ? []| | | | |]; simpl in Hst; repeat case_match; try done.
      split; [done|]. by do 3 eexists. }
    constructor. by apply run_body.
Qed.

(** From any phase, the stream can still be ended by messages of its own. *)
Lemma phase_completes s ph :
  phase_ok s ph ->
  exists rest, phase_run (stream_class s) ph rest = Some Ended /\ of_stream s rest = rest.
Proof.
  unfold of_stream. destruct ph as [| |p|]; simpl.
  - exists [StreamBeginning s None false; StreamEnd s None false]. split; [done|].
    rewrite !filter_cons_True by done. done.
  - exists [StreamEnd s None false]. split; [done|]. by rewrite filter_cons_True.
  - intros [Hp Hps]. exists [PacketEnd p None; StreamEnd s None false]. simpl.
    rewrite decide_True by done. split; [done|].
    rewrite !filter_cons_True by (simpl; congruence). done.
  - exists []. done.
Qed.

Lemma run_accepts_iff s l :
  (forall ph, phase_run (stream_class s) Ready l = Some ph -> phase_ok s ph) ->
  (exists ph, phase_run (stream_class s) Ready l = Some ph) <->
  exists rest, of_stream s rest = rest /\ stream_sequence (stream_class s) (l ++ rest).
Proof.
  intros Hok. split.
  - intros [ph Hr]. destruct (phase_completes s ph (Hok _ Hr)) as (rest & Hrest & Hs).
    exists rest. split; [done|]. apply sequence_run. by rewrite phase_run_app, Hr.
  - intros (rest & _ & Hseq). apply sequence_run in Hseq. rewrite phase_run_app in Hseq.
    destruct (phase_run _ Ready l); [by eexists|done].
Qed.

Lemma phase_types_ended c ph : (phase_types c ph =? 0) = true <-> ph = Ended.
Proof.
  unfold phase_types, add_if. destruct ph; repeat case_match; vm_compute; split; done.
Qed.

Lemma in_phase_empty s : in_phase ∅ s Ready.
Proof. split; [done|]. by rewrite lookup_empty. Qed.

Lemma run_ready c l : phase_run c Ready l = Some Ready -> l = [].
Proof.
  destruct l as [|m l _] using rev_ind; [done|]. rewrite phase_run_app.
  destruct (phase_run c Ready l) as [ph|]; [|done]. simpl.
  destruct (phase_step c ph m) as [ph'|] eqn:Hst; [|done]. intros [= ->].
  destruct ph, m as [| |? ? []| | | | |]; simpl in Hst; repeat case_match; done.
Qed.

End automaton.

(** ** Clock snapshots *)

(** The time the monotonicity check sees in a message, if any. *)
Definition message_time (m : bt_message) : option Z :=
  match compared_clock_snapshot m with
  | Some cs => if ns_from_origin_overflows cs then None else Some (ns_from_origin cs)
  | None => None
  end.

Definition snapshot_is_set (m : bt_message) : Prop :=
  match compared_clock_snapshot m with Some cs => is_set cs = true | None => True end.

Lemma monotonic_one debug last m :
  snapshot_is_set m ->
  clock_snapshots_are_monotonic_one debug last m =
    Some (match message_time m with
          | Some t => (last <=? t, t)
          | None => (true, last)
          end).
Proof.
  unfold snapshot_is_set, clock_snapshots_are_monotonic_one, message_time.
  destruct (compared_clock_snapshot m) as [cs|]; [|done]. intros Hs.
  unfold bt_clock_snapshot_get_ns_from_origin, BT_ASSERT_DBG. rewrite Hs, andb_false_r.
  by destruct (ns_from_origin_overflows cs).
Qed.

Lemma monotonic_run debug l : forall last,
  Forall snapshot_is_set l ->
  exists b last', clock_snapshots_are_monotonic debug last l = Some (b, last') /\
    (b = true <-> Sorted Z.le (last :: omap message_time l)).
Proof.
  induction l as [|m l IH]; intros last Hs.
  { exists true, last. split; [done|]. split; [|done]. repeat constructor. }
  cbn [clock_snapshots_are_monotonic omap list_omap].
  rewrite monotonic_one by (by apply (Forall_cons_1 _ _ _ Hs)).
  apply Forall_cons_1 in Hs as [_ Hs]. destruct (message_time m) as [t|]; cbn [fst snd].
  - destruct (Z.leb_spec last t).
    + destruct (IH t Hs) as (b & last' & -> & Hb). exists b, last'. split; [done|].
      rewrite Hb. split; [intros Hst; constructor; [done|by constructor]|].
      intros Hst. by apply Sorted_inv in Hst as [? _].
    + exists false, t. split; [done|]. split; [done|].
      intros Hst. apply Sorted_inv in Hst as [_ Hh]. apply HdRel_inv in Hh. lia.
  - destruct (IH last Hs) as (b & last' & -> & Hb). by exists b, last'.
Qed.

Lemma end_check `{TraceIr} states msgs :
  is_Some (assert_post_dev_next states NextEnd msgs) <->
  forall s st, states !! s = Some st -> (expected_msg_types st =? 0) = true.
Proof.
  unfold assert_post_dev_next. destruct (forallb _ _) eqn:E.
  - split; [intros _ s st Hs|by eexists]. rewrite forallb_forall in E.
    apply (E (s, st)). apply list_elem_of_In, elem_of_map_to_list. done.
  - split; [by intros [? ?]|]. intros Hall. exfalso. revert E.
    apply not_false_iff_true, forallb_forall. intros [s st] Hin.
    apply (Hall s). apply elem_of_map_to_list, list_elem_of_In. done.
Qed.

Lemma messages_app `{TraceIr} l : forall states k,
  assert_post_dev_messages states (l ++ k) =
  do states' <- assert_post_dev_messages states l; assert_post_dev_messages states' k.
Proof.
  induction l as [|m l IH]; intros states k; [done|]. cbn [app].
  rewrite !messages_cons. destruct (check_one states m); [apply IH|done].
Qed.

(** * Claims *)

(** C23: The developer-mode checks of the order of messages are the message
    sequence rules.  From the empty table, the checks accept the messages (in any
    number of batches) exactly when, for each stream, the messages it got so far
    can be completed to a sequence of the rules, [SB (E | DE)* SE] or
    [SB ((PB (E | DE)* PE) | DE | DP)* SE]; and the check at the end accepts
    exactly when the messages of each stream that has some are such a sequence. *)
Theorem message_checks_are_the_rules `{TraceIr} (l : list bt_message) :
  (is_Some (assert_post_dev_next ∅ NextOk l) <-> follows_rules_so_far l) /\
  (forall states, assert_post_dev_next ∅ NextOk l = Some states ->
   is_Some (assert_post_dev_next states NextEnd []) <-> follows_rules l) /\
  (forall states k, assert_post_dev_next states NextOk (l ++ k) =
   do states' <- assert_post_dev_next states NextOk l; assert_post_dev_next states' NextOk k).
Proof.
  pose proof (messages_run l ∅ (fun _ => Ready) in_phase_empty) as Hrun.
  split; [|split; [|intros; apply messages_app]].
  - split.
    + intros [states E] s. cbn in E. rewrite E in Hrun. destruct (Hrun s) as (ph & Hph & Hok & _).
      apply run_accepts_iff; [intros ph'; rewrite Hph; by intros [= <-]|by exists ph].
    + intros Hf. cbn. destruct (assert_post_dev_messages ∅ l) as [st|]; [by eexists|].
      destruct Hrun as [s Hs]. destruct (Hf s) as (rest & _ & Hseq).
      apply sequence_run in Hseq. rewrite phase_run_app, Hs in Hseq. done.
  - intros states E. cbn in E. rewrite E in Hrun. rewrite end_check. split.
    + intros Hall s Hne. apply sequence_run. destruct (Hrun s) as (ph & Hph & _ & Hst).
      rewrite Hph. f_equal. destruct (states !! s) as [st|] eqn:Hs.
      * specialize (Hall s st Hs). destruct Hst as [_ ->]. by apply phase_types_ended in Hall.
      * subst ph. by apply run_ready in Hph.
    + intros Hf s st Hs. destruct (Hrun s) as (ph & Hph & _ & Hst). rewrite Hs in Hst.
      destruct Hst as [Hnr ->]. apply phase_types_ended.
      destruct (decide (of_stream s l = [])) as [Hnil|Hne].
      * exfalso. rewrite Hnil in Hph. by injection Hph as <-.
      * specialize (Hf s Hne). apply sequence_run in Hf. congruence.
Qed.

(** The developer-mode check of clock snapshots answers whether the times of
    the messages, when they have one that does not overflow, never go back,
    starting from the last time known (for discarded items, the beginning time). *)
Theorem monotonic_check_exact debug (last : Z) (l : list bt_message) :
  Forall snapshot_is_set l ->
  exists b last', clock_snapshots_are_monotonic debug last l = Some (b, last') /\
    (b = true <-> Sorted Z.le (last :: omap message_time l)).
Proof. apply monotonic_run. Qed.

(** * Witnesses *)

Definition ex_ec : bt_event_class := BtEventClass 0 None None None.

(** A stream with packets and one without, interleaved. *)
Definition ex_class (packets : bool) : bt_stream_class :=
  BtStreamClass 0 None true true packets false false true packets false false None.
Definition ex_trace : TraceIr := {|
  stream_class := fun s => ex_class (Pos.eqb s 1);
  packet_stream := fun _ => 1%positive
|}.
Definition ex_messages : list bt_message :=
  [StreamBeginning 1%positive None false; StreamBeginning 2%positive None false;
   PacketBeginning 7%positive None; Event ex_ec 2%positive None None;
   Event ex_ec 1%positive (Some 7%positive) None; DiscardedEvents 2%positive None None None;
   PacketEnd 7%positive None; StreamEnd 2%positive None false;
   DiscardedPackets 1%positive None None (Some 3); StreamEnd 1%positive None false].

Example ex_messages_accepted :
  is_Some (do states <- @assert_post_dev_next ex_trace ∅ NextOk ex_messages;
           @assert_post_dev_next ex_trace states NextEnd []).
Proof. vm_compute. by eexists. Qed.

Example ex_messages_cut_refused :
  @assert_post_dev_next ex_trace ∅ NextOk
    (Event ex_ec 1%positive None None :: ex_messages) = None.
Proof. vm_compute. reflexivity. Qed.

Definition ex_snapshot (ns : Z) : bt_clock_snapshot :=
  BtClockSnapshot (BtClockClass NS_PER_S 0 0 0 false true ex_attrs) ns false ns true.

Lemma monotonic_check_exact_witness :
  let l := [Event ex_ec 1%positive None (Some (ex_snapshot 5)); Event ex_ec 1%positive None None;
            Event ex_ec 1%positive None (Some (ex_snapshot 4))] in
  Forall snapshot_is_set l /\
  exists b last', clock_snapshots_are_monotonic true 0 l = Some (b, last') /\ b = false /\
    ~ Sorted Z.le (0 :: omap message_time l).
Proof.
  intros l. assert (Hs : Forall snapshot_is_set l) by (repeat constructor).
  split; [exact Hs|].
  destruct (monotonic_check_exact true 0 l Hs) as (b & last' & E & Hb).
  exists b, last'. split; [exact E|]. vm_compute in E. injection E as <- <-.
  split; [done|]. intros Hst. apply Hb in Hst. done.
Defined.
