(* ===== verification/ClockCorr.v ===== *)
(** The clock correlation validator:
    [src/src/clock-correlation-validator/clock-correlation-validator.cpp] and
    [.hpp], with what it uses of [src/src/cpp-common/bt2/clock-class.hpp] and
    [identity-view.hpp].  It decides whether the clock classes of all the messages
    of a sequence are correlatable, from one reference clock class.

    What a client uses of a validator is class [CorrelationValidator]; the
    validator of this file is an instance. *)

From S2P Require Import Prelude Clock Msg.

(** What the library uses of a clock correlation validator with the state [V]: it
    accepts a message, or refuses it or aborts ([None]). *)
Class CorrelationValidator (V : Type) := {
  bt_clock_correlation_validator_validate_message : V -> bt_message -> option V
}.

(** * Views of a clock class *)

(** The identity of a clock class or of an origin. *)
Record IdentityView := {
  nameSpace : option (list Z);
  idv_name : option (list Z);
  idv_uid : option (list Z)
}.

(** [operator==(const IdentityView&, const IdentityView&)]. *)
Definition identity_eqb (a b : IdentityView) : bool :=
  match idv_name a, idv_uid a, idv_name b, idv_uid b with
  | Some na, Some ua, Some nb, Some ub =>
    bool_decide (nameSpace a = nameSpace b) && bool_decide (na = nb) && bool_decide (ua = ub)
  | _, _, _, _ => false
  end.

(** The getters with their preconditions on the MIP version. *)
Definition bt_clock_class_get_uuid (cc : bt_clock_class) : option (option (list Z)) :=
  BT_ASSERT_PRE (cc_mip_version (attrs cc) =? 0) (Some (cc_uuid (attrs cc))).
Definition bt_clock_class_get_uid (cc : bt_clock_class) : option (option (list Z)) :=
  BT_ASSERT_PRE (mip_version_ge cc 1) (Some (cc_uid (attrs cc))).

(** [CommonClockClass::identity()]. *)
Definition identity (cc : bt_clock_class) : option IdentityView :=
  do uid <- bt_clock_class_get_uid cc;
  BT_ASSERT_PRE (mip_version_ge cc 1)
    (Some {| nameSpace := cc_ns (attrs cc); idv_name := cc_name (attrs cc); idv_uid := uid |}).

(** [ClockOriginView::identity()]: only of a custom origin ([dev]: in developer
    mode; its members are null otherwise). *)
Definition origin_identity (dev : bool) (cc : bt_clock_class) : option IdentityView :=
  BT_ASSERT_PRE (mip_version_ge cc 1)
    match cc_origin (attrs cc) with
    | CustomOrigin ns name uid =>
      Some {| nameSpace := ns; idv_name := Some name; idv_uid := Some uid |}
    | _ =>
      BT_ASSERT_PRE_DEV dev false
        (Some {| nameSpace := None; idv_name := None; idv_uid := None |})
    end.

Definition isSameClockOrigin (dev : bool) (a b : bt_clock_class) : option bool :=
  let ua := bt_clock_class_origin_is_unix_epoch a in
  let ub := bt_clock_class_origin_is_unix_epoch b in
  if ua && ub then Some true
  else if ua && negb ub then Some false
  else if negb ua && ub then Some false
  else if bt_clock_class_origin_is_known a && bt_clock_class_origin_is_known b then
    do ia <- origin_identity dev a;
    do ib <- origin_identity dev b;
    Some (identity_eqb ia ib)
  else Some false.

(** * The validator *)

Inductive PropsExpectation :=
| Unset | NoClock | OriginKnown | OriginUnknownWithId | OriginUnknownWithoutId.

(** [ClockCorrelationError::Type]. *)
Inductive ClockCorrelationError :=
| ExpectingNoClockClassGotOne
| ExpectingOriginKnownGotNoClockClass
| ExpectingOriginKnownGotUnknownOrigin
| ExpectingOriginKnownGotOtherOrigin
| ExpectingOriginUnknownWithIdGotNoClockClass
| ExpectingOriginUnknownWithIdGotKnownOrigin
| ExpectingOriginUnknownWithIdGotWithoutId
| ExpectingOriginUnknownWithIdGotOtherId
| ExpectingOriginUnknownWithoutIdGotNoClockClass
| ExpectingOriginUnknownWithoutIdGotOtherClockClass.

#[export] Instance PropsExpectation_eq_dec : EqDecision PropsExpectation.
Proof. solve_decision. Defined.

Record ClockCorrelationValidator := {
  _mExpectation : PropsExpectation;
  _mRefClockClass : option bt_clock_class
}.

Definition new_validator : ClockCorrelationValidator :=
  {| _mExpectation := Unset; _mRefClockClass := None |}.

Section validator.
Context `{TraceIr}.
Context (dev : bool) (graphMipVersion : Z).

Definition clockClassHasKnownAndComparableIdentity (clockCls : bt_clock_class) : option bool :=
  if graphMipVersion =? 0 then
    do uuid <- bt_clock_class_get_uuid clockCls;
    Some (bool_decide (is_Some uuid))
  else if bool_decide (is_Some (cc_name (attrs clockCls))) then
    do uid <- bt_clock_class_get_uid clockCls;
    Some (bool_decide (is_Some uid))
  else Some false.

Definition clockClassHasKnownAndComparableOrigin (clockCls : bt_clock_class) : bool :=
  if graphMipVersion =? 0 then bt_clock_class_origin_is_unix_epoch clockCls
  else bt_clock_class_origin_is_known clockCls.

(** Returns [inr] of the error, or [inl] of the validator. *)
Definition validate_clock_class (v : ClockCorrelationValidator) (clockCls : option bt_clock_class)
    : option (ClockCorrelationValidator + ClockCorrelationError) :=
  match _mExpectation v with
  | Unset =>
    match clockCls with
    | Some cc =>
      do expectation <-
        (if clockClassHasKnownAndComparableOrigin cc then Some OriginKnown
         else do with_id <- clockClassHasKnownAndComparableIdentity cc;
              Some (if with_id then OriginUnknownWithId else OriginUnknownWithoutId));
      Some (inl {| _mExpectation := expectation; _mRefClockClass := Some cc |})
    | None => Some (inl {| _mExpectation := NoClock; _mRefClockClass := _mRefClockClass v |})
    end
  | NoClock =>
    match clockCls with
    | Some _ => Some (inr ExpectingNoClockClassGotOne)
    | None => Some (inl v)
    end
  | OriginKnown =>
    match clockCls with
    | None => Some (inr ExpectingOriginKnownGotNoClockClass)
    | Some cc =>
      if negb (clockClassHasKnownAndComparableOrigin cc) then
        Some (inr ExpectingOriginKnownGotUnknownOrigin)
      else
        do ref <- _mRefClockClass v;
        do same <- isSameClockOrigin dev cc ref;
        Some (if (same : bool) then inl v else inr ExpectingOriginKnownGotOtherOrigin)
    end
  | OriginUnknownWithId =>
    match clockCls with
    | None => Some (inr ExpectingOriginUnknownWithIdGotNoClockClass)
    | Some cc =>
      if clockClassHasKnownAndComparableOrigin cc then
        Some (inr ExpectingOriginUnknownWithIdGotKnownOrigin)
      else
        do with_id <- clockClassHasKnownAndComparableIdentity cc;
        if negb with_id then Some (inr ExpectingOriginUnknownWithIdGotWithoutId)
        else
          do ref <- _mRefClockClass v;
          do same <-
            (if graphMipVersion =? 0 then
               do uuid <- bt_clock_class_get_uuid cc;
               do ref_uuid <- bt_clock_class_get_uuid ref;
               do uuid <- uuid;
               Some (bool_decide (Some uuid = ref_uuid))
             else
               do id <- identity cc;
               do ref_id <- identity ref;
               Some (identity_eqb id ref_id));
          Some (if (same : bool) then inl v else inr ExpectingOriginUnknownWithIdGotOtherId)
    end
  | OriginUnknownWithoutId =>
    match clockCls with
    | None => Some (inr ExpectingOriginUnknownWithoutIdGotNoClockClass)
    | Some cc =>
      do ref <- _mRefClockClass v;
      Some (if bool_decide (cc_address (attrs cc) = cc_address (attrs ref)) then inl v
            else inr ExpectingOriginUnknownWithoutIdGotOtherClockClass)
    end
  end.

(** The clock class, if any, that a message is about, for the messages that are
    validated. *)
Definition validated_clock_class (msg : bt_message) : option (option bt_clock_class) :=
  match msg with
  | StreamBeginning stream _ _ => Some (default_clock_class (stream_class stream))
  | MessageIteratorInactivity cs => Some (Some (clock_class cs))
  | _ => None
  end.

Definition validate (v : ClockCorrelationValidator) (msg : bt_message)
    : option (ClockCorrelationValidator + ClockCorrelationError) :=
  match validated_clock_class msg with
  | Some clockCls => validate_clock_class v clockCls
  | None => Some (inl v)
  end.

(** The C interface, for a client that aborts on an error. *)
#[export] Instance clock_correlation_validator : CorrelationValidator ClockCorrelationValidator := {|
  bt_clock_correlation_validator_validate_message := fun v msg =>
    do r <- validate v msg;
    match r with inl v => Some v | inr _ => None end
|}.

(** Validates messages in order: the validator, or the first error. *)
Fixpoint validate_all (v : ClockCorrelationValidator) (msgs : list bt_message)
    : option (ClockCorrelationValidator + ClockCorrelationError) :=
  match msgs with
  | [] => Some (inl v)
  | msg :: msgs =>
    do r <- validate v msg;
    match r with
    | inl v => validate_all v msgs
    | inr e => Some (inr e)
    end
  end.

End validator.

(** * The documented relation *)

Section correlation.
Context `{TraceIr}.
Context (dev : bool) (mip : Z).

Definition same_identity (a b : bt_clock_class) : Prop :=
  if mip =? 0 then is_Some (cc_uuid (attrs a)) /\ cc_uuid (attrs a) = cc_uuid (attrs b)
  else is_Some (cc_name (attrs a)) /\ is_Some (cc_uid (attrs a)) /\
       cc_ns (attrs a) = cc_ns (attrs b) /\ cc_name (attrs a) = cc_name (attrs b) /\
       cc_uid (attrs a) = cc_uid (attrs b).

(** Two clock classes are correlatable when they have the same known origin, or
    unknown origins and the same identity; without an identity, only a clock class
    and itself. *)
Definition correlatable (a b : bt_clock_class) : Prop :=
  match cc_origin (attrs a), cc_origin (attrs b) with
  | UnixEpoch, UnixEpoch => True
  | CustomOrigin ns name uid, CustomOrigin ns' name' uid' => ns = ns' /\ name = name' /\ uid = uid'
  | UnknownOrigin, UnknownOrigin => same_identity a b \/ cc_address (attrs a) = cc_address (attrs b)
  | _, _ => False
  end.

(** Messages without a clock class only go together. *)
Definition opt_correlatable (a b : option bt_clock_class) : Prop :=
  match a, b with
  | Some a, Some b => correlatable a b
  | None, None => True
  | _, _ => False
  end.

(** A clock class of the graph: with its MIP version, and no custom origin in
    version 0. *)
Definition class_ok (c : bt_clock_class) : Prop :=
  cc_mip_version (attrs c) = mip /\ (mip = 0 -> forall ns n u, cc_origin (attrs c) <> CustomOrigin ns n u).

(** An address is that of one clock class. *)
Definition coherent (a b : bt_clock_class) : Prop :=
  cc_address (attrs a) = cc_address (attrs b) -> attrs a = attrs b.

Definition opt_ok (c : option bt_clock_class) : Prop := from_option class_ok True c.
Definition opt_coherent (a b : option bt_clock_class) : Prop :=
  match a, b with Some a, Some b => coherent a b | _, _ => True end.

Context (mip_nonneg : 0 <= mip).

(** Whether a clock class has what identifies it. *)
Definition has_identity (c : bt_clock_class) : bool :=
  if mip =? 0 then bool_decide (is_Some (cc_uuid (attrs c)))
  else bool_decide (is_Some (cc_name (attrs c))) && bool_decide (is_Some (cc_uid (attrs c))).

(** The validator after a first message with the clock class [c]. *)
Definition state_of (c : option bt_clock_class) : ClockCorrelationValidator :=
  match c with
  | None => {| _mExpectation := NoClock; _mRefClockClass := None |}
  | Some c =>
    {| _mExpectation :=
         match cc_origin (attrs c) with
         | UnknownOrigin =>
           if has_identity c then OriginUnknownWithId else OriginUnknownWithoutId
         | _ => OriginKnown
         end;
       _mRefClockClass := Some c |}
  end.

Lemma known_origin c :
  class_ok c ->
  clockClassHasKnownAndComparableOrigin mip c =
    match cc_origin (attrs c) with UnknownOrigin => false | _ => true end.
Proof.
  intros [_ Hc]. unfold clockClassHasKnownAndComparableOrigin, bt_clock_class_origin_is_unix_epoch,
    bt_clock_class_origin_is_known. destruct (Z.eqb_spec mip 0); [|done].
  destruct (cc_origin (attrs c)) eqn:E; try done. by destruct (Hc e ns name uid).
Qed.

Lemma known_identity c :
  class_ok c ->
  clockClassHasKnownAndComparableIdentity mip c = Some (has_identity c).
Proof.
  intros [Hm _]. unfold has_identity, clockClassHasKnownAndComparableIdentity, bt_clock_class_get_uuid,
    bt_clock_class_get_uid, mip_version_ge, BT_ASSERT_PRE. rewrite Hm.
  destruct (Z.eqb_spec mip 0) as [->|]; [done|]. rewrite (proj2 (Z.leb_le 1 mip)) by lia.
  by destruct (bool_decide (is_Some (cc_name _))).
Qed.

Lemma first_message c :
  opt_ok c -> validate_clock_class dev mip new_validator c = Some (inl (state_of c)).
Proof.
  destruct c as [c|]; [|done]. simpl. intros Hc. unfold validate_clock_class. simpl.
  rewrite known_origin, known_identity by done. by destruct (cc_origin (attrs c)).
Qed.

Lemma identity_eqb_spec a b :
  identity_eqb a b = true <->
  is_Some (idv_name a) /\ is_Some (idv_uid a) /\ nameSpace a = nameSpace b /\
  idv_name a = idv_name b /\ idv_uid a = idv_uid b.
Proof.
  unfold identity_eqb.
  destruct (idv_name a), (idv_uid a), (idv_name b), (idv_uid b);
    rewrite ?andb_true_iff, ?bool_decide_eq_true; split; intros; destruct_and?; simplify_eq;
    try (by match goal with H : is_Some None |- _ => destruct H end); eauto 10.
Qed.

(** The verdict on a clock class against the reference [a]. *)
Definition verdict_on (a c : option bt_clock_class)
    (r : ClockCorrelationValidator + ClockCorrelationError) : Prop :=
  (r = inl (state_of a) /\ opt_correlatable a c) \/ ((exists e, r = inr e) /\ ~ opt_correlatable a c).

Lemma verdict_bool a c (b : bool) e :
  (b = true <-> opt_correlatable a c) -> verdict_on a c (if b then inl (state_of a) else inr e).
Proof.
  intros Hb. destruct b; [left|right]; (split; [eauto|]); [by apply Hb|].
  intros Hc. by apply Hb in Hc.
Qed.

Lemma same_origin_step a c :
  class_ok a -> class_ok c -> cc_origin (attrs a) <> UnknownOrigin ->
  cc_origin (attrs c) <> UnknownOrigin ->
  exists b, isSameClockOrigin dev c a = Some b /\ (b = true <-> correlatable a c).
Proof.
  intros [Hma Ha] [Hmc Hc] Hka Hkc. unfold isSameClockOrigin, bt_clock_class_origin_is_unix_epoch,
    bt_clock_class_origin_is_known, origin_identity, mip_version_ge, BT_ASSERT_PRE, correlatable.
  destruct (cc_origin (attrs a)) as [| |ns n u] eqn:Ea, (cc_origin (attrs c)) as [| |ns' n' u'] eqn:Ec;
    try done; try (eexists; split; [reflexivity|]; done).
  assert (mip <> 0) by (intros E; by destruct (Ha E ns n u)).
  rewrite Hma, Hmc, (proj2 (Z.leb_le 1 mip)) by lia.
  eexists. split; [reflexivity|]. rewrite identity_eqb_spec. simpl.
  split; [intros (_ & _ & -> & [= ->] & [= ->]); done|intros (-> & -> & ->); eauto 10].
Qed.

Lemma same_identity_step a c :
  class_ok a -> class_ok c -> coherent a c ->
  cc_origin (attrs a) = UnknownOrigin -> cc_origin (attrs c) = UnknownOrigin ->
  clockClassHasKnownAndComparableIdentity mip a = Some true ->
  exists with_id, clockClassHasKnownAndComparableIdentity mip c = Some with_id /\
    (with_id = false -> ~ correlatable a c) /\
    (with_id = true ->
     (if mip =? 0 then
        exists u, bt_clock_class_get_uuid c = Some (Some u) /\
          bt_clock_class_get_uuid a = Some (cc_uuid (attrs a)) /\
          (bool_decide (Some u = cc_uuid (attrs a)) = true <-> correlatable a c)
      else
        exists i j, identity c = Some i /\ identity a = Some j /\
          (identity_eqb i j = true <-> correlatable a c))).
Proof.
  intros Hoka Hokc Hco Ea Ec. rewrite !known_identity by done. intros [= Hid].
  eexists. split; [reflexivity|]. unfold correlatable, same_identity. rewrite Ea, Ec.
  destruct Hoka as [Hma _], Hokc as [Hmc _].
  unfold has_identity, bt_clock_class_get_uuid, identity, bt_clock_class_get_uid, mip_version_ge,
    BT_ASSERT_PRE in *. rewrite Hma, Hmc. destruct (Z.eqb_spec mip 0) as [Hz|Hz].
  - apply bool_decide_eq_true in Hid. split.
    + intros Hn [[_ He]|Had]; apply bool_decide_eq_false in Hn; apply Hn; [by rewrite <- He|].
      by rewrite <- (Hco Had).
    + intros Hs. apply bool_decide_eq_true in Hs as [u Hu]. exists u. rewrite Hu. split; [done|].
      split; [done|]. rewrite bool_decide_eq_true. split; [intros ->; by left; split|].
      intros [[_ He]|Had]; [done|]. by rewrite <- Hu, (Hco Had).
  - apply andb_true_iff in Hid as [Hn Hu]. apply bool_decide_eq_true in Hn, Hu. split.
    + intros Hf Hcor.
      assert (is_Some (cc_name (attrs c)) /\ is_Some (cc_uid (attrs c))) as [Hn' Hu'].
      { destruct Hcor as [(_ & _ & _ & <- & <-)|Had]; [done|]. by rewrite <- (Hco Had). }
      rewrite !bool_decide_eq_true_2 in Hf by done. done.
    + intros Hs. rewrite (proj2 (Z.leb_le 1 mip)) by lia.
      eexists _, _. split; [reflexivity|]. split; [reflexivity|]. rewrite identity_eqb_spec. simpl.
      split.
      * intros (_ & _ & -> & -> & ->). left. eauto.
      * intros [(_ & _ & <- & <- & <-)|Had]; [done|]. by rewrite <- (Hco Had).
Qed.

Lemma next_message a c :
  opt_ok a -> opt_ok c -> opt_coherent a c ->
  exists r, validate_clock_class dev mip (state_of a) c = Some r /\ verdict_on a c r.
Proof.
  intros Ha Hc Hco. unfold validate_clock_class. destruct a as [a|].
  2: { destruct c as [c|]; eexists; (split; [reflexivity|]); [right|left]; eauto. }
  cbn [opt_ok from_option] in Ha. cbn [state_of _mExpectation _mRefClockClass].
  destruct c as [c|].
  2: { assert (Hnone : forall e, verdict_on (Some a) None (inr e)) by (right; eauto).
       destruct (cc_origin (attrs a)), (has_identity a); eauto. }
  cbn [opt_ok from_option opt_coherent] in Hc, Hco. rewrite (known_origin c Hc).
  destruct (cc_origin (attrs a)) eqn:Ea.
  1,3: destruct (decide (cc_origin (attrs c) = UnknownOrigin)) as [Ec|Ec];
    [eexists; rewrite Ec; split; [reflexivity|]; right; split; [eauto|];
     simpl; unfold correlatable; rewrite Ea, Ec; tauto|];
    destruct (same_origin_step a c Ha Hc ltac:(congruence) Ec) as (b & -> & Hb);
    exists (if b then inl (state_of (Some a)) else inr ExpectingOriginKnownGotOtherOrigin);
    (split; [|by apply verdict_bool]); simpl state_of; rewrite Ea;
    by destruct (cc_origin (attrs c)).
  destruct (has_identity a) eqn:Hid.
  - destruct (decide (cc_origin (attrs c) = UnknownOrigin)) as [Ec|Ec].
    2: { eexists. split; [by destruct (cc_origin (attrs c))|]. right. split; [eauto|].
         simpl. unfold correlatable. rewrite Ea. destruct (cc_origin (attrs c)); tauto. }
    rewrite Ec. destruct (same_identity_step a c Ha Hc Hco Ea Ec) as (w & -> & Hf & Ht).
    { rewrite known_identity by done. by rewrite Hid. }
    destruct w; cbn [negb]; [specialize (Ht eq_refl)|].
    2: { eexists. split; [reflexivity|]. right. split; [eauto|]. by apply Hf. }
    destruct (mip =? 0) eqn:Hm.
    + destruct Ht as (u & -> & -> & Hb). eexists. split; [reflexivity|].
      pose proof (verdict_bool (Some a) (Some c) _ ExpectingOriginUnknownWithIdGotOtherId Hb) as Hv.
      simpl state_of in Hv. by rewrite Ea, Hid in Hv.
    + destruct Ht as (i & j & -> & -> & Hb). eexists. split; [reflexivity|].
      pose proof (verdict_bool (Some a) (Some c) _ ExpectingOriginUnknownWithIdGotOtherId Hb) as Hv.
      simpl state_of in Hv. by rewrite Ea, Hid in Hv.
  - eexists. split; [reflexivity|].
    assert (Hb : bool_decide (cc_address (attrs c) = cc_address (attrs a)) = true <-> correlatable a c).
    { rewrite bool_decide_eq_true. unfold correlatable. rewrite Ea. split.
      - intros Had. rewrite <- (Hco (eq_sym Had)), Ea. by right.
      - destruct (cc_origin (attrs c)); try done. intros [Hs|]; [|done]. exfalso.
        unfold same_identity in Hs. unfold has_identity in Hid. destruct (mip =? 0).
        + apply bool_decide_eq_false in Hid. apply Hid, Hs.
        + destruct Hs as (Hn & Hu & _). by rewrite !bool_decide_eq_true_2 in Hid. }
    pose proof (verdict_bool (Some a) (Some c) _ ExpectingOriginUnknownWithoutIdGotOtherClockClass Hb) as Hv.
    simpl state_of in Hv. by rewrite Ea, Hid in Hv.
Qed.

(** ** The relation is an equivalence *)

Lemma same_identity_sym a b : same_identity a b -> same_identity b a.
Proof. unfold same_identity. destruct (mip =? 0); intros; destruct_and?; repeat split; congruence. Qed.

Lemma same_identity_trans a b c : same_identity a b -> same_identity b c -> same_identity a c.
Proof. unfold same_identity. destruct (mip =? 0); intros; destruct_and?; repeat split; congruence. Qed.

Lemma same_identity_attrs a b c : attrs b = attrs c -> same_identity a b -> same_identity a c.
Proof. unfold same_identity. by intros ->. Qed.

Lemma correlatable_sym a b : correlatable a b -> correlatable b a.
Proof.
  unfold correlatable. destruct (cc_origin (attrs a)), (cc_origin (attrs b)); try done.
  - intros [Hs|Ha]; [left; by apply same_identity_sym|by right].
  - by intros (-> & -> & ->).
Qed.

Lemma correlatable_trans a b c :
  coherent a b -> coherent b c -> correlatable a b -> correlatable b c -> correlatable a c.
Proof.
  intros Hab Hbc. unfold correlatable.
  destruct (cc_origin (attrs a)), (cc_origin (attrs b)), (cc_origin (attrs c)); try done.
  - intros [Hs|Ha] [Hs'|Ha']; [|left; by eapply same_identity_attrs, Hs; apply Hbc| |right; congruence].
    + left. by eapply same_identity_trans.
    + left. apply same_identity_sym. eapply same_identity_attrs, same_identity_sym, Hs'.
      symmetry. by apply Hab.
  - intros (-> & -> & ->). done.
Qed.

Lemma opt_correlatable_sym a b : opt_correlatable a b -> opt_correlatable b a.
Proof. destruct a, b; try done. apply correlatable_sym. Qed.

Lemma opt_correlatable_trans a b c :
  opt_coherent a b -> opt_coherent b c ->
  opt_correlatable a b -> opt_correlatable b c -> opt_correlatable a c.
Proof. destruct a, b, c; try done. apply correlatable_trans. Qed.

(** ** Sequences of messages *)

Lemma validate_all_run a msgs :
  opt_ok a ->
  Forall (fun c => opt_ok c /\ opt_coherent a c) (omap validated_clock_class msgs) ->
  exists r, validate_all dev mip (state_of a) msgs = Some r /\
    ((exists v, r = inl v) <-> Forall (opt_correlatable a) (omap validated_clock_class msgs)).
Proof.
  intros Ha. induction msgs as [|m msgs IH]; intros Hf.
  { eexists. split; [reflexivity|]. split; [constructor|eauto]. }
  cbn [validate_all]. unfold validate. simpl in Hf |- *.
  destruct (validated_clock_class m) as [c|]; [|by apply IH].
  apply Forall_cons_1 in Hf as [[Hc Hco] Hf].
  destruct (next_message a c Ha Hc Hco) as (r & -> & [[-> Hcor]|[[e ->] Hn]]).
  - destruct (IH Hf) as (r & Hr & Hiff). exists r. split; [done|]. rewrite Hiff, Forall_cons. tauto.
  - eexists. split; [reflexivity|]. rewrite Forall_cons. split; [by intros [v ?]|tauto].
Qed.

Lemma all_pairs a l :
  Forall (opt_coherent a) l -> Forall (fun c => opt_coherent c a) l ->
  Forall (opt_correlatable a) l -> opt_correlatable a a ->
  forall x y, x ∈ a :: l -> y ∈ a :: l -> opt_correlatable x y.
Proof.
  rewrite !Forall_forall. intros Hco Hco' Hcor Haa x y Hx Hy.
  assert (Hall : forall z, z ∈ a :: l -> opt_correlatable a z /\ opt_coherent a z /\ opt_coherent z a).
  { intros z [->|Hz]%elem_of_cons; [|by auto]. split; [done|]. by destruct a. }
  destruct (Hall x Hx) as (? & ? & ?), (Hall y Hy) as (? & ? & ?).
  eapply (opt_correlatable_trans x a y); try done. by apply opt_correlatable_sym.
Qed.

Lemma opt_correlatable_refl a : opt_correlatable a a.
Proof. destruct a as [a|]; [|done]. simpl. unfold correlatable. destruct (cc_origin _); auto. Qed.
End correlation.

(** C27: The validator accepts a sequence of messages exactly when the clock classes
    of its stream beginning and message iterator inactivity messages are pairwise
    correlatable, as the documentation of clock classes defines it: the same known
    origin, or unknown origins with the same identity or for one clock class; and
    either all these messages have a clock class or none has one.  It never fails a
    precondition.  The clock classes have the MIP version of the graph, no custom
    origin when it is 0, and different addresses when they differ. *)
Theorem validator_decides_correlation `{TraceIr} (dev : bool) (mip : Z) (msgs : list bt_message) :
  0 <= mip ->
  let cs := omap validated_clock_class msgs in
  Forall (opt_ok mip) cs -> (forall a b, a ∈ cs -> b ∈ cs -> opt_coherent a b) ->
  exists r, validate_all dev mip new_validator msgs = Some r /\
    ((exists v, r = inl v) <-> forall a b, a ∈ cs -> b ∈ cs -> opt_correlatable mip a b).
Proof.
  intros Hmip. induction msgs as [|m msgs IH]; intros cs Hok Hco.
  { eexists. split; [reflexivity|]. split; [|eauto]. intros _ a b Ha. by apply elem_of_nil in Ha. }
  subst cs. cbn [validate_all]. unfold validate. simpl in Hok, Hco |- *.
  destruct (validated_clock_class m) as [a|]; [|by apply IH].
  apply Forall_cons_1 in Hok as [Ha Hok]. rewrite (first_message dev mip Hmip a Ha).
  assert (Hcoa : forall z, z ∈ omap validated_clock_class msgs -> opt_coherent a z /\ opt_coherent z a)
    by (intros z Hz; split; apply Hco; by constructor || (by right)).
  destruct (validate_all_run dev mip Hmip a msgs Ha) as (r & Hr & Hiff).
  { rewrite Forall_forall in Hok |- *. intros c Hc. split; [by apply Hok|]. by apply Hcoa. }
  exists r. split; [done|]. rewrite Hiff. split.
  - intros Hcor. apply all_pairs; try done; try (apply Forall_forall; intros; by apply Hcoa).
    apply opt_correlatable_refl.
  - intros Hall. apply Forall_forall. intros c Hc. apply Hall; [by left|by right].
Qed.

(** * Witness *)

Definition ex_class_at (address : positive) (origin : clock_origin) (uuid : option (list Z))
    : bt_clock_class :=
  BtClockClass NS_PER_S 0 0 0 false true
    (ClockClassAttrs address 0 None None None (Some 0) None uuid origin).

(** Two clock classes with the same UUID, then a third one without a UUID. *)
Definition ex_corr_msgs : list bt_message :=
  map (fun cc => MessageIteratorInactivity (BtClockSnapshot cc 0 false 0 true))
    [ex_class_at 1 UnknownOrigin (Some [1; 2]); ex_class_at 2 UnknownOrigin (Some [1; 2]);
     ex_class_at 3 UnknownOrigin None].
Definition ex_corr_trace : TraceIr := {|
  stream_class := fun _ => BtStreamClass 0 None true true false false false false false false false None;
  packet_stream := fun _ => 1%positive
|}.

Lemma validator_decides_correlation_witness :
  @validate_all ex_corr_trace true 0 new_validator ex_corr_msgs =
    Some (inr ExpectingOriginUnknownWithIdGotWithoutId) /\
  ~ (forall a b, a ∈ omap (@validated_clock_class ex_corr_trace) ex_corr_msgs ->
       b ∈ omap (@validated_clock_class ex_corr_trace) ex_corr_msgs -> opt_correlatable 0 a b).
Proof.
  assert (E : @validate_all ex_corr_trace true 0 new_validator ex_corr_msgs =
    Some (inr ExpectingOriginUnknownWithIdGotWithoutId)) by reflexivity.
  split; [exact E|].
  destruct (@validator_decides_correlation ex_corr_trace true 0 ex_corr_msgs ltac:(lia))
    as (r & Hr & Hiff).
  - repeat constructor; done.
  - intros a b. cbn. rewrite !elem_of_cons, !elem_of_nil. intros Ha Hb.
    repeat (destruct Ha as [->|Ha]; [|]); try done;
      repeat (destruct Hb as [->|Hb]; [|]); try done; by intros ?.
  - rewrite E in Hr. injection Hr as <-. intros Hall. by destruct (proj2 Hiff Hall).
Defined.
