(* ===== verification/Muxing.v ===== *)
(** The comparison of messages of [src/src/plugins/common/muxing/muxing.cpp]: an
    arbitrary but fixed order between messages with the same time, on the
    properties of their traces, streams, types and contents.

    A comparator returns an integer of which only the sign counts, as [strcmp] and
    [memcmp] do.  [compare] and what it calls on two streams or messages return
    [None] on a failed assertion, or on a clock snapshot that a message does not
    have.  Clock classes have the MIP version of the graph, so that the
    preconditions of the getters of UUIDs and identities hold.  The assertion that
    the two messages are different objects is left out: messages have no
    address. *)

From stdpp Require Import list.
From S2P Require Import Prelude Clock Msg.

(** The members of a trace that identify it. *)
Record bt_trace := {
  trace_uuid : option (list Z);
  trace_ns : option (list Z);
  trace_name : option (list Z);
  trace_uid : option (list Z)
}.

(** [stream->id], [stream->name] and the trace of a stream. *)
Class StreamIr := {
  stream_id : bt_stream -> Z;
  stream_name : bt_stream -> option (list Z);
  stream_trace : bt_stream -> bt_trace
}.

(** * Comparators *)

(** [if (const auto ret = r) { return ret; }], then [k]. *)
Definition orelse (r k : Z) : Z := if negb (r =? 0) then r else k.
#[local] Notation "r '|?|' k" := (orelse r k) (at level 55, right associativity).

(** [std::strcmp] and [std::memcmp] on characters without the null one. *)
Fixpoint strcmp (a b : list Z) : Z :=
  match a, b with
  | [], [] => 0
  | [], _ => -1
  | _, [] => 1
  | x :: a, y :: b =>
    if wrapu 8 x <? wrapu 8 y then -1 else if wrapu 8 y <? wrapu 8 x then 1 else strcmp a b
  end.

Definition _compareOptionals {A} (left right : option A) (comparator : A -> A -> Z) : Z :=
  match left, right with
  | Some _, None => -1
  | None, Some _ => 1
  | None, None => 0
  | Some l, Some r => comparator l r
  end.

(** [_compareStrings] on nullable strings. *)
Definition _compareStrings (left right : option (list Z)) : Z := _compareOptionals left right strcmp.

Definition _compareLt (left right : Z) : Z :=
  if left <? right then -1 else if right <? left then 1 else 0.
(** The instances of the template for booleans and for optional values, of which
    the empty one is the least. *)
Definition _compareLt_bool (left right : bool) : Z := _compareLt (Z.b2z left) (Z.b2z right).
Definition _compareLt_optional (left right : option Z) : Z :=
  match left, right with
  | None, None => 0
  | None, Some _ => -1
  | Some _, None => 1
  | Some l, Some r => _compareLt l r
  end.

Definition _messageTypeWeight (msg : bt_message) : Z :=
  match msg with
  | StreamBeginning _ _ _ => 0
  | PacketBeginning _ _ => 1
  | Event _ _ _ _ => 2
  | DiscardedEvents _ _ _ _ => 3
  | PacketEnd _ _ => 4
  | MessageIteratorInactivity _ => 5
  | DiscardedPackets _ _ _ _ => 6
  | StreamEnd _ _ _ => 7
  end.

Definition _compareMsgsTypes (left right : bt_message) : Z :=
  _compareLt (_messageTypeWeight left) (_messageTypeWeight right).

(** [bt_uuid_compare]. *)
Definition _compareUuids (left right : list Z) : Z := strcmp left right.
Definition _compareOptUuids (left right : option (list Z)) : Z :=
  _compareOptionals left right _compareUuids.

(** Identities are triples: namespace, name, UID. *)
Definition _compareIdentities (left right : option (list Z) * option (list Z) * option (list Z)) : Z :=
  _compareStrings left.1.1 right.1.1 |?| _compareStrings left.1.2 right.1.2 |?|
  _compareStrings left.2 right.2.

Definition _compareEventClasses (left right : bt_event_class) : Z :=
  _compareLt (ec_id left) (ec_id right) |?|
  _compareStrings (ec_name left) (ec_name right) |?|
  _compareOptionals (ec_log_level left) (ec_log_level right) _compareLt |?|
  _compareStrings (ec_emf_uri left) (ec_emf_uri right).

Section comparator.
Context `{TraceIr} `{StreamIr}.
Context (debug : bool) (_mGraphMipVersion : Z).

Definition _compareClockClasses (left right : bt_clock_class) : Z :=
  (if _mGraphMipVersion =? 0 then
     _compareOptUuids (cc_uuid (attrs left)) (cc_uuid (attrs right))
   else
     _compareIdentities (cc_ns (attrs left), cc_name (attrs left), cc_uid (attrs left))
       (cc_ns (attrs right), cc_name (attrs right), cc_uid (attrs right))) |?|
  _compareLt_bool (bt_clock_class_origin_is_unix_epoch left)
    (bt_clock_class_origin_is_unix_epoch right) |?|
  _compareStrings (cc_name (attrs left)) (cc_name (attrs right)) |?|
  _compareLt (frequency left) (frequency right) |?|
  _compareLt_optional (cc_precision (attrs left)) (cc_precision (attrs right)).

(** What [_compareStreamsSameIds] compares, after its assertions. *)
Definition compare_streams (left right : bt_stream) : Z :=
  let leftCls := stream_class left in
  let rightCls := stream_class right in
  _compareStrings (stream_name left) (stream_name right) |?|
  _compareStrings (sc_name leftCls) (sc_name rightCls) |?|
  _compareLt_bool (assigns_automatic_event_class_id leftCls)
    (assigns_automatic_event_class_id rightCls) |?|
  _compareLt_bool (assigns_automatic_stream_id leftCls) (assigns_automatic_stream_id rightCls) |?|
  _compareLt_bool (supports_discarded_events leftCls) (supports_discarded_events rightCls) |?|
  _compareLt_bool (discarded_events_have_default_clock_snapshots leftCls)
    (discarded_events_have_default_clock_snapshots rightCls) |?|
  _compareLt_bool (supports_packets leftCls) (supports_packets rightCls) |?|
  (if supports_packets leftCls then
     _compareLt_bool (packets_have_beginning_default_clock_snapshot leftCls)
       (packets_have_beginning_default_clock_snapshot rightCls) |?|
     _compareLt_bool (packets_have_end_default_clock_snapshot leftCls)
       (packets_have_end_default_clock_snapshot rightCls) |?|
     _compareLt_bool (supports_discarded_packets leftCls) (supports_discarded_packets rightCls) |?|
     _compareLt_bool (discarded_packets_have_default_clock_snapshots leftCls)
       (discarded_packets_have_default_clock_snapshots rightCls)
   else 0) |?|
  _compareOptionals (default_clock_class leftCls) (default_clock_class rightCls) _compareClockClasses.

Definition _compareStreamsSameIds (left right : bt_stream) : option Z :=
  BT_ASSERT_DBG debug (stream_id left =? stream_id right)
    (BT_ASSERT_DBG debug (sc_id (stream_class left) =? sc_id (stream_class right))
      (Some (compare_streams left right))).

Definition _compareClockSnapshots (left right : bt_clock_snapshot) : Z :=
  _compareLt (value_cycles left) (value_cycles right).

(** [if (const auto ret = r) { return ret; }], then [k], where both may abort. *)
Definition orelse_opt (r k : option Z) : option Z :=
  do r <- r; if negb (r =? 0) then Some r else k.

(** The comparison of the snapshots of two discarded items messages. *)
Definition compare_snapshots (have : bool) (leftBegCs leftEndCs rightBegCs rightEndCs : option bt_clock_snapshot)
    : option Z :=
  if have then
    do leftBegCs <- leftBegCs;
    do rightBegCs <- rightBegCs;
    do leftEndCs <- leftEndCs;
    do rightEndCs <- rightEndCs;
    Some (_compareClockSnapshots leftBegCs rightBegCs |?| _compareClockSnapshots leftEndCs rightEndCs |?|
          _compareClockClasses (clock_class leftBegCs) (clock_class rightBegCs))
  else Some 0.

(** The count of a discarded packets message is compared with itself, not with the
    count of the other message. *)
Definition _compareMessagesSameType (left right : bt_message) : option Z :=
  match left, right with
  | StreamBeginning l _ _, StreamBeginning r _ _ | StreamEnd l _ _, StreamEnd r _ _ =>
    _compareStreamsSameIds l r
  | PacketBeginning l _, PacketBeginning r _ | PacketEnd l _, PacketEnd r _ =>
    _compareStreamsSameIds (packet_stream l) (packet_stream r)
  | Event lc l _ _, Event rc r _ _ =>
    orelse_opt (Some (_compareEventClasses lc rc)) (_compareStreamsSameIds l r)
  | DiscardedEvents l lb le ln, DiscardedEvents r rb re rn =>
    orelse_opt (_compareStreamsSameIds l r)
      (orelse_opt
        (compare_snapshots (discarded_events_have_default_clock_snapshots (stream_class l)) lb le rb re)
        (Some (_compareOptionals ln rn _compareLt)))
  | DiscardedPackets l lb le ln, DiscardedPackets r rb re _ =>
    orelse_opt (_compareStreamsSameIds l r)
      (orelse_opt
        (compare_snapshots (discarded_packets_have_default_clock_snapshots (stream_class l)) lb le rb re)
        (Some (_compareOptionals ln ln _compareLt)))
  | MessageIteratorInactivity l, MessageIteratorInactivity r =>
    Some (_compareClockSnapshots l r |?| _compareClockClasses (clock_class l) (clock_class r))
  | _, _ => BT_ASSERT_DBG debug false None
  end.

(** The comparison of the streams of two messages in [compare]. *)
Definition compare_stream_ids (left right : bt_stream) : Z :=
  let leftTrace := stream_trace left in
  let rightTrace := stream_trace right in
  (if _mGraphMipVersion =? 0 then _compareOptUuids (trace_uuid leftTrace) (trace_uuid rightTrace)
   else
     _compareIdentities (trace_ns leftTrace, trace_name leftTrace, trace_uid leftTrace)
       (trace_ns rightTrace, trace_name rightTrace, trace_uid rightTrace)) |?|
  _compareStrings (trace_name leftTrace) (trace_name rightTrace) |?|
  _compareLt (sc_id (stream_class left)) (sc_id (stream_class right)) |?|
  _compareLt (stream_id left) (stream_id right).

Definition compare (left right : bt_message) : option Z :=
  orelse_opt
    (Some (_compareOptionals (get_stream_from_msg left) (get_stream_from_msg right) compare_stream_ids))
    (orelse_opt (Some (_compareMsgsTypes left right)) (_compareMessagesSameType left right)).

End comparator.

(** * Total preorders *)

(** A comparator is a total preorder when swapping its arguments swaps its sign and
    "not greater" is transitive. *)
Record total_preorder {A} (c : A -> A -> Z) : Prop := {
  tp_sym a b : Z.sgn (c b a) = - Z.sgn (c a b);
  tp_trans a b d : c a b <= 0 -> c b d <= 0 -> c a d <= 0
}.

Lemma tp_refl {A} (c : A -> A -> Z) a : total_preorder c -> c a a = 0.
Proof. intros [Hs _]. specialize (Hs a a). lia. Qed.

Lemma orelse_zero r k : r |?| k = 0 <-> r = 0 /\ k = 0.
Proof. unfold orelse. destruct (Z.eqb_spec r 0); simpl; intuition lia. Qed.

Create HintDb preorder.

Lemma tp_lex {A} (c d : A -> A -> Z) :
  total_preorder c -> total_preorder d -> total_preorder (fun a b => c a b |?| d a b).
Proof.
  intros [Hsc Htc] [Hsd Htd]. unfold orelse. split.
  - intros a b. specialize (Hsc a b). specialize (Hsd a b).
    destruct (Z.eqb_spec (c a b) 0), (Z.eqb_spec (c b a) 0); simpl; lia.
  - intros a b e. pose proof (Hsc a b). pose proof (Hsc b e). pose proof (Hsc a e).
    pose proof (Htc a b e). pose proof (Htc b e a). pose proof (Htc e a b). pose proof (Htd a b e).
    destruct (Z.eqb_spec (c a b) 0), (Z.eqb_spec (c b e) 0), (Z.eqb_spec (c a e) 0); simpl; lia.
Qed.

Lemma tp_proj {A B} (f : A -> B) (c : B -> B -> Z) :
  total_preorder c -> total_preorder (fun a b => c (f a) (f b)).
Proof. intros [Hs Ht]. split; eauto. Qed.

Lemma tp_const {A} : total_preorder (fun _ _ : A => 0).
Proof. by split. Qed.

Lemma tp_Lt : total_preorder _compareLt.
Proof.
  unfold _compareLt. split; intros.
  - destruct (Z.ltb_spec a b), (Z.ltb_spec b a); simpl; lia.
  - destruct (Z.ltb_spec a b), (Z.ltb_spec b a), (Z.ltb_spec b d), (Z.ltb_spec d b),
      (Z.ltb_spec a d), (Z.ltb_spec d a); lia.
Qed.

Lemma tp_Lt_optional : total_preorder _compareLt_optional.
Proof.
  destruct tp_Lt as [Hs Ht]. split.
  - intros [a|] [b|]; simpl; auto.
  - intros [a|] [b|] [d|]; simpl; try lia. apply Ht.
Qed.

Lemma tp_optionals {A} (c : A -> A -> Z) :
  total_preorder c -> total_preorder (fun a b => _compareOptionals a b c).
Proof.
  intros [Hs Ht]. split.
  - intros [a|] [b|]; simpl; auto.
  - intros [a|] [b|] [d|]; simpl; try lia. apply Ht.
Qed.

Lemma tp_strcmp : total_preorder strcmp.
Proof.
  split.
  - intros a. induction a as [|x a IH]; intros [|y b]; simpl; try done.
    destruct (Z.ltb_spec (wrapu 8 x) (wrapu 8 y)), (Z.ltb_spec (wrapu 8 y) (wrapu 8 x)); try lia. apply IH.
  - intros a. induction a as [|x a IH]; intros [|y b] [|z d]; simpl; try lia.
    destruct (Z.ltb_spec (wrapu 8 x) (wrapu 8 y)), (Z.ltb_spec (wrapu 8 y) (wrapu 8 x)),
      (Z.ltb_spec (wrapu 8 y) (wrapu 8 z)), (Z.ltb_spec (wrapu 8 z) (wrapu 8 y)),
      (Z.ltb_spec (wrapu 8 x) (wrapu 8 z)), (Z.ltb_spec (wrapu 8 z) (wrapu 8 x)); try lia. apply IH.
Qed.

#[export] Hint Resolve tp_lex tp_proj tp_const tp_Lt tp_Lt_optional tp_optionals tp_strcmp : preorder.

(** * The order of messages *)

Section order.
Context `{TraceIr} `{StreamIr}.
Context (debug : bool) (mip : Z).

(** The parts of a message that the comparison of messages of one type looks at. *)
Definition msg_event_class (m : bt_message) : option bt_event_class :=
  match m with Event c _ _ _ => Some c | _ => None end.
Definition msg_begin_cs (m : bt_message) : option bt_clock_snapshot :=
  match m with
  | DiscardedEvents s b _ _ =>
    if discarded_events_have_default_clock_snapshots (stream_class s) then b else None
  | DiscardedPackets s b _ _ =>
    if discarded_packets_have_default_clock_snapshots (stream_class s) then b else None
  | MessageIteratorInactivity cs => Some cs
  | _ => None
  end.
Definition msg_end_cs (m : bt_message) : option bt_clock_snapshot :=
  match m with
  | DiscardedEvents s _ e _ =>
    if discarded_events_have_default_clock_snapshots (stream_class s) then e else None
  | DiscardedPackets s _ e _ =>
    if discarded_packets_have_default_clock_snapshots (stream_class s) then e else None
  | _ => None
  end.
(** Of discarded events messages only. *)
Definition msg_count (m : bt_message) : option Z :=
  match m with DiscardedEvents _ _ _ n => n | _ => None end.

(** The lexicographic order of these parts. *)
Definition order (a b : bt_message) : Z :=
  _compareOptionals (get_stream_from_msg a) (get_stream_from_msg b) (compare_stream_ids mip) |?|
  _compareMsgsTypes a b |?|
  _compareOptionals (msg_event_class a) (msg_event_class b) _compareEventClasses |?|
  _compareOptionals (get_stream_from_msg a) (get_stream_from_msg b) (compare_streams mip) |?|
  _compareOptionals (msg_begin_cs a) (msg_begin_cs b) _compareClockSnapshots |?|
  _compareOptionals (msg_end_cs a) (msg_end_cs b) _compareClockSnapshots |?|
  _compareOptionals (msg_begin_cs a) (msg_begin_cs b)
    (fun x y => _compareClockClasses mip (clock_class x) (clock_class y)) |?|
  _compareOptionals (msg_count a) (msg_count b) _compareLt.

Lemma tp_Lt_bool : total_preorder _compareLt_bool.
Proof. apply (tp_proj Z.b2z), tp_Lt. Qed.

Lemma tp_Strings : total_preorder _compareStrings.
Proof. apply tp_optionals, tp_strcmp. Qed.

Lemma tp_Identities {A} (f : A -> option (list Z) * option (list Z) * option (list Z)) :
  total_preorder (fun a b => _compareIdentities (f a) (f b)).
Proof.
  unfold _compareIdentities.
  apply (tp_lex (fun a b => _compareStrings (f a).1.1 (f b).1.1)); [by apply (tp_proj (fun a => (f a).1.1)), tp_Strings|].
  apply (tp_lex (fun a b => _compareStrings (f a).1.2 (f b).1.2)); [by apply (tp_proj (fun a => (f a).1.2)), tp_Strings|].
  by apply (tp_proj (fun a => (f a).2)), tp_Strings.
Qed.

(** Proves that a chain of comparisons of parts is a total preorder. *)
Ltac tp_solve :=
  repeat first
    [ apply tp_const
    | match goal with
      | |- total_preorder (fun a b => orelse (@?c a b) (@?d a b)) => apply (tp_lex c d)
      | |- total_preorder (fun a b => _compareLt_bool (@?f a) (@?g b)) => apply (tp_proj f), tp_Lt_bool
      | |- total_preorder (fun a b => _compareLt_optional (@?f a) (@?g b)) =>
        apply (tp_proj f), tp_Lt_optional
      | |- total_preorder (fun a b => _compareLt (@?f a) (@?g b)) => apply (tp_proj f), tp_Lt
      | |- total_preorder (fun a b => _compareStrings (@?f a) (@?g b)) => apply (tp_proj f), tp_Strings
      | |- total_preorder (fun a b => _compareOptUuids (@?f a) (@?g b)) => apply (tp_proj f), tp_Strings
      | |- total_preorder (fun a b => _compareIdentities _ _) => apply tp_Identities
      | |- total_preorder (fun a b => _compareOptionals (@?f a) (@?g b) ?c) =>
        apply (tp_proj f (fun x y => _compareOptionals x y c)), tp_optionals
      | |- total_preorder (fun a b => if _ then _ else _) => case_match
      end ].

Lemma tp_EventClasses : total_preorder _compareEventClasses.
Proof. unfold _compareEventClasses. tp_solve. apply tp_Lt. Qed.

Lemma tp_ClockClasses : total_preorder (_compareClockClasses mip).
Proof. unfold _compareClockClasses. tp_solve. Qed.

Lemma tp_stream_ids : total_preorder (compare_stream_ids mip).
Proof. unfold compare_stream_ids. tp_solve. Qed.

Lemma tp_ClockSnapshots : total_preorder _compareClockSnapshots.
Proof. apply (tp_proj value_cycles), tp_Lt. Qed.

(** Members that only count in a class that supports packets. *)
Definition packet_member (f : bt_stream_class -> bool) (c : bt_stream_class) : bool :=
  supports_packets c && f c.

Lemma packets_chain (l r : bt_stream_class) k :
  _compareLt_bool (supports_packets l) (supports_packets r) |?|
  (if supports_packets l then
     _compareLt_bool (packets_have_beginning_default_clock_snapshot l)
       (packets_have_beginning_default_clock_snapshot r) |?|
     _compareLt_bool (packets_have_end_default_clock_snapshot l)
       (packets_have_end_default_clock_snapshot r) |?|
     _compareLt_bool (supports_discarded_packets l) (supports_discarded_packets r) |?|
     _compareLt_bool (discarded_packets_have_default_clock_snapshots l)
       (discarded_packets_have_default_clock_snapshots r)
   else 0) |?| k =
  _compareLt_bool (supports_packets l) (supports_packets r) |?|
  (_compareLt_bool (packet_member packets_have_beginning_default_clock_snapshot l)
     (packet_member packets_have_beginning_default_clock_snapshot r) |?|
   _compareLt_bool (packet_member packets_have_end_default_clock_snapshot l)
     (packet_member packets_have_end_default_clock_snapshot r) |?|
   _compareLt_bool (packet_member supports_discarded_packets l)
     (packet_member supports_discarded_packets r) |?|
   _compareLt_bool (packet_member discarded_packets_have_default_clock_snapshots l)
     (packet_member discarded_packets_have_default_clock_snapshots r)) |?| k.
Proof. unfold packet_member. by destruct (supports_packets l), (supports_packets r). Qed.

Lemma tp_streams : total_preorder (compare_streams mip).
Proof.
  assert (Hext : forall (c d : bt_stream -> bt_stream -> Z),
    (forall a b, c a b = d a b) -> total_preorder d -> total_preorder c).
  { intros c d E [Hs Ht]. split; intros *; rewrite !E; auto. apply Ht. }
  eapply Hext.
  { intros a b. unfold compare_streams. rewrite packets_chain. reflexivity. }
  simpl. tp_solve. apply tp_ClockClasses.
Qed.

Lemma order_preorder : total_preorder order.
Proof.
  unfold order, _compareMsgsTypes. tp_solve.
  - apply tp_stream_ids.
  - apply tp_EventClasses.
  - apply tp_streams.
  - apply tp_ClockSnapshots.
  - apply tp_ClockSnapshots.
  - apply (tp_proj clock_class), tp_ClockClasses.
  - apply tp_Lt.
Qed.

(** ** The code computes this order *)

(** A message of discarded items has the clock snapshots that its stream class
    says; a class with clock snapshots for discarded packets supports packets. *)
Definition msg_wf (m : bt_message) : Prop :=
  match m with
  | DiscardedEvents s b e _ =>
    discarded_events_have_default_clock_snapshots (stream_class s) = true -> is_Some b /\ is_Some e
  | DiscardedPackets s b e _ =>
    discarded_packets_have_default_clock_snapshots (stream_class s) = true ->
    supports_packets (stream_class s) = true /\ is_Some b /\ is_Some e
  | _ => True
  end.

Lemma orelse_opt_Some r k : orelse_opt (Some r) (Some k) = Some (r |?| k).
Proof. unfold orelse_opt, orelse. by destruct (negb (r =? 0)). Qed.

Lemma orelse_opt_chain r k k' :
  (r = 0 -> k = Some k') -> orelse_opt (Some r) k = Some (r |?| k').
Proof. unfold orelse_opt, orelse. destruct (Z.eqb_spec r 0); simpl; auto. Qed.

Lemma orelse_0_l k : 0 |?| k = k.
Proof. done. Qed.
Lemma orelse_0_r r : r |?| 0 = r.
Proof. unfold orelse. by destruct (Z.eqb_spec r 0). Qed.
Lemma orelse_assoc a b c : (a |?| b) |?| c = a |?| b |?| c.
Proof. unfold orelse. destruct (Z.eqb_spec a 0); simpl; [done|]. by rewrite (proj2 (Z.eqb_neq a 0)). Qed.

Lemma Lt_zero a b : _compareLt a b = 0 <-> a = b.
Proof. unfold _compareLt. destruct (Z.ltb_spec a b), (Z.ltb_spec b a); lia. Qed.

Lemma Lt_bool_zero a b : _compareLt_bool a b = 0 -> a = b.
Proof. by destruct a, b. Qed.

Lemma stream_ids_zero l r :
  compare_stream_ids mip l r = 0 ->
  stream_id l = stream_id r /\ sc_id (stream_class l) = sc_id (stream_class r).
Proof. unfold compare_stream_ids. rewrite !orelse_zero, !Lt_zero. tauto. Qed.

Lemma same_ids l r :
  compare_stream_ids mip l r = 0 ->
  _compareStreamsSameIds debug mip l r = Some (compare_streams mip l r).
Proof.
  intros [E1 E2]%stream_ids_zero. unfold _compareStreamsSameIds, BT_ASSERT_DBG.
  by rewrite E1, E2, !Z.eqb_refl, andb_false_r.
Qed.

(** Streams that compare equal have the same flags. *)
Lemma streams_zero l r :
  compare_streams mip l r = 0 ->
  discarded_events_have_default_clock_snapshots (stream_class l) =
    discarded_events_have_default_clock_snapshots (stream_class r) /\
  supports_packets (stream_class l) = supports_packets (stream_class r) /\
  (supports_packets (stream_class l) = true ->
   discarded_packets_have_default_clock_snapshots (stream_class l) =
     discarded_packets_have_default_clock_snapshots (stream_class r)).
Proof.
  unfold compare_streams. rewrite !orelse_zero. intros Hz. destruct_and?.
  split; [by apply Lt_bool_zero|]. split; [by apply Lt_bool_zero|].
  intros Hp. match goal with H : (if supports_packets _ then _ else _) = 0 |- _ => rename H into Hx end.
  rewrite Hp in Hx. rewrite !orelse_zero in Hx. destruct_and?. by apply Lt_bool_zero.
Qed.

(** The snapshots of discarded items messages, when their flags are the same. *)
Lemma snapshots_ok (have : bool) lb le rb re :
  (have = true -> is_Some lb /\ is_Some le) -> (have = true -> is_Some rb /\ is_Some re) ->
  compare_snapshots mip have lb le rb re =
    Some (_compareOptionals (if have then lb else None) (if have then rb else None)
            _compareClockSnapshots |?|
          _compareOptionals (if have then le else None) (if have then re else None)
            _compareClockSnapshots |?|
          _compareOptionals (if have then lb else None) (if have then rb else None)
            (fun x y => _compareClockClasses mip (clock_class x) (clock_class y))).
Proof.
  intros Hl Hr. destruct have; [|done].
  destruct (Hl eq_refl) as [[? ->] [? ->]], (Hr eq_refl) as [[? ->] [? ->]]. done.
Qed.

Lemma same_type_order a b :
  msg_wf a -> msg_wf b -> _compareMsgsTypes a b = 0 ->
  _compareOptionals (get_stream_from_msg a) (get_stream_from_msg b) (compare_stream_ids mip) = 0 ->
  _compareMessagesSameType debug mip a b = Some (order a b).
Proof.
  intros Ha Hb Ht Hs. unfold order. rewrite Ht, Hs, !orelse_0_l.
  destruct a, b; try done; simpl in Hs; cbn [_compareMessagesSameType get_stream_from_msg
    msg_event_class msg_begin_cs msg_end_cs msg_count _compareOptionals];
    rewrite ?orelse_0_l, ?orelse_0_r, ?same_ids by done; try done.
  - by rewrite orelse_opt_Some.
  - apply orelse_opt_chain. intros Hz. apply streams_zero in Hz as (Hf & _). simpl in Ha, Hb.
    rewrite <- Hf in Hb |- *. rewrite snapshots_ok by done. by rewrite orelse_opt_Some, !orelse_assoc.
  - apply orelse_opt_chain. intros Hz. apply streams_zero in Hz as (_ & Hp & Hf). simpl in Ha, Hb.
    assert (Hflag : discarded_packets_have_default_clock_snapshots (stream_class stream) =
      discarded_packets_have_default_clock_snapshots (stream_class stream0)).
    { destruct (supports_packets (stream_class stream)) eqn:E; [by apply Hf|].
      destruct (discarded_packets_have_default_clock_snapshots (stream_class stream));
        [by destruct (Ha eq_refl)|].
      destruct (discarded_packets_have_default_clock_snapshots (stream_class stream0)); [|done].
      destruct (Hb eq_refl). congruence. }
    rewrite <- Hflag in Hb |- *. rewrite snapshots_ok by (intros Hfl; by apply Ha || by apply Hb).
    rewrite (tp_refl (fun x y => _compareOptionals x y _compareLt)) by apply tp_optionals, tp_Lt.
    by rewrite orelse_opt_Some, orelse_0_r.
Qed.

(** On well-formed messages the code never aborts and computes the order. *)
Lemma compare_order a b : msg_wf a -> msg_wf b -> compare debug mip a b = Some (order a b).
Proof.
  intros Ha Hb. unfold compare.
  destruct (Z.eq_dec (_compareOptionals (get_stream_from_msg a) (get_stream_from_msg b)
    (compare_stream_ids mip)) 0) as [Hs|Hs].
  2: { unfold orelse_opt, order, orelse. by rewrite (proj2 (Z.eqb_neq _ _) Hs). }
  rewrite Hs. destruct (Z.eq_dec (_compareMsgsTypes a b) 0) as [Ht|Ht].
  - rewrite Ht. unfold orelse_opt. simpl. by apply same_type_order.
  - unfold orelse_opt, order, orelse. rewrite Hs, (proj2 (Z.eqb_neq _ _) Ht). done.
Qed.
End order.

(** The comparison of messages is a total preorder: on messages that have the
    clock snapshots their stream classes say, it never aborts, swapping the
    messages swaps its sign, and "not after" is transitive.  The muxer's heap needs
    nothing else of it. *)
Theorem compare_is_a_total_preorder `{TraceIr} `{StreamIr} (debug : bool) (mip : Z) (a b c : bt_message) :
  msg_wf a -> msg_wf b -> msg_wf c ->
  exists x y z, compare debug mip a b = Some x /\ compare debug mip b a = Some y /\
    compare debug mip a c = Some z /\ Z.sgn y = - Z.sgn x /\
    forall w, compare debug mip b c = Some w -> x <= 0 -> w <= 0 -> z <= 0.
Proof.
  intros Ha Hb Hc. destruct (order_preorder mip) as [Hs Ht].
  exists (order mip a b), (order mip b a), (order mip a c). rewrite !compare_order by done.
  do 3 (split; [done|]). split; [apply Hs|]. intros w [= <-]. apply Ht.
Qed.

(** Two discarded packets messages that only differ by their counts compare
    equal, unlike discarded events messages: the code compares the count of the
    first message with itself. *)
Theorem discarded_packets_counts_ignored `{TraceIr} `{StreamIr} (debug : bool) (mip : Z) s b e :
  msg_wf (DiscardedPackets s b e None) -> msg_wf (DiscardedEvents s b e None) ->
  (forall n n', compare debug mip (DiscardedPackets s b e n) (DiscardedPackets s b e n') = Some 0) /\
  (forall n n', exists x,
     compare debug mip (DiscardedEvents s b e (Some n)) (DiscardedEvents s b e (Some n')) = Some x /\
     (x < 0 <-> n < n')).
Proof.
  intros Hp He. split; intros n n'; rewrite compare_order by done; [f_equal|eexists; split; [done|]];
    unfold order; cbn [get_stream_from_msg msg_event_class msg_begin_cs msg_end_cs msg_count];
    rewrite !(tp_refl (fun x y => _compareOptionals x y _)) by
      (apply tp_optionals; apply tp_stream_ids || apply tp_streams || apply tp_ClockSnapshots ||
       apply tp_EventClasses || apply (tp_proj clock_class), tp_ClockClasses || apply tp_Lt);
    rewrite ?orelse_0_l; [done|]. simpl. unfold _compareLt.
  destruct (Z.ltb_spec n n'), (Z.ltb_spec n' n); lia.
Qed.

(** * Witnesses *)

#[export] Instance ex_streams : StreamIr := {|
  stream_id := Zpos;
  stream_name := fun _ => None;
  stream_trace := fun _ => {| trace_uuid := None; trace_ns := None; trace_name := Some [97]; trace_uid := None |}
|}.
Definition ex_mux_trace : TraceIr := {|
  stream_class := fun _ => BtStreamClass 0 None true true true false false true true false false None;
  packet_stream := fun p => p
|}.

Lemma compare_is_a_total_preorder_witness :
  let a := StreamBeginning 1%positive None false in
  let b := DiscardedEvents 1%positive None None (Some 3) in
  let c := StreamBeginning 2%positive None false in
  @compare ex_mux_trace ex_streams true 0 a b = Some (-1) /\
  @compare ex_mux_trace ex_streams true 0 b a = Some 1 /\
  @compare ex_mux_trace ex_streams true 0 a c = Some (-1).
Proof.
  intros a b c.
  destruct (@compare_is_a_total_preorder ex_mux_trace ex_streams true 0 a b c)
    as (x & y & z & E1 & E2 & E3 & _); [done|done|done|].
  vm_compute in E1, E2, E3. split; [reflexivity|]. split; reflexivity.
Defined.

Lemma discarded_packets_counts_ignored_witness :
  @compare ex_mux_trace ex_streams true 0 (DiscardedPackets 1%positive None None (Some 3))
    (DiscardedPackets 1%positive None None (Some 4)) = Some 0.
Proof.
  apply (@discarded_packets_counts_ignored ex_mux_trace ex_streams true 0 1%positive None None); done.
Defined.
