(* ===== verification/Iterator.v ===== *)
(** Message iterators: getting messages and seeking: [src/src/lib/graph/iterator.c].

    The state of an iterator is the C structure, without its links to other
    objects, together with the user's data [W]; the methods of the user's message
    iterator class are functions on [W] (class [UserMethods]).  A function returns
    its results and the iterator; [None] is an abort (a failed precondition,
    postcondition or assertion) or a null pointer.  Seeking to a time without the
    user's help ("automatic seeking") seeks the beginning, skips the messages
    before the time while it records the state of each stream, and queues the
    first messages at or after the time, preceded by messages that put the streams
    back in the recorded states. *)

From S2P Require Import Prelude Clock Msg MsgCreate MsgSeq ClockCorr.

Definition MSG_BATCH_SIZE : nat := 15.

(** [enum bt_message_iterator_state]. *)
Inductive bt_message_iterator_state :=
| NON_INITIALIZED | ACTIVE | ENDED | FINALIZING | FINALIZED | SEEKING
| LAST_SEEKING_RETURNED_AGAIN | LAST_SEEKING_RETURNED_ERROR.

#[export] Instance iterator_state_eq_dec : EqDecision bt_message_iterator_state.
Proof. solve_decision. Defined.
#[export] Instance next_status_eq_dec : EqDecision next_status.
Proof. solve_decision. Defined.

(** The "next" callback: the user's, or the one that returns the queue. *)
Inductive next_callback := UserNext | PostAutoSeekNext.

(** The user's methods.  A "can seek" method returns its status and the boolean,
    [None] when it left an invalid value; seeking and its check are both set or
    both unset. *)
Class UserMethods (W : Type) := {
  user_next : W -> next_status * list bt_message * W;
  user_can_seek_beginning : option (W -> next_status * option bool * W);
  user_seek_beginning : option (W -> next_status * W);
  user_can_seek_ns_from_origin : option (W -> Z -> next_status * option bool * W);
  user_seek_ns_from_origin : option (W -> Z -> next_status * W)
}.

Record bt_message_iterator (W V : Type) := BtMessageIterator {
  state : bt_message_iterator_state;
  last_ns_from_origin : Z;
  correlation_validator : V;
  per_stream : stream_states;
  can_seek_forward : bool;
  next : next_callback;
  auto_seek_msgs : list bt_message;
  original_next_callback : option next_callback;
  user : W
}.
Arguments BtMessageIterator {W V}. Arguments state {W V}. Arguments last_ns_from_origin {W V}.
Arguments correlation_validator {W V}. Arguments per_stream {W V}. Arguments can_seek_forward {W V}.
Arguments next {W V}. Arguments auto_seek_msgs {W V}. Arguments original_next_callback {W V}.
Arguments user {W V}.

(** [enum] and members of [struct auto_seek_stream_state]. *)
Inductive auto_seek_state := STREAM_BEGAN | PACKET_BEGAN.
Record auto_seek_stream_state := AutoSeekStreamState {
  as_state : auto_seek_state;
  as_packet : option bt_packet;
  seen_clock_snapshot : bool
}.
Abbreviation auto_seek_states := (gmap bt_stream auto_seek_stream_state).

#[export] Instance auto_seek_state_eq_dec : EqDecision auto_seek_state.
Proof. solve_decision. Defined.

Section updates.
Context {W V : Type}.
Implicit Types it : bt_message_iterator W V.

Definition set_msg_iterator_state it (s : bt_message_iterator_state) : bt_message_iterator W V :=
  BtMessageIterator s (last_ns_from_origin it) (correlation_validator it) (per_stream it) (can_seek_forward it) (next it)
    (auto_seek_msgs it) (original_next_callback it) (user it).
Definition set_last_ns it (ns : Z) : bt_message_iterator W V :=
  BtMessageIterator (state it) ns (correlation_validator it) (per_stream it) (can_seek_forward it) (next it)
    (auto_seek_msgs it) (original_next_callback it) (user it).
Definition set_per_stream it (t : stream_states) : bt_message_iterator W V :=
  BtMessageIterator (state it) (last_ns_from_origin it) (correlation_validator it) t (can_seek_forward it) (next it)
    (auto_seek_msgs it) (original_next_callback it) (user it).
Definition set_next it (n : next_callback) (orig : option next_callback) : bt_message_iterator W V :=
  BtMessageIterator (state it) (last_ns_from_origin it) (correlation_validator it) (per_stream it) (can_seek_forward it) n
    (auto_seek_msgs it) orig (user it).
Definition set_auto_seek_msgs it (q : list bt_message) : bt_message_iterator W V :=
  BtMessageIterator (state it) (last_ns_from_origin it) (correlation_validator it) (per_stream it) (can_seek_forward it)
    (next it) q (original_next_callback it) (user it).
Definition set_user it (w : W) : bt_message_iterator W V :=
  BtMessageIterator (state it) (last_ns_from_origin it) (correlation_validator it) (per_stream it) (can_seek_forward it)
    (next it) (auto_seek_msgs it) (original_next_callback it) w.
Definition set_validator it (v : V) : bt_message_iterator W V :=
  BtMessageIterator (state it) (last_ns_from_origin it) v (per_stream it) (can_seek_forward it)
    (next it) (auto_seek_msgs it) (original_next_callback it) (user it).
End updates.

Section ops.
Context {W V : Type} `{UserMethods W} `{CorrelationValidator V} `{TraceIr}.
(** Whether the library is built in developer and debug mode, whether the thread
    has an error and the graph is configured. *)
Context (dev debug thread_error graph_is_configured : bool).
(** The order in which GLib's hash table gives its entries. *)
Context (hash_order : auto_seek_states -> list (bt_stream * auto_seek_stream_state)).

Definition iterator : Type := bt_message_iterator W V.

Definition clear_per_stream_state (it : iterator) : iterator :=
  if dev then set_per_stream it ∅ else it.

(** [BT_ASSERT_PRE_ITER_HAS_STATE_TO_SEEK]. *)
Definition has_state_to_seek (it : iterator) : bool :=
  bool_decide (state it = ACTIVE) || bool_decide (state it = ENDED) ||
  bool_decide (state it = LAST_SEEKING_RETURNED_AGAIN) ||
  bool_decide (state it = LAST_SEEKING_RETURNED_ERROR).

(** * Getting messages *)

(** Moves at most [MSG_BATCH_SIZE] messages of the queue to the output array; the
    user's callback is back when the queue is empty. *)
Definition post_auto_seek_next (it : iterator)
    : option (next_status * list bt_message * iterator) :=
  guard_ub negb (bool_decide (auto_seek_msgs it = []));
  let msgs := take MSG_BATCH_SIZE (auto_seek_msgs it) in
  let rest := drop MSG_BATCH_SIZE (auto_seek_msgs it) in
  guard_ub (0 <? length msgs)%nat;
  let it := set_auto_seek_msgs it rest in
  if bool_decide (rest = []) then
    do callback <- original_next_callback it;
    Some (NextOk, msgs, set_next it callback None)
  else Some (NextOk, msgs, it).

Fixpoint assert_post_dev_clock_classes_are_compatible (v : V) (msgs : list bt_message) : option V :=
  match msgs with
  | [] => Some v
  | msg :: msgs =>
    do v <- bt_clock_correlation_validator_validate_message v msg;
    assert_post_dev_clock_classes_are_compatible v msgs
  end.

(** The developer-mode checks of what a "next" method returned. *)
Definition check_messages (it : iterator) (status : next_status) (msgs : list bt_message)
    : option iterator :=
  if dev then
    do it <-
      (if bool_decide (status = NextOk) then
         do v <- assert_post_dev_clock_classes_are_compatible (correlation_validator it) msgs;
         let it := set_validator it v in
         do r <- clock_snapshots_are_monotonic debug (last_ns_from_origin it) msgs;
         guard_ub fst r;
         Some (set_last_ns it (snd r))
       else Some it);
    do t <- assert_post_dev_next (per_stream it) status msgs;
    Some (set_per_stream it t)
  else Some it.

Definition call_iterator_next_method (it : iterator)
    : option (next_status * list bt_message * iterator) :=
  do r <-
    match next it with
    | UserNext =>
      let '(status, msgs, w) := user_next (user it) in Some (status, msgs, set_user it w)
    | PostAutoSeekNext => post_auto_seek_next it
    end;
  let '(status, msgs, it) := r in
  do it <- check_messages it status msgs;
  Some (status, msgs, it).

Definition count_lteq_capacity (msgs : list bt_message) : bool :=
  negb dev || (length msgs <=? MSG_BATCH_SIZE)%nat.

Definition bt_message_iterator_next (it : iterator)
    : option (next_status * list bt_message * iterator) :=
  BT_ASSERT_PRE_DEV dev (negb thread_error)
    (BT_ASSERT_PRE_DEV dev (bool_decide (state it = ACTIVE))
      (BT_ASSERT_PRE_DEV dev graph_is_configured
        (do r <- call_iterator_next_method it;
         let '(status, msgs, it) := r in
         match status with
         | NextError | NextMemoryError => Some (status, [], it)
         | _ =>
           BT_ASSERT_DBG debug (bool_decide (state it = ACTIVE))
             match status with
             | NextOk => guard_ub count_lteq_capacity msgs; Some (status, msgs, it)
             | NextEnd => Some (status, [], set_msg_iterator_state it ENDED)
             | _ => Some (status, [], it)
             end
         end))).

(** * Seeking *)

(** The preconditions of the seeking functions. *)
Definition seek_pre {A} (it : iterator) (k : option A) : option A :=
  BT_ASSERT_PRE (negb thread_error)
    (BT_ASSERT_PRE (has_state_to_seek it) (BT_ASSERT_PRE graph_is_configured k)).

(** The status, the boolean ([None]: an invalid value) and the iterator. *)
Definition bt_message_iterator_can_seek_beginning (it : iterator)
    : option (next_status * option bool * iterator) :=
  seek_pre it
    match user_can_seek_beginning with
    | Some method =>
      let '(status, can_seek, w) := method (user it) in
      guard_ub (negb (bool_decide (status = NextOk)) || bool_decide (is_Some can_seek));
      Some (status, can_seek, set_user it w)
    | None => Some (NextOk, Some false, it)
    end.

Definition bt_message_iterator_can_seek_ns_from_origin (it : iterator) (ns_from_origin : Z)
    : option (next_status * option bool * iterator) :=
  let fall_back (it : iterator) :=
    do r <- bt_message_iterator_can_seek_beginning it;
    let '(status, can_seek, it') := r in
    match status with
    | NextOk => Some (status, option_map (fun c => c && can_seek_forward it') can_seek, it')
    | _ => Some (status, can_seek, it')
    end in
  seek_pre it
    match user_can_seek_ns_from_origin with
    | Some method =>
      let '(status, can_seek, w) := method (user it) ns_from_origin in
      let it := set_user it w in
      match status with
      | NextOk =>
        do c <- can_seek;
        if (c : bool) then Some (status, can_seek, it) else fall_back it
      | _ => Some (status, can_seek, it)
      end
    | None => fall_back it
    end.

Definition message_iterator_can_seek_beginning (it : iterator) : option (bool * iterator) :=
  do r <- bt_message_iterator_can_seek_beginning it;
  let '(status, can_seek, it) := r in
  match status with
  | NextOk => do c <- can_seek; Some (c, it)
  | _ => Some (false, it)
  end.

Definition message_iterator_can_seek_ns_from_origin (it : iterator) (ns_from_origin : Z)
    : option (bool * iterator) :=
  do r <- bt_message_iterator_can_seek_ns_from_origin it ns_from_origin;
  let '(status, can_seek, it) := r in
  match status with
  | NextOk => do c <- can_seek; Some (c, it)
  | _ => Some (false, it)
  end.

Definition set_iterator_state_after_seeking (it : iterator) (status : next_status) : iterator :=
  set_msg_iterator_state it
    match status with
    | NextOk => ACTIVE
    | NextAgain => LAST_SEEKING_RETURNED_AGAIN
    | NextError | NextMemoryError => LAST_SEEKING_RETURNED_ERROR
    | NextEnd => ENDED
    end.

Definition reset_iterator_expectations (it : iterator) : iterator := set_last_ns it INT64_MIN.

(** What the postcondition "valid-status" accepts. *)
Definition valid_seek_status (status : next_status) : bool :=
  negb (bool_decide (status = NextEnd)).

Definition bt_message_iterator_seek_beginning (it : iterator)
    : option (next_status * iterator) :=
  seek_pre it
    (do r <- message_iterator_can_seek_beginning it;
     let '(can_seek, it) := r in
     BT_ASSERT_PRE can_seek
       (let it := reset_iterator_expectations it in
        let it := set_msg_iterator_state it SEEKING in
        do method <- user_seek_beginning;
        let '(status, w) := method (user it) in
        let it := set_user it w in
        guard_ub valid_seek_status status;
        let it := clear_per_stream_state it in
        Some (status, set_iterator_state_after_seeking it status))).

(** ** Automatic seeking: one message *)

(** Whether a message is before the time, at or after it ([PushFirst]), or is a
    discarded items message that is cut at the time ([PushCut]). *)
Inductive verdict := Skip | PushFirst | PushCut (msg : bt_message) | Failed.

Definition verdict_of_snapshot (ns_from_origin : Z) (cs : bt_clock_snapshot) : option verdict :=
  do r <- bt_clock_snapshot_get_ns_from_origin debug cs 0;
  match r with
  | (ClockOverflowError, _) => Some Failed
  | (ClockOk, msg_ns) => Some (if ns_from_origin <=? msg_ns then PushFirst else Skip)
  end.

(** The case of discarded events and packets messages with clock snapshots;
    [rebuild] makes the message with its two snapshots and its count. *)
Definition verdict_of_discarded (ns_from_origin : Z)
    (default_begin_cs default_end_cs : option bt_clock_snapshot)
    (rebuild : option bt_clock_snapshot -> option bt_clock_snapshot -> option Z -> bt_message)
    : option verdict :=
  do begin_cs <- default_begin_cs;
  guard_ub negb dev || bool_decide (is_Some default_end_cs);
  do v <- verdict_of_snapshot ns_from_origin begin_cs;
  match v with
  | Skip =>
    do end_cs <- default_end_cs;
    do v <- verdict_of_snapshot ns_from_origin end_cs;
    match v with
    | PushFirst =>
      do r <- bt_clock_class_clock_value_from_ns_from_origin (clock_class end_cs)
                ns_from_origin 0;
      match r with
      | (ClockOverflowError, _) => Some Failed
      | (ClockOk, new_begin_raw_value) =>
        do begin_cs <- bt_clock_snapshot_set_raw_value debug begin_cs new_begin_raw_value;
        Some (PushCut (rebuild (Some begin_cs) (Some end_cs) None))
      end
    | _ => Some v
    end
  | _ => Some v
  end.

Definition auto_seek_verdict (ns_from_origin : Z) (msg : bt_message) : option verdict :=
  match msg with
  | Event _ _ _ default_cs => do cs <- default_cs; verdict_of_snapshot ns_from_origin cs
  | MessageIteratorInactivity cs => verdict_of_snapshot ns_from_origin cs
  | PacketBeginning packet default_cs =>
    if negb (packets_have_beginning_default_clock_snapshot (stream_class (packet_stream packet)))
    then Some Skip
    else do cs <- default_cs; verdict_of_snapshot ns_from_origin cs
  | PacketEnd packet default_cs =>
    if negb (packets_have_end_default_clock_snapshot (stream_class (packet_stream packet)))
    then Some Skip
    else do cs <- default_cs; verdict_of_snapshot ns_from_origin cs
  | DiscardedEvents stream b e _ =>
    if negb (discarded_events_have_default_clock_snapshots (stream_class stream)) then Some Skip
    else verdict_of_discarded ns_from_origin b e (DiscardedEvents stream)
  | DiscardedPackets stream b e _ =>
    if negb (discarded_packets_have_default_clock_snapshots (stream_class stream)) then Some Skip
    else verdict_of_discarded ns_from_origin b e (DiscardedPackets stream)
  | StreamBeginning _ default_cs known | StreamEnd _ default_cs known =>
    if negb known then Some Skip
    else do cs <- default_cs; verdict_of_snapshot ns_from_origin cs
  end.

(** The update of the states of the streams by a message that is skipped. *)
Definition auto_seek_skip (states : auto_seek_states) (msg : bt_message)
    : option auto_seek_states :=
  match msg with
  | StreamBeginning stream _ known =>
    BT_ASSERT_DBG debug (bool_decide (states !! stream = None))
      (Some (<[stream := AutoSeekStreamState STREAM_BEGAN None known]> states))
  | PacketBeginning packet _ =>
    let stream := packet_stream packet in
    do st <- states !! stream;
    BT_ASSERT_DBG debug (bool_decide (as_state st = STREAM_BEGAN))
      (BT_ASSERT_DBG debug (bool_decide (as_packet st = None))
        (Some (<[stream := AutoSeekStreamState PACKET_BEGAN (Some packet)
             (packets_have_beginning_default_clock_snapshot (stream_class stream)
              || seen_clock_snapshot st)]> states)))
  | Event _ stream _ _ =>
    do st <- states !! stream;
    Some (<[stream := AutoSeekStreamState (as_state st) (as_packet st) true]> states)
  | PacketEnd packet _ =>
    let stream := packet_stream packet in
    do st <- states !! stream;
    BT_ASSERT_DBG debug (bool_decide (as_state st = PACKET_BEGAN))
      (BT_ASSERT_DBG debug (bool_decide (is_Some (as_packet st)))
        (Some (<[stream := AutoSeekStreamState STREAM_BEGAN None
             (packets_have_end_default_clock_snapshot (stream_class stream)
              || seen_clock_snapshot st)]> states)))
  | StreamEnd stream _ _ =>
    if (debug : bool) then
      do st <- states !! stream;
      guard_ub bool_decide (as_state st = STREAM_BEGAN);
      guard_ub bool_decide (as_packet st = None);
      Some (delete stream states)
    else Some (delete stream states)
  | DiscardedEvents stream _ _ _ =>
    BT_ASSERT_DBG debug (bool_decide (is_Some (states !! stream)))
      (if discarded_events_have_default_clock_snapshots (stream_class stream) then
         do st <- states !! stream;
         Some (<[stream := AutoSeekStreamState (as_state st) (as_packet st) true]> states)
       else Some states)
  | DiscardedPackets stream _ _ _ =>
    BT_ASSERT_DBG debug (bool_decide (is_Some (states !! stream)))
      (if discarded_packets_have_default_clock_snapshots (stream_class stream) then
         do st <- states !! stream;
         Some (<[stream := AutoSeekStreamState (as_state st) (as_packet st) true]> states)
       else Some states)
  | MessageIteratorInactivity _ => Some states
  end.

(** The status, [*got_first], the queue and the states of the streams. *)
Definition auto_seek_handle_message (ns_from_origin : Z) (queue : list bt_message)
    (states : auto_seek_states) (msg : bt_message)
    : option (next_status * bool * list bt_message * auto_seek_states) :=
  do v <- auto_seek_verdict ns_from_origin msg;
  match v with
  | Failed => Some (NextError, false, queue, states)
  | PushFirst => Some (NextOk, true, queue ++ [msg], states)
  | PushCut msg => Some (NextOk, false, queue ++ [msg], states)
  | Skip => do states <- auto_seek_skip states msg; Some (NextOk, false, queue, states)
  end.

(** ** Automatic seeking: the messages of the user *)

(** The loop on the messages of a batch. *)
Fixpoint handle_batch (ns_from_origin : Z) (got_first : bool) (queue : list bt_message)
    (states : auto_seek_states) (msgs : list bt_message)
    : option (next_status * bool * list bt_message * auto_seek_states) :=
  match msgs with
  | [] => Some (NextOk, got_first, queue, states)
  | msg :: msgs =>
    if got_first then handle_batch ns_from_origin got_first (queue ++ [msg]) states msgs
    else
      do r <- auto_seek_handle_message ns_from_origin queue states msg;
      let '(status, got_first, queue, states) := r in
      match status with
      | NextOk => handle_batch ns_from_origin got_first queue states msgs
      | _ => Some (status, got_first, queue, states)
      end
  end.

(** The loop [while (!got_first)]; [fuel] bounds the number of batches. *)
Fixpoint find_loop (fuel : nat) (it : iterator) (ns_from_origin : Z) (states : auto_seek_states)
    : option (next_status * iterator * auto_seek_states) :=
  match fuel with
  | O => None
  | S fuel =>
    do r <- call_iterator_next_method it;
    let '(status, msgs, it) := r in
    BT_ASSERT_DBG debug (bool_decide (state it = ACTIVE))
      match status with
      | NextOk =>
        guard_ub count_lteq_capacity msgs;
        do r <- handle_batch ns_from_origin false (auto_seek_msgs it) states msgs;
        let '(status, got_first, queue, states) := r in
        let it := set_auto_seek_msgs it queue in
        match status with
        | NextOk => if (got_first : bool) then Some (status, it, states)
                    else find_loop fuel it ns_from_origin states
        | _ => Some (status, it, states)
        end
      | _ => Some (status, it, states)
      end
  end.

Definition find_message_ge_ns_from_origin (fuel : nat) (it : iterator) (ns_from_origin : Z)
    (states : auto_seek_states) : option (next_status * iterator * auto_seek_states) :=
  let init_state := state it in
  do r <- find_loop fuel (set_msg_iterator_state it ACTIVE) ns_from_origin states;
  let '(status, it, states) := r in
  Some (status, set_msg_iterator_state it init_state, states).

(** ** Automatic seeking: the states of the streams *)

(** The returned status and [*raw_value]. *)
Definition clock_raw_value_from_ns_from_origin (cc : bt_clock_class) (ns_from_origin raw_value : Z)
    : option (Z * Z) :=
  bt_common_clock_value_from_ns_from_origin (offset_seconds cc) (offset_cycles cc)
    (frequency cc) ns_from_origin raw_value.

(** The messages that put one stream back in its state; [Some None] is the error
    path. *)
Definition restore_stream (ns_from_origin : Z) (stream : bt_stream)
    (st : auto_seek_stream_state) : option (option (list bt_message)) :=
  do raw <-
    (if seen_clock_snapshot st then
       do cc <- default_clock_class (stream_class stream);
       do r <- clock_raw_value_from_ns_from_origin cc ns_from_origin 0;
       if fst r =? 0 then Some (Some (Some (snd r))) else Some None
     else Some (Some None));
  match raw with
  | None => Some None
  | Some raw_value =>
    do pb <-
      match as_state st with
      | PACKET_BEGAN =>
        do packet <- as_packet st;
        if packets_have_beginning_default_clock_snapshot (stream_class stream) then
          guard_ub seen_clock_snapshot st;
          do msg <- create_packet_message debug false packet raw_value; Some [msg]
        else do msg <- create_packet_message debug false packet None; Some [msg]
      | STREAM_BEGAN => Some []
      end;
    let sb := create_stream_message false stream in
    do sb <-
      match raw_value with
      | Some v => set_stream_default_clock_snapshot debug sb v
      | None => Some sb
      end;
    Some (Some (sb :: pb))
  end.

(** The loop on the entries of the hash table: the status and the queue. *)
Fixpoint restore_streams (ns_from_origin : Z) (queue : list bt_message)
    (entries : list (bt_stream * auto_seek_stream_state))
    : option (next_status * list bt_message) :=
  match entries with
  | [] => Some (NextOk, queue)
  | (stream, st) :: entries =>
    do r <- restore_stream ns_from_origin stream st;
    match r with
    | None => Some (NextError, queue)
    | Some msgs => restore_streams ns_from_origin (msgs ++ queue) entries
    end
  end.

(** Installs the "next" callback that returns the queue, if there is a queue. *)
Definition install_post_auto_seek_next (it : iterator) : option iterator :=
  if bool_decide (auto_seek_msgs it = []) then Some it
  else
    guard_ub bool_decide (original_next_callback it = None);
    Some (set_next it PostAutoSeekNext (Some (next it))).

(** The part of the seeking that the library does itself: the status and the
    iterator; the boolean tells whether it went through the final updates. *)
Definition auto_seek (fuel : nat) (it : iterator) (ns_from_origin : Z)
    : option (next_status * iterator * bool) :=
  do can_method <- user_can_seek_beginning;
  let '(can_seek_status, can_seek_beginning, w) := can_method (user it) in
  let it := set_user it w in
  guard_ub bool_decide (can_seek_status = NextOk);
  do can_seek_beginning <- can_seek_beginning;
  guard_ub can_seek_beginning;
  do method <- user_seek_beginning;
  let '(status, w) := method (user it) in
  let it := set_user it w in
  guard_ub valid_seek_status status;
  let it := clear_per_stream_state it in
  match status with
  | NextOk =>
    let it := set_auto_seek_msgs it [] in
    do r <- find_message_ge_ns_from_origin fuel it ns_from_origin ∅;
    let '(status, it, states) := r in
    match status with
    | NextOk | NextEnd =>
      do r <- restore_streams ns_from_origin (auto_seek_msgs it) (hash_order states);
      let '(status, queue) := r in
      let it := set_auto_seek_msgs it queue in
      match status with
      | NextOk => do it <- install_post_auto_seek_next it; Some (NextOk, it, true)
      | _ => Some (status, it, false)
      end
    | _ => Some (status, it, false)
    end
  | _ => Some (status, it, false)
  end.

Definition bt_message_iterator_seek_ns_from_origin (fuel : nat) (it : iterator)
    (ns_from_origin : Z) : option (next_status * iterator) :=
  seek_pre it
    (do r <- message_iterator_can_seek_ns_from_origin it ns_from_origin;
     let '(can_seek, it) := r in
     BT_ASSERT_PRE can_seek
       (let it := set_msg_iterator_state it SEEKING in
        let it := reset_iterator_expectations it in
        do r <-
          match user_can_seek_ns_from_origin with
          | Some method =>
            let '(status, can_seek, w) := method (user it) ns_from_origin in
            Some (status, can_seek, set_user it w)
          | None => Some (NextOk, Some false, it)
          end;
        let '(can_seek_status, can_seek_by_itself, it) := r in
        if negb (bool_decide (can_seek_status = NextOk))
        then Some (can_seek_status, set_iterator_state_after_seeking it can_seek_status)
        else
          do can_seek_by_itself <- can_seek_by_itself;
          do r <-
            (if (can_seek_by_itself : bool) then
               do method <- user_seek_ns_from_origin;
               let '(status, w) := method (user it) ns_from_origin in
               guard_ub valid_seek_status status;
               Some (status, set_user it w, true)
             else auto_seek fuel it ns_from_origin);
          let '(status, it, final) := r in
          let it := if (final : bool)
                    then set_last_ns (clear_per_stream_state it) ns_from_origin else it in
          Some (status, set_iterator_state_after_seeking it status))).

End ops.

(** * The states of the streams during an automatic seeking *)

Section auto_seek.
Context {W V : Type} `{UserMethods W} `{CorrelationValidator V} `{TraceIr}.
Context (dev debug : bool).

(** The recorded states are those of the streams' automata ([MsgSeq.phase]) after
    the messages that were skipped. *)
Definition recorded (s : bt_stream) (ph : phase) (st : option auto_seek_stream_state) : Prop :=
  match ph with
  | Ready | Ended => st = None
  | Within => exists seen, st = Some (AutoSeekStreamState STREAM_BEGAN None seen)
  | InPacket p => exists seen, st = Some (AutoSeekStreamState PACKET_BEGAN (Some p) seen) /\
      (packets_have_beginning_default_clock_snapshot (stream_class s) = true -> seen = true)
  end.

Definition states_ok (states : auto_seek_states) (phs : bt_stream -> phase) : Prop :=
  forall s, phase_ok s (phs s) /\ recorded s (phs s) (states !! s).

Definition set_phase (phs : bt_stream -> phase) (s : bt_stream) (ph : phase) : bt_stream -> phase :=
  fun x => if decide (x = s) then ph else phs x.

Lemma states_ok_set (states states' : auto_seek_states) phs s ph :
  states_ok states phs -> phase_ok s ph -> recorded s ph (states' !! s) ->
  (forall x, x <> s -> states' !! x = states !! x) -> states_ok states' (set_phase phs s ph).
Proof.
  intros Hok Hph Hrec Hne x. unfold set_phase. destruct (decide (x = s)) as [-> |Hx]; [done|].
  rewrite Hne by done. apply Hok.
Qed.

Lemma skip_step states phs m s ph' :
  states_ok states phs -> get_stream_from_msg m = Some s ->
  phase_step (stream_class s) (phs s) m = Some ph' ->
  exists states', auto_seek_skip debug states m = Some states' /\
    states_ok states' (set_phase phs s ph').
Proof.
  intros Hok Hm Hst. destruct (Hok s) as [Hph Hrec].
  assert (Hph' : phase_ok s ph') by (eapply phase_step_ok; eauto).
  assert (Hins : forall st, recorded s ph' (Some st) ->
    states_ok (<[s := st]> states) (set_phase phs s ph')).
  { intros st Hr. eapply states_ok_set; eauto; [by rewrite lookup_insert_eq|].
    intros x Hx. by apply lookup_insert_ne. }
  unfold auto_seek_skip, BT_ASSERT_DBG.
  destruct (phs s) as [| |p|] eqn:Ephs, m as [| |? ? []| | | | |]; simpl in Hst; try done;
    simpl in Hm; injection Hm as Hm; try subst; simpl in Hrec;
    repeat match type of Hrec with
      | _ /\ _ => destruct Hrec as [Hrec Hseen]
      | exists _, _ => destruct Hrec as [seen Hrec]
      end;
    rewrite ?Hrec; cbn [as_state as_packet seen_clock_snapshot];
    rewrite ?bool_decide_eq_true_2 by (done || by eexists); cbn [negb]; rewrite ?andb_false_r;
    repeat case_decide; repeat case_match; simplify_eq;
    try (eexists; split; [reflexivity|]; apply Hins; simpl; eauto; fail).
  all: eexists; split; [reflexivity|].
  1,2: eapply states_ok_set; eauto;
    [apply lookup_delete_eq|intros x Hx; by apply lookup_delete_ne].
  - apply Hins. eexists. split; [reflexivity|]. by intros ->.
  - eapply states_ok_set; eauto. simpl. eauto.
  - eapply states_ok_set; eauto. simpl. eauto.
  - eapply states_ok_set; eauto. simpl. eauto.
Qed.

Lemma skip_no_stream states m :
  get_stream_from_msg m = None -> auto_seek_skip debug states m = Some states.
Proof. by destruct m. Qed.

(** ** The time of a message

    What follows does not use the code's own decision ([auto_seek_verdict]): the
    time of a message is what its clock snapshots say. *)

(** The clock snapshot gives the time [t], in nanoseconds from the origin. *)
Definition at_time (cs : bt_clock_snapshot) (t : Z) : Prop :=
  is_set cs = true /\ ns_from_origin_overflows cs = false /\ ns_from_origin cs = t.

Inductive timing := NoTime | Instant (t : bt_clock_snapshot) | Interval (b e : bt_clock_snapshot).

Definition timing_of (m : bt_message) : timing :=
  match m with
  | StreamBeginning _ (Some cs) true | StreamEnd _ (Some cs) true => Instant cs
  | Event _ _ _ (Some cs) | PacketBeginning _ (Some cs) | PacketEnd _ (Some cs) => Instant cs
  | DiscardedEvents _ (Some b) (Some e) _ | DiscardedPackets _ (Some b) (Some e) _ => Interval b e
  | MessageIteratorInactivity cs => Instant cs
  | _ => NoTime
  end.

(** A message has a clock snapshot exactly when the class of its stream says so. *)
Definition announced (flag : bool) (cs : option bt_clock_snapshot) : Prop := is_Some cs <-> flag = true.

(** The message has the clock snapshots which the class of its stream announces. *)
Definition clocked (m : bt_message) : Prop :=
  match m with
  | StreamBeginning _ cs known | StreamEnd _ cs known => known = true -> is_Some cs
  | Event _ _ _ cs => is_Some cs
  | PacketBeginning p cs =>
    announced (packets_have_beginning_default_clock_snapshot (stream_class (packet_stream p))) cs
  | PacketEnd p cs =>
    announced (packets_have_end_default_clock_snapshot (stream_class (packet_stream p))) cs
  | DiscardedEvents s b e _ =>
    announced (discarded_events_have_default_clock_snapshots (stream_class s)) b /\
    announced (discarded_events_have_default_clock_snapshots (stream_class s)) e
  | DiscardedPackets s b e _ =>
    announced (discarded_packets_have_default_clock_snapshots (stream_class s)) b /\
    announced (discarded_packets_have_default_clock_snapshots (stream_class s)) e
  | MessageIteratorInactivity _ => True
  end.

(** The whole message is before [ns]; a message without a time counts as such. *)
Definition is_before (ns : Z) (m : bt_message) : Prop :=
  match timing_of m with
  | NoTime => True
  | Instant cs => exists t, at_time cs t /\ t < ns
  | Interval b e => exists t u, at_time b t /\ at_time e u /\ t < ns /\ u < ns
  end.

(** The message, or the beginning of its interval, is at or after [ns]. *)
Definition is_reached (ns : Z) (m : bt_message) : Prop :=
  match timing_of m with
  | NoTime => False
  | Instant cs | Interval cs _ => exists t, at_time cs t /\ ns <= t
  end.

(** The discarded items message [m] begins before [ns] and ends at [ns] or after
    it; [m'] is the same message from [ns] on, of an unknown count. *)
Definition cut_snapshot (ns : Z) (b e b' : bt_clock_snapshot) : Prop :=
  (exists t u, at_time b t /\ at_time e u /\ t < ns /\ ns <= u) /\
  exists raw, bt_clock_class_clock_value_from_ns_from_origin (clock_class e) ns 0 = Some (ClockOk, raw) /\
    bt_clock_snapshot_set_raw_value debug b raw = Some b'.
Inductive cut_at (ns : Z) : bt_message -> bt_message -> Prop :=
| CutEvents s b e n b' : cut_snapshot ns b e b' ->
    cut_at ns (DiscardedEvents s (Some b) (Some e) n) (DiscardedEvents s (Some b') (Some e) None)
| CutPackets s b e n b' : cut_snapshot ns b e b' ->
    cut_at ns (DiscardedPackets s (Some b) (Some e) n) (DiscardedPackets s (Some b') (Some e) None).

(** What is left of messages that are not reached: the cut messages. *)
Inductive left_from (ns : Z) : list bt_message -> list bt_message -> Prop :=
| LeftNil : left_from ns [] []
| LeftSkip m l q : clocked m -> is_before ns m -> left_from ns l q -> left_from ns (m :: l) q
| LeftCut m m' l q : clocked m -> cut_at ns m m' -> left_from ns l q ->
    left_from ns (m :: l) (m' :: q).

(** No message of a stream is skipped after a cut message of this stream. *)
Definition cuts_come_last (ns : Z) (l : list bt_message) : Prop :=
  forall l1 m m' l2 x, l = l1 ++ m :: l2 -> cut_at ns m m' -> x ∈ l2 -> is_before ns x ->
    get_stream_from_msg x <> get_stream_from_msg m.

Lemma verdict_at ns cs t :
  at_time cs t ->
  verdict_of_snapshot debug ns cs = Some (if decide (ns <= t) then PushFirst else Skip).
Proof.
  intros (Hs & Ho & <-). unfold verdict_of_snapshot, bt_clock_snapshot_get_ns_from_origin, BT_ASSERT_DBG.
  rewrite Hs, Ho. cbn [negb]. rewrite andb_false_r.
  case_decide as Hle; [by rewrite (proj2 (Z.leb_le _ _))|by rewrite (proj2 (Z.leb_gt _ _)) by lia].
Qed.

Lemma announced_Some flag cs : announced flag (Some cs) -> flag = true.
Proof. intros Hf. by apply Hf. Qed.
Lemma announced_None flag : announced flag None -> flag = false.
Proof. intros Hf. destruct flag; [|done]. by destruct (proj2 Hf eq_refl). Qed.

(** The code's test of a clocked message whose snapshots are those of [timing_of]. *)
Lemma verdict_of_instant ns m cs :
  clocked m -> timing_of m = Instant cs ->
  auto_seek_verdict dev debug ns m = verdict_of_snapshot debug ns cs.
Proof.
  destruct m as [? [?|] []|? [?|] []|? ? ? [?|]|? [?|]|? [?|]|? [?|] [?|] ?|? [?|] [?|] ?|?];
    simpl; intros Hc E; simplify_eq; try done; by rewrite (announced_Some _ _ Hc).
Qed.

Lemma verdict_of_no_time ns m :
  clocked m -> timing_of m = NoTime -> auto_seek_verdict dev debug ns m = Some Skip.
Proof.
  destruct m as [? [?|] []|? [?|] []|? ? ? [?|]|? [?|]|? [?|]|? [?|] [?|] ?|? [?|] [?|] ?|?];
    simpl; intros Hc E; simplify_eq; try done.
  all: try (by destruct (Hc eq_refl)); try (by destruct Hc); try (by rewrite (announced_None _ Hc)).
  all: destruct Hc as [Hb He]; try (by rewrite (announced_None _ Hb)).
  all: apply announced_Some in Hb; apply announced_None in He; congruence.
Qed.

(** The code's decision for a clocked message which has an interval. *)
Lemma verdict_of_interval ns m b e :
  clocked m -> timing_of m = Interval b e ->
  exists rebuild, auto_seek_verdict dev debug ns m =
    verdict_of_discarded dev debug ns (Some b) (Some e) rebuild.
Proof.
  destruct m as [? [?|] []|? [?|] []|? ? ? [?|]|? [?|]|? [?|]|s [?|] [?|] ?|s [?|] [?|] ?|?];
    simpl; intros Hc E; simplify_eq; destruct Hc as [Hb _]; rewrite (announced_Some _ _ Hb);
    [exists (DiscardedEvents s)|exists (DiscardedPackets s)]; done.
Qed.

Lemma verdict_of_before ns m :
  clocked m -> is_before ns m -> auto_seek_verdict dev debug ns m = Some Skip.
Proof.
  intros Hc. unfold is_before. destruct (timing_of m) as [|cs|b e] eqn:E.
  - intros _. by apply verdict_of_no_time.
  - intros (t & Ht & Hlt). rewrite (verdict_of_instant ns m cs), (verdict_at ns cs t) by done.
    by rewrite decide_False by lia.
  - intros (t & u & Ht & Hu & Hlt & Hlu).
    destruct (verdict_of_interval ns m b e Hc E) as (rebuild & ->). unfold verdict_of_discarded.
    rewrite orb_true_r.
    by rewrite (verdict_at ns b t), decide_False, (verdict_at ns e u), decide_False by (done || lia).
Qed.

Lemma verdict_of_reached ns m :
  clocked m -> is_reached ns m -> auto_seek_verdict dev debug ns m = Some PushFirst.
Proof.
  intros Hc. unfold is_reached. destruct (timing_of m) as [|cs|b e] eqn:E; [done|..];
    intros (t & Ht & Hle).
  - rewrite (verdict_of_instant ns m cs), (verdict_at ns cs t) by done. by rewrite decide_True by lia.
  - destruct (verdict_of_interval ns m b e Hc E) as (rebuild & ->). unfold verdict_of_discarded.
    rewrite orb_true_r.
    by rewrite (verdict_at ns b t), decide_True by (done || lia).
Qed.

Lemma verdict_of_cut ns m m' :
  clocked m -> cut_at ns m m' -> auto_seek_verdict dev debug ns m = Some (PushCut m').
Proof.
  intros Hc Hcut.
  destruct Hcut as [s b e n b' ((t & u & Ht & Hu & Hlt & Hle) & raw & Hraw & Hset)
                   |s b e n b' ((t & u & Ht & Hu & Hlt & Hle) & raw & Hraw & Hset)];
    destruct Hc as [Hb _]; simpl; rewrite (announced_Some _ _ Hb); unfold verdict_of_discarded;
    rewrite orb_true_r;
    rewrite (verdict_at ns b t), decide_False, (verdict_at ns e u), decide_True by (done || lia);
    by rewrite Hraw, Hset.
Qed.

(** The phases after some messages. *)
Definition run_phases (phs : bt_stream -> phase) (l : list bt_message) (phs' : bt_stream -> phase) : Prop :=
  forall s, phase_run (stream_class s) (phs s) (of_stream s l) = Some (phs' s).

Lemma handle_batch_got_first ns queue states l :
  handle_batch dev debug ns true queue states l = Some (NextOk, true, queue ++ l, states).
Proof.
  revert queue. induction l as [|m l IH]; intros queue; simpl.
  - by rewrite app_nil_r.
  - rewrite IH, <- app_assoc. done.
Qed.

(** A cut message leaves the states of the streams as they are. *)
Lemma discarded_keeps_phase ns m m' c ph ph' :
  cut_at ns m m' -> phase_step c ph m = Some ph' ->
  ph' = ph /\ phase_step c ph m' = Some ph /\ ph <> Ready /\ ph <> Ended.
Proof. intros Hc. destruct Hc, ph; simpl; try done; repeat case_match; intros; simplify_eq; done. Qed.

Lemma run_phases_nil phs phs' s : run_phases phs [] phs' -> phs s = phs' s.
Proof. intros Hrun. specialize (Hrun s). simpl in Hrun. congruence. Qed.

(** The first message of some messages, and the others. *)
Lemma run_phases_cons phs m l phs' s :
  run_phases phs (m :: l) phs' -> get_stream_from_msg m = Some s ->
  exists ph, phase_step (stream_class s) (phs s) m = Some ph /\ run_phases (set_phase phs s ph) l phs'.
Proof.
  intros Hrun Hms. pose proof (Hrun s) as Hrs. rewrite of_stream_cons, Hms, decide_True in Hrs by done.
  simpl in Hrs. destruct (phase_step (stream_class s) (phs s) m) as [ph|]; [|done]. exists ph.
  split; [done|]. intros x. unfold set_phase. destruct (decide (x = s)) as [-> |Hx]; [done|].
  rewrite <- (Hrun x), of_stream_cons, Hms. by rewrite decide_False by congruence.
Qed.

Lemma run_phases_other phs m l phs' :
  run_phases phs (m :: l) phs' -> get_stream_from_msg m = None -> run_phases phs l phs'.
Proof. intros Hrun Hms s. rewrite <- (Hrun s), of_stream_cons, Hms. by rewrite decide_False. Qed.

Lemma run_phases_ext phs1 phs2 l phs' :
  (forall s, phs1 s = phs2 s) -> run_phases phs1 l phs' -> run_phases phs2 l phs'.
Proof. intros He Hr s. rewrite <- He. apply Hr. Qed.

Lemma run_phases_cut ns phs m m' l phs' :
  cut_at ns m m' -> run_phases phs (m :: l) phs' ->
  run_phases phs l phs' /\ exists s, get_stream_from_msg m = Some s /\ get_stream_from_msg m' = Some s /\
    phase_step (stream_class s) (phs s) m' = Some (phs s) /\ phs s <> Ready /\ phs s <> Ended.
Proof.
  intros Hcut Hrun.
  assert (Hs : exists s, get_stream_from_msg m = Some s /\ get_stream_from_msg m' = Some s) by (destruct Hcut; eauto).
  destruct Hs as (s & Hs & Hs'). destruct (run_phases_cons _ _ _ _ _ Hrun Hs) as (ph & Hst & Hrun').
  destruct (discarded_keeps_phase _ _ _ _ _ _ Hcut Hst) as (-> & Hkeep). split; [|by exists s].
  eapply run_phases_ext; [|exact Hrun']. intros x. unfold set_phase. by destruct (decide (x = s)) as [-> |].
Qed.

Lemma handle_batch_left ns l q rest : left_from ns l q ->
  forall queue states phs phs', states_ok states phs -> run_phases phs l phs' ->
  exists states', states_ok states' phs' /\
    handle_batch dev debug ns false queue states (l ++ rest) =
      handle_batch dev debug ns false (queue ++ q) states' rest.
Proof.
  induction 1 as [|m l q Hck Hb Hl IH|m m' l q Hck Hcut Hl IH]; intros queue states phs phs' Hok Hrun.
  - exists states. rewrite app_nil_r. split; [|done]. intros s. rewrite <- (run_phases_nil _ _ s Hrun). apply Hok.
  - cbn [app handle_batch]. unfold auto_seek_handle_message. rewrite (verdict_of_before ns m Hck Hb).
    destruct (get_stream_from_msg m) as [s|] eqn:Hms.
    + destruct (run_phases_cons _ _ _ _ _ Hrun Hms) as (ph & Hst & Hrun').
      destruct (skip_step _ _ _ _ _ Hok Hms Hst) as (states1 & -> & Hok1). by apply (IH _ _ _ phs' Hok1).
    + rewrite skip_no_stream by done. apply (IH _ _ _ phs' Hok), (run_phases_other _ _ _ _ Hrun Hms).
  - cbn [app handle_batch]. unfold auto_seek_handle_message. rewrite (verdict_of_cut ns m m' Hck Hcut).
    destruct (IH (queue ++ [m']) states phs phs' Hok (proj1 (run_phases_cut _ _ _ _ _ _ Hcut Hrun)))
      as (states' & Hok' & Hh).
    exists states'. split; [done|]. rewrite Hh, <- app_assoc. done.
Qed.

Lemma handle_batch_first ns queue states m l :
  clocked m -> is_reached ns m ->
  handle_batch dev debug ns false queue states (m :: l) =
    Some (NextOk, true, queue ++ m :: l, states).
Proof.
  intros Hc Hm. cbn [handle_batch]. unfold auto_seek_handle_message. rewrite (verdict_of_reached ns m) by done.
  rewrite handle_batch_got_first, <- app_assoc. done.
Qed.

Lemma left_from_app ns l k q :
  left_from ns (l ++ k) q -> exists q1 q2, q = q1 ++ q2 /\ left_from ns l q1 /\ left_from ns k q2.
Proof.
  revert q. induction l as [|m l IH]; intros q Hq; [exists [], q; by repeat constructor|].
  inversion Hq as [|? ? ? Hc Hb Hl|? m' ? q' Hc Hcut Hl]; subst; destruct (IH _ Hl) as (q1 & q2 & -> & H1' & H2').
  - exists q1, q2. by repeat constructor.
  - exists (m' :: q1), q2. by repeat constructor.
Qed.

Lemma cuts_come_last_tail ns m l : cuts_come_last ns (m :: l) -> cuts_come_last ns l.
Proof. intros Hc l1 x x' l2 y -> . by apply (Hc (m :: l1)). Qed.

(** Without a skipped message, a stream keeps its state. *)
Lemma left_keeps_phase ns l q s : left_from ns l q ->
  forall phs phs', (forall x, x ∈ l -> is_before ns x -> get_stream_from_msg x <> Some s) ->
  run_phases phs l phs' -> phs' s = phs s.
Proof.
  induction 1 as [|m l q Hck Hb Hl IH|m m' l q Hck Hcut Hl IH]; intros phs phs' Hno Hrun.
  - symmetry. by apply run_phases_nil.
  - destruct (get_stream_from_msg m) as [s0|] eqn:Hms.
    + destruct (run_phases_cons _ _ _ _ _ Hrun Hms) as (ph & _ & Hrun').
      rewrite (IH _ _ ltac:(intros x Hx; apply Hno; by right) Hrun'). unfold set_phase.
      rewrite decide_False; [done|]. intros ->. apply (Hno m); [by left|done|done].
    + apply (IH _ _ ltac:(intros x Hx; apply Hno; by right)), (run_phases_other _ _ _ _ Hrun Hms).
  - apply (IH _ _ ltac:(intros x Hx; apply Hno; by right)), (run_phases_cut _ _ _ _ _ _ Hcut Hrun).
Qed.

(** The cut messages are in order for streams that are in their last states. *)
Lemma left_phases ns l q s : left_from ns l q ->
  forall phs phs', cuts_come_last ns l -> run_phases phs l phs' ->
  phase_run (stream_class s) (phs' s) (of_stream s q) = Some (phs' s) /\
  (phs' s = Ready \/ phs' s = Ended -> of_stream s q = []).
Proof.
  induction 1 as [|m l q Hck Hb Hl IH|m m' l q Hck Hcut Hl IH]; intros phs phs' Hlast Hrun; [done|..].
  - apply cuts_come_last_tail in Hlast. destruct (get_stream_from_msg m) as [s0|] eqn:Hms.
    + destruct (run_phases_cons _ _ _ _ _ Hrun Hms) as (ph & _ & Hrun'). by apply (IH _ _ Hlast Hrun').
    + apply (IH _ _ Hlast (run_phases_other _ _ _ _ Hrun Hms)).
  - destruct (run_phases_cut _ _ _ _ _ _ Hcut Hrun) as (Hrun' & s0 & Hms & Hms' & Hst & Hr & He).
    destruct (IH _ _ (cuts_come_last_tail _ _ _ Hlast) Hrun') as [IH1 IH2].
    rewrite of_stream_cons, Hms'. destruct (decide (s0 = s)) as [-> |Hne].
    + assert (Hph : phs' s = phs s).
      { apply (left_keeps_phase ns l q s Hl _ _); [|done]. intros x Hx Hbx. rewrite <- Hms.
        by apply (Hlast [] m m' l). }
      rewrite decide_True by done. rewrite Hph in *. simpl. rewrite Hst. split; [done|]. by intros [? | ?].
    + rewrite decide_False by congruence. done.
Qed.

(** ** Putting the streams back in their states *)

(** The time converts to a value of the stream's default clock. *)
Definition convertible (ns : Z) (s : bt_stream) : Prop :=
  exists cc raw cs, default_clock_class (stream_class s) = Some cc /\
    clock_raw_value_from_ns_from_origin cc ns 0 = Some (0, raw) /\
    bt_clock_snapshot_set_raw_value debug (bt_clock_snapshot_new cc) raw = Some cs.

Definition is_beginning (m : bt_message) : Prop :=
  match m with StreamBeginning _ _ _ | PacketBeginning _ _ => True | _ => False end.

Lemma restore_stream_ok ns s ph st :
  convertible ns s -> phase_ok s ph -> recorded s ph (Some st) ->
  exists msgs, restore_stream debug ns s st = Some (Some msgs) /\ of_stream s msgs = msgs /\
    Forall is_beginning msgs /\ phase_run (stream_class s) Ready msgs = Some ph.
Proof.
  intros (cc & raw & cs & Hcc & Hraw & Hcs) Hok Hrec.
  assert (Hsb : forall v, v = Some raw \/ v = None ->
    exists ocs k, match v with
      | Some v => set_stream_default_clock_snapshot debug (create_stream_message false s) v
      | None => Some (create_stream_message false s)
      end = Some (StreamBeginning s ocs k)).
  { unfold create_stream_message, set_stream_default_clock_snapshot, BT_ASSERT_PRE.
    intros v [-> | ->]; [|eauto]. rewrite Hcc. simpl. rewrite Hcs. eauto. }
  unfold restore_stream. cbv zeta. rewrite Hcc. simpl. rewrite Hraw. simpl fst.
  set (v := if seen_clock_snapshot st then Some raw else None).
  assert (Hv : v = Some raw \/ v = None) by (subst v; destruct (seen_clock_snapshot st); auto).
  destruct (Hsb v Hv) as (ocs & k & Hsbv).
  assert (Hr : (if seen_clock_snapshot st then Some (Some (Some raw)) else Some (Some None)) = Some (Some v))
    by (subst v; by destruct (seen_clock_snapshot st)).
  change (if 0 =? 0 then Some (Some (Some (snd (0, raw)))) else Some None) with (Some (Some (Some raw))).
  rewrite Hr.
  destruct ph as [| |p|]; simpl in Hrec; try done.
  - destruct Hrec as [seen [= ->]]. cbn [as_state]. rewrite Hsbv.
    eexists. split; [done|]. unfold of_stream. rewrite filter_cons_True by done.
    split; [done|]. split; [by repeat constructor|done].
  - destruct Hrec as [seen [[= ->] Hseen]]. destruct Hok as [Hp Hps].
    cbn [as_state as_packet seen_clock_snapshot] in *.
    assert (Hpb : exists pcs, (if packets_have_beginning_default_clock_snapshot (stream_class s)
      then guard_ub seen; do msg <- create_packet_message debug false p v; Some [msg]
      else do msg <- create_packet_message debug false p None; Some [msg]) = Some [PacketBeginning p pcs]).
    { unfold create_packet_message, BT_ASSERT_PRE. rewrite Hps, Hp.
      destruct (packets_have_beginning_default_clock_snapshot _); [|simpl; eauto].
      rewrite Hseen by done. subst v. rewrite Hseen by done. simpl.
      unfold new_snapshot. rewrite Hcc. simpl. rewrite Hcs. eauto. }
    destruct Hpb as [pcs ->]. rewrite Hsbv. eexists. split; [done|].
    unfold of_stream. rewrite !filter_cons_True by (simpl; congruence).
    split; [done|]. split; [by repeat constructor|]. simpl. by rewrite Hp.
Qed.

Lemma of_stream_app s l k : of_stream s (l ++ k) = of_stream s l ++ of_stream s k.
Proof. apply filter_app. Qed.

Lemma of_stream_other s s0 l : of_stream s0 l = l -> s <> s0 -> of_stream s l = [].
Proof.
  intros Hl Hne. unfold of_stream in *. rewrite <- Hl. clear Hl.
  induction l as [|m l IH]; [done|]. rewrite (filter_cons _ m l). case_decide as Hm; [|done].
  rewrite filter_cons_False by congruence. done.
Qed.

Lemma restore_streams_ok ns (phs : bt_stream -> phase) entries : forall queue,
  NoDup entries.*1 ->
  (forall s st, (s, st) ∈ entries ->
   convertible ns s /\ phase_ok s (phs s) /\ recorded s (phs s) (Some st)) ->
  exists restore, restore_streams debug ns queue entries = Some (NextOk, restore ++ queue) /\
    Forall is_beginning restore /\
    forall s, (s ∈ entries.*1 -> phase_run (stream_class s) Ready (of_stream s restore) = Some (phs s)) /\
              (s ∉ entries.*1 -> of_stream s restore = []).
Proof.
  induction entries as [|[s0 st] entries IH]; intros queue Hnd He.
  { exists []. split; [done|]. split; [constructor|]. intros s. split; [|done].
    intros Hin. by apply elem_of_nil in Hin. }
  cbn [fmap list_fmap] in Hnd. apply NoDup_cons in Hnd as [Hn0 Hnd]. simpl in Hn0.
  destruct (He s0 st ltac:(left)) as (Hc & Hok & Hrec).
  destruct (restore_stream_ok ns s0 (phs s0) st Hc Hok Hrec) as (msgs & Hr & Hof & Hbeg & Hrun).
  destruct (IH (msgs ++ queue) Hnd) as (restore & Hrs & Hbegs & Hstr).
  { intros s st' Hin. apply He. by right. }
  exists (restore ++ msgs). cbn [restore_streams]. rewrite Hr, Hrs, <- app_assoc.
  split; [done|]. split; [by apply Forall_app|]. intros s. rewrite of_stream_app.
  cbn [fmap list_fmap]. rewrite elem_of_cons. simpl. destruct (decide (s = s0)) as [-> |Hne].
  - rewrite (proj2 (Hstr s0) Hn0), Hof. split; [done|tauto].
  - rewrite (of_stream_other s s0 msgs Hof Hne), app_nil_r. split.
    + intros [?|Hin]; [done|]. by apply Hstr.
    + intros Hin. apply Hstr. tauto.
Qed.

(** ** The loop on batches *)

(** The iterator's own "next" method gives the batches [bs], which the checks
    accept, and leaves the iterator [it']. *)
Inductive delivers : iterator (W := W) (V := V) -> list (list bt_message) -> iterator (W := W) (V := V) -> Prop :=
| DeliversNil it : delivers it [] it
| DeliversCons it b it1 bs it2 :
    call_iterator_next_method dev debug it = Some (NextOk, b, it1) ->
    (length b <= MSG_BATCH_SIZE)%nat -> delivers it1 bs it2 -> delivers it (b :: bs) it2.

Lemma run_phases_app phs l k phs' :
  run_phases phs (l ++ k) phs' ->
  exists phs1, run_phases phs l phs1 /\ run_phases phs1 k phs'.
Proof.
  intros Hr. exists (fun s => default Ready (phase_run (stream_class s) (phs s) (of_stream s l))).
  assert (Hs : forall s, exists ph, phase_run (stream_class s) (phs s) (of_stream s l) = Some ph /\
    phase_run (stream_class s) ph (of_stream s k) = Some (phs' s)).
  { intros s. specialize (Hr s). rewrite of_stream_app, phase_run_app in Hr.
    destruct (phase_run _ (phs s) (of_stream s l)) as [ph|]; [by exists ph|done]. }
  split; intros s; destruct (Hs s) as (ph & Hl & Hk); rewrite Hl; done.
Qed.

(** What the checks and the "next" method keep of an iterator that has the user's
    callback. *)
Lemma check_messages_keeps (it it' : iterator (W := W) (V := V)) status msgs :
  check_messages dev debug it status msgs = Some it' ->
  state it' = state it /\ next it' = next it /\ auto_seek_msgs it' = auto_seek_msgs it /\
  original_next_callback it' = original_next_callback it /\ user it' = user it /\
  can_seek_forward it' = can_seek_forward it /\
  (dev = false -> it' = it).
Proof.
  unfold check_messages. destruct dev; [|by intros [= <-]].
  case_bool_decide; repeat case_match; intros E; simplify_eq; simpl; repeat (split; [done|]); done.
Qed.

Lemma call_next_keeps (it it' : iterator (W := W) (V := V)) status msgs :
  next it = UserNext -> call_iterator_next_method dev debug it = Some (status, msgs, it') ->
  state it' = state it /\ next it' = UserNext /\ auto_seek_msgs it' = auto_seek_msgs it /\
  original_next_callback it' = original_next_callback it.
Proof.
  intros Hn. unfold call_iterator_next_method. rewrite Hn.
  destruct (user_next (user it)) as [[st ms] w].
  destruct (check_messages _ _ _ _ _) as [it1|] eqn:Hc; [|done]. intros [= <- <- <-].
  apply check_messages_keeps in Hc. simpl in Hc. rewrite Hn in Hc. tauto.
Qed.

Lemma delivers_keeps it bs it' :
  delivers it bs it' -> next it = UserNext ->
  state it' = state it /\ next it' = UserNext /\ auto_seek_msgs it' = auto_seek_msgs it /\
  original_next_callback it' = original_next_callback it.
Proof.
  induction 1 as [it|it b it1 bs it2 Hc _ _ IH]; intros Hn; [done|].
  destruct (call_next_keeps _ _ _ _ Hn Hc) as (Hs & Hn1 & Hq & Ho).
  destruct (IH Hn1) as (? & ? & ? & ?). repeat split; congruence.
Qed.

Lemma set_auto_seek_msgs_id (it : iterator (W := W) (V := V)) : set_auto_seek_msgs it (auto_seek_msgs it) = it.
Proof. by destruct it. Qed.

(** The user's "next" method does not see the queue. *)
Lemma call_next_queue (it it' : iterator (W := W) (V := V)) status msgs q :
  next it = UserNext -> call_iterator_next_method dev debug it = Some (status, msgs, it') ->
  call_iterator_next_method dev debug (set_auto_seek_msgs it q) =
    Some (status, msgs, set_auto_seek_msgs it' q).
Proof.
  unfold call_iterator_next_method. intros Hn. cbn [next user set_auto_seek_msgs]. rewrite Hn.
  destruct (user_next (user it)) as [[st ms] w]. unfold check_messages.
  cbn [correlation_validator last_ns_from_origin per_stream set_user set_validator set_auto_seek_msgs].
  destruct dev; [|by intros [= <- <- <-]]. case_bool_decide; simpl;
    repeat case_match; intros; simplify_eq/=;
    first [reflexivity|congruence].
Qed.

Lemma find_loop_left it bs it' ns : delivers it bs it' ->
  forall k q0 q states phs phs',
  next it = UserNext -> state it = ACTIVE ->
  left_from ns (concat bs) q -> states_ok states phs -> run_phases phs (concat bs) phs' ->
  exists states', states_ok states' phs' /\
    find_loop dev debug (length bs + k) (set_auto_seek_msgs it q0) ns states =
      find_loop dev debug k (set_auto_seek_msgs it' (q0 ++ q)) ns states'.
Proof.
  induction 1 as [it|it b it1 bs it2 Hc Hlen _ IH]; intros k q0 q states phs phs' Hn Ha Hl Hok Hrun.
  { inversion Hl; subst. exists states. rewrite app_nil_r. split; [|done]. intros s.
    rewrite <- (run_phases_nil _ _ s Hrun). apply Hok. }
  cbn [concat] in *. destruct (left_from_app _ _ _ _ Hl) as (q1 & q2 & -> & Hb & Hbs).
  destruct (run_phases_app _ _ _ _ Hrun) as (phs1 & Hr1 & Hr2).
  destruct (call_next_keeps _ _ _ _ Hn Hc) as (Hs1 & Hn1 & _).
  cbn [length Nat.add find_loop]. rewrite (call_next_queue _ _ _ _ q0 Hn Hc).
  unfold BT_ASSERT_DBG, count_lteq_capacity. cbn [state set_auto_seek_msgs auto_seek_msgs].
  rewrite bool_decide_eq_true_2 by congruence. rewrite andb_false_r.
  rewrite (proj2 (Nat.leb_le _ _)) by done. rewrite orb_true_r.
  destruct (handle_batch_left ns b q1 [] Hb q0 states phs phs1 Hok Hr1)
    as (states1 & Hok1 & Hh). rewrite app_nil_r in Hh. rewrite Hh. cbn [handle_batch].
  rewrite app_assoc. apply (IH k (q0 ++ q1) q2 states1 phs1 phs'); congruence || done.
Qed.

(** ** The whole seeking *)

(** The user's iterator cannot seek to a time, but seeks its beginning and sorts
    its messages by time; its data is then [w0]. *)
Record auto_seekable (it : iterator (W := W) (V := V)) (w0 : W) : Prop := {
  as_no_own_seek : user_can_seek_ns_from_origin = None;
  as_can : exists can, user_can_seek_beginning = Some can /\
    can (user it) = (NextOk, Some true, user it);
  as_seek : exists seek, user_seek_beginning = Some seek /\ seek (user it) = (NextOk, w0);
  as_forward : can_seek_forward it = true;
  as_ready : has_state_to_seek it = true
}.

(** The iterator once the user's iterator is at its beginning. *)
Definition at_beginning (it : iterator (W := W) (V := V)) (w0 : W) : iterator (W := W) (V := V) :=
  BtMessageIterator ACTIVE INT64_MIN (correlation_validator it) (if dev then ∅ else per_stream it) (can_seek_forward it)
    (next it) [] (original_next_callback it) w0.

(** Live streams are the keys of the table. *)
Lemma states_ok_key states phs s :
  states_ok states phs -> is_Some (states !! s) <-> phs s <> Ready /\ phs s <> Ended.
Proof.
  intros Hok. destruct (Hok s) as [_ Hr]. destruct (phs s); simpl in Hr.
  - rewrite Hr. split; [by intros [? ?]|tauto].
  - destruct Hr as [? ->]. split; [done|by eexists].
  - destruct Hr as [? [-> _]]. split; [done|by eexists].
  - rewrite Hr. split; [by intros [? ?]|tauto].
Qed.

(** The messages that restore the streams stand for those that were skipped. *)
Lemma restored_run states phs restore s l0 X :
  states_ok states phs -> run_phases (fun _ => Ready) l0 phs ->
  (is_Some (states !! s) -> phase_run (stream_class s) Ready (of_stream s restore) = Some (phs s)) ->
  (~ is_Some (states !! s) -> of_stream s restore = []) ->
  phase_run (stream_class s) Ready (of_stream s l0 ++ X) = Some Ended ->
  phase_run (stream_class s) Ready (of_stream s restore ++ X) = Some Ended \/
  (of_stream s restore = [] /\ X = []).
Proof.
  intros Hok Hrun Hlive Hdead Hall. rewrite phase_run_app, (Hrun s) in Hall.
  pose proof (states_ok_key states phs s Hok) as Hkey.
  destruct (decide (is_Some (states !! s))) as [Hs|Hs].
  - left. by rewrite phase_run_app, (Hlive Hs).
  - rewrite (Hdead Hs). destruct (phs s) eqn:E; try (exfalso; apply Hs, Hkey; done).
    + by left.
    + right. split; [done|]. destruct X as [|m X]; [done|]. simpl in Hall. by destruct m.
Qed.
Context (hash_order : auto_seek_states -> list (bt_stream * auto_seek_stream_state)).

(** What the seeking does after the messages before the time are skipped. *)
Definition finish_seek (ns : Z) (r : next_status * iterator (W := W) (V := V) * auto_seek_states)
    : option (next_status * iterator (W := W) (V := V)) :=
  let '(status, it, states) := r in
  let it := set_msg_iterator_state it SEEKING in
  match status with
  | NextOk | NextEnd =>
    do r <- restore_streams debug ns (auto_seek_msgs it) (hash_order states);
    let '(status, queue) := r in
    let it := set_auto_seek_msgs it queue in
    match status with
    | NextOk =>
      do it <- install_post_auto_seek_next it;
      Some (NextOk, set_iterator_state_after_seeking (set_last_ns (clear_per_stream_state dev it) ns) NextOk)
    | _ => Some (status, set_iterator_state_after_seeking it status)
    end
  | _ => Some (status, set_iterator_state_after_seeking it status)
  end.

Lemma seek_unfold fuel it ns w0 :
  auto_seekable it w0 ->
  bt_message_iterator_seek_ns_from_origin dev debug false true hash_order fuel it ns =
    do r <- find_loop dev debug fuel (at_beginning it w0) ns ∅; finish_seek ns r.
Proof.
  intros [Hno (can & Hcan & Hc) (seek & Hseek & Hs) Hfwd Hst].
  unfold bt_message_iterator_seek_ns_from_origin, message_iterator_can_seek_ns_from_origin,
    bt_message_iterator_can_seek_ns_from_origin, bt_message_iterator_can_seek_beginning,
    seek_pre, BT_ASSERT_PRE. rewrite Hst, Hno, Hcan, Hc. cbn [negb option_map].
  rewrite bool_decide_eq_true_2 by (by eexists). rewrite orb_true_r.
  assert (Hu : set_user it (user it) = it) by (by destruct it). rewrite Hu, Hfwd. cbn [option_map andb negb].
  unfold auto_seek. rewrite Hcan, Hseek.
  change (user (reset_iterator_expectations (set_msg_iterator_state it SEEKING))) with (user it).
  rewrite Hc. cbn [negb]. rewrite bool_decide_eq_true_2 by done. cbn [user set_user]. rewrite Hs.
  unfold find_message_ge_ns_from_origin.
  match goal with |- context [find_loop _ _ _ ?i _ _] =>
    replace i with (at_beginning it w0)
      by (unfold at_beginning, clear_per_stream_state; destruct it, dev; reflexivity) end.
  assert (Hsk : forall i, state (if dev then i else i : iterator (W := W) (V := V)) = state i)
    by (intros; by destruct dev).
  assert (Hstate : forall i : iterator (W := W) (V := V), state (set_auto_seek_msgs
     (clear_per_stream_state dev i) []) = state i)
    by (intros; unfold clear_per_stream_state; by destruct dev).
  unfold valid_seek_status. rewrite bool_decide_eq_false_2 by done. cbn [negb]. rewrite Hstate.
  destruct (find_loop _ _ _ _ _ _) as [[[st i] states]|]; [|done].
  cbn [state set_user reset_iterator_expectations set_msg_iterator_state set_last_ns].
  unfold finish_seek. destruct st; try reflexivity;
    (destruct (restore_streams _ _ _ _) as [[[] q]|]; try reflexivity;
     destruct (install_post_auto_seek_next _); reflexivity).
Qed.

End auto_seek.

(** * Claims *)

Section claims.
Context {W V : Type} `{UserMethods W} `{CorrelationValidator V} `{TraceIr}.
Context (dev debug : bool).
Context (hash_order : auto_seek_states -> list (bt_stream * auto_seek_stream_state)).

(** How the skipping ends: on the first message [m] at or after the time, in the
    middle of a batch, or at the end of the user's messages. *)
Definition skipping_ends (ns : Z) (it1 it2 : iterator (W := W) (V := V)) (b1 tail : list bt_message) : Prop :=
  (exists m b2, tail = m :: b2 /\ (length (b1 ++ tail) <= MSG_BATCH_SIZE)%nat /\
   clocked m /\ is_reached ns m /\
   call_iterator_next_method dev debug it1 = Some (NextOk, b1 ++ tail, it2)) \/
  (b1 = [] /\ tail = [] /\ exists msgs,
   call_iterator_next_method dev debug it1 = Some (NextEnd, msgs, it2)).

Lemma find_loop_ends ns k it bs it1 b1 tail it2 cuts phs :
  delivers dev debug it bs it1 -> next it = UserNext -> state it = ACTIVE ->
  auto_seek_msgs it = [] -> skipping_ends ns it1 it2 b1 tail ->
  left_from debug ns (concat bs ++ b1) cuts ->
  run_phases (fun _ => Ready) (concat bs ++ b1) phs ->
  exists status states, (status = NextOk \/ status = NextEnd) /\ states_ok states phs /\
    find_loop dev debug (length bs + S k) it ns ∅ =
      Some (status, set_auto_seek_msgs it2 (cuts ++ tail), states) /\
    next it2 = UserNext /\ original_next_callback it2 = original_next_callback it.
Proof.
  intros Hd Hn Ha Hq Hend Hl Hrun.
  destruct (left_from_app _ _ _ _ _ Hl) as (q1 & q2 & -> & Hbs & Hb1).
  destruct (run_phases_app _ _ _ _ Hrun) as (phs1 & Hr1 & Hr2).
  assert (Hok0 : states_ok ∅ (fun _ => Ready)) by (intros s; split; [done|apply lookup_empty]).
  destruct (delivers_keeps dev debug _ _ _ Hd Hn) as (Hs1 & Hn1 & _ & Ho1).
  destruct (find_loop_left dev debug it bs it1 ns Hd (S k) [] q1 ∅ _ phs1 Hn Ha Hbs Hok0 Hr1)
    as (states & Hok & Hfl). rewrite <- Hq, set_auto_seek_msgs_id, Hq in Hfl. rewrite Hfl. clear Hfl.
  destruct Hend as [(m & b2 & -> & Hlen & Hck & Hm & Hc)|(-> & -> & msgs & Hc)];
    destruct (call_next_keeps dev debug _ _ _ _ Hn1 Hc) as (Hs2 & Hn2 & _ & Ho2);
    cbn [find_loop app]; rewrite (call_next_queue dev debug _ _ _ _ q1 Hn1 Hc);
    unfold BT_ASSERT_DBG, count_lteq_capacity; cbn [state set_auto_seek_msgs auto_seek_msgs];
    rewrite bool_decide_eq_true_2 by congruence; rewrite andb_false_r.
  - rewrite (proj2 (Nat.leb_le _ _)) by done. rewrite orb_true_r.
    destruct (handle_batch_left dev debug ns b1 q2 (m :: b2) Hb1 q1 states phs1 phs Hok Hr2)
      as (states2 & Hok2 & ->).
    rewrite (handle_batch_first dev debug ns _ _ _ _ Hck Hm). exists NextOk, states2.
    rewrite <- app_assoc. repeat split; auto; try apply Hok2; congruence.
  - inversion Hb1; subst. exists NextEnd, states.
    assert (Hp : states_ok states phs) by (intros s; rewrite <- (run_phases_nil _ _ s Hr2); apply Hok).
    rewrite !app_nil_r. repeat split; auto; try apply Hp; congruence.
Qed.

(** The phases after messages that follow the rules so far. *)
Lemma follows_phases l :
  follows_rules_so_far l -> exists phs, run_phases (fun _ => Ready) l phs.
Proof.
  intros Hf. exists (fun s => default Ready (phase_run (stream_class s) Ready (of_stream s l))).
  intros s. destruct (Hf s) as (rest & _ & Hs). apply sequence_run in Hs.
  rewrite phase_run_app in Hs. by destruct (phase_run _ Ready (of_stream s l)).
Qed.

(** The keys of the table are the streams the restoring loop sees. *)
Lemma hash_order_keys states s :
  (forall st, hash_order st ≡ₚ map_to_list st) ->
  s ∈ (hash_order states).*1 <-> is_Some (states !! s).
Proof.
  intros Hperm. rewrite (Hperm states), list_elem_of_fmap. split.
  - intros ([? st] & -> & Hin). apply elem_of_map_to_list in Hin. by exists st.
  - intros [st Hs]. exists (s, st). split; [done|]. by apply elem_of_map_to_list.
Qed.

Lemma install_ok (it : iterator (W := W) (V := V)) :
  next it = UserNext -> original_next_callback it = None ->
  exists it', install_post_auto_seek_next it = Some it' /\ user it' = user it /\
    auto_seek_msgs it' = auto_seek_msgs it /\
    next it' = if decide (auto_seek_msgs it = []) then UserNext else PostAutoSeekNext.
Proof.
  intros Hn Ho. unfold install_post_auto_seek_next. case_bool_decide as Hq.
  - eexists. split; [done|]. by rewrite decide_True.
  - rewrite bool_decide_eq_true_2 by done. eexists. split; [done|]. by rewrite decide_False.
Qed.

(** The restoring messages in place of those before the time. *)
Lemma restored_rules states phs restore before tail :
  states_ok states phs -> run_phases (fun _ => Ready) before phs ->
  (forall s, (is_Some (states !! s) ->
              phase_run (stream_class s) Ready (of_stream s restore) = Some (phs s)) /\
             (~ is_Some (states !! s) -> of_stream s restore = [])) ->
  (follows_rules_so_far (before ++ tail) -> follows_rules_so_far (restore ++ tail)) /\
  (follows_rules (before ++ tail) -> follows_rules (restore ++ tail)).
Proof.
  intros Hok Hrun Hstr.
  assert (Hrr : forall s X, phase_run (stream_class s) Ready (of_stream s before ++ X) = Some Ended ->
    phase_run (stream_class s) Ready (of_stream s restore ++ X) = Some Ended \/
    (of_stream s restore = [] /\ X = [])).
  { intros s X. eapply restored_run; eauto; apply Hstr. }
  split; intros Hall s.
  - destruct (Hall s) as (r & Hr0 & Hseq). apply sequence_run in Hseq.
    rewrite of_stream_app, <- app_assoc in Hseq. rewrite of_stream_app.
    destruct (Hrr s _ Hseq) as [Hrun'|[Hnil HX]].
    + exists r. split; [done|]. apply sequence_run. by rewrite <- app_assoc.
    + apply app_eq_nil in HX as [HX _]. rewrite Hnil, HX.
      destruct (phase_completes s Ready I) as (r' & Hr1 & Hr2). exists r'. split; [done|].
      by apply sequence_run.
  - intros Hne. rewrite of_stream_app in *. specialize (Hall s).
    rewrite of_stream_app in Hall. rewrite sequence_run in Hall |- *.
    destruct (Hrr s (of_stream s tail)) as [?|[Hnil HX]]; [|done|].
    + apply Hall. intros Hz. apply app_eq_nil in Hz as [Hz1 Hz2]. apply Hne. rewrite Hz2, app_nil_r.
      destruct (decide (is_Some (states !! s))) as [Hs|Hs]; [|by apply Hstr].
      exfalso. eapply states_ok_key in Hs as [Hs _]; [|exact Hok].
      specialize (Hrun s). rewrite Hz1 in Hrun. injection Hrun as Hready. congruence.
    + exfalso. apply Hne. by rewrite Hnil, HX.
Qed.

(** C2: An automatic seeking delivers what it must.  Let the user's iterator seek
    its beginning, sort its messages by time, give the batches [bs] then [b1] and
    [tail] (as the checks accept them), with the clock snapshots that their stream
    classes announce.  All the messages up to [b1] are before the time by their
    clock snapshots, or discarded items messages which begin before it and do not
    end before it; [cuts] are the latter, which now begin at the time and have no
    count; [tail] starts with the first message at or after the time (or is
    empty, at the end); and the time converts for the streams that began.  Then
    the seeking returns OK with enough fuel, the iterator is active, its next
    messages may not go before the time, and its queue is
    [restore ++ cuts ++ tail], where [restore] only has stream and packet beginning
    messages, to be returned by its "next" method.  Moreover, what the iterator
    delivers follows the message sequence rules when no message of a stream is
    skipped after a cut one of this stream: for any further messages [rest], if
    all the user's messages follow the rules so far, so do
    [restore ++ cuts ++ tail ++ rest], and the same holds for complete sequences. *)
Theorem auto_seek_delivers ns it w0 bs it1 b1 tail it2 cuts fuel :
  auto_seekable it w0 -> next it = UserNext -> original_next_callback it = None ->
  (forall st, hash_order st ≡ₚ map_to_list st) ->
  delivers dev debug (at_beginning dev it w0) bs it1 ->
  skipping_ends ns it1 it2 b1 tail -> (length bs < fuel)%nat ->
  let before := concat bs ++ b1 in
  left_from debug ns before cuts -> follows_rules_so_far before ->
  (forall s, of_stream s before <> [] -> convertible debug ns s) ->
  exists it' restore,
    bt_message_iterator_seek_ns_from_origin dev debug false true hash_order fuel it ns =
      Some (NextOk, it') /\
    state it' = ACTIVE /\ last_ns_from_origin it' = ns /\ user it' = user it2 /\
    auto_seek_msgs it' = restore ++ cuts ++ tail /\ Forall is_beginning restore /\
    next it' = (if decide (restore ++ cuts ++ tail = []) then UserNext else PostAutoSeekNext) /\
    (cuts_come_last debug ns before -> forall rest,
      (follows_rules_so_far (before ++ tail ++ rest) -> follows_rules_so_far (restore ++ cuts ++ tail ++ rest)) /\
      (follows_rules (before ++ tail ++ rest) -> follows_rules (restore ++ cuts ++ tail ++ rest))).
Proof.
  intros Has Hn Ho Hperm Hd Hend Hfuel before Hl Hf Hconv.
  destruct (follows_phases before Hf) as [phs Hrun].
  replace fuel with (length bs + S (fuel - S (length bs)))%nat by lia.
  rewrite (seek_unfold dev debug hash_order _ it ns w0 Has).
  destruct (find_loop_ends ns (fuel - S (length bs)) _ bs it1 b1 tail it2 cuts phs Hd Hn
    eq_refl eq_refl Hend Hl Hrun) as (status & states & Hst & Hok & -> & Hn2 & Ho2).
  destruct (restore_streams_ok debug ns phs (hash_order states) (cuts ++ tail)) as (restore & Hr & Hbeg & Hstr).
  { rewrite (Hperm states). apply NoDup_fst_map_to_list. }
  { intros s st Hin. rewrite (Hperm states), elem_of_map_to_list in Hin.
    destruct (Hok s) as [Hph Hrec]. rewrite Hin in Hrec. split; [|done]. apply Hconv. intros Hnil.
    specialize (Hrun s). rewrite Hnil in Hrun. injection Hrun as Hready.
    rewrite <- Hready in Hrec. done. }
  destruct (install_ok (set_auto_seek_msgs (set_msg_iterator_state (set_auto_seek_msgs it2 (cuts ++ tail))
    SEEKING) (restore ++ cuts ++ tail)) Hn2 (eq_trans Ho2 Ho)) as (it3 & Hi & Hu & Hq & Hnx).
  exists (set_iterator_state_after_seeking (set_last_ns (clear_per_stream_state dev it3) ns) NextOk), restore.
  assert (Hclear : forall A (f : iterator (W := W) (V := V) -> A),
    (forall i p, f (set_per_stream i p) = f i) -> f (clear_per_stream_state dev it3) = f it3)
    by (intros A f Hfi; unfold clear_per_stream_state; by destruct dev).
  split.
  { unfold finish_seek. destruct Hst as [-> | ->];
      cbn [auto_seek_msgs set_msg_iterator_state set_auto_seek_msgs]; rewrite Hr, Hi; done. }
  split; [done|]. split; [done|].
  split; [etrans; [apply (Hclear _ user); done|exact Hu]|].
  split; [etrans; [apply (Hclear _ auto_seek_msgs); done|exact Hq]|]. split; [done|].
  split; [etrans; [apply (Hclear _ next); done|exact Hnx]|].
  intros Hlast rest. rewrite (app_assoc restore). apply (restored_rules states phs); [done|done|]. intros s.
  rewrite of_stream_app. pose proof (hash_order_keys states s Hperm) as Hkey.
  destruct (left_phases debug ns before cuts s Hl _ _ Hlast Hrun) as [Hlive Hdead]. split; intros Hs.
  - by rewrite phase_run_app, (proj1 (Hstr s)) by by rewrite Hkey.
  - rewrite (proj2 (Hstr s)), Hdead; [done| |by rewrite Hkey].
    rewrite (states_ok_key states phs s Hok) in Hs. destruct (phs s); auto; by destruct Hs.
Qed.

(** ** The states of an iterator *)

(** [n] calls of "next", which all return OK: the batches and the iterator. *)
Fixpoint next_calls (n : nat) (it : iterator (W := W) (V := V))
    : option (list (list bt_message) * iterator (W := W) (V := V)) :=
  match n with
  | O => Some ([], it)
  | S n =>
    do r <- bt_message_iterator_next dev debug false true it;
    match r with
    | (NextOk, b, it) => do r <- next_calls n it; Some (b :: fst r, snd r)
    | _ => None
    end
  end.

Lemma post_auto_seek_next_keeps (it it' : iterator (W := W) (V := V)) status msgs :
  post_auto_seek_next it = Some (status, msgs, it') ->
  state it' = state it /\ status = NextOk /\ msgs = take MSG_BATCH_SIZE (auto_seek_msgs it).
Proof.
  unfold post_auto_seek_next. repeat case_match; intros; simplify_eq; done.
Qed.

Lemma call_next_state (it it' : iterator (W := W) (V := V)) status msgs :
  call_iterator_next_method dev debug it = Some (status, msgs, it') ->
  state it' = state it.
Proof.
  unfold call_iterator_next_method. destruct (next it).
  - destruct (user_next (user it)) as [[st ms] w].
    destruct (check_messages _ _ _ _ _) eqn:Hc; [|done]. intros [= <- <- <-].
    by apply check_messages_keeps in Hc as [-> _].
  - destruct (post_auto_seek_next it) as [[[st ms] it1]|] eqn:Hp; [|done].
    destruct (check_messages _ _ _ _ _) eqn:Hc; [|done]. intros [= <- <- <-].
    apply check_messages_keeps in Hc as [-> _]. by apply post_auto_seek_next_keeps in Hp as [-> _].
Qed.

(** The states in which an iterator can be sought, each with the status of the last
    operation that leads to it. *)
Inductive sought_state : next_status -> bt_message_iterator_state -> Prop :=
  | sought_ok : sought_state NextOk ACTIVE
  | sought_again : sought_state NextAgain LAST_SEEKING_RETURNED_AGAIN
  | sought_error : sought_state NextError LAST_SEEKING_RETURNED_ERROR
  | sought_memory_error : sought_state NextMemoryError LAST_SEEKING_RETURNED_ERROR
  | sought_end : sought_state NextEnd ENDED.

Lemma after_seeking (it : iterator (W := W) (V := V)) status :
  sought_state status (state (set_iterator_state_after_seeking it status)).
Proof. destruct status; constructor. Qed.

Lemma state_to_seek (it : iterator (W := W) (V := V)) :
  has_state_to_seek it = true -> exists prior, sought_state prior (state it).
Proof. unfold has_state_to_seek. destruct (state it); try done; eauto using sought_state. Qed.

(** C31: The state machine of an iterator, whatever its user's methods do.  When
    getting messages returns, it gives no message unless the status is OK; the
    iterator is ended exactly when the status is END and keeps its state
    otherwise.  In developer mode, it only returns from an active iterator (so
    neither after END nor after a seeking that failed) and gives at most
    [MSG_BATCH_SIZE] messages.  When a seeking returns, the iterator had one of the
    four states of [sought_state], and has the state which [sought_state] gives for
    the status: active after OK, a state of its own after AGAIN and after errors,
    ended after END; a seeking to the beginning never returns END. *)
Theorem iterator_state_machine (it it' : iterator (W := W) (V := V)) thread_error configured :
  (forall status msgs,
     bt_message_iterator_next dev debug thread_error configured it = Some (status, msgs, it') ->
     (status <> NextOk -> msgs = []) /\
     state it' = (if decide (status = NextEnd) then ENDED else state it) /\
     (dev = true -> state it = ACTIVE /\ (length msgs <= MSG_BATCH_SIZE)%nat)) /\
  (forall status,
     bt_message_iterator_seek_beginning dev thread_error configured it = Some (status, it') ->
     status <> NextEnd /\ (exists prior, sought_state prior (state it)) /\
     sought_state status (state it')) /\
  (forall fuel ns status,
     bt_message_iterator_seek_ns_from_origin dev debug thread_error configured hash_order
       fuel it ns = Some (status, it') ->
     (exists prior, sought_state prior (state it)) /\ sought_state status (state it')).
Proof.
  split; [|split].
  - intros status msgs. unfold bt_message_iterator_next, BT_ASSERT_PRE_DEV, BT_ASSERT_DBG.
    destruct (call_iterator_next_method _ _ it) as [[[st ms] it1]|] eqn:Hc;
      [|by repeat case_match].
    apply call_next_state in Hc. unfold count_lteq_capacity.
    repeat case_match; intros; simplify_eq; simpl; (split; [done|]); (split; [done|]);
      intros ->; simpl in *; repeat case_bool_decide; simplify_eq; (split; [done|]);
      try (simpl; lia); by apply Nat.leb_le.
  - intros status. unfold bt_message_iterator_seek_beginning, seek_pre, BT_ASSERT_PRE, valid_seek_status.
    repeat case_match; intros; simplify_eq; repeat case_bool_decide; try done;
      eauto using state_to_seek, after_seeking.
  - intros fuel ns status.
    unfold bt_message_iterator_seek_ns_from_origin, seek_pre, BT_ASSERT_PRE.
    repeat case_match; intros; simplify_eq; eauto using state_to_seek, after_seeking.
Qed.

(** ** What is left of an automatic seeking *)

(** The iterator has a queue to return, and the user's callback to put back. *)
Record has_queue (it : iterator (W := W) (V := V)) : Prop := {
  hq_next : next it = PostAutoSeekNext;
  hq_original : original_next_callback it = Some UserNext;
  hq_active : state it = ACTIVE;
  hq_queue : auto_seek_msgs it <> []
}.

Lemma next_of_queue (it : iterator (W := W) (V := V)) :
  dev = false -> has_queue it ->
  exists it', bt_message_iterator_next dev debug false true it =
      Some (NextOk, take MSG_BATCH_SIZE (auto_seek_msgs it), it') /\
    auto_seek_msgs it' = drop MSG_BATCH_SIZE (auto_seek_msgs it) /\ user it' = user it /\
    state it' = ACTIVE /\
    (drop MSG_BATCH_SIZE (auto_seek_msgs it) = [] ->
     next it' = UserNext /\ original_next_callback it' = None) /\
    (drop MSG_BATCH_SIZE (auto_seek_msgs it) <> [] -> has_queue it').
Proof.
  intros Hdev [Hn Ho Ha Hq]. unfold bt_message_iterator_next, call_iterator_next_method. rewrite Hn.
  unfold BT_ASSERT_PRE_DEV, BT_ASSERT_DBG, post_auto_seek_next, check_messages, count_lteq_capacity.
  rewrite Hdev. cbn [negb andb orb original_next_callback set_auto_seek_msgs]. rewrite Ho.
  rewrite bool_decide_eq_false_2 by done. cbn [negb].
  assert (Hl : (0 <? length (take MSG_BATCH_SIZE (auto_seek_msgs it)))%nat = true).
  { apply Nat.ltb_lt. destruct (auto_seek_msgs it); [done|]. simpl. lia. }
  rewrite Hl. case_bool_decide as Hd; simpl state; rewrite Ha; eexists;
    (rewrite bool_decide_eq_true_2 by done; rewrite andb_false_r; split; [reflexivity|]);
    (split; [done|]); (split; [done|]); (split; [done|]).
  - by split.
  - split; [done|]. by constructor.
Qed.

(** C30: After an automatic seeking the "next" method returns the queue: without
    the developer checks, an active iterator with a queue of [len] messages returns
    them all, in order, in ⌈len / 15⌉ calls of OK, and then has its user's "next"
    method back, with the user's data untouched, so the messages of the user which
    follow the queue come next. *)
Theorem auto_seek_queue_is_returned (it : iterator (W := W) (V := V)) :
  dev = false -> has_queue it ->
  exists n bs it', next_calls n it = Some (bs, it') /\
    concat bs = auto_seek_msgs it /\
    n = ((length (auto_seek_msgs it) + MSG_BATCH_SIZE - 1) / MSG_BATCH_SIZE)%nat /\
    Forall (fun b => 0 < length b <= MSG_BATCH_SIZE)%nat bs /\
    next it' = UserNext /\ original_next_callback it' = None /\ auto_seek_msgs it' = [] /\
    user it' = user it /\ state it' = ACTIVE.
Proof.
  intros Hdev. remember (length (auto_seek_msgs it)) as len eqn:Hlen. revert it Hlen.
  induction len as [len IH] using lt_wf_ind. intros it Hlen Hq.
  destruct (next_of_queue it Hdev Hq) as (it1 & Hc & Hq1 & Hu & Ha & Hlast & Hmore).
  destruct Hq as [_ _ _ Hne].
  assert (Hpos : (0 < len)%nat) by (destruct (auto_seek_msgs it); [done|simpl in Hlen; lia]).
  assert (Hb : (0 < length (take MSG_BATCH_SIZE (auto_seek_msgs it)) <= MSG_BATCH_SIZE)%nat)
    by (rewrite length_take, <- Hlen; unfold MSG_BATCH_SIZE; lia).
  destruct (decide (drop MSG_BATCH_SIZE (auto_seek_msgs it) = [])) as [Hd|Hd].
  - exists 1%nat, [take MSG_BATCH_SIZE (auto_seek_msgs it)], it1. cbn [next_calls]. rewrite Hc.
    split; [done|]. cbn [concat]. rewrite app_nil_r.
    assert (Hle : (len <= MSG_BATCH_SIZE)%nat).
    { apply (f_equal length) in Hd. rewrite length_drop, <- Hlen in Hd. simpl in Hd. lia. }
    split; [by apply firstn_all2; rewrite <- Hlen|].
    split; [apply (Nat.div_unique _ _ _ (len - 1)); unfold MSG_BATCH_SIZE in *; lia|].
    split; [constructor; [exact Hb|constructor]|]. destruct (Hlast Hd). by rewrite Hq1, Hd.
  - assert (Hgt : (MSG_BATCH_SIZE < len)%nat).
    { rewrite Hlen. destruct (Nat.lt_ge_cases MSG_BATCH_SIZE (length (auto_seek_msgs it))); [done|].
      by rewrite drop_ge in Hd. }
    destruct (IH (len - MSG_BATCH_SIZE)%nat ltac:(unfold MSG_BATCH_SIZE in *; lia) it1
      ltac:(rewrite Hq1, length_drop, <- Hlen; done) (Hmore Hd))
      as (n & bs & it2 & Hcs & Hcat & -> & Hfor & Hn2 & Ho2 & Hq2 & Hu2 & Ha2).
    eexists (S _), (take MSG_BATCH_SIZE (auto_seek_msgs it) :: bs), it2. cbn [next_calls].
    rewrite Hc, Hcs. split; [done|]. cbn [concat]. rewrite Hcat, Hq1.
    split; [apply take_drop|]. split.
    { replace (len + MSG_BATCH_SIZE - 1)%nat
        with (len - MSG_BATCH_SIZE + MSG_BATCH_SIZE - 1 + 1 * MSG_BATCH_SIZE)%nat by lia.
      rewrite Nat.div_add by done. lia. }
    split; [by constructor|]. repeat split; congruence.
Qed.

(** Seeking again before the queue of an automatic seeking is returned does
    not work.  While [post_auto_seek_next] is the iterator's "next" callback, (1)
    an automatic seeking does not return, whatever the time and the fuel: it empties
    the queue, and then the callback's assertion that there is a message fails; and
    (2) seeking the beginning returns OK with the user's iterator at its
    beginning, but the next messages are still those of the old queue. *)
Theorem seeking_with_a_queue (it : iterator (W := W) (V := V)) w0 :
  has_queue it -> auto_seekable it w0 ->
  (forall ns fuel,
     bt_message_iterator_seek_ns_from_origin dev debug false true hash_order fuel it ns = None) /\
  (exists it', bt_message_iterator_seek_beginning dev false true it = Some (NextOk, it') /\
     user it' = w0 /\ state it' = ACTIVE /\
     (dev = false -> exists it2, bt_message_iterator_next dev debug false true it' =
        Some (NextOk, take MSG_BATCH_SIZE (auto_seek_msgs it), it2))).
Proof.
  intros Hq Has. split.
  - intros ns fuel. rewrite (seek_unfold dev debug hash_order _ _ _ w0 Has).
    destruct fuel as [|fuel]; [done|]. cbn [find_loop]. unfold call_iterator_next_method.
    unfold at_beginning. cbn [next]. by rewrite (hq_next _ Hq).
  - destruct Has as [Hno (can & Hcan & Hc) (seek & Hseek & Hs) Hfwd Hst].
    unfold bt_message_iterator_seek_beginning, message_iterator_can_seek_beginning,
      bt_message_iterator_can_seek_beginning, seek_pre, BT_ASSERT_PRE. rewrite Hst, Hcan, Hc, Hseek.
    cbn [negb orb]. rewrite (bool_decide_eq_true_2 (is_Some (Some true))) by (by eexists).
    rewrite orb_true_r. cbn [user set_user set_msg_iterator_state reset_iterator_expectations set_last_ns].
    rewrite Hs. unfold valid_seek_status. rewrite bool_decide_eq_false_2 by done. cbn [negb].
    eexists. split; [reflexivity|]. unfold clear_per_stream_state.
    split; [by destruct dev|]. split; [done|]. intros Hdev.
    match goal with |- context [bt_message_iterator_next _ _ _ _ ?i] =>
      destruct (next_of_queue i Hdev) as (it2 & Hn & _) end.
    { rewrite Hdev. destruct Hq. by constructor. }
    exists it2. rewrite Hn. by rewrite Hdev.
Qed.
End claims.

(** * Witnesses *)

(** A user's iterator which gives prepared batches, and can seek its beginning. *)
#[export] Instance ex_methods (all : list (list bt_message)) : UserMethods (list (list bt_message)) := {|
  user_next := fun w => match w with [] => (NextEnd, [], []) | b :: w => (NextOk, b, w) end;
  user_can_seek_beginning := Some (fun w => (NextOk, Some true, w));
  user_seek_beginning := Some (fun _ => (NextOk, all));
  user_can_seek_ns_from_origin := None;
  user_seek_ns_from_origin := None
|}.

(** A validator that accepts all messages. *)
#[export] Instance ex_validator : CorrelationValidator unit := {|
  bt_clock_correlation_validator_validate_message := fun v _ => Some v
|}.

(** A stream whose packets and discarded events have clock snapshots. *)
Definition ex_seek_trace : TraceIr := {|
  stream_class := fun _ => BtStreamClass 0 None true true true true true true false true false
    (Some (BtClockClass NS_PER_S 0 0 0 false true ex_attrs));
  packet_stream := fun _ => 1%positive
|}.
Definition ex_event (ns : Z) : bt_message := Event ex_ec 1%positive (Some 7%positive) (Some (ex_snapshot ns)).
Definition ex_skipped : list bt_message :=
  [StreamBeginning 1%positive (Some (ex_snapshot 1)) true; PacketBeginning 7%positive (Some (ex_snapshot 2))].
(** Discarded events from a time to 9. *)
Definition ex_discarded (ns : Z) (count : option Z) : bt_message :=
  DiscardedEvents 1%positive (Some (ex_snapshot ns)) (Some (ex_snapshot 9)) count.
Definition ex_tail : list bt_message :=
  [ex_event 10; PacketEnd 7%positive (Some (ex_snapshot 12));
   StreamEnd 1%positive (Some (ex_snapshot 13)) true].
Definition ex_batches : list (list bt_message) := [ex_skipped; ex_event 3 :: ex_discarded 4 (Some 5) :: ex_tail].

Definition ex_order (st : auto_seek_states) : list (bt_stream * auto_seek_stream_state) := map_to_list st.

(** The iterator has returned the first batch. *)
Definition ex_it : iterator (W := list (list bt_message)) (V := unit) :=
  BtMessageIterator ACTIVE 2 tt ∅ true UserNext [] None [ex_event 3 :: ex_discarded 4 (Some 5) :: ex_tail].

Definition ex_call (it : iterator (W := list (list bt_message)) (V := unit)) : iterator (W := list (list bt_message)) (V := unit) :=
  match call_iterator_next_method (H := ex_methods ex_batches) (H1 := ex_seek_trace) true true it with
  | Some (_, _, it) => it
  | None => it
  end.

Lemma ex_auto_seekable : auto_seekable (H := ex_methods ex_batches) ex_it ex_batches.
Proof. split; try reflexivity; eexists; split; reflexivity. Qed.

Definition ex_before : list bt_message := concat [ex_skipped] ++ [ex_event 3; ex_discarded 4 (Some 5)].

Lemma ex_discarded_events ns n : discarded_events_of (stream_class (TraceIr := ex_seek_trace) 1%positive) (ex_discarded ns n).
Proof. split; [by eexists _, _, _, _|done]. Qed.

Lemma ex_sequence : stream_sequence (stream_class (TraceIr := ex_seek_trace) 1%positive) (ex_before ++ ex_tail).
Proof.
  apply (StreamSequence _ _ _ _ _ _ _ [_; _; _; _; _]).
  apply (BodyPacket _ 7%positive _ _ [ex_event 3; ex_discarded 4 (Some 5); ex_event 10] []); [reflexivity| |constructor].
  constructor; [by left; eexists _, _, _|]. constructor; [right; apply ex_discarded_events|].
  constructor; [by left; eexists _, _, _|constructor].
Qed.

Lemma ex_follows_so_far : follows_rules_so_far (H := ex_seek_trace) ex_before.
Proof.
  intros s. destruct (decide (s = 1%positive)) as [-> |Hne].
  - exists ex_tail. split; [reflexivity|].
    exact ex_sequence.
  - rewrite (of_stream_other (H1 := ex_seek_trace) s 1%positive) by done.
    destruct (phase_completes (H := ex_seek_trace) s Ready I) as (rest & Hr & Hs).
    exists rest. split; [done|]. by apply sequence_run.
Qed.

Lemma ex_convertible s : convertible (H1 := ex_seek_trace) true 8 s.
Proof. do 3 eexists. repeat (split; [reflexivity|]). reflexivity. Qed.

Lemma ex_at_time ns : at_time (ex_snapshot ns) ns.
Proof. by repeat split. Qed.

Lemma ex_cut : cut_at true 8 (ex_discarded 4 (Some 5)) (ex_discarded 8 None).
Proof.
  constructor. split; [exists 4, 9; repeat split; by try apply ex_at_time|]. exists 8. by split.
Qed.

Lemma ex_announced cs : announced true (Some (ex_snapshot cs)).
Proof. split; [done|by eexists]. Qed.

Lemma ex_left : left_from (H1 := ex_seek_trace) true 8 ex_before [ex_discarded 8 None].
Proof.
  assert (Hi : forall ns, ns < 8 -> exists t, at_time (ex_snapshot ns) t /\ t < 8)
    by (intros ns ?; by exists ns).
  apply LeftSkip; [by eexists|by apply Hi|]. apply LeftSkip; [apply ex_announced|by apply Hi|].
  apply LeftSkip; [by eexists|by apply Hi|].
  apply LeftCut; [split; apply ex_announced|apply ex_cut|constructor].
Qed.

(** The cut message is the last one. *)
Lemma ex_cuts_come_last : cuts_come_last (H1 := ex_seek_trace) true 8 ex_before.
Proof.
  intros l1 m m' l2 x E Hcut Hx Hb. exfalso.
  repeat (destruct l1 as [|? l1]; simpl in E; injection E as E1 E; subst; try (inversion Hcut; fail)).
  all: try (by inversion Hx); destruct l1; done.
Qed.

Lemma auto_seek_delivers_witness :
  exists it' restore,
    bt_message_iterator_seek_ns_from_origin (H := ex_methods ex_batches) (H1 := ex_seek_trace)
      true true false true ex_order 2 ex_it 8 = Some (NextOk, it') /\
    state it' = ACTIVE /\ auto_seek_msgs it' = restore ++ ex_discarded 8 None :: ex_tail /\
    Forall is_beginning restore /\
    follows_rules (H := ex_seek_trace) (restore ++ ex_discarded 8 None :: ex_tail).
Proof.
  set (it0 := at_beginning true ex_it ex_batches).
  destruct (auto_seek_delivers (H := ex_methods ex_batches) (H1 := ex_seek_trace) true true ex_order 8 ex_it ex_batches [ex_skipped] (ex_call it0) [ex_event 3; ex_discarded 4 (Some 5)] ex_tail
    (ex_call (ex_call it0)) [ex_discarded 8 None] 2) as (it' & restore & Hs & Ha & _ & _ & Hq & Hb & _ & Hr).
  - exact ex_auto_seekable.
  - reflexivity.
  - reflexivity.
  - reflexivity.
  - eapply DeliversCons; [vm_compute; reflexivity|by apply Nat.leb_le|constructor].
  - left. do 2 eexists. split; [reflexivity|]. split; [by apply Nat.leb_le|].
    split; [by eexists|]. split; [by exists 10|vm_compute; reflexivity].
  - simpl. lia.
  - exact ex_left.
  - exact ex_follows_so_far.
  - intros s _. apply ex_convertible.
  - exists it', restore. repeat (split; [assumption|]).
    change (restore ++ ex_discarded 8 None :: ex_tail) with (restore ++ [ex_discarded 8 None] ++ ex_tail).
    rewrite <- (app_nil_r ex_tail). apply (Hr ex_cuts_come_last []). rewrite app_nil_r. intros s Hne.
    destruct (decide (s = 1%positive)) as [-> |Hs1].
    + exact ex_sequence.
    + exfalso. apply Hne. by rewrite (of_stream_other (H1 := ex_seek_trace) s 1%positive).
Defined.

(** A stream which ends without a known time after discarded events that the
    seeking cuts: its state is dropped by its end message, so the queue has the
    discarded events message of a stream that did not begin. *)
Definition ex_cut_batches : list (list bt_message) :=
  [[StreamBeginning 1%positive None false; ex_discarded 4 (Some 5); StreamEnd 1%positive None false]].

Theorem cut_then_stream_end :
  follows_rules (H := ex_seek_trace) (concat ex_cut_batches) /\
  exists it', bt_message_iterator_seek_ns_from_origin (H := ex_methods ex_cut_batches) (H1 := ex_seek_trace)
      true true false true ex_order 2 ex_it 8 = Some (NextOk, it') /\
    auto_seek_msgs it' = [ex_discarded 8 None] /\ user it' = [] /\
    ~ follows_rules_so_far (H := ex_seek_trace) (auto_seek_msgs it').
Proof.
  split.
  - intros s Hne. destruct (decide (s = 1%positive)) as [-> |Hs].
    + apply (StreamSequence _ _ _ _ _ _ _ [_]), BodyDiscardedEvents; [apply ex_discarded_events|constructor].
    + exfalso. apply Hne. by rewrite (of_stream_other (H1 := ex_seek_trace) s 1%positive).
  - eexists. split; [vm_compute; reflexivity|]. split; [reflexivity|]. split; [reflexivity|].
    intros Hf. destruct (Hf 1%positive) as (rest & _ & Hseq). by apply sequence_run in Hseq.
Qed.

(** The same iterator with a queue of 17 messages. *)
Definition ex_queue_it : iterator (W := list (list bt_message)) (V := unit) :=
  BtMessageIterator ACTIVE 8 tt ∅ true PostAutoSeekNext
    (map (fun ns => ex_event (Z.of_nat ns)) (seq 10 17)) (Some UserNext) [].

Lemma ex_has_queue : has_queue ex_queue_it.
Proof. by split. Qed.

Lemma iterator_state_machine_witness :
  state (set_msg_iterator_state (set_user ex_it []) ENDED) = ENDED /\
  exists it', bt_message_iterator_seek_ns_from_origin (H := ex_methods ex_batches) (H1 := ex_seek_trace)
      false true false true ex_order 100 ex_it 8 = Some (NextOk, it') /\
    sought_state NextOk (state it').
Proof.
  pose proof (iterator_state_machine (H := ex_methods ex_batches) (H1 := ex_seek_trace) false true ex_order) as M.
  split.
  - assert (E : bt_message_iterator_next (H := ex_methods ex_batches) (H1 := ex_seek_trace) false true
      false true (set_user ex_it []) =
      Some (NextEnd, [], set_msg_iterator_state (set_user ex_it []) ENDED)) by reflexivity.
    apply M in E as (_ & E & _). exact E.
  - destruct (bt_message_iterator_seek_ns_from_origin (H := ex_methods ex_batches) (H1 := ex_seek_trace)
      false true false true ex_order 100 ex_it 8) as [[st it']|] eqn:E; [|vm_compute in E; discriminate].
    assert (st = NextOk) as -> by (vm_compute in E; congruence).
    exists it'. split; [reflexivity|]. exact (proj2 (proj2 (proj2 (M _ it' _ _)) _ _ _ E)).
Defined.

Lemma auto_seek_queue_is_returned_witness :
  has_queue ex_queue_it /\
  exists bs it', next_calls (H := ex_methods ex_batches) (H1 := ex_seek_trace) false true 2 ex_queue_it = Some (bs, it') /\
    concat bs = auto_seek_msgs ex_queue_it /\ next it' = UserNext.
Proof.
  split; [exact ex_has_queue|].
  destruct (auto_seek_queue_is_returned (H := ex_methods ex_batches) (H1 := ex_seek_trace) false true ex_queue_it eq_refl ex_has_queue) as (n & bs & it' & Hc & Hcat & Hn & _ & Hu & _).
  vm_compute in Hn. subst n. by exists bs, it'.
Defined.

Lemma seeking_with_a_queue_witness :
  bt_message_iterator_seek_ns_from_origin (H := ex_methods ex_batches) (H1 := ex_seek_trace)
    true true false true ex_order 100 ex_queue_it 8 = None.
Proof.
  apply (seeking_with_a_queue (H := ex_methods ex_batches) (H1 := ex_seek_trace) true true ex_order ex_queue_it ex_batches).
  - exact ex_has_queue.
  - split; try reflexivity; eexists; split; reflexivity.
Defined.
