(* ===== verification/Upstream.v ===== *)
(** Upstream message iterators: what a component calls on the message iterators of
    its input ports, as classes, and what they give.  The functions of the library
    ([Iterator]) are instances; [Muxer] and [Trimmer] are clients. *)

From stdpp Require Import list.
From S2P Require Import Prelude Clock Msg MsgSeq ClockCorr Iterator.

(** [bt_message_iterator_next] and "seek beginning".  "Can seek" gives a boolean
    with the status OK. *)
Class UpstreamIterator (U : Type) := {
  upstream_next : U -> option (next_status * list bt_message * U);
  upstream_can_seek_beginning : U -> option (next_status * option bool * U);
  upstream_seek_beginning : U -> option (next_status * U)
}.

(** Seeking a time. *)
Class SeekableUpstream (U : Type) `{UpstreamIterator U} := {
  upstream_can_seek_ns_from_origin : U -> Z -> option (next_status * option bool * U);
  upstream_seek_ns_from_origin : U -> Z -> option (next_status * U)
}.

Section yields.
Context {U : Type} `{UpstreamIterator U}.

(** The message iterator [u] gives the messages [l], in non-empty batches, with [n]
    times AGAIN among them, then END. *)
Inductive yields : U -> list bt_message -> nat -> Prop :=
| YieldsEnd u msgs u' : upstream_next u = Some (NextEnd, msgs, u') -> yields u [] 0
| YieldsOk u b u' l n :
    upstream_next u = Some (NextOk, b, u') -> b <> [] -> yields u' l n -> yields u (b ++ l) n
| YieldsAgain u msgs u' l n :
    upstream_next u = Some (NextAgain, msgs, u') -> yields u' l n -> yields u l (S n).
End yields.

(** * Message iterators of the library *)

Section iterators.
Context {W V : Type} `{UserMethods W} `{CorrelationValidator V} `{TraceIr}.

(** The functions of the library that the bindings call; no error is pending and the
    graph is configured. *)
Definition iterator_upstream (dev debug : bool) : UpstreamIterator (bt_message_iterator W V) := {|
  upstream_next := bt_message_iterator_next dev debug false true;
  upstream_can_seek_beginning := bt_message_iterator_can_seek_beginning false true;
  upstream_seek_beginning := bt_message_iterator_seek_beginning dev false true
|}.

Definition iterator_seekable (dev debug : bool)
    (hash_order : auto_seek_states -> list (bt_stream * auto_seek_stream_state)) (fuel : nat)
    : @SeekableUpstream (bt_message_iterator W V) (iterator_upstream dev debug) := {|
  upstream_can_seek_ns_from_origin := bt_message_iterator_can_seek_ns_from_origin false true;
  upstream_seek_ns_from_origin :=
    bt_message_iterator_seek_ns_from_origin dev debug false true hash_order fuel
|}.

(** What the user's "next" method returns. *)
Inductive user_yields : W -> list bt_message -> nat -> Prop :=
| UserYieldsEnd w msgs w' : user_next w = (NextEnd, msgs, w') -> user_yields w [] 0
| UserYieldsOk w b w' l n :
    user_next w = (NextOk, b, w') -> b <> [] -> user_yields w' l n -> user_yields w (b ++ l) n
| UserYieldsAgain w msgs w' l n :
    user_next w = (NextAgain, msgs, w') -> user_yields w' l n -> user_yields w l (S n).

(** An active message iterator gives the messages that its user's method gives. *)
Lemma iterator_yields debug w l n :
  user_yields w l n -> forall it : bt_message_iterator W V,
  user it = w -> next it = UserNext -> state it = ACTIVE ->
  yields (H := iterator_upstream false debug) it l n.
Proof.
  assert (Hnext : forall (it : bt_message_iterator W V) st b w',
    next it = UserNext -> state it = ACTIVE -> user_next (user it) = (st, b, w') ->
    st <> NextError -> st <> NextMemoryError ->
    bt_message_iterator_next false debug false true it =
      Some match st with
           | NextOk => (st, b, set_user it w')
           | NextEnd => (st, [], set_msg_iterator_state (set_user it w') ENDED)
           | _ => (st, [], set_user it w')
           end).
  { intros it st b w' Hn Hs Hu ??. unfold bt_message_iterator_next, BT_ASSERT_PRE_DEV, BT_ASSERT_DBG,
      call_iterator_next_method, check_messages. rewrite Hn, Hu. simpl. rewrite Hs. simpl.
    rewrite andb_false_r. by destruct st. }
  induction 1 as [w msgs w' Hu|w b w' l n Hu Hb _ IH|w msgs w' l n Hu _ IH]; intros it <- Hn Hs.
  - eapply YieldsEnd. simpl. by rewrite (Hnext _ _ _ _ Hn Hs Hu).
  - eapply (YieldsOk _ b (set_user it w')); [|done|by apply IH]. simpl. by rewrite (Hnext _ _ _ _ Hn Hs Hu).
  - eapply (YieldsAgain _ [] (set_user it w')); [|by apply IH]. simpl. by rewrite (Hnext _ _ _ _ Hn Hs Hu).
Qed.
End iterators.
