(* ===== verification/Muxer.v ===== *)
(** The message iterator of the muxer component, [src/src/plugins/utils/muxer]
    ([upstream-msg-iter.cpp], [.hpp], [msg-iter.cpp], [.hpp]), with the part of
    the C++ bindings that turns exceptions into statuses
    ([src/src/cpp-common/bt2/component-class-dev.hpp],
    [internal/comp-cls-bridge.hpp], [message-iterator.hpp]).

    The muxer merges the messages of its upstream message iterators by time: a
    heap ([PrioHeap]) holds those that have a current message, compared by time
    and then by [Muxing.compare], and a list holds those to reload.  What it uses
    of a message iterator is class [UpstreamIterator] of [Upstream].  A pointer to
    an upstream message iterator wrapper is its index.  A function returns the new
    state and a value or an exception; [None] is an abort. *)

From stdpp Require Import list.
From Stdlib Require Import Sorted.
From S2P Require Import Prelude Clock Msg MsgSeq ClockCorr PrioHeap Muxing Iterator Upstream.

Inductive exc := TryAgain | Error | MemoryError.

(** The exception that the bindings throw for a status that is not OK or END. *)
Definition exc_of_status (status : next_status) : option exc :=
  match status with
  | NextAgain => Some TryAgain
  | NextError => Some Error
  | NextMemoryError => Some MemoryError
  | _ => None
  end.

Inductive ReloadStatus := More | NoMore.

Record UpstreamMsgIter (U : Type) := MkUpstreamMsgIter {
  _mMsgIter : U;
  _msgs : option (list bt_message);
  _index : nat;
  _mMsgTs : option Z;
  _mDiscardRequired : bool
}.
Arguments MkUpstreamMsgIter {U}. Arguments _mMsgIter {U}. Arguments _msgs {U}.
Arguments _index {U}. Arguments _mMsgTs {U}. Arguments _mDiscardRequired {U}.

(** [_ExcToThrowType] of [UserMessageIterator]. *)
Inductive exc_to_throw := ExcNone | ExcError | ExcMemError.

(** [MsgIter]; the last member is of its base class. *)
Record MsgIter (U : Type) := MkMsgIter {
  _mUpstreamMsgIters : list (UpstreamMsgIter U);
  _mHeap : list nat;
  _mUpstreamMsgItersToReload : list nat;
  _mClkCorrValidator : ClockCorrelationValidator;
  _mExcToThrowType : exc_to_throw
}.
Arguments MkMsgIter {U}. Arguments _mUpstreamMsgIters {U}. Arguments _mHeap {U}.
Arguments _mUpstreamMsgItersToReload {U}. Arguments _mClkCorrValidator {U}.
Arguments _mExcToThrowType {U}.

Section muxer.
Context {U : Type} `{UpstreamIterator U} `{TraceIr} `{StreamIr}.
Context (dev debug : bool) (graphMipVersion : Z).

(** * An upstream message iterator *)

Definition new_upstream (u : U) : UpstreamMsgIter U := MkUpstreamMsgIter u None 0 None false.

(** The current message. *)
Definition cur_msg (it : UpstreamMsgIter U) : option bt_message :=
  do ms <- _msgs it;
  ms !! _index it.

Definition discard (it : UpstreamMsgIter U) : option (UpstreamMsgIter U) :=
  do ms <- _msgs it;
  BT_ASSERT_DBG debug (_index it <? length ms)%nat
    (BT_ASSERT_DBG debug (_mDiscardRequired it)
      (let index := S (_index it) in
       Some (MkUpstreamMsgIter (_mMsgIter it)
         (if (index =? length ms)%nat then None else Some ms) index (_mMsgTs it) false))).

(** The clock snapshot of a message, possibly missing; a message without the
    snapshot that its stream class says aborts. *)
Definition msgCs (msg : bt_message) : option (option bt_clock_snapshot) :=
  let snapshot (have : bool) (cs : option bt_clock_snapshot) :=
    if have then do cs <- cs; Some (Some cs) else Some None in
  let has_clock s := bool_decide (is_Some (default_clock_class (stream_class s))) in
  match msg with
  | Event _ s _ cs => snapshot (has_clock s) cs
  | PacketBeginning p cs =>
    snapshot (packets_have_beginning_default_clock_snapshot (stream_class (packet_stream p))) cs
  | PacketEnd p cs =>
    snapshot (packets_have_end_default_clock_snapshot (stream_class (packet_stream p))) cs
  | DiscardedEvents s cs _ _ =>
    snapshot (discarded_events_have_default_clock_snapshots (stream_class s)) cs
  | DiscardedPackets s cs _ _ =>
    snapshot (discarded_packets_have_default_clock_snapshots (stream_class s)) cs
  | MessageIteratorInactivity cs => Some (Some cs)
  | StreamBeginning s cs known | StreamEnd s cs known =>
    do cs <- snapshot (has_clock s) cs;
    Some (if known then cs else None)
  end.

(** [_tryGetNewMsgs]: there is no batch. *)
Definition _tryGetNewMsgs (it : UpstreamMsgIter U) : option (UpstreamMsgIter U * option exc) :=
  do r <- upstream_next (_mMsgIter it);
  let '(status, msgs, u) := r in
  Some
    match status with
    | NextOk => (MkUpstreamMsgIter u (Some msgs) 0 (_mMsgTs it) (_mDiscardRequired it), None)
    | NextEnd => (MkUpstreamMsgIter u None (_index it) (_mMsgTs it) (_mDiscardRequired it), None)
    | _ => (MkUpstreamMsgIter u None (_index it) (_mMsgTs it) (_mDiscardRequired it),
            exc_of_status status)
    end.

(** The second part of [reload], with the messages: caches the time. *)
Definition reload_time (it : UpstreamMsgIter U) : option (UpstreamMsgIter U * (ReloadStatus + exc)) :=
  match _msgs it with
  | None =>
    Some (MkUpstreamMsgIter (_mMsgIter it) None (_index it) None (_mDiscardRequired it), inl NoMore)
  | Some ms =>
    let ready ts := (MkUpstreamMsgIter (_mMsgIter it) (Some ms) (_index it) ts true, inl More) in
    do m <- cur_msg it;
    do cs <- msgCs m;
    match cs with
    | Some cs =>
      do r <- bt_clock_snapshot_get_ns_from_origin debug cs 0;
      match r with
      | (ClockOk, ts) => Some (ready (Some ts))
      | (ClockOverflowError, _) => Some (it, inr Error)
      end
    | None => Some (ready None)
    end
  end.

Definition reload (it : UpstreamMsgIter U) : option (UpstreamMsgIter U * (ReloadStatus + exc)) :=
  BT_ASSERT_DBG debug (negb (_mDiscardRequired it))
    match _msgs it with
    | None =>
      do r <- _tryGetNewMsgs it;
      match r with
      | (it, Some e) => Some (it, inr e)
      | (it, None) => reload_time it
      end
    | Some _ => reload_time it
    end.

Definition seekBeginning (it : UpstreamMsgIter U) : option (UpstreamMsgIter U * option exc) :=
  do r <- upstream_seek_beginning (_mMsgIter it);
  let '(status, u) := r in
  match status with
  | NextOk => Some (MkUpstreamMsgIter u None (_index it) None false, None)
  | NextEnd => None
  | _ => Some (MkUpstreamMsgIter u (_msgs it) (_index it) (_mMsgTs it) (_mDiscardRequired it),
               exc_of_status status)
  end.

(** * The heap's comparator *)

Definition compare_ts (msgTsA msgTsB : option Z) : comparison :=
  match msgTsA, msgTsB with
  | Some a, Some b => if a <? b then Lt else if b <? a then Gt else Eq
  | Some _, None => Gt
  | None, Some _ => Lt
  | None, None => Eq
  end.

(** Whether the current message of [a] is before the one of [b]. *)
Definition _HeapComparator (its : list (UpstreamMsgIter U)) (a b : nat) : option bool :=
  do itA <- its !! a;
  do itB <- its !! b;
  do msgA <- cur_msg itA;
  do msgB <- cur_msg itB;
  match compare_ts (_mMsgTs itA) (_mMsgTs itB) with
  | Lt => Some true
  | Gt => Some false
  | Eq => do res <- compare debug graphMipVersion msgA msgB; Some (res <? 0)
  end.

(** * Getting messages *)

Definition set_upstream (st : MsgIter U) (i : nat) (it : UpstreamMsgIter U) : MsgIter U :=
  MkMsgIter (<[i := it]> (_mUpstreamMsgIters st)) (_mHeap st) (_mUpstreamMsgItersToReload st)
    (_mClkCorrValidator st) (_mExcToThrowType st).
Definition set_heap (st : MsgIter U) (h : list nat) : MsgIter U :=
  MkMsgIter (_mUpstreamMsgIters st) h (_mUpstreamMsgItersToReload st) (_mClkCorrValidator st)
    (_mExcToThrowType st).
Definition set_to_reload (st : MsgIter U) (l : list nat) : MsgIter U :=
  MkMsgIter (_mUpstreamMsgIters st) (_mHeap st) l (_mClkCorrValidator st) (_mExcToThrowType st).
Definition set_clk_validator (st : MsgIter U) (v : ClockCorrelationValidator) : MsgIter U :=
  MkMsgIter (_mUpstreamMsgIters st) (_mHeap st) (_mUpstreamMsgItersToReload st) v
    (_mExcToThrowType st).
Definition set_exc (st : MsgIter U) (e : exc_to_throw) : MsgIter U :=
  MkMsgIter (_mUpstreamMsgIters st) (_mHeap st) (_mUpstreamMsgItersToReload st)
    (_mClkCorrValidator st) e.

(** The loop on the message iterators to reload, which are [_mUpstreamMsgItersToReload]. *)
Fixpoint ensure_loop (todo : list nat) (st : MsgIter U) : option (MsgIter U * option exc) :=
  match todo with
  | [] => Some (set_to_reload st [], None)
  | i :: todo' =>
    do it <- _mUpstreamMsgIters st !! i;
    do r <- reload it;
    let '(it, res) := r in
    let st := set_upstream st i it in
    match res with
    | inl More =>
      do h <- PrioHeap.insert debug 0%nat (_HeapComparator (_mUpstreamMsgIters st)) (_mHeap st) i;
      ensure_loop todo' (set_heap st h)
    | inl NoMore => ensure_loop todo' st
    | inr e => Some (set_to_reload st todo, Some e)
    end
  end.

Definition _ensureFullHeap (st : MsgIter U) : option (MsgIter U * option exc) :=
  ensure_loop (_mUpstreamMsgItersToReload st) st.

(** The messages that [_validateMsgClkCls] validates are those the validator looks
    at; its errors are thrown as [bt2::Error]. *)
Definition _validateMsgClkCls (st : MsgIter U) (msg : bt_message) : option (MsgIter U * option exc) :=
  do r <- validate dev graphMipVersion (_mClkCorrValidator st) msg;
  Some match r with
       | inl v => (set_clk_validator st v, None)
       | inr _ => (st, Some Error)
       end.

(** The loop of [_next]; [space] is the space left in [msgs]. *)
Fixpoint next_loop (space : nat) (st : MsgIter U) (msgs : list bt_message)
    : option (MsgIter U * list bt_message * option exc) :=
  match space with
  | O => Some (st, msgs, None)
  | S space =>
    if bool_decide (_mHeap st = []) then Some (st, msgs, None)
    else
      do i <- top debug (_HeapComparator (_mUpstreamMsgIters st)) (_mHeap st);
      do oldest <- _mUpstreamMsgIters st !! i;
      do msg <- cur_msg oldest;
      do r <- _validateMsgClkCls st msg;
      match r with
      | (st, Some e) => Some (st, msgs, Some e)
      | (st, None) =>
        let msgs := msgs ++ [msg] in
        do oldest <- discard oldest;
        do r <- reload oldest;
        let '(oldest, res) := r in
        let st := set_upstream st i oldest in
        let gt := _HeapComparator (_mUpstreamMsgIters st) in
        match res with
        | inl More =>
          do h <- replaceTop debug gt (_mHeap st) i;
          next_loop space (set_heap st h) msgs
        | inl NoMore =>
          do h <- removeTop debug gt (_mHeap st);
          next_loop space (set_heap st h) msgs
        | inr TryAgain =>
          do h <- removeTop debug gt (_mHeap st);
          Some (set_to_reload (set_heap st h) (_mUpstreamMsgItersToReload st ++ [i]), msgs,
                Some TryAgain)
        | inr e => Some (st, msgs, Some e)
        end
      end
  end.

Definition _next (capacity : nat) (st : MsgIter U) : option (MsgIter U * list bt_message * option exc) :=
  do r <- _ensureFullHeap st;
  match r with
  | (st, Some e) => Some (st, [], Some e)
  | (st, None) => next_loop capacity st []
  end.

Definition status_of_exc (e : exc) : next_status :=
  match e with TryAgain => NextAgain | Error => NextError | MemoryError => NextMemoryError end.

(** [UserMessageIterator::next] within the bridge's [next]: an exception is only
    reported when there are no messages to return, and an error is otherwise saved
    for the next call. *)
Definition muxer_next (capacity : nat) (st : MsgIter U)
    : option (next_status * list bt_message * MsgIter U) :=
  match _mExcToThrowType st with
  | ExcError => Some (NextError, [], st)
  | ExcMemError => Some (NextMemoryError, [], st)
  | ExcNone =>
    do r <- _next capacity st;
    let '(st, msgs, e) := r in
    match e with
    | None => Some (if bool_decide (msgs = []) then NextEnd else NextOk, msgs, st)
    | Some e =>
      if bool_decide (msgs = []) then Some (status_of_exc e, [], st)
      else
        Some (NextOk, msgs,
              match e with
              | TryAgain => st
              | MemoryError => set_exc st ExcMemError
              | Error => set_exc st ExcError
              end)
    end
  end.

(** * Seeking the beginning *)

(** The loop on the upstream message iterators; the state has those that were
    sought when one throws. *)
Fixpoint seek_loop (its : list (UpstreamMsgIter U)) : option (list (UpstreamMsgIter U) * option exc) :=
  match its with
  | [] => Some ([], None)
  | it :: its =>
    do r <- seekBeginning it;
    match r with
    | (it, Some e) => Some (it :: its, Some e)
    | (it, None) =>
      do r <- seek_loop its;
      Some (it :: fst r, snd r)
    end
  end.

(** [seekBeginning] of the base class resets the saved error. *)
Definition muxer_seek_beginning (st : MsgIter U) : option (next_status * MsgIter U) :=
  do r <- seek_loop (_mUpstreamMsgIters st);
  let '(its, e) := r in
  Some
    match e with
    | None =>
      (NextOk, MkMsgIter its [] (seq 0 (length its)) (_mClkCorrValidator st) ExcNone)
    | Some e => (status_of_exc e, MkMsgIter its [] [] (_mClkCorrValidator st) ExcNone)
    end.

(** [_canSeekBeginning]: [std::all_of] stops at the first that cannot. *)
Fixpoint can_seek_loop (its : list (UpstreamMsgIter U))
    : option (list (UpstreamMsgIter U) * (bool + exc)) :=
  match its with
  | [] => Some ([], inl true)
  | it :: its =>
    do r <- upstream_can_seek_beginning (_mMsgIter it);
    let '(status, can_seek, u) := r in
    let it := MkUpstreamMsgIter u (_msgs it) (_index it) (_mMsgTs it) (_mDiscardRequired it) in
    match status with
    | NextOk =>
      do can_seek <- can_seek;
      if (can_seek : bool) then do r <- can_seek_loop its; Some (it :: fst r, snd r)
      else Some (it :: its, inl false)
    | NextEnd => None
    | _ => do e <- exc_of_status status; Some (it :: its, inr e)
    end
  end.

Definition muxer_can_seek_beginning (st : MsgIter U) : option (next_status * bool * MsgIter U) :=
  do r <- can_seek_loop (_mUpstreamMsgIters st);
  let st' := set_exc (MkMsgIter (fst r) (_mHeap st) (_mUpstreamMsgItersToReload st)
    (_mClkCorrValidator st) (_mExcToThrowType st)) ExcNone in
  Some match snd r with
       | inl b => (NextOk, b, st')
       | inr e => (status_of_exc e, false, st')
       end.

(** The constructor, with a message iterator per connected input port. *)
Definition new_msg_iter (us : list U) : MsgIter U :=
  MkMsgIter (map new_upstream us) [] (seq 0 (length us)) new_validator ExcNone.

End muxer.

(** * Specification: merging *)

(** The messages left of each upstream message iterator, by index. *)
Abbreviation remaining := (nat -> list bt_message).

Definition upd {A} (f : nat -> A) (i : nat) (v : A) : nat -> A :=
  fun j => if decide (j = i) then v else f j.

Section spec.
Context `{TraceIr} `{StreamIr}.
Context (mip : Z).

(** The time by which a message is sorted. *)
Definition msg_ts (m : bt_message) : option Z :=
  match msgCs m with
  | Some (Some cs) => if ns_from_origin_overflows cs then None else Some (ns_from_origin cs)
  | _ => None
  end.

(** The order of the merge: by time, a message without time first, then by
    [Muxing.order]. *)
Definition msg_order (a b : bt_message) : Z :=
  orelse (_compareLt_optional (msg_ts a) (msg_ts b)) (order mip a b).
Definition older (a b : bt_message) : bool := msg_order a b <? 0.

(** [k] sequences: at each step, the first message of one of them that no first
    message of another is older than. *)
Inductive merges (k : nat) : remaining -> list bt_message -> remaining -> Prop :=
| MergesNil rem : merges k rem [] rem
| MergesCons rem i m l out rem' :
    (i < k)%nat -> rem i = m :: l ->
    (forall j b l', (j < k)%nat -> rem j = b :: l' -> older b m = false) ->
    merges k (upd rem i l) out rem' -> merges k rem (m :: out) rem'.

(** A message that the muxer can sort. *)
Definition sortable (m : bt_message) : Prop :=
  msg_wf m /\ exists ocs, msgCs m = Some ocs /\
    forall cs, ocs = Some cs -> is_set cs = true /\ ns_from_origin_overflows cs = false.

Lemma msg_order_preorder : total_preorder msg_order.
Proof.
  apply (tp_lex (fun a b => _compareLt_optional (msg_ts a) (msg_ts b))).
  - apply (tp_proj msg_ts), tp_Lt_optional.
  - apply order_preorder.
Qed.

Lemma older_asym a b : older a b = true -> older b a = false.
Proof. unfold older. destruct msg_order_preorder as [Hs _]. specialize (Hs a b). lia. Qed.

Lemma older_trans a b c : older a b = false -> older b c = false -> older a c = false.
Proof.
  unfold older. destruct msg_order_preorder as [Hs Ht]. rewrite !Z.ltb_ge. intros.
  pose proof (Ht c b a). pose proof (Hs a b). pose proof (Hs b c). pose proof (Hs a c). lia.
Qed.

(** A message that is not after a message with a time has a time, not before it. *)
Lemma older_ts a b t :
  older b a = false -> msg_ts a = Some t -> exists t', msg_ts b = Some t' /\ t <= t'.
Proof.
  unfold older, msg_order. intros Ho Ha. rewrite Ha in Ho. destruct (msg_ts b) as [t'|]; [|done].
  exists t'. split; [done|]. unfold _compareLt_optional, _compareLt, orelse in Ho.
  destruct (Z.ltb_spec t' t); [done|lia].
Qed.

(** ** What a merge delivers *)

Lemma upd_eq {A} (f : nat -> A) i v : upd f i v i = v.
Proof. unfold upd. by rewrite decide_True. Qed.
Lemma upd_ne {A} (f : nat -> A) i j v : j <> i -> upd f i v j = f j.
Proof. intros. unfold upd. by rewrite decide_False. Qed.

Lemma merges_app k rem out rem' out' rem'' :
  merges k rem out rem' -> merges k rem' out' rem'' -> merges k rem (out ++ out') rem''.
Proof. induction 1; simpl; eauto using merges. Qed.

(** All messages of the sequences from 0 to [k - 1]. *)
Definition all_of (k : nat) (rem : remaining) : list bt_message := concat (map rem (seq 0 k)).

Lemma all_of_upd k rem i m l :
  (i < k)%nat -> rem i = m :: l -> all_of k rem ≡ₚ m :: all_of k (upd rem i l).
Proof.
  intros Hi Hm. unfold all_of. assert (Hs : seq 0 k = seq 0 i ++ i :: seq (S i) (k - S i)).
  { replace k with (i + S (k - S i))%nat at 1 by lia. rewrite seq_app. simpl. done. }
  rewrite Hs, !map_app, !concat_app. simpl. rewrite Hm, upd_eq.
  rewrite (map_ext_in (upd rem i l) rem (seq 0 i)), (map_ext_in (upd rem i l) rem (seq (S i) _)).
  - simpl. symmetry. apply Permutation_middle.
  - intros j Hj%in_seq. apply upd_ne. lia.
  - intros j Hj%in_seq. apply upd_ne. lia.
Qed.

Lemma merges_perm k rem out rem' : merges k rem out rem' -> all_of k rem ≡ₚ out ++ all_of k rem'.
Proof.
  induction 1 as [|rem i m l out rem' Hi Hm _ _ IH]; [done|].
  rewrite (all_of_upd k rem i m l Hi Hm), IH. done.
Qed.

(** Times never go back, when they never do in each sequence. *)
Lemma merges_times k rem out rem' :
  merges k rem out rem' ->
  (forall i, (i < k)%nat -> StronglySorted Z.le (omap msg_ts (rem i))) ->
  StronglySorted Z.le (omap msg_ts out) /\
  forall lo, (forall i, (i < k)%nat -> Forall (Z.le lo) (omap msg_ts (rem i))) ->
    Forall (Z.le lo) (omap msg_ts out).
Proof.
  induction 1 as [|rem i m l out rem' Hi Hm Hmin _ IH]; intros Hs.
  { split; constructor. }
  assert (Hsl : StronglySorted Z.le (omap msg_ts (m :: l))) by (rewrite <- Hm; by apply Hs).
  assert (Hs' : forall j, (j < k)%nat -> StronglySorted Z.le (omap msg_ts (upd rem i l j))).
  { intros j Hj. destruct (decide (j = i)) as [-> |Hne]; [|rewrite upd_ne by done; by apply Hs].
    rewrite upd_eq. simpl in Hsl. destruct (msg_ts m); [by inversion Hsl|done]. }
  destruct (IH Hs') as [Hso Hlo]. clear IH.
  assert (Hfor : forall lo, (forall j, (j < k)%nat -> Forall (Z.le lo) (omap msg_ts (rem j))) ->
    forall j, (j < k)%nat -> Forall (Z.le lo) (omap msg_ts (upd rem i l j))).
  { intros lo Hall j Hj. destruct (decide (j = i)) as [-> |Hne]; [|rewrite upd_ne by done; by apply Hall].
    rewrite upd_eq. specialize (Hall i Hi). rewrite Hm in Hall. simpl in Hall.
    destruct (msg_ts m); [by apply Forall_cons_1 in Hall as [_ ?]|done]. }
  simpl. destruct (msg_ts m) as [t|] eqn:Ht; [|split; [done|auto]].
  split.
  - constructor; [done|]. apply Hlo. apply Hfor. intros j Hj.
    destruct (rem j) as [|b lj] eqn:Hb; [constructor|].
    destruct (older_ts m b t (Hmin j b lj Hj Hb) Ht) as (t' & Hbt & Hle).
    specialize (Hs j Hj). rewrite Hb in Hs. simpl in Hs |- *. rewrite Hbt in Hs |- *.
    inversion Hs as [|? ? Hs1 Hf1]; subst. constructor; [done|].
    eapply Forall_impl; [exact Hf1|]. intros x ?. simpl in *. lia.
  - intros lo Hall. pose proof (Hall i Hi) as Hmi. rewrite Hm in Hmi. simpl in Hmi. rewrite Ht in Hmi.
    apply Forall_cons_1 in Hmi as [? _]. constructor; auto.
Qed.

(** The messages that satisfy [Q] come from one sequence: they keep their order. *)
Lemma merges_filter k rem out rem' (Q : bt_message -> Prop) `{forall m, Decision (Q m)} i :
  merges k rem out rem' -> (i < k)%nat ->
  (forall j, (j < k)%nat -> j <> i -> Forall (fun m => ~ Q m) (rem j)) ->
  filter Q (rem i) = filter Q out ++ filter Q (rem' i).
Proof.
  induction 1 as [|rem j m l out rem' Hj Hm _ _ IH]; intros Hi Hothers; [done|].
  assert (Hothers' : forall j', (j' < k)%nat -> j' <> i -> Forall (fun m => ~ Q m) (upd rem j l j')).
  { intros j' Hj' Hne. destruct (decide (j' = j)) as [-> |]; [|rewrite upd_ne by done; auto].
    rewrite upd_eq. specialize (Hothers j Hj Hne). rewrite Hm in Hothers.
    by apply Forall_cons_1 in Hothers as [_ ?]. }
  specialize (IH Hi Hothers'). destruct (decide (j = i)) as [-> |Hne].
  - rewrite upd_eq in IH. rewrite Hm, !filter_cons, IH. by destruct (decide (Q m)).
  - rewrite upd_ne in IH by done. rewrite IH. specialize (Hothers j Hj Hne). rewrite Hm in Hothers.
    apply Forall_cons_1 in Hothers as [Hq _]. by rewrite (filter_cons_False Q m out).
Qed.
End spec.

(** * The muxer implements merging *)

Section impl.
Context {U : Type} `{UpstreamIterator U} `{TraceIr} `{StreamIr}.
Context (dev debug : bool) (mip : Z) (mip_nonneg : 0 <= mip).

(** ** One upstream message iterator *)

(** With a current message. *)
Definition ready (it : UpstreamMsgIter U) (l : list bt_message) (n : nat) : Prop :=
  exists ms m l' , _msgs it = Some ms /\ ms !! _index it = Some m /\ _mMsgTs it = msg_ts m /\
    _mDiscardRequired it = true /\ l = drop (_index it) ms ++ l' /\ yields (_mMsgIter it) l' n.

(** To reload. *)
Definition waiting (it : UpstreamMsgIter U) (l : list bt_message) (n : nat) : Prop :=
  _mDiscardRequired it = false /\
  match _msgs it with
  | Some ms => exists l', (_index it < length ms)%nat /\ l = drop (_index it) ms ++ l' /\
                 yields (_mMsgIter it) l' n
  | None => yields (_mMsgIter it) l n
  end.

Lemma ready_head it l n :
  ready it l n -> exists m l0, l = m :: l0 /\ cur_msg it = Some m /\ _mMsgTs it = msg_ts m.
Proof.
  intros (ms & m & l' & Hms & Hm & Hts & _ & -> & _). unfold cur_msg. rewrite Hms, Hm.
  exists m, (drop (S (_index it)) ms ++ l'). by rewrite (drop_S _ _ _ Hm).
Qed.

Lemma discard_ok it m l n :
  ready it (m :: l) n -> exists it', discard debug it = Some it' /\ waiting it' l n.
Proof.
  intros (ms & m' & l' & Hms & Hm & _ & Hd & Hl & Hy). unfold discard, BT_ASSERT_DBG. rewrite Hms, Hd.
  pose proof (lookup_lt_Some _ _ _ Hm) as Hlt. rewrite (proj2 (Nat.ltb_lt _ _)) by done.
  cbn [negb]. rewrite !andb_false_r. eexists. split; [reflexivity|]. split; [done|].
  rewrite (drop_S _ _ _ Hm) in Hl. simpl in Hl. injection Hl as -> ->.
  cbn [_msgs _index _mMsgIter]. destruct (Nat.eqb_spec (S (_index it)) (length ms)).
  - by rewrite drop_ge by lia.
  - exists l'. split; [lia|done].
Qed.

Lemma reload_time_ok it ms m l' n :
  _msgs it = Some ms -> ms !! _index it = Some m -> sortable m -> yields (_mMsgIter it) l' n ->
  exists it', reload_time debug it = Some (it', inl More) /\ ready it' (drop (_index it) ms ++ l') n.
Proof.
  intros Hms Hm (_ & ocs & Hcs & Hset) Hy. unfold reload_time, cur_msg. rewrite Hms, Hm, Hcs.
  destruct ocs as [cs|].
  - destruct (Hset cs eq_refl) as [Hs Ho]. unfold bt_clock_snapshot_get_ns_from_origin, BT_ASSERT_DBG.
    rewrite Hs, Ho, andb_false_r. eexists. split; [reflexivity|].
    exists ms, m, l'. simpl. unfold msg_ts. rewrite Hcs, Ho. auto 10.
  - eexists. split; [reflexivity|]. exists ms, m, l'. simpl. unfold msg_ts. rewrite Hcs. auto 10.
Qed.

(** Reloading: a message, the end, or AGAIN. *)
Lemma reload_ok it l n :
  waiting it l n -> Forall sortable l ->
  exists it', (reload debug it = Some (it', inl More) /\ ready it' l n) \/
    (l = [] /\ reload debug it = Some (it', inl NoMore)) \/
    (exists n', n = S n' /\ reload debug it = Some (it', inr TryAgain) /\ waiting it' l n').
Proof.
  intros [Hd Hw] Hs. unfold reload, BT_ASSERT_DBG. rewrite Hd. cbn [negb]. rewrite andb_false_r.
  destruct (_msgs it) as [ms|] eqn:Hms.
  - destruct Hw as (l' & Hlt & -> & Hy). destruct (lookup_lt_is_Some_2 ms _ Hlt) as [m Hm].
    apply Forall_app in Hs as [Hs _]. rewrite (drop_S _ _ _ Hm) in Hs.
    apply Forall_cons_1 in Hs as [Hsm _].
    destruct (reload_time_ok it ms m l' n Hms Hm Hsm Hy) as (it' & -> & Hr).
    exists it'. by left.
  - unfold _tryGetNewMsgs. inversion Hw as [u msgs u' Hn Hu|u b u' l0 n0 Hn Hb Hy Hu|u msgs u' l0 n0 Hn Hy Hu];
      subst; rewrite Hn; simpl.
    + eexists. right. left. split; [done|]. reflexivity.
    + destruct b as [|m b]; [done|]. apply Forall_app in Hs as [Hs _].
      apply Forall_cons_1 in Hs as [Hsm _].
      destruct (reload_time_ok (MkUpstreamMsgIter u' (Some (m :: b)) 0 (_mMsgTs it)
        (_mDiscardRequired it)) (m :: b) m l0 n) as (it' & -> & Hr); try done.
      exists it'. by left.
    + eexists. right. right. exists n0. split; [done|]. split; [reflexivity|]. by split.
Qed.

(** ** The heap's order *)

(** The order of the first messages left. *)
Definition gt_rem (rem : remaining) (i j : nat) : bool :=
  match rem i, rem j with
  | a :: _, b :: _ => older mip a b
  | _, _ => false
  end.

Lemma gt_rem_weak rem (P : nat -> Prop) :
  (forall i, P i -> rem i <> []) -> strict_weak P (gt_rem rem).
Proof.
  intros HP. unfold gt_rem. split.
  - intros i j Hi Hj. destruct (rem i), (rem j); try done. apply older_asym.
  - intros i j k Hi Hj Hk. apply HP in Hi, Hj, Hk. destruct (rem i), (rem j), (rem k); try done.
    apply older_trans.
Qed.

Lemma comparator_ok its (rem : remaining) i j iti itj ni nj :
  its !! i = Some iti -> its !! j = Some itj -> ready iti (rem i) ni -> ready itj (rem j) nj ->
  Forall sortable (rem i) -> Forall sortable (rem j) ->
  _HeapComparator debug mip its i j = Some (gt_rem rem i j).
Proof.
  intros Hi Hj Hri Hrj Hsi Hsj. unfold _HeapComparator, gt_rem. rewrite Hi, Hj.
  destruct (ready_head _ _ _ Hri) as (a & li & Ea & -> & Hta).
  destruct (ready_head _ _ _ Hrj) as (b & lj & Eb & -> & Htb).
  rewrite Ea in Hsi |- *. rewrite Eb in Hsj |- *. apply Forall_cons_1 in Hsi as [[Hwa _] _].
  apply Forall_cons_1 in Hsj as [[Hwb _] _]. rewrite Hta, Htb, compare_order by done.
  unfold older, msg_order, compare_ts, _compareLt_optional, _compareLt, orelse.
  destruct (msg_ts a) as [ta|], (msg_ts b) as [tb|]; try done.
  by destruct (Z.ltb_spec ta tb), (Z.ltb_spec tb ta).
Qed.

(** ** The validator *)

Context (M : bt_message -> Prop).
(** The clock classes of all the messages are correlatable. *)
Context (M_correlatable : forall a b ca cb, M a -> M b ->
  validated_clock_class a = Some ca -> validated_clock_class b = Some cb ->
  opt_ok mip ca /\ opt_coherent ca cb /\ opt_correlatable mip ca cb).

Definition validator_ok (v : ClockCorrelationValidator) : Prop :=
  v = new_validator \/ exists a ca, M a /\ validated_clock_class a = Some ca /\ v = state_of mip ca.

Lemma validate_correlated v m :
  validator_ok v -> M m -> exists v', validate dev mip v m = Some (inl v') /\ validator_ok v'.
Proof.
  intros Hv Hm. unfold validate. destruct (validated_clock_class m) as [cm|] eqn:Ec; [|by exists v].
  destruct (M_correlatable m m cm cm Hm Hm Ec Ec) as (Hok & _). destruct Hv as [->|(a & ca & Ha & Ea & ->)].
  - rewrite first_message by done. eexists. split; [done|]. right. eauto.
  - destruct (M_correlatable a m ca cm Ha Hm Ea Ec) as (Hoka & Hco & Hcor).
    destruct (next_message dev mip mip_nonneg ca cm Hoka Hok Hco) as (r & -> & [[-> _]|[_ Hn]]); [|done].
    eexists. split; [done|]. right. eauto.
Qed.

(** ** The state of the muxer *)

Definition is_ready (its : list (UpstreamMsgIter U)) (rem : remaining) (ns : nat -> nat) (i : nat) : Prop :=
  exists it, its !! i = Some it /\ ready it (rem i) (ns i) /\ Forall sortable (rem i).

Lemma ready_gt its rem ns i j :
  is_ready its rem ns i -> is_ready its rem ns j ->
  _HeapComparator debug mip its i j = Some (gt_rem rem i j).
Proof.
  intros (it & Hi & Hri & Hsi) (jt & Hj & Hrj & Hsj). by eapply comparator_ok.
Qed.

Lemma ready_weak its rem ns : strict_weak (is_ready its rem ns) (gt_rem rem).
Proof.
  apply gt_rem_weak. intros i (it & _ & Hr & _). apply ready_head in Hr as (m & l & -> & _). done.
Qed.

(** The heap has the message iterators with a current message and [todo] those to
    reload; the others are ended.  [rem] and [ns] are what they still give. *)
Record inv_loop (st : MsgIter U) (todo : list nat) (rem : remaining) (ns : nat -> nat) : Prop := {
  il_nodup : NoDup (_mHeap st ++ todo);
  il_lt : Forall (fun i => i < length (_mUpstreamMsgIters st))%nat (_mHeap st ++ todo);
  il_ready : Forall (is_ready (_mUpstreamMsgIters st) rem ns) (_mHeap st);
  il_waiting : Forall (fun i => exists it, _mUpstreamMsgIters st !! i = Some it /\
                                 waiting it (rem i) (ns i)) todo;
  il_done i : (i < length (_mUpstreamMsgIters st))%nat -> i ∉ _mHeap st ++ todo -> rem i = [];
  il_heap : heap_ok (gt_rem rem) (_mHeap st);
  il_sort i : (i < length (_mUpstreamMsgIters st))%nat -> Forall (fun m => sortable m /\ M m) (rem i);
  il_val : validator_ok (_mClkCorrValidator st);
  il_exc : _mExcToThrowType st = ExcNone
}.

Lemma il_sortable st todo rem ns i :
  inv_loop st todo rem ns -> (i < length (_mUpstreamMsgIters st))%nat -> Forall sortable (rem i).
Proof. intros Hi Hl. eapply Forall_impl; [by eapply il_sort|]. by intros m [? _]. Qed.

(** Replacing one wrapper keeps the others. *)
Lemma ready_other its rem ns rem' ns' i it j :
  j <> i -> rem' j = rem j -> ns' j = ns j -> is_ready its rem ns j ->
  is_ready (<[i := it]> its) rem' ns' j.
Proof.
  intros Hne Hr Hn (jt & Hj & Hrd & Hs). exists jt. rewrite list_lookup_insert_ne, Hr, Hn by done. done.
Qed.

Lemma waiting_other (its : list (UpstreamMsgIter U)) (rem : remaining) ns rem' ns' i it j :
  j <> i -> rem' j = rem j -> ns' j = ns j ->
  (exists jt, its !! j = Some jt /\ waiting jt (rem j) (ns j)) ->
  exists jt, <[i := it]> its !! j = Some jt /\ waiting jt (rem' j) (ns' j).
Proof. intros Hne Hr Hn (jt & Hj & Hw). exists jt. rewrite list_lookup_insert_ne, Hr, Hn by done. done. Qed.

(** One more AGAIN was returned. *)
Definition again_step (ns ns' : nat -> nat) (k : nat) : Prop :=
  exists i n, (i < k)%nat /\ ns i = S n /\ ns' = upd ns i n.

Lemma insert_step st i todo rem ns it' :
  inv_loop st (i :: todo) rem ns -> ready it' (rem i) (ns i) ->
  exists h, PrioHeap.insert debug 0%nat
      (_HeapComparator debug mip (<[i := it']> (_mUpstreamMsgIters st))) (_mHeap st) i = Some h /\
    inv_loop (set_heap (set_upstream st i it') h) todo rem ns.
Proof.
  intros Hinv Hr. pose proof Hinv as [Hnd Hlt Hrd Hwt Hdn Hh Hs Hv He].
  assert (Hi : (i < length (_mUpstreamMsgIters st))%nat).
  { rewrite Forall_forall in Hlt. apply Hlt. apply elem_of_app. right. by left. }
  pose proof Hnd as Hnd2. rewrite <- Permutation_middle in Hnd2. apply NoDup_cons in Hnd2 as [Hni Hnd2].
  assert (Hni1 : i ∉ _mHeap st) by (intros ?; apply Hni, elem_of_app; by left).
  assert (Hni2 : i ∉ todo) by (intros ?; apply Hni, elem_of_app; by right).
  assert (Hri : is_ready (<[i := it']> (_mUpstreamMsgIters st)) rem ns i).
  { exists it'. rewrite list_lookup_insert_eq by done. split; [done|]. split; [done|]. by eapply il_sortable. }
  assert (Hrd' : Forall (is_ready (<[i := it']> (_mUpstreamMsgIters st)) rem ns) (_mHeap st)).
  { rewrite Forall_forall in Hrd |- *. intros j Hj. apply (ready_other _ rem ns); auto. congruence. }
  assert (Hwt' : Forall (fun j => exists it, <[i := it']> (_mUpstreamMsgIters st) !! j = Some it /\
    waiting it (rem j) (ns j)) todo).
  { apply Forall_cons_1 in Hwt as [_ Hwt]. rewrite Forall_forall in Hwt |- *. intros j Hj.
    apply (waiting_other _ rem ns); auto. congruence. }
  destruct (insert_ok debug 0%nat (_HeapComparator debug mip (<[i := it']> (_mUpstreamMsgIters st)))
    (is_ready (<[i := it']> (_mUpstreamMsgIters st)) rem ns) (gt_rem rem) (ready_gt _ _ _)
    (ready_weak _ _ _) (_mHeap st) i) as (h & Hins & Hh' & Hperm); try done.
  exists h. split; [exact Hins|].
  assert (Hp : h ++ todo ≡ₚ _mHeap st ++ i :: todo) by (rewrite Hperm; apply Permutation_middle).
  split; simpl; rewrite ?length_insert, ?Hp, ?Hperm; try done; [by constructor|].
  intros j Hj Hn. apply Hdn; [done|]. by rewrite <- Hp.
Qed.

(** A message iterator that is ended is in neither list. *)
Lemma done_step st i todo rem ns it' :
  inv_loop st (i :: todo) rem ns -> rem i = [] ->
  inv_loop (set_upstream st i it') todo rem ns.
Proof.
  intros [Hnd Hlt Hrd Hwt Hdn Hh Hs Hv He] Hr.
  rewrite <- Permutation_middle in Hnd. apply NoDup_cons in Hnd as [Hni Hnd].
  rewrite <- Permutation_middle in Hlt. apply Forall_cons_1 in Hlt as [Hi Hlt].
  assert (Hne : forall j, j ∈ _mHeap st ++ todo -> j <> i) by (intros j ? ->; done).
  split; simpl; rewrite ?length_insert; try done.
  - rewrite Forall_forall in Hrd |- *. intros j Hj. apply (ready_other _ rem ns); auto.
    apply Hne, elem_of_app. by left.
  - apply Forall_cons_1 in Hwt as [_ Hwt]. rewrite Forall_forall in Hwt |- *. intros j Hj.
    apply (waiting_other _ rem ns); auto. apply Hne, elem_of_app. by right.
  - intros j Hj Hn. destruct (decide (j = i)) as [-> |]; [done|]. apply Hdn; [done|].
    rewrite <- Permutation_middle. by intros [?|?]%elem_of_cons.
Qed.

(** A message iterator that says AGAIN stays among those to reload. *)
Lemma again_stays st i todo rem ns it' n :
  inv_loop st (i :: todo) rem ns -> ns i = S n -> waiting it' (rem i) n ->
  inv_loop (set_to_reload (set_upstream st i it') (i :: todo)) (i :: todo) rem (upd ns i n) /\
  again_step ns (upd ns i n) (length (_mUpstreamMsgIters st)).
Proof.
  intros [Hnd Hlt Hrd Hwt Hdn Hh Hs Hv He] Hn Hw.
  pose proof Hnd as Hnd2. rewrite <- Permutation_middle in Hnd2. apply NoDup_cons in Hnd2 as [Hni _].
  assert (Hi : (i < length (_mUpstreamMsgIters st))%nat).
  { rewrite Forall_forall in Hlt. apply Hlt. apply elem_of_app. right. by left. }
  assert (Hne : forall j, j ∈ _mHeap st ++ todo -> j <> i) by (intros j ? ->; done).
  split; [|by exists i, n]. split; simpl; rewrite ?length_insert; try done.
  - rewrite Forall_forall in Hrd |- *. intros j Hj.
    assert (j <> i) by (apply Hne, elem_of_app; by left).
    apply (ready_other _ rem ns); auto. by apply upd_ne.
  - apply Forall_cons_1 in Hwt as [_ Hwt]. constructor.
    + exists it'. rewrite list_lookup_insert_eq, upd_eq by done. done.
    + rewrite Forall_forall in Hwt |- *. intros j Hj.
      assert (j <> i) by (apply Hne, elem_of_app; by right).
      apply (waiting_other _ rem ns); auto. by apply upd_ne.
Qed.

Lemma ensure_loop_ok todo : forall st rem ns,
  inv_loop st todo rem ns ->
  exists st' e ns', ensure_loop debug mip todo st = Some (st', e) /\
    length (_mUpstreamMsgIters st') = length (_mUpstreamMsgIters st) /\
    inv_loop st' (_mUpstreamMsgItersToReload st') rem ns' /\
    ((e = None /\ _mUpstreamMsgItersToReload st' = [] /\ ns' = ns) \/
     (e = Some TryAgain /\ again_step ns ns' (length (_mUpstreamMsgIters st)))).
Proof.
  induction todo as [|i todo IH]; intros st rem ns Hinv; cbn [ensure_loop].
  { exists (set_to_reload st []), None, ns. split; [done|]. split; [done|]. split; [|auto].
    by destruct Hinv. }
  pose proof (il_waiting _ _ _ _ Hinv) as Hwt. apply Forall_cons_1 in Hwt as [(it & Hit & Hw) _].
  rewrite Hit. pose proof (lookup_lt_Some _ _ _ Hit) as Hi.
  destruct (reload_ok it (rem i) (ns i) Hw) as (it' & [[-> Hr]|[[Hr ->]|(n & Hn & -> & Hw')]]).
  - by eapply il_sortable.
  - destruct (insert_step st i todo rem ns it' Hinv Hr) as (h & Hins & Hinv').
    cbn [_mUpstreamMsgIters set_upstream _mHeap]. rewrite Hins.
    destruct (IH _ _ _ Hinv') as (st' & e & ns' & -> & Hlen & Hi' & Hor).
    exists st', e, ns'. simpl in Hlen, Hor. rewrite length_insert in Hlen, Hor. auto.
  - destruct (IH _ _ _ (done_step st i todo rem ns it' Hinv Hr)) as (st' & e & ns' & -> & Hlen & Hi' & Hor).
    exists st', e, ns'. simpl in Hlen, Hor. rewrite length_insert in Hlen, Hor. auto.
  - destruct (again_stays st i todo rem ns it' n Hinv Hn Hw') as [Hinv' Hag].
    eexists _, _, (upd ns i n). split; [reflexivity|]. simpl. rewrite length_insert. auto 10.
Qed.

(** ** One message *)

(** The state after the oldest message was taken, with the wrapper [it'] back. *)
Lemma taken_others st i rem ns l ns' it' :
  inv_loop st [] rem ns -> i ∈ _mHeap st -> (forall j, j <> i -> ns' j = ns j) ->
  let its := <[i := it']> (_mUpstreamMsgIters st) in
  (forall j, j ∈ _mHeap st -> j <> i -> is_ready its (upd rem i l) ns' j) /\
  (forall j, (j < length its)%nat -> j ∉ _mHeap st -> upd rem i l j = []) /\
  (forall j, (j < length its)%nat -> Forall (fun m => sortable m /\ M m) l ->
     Forall (fun m => sortable m /\ M m) (upd rem i l j)).
Proof.
  intros [Hnd Hlt Hrd _ Hdn Hh Hs Hv He] Hin Hns its. rewrite app_nil_r in *. split; [|split].
  - intros j Hj Hne. apply (ready_other _ rem ns); auto; [by apply upd_ne|].
    rewrite Forall_forall in Hrd. auto.
  - intros j Hj Hn. unfold its in Hj. rewrite length_insert in Hj.
    assert (j <> i) by congruence. rewrite upd_ne by done. auto.
  - intros j Hj Hl. unfold its in Hj. rewrite length_insert in Hj.
    destruct (decide (j = i)) as [-> |Hne]; [by rewrite upd_eq|]. rewrite upd_ne by done. auto.
Qed.

(** The heap's order does not change away from the first element. *)
Lemma heap_except_taken rem i l t :
  NoDup (i :: t) -> heap_ok (gt_rem rem) (i :: t) -> heap_except (gt_rem (upd rem i l)) 0 (i :: t).
Proof.
  intros Hnd Hok a x p Ha Hpar Hx Hp. specialize (Hok a x p Ha Hx Hp).
  assert (Hne : forall b y, b <> 0%nat -> (i :: t) !! b = Some y -> y <> i).
  { intros b y Hb Hy ->. apply NoDup_cons in Hnd as [Hni _]. destruct b as [|b]; [done|].
    apply Hni. by eapply list_elem_of_lookup_2. }
  unfold gt_rem. rewrite (upd_ne rem i x), (upd_ne rem i p); [exact Hok| |].
  - by apply (Hne (_parentPos a)).
  - by apply (Hne a); [lia|].
Qed.

(** What one turn of the loop of [_next] does with the first message [m] of the
    first message iterator of the heap. *)
Lemma next_turn st rem ns i t :
  inv_loop st [] rem ns -> _mHeap st = i :: t ->
  exists m l oldest oldest' v res,
    rem i = m :: l /\ M m /\ (i < length (_mUpstreamMsgIters st))%nat /\
    (forall j b l', (j < length (_mUpstreamMsgIters st))%nat -> rem j = b :: l' -> older mip b m = false) /\
    top debug (_HeapComparator debug mip (_mUpstreamMsgIters st)) (_mHeap st) = Some i /\
    _mUpstreamMsgIters st !! i = Some oldest /\ cur_msg oldest = Some m /\
    validate dev mip (_mClkCorrValidator st) m = Some (inl v) /\ validator_ok v /\
    (do it <- discard debug oldest; reload debug it) = Some (oldest', res) /\
    ((res = inl More /\ ready oldest' l (ns i)) \/ (res = inl NoMore /\ l = []) \/
     (exists n, res = inr TryAgain /\ ns i = S n /\ waiting oldest' l n)).
Proof.
  intros Hinv Hheap. pose proof Hinv as [Hnd Hlt Hrd _ Hdn Hh Hs Hv He]. rewrite app_nil_r in *.
  assert (Hini : i ∈ _mHeap st) by (rewrite Hheap; by left).
  assert (Hri : is_ready (_mUpstreamMsgIters st) rem ns i) by (rewrite Forall_forall in Hrd; auto).
  destruct Hri as (oldest & Hold & Hr & Hsrt).
  destruct (ready_head _ _ _ Hr) as (m & l & Hm & Hcur & _). rewrite Hm in Hr, Hsrt.
  pose proof (lookup_lt_Some _ _ _ Hold) as Hi.
  pose proof (Hs i Hi) as Hsi. rewrite Hm in Hsi. apply Forall_cons_1 in Hsi as [[_ HMm] _].
  destruct (discard_ok _ _ _ _ Hr) as (it1 & Hd & Hw).
  destruct (validate_correlated _ m Hv HMm) as (v & Hval & Hv').
  apply Forall_cons_1 in Hsrt as [_ Hsl].
  destruct (reload_ok it1 l (ns i) Hw Hsl) as (it2 & Hor).
  assert (exists res, reload debug it1 = Some (it2, res) /\
    ((res = inl More /\ ready it2 l (ns i)) \/ (res = inl NoMore /\ l = []) \/
     (exists n, res = inr TryAgain /\ ns i = S n /\ waiting it2 l n))) as (res & Hrel & Hres).
  { destruct Hor as [[-> ?]|[[? ->]|(n & ? & -> & ?)]]; eexists; (split; [reflexivity|]); eauto 10. }
  exists m, l, oldest, it2, v, res. do 3 (split; [done|]). split.
  { intros j b l' Hj Hb. destruct (decide (j ∈ _mHeap st)) as [Hjh|Hjh].
    - pose proof (heap_top (is_ready (_mUpstreamMsgIters st) rem ns) (gt_rem rem) (ready_weak _ _ _)
        (_mHeap st) j i Hrd Hh ltac:(by rewrite Hheap) Hjh) as Hg.
      unfold gt_rem in Hg. by rewrite Hb, Hm in Hg.
    - rewrite (Hdn j Hj Hjh) in Hb. done. }
  split.
  { rewrite (top_ok debug _ (is_ready (_mUpstreamMsgIters st) rem ns) (gt_rem rem)
      (ready_gt _ _ _) (ready_weak _ _ _)); [by rewrite Hheap|done|done|by rewrite Hheap]. }
  do 4 (split; [done|]). split; [by rewrite Hd|done].
Qed.

Lemma turn_more st rem ns i t m l v it' :
  inv_loop st [] rem ns -> _mHeap st = i :: t -> rem i = m :: l -> validator_ok v ->
  ready it' l (ns i) ->
  let st1 := set_upstream (set_clk_validator st v) i it' in
  exists h, replaceTop debug (_HeapComparator debug mip (_mUpstreamMsgIters st1)) (_mHeap st) i = Some h /\
    inv_loop (set_heap st1 h) [] (upd rem i l) ns.
Proof.
  intros Hinv Hheap Hm Hv' Hr st1. pose proof Hinv as [Hnd Hlt Hrd _ Hdn Hh Hs _ He].
  rewrite app_nil_r in *.
  assert (Hini : i ∈ _mHeap st) by (rewrite Hheap; by left).
  assert (Hi : (i < length (_mUpstreamMsgIters st))%nat) by (rewrite Forall_forall in Hlt; auto).
  destruct (taken_others st i rem ns l ns it' Hinv Hini) as (Hro & Hdo & Hso); [done|].
  pose proof (Hs i Hi) as Hsi. rewrite Hm in Hsi. apply Forall_cons_1 in Hsi as [_ Hsl].
  rewrite Hheap in Hnd, Hh. pose proof Hnd as Hnd2. apply NoDup_cons in Hnd2 as [Hni Hnt].
  assert (Hri : is_ready (_mUpstreamMsgIters st1) (upd rem i l) ns i).
  { exists it'. simpl. rewrite list_lookup_insert_eq, upd_eq by done. split; [done|]. split; [done|].
    eapply Forall_impl; [exact Hsl|]. by intros ? [? _]. }
  assert (Hrt : Forall (is_ready (_mUpstreamMsgIters st1) (upd rem i l) ns) t).
  { apply Forall_forall. intros j Hj. apply Hro; [rewrite Hheap; by right|congruence]. }
  destruct (replaceTop_ok debug (_HeapComparator debug mip (_mUpstreamMsgIters st1))
    (is_ready (_mUpstreamMsgIters st1) (upd rem i l) ns) (gt_rem (upd rem i l)) (ready_gt _ _ _)
    (ready_weak _ _ _) i t i Hrt Hri (heap_except_taken rem i l t Hnd Hh)) as (h & Hrep & Hh' & Hperm).
  exists h. rewrite Hheap. split; [exact Hrep|].
  split; simpl; rewrite ?app_nil_r, ?length_insert, ?Hperm; try done.
  - by rewrite <- Hheap.
  - by constructor.
  - intros j Hj Hn. apply Hdo; [by rewrite length_insert|]. rewrite Hheap. by rewrite <- Hperm.
  - intros j Hj. apply Hso; [by rewrite length_insert|done].
Qed.

(** Its message iterator leaves the heap, for [todo] or for good. *)
Lemma turn_remove st rem ns i t m l v it' todo ns' :
  inv_loop st [] rem ns -> _mHeap st = i :: t -> rem i = m :: l -> validator_ok v ->
  (forall j, j <> i -> ns' j = ns j) ->
  (todo = [] /\ l = [] \/ todo = [i] /\ waiting it' l (ns' i)) ->
  let st1 := set_upstream (set_clk_validator st v) i it' in
  exists h, removeTop debug (_HeapComparator debug mip (_mUpstreamMsgIters st1)) (_mHeap st) = Some h /\
    forall reload_list, inv_loop (set_to_reload (set_heap st1 h) reload_list) todo (upd rem i l) ns'.
Proof.
  intros Hinv Hheap Hm Hv' Hns Htodo st1. pose proof Hinv as [Hnd Hlt Hrd _ Hdn Hh Hs _ He].
  rewrite app_nil_r in *.
  assert (Hini : i ∈ _mHeap st) by (rewrite Hheap; by left).
  assert (Hi : (i < length (_mUpstreamMsgIters st))%nat) by (rewrite Forall_forall in Hlt; auto).
  destruct (taken_others st i rem ns l ns' it' Hinv Hini Hns) as (Hro & Hdo & Hso).
  pose proof (Hs i Hi) as Hsi. rewrite Hm in Hsi. apply Forall_cons_1 in Hsi as [_ Hsl].
  rewrite Hheap in Hnd, Hh, Hlt. pose proof Hnd as Hnd2. apply NoDup_cons in Hnd2 as [Hni Hnt].
  apply Forall_cons_1 in Hlt as [_ Hlt].
  assert (Hrt : Forall (is_ready (_mUpstreamMsgIters st1) (upd rem i l) ns') t).
  { apply Forall_forall. intros j Hj. apply Hro; [rewrite Hheap; by right|congruence]. }
  destruct (removeTop_ok debug (_HeapComparator debug mip (_mUpstreamMsgIters st1))
    (is_ready (_mUpstreamMsgIters st1) (upd rem i l) ns') (gt_rem (upd rem i l)) (ready_gt _ _ _)
    (ready_weak _ _ _) i t Hrt (heap_except_taken rem i l t Hnd Hh)) as (h & Hrem & Hh' & Hperm).
  exists h. rewrite Hheap. split; [exact Hrem|]. intros rl.
  split; simpl; rewrite ?length_insert, ?Hperm; try done.
  - destruct Htodo as [[-> _]|[-> _]]; [by rewrite app_nil_r|].
    rewrite <- Permutation_cons_append. done.
  - apply Forall_app. split; [done|]. destruct Htodo as [[-> _]|[-> _]]; by repeat constructor.
  - destruct Htodo as [[-> _]|[-> Hw]]; constructor; [|constructor].
    exists it'. rewrite list_lookup_insert_eq, upd_eq by done. done.
  - intros j Hj Hn. destruct (decide (j = i)) as [-> |Hne].
    + destruct Htodo as [[-> ->]|[-> _]]; [by rewrite upd_eq|]. exfalso. apply Hn, elem_of_app. right. by left.
    + apply Hdo; [by rewrite length_insert|]. rewrite Hheap. intros [?|Hjt]%elem_of_cons; [done|].
      apply Hn, elem_of_app. left. by rewrite Hperm.
  - intros j Hj. apply Hso; [by rewrite length_insert|done].
Qed.

(** ** The loop *)

Lemma next_loop_ok space : forall st rem ns msgs,
  inv_loop st [] rem ns -> _mUpstreamMsgItersToReload st = [] ->
  exists st' out e rem' ns', next_loop dev debug mip space st msgs = Some (st', msgs ++ out, e) /\
    length (_mUpstreamMsgIters st') = length (_mUpstreamMsgIters st) /\
    merges mip (length (_mUpstreamMsgIters st)) rem out rem' /\
    inv_loop st' (_mUpstreamMsgItersToReload st') rem' ns' /\ (length out <= space)%nat /\
    ((e = None /\ ns' = ns /\ _mUpstreamMsgItersToReload st' = [] /\
      (length out = space \/ _mHeap st' = [])) \/
     (e = Some TryAgain /\ out <> [] /\ again_step ns ns' (length (_mUpstreamMsgIters st)))).
Proof.
  induction space as [|space IH]; intros st rem ns msgs Hinv Hrl; cbn [next_loop].
  { exists st, [], None, rem, ns. rewrite app_nil_r, Hrl. split; [done|]. split; [done|].
    split; [constructor|]. split; [done|]. split; [done|]. left. auto. }
  case_bool_decide as Hne.
  { exists st, [], None, rem, ns. rewrite app_nil_r, Hrl. split; [done|]. split; [done|].
    split; [constructor|]. split; [done|]. split; [simpl; lia|]. left. auto. }
  destruct (_mHeap st) as [|i t] eqn:Hheap; [done|]. rewrite <- Hheap.
  destruct (next_turn st rem ns i t Hinv Hheap) as (m & l & old & it' & v & res & Hm & HM & Hi & Hmin &
    Htop & Hold & Hcur & Hval & Hv & Hrel & Hres).
  rewrite Htop, Hold, Hcur. unfold _validateMsgClkCls. rewrite Hval.
  destruct (discard debug old) as [it1|]; [|done]. rewrite Hrel.
  assert (Hcons : forall out rem', merges mip (length (_mUpstreamMsgIters st)) (upd rem i l) out rem' ->
    merges mip (length (_mUpstreamMsgIters st)) rem (m :: out) rem') by (intros; by econstructor).
  destruct Hres as [[-> Hr]|[[-> ->]|(n & -> & Hn & Hw)]].
  - destruct (turn_more st rem ns i t m l v it' Hinv Hheap Hm Hv Hr) as (h & Hrep & Hinv').
    cbn [_mHeap set_upstream set_clk_validator]. rewrite Hrep.
    destruct (IH _ _ _ (msgs ++ [m]) Hinv' Hrl) as (st' & out & e & rem' & ns' & -> & Hlen & Hmg & Hi' & Hle & Hor).
    simpl in Hlen, Hmg, Hor. rewrite length_insert in Hlen, Hmg, Hor.
    exists st', (m :: out), e, rem', ns'. rewrite <- app_assoc. split; [done|]. split; [done|].
    split; [by apply Hcons|]. split; [done|]. split; [simpl; lia|].
    destruct Hor as [(? & ? & ? & [?|?])|(? & ? & ?)]; [left|left|right]; simpl; auto with lia.
  - destruct (turn_remove st rem ns i t m [] v it' [] ns Hinv Hheap Hm Hv) as (h & Hrem & Hinv');
      [done|by left|]. specialize (Hinv' []).
    cbn [_mHeap set_upstream set_clk_validator]. rewrite Hrem.
    match goal with |- context [next_loop _ _ _ _ ?s _] =>
      assert (Hinv2 : inv_loop s [] (upd rem i []) ns) by (by destruct Hinv') end.
    destruct (IH _ _ _ (msgs ++ [m]) Hinv2 Hrl) as (st' & out & e & rem' & ns' & -> & Hlen & Hmg & Hi' & Hle & Hor).
    simpl in Hlen, Hmg, Hor. rewrite length_insert in Hlen, Hmg, Hor.
    exists st', (m :: out), e, rem', ns'. rewrite <- app_assoc. split; [done|]. split; [done|].
    split; [by apply Hcons|]. split; [done|]. split; [simpl; lia|].
    destruct Hor as [(? & ? & ? & [?|?])|(? & ? & ?)]; [left|left|right]; simpl; auto with lia.
  - destruct (turn_remove st rem ns i t m l v it' [i] (upd ns i n) Hinv Hheap Hm Hv) as (h & Hrem & Hinv').
    { intros j Hj. by apply upd_ne. } { right. by rewrite upd_eq. }
    cbn [_mHeap set_upstream set_clk_validator _mUpstreamMsgItersToReload]. rewrite Hrem, Hrl.
    eexists _, [m], _, (upd rem i l), (upd ns i n). split; [reflexivity|]. simpl. rewrite length_insert.
    split; [done|]. split; [apply Hcons; constructor|]. split; [apply Hinv'|]. split; [lia|].
    right. split; [done|]. split; [done|]. by exists i, n.
Qed.

(** ** One call of [next] *)

Definition inv (st : MsgIter U) (rem : remaining) (ns : nat -> nat) : Prop :=
  inv_loop st (_mUpstreamMsgItersToReload st) rem ns.

(** The results of one call, in the terms of the merge. *)
Inductive next_result (k : nat) (rem : remaining) (ns : nat -> nat) :
    next_status -> list bt_message -> remaining -> (nat -> nat) -> Prop :=
| ResultOk msgs rem' ns' :
    msgs <> [] -> merges mip k rem msgs rem' -> ns' = ns \/ again_step ns ns' k ->
    next_result k rem ns NextOk msgs rem' ns'
| ResultAgain ns' : again_step ns ns' k -> next_result k rem ns NextAgain [] rem ns'
| ResultEnd : (forall i, (i < k)%nat -> rem i = []) -> next_result k rem ns NextEnd [] rem ns.

Lemma muxer_next_ok capacity st rem ns :
  (0 < capacity)%nat -> inv st rem ns ->
  exists status msgs st' rem' ns', muxer_next dev debug mip capacity st = Some (status, msgs, st') /\
    length (_mUpstreamMsgIters st') = length (_mUpstreamMsgIters st) /\
    next_result (length (_mUpstreamMsgIters st)) rem ns status msgs rem' ns' /\
    inv st' rem' ns' /\ (length msgs <= capacity)%nat.
Proof.
  intros Hcap Hinv. unfold muxer_next. rewrite (il_exc _ _ _ _ Hinv). unfold _next, _ensureFullHeap.
  destruct (ensure_loop_ok _ st rem ns Hinv) as (st1 & e & ns1 & -> & Hlen1 & Hinv1 & [(-> & Hrl & ->)|(-> & Hag)]).
  2: { eexists _, _, _, rem, ns1. split; [reflexivity|]. split; [done|]. split; [by constructor|].
       split; [done|]. simpl. lia. }
  rewrite Hrl in Hinv1.
  destruct (next_loop_ok capacity st1 rem ns [] Hinv1 Hrl) as (st2 & out & e & rem' & ns' & -> & Hlen2 &
    Hmg & Hinv2 & Hle & Hor). rewrite Hlen1 in *. simpl.
  destruct Hor as [(-> & -> & Hrl2 & Hend)|(-> & Hne & Hag)].
  - eexists _, _, _, rem', ns. split; [reflexivity|]. split; [done|]. split; [|done].
    case_bool_decide as Hout; [subst out|by constructor; auto].
    inversion Hmg; subst. destruct Hend as [Hz|Hheap]; [simpl in Hz; lia|].
    constructor. intros i Hi. apply (il_done _ _ _ _ Hinv2); [lia|]. rewrite Hheap, Hrl2.
    apply not_elem_of_nil.
  - rewrite bool_decide_eq_false_2 by done. eexists _, _, _, rem', ns'. split; [reflexivity|].
    split; [done|]. split; [constructor; auto|done].
Qed.

(** ** All calls *)

(** Calls [next] until END: all the messages; AGAIN is tried again. *)
Fixpoint mux_run (fuel capacity : nat) (st : MsgIter U) : option (list bt_message * MsgIter U) :=
  match fuel with
  | O => None
  | S fuel =>
    do r <- muxer_next dev debug mip capacity st;
    match r with
    | (NextOk, msgs, st) | (NextAgain, msgs, st) =>
      do r <- mux_run fuel capacity st;
      Some (msgs ++ fst r, snd r)
    | (NextEnd, _, st) => Some ([], st)
    | _ => None
    end
  end.

(** The messages and the AGAIN left. *)
Definition left_to_do (k : nat) (rem : remaining) (ns : nat -> nat) : nat :=
  length (all_of k rem) + sum_list_with ns (seq 0 k).

Lemma again_step_less k ns ns' :
  again_step ns ns' k -> sum_list_with ns (seq 0 k) = S (sum_list_with ns' (seq 0 k)).
Proof.
  intros (i & n & Hi & Hn & ->).
  assert (Hs : seq 0 k = seq 0 i ++ i :: seq (S i) (k - S i)).
  { replace k with (i + S (k - S i))%nat at 1 by lia. by rewrite seq_app. }
  assert (Hsame : forall l, i ∉ l -> sum_list_with (upd ns i n) l = sum_list_with ns l).
  { induction l as [|j l IH]; [done|]. rewrite not_elem_of_cons. intros [Hj Hl]. simpl.
    by rewrite IH, upd_ne by done. }
  rewrite Hs, !sum_list_with_app. simpl. rewrite upd_eq, Hn, !Hsame; [lia| |];
    rewrite elem_of_seq; lia.
Qed.

Lemma mux_run_ok fuel capacity : forall st rem ns,
  (0 < capacity)%nat -> inv st rem ns ->
  (left_to_do (length (_mUpstreamMsgIters st)) rem ns < fuel)%nat ->
  exists out st' rem' ns', mux_run fuel capacity st = Some (out, st') /\
    merges mip (length (_mUpstreamMsgIters st)) rem out rem' /\
    (forall i, (i < length (_mUpstreamMsgIters st))%nat -> rem' i = []) /\ inv st' rem' ns'.
Proof.
  induction fuel as [|fuel IH]; intros st rem ns Hcap Hinv Hf; [lia|]. cbn [mux_run].
  destruct (muxer_next_ok capacity st rem ns Hcap Hinv) as (status & msgs & st1 & rem1 & ns1 & -> &
    Hlen & Hres & Hinv1 & _).
  assert (Hgo : (left_to_do (length (_mUpstreamMsgIters st)) rem1 ns1 < fuel)%nat ->
    merges mip (length (_mUpstreamMsgIters st)) rem msgs rem1 ->
    exists out st' rem' ns', (do r <- mux_run fuel capacity st1; Some (msgs ++ r.1, r.2)) = Some (out, st') /\
    merges mip (length (_mUpstreamMsgIters st)) rem out rem' /\
    (forall i, (i < length (_mUpstreamMsgIters st))%nat -> rem' i = []) /\ inv st' rem' ns').
  { intros Hless Hmg.
    destruct (IH st1 rem1 ns1 Hcap Hinv1) as (out & st' & rem' & ns' & -> & Hm & He & Hi); [by rewrite Hlen|].
    rewrite Hlen in Hm, He. exists (msgs ++ out), st', rem', ns'. split; [done|]. split; [by eapply merges_app|done]. }
  unfold left_to_do in *. inversion Hres as [ms r n Hne Hmg Hns|n Hag|Hdone]; subst.
  - apply Hgo; [|done]. apply merges_perm, Permutation_length in Hmg. rewrite length_app in Hmg.
    destruct msgs; [done|]. simpl in Hmg. destruct Hns as [->|Hag]; [lia|].
    apply again_step_less in Hag. lia.
  - apply Hgo; [|constructor]. apply again_step_less in Hag. lia.
  - exists [], st1, rem1, ns1. split; [done|]. split; [constructor|done].
Qed.

(** ** The initial states *)

(** The sequences of a list, by index. *)
Definition script (ls : list (list bt_message * nat)) : remaining := fun i => from_option fst [] (ls !! i).
Definition agains (ls : list (list bt_message * nat)) : nat -> nat := fun i => from_option snd 0%nat (ls !! i).

(** Wrappers without a batch, all to reload. *)
Lemma initial_inv its ls v :
  Forall2 (fun it ln => _msgs it = None /\ _mDiscardRequired it = false /\ yields (_mMsgIter it) ln.1 ln.2)
    its ls ->
  Forall (fun ln => Forall (fun m => sortable m /\ M m) ln.1) ls -> validator_ok v ->
  inv (MkMsgIter its [] (seq 0 (length its)) v ExcNone) (script ls) (agains ls).
Proof.
  intros Hits Hs Hv. pose proof (Forall2_length _ _ _ Hits) as Hlen.
  split; simpl; try done.
  - apply NoDup_seq.
  - apply Forall_forall. intros i Hi%elem_of_seq. lia.
  - apply Forall_forall. intros i Hi%elem_of_seq.
    destruct (lookup_lt_is_Some_2 its i) as [it Hit]; [lia|]. exists it. split; [done|].
    destruct (Forall2_lookup_l _ _ _ _ _ Hits Hit) as ([l n] & Hl & Hm & Hd & Hy).
    unfold waiting, script, agains. by rewrite Hm, Hl.
  - intros i Hi Hn. exfalso. apply Hn, elem_of_seq. lia.
  - intros i Hi. unfold script. destruct (ls !! i) as [[l n]|] eqn:Hl; [|constructor]. simpl.
    by apply (Forall_lookup_1 _ _ _ _ Hs Hl).
Qed.

Lemma script_all ls : all_of (length ls) (script ls) = concat (map fst ls).
Proof.
  unfold all_of. f_equal. apply list_eq. intros i. rewrite !list_lookup_fmap.
  destruct (decide (i < length ls)%nat).
  - rewrite lookup_seq_lt by lia. simpl. unfold script.
    destruct (lookup_lt_is_Some_2 ls i) as [ln Hln]; [done|]. by rewrite Hln.
  - rewrite lookup_seq_ge, lookup_ge_None_2 by lia. done.
Qed.

(** The whole run of a state without batches, all to reload. *)
Lemma run_of_scripts fuel capacity its ls v :
  (0 < capacity)%nat ->
  Forall2 (fun it ln => _msgs it = None /\ _mDiscardRequired it = false /\ yields (_mMsgIter it) ln.1 ln.2)
    its ls ->
  Forall (fun ln => Forall (fun m => sortable m /\ M m) ln.1) ls -> validator_ok v ->
  (left_to_do (length ls) (script ls) (agains ls) < fuel)%nat ->
  exists out st' rem', mux_run fuel capacity (MkMsgIter its [] (seq 0 (length its)) v ExcNone) = Some (out, st') /\
    merges mip (length ls) (script ls) out rem' /\ (forall i, (i < length ls)%nat -> rem' i = []) /\
    validator_ok (_mClkCorrValidator st').
Proof.
  intros Hcap Hits Hs Hv Hf. pose proof (Forall2_length _ _ _ Hits) as Hlen.
  destruct (mux_run_ok fuel capacity _ _ _ Hcap (initial_inv its ls v Hits Hs Hv)) as
    (out & st' & rem' & ns' & Hrun & Hm & He & Hi); [simpl; by rewrite Hlen|].
  simpl in *. rewrite Hlen in *. exists out, st', rem'. do 3 (split; [done|]). apply (il_val _ _ _ _ Hi).
Qed.

(** The fuel that is enough: the messages, the AGAIN, and END. *)
Definition enough (ls : list (list bt_message * nat)) : nat :=
  S (length (concat (map fst ls)) + sum_list_with snd ls).

Lemma enough_ok ls : (left_to_do (length ls) (script ls) (agains ls) < enough ls)%nat.
Proof.
  unfold left_to_do, enough. rewrite script_all.
  assert (sum_list_with (agains ls) (seq 0 (length ls)) = sum_list_with snd ls) as ->; [|lia].
  assert (Hgen : forall (f : nat -> nat) k (l : list (list bt_message * nat)),
    (forall i, f (k + i)%nat = from_option snd 0%nat (l !! i)) ->
    sum_list_with f (seq k (length l)) = sum_list_with snd l).
  { intros f k l. revert k. induction l as [|x l IH]; intros k Hk; [done|]. simpl. f_equal.
    - pose proof (Hk 0%nat) as H0'. by rewrite Nat.add_0_r in H0'.
    - apply IH. intros i. specialize (Hk (S i)). by rewrite Nat.add_succ_r in Hk. }
  by apply (Hgen (agains ls) 0%nat).
Qed.
End impl.

(** * What the muxer promises *)

Section claims.
Context {U : Type} `{UpstreamIterator U} `{TraceIr} `{StreamIr}.

(** The muxer can sort the messages, and their clock classes are correlatable. *)
Definition mergeable (mip : Z) (l : list bt_message) : Prop :=
  Forall sortable l /\
  forall a b ca cb, a ∈ l -> b ∈ l -> validated_clock_class a = Some ca ->
    validated_clock_class b = Some cb ->
    opt_ok mip ca /\ opt_coherent ca cb /\ opt_correlatable mip ca cb.

Definition messages_of (ls : list (list bt_message * nat)) : list bt_message := concat (map fst ls).

Lemma mergeable_scripts mip ls l :
  mergeable mip l -> messages_of ls ⊆ l ->
  Forall (fun ln : list bt_message * nat => Forall (fun m => sortable m /\ m ∈ l) ln.1) ls.
Proof.
  intros [Hs _] Hsub. apply Forall_forall. intros ln Hln. apply Forall_forall. intros m Hm.
  assert (m ∈ l).
  { apply Hsub. unfold messages_of. apply list_elem_of_In, in_concat. exists ln.1.
    split; apply list_elem_of_In; [|done]. by apply list_elem_of_fmap_2. }
  split; [|done]. rewrite Forall_forall in Hs. auto.
Qed.

Lemma new_wrappers (us : list U) ls :
  Forall2 (fun u ln => yields u ln.1 ln.2) us ls ->
  Forall2 (fun it ln => _msgs it = None /\ _mDiscardRequired it = false /\ yields (_mMsgIter it) ln.1 ln.2)
    (map new_upstream us) ls.
Proof. induction 1; constructor; auto. Qed.

Lemma run_new dev debug mip capacity fuel (us : list U) ls :
  0 <= mip -> (0 < capacity)%nat -> Forall2 (fun u ln => yields u ln.1 ln.2) us ls ->
  mergeable mip (messages_of ls) -> (enough ls <= fuel)%nat ->
  exists out st' rem', mux_run dev debug mip fuel capacity (new_msg_iter us) = Some (out, st') /\
    merges mip (length ls) (script ls) out rem' /\ (forall i, (i < length ls)%nat -> rem' i = []).
Proof.
  intros Hmip Hcap Hus Hm Hf. unfold new_msg_iter. rewrite <- (length_map new_upstream us).
  destruct (run_of_scripts dev debug mip Hmip (fun m => m ∈ messages_of ls) (proj2 Hm) fuel capacity
    (map new_upstream us) ls new_validator Hcap (new_wrappers us ls Hus)) as (out & st' & rem' & ? & ? & ? & _).
  - by eapply mergeable_scripts.
  - by left.
  - pose proof (enough_ok ls). lia.
  - eauto 10.
Qed.

(** The messages of a complete merge. *)
Lemma complete_merge mip ls out rem' :
  merges mip (length ls) (script ls) out rem' -> (forall i, (i < length ls)%nat -> rem' i = []) ->
  out ≡ₚ messages_of ls.
Proof.
  intros Hmg He. apply merges_perm in Hmg. rewrite script_all in Hmg. unfold messages_of.
  rewrite Hmg. assert (all_of (length ls) rem' = []) as ->; [|by rewrite app_nil_r].
  unfold all_of. apply concat_nil_Forall, Forall_forall. intros x Hx.
  apply list_elem_of_fmap in Hx as (i & -> & Hi%elem_of_seq). apply He. lia.
Qed.

Lemma script_times (ls : list (list bt_message * nat)) :
  Forall (fun ln => StronglySorted Z.le (omap msg_ts ln.1)) ls ->
  forall i, (i < length ls)%nat -> StronglySorted Z.le (omap msg_ts (script ls i)).
Proof.
  intros Hs i Hi. destruct (lookup_lt_is_Some_2 ls i Hi) as [ln Hln]. unfold script. rewrite Hln.
  simpl. by eapply (Forall_lookup_1 _ _ _ _ Hs).
Qed.

(** C1: Calling [next] of the muxer until it returns END takes a bounded number of
    calls, never aborts, and returns a merge of the messages of the upstream message
    iterators: each message that is returned is, of the first messages left
    upstream, one that no other is older than.  All the messages of the upstream
    message iterators are returned, each once, and their times do not go back when
    they do not upstream.  The upstream message iterators return their messages in
    batches of any size, with any number of AGAIN in between; the clock classes are
    correlatable. *)
Theorem muxer_run_merges dev debug mip capacity fuel (us : list U) ls :
  0 <= mip -> (0 < capacity)%nat -> Forall2 (fun u ln => yields u ln.1 ln.2) us ls ->
  mergeable mip (messages_of ls) -> (enough ls <= fuel)%nat ->
  exists out st' rem', mux_run dev debug mip fuel capacity (new_msg_iter us) = Some (out, st') /\
    merges mip (length ls) (script ls) out rem' /\ out ≡ₚ messages_of ls /\
    (Forall (fun ln => StronglySorted Z.le (omap msg_ts ln.1)) ls ->
     StronglySorted Z.le (omap msg_ts out)).
Proof.
  intros Hmip Hcap Hus Hm Hf.
  destruct (run_new dev debug mip capacity fuel us ls Hmip Hcap Hus Hm Hf) as (out & st' & rem' & Hrun & Hmg & He).
  exists out, st', rem'. do 2 (split; [done|]). split; [by eapply complete_merge|].
  intros Hs. by apply (merges_times mip _ _ _ _ Hmg), script_times.
Qed.

(** C29: The muxer keeps the messages of each stream in order: when each stream is
    of one upstream message iterator and the messages of each upstream message
    iterator follow the message sequence rules, the messages that the muxer returns
    follow them. *)
Theorem muxer_keeps_message_rules dev debug mip capacity fuel (us : list U) ls :
  0 <= mip -> (0 < capacity)%nat -> Forall2 (fun u ln => yields u ln.1 ln.2) us ls ->
  mergeable mip (messages_of ls) -> (enough ls <= fuel)%nat ->
  (forall s i j, (i < length ls)%nat -> (j < length ls)%nat -> i <> j ->
    of_stream s (script ls i) <> [] -> of_stream s (script ls j) = []) ->
  (forall i, (i < length ls)%nat -> follows_rules (script ls i)) ->
  exists out st', mux_run dev debug mip fuel capacity (new_msg_iter us) = Some (out, st') /\
    follows_rules out.
Proof.
  intros Hmip Hcap Hus Hm Hf Hone Hrules.
  destruct (run_new dev debug mip capacity fuel us ls Hmip Hcap Hus Hm Hf) as (out & st' & rem' & Hrun & Hmg & He).
  exists out, st'. split; [done|]. intros s Hs. pose proof (complete_merge _ _ _ _ Hmg He) as Hp.
  destruct (of_stream s out) as [|m l] eqn:Hso; [done|].
  assert (Hm0 : m ∈ of_stream s out) by (rewrite Hso; by left).
  apply list_elem_of_filter in Hm0 as [Hms Hin]. rewrite Hp in Hin.
  apply list_elem_of_In, in_concat in Hin as (x & Hx%list_elem_of_In & Hin%list_elem_of_In).
  apply list_elem_of_fmap in Hx as (ln & -> & Hln). apply list_elem_of_lookup in Hln as [i Hln].
  pose proof (lookup_lt_Some _ _ _ Hln) as Hi.
  assert (Hsi : script ls i = ln.1) by (unfold script; by rewrite Hln).
  assert (Hne : of_stream s (script ls i) <> []).
  { rewrite Hsi. intros Hnil. assert (Hc : m ∈ of_stream s ln.1) by (by apply list_elem_of_filter).
    rewrite Hnil in Hc. by apply not_elem_of_nil in Hc. }
  pose proof (merges_filter mip _ _ _ _ (fun m => get_stream_from_msg m = Some s) i Hmg Hi) as Hfil.
  rewrite He, app_nil_r in Hfil by done. rewrite <- Hso. unfold of_stream in *. rewrite <- Hfil.
  - apply (Hrules i Hi s). exact Hne.
  - intros j Hj Hji. apply Forall_forall. intros x Hx Hxs.
    assert (Hc : x ∈ of_stream s (script ls j)) by (by apply list_elem_of_filter).
    unfold of_stream in Hc. rewrite (Hone s i j) in Hc by auto. by apply not_elem_of_nil in Hc.
Qed.
(** C24: One call of [next] implements one step of the merge: there is a relation
    between the states of the muxer and what is left upstream, which holds for a new
    muxer, such that from related states [next] does not abort and returns OK with
    at least one and at most [capacity] messages that the merge gives next, or AGAIN
    because an upstream message iterator returned AGAIN, or END because nothing is
    left; what is left after it is related to the new state. *)
Theorem muxer_next_refines dev debug mip (all : list bt_message) :
  0 <= mip -> mergeable mip all ->
  exists R : MsgIter U -> nat -> remaining -> (nat -> nat) -> Prop,
    (forall us ls, Forall2 (fun u ln => yields u ln.1 ln.2) us ls -> messages_of ls ⊆ all ->
       R (new_msg_iter us) (length ls) (script ls) (agains ls)) /\
    forall st k rem ns capacity, R st k rem ns -> (0 < capacity)%nat ->
      exists status msgs st' rem' ns',
        muxer_next dev debug mip capacity st = Some (status, msgs, st') /\
        next_result mip k rem ns status msgs rem' ns' /\ (length msgs <= capacity)%nat /\
        R st' k rem' ns'.
Proof.
  intros Hmip Hm.
  exists (fun st k rem ns => length (_mUpstreamMsgIters st) = k /\ inv mip (fun m => m ∈ all) st rem ns).
  split.
  - intros us ls Hus Hsub. simpl. rewrite length_map.
    split; [by eapply Forall2_length|]. unfold new_msg_iter. rewrite <- (length_map new_upstream us).
    apply initial_inv; [by apply new_wrappers|by eapply mergeable_scripts|by left].
  - intros st k rem ns capacity [<- Hinv] Hcap.
    destruct (muxer_next_ok dev debug mip Hmip _ (proj2 Hm) capacity st rem ns Hcap Hinv) as
      (status & msgs & st' & rem' & ns' & Hn & Hlen & Hres & Hinv' & Hle).
    exists status, msgs, st', rem', ns'. auto.
Qed.

(** C32: What the calls of [next] return, whatever the upstream message iterators do:
    messages exactly with the status OK; the status of an exception that comes before
    any message.  An error that comes after messages is saved: the calls of [next]
    that come right after, whatever their number and capacity, return its status
    without a message and without calling upstream.  Two other methods forget the
    saved error, whatever they return: seeking the beginning, which also empties the
    heap, and only asking whether the muxer can seek its beginning, which keeps the
    heap and what is to be reloaded: the next call of [next] is then as if the error
    had not been. *)
Theorem muxer_statuses dev debug mip capacity (st : MsgIter U) status msgs st' :
  muxer_next dev debug mip capacity st = Some (status, msgs, st') ->
  (msgs <> [] <-> status = NextOk) /\
  (forall st1 e, _mExcToThrowType st = ExcNone ->
     _next dev debug mip capacity st = Some (st1, msgs, Some e) ->
     (msgs = [] -> status = status_of_exc e) /\
     (msgs <> [] -> e <> TryAgain -> forall dev debug mip capacity,
        muxer_next dev debug mip capacity st' = Some (status_of_exc e, [], st'))) /\
  (forall status' st2, muxer_seek_beginning st' = Some (status', st2) ->
     _mExcToThrowType st2 = ExcNone /\ _mHeap st2 = []) /\
  (forall status' can st2, muxer_can_seek_beginning st' = Some (status', can, st2) ->
     _mExcToThrowType st2 = ExcNone /\ _mHeap st2 = _mHeap st' /\
     _mUpstreamMsgItersToReload st2 = _mUpstreamMsgItersToReload st').
Proof.
  intros Hn. split; [|split; [|split]].
  - revert Hn. unfold muxer_next. destruct (_mExcToThrowType st); [|by intros; simplify_eq|by intros; simplify_eq].
    destruct (_next _ _ _ _ _) as [[[st1 ms] [[]|]]|]; [..|done]; case_bool_decide; simpl; intros;
      simplify_eq; done.
  - intros st1 e He Hx. revert Hn. unfold muxer_next at 1. rewrite He, Hx.
    case_bool_decide as Hm; intros [= <- <-]; (split; [done|]); intros; [done|].
    by destruct e.
  - intros status' st2. unfold muxer_seek_beginning.
    destruct (seek_loop _) as [[its [e|]]|]; [..|done]; simpl; intros; by simplify_eq.
  - intros status' can st2. unfold muxer_can_seek_beginning.
    destruct (can_seek_loop _) as [[its [b|e]]|]; [..|done]; simpl; intros; by simplify_eq.
Qed.

Lemma seek_loop_ok (its : list (UpstreamMsgIter U)) ls :
  Forall2 (fun it ln => exists u, upstream_seek_beginning (_mMsgIter it) = Some (NextOk, u) /\
    yields u ln.1 ln.2) its ls ->
  exists its', seek_loop its = Some (its', None) /\
    Forall2 (fun it ln => _msgs it = None /\ _mDiscardRequired it = false /\ yields (_mMsgIter it) ln.1 ln.2)
      its' ls.
Proof.
  induction 1 as [|it ln its ls (u & Hs & Hy) _ (its' & Hl & Hf)]; [by exists []|].
  cbn [seek_loop]. unfold seekBeginning. rewrite Hs, Hl. eexists. split; [reflexivity|].
  constructor; [done|exact Hf].
Qed.

(** Seeking the beginning starts again: when a run of the muxer has ended and
    each upstream message iterator can seek its beginning, "seek beginning" returns
    OK, and calling [next] until END again gives a merge of all the messages that the
    upstream message iterators return after their seek. *)
Theorem muxer_seek_restarts dev debug mip capacity fuel (us : list U) ls ls2 out st :
  0 <= mip -> (0 < capacity)%nat -> Forall2 (fun u ln => yields u ln.1 ln.2) us ls ->
  mergeable mip (messages_of ls ++ messages_of ls2) -> (enough ls + enough ls2 <= fuel)%nat ->
  mux_run dev debug mip fuel capacity (new_msg_iter us) = Some (out, st) ->
  Forall2 (fun it ln => exists u, upstream_seek_beginning (_mMsgIter it) = Some (NextOk, u) /\
    yields u ln.1 ln.2) (_mUpstreamMsgIters st) ls2 ->
  exists st1 out2 st2 rem2, muxer_seek_beginning st = Some (NextOk, st1) /\
    mux_run dev debug mip fuel capacity st1 = Some (out2, st2) /\
    merges mip (length ls2) (script ls2) out2 rem2 /\ out2 ≡ₚ messages_of ls2.
Proof.
  intros Hmip Hcap Hus Hm Hf Hrun Hseek.
  set (P := fun m => m ∈ messages_of ls ++ messages_of ls2).
  assert (validator_ok mip P (_mClkCorrValidator st)) as Hv.
  { unfold new_msg_iter in Hrun. rewrite <- (length_map new_upstream us) in Hrun.
    destruct (run_of_scripts dev debug mip Hmip P (proj2 Hm) fuel capacity
      (map new_upstream us) ls new_validator Hcap (new_wrappers us ls Hus)) as (o & s' & r' & E & _ & _ & Hv).
    - eapply mergeable_scripts; [done|]. intros m Hin. apply elem_of_app. by left.
    - by left.
    - pose proof (enough_ok ls). lia.
    - rewrite Hrun in E. by simplify_eq. }
  destruct (seek_loop_ok _ _ Hseek) as (its' & Hs & Hits). unfold muxer_seek_beginning. rewrite Hs.
  destruct (run_of_scripts dev debug mip Hmip P (proj2 Hm) fuel capacity its' ls2
    (_mClkCorrValidator st) Hcap Hits) as (out2 & st2 & rem2 & Hrun2 & Hmg & He & _).
  - eapply mergeable_scripts; [done|]. intros m Hin. apply elem_of_app. by right.
  - done.
  - pose proof (enough_ok ls2). lia.
  - eexists _, out2, st2, rem2. split; [reflexivity|]. split; [done|]. split; [done|].
    by eapply complete_merge.
Qed.
End claims.

(** * Witnesses *)

(** Two message iterators, each with a stream with a packet, whose messages are in
    two batches; the clock class is the same. *)
#[local] Instance ex_mux_ir : TraceIr := {|
  stream_class := stream_class (TraceIr := ex_seek_trace);
  packet_stream := fun p => p
|}.
Definition ex_batches_of (s : positive) (t : Z) : list (list bt_message) :=
  [[StreamBeginning s (Some (ex_snapshot t)) true; PacketBeginning s (Some (ex_snapshot (t + 2)))];
   [Event ex_ec s (Some s) (Some (ex_snapshot (t + 4))); PacketEnd s (Some (ex_snapshot (t + 6)));
    StreamEnd s (Some (ex_snapshot (t + 8))) true]].
(** A user's iterator with all its batches and those that are left. *)
#[local] Instance ex_restartable : UserMethods (list (list bt_message) * list (list bt_message)) := {|
  user_next := fun w =>
    match w with (all, []) => (NextEnd, [], (all, [])) | (all, b :: bs) => (NextOk, b, (all, bs)) end;
  user_can_seek_beginning := Some (fun w => (NextOk, Some true, w));
  user_seek_beginning := Some (fun w => (NextOk, (fst w, fst w)));
  user_can_seek_ns_from_origin := None;
  user_seek_ns_from_origin := None
|}.
#[local] Instance ex_validator0 : CorrelationValidator ClockCorrelationValidator :=
  clock_correlation_validator false 0.
#[local] Instance ex_upstream_iterator : UpstreamIterator (bt_message_iterator _ _) :=
  iterator_upstream false true.

Definition ex_upstream (s : positive) (t : Z) :
    bt_message_iterator (list (list bt_message) * list (list bt_message)) ClockCorrelationValidator :=
  BtMessageIterator ACTIVE INT64_MIN new_validator ∅ true UserNext [] None
    (ex_batches_of s t, ex_batches_of s t).
Definition ex_us := [ex_upstream 1 10; ex_upstream 2 11].
Definition ex_ls : list (list bt_message * nat) :=
  [(concat (ex_batches_of 1 10), 0%nat); (concat (ex_batches_of 2 11), 0%nat)].

Lemma ex_user_yields all bs :
  Forall (fun b => b <> []) bs -> user_yields (all, bs) (concat bs) 0.
Proof. induction 1 as [|b bs Hb _ IH]; [by eapply UserYieldsEnd|]. by eapply UserYieldsOk. Qed.

Lemma ex_iterator_yields s t (it : bt_message_iterator _ _) :
  user it = (ex_batches_of s t, ex_batches_of s t) -> next it = UserNext -> state it = ACTIVE ->
  yields it (concat (ex_batches_of s t)) 0.
Proof.
  intros Hu Hn Hs. eapply iterator_yields; [|exact Hu|done|done].
  apply ex_user_yields. by repeat constructor.
Qed.

Lemma ex_yields : Forall2 (fun u ln => yields u ln.1 ln.2) ex_us ex_ls.
Proof. repeat (apply Forall2_cons_2; [by apply ex_iterator_yields|]). apply Forall2_nil_2. Qed.

Lemma ex_mergeable : mergeable (H0 := ex_mux_ir) 0 (messages_of ex_ls).
Proof.
  split.
  - repeat constructor; simpl; try done; (eexists; split; [reflexivity|]); by intros ? [= <-].
  - intros a b ca cb Ha Hb Ea Eb.
    assert (Hin : forall m c, m ∈ messages_of ex_ls -> validated_clock_class (H := ex_mux_ir) m = Some c ->
      c = Some (clock_class (ex_snapshot 1))).
    { intros m c Hm Hc. unfold messages_of in Hm. simpl in Hm. rewrite !elem_of_cons in Hm.
      repeat (destruct Hm as [-> |Hm]; [simpl in Hc; by simplify_eq|]). by apply not_elem_of_nil in Hm. }
    rewrite (Hin _ _ Ha Ea), (Hin _ _ Hb Eb). split; [|split].
    all: try done.
Qed.

Lemma muxer_run_merges_witness :
  exists out st', mux_run true true 0 11 3 (new_msg_iter ex_us) = Some (out, st') /\
    out ≡ₚ messages_of ex_ls /\ omap msg_ts out = [10; 11; 12; 13; 14; 15; 16; 17; 18; 19].
Proof.
  destruct (muxer_run_merges true true 0 3 11 ex_us ex_ls) as (out & st' & rem' & E & _ & Hp & _);
    [done|lia|exact ex_yields|exact ex_mergeable|vm_compute; lia|].
  exists out, st'. split; [exact E|]. split; [exact Hp|].
  vm_compute in E. injection E as <- _. reflexivity.
Defined.

Lemma muxer_keeps_message_rules_witness :
  exists out st', mux_run true true 0 11 15 (new_msg_iter ex_us) = Some (out, st') /\ follows_rules out.
Proof.
  apply (muxer_keeps_message_rules true true 0 15 11 ex_us ex_ls);
    [done|lia|exact ex_yields|exact ex_mergeable|vm_compute; lia|..].
  - intros s [|[|i]] [|[|j]] Hi Hj Hij Hs; try done; try (simpl in *; lia);
      unfold of_stream, script, ex_ls in *; simpl in *; rewrite !filter_cons in *; simpl in *;
      repeat case_decide; simplify_eq; done.
  - intros [|[|i]] Hi s Hs; [..|simpl in *; lia].
    all: unfold of_stream, script, ex_ls in *; simpl in *; rewrite !filter_cons in *; simpl in *.
    all: repeat case_decide; simplify_eq; try done.
    all: match goal with |- stream_sequence _ (?a :: ?b :: ?c :: ?d :: _) =>
           apply (StreamSequence _ _ _ _ _ _ _ [b; c; d]) end.
    all: match goal with |- stream_body _ (?b :: ?c :: _) =>
           apply (BodyPacket _ _ _ _ [c] []) end.
    all: try done; try constructor. all: try (left; by eexists _, _, _). all: constructor.
Defined.

Lemma muxer_next_refines_witness :
  exists status msgs st' rem' ns',
    muxer_next true true 0 3 (new_msg_iter ex_us) = Some (status, msgs, st') /\
    next_result 0 2 (script ex_ls) (agains ex_ls) status msgs rem' ns' /\ (length msgs <= 3)%nat.
Proof.
  destruct (muxer_next_refines true true 0 (messages_of ex_ls)) as (R & Hnew & Hstep);
    [done|exact ex_mergeable|].
  destruct (Hstep _ _ _ _ 3%nat (Hnew ex_us ex_ls ex_yields ltac:(done))) as
    (status & msgs & st' & rem' & ns' & ? & ? & ? & _); [lia|].
  by exists status, msgs, st', rem', ns'.
Defined.

Lemma muxer_seek_restarts_witness :
  exists out st st1 out2 st2, mux_run true true 0 22 3 (new_msg_iter ex_us) = Some (out, st) /\
    muxer_seek_beginning st = Some (NextOk, st1) /\
    mux_run true true 0 22 3 st1 = Some (out2, st2) /\ out2 ≡ₚ messages_of ex_ls.
Proof.
  destruct (mux_run true true 0 22 3 (new_msg_iter ex_us)) as [[out st]|] eqn:E; [|by vm_compute in E].
  destruct (muxer_seek_restarts true true 0 3 22 ex_us ex_ls ex_ls out st) as
    (st1 & out2 & st2 & rem2 & Hs & Hr & _ & Hp).
  - done.
  - lia.
  - exact ex_yields.
  - destruct ex_mergeable as [Hs Hc]. split; [apply Forall_app; split; exact Hs|].
    intros a b ca cb Ha%elem_of_app Hb%elem_of_app. apply Hc; [by destruct Ha|by destruct Hb].
  - vm_compute; lia.
  - exact E.
  - vm_compute in E. injection E as _ <-. apply Forall2_cons_2; [|apply Forall2_cons_2; [|apply Forall2_nil_2]].
    + eexists. split; [reflexivity|]. apply (ex_iterator_yields 1 10); reflexivity.
    + eexists. split; [reflexivity|]. apply (ex_iterator_yields 2 11); reflexivity.
  - exists out, st, st1, out2, st2. auto.
Defined.

(** An upstream message iterator that fails after a batch. *)
#[local] Instance ex_failing : UpstreamIterator (list bt_message) := {|
  upstream_next := fun u => match u with [] => Some (NextError, [], []) | _ => Some (NextOk, u, []) end;
  upstream_can_seek_beginning := fun u => Some (NextOk, Some false, u);
  upstream_seek_beginning := fun u => Some (NextError, u)
|}.

(** The error is returned as long as nothing else is asked; after the muxer is asked
    whether it can seek, it is not, and upstream is called again. *)
Lemma muxer_statuses_witness :
  let m := StreamBeginning 1%positive (Some (ex_snapshot 1)) true in
  exists st' st2, muxer_next true true 0 3 (new_msg_iter [[m]]) = Some (NextOk, [m], st') /\
    muxer_next true true 0 3 st' = Some (NextError, [], st') /\
    muxer_can_seek_beginning st' = Some (NextOk, false, st2) /\ _mExcToThrowType st2 = ExcNone.
Proof.
  intros m. destruct (muxer_next true true 0 3 (new_msg_iter [[m]])) as [[[status msgs] st']|] eqn:E;
    [|by vm_compute in E].
  destruct (_next true true 0 3 (new_msg_iter [[m]])) as [[[st1 ms] e]|] eqn:En; [|by vm_compute in En].
  destruct (muxer_can_seek_beginning st') as [[[sc can] st2]|] eqn:Ec; [|vm_compute in E; injection E as <- <- <-; by vm_compute in Ec].
  pose proof (muxer_statuses true true 0 3 (new_msg_iter [[m]]) status msgs st' E) as (_ & He & _ & Hc).
  pose proof (proj1 (Hc _ _ _ Ec)) as Hnone.
  vm_compute in E, En. injection E as <- <- <-. injection En as <- <- <-.
  vm_compute in Ec. injection Ec as <- <- <-. eexists _, _.
  split; [reflexivity|]. split; [by apply (proj2 (He _ Error eq_refl eq_refl))|]. by split.
Defined.
