(* ===== verification/Trimmer.v ===== *)
(** The message iterator of the trimmer component,
    [src/src/plugins/utils/trimmer/trimmer.c]: it sets its bounds, makes its
    upstream message iterator seek the beginning of the time range, then gives the
    messages up to its end, where it ends the streams that are not ended.

    The upstream message iterator is an instance of [Upstream.SeekableUpstream],
    the bounds are those of [TrimBounds].  The queue of messages to output has its
    tail first; [hash_order] gives the order of the entries of the hash table.  A
    function returns the status and the iterator; [None] is an abort or a null
    pointer. *)

From stdpp Require Import list gmap.
From Stdlib Require Import Sorted.
From S2P Require Import Prelude Clock Msg MsgCreate MsgSeq ClockCorr Iterator Upstream Utc TrimBounds.

Inductive trimmer_iterator_state :=
| TRIMMER_ITERATOR_STATE_SET_BOUNDS_NS_FROM_ORIGIN
| TRIMMER_ITERATOR_STATE_SEEK_INITIALLY
| TRIMMER_ITERATOR_STATE_TRIM
| TRIMMER_ITERATOR_STATE_ENDING
| TRIMMER_ITERATOR_STATE_ENDED.

(** [struct trimmer_iterator_stream_state]; the stream is null once it is ended. *)
Record stream_state := StreamState {
  ss_stream : option bt_stream;
  ss_seen_clock_snapshot : bool;
  cur_packet : option bt_packet
}.
Abbreviation stream_table := (gmap bt_stream stream_state).

Record trimmer_iterator (U : Type) := TrimmerIterator {
  t_comp : trimmer_comp;
  t_state : trimmer_iterator_state;
  upstream_iter : U;
  t_begin : trimmer_bound;
  t_end : trimmer_bound;
  output_messages : list bt_message;
  t_streams : stream_table
}.
Arguments TrimmerIterator {U}. Arguments t_comp {U}. Arguments t_state {U}.
Arguments upstream_iter {U}. Arguments t_begin {U}. Arguments t_end {U}.
Arguments output_messages {U}. Arguments t_streams {U}.

Section trimmer.
Context {U : Type} `{SeekableUpstream U} `{TraceIr} `{CTime}.
Context (dev debug : bool).
Context (hash_order : stream_table -> list (bt_stream * stream_state)).

Definition set_t_state (it : trimmer_iterator U) (s : trimmer_iterator_state) : trimmer_iterator U :=
  TrimmerIterator (t_comp it) s (upstream_iter it) (t_begin it) (t_end it) (output_messages it) (t_streams it).
Definition set_upstream_iter (it : trimmer_iterator U) (u : U) : trimmer_iterator U :=
  TrimmerIterator (t_comp it) (t_state it) u (t_begin it) (t_end it) (output_messages it) (t_streams it).
Definition set_bounds (it : trimmer_iterator U) (b e : trimmer_bound) : trimmer_iterator U :=
  TrimmerIterator (t_comp it) (t_state it) (upstream_iter it) b e (output_messages it) (t_streams it).
Definition set_output (it : trimmer_iterator U) (q : list bt_message) : trimmer_iterator U :=
  TrimmerIterator (t_comp it) (t_state it) (upstream_iter it) (t_begin it) (t_end it) q (t_streams it).
Definition set_streams (it : trimmer_iterator U) (t : stream_table) : trimmer_iterator U :=
  TrimmerIterator (t_comp it) (t_state it) (upstream_iter it) (t_begin it) (t_end it) (output_messages it) t.

Definition push_message (it : trimmer_iterator U) (msg : bt_message) : trimmer_iterator U :=
  set_output it (output_messages it ++ [msg]).

(** [trimmer_msg_iter_init], with the upstream message iterator. *)
Definition trimmer_msg_iter_init (comp : trimmer_comp) (u : U) : trimmer_iterator U :=
  TrimmerIterator comp
    (if b_is_set (tc_begin comp) && b_is_set (tc_end comp)
     then TRIMMER_ITERATOR_STATE_SEEK_INITIALLY
     else TRIMMER_ITERATOR_STATE_SET_BOUNDS_NS_FROM_ORIGIN)
    u (tc_begin comp) (tc_end comp) [] ∅.

(** * The time of a message *)

(** The time of a message, if it has one. *)
Inductive msg_time := MsgTimeError | MsgTime (ns_from_origin : option Z).

Definition snapshot_time (cs : option bt_clock_snapshot) : option msg_time :=
  do cs <- cs;
  do r <- bt_clock_snapshot_get_ns_from_origin debug cs INT64_MIN;
  Some match r with
       | (ClockOk, ns) => MsgTime (Some ns)
       | (ClockOverflowError, _) => MsgTimeError
       end.

Definition get_msg_ns_from_origin (msg : bt_message) : option msg_time :=
  let known (stream : bt_stream) (cs : option bt_clock_snapshot) (is_known : bool) :=
    match default_clock_class (stream_class stream) with
    | None => Some MsgTimeError
    | Some _ => if is_known then snapshot_time cs else Some (MsgTime None)
    end in
  match msg with
  | Event _ stream _ cs => known stream cs true
  | PacketBeginning packet cs =>
    if packets_have_beginning_default_clock_snapshot (stream_class (packet_stream packet))
    then snapshot_time cs else Some (MsgTime None)
  | PacketEnd packet cs =>
    if packets_have_end_default_clock_snapshot (stream_class (packet_stream packet))
    then snapshot_time cs else Some (MsgTime None)
  | StreamBeginning stream cs is_known | StreamEnd stream cs is_known => known stream cs is_known
  | DiscardedEvents stream cs _ _ =>
    if discarded_events_have_default_clock_snapshots (stream_class stream)
    then snapshot_time cs else Some (MsgTime None)
  | DiscardedPackets stream cs _ _ =>
    if discarded_packets_have_default_clock_snapshots (stream_class stream)
    then snapshot_time cs else Some (MsgTime None)
  | MessageIteratorInactivity cs => snapshot_time (Some cs)
  end.

(** * Setting the bounds *)

(** The first time of the messages of a batch. *)
Fixpoint first_time (msgs : list bt_message) : option msg_time :=
  match msgs with
  | [] => Some (MsgTime None)
  | msg :: msgs =>
    do t <- get_msg_ns_from_origin msg;
    match t with
    | MsgTime None => first_time msgs
    | MsgTimeError => Some MsgTimeError
    | MsgTime (Some ns) =>
      BT_ASSERT_DBG debug (negb (ns =? INT64_MIN) && negb (ns =? INT64_MAX)) (Some t)
    end
  end.

(** The loop on the batches; [fuel] bounds their number. *)
Fixpoint set_bounds_loop (fuel : nat) (it : trimmer_iterator U)
    : option (next_status * Z * trimmer_iterator U) :=
  match fuel with
  | O => None
  | S fuel =>
    do r <- upstream_next (upstream_iter it);
    let '(status, msgs, u) := r in
    let it := set_upstream_iter it u in
    match status with
    | NextOk =>
      do t <- first_time msgs;
      match t with
      | MsgTime None => set_bounds_loop fuel it
      | MsgTime (Some ns) => Some (NextOk, ns, it)
      | MsgTimeError => Some (NextError, 0, it)
      end
    | _ => Some (status, 0, it)
    end
  end.

(** One bound, if it is not set: whether it is set now, and the bound. *)
Definition complete_bound (bound : trimmer_bound) (ns : Z) (is_gmt : bool)
    : option (bool * trimmer_bound) :=
  if b_is_set bound then Some (true, bound)
  else
    guard_ub negb (b_is_infinite bound);
    do r <- set_trimmer_iterator_bound bound ns is_gmt;
    Some (fst r =? 0, snd r).

Definition state_set_trimmer_iterator_bounds (fuel : nat) (it : trimmer_iterator U)
    : option (next_status * trimmer_iterator U) :=
  guard_ub negb (b_is_set (t_begin it)) || negb (b_is_set (t_end it));
  do r <- set_bounds_loop fuel it;
  let '(status, ns, it) := r in
  match status with
  | NextOk =>
    do b <- complete_bound (t_begin it) ns (is_gmt (t_comp it));
    let it := set_bounds it (snd b) (t_end it) in
    if negb (fst b) then Some (NextError, it)
    else
      do e <- complete_bound (t_end it) ns (is_gmt (t_comp it));
      let it := set_bounds it (t_begin it) (snd e) in
      if negb (fst e) then Some (NextError, it)
      else
        do ok <- validate_trimmer_bounds (t_begin it) (t_end it);
        Some (if (ok : bool) then NextOk else NextError, it)
  | _ => Some (status, it)
  end.

(** * Seeking *)

Definition after_seek (it : trimmer_iterator U) (r : option (next_status * U))
    : option (next_status * trimmer_iterator U) :=
  do r <- r;
  let '(status, u) := r in
  let it := set_upstream_iter it u in
  Some (status,
        match status with NextOk => set_t_state it TRIMMER_ITERATOR_STATE_TRIM | _ => it end).

Definition state_seek_initially (it : trimmer_iterator U)
    : option (next_status * trimmer_iterator U) :=
  guard_ub b_is_set (t_begin it);
  let infinite := b_is_infinite (t_begin it) in
  let begin := b_ns_from_origin (t_begin it) in
  do r <-
    (if infinite then upstream_can_seek_beginning (upstream_iter it)
     else upstream_can_seek_ns_from_origin (upstream_iter it) begin);
  let '(status, can_seek, u) := r in
  let it := set_upstream_iter it u in
  match status with
  | NextOk =>
    do can_seek <- can_seek;
    if negb can_seek then Some (NextError, it)
    else
      after_seek it (if infinite then upstream_seek_beginning u
                     else upstream_seek_ns_from_origin u begin)
  | _ => Some (status, it)
  end.

(** * Ending the streams *)

(** The end of one stream: the status, the messages to output and its state. *)
Definition end_stream (end_ns : Z) (queue : list bt_message) (sstate : stream_state)
    : option (next_status * list bt_message * stream_state) :=
  do stream <- ss_stream sstate;
  do raw_value <-
    (if ss_seen_clock_snapshot sstate then
       do cc <- default_clock_class (stream_class stream);
       do r <- clock_raw_value_from_ns_from_origin cc end_ns 0;
       Some (if fst r =? 0 then Some (snd r) else None)
     else Some (Some 0));
  match raw_value with
  | None => Some (NextError, queue, sstate)
  | Some raw_value =>
    do queue <-
      match cur_packet sstate with
      | Some packet =>
        guard_ub ss_seen_clock_snapshot sstate;
        do msg <- create_packet_message debug true packet (Some raw_value);
        Some (queue ++ [msg])
      | None => Some queue
      end;
    let msg := create_stream_message true stream in
    do msg <- (if ss_seen_clock_snapshot sstate
               then set_stream_default_clock_snapshot debug msg raw_value else Some msg);
    Some (NextOk, queue ++ [msg], StreamState None (ss_seen_clock_snapshot sstate) None)
  end.

Fixpoint end_streams_loop (entries : list (bt_stream * stream_state)) (it : trimmer_iterator U)
    : option (next_status * trimmer_iterator U) :=
  match entries with
  | [] => Some (NextOk, it)
  | (stream, sstate) :: entries =>
    do r <- end_stream (b_ns_from_origin (t_end it)) (output_messages it) sstate;
    let '(status, queue, sstate) := r in
    let it := set_streams (set_output it queue) (<[stream := sstate]> (t_streams it)) in
    match status with
    | NextOk => end_streams_loop entries it
    | _ => Some (status, it)
    end
  end.

Definition end_iterator_streams (it : trimmer_iterator U) : option (next_status * trimmer_iterator U) :=
  if b_is_infinite (t_end it) then Some (NextOk, set_streams it ∅)
  else
    do r <- end_streams_loop (hash_order (t_streams it)) it;
    Some (match r with
          | (NextOk, it) => (NextOk, set_streams it ∅)
          | r => r
          end).

(** * Handling a message *)

(** Whether the trimmer supports the streams of a class. *)
Definition supported_class (c : bt_stream_class) : bool :=
  bool_decide (is_Some (default_clock_class c)) &&
  (negb (supports_packets c) ||
   packets_have_beginning_default_clock_snapshot c &&
   packets_have_end_default_clock_snapshot c &&
   (negb (supports_discarded_packets c) || discarded_packets_have_default_clock_snapshots c)) &&
  (negb (supports_discarded_events c) || discarded_events_have_default_clock_snapshots c).

Definition create_stream_state_entry (it : trimmer_iterator U) (stream : bt_stream)
    : option (next_status * trimmer_iterator U) :=
  guard_ub bool_decide (t_streams it !! stream = None);
  if supported_class (stream_class stream)
  then Some (NextOk, set_streams it (<[stream := StreamState (Some stream) false None]> (t_streams it)))
  else Some (NextError, it).

(** A null entry is dereferenced later, if at all. *)
Definition get_stream_state_entry (it : trimmer_iterator U) (stream : bt_stream)
    : option (option stream_state) :=
  BT_ASSERT_DBG debug (bool_decide (is_Some (t_streams it !! stream)))
    (Some (t_streams it !! stream)).

Definition past_end (it : trimmer_iterator U) (ns : Z) : bool :=
  negb (b_is_infinite (t_end it)) && (b_ns_from_origin (t_end it) <? ns).

(** The three results of the handling of a message: the status, the iterator and
    whether the end of the range is reached. *)
Abbreviation handled := (option (next_status * trimmer_iterator U * bool)).

Definition reach_end (it : trimmer_iterator U) : handled :=
  do r <- end_iterator_streams it;
  Some (fst r, snd r, true).

Definition set_sstate (it : trimmer_iterator U) (stream : bt_stream) (sstate : stream_state)
    : trimmer_iterator U := set_streams it (<[stream := sstate]> (t_streams it)).

(** A discarded items message: [rebuild] is false for discarded events. *)
Definition handle_discarded_items (it : trimmer_iterator U) (msg : bt_message) (is_packets : bool)
    (stream : bt_stream) (begin_cs end_cs : option bt_clock_snapshot) (ns_from_origin : option Z)
    (sstate : option stream_state) : handled :=
  do ns <- ns_from_origin;
  do ss <- sstate;
  let it := set_sstate it stream (StreamState (ss_stream ss) true (cur_packet ss)) in
  do end_time <- snapshot_time end_cs;
  match end_time with
  | MsgTimeError => Some (NextError, it, false)
  | MsgTime end_ns =>
    do end_ns <- end_ns;
    if past_end it ns then reach_end it
    else if past_end it end_ns then
      do e <- end_cs;
      do r <- clock_raw_value_from_ns_from_origin (clock_class e) (b_ns_from_origin (t_end it)) 0;
      if negb (fst r =? 0) then Some (NextError, it, false)
      else
        do b <- begin_cs;
        do s <- ss_stream ss;
        do new_msg <- create_with_default_clock_snapshots debug is_packets s (value_cycles b) (snd r);
        Some (NextOk, push_message it new_msg, false)
    else Some (NextOk, push_message it msg, false)
  end.

Definition handle_message_with_stream (it : trimmer_iterator U) (msg : bt_message)
    (stream : bt_stream) (ns_from_origin : option Z) : handled :=
  do sstate <-
    match msg with
    | StreamBeginning _ _ _ => Some None
    | _ => get_stream_state_entry it stream
    end;
  match msg with
  | Event _ _ _ _ =>
    do ns <- ns_from_origin;
    if past_end it ns then reach_end it
    else
      do ss <- sstate;
      Some (NextOk, push_message (set_sstate it stream (StreamState (ss_stream ss) true (cur_packet ss))) msg,
            false)
  | PacketBeginning packet _ =>
    do ns <- ns_from_origin;
    do ss <- sstate;
    guard_ub bool_decide (cur_packet ss = None);
    if past_end it ns then reach_end it
    else
      Some (NextOk, push_message (set_sstate it stream (StreamState (ss_stream ss) true (Some packet))) msg,
            false)
  | PacketEnd _ _ =>
    do ns <- ns_from_origin;
    do ss <- sstate;
    guard_ub bool_decide (is_Some (cur_packet ss));
    if past_end it ns then reach_end it
    else
      Some (NextOk, push_message (set_sstate it stream (StreamState (ss_stream ss) true None)) msg, false)
  | DiscardedEvents _ begin_cs end_cs _ =>
    handle_discarded_items it msg false stream begin_cs end_cs ns_from_origin sstate
  | DiscardedPackets _ begin_cs end_cs _ =>
    handle_discarded_items it msg true stream begin_cs end_cs ns_from_origin sstate
  | StreamBeginning _ _ _ =>
    if from_option (past_end it) false ns_from_origin then reach_end it
    else
      do r <- create_stream_state_entry it stream;
      match r with
      | (NextOk, it) =>
        do ss <- t_streams it !! stream;
        let it := if bool_decide (is_Some ns_from_origin)
                  then set_sstate it stream (StreamState (ss_stream ss) true (cur_packet ss)) else it in
        Some (NextOk, push_message it msg, false)
      | (status, it) => Some (status, it, false)
      end
  | StreamEnd _ _ _ =>
    if from_option (past_end it) false ns_from_origin then reach_end it
    else
      do ss <- sstate;
      do s <- ss_stream ss;
      guard_ub bool_decide (is_Some (t_streams it !! s));
      Some (NextOk, set_streams (push_message it msg) (delete s (t_streams it)), false)
  | MessageIteratorInactivity _ => Some (NextOk, it, false)
  end.

(** For a message iterator inactivity message, whether the end is infinite does not
    matter. *)
Definition handle_message (it : trimmer_iterator U) (msg : bt_message) : handled :=
  do t <- get_msg_ns_from_origin msg;
  match t with
  | MsgTimeError => Some (NextError, it, false)
  | MsgTime ns =>
    match get_stream_from_msg msg with
    | Some stream => handle_message_with_stream it msg stream ns
    | None =>
      if b_ns_from_origin (t_end it) <? from_option id INT64_MIN ns then reach_end it
      else Some (NextOk, push_message it msg, false)
    end
  end.

(** * The "next" method *)

(** The messages of the output queue that fit: the iterator and the messages. *)
Definition fill_message_array_from_output_messages (it : trimmer_iterator U) (capacity : nat)
    : option (trimmer_iterator U * list bt_message) :=
  let msgs := take capacity (output_messages it) in
  BT_ASSERT_DBG debug (0 <? length msgs)%nat
    (Some (set_output it (drop capacity (output_messages it)), msgs)).

Definition state_ending (it : trimmer_iterator U) (capacity : nat)
    : option (next_status * list bt_message * trimmer_iterator U) :=
  if bool_decide (output_messages it = [])
  then Some (NextEnd, [], set_t_state it TRIMMER_ITERATOR_STATE_ENDED)
  else do r <- fill_message_array_from_output_messages it capacity; Some (NextOk, snd r, fst r).

(** The loop on the messages of a batch. *)
Fixpoint handle_messages (it : trimmer_iterator U) (msgs : list bt_message) : handled :=
  match msgs with
  | [] => Some (NextOk, it, false)
  | msg :: msgs =>
    do r <- handle_message it msg;
    match r with
    | (NextOk, it, false) => handle_messages it msgs
    | r => Some r
    end
  end.

(** The loop while the output queue is empty; [fuel] bounds the number of batches. *)
Fixpoint trim_loop (fuel : nat) (it : trimmer_iterator U) (capacity : nat)
    : option (next_status * list bt_message * trimmer_iterator U) :=
  match fuel with
  | O => None
  | S fuel =>
    if negb (bool_decide (output_messages it = [])) then
      do r <- fill_message_array_from_output_messages it capacity; Some (NextOk, snd r, fst r)
    else
      do r <- upstream_next (upstream_iter it);
      let '(status, my_msgs, u) := r in
      let it := set_upstream_iter it u in
      match status with
      | NextOk =>
        BT_ASSERT_DBG debug (0 <? length my_msgs)%nat
          (do r <- handle_messages it my_msgs;
           match r with
           | (NextOk, it, true) => state_ending (set_t_state it TRIMMER_ITERATOR_STATE_ENDING) capacity
           | (NextOk, it, false) => trim_loop fuel it capacity
           | (status, it, _) => Some (status, [], it)
           end)
      | NextEnd =>
        do r <- end_iterator_streams it;
        match r with
        | (NextOk, it) => state_ending (set_t_state it TRIMMER_ITERATOR_STATE_ENDING) capacity
        | (status, it) => Some (status, [], it)
        end
      | _ => Some (status, [], it)
      end
  end.

Definition state_trim (fuel : nat) (it : trimmer_iterator U) (capacity : nat)
    : option (next_status * list bt_message * trimmer_iterator U) := trim_loop fuel it capacity.

(** Seeks, then trims. *)
Definition seek_then_trim (fuel : nat) (it : trimmer_iterator U) (capacity : nat)
    : option (next_status * list bt_message * trimmer_iterator U) :=
  do r <- state_seek_initially it;
  match r with
  | (NextOk, it) => state_trim fuel it capacity
  | (status, it) => Some (status, [], it)
  end.

Definition trimmer_msg_iter_next (fuel : nat) (it : trimmer_iterator U) (capacity : nat)
    : option (next_status * list bt_message * trimmer_iterator U) :=
  match t_state it with
  | TRIMMER_ITERATOR_STATE_TRIM => state_trim fuel it capacity
  | TRIMMER_ITERATOR_STATE_SET_BOUNDS_NS_FROM_ORIGIN =>
    do r <- state_set_trimmer_iterator_bounds fuel it;
    match r with
    | (NextOk, it) => seek_then_trim fuel it capacity
    | (status, it) => Some (status, [], it)
    end
  | TRIMMER_ITERATOR_STATE_SEEK_INITIALLY => seek_then_trim fuel it capacity
  | TRIMMER_ITERATOR_STATE_ENDING => state_ending it capacity
  | TRIMMER_ITERATOR_STATE_ENDED => Some (NextEnd, [], it)
  end.

(** The calls of "next" until END, with AGAIN retried; [inner] bounds the batches of
    one call. *)
Fixpoint trim_run (inner capacity fuel : nat) (it : trimmer_iterator U)
    : option (list bt_message * trimmer_iterator U) :=
  match fuel with
  | O => None
  | S fuel =>
    do r <- trimmer_msg_iter_next inner it capacity;
    match r with
    | (NextOk, msgs, it) | (NextAgain, msgs, it) =>
      do r <- trim_run inner capacity fuel it;
      Some (msgs ++ fst r, snd r)
    | (NextEnd, _, it) => Some ([], it)
    | _ => None
    end
  end.
End trimmer.

(** * Specification: trimming a sequence of messages *)

Section spec.
Context `{TraceIr} (debug : bool).

(** The time of a message that has one. *)
Definition trim_time (m : bt_message) : option Z :=
  match get_msg_ns_from_origin debug m with Some (MsgTime t) => t | _ => None end.

(** The end of the range; [None] is infinite. *)
Context (E : option Z).

Definition past (m : bt_message) : bool :=
  match E, trim_time m with Some e, Some t => e <? t | _, _ => false end.

(** The messages before the first one past the end, and the others. *)
Fixpoint kept (l : list bt_message) : list bt_message :=
  match l with [] => [] | m :: l => if past m then [] else m :: kept l end.
Fixpoint left_out (l : list bt_message) : list bt_message :=
  match l with [] => [] | m :: l' => if past m then l else left_out l' end.

(** The clock snapshot, of the stream's default clock, for the end of the range. *)
Definition end_snapshot (s : bt_stream) : option bt_clock_snapshot :=
  do e <- E;
  do cc <- default_clock_class (stream_class s);
  do r <- clock_raw_value_from_ns_from_origin cc e 0;
  if fst r =? 0 then new_snapshot debug cc (snd r) else None.

(** A discarded items message that straddles the end is cut: it ends at the end of
    the range and has no count. *)
Definition cut_items (m : bt_message) (is_packets : bool) (s : bt_stream)
    (begin_cs end_cs : option bt_clock_snapshot) : option bt_message :=
  match E, snapshot_time debug end_cs with
  | Some e, Some (MsgTime (Some t)) =>
    if e <? t then
      do ecs <- end_cs;
      do bcs <- begin_cs;
      do r <- clock_raw_value_from_ns_from_origin (clock_class ecs) e 0;
      if fst r =? 0 then create_with_default_clock_snapshots debug is_packets s (value_cycles bcs) (snd r)
      else None
    else Some m
  | None, Some (MsgTime (Some t)) => Some m
  | _, _ => None
  end.
Definition cut (m : bt_message) : option bt_message :=
  match m with
  | DiscardedEvents s b e _ => cut_items m false s b e
  | DiscardedPackets s b e _ => cut_items m true s b e
  | _ => Some m
  end.

(** The messages that end a stream: [seen] tells whether it had a time. *)
Definition closing (s : bt_stream) (seen : bool) (ph : phase) : list bt_message :=
  let stream_end :=
    StreamEnd s (if seen then end_snapshot s
                 else option_map bt_clock_snapshot_new (default_clock_class (stream_class s))) seen in
  match ph with
  | Within => [stream_end]
  | InPacket p => [PacketEnd p (end_snapshot s); stream_end]
  | _ => []
  end.

(** Whether messages of a stream have a time. *)
Definition sees (s : bt_stream) (l : list bt_message) : bool :=
  existsb (fun m => bool_decide (get_stream_from_msg m = Some s) && bool_decide (is_Some (trim_time m))) l.

(** A discarded items message past the end counts as a time of its stream. *)
Definition is_discarded_items (m : bt_message) : bool :=
  match m with DiscardedEvents _ _ _ _ | DiscardedPackets _ _ _ _ => true | _ => false end.
Definition last_seen (l : list bt_message) : list bt_message :=
  match left_out l with m :: _ => if is_discarded_items m then [m] else [] | [] => [] end.

(** What the trimmer gives for [l]: the kept messages, cut, then messages that end
    the streams that are not ended. *)
Definition trimmed (l out : list bt_message) : Prop :=
  exists msgs closings, out = msgs ++ closings /\ Forall2 (fun m m' => cut m = Some m') (kept l) msgs /\
    Forall (fun m => is_Some (get_stream_from_msg m)) closings /\
    forall s ph, phase_run (stream_class s) Ready (of_stream s (kept l)) = Some ph ->
      of_stream s closings =
        (if bool_decide (is_Some E) then closing s (sees s (kept l ++ last_seen l)) ph else []).

(** A message that the trimmer can handle: its time can be computed, and it has one
    unless it begins or ends a stream; its stream is supported and the end of the
    range is in the range of its clock; it can be cut.  The trimmer compares the
    time of an inactivity message with [zero_end] when the end is infinite. *)
Definition can_trim (m : bt_message) : Prop :=
  (exists t, get_msg_ns_from_origin debug m = Some (MsgTime t)) /\
  match m with StreamBeginning _ _ _ | StreamEnd _ _ _ => True | _ => is_Some (trim_time m) end /\
  match m with
  | StreamBeginning s _ _ => supported_class (stream_class s) = true
  | DiscardedEvents _ _ e _ | DiscardedPackets _ _ e _ =>
    exists t, snapshot_time debug e = Some (MsgTime (Some t))
  | _ => True
  end /\
  (past m = false -> is_Some (cut m)) /\
  (forall s, get_stream_from_msg m = Some s -> is_Some (trim_time m) -> is_Some E -> is_Some (end_snapshot s)).
Definition inactivity_before (zero_end : Z) (m : bt_message) : Prop :=
  match E, m with
  | None, MessageIteratorInactivity _ => from_option (fun t => t <= zero_end) True (trim_time m)
  | _, _ => True
  end.

Lemma kept_left_out l : l = kept l ++ left_out l.
Proof. induction l as [|m l IH]; [done|]. simpl. destruct (past m); simpl; congruence. Qed.

Lemma kept_app l k : Forall (fun m => past m = false) l -> kept (l ++ k) = l ++ kept k.
Proof. induction 1 as [|m l Hm _ IH]; [done|]. simpl. by rewrite Hm, IH. Qed.
Lemma left_out_app l k : Forall (fun m => past m = false) l -> left_out (l ++ k) = left_out k.
Proof. induction 1 as [|m l Hm _ IH]; [done|]. simpl. by rewrite Hm, IH. Qed.

(** Cutting a message keeps what the rules look at. *)
Lemma cut_stream m m' : cut m = Some m' -> get_stream_from_msg m' = get_stream_from_msg m.
Proof.
  destruct m; simpl; try congruence; unfold cut_items, create_with_default_clock_snapshots,
    create_discarded_items_message, BT_ASSERT_PRE; intros; repeat case_match; simplify_eq; done.
Qed.
Lemma cut_phase m m' c ph : cut m = Some m' -> phase_step c ph m' = phase_step c ph m.
Proof.
  destruct m; simpl; try congruence; unfold cut_items, create_with_default_clock_snapshots,
    create_discarded_items_message, BT_ASSERT_PRE; intros; repeat case_match; simplify_eq; done.
Qed.

Lemma cut_run l l' s : Forall2 (fun m m' => cut m = Some m') l l' ->
  forall ph, phase_run (stream_class s) ph (of_stream s l') = phase_run (stream_class s) ph (of_stream s l).
Proof.
  induction 1 as [|m m' l l' Hm _ IH]; intros ph; [done|]. rewrite !of_stream_cons, (cut_stream _ _ Hm).
  destruct (decide _); [|done]. simpl. rewrite (cut_phase _ _ _ _ Hm).
  by destruct (phase_step _ ph m).
Qed.

Lemma sees_app s l k : sees s (l ++ k) = sees s l || sees s k.
Proof. apply existsb_app. Qed.

Lemma closing_run s seen ph :
  phase_ok s ph -> ph <> Ready -> phase_run (stream_class s) ph (closing s seen ph) = Some Ended.
Proof. destruct ph as [| |p|]; try done. simpl. intros _ _. by rewrite decide_True. Qed.

Lemma closing_stream s seen ph : phase_ok s ph -> of_stream s (closing s seen ph) = closing s seen ph.
Proof.
  unfold of_stream. destruct ph as [| |p|]; simpl; try done.
  - intros _. by rewrite filter_cons_True.
  - intros [_ Hp]. rewrite !filter_cons_True by (simpl; congruence). done.
Qed.
End spec.

(** * The trimmer implements trimming *)

Section impl.
Context {U : Type} `{SeekableUpstream U} `{TraceIr} `{CTime}.
Context (debug : bool).
Context (hash_order : stream_table -> list (bt_stream * stream_state)).
Context (hash_order_perm : forall t, hash_order t ≡ₚ map_to_list t).
Context (E : option Z) (zero_end : Z).

(** The end bound of an iterator is [E], or infinite with the time [zero_end]. *)
Definition ends_at (b : trimmer_bound) : Prop :=
  match E with
  | Some e => b_is_infinite b = false /\ b_ns_from_origin b = e
  | None => b_is_infinite b = true /\ b_ns_from_origin b = zero_end
  end.

(** The entry of a stream that is in a phase. *)
Definition entry_ok (s : bt_stream) (ph : phase) (seen : bool) (st : option stream_state) : Prop :=
  match ph with
  | Ready => st = None /\ seen = false
  | Ended => st = None
  | Within => st = Some (StreamState (Some s) seen None)
  | InPacket p => st = Some (StreamState (Some s) seen (Some p)) /\ seen = true
  end.
Definition open_ok (s : bt_stream) (ph : phase) : Prop :=
  phase_ok s ph /\ (ph <> Ready -> supported_class (stream_class s) = true).
Definition table_ok (t : stream_table) (phs : bt_stream -> phase) (seen : bt_stream -> bool) : Prop :=
  forall s, open_ok s (phs s) /\ entry_ok s (phs s) (seen s) (t !! s).

Lemma open_ok_step s ph m ph' :
  get_stream_from_msg m = Some s -> open_ok s ph -> phase_step (stream_class s) ph m = Some ph' ->
  match m with StreamBeginning s _ _ => supported_class (stream_class s) = true | _ => True end ->
  open_ok s ph'.
Proof.
  intros Hm [Hph Hsup] Hst Hbeg. split; [by eapply phase_step_ok|]. intros _.
  destruct ph; [|by apply Hsup..]. destruct m; try done. simpl in Hm. by injection Hm as <-.
Qed.

Definition upd_seen (seen : bt_stream -> bool) (s : bt_stream) (b : bool) : bt_stream -> bool :=
  fun x => if decide (x = s) then b else seen x.

Lemma table_ok_set t t' phs seen s ph b :
  table_ok t phs seen -> open_ok s ph -> entry_ok s ph b (t' !! s) ->
  (forall x, x <> s -> t' !! x = t !! x) -> table_ok t' (set_phase phs s ph) (upd_seen seen s b).
Proof.
  intros Hok Hph He Hne x. unfold set_phase, upd_seen. destruct (decide (x = s)) as [-> |Hx]; [done|].
  rewrite Hne by done. apply Hok.
Qed.

Lemma table_ok_insert t phs seen s ph b st :
  table_ok t phs seen -> open_ok s ph -> entry_ok s ph b (Some st) ->
  table_ok (<[s := st]> t) (set_phase phs s ph) (upd_seen seen s b).
Proof.
  intros Hok Hph He. eapply table_ok_set; [done|done|by rewrite lookup_insert_eq|].
  intros x Hx. by apply lookup_insert_ne.
Qed.

(** What handling a message keeps of the iterator. *)
Definition same_but (it it' : trimmer_iterator U) : Prop :=
  t_comp it' = t_comp it /\ t_state it' = t_state it /\ upstream_iter it' = upstream_iter it /\
  t_begin it' = t_begin it /\ t_end it' = t_end it.

Lemma same_but_trans it1 it2 it3 : same_but it1 it2 -> same_but it2 it3 -> same_but it1 it3.
Proof. unfold same_but. intuition congruence. Qed.

Lemma past_end_past (it : trimmer_iterator U) m t :
  ends_at (t_end it) -> trim_time debug m = Some t -> past_end it t = past debug E m.
Proof.
  unfold ends_at, past_end, past. intros He ->. destruct E as [e|]; destruct He as [-> ->]; done.
Qed.

Lemma time_of m : can_trim debug E m -> get_msg_ns_from_origin debug m = Some (MsgTime (trim_time debug m)).
Proof. intros [[t Ht] _]. unfold trim_time. by rewrite Ht. Qed.

(** A discarded items message before the end. *)
Lemma discarded_ok (it : trimmer_iterator U) m (is_packets : bool) s b e cnt ns st :
  m = (if is_packets then DiscardedPackets s b e cnt else DiscardedEvents s b e cnt) ->
  can_trim debug E m -> ends_at (t_end it) -> past debug E m = false -> trim_time debug m = Some ns ->
  ss_stream st = Some s ->
  exists m', cut debug E m = Some m' /\
    handle_discarded_items debug hash_order it m is_packets s b e (Some ns) (Some st) =
      Some (NextOk, push_message (set_sstate it s (StreamState (Some s) true (cur_packet st))) m', false).
Proof.
  intros Hm (_ & _ & Hend & Hcut & _) He Hp Ht Hs.
  assert (He' : ends_at (t_end (set_sstate it s (StreamState (Some s) true (cur_packet st))))) by done.
  destruct (Hcut Hp) as [m' Hm']. exists m'. split; [done|].
  assert (exists t, snapshot_time debug e = Some (MsgTime (Some t))) as [t Hst]
    by (subst m; by destruct is_packets).
  assert (Hc : cut_items debug E m is_packets s b e = Some m') by (subst m; by destruct is_packets).
  unfold handle_discarded_items. rewrite Hs, Hst.
  rewrite (past_end_past _ m) by done. rewrite Hp.
  unfold cut_items in Hc. rewrite Hst in Hc. unfold ends_at in He. unfold past_end.
  cbn [t_end set_sstate set_streams].
  destruct E as [end_ns|]; destruct He as [-> Hns]; cbn [negb andb]; [|by simplify_eq].
  rewrite Hns. destruct (end_ns <? t); [|by simplify_eq].
  destruct e as [ecs|]; [|done]. destruct b as [bcs|]; [|done].
  destruct (clock_raw_value_from_ns_from_origin _ _ _) as [[ret raw]|]; [|done]. simpl fst in *.
  destruct (ret =? 0); [|done]. simpl negb. cbv iota. simpl snd in *. by rewrite Hc.
Qed.

(** The entry of a stream in which there is an event or discarded items. *)
Lemma open_entry s ph ph' seen entry m :
  entry_ok s ph seen entry -> phase_step (stream_class s) ph m = Some ph' ->
  match m with Event _ _ _ _ | DiscardedEvents _ _ _ _ | DiscardedPackets _ _ _ _ => True | _ => False end ->
  exists st, entry = Some st /\ ss_stream st = Some s /\
    entry_ok s ph' true (Some (StreamState (Some s) true (cur_packet st))).
Proof.
  intros Hen Hst Hm. destruct ph, m as [| |? ? []| | | | |]; try done; simpl in Hst;
    repeat case_match; simplify_eq; simpl in Hen; try (apply proj1 in Hen); rewrite Hen;
    eexists; (split; [reflexivity|]); by subst.
Qed.

(** A message of a stream, before the end: handled, with the message [m'] output. *)
Definition handles (it : trimmer_iterator U) (r : option (next_status * trimmer_iterator U * bool))
    (m' : bt_message) (phs : bt_stream -> phase) (seen : bt_stream -> bool) : Prop :=
  exists it', r = Some (NextOk, it', false) /\ same_but it it' /\
    output_messages it' = output_messages it ++ [m'] /\ table_ok (t_streams it') phs seen.

Ltac handled_by_insert :=
  eexists; split; [reflexivity|]; split; [done|]; split; [done|]; by apply table_ok_insert.

Lemma handle_stream_ends (it : trimmer_iterator U) m s phs seen ph' :
  match m with StreamBeginning _ _ _ | StreamEnd _ _ _ => True | _ => False end ->
  table_ok (t_streams it) phs seen -> ends_at (t_end it) -> can_trim debug E m ->
  past debug E m = false -> get_stream_from_msg m = Some s ->
  phase_step (stream_class s) (phs s) m = Some ph' ->
  handles it (handle_message debug hash_order it m) m (set_phase phs s ph')
    (upd_seen seen s (seen s || bool_decide (is_Some (trim_time debug m)))).
Proof.
  intros Hends Hok He Hcan Hp Hm Hst. pose proof (time_of m Hcan) as Ht.
  destruct (Hok s) as [Hph Hen]. pose proof Hcan as (_ & _ & Hsup & _).
  assert (Hph' : open_ok s ph') by (eapply open_ok_step; [exact Hm|exact Hph|exact Hst|by destruct m]).
  unfold handle_message. rewrite Ht, Hm.
  assert (Hpe : from_option (past_end it) false (trim_time debug m) = false).
  { destruct (trim_time debug m) eqn:Htt; [|done]. simpl. by rewrite (past_end_past it m _ He Htt). }
  unfold handle_message_with_stream, get_stream_state_entry, BT_ASSERT_DBG.
  destruct m; try done; simpl in Hm; injection Hm as Hm; subst; destruct (phs s) eqn:Ephs; simpl in Hst;
    try done; injection Hst as <-; rewrite Hpe.
  - destruct Hen as [Hnone Hseen]. unfold create_stream_state_entry.
    rewrite Hnone, Hsup, bool_decide_eq_true_2 by done. cbn [t_streams set_streams].
    rewrite lookup_insert_eq, Hseen. cbn [orb].
    destruct (bool_decide (is_Some (trim_time debug _))); eexists; (split; [reflexivity|]);
      (split; [done|]); (split; [done|]); simpl; rewrite ?insert_insert_eq; by apply table_ok_insert.
  - simpl in Hen. rewrite Hen. rewrite !bool_decide_eq_true_2 by (by eexists). cbn [negb].
    rewrite andb_false_r. cbn [ss_stream]. rewrite Hen, bool_decide_eq_true_2 by (by eexists).
    eexists. split; [reflexivity|]. split; [done|]. split; [done|].
    eapply table_ok_set; [exact Hok|done|apply lookup_delete_eq|]. intros x Hx. by apply lookup_delete_ne.
Qed.

Lemma handle_inside (it : trimmer_iterator U) m s ns phs seen ph' :
  trim_time debug m = Some ns ->
  match m with StreamBeginning _ _ _ | StreamEnd _ _ _ => False | _ => True end ->
  table_ok (t_streams it) phs seen -> ends_at (t_end it) -> can_trim debug E m ->
  past debug E m = false -> get_stream_from_msg m = Some s ->
  phase_step (stream_class s) (phs s) m = Some ph' ->
  exists m', cut debug E m = Some m' /\
    handles it (handle_message debug hash_order it m) m' (set_phase phs s ph') (upd_seen seen s true).
Proof.
  intros Hns Hin Hok He Hcan Hp Hm Hst. pose proof (time_of m Hcan) as Ht. destruct (Hok s) as [Hph Hen].
  assert (Hph' : open_ok s ph') by (eapply open_ok_step; [exact Hm|exact Hph|exact Hst|by destruct m]).
  unfold handle_message. rewrite Ht, Hm, Hns. pose proof (past_end_past it m _ He Hns) as Hpe. rewrite Hp in Hpe.
  unfold handle_message_with_stream, get_stream_state_entry, BT_ASSERT_DBG.
  assert (Hopen : is_Some (t_streams it !! s)).
  { destruct (phs s), m as [| |? ? []| | | | |]; try done; simpl in Hen; try (apply proj1 in Hen); by eexists. }
  destruct m; try done; simpl in Hm; injection Hm as Hm; try subst;
    rewrite (bool_decide_eq_true_2 _ Hopen); cbn [negb]; rewrite andb_false_r;
    try (destruct (open_entry _ _ _ _ _ _ Hen Hst I) as (st & Hs & Hss & Hen'); rewrite Hs).
  - eexists. split; [reflexivity|]. rewrite Hpe, Hss. handled_by_insert.
  - destruct (phs _) eqn:Ephs; simpl in Hst; try done. destruct (supports_packets _); [|done].
    injection Hst as <-. simpl in Hen. rewrite Hen. cbn [cur_packet ss_stream].
    rewrite bool_decide_eq_true_2, Hpe by done. eexists. split; [reflexivity|]. handled_by_insert.
  - destruct (phs _) as [| |p|] eqn:Ephs; simpl in Hst; try done. case_decide; [|done].
    injection Hst as <-. simpl in Hen. rewrite (proj1 Hen). cbn [cur_packet ss_stream].
    rewrite bool_decide_eq_true_2, Hpe by (by eexists). eexists. split; [reflexivity|]. handled_by_insert.
  - destruct (discarded_ok it _ false s default_begin_cs default_end_cs count ns st eq_refl Hcan He Hp Hns Hss)
      as (m' & Hm' & ->). exists m'. split; [done|]. handled_by_insert.
  - destruct (discarded_ok it _ true s default_begin_cs default_end_cs count ns st eq_refl Hcan He Hp Hns Hss)
      as (m' & Hm' & ->). exists m'. split; [done|]. handled_by_insert.
Qed.

Lemma handle_kept (it : trimmer_iterator U) m s phs seen ph' :
  table_ok (t_streams it) phs seen -> ends_at (t_end it) -> can_trim debug E m ->
  past debug E m = false -> get_stream_from_msg m = Some s ->
  phase_step (stream_class s) (phs s) m = Some ph' ->
  exists m', cut debug E m = Some m' /\
    handles it (handle_message debug hash_order it m) m' (set_phase phs s ph')
      (upd_seen seen s (seen s || bool_decide (is_Some (trim_time debug m)))).
Proof.
  intros Hok He Hcan Hp Hm Hst. pose proof (proj1 (proj2 Hcan)) as Htimed.
  assert (Hends : match m with StreamBeginning _ _ _ | StreamEnd _ _ _ => True | _ => False end ->
    exists m', cut debug E m = Some m' /\ handles it (handle_message debug hash_order it m) m'
      (set_phase phs s ph') (upd_seen seen s (seen s || bool_decide (is_Some (trim_time debug m))))).
  { intros Hk. exists m. split; [by destruct m|by apply handle_stream_ends]. }
  destruct m; try (by apply Hends); try done; destruct Htimed as [ns Hns]; rewrite Hns;
    rewrite (bool_decide_eq_true_2 (is_Some (Some ns))) by (by eexists); rewrite orb_true_r;
    by eapply handle_inside.
Qed.

(** An inactivity message, before the end. *)
Lemma handle_inactivity (it : trimmer_iterator U) m :
  ends_at (t_end it) -> can_trim debug E m -> past debug E m = false -> get_stream_from_msg m = None ->
  inactivity_before debug E zero_end m ->
  cut debug E m = Some m /\
  handle_message debug hash_order it m = Some (NextOk, push_message it m, false).
Proof.
  intros He Hcan Hp Hm Hz. pose proof (time_of m Hcan) as Ht. destruct Hcan as (_ & Htimed & _).
  destruct m; try done. split; [done|]. destruct Htimed as [t Htt].
  unfold handle_message. rewrite Ht. cbn [get_stream_from_msg]. unfold past, inactivity_before, ends_at in *.
  rewrite Htt in *. simpl in *. destruct E as [e|]; destruct He as [_ ->]; [by rewrite Hp|].
  by rewrite (proj2 (Z.ltb_ge _ _)).
Qed.

(** ** Ending the streams *)

Lemma end_stream_ok e queue s ph seen st :
  E = Some e -> open_ok s ph -> entry_ok s ph seen (Some st) ->
  (seen = true -> is_Some (end_snapshot debug E s)) ->
  end_stream debug e queue st =
    Some (NextOk, queue ++ closing debug E s seen ph, StreamState None seen None).
Proof.
  intros -> [Hph Hsup] Hen Hcs. unfold end_stream.
  assert (Hconv : seen = true -> exists cc raw cs, default_clock_class (stream_class s) = Some cc /\
    clock_raw_value_from_ns_from_origin cc e 0 = Some (0, raw) /\ new_snapshot debug cc raw = Some cs /\
    end_snapshot debug (Some e) s = Some cs).
  { intros Hseen. destruct (Hcs Hseen) as [cs Hc]. pose proof Hc as Hc2. unfold end_snapshot in Hc.
    destruct (default_clock_class _) as [cc|]; [|done].
    destruct (clock_raw_value_from_ns_from_origin cc e 0) as [[ret raw]|] eqn:Hr; [|done]. simpl in Hc.
    destruct (Z.eqb_spec ret 0) as [->|]; [|done]. by exists cc, raw, cs. }
  assert (Hclosed : forall raw cc cs, default_clock_class (stream_class s) = Some cc ->
    new_snapshot debug cc raw = Some cs ->
    set_stream_default_clock_snapshot debug (create_stream_message true s) raw = Some (StreamEnd s (Some cs) true)).
  { intros raw cc cs Hcc Hn. unfold set_stream_default_clock_snapshot, create_stream_message, BT_ASSERT_PRE.
    rewrite Hcc. simpl. unfold new_snapshot in Hn. by rewrite Hn. }
  destruct ph as [| |p|]; simpl in Hen; try done.
  - by destruct Hen.
  - injection Hen as ->. cbn [ss_stream ss_seen_clock_snapshot cur_packet closing]. destruct seen.
    + destruct (Hconv eq_refl) as (cc & raw & cs & Hcc & Hraw & Hn & ->). rewrite Hcc, Hraw. cbn [fst snd].
      rewrite Z.eqb_refl, (Hclosed raw cc cs Hcc Hn). done.
    + done.
  - destruct Hen as [[= ->] ->]. cbn [ss_stream ss_seen_clock_snapshot cur_packet closing].
    destruct (Hconv eq_refl) as (cc & raw & cs & Hcc & Hraw & Hn & ->). rewrite Hcc, Hraw. cbn [fst snd].
    rewrite Z.eqb_refl, (Hclosed raw cc cs Hcc Hn).
    destruct Hph as [Hp Hps]. specialize (Hsup ltac:(done)). unfold supported_class in Hsup. rewrite Hp in Hsup.
    simpl in Hsup. b2p. unfold create_packet_message, BT_ASSERT_PRE. rewrite Hps, Hp.
    replace (packets_have_end_default_clock_snapshot (stream_class s)) with true by (symmetry; tauto).
    simpl. rewrite Hcc. simpl. rewrite Hn. by rewrite <- app_assoc.
Qed.

(** The messages that end the streams that are open. *)
Definition closes (phs : bt_stream -> phase) (seen : bt_stream -> bool) (closings : list bt_message) : Prop :=
  Forall (fun m => is_Some (get_stream_from_msg m)) closings /\
  forall s, of_stream s closings = if bool_decide (is_Some E) then closing debug E s (seen s) (phs s) else [].

Lemma closing_has_stream s seen ph :
  Forall (fun m => is_Some (get_stream_from_msg m)) (closing debug E s seen ph).
Proof. destruct ph; repeat constructor; by eexists. Qed.

Lemma end_streams_loop_ok e phs seen entries : forall it : trimmer_iterator U,
  E = Some e -> b_ns_from_origin (t_end it) = e -> NoDup entries.*1 ->
  (forall s st, (s, st) ∈ entries -> open_ok s (phs s) /\ entry_ok s (phs s) (seen s) (Some st)) ->
  (forall s, seen s = true -> is_Some (end_snapshot debug E s)) ->
  exists it' closings, end_streams_loop debug entries it = Some (NextOk, it') /\ same_but it it' /\
    output_messages it' = output_messages it ++ closings /\
    Forall (fun m => is_Some (get_stream_from_msg m)) closings /\
    forall s, of_stream s closings =
      if bool_decide (s ∈ entries.*1) then closing debug E s (seen s) (phs s) else [].
Proof.
  intros it HE. revert it.
  induction entries as [|[s st] entries IH]; intros it He Hnd Hok Hcs.
  { exists it, []. rewrite app_nil_r. split; [done|]. split; [done|]. split; [done|]. split; [done|].
    intros s. done. }
  cbn [end_streams_loop]. destruct (Hok s st) as [Hph Hen]; [by left|]. rewrite He.
  rewrite (end_stream_ok e _ s (phs s) (seen s)) by auto.
  apply NoDup_cons in Hnd as [Hni Hnd].
  edestruct IH as (it' & cl & -> & Hsame & Hout & Hst & Hof); [|exact Hnd| |exact Hcs|]; [done| |].
  { intros x sx Hx. apply Hok. by right. }
  exists it', (closing debug E s (seen s) (phs s) ++ cl). split; [done|]. split; [done|].
  split; [by rewrite Hout, app_assoc|]. split; [apply Forall_app; split; [apply closing_has_stream|done]|].
  intros x. rewrite of_stream_app, Hof. cbn [fmap list_fmap fst].
  destruct (decide (x = s)) as [-> |Hne].
  - rewrite (closing_stream debug E s _ _ (proj1 Hph)).
    rewrite bool_decide_eq_false_2 by done. rewrite app_nil_r, bool_decide_eq_true_2 by (by left). done.
  - rewrite (of_stream_other x s) by (done || by apply closing_stream, Hph). simpl.
    by rewrite (bool_decide_ext _ (x ∈ s :: entries.*1)) by (rewrite elem_of_cons; tauto).
Qed.

Lemma end_iterator_streams_ok (it : trimmer_iterator U) phs seen :
  table_ok (t_streams it) phs seen -> ends_at (t_end it) ->
  (is_Some E -> forall s, seen s = true -> is_Some (end_snapshot debug E s)) ->
  exists it' closings, end_iterator_streams debug hash_order it = Some (NextOk, it') /\ same_but it it' /\
    output_messages it' = output_messages it ++ closings /\ closes phs seen closings.
Proof.
  intros Hok He Hcs. unfold end_iterator_streams. pose proof He as He2. unfold ends_at in He2.
  destruct E as [e|] eqn:HE; destruct He2 as [-> Hns].
  2: { exists (set_streams it ∅), []. rewrite app_nil_r. split; [done|]. split; [done|]. split; [done|].
       split; [constructor|]. intros s. by rewrite HE. }
  rewrite <- HE in *.
  destruct (end_streams_loop_ok e phs seen (hash_order (t_streams it)) it HE Hns) as
    (it' & cl & -> & Hsame & Hout & Hst & Hof).
  - rewrite hash_order_perm. apply NoDup_fst_map_to_list.
  - intros s st Hin. rewrite hash_order_perm in Hin. apply elem_of_map_to_list in Hin.
    destruct (Hok s) as [Hph Hen]. by rewrite Hin in Hen.
  - apply Hcs. rewrite HE. by eexists.
  - exists (set_streams it' ∅), cl. split; [done|]. split; [done|]. split; [done|]. split; [done|].
    intros s. rewrite Hof, (bool_decide_eq_true_2 (is_Some E)) by (rewrite HE; by eexists).
    destruct (Hok s) as [_ Hen]. case_bool_decide as Hk; [done|].
    assert (t_streams it !! s = None) as Hnone.
    { apply eq_None_not_Some. intros [st Hst']. apply Hk. rewrite hash_order_perm.
      apply list_elem_of_fmap. exists (s, st). split; [done|]. by apply elem_of_map_to_list. }
    rewrite Hnone in Hen. destruct (phs s); simpl in Hen; try done. by destruct Hen.
Qed.

(** The first message past the end. *)
Definition seen_past (seen : bt_stream -> bool) (m : bt_message) : bt_stream -> bool :=
  match get_stream_from_msg m with
  | Some s => if is_discarded_items m then upd_seen seen s true else seen
  | None => seen
  end.
Definition reaches_end (it : trimmer_iterator U) (r : option (next_status * trimmer_iterator U * bool))
    (phs : bt_stream -> phase) (seen : bt_stream -> bool) : Prop :=
  exists it' closings, r = Some (NextOk, it', true) /\ same_but it it' /\
    output_messages it' = output_messages it ++ closings /\ closes phs seen closings.

Lemma reach_end_ok (it : trimmer_iterator U) phs seen :
  table_ok (t_streams it) phs seen -> ends_at (t_end it) ->
  (is_Some E -> forall s, seen s = true -> is_Some (end_snapshot debug E s)) ->
  reaches_end it (reach_end debug hash_order it) phs seen.
Proof.
  intros Hok He Hcs. unfold reach_end.
  destruct (end_iterator_streams_ok it phs seen Hok He Hcs) as (it' & cl & -> & Hs & Ho & Hc).
  exists it', cl. auto.
Qed.

Lemma handle_past_discarded (it : trimmer_iterator U) m (is_packets : bool) s b e cnt ns st phs seen :
  m = (if is_packets then DiscardedPackets s b e cnt else DiscardedEvents s b e cnt) ->
  table_ok (t_streams it) phs seen -> ends_at (t_end it) ->
  (is_Some E -> forall s, seen s = true -> is_Some (end_snapshot debug E s)) ->
  can_trim debug E m -> past debug E m = true -> trim_time debug m = Some ns ->
  ss_stream st = Some s -> entry_ok s (phs s) true (Some (StreamState (Some s) true (cur_packet st))) ->
  reaches_end it (handle_discarded_items debug hash_order it m is_packets s b e (Some ns) (Some st))
    phs (upd_seen seen s true).
Proof.
  intros Hm Hok He Hcs Hcan Hp Ht Hs Hen. pose proof Hcan as (_ & _ & Hend & _ & Hsnap).
  assert (exists t, snapshot_time debug e = Some (MsgTime (Some t))) as [t Hst]
    by (subst m; by destruct is_packets).
  unfold handle_discarded_items. rewrite Hs, Hst.
  rewrite (past_end_past _ m) by done. rewrite Hp.
  apply (reach_end_ok (set_sstate it s (StreamState (Some s) true (cur_packet st)))); [|done|].
  - intros x. pose proof (table_ok_insert (t_streams it) phs seen s (phs s) true _ Hok (proj1 (Hok s)) Hen x) as Hx.
    unfold set_phase in Hx. by destruct (decide (x = s)) as [-> |].
  - intros HE x. unfold upd_seen. destruct (decide (x = s)) as [-> |]; [|auto]. intros _.
    apply Hsnap; [subst m; by destruct is_packets|by eexists|done].
Qed.

Lemma handle_past (it : trimmer_iterator U) m phs seen :
  table_ok (t_streams it) phs seen -> ends_at (t_end it) ->
  (is_Some E -> forall s, seen s = true -> is_Some (end_snapshot debug E s)) ->
  can_trim debug E m -> past debug E m = true ->
  (forall s, get_stream_from_msg m = Some s -> is_Some (phase_step (stream_class s) (phs s) m)) ->
  reaches_end it (handle_message debug hash_order it m) phs (seen_past seen m).
Proof.
  intros Hok He Hcs Hcan Hp Hst. pose proof (time_of m Hcan) as Ht.
  assert (exists ns, trim_time debug m = Some ns) as [ns Hns].
  { unfold past in Hp. destruct E, (trim_time debug m); try done. by eexists. }
  pose proof (past_end_past it m ns He Hns) as Hpe. rewrite Hp in Hpe. rewrite Hns in Ht.
  pose proof (reach_end_ok it phs seen Hok He Hcs) as Hre. unfold seen_past.
  unfold handle_message. rewrite Ht. destruct (get_stream_from_msg m) as [s|] eqn:Hm.
  2: { destruct m; try done. simpl. unfold past in Hp. rewrite Hns in Hp. unfold ends_at in He.
       destruct E as [e|]; [|done]. destruct He as [_ ->]. by rewrite Hp. }
  destruct (Hst s eq_refl) as [ph' Hph']. destruct (Hok s) as [_ Hen].
  unfold handle_message_with_stream, get_stream_state_entry, BT_ASSERT_DBG.
  destruct m; try done; simpl in Hm; injection Hm as Hm; try subst s; simpl is_discarded_items; cbv iota;
    cbn [from_option]; rewrite ?Hpe; [done|..];
    (assert (is_Some (t_streams it !! _)) as Hopen by
      (destruct (phs _) eqn:Ephs; simpl in Hph'; try done; simpl in Hen; try (apply proj1 in Hen); rewrite Hen; by eexists));
    rewrite (bool_decide_eq_true_2 _ Hopen); cbn [negb]; rewrite andb_false_r; try done.
  - destruct (phs _) eqn:Ephs; simpl in Hph'; try done. simpl in Hen. rewrite Hen. cbn [cur_packet].
    by rewrite bool_decide_eq_true_2.
  - destruct (phs _) as [| |p|] eqn:Ephs; simpl in Hph'; try done. simpl in Hen. rewrite (proj1 Hen).
    cbn [cur_packet]. by rewrite bool_decide_eq_true_2 by (by eexists).
  - destruct (open_entry _ _ _ _ _ _ Hen Hph' I) as (st & -> & Hss & Hen').
    eapply (handle_past_discarded it _ false); try done.
    simpl in Hph'. destruct (phs stream); simpl in Hph'; repeat case_match; simplify_eq; done.
  - destruct (open_entry _ _ _ _ _ _ Hen Hph' I) as (st & -> & Hss & Hen').
    eapply (handle_past_discarded it _ true); try done.
    simpl in Hph'. destruct (phs stream); simpl in Hph'; repeat case_match; simplify_eq; done.
Qed.

(** ** A batch *)

Lemma table_ok_ext t phs phs' seen seen' :
  (forall s, phs s = phs' s) -> (forall s, seen s = seen' s) -> table_ok t phs seen -> table_ok t phs' seen'.
Proof. intros Hp Hs Hok s. rewrite <- Hp, <- Hs. apply Hok. Qed.
Lemma closes_ext phs seen seen' cl : (forall s, seen s = seen' s) -> closes phs seen cl -> closes phs seen' cl.
Proof. intros Hs [Hst Hof]. split; [done|]. intros s. by rewrite <- Hs. Qed.

Definition snapshots_ok (seen : bt_stream -> bool) : Prop :=
  is_Some E -> forall s, seen s = true -> is_Some (end_snapshot debug E s).
Definition fine (m : bt_message) : Prop := can_trim debug E m /\ inactivity_before debug E zero_end m.

Lemma sees_cons_other s m l :
  get_stream_from_msg m <> Some s -> sees debug s (m :: l) = sees debug s l.
Proof. intros Hm. unfold sees. simpl. by rewrite bool_decide_eq_false_2. Qed.
Lemma sees_cons_same s m l :
  get_stream_from_msg m = Some s ->
  sees debug s (m :: l) = bool_decide (is_Some (trim_time debug m)) || sees debug s l.
Proof. intros Hm. unfold sees. simpl. by rewrite Hm, bool_decide_eq_true_2. Qed.

(** The first message of a batch is kept. *)
Lemma keep_one (it : trimmer_iterator U) m phs phs' seen :
  table_ok (t_streams it) phs seen -> ends_at (t_end it) -> snapshots_ok seen -> fine m ->
  past debug E m = false -> run_phases phs [m] phs' ->
  exists it' m', handle_message debug hash_order it m = Some (NextOk, it', false) /\ cut debug E m = Some m' /\
    same_but it it' /\ output_messages it' = output_messages it ++ [m'] /\
    table_ok (t_streams it') phs' (fun s => seen s || sees debug s [m]) /\
    snapshots_ok (fun s => seen s || sees debug s [m]).
Proof.
  intros Hok He Hcs [Hcan Hz] Hp Hrun.
  assert (Hcs' : snapshots_ok (fun s => seen s || sees debug s [m])).
  { intros HE x Hx. apply orb_true_iff in Hx as [Hx|Hx]; [by apply Hcs|].
    destruct (decide (get_stream_from_msg m = Some x)) as [Hm|Hm]; [|by rewrite sees_cons_other in Hx].
    rewrite sees_cons_same in Hx by done. rewrite orb_false_r in Hx. apply bool_decide_eq_true in Hx.
    destruct Hcan as (_ & _ & _ & _ & Hsnap). by apply Hsnap. }
  destruct (get_stream_from_msg m) as [s|] eqn:Hm.
  - pose proof (Hrun s) as Hrs. rewrite of_stream_cons, Hm, decide_True in Hrs by done. simpl in Hrs.
    destruct (phase_step (stream_class s) (phs s) m) as [ph'|] eqn:Hst; [|done]. injection Hrs as Hrs.
    destruct (handle_kept it m s phs seen ph' Hok He Hcan Hp Hm Hst) as (m' & Hm' & it' & Hh & Hsame & Ho & Ht).
    exists it', m'. do 4 (split; [done|]). split; [|done]. eapply table_ok_ext; [..|exact Ht]; intros x.
    + unfold set_phase. destruct (decide (x = s)) as [-> |Hne]; [done|].
      specialize (Hrun x). rewrite of_stream_cons, Hm, decide_False in Hrun by congruence. simpl in Hrun. congruence.
    + unfold upd_seen. destruct (decide (x = s)) as [-> |Hne].
      * rewrite sees_cons_same by done. by rewrite orb_false_r.
      * rewrite sees_cons_other by congruence. by rewrite orb_false_r.
  - destruct (handle_inactivity it m He Hcan Hp Hm Hz) as [Hcut Hh].
    exists (push_message it m), m. do 4 (split; [done|]). split; [|done].
    eapply table_ok_ext; [..|exact Hok]; intros x.
    + specialize (Hrun x). rewrite of_stream_cons, Hm, decide_False in Hrun by congruence. simpl in Hrun. congruence.
    + rewrite sees_cons_other by congruence. by rewrite orb_false_r.
Qed.

(** A batch that is kept, and one with the first message past the end. *)
Lemma handle_messages_ok b : forall (it : trimmer_iterator U) phs phs' seen,
  table_ok (t_streams it) phs seen -> ends_at (t_end it) -> snapshots_ok seen -> Forall fine b ->
  run_phases phs b phs' ->
  exists it' more phs1, run_phases phs (kept debug E b) phs1 /\
    handle_messages debug hash_order it b = Some (NextOk, it', negb (bool_decide (left_out debug E b = []))) /\
    same_but it it' /\ output_messages it' = output_messages it ++ more /\
    match left_out debug E b with
    | [] =>
      Forall2 (fun m m' => cut debug E m = Some m') b more /\
      table_ok (t_streams it') phs1 (fun s => seen s || sees debug s b) /\
      snapshots_ok (fun s => seen s || sees debug s b)
    | _ =>
      exists msgs closings, more = msgs ++ closings /\
        Forall2 (fun m m' => cut debug E m = Some m') (kept debug E b) msgs /\
        closes phs1 (fun s => seen s || sees debug s (kept debug E b ++ last_seen debug E b)) closings
    end.
Proof.
  induction b as [|m b IH]; intros it phs phs' seen Hok He Hcs Hf Hrun.
  { exists it, [], phs. split; [by intros s|]. split; [done|]. split; [done|]. rewrite app_nil_r. split; [done|].
    split; [constructor|]. split; [|by intros HE s; rewrite orb_false_r; apply Hcs].
    eapply table_ok_ext; [..|exact Hok]; intros s; [done|]. by rewrite orb_false_r. }
  apply Forall_cons_1 in Hf as [Hm Hf]. change (m :: b) with ([m] ++ b) in Hrun.
  apply run_phases_app in Hrun as (phs1 & Hrun1 & Hrun2). cbn [handle_messages kept left_out].
  unfold last_seen. cbn [left_out]. destruct (past debug E m) eqn:Hp.
  - destruct (handle_past it m phs seen Hok He Hcs (proj1 Hm) Hp) as (it' & cl & -> & Hsame & Ho & Hcl).
    { intros s Hs. specialize (Hrun1 s). rewrite of_stream_cons, Hs, decide_True in Hrun1 by done. simpl in Hrun1.
      destruct (phase_step _ _ m); [by eexists|done]. }
    exists it', cl, phs. split; [by intros s|]. split; [done|]. split; [done|]. split; [done|].
    exists [], cl. split; [done|]. split; [constructor|]. eapply closes_ext; [|exact Hcl].
    intros s. unfold seen_past. simpl app. destruct (get_stream_from_msg m) as [s0|] eqn:Hs0.
    + destruct (is_discarded_items m); [|by rewrite orb_false_r]. unfold upd_seen. cbn [app].
      destruct (decide (s = s0)) as [-> |Hne].
      * rewrite sees_cons_same by done. rewrite bool_decide_eq_true_2; [by rewrite orb_true_r|].
        unfold past in Hp. destruct E, (trim_time debug m); try done.
      * rewrite sees_cons_other by congruence. by rewrite orb_false_r.
    + destruct (is_discarded_items m) eqn:Hd; [by destruct m|]. by rewrite orb_false_r.
  - destruct (keep_one it m phs phs1 seen Hok He Hcs Hm Hp Hrun1) as (it1 & m' & -> & Hm' & Hsame & Ho & Hok1 & Hcs1).
    assert (He1 : ends_at (t_end it1)) by (destruct Hsame as (_ & _ & _ & _ & ->); done).
    destruct (IH it1 phs1 phs' _ Hok1 He1 Hcs1 Hf Hrun2) as (it' & more & phs2 & Hr2 & -> & Hs' & Ho' & Hrest).
    assert (Hsees : forall s l, (seen s || sees debug s [m]) || sees debug s l = seen s || sees debug s (m :: l)).
    { intros s l. rewrite <- orb_assoc. f_equal. unfold sees. simpl. by rewrite orb_false_r. }
    exists it', (m' :: more), phs2. split.
    { intros s. change (m :: kept debug E b) with ([m] ++ kept debug E b).
      rewrite of_stream_app, phase_run_app, Hrun1. apply Hr2. }
    split; [done|]. split; [by eapply same_but_trans|].
    split; [by rewrite Ho', Ho, <- app_assoc|].
    destruct (left_out debug E b) eqn:Hl.
    + destruct Hrest as (Hc & Ht & Hcs2). split; [by constructor|]. split.
      * eapply table_ok_ext; [..|exact Ht]; intros s; [done|]. apply Hsees.
      * intros HE s Hs. apply Hcs2; [done|]. etransitivity; [apply Hsees|done].
    + destruct Hrest as (msgs & cl & -> & Hc & Hcl). exists (m' :: msgs), cl. split; [done|].
      split; [by constructor|]. eapply closes_ext; [|exact Hcl]. intros s. etransitivity; [apply Hsees|].
      unfold last_seen. by rewrite Hl.
Qed.
(** ** The calls *)

Context (inner : nat) (capacity : nat) (capacity_pos : (0 < capacity)%nat).
Abbreviation next_call := (fun it : trimmer_iterator U =>
  trimmer_msg_iter_next debug hash_order (S (S inner)) it capacity).
Abbreviation run := (trim_run debug hash_order (S (S inner)) capacity).

Lemma run_same_next (it it' : trimmer_iterator U) fuel : next_call it = next_call it' -> run fuel it = run fuel it'.
Proof. intros Hn. destruct fuel; [done|]. cbn [trim_run]. by rewrite Hn. Qed.

Lemma fill_ok (it : trimmer_iterator U) :
  output_messages it <> [] ->
  fill_message_array_from_output_messages debug it capacity =
    Some (set_output it (drop capacity (output_messages it)), take capacity (output_messages it)).
Proof.
  intros Hq. unfold fill_message_array_from_output_messages, BT_ASSERT_DBG.
  destruct capacity as [|c], (output_messages it) as [|m q]; try done; [lia|]. simpl. by rewrite andb_false_r.
Qed.

(** In the states "trim" and "ending", the messages of the queue come first. *)
Lemma next_queue (it : trimmer_iterator U) :
  t_state it = TRIMMER_ITERATOR_STATE_TRIM \/ t_state it = TRIMMER_ITERATOR_STATE_ENDING ->
  output_messages it <> [] ->
  next_call it = Some (NextOk, take capacity (output_messages it),
                       set_output it (drop capacity (output_messages it))).
Proof.
  intros Hst Hq. unfold trimmer_msg_iter_next, state_trim, state_ending. cbn [trim_loop].
  rewrite bool_decide_eq_false_2 by done. cbn [negb]. rewrite (fill_ok it Hq). by destruct Hst as [-> | ->].
Qed.

Lemma run_queue k fin out n : forall it : trimmer_iterator U,
  t_state it = TRIMMER_ITERATOR_STATE_TRIM \/ t_state it = TRIMMER_ITERATOR_STATE_ENDING ->
  (length (output_messages it) <= n)%nat ->
  (forall fuel, (k < fuel)%nat -> run fuel (set_output it []) = Some (out, fin)) ->
  forall fuel, (k + length (output_messages it) < fuel)%nat ->
  run fuel it = Some (output_messages it ++ out, fin).
Proof.
  induction n as [|n IH]; intros it Hst Hn Hrun fuel Hf.
  { destruct it as [c st u b e [|m q] t]; simpl in *; [|lia]. apply Hrun. lia. }
  destruct (decide (output_messages it = [])) as [Hq|Hq].
  { destruct it as [c st u b e q t]; simpl in *. subst q. apply Hrun. simpl in Hf. lia. }
  destruct fuel as [|fuel]; [lia|]. cbn [trim_run]. rewrite (next_queue it Hst Hq).
  assert (Hlen : (length (output_messages it) = length (take capacity (output_messages it)) +
    length (drop capacity (output_messages it)))%nat) by (by rewrite <- length_app, take_drop).
  assert (0 < length (take capacity (output_messages it)))%nat.
  { rewrite length_take. destruct (output_messages it); [done|]. simpl. lia. }
  rewrite (IH (set_output it (drop capacity (output_messages it)))); simpl.
  - by rewrite app_assoc, take_drop.
  - done.
  - lia.
  - done.
  - lia.
Qed.

(** The run of an iterator that ends. *)
Lemma run_ending (it : trimmer_iterator U) :
  t_state it = TRIMMER_ITERATOR_STATE_ENDING ->
  exists fin, t_state fin = TRIMMER_ITERATOR_STATE_ENDED /\
    forall fuel, (length (output_messages it) < fuel)%nat -> run fuel it = Some (output_messages it, fin).
Proof.
  intros Hst. exists (set_t_state (set_output it []) TRIMMER_ITERATOR_STATE_ENDED). split; [done|].
  intros fuel Hf. rewrite <- (app_nil_r (output_messages it)).
  eapply (run_queue 0 _ [] (length (output_messages it)) it); [by right|done| |by simpl].
  intros [|f] Hf'; [lia|]. cbn [trim_run]. unfold trimmer_msg_iter_next, state_ending. simpl. by rewrite Hst.
Qed.

(** One call, without messages in the queue, that gets a batch or END. *)
Lemma next_end (it : trimmer_iterator U) msgs u phs seen :
  t_state it = TRIMMER_ITERATOR_STATE_TRIM -> output_messages it = [] ->
  upstream_next (upstream_iter it) = Some (NextEnd, msgs, u) ->
  table_ok (t_streams it) phs seen -> ends_at (t_end it) -> snapshots_ok seen ->
  exists it', t_state it' = TRIMMER_ITERATOR_STATE_ENDING /\ next_call it = next_call it' /\
    closes phs seen (output_messages it').
Proof.
  intros Hst Hq Hu Hok He Hcs.
  destruct (end_iterator_streams_ok (set_upstream_iter it u) phs seen Hok He Hcs) as (it' & cl & Hend & _ & Ho & Hcl).
  exists (set_t_state it' TRIMMER_ITERATOR_STATE_ENDING). split; [done|].
  simpl in Ho. rewrite Hq in Ho. simpl in Ho. split; [|by simpl; rewrite Ho].
  unfold trimmer_msg_iter_next, state_trim. cbn [t_state set_t_state]. rewrite Hst. cbn [trim_loop].
  by rewrite Hq, Hu, Hend.
Qed.

Lemma next_batch (it : trimmer_iterator U) b u it' reached :
  t_state it = TRIMMER_ITERATOR_STATE_TRIM -> output_messages it = [] -> b <> [] ->
  upstream_next (upstream_iter it) = Some (NextOk, b, u) ->
  handle_messages debug hash_order (set_upstream_iter it u) b = Some (NextOk, it', reached) ->
  same_but (set_upstream_iter it u) it' ->
  (reached = false -> output_messages it' <> []) ->
  next_call it = next_call (if reached then set_t_state it' TRIMMER_ITERATOR_STATE_ENDING else it').
Proof.
  intros Hst Hq Hb Hu Hh (_ & Hst' & _) Hr. simpl in Hst'. rewrite Hst in Hst'.
  unfold trimmer_msg_iter_next, state_trim. rewrite Hst.
  transitivity (trim_loop debug hash_order (S (S inner)) it capacity); [done|]. cbn [trim_loop].
  rewrite Hq, Hu. cbn [negb]. rewrite bool_decide_eq_true_2 by done. cbn [negb].
  unfold BT_ASSERT_DBG. destruct b as [|m b]; [done|]. simpl (0 <? _)%nat. rewrite andb_false_r, Hh.
  destruct reached; [done|]. rewrite Hst'. by rewrite (bool_decide_eq_false_2 _ (Hr eq_refl)).
Qed.

Lemma left_out_nil l : left_out debug E l = [] -> Forall (fun m => past debug E m = false) l.
Proof. induction l as [|m l IH]; [done|]. simpl. destruct (past debug E m) eqn:Hm; [done|]. auto. Qed.
Lemma kept_reached l k : left_out debug E l <> [] ->
  kept debug E (l ++ k) = kept debug E l /\ last_seen debug E (l ++ k) = last_seen debug E l.
Proof.
  unfold last_seen. induction l as [|m l IH]; [done|]. simpl. destruct (past debug E m); [done|].
  intros Hl. by destruct (IH Hl) as [-> ->].
Qed.

(** The run of an iterator that trims. *)
Lemma run_trims u l n : yields u l n -> forall (it : trimmer_iterator U) phs phs' seen,
  upstream_iter it = u -> t_state it = TRIMMER_ITERATOR_STATE_TRIM -> output_messages it = [] ->
  table_ok (t_streams it) phs seen -> ends_at (t_end it) -> snapshots_ok seen -> Forall fine l ->
  run_phases phs l phs' ->
  exists msgs closings phs1 fin, run_phases phs (kept debug E l) phs1 /\
    Forall2 (fun m m' => cut debug E m = Some m') (kept debug E l) msgs /\
    closes phs1 (fun s => seen s || sees debug s (kept debug E l ++ last_seen debug E l)) closings /\
    t_state fin = TRIMMER_ITERATOR_STATE_ENDED /\
    forall fuel, (n + length (msgs ++ closings) < fuel)%nat -> run fuel it = Some (msgs ++ closings, fin).
Proof.
  induction 1 as [u msgs u' Hu|u b u' l n Hu Hb _ IH|u msgs u' l n Hu _ IH];
    intros it phs phs' seen <- Hst Hq Hok He Hcs Hf Hrun.
  - destruct (next_end it _ _ phs seen Hst Hq Hu Hok He Hcs) as (it' & Hst' & Hn & Hcl).
    destruct (run_ending it' Hst') as (fin & Hfin & Hrun').
    exists [], (output_messages it'), phs, fin. split; [by intros s|]. split; [constructor|].
    split; [eapply closes_ext; [|exact Hcl]; intros s; by rewrite orb_false_r|]. split; [done|].
    intros fuel Hfuel. rewrite (run_same_next it it' fuel Hn). by apply Hrun'.
  - apply Forall_app in Hf as [Hfb Hf]. apply run_phases_app in Hrun as (phs1 & Hrun1 & Hrun2).
    destruct (handle_messages_ok b (set_upstream_iter it u') phs phs1 seen Hok He Hcs Hfb Hrun1) as
      (it' & more & phs2 & Hr2 & Hh & Hsame & Ho & Hrest).
    simpl in Ho. rewrite Hq in Ho. simpl in Ho.
    pose proof Hsame as (_ & Hst' & Hu' & _ & He'). simpl in Hst', Hu', He'.
    pose proof (next_batch it b u' it' _ Hst Hq Hb Hu Hh Hsame) as Hn.
    destruct (left_out debug E b) as [|m0 l0] eqn:Hl.
    + destruct Hrest as (Hc & Ht & Hcs'). pose proof (left_out_nil b Hl) as Hb'.
      rewrite (bool_decide_eq_true_2 _ eq_refl) in Hn. simpl in Hn.
      destruct (IH (set_output it' []) phs1 phs' (fun s => seen s || sees debug s b)) as
        (msgs & cl & phs3 & fin & Hr3 & Hc3 & Hcl & Hfin & Hrun'); simpl; try done.
      { by rewrite Hst'. }
      { eapply table_ok_ext; [..|exact Ht]; [|done]. intros s. specialize (Hr2 s). specialize (Hrun1 s).
        rewrite <- (app_nil_r b), (kept_app _ _ _ _ Hb') in Hr2. simpl in Hr2. rewrite app_nil_r in Hr2. congruence. }
      { by rewrite He'. }
      exists (more ++ msgs), cl, phs3, fin. unfold last_seen in *.
      rewrite (kept_app _ _ _ _ Hb'), (left_out_app _ _ _ _ Hb').
      split; [intros s; rewrite of_stream_app, phase_run_app, Hrun1; apply Hr3|].
      split; [by apply Forall2_app|].
      split; [eapply closes_ext; [|exact Hcl]; intros s; by rewrite <- app_assoc, (sees_app _ _ b), orb_assoc|].
      split; [done|]. intros fuel Hfuel. rewrite (run_same_next it it' fuel).
      2: { apply Hn. intros _. rewrite Ho. destruct Hc; done. }
      rewrite <- app_assoc, <- Ho. rewrite <- app_assoc, length_app, <- Ho in Hfuel.
      eapply run_queue; [left; congruence|done|exact Hrun'|lia].
    + destruct Hrest as (msgs & cl & -> & Hc & Hcl). rewrite bool_decide_eq_false_2 in Hn by done. simpl in Hn.
      destruct (kept_reached b l) as [Hk Hls]; [by rewrite Hl|].
      destruct (run_ending (set_t_state it' TRIMMER_ITERATOR_STATE_ENDING) eq_refl) as (fin & Hfin & Hrun').
      simpl in Hrun'. rewrite Ho in Hrun'.
      exists msgs, cl, phs2, fin. rewrite Hk, Hls. do 4 (split; [done|]). intros fuel Hfuel.
      rewrite (run_same_next it _ fuel) by (by apply Hn). apply Hrun'. lia.
  - destruct (IH (set_upstream_iter it u') phs phs' seen) as
      (out & cl & phs1 & fin & Hr & Hc & Hcl & Hfin & Hrun'); try done.
    exists out, cl, phs1, fin. do 4 (split; [done|]). intros [|fuel] Hfuel; [lia|]. cbn [trim_run].
    assert (next_call it = Some (NextAgain, [], set_upstream_iter it u')) as ->.
    { unfold trimmer_msg_iter_next, state_trim. rewrite Hst. cbn [trim_loop]. by rewrite Hq, Hu. }
    rewrite Hrun' by lia. done.
Qed.
End impl.

(** The phases of the streams after a sequence. *)
Lemma phases_so_far `{TraceIr} l : follows_rules_so_far l -> exists phs, run_phases (fun _ => Ready) l phs.
Proof.
  intros Hf. exists (fun s => default Ready (phase_run (stream_class s) Ready (of_stream s l))). intros s.
  destruct (Hf s) as (rest & _ & Hseq). apply sequence_run in Hseq. rewrite phase_run_app in Hseq.
  by destruct (phase_run _ Ready (of_stream s l)).
Qed.

Lemma phases_ok `{TraceIr} l phs phs' :
  run_phases phs l phs' -> (forall s, phase_ok s (phs s)) -> forall s, phase_ok s (phs' s).
Proof.
  revert phs. induction l as [|m l IH]; intros phs Hrun Hok s.
  { specialize (Hrun s). simpl in Hrun. injection Hrun as <-. apply Hok. }
  apply (run_phases_app phs [m]) in Hrun as (phs1 & Hr1 & Hr2). apply (IH _ Hr2). intros x. specialize (Hr1 x).
  rewrite of_stream_cons in Hr1. destruct (decide _) as [Hm|]; [|injection Hr1 as <-; apply Hok].
  simpl in Hr1. destruct (phase_step _ _ m) eqn:Hst; [|done]. injection Hr1 as <-. by eapply phase_step_ok.
Qed.

(** What the trimmer gives follows the rules. *)
Lemma trimmed_follows_rules `{TraceIr} debug E l out :
  trimmed debug E l out -> follows_rules_so_far l -> is_Some E \/ follows_rules l -> follows_rules out.
Proof.
  intros (msgs & cl & -> & Hc & _ & Hcl) Hf HE s Hne. destruct (phases_so_far l Hf) as [phs Hrun].
  rewrite (kept_left_out debug E l) in Hrun. apply run_phases_app in Hrun as (phs1 & Hr1 & _).
  specialize (Hcl s (phs1 s) (Hr1 s)). rewrite of_stream_app in Hne |- *. apply sequence_run.
  rewrite phase_run_app, (cut_run _ _ _ _ s Hc), (Hr1 s), Hcl. rewrite Hcl in Hne.
  assert (Hready : phs1 s = Ready -> of_stream s msgs = []).
  { intros Hr. apply (run_ready (stream_class s)). rewrite (cut_run _ _ _ _ s Hc), (Hr1 s). by rewrite Hr. }
  destruct (bool_decide (is_Some E)) eqn:Hb.
  - apply closing_run; [by apply (phases_ok _ _ _ Hr1)|]. intros Hr. rewrite Hr, (Hready Hr) in Hne. done.
  - apply bool_decide_eq_false in Hb. destruct HE as [HE|HE]; [done|].
    destruct E as [e|]; [by destruct Hb; eexists|].
    assert (Hk : kept debug None l = l) by (clear; induction l as [|m l IH]; simpl; congruence).
    rewrite Hk in *. simpl. rewrite app_nil_r in Hne.
    assert (Hseq : stream_sequence (stream_class s) (of_stream s l)).
    { apply HE. intros Hn. apply Hne. pose proof (Hr1 s) as Hr. rewrite Hn in Hr. injection Hr as Hr.
      apply Hready. done. }
    apply sequence_run in Hseq. rewrite <- (Hr1 s). done.
Qed.

(** A run with more fuel. *)
Lemma trim_run_more {U : Type} `{SeekableUpstream U} `{TraceIr} `{CTime} debug hash_order inner capacity fuel fuel' :
  (fuel <= fuel')%nat -> forall (it : trimmer_iterator U) r,
  trim_run debug hash_order inner capacity fuel it = Some r ->
  trim_run debug hash_order inner capacity fuel' it = Some r.
Proof.
  intros Hle. revert fuel' Hle. induction fuel as [|fuel IH]; intros [|fuel'] Hle it r Hr; try done; [lia|].
  cbn [trim_run] in *. destruct (trimmer_msg_iter_next _ _ _ it _) as [[[[] msgs] it']|]; try done;
    (destruct (trim_run _ _ _ _ fuel it') as [r'|] eqn:E; [|done]);
    by rewrite (IH fuel' ltac:(lia) _ _ E).
Qed.

(** Setting the bounds sets both and keeps the state. *)
Lemma set_bounds_loop_same {U : Type} `{UpstreamIterator U} `{TraceIr} debug fuel :
  forall (it : trimmer_iterator U) status ns it', set_bounds_loop debug fuel it = Some (status, ns, it') ->
  t_state it' = t_state it /\ t_begin it' = t_begin it /\ t_end it' = t_end it.
Proof.
  induction fuel as [|fuel IH]; intros it status ns it' Hl; [done|]. cbn [set_bounds_loop] in Hl.
  destruct (upstream_next _) as [[[st msgs] u]|]; [|done]. destruct st; simplify_eq; try done.
  destruct (first_time debug msgs) as [[|[]]|]; simplify_eq; try done. by apply IH in Hl.
Qed.

Lemma complete_bound_sets `{CTime} bound ns gmt b : complete_bound bound ns gmt = Some (true, b) -> b_is_set b = true.
Proof.
  unfold complete_bound, set_trimmer_iterator_bound, set_bound_ns_from_origin. intros.
  repeat case_match; simplify_eq; done.
Qed.

Lemma set_bounds_sets {U : Type} `{UpstreamIterator U} `{TraceIr} `{CTime} debug fuel
    (it it' : trimmer_iterator U) :
  state_set_trimmer_iterator_bounds debug fuel it = Some (NextOk, it') ->
  t_state it' = t_state it /\ b_is_set (t_begin it') = true /\ b_is_set (t_end it') = true.
Proof.
  unfold state_set_trimmer_iterator_bounds. destruct (negb _ || negb _); [|done].
  destruct (set_bounds_loop debug fuel it) as [[[st ns] it1]|] eqn:Hl; [|done].
  apply set_bounds_loop_same in Hl as (Hst & Hb & He). destruct st; try (by intros; simplify_eq).
  destruct (complete_bound (t_begin it1) ns _) as [[[] b]|] eqn:Hcb; try (by intros; simplify_eq).
  cbn [fst snd negb t_end t_comp t_begin set_bounds].
  destruct (complete_bound (t_end it1) ns _) as [[[] e]|] eqn:Hce; try (by intros; simplify_eq).
  cbn [fst snd negb t_end t_begin set_bounds].
  destruct (validate_trimmer_bounds b e) as [[]|]; intros; simplify_eq. split; [done|].
  split; [by eapply complete_bound_sets, Hcb|by eapply complete_bound_sets, Hce].
Qed.

(** * Properties *)

(** The end of a range, of a bound that is set. *)
Definition range_end (b : trimmer_bound) : option Z :=
  if b_is_infinite b then None else Some (b_ns_from_origin b).

(** C6: A trimmer message iterator with both bounds set, whose initial seek succeeds,
    gives the trimmed sequence of what its upstream message iterator gives after the
    seek, and then END, within a bounded number of calls, for any capacity, AGAIN
    statuses and order of its hash table.  The trimmed sequence has the messages before
    the first one past the end; a discarded items message that straddles the end is
    cut there; then each stream that is open is ended, its packet first, at the time of
    the end.  It follows the message sequence rules when the end is finite or when
    the upstream sequence is complete. *)
Theorem trimmer_trims {U : Type} `{SeekableUpstream U} `{TraceIr} `{CTime} debug hash_order inner capacity
    comp (u : U) it1 l n :
  (forall t, hash_order t ≡ₚ map_to_list t) -> (0 < capacity)%nat ->
  b_is_set (tc_begin comp) = true -> b_is_set (tc_end comp) = true ->
  state_seek_initially (trimmer_msg_iter_init comp u) = Some (NextOk, it1) ->
  yields (upstream_iter it1) l n -> follows_rules_so_far l ->
  Forall (fun m => can_trim debug (range_end (tc_end comp)) m /\
    inactivity_before debug (range_end (tc_end comp)) (b_ns_from_origin (tc_end comp)) m) l ->
  exists out fin, trimmed debug (range_end (tc_end comp)) l out /\
    t_state fin = TRIMMER_ITERATOR_STATE_ENDED /\
    (is_Some (range_end (tc_end comp)) \/ follows_rules l -> follows_rules out) /\
    forall fuel, (n + length out < fuel)%nat ->
      trim_run debug hash_order (S (S inner)) capacity fuel (trimmer_msg_iter_init comp u) = Some (out, fin).
Proof.
  intros Hperm Hcap Hb He Hseek Hl Hf Hok. set (E := range_end (tc_end comp)) in *.
  destruct (phases_so_far l Hf) as [phs' Hrun].
  assert (Hit1 : t_state it1 = TRIMMER_ITERATOR_STATE_TRIM /\ output_messages it1 = [] /\
    t_streams it1 = ∅ /\ t_end it1 = tc_end comp).
  { unfold state_seek_initially, after_seek in Hseek. simpl in Hseek. repeat case_match; simplify_eq; done. }
  destruct Hit1 as (Hst & Hq & Ht & Hend).
  destruct (run_trims debug hash_order Hperm E (b_ns_from_origin (tc_end comp)) inner capacity Hcap _ l n Hl it1
    (fun _ => Ready) phs' (fun _ => false)) as (msgs & cl & phs1 & fin & Hr1 & Hc & [Hst' Hcl] & Hfin & Hrun'); try done.
  { rewrite Ht. intros s. split; [by split|]. simpl. by rewrite lookup_empty. }
  { rewrite Hend. unfold ends_at, E, range_end. by destruct (b_is_infinite (tc_end comp)). }
  assert (Htr : trimmed debug E l (msgs ++ cl)).
  { exists msgs, cl. do 3 (split; [done|]). intros s ph Hph. specialize (Hr1 s). rewrite Hr1 in Hph.
    injection Hph as <-. apply Hcl. }
  exists (msgs ++ cl), fin. split; [done|]. split; [done|]. split; [by apply (trimmed_follows_rules debug (range_end (tc_end comp)) l)|].
  intros fuel Hfuel. rewrite <- (Hrun' fuel Hfuel). apply (run_same_next debug).
  unfold trimmer_msg_iter_next, trimmer_msg_iter_init at 1. rewrite Hb, He, Hst. simpl.
  unfold seek_then_trim. by rewrite Hseek.
Qed.

(** A trimmer message iterator without an "end" parameter ends at a message
    iterator inactivity message after the clock's origin: the call that gets it as the
    first message returns END, without ending the streams, whatever comes after. *)
Theorem trimmer_inactivity_infinite_end {U : Type} `{SeekableUpstream U} `{TraceIr} `{CTime} `{BoundRegex}
    debug hash_order inner capacity gmt begin comp (it : trimmer_iterator U) cs t rest u :
  init_trimmer_comp_from_params gmt begin None = Some (Some comp) -> t_end it = tc_end comp ->
  t_state it = TRIMMER_ITERATOR_STATE_TRIM -> output_messages it = [] ->
  upstream_next (upstream_iter it) = Some (NextOk, MessageIteratorInactivity cs :: rest, u) ->
  snapshot_time debug (Some cs) = Some (MsgTime (Some t)) -> 0 < t ->
  exists it', trimmer_msg_iter_next debug hash_order (S inner) it capacity = Some (NextEnd, [], it') /\
    t_state it' = TRIMMER_ITERATOR_STATE_ENDED.
Proof.
  intros Hc He Hst Hq Hu Ht Hpos.
  assert (Hend : b_is_infinite (t_end it) = true /\ b_ns_from_origin (t_end it) = 0).
  { rewrite He. unfold init_trimmer_comp_from_params in Hc. simpl in Hc.
    repeat case_match; simplify_eq; done. }
  destruct Hend as [Hinf Hz]. unfold trimmer_msg_iter_next, state_trim. rewrite Hst. cbn [trim_loop].
  rewrite Hq, Hu. cbn [bool_decide negb]. unfold BT_ASSERT_DBG. simpl length. rewrite andb_false_r.
  cbn [handle_messages]. unfold handle_message. cbn [get_msg_ns_from_origin get_stream_from_msg].
  rewrite Ht. cbn [from_option set_upstream_iter t_end]. rewrite Hz.
  rewrite (proj2 (Z.ltb_lt 0 (id t))) by done.
  unfold reach_end, end_iterator_streams. cbn [set_upstream_iter t_end]. rewrite Hinf. cbn.
  unfold state_ending. cbn. rewrite Hq. by eexists.
Qed.

(** When the bounds need the date of the first message and the initial seek then
    returns AGAIN, the next call aborts: the state is still the one that sets the
    bounds, which asserts that a bound is not set. *)
Theorem trimmer_again_after_bounds {U : Type} `{SeekableUpstream U} `{TraceIr} `{CTime}
    debug hash_order fuel capacity (it it1 it2 : trimmer_iterator U) :
  t_state it = TRIMMER_ITERATOR_STATE_SET_BOUNDS_NS_FROM_ORIGIN ->
  state_set_trimmer_iterator_bounds debug fuel it = Some (NextOk, it1) ->
  state_seek_initially it1 = Some (NextAgain, it2) ->
  trimmer_msg_iter_next debug hash_order fuel it capacity = Some (NextAgain, [], it2) /\
  forall fuel' capacity', trimmer_msg_iter_next debug hash_order fuel' it2 capacity' = None.
Proof.
  intros Hst Hb Hs. split.
  { unfold trimmer_msg_iter_next, seek_then_trim. by rewrite Hst, Hb, Hs. }
  destruct (set_bounds_sets _ _ _ _ Hb) as (Hst1 & Hset1 & Hset2).
  assert (Hsame : t_state it2 = t_state it1 /\ t_begin it2 = t_begin it1 /\ t_end it2 = t_end it1).
  { unfold state_seek_initially, after_seek in Hs. repeat case_match; simplify_eq; done. }
  destruct Hsame as (Hst2 & Hbeg & Hend). intros fuel' capacity'.
  unfold trimmer_msg_iter_next, state_set_trimmer_iterator_bounds.
  by rewrite Hst2, Hst1, Hst, Hbeg, Hend, Hset1, Hset2.
Qed.

(** * Witnesses *)

(** A stream with a packet, whose discarded events message straddles the end of the
    range, 16 ns; a user's iterator that can seek. *)
#[local] Instance ex_trim_ir : TraceIr := {|
  stream_class := fun _ => BtStreamClass 0 None true true true true true true false true false
    (Some (BtClockClass NS_PER_S 0 0 0 false true ex_attrs));
  packet_stream := fun p => p
|}.
Definition ex_trim_batches : list (list bt_message) :=
  [[StreamBeginning 1%positive (Some (ex_snapshot 10)) true; PacketBeginning 1%positive (Some (ex_snapshot 12))];
   [Event ex_ec 1%positive (Some 1%positive) (Some (ex_snapshot 13));
    DiscardedEvents 1%positive (Some (ex_snapshot 14)) (Some (ex_snapshot 20)) (Some 5);
    Event ex_ec 1%positive (Some 1%positive) (Some (ex_snapshot 22))]].
#[local] Instance ex_seekable_user : UserMethods (list (list bt_message)) := {|
  user_next := fun w => match w with [] => (NextEnd, [], []) | b :: bs => (NextOk, b, bs) end;
  user_can_seek_beginning := None;
  user_seek_beginning := None;
  user_can_seek_ns_from_origin := Some (fun w _ => (NextOk, Some true, w));
  user_seek_ns_from_origin := Some (fun w ns => (NextOk, if ns <=? 10 then ex_trim_batches else []))
|}.
#[local] Instance ex_trim_validator : CorrelationValidator ClockCorrelationValidator :=
  clock_correlation_validator false 0.
#[local] Instance ex_trim_upstream : UpstreamIterator (bt_message_iterator _ _) := iterator_upstream false true.
#[local] Instance ex_trim_seekable : SeekableUpstream (bt_message_iterator _ _) :=
  iterator_seekable false true (fun t => map_to_list t) 3.
#[local] Instance ex_no_time : CTime := {|
  mktime := fun _ => -1; gmtime_r := fun _ => None; localtime_r := fun _ => None
|}.
Definition ex_bound (ns : Z) : trimmer_bound := TrimmerBound ns true false (TrimmerTime 0 0 0 0).
Definition ex_upstream_it : bt_message_iterator (list (list bt_message)) ClockCorrelationValidator :=
  BtMessageIterator ACTIVE INT64_MIN new_validator ∅ true UserNext [] None [].
Definition ex_trimmer := trimmer_msg_iter_init (TrimmerComp (ex_bound 8) (ex_bound 16) false) ex_upstream_it.

(** Whether a message can be trimmed at 16 ns. *)
Lemma ex_can_trim m :
  match get_msg_ns_from_origin true m with
  | Some (MsgTime (Some _)) => match cut true (Some 16) m with Some _ => True | None => False end
  | _ => False
  end ->
  match m with
  | DiscardedEvents _ _ e _ | DiscardedPackets _ _ e _ =>
    match snapshot_time true e with Some (MsgTime (Some _)) => True | _ => False end
  | _ => True
  end -> can_trim true (Some 16) m.
Proof.
  intros Ht He. destruct (get_msg_ns_from_origin true m) as [[|[t|]]|] eqn:Hm; try contradiction.
  assert (trim_time true m = Some t) as Htt by (unfold trim_time; by rewrite Hm).
  split; [by eexists|]. rewrite Htt. split; [destruct m; done || by eexists|].
  split; [destruct m; try done; repeat case_match; simplify_eq; try done; by eexists|].
  split; [intros _; destruct (cut true (Some 16) m); [by eexists|done]|].
  intros s _ _ _. vm_compute. by eexists.
Qed.

Definition ex_sought :=
  match state_seek_initially ex_trimmer with Some (_, it) => it | None => ex_trimmer end.

Lemma ex_seekable_yields bs : Forall (fun b => b <> []) bs -> user_yields bs (concat bs) 0.
Proof. induction 1 as [|b bs Hb _ IH]; [by eapply UserYieldsEnd|]. by eapply UserYieldsOk. Qed.

Lemma ex_trim_follows : follows_rules_so_far (concat ex_trim_batches).
Proof.
  intros s. destruct (decide (s = 1%positive)) as [-> |Hne].
  - exists [PacketEnd 1%positive None; StreamEnd 1%positive None false]. split; [reflexivity|].
    apply (StreamSequence _ _ _ _ _ _ _ [_; _; _; _; _]).
    apply (BodyPacket _ 1%positive _ _ [_; _; _] []); [reflexivity| |constructor].
    apply Forall_cons_2; [left; by eexists _, _, _|]. apply Forall_cons_2; [right; split; [by do 4 eexists|done]|].
    apply Forall_cons_2; [left; by eexists _, _, _|constructor].
  - destruct (phase_completes (H := ex_trim_ir) s Ready I) as (rest & Hr & Hs).
    exists rest. split; [done|]. rewrite (of_stream_other (H1 := ex_trim_ir) s 1%positive) by done.
    by apply sequence_run.
Qed.

Lemma trimmer_trims_witness :
  exists out fin,
    trim_run true (fun t => map_to_list t) 2 2 7 ex_trimmer = Some (out, fin) /\
    follows_rules out /\
    out = [StreamBeginning 1%positive (Some (ex_snapshot 10)) true;
           PacketBeginning 1%positive (Some (ex_snapshot 12));
           Event ex_ec 1%positive (Some 1%positive) (Some (ex_snapshot 13));
           DiscardedEvents 1%positive (Some (ex_snapshot 14)) (Some (ex_snapshot 16)) None;
           PacketEnd 1%positive (Some (ex_snapshot 16)); StreamEnd 1%positive (Some (ex_snapshot 16)) true].
Proof.
  destruct (trimmer_trims true (fun t => map_to_list t) 0 2 (TrimmerComp (ex_bound 8) (ex_bound 16) false)
    ex_upstream_it ex_sought (concat ex_trim_batches) 0) as (out & fin & _ & _ & Hr & Hrun).
  - done.
  - lia.
  - done.
  - done.
  - reflexivity.
  - eapply iterator_yields; [|reflexivity|reflexivity|reflexivity].
    apply (ex_seekable_yields ex_trim_batches). by repeat constructor.
  - exact ex_trim_follows.
  - repeat (apply Forall_cons_2; [split; [apply ex_can_trim; vm_compute; exact I|exact I]|]). constructor.
  - destruct (trim_run true (fun t => map_to_list t) 2 2 7 ex_trimmer) as [[out7 fin7]|] eqn:E; [|by vm_compute in E].
    assert (Some (out7, fin7) = Some (out, fin)) as [= -> ->].
    { erewrite <- (trim_run_more _ _ _ _ 7 (7 + S (length out)) _ _ _ E). apply Hrun. lia. }
    exists out, fin. split; [done|]. split; [apply Hr; by left|]. vm_compute in E. by injection E as <- _.
Unshelve. lia.
Defined.

(** Upstream message iterators that give batches and cannot seek for now; the date is
    1970-01-01. *)
#[local] Instance ex_waiting : UpstreamIterator (list (list bt_message)) := {|
  upstream_next := fun u => Some match u with [] => (NextEnd, [], []) | b :: u => (NextOk, b, u) end;
  upstream_can_seek_beginning := fun u => Some (NextOk, Some true, u);
  upstream_seek_beginning := fun u => Some (NextAgain, u)
|}.
#[local] Instance ex_waiting_seek : SeekableUpstream (list (list bt_message)) := {|
  upstream_can_seek_ns_from_origin := fun u _ => Some (NextOk, Some true, u);
  upstream_seek_ns_from_origin := fun u _ => Some (NextAgain, u)
|}.
#[local] Instance ex_first_day : CTime := {|
  mktime := fun _ => -1; gmtime_r := fun _ => Some (Tm 0 0 0 1 0 70); localtime_r := fun _ => None
|}.
#[local] Instance ex_no_regex : BoundRegex := {| compile_and_match := fun _ _ => None |}.
Definition ex_infinite : trimmer_bound := TrimmerBound 0 true true (TrimmerTime 0 0 0 0).

Lemma trimmer_inactivity_infinite_end_witness :
  exists it', trimmer_msg_iter_next true (fun t => map_to_list t) 1
      (TrimmerIterator (TrimmerComp ex_infinite ex_infinite false) TRIMMER_ITERATOR_STATE_TRIM
        [[MessageIteratorInactivity (ex_snapshot 3); Event ex_ec 1%positive None (Some (ex_snapshot 4))]]
        ex_infinite ex_infinite [] {[ 1%positive := StreamState (Some 1%positive) true None ]}) 8 =
      Some (NextEnd, [], it') /\ t_state it' = TRIMMER_ITERATOR_STATE_ENDED.
Proof.
  eapply (trimmer_inactivity_infinite_end true _ 0 8 None None (TrimmerComp ex_infinite ex_infinite false) _
    (ex_snapshot 3) 3); [reflexivity|reflexivity|reflexivity|reflexivity|reflexivity|vm_compute; reflexivity|lia].
Defined.

(** A "begin" bound of 01:00:00, without a date. *)
Lemma trimmer_again_after_bounds_witness :
  let begin := TrimmerBound 0 false false (TrimmerTime 1 0 0 0) in
  let it := TrimmerIterator (TrimmerComp begin ex_infinite true) TRIMMER_ITERATOR_STATE_SET_BOUNDS_NS_FROM_ORIGIN
    [[Event ex_ec 1%positive None (Some (ex_snapshot 4))]] begin ex_infinite [] ∅ in
  exists it2, trimmer_msg_iter_next true (fun t => map_to_list t) 2 it 8 = Some (NextAgain, [], it2) /\
    trimmer_msg_iter_next true (fun t => map_to_list t) 2 it2 8 = None.
Proof.
  intros begin it. destruct (trimmer_again_after_bounds true (fun t => map_to_list t) 2 8 it
    (TrimmerIterator (TrimmerComp begin ex_infinite true) TRIMMER_ITERATOR_STATE_SET_BOUNDS_NS_FROM_ORIGIN
      [] (TrimmerBound (3600 * NS_PER_S) true false (TrimmerTime 1 0 0 0)) ex_infinite [] ∅)
    (TrimmerIterator (TrimmerComp begin ex_infinite true) TRIMMER_ITERATOR_STATE_SET_BOUNDS_NS_FROM_ORIGIN
      [] (TrimmerBound (3600 * NS_PER_S) true false (TrimmerTime 1 0 0 0)) ex_infinite [] ∅)) as [Hn Hab];
    [reflexivity|vm_compute; reflexivity|vm_compute; reflexivity|].
  eexists. split; [exact Hn|apply Hab].
Defined.
