(* ===== verification/CtfIr.v ===== *)
(** The field classes and the trace class that the CTF data stream decoder works with:
    [src/src/plugins/ctf/common/metadata/ctf-ir.hpp] and its extension for the decoder,
    [src/src/plugins/ctf/common/src/metadata/ctf-ir.cpp].

    A class owns the classes under it: a field class is a tree.  Lengths are in bits, but
    for strings and BLOBs, in bytes.  The names, mappings, attributes and library objects of
    classes are left out.  The type of a field that the decoder reads ("deep type") keeps
    the parameters that the code spells in each of its names: [Ba16BeRev] is
    [ReadingOf 16 Big Reversed]. *)

From S2P Require Import Prelude.

(** * Properties of fields *)

Inductive ByteOrder := Big | Little.
#[export] Instance ByteOrder_eq_dec : EqDecision ByteOrder.
Proof. solve_decision. Defined.
Inductive BitOrder := FirstToLast | LastToFirst.
Inductive StrEncoding := Utf8 | Utf16Be | Utf16Le | Utf32Be | Utf32Le.

Inductive UIntFieldRole :=
| PktMagicNumber | DataStreamClsId | DataStreamId | PktTotalLen | PktContentLen | DefClkTs | PktEndDefClkTs
| DiscEventRecordCounterSnap | PktSeqNum | EventRecordClsId.

(** An [IntRangeSet]: the bounds of its ranges. *)
Definition IntRangeSet : Type := list (Z * Z).
Definition contains (s : IntRangeSet) (val : Z) : bool := existsb (fun r => (fst r <=? val) && (val <=? snd r)) s.

(** * Field classes *)

Inductive FixedLenType := BitArray | BitMap | Bool | Float | UInt | SInt.

(** [roles] are those of an unsigned integer field class, in the order of the set;
    [keyValSavingIndexes] are those of a field class whose values are saved for the fields
    that depend on them. *)
Record FixedLenBitArrayFc := FixedLen {
  fl_type : FixedLenType;
  fl_align : Z;
  len : Z;
  byteOrder : ByteOrder;
  bitOrder : option BitOrder;
  fl_roles : list UIntFieldRole;
  fl_keyValSavingIndexes : list nat
}.

#[local] Set Warnings "-register-all".

(** The selector of an optional or variant field class. *)
Inductive SelType := BoolSel | UIntSel | SIntSel.
#[export] Instance SelType_eq_dec : EqDecision SelType.
Proof. solve_decision. Defined.

Inductive Fc :=
| FixedLenFc (f : FixedLenBitArrayFc)
| VarLenUIntFc (roles : list UIntFieldRole) (keyValSavingIndexes : list nat)
| VarLenSIntFc (keyValSavingIndexes : list nat)
| NullTerminatedStrFc (encoding : StrEncoding)
| StaticLenStrFc (encoding : StrEncoding) (len : Z)
| DynLenStrFc (encoding : StrEncoding) (savedKeyValIndex : option nat)
| StaticLenBlobFc (len : Z) (hasMetadataStreamUuidRole : bool)
| DynLenBlobFc (savedKeyValIndex : option nat)
| StructFc (memberClasses : list Fc) (minAlign : Z)
| StaticLenArrayFc (elemFc : Fc) (len minAlign : Z) (hasMetadataStreamUuidRole : bool)
| DynLenArrayFc (elemFc : Fc) (minAlign : Z) (savedKeyValIndex : option nat)
| OptionalFc (sel : SelType) (fc : Fc) (selFieldRanges : IntRangeSet) (savedKeyValIndex : option nat)
| VariantFc (sel : SelType) (opts : list (Fc * IntRangeSet)) (savedKeyValIndex : option nat).

Fixpoint align (fc : Fc) : Z :=
  match fc with
  | FixedLenFc f => fl_align f
  | VarLenUIntFc _ _ | VarLenSIntFc _ => 8
  | NullTerminatedStrFc _ | StaticLenStrFc _ _ | DynLenStrFc _ _ | StaticLenBlobFc _ _ | DynLenBlobFc _ => 8
  | StructFc memberClasses minAlign =>
    (fix max_align (l : list Fc) (a : Z) : Z := match l with [] => a | fc :: l => max_align l (Z.max a (align fc)) end)
      memberClasses minAlign
  | StaticLenArrayFc elemFc _ minAlign _ | DynLenArrayFc elemFc minAlign _ => Z.max (align elemFc) minAlign
  | OptionalFc _ _ _ _ | VariantFc _ _ _ => 1
  end.

Definition isStruct (fc : Fc) : bool := match fc with StructFc _ _ => true | _ => false end.
Definition isArray (fc : Fc) : bool := match fc with StaticLenArrayFc _ _ _ _ | DynLenArrayFc _ _ _ => true | _ => false end.

(** [isEnabledBySelVal] and [findOptBySelVal], on a selector value of the type. *)
Definition isEnabledBySelVal (sel : SelType) (selFieldRanges : IntRangeSet) (selVal : Z) : bool :=
  match sel with BoolSel => negb (selVal =? 0) | _ => contains selFieldRanges selVal end.
Fixpoint findOptBySelVal (opts : list (Fc * IntRangeSet)) (selVal : Z) (i : nat) : option (nat * Fc) :=
  match opts with
  | [] => None
  | (fc, ranges) :: opts => if contains ranges selVal then Some (i, fc) else findOptBySelVal opts selVal (S i)
  end.

(** * Deep types *)

Inductive ReadBitOrder := Natural | Reversed.
#[export] Instance ReadBitOrder_eq_dec : EqDecision ReadBitOrder.
Proof. solve_decision. Defined.

(** How a fixed-length bit array is read: [LenBitsV], [ByteOrderV] and [BitOrderV]. *)
Record Reading := ReadingOf { lenBits : Z; readByteOrder : ByteOrder; readBitOrder : ReadBitOrder }.

#[export] Instance Reading_eq_dec : EqDecision Reading.
Proof. solve_decision. Defined.

Inductive FcDeepType :=
| FixedLenBitArrayT (r : Reading)
| FixedLenBitMapT (r : Reading)
| FixedLenBoolT (r : Reading) (saveVal : bool)
| FixedLenFloatT (r : Reading) (isDouble : bool)
| FixedLenUIntT (r : Reading) (withRole saveVal : bool)
| FixedLenSIntT (r : Reading) (saveVal : bool)
| VarLenUIntT (withRole saveVal : bool)
| VarLenSIntT (saveVal : bool)
| NullTerminatedStrUtf8T | NullTerminatedStrUtf16T | NullTerminatedStrUtf32T
| StaticLenStrT | DynLenStrT
| StaticLenBlobT | StaticLenBlobWithMetadataStreamUuidRoleT | DynLenBlobT
| StructT
| StaticLenArrayT | StaticLenArrayWithMetadataStreamUuidRoleT | DynLenArrayT
| OptionalT (sel : SelType)
| VariantT (sel : SelType).

Definition isRev (byteOrder : ByteOrder) (bitOrder : option BitOrder) : bool :=
  match bitOrder, byteOrder with Some FirstToLast, Big | Some LastToFirst, Little => true | _, _ => false end.
Definition isStdBitArrayFc (align len : Z) : bool :=
  (align mod 8 =? 0) && ((len =? 8) || (len =? 16) || (len =? 32) || (len =? 64)).

(** The part of the deep type that the functions that create fixed-length classes share. *)
Definition reading_of (f : FixedLenBitArrayFc) : Reading :=
  let rev := if isRev (byteOrder f) (bitOrder f) then Reversed else Natural in
  if isStdBitArrayFc (fl_align f) (len f) then ReadingOf (len f) (if len f =? 8 then Big else byteOrder f) rev
  else ReadingOf 0 (byteOrder f) rev.

Definition is_key (keyValSavingIndexes : list nat) : bool := bool_decide (keyValSavingIndexes <> []).
Definition has_role (roles : list UIntFieldRole) : bool := bool_decide (roles <> []).

(** The deep type of a class that was created and made a key class by
    [addKeyValSavingIndex]; there is none for a floating-point number class that has not
    32 or 64 bits. *)
Definition deepType (fc : Fc) : option FcDeepType :=
  match fc with
  | FixedLenFc f =>
    let r := reading_of f in
    let save := is_key (fl_keyValSavingIndexes f) in
    match fl_type f with
    | BitArray => Some (FixedLenBitArrayT r)
    | BitMap => Some (FixedLenBitMapT r)
    | Bool => Some (FixedLenBoolT r save)
    | Float => if len f =? 32 then Some (FixedLenFloatT r false) else if len f =? 64 then Some (FixedLenFloatT r true) else None
    | UInt => Some (FixedLenUIntT r (has_role (fl_roles f)) save)
    | SInt => Some (FixedLenSIntT r save)
    end
  | VarLenUIntFc roles keys => Some (VarLenUIntT (has_role roles) (is_key keys))
  | VarLenSIntFc keys => Some (VarLenSIntT (is_key keys))
  | NullTerminatedStrFc Utf8 => Some NullTerminatedStrUtf8T
  | NullTerminatedStrFc (Utf16Be | Utf16Le) => Some NullTerminatedStrUtf16T
  | NullTerminatedStrFc (Utf32Be | Utf32Le) => Some NullTerminatedStrUtf32T
  | StaticLenStrFc _ _ => Some StaticLenStrT
  | DynLenStrFc _ _ => Some DynLenStrT
  | StaticLenBlobFc _ uuid => Some (if uuid then StaticLenBlobWithMetadataStreamUuidRoleT else StaticLenBlobT)
  | DynLenBlobFc _ => Some DynLenBlobT
  | StructFc _ _ => Some StructT
  | StaticLenArrayFc _ _ _ uuid => Some (if uuid then StaticLenArrayWithMetadataStreamUuidRoleT else StaticLenArrayT)
  | DynLenArrayFc _ _ _ => Some DynLenArrayT
  | OptionalFc sel _ _ _ => Some (OptionalT sel)
  | VariantFc sel _ _ => Some (VariantT sel)
  end.

(** * Trace classes *)

Record EventRecordCls := EventRecordClsOf { ec_id : Z; specCtxFc : option Fc; payloadFc : option Fc }.
(** [eventRecordClasses] are in the order of their identifiers. *)
Record DataStreamCls := DataStreamClsOf {
  dsc_id : Z;
  pktCtxFc : option Fc;
  eventRecordHeaderFc : option Fc;
  commonEventRecordCtxFc : option Fc;
  has_defClkCls : bool;
  eventRecordClasses : list EventRecordCls
}.
Record TraceCls := TraceClsOf { pktHeaderFc : option Fc; dataStreamClasses : list DataStreamCls; savedKeyValCount : nat }.

(** [operator[]]. *)
Definition data_stream_cls_by_id (t : TraceCls) (id : Z) : option DataStreamCls :=
  List.find (fun c => dsc_id c =? id) (dataStreamClasses t).
Definition event_record_cls_by_id (c : DataStreamCls) (id : Z) : option EventRecordCls :=
  List.find (fun e => ec_id e =? id) (eventRecordClasses c).
