(* ===== verification/ItemBits.v ===== *)
(** The integers of fixed-length and variable-length CTF fields: reading bytes
    ([src/src/cpp-common/bt2c/read-fixed-len-int.hpp]), reversing bits
    ([reverse-fixed-len-int-bits.hpp]), the readers of fixed-length fields and the helpers of
    variable-length fields ([src/src/plugins/ctf/common/src/item-seq/item-seq-iter.hpp]), and
    the search of null codepoints ([null-cp-finder.hpp]).

    An [unsigned long long] is in [0, 2^64), a [long long] in [-2^63, 2^63). *)

From S2P Require Import Prelude Bitfield CtfIr.

(** * Reversing bits *)

Definition swapBits (mask shift p : Z) : Z :=
  let q := Z.land (Z.lxor (Z.shiftr p shift) p) mask in
  Z.lxor (Z.lxor p q) (wrapu 64 (Z.shiftl q shift)).

(** The conversion to the type of the value, of 64 bits. *)
Definition of_u64 (signed : bool) (u : Z) : Z := if signed then wraps 64 u else u.

Definition reverse64 (u : Z) : Z :=
  let m0 := 0x5555555555555555 in
  let u := Z.lor (Z.land (Z.shiftr u 1) m0) (wrapu 64 (Z.shiftl (Z.land u m0) 1)) in
  let u := swapBits 0x0300c0303030c303 4 u in
  let u := swapBits 0x00c0300c03f0003f 8 u in
  let u := swapBits 0x00000ffc00003fff 20 u in
  Z.lor (Z.shiftr u 34) (wrapu 64 (Z.shiftl u 30)).

(** C++ shifts a negative value to the right arithmetically on the supported compilers. *)
Definition reverseFixedLenIntBits (signed : bool) (val len : Z) : Z := Z.shiftr (of_u64 signed (reverse64 (wrapu 64 val))) (64 - len).

(** * Fixed-length integers *)

(** The value of the bytes of an integer in memory, the first one being the least
    significant. *)
Fixpoint le_bytes (bytes : list Z) : Z := match bytes with [] => 0 | b :: bytes => b + 256 * le_bytes bytes end.

Definition readFixedLenInt (signed : bool) (bits : Z) (bo : ByteOrder) (buf : list Z) : option Z :=
  guard_ub (bits / 8 <=? Z.of_nat (length buf));
  let bytes := take (Z.to_nat (bits / 8)) buf in
  let u := le_bytes (match bo with Little => bytes | Big => rev bytes end) in
  Some (if signed then wraps bits u else u).

Definition reverseFixedLenIntBitsIfNeeded (signed : bool) (o : ReadBitOrder) (val len : Z) : Z :=
  match o with Natural => val | Reversed => reverseFixedLenIntBits signed val len end.

(** [ReadFixedLenIntFunc::read]: [buf] starts at the byte of the head, [extra] is the bit of
    the head in it.  The check of the byte order is made by the caller. *)
Definition ReadFixedLenIntFunc (signed : bool) (r : Reading) (buf : list Z) (extra len : Z) : option Z :=
  if lenBits r =? 0 then
    let t := if signed then int64_t else uint64_t in
    do val <- match readByteOrder r with
              | Big => _bt_bitfield_read_be uint8_t t buf extra len
              | Little => _bt_bitfield_read_le uint8_t t buf extra len
              end;
    Some (reverseFixedLenIntBitsIfNeeded signed (readBitOrder r) val len)
  else
    do val <- readFixedLenInt signed (lenBits r) (readByteOrder r) buf;
    Some (reverseFixedLenIntBitsIfNeeded signed (readBitOrder r) val (lenBits r)).

(** * Variable-length integers *)

Definition VarLenIntFieldVal (signed : bool) (len v : Z) : Z :=
  if negb signed then v
  else if len =? 64 then v
  else
    let mask := wrapu 64 (Z.shiftl 1 (len - 1)) in
    let v := Z.land v (wrapu 64 (Z.shiftl 1 len - 1)) in
    wrapu 64 (Z.lxor v mask - mask).

(** [_appendVarLenIntByte], on the current value and length; [None] when the integer is too
    large.  The byte is consumed by the caller. *)
Definition appendVarLenIntByte (signed : bool) (val len byte : Z) : option (Z * Z) :=
  let byteVal := Z.land byte 127 in
  let isLastByte := Z.land byte 128 =? 0 in
  let hasValidValAsSigned := (byteVal =? 0) || (byteVal =? 127) in
  let hasValidValAsUnsigned := byteVal =? 1 in
  let newLen := len + 7 in
  let append := fun newLen => Some (Z.lor val (wrapu 64 (Z.shiftl byteVal len)), newLen) in
  if 63 <? newLen then
    if negb isLastByte || (signed && negb hasValidValAsSigned) || (negb signed && negb hasValidValAsUnsigned) then None
    else append 64
  else append newLen.

(** * Null codepoints *)

(** The bytes of the current code unit. *)
Definition NullCpFinder : Type := list Z.

(** The finder after the bytes, and the number of bytes up to the end of the first null
    codepoint. *)
Fixpoint findNullCp (codeUnitLen : nat) (finder : NullCpFinder) (buffer : list Z) (i : nat) : NullCpFinder * option nat :=
  match buffer with
  | [] => (finder, None)
  | b :: buffer =>
    let finder := finder ++ [b] in
    if bool_decide (length finder = codeUnitLen) then
      if bool_decide (finder = replicate codeUnitLen 0) then (finder, Some (S i)) else findNullCp codeUnitLen [] buffer (S i)
    else findNullCp codeUnitLen finder buffer (S i)
  end.
