(* ===== verification/ItemBitsFacts.v ===== *)
(** Facts on the integers of CTF fields: reversing the bits of an integer, reading an integer
    in a part of a buffer, and the bounds of what is read. *)

From S2P Require Import Prelude Bitfield CtfIr ItemBits.

(** * Reversing bits *)

(** [swapBits], bit by bit. *)
Definition swp (m s : Z) (p : Z -> bool) (i : Z) : bool :=
  let q := fun j => if Z.testbit m j then xorb (p (j + s)) (p j) else false in
  xorb (xorb (p i) (q i)) (if (i <? s) || (64 <=? i) then false else q (i - s)).

Lemma swapBits_testbit m s p i : 0 <= s -> Z.testbit (swapBits m s p) i = swp m s (Z.testbit p) i.
Proof.
  intros. unfold swapBits, swp.
  assert (Hq : forall j, Z.testbit (Z.land (Z.lxor (Z.shiftr p s) p) m) j =
                         if Z.testbit m j then xorb (Z.testbit p (j + s)) (Z.testbit p j) else false).
  { intros j. destruct (Z.ltb_spec j 0); [by rewrite !Z.testbit_neg_r by lia|].
    rewrite Z.land_spec, Z.lxor_spec, Z.shiftr_spec by lia.
    destruct (Z.testbit m j); [by rewrite andb_true_r|by rewrite andb_false_r]. }
  destruct (Z.ltb_spec i 0).
  { rewrite !Z.testbit_neg_r by lia. by destruct (Z.ltb_spec i s); [|lia]. }
  rewrite !Z.lxor_spec, Hq, testbit_wrapu by lia. f_equal.
  destruct (Z.ltb_spec i 64), (Z.leb_spec 64 i); try lia; simpl; [|by rewrite orb_true_r].
  rewrite Z.shiftl_spec, orb_false_r by lia.
  destruct (Z.ltb_spec i s); [by rewrite Z.testbit_neg_r by lia|apply Hq].
Qed.

Lemma swp_ext m s p p' i : (forall j, p j = p' j) -> swp m s p i = swp m s p' i.
Proof. intros E. unfold swp. by rewrite !E. Qed.

Lemma below_64 (P : Z -> Prop) : Forall P (seqZ 0 64) -> forall i, 0 <= i < 64 -> P i.
Proof. intros HP i Hi. rewrite list.Forall_forall in HP. apply HP, elem_of_seqZ. lia. Qed.

Lemma u64_range_testbit a : 0 <= a -> (forall i, 64 <= i -> Z.testbit a i = false) -> 0 <= a < 2 ^ 64.
Proof.
  intros Ha Hb. split; [done|]. destruct (Z.eq_dec a 0) as [->|]; [lia|].
  apply Z.log2_lt_pow2; [lia|]. destruct (Z.ltb_spec (Z.log2 a) 64); [done|].
  pose proof (Z.bit_log2 a ltac:(lia)) as Hl. rewrite Hb in Hl by lia. done.
Qed.

Lemma u64_bit a i : 0 <= a < 2 ^ 64 -> 64 <= i -> Z.testbit a i = false.
Proof. intros. apply (testbit_high 64); lia. Qed.
Lemma u64_lxor a b : 0 <= a < 2 ^ 64 -> 0 <= b < 2 ^ 64 -> 0 <= Z.lxor a b < 2 ^ 64.
Proof.
  intros Ha Hb. apply u64_range_testbit; [apply Z.lxor_nonneg; lia|].
  intros i Hi. by rewrite Z.lxor_spec, !u64_bit.
Qed.
Lemma u64_lor a b : 0 <= a < 2 ^ 64 -> 0 <= b < 2 ^ 64 -> 0 <= Z.lor a b < 2 ^ 64.
Proof.
  intros Ha Hb. apply u64_range_testbit; [apply Z.lor_nonneg; lia|].
  intros i Hi. by rewrite Z.lor_spec, !u64_bit.
Qed.
Lemma u64_land a b : 0 <= a < 2 ^ 64 -> 0 <= Z.land a b < 2 ^ 64.
Proof.
  intros Ha. apply u64_range_testbit; [apply Z.land_nonneg; lia|].
  intros i Hi. by rewrite Z.land_spec, u64_bit.
Qed.
Lemma u64_shiftr a n : 0 <= a < 2 ^ 64 -> 0 <= n -> 0 <= Z.shiftr a n < 2 ^ 64.
Proof.
  intros Ha Hn. apply u64_range_testbit; [apply Z.shiftr_nonneg; lia|].
  intros i Hi. rewrite Z.shiftr_spec by lia. apply u64_bit; lia.
Qed.
Lemma u64_wrapu a : 0 <= wrapu 64 a < 2 ^ 64.
Proof. apply wrapu_range. lia. Qed.
Create HintDb u64.
#[export] Hint Resolve u64_lxor u64_lor u64_land u64_shiftr u64_wrapu : u64.
#[export] Hint Extern 1 (0 <= _) => lia : u64.

Lemma swapBits_range m s p : 0 <= s -> 0 <= p < 2 ^ 64 -> 0 <= swapBits m s p < 2 ^ 64.
Proof. intros. unfold swapBits. apply u64_lxor; [apply u64_lxor; [done|]|]; auto with u64. Qed.
#[export] Hint Resolve swapBits_range : u64.
Lemma reverse64_range u : 0 <= u < 2 ^ 64 -> 0 <= reverse64 u < 2 ^ 64.
Proof. intros. unfold reverse64. apply u64_lor; [|apply u64_wrapu]. auto 12 with u64. Qed.

Lemma reverse64_testbit u i : 0 <= u < 2 ^ 64 -> 0 <= i < 64 -> Z.testbit (reverse64 u) i = Z.testbit u (63 - i).
Proof.
  intros Hu. revert i. apply below_64. unfold reverse64.
  set (u0 := Z.lor (Z.land (Z.shiftr u 1) _) _).
  assert (H0 : forall j, Z.testbit u0 j =
    if (j <? 0) || (64 <=? j) then false
    else if Z.testbit 0x5555555555555555 j then Z.testbit u (j + 1) else Z.testbit u (j - 1)).
  { intros j. subst u0. destruct (Z.ltb_spec j 0); [by rewrite Z.testbit_neg_r by lia|]; simpl.
    rewrite Z.lor_spec, testbit_wrapu, Z.land_spec, Z.shiftr_spec by lia.
    destruct (Z.leb_spec 64 j), (Z.ltb_spec j 64); simpl; try lia.
    { rewrite (testbit_high 64 u (j + 1)) by lia. done. }
    rewrite Z.shiftl_spec, Z.land_spec by lia.
    assert (Hm : Z.testbit 0x5555555555555555 (j - 1) = negb (Z.testbit 0x5555555555555555 j)).
    { revert j H H0 H1. cut (forall j, 0 <= j < 64 -> Z.testbit 0x5555555555555555 (j - 1) = negb (Z.testbit 0x5555555555555555 j)).
      { intros Hc j ???. apply Hc. lia. }
      apply below_64. repeat constructor; vm_compute; reflexivity. }
    rewrite Hm. destruct (Z.testbit 0x5555555555555555 j); simpl; [by rewrite andb_true_r, andb_false_r, orb_false_r|].
    by rewrite andb_false_r, andb_true_r. }
  set (a := swapBits _ 4 u0). set (b := swapBits _ 8 a). set (c := swapBits _ 20 b).
  assert (Hc : forall j, Z.testbit c j =
    swp 0x00000ffc00003fff 20 (swp 0x00c0300c03f0003f 8 (swp 0x0300c0303030c303 4
      (fun j => if (j <? 0) || (64 <=? j) then false
                else if Z.testbit 0x5555555555555555 j then Z.testbit u (j + 1) else Z.testbit u (j - 1)))) j).
  { intros j. subst c. rewrite swapBits_testbit by lia. apply swp_ext. intros k. subst b.
    rewrite swapBits_testbit by lia. apply swp_ext. intros k'. subst a.
    rewrite swapBits_testbit by lia. by apply swp_ext. }
  clearbody c. clear a b u0 H0.
  assert (Hr : forall j, 0 <= j < 64 -> Z.testbit (Z.lor (Z.shiftr c 34) (wrapu 64 (Z.shiftl c 30))) j =
                         Z.testbit c (j + 34) || Z.testbit c (j - 30)).
  { intros j Hj. rewrite Z.lor_spec, Z.shiftr_spec, testbit_wrapu, Z.shiftl_spec by lia.
    destruct (Z.ltb_spec j 64); [done|lia]. }
  assert (Hh : forall j, 64 <= j -> Z.testbit u j = false) by (intros; apply (testbit_high 64); lia).
  generalize (Z.testbit u) Hh Hc. clear Hu Hc Hh. intros p Hh Hc.
  repeat constructor; (rewrite Hr, !Hc by lia; vm_compute; repeat match goal with |- context [p ?k] => destruct (p k) end; reflexivity).
Qed.

(** * Reading integers *)

(** The bits of an integer, given those from 0 to [len]. *)
Definition int_bits (signed : bool) (len : Z) (bit : Z -> bool) (v : Z) : Prop :=
  forall i, 0 <= i -> Z.testbit v i = if i <? len then bit i else signed && bit (len - 1).

Lemma int_bits_inj signed len bit v v' : int_bits signed len bit v -> int_bits signed len bit v' -> v = v'.
Proof. intros Hv Hv'. apply Z.bits_inj'. intros i Hi. by rewrite Hv, Hv'. Qed.
Lemma int_bits_ext signed len bit bit' v :
  0 < len -> (forall i, 0 <= i < len -> bit i = bit' i) -> int_bits signed len bit v -> int_bits signed len bit' v.
Proof.
  intros Hl E Hv i Hi. rewrite Hv by done. rewrite (E (len - 1)) by lia.
  destruct (Z.ltb_spec i len); [apply E; lia|done].
Qed.
Lemma int_bits_range len bit v : 0 < len <= 64 -> int_bits false len bit v -> 0 <= v < 2 ^ 64.
Proof.
  intros Hl Hv. apply u64_range_testbit.
  - apply Z.bits_iff_nonneg_ex. exists (len + 1). intros i Hi.
    rewrite Hv by lia. by destruct (Z.ltb_spec i len); [lia|].
  - intros i Hi. rewrite Hv by lia. by destruct (Z.ltb_spec i len); [lia|].
Qed.
(** A 64-bit value that is read from a bit-field. *)
Lemma int_bits_of_ct (signed : bool) (len : Z) (bit : Z -> bool) (v : Z) t :
  t = (if signed then int64_t else uint64_t) -> 0 < len <= 64 -> ct_range t v ->
  (forall i, 0 <= i < 64 -> Z.testbit v i = if i <? len then bit i else signed && bit (len - 1)) -> int_bits signed len bit v.
Proof.
  intros -> Hl Hr Hb i Hi. destruct (Z.ltb_spec i 64); [by apply Hb|].
  unfold ct_range in Hr. rewrite <- Hr.
  assert (Hok : ct_ok (if signed then int64_t else uint64_t)) by (destruct signed; right; right; by right).
  assert (Hw : ct_width (if signed then int64_t else uint64_t) = 64) by (by destruct signed).
  assert (Hs : ct_signed (if signed then int64_t else uint64_t) = signed) by (by destruct signed).
  rewrite testbit_ct_wrap_high, Hw, Hs by (done || lia). rewrite Hb by lia.
  destruct (Z.ltb_spec i len); [lia|].
  destruct signed; [|done]. destruct (Z.ltb_spec (64 - 1) len); [|done]. simpl. f_equal. lia.
Qed.

Lemma int_bits_reverse signed len bit v :
  0 < len <= 64 -> int_bits signed len bit v -> int_bits signed len (fun i => bit (len - 1 - i)) (reverseFixedLenIntBits signed v len).
Proof.
  intros Hl Hv i Hi. unfold reverseFixedLenIntBits. rewrite Z.shiftr_spec by done.
  assert (Hr : forall j, 0 <= j < 64 -> Z.testbit (reverse64 (wrapu 64 v)) j = Z.testbit v (63 - j)).
  { intros j Hj. rewrite reverse64_testbit, testbit_wrapu by (try apply wrapu_range; lia).
    destruct (Z.ltb_spec (63 - j) 64); [done|lia]. }
  assert (Hlow : forall j, 64 - len <= j < 64 -> Z.testbit (of_u64 signed (reverse64 (wrapu 64 v))) j = bit (63 - j)).
  { intros j Hj. unfold of_u64. destruct signed; [rewrite testbit_wraps, Z.min_l by lia|];
      rewrite Hr, Hv by lia; by destruct (Z.ltb_spec (63 - j) len); [|lia]. }
  destruct (Z.ltb_spec i len).
  - rewrite Hlow by lia. f_equal. lia.
  - replace (len - 1 - (len - 1)) with 0 by lia. destruct signed; simpl.
    + unfold of_u64. rewrite testbit_wraps, Z.min_r, Hr, Hv by lia. by destruct (Z.ltb_spec (63 - (64 - 1)) len); [|lia].
    + apply u64_bit; [|lia]. apply reverse64_range, u64_wrapu.
Qed.

(** Bit [i] of a field of [len] bits at the bit [extra] of [buf]. *)
Definition field_bit (r : Reading) (buf : list Z) (extra len i : Z) : bool :=
  let i := match readBitOrder r with Natural => i | Reversed => len - 1 - i end in
  match readByteOrder r with Little => le_bit 8 buf (extra + i) | Big => be_bit 8 buf (extra + len - 1 - i) end.

Lemma unit_bit_cons b l u j : 0 <= u -> unit_bit (b :: l) u j = if u =? 0 then Z.testbit b j else unit_bit l (u - 1) j.
Proof.
  intros Hu. unfold unit_bit, ptr_get. rewrite (proj2 (Z.leb_le 0 u)) by lia.
  destruct (Z.eqb_spec u 0) as [->|]; [done|]. rewrite (proj2 (Z.leb_le 0 (u - 1))) by lia.
  replace (Z.to_nat u) with (S (Z.to_nat (u - 1))) by lia. done.
Qed.
Lemma le_bit_cons b l k : 0 <= k -> le_bit 8 (b :: l) k = if k <? 8 then Z.testbit b k else le_bit 8 l (k - 8).
Proof.
  intros Hk. unfold le_bit. rewrite unit_bit_cons by div_lia.
  destruct (Z.ltb_spec k 8), (Z.eqb_spec (k / 8) 0); try div_lia.
  - f_equal. div_lia.
  - f_equal; div_lia.
Qed.
Lemma le_bytes_testbit l i : buf_wf 8 l -> 0 <= i -> Z.testbit (le_bytes l) i = le_bit 8 l i.
Proof.
  intros Hl. revert i. induction Hl as [|b l Hb Hl IH]; intros i Hi; cbn [le_bytes].
  { rewrite Z.bits_0. unfold le_bit, unit_bit, ptr_get. destruct (0 <=? i / 8); done. }
  rewrite le_bit_cons by done. replace (b + 256 * le_bytes l) with (le_bytes l * 2 ^ 8 + b) by lia.
  destruct (Z.ltb_spec i 8).
  - rewrite <- (Z.mod_pow2_bits_low _ 8 i) by lia. f_equal.
    rewrite Z.add_comm, Z_mod_plus_full. apply Z.mod_small. lia.
  - rewrite <- IH by lia. transitivity (Z.testbit ((le_bytes l * 2 ^ 8 + b) / 2 ^ 8) (i - 8)).
    { rewrite Z.div_pow2_bits by lia. f_equal. lia. }
    rewrite Z.div_add_l by lia. rewrite (Z.div_small b) by lia. f_equal. lia.
Qed.

Lemma unit_bit_app l l' u j : u < Z.of_nat (length l) -> unit_bit (l ++ l') u j = unit_bit l u j.
Proof.
  intros Hu. unfold unit_bit, ptr_get. destruct (Z.leb_spec 0 u); [|done]. by rewrite lookup_app_l by lia.
Qed.
Lemma field_bit_app r l l' extra len i :
  0 <= extra -> extra + len <= 8 * Z.of_nat (length l) -> 0 <= i < len ->
  field_bit r (l ++ l') extra len i = field_bit r l extra len i.
Proof.
  intros He Hl Hi. unfold field_bit, le_bit, be_bit.
  destruct (readByteOrder r), (readBitOrder r); apply unit_bit_app; div_lia.
Qed.
Lemma unit_bit_rev l u j : 0 <= u < Z.of_nat (length l) -> unit_bit (rev l) u j = unit_bit l (Z.of_nat (length l) - 1 - u) j.
Proof.
  intros Hu. unfold unit_bit, ptr_get. rewrite !(proj2 (Z.leb_le _ _)) by lia.
  rewrite rev_alt. change (rev_append l []) with (reverse l). rewrite reverse_lookup by lia.
  by replace (length l - S (Z.to_nat u))%nat with (Z.to_nat (Z.of_nat (length l) - 1 - u)) by lia.
Qed.
Lemma le_bit_rev l k : 0 <= k < 8 * Z.of_nat (length l) -> le_bit 8 (rev l) k = be_bit 8 l (8 * Z.of_nat (length l) - 1 - k).
Proof.
  intros Hk. unfold le_bit, be_bit. rewrite unit_bit_rev by div_lia. f_equal; div_lia.
Qed.

(** The conditions on a reading: the whole bytes of an integer of a standard length, or any
    bits. *)
Definition reading_ok (r : Reading) (extra len : Z) : Prop :=
  0 < len <= 64 /\ 0 <= extra /\ (lenBits r = 0 \/ (lenBits r = len /\ extra = 0 /\ len mod 8 = 0)).

Lemma readFixedLenInt_bits signed len bo l l' :
  buf_wf 8 (l ++ l') -> 0 < len <= 64 -> len mod 8 = 0 -> len = 8 * Z.of_nat (length l) ->
  exists v, readFixedLenInt signed len bo (l ++ l') = Some v /\ int_bits signed len (field_bit (ReadingOf 0 bo Natural) l 0 len) v.
Proof.
  intros Hwf Hlen H8 Hl. apply Forall_app in Hwf as [Hwf _].
  unfold readFixedLenInt. rewrite length_app, (proj2 (Z.leb_le _ _)) by div_lia.
  replace (Z.to_nat (len / 8)) with (length l) by (subst len; div_lia). rewrite take_app_length. eexists. split; [done|].
  set (u := le_bytes _).
  assert (Hu : forall i, 0 <= i < len -> Z.testbit u i = field_bit (ReadingOf 0 bo Natural) l 0 len i).
  { intros i Hi. subst u. unfold field_bit; simpl. destruct bo.
    - rewrite le_bytes_testbit by (try lia; by apply Forall_rev). rewrite le_bit_rev by lia. f_equal. lia.
    - rewrite le_bytes_testbit by (done || lia). f_equal. }
  intros i Hi. destruct signed; simpl.
  - rewrite testbit_wraps by lia. destruct (Z.ltb_spec i len).
    + rewrite Z.min_l by lia. by apply Hu.
    + rewrite Z.min_r by lia. apply Hu. lia.
  - destruct (Z.ltb_spec i len); [apply Hu; lia|]. subst u.
    rewrite le_bytes_testbit by (first [lia | destruct bo; [by apply Forall_rev|done]]).
    unfold le_bit, unit_bit, ptr_get. destruct (0 <=? i / 8); [|done].
    rewrite lookup_ge_None_2; [done|]. destruct bo; rewrite ?length_rev; div_lia.
Qed.

(** Whatever follows its bytes in the buffer, a field is read as the integer of its bits. *)
Lemma ReadFixedLenIntFunc_bits signed r l l' extra len :
  buf_wf 8 (l ++ l') -> 8 * (Z.of_nat (length (l ++ l')) + 1) <= 2 ^ 64 -> reading_ok r extra len ->
  extra + len <= 8 * Z.of_nat (length l) ->
  exists v, ReadFixedLenIntFunc signed r (l ++ l') extra len = Some v /\ int_bits signed len (field_bit r l extra len) v.
Proof.
  intros Hwf Hmem (Hlen & He & Hr) Hfit. destruct r as [n bo order]. unfold ReadFixedLenIntFunc. simpl in *.
  assert (Hnat : exists v, (if n =? 0 then match bo with Big => _bt_bitfield_read_be uint8_t (if signed then int64_t else uint64_t) (l ++ l') extra len
                                        | Little => _bt_bitfield_read_le uint8_t (if signed then int64_t else uint64_t) (l ++ l') extra len end
                            else readFixedLenInt signed n bo (l ++ l')) = Some v /\
                 int_bits signed len (field_bit (ReadingOf 0 bo Natural) l extra len) v).
  { destruct Hr as [-> | (-> & -> & H8)]; simpl.
    - set (t := if signed then int64_t else uint64_t).
      assert (Hok : ct_ok t) by (subst t; destruct signed; right; right; by right).
      assert (Hs : ct_signed t = signed) by (by destruct signed).
      assert (Hw : ct_width t = 64) by (by destruct signed).
      assert (Hfit' : extra + len <= 8 * Z.of_nat (length (l ++ l'))) by (rewrite length_app; lia).
      destruct bo.
      + destruct (read_be_reads uint8_t t uint8_unit Hok (l ++ l') extra len) as (v & -> & Hv & Hrd); try (done || lia).
        exists v. split; [done|]. refine (int_bits_of_ct signed len _ v t eq_refl Hlen Hv _).
        intros i Hi. rewrite Hrd by (rewrite Hw; lia).
        unfold field_bit; simpl. rewrite Hs. destruct (Z.ltb_spec i len).
        * unfold be_bit. apply unit_bit_app. div_lia.
        * f_equal. unfold be_bit. replace (extra + len - 1 - (len - 1)) with extra by lia. apply unit_bit_app. div_lia.
      + destruct (read_le_reads uint8_t t uint8_unit Hok (l ++ l') extra len) as (v & -> & Hv & Hrd); try (done || lia).
        exists v. split; [done|]. refine (int_bits_of_ct signed len _ v t eq_refl Hlen Hv _).
        intros i Hi. rewrite Hrd by (rewrite Hw; lia).
        unfold field_bit; simpl. rewrite Hs. destruct (Z.ltb_spec i len).
        * unfold le_bit. apply unit_bit_app. div_lia.
        * f_equal. unfold le_bit. replace (extra + (len - 1)) with (extra + len - 1) by lia. apply unit_bit_app. div_lia.
    - destruct (Z.eqb_spec len 0); [lia|].
      rewrite <- (take_drop (Z.to_nat (len / 8)) l), <- app_assoc in Hwf |- *.
      destruct (readFixedLenInt_bits signed len bo (take (Z.to_nat (len / 8)) l) (drop (Z.to_nat (len / 8)) l ++ l')) as (v & -> & Hv);
        try done; [rewrite length_take; div_lia|].
      exists v. split; [done|]. eapply int_bits_ext, Hv; [lia|]. intros i Hi.
      symmetry. apply field_bit_app; try lia. rewrite length_take. div_lia. }
  destruct Hnat as (v & Hv & Hb).
  assert (Hlen' : (if n =? 0 then len else n) = len) by (destruct Hr as [-> | (-> & _)]; [done|by destruct (len =? 0)]).
  destruct order; simpl.
  - exists v. destruct (n =? 0); rewrite Hv; split; done.
  - exists (reverseFixedLenIntBits signed v len). split; [destruct (n =? 0); rewrite Hv; simpl; by rewrite ?Hlen'|].
    by apply (int_bits_reverse _ _ (field_bit (ReadingOf 0 bo Natural) l extra len)).
Qed.

(** * Null codepoints *)

Lemma findNullCp_shift n f l i : snd (findNullCp n f l i) = (fun m => i + m)%nat <$> snd (findNullCp n f l 0).
Proof.
  revert f i. cut (forall f i j, snd (findNullCp n f l (i + j)) = (fun m => i + m)%nat <$> snd (findNullCp n f l j)).
  { intros Hc f i. rewrite <- Hc. by rewrite Nat.add_0_r. }
  induction l as [|b l IH]; intros f i j; [done|]. simpl. rewrite plus_n_Sm.
  destruct (bool_decide (length (f ++ [b]) = n)); [|apply IH]. destruct (bool_decide (f ++ [b] = replicate n 0)); [done|apply IH].
Qed.
Lemma findNullCp_range n f l m : snd (findNullCp n f l 0) = Some m -> (1 <= m <= length l)%nat.
Proof.
  revert f m. induction l as [|b l IH]; intros f m; [done|]. simpl.
  destruct (bool_decide (length (f ++ [b]) = n)); [destruct (bool_decide (f ++ [b] = replicate n 0)); [intros [= <-]; lia|]|];
    rewrite findNullCp_shift; intros Hm; destruct (snd (findNullCp n _ l 0)) eqn:E; simplify_eq/=; apply IH in E; lia.
Qed.
(** Searching a part of the bytes, then the others with the finder that is left. *)
Lemma findNullCp_app n f a b :
  snd (findNullCp n f (a ++ b) 0) =
  match snd (findNullCp n f a 0) with
  | Some m => Some m
  | None => (fun m => length a + m)%nat <$> snd (findNullCp n (fst (findNullCp n f a 0)) b 0)
  end.
Proof.
  cut (forall i, snd (findNullCp n f (a ++ b) i) =
         match snd (findNullCp n f a i) with
         | Some m => Some m
         | None => (fun m => i + (length a + m))%nat <$> snd (findNullCp n (fst (findNullCp n f a i)) b 0)
         end); [intros Hc; apply (Hc 0%nat)|].
  revert f. induction a as [|x a IH]; intros f i; simpl; [apply findNullCp_shift|].
  destruct (bool_decide (length (f ++ [x]) = n)); [destruct (bool_decide (f ++ [x] = replicate n 0)); [done|]|];
    rewrite IH; destruct (snd (findNullCp n _ a (S i))); try done; apply option_fmap_ext; intros; lia.
Qed.
