(* ===== verification/ItemState.v ===== *)
(** The items and the state of the CTF item sequence iterator
    ([src/src/plugins/ctf/common/src/item-seq/item.hpp], [item-seq-iter.hpp], [medium.hpp]).

    The state is in four parts: the data that is read ([Window]), where the decoding is
    ([Control]), what was decoded ([Decoded]), and what the user sees.  A pointer in a buffer
    is what the buffer has from there, and a buffer is all that its medium gave.  Offsets
    and lengths are in bits.  Log messages and the texts of errors are left out. *)

From S2P Require Import Prelude Bitfield CtfIr ItemBits Field.
From Stdlib Require Import SpecFloat.

(** * Media *)

(** [Medium::buf]: a buffer, or what is thrown. *)
Inductive buf_result := Bytes (b : list Z) | NoData | MediumTryAgain | MediumError.
Class Medium (M : Type) := medium_buf : M -> Z -> Z -> M * buf_result.

(** * Items *)

Inductive Scope := PktHeader | PktCtx | EventRecordHeader | CommonEventRecordCtx | SpecEventRecordCtx | EventRecordPayload.
#[export] Instance Scope_eq_dec : EqDecision Scope.
Proof. solve_decision. Defined.

(** The attributes of a packet information item. *)
Record PktInfo := PktInfoOf {
  seqNum : option Z;
  discErCounterSnap : option Z;
  expectedTotalLen : option Z;
  expectedContentLen : option Z;
  beginDefClkVal : option Z;
  endDefClkVal : option Z
}.
Definition with_seqNum (x : option Z) (i : PktInfo) : PktInfo :=
  PktInfoOf x (discErCounterSnap i) (expectedTotalLen i) (expectedContentLen i) (beginDefClkVal i) (endDefClkVal i).
Definition with_discErCounterSnap (x : option Z) (i : PktInfo) : PktInfo :=
  PktInfoOf (seqNum i) x (expectedTotalLen i) (expectedContentLen i) (beginDefClkVal i) (endDefClkVal i).
Definition with_expectedTotalLen (x : option Z) (i : PktInfo) : PktInfo :=
  PktInfoOf (seqNum i) (discErCounterSnap i) x (expectedContentLen i) (beginDefClkVal i) (endDefClkVal i).
Definition with_expectedContentLen (x : option Z) (i : PktInfo) : PktInfo :=
  PktInfoOf (seqNum i) (discErCounterSnap i) (expectedTotalLen i) x (beginDefClkVal i) (endDefClkVal i).
Definition with_beginDefClkVal (x : option Z) (i : PktInfo) : PktInfo :=
  PktInfoOf (seqNum i) (discErCounterSnap i) (expectedTotalLen i) (expectedContentLen i) x (endDefClkVal i).
Definition with_endDefClkVal (x : option Z) (i : PktInfo) : PktInfo :=
  PktInfoOf (seqNum i) (discErCounterSnap i) (expectedTotalLen i) (expectedContentLen i) (beginDefClkVal i) x.

(** An item as the user gets it from [next]. *)
Inductive Item :=
| PktBeginItem | PktEndItem
| ScopeBeginItem (scope : Scope) | ScopeEndItem (scope : Scope)
| PktContentBeginItem | PktContentEndItem
| EventRecordBeginItem | EventRecordEndItem
| PktMagicNumberItem (val : Z)
| MetadataStreamUuidItem (uuid : list Z)
| DataStreamInfoItem (cls : option DataStreamCls) (id : option Z)
| PktInfoItem (info : PktInfo)
| EventRecordInfoItem (cls : option EventRecordCls) (defClkVal : option Z)
| DefClkValItem (cycles : Z)
| FixedLenBitArrayFieldItem (cls : Fc) (val : Z)
| FixedLenBitMapFieldItem (cls : Fc) (val : Z)
| FixedLenBoolFieldItem (cls : Fc) (val : Z)
| FixedLenSIntFieldItem (cls : Fc) (val : Z)
| FixedLenUIntFieldItem (cls : Fc) (val : Z)
| FixedLenFloatFieldItem (cls : Fc) (val : spec_float)
| VarLenSIntFieldItem (cls : Fc) (val len : Z)
| VarLenUIntFieldItem (cls : Fc) (val len : Z)
| NullTerminatedStrFieldBeginItem (cls : Fc) | NullTerminatedStrFieldEndItem (cls : Fc)
| RawDataItem (data : list Z)
| StaticLenArrayFieldBeginItem (cls : Fc) | StaticLenArrayFieldEndItem (cls : Fc)
| DynLenArrayFieldBeginItem (cls : Fc) (len : Z) | DynLenArrayFieldEndItem (cls : Fc)
| StaticLenStrFieldBeginItem (cls : Fc) | StaticLenStrFieldEndItem (cls : Fc)
| DynLenStrFieldBeginItem (cls : Fc) (len : Z) | DynLenStrFieldEndItem (cls : Fc)
| StaticLenBlobFieldBeginItem (cls : Fc) | StaticLenBlobFieldEndItem (cls : Fc)
| DynLenBlobFieldBeginItem (cls : Fc) (len : Z) | DynLenBlobFieldEndItem (cls : Fc)
| StructFieldBeginItem (cls : Fc) | StructFieldEndItem (cls : Fc)
| VariantFieldBeginItem (sel : SelType) (cls : Fc) (selVal : Z) (selectedOptIndex : nat) | VariantFieldEndItem (sel : SelType) (cls : Fc)
| OptionalFieldBeginItem (sel : SelType) (cls : Fc) (selVal : Z) (isEnabled : bool) | OptionalFieldEndItem (sel : SelType) (cls : Fc).

(** * States *)

(** A state of the code whose name spells the parameters of a template has them as
    arguments; those of a scope have it as an argument. *)
Inductive State :=
| Init | Done
| TryBeginReadPkt | EndReadPkt | BeginReadPktContent | EndReadPktContent
| TryBeginReadScope (scope : Scope) | EndReadScope (scope : Scope)
| TryBeginReadEventRecord | EndReadEventRecord
| SetDataStreamInfoItem | SetPktInfoItem | SetEventRecordInfoItem
| SetPktMagicNumberItem | SetDefClkValItem | SetMetadataStreamUuidItem
| SkipPadding | SkipContentPadding
| ReadFixedLenBitArrayField (r : Reading) | ReadFixedLenBitMapField (r : Reading)
| ReadFixedLenBoolField (r : Reading) (saveVal : bool)
| ReadFixedLenFloatField (r : Reading) (isDouble : bool)
| ReadFixedLenUIntField (r : Reading) (withRole saveVal : bool)
| ReadFixedLenSIntField (r : Reading) (saveVal : bool)
| ReadFixedLenMetadataStreamUuidByteUIntFieldBa8
| ReadVarLenUIntField (withRole saveVal : bool) | ReadVarLenSIntField (saveVal : bool)
| BeginReadNullTerminatedStrFieldUtf8 | BeginReadNullTerminatedStrFieldUtf16 | BeginReadNullTerminatedStrFieldUtf32
| ReadSubstrUntilNullCodepointUtf8 | ReadSubstrUntilNullCodepointUtf16 | ReadSubstrUntilNullCodepointUtf32
| EndReadNullTerminatedStrField
| ReadRawData | ReadMetadataStreamUuidBlobFieldSection
| BeginReadStaticLenStrField | EndReadStaticLenStrField | BeginReadDynLenStrField | EndReadDynLenStrField
| BeginReadStaticLenBlobField | BeginReadStaticLenBlobFieldMetadataStreamUuid | EndReadStaticLenBlobField
| BeginReadDynLenBlobField | EndReadDynLenBlobField
| BeginReadStructField | EndReadStructField
| BeginReadStaticLenArrayField | BeginReadStaticLenArrayFieldMetadataStreamUuid | EndReadStaticLenArrayField
| BeginReadDynLenArrayField | EndReadDynLenArrayField
| BeginReadOptionalField (sel : SelType) | EndReadOptionalField (sel : SelType)
| BeginReadVariantField (sel : SelType) | EndReadVariantField (sel : SelType).
#[export] Instance State_eq_dec : EqDecision State.
Proof. solve_decision. Defined.

Record StackFrame := StackFrameOf {
  restoringState : State;
  frameFc : option Fc;
  elemIndex : Z;
  frameLen : Z
}.
Definition with_elemIndex (x : Z) (f : StackFrame) : StackFrame :=
  StackFrameOf (restoringState f) (frameFc f) x (frameLen f).
Definition with_frameLen (x : Z) (f : StackFrame) : StackFrame :=
  StackFrameOf (restoringState f) (frameFc f) (elemIndex f) x.

(** * The iterator *)

(** What was decoded: the members that outlive the reading of a field.  The lengths are the
    expected ones of the current packet. *)
Record Decoded := DecodedOf {
  lastByteOrder : option ByteOrder;
  curClsId : option Z;
  expectedTotal : Z;
  expectedContent : Z;
  savedKeyVals : list Z;
  defClkVal : Z;
  dataStreamCls : option DataStreamCls;
  dataStreamId : option Z;
  pktInfo : PktInfo;
  eventRecordCls : option EventRecordCls;
  eventRecordClkVal : option Z
}.
Definition with_lastByteOrder (x : option ByteOrder) (d : Decoded) : Decoded :=
  DecodedOf x (curClsId d) (expectedTotal d) (expectedContent d) (savedKeyVals d) (defClkVal d) (dataStreamCls d) (dataStreamId d) (pktInfo d)
    (eventRecordCls d) (eventRecordClkVal d).
Definition with_curClsId (x : option Z) (d : Decoded) : Decoded :=
  DecodedOf (lastByteOrder d) x (expectedTotal d) (expectedContent d) (savedKeyVals d) (defClkVal d) (dataStreamCls d) (dataStreamId d) (pktInfo d)
    (eventRecordCls d) (eventRecordClkVal d).
Definition with_expectedTotal (x : Z) (d : Decoded) : Decoded :=
  DecodedOf (lastByteOrder d) (curClsId d) x (expectedContent d) (savedKeyVals d) (defClkVal d) (dataStreamCls d) (dataStreamId d) (pktInfo d)
    (eventRecordCls d) (eventRecordClkVal d).
Definition with_expectedContent (x : Z) (d : Decoded) : Decoded :=
  DecodedOf (lastByteOrder d) (curClsId d) (expectedTotal d) x (savedKeyVals d) (defClkVal d) (dataStreamCls d) (dataStreamId d) (pktInfo d)
    (eventRecordCls d) (eventRecordClkVal d).
Definition with_savedKeyVals (x : list Z) (d : Decoded) : Decoded :=
  DecodedOf (lastByteOrder d) (curClsId d) (expectedTotal d) (expectedContent d) x (defClkVal d) (dataStreamCls d) (dataStreamId d) (pktInfo d)
    (eventRecordCls d) (eventRecordClkVal d).
Definition with_defClkVal (x : Z) (d : Decoded) : Decoded :=
  DecodedOf (lastByteOrder d) (curClsId d) (expectedTotal d) (expectedContent d) (savedKeyVals d) x (dataStreamCls d) (dataStreamId d) (pktInfo d)
    (eventRecordCls d) (eventRecordClkVal d).
Definition with_dataStreamCls (x : option DataStreamCls) (d : Decoded) : Decoded :=
  DecodedOf (lastByteOrder d) (curClsId d) (expectedTotal d) (expectedContent d) (savedKeyVals d) (defClkVal d) x (dataStreamId d) (pktInfo d)
    (eventRecordCls d) (eventRecordClkVal d).
Definition with_dataStreamId (x : option Z) (d : Decoded) : Decoded :=
  DecodedOf (lastByteOrder d) (curClsId d) (expectedTotal d) (expectedContent d) (savedKeyVals d) (defClkVal d) (dataStreamCls d) x (pktInfo d)
    (eventRecordCls d) (eventRecordClkVal d).
Definition with_pktInfo (x : PktInfo) (d : Decoded) : Decoded :=
  DecodedOf (lastByteOrder d) (curClsId d) (expectedTotal d) (expectedContent d) (savedKeyVals d) (defClkVal d) (dataStreamCls d) (dataStreamId d) x
    (eventRecordCls d) (eventRecordClkVal d).
Definition with_eventRecordCls (x : option EventRecordCls) (d : Decoded) : Decoded :=
  DecodedOf (lastByteOrder d) (curClsId d) (expectedTotal d) (expectedContent d) (savedKeyVals d) (defClkVal d) (dataStreamCls d) (dataStreamId d)
    (pktInfo d) x (eventRecordClkVal d).
Definition with_eventRecordClkVal (x : option Z) (d : Decoded) : Decoded :=
  DecodedOf (lastByteOrder d) (curClsId d) (expectedTotal d) (expectedContent d) (savedKeyVals d) (defClkVal d) (dataStreamCls d) (dataStreamId d)
    (pktInfo d) (eventRecordCls d) x.

(** Where the decoding is, and the values of the items to come.  The first frame of the stack
    is its top. *)
Record Control := ControlOf {
  mState : State;
  postSkipPaddingState : State;
  stack : list StackFrame;
  curScalarFc : option Fc;
  curScopeFc : option Fc;
  remainingLenToSkip : Z;
  varLenIntVal : Z;
  varLenIntLen : Z;
  utf8NullCpFinder : NullCpFinder;
  utf16NullCpFinder : NullCpFinder;
  utf32NullCpFinder : NullCpFinder;
  curEventRecordHeadOffset : Z;
  magicNumber : Z;
  defClkCycles : Z;
  metadataStreamUuid : list Z;
  curMetadataStreamUuid : list Z
}.
Definition with_mState (x : State) (c : Control) : Control :=
  ControlOf x (postSkipPaddingState c) (stack c) (curScalarFc c) (curScopeFc c) (remainingLenToSkip c) (varLenIntVal c) (varLenIntLen c)
    (utf8NullCpFinder c) (utf16NullCpFinder c) (utf32NullCpFinder c) (curEventRecordHeadOffset c) (magicNumber c) (defClkCycles c) (metadataStreamUuid
    c) (curMetadataStreamUuid c).
Definition with_postSkipPaddingState (x : State) (c : Control) : Control :=
  ControlOf (mState c) x (stack c) (curScalarFc c) (curScopeFc c) (remainingLenToSkip c) (varLenIntVal c) (varLenIntLen c) (utf8NullCpFinder c)
    (utf16NullCpFinder c) (utf32NullCpFinder c) (curEventRecordHeadOffset c) (magicNumber c) (defClkCycles c) (metadataStreamUuid c)
    (curMetadataStreamUuid c).
Definition with_stack (x : list StackFrame) (c : Control) : Control :=
  ControlOf (mState c) (postSkipPaddingState c) x (curScalarFc c) (curScopeFc c) (remainingLenToSkip c) (varLenIntVal c) (varLenIntLen c)
    (utf8NullCpFinder c) (utf16NullCpFinder c) (utf32NullCpFinder c) (curEventRecordHeadOffset c) (magicNumber c) (defClkCycles c) (metadataStreamUuid
    c) (curMetadataStreamUuid c).
Definition with_curScalarFc (x : option Fc) (c : Control) : Control :=
  ControlOf (mState c) (postSkipPaddingState c) (stack c) x (curScopeFc c) (remainingLenToSkip c) (varLenIntVal c) (varLenIntLen c) (utf8NullCpFinder
    c) (utf16NullCpFinder c) (utf32NullCpFinder c) (curEventRecordHeadOffset c) (magicNumber c) (defClkCycles c) (metadataStreamUuid c)
    (curMetadataStreamUuid c).
Definition with_curScopeFc (x : option Fc) (c : Control) : Control :=
  ControlOf (mState c) (postSkipPaddingState c) (stack c) (curScalarFc c) x (remainingLenToSkip c) (varLenIntVal c) (varLenIntLen c) (utf8NullCpFinder
    c) (utf16NullCpFinder c) (utf32NullCpFinder c) (curEventRecordHeadOffset c) (magicNumber c) (defClkCycles c) (metadataStreamUuid c)
    (curMetadataStreamUuid c).
Definition with_remainingLenToSkip (x : Z) (c : Control) : Control :=
  ControlOf (mState c) (postSkipPaddingState c) (stack c) (curScalarFc c) (curScopeFc c) x (varLenIntVal c) (varLenIntLen c) (utf8NullCpFinder c)
    (utf16NullCpFinder c) (utf32NullCpFinder c) (curEventRecordHeadOffset c) (magicNumber c) (defClkCycles c) (metadataStreamUuid c)
    (curMetadataStreamUuid c).
Definition with_varLenIntVal (x : Z) (c : Control) : Control :=
  ControlOf (mState c) (postSkipPaddingState c) (stack c) (curScalarFc c) (curScopeFc c) (remainingLenToSkip c) x (varLenIntLen c) (utf8NullCpFinder
    c) (utf16NullCpFinder c) (utf32NullCpFinder c) (curEventRecordHeadOffset c) (magicNumber c) (defClkCycles c) (metadataStreamUuid c)
    (curMetadataStreamUuid c).
Definition with_varLenIntLen (x : Z) (c : Control) : Control :=
  ControlOf (mState c) (postSkipPaddingState c) (stack c) (curScalarFc c) (curScopeFc c) (remainingLenToSkip c) (varLenIntVal c) x (utf8NullCpFinder
    c) (utf16NullCpFinder c) (utf32NullCpFinder c) (curEventRecordHeadOffset c) (magicNumber c) (defClkCycles c) (metadataStreamUuid c)
    (curMetadataStreamUuid c).
Definition with_utf8NullCpFinder (x : NullCpFinder) (c : Control) : Control :=
  ControlOf (mState c) (postSkipPaddingState c) (stack c) (curScalarFc c) (curScopeFc c) (remainingLenToSkip c) (varLenIntVal c) (varLenIntLen c) x
    (utf16NullCpFinder c) (utf32NullCpFinder c) (curEventRecordHeadOffset c) (magicNumber c) (defClkCycles c) (metadataStreamUuid c)
    (curMetadataStreamUuid c).
Definition with_utf16NullCpFinder (x : NullCpFinder) (c : Control) : Control :=
  ControlOf (mState c) (postSkipPaddingState c) (stack c) (curScalarFc c) (curScopeFc c) (remainingLenToSkip c) (varLenIntVal c) (varLenIntLen c)
    (utf8NullCpFinder c) x (utf32NullCpFinder c) (curEventRecordHeadOffset c) (magicNumber c) (defClkCycles c) (metadataStreamUuid c)
    (curMetadataStreamUuid c).
Definition with_utf32NullCpFinder (x : NullCpFinder) (c : Control) : Control :=
  ControlOf (mState c) (postSkipPaddingState c) (stack c) (curScalarFc c) (curScopeFc c) (remainingLenToSkip c) (varLenIntVal c) (varLenIntLen c)
    (utf8NullCpFinder c) (utf16NullCpFinder c) x (curEventRecordHeadOffset c) (magicNumber c) (defClkCycles c) (metadataStreamUuid c)
    (curMetadataStreamUuid c).
Definition with_curEventRecordHeadOffset (x : Z) (c : Control) : Control :=
  ControlOf (mState c) (postSkipPaddingState c) (stack c) (curScalarFc c) (curScopeFc c) (remainingLenToSkip c) (varLenIntVal c) (varLenIntLen c)
    (utf8NullCpFinder c) (utf16NullCpFinder c) (utf32NullCpFinder c) x (magicNumber c) (defClkCycles c) (metadataStreamUuid c) (curMetadataStreamUuid
    c).
Definition with_magicNumber (x : Z) (c : Control) : Control :=
  ControlOf (mState c) (postSkipPaddingState c) (stack c) (curScalarFc c) (curScopeFc c) (remainingLenToSkip c) (varLenIntVal c) (varLenIntLen c)
    (utf8NullCpFinder c) (utf16NullCpFinder c) (utf32NullCpFinder c) (curEventRecordHeadOffset c) x (defClkCycles c) (metadataStreamUuid c)
    (curMetadataStreamUuid c).
Definition with_defClkCycles (x : Z) (c : Control) : Control :=
  ControlOf (mState c) (postSkipPaddingState c) (stack c) (curScalarFc c) (curScopeFc c) (remainingLenToSkip c) (varLenIntVal c) (varLenIntLen c)
    (utf8NullCpFinder c) (utf16NullCpFinder c) (utf32NullCpFinder c) (curEventRecordHeadOffset c) (magicNumber c) x (metadataStreamUuid c)
    (curMetadataStreamUuid c).
Definition with_metadataStreamUuid (x : list Z) (c : Control) : Control :=
  ControlOf (mState c) (postSkipPaddingState c) (stack c) (curScalarFc c) (curScopeFc c) (remainingLenToSkip c) (varLenIntVal c) (varLenIntLen c)
    (utf8NullCpFinder c) (utf16NullCpFinder c) (utf32NullCpFinder c) (curEventRecordHeadOffset c) (magicNumber c) (defClkCycles c) x
    (curMetadataStreamUuid c).
Definition with_curMetadataStreamUuid (x : list Z) (c : Control) : Control :=
  ControlOf (mState c) (postSkipPaddingState c) (stack c) (curScalarFc c) (curScopeFc c) (remainingLenToSkip c) (varLenIntVal c) (varLenIntLen c)
    (utf8NullCpFinder c) (utf16NullCpFinder c) (utf32NullCpFinder c) (curEventRecordHeadOffset c) (magicNumber c) (defClkCycles c) (metadataStreamUuid
    c) x.

(** The data that is read: the medium, the current buffer, and the offsets of the buffer in
    the current packet, of the packet in the item sequence, and of the head in the packet. *)
Record Window (M : Type) := WindowOf {
  medium : M;
  mBuf : list Z;
  bufOffsetInCurPkt : Z;
  curPktOffsetInItemSeq : Z;
  headOffsetInCurPkt : Z
}.
Arguments WindowOf {M}. Arguments medium {M}. Arguments mBuf {M}. Arguments bufOffsetInCurPkt {M}.
Arguments curPktOffsetInItemSeq {M}. Arguments headOffsetInCurPkt {M}.

Record ItemSeqIter (M : Type) := ItemSeqIterOf {
  window : Window M;
  control : Control;
  decoded : Decoded;
  curItem : option Item;
  curItemOffsetInItemSeq : Z
}.
Arguments ItemSeqIterOf {M}. Arguments window {M}. Arguments control {M}. Arguments decoded {M}.
Arguments curItem {M}. Arguments curItemOffsetInItemSeq {M}.
