(* ===== verification/ItemSeq.v ===== *)
(** The CTF item sequence iterator: the handlers of its states
    ([src/src/plugins/ctf/common/src/item-seq/item-seq-iter.hpp] and [.cpp]).

    A method changes the iterator and returns, throws, or does what has no defined behaviour
    (reading out of a buffer, an unreachable case, a failed assertion of debug mode).  What
    it changed before it throws stays. *)

From S2P Require Import Prelude Bitfield CtfIr ItemBits ItemState Field.
From Stdlib Require Import SpecFloat.

(** * Methods *)

Inductive exn := Error | TryAgain.
Inductive outcome (A : Type) := Ret (x : A) | Throw (e : exn) | Undefined.
Arguments Ret {A}. Arguments Throw {A}. Arguments Undefined {A}.

(** What works on an object of the type [S]. *)
Definition stateful (S A : Type) : Type := S -> S * outcome A.
Definition ret {S A} (x : A) : stateful S A := fun it => (it, Ret x).
Definition throw {S A} (e : exn) : stateful S A := fun it => (it, Throw e).
Definition undefined {S A} : stateful S A := fun it => (it, Undefined).
Definition bind {S A B} (m : stateful S A) (k : A -> stateful S B) : stateful S B :=
  fun it => match m it with
            | (it, Ret x) => k x it
            | (it, Throw e) => (it, Throw e)
            | (it, Undefined) => (it, Undefined)
            end.
Definition gets {S A} (f : S -> A) : stateful S A := fun it => (it, Ret (f it)).
Definition of_option {S A} (o : option A) : stateful S A := match o with Some x => ret x | None => undefined end.
Definition assert_dbg {S} (debug b : bool) : stateful S unit := if debug && negb b then undefined else ret tt.
Declare Scope method_scope.
Delimit Scope method_scope with method.
Notation "'run' x <- e1 ; e2" := (bind e1 (fun x => e2)) (at level 10, x pattern, e1 at level 100, e2 at level 200, only parsing) : method_scope.
Notation "'act' e1 ; e2" := (bind e1 (fun _ => e2)) (at level 10, e1 at level 100, e2 at level 200, only parsing) : method_scope.
Open Scope method_scope.

Definition method (M A : Type) : Type := stateful (ItemSeqIter M) A.

Section iter.
Context {M : Type} `{Medium M} (debug : bool) (tc : TraceCls).
Abbreviation meth := (method M).

Definition modify_window (f : Window M -> Window M) : meth unit :=
  fun it => (ItemSeqIterOf (f (window it)) (control it) (decoded it) (curItem it) (curItemOffsetInItemSeq it), Ret tt).
Definition modify_control (f : Control -> Control) : meth unit :=
  fun it => (ItemSeqIterOf (window it) (f (control it)) (decoded it) (curItem it) (curItemOffsetInItemSeq it), Ret tt).
Definition modify_decoded (f : Decoded -> Decoded) : meth unit :=
  fun it => (ItemSeqIterOf (window it) (control it) (f (decoded it)) (curItem it) (curItemOffsetInItemSeq it), Ret tt).
Definition set_head (x : Z) : meth unit :=
  modify_window (fun w => WindowOf (medium w) (mBuf w) (bufOffsetInCurPkt w) (curPktOffsetInItemSeq w) x).

(** The arithmetic of [DataLen], in 64 bits. *)
Definition dl_add (a b : Z) : meth Z := act assert_dbg debug (a + b <? 2 ^ 64); ret (wrapu 64 (a + b)).
Definition dl_sub (a b : Z) : meth Z := act assert_dbg debug (b <=? a); ret (wrapu 64 (a - b)).
Definition dl_bytes (bytes : Z) : meth Z := act assert_dbg debug ((bytes =? 0) || (bytes <? (2 ^ 64 - 1) / 8)); ret (wrapu 64 (bytes * 8)).

(** * Offsets, data and stack *)

Definition remainingPktContentLen : meth Z :=
  run content <- gets (fun it => expectedContent (decoded it)); run head <- gets (fun it => headOffsetInCurPkt (window it)); dl_sub content head.
Definition headOffsetInItemSeq : meth Z :=
  run pkt <- gets (fun it => curPktOffsetInItemSeq (window it)); run head <- gets (fun it => headOffsetInCurPkt (window it)); dl_add pkt head.
Definition remainingBufLen : meth Z :=
  run w <- gets window; run e <- dl_add (bufOffsetInCurPkt w) (8 * Z.of_nat (length (mBuf w))); dl_sub e (headOffsetInCurPkt w).
Definition bufAtHead : meth (list Z) :=
  run w <- gets window; run o <- dl_sub (headOffsetInCurPkt w) (bufOffsetInCurPkt w); ret (drop (Z.to_nat (o / 8)) (mBuf w)).

Definition set_state (s : State) : meth unit := modify_control (with_mState s).
Definition get_state : meth State := gets (fun it => mState (control it)).
Definition stackPush (f : StackFrame) : meth unit := modify_control (fun c => with_stack (f :: stack c) c).
Definition stackPop : meth unit := modify_control (fun c => with_stack (tail (stack c)) c).
Definition stackTop : meth StackFrame := run c <- gets control; of_option (head (stack c)).
Definition set_stackTop (f : StackFrame) : meth unit := modify_control (fun c => with_stack (f :: tail (stack c)) c).
Definition stackTopFc : meth Fc := run top <- stackTop; of_option (frameFc top).
Definition set_topLen (len : Z) : meth unit := run top <- stackTop; set_stackTop (with_frameLen len top).
Definition restoreState : meth unit := run top <- stackTop; set_state (restoringState top).

Definition saveKeyVal (indexes : list nat) (val : Z) : meth unit :=
  run d <- gets decoded;
  if forallb (fun i => bool_decide (i < length (savedKeyVals d))%nat) indexes
  then modify_decoded (fun d => with_savedKeyVals (fold_left (fun l i => <[i := wrapu 64 val]> l) indexes (savedKeyVals d)) d)
  else undefined.
Definition savedKeyVal (index : option nat) : meth Z :=
  run d <- gets decoded; of_option (do i <- index; savedKeyVals d !! i).

Definition updateForUser (item : Item) : meth unit :=
  run o <- headOffsetInItemSeq; fun it => (ItemSeqIterOf (window it) (control it) (decoded it) (Some item) o, Ret tt).
Definition updateForUserAt (item : Item) (o : Z) : meth unit :=
  fun it => (ItemSeqIterOf (window it) (control it) (decoded it) (Some item) o, Ret tt).

(** [_newBuf]: whether the medium has the data. *)
Definition medium_request (offset minSize : Z) : meth buf_result :=
  fun it => let w := window it in let (m, r) := medium_buf (medium w) offset minSize in
    (ItemSeqIterOf (WindowOf m (mBuf w) (bufOffsetInCurPkt w) (curPktOffsetInItemSeq w) (headOffsetInCurPkt w)) (control it) (decoded it)
       (curItem it) (curItemOffsetInItemSeq it), Ret r).
Definition set_buf (b : list Z) (offsetInCurPkt : Z) : meth unit :=
  modify_window (fun w => WindowOf (medium w) b offsetInCurPkt (curPktOffsetInItemSeq w) (headOffsetInCurPkt w)).
Definition newBuf (offsetInItemSeq minSize : Z) : meth bool :=
  act assert_dbg debug (minSize <=? 72);
  run r <- medium_request offsetInItemSeq minSize;
  match r with
  | NoData => ret false
  | MediumTryAgain => throw TryAgain
  | MediumError => throw Error
  | Bytes b =>
    run pkt <- gets (fun it => curPktOffsetInItemSeq (window it)); run o <- dl_sub offsetInItemSeq pkt; act set_buf b o; ret true
  end.

Definition tryHaveData (len : Z) : meth bool :=
  act assert_dbg debug (len <=? 64);
  run l <- remainingBufLen;
  if len <=? l then ret true
  else
    run w <- gets window;
    run reqOffset <- dl_bytes (wrapu 64 (curPktOffsetInItemSeq w / 8 + headOffsetInCurPkt w / 8));
    run reqSize <- dl_bytes ((len + 7 + headOffsetInCurPkt w mod 8) / 8);
    newBuf reqOffset reqSize.
Definition requireData (len : Z) : meth unit := run b <- tryHaveData len; if b : bool then ret tt else throw Error.
Definition requireContentData (len : Z) : meth unit :=
  run l <- remainingPktContentLen; if l <? len then throw Error else requireData len.

Definition consumeAvailData (len : Z) : meth unit :=
  run l <- remainingBufLen; act assert_dbg debug (len <=? l);
  run head <- gets (fun it => headOffsetInCurPkt (window it)); run head <- dl_add head len; set_head head.

(** One iteration reaches at least the end of a byte: [fuel] is more than the bytes to skip. *)
Fixpoint skipPadding_loop (fuel : nat) (isContentData : bool) : meth unit :=
  match fuel with
  | O => undefined
  | S fuel =>
    run c <- gets control;
    if remainingLenToSkip c =? 0 then set_state (postSkipPaddingState c)
    else
      act (if isContentData then requireContentData 1 else requireData 1);
      run l <- remainingBufLen;
      let lenToSkip := Z.min (remainingLenToSkip c) l in
      run r <- dl_sub (remainingLenToSkip c) lenToSkip;
      act modify_control (with_remainingLenToSkip r);
      act consumeAvailData lenToSkip;
      skipPadding_loop fuel isContentData
  end.
Definition skipPadding (isContentData : bool) : meth unit :=
  run c <- gets control; skipPadding_loop (Z.to_nat (remainingLenToSkip c / 8) + 3) isContentData.
Definition begin_skip (lenToSkip : Z) (next skip : State) (isContentData : bool) : meth unit :=
  act modify_control (with_remainingLenToSkip lenToSkip);
  act modify_control (with_postSkipPaddingState next);
  act set_state skip;
  skipPadding isContentData.

(** [BT_ALIGN] on 64 bits. *)
Definition bt_align (val align : Z) : Z := Z.land (wrapu 64 (val + wrapu 64 (align - 1))) (wrapu 64 (Z.lnot (align - 1))).
Definition alignHead (align : Z) : meth unit :=
  run head <- gets (fun it => headOffsetInCurPkt (window it));
  run lenToSkip <- dl_sub (bt_align head align) head;
  if lenToSkip =? 0 then ret tt
  else
    run l <- remainingPktContentLen;
    if l <? lenToSkip then throw Error
    else run s <- get_state; begin_skip lenToSkip s SkipContentPadding true.

(** * Preparing to read *)

Definition prepareToTryReadScope (scope : Scope) (fc : option Fc) : meth unit :=
  act set_state (TryBeginReadScope scope);
  act modify_control (with_curScopeFc fc);
  match fc with
  | None => ret tt
  | Some _ => stackPush (StackFrameOf (EndReadScope scope) None 0 1)
  end.
Definition prepareToReadContainerField (state restoringState : State) (fc : Fc) : meth unit :=
  act stackPush (StackFrameOf restoringState (Some fc) 0 0); set_state state.
Definition prepareToReadScalarField (state : State) (fc : Fc) : meth unit :=
  act modify_control (with_curScalarFc (Some fc)); set_state state.

Definition prepareToReadField (fc : Fc) : meth unit :=
  run t <- of_option (deepType fc);
  match t with
  | FixedLenBitArrayT r => prepareToReadScalarField (ReadFixedLenBitArrayField r) fc
  | FixedLenBitMapT r => prepareToReadScalarField (ReadFixedLenBitMapField r) fc
  | FixedLenBoolT r save => prepareToReadScalarField (ReadFixedLenBoolField r save) fc
  | FixedLenFloatT r isDouble => prepareToReadScalarField (ReadFixedLenFloatField r isDouble) fc
  | FixedLenUIntT r role save => prepareToReadScalarField (ReadFixedLenUIntField r role save) fc
  | FixedLenSIntT r save => prepareToReadScalarField (ReadFixedLenSIntField r save) fc
  | VarLenUIntT role save => prepareToReadScalarField (ReadVarLenUIntField role save) fc
  | VarLenSIntT save => prepareToReadScalarField (ReadVarLenSIntField save) fc
  | NullTerminatedStrUtf8T => prepareToReadContainerField BeginReadNullTerminatedStrFieldUtf8 EndReadNullTerminatedStrField fc
  | NullTerminatedStrUtf16T => prepareToReadContainerField BeginReadNullTerminatedStrFieldUtf16 EndReadNullTerminatedStrField fc
  | NullTerminatedStrUtf32T => prepareToReadContainerField BeginReadNullTerminatedStrFieldUtf32 EndReadNullTerminatedStrField fc
  | StaticLenStrT => prepareToReadContainerField BeginReadStaticLenStrField EndReadStaticLenStrField fc
  | DynLenStrT => prepareToReadContainerField BeginReadDynLenStrField EndReadDynLenStrField fc
  | StaticLenBlobT => prepareToReadContainerField BeginReadStaticLenBlobField EndReadStaticLenBlobField fc
  | StaticLenBlobWithMetadataStreamUuidRoleT =>
    prepareToReadContainerField BeginReadStaticLenBlobFieldMetadataStreamUuid EndReadStaticLenBlobField fc
  | DynLenBlobT => prepareToReadContainerField BeginReadDynLenBlobField EndReadDynLenBlobField fc
  | StructT => prepareToReadContainerField BeginReadStructField EndReadStructField fc
  | StaticLenArrayT => prepareToReadContainerField BeginReadStaticLenArrayField EndReadStaticLenArrayField fc
  | StaticLenArrayWithMetadataStreamUuidRoleT =>
    prepareToReadContainerField BeginReadStaticLenArrayFieldMetadataStreamUuid EndReadStaticLenArrayField fc
  | DynLenArrayT => prepareToReadContainerField BeginReadDynLenArrayField EndReadDynLenArrayField fc
  | OptionalT sel => prepareToReadContainerField (BeginReadOptionalField sel) (EndReadOptionalField sel) fc
  | VariantT sel => prepareToReadContainerField (BeginReadVariantField sel) (EndReadVariantField sel) fc
  end.

Definition prepareToReadNextField : meth unit :=
  run top <- stackTop;
  let top := with_elemIndex (elemIndex top + 1) top in
  act set_stackTop top;
  if elemIndex top =? frameLen top then set_state (restoringState top)
  else
    run fc <- of_option (frameFc top);
    match fc with
    | StructFc memberClasses _ => run fc <- of_option (memberClasses !! Z.to_nat (elemIndex top)); prepareToReadField fc
    | StaticLenArrayFc elemFc _ _ _ | DynLenArrayFc elemFc _ _ => prepareToReadField elemFc
    | _ => undefined
    end.

(** * Integers *)

(** [_updateDefClkVal], on the current value. *)
Definition updateDefClkVal (cur val len : Z) : Z :=
  if len =? 64 then val
  else
    let newValMask := wrapu 64 (wrapu 64 (Z.shiftl 1 len) - 1) in
    let cur := if val <? Z.land cur newValMask then wrapu 64 (cur + newValMask + 1) else cur in
    Z.lor (Z.land cur (wrapu 64 (Z.lnot newValMask))) val.

Definition handleUIntFieldRole (role : UIntFieldRole) (len val : Z) : meth unit :=
  match role with
  | PktMagicNumber => act modify_control (with_magicNumber val); set_state SetPktMagicNumberItem
  | DataStreamClsId | EventRecordClsId => modify_decoded (with_curClsId (Some val))
  | DataStreamId => modify_decoded (with_dataStreamId (Some val))
  | PktTotalLen => modify_decoded (fun d => with_pktInfo (with_expectedTotalLen (Some val) (pktInfo d)) (with_expectedTotal val d))
  | PktContentLen => modify_decoded (fun d => with_pktInfo (with_expectedContentLen (Some val) (pktInfo d)) (with_expectedContent val d))
  | DefClkTs =>
    run d <- gets decoded;
    let clk := updateDefClkVal (defClkVal d) val len in
    act modify_decoded (with_defClkVal clk);
    act modify_control (with_defClkCycles clk);
    set_state SetDefClkValItem
  | PktEndDefClkTs => modify_decoded (fun d => with_pktInfo (with_endDefClkVal (Some val) (pktInfo d)) d)
  | DiscEventRecordCounterSnap => modify_decoded (fun d => with_pktInfo (with_discErCounterSnap (Some val) (pktInfo d)) d)
  | PktSeqNum => modify_decoded (fun d => with_pktInfo (with_seqNum (Some val) (pktInfo d)) d)
  end.
Fixpoint handle_roles (roles : list UIntFieldRole) (len val : Z) : meth unit :=
  match roles with [] => ret tt | role :: roles => act handleUIntFieldRole role len val; handle_roles roles len val end.

(** A state handler returns whether the state machine continues. *)
Definition Stop : meth bool := ret false.
Definition Continue : meth bool := ret true.

Definition curScalarFc_get : meth Fc := run c <- gets control; of_option (curScalarFc c).

(** The end of [_handleCommonUIntFieldState], on the roles, the saving indexes and the length
    of the class that its template parameter names. *)
Definition handleCommonUIntFieldState (roles : list UIntFieldRole) (keys : list nat) (len : Z) (withRole saveVal : bool) (val : Z) : meth bool :=
  act (if saveVal then saveKeyVal keys val else ret tt);
  act (if withRole then
         run prevState <- get_state;
         act handle_roles roles len val;
         run s <- get_state;
         if bool_decide (s = prevState) then prepareToReadNextField else ret tt
       else prepareToReadNextField);
  Stop.

(** [_checkLastFixedLenBitArrayFieldByteOrder]. *)
Definition checkLastFixedLenBitArrayFieldByteOrder (f : FixedLenBitArrayFc) : meth unit :=
  run head <- gets (fun it => headOffsetInCurPkt (window it));
  run d <- gets decoded;
  match lastByteOrder d with
  | Some o => if negb (head mod 8 =? 0) && negb (bool_decide (byteOrder f = o)) then throw Error else ret tt
  | None => ret tt
  end.

Definition readFixedLenIntField (signed : bool) (r : Reading) (f : FixedLenBitArrayFc) : meth Z :=
  act assert_dbg debug ((lenBits r =? 0) || (len f =? lenBits r));
  act assert_dbg debug ((lenBits r =? 0) || (8 <=? fl_align f));
  act assert_dbg debug (((len f =? 8) && (8 <=? fl_align f)) || bool_decide (byteOrder f = readByteOrder r));
  act alignHead (fl_align f);
  act requireContentData (len f);
  act (if lenBits r =? 0 then checkLastFixedLenBitArrayFieldByteOrder f else ret tt);
  run buf <- bufAtHead;
  run head <- gets (fun it => headOffsetInCurPkt (window it));
  run val <- of_option (ReadFixedLenIntFunc signed r buf (head mod 8) (len f));
  act modify_decoded (with_lastByteOrder (Some (byteOrder f)));
  act consumeAvailData (len f);
  ret val.

(** [_handleCommonReadFixedLenIntFieldState]: [item] gives the item from its class and value. *)
Definition handleCommonReadFixedLenIntFieldState (signed : bool) (r : Reading) (item : Fc -> Z -> Item) : meth (FixedLenBitArrayFc * Z) :=
  run fc <- curScalarFc_get;
  match fc with
  | FixedLenFc f => run val <- readFixedLenIntField signed r f; act updateForUser (item fc val); ret (f, val)
  | _ => undefined
  end.
Definition handleCommonReadFixedLenIntFieldStateAndPrepareToReadNextField (signed : bool) (r : Reading) (item : Fc -> Z -> Item) : meth Z :=
  run x <- handleCommonReadFixedLenIntFieldState signed r item; act prepareToReadNextField; ret (snd x).

(** The saving indexes of the current scalar class, which the code takes for one of the type. *)
Definition keys_of_current (t : FixedLenType) : meth (list nat) :=
  run fc <- curScalarFc_get;
  match fc, t with
  | FixedLenFc f, _ =>
    match fl_type f, t with
    | Bool, Bool | SInt, SInt => ret (fl_keyValSavingIndexes f)
    | _, _ => undefined
    end
  | _, _ => undefined
  end.

Definition handleCommonReadFixedLenUIntFieldState (r : Reading) (withRole saveVal : bool) : meth bool :=
  run x <- handleCommonReadFixedLenIntFieldState false r FixedLenUIntFieldItem;
  let (f, val) := x in
  handleCommonUIntFieldState (fl_roles f) (fl_keyValSavingIndexes f) (len f) withRole saveVal val.
Definition handleCommonReadFixedLenSIntFieldState (r : Reading) (saveVal : bool) : meth bool :=
  run val <- handleCommonReadFixedLenIntFieldStateAndPrepareToReadNextField true r FixedLenSIntFieldItem;
  act (if saveVal then run keys <- keys_of_current SInt; saveKeyVal keys val else ret tt);
  Stop.
Definition handleCommonReadFixedLenBoolFieldState (r : Reading) (saveVal : bool) : meth bool :=
  run val <- handleCommonReadFixedLenIntFieldStateAndPrepareToReadNextField false r FixedLenBoolFieldItem;
  act (if saveVal then run keys <- keys_of_current Bool; saveKeyVal keys val else ret tt);
  Stop.

(** The value of an IEEE 754 number from its bits, as a [double]. *)
Definition float_of_bits (prec emax bits : Z) : spec_float :=
  let mw := prec - 1 in
  let m := bits mod 2 ^ mw in
  let e := bits / 2 ^ mw mod (2 * emax) in
  let s := negb (bits / (2 ^ mw * (2 * emax)) =? 0) in
  if e =? 0 then match m with Zpos p => S754_finite s p (3 - emax - prec) | _ => S754_zero s end
  else if e =? 2 * emax - 1 then (if m =? 0 then S754_infinity s else S754_nan)
  else match m + 2 ^ mw with Zpos p => S754_finite s p (e - 1 + (3 - emax - prec)) | _ => S754_nan end.
Definition float_val (isDouble : bool) (val : Z) : spec_float :=
  if isDouble then float_of_bits 53 1024 val else double_of_float (float_of_bits 24 128 (wrapu 32 val)).

Definition handleCommonReadFixedLenFloatFieldState (r : Reading) (isDouble : bool) : meth bool :=
  run val <- handleCommonReadFixedLenIntFieldStateAndPrepareToReadNextField false r
               (fun fc val => FixedLenFloatFieldItem fc (float_val isDouble val));
  Stop.
Definition handleCommonReadFixedLenBitArrayFieldState (r : Reading) (item : Fc -> Z -> Item) : meth bool :=
  run val <- handleCommonReadFixedLenIntFieldStateAndPrepareToReadNextField false r item; Stop.

(** The integer has at most ten bytes. *)
Fixpoint varLenInt_loop (fuel : nat) (signed : bool) (fc : Fc) : meth Z :=
  match fuel with
  | O => undefined
  | S fuel =>
    run head <- gets (fun it => headOffsetInCurPkt (window it));
    act assert_dbg debug (head mod 8 =? 0);
    act requireContentData 8;
    run buf <- bufAtHead;
    run byte <- of_option (buf !! 0%nat);
    run c <- gets control;
    match appendVarLenIntByte signed (varLenIntVal c) (varLenIntLen c) byte with
    | None => throw Error
    | Some (val, len) =>
      act consumeAvailData 8;
      act modify_control (fun c => with_varLenIntLen len (with_varLenIntVal val c));
      if Z.land byte 128 =? 0 then
        let val := VarLenIntFieldVal signed len val in
        let item := if signed then VarLenSIntFieldItem fc (wraps 64 val) len else VarLenUIntFieldItem fc val len in
        run o <- headOffsetInItemSeq;
        run fieldLen <- dl_bytes ((len + 6) / 7);
        run o <- dl_sub o fieldLen;
        act updateForUserAt item o;
        act modify_control (fun c => with_varLenIntLen 0 (with_varLenIntVal 0 c));
        ret val
      else varLenInt_loop fuel signed fc
    end
  end.
Definition handleCommonVarLenIntFieldState (signed : bool) : meth (Fc * Z) :=
  run fc <- curScalarFc_get; act alignHead (align fc); run val <- varLenInt_loop 11 signed fc; ret (fc, val).

Definition handleCommonReadVarLenUIntFieldState (withRole saveVal : bool) : meth bool :=
  run x <- handleCommonVarLenIntFieldState false;
  match fst x with
  | VarLenUIntFc roles keys => run c <- gets control; handleCommonUIntFieldState roles keys (varLenIntLen c) withRole saveVal (snd x)
  | _ => undefined
  end.
Definition handleCommonReadVarLenSIntFieldState (saveVal : bool) : meth bool :=
  run x <- handleCommonVarLenIntFieldState true;
  match fst x with
  | VarLenSIntFc keys =>
    act (if saveVal then saveKeyVal keys (wraps 64 (snd x)) else ret tt);
    act prepareToReadNextField;
    Stop
  | _ => undefined
  end.

(** * Packets *)

(** [_infDataLen]. *)
Definition infDataLen : Z := 2 ^ 64 - 8.
Definition no_pktInfo : PktInfo := PktInfoOf None None None None None None.

Definition resetForNewPkt : meth unit :=
  act modify_decoded (fun d => DecodedOf None None infDataLen infDataLen (savedKeyVals d) 0 None None no_pktInfo None None);
  act modify_control (fun c => with_varLenIntLen 0 (with_varLenIntVal 0 (with_stack [] c)));
  set_head 0.

Definition set_curItem (i : option Item) : meth unit :=
  fun it => (ItemSeqIterOf (window it) (control it) (decoded it) i (curItemOffsetInItemSeq it), Ret tt).

Definition handleTryBeginReadPktState : meth bool :=
  act resetForNewPkt;
  run more <- (run l <- remainingBufLen; if l =? 0 then tryHaveData 1 else ret true);
  if negb more then act set_curItem None; act set_state Done; Stop
  else act updateForUser PktBeginItem; act set_state BeginReadPktContent; Stop.

Definition handleEndReadPktState : meth bool :=
  act updateForUser PktEndItem;
  run o <- headOffsetInItemSeq;
  act assert_dbg debug (o mod 8 =? 0);
  act modify_window (fun w => WindowOf (medium w) (mBuf w) (bufOffsetInCurPkt w) o 0);
  run total <- gets (fun it => expectedTotal (decoded it));
  run w <- gets window;
  act (if total =? infDataLen then set_buf [] 0
       else
         run offset <- dl_sub total (bufOffsetInCurPkt w);
         act assert_dbg debug (offset <=? 8 * Z.of_nat (length (mBuf w)));
         act assert_dbg debug (offset mod 8 =? 0);
         if offset <=? 8 * Z.of_nat (length (mBuf w)) then set_buf (drop (Z.to_nat (offset / 8)) (mBuf w)) 0 else undefined);
  act set_state TryBeginReadPkt;
  Stop.

Definition handleBeginReadPktContentState : meth bool :=
  act updateForUser PktContentBeginItem; act prepareToTryReadScope PktHeader (pktHeaderFc tc); Stop.

Definition handleEndReadPktContentState : meth bool :=
  act updateForUser PktContentEndItem;
  run d <- gets decoded;
  if expectedTotal d =? infDataLen then act set_state EndReadPkt; Stop
  else
    act assert_dbg debug (negb (expectedContent d =? infDataLen));
    run head <- gets (fun it => headOffsetInCurPkt (window it));
    run lenToSkip <- dl_sub (expectedTotal d) head;
    act (if 0 <? lenToSkip then begin_skip lenToSkip EndReadPkt SkipPadding false else set_state EndReadPkt);
    Stop.

(** * Items of information *)

Definition handleSetPktMagicNumberItem : meth bool :=
  run c <- gets control; act updateForUser (PktMagicNumberItem (magicNumber c)); act prepareToReadNextField; Stop.
Definition handleSetDefClkValItem : meth bool :=
  run c <- gets control; act updateForUser (DefClkValItem (defClkCycles c)); act prepareToReadNextField; Stop.
Definition handleSetMetadataStreamUuidItemState : meth bool :=
  run c <- gets control; act updateForUser (MetadataStreamUuidItem (metadataStreamUuid c)); act restoreState; Stop.

Definition handleSetDataStreamInfoItemState : meth bool :=
  run d <- gets decoded;
  act match curClsId d with
      | Some id =>
        let cls := data_stream_cls_by_id tc id in
        act modify_decoded (with_dataStreamCls cls);
        match cls with None => throw Error | Some _ => modify_decoded (with_curClsId None) end
      | None =>
        act assert_dbg debug (bool_decide (length (dataStreamClasses tc) <= 1)%nat);
        match dataStreamClasses tc with [cls] => modify_decoded (with_dataStreamCls (Some cls)) | _ => ret tt end
      end;
  run d <- gets decoded;
  act updateForUser (DataStreamInfoItem (dataStreamCls d) (dataStreamId d));
  act match dataStreamCls d with
      | Some cls => prepareToTryReadScope PktCtx (pktCtxFc cls)
      | None => set_state SetPktInfoItem
      end;
  Stop.

Definition handleSetPktInfoItemState : meth bool :=
  act modify_decoded (fun d => if expectedTotal d =? infDataLen then with_expectedTotal (expectedContent d) d else d);
  act modify_decoded (fun d => if expectedContent d =? infDataLen then with_expectedContent (expectedTotal d) d else d);
  run d <- gets decoded;
  if negb (expectedTotal d mod 8 =? 0) then throw Error
  else if expectedTotal d <? expectedContent d then throw Error
  else
    act modify_decoded (fun d =>
          match dataStreamCls d with
          | Some cls => if has_defClkCls cls then with_pktInfo (with_beginDefClkVal (Some (defClkVal d)) (pktInfo d)) d else d
          | None => d
          end);
    run d <- gets decoded;
    act updateForUser (PktInfoItem (pktInfo d));
    act set_state TryBeginReadEventRecord;
    Stop.

Definition handleSetEventRecordInfoItemState : meth bool :=
  run d <- gets decoded;
  run dsCls <- of_option (dataStreamCls d);
  act match curClsId d with
      | Some id =>
        let cls := event_record_cls_by_id dsCls id in
        act modify_decoded (with_eventRecordCls cls);
        match cls with None => throw Error | Some _ => ret tt end
      | None =>
        act assert_dbg debug (bool_decide (length (eventRecordClasses dsCls) <= 1)%nat);
        match eventRecordClasses dsCls with [cls] => modify_decoded (with_eventRecordCls (Some cls)) | _ => ret tt end
      end;
  act (if has_defClkCls dsCls then modify_decoded (fun d => with_eventRecordClkVal (Some (defClkVal d)) d) else ret tt);
  run d <- gets decoded;
  act updateForUser (EventRecordInfoItem (eventRecordCls d) (eventRecordClkVal d));
  act prepareToTryReadScope CommonEventRecordCtx (commonEventRecordCtxFc dsCls);
  Stop.

(** * Scopes *)

Definition handleCommonBeginReadScopeState (scope : Scope) (fc : Fc) : meth bool :=
  act updateForUser (ScopeBeginItem scope); act prepareToReadContainerField BeginReadStructField EndReadStructField fc; Stop.
Definition handleCommonEndReadScopeState (scope : Scope) : meth bool := act updateForUser (ScopeEndItem scope); Stop.

Definition handleCommonAfterCommonEventRecordCtxScopeState : meth unit :=
  run d <- gets decoded;
  match eventRecordCls d with
  | Some cls => prepareToTryReadScope SpecEventRecordCtx (specCtxFc cls)
  | None => set_state EndReadEventRecord
  end.
Definition handleCommonAfterSpecEventRecordCtxScopeState : meth unit :=
  run d <- gets decoded; run cls <- of_option (eventRecordCls d); prepareToTryReadScope EventRecordPayload (payloadFc cls).

(** What follows a scope. *)
Definition after_scope (scope : Scope) : meth unit :=
  match scope with
  | PktHeader => set_state SetDataStreamInfoItem
  | PktCtx => set_state SetPktInfoItem
  | EventRecordHeader => set_state SetEventRecordInfoItem
  | CommonEventRecordCtx => handleCommonAfterCommonEventRecordCtxScopeState
  | SpecEventRecordCtx => handleCommonAfterSpecEventRecordCtxScopeState
  | EventRecordPayload => set_state EndReadEventRecord
  end.
Definition handleTryBeginReadScopeState (scope : Scope) : meth bool :=
  run c <- gets control;
  match curScopeFc c with
  | None => act after_scope scope; Continue
  | Some fc => handleCommonBeginReadScopeState scope fc
  end.
Definition handleEndReadScopeState (scope : Scope) : meth bool := act after_scope scope; handleCommonEndReadScopeState scope.

(** * Event records *)

Definition handleTryBeginReadEventRecordState : meth bool :=
  run d <- gets decoded;
  act assert_dbg debug (bool_decide (dataStreamCls d <> None));
  run more <- (if expectedContent d =? infDataLen then
                 run l <- remainingBufLen; if l =? 0 then tryHaveData 1 else ret true
               else run l <- remainingPktContentLen; ret (negb (l =? 0)));
  if negb more then act set_state EndReadPktContent; Continue
  else
    act updateForUser EventRecordBeginItem;
    run l <- remainingPktContentLen; act assert_dbg debug (0 <? l);
    run head <- gets (fun it => headOffsetInCurPkt (window it));
    act modify_control (with_curEventRecordHeadOffset head);
    run cls <- of_option (dataStreamCls d);
    act prepareToTryReadScope EventRecordHeader (eventRecordHeaderFc cls);
    Stop.

Definition handleEndReadEventRecordState : meth bool :=
  run c <- gets control;
  run head <- gets (fun it => headOffsetInCurPkt (window it));
  act assert_dbg debug (curEventRecordHeadOffset c <=? head);
  if head =? curEventRecordHeadOffset c then throw Error
  else act updateForUser EventRecordEndItem; act set_state TryBeginReadEventRecord; Stop.

(** * Structure and array fields *)

Definition handleCommonEndReadCompoundFieldState (item : Fc -> Item) : meth bool :=
  run fc <- stackTopFc; act updateForUser (item fc); act stackPop; act prepareToReadNextField; Stop.

Definition handleBeginReadStructFieldState : meth bool :=
  run fc <- stackTopFc;
  match fc with
  | StructFc memberClasses _ =>
    act updateForUser (StructFieldBeginItem fc);
    act alignHead (align fc);
    act match memberClasses with
        | [] => restoreState
        | m :: _ => act set_topLen (Z.of_nat (length memberClasses)); prepareToReadField m
        end;
    Stop
  | _ => undefined
  end.

Definition handleCommonBeginReadArrayFieldState (len : Z) (arrayFc elemFc : Fc) : meth bool :=
  act alignHead (align arrayFc);
  act (if len =? 0 then restoreState else act set_topLen len; prepareToReadField elemFc);
  Stop.
Definition handleBeginReadStaticLenArrayFieldState : meth bool :=
  run fc <- stackTopFc;
  match fc with
  | StaticLenArrayFc elemFc len _ _ =>
    act updateForUser (StaticLenArrayFieldBeginItem fc); handleCommonBeginReadArrayFieldState len fc elemFc
  | _ => undefined
  end.
Definition handleBeginReadStaticLenArrayFieldMetadataStreamUuidState : meth bool :=
  run fc <- stackTopFc;
  match fc with
  | StaticLenArrayFc elemFc len _ _ =>
    act updateForUser (StaticLenArrayFieldBeginItem fc);
    act assert_dbg debug (len =? 16);
    act alignHead (align fc);
    act modify_control (with_curScalarFc (Some elemFc));
    act set_state ReadFixedLenMetadataStreamUuidByteUIntFieldBa8;
    Stop
  | _ => undefined
  end.
Definition handleBeginReadDynLenArrayFieldState : meth bool :=
  run fc <- stackTopFc;
  match fc with
  | DynLenArrayFc elemFc _ savedKeyValIndex =>
    run len <- savedKeyVal savedKeyValIndex;
    act updateForUser (DynLenArrayFieldBeginItem fc len);
    handleCommonBeginReadArrayFieldState len fc elemFc
  | _ => undefined
  end.

(** [std::copy] of bytes to [_mCurMetadataStreamUuid], of 16 bytes. *)
Definition copy_to_uuid (bytes : list Z) (index : Z) : meth unit :=
  run c <- gets control;
  let i := Z.to_nat index in
  if bool_decide (i + length bytes <= length (curMetadataStreamUuid c))%nat
  then modify_control (fun c => with_curMetadataStreamUuid
         (take i (curMetadataStreamUuid c) ++ bytes ++ drop (i + length bytes) (curMetadataStreamUuid c)) c)
  else undefined.
(** What both handlers of bytes of UUIDs end with. *)
Definition end_uuid_bytes : meth unit :=
  run top <- stackTop;
  if elemIndex top =? 16 then
    act modify_control (fun c => with_metadataStreamUuid (curMetadataStreamUuid c) c); set_state SetMetadataStreamUuidItem
  else ret tt.
Definition handleReadFixedLenMetadataStreamUuidByteUIntFieldBa8State : meth bool :=
  run x <- handleCommonReadFixedLenIntFieldState false (ReadingOf 8 Big Natural) FixedLenUIntFieldItem;
  run top <- stackTop;
  act copy_to_uuid [wrapu 8 (snd x)] (elemIndex top);
  act set_stackTop (with_elemIndex (elemIndex top + 1) top);
  act end_uuid_bytes;
  Stop.

(** * String and BLOB fields *)

Definition handleCommonBeginReadStrBlobFieldState (len : Z) (contentState : State) (fc : Fc) : meth bool :=
  act alignHead (align fc);
  act (if len =? 0 then restoreState else act set_topLen len; set_state contentState);
  Stop.
Definition handleBeginReadStaticLenStrFieldState : meth bool :=
  run fc <- stackTopFc;
  match fc with
  | StaticLenStrFc _ len => act updateForUser (StaticLenStrFieldBeginItem fc); handleCommonBeginReadStrBlobFieldState len ReadRawData fc
  | _ => undefined
  end.
Definition handleBeginReadDynLenStrFieldState : meth bool :=
  run fc <- stackTopFc;
  match fc with
  | DynLenStrFc _ savedKeyValIndex =>
    run len <- savedKeyVal savedKeyValIndex;
    run lenBits <- dl_bytes len;
    act updateForUser (DynLenStrFieldBeginItem fc lenBits);
    handleCommonBeginReadStrBlobFieldState len ReadRawData fc
  | _ => undefined
  end.
Definition handleCommonBeginReadStaticLenBlobFieldState (contentState : State) : meth bool :=
  run fc <- stackTopFc;
  match fc with
  | StaticLenBlobFc len _ => act updateForUser (StaticLenBlobFieldBeginItem fc); handleCommonBeginReadStrBlobFieldState len contentState fc
  | _ => undefined
  end.
Definition handleBeginReadDynLenBlobFieldState : meth bool :=
  run fc <- stackTopFc;
  match fc with
  | DynLenBlobFc savedKeyValIndex =>
    run len <- savedKeyVal savedKeyValIndex;
    run lenBits <- dl_bytes len;
    act updateForUser (DynLenBlobFieldBeginItem fc lenBits);
    handleCommonBeginReadStrBlobFieldState len ReadRawData fc
  | _ => undefined
  end.

Definition checkContentLen (len : Z) : meth unit := run l <- remainingPktContentLen; if l <? len then throw Error else ret tt.

(** [_handleCommonReadRawDataNoNextState], which gives the data. *)
Definition handleCommonReadRawDataNoNextState : meth (list Z) :=
  run head <- gets (fun it => headOffsetInCurPkt (window it));
  act assert_dbg debug (head mod 8 =? 0);
  run top <- stackTop;
  act assert_dbg debug (elemIndex top <? frameLen top);
  act requireContentData 8;
  run bufLen <- remainingBufLen;
  act assert_dbg debug (8 <=? bufLen);
  run buf <- bufAtHead;
  let n := Z.min (bufLen / 8) (wrapu 64 (frameLen top - elemIndex top)) in
  run len <- dl_bytes n;
  act checkContentLen len;
  let data := take (Z.to_nat n) buf in
  act updateForUser (RawDataItem data);
  act consumeAvailData len;
  act set_stackTop (with_elemIndex (wrapu 64 (elemIndex top + len / 8)) top);
  ret data.
Definition handleReadRawDataState : meth bool :=
  run data <- handleCommonReadRawDataNoNextState;
  run top <- stackTop;
  act (if elemIndex top =? frameLen top then restoreState else ret tt);
  Stop.
Definition handleReadMetadataStreamUuidBlobFieldSectionState : meth bool :=
  run top <- stackTop;
  let uuidByteIndex := elemIndex top in
  run data <- handleCommonReadRawDataNoNextState;
  act copy_to_uuid data uuidByteIndex;
  act end_uuid_bytes;
  Stop.

(** The encodings of null-terminated strings, and the finder of each one. *)
Inductive Utf := Utf8Units | Utf16Units | Utf32Units.
Definition codeUnitLen (u : Utf) : nat := match u with Utf8Units => 1 | Utf16Units => 2 | Utf32Units => 4 end.
Definition nullCpFinder (u : Utf) (c : Control) : NullCpFinder :=
  match u with Utf8Units => utf8NullCpFinder c | Utf16Units => utf16NullCpFinder c | Utf32Units => utf32NullCpFinder c end.
Definition with_nullCpFinder (u : Utf) (f : NullCpFinder) (c : Control) : Control :=
  match u with
  | Utf8Units => with_utf8NullCpFinder f c
  | Utf16Units => with_utf16NullCpFinder f c
  | Utf32Units => with_utf32NullCpFinder f c
  end.

Definition handleCommonBeginReadNullTerminatedStrFieldState (u : Utf) (dataState : State) : meth bool :=
  run fc <- stackTopFc;
  act updateForUser (NullTerminatedStrFieldBeginItem fc);
  act alignHead (align fc);
  act modify_control (with_nullCpFinder u []);
  act set_state dataState;
  Stop.
Definition handleCommonReadSubstrUntilNullCodepointState (u : Utf) : meth bool :=
  run head <- gets (fun it => headOffsetInCurPkt (window it));
  act assert_dbg debug (head mod 8 =? 0);
  act requireContentData 8;
  run bufLen <- remainingBufLen;
  act assert_dbg debug (8 <=? bufLen);
  run buf <- bufAtHead;
  run c <- gets control;
  let avail := take (Z.to_nat (bufLen / 8)) buf in
  let (finder, found) := findNullCp (codeUnitLen u) (nullCpFinder u c) avail 0 in
  act modify_control (with_nullCpFinder u finder);
  let data := match found with Some n => take n avail | None => avail end in
  run len <- dl_bytes (Z.of_nat (length data));
  act checkContentLen len;
  act updateForUser (RawDataItem data);
  act consumeAvailData len;
  act (if bool_decide (found <> None) then restoreState else ret tt);
  Stop.

(** * Variant and optional fields *)

(** The saved value as one of the type of the selector. *)
Definition sel_val (sel : SelType) (v : Z) : Z :=
  match sel with BoolSel => if v =? 0 then 0 else 1 | UIntSel => v | SIntSel => wraps 64 v end.

Definition handleCommonBeginReadVariantField (sel : SelType) : meth bool :=
  run fc <- stackTopFc;
  match fc with
  | VariantFc _ opts savedKeyValIndex =>
    act set_topLen 1;
    run v <- savedKeyVal savedKeyValIndex;
    let selVal := sel_val sel v in
    match findOptBySelVal opts selVal 0 with
    | None => act updateForUser (VariantFieldBeginItem sel fc selVal 0); throw Error
    | Some (i, optFc) => act updateForUser (VariantFieldBeginItem sel fc selVal i); act prepareToReadField optFc; Stop
    end
  | _ => undefined
  end.
Definition handleCommonBeginReadOptionalField (sel : SelType) : meth bool :=
  run fc <- stackTopFc;
  match fc with
  | OptionalFc _ optFc selFieldRanges savedKeyValIndex =>
    run v <- savedKeyVal savedKeyValIndex;
    let selVal := sel_val sel v in
    let isEnabled := isEnabledBySelVal sel selFieldRanges selVal in
    act updateForUser (OptionalFieldBeginItem sel fc selVal isEnabled);
    act (if isEnabled then act set_topLen 1; prepareToReadField optFc else restoreState);
    Stop
  | _ => undefined
  end.

(** * The state machine *)

Definition handleState : meth bool :=
  run s <- get_state;
  match s with
  | Init => act set_state TryBeginReadPkt; Continue
  | Done => undefined
  | TryBeginReadPkt => handleTryBeginReadPktState
  | EndReadPkt => handleEndReadPktState
  | BeginReadPktContent => handleBeginReadPktContentState
  | EndReadPktContent => handleEndReadPktContentState
  | TryBeginReadScope scope => handleTryBeginReadScopeState scope
  | EndReadScope scope => handleEndReadScopeState scope
  | TryBeginReadEventRecord => handleTryBeginReadEventRecordState
  | EndReadEventRecord => handleEndReadEventRecordState
  | SetDataStreamInfoItem => handleSetDataStreamInfoItemState
  | SetPktInfoItem => handleSetPktInfoItemState
  | SetEventRecordInfoItem => handleSetEventRecordInfoItemState
  | SetPktMagicNumberItem => handleSetPktMagicNumberItem
  | SetDefClkValItem => handleSetDefClkValItem
  | SetMetadataStreamUuidItem => handleSetMetadataStreamUuidItemState
  | SkipPadding => act skipPadding false; Continue
  | SkipContentPadding => act skipPadding true; Continue
  | ReadFixedLenBitArrayField r => handleCommonReadFixedLenBitArrayFieldState r FixedLenBitArrayFieldItem
  | ReadFixedLenBitMapField r => handleCommonReadFixedLenBitArrayFieldState r FixedLenBitMapFieldItem
  | ReadFixedLenBoolField r saveVal => handleCommonReadFixedLenBoolFieldState r saveVal
  | ReadFixedLenFloatField r isDouble => handleCommonReadFixedLenFloatFieldState r isDouble
  | ReadFixedLenUIntField r withRole saveVal => handleCommonReadFixedLenUIntFieldState r withRole saveVal
  | ReadFixedLenSIntField r saveVal => handleCommonReadFixedLenSIntFieldState r saveVal
  | ReadFixedLenMetadataStreamUuidByteUIntFieldBa8 => handleReadFixedLenMetadataStreamUuidByteUIntFieldBa8State
  | ReadVarLenUIntField withRole saveVal => handleCommonReadVarLenUIntFieldState withRole saveVal
  | ReadVarLenSIntField saveVal => handleCommonReadVarLenSIntFieldState saveVal
  | BeginReadNullTerminatedStrFieldUtf8 => handleCommonBeginReadNullTerminatedStrFieldState Utf8Units ReadSubstrUntilNullCodepointUtf8
  | BeginReadNullTerminatedStrFieldUtf16 => handleCommonBeginReadNullTerminatedStrFieldState Utf16Units ReadSubstrUntilNullCodepointUtf16
  | BeginReadNullTerminatedStrFieldUtf32 => handleCommonBeginReadNullTerminatedStrFieldState Utf32Units ReadSubstrUntilNullCodepointUtf32
  | ReadSubstrUntilNullCodepointUtf8 => handleCommonReadSubstrUntilNullCodepointState Utf8Units
  | ReadSubstrUntilNullCodepointUtf16 => handleCommonReadSubstrUntilNullCodepointState Utf16Units
  | ReadSubstrUntilNullCodepointUtf32 => handleCommonReadSubstrUntilNullCodepointState Utf32Units
  | EndReadNullTerminatedStrField => handleCommonEndReadCompoundFieldState NullTerminatedStrFieldEndItem
  | ReadRawData => handleReadRawDataState
  | ReadMetadataStreamUuidBlobFieldSection => handleReadMetadataStreamUuidBlobFieldSectionState
  | BeginReadStaticLenStrField => handleBeginReadStaticLenStrFieldState
  | EndReadStaticLenStrField => handleCommonEndReadCompoundFieldState StaticLenStrFieldEndItem
  | BeginReadDynLenStrField => handleBeginReadDynLenStrFieldState
  | EndReadDynLenStrField => handleCommonEndReadCompoundFieldState DynLenStrFieldEndItem
  | BeginReadStaticLenBlobField => handleCommonBeginReadStaticLenBlobFieldState ReadRawData
  | BeginReadStaticLenBlobFieldMetadataStreamUuid =>
    handleCommonBeginReadStaticLenBlobFieldState ReadMetadataStreamUuidBlobFieldSection
  | EndReadStaticLenBlobField => handleCommonEndReadCompoundFieldState StaticLenBlobFieldEndItem
  | BeginReadDynLenBlobField => handleBeginReadDynLenBlobFieldState
  | EndReadDynLenBlobField => handleCommonEndReadCompoundFieldState DynLenBlobFieldEndItem
  | BeginReadStructField => handleBeginReadStructFieldState
  | EndReadStructField => handleCommonEndReadCompoundFieldState StructFieldEndItem
  | BeginReadStaticLenArrayField => handleBeginReadStaticLenArrayFieldState
  | BeginReadStaticLenArrayFieldMetadataStreamUuid => handleBeginReadStaticLenArrayFieldMetadataStreamUuidState
  | EndReadStaticLenArrayField => handleCommonEndReadCompoundFieldState StaticLenArrayFieldEndItem
  | BeginReadDynLenArrayField => handleBeginReadDynLenArrayFieldState
  | EndReadDynLenArrayField => handleCommonEndReadCompoundFieldState DynLenArrayFieldEndItem
  | BeginReadOptionalField sel => handleCommonBeginReadOptionalField sel
  | EndReadOptionalField sel => handleCommonEndReadCompoundFieldState (OptionalFieldEndItem sel)
  | BeginReadVariantField sel => handleCommonBeginReadVariantField sel
  | EndReadVariantField sel => handleCommonEndReadCompoundFieldState (VariantFieldEndItem sel)
  end.

(** [next]: at most five states are handled ([next_enough_fuel]). *)
Fixpoint next_states (fuel : nat) : meth unit :=
  match fuel with O => undefined | S fuel => run more <- handleState; if more : bool then next_states fuel else ret tt end.
Definition next : meth (option Item) :=
  run s <- get_state;
  act assert_dbg debug (negb (bool_decide (s = Done)));
  act next_states 6;
  gets curItem.

Definition seekPkt (pktOffset : Z) : meth unit :=
  act modify_window (fun w => WindowOf (medium w) [] (bufOffsetInCurPkt w) pktOffset (headOffsetInCurPkt w));
  set_state TryBeginReadPkt.

(** A new iterator. *)
Definition new_iter (m : M) : ItemSeqIter M :=
  ItemSeqIterOf (WindowOf m [] 0 0 0)
    (ControlOf Init Init [] None None 0 0 0 [] [] [] 0 0 0 (replicate 16 0) (replicate 16 0))
    (DecodedOf None None 0 0 (replicate (savedKeyValCount tc) 0) 0 None None no_pktInfo None None)
    None 0.

End iter.
