(* ===== verification/ItemSpec.v ===== *)
(** What an item sequence decodes to: a reference decoder which has the whole data, as a
    recursive function on the field classes.

    What is decoded from a point on is a list of items and how the decoding ends.  A decoder
    of a part is given what is decoded after it ([k]).  Nothing is said of the data for which
    an assertion of the iterator, or an access of it, is not satisfied ([NotDefined]). *)

From S2P Require Import Prelude Bitfield CtfIr ItemBits ItemState ItemSeq.

Inductive status := Finished | Failed | NotDefined | OutOfFuel.

(** The offsets, in bits, of the current packet in the sequence and of the head in the packet,
    and what was decoded. *)
Record Point := PointOf { at_pkt : Z; at_head : Z; at_dec : Decoded }.
Definition pos (p : Point) : Z := at_pkt p + at_head p.
Definition advance (n : Z) (p : Point) : Point := PointOf (at_pkt p) (at_head p + n) (at_dec p).
Definition on_dec (f : Decoded -> Decoded) (p : Point) : Point := PointOf (at_pkt p) (at_head p) (f (at_dec p)).
Definition contentLeft (p : Point) : Z := expectedContent (at_dec p) - at_head p.

Definition result : Type := list Item * status.
Definition rest : Type := Point -> result.
Definition ends (st : status) : rest := fun _ => ([], st).
Definition emit (i : Item) (k : rest) : rest := fun p => let (l, st) := k p in (i :: l, st).

Section spec.
Context (tc : TraceCls) (data : list Z).

Definition bits_of_data : Z := 8 * Z.of_nat (length data).
Definition bytes_at (p : Point) : list Z := drop (Z.to_nat (pos p / 8)) data.

(** * Fields *)

(** There are [n] bits of content. *)
Definition demand (n : Z) (k : rest) : rest := fun p =>
  if contentLeft p <? 0 then ends NotDefined p
  else if contentLeft p <? n then ends Failed p
  else if bits_of_data <? pos p + n then ends Failed p
  else k p.

(** Skipping bits, of the content or not. *)
Definition skipping (content : bool) (n : Z) (k : rest) : rest := fun p =>
  if n =? 0 then k p
  else if content then demand n (fun p => k (advance n p)) p
  else if bits_of_data <? pos p + n then ends Failed p
  else k (advance n p).
Definition padding (p : Point) (a : Z) : Z := (at_head p + a - 1) / a * a - at_head p.
Definition aligned (a : Z) (k : rest) : rest := fun p => skipping true (padding p a) k p.

(** A fixed-length integer. *)
Definition fixed (signed : bool) (r : Reading) (f : FixedLenBitArrayFc) (k : Z -> rest) : rest :=
  aligned (fl_align f) (demand (len f) (fun p =>
    if (lenBits r =? 0) && negb (at_head p mod 8 =? 0) && bool_decide (lastByteOrder (at_dec p) = Some (match byteOrder f with Big => Little | Little => Big end))
    then ends Failed p
    else match ReadFixedLenIntFunc signed r (bytes_at p) (at_head p mod 8) (len f) with
         | Some v => k v (advance (len f) (on_dec (with_lastByteOrder (Some (byteOrder f))) p))
         | None => ends NotDefined p
         end)).

Definition saved (keys : list nat) (val : Z) (k : rest) : rest := fun p =>
  if forallb (fun i => bool_decide (i < length (savedKeyVals (at_dec p)))%nat) keys
  then k (on_dec (fun d => with_savedKeyVals (fold_left (fun l i => <[i := wrapu 64 val]> l) keys (savedKeyVals d)) d) p)
  else ends NotDefined p.
Definition with_saved (index : option nat) (k : Z -> rest) : rest := fun p =>
  match (do i <- index; savedKeyVals (at_dec p) !! i) with Some v => k v p | None => ends NotDefined p end.

(** What a role does, and the item that the last role which has one gives. *)
Definition role_dec (role : UIntFieldRole) (len val : Z) (d : Decoded) : Decoded :=
  match role with
  | PktMagicNumber => d
  | DataStreamClsId | EventRecordClsId => with_curClsId (Some val) d
  | DataStreamId => with_dataStreamId (Some val) d
  | PktTotalLen => with_pktInfo (with_expectedTotalLen (Some val) (pktInfo d)) (with_expectedTotal val d)
  | PktContentLen => with_pktInfo (with_expectedContentLen (Some val) (pktInfo d)) (with_expectedContent val d)
  | DefClkTs => with_defClkVal (updateDefClkVal (defClkVal d) val len) d
  | PktEndDefClkTs => with_pktInfo (with_endDefClkVal (Some val) (pktInfo d)) d
  | DiscEventRecordCounterSnap => with_pktInfo (with_discErCounterSnap (Some val) (pktInfo d)) d
  | PktSeqNum => with_pktInfo (with_seqNum (Some val) (pktInfo d)) d
  end.
Definition role_item (role : UIntFieldRole) (val : Z) (d : Decoded) : option Item :=
  match role with PktMagicNumber => Some (PktMagicNumberItem val) | DefClkTs => Some (DefClkValItem (defClkVal d)) | _ => None end.
Fixpoint with_roles (roles : list UIntFieldRole) (len val : Z) (i : option Item) (k : rest) : rest := fun p =>
  match roles with
  | [] => match i with Some i => emit i k p | None => k p end
  | role :: roles =>
    let p := on_dec (role_dec role len val) p in
    with_roles roles len val (match role_item role val (at_dec p) with Some i => Some i | None => i end) k p
  end.

(** A variable-length integer, of which the bytes before had the value and the length. *)
Fixpoint var_int (signed : bool) (bytes : list Z) (val len : Z) (k : Z -> Z -> rest) : rest := fun p =>
  if contentLeft p <? 0 then ends NotDefined p
  else if contentLeft p <? 8 then ends Failed p
  else match bytes with
       | [] => ends Failed p
       | b :: bytes =>
         match appendVarLenIntByte signed val len b with
         | None => ends Failed p
         | Some (val, len) =>
           if Z.land b 128 =? 0 then k (VarLenIntFieldVal signed len val) len (advance 8 p)
           else var_int signed bytes val len k (advance 8 p)
         end
       end.

Definition raw (n : Z) (k : list Z -> rest) : rest :=
  demand (8 * n) (fun p => let b := take (Z.to_nat n) (bytes_at p) in emit (RawDataItem b) (k b) (advance (8 * n) p)).
Definition raw_content (n : Z) (k : rest) : rest := if n =? 0 then k else raw n (fun _ => k).

Definition null_terminated (u : Utf) (finder : NullCpFinder) (k : rest) : rest := fun p =>
  match snd (findNullCp (codeUnitLen u) finder (bytes_at p) 0) with
  | Some n => raw (Z.of_nat n) (fun _ => k) p
  | None => if contentLeft p <? 0 then ends NotDefined p else ends Failed p
  end.

(** The bytes of the UUID which are left, after the others. *)
Fixpoint uuid_elems (n : nat) (f : FixedLenBitArrayFc) (uuid : list Z) (k : list Z -> rest) : rest :=
  match n with
  | O => k uuid
  | S n => fixed false (ReadingOf 8 Big Natural) f (fun v => emit (FixedLenUIntFieldItem (FixedLenFc f) v) (uuid_elems n f (uuid ++ [wrapu 8 v]) k))
  end.

(** The length of a [DataLen] made from bytes. *)
Definition from_bytes (n : Z) (k : rest) : rest := if (n =? 0) || (n <? (2 ^ 64 - 1) / 8) then k else ends NotDefined.

Definition utf_of (e : StrEncoding) : Utf :=
  match e with Utf8 => Utf8Units | Utf16Be | Utf16Le => Utf16Units | Utf32Be | Utf32Le => Utf32Units end.

Definition fixed_field (f : FixedLenBitArrayFc) (k : rest) : rest :=
  let fc := FixedLenFc f in let r := reading_of f in let keys := fl_keyValSavingIndexes f in
  match fl_type f with
  | BitArray => fixed false r f (fun v => emit (FixedLenBitArrayFieldItem fc v) k)
  | BitMap => fixed false r f (fun v => emit (FixedLenBitMapFieldItem fc v) k)
  | Bool => fixed false r f (fun v => emit (FixedLenBoolFieldItem fc v) (saved keys v k))
  | Float => fixed false r f (fun v => emit (FixedLenFloatFieldItem fc (float_val (len f =? 64) v)) k)
  | UInt => fixed false r f (fun v => emit (FixedLenUIntFieldItem fc v) (saved keys v (with_roles (fl_roles f) (len f) v None k)))
  | SInt => fixed true r f (fun v => emit (FixedLenSIntFieldItem fc v) (saved keys v k))
  end.
Definition var_len_uint (roles : list UIntFieldRole) (keys : list nat) (val len : Z) (k : rest) : rest :=
  let fc := VarLenUIntFc roles keys in
  fun p => var_int false (bytes_at p) val len (fun v l => emit (VarLenUIntFieldItem fc v l) (saved keys v (with_roles roles l v None k))) p.
Definition var_len_sint (keys : list nat) (val len : Z) (k : rest) : rest :=
  let fc := VarLenSIntFc keys in
  fun p => var_int true (bytes_at p) val len (fun v l => emit (VarLenSIntFieldItem fc (wraps 64 v) l) (saved keys (wraps 64 v) k)) p.

Fixpoint field (fc : Fc) (k : rest) {struct fc} : rest :=
  match fc with
  | FixedLenFc f => fixed_field f k
  | VarLenUIntFc roles keys => aligned 8 (var_len_uint roles keys 0 0 k)
  | VarLenSIntFc keys => aligned 8 (var_len_sint keys 0 0 k)
  | NullTerminatedStrFc e =>
    aligned 8 (emit (NullTerminatedStrFieldBeginItem fc) (null_terminated (utf_of e) [] (emit (NullTerminatedStrFieldEndItem fc) k)))
  | StaticLenStrFc _ n => aligned 8 (emit (StaticLenStrFieldBeginItem fc) (raw_content n (emit (StaticLenStrFieldEndItem fc) k)))
  | DynLenStrFc _ index =>
    with_saved index (fun n => from_bytes n
      (aligned 8 (emit (DynLenStrFieldBeginItem fc (8 * n)) (raw_content n (emit (DynLenStrFieldEndItem fc) k)))))
  | StaticLenBlobFc n false => aligned 8 (emit (StaticLenBlobFieldBeginItem fc) (raw_content n (emit (StaticLenBlobFieldEndItem fc) k)))
  | StaticLenBlobFc n true =>
    aligned 8 (emit (StaticLenBlobFieldBeginItem fc)
      (raw 16 (fun b => emit (MetadataStreamUuidItem b) (emit (StaticLenBlobFieldEndItem fc) k))))
  | DynLenBlobFc index =>
    with_saved index (fun n => from_bytes n
      (aligned 8 (emit (DynLenBlobFieldBeginItem fc (8 * n)) (raw_content n (emit (DynLenBlobFieldEndItem fc) k)))))
  | StructFc ms _ => aligned (align fc) (emit (StructFieldBeginItem fc) (fold_right field (emit (StructFieldEndItem fc) k) ms))
  | StaticLenArrayFc e n _ false =>
    aligned (align fc) (emit (StaticLenArrayFieldBeginItem fc) (Nat.iter (Z.to_nat n) (field e) (emit (StaticLenArrayFieldEndItem fc) k)))
  | StaticLenArrayFc e _ _ true =>
    match e with
    | FixedLenFc f =>
      aligned (align fc) (emit (StaticLenArrayFieldBeginItem fc)
        (uuid_elems 16 f [] (fun uuid => emit (MetadataStreamUuidItem uuid) (emit (StaticLenArrayFieldEndItem fc) k))))
    | _ => ends NotDefined
    end
  | DynLenArrayFc e _ index =>
    with_saved index (fun n =>
      aligned (align fc) (emit (DynLenArrayFieldBeginItem fc n) (Nat.iter (Z.to_nat n) (field e) (emit (DynLenArrayFieldEndItem fc) k))))
  | OptionalFc sel e ranges index =>
    with_saved index (fun v =>
      let v := sel_val sel v in let b := isEnabledBySelVal sel ranges v in
      emit (OptionalFieldBeginItem sel fc v b)
        (let k := emit (OptionalFieldEndItem sel fc) k in if b then field e k else k))
  | VariantFc sel opts index =>
    with_saved index (fun v =>
      let v := sel_val sel v in
      (fix option_at (opts : list (Fc * IntRangeSet)) (i : nat) : rest :=
         match opts with
         | [] => ends Failed
         | (e, ranges) :: opts =>
           if contains ranges v then emit (VariantFieldBeginItem sel fc v i) (field e (emit (VariantFieldEndItem sel fc) k))
           else option_at opts (S i)
         end) opts 0%nat)
  end.

(** * Event records *)

Definition scope_field (scope : Scope) (fc : option Fc) (k : rest) : rest :=
  match fc with None => k | Some fc => emit (ScopeBeginItem scope) (field fc (emit (ScopeEndItem scope) k)) end.

(** [h]: where the head was at the beginning of the record. *)
Definition er_end (h : Z) (k : rest) : rest := fun p =>
  if at_head p <? h then ends NotDefined p else if at_head p =? h then ends Failed p else emit EventRecordEndItem k p.
Definition er_payload (h : Z) (k : rest) : rest := fun p =>
  match eventRecordCls (at_dec p) with
  | Some c => scope_field EventRecordPayload (payloadFc c) (er_end h k) p
  | None => ends NotDefined p
  end.
Definition er_spec_ctx (h : Z) (k : rest) : rest := fun p =>
  match eventRecordCls (at_dec p) with
  | Some c => scope_field SpecEventRecordCtx (specCtxFc c) (er_payload h k) p
  | None => er_end h k p
  end.

(** The class that an identifier, or being the only one, gives. *)
Definition select {A} (id : option Z) (by_id : Z -> option A) (classes : list A) (cur : option A) (k : option A -> rest) : rest :=
  match id with
  | Some id => match by_id id with Some c => k (Some c) | None => ends Failed end
  | None => match classes with [] => k cur | [c] => k (Some c) | _ => ends NotDefined end
  end.
Definition er_info (h : Z) (k : rest) : rest := fun p =>
  match dataStreamCls (at_dec p) with
  | None => ends NotDefined p
  | Some ds =>
    select (curClsId (at_dec p)) (event_record_cls_by_id ds) (eventRecordClasses ds) (eventRecordCls (at_dec p)) (fun c p =>
      let p := on_dec (fun d => let d := with_eventRecordCls c d in if has_defClkCls ds then with_eventRecordClkVal (Some (defClkVal d)) d else d) p in
      emit (EventRecordInfoItem c (eventRecordClkVal (at_dec p))) (scope_field CommonEventRecordCtx (commonEventRecordCtxFc ds) (er_spec_ctx h k)) p) p
  end.

(** Whether there is another event record. *)
Definition more_content (p : Point) : bool :=
  if expectedContent (at_dec p) =? infDataLen then pos p <? bits_of_data else negb (contentLeft p =? 0).
Fixpoint records (fuel : nat) (k : rest) : rest := fun p =>
  match fuel with
  | O => ends OutOfFuel p
  | S fuel =>
    match dataStreamCls (at_dec p) with
    | None => ends NotDefined p
    | Some ds =>
      if contentLeft p <? 0 then ends NotDefined p
      else if more_content p then
        emit EventRecordBeginItem
          (scope_field EventRecordHeader (eventRecordHeaderFc ds) (er_info (at_head p) (records fuel k))) p
      else k p
    end
  end.

(** * Packets *)

Definition next_packet (k : rest) : rest := fun p =>
  if pos p mod 8 =? 0 then emit PktEndItem (fun p => k (PointOf (pos p) 0 (at_dec p))) p else ends NotDefined p.
Definition content_end (k : rest) : rest := fun p =>
  let d := at_dec p in
  if expectedTotal d =? infDataLen then emit PktContentEndItem (next_packet k) p
  else if (expectedContent d =? infDataLen) || (expectedTotal d <? at_head p) then ends NotDefined p
  else (* the padding is skipped before the item is given *)
    skipping false (expectedTotal d - at_head p) (emit PktContentEndItem (next_packet k)) p.

(** [n]: the fuel of the event records. *)
Definition pkt_info (n : nat) (k : rest) : rest := fun p =>
  let d := at_dec p in
  let d := if expectedTotal d =? infDataLen then with_expectedTotal (expectedContent d) d else d in
  let d := if expectedContent d =? infDataLen then with_expectedContent (expectedTotal d) d else d in
  if negb (expectedTotal d mod 8 =? 0) || (expectedTotal d <? expectedContent d) then ends Failed p
  else
    let d := match dataStreamCls d with
             | Some ds => if has_defClkCls ds then with_pktInfo (with_beginDefClkVal (Some (defClkVal d)) (pktInfo d)) d else d
             | None => d
             end in
    emit (PktInfoItem (pktInfo d)) (records n (content_end k)) (on_dec (fun _ => d) p).
Definition ds_info (n : nat) (k : rest) : rest := fun p =>
  select (curClsId (at_dec p)) (data_stream_cls_by_id tc) (dataStreamClasses tc) (dataStreamCls (at_dec p)) (fun c p =>
    let p := on_dec (fun d => with_curClsId None (with_dataStreamCls c d)) p in
    emit (DataStreamInfoItem c (dataStreamId (at_dec p)))
      (match c with Some ds => scope_field PktCtx (pktCtxFc ds) (pkt_info n k) | None => pkt_info n k end) p) p.

Definition new_packet (p : Point) : Point :=
  PointOf (at_pkt p) 0 (DecodedOf None None infDataLen infDataLen (savedKeyVals (at_dec p)) 0 None None no_pktInfo None None).
Definition packet (n : nat) (k : rest) : rest := fun p =>
  emit PktBeginItem (emit PktContentBeginItem (scope_field PktHeader (pktHeaderFc tc) (ds_info n k))) (new_packet p).
Fixpoint packets (n fuel : nat) : rest := fun p =>
  match fuel with
  | O => ends OutOfFuel p
  | S fuel => if at_pkt p <? bits_of_data then packet n (packets n fuel) p else ends Finished p
  end.

(** A record and a packet have at least one bit. *)
Definition enough : nat := S (8 * length data).
Definition decode : result :=
  packets enough enough (PointOf 0 0 (DecodedOf None None 0 0 (replicate (savedKeyValCount tc) 0) 0 None None no_pktInfo None None)).

End spec.
