(* ===== verification/ItemWp.v ===== *)
(** How the methods of the item sequence iterator read the data: what each of those that the
    handlers of states share does, for a medium that serves some data.

    [wp m it Q E]: running [m] on [it] has a defined behaviour; it returns such that [Q], or
    throws such that [E]. *)

From S2P Require Import Prelude Bitfield CtfIr ItemBits ItemBitsFacts ItemState ItemSeq ItemSpec.

(** * Media that serve data *)

(** A medium in a state of [I] gives the bytes that it is asked for, and more if it wants, at
    the same time or after having asked to try again; [NoData] is for data which does not
    have them. *)
Class MediumServes {M} `{Medium M} (data : list Z) (again : bool) (I : M -> Prop) : Prop :=
  serves m offset minSize :
    I m -> 0 <= offset -> offset mod 8 = 0 -> 8 <= minSize <= 72 -> minSize mod 8 = 0 ->
    I (fst (medium_buf m offset minSize)) /\
    match snd (medium_buf m offset minSize) with
    | Bytes b => b `prefix_of` drop (Z.to_nat (offset / 8)) data /\ minSize <= 8 * Z.of_nat (length b)
    | NoData => bits_of_data data < offset + minSize
    | MediumTryAgain => again = true
    | MediumError => False
    end.

Section wp.
Context {M : Type} `{Medium M} (debug : bool) (tc : TraceCls) (data : list Z) (again : bool) (I : M -> Prop).
Context `{!MediumServes data again I}.
(** The data is bytes, fewer than 2^59. *)
Context (Hbytes : buf_wf 8 data) (Hsize : bits_of_data data <= 2 ^ 62).

Definition wp {A} (m : method M A) (it : ItemSeqIter M) (Q : A -> ItemSeqIter M -> Prop) (E : exn -> ItemSeqIter M -> Prop) : Prop :=
  match m it with (it', Ret x) => Q x it' | (it', Throw e) => E e it' | (_, Undefined) => False end.

Lemma wp_bind {A B} (m : method M A) (k : A -> method M B) it Q E :
  wp m it (fun x it' => wp (k x) it' Q E) E -> wp (bind m k) it Q E.
Proof. unfold wp, bind. destruct (m it) as [it' [x|e|]]; done. Qed.
Lemma wp_unbind {A B} (m : method M A) (k : A -> method M B) it Q E :
  wp (bind m k) it Q E -> wp m it (fun x it' => wp (k x) it' Q E) E.
Proof. unfold wp, bind. destruct (m it) as [it' [x|e|]]; done. Qed.
Lemma wp_mono {A} (m : method M A) it (Q Q' : A -> ItemSeqIter M -> Prop) (E E' : exn -> ItemSeqIter M -> Prop) :
  wp m it Q E -> (forall x it', Q x it' -> Q' x it') -> (forall e it', E e it' -> E' e it') -> wp m it Q' E'.
Proof. unfold wp. destruct (m it) as [it' [x|e|]]; naive_solver. Qed.
Lemma wp_assert b it (Q : unit -> ItemSeqIter M -> Prop) E : b = true -> Q tt it -> wp (assert_dbg debug b) it Q E.
Proof. intros -> HQ. unfold assert_dbg. rewrite andb_false_r. exact HQ. Qed.
Lemma wp_dl_add a b it (Q : Z -> ItemSeqIter M -> Prop) E : 0 <= a + b < 2 ^ 64 -> Q (a + b) it -> wp (dl_add debug a b) it Q E.
Proof.
  intros Hab HQ. apply wp_bind, wp_assert; [apply Z.ltb_lt; lia|]. unfold wp, ret. by rewrite wrapu_small.
Qed.
Lemma wp_dl_sub a b it (Q : Z -> ItemSeqIter M -> Prop) E : 0 <= b <= a -> a < 2 ^ 64 -> Q (a - b) it -> wp (dl_sub debug a b) it Q E.
Proof.
  intros Hab Ha HQ. apply wp_bind, wp_assert; [apply Z.leb_le; lia|]. unfold wp, ret. rewrite wrapu_small by lia. done.
Qed.
Lemma wp_dl_bytes a it (Q : Z -> ItemSeqIter M -> Prop) E :
  (a =? 0) || (a <? (2 ^ 64 - 1) / 8) = true -> 0 <= a -> Q (8 * a) it -> wp (dl_bytes debug a) it Q E.
Proof.
  intros Ha Ha0 HQ. apply wp_bind, wp_assert; [done|]. unfold wp, ret. apply orb_true_iff in Ha.
  assert (a * 8 < 2 ^ 64).
  { destruct Ha as [->%Z.eqb_eq|Ha%Z.ltb_lt]; [lia|]. change ((2 ^ 64 - 1) / 8) with 2305843009213693951 in Ha. lia. }
  rewrite wrapu_small by lia. by rewrite Z.mul_comm.
Qed.

(** * The window on the data *)

(** The buffer has data from its offset on, and the head is in it or at its end. *)
Definition win_ok (w : Window M) : Prop :=
  I (medium w) /\ 0 <= curPktOffsetInItemSeq w /\ curPktOffsetInItemSeq w mod 8 = 0 /\
  bufOffsetInCurPkt w mod 8 = 0 /\ 0 <= bufOffsetInCurPkt w <= headOffsetInCurPkt w /\
  headOffsetInCurPkt w <= bufOffsetInCurPkt w + 8 * Z.of_nat (length (mBuf w)) /\
  curPktOffsetInItemSeq w + bufOffsetInCurPkt w <= bits_of_data data /\
  mBuf w `prefix_of` drop (Z.to_nat ((curPktOffsetInItemSeq w + bufOffsetInCurPkt w) / 8)) data.

Definition bufLeft (w : Window M) : Z := bufOffsetInCurPkt w + 8 * Z.of_nat (length (mBuf w)) - headOffsetInCurPkt w.

Lemma win_end w : win_ok w -> curPktOffsetInItemSeq w + bufOffsetInCurPkt w + 8 * Z.of_nat (length (mBuf w)) <= bits_of_data data.
Proof.
  intros (_ & Hp & Hp8 & Ho8 & Ho & Hh & Hl & Hpre%prefix_length). rewrite length_drop in Hpre. unfold bits_of_data in *.
  assert ((curPktOffsetInItemSeq w + bufOffsetInCurPkt w) mod 8 = 0) by div_lia. div_lia.
Qed.
Lemma win_head w : win_ok w -> 0 <= headOffsetInCurPkt w /\ curPktOffsetInItemSeq w + headOffsetInCurPkt w <= bits_of_data data.
Proof. intros Hw. pose proof (win_end w Hw). destruct Hw as (_ & Hp & Hp8 & Ho8 & Ho & Hh & Hl & _). lia. Qed.

(** The same iterator with another window, or another control state. *)
Definition at_window (w : Window M) (it : ItemSeqIter M) : ItemSeqIter M :=
  ItemSeqIterOf w (control it) (decoded it) (curItem it) (curItemOffsetInItemSeq it).
Definition at_control (c : Control) (it : ItemSeqIter M) : ItemSeqIter M :=
  ItemSeqIterOf (window it) c (decoded it) (curItem it) (curItemOffsetInItemSeq it).
Definition same_head (w w' : Window M) : Prop :=
  curPktOffsetInItemSeq w' = curPktOffsetInItemSeq w /\ headOffsetInCurPkt w' = headOffsetInCurPkt w.
Definition w_advance (n : Z) (w : Window M) : Window M :=
  WindowOf (medium w) (mBuf w) (bufOffsetInCurPkt w) (curPktOffsetInItemSeq w) (headOffsetInCurPkt w + n).
Definition point_of (w : Window M) (d : Decoded) : Point := PointOf (curPktOffsetInItemSeq w) (headOffsetInCurPkt w) d.
Definition point (it : ItemSeqIter M) : Point := point_of (window it) (decoded it).

Lemma at_window_self it : at_window (window it) it = it.
Proof. by destruct it. Qed.
Lemma point_same_head w w' d : same_head w w' -> point_of w' d = point_of w d.
Proof. intros [Hp Hh]. unfold point_of. by rewrite Hp, Hh. Qed.
Lemma win_ok_advance n w : win_ok w -> 0 <= n <= bufLeft w -> win_ok (w_advance n w).
Proof. unfold win_ok, bufLeft. simpl. intuition lia. Qed.

Lemma wp_headOffsetInItemSeq it (Q : Z -> ItemSeqIter M -> Prop) E :
  win_ok (window it) -> Q (pos (point it)) it -> wp (headOffsetInItemSeq debug) it Q E.
Proof.
  intros Hw HQ. pose proof (win_head _ Hw). destruct Hw as (_ & Hp & _).
  apply wp_bind. unfold wp at 1. simpl. apply wp_bind. unfold wp at 1. simpl.
  apply wp_dl_add; [lia|exact HQ].
Qed.
Lemma wp_updateForUser i it (Q : unit -> ItemSeqIter M -> Prop) E :
  win_ok (window it) ->
  (forall o, Q tt (ItemSeqIterOf (window it) (control it) (decoded it) (Some i) o)) -> wp (updateForUser debug i) it Q E.
Proof. intros Hw HQ. apply wp_bind, wp_headOffsetInItemSeq; [done|]. apply HQ. Qed.
Lemma wp_remainingBufLen it (Q : Z -> ItemSeqIter M -> Prop) E :
  win_ok (window it) -> Q (bufLeft (window it)) it -> wp (remainingBufLen debug) it Q E.
Proof.
  intros Hw HQ. pose proof (win_end _ Hw). destruct Hw as (_ & Hp & Hp8 & Ho8 & Ho & Hh & Hl & _).
  apply wp_bind. unfold wp at 1. simpl. apply wp_bind, wp_dl_add; [lia|]. apply wp_dl_sub; [lia|lia|exact HQ].
Qed.
Lemma wp_remainingPktContentLen it (Q : Z -> ItemSeqIter M -> Prop) E :
  0 <= headOffsetInCurPkt (window it) -> 0 <= contentLeft (point it) -> expectedContent (decoded it) < 2 ^ 64 ->
  Q (contentLeft (point it)) it -> wp (remainingPktContentLen debug) it Q E.
Proof.
  intros Hh Hc Hb HQ. unfold contentLeft, point, point_of in *. simpl in *.
  apply wp_bind. unfold wp at 1. simpl. apply wp_bind. unfold wp at 1. simpl. apply wp_dl_sub; [lia|lia|exact HQ].
Qed.
Lemma wp_bufAtHead it (Q : list Z -> ItemSeqIter M -> Prop) E :
  win_ok (window it) ->
  (forall b tail, bytes_at data (point it) = b ++ tail -> bufLeft (window it) = 8 * Z.of_nat (length b) - headOffsetInCurPkt (window it) mod 8 -> Q b it) ->
  wp (bufAtHead debug) it Q E.
Proof.
  intros Hw HQ. pose proof (win_end _ Hw) as He. destruct Hw as (_ & Hp & Hp8 & Ho8 & Ho & Hh & Hl & [tail Hpre]).
  set (w := window it) in *. apply wp_bind. unfold wp at 1. simpl. fold w. apply wp_bind, wp_dl_sub; [lia|lia|].
  unfold wp, ret. set (n := Z.to_nat ((headOffsetInCurPkt w - bufOffsetInCurPkt w) / 8)).
  assert (Hn : (n <= length (mBuf w))%nat) by (subst n; div_lia).
  apply (HQ _ tail).
  - unfold bytes_at, pos, point, point_of. simpl. fold w. rewrite <- (drop_app_le (mBuf w) tail n) by done.
    rewrite <- Hpre, drop_drop. f_equal. subst n. div_lia.
  - unfold bufLeft. rewrite length_drop. subst n. div_lia.
Qed.
Lemma wp_consumeAvailData n it (Q : unit -> ItemSeqIter M -> Prop) E :
  win_ok (window it) -> 0 <= n <= bufLeft (window it) -> Q tt (at_window (w_advance n (window it)) it) ->
  wp (consumeAvailData debug n) it Q E.
Proof.
  intros Hw Hn HQ. pose proof (win_end _ Hw) as He. pose proof (win_head _ Hw) as Hh0.
  apply wp_bind, wp_remainingBufLen; [done|]. apply wp_bind, wp_assert; [apply Z.leb_le; lia|].
  destruct Hw as (_ & Hp & Hp8 & Ho8 & Ho & Hh & Hl & _). unfold bufLeft in Hn.
  apply wp_bind. unfold wp at 1. simpl. apply wp_bind, wp_dl_add; [lia|]. exact HQ.
Qed.

(** * Simple methods *)

Lemma wp_ret {A} (x : A) it (Q : A -> ItemSeqIter M -> Prop) E : Q x it -> wp (ret x) it Q E.
Proof. done. Qed.
Lemma wp_throw {A} e it (Q : A -> ItemSeqIter M -> Prop) (E : exn -> ItemSeqIter M -> Prop) : E e it -> wp (throw e) it Q E.
Proof. done. Qed.
Lemma wp_gets {A} (f : ItemSeqIter M -> A) it (Q : A -> ItemSeqIter M -> Prop) E : Q (f it) it -> wp (gets f) it Q E.
Proof. done. Qed.
Lemma wp_of_option {A} o (x : A) it (Q : A -> ItemSeqIter M -> Prop) E : o = Some x -> Q x it -> wp (of_option o) it Q E.
Proof. by intros ->. Qed.
Lemma wp_modify_control f it (Q : unit -> ItemSeqIter M -> Prop) E : Q tt (at_control (f (control it)) it) -> wp (modify_control f) it Q E.
Proof. done. Qed.
Lemma wp_modify_decoded f it (Q : unit -> ItemSeqIter M -> Prop) E :
  Q tt (ItemSeqIterOf (window it) (control it) (f (decoded it)) (curItem it) (curItemOffsetInItemSeq it)) -> wp (modify_decoded f) it Q E.
Proof. done. Qed.
Lemma wp_set_state s it (Q : unit -> ItemSeqIter M -> Prop) E : Q tt (at_control (with_mState s (control it)) it) -> wp (set_state s) it Q E.
Proof. done. Qed.
Lemma wp_stackTop f fs it (Q : StackFrame -> ItemSeqIter M -> Prop) E : stack (control it) = f :: fs -> Q f it -> wp stackTop it Q E.
Proof. intros Hs HQ. unfold stackTop. apply wp_bind, wp_gets. by apply (wp_of_option _ f); [rewrite Hs|]. Qed.
Lemma wp_set_stackTop f' f fs it (Q : unit -> ItemSeqIter M -> Prop) E :
  stack (control it) = f :: fs -> Q tt (at_control (with_stack (f' :: fs) (control it)) it) -> wp (set_stackTop f') it Q E.
Proof. intros Hs HQ. unfold set_stackTop. apply wp_modify_control. by rewrite Hs. Qed.
Lemma wp_set_topLen n f fs it (Q : unit -> ItemSeqIter M -> Prop) E :
  stack (control it) = f :: fs -> Q tt (at_control (with_stack (with_frameLen n f :: fs) (control it)) it) -> wp (set_topLen n) it Q E.
Proof. intros Hs HQ. unfold set_topLen. eapply wp_bind, wp_stackTop; [done|]. by eapply wp_set_stackTop. Qed.
Lemma wp_stackPop f fs it (Q : unit -> ItemSeqIter M -> Prop) E :
  stack (control it) = f :: fs -> Q tt (at_control (with_stack fs (control it)) it) -> wp stackPop it Q E.
Proof. intros Hs HQ. unfold stackPop. apply wp_modify_control. by rewrite Hs. Qed.
Lemma wp_restoreState f fs it (Q : unit -> ItemSeqIter M -> Prop) E :
  stack (control it) = f :: fs -> Q tt (at_control (with_mState (restoringState f) (control it)) it) -> wp restoreState it Q E.
Proof. intros Hs HQ. unfold restoreState. eapply wp_bind, wp_stackTop; [done|]. by apply wp_set_state. Qed.
Lemma wp_stackTopFc s fc i n fs it (Q : Fc -> ItemSeqIter M -> Prop) E :
  stack (control it) = StackFrameOf s (Some fc) i n :: fs -> Q fc it -> wp stackTopFc it Q E.
Proof. intros Hs HQ. unfold stackTopFc. eapply wp_bind, wp_stackTop; [done|]. by apply (wp_of_option _ fc). Qed.
Lemma wp_curScalarFc_get fc it (Q : Fc -> ItemSeqIter M -> Prop) E :
  curScalarFc (control it) = Some fc -> Q fc it -> wp curScalarFc_get it Q E.
Proof. intros Hs HQ. unfold curScalarFc_get. apply wp_bind, wp_gets. by apply (wp_of_option _ fc). Qed.

(** * Having data *)

Lemma wp_tryHaveData n it (Q : bool -> ItemSeqIter M -> Prop) E :
  win_ok (window it) -> 1 <= n <= 64 ->
  (forall w, win_ok w -> same_head (window it) w -> n <= bufLeft w -> pos (point it) + n <= bits_of_data data -> Q true (at_window w it)) ->
  (forall w, win_ok w -> same_head (window it) w -> bits_of_data data < pos (point it) + n -> Q false (at_window w it)) ->
  (forall w, again = true -> win_ok w -> same_head (window it) w -> E TryAgain (at_window w it)) ->
  wp (tryHaveData debug n) it Q E.
Proof.
  intros Hw Hn HT HF HA. pose proof (win_end _ Hw) as He. pose proof (win_head _ Hw) as Hh0.
  set (w := window it) in *. assert (Hpos : pos (point it) = curPktOffsetInItemSeq w + headOffsetInCurPkt w) by done.
  apply wp_bind, wp_assert; [apply Z.leb_le; lia|]. apply wp_bind, wp_remainingBufLen; [done|]. fold w.
  destruct (Z.leb_spec n (bufLeft w)) as [Hle|Hlt].
  { unfold wp, ret. rewrite <- (at_window_self it). apply HT; [done|by split|done|]. unfold bufLeft in Hle. fold w. lia. }
  destruct Hw as (Hi & Hp & Hp8 & Ho8 & Ho & Hh & Hl & Hpre).
  set (p := curPktOffsetInItemSeq w) in *. set (h := headOffsetInCurPkt w) in *.
  apply wp_bind. unfold wp at 1. simpl. fold w p h. rewrite wrapu_small by div_lia.
  apply wp_bind, wp_dl_bytes; [apply orb_true_iff; right; apply Z.ltb_lt; change ((2 ^ 64 - 1) / 8) with 2305843009213693951; div_lia|div_lia|].
  apply wp_bind, wp_dl_bytes; [apply orb_true_iff; right; apply Z.ltb_lt; change ((2 ^ 64 - 1) / 8) with 2305843009213693951; div_lia|div_lia|].
  set (o := 8 * (p / 8 + h / 8)). set (s := 8 * ((n + 7 + h mod 8) / 8)).
  assert (Hos : 0 <= o /\ o mod 8 = 0 /\ 8 <= s <= 72 /\ s mod 8 = 0 /\ o <= p + h /\ p <= o /\ p + h + n <= o + s < p + h + n + 8)
    by (subst o s; div_lia).
  unfold newBuf. apply wp_bind, wp_assert; [apply Z.leb_le; lia|].
  destruct (serves (medium w) o s Hi) as [Hi' Hr]; [lia..|].
  apply wp_bind. unfold wp at 1, medium_request. fold w. destruct (medium_buf (medium w) o s) as [m r] eqn:Hm. simpl in Hi', Hr.
  destruct r as [b| | |]; [| | |done].
  - apply wp_bind. unfold wp at 1. simpl. fold w p. apply wp_bind, wp_dl_sub; [lia|lia|]. apply wp_bind. unfold wp at 1. simpl. unfold wp. simpl.
    destruct Hr as [Hb Hbs]. pose proof (prefix_length _ _ Hb) as Hbl. rewrite length_drop in Hbl.
    apply HT; [|done|unfold bufLeft; simpl; fold w p h; lia|unfold bits_of_data in *; fold w p h; div_lia].
    unfold win_ok. simpl. fold w p h. replace (p + (o - p)) with o by lia. repeat split; try done; try lia; subst o; div_lia.
  - unfold wp. simpl. apply HF; [|done|rewrite Hpos; unfold bits_of_data in *; div_lia].
    unfold win_ok. simpl. fold w p h. done.
  - unfold wp. simpl. apply HA; [done| |done]. unfold win_ok. simpl. fold w p h. done.
Qed.
Lemma wp_requireData n it (Q : unit -> ItemSeqIter M -> Prop) E :
  win_ok (window it) -> 1 <= n <= 64 ->
  (forall w, win_ok w -> same_head (window it) w -> n <= bufLeft w -> pos (point it) + n <= bits_of_data data -> Q tt (at_window w it)) ->
  (bits_of_data data < pos (point it) + n -> forall it', E Error it') ->
  (forall w, again = true -> win_ok w -> same_head (window it) w -> E TryAgain (at_window w it)) ->
  wp (requireData debug n) it Q E.
Proof.
  intros Hw Hn HT HF HA. apply wp_bind, wp_tryHaveData; [done..| | |done].
  - intros. by apply HT.
  - intros. unfold wp. simpl. by apply HF.
Qed.

(** * Having content and skipping *)

(** What is decoded is defined. *)
Definition ok (r : result) : Prop := snd r <> NotDefined /\ snd r <> OutOfFuel.

Definition head_plus (n : Z) (w w' : Window M) : Prop :=
  curPktOffsetInItemSeq w' = curPktOffsetInItemSeq w /\ headOffsetInCurPkt w' = headOffsetInCurPkt w + n.
Lemma head_plus_0 w w' : same_head w w' <-> head_plus 0 w w'.
Proof. unfold same_head, head_plus. by rewrite Z.add_0_r. Qed.
Lemma head_plus_trans a b w w' w'' : head_plus a w w' -> head_plus b w' w'' -> head_plus (a + b) w w''.
Proof. unfold head_plus. intuition lia. Qed.
Lemma head_plus_advance n w w' : same_head w w' -> head_plus n w (w_advance n w').
Proof. intros [Hp Hh]. split; simpl; [done|lia]. Qed.
Lemma point_head_plus n w w' d : head_plus n w w' -> point_of w' d = advance n (point_of w d).
Proof. intros [Hp Hh]. unfold point_of, advance. simpl. by rewrite Hp, Hh. Qed.

Lemma wp_requireContentData n it (Q : unit -> ItemSeqIter M -> Prop) E :
  win_ok (window it) -> expectedContent (decoded it) < 2 ^ 64 -> 1 <= n <= 64 -> 0 <= contentLeft (point it) ->
  (forall w, win_ok w -> same_head (window it) w -> n <= bufLeft w -> n <= contentLeft (point it) ->
     pos (point it) + n <= bits_of_data data -> Q tt (at_window w it)) ->
  (contentLeft (point it) < n \/ bits_of_data data < pos (point it) + n -> forall it', E Error it') ->
  (forall w, again = true -> win_ok w -> same_head (window it) w -> n <= contentLeft (point it) -> E TryAgain (at_window w it)) ->
  wp (requireContentData debug n) it Q E.
Proof.
  intros Hw Hb Hn Hc HT HF HA. apply wp_bind, wp_remainingPktContentLen; [by apply win_head|done..|].
  destruct (Z.ltb_spec (contentLeft (point it)) n); [unfold wp; simpl; apply HF; by left|].
  apply wp_requireData; [done..| | |]; intros; [apply HT|apply HF|apply HA]; auto.
Qed.

Lemma demand_cases n k p r :
  demand data n k p = r -> ok r ->
  0 <= contentLeft p /\ ((contentLeft p < n \/ bits_of_data data < pos p + n) /\ r = ([], Failed) \/
                         n <= contentLeft p /\ pos p + n <= bits_of_data data /\ k p = r).
Proof.
  unfold demand. intros <- [Hok _]. destruct (Z.ltb_spec (contentLeft p) 0); [done|]. split; [done|].
  destruct (Z.ltb_spec (contentLeft p) n); [naive_solver|].
  destruct (Z.ltb_spec (bits_of_data data) (pos p + n)); naive_solver.
Qed.

(** [requireContentData] where what is to decode demands the same. *)
Lemma wp_require_demand n k r it (Q : unit -> ItemSeqIter M -> Prop) E :
  win_ok (window it) -> expectedContent (decoded it) < 2 ^ 64 -> 1 <= n <= 64 -> demand data n k (point it) = r -> ok r ->
  (forall w, win_ok w -> same_head (window it) w -> n <= bufLeft w -> n <= contentLeft (point it) -> k (point it) = r -> Q tt (at_window w it)) ->
  (r = ([], Failed) -> forall it', E Error it') ->
  (forall w, again = true -> win_ok w -> same_head (window it) w -> E TryAgain (at_window w it)) ->
  wp (requireContentData debug n) it Q E.
Proof.
  intros Hw Hb Hn Hd Hok HT HF HA. destruct (demand_cases _ _ _ _ Hd Hok) as [Hc Hcases].
  apply wp_requireContentData; try done.
  - intros w ?????. apply HT; try done. destruct Hcases as [[[?|?] _]|(_ & _ & Hk)]; [lia|lia|done].
  - intros Hbad. apply HF. destruct Hcases as [[_ ->]|(? & ? & _)]; [done|lia].
  - auto.
Qed.

(** What remains to skip after some of it was. *)
Lemma advance_advance i j p : advance j (advance i p) = advance (i + j) p.
Proof. unfold advance. simpl. by rewrite Z.add_assoc. Qed.
Lemma advance_0 p : advance 0 p = p.
Proof. destruct p. unfold advance. simpl. by rewrite Z.add_0_r. Qed.
Lemma pos_advance n p : pos (advance n p) = pos p + n.
Proof. unfold pos. simpl. lia. Qed.
Lemma contentLeft_advance n p : contentLeft (advance n p) = contentLeft p - n.
Proof. unfold contentLeft. simpl. lia. Qed.

(** The content has what there is to skip. *)
Definition skippable (content : bool) (n : Z) (p : Point) : Prop := content = true -> n <= contentLeft p.

Lemma skipping_part b n j k p :
  0 <= j <= n -> skippable b n p -> pos p + j <= bits_of_data data ->
  skipping data b (n - j) k (advance j p) = skipping data b n k p.
Proof.
  intros Hj Hs Hp. unfold skipping, demand. rewrite advance_advance, pos_advance, contentLeft_advance.
  replace (j + (n - j)) with n by lia. replace (pos p + j + (n - j)) with (pos p + n) by lia. unfold skippable in Hs.
  destruct (Z.eqb_spec n 0); [subst n; replace j with 0 in * by lia; by rewrite advance_0|].
  destruct b; [specialize (Hs eq_refl)|]; repeat (case_match; try lia); try done; by replace j with n by lia.
Qed.

Lemma bufLeft_mod w : win_ok w -> bufLeft w mod 8 = (- headOffsetInCurPkt w) mod 8.
Proof. intros (_ & Hp & Hp8 & Ho8 & _). unfold bufLeft. div_lia. Qed.

Lemma wp_require1 b it (Q : unit -> ItemSeqIter M -> Prop) E n k r :
  win_ok (window it) -> expectedContent (decoded it) < 2 ^ 64 -> 0 < n -> skippable b n (point it) ->
  skipping data b n k (point it) = r -> ok r ->
  (forall w, win_ok w -> same_head (window it) w -> 1 <= bufLeft w -> pos (point it) + 1 <= bits_of_data data -> Q tt (at_window w it)) ->
  (r = ([], Failed) -> forall it', E Error it') ->
  (forall w, again = true -> win_ok w -> same_head (window it) w -> E TryAgain (at_window w it)) ->
  wp (if b then requireContentData debug 1 else requireData debug 1) it Q E.
Proof.
  intros Hw Hb Hn Hs Hd Hok HT HF HA. unfold skipping in Hd. destruct (Z.eqb_spec n 0) as [|_]; [lia|].
  destruct b.
  - destruct (demand_cases _ _ _ _ Hd Hok) as [Hc Hcases]. specialize (Hs eq_refl). apply wp_requireContentData; try done; auto.
    intros Hbad. apply HF. destruct Hcases as [[_ ->]|(? & ? & _)]; [done|lia].
  - apply wp_requireData; try done; auto. intros Hbad. apply HF.
    destruct (Z.ltb_spec (bits_of_data data) (pos (point it) + n)); [done|lia].
Qed.

(** The control state after skipping. *)
Definition skipped (c : Control) : Control := with_mState (postSkipPaddingState c) (with_remainingLenToSkip 0 c).
Definition to_skip (c : Control) : Z := remainingLenToSkip c.

(** The iterations that skipping takes at most. *)
Definition skip_fuel (n head : Z) : Z := if n =? 0 then 1 else n / 8 + (if head mod 8 =? 0 then 0 else 1) + 2.
Lemma skip_fuel_step n w :
  win_ok w -> 0 < n -> 1 <= bufLeft w ->
  let j := Z.min n (bufLeft w) in skip_fuel (n - j) (headOffsetInCurPkt w + j) + 1 <= skip_fuel n (headOffsetInCurPkt w).
Proof.
  intros Hw Hn Hl. pose proof (bufLeft_mod w Hw) as Hm. cbv zeta. unfold skip_fuel.
  destruct (Z.eqb_spec n 0); [lia|]. destruct (Z.eqb_spec (n - Z.min n (bufLeft w)) 0).
  - pose proof (Z.div_pos n 8). destruct (_ =? 0); lia.
  - rewrite Z.min_r in * by lia.
    destruct (Z.eqb_spec (headOffsetInCurPkt w mod 8) 0), (Z.eqb_spec ((headOffsetInCurPkt w + bufLeft w) mod 8) 0); div_lia.
Qed.

Lemma wp_skipPadding_loop fuel b it (Q : unit -> ItemSeqIter M -> Prop) E k r :
  win_ok (window it) -> expectedContent (decoded it) < 2 ^ 64 ->
  let n := to_skip (control it) in let p := point it in
  0 <= n < 2 ^ 64 -> skippable b n p -> skipping data b n k p = r -> ok r ->
  skip_fuel n (headOffsetInCurPkt (window it)) <= Z.of_nat fuel ->
  (forall w, win_ok w -> head_plus n (window it) w -> k (advance n p) = r -> Q tt (at_window w (at_control (skipped (control it)) it))) ->
  (r = ([], Failed) -> forall it', E Error it') ->
  (forall w j, again = true -> win_ok w -> head_plus j (window it) w -> 0 <= j <= n -> skippable b (n - j) (advance j p) ->
     skipping data b (n - j) k (advance j p) = r -> E TryAgain (at_window w (at_control (with_remainingLenToSkip (n - j) (control it)) it))) ->
  wp (skipPadding_loop debug fuel b) it Q E.
Proof.
  revert it. induction fuel as [|fuel IH]; intros it Hw Hb n p Hn Hs Hd Hok Hfuel HT HF HA.
  { exfalso. unfold skip_fuel in Hfuel. pose proof (Z.div_pos n 8 ltac:(lia) ltac:(lia)). repeat destruct (_ =? 0); lia. }
  cbn [skipPadding_loop]. apply wp_bind. unfold wp at 1. simpl. fold (to_skip (control it)). fold n.
  destruct (Z.eqb_spec n 0) as [Hz|Hnz].
  - unfold wp. simpl. assert (HQ := HT (window it) Hw). rewrite Hz in HQ.
    unfold at_window, at_control, skipped in HQ. simpl in HQ. assert (Hc : with_remainingLenToSkip 0 (control it) = control it).
    { unfold n, to_skip in Hz. rewrite <- Hz. by destruct (control it). }
    rewrite Hc in HQ. apply HQ; [by split; simpl; [|lia]|]. rewrite advance_0. rewrite Hz in Hd. exact Hd.
  - apply wp_bind. apply (wp_require1 b it _ _ n k r); try done; [lia| |].
    + intros w Hw' Hsame Hl Hp1. apply wp_bind, wp_remainingBufLen; [done|]. simpl.
      set (j := Z.min n (bufLeft w)). assert (Hj : 0 < j <= n) by lia.
      apply wp_bind, wp_dl_sub; [lia|lia|]. apply wp_bind. unfold wp at 1. simpl.
      apply wp_bind, wp_consumeAvailData; [done|simpl; lia|]. simpl.
      pose proof (head_plus_advance j _ _ Hsame) as Hplus.
      assert (Hpt : forall d, point_of (w_advance j w) d = advance j (point_of (window it) d)) by (intros; by apply point_head_plus).
      apply IH; simpl; unfold point; simpl; rewrite ?Hpt; fold (point it); fold p.
      * apply win_ok_advance; [done|lia].
      * done.
      * unfold to_skip. simpl. lia.
      * unfold skippable, to_skip in *. simpl. rewrite contentLeft_advance. intros Eb. specialize (Hs Eb). lia.
      * unfold to_skip. simpl. rewrite <- Hd. apply skipping_part; [lia|done|].
        pose proof (win_head _ (win_ok_advance j w Hw' ltac:(lia))) as [_ Hpos]. simpl in Hpos.
        destruct Hsame as [Hp' Hh']. unfold pos, p, point, point_of. simpl. lia.
      * done.
      * assert (Hstep : skip_fuel (n - j) (headOffsetInCurPkt w + j) + 1 <= skip_fuel n (headOffsetInCurPkt w)) by (apply skip_fuel_step; [done|lia|done]).
        destruct Hsame as [_ Hh']. rewrite <- Hh' in Hfuel. assert (Hf : skip_fuel (n - j) (headOffsetInCurPkt w + j) <= Z.of_nat fuel) by lia.
        exact Hf.
      * intros w' Hw'' Hplus' Hk. unfold to_skip in Hplus', Hk; simpl in Hplus', Hk.
        rewrite advance_advance in Hk. replace (j + (n - j)) with n in Hk by lia.
        apply (HT w'); [done| |done]. replace n with (j + (n - j)) by lia. by eapply head_plus_trans.
      * done.
      * intros w' i Ha Hw'' Hplus' Hi Hs' Hk. unfold to_skip in Hplus', Hk, Hi, Hs'; simpl in Hplus', Hk, Hi, Hs'.
        rewrite advance_advance in Hk, Hs'. replace (n - j - i) with (n - (j + i)) in Hk, Hs' by lia.
        assert (HE := HA w' (j + i) Ha Hw''). unfold to_skip. simpl. replace (n - j - i) with (n - (j + i)) by lia.
        apply HE; [by eapply head_plus_trans|lia|done|done].
    + intros w Ha Hw' Hsame. replace (at_window w it) with (at_window w (at_control (with_remainingLenToSkip (n - 0) (control it)) it)).
      * apply HA; [done|done|by apply head_plus_0|lia|rewrite Z.sub_0_r, advance_0; done|rewrite Z.sub_0_r, advance_0; done].
      * unfold at_window, at_control. simpl. rewrite Z.sub_0_r. unfold n, to_skip. by destruct (control it).
Qed.

Lemma wp_skipPadding b it (Q : unit -> ItemSeqIter M -> Prop) E k r :
  win_ok (window it) -> expectedContent (decoded it) < 2 ^ 64 ->
  let n := to_skip (control it) in let p := point it in
  0 <= n < 2 ^ 64 -> skippable b n p -> skipping data b n k p = r -> ok r ->
  (forall w, win_ok w -> head_plus n (window it) w -> k (advance n p) = r -> Q tt (at_window w (at_control (skipped (control it)) it))) ->
  (r = ([], Failed) -> forall it', E Error it') ->
  (forall w j, again = true -> win_ok w -> head_plus j (window it) w -> 0 <= j <= n -> skippable b (n - j) (advance j p) ->
     skipping data b (n - j) k (advance j p) = r -> E TryAgain (at_window w (at_control (with_remainingLenToSkip (n - j) (control it)) it))) ->
  wp (skipPadding debug b) it Q E.
Proof.
  intros Hw Hb n p Hn Hs Hd Hok HT HF HA. apply wp_bind. unfold wp at 1. simpl. fold (to_skip (control it)). fold n.
  apply (wp_skipPadding_loop _ _ _ _ _ k r); try done.
  unfold skip_fuel. fold n. pose proof (Z.div_pos n 8). destruct (n =? 0), (headOffsetInCurPkt (window it) mod 8 =? 0); lia.
Qed.

(** The control state of an iterator which skips bits before the state [s]. *)
Definition skipping_to (b : bool) (n : Z) (s : State) (c : Control) : Control :=
  with_mState (if b then SkipContentPadding else SkipPadding) (with_postSkipPaddingState s (with_remainingLenToSkip n c)).

Lemma wp_begin_skip b n s it (Q : unit -> ItemSeqIter M -> Prop) E k r :
  win_ok (window it) -> expectedContent (decoded it) < 2 ^ 64 ->
  let p := point it in
  0 <= n < 2 ^ 64 -> skippable b n p -> skipping data b n k p = r -> ok r ->
  (forall w, win_ok w -> head_plus n (window it) w -> k (advance n p) = r ->
     Q tt (at_window w (at_control (skipped (skipping_to b n s (control it))) it))) ->
  (r = ([], Failed) -> forall it', E Error it') ->
  (forall w j, again = true -> win_ok w -> head_plus j (window it) w -> 0 <= j <= n -> skippable b (n - j) (advance j p) ->
     skipping data b (n - j) k (advance j p) = r -> E TryAgain (at_window w (at_control (skipping_to b (n - j) s (control it)) it))) ->
  wp (begin_skip debug n s (if b then SkipContentPadding else SkipPadding) b) it Q E.
Proof.
  intros Hw Hb p Hn Hs Hd Hok HT HF HA. unfold begin_skip.
  do 3 (apply wp_bind; unfold wp at 1; simpl). apply (wp_skipPadding _ _ _ _ k r); done.
Qed.

Definition pow2 (a : Z) : bool := (0 <? a) && (a =? 2 ^ Z.log2 a) && (a <=? 2 ^ 62).
Lemma bt_align_padding h a : pow2 a = true -> 0 <= h <= 2 ^ 62 -> bt_align h a = (h + a - 1) / a * a.
Proof.
  intros Ha Hh. apply andb_true_iff in Ha as [Ha Hmax%Z.leb_le]. apply andb_true_iff in Ha as [Hpos%Z.ltb_lt Hp%Z.eqb_eq].
  unfold bt_align. pose proof (Z.log2_nonneg a). set (k := Z.log2 a) in *.
  assert (Hk : k < 64). { apply Z.log2_lt_pow2; lia. }
  rewrite (wrapu_small 64 (a - 1)), wrapu_small by lia. replace (h + (a - 1)) with (h + a - 1) by lia. set (x := h + a - 1).
  assert (Hx : 0 <= x < 2 ^ 64) by lia.
  replace (x / a * a) with (Z.shiftl (Z.shiftr x k) k) by (rewrite Z.shiftl_mul_pow2, Z.shiftr_div_pow2 by lia; by rewrite <- Hp).
  apply Z.bits_inj'. intros i Hi. rewrite Z.land_spec, testbit_wrapu, Z.lnot_spec by lia.
  replace (a - 1) with (Z.ones k) by (rewrite Z.ones_equiv; lia).
  destruct (Z.ltb_spec i k).
  - rewrite Z.ones_spec_low, Z.shiftl_spec_low by lia. by rewrite andb_false_r, andb_false_r.
  - rewrite Z.ones_spec_high, Z.shiftl_spec, Z.shiftr_spec by lia. replace (i - k + k) with i by lia.
    destruct (Z.ltb_spec i 64); [by rewrite andb_true_r|]. rewrite (u64_bit x) by lia. done.
Qed.
Lemma padding_range p a : 0 < a -> 0 <= padding p a < a.
Proof. intros. unfold padding. div_lia. Qed.

Lemma skipping_cong b n k k' p : k (advance n p) = k' (advance n p) -> skipping data b n k p = skipping data b n k' p.
Proof.
  intros E. unfold skipping, demand. rewrite E. destruct (Z.eqb_spec n 0) as [->|]; [|done]. by rewrite !advance_0 in E.
Qed.
(** Aligning again changes nothing. *)
Lemma padding_advance p a : 0 < a -> padding (advance (padding p a) p) a = 0.
Proof.
  intros Ha. unfold padding. simpl. set (h := at_head p). replace (h + ((h + a - 1) / a * a - h)) with ((h + a - 1) / a * a) by lia.
  rewrite <- Z.add_sub_assoc, Z.add_comm, Z.div_add by lia. rewrite (Z.div_small (a - 1)) by lia. lia.
Qed.
Lemma aligned_advance a k p : 0 < a -> aligned data a k (advance (padding p a) p) = k (advance (padding p a) p).
Proof. intros. unfold aligned, skipping. by rewrite padding_advance by lia. Qed.

(** The iterator has at most moved its head to a point, possibly within the padding before it,
    from which the same [k] is to decode: handling its state again resumes. *)
Definition resumes (it : ItemSeqIter M) (k : rest) (r : result) (it' : ItemSeqIter M) : Prop :=
  exists w c, it' = at_window w (at_control c it) /\ win_ok w /\
    (exists j, 0 <= j /\ head_plus j (window it) w) /\
    ((exists x y, c = with_postSkipPaddingState x (with_remainingLenToSkip y (control it))) /\ k (point_of w (decoded it)) = r \/
     (exists n, c = skipping_to true n (mState (control it)) (control it) /\ 0 <= n < 2 ^ 64 /\
        skippable true n (point_of w (decoded it)) /\ skipping data true n k (point_of w (decoded it)) = r)).

Lemma wp_alignHead a it (Q : unit -> ItemSeqIter M -> Prop) E k r :
  win_ok (window it) -> expectedContent (decoded it) < 2 ^ 64 -> pow2 a = true ->
  let p := point it in let n := padding p a in let s := mState (control it) in
  aligned data a k p = r -> ok r ->
  (forall w x y, win_ok w -> head_plus n (window it) w -> k (advance n p) = r ->
     Q tt (at_window w (at_control (with_postSkipPaddingState x (with_remainingLenToSkip y (control it))) it))) ->
  (r = ([], Failed) -> forall it', E Error it') ->
  (forall it', again = true -> resumes it (aligned data a k) r it' -> E TryAgain it') ->
  wp (alignHead debug a) it Q E.
Proof.
  intros Hw Hb Ha p n s Hd Hok HT HF HA. pose proof (win_head _ Hw) as [Hh HL].
  assert (Hp : 0 <= curPktOffsetInItemSeq (window it)) by apply Hw.
  assert (Hapos : 0 < a <= 2 ^ 62). { unfold pow2 in Ha. rewrite !andb_true_iff, Z.ltb_lt, Z.leb_le in Ha. lia. }
  pose proof (padding_range p a ltac:(lia)) as Hn. fold n in Hn.
  apply wp_bind. unfold wp at 1. simpl. rewrite bt_align_padding by (done || lia).
  apply wp_bind, wp_dl_sub; [unfold n, padding, p, point, point_of in Hn; simpl in Hn; lia|unfold n, padding, p, point, point_of in Hn; simpl in Hn; lia|].
  change (_ - headOffsetInCurPkt (window it)) with n. unfold aligned in Hd. fold n in Hd.
  destruct (Z.eqb_spec n 0) as [Hz|Hnz].
  - unfold wp. simpl. unfold skipping in Hd. rewrite Hz in Hd. simpl in Hd.
    assert (HQ := HT (window it) (postSkipPaddingState (control it)) (remainingLenToSkip (control it)) Hw).
    replace (at_window _ _) with it in HQ by (by destruct it as [? [] ? ? ?]).
    apply HQ; rewrite Hz; [split; [done|lia]|by rewrite advance_0].
  - assert (Hd' := Hd). unfold skipping in Hd'. destruct (Z.eqb_spec n 0) as [|_]; [lia|].
    destruct (demand_cases _ _ _ _ Hd' Hok) as [Hc Hcases].
    apply wp_bind, wp_remainingPktContentLen; [done..|]. fold p.
    destruct (Z.ltb_spec (contentLeft p) n).
    { unfold wp. simpl. apply HF. destruct Hcases as [[_ ->]|(? & _)]; [done|lia]. }
    apply wp_bind. unfold wp at 1. simpl. fold s.
    apply (wp_begin_skip true n s it Q E k r); try done; [lia|by intros _| |].
    2: { intros w j Hagain Hw' Hplus Hj Hs Hk. apply HA; [done|]. exists w, (skipping_to true (n - j) s (control it)).
         split_and!; [done|done|exists j; split; [lia|done]|]. right. exists (n - j). rewrite (point_head_plus _ _ _ _ Hplus). fold (point it). fold p.
         split_and!; [done|lia|lia|done|]. rewrite <- Hk. apply skipping_cong. rewrite advance_advance. replace (j + (n - j)) with n by lia.
         apply aligned_advance. lia. }
    intros w Hw' Hplus Hk. assert (HQ := HT w s 0 Hw' Hplus Hk).
    replace (skipped (skipping_to true n s (control it))) with (with_postSkipPaddingState s (with_remainingLenToSkip 0 (control it))); [done|].
    unfold s. by destruct (control it).
Qed.

End wp.
