(* ===== verification/ItemSim.v ===== *)
(** What remains to decode in each state of the item sequence iterator, as a decoder of
    [ItemSpec], and the preparation of the reading of fields. *)

From S2P Require Import Prelude Bitfield CtfIr ItemBits ItemBitsFacts ItemState ItemSeq ItemSpec ItemWp.

(** * Well-formed classes *)

Definition u64 (n : Z) : bool := (0 <=? n) && (n <? 2 ^ 64).
Definition fixed_ok (f : FixedLenBitArrayFc) : bool :=
  pow2 (fl_align f) && (0 <? len f) && (len f <=? 64) && match fl_type f with Float => (len f =? 32) || (len f =? 64) | _ => true end.
(** The element class of an array which is the UUID of a metadata stream. *)
Definition uuid_elem_ok (f : FixedLenBitArrayFc) : bool := fixed_ok f && (len f =? 8) && (8 <=? fl_align f).

Definition is_scalar (fc : Fc) : bool := match fc with FixedLenFc _ | VarLenUIntFc _ _ | VarLenSIntFc _ => true | _ => false end.
(** The iterator saves the value of a field of such a class when it has prepared the reading
    of the next field, in the indexes of the class of the last scalar field: the next field
    is not to be a scalar one. *)
Definition late_key (fc : Fc) : bool :=
  match fc with
  | FixedLenFc f => match fl_type f with Bool | SInt => is_key (fl_keyValSavingIndexes f) | _ => false end
  | _ => false
  end.
Fixpoint late_keys_ok (ms : list Fc) : bool :=
  match ms with m :: ((m' :: _) as ms') => negb (late_key m && is_scalar m') && late_keys_ok ms' | _ => true end.

(** What the metadata parsers ensure, with two more conditions: [late_keys_ok], and no
    variable-length clock timestamp. *)
Fixpoint fc_ok (fc : Fc) : bool :=
  match fc with
  | FixedLenFc f => fixed_ok f
  | VarLenUIntFc roles _ => forallb (fun r => match r with DefClkTs => false | _ => true end) roles
  | VarLenSIntFc _ => true
  | NullTerminatedStrFc _ | DynLenStrFc _ _ | DynLenBlobFc _ => true
  | StaticLenStrFc _ n => u64 n
  | StaticLenBlobFc n uuid => u64 n && (negb uuid || (n =? 16))
  | StructFc ms a => pow2 a && late_keys_ok ms && forallb fc_ok ms
  | StaticLenArrayFc e n a uuid =>
    pow2 a && u64 n && fc_ok e && (negb uuid || ((n =? 16) && match e with FixedLenFc f => uuid_elem_ok f | _ => false end))
  | DynLenArrayFc e a _ => pow2 a && fc_ok e
  | OptionalFc _ e _ _ => fc_ok e
  | VariantFc _ opts _ => forallb (fun o => fc_ok (fst o)) opts
  end.

Definition scope_ok (fc : option Fc) : bool := match fc with None => true | Some fc => isStruct fc && fc_ok fc end.
Definition event_record_cls_ok (c : EventRecordCls) : bool := scope_ok (specCtxFc c) && scope_ok (payloadFc c).
Definition data_stream_cls_ok (c : DataStreamCls) : bool :=
  scope_ok (pktCtxFc c) && scope_ok (eventRecordHeaderFc c) && scope_ok (commonEventRecordCtxFc c) && forallb event_record_cls_ok (eventRecordClasses c).
Definition trace_cls_ok (t : TraceCls) : bool := scope_ok (pktHeaderFc t) && forallb data_stream_cls_ok (dataStreamClasses t).

(** Induction on the classes, for those of the members of a structure and of the options of a
    variant too. *)
Section ind.
Context (P : Fc -> Prop).
Context (Hfixed : forall f, P (FixedLenFc f)) (Huint : forall roles keys, P (VarLenUIntFc roles keys)) (Hsint : forall keys, P (VarLenSIntFc keys)).
Context (Hnull : forall e, P (NullTerminatedStrFc e)) (Hstr : forall e n, P (StaticLenStrFc e n)) (Hdynstr : forall e i, P (DynLenStrFc e i)).
Context (Hblob : forall n u, P (StaticLenBlobFc n u)) (Hdynblob : forall i, P (DynLenBlobFc i)).
Context (Hstruct : forall ms a, Forall P ms -> P (StructFc ms a)).
Context (Harray : forall e n a u, P e -> P (StaticLenArrayFc e n a u)) (Hdynarray : forall e a i, P e -> P (DynLenArrayFc e a i)).
Context (Hopt : forall sel e r i, P e -> P (OptionalFc sel e r i)) (Hvar : forall sel opts i, Forall (fun o => P (fst o)) opts -> P (VariantFc sel opts i)).
Fixpoint Fc_nested_ind (fc : Fc) : P fc :=
  match fc with
  | FixedLenFc f => Hfixed f
  | VarLenUIntFc roles keys => Huint roles keys
  | VarLenSIntFc keys => Hsint keys
  | NullTerminatedStrFc e => Hnull e
  | StaticLenStrFc e n => Hstr e n
  | DynLenStrFc e i => Hdynstr e i
  | StaticLenBlobFc n u => Hblob n u
  | DynLenBlobFc i => Hdynblob i
  | StructFc ms a =>
    Hstruct ms a ((fix members ms : Forall P ms := match ms with [] => Forall_nil_2 _ | m :: ms => Forall_cons_2 _ m ms (Fc_nested_ind m) (members ms) end) ms)
  | StaticLenArrayFc e n a u => Harray e n a u (Fc_nested_ind e)
  | DynLenArrayFc e a i => Hdynarray e a i (Fc_nested_ind e)
  | OptionalFc sel e r i => Hopt sel e r i (Fc_nested_ind e)
  | VariantFc sel opts i =>
    Hvar sel opts i ((fix options opts : Forall (fun o => P (fst o)) opts :=
      match opts with [] => Forall_nil_2 _ | o :: opts => Forall_cons_2 _ o opts (match o as o return P (fst o) with (e, _) => Fc_nested_ind e end) (options opts) end) opts)
  end.
End ind.

(** * States of fields *)

(** The state in which a field begins, and the one in which a field with elements or data
    ends, with its item. *)
Definition begin_state (fc : Fc) : option State :=
  match deepType fc with
  | None => None
  | Some t =>
    Some match t with
         | FixedLenBitArrayT r => ReadFixedLenBitArrayField r
         | FixedLenBitMapT r => ReadFixedLenBitMapField r
         | FixedLenBoolT r save => ReadFixedLenBoolField r save
         | FixedLenFloatT r isDouble => ReadFixedLenFloatField r isDouble
         | FixedLenUIntT r role save => ReadFixedLenUIntField r role save
         | FixedLenSIntT r save => ReadFixedLenSIntField r save
         | VarLenUIntT role save => ReadVarLenUIntField role save
         | VarLenSIntT save => ReadVarLenSIntField save
         | NullTerminatedStrUtf8T => BeginReadNullTerminatedStrFieldUtf8
         | NullTerminatedStrUtf16T => BeginReadNullTerminatedStrFieldUtf16
         | NullTerminatedStrUtf32T => BeginReadNullTerminatedStrFieldUtf32
         | StaticLenStrT => BeginReadStaticLenStrField
         | DynLenStrT => BeginReadDynLenStrField
         | StaticLenBlobT => BeginReadStaticLenBlobField
         | StaticLenBlobWithMetadataStreamUuidRoleT => BeginReadStaticLenBlobFieldMetadataStreamUuid
         | DynLenBlobT => BeginReadDynLenBlobField
         | StructT => BeginReadStructField
         | StaticLenArrayT => BeginReadStaticLenArrayField
         | StaticLenArrayWithMetadataStreamUuidRoleT => BeginReadStaticLenArrayFieldMetadataStreamUuid
         | DynLenArrayT => BeginReadDynLenArrayField
         | OptionalT sel => BeginReadOptionalField sel
         | VariantT sel => BeginReadVariantField sel
         end
  end.
Definition end_state (fc : Fc) : State :=
  match fc with
  | NullTerminatedStrFc _ => EndReadNullTerminatedStrField
  | StaticLenStrFc _ _ => EndReadStaticLenStrField
  | DynLenStrFc _ _ => EndReadDynLenStrField
  | StaticLenBlobFc _ _ => EndReadStaticLenBlobField
  | DynLenBlobFc _ => EndReadDynLenBlobField
  | StructFc _ _ => EndReadStructField
  | StaticLenArrayFc _ _ _ _ => EndReadStaticLenArrayField
  | DynLenArrayFc _ _ _ => EndReadDynLenArrayField
  | OptionalFc sel _ _ _ => EndReadOptionalField sel
  | VariantFc sel _ _ => EndReadVariantField sel
  | _ => Done
  end.
Definition end_item (fc : Fc) : Item :=
  match fc with
  | StaticLenStrFc _ _ => StaticLenStrFieldEndItem fc
  | DynLenStrFc _ _ => DynLenStrFieldEndItem fc
  | StaticLenBlobFc _ _ => StaticLenBlobFieldEndItem fc
  | DynLenBlobFc _ => DynLenBlobFieldEndItem fc
  | StructFc _ _ => StructFieldEndItem fc
  | StaticLenArrayFc _ _ _ _ => StaticLenArrayFieldEndItem fc
  | DynLenArrayFc _ _ _ => DynLenArrayFieldEndItem fc
  | OptionalFc sel _ _ _ => OptionalFieldEndItem sel fc
  | VariantFc sel _ _ => VariantFieldEndItem sel fc
  | _ => NullTerminatedStrFieldEndItem fc
  end.
Definition substr_state (u : Utf) : State :=
  match u with
  | Utf8Units => ReadSubstrUntilNullCodepointUtf8
  | Utf16Units => ReadSubstrUntilNullCodepointUtf16
  | Utf32Units => ReadSubstrUntilNullCodepointUtf32
  end.

Section denotation.
Context (tc : TraceCls) (data : list Z).
Let n0 := enough data.

(** * What remains to decode *)

(** After a scope; [h] is the offset of the head at the beginning of the event record. *)
Inductive scope_rest (h : Z) : Scope -> rest -> Prop :=
| rest_PktHeader kp : scope_rest h PktHeader (ds_info tc data n0 (packets tc data n0 kp))
| rest_PktCtx kp : scope_rest h PktCtx (pkt_info data n0 (packets tc data n0 kp))
| rest_EventRecordHeader kr kp : scope_rest h EventRecordHeader (er_info data h (records data kr (content_end data (packets tc data n0 kp))))
| rest_CommonEventRecordCtx kr kp : scope_rest h CommonEventRecordCtx (er_spec_ctx data h (records data kr (content_end data (packets tc data n0 kp))))
| rest_SpecEventRecordCtx kr kp : scope_rest h SpecEventRecordCtx (er_payload data h (records data kr (content_end data (packets tc data n0 kp))))
| rest_EventRecordPayload kr kp : scope_rest h EventRecordPayload (er_end h (records data kr (content_end data (packets tc data n0 kp)))).

(** After an element of a field, the one at the index [i] of [n]. *)
Definition next_elems (fc : Fc) (i n : Z) (k : rest) : rest :=
  match fc with
  | StructFc ms _ => fold_right (field data) k (drop (S (Z.to_nat i)) ms)
  | StaticLenArrayFc e _ _ _ | DynLenArrayFc e _ _ => Nat.iter (Z.to_nat (n - i - 1)) (field data e) k
  | _ => k
  end.
Definition elem_index_ok (fc : Fc) (i n : Z) : Prop :=
  0 <= i < n /\
  match fc with
  | StructFc ms _ => n = Z.of_nat (length ms)
  | StaticLenArrayFc _ _ _ _ | DynLenArrayFc _ _ _ => True
  | OptionalFc _ _ _ _ | VariantFc _ _ _ => n = 1
  | _ => False
  end.
(** After an element of the field of the top frame. *)
Inductive stacked (h : Z) : list StackFrame -> rest -> Prop :=
| stacked_scope sc fs k : scope_rest h sc k -> stacked h (StackFrameOf (EndReadScope sc) None 0 1 :: fs) (emit (ScopeEndItem sc) k)
| stacked_field fc i n fs k :
    fc_ok fc = true -> elem_index_ok fc i n -> stacked h fs k ->
    stacked h (StackFrameOf (end_state fc) (Some fc) i n :: fs) (next_elems fc i n (emit (end_item fc) k)).

(** The field which follows one of the class [fc] in the field of the top frame does not
    change the class of the last scalar field. *)
Definition late_ok (fs : list StackFrame) (fc : Fc) : Prop :=
  late_key fc = true ->
  match fs with
  | StackFrameOf _ (Some (StructFc ms _)) i _ :: _ => forall m, ms !! S (Z.to_nat i) = Some m -> is_scalar m = false
  | StackFrameOf _ (Some (StaticLenArrayFc e _ _ _)) _ _ :: _ | StackFrameOf _ (Some (DynLenArrayFc e _ _)) _ _ :: _ => e = fc
  | _ => True
  end.

(** In a state where nothing of a variable-length integer was read ([no_var]). *)
Inductive denotes_at (c : Control) (p : Point) : rest -> Prop :=
| at_Init kp : mState c = Init -> at_head p = 0 -> denotes_at c p (packets tc data n0 kp)
| at_TryBeginReadPkt kp : mState c = TryBeginReadPkt -> at_head p = 0 -> denotes_at c p (packets tc data n0 kp)
| at_BeginReadPktContent k :
    mState c = BeginReadPktContent -> scope_rest 0 PktHeader k ->
    denotes_at c p (emit PktContentBeginItem (scope_field data PktHeader (pktHeaderFc tc) k))
| at_EndReadPktContent kp : mState c = EndReadPktContent -> denotes_at c p (content_end data (packets tc data n0 kp))
| at_EndReadPkt kp :
    mState c = EndReadPkt -> expectedTotal (at_dec p) = infDataLen \/ expectedTotal (at_dec p) = at_head p ->
    denotes_at c p (next_packet (packets tc data n0 kp))
| at_TryBeginReadScope sc k :
    mState c = TryBeginReadScope sc -> scope_rest (curEventRecordHeadOffset c) sc k -> scope_ok (curScopeFc c) = true ->
    (curScopeFc c = None \/ exists fs, stack c = StackFrameOf (EndReadScope sc) None 0 1 :: fs) ->
    denotes_at c p (scope_field data sc (curScopeFc c) k)
| at_EndReadScope sc k :
    mState c = EndReadScope sc -> scope_rest (curEventRecordHeadOffset c) sc k -> denotes_at c p (emit (ScopeEndItem sc) k)
| at_SetDataStreamInfoItem k : mState c = SetDataStreamInfoItem -> scope_rest (curEventRecordHeadOffset c) PktHeader k -> denotes_at c p k
| at_SetPktInfoItem k : mState c = SetPktInfoItem -> scope_rest (curEventRecordHeadOffset c) PktCtx k -> denotes_at c p k
| at_SetEventRecordInfoItem k : mState c = SetEventRecordInfoItem -> scope_rest (curEventRecordHeadOffset c) EventRecordHeader k -> denotes_at c p k
| at_EndReadEventRecord k : mState c = EndReadEventRecord -> scope_rest (curEventRecordHeadOffset c) EventRecordPayload k -> denotes_at c p k
| at_TryBeginReadEventRecord kr kp : mState c = TryBeginReadEventRecord -> denotes_at c p (records data kr (content_end data (packets tc data n0 kp)))
| at_SetPktMagicNumberItem k :
    mState c = SetPktMagicNumberItem -> stacked (curEventRecordHeadOffset c) (stack c) k -> denotes_at c p (emit (PktMagicNumberItem (magicNumber c)) k)
| at_SetDefClkValItem k :
    mState c = SetDefClkValItem -> stacked (curEventRecordHeadOffset c) (stack c) k -> denotes_at c p (emit (DefClkValItem (defClkCycles c)) k)
| at_SetMetadataStreamUuidItem fc i n fs k :
    mState c = SetMetadataStreamUuidItem -> stack c = StackFrameOf (end_state fc) (Some fc) i n :: fs -> is_scalar fc = false ->
    stacked (curEventRecordHeadOffset c) fs k ->
    denotes_at c p (emit (MetadataStreamUuidItem (metadataStreamUuid c)) (emit (end_item fc) k))
| at_fixed f k :
    begin_state (FixedLenFc f) = Some (mState c) -> curScalarFc c = Some (FixedLenFc f) -> fixed_ok f = true ->
    stacked (curEventRecordHeadOffset c) (stack c) k -> late_ok (stack c) (FixedLenFc f) -> denotes_at c p (fixed_field data f k)
| at_begin fc fs k :
    is_scalar fc = false -> begin_state fc = Some (mState c) -> fc_ok fc = true ->
    stack c = StackFrameOf (end_state fc) (Some fc) 0 0 :: fs -> stacked (curEventRecordHeadOffset c) fs k -> denotes_at c p (field data fc k)
| at_end fc i n fs k :
    is_scalar fc = false -> mState c = end_state fc -> stack c = StackFrameOf (end_state fc) (Some fc) i n :: fs ->
    stacked (curEventRecordHeadOffset c) fs k -> denotes_at c p (emit (end_item fc) k)
| at_uuid_elem f fc i n fs k :
    mState c = ReadFixedLenMetadataStreamUuidByteUIntFieldBa8 -> curScalarFc c = Some (FixedLenFc f) -> uuid_elem_ok f = true ->
    is_scalar fc = false -> stack c = StackFrameOf (end_state fc) (Some fc) i n :: fs ->
    0 <= i < 16 -> length (curMetadataStreamUuid c) = 16%nat -> stacked (curEventRecordHeadOffset c) fs k ->
    denotes_at c p (uuid_elems data (Z.to_nat (16 - i)) f (take (Z.to_nat i) (curMetadataStreamUuid c))
                   (fun uuid => emit (MetadataStreamUuidItem uuid) (emit (end_item fc) k)))
| at_raw fc i n fs k :
    mState c = ReadRawData -> is_scalar fc = false -> stack c = StackFrameOf (end_state fc) (Some fc) i n :: fs -> 0 <= i < n -> n < 2 ^ 64 ->
    at_head p mod 8 = 0 -> stacked (curEventRecordHeadOffset c) fs k -> denotes_at c p (raw data (n - i) (fun _ => emit (end_item fc) k))
| at_uuid_blob fc i fs k :
    mState c = ReadMetadataStreamUuidBlobFieldSection -> is_scalar fc = false -> stack c = StackFrameOf (end_state fc) (Some fc) i 16 :: fs ->
    0 <= i < 16 -> at_head p mod 8 = 0 -> length (curMetadataStreamUuid c) = 16%nat -> stacked (curEventRecordHeadOffset c) fs k ->
    denotes_at c p (raw data (16 - i) (fun b => emit (MetadataStreamUuidItem (take (Z.to_nat i) (curMetadataStreamUuid c) ++ b)) (emit (end_item fc) k)))
| at_substr u fc i n fs k :
    mState c = substr_state u -> is_scalar fc = false -> stack c = StackFrameOf (end_state fc) (Some fc) i n :: fs -> at_head p mod 8 = 0 ->
    stacked (curEventRecordHeadOffset c) fs k -> denotes_at c p (null_terminated data u (nullCpFinder u c) (emit (end_item fc) k)).

(** In a state where a variable-length integer is read, of which [i] bytes were read. *)
Definition var_ok (c : Control) (p : Point) : Prop :=
  length (curMetadataStreamUuid c) = 16%nat /\ 0 <= varLenIntVal c < 2 ^ 64 /\
  exists i : nat, varLenIntLen c = 7 * Z.of_nat i /\ (i <= 9)%nat /\ (i = 0%nat \/ 8 * Z.of_nat i <= at_head p).
Inductive denotes_var (c : Control) (p : Point) : rest -> Prop :=
| var_uint roles keys k :
    mState c = ReadVarLenUIntField (has_role roles) (is_key keys) -> curScalarFc c = Some (VarLenUIntFc roles keys) ->
    fc_ok (VarLenUIntFc roles keys) = true -> var_ok c p -> stacked (curEventRecordHeadOffset c) (stack c) k ->
    denotes_var c p (aligned data 8 (var_len_uint data roles keys (varLenIntVal c) (varLenIntLen c) k))
| var_sint keys k :
    mState c = ReadVarLenSIntField (is_key keys) -> curScalarFc c = Some (VarLenSIntFc keys) ->
    var_ok c p -> stacked (curEventRecordHeadOffset c) (stack c) k ->
    denotes_var c p (aligned data 8 (var_len_sint data keys (varLenIntVal c) (varLenIntLen c) k)).

Definition no_var (c : Control) : Prop := length (curMetadataStreamUuid c) = 16%nat /\ varLenIntVal c = 0 /\ varLenIntLen c = 0.
Definition denotes_now (c : Control) (p : Point) (k : rest) : Prop := no_var c /\ denotes_at c p k \/ denotes_var c p k.

(** In any state in which there is something to do. *)
Inductive denotes (c : Control) (p : Point) : rest -> Prop :=
| denotes_state k : denotes_now c p k -> denotes c p k
| denotes_content_padding k :
    mState c = SkipContentPadding -> 0 <= remainingLenToSkip c < 2 ^ 64 -> skippable true (remainingLenToSkip c) p ->
    (forall p', at_head p + remainingLenToSkip c <= at_head p' -> denotes_now (with_mState (postSkipPaddingState c) c) p' k) -> denotes c p (skipping data true (remainingLenToSkip c) k)
| denotes_padding kp :
    mState c = SkipPadding -> no_var c -> postSkipPaddingState c = EndReadPkt -> 0 <= remainingLenToSkip c < 2 ^ 64 ->
    at_head p + remainingLenToSkip c = expectedTotal (at_dec p) ->
    denotes c p (skipping data false (remainingLenToSkip c) (next_packet (packets tc data n0 kp))).

Lemma denotes_now_skip_fields x y c p k :
  denotes_now c p k -> denotes_now (with_postSkipPaddingState x (with_remainingLenToSkip y c)) p k.
Proof.
  intros [[Hz Hd]|Hd]; [left; split; [exact Hz|]|right].
  - destruct Hd; try solve [econstructor; eassumption].
    + by refine (at_TryBeginReadScope (with_postSkipPaddingState x _) p sc k _ _ _ _).
    + by refine (at_SetPktMagicNumberItem (with_postSkipPaddingState x _) p k _ _).
    + by refine (at_SetDefClkValItem (with_postSkipPaddingState x _) p k _ _).
    + by refine (at_SetMetadataStreamUuidItem (with_postSkipPaddingState x _) p fc i n fs k _ _ _ _).
    + by refine (at_uuid_elem (with_postSkipPaddingState x _) p f fc i n fs k _ _ _ _ _ _ _ _).
    + by refine (at_uuid_blob (with_postSkipPaddingState x _) p fc i fs k _ _ _ _ _ _ _).
    + refine (at_substr (with_postSkipPaddingState x (with_remainingLenToSkip y c)) p u fc i n fs k _ _ _ _ _); done.
  - destruct Hd.
    + by refine (var_uint (with_postSkipPaddingState x _) p roles keys k _ _ _ _ _).
    + by refine (var_sint (with_postSkipPaddingState x _) p keys k _ _ _ _).
Qed.

End denotation.
