(* ===== verification/ItemStep.v ===== *)
(** The handlers of the states of the item sequence iterator follow what remains to decode. *)

From S2P Require Import Prelude Bitfield CtfIr ItemBits ItemBitsFacts ItemState ItemSeq ItemSpec ItemWp ItemSim.

Section steps.
Context {M : Type} `{Medium M} (debug : bool) (tc : TraceCls) (data : list Z) (again : bool) (I : M -> Prop).
Context `{!MediumServes data again I}.
Context (Hbytes : buf_wf 8 data) (Hsize : bits_of_data data <= 2 ^ 62).

Abbreviation denotes_now := (denotes_now tc data).
Abbreviation denotes := (denotes tc data).
Abbreviation stacked := (stacked tc data).
Abbreviation head_of := curEventRecordHeadOffset.

(** * Preparing the reading of a field *)

Lemma fc_ok_begin fc : fc_ok fc = true -> exists s, begin_state fc = Some s.
Proof.
  intros Hok. unfold begin_state. destruct fc as [f| | |e| | |n u| | |e n a u| | |]; simpl in *; try (by eexists).
  - destruct (fl_type f) eqn:Ht; try (by eexists). unfold fixed_ok in Hok. rewrite Ht in Hok.
    destruct (len f =? 32); [by eexists|]. destruct (len f =? 64); [by eexists|]. by rewrite !andb_false_r in Hok.
  - destruct e; by eexists.
Qed.

Definition begun (fc : Fc) (s : State) (c : Control) : Control :=
  with_mState s (if is_scalar fc then with_curScalarFc (Some fc) c else with_stack (StackFrameOf (end_state fc) (Some fc) 0 0 :: stack c) c).
Lemma prepareToReadField_eq fc s (it : ItemSeqIter M) :
  begin_state fc = Some s -> prepareToReadField fc it = (at_control (begun fc s (control it)) it, Ret tt).
Proof.
  unfold begin_state, prepareToReadField. destruct (deepType fc) as [t|] eqn:Ht; [|done]. intros [= <-].
  change (bind (of_option (Some t)) ?k it) with (k t it).
  destruct fc as [f| | |e| | |n u| | |e n a u| | |]; simpl in Ht; simplify_eq; try done.
  - destruct (fl_type f); repeat (case_match; simplify_eq); done.
  - by destruct e; simplify_eq.
  - by destruct u; simplify_eq.
  - by destruct u; simplify_eq.
Qed.

Lemma wp_prepareToReadField fc it (Q : unit -> ItemSeqIter M -> Prop) E k :
  fc_ok fc = true -> no_var (control it) -> stacked (head_of (control it)) (stack (control it)) k -> late_ok (stack (control it)) fc ->
  (forall c', (forall p, denotes_now c' p (field data fc k)) -> curScalarFc c' = (if is_scalar fc then Some fc else curScalarFc (control it)) ->
     Q tt (at_control c' it)) ->
  wp (prepareToReadField fc) it Q E.
Proof.
  intros Hok Hv Hst Hlate HQ. destruct (fc_ok_begin fc Hok) as [s Hs]. unfold wp. rewrite (prepareToReadField_eq fc s) by done.
  apply HQ; [|unfold begun; by destruct (is_scalar fc)]. intros p.
  destruct (is_scalar fc) eqn:Hsc.
  - destruct fc; try done.
    + left. split; [exact Hv|]. eapply at_fixed; done.
    + right. destruct Hv as (Hu & Hv & Hl). unfold begin_state in Hs. simpl in Hs. simplify_eq.
      pose proof (var_uint tc data (begun (VarLenUIntFc roles keyValSavingIndexes) (ReadVarLenUIntField (has_role roles) (is_key keyValSavingIndexes)) (control it)) p
        roles keyValSavingIndexes k eq_refl eq_refl Hok) as Hd.
      unfold begun in Hd; simpl in Hd. rewrite Hv, Hl in Hd. apply Hd; [|done].
      split; [exact Hu|]. split; simpl; [lia|]. exists 0%nat. simpl. by split_and!; [lia|lia|left].
    + right. destruct Hv as (Hu & Hv & Hl). unfold begin_state in Hs. simpl in Hs. simplify_eq.
      pose proof (var_sint tc data (begun (VarLenSIntFc keyValSavingIndexes) (ReadVarLenSIntField (is_key keyValSavingIndexes)) (control it)) p
        keyValSavingIndexes k eq_refl eq_refl) as Hd.
      unfold begun in Hd; simpl in Hd. rewrite Hv, Hl in Hd. apply Hd; [|done].
      split; [exact Hu|]. split; simpl; [lia|]. exists 0%nat. simpl. by split_and!; [lia|lia|left].
  - left. split; [unfold begun; rewrite Hsc; exact Hv|]. eapply at_begin; [done|unfold begun; by rewrite Hsc|done|unfold begun; by rewrite Hsc|].
    unfold begun. rewrite Hsc. exact Hst.
Qed.

Lemma late_keys_ok_lookup ms i m m' :
  late_keys_ok ms = true -> ms !! i = Some m -> ms !! S i = Some m' -> late_key m = true -> is_scalar m' = false.
Proof.
  revert i. induction ms as [|m1 [|m2 ms] IH]; intros i Hok Hm Hm' Hl; [done|by destruct i|].
  simpl in Hok. apply andb_true_iff in Hok as [H1 H2]. destruct i as [|i]; [|by eapply IH].
  simpl in Hm, Hm'. simplify_eq. rewrite Hl in H1. by destruct (is_scalar m').
Qed.

Lemma wp_prepareToReadNextField it (Q : unit -> ItemSeqIter M -> Prop) E k :
  no_var (control it) -> stacked (head_of (control it)) (stack (control it)) k ->
  (forall c', (forall p, denotes_now c' p k) ->
     (forall fc, curScalarFc (control it) = Some fc -> late_key fc = true -> late_ok (stack (control it)) fc -> curScalarFc c' = Some fc) ->
     Q tt (at_control c' it)) ->
  wp prepareToReadNextField it Q E.
Proof.
  intros Hv Hst HQ. destruct it as [w c d ci off]. simpl in *. destruct (stack c) as [|f fs] eqn:Hs; [by inversion Hst|].
  eapply wp_bind, wp_stackTop; [exact Hs|]. eapply wp_bind, wp_set_stackTop; [exact Hs|].
  inversion Hst as [sc fs' k' Hsc|fc i n fs' k' Hok [Hi Hfc] Hst']; subst; cbn [with_elemIndex elemIndex frameLen frameFc restoringState].
  - apply wp_set_state. apply HQ; [|done]. intros p. left. split; [exact Hv|]. by eapply at_EndReadScope.
  - destruct (Z.eqb_spec (i + 1) n) as [Hlast|Hmore].
    + apply wp_set_state. apply HQ; [|done]. intros p. left. split; [exact Hv|].
      replace (next_elems data fc i n (emit (end_item fc) k')) with (emit (end_item fc) k').
      * eapply at_end; try done. by destruct fc.
      * destruct fc; simpl; try done.
        -- subst n. by rewrite drop_ge by lia.
        -- by replace (n - i - 1) with 0 by lia.
        -- by replace (n - i - 1) with 0 by lia.
    + eapply wp_bind, wp_of_option; [done|].
      assert (Hel : forall e k2 (Hoke : fc_ok e = true),
                stacked (head_of c) (StackFrameOf (end_state fc) (Some fc) (i + 1) n :: fs) k2 ->
                next_elems data fc i n (emit (end_item fc) k') = field data e k2 ->
                late_ok (StackFrameOf (end_state fc) (Some fc) (i + 1) n :: fs) e ->
                (forall f, late_key f = true -> late_ok (StackFrameOf (end_state fc) (Some fc) i n :: fs) f -> is_scalar e = true -> e = f) ->
                wp (prepareToReadField e) (ItemSeqIterOf w (with_stack (StackFrameOf (end_state fc) (Some fc) (i + 1) n :: fs) c) d ci off) Q E).
      { intros e k2 Hoke Hst2 Heq Hl1 Hl2. apply (wp_prepareToReadField e _ _ _ k2); try done. intros c' Hden Hcur.
        simpl in *. apply HQ; [by rewrite Heq|]. intros f Hf Hlf Hlo. rewrite Hcur. destruct (is_scalar e) eqn:He; [|done].
        f_equal. by apply Hl2. }
      destruct fc as [| | | | | | | |ms a|e m a u|e a ix|sel e rg ix|sel opts ix]; try done; try lia.
      * subst n. assert (Hok' := Hok). simpl in Hok. rewrite !andb_true_iff in Hok. destruct Hok as [[_ Hk] Hms]. rewrite forallb_forall in Hms.
        destruct (lookup_lt_is_Some_2 ms (S (Z.to_nat i))) as [e He]; [lia|].
        eapply wp_bind, wp_of_option; [replace (Z.to_nat (i + 1)) with (S (Z.to_nat i)) by lia; exact He|].
        assert (Hdrop : drop (S (Z.to_nat i)) ms = e :: drop (S (S (Z.to_nat i))) ms) by (by apply drop_S).
        apply (Hel e (fold_right (field data) (emit (end_item (StructFc ms a)) k') (drop (S (S (Z.to_nat i))) ms))).
        -- apply Hms, list_elem_of_In. by eapply list_elem_of_lookup_2.
        -- replace (S (S (Z.to_nat i))) with (S (Z.to_nat (i + 1))) by lia.
           apply (ItemSim.stacked_field tc data _ (StructFc ms a) (i + 1) (Z.of_nat (length ms))); try done.
           split; [lia|done].
        -- simpl. by rewrite Hdrop.
        -- intros Hle m Hm. replace (Z.to_nat (i + 1)) with (S (Z.to_nat i)) in Hm by lia. by apply (late_keys_ok_lookup ms (S (Z.to_nat i)) e m).
        -- intros f Hlf Hlo Hsc. specialize (Hlo Hlf e He). congruence.
      * assert (Hoke : fc_ok e = true) by (simpl in Hok; rewrite !andb_true_iff in Hok; tauto).
        apply (Hel e (next_elems data (StaticLenArrayFc e m a u) (i + 1) n (emit (end_item (StaticLenArrayFc e m a u)) k'))); try done.
        -- by apply (ItemSim.stacked_field tc data); [|split; [lia|]|].
        -- simpl. by replace (Z.to_nat (n - i - 1)) with (S (Z.to_nat (n - (i + 1) - 1))) by lia.
        -- intros f Hf Hlo _. by apply Hlo.
      * assert (Hoke : fc_ok e = true) by (simpl in Hok; rewrite !andb_true_iff in Hok; tauto).
        apply (Hel e (next_elems data (DynLenArrayFc e a ix) (i + 1) n (emit (end_item (DynLenArrayFc e a ix)) k'))); try done.
        -- by apply (ItemSim.stacked_field tc data); [|split; [lia|]|].
        -- simpl. by replace (Z.to_nat (n - i - 1)) with (S (Z.to_nat (n - (i + 1) - 1))) by lia.
        -- intros f Hf Hlo _. by apply Hlo.
Qed.


(** * Reading a fixed-length integer *)

Definition dec_ok (d : Decoded) : Prop :=
  (0 <= expectedTotal d < 2 ^ 64) /\ (0 <= expectedContent d < 2 ^ 64) /\ Forall (fun v => 0 <= v < 2 ^ 64) (savedKeyVals d) /\
  (forall c, dataStreamCls d = Some c -> data_stream_cls_ok c = true) /\ (forall c, eventRecordCls d = Some c -> event_record_cls_ok c = true).

Lemma save_range keys v l :
  Forall (fun v => 0 <= v < 2 ^ 64) l -> Forall (fun v => 0 <= v < 2 ^ 64) (fold_left (fun l i => <[i := wrapu 64 v]> l) keys l).
Proof.
  revert l. induction keys as [|i keys IH]; intros l Hl; [done|]. simpl. apply IH, Forall_insert; [done|]. apply wrapu_range. lia.
Qed.

(** The reading [r] is one for the class [f]. *)
Definition reads_as (r : Reading) (f : FixedLenBitArrayFc) : bool :=
  ((lenBits r =? 0) || ((lenBits r =? len f) && (len f mod 8 =? 0) && (fl_align f mod 8 =? 0))) &&
  (((len f =? 8) && (8 <=? fl_align f)) || bool_decide (byteOrder f = readByteOrder r)).

Lemma pow2_pos a : pow2 a = true -> 0 < a.
Proof. unfold pow2. rewrite !andb_true_iff, Z.ltb_lt. tauto. Qed.
Lemma pow2_8 a : pow2 a = true -> 8 <= a -> a mod 8 = 0.
Proof.
  unfold pow2. rewrite !andb_true_iff, Z.eqb_eq. intros [[_ Ha] _] H8.
  assert (3 <= Z.log2 a) by (change 3 with (Z.log2 8); by apply Z.log2_le_mono).
  rewrite Ha. replace (Z.log2 a) with (Z.log2 a - 3 + 3) by lia. rewrite Z.pow_add_r by lia. apply Z.mod_mul. lia.
Qed.
Lemma fixed_ok_inv f : fixed_ok f = true -> pow2 (fl_align f) = true /\ 0 < len f <= 64.
Proof. unfold fixed_ok. rewrite !andb_true_iff, Z.ltb_lt, Z.leb_le. tauto. Qed.
Lemma reading_of_reads f : fixed_ok f = true -> reads_as (reading_of f) f = true.
Proof.
  intros Hf. apply fixed_ok_inv in Hf as [Ha Hl]. apply pow2_pos in Ha. unfold reads_as, reading_of, isStdBitArrayFc.
  destruct (Z.eqb_spec (fl_align f mod 8) 0) as [H8|]; simpl; [|by rewrite bool_decide_true, orb_true_r].
  assert (8 <= fl_align f) by div_lia.
  destruct (Z.eqb_spec (len f) 8) as [->|]; simpl; [by rewrite (proj2 (Z.leb_le 8 _))|].
  destruct (Z.eqb_spec (len f) 16) as [->|]; simpl; [by rewrite bool_decide_true|].
  destruct (Z.eqb_spec (len f) 32) as [->|]; simpl; [by rewrite bool_decide_true|].
  destruct (Z.eqb_spec (len f) 64) as [->|]; simpl; by rewrite bool_decide_true.
Qed.
Lemma uuid_elem_reads f : uuid_elem_ok f = true -> fixed_ok f = true /\ reads_as (ReadingOf 8 Big Natural) f = true.
Proof.
  unfold uuid_elem_ok. rewrite !andb_true_iff, Z.eqb_eq, Z.leb_le. intros [[Hf Hl] Ha]. split; [done|].
  pose proof (proj1 (fixed_ok_inv f Hf)) as Hp. unfold reads_as. simpl. rewrite Hl, (pow2_8 _ Hp Ha), (proj2 (Z.leb_le _ _)) by lia. done.
Qed.

Lemma padding_aligned p a n : 0 < a -> a mod n = 0 -> 0 < n -> (at_head p + padding p a) mod n = 0.
Proof.
  intros Ha Hn Hn0. unfold padding. replace (at_head p + ((at_head p + a - 1) / a * a - at_head p)) with ((at_head p + a - 1) / a * a) by lia.
  apply Z.mod_divide; [lia|]. apply Z.divide_mul_r. by apply Z.mod_divide; [lia|].
Qed.

Lemma reads_ok r f h :
  fixed_ok f = true -> reads_as r f = true -> (lenBits r <> 0 -> h mod fl_align f = 0) -> reading_ok r (h mod 8) (len f).
Proof.
  intros Hf Hr Hal. apply fixed_ok_inv in Hf as [Ha Hlen]. pose proof (pow2_pos _ Ha) as Hpos.
  split; [lia|]. split; [apply Z.mod_pos_bound; lia|]. unfold reads_as in Hr.
  rewrite andb_true_iff, orb_true_iff, !andb_true_iff, !Z.eqb_eq in Hr. destruct Hr as [[Hz|[[Hn H8] Ha8]] _]; [by left|right].
  split; [done|]. split; [|done]. assert (Hz : h mod fl_align f = 0) by (apply Hal; lia).
  apply Z.mod_divide in Hz; [|lia]. apply Z.mod_divide in Ha8; [|lia]. apply Z.mod_divide; [lia|]. by etransitivity.
Qed.

(** The value of a field whose bits are in the buffer. *)
Lemma read_in_buffer signed r f p b tail :
  fixed_ok f = true -> reads_as r f = true -> bytes_at data p = b ++ tail -> at_head p mod 8 + len f <= 8 * Z.of_nat (length b) ->
  (lenBits r <> 0 -> at_head p mod fl_align f = 0) ->
  exists v, ReadFixedLenIntFunc signed r b (at_head p mod 8) (len f) = Some v /\
            ReadFixedLenIntFunc signed r (bytes_at data p) (at_head p mod 8) (len f) = Some v /\ (signed = false -> 0 <= v < 2 ^ 64).
Proof.
  intros Hf Hr Hb Hl Hal. pose proof (reads_ok r f (at_head p) Hf Hr Hal) as Hok. apply fixed_ok_inv in Hf as [Ha Hlen].
  assert (Hwf : buf_wf 8 (b ++ tail)) by (rewrite <- Hb; by apply Forall_drop).
  assert (Hmem : 8 * (Z.of_nat (length (b ++ tail)) + 1) <= 2 ^ 64).
  { rewrite <- Hb. unfold bytes_at. rewrite length_drop. unfold bits_of_data in Hsize. lia. }
  destruct (ReadFixedLenIntFunc_bits signed r b tail (at_head p mod 8) (len f) Hwf Hmem Hok Hl) as (v & Hv & Hbits).
  assert (Hwfb : buf_wf 8 b) by (by apply Forall_app in Hwf as [? _]).
  destruct (ReadFixedLenIntFunc_bits signed r b [] (at_head p mod 8) (len f)) as (v' & Hv' & Hbits'); rewrite ?app_nil_r; try done.
  { rewrite length_app in Hmem. lia. }
  rewrite app_nil_r in Hv'. exists v. rewrite Hb. rewrite (int_bits_inj _ _ _ _ _ Hbits' Hbits) in Hv'. split_and!; [done|done|].
  intros ->. by eapply int_bits_range.
Qed.

Definition byte_order_clash (r : Reading) (f : FixedLenBitArrayFc) (p : Point) : bool :=
  (lenBits r =? 0) && negb (at_head p mod 8 =? 0) &&
  bool_decide (lastByteOrder (at_dec p) = Some (match byteOrder f with Big => Little | Little => Big end)).
Lemma wp_check_byte_order r f it (Q : unit -> ItemSeqIter M -> Prop) (E : exn -> ItemSeqIter M -> Prop) :
  (byte_order_clash r f (point it) = false -> Q tt it) -> (byte_order_clash r f (point it) = true -> E Error it) ->
  wp (if lenBits r =? 0 then checkLastFixedLenBitArrayFieldByteOrder f else ret tt) it Q E.
Proof.
  unfold byte_order_clash. intros HT HF. destruct (lenBits r =? 0); [|by apply wp_ret, HT]. simpl in *.
  unfold checkLastFixedLenBitArrayFieldByteOrder. apply wp_bind, wp_gets, wp_bind, wp_gets.
  destruct (lastByteOrder (decoded it)) as [o|]; [|apply wp_ret, HT; by rewrite bool_decide_false, andb_false_r].
  destruct (headOffsetInCurPkt (window it) mod 8 =? 0); simpl in *; [by apply wp_ret, HT|].
  destruct (byteOrder f), o; simpl in *; first [by apply wp_throw, HF | by apply wp_ret, HT].
Qed.

Lemma resumes_at_aligned it a k r w x y n :
  win_ok data I w -> 0 < a -> n = padding (point it) a -> head_plus n (window it) w -> k (advance n (point it)) = r ->
  resumes data I it (aligned data a k) r (at_window w (at_control (with_postSkipPaddingState x (with_remainingLenToSkip y (control it))) it)).
Proof.
  intros Hw Ha -> Hp Hk. exists w. eexists. split; [reflexivity|]. split; [done|].
  split; [exists (padding (point it) a); split; [apply padding_range; lia|done]|]. left. split; [by eexists _, _|].
  rewrite (point_head_plus _ _ _ _ Hp). fold (point it). by rewrite aligned_advance.
Qed.

Definition with_window (w : Window M) (d : Decoded) (it : ItemSeqIter M) : ItemSeqIter M :=
  ItemSeqIterOf w (control it) d (curItem it) (curItemOffsetInItemSeq it).

Lemma wp_readFixedLenIntField signed r f it (Q : Z -> ItemSeqIter M -> Prop) (E : exn -> ItemSeqIter M -> Prop) kk res :
  win_ok data I (window it) -> expectedContent (decoded it) < 2 ^ 64 -> fixed_ok f = true -> reads_as r f = true ->
  fixed data signed r f kk (point it) = res -> ok res ->
  (forall v w x y n, win_ok data I w -> 0 <= n -> head_plus n (window it) w -> (signed = false -> 0 <= v < 2 ^ 64) ->
     let d := with_lastByteOrder (Some (byteOrder f)) (decoded it) in kk v (point_of w d) = res ->
     Q v (with_window w d (at_control (with_postSkipPaddingState x (with_remainingLenToSkip y (control it))) it))) ->
  (res = ([], Failed) -> forall it', E Error it') ->
  (forall it', again = true -> resumes data I it (fixed data signed r f kk) res it' -> E TryAgain it') ->
  wp (readFixedLenIntField debug signed r f) it Q E.
Proof.
  intros Hw Hb Hf Hr Hd Hok HT HF HA. destruct (fixed_ok_inv f Hf) as [Ha Hl]. pose proof (pow2_pos _ Ha) as Hpos.
  assert (Hr' := Hr). unfold reads_as in Hr'. rewrite andb_true_iff, orb_true_iff, !andb_true_iff in Hr'. destruct Hr' as [Hr1 Hr2].
  apply wp_bind, wp_assert; [rewrite orb_true_iff, (Z.eqb_sym (len f)); tauto|].
  apply wp_bind, wp_assert.
  { apply orb_true_iff. destruct Hr1 as [Hz|[_ Ha8%Z.eqb_eq]]; [by left|right]. apply Z.leb_le. div_lia. }
  apply wp_bind, wp_assert; [done|].
  set (n := padding (point it) (fl_align f)).
  unfold fixed in Hd. eapply wp_bind, wp_alignHead; try done. intros w x y Hw1 Hplus Hk. fold n in Hplus, Hk.
  set (it1 := at_window w _). assert (Hp1 : point it1 = advance n (point it)) by (by apply point_head_plus).
  assert (Hres : forall w', win_ok data I w' -> same_head w w' -> again = true ->
            E TryAgain (at_window w' it1)).
  { intros w' Hw' Hs Hag. apply HA; [done|]. apply (resumes_at_aligned it (fl_align f) _ _ w' x y n); try done.
    replace n with (n + 0) by lia. eapply head_plus_trans; [done|by apply head_plus_0]. }
  rewrite <- Hp1 in Hk. eapply wp_bind, wp_require_demand; try done; [lia| |].
  2: { intros w' Hag Hw' Hs. by apply Hres. }
  intros w' Hw' Hsame Hbuf Hcont Hk'. simpl in Hsame.
  set (it2 := at_window w' it1). assert (Hp2 : point it2 = point it1) by (by apply point_same_head).
  rewrite <- Hp2 in Hk'. apply wp_bind, wp_check_byte_order; fold (byte_order_clash r f (point it2)) in Hk'.
  2: { intros Hc. rewrite Hc in Hk'. by apply HF. }
  intros Hc. rewrite Hc in Hk'. eapply wp_bind, wp_bufAtHead; [done..|]. intros b tail Hbytes' Hlen.
  apply wp_bind, wp_gets. simpl in Hlen.
  destruct (read_in_buffer signed r f (point it2) b tail) as (v & Hv & Hv' & Hrange); try done.
  { simpl. simpl in Hbuf. lia. }
  { intros Hnz. rewrite Hp2, Hp1. apply (padding_aligned (point it) (fl_align f) (fl_align f)); [lia|apply Z_mod_same_full|lia]. }
  eapply wp_bind, wp_of_option; [exact Hv|]. rewrite Hv' in Hk'. apply wp_bind, wp_modify_decoded.
  eapply wp_bind, wp_consumeAvailData; [done..|simpl in Hbuf |- *; lia|]. apply wp_ret.
  apply (HT v (w_advance (len f) w') x y (n + len f)).
  - apply win_ok_advance; [done|simpl in Hbuf; lia].
  - pose proof (padding_range (point it) (fl_align f) Hpos). lia.
  - eapply head_plus_trans; [exact Hplus|]. by apply head_plus_advance.
  - done.
  - rewrite <- Hk'. f_equal.
Qed.
End steps.
