(* ===== verification/ItemFollow.v ===== *)
(** Each state of the item sequence iterator that reads a field follows what remains to
    decode. *)

From S2P Require Import Prelude Bitfield CtfIr ItemBits ItemBitsFacts ItemState ItemSeq ItemSpec ItemWp ItemSim ItemStep.

(** Getting the item [i], the head going from a position to another: what remained is the
    item and what remains; or the item is some of the data of the item, before the rest of it
    or before a failure. *)
Inductive delivers1 (i : Item) (p p' : Z) : result -> result -> Prop :=
| delivers_whole l st : delivers1 i p p' (i :: l, st) (l, st)
| delivers_part c t l st :
    i = RawDataItem c -> c <> [] -> t <> [] -> delivers1 i p p' (RawDataItem (c ++ t) :: l, st) (RawDataItem t :: l, st)
| delivers_before_failure c : i = RawDataItem c -> p < p' -> delivers1 i p p' ([], Failed) ([], Failed).

(** How many states that give no item may follow. *)
Definition rank (s : State) : nat :=
  match s with
  | SkipContentPadding => 4
  | TryBeginReadScope CommonEventRecordCtx => 3
  | TryBeginReadScope SpecEventRecordCtx => 2
  | TryBeginReadScope _ | Init | SkipPadding | TryBeginReadEventRecord => 1
  | _ => 0
  end.

Section follow.
Context {M : Type} `{Medium M} (debug : bool) (tc : TraceCls) (data : list Z) (again : bool) (I : M -> Prop).
Context `{!MediumServes data again I}.
Context (Hbytes : buf_wf 8 data) (Hsize : bits_of_data data <= 2 ^ 62).

Abbreviation denotes_now := (denotes_now tc data).
Abbreviation denotes := (denotes tc data).
Abbreviation stacked := (stacked tc data).
Abbreviation head_of := curEventRecordHeadOffset.

Definition inv (it : ItemSeqIter M) : Prop := win_ok data I (window it) /\ dec_ok (decoded it).
Definition continues (r : result) (it : ItemSeqIter M) : Prop := inv it /\ exists k, denotes (control it) (point it) k /\ k (point it) = r.

(** After handling the state [s], from the position [p], where [r] remained to decode. *)
Definition post (r : result) (p : Z) (s : State) (more : bool) (it : ItemSeqIter M) : Prop :=
  p <= pos (point it) /\
  if more then continues r it /\ (rank (mState (control it)) < rank s)%nat
  else match curItem it with
       | None => r = ([], Finished)
       | Some i => exists r', delivers1 i p (pos (point it)) r r' /\ continues r' it
       end.
Definition post_throw (r : result) (p : Z) (e : exn) (it : ItemSeqIter M) : Prop :=
  match e with
  | Error => r = ([], Failed)
  | TryAgain =>
    again = true /\ p <= pos (point it) /\
    (continues r it \/ exists l st, r = (PktContentEndItem :: l, st) /\ continues (l, st) it)
  end.

Lemma emit_eq i k p : emit i k p = (i :: fst (k p), snd (k p)).
Proof. unfold emit. by destruct (k p). Qed.
Lemma ok_emit i k p : ok (emit i k p) -> ok (k p).
Proof. unfold emit. by destruct (k p). Qed.

Lemma post_item i k r p s it :
  inv it -> p <= pos (point it) -> curItem it = Some i -> denotes (control it) (point it) k -> emit i k (point it) = r ->
  post r p s false it.
Proof.
  intros Hi Hp Hc Hd <-. split; [done|]. rewrite Hc. exists (k (point it)). split; [|by split; [|exists k]].
  rewrite emit_eq. destruct (k (point it)) as [l st]. constructor.
Qed.
Lemma post_resumes it k r s it' :
  dec_ok (decoded it) -> (forall p, at_head (point it) <= at_head p -> denotes_now (control it) p k) -> resumes data I it k r it' -> again = true ->
  s <= pos (point it) -> post_throw r s TryAgain it'.
Proof.
  intros Hdec Hden (w & c & -> & Hw & (j & Hj & Hplus) & Hc) Hag Hs. split; [done|].
  assert (Hpos : pos (point (at_window w (at_control c it))) = pos (point it) + j).
  { unfold point. simpl. rewrite (point_head_plus _ _ _ _ Hplus). apply pos_advance. }
  split; [lia|]. left. split; [by split|]. destruct Hc as [[(x & y & ->) Hk]|(n & -> & Hn & Hskip & Hk)].
  - exists k. split; [|done]. apply denotes_state, denotes_now_skip_fields, Hden. destruct Hplus as [_ Hh]. simpl. lia.
  - eexists. split; [|exact Hk].
    apply (denotes_content_padding tc data (skipping_to true n (mState (control it)) (control it))); try done.
    intros p' Hp'. replace (with_mState _ _) with (with_postSkipPaddingState (mState (control it)) (with_remainingLenToSkip n (control it)))
      by (by destruct (control it)).
    apply denotes_now_skip_fields, Hden. destruct Hplus as [_ Hh]. simpl in *. lia.
Qed.

(** * Fixed-length integers *)

Lemma dec_ok_byte_order d o : dec_ok d -> dec_ok (with_lastByteOrder o d).
Proof. done. Qed.

(** Reading a field of fixed length and giving its item, before [kk]. *)
Lemma wp_read_fixed signed r f (item : Fc -> Z -> Item) it (Q : FixedLenBitArrayFc * Z -> ItemSeqIter M -> Prop) E kk res :
  inv it -> curScalarFc (control it) = Some (FixedLenFc f) -> fixed_ok f = true -> reads_as r f = true ->
  fixed data signed r f kk (point it) = res -> ok res ->
  (forall v it', inv it' -> pos (point it) <= pos (point it') -> curItem it' = Some (item (FixedLenFc f) v) -> (signed = false -> 0 <= v < 2 ^ 64) ->
     (exists x y, control it' = with_postSkipPaddingState x (with_remainingLenToSkip y (control it))) ->
     kk v (point it') = res -> Q (f, v) it') ->
  (res = ([], Failed) -> forall it', E Error it') ->
  (forall it', again = true -> resumes data I it (fixed data signed r f kk) res it' -> E TryAgain it') ->
  wp (handleCommonReadFixedLenIntFieldState debug signed r item) it Q E.
Proof.
  intros [Hw Hdec] Hcur Hf Hr Hd Hok HT HF HA. unfold handleCommonReadFixedLenIntFieldState.
  eapply wp_bind, wp_curScalarFc_get; [done|]. simpl.
  eapply wp_bind, wp_readFixedLenIntField; try done; [apply Hdec|].
  intros v w x y n Hw' Hn Hplus Hv d Hk. eapply wp_bind, wp_updateForUser; [done..|]. intros o. apply wp_ret.
  assert (Hpos : pos (point_of w d) = pos (point it) + n).
  { rewrite (point_head_plus _ _ _ d Hplus), pos_advance. done. }
  apply HT; try done; [unfold point at 2; simpl; lia|by eexists _, _].
Qed.

(** * Saving values and handling roles *)

Lemma saved_ok keys v k p : ok (saved keys v k p) ->
  forallb (fun i => bool_decide (i < length (savedKeyVals (at_dec p)))%nat) keys = true.
Proof. unfold saved. intros [Hok _]. by destruct (forallb _ keys). Qed.
Definition save (keys : list nat) (v : Z) (d : Decoded) : Decoded :=
  with_savedKeyVals (fold_left (fun l i => <[i := wrapu 64 v]> l) keys (savedKeyVals d)) d.
Lemma saved_eq keys v k p :
  forallb (fun i => bool_decide (i < length (savedKeyVals (at_dec p)))%nat) keys = true -> saved keys v k p = k (on_dec (save keys v) p).
Proof. unfold saved. by intros ->. Qed.
Lemma saved_nil v k p : saved [] v k p = k p.
Proof. unfold saved. simpl. f_equal. by destruct p as [? ? []]. Qed.
Lemma wp_saveKeyVal keys v it (Q : unit -> ItemSeqIter M -> Prop) E :
  forallb (fun i => bool_decide (i < length (savedKeyVals (decoded it)))%nat) keys = true ->
  Q tt (with_window (window it) (save keys v (decoded it)) it) -> wp (saveKeyVal keys v) it Q E.
Proof. intros Hk HQ. unfold saveKeyVal. apply wp_bind, wp_gets. rewrite Hk. by apply wp_modify_decoded. Qed.
Lemma dec_ok_save keys v d : dec_ok d -> dec_ok (save keys v d).
Proof.
  intros (? & ? & Hs & ?). unfold dec_ok, save. simpl. split_and!; try tauto.
  by apply save_range.
Qed.

(** The value is saved if the class is one of keys. *)
Lemma wp_save_if keys v it (Q : unit -> ItemSeqIter M -> Prop) E k r p :
  p = point it -> saved keys v k p = r -> ok r -> dec_ok (decoded it) ->
  (forall d, dec_ok d -> k (point_of (window it) d) = r -> Q tt (with_window (window it) d it)) ->
  wp (if is_key keys then saveKeyVal keys v else ret tt) it Q E.
Proof.
  intros -> Hs Hok Hd HQ. unfold is_key. case_bool_decide as Hk.
  - rewrite <- Hs in Hok. pose proof (saved_ok _ _ _ _ Hok) as Hf. rewrite saved_eq in Hs by done.
    apply wp_saveKeyVal; [done|]. apply HQ; [by apply dec_ok_save|exact Hs].
  - subst keys. rewrite saved_nil in Hs. apply wp_ret.
    replace it with (with_window (window it) (decoded it) it) by (by destruct it). by apply HQ.
Qed.

Definition role_ctl (c c' : Control) : Prop := exists s m y, c' = with_mState s (with_magicNumber m (with_defClkCycles y c)).
Lemma role_ctl_refl c : role_ctl c c.
Proof. exists (mState c), (magicNumber c), (defClkCycles c). by destruct c. Qed.
Lemma role_ctl_trans c c' c'' : role_ctl c c' -> role_ctl c' c'' -> role_ctl c c''.
Proof. intros (s & m & y & ->) (s' & m' & y' & ->). by eexists _, _, _. Qed.

(** The state which gives the item of the roles, or the state before there was one. *)
Definition item_state (s0 : State) (i : option Item) (c : Control) : Prop :=
  match i with
  | None => mState c = s0
  | Some (PktMagicNumberItem v) => mState c = SetPktMagicNumberItem /\ magicNumber c = v
  | Some (DefClkValItem v) => mState c = SetDefClkValItem /\ defClkCycles c = v
  | Some _ => False
  end.
Definition emit_opt (i : option Item) (k : rest) : rest := match i with Some i => emit i k | None => k end.

Lemma dec_ok_role role n v d : 0 <= v < 2 ^ 64 -> dec_ok d -> dec_ok (role_dec role n v d).
Proof. intros Hv Hd. destruct role; try exact Hd; unfold dec_ok in *; simpl; tauto. Qed.

Lemma wp_handleUIntFieldRole role n v s0 i it (Q : unit -> ItemSeqIter M -> Prop) E :
  item_state s0 i (control it) ->
  (forall c, role_ctl (control it) c ->
     item_state s0 (match role_item role v (role_dec role n v (decoded it)) with Some i => Some i | None => i end) c ->
     Q tt (with_window (window it) (role_dec role n v (decoded it)) (at_control c it))) ->
  wp (handleUIntFieldRole role n v) it Q E.
Proof.
  intros Hi HQ. destruct role; simpl;
    try (apply wp_modify_decoded, (HQ (control it)); [apply role_ctl_refl|exact Hi]).
  - apply wp_bind, wp_modify_control, wp_set_state.
    apply (HQ (with_mState SetPktMagicNumberItem (with_magicNumber v (control it)))); [|done].
    exists SetPktMagicNumberItem, v, (defClkCycles (control it)). by destruct (control it).
  - apply wp_bind, wp_gets, wp_bind, wp_modify_decoded, wp_bind, wp_modify_control, wp_set_state.
    set (y := updateDefClkVal _ v n).
    apply (HQ (with_mState SetDefClkValItem (with_defClkCycles y (control it)))); [|done].
    exists SetDefClkValItem, (magicNumber (control it)), y. by destruct (control it).
Qed.
Lemma wp_handle_roles roles n v s0 i it (Q : unit -> ItemSeqIter M -> Prop) E k r :
  0 <= v < 2 ^ 64 -> item_state s0 i (control it) -> with_roles roles n v i k (point it) = r -> dec_ok (decoded it) ->
  (forall i' d c, role_ctl (control it) c -> item_state s0 i' c -> dec_ok d -> emit_opt i' k (point_of (window it) d) = r ->
     Q tt (with_window (window it) d (at_control c it))) ->
  wp (handle_roles roles n v) it Q E.
Proof.
  intros Hv. revert i it. induction roles as [|role roles IH]; intros i it Hi Hk Hd HQ.
  - apply wp_ret. replace it with (with_window (window it) (decoded it) (at_control (control it) it)) by (by destruct it).
    apply (HQ i); [apply role_ctl_refl|done|done|by destruct i].
  - simpl. apply wp_bind. eapply wp_handleUIntFieldRole; [exact Hi|]. intros c Hc Hic.
    eapply IH; [exact Hic|exact Hk|by apply dec_ok_role|]. intros i' d' c' Hc' Hi' Hd' Hk'.
    apply (HQ i'); [by eapply role_ctl_trans|done..].
Qed.

(** * Fields of fixed length *)

Lemma wp_read_fixed_next signed r f (item : Fc -> Z -> Item) it (Q : Z -> ItemSeqIter M -> Prop) E kk k res :
  inv it -> curScalarFc (control it) = Some (FixedLenFc f) -> fixed_ok f = true -> reads_as r f = true ->
  no_var (control it) -> stacked (head_of (control it)) (stack (control it)) k -> late_ok (stack (control it)) (FixedLenFc f) ->
  fixed data signed r f kk (point it) = res -> ok res ->
  (forall v it', inv it' -> pos (point it) <= pos (point it') -> curItem it' = Some (item (FixedLenFc f) v) ->
     (forall p, denotes_now (control it') p k) ->
     (late_key (FixedLenFc f) = true -> curScalarFc (control it') = Some (FixedLenFc f)) ->
     kk v (point it') = res -> Q v it') ->
  (res = ([], Failed) -> forall it', E Error it') ->
  (forall it', again = true -> resumes data I it (fixed data signed r f kk) res it' -> E TryAgain it') ->
  wp (handleCommonReadFixedLenIntFieldStateAndPrepareToReadNextField debug signed r item) it Q E.
Proof.
  intros Hi Hcur Hf Hr Hv Hst Hlate Hd Hok HT HF HA. unfold handleCommonReadFixedLenIntFieldStateAndPrepareToReadNextField.
  eapply wp_bind, wp_read_fixed; try done. intros v it' Hi' Hp Hc _ (x & y & Hctl) Hk.
  eapply wp_bind, (wp_prepareToReadNextField tc data); [by rewrite Hctl|rewrite Hctl; exact Hst|]. intros c' Hden Hsc. apply wp_ret.
  apply HT; try done. intros Hl. apply Hsc; [by rewrite Hctl|done|by rewrite Hctl].
Qed.

(** After reading and preparing: saving, if the class is one of keys. *)
Lemma step_late_key t f keys v item it k r p s E :
  fl_type f = t -> t = Bool \/ t = SInt -> keys = fl_keyValSavingIndexes f ->
  inv it -> p <= pos (point it) -> curItem it = Some item -> (forall p, denotes_now (control it) p k) ->
  (late_key (FixedLenFc f) = true -> curScalarFc (control it) = Some (FixedLenFc f)) ->
  emit item (saved keys v k) (point it) = r -> ok r ->
  wp (act (if is_key keys then run ks <- keys_of_current t; saveKeyVal ks v else ret tt); Stop) it (post r p s) E.
Proof.
  intros Ht Hor Hkeys [Hw Hd] Hp Hc Hden Hcur Hr Hok. assert (Hok' : ok (saved keys v k (point it))) by (rewrite <- Hr in Hok; by eapply ok_emit).
  assert (Hfin : forall d, dec_ok d -> k (point_of (window it) d) = saved keys v k (point it) ->
            wp Stop (with_window (window it) d it) (post r p s) E).
  { intros d Hd' Hk. apply wp_ret. apply (post_item item k); try done; [by apply denotes_state|].
    rewrite <- Hr. unfold point; simpl. rewrite !emit_eq. by rewrite Hk. }
  apply wp_bind. destruct (is_key keys) eqn:Hkey.
  - apply wp_bind. unfold keys_of_current. eapply wp_bind, wp_curScalarFc_get.
    { apply Hcur. simpl. rewrite Ht, <- Hkeys. by destruct Hor as [-> | ->]. }
    simpl. rewrite Ht. destruct Hor as [-> | ->]; apply wp_ret; rewrite <- Hkeys.
    + pose proof (wp_save_if keys v it (fun _ it' => wp Stop it' (post r p s) E) E k _ _ eq_refl eq_refl Hok' Hd) as Hsave. rewrite Hkey in Hsave. auto.
    + pose proof (wp_save_if keys v it (fun _ it' => wp Stop it' (post r p s) E) E k _ _ eq_refl eq_refl Hok' Hd) as Hsave. rewrite Hkey in Hsave. auto.
  - pose proof (wp_save_if keys v it (fun _ it' => wp Stop it' (post r p s) E) E k _ _ eq_refl eq_refl Hok' Hd) as Hsave. rewrite Hkey in Hsave. auto.
Qed.

(** After reading an unsigned integer: saving, and the roles. *)
Lemma step_uint roles keys n v item it k r p s E :
  0 <= v < 2 ^ 64 -> inv it -> p <= pos (point it) -> curItem it = Some item -> mState (control it) = s ->
  s <> SetPktMagicNumberItem -> s <> SetDefClkValItem ->
  no_var (control it) -> stacked (head_of (control it)) (stack (control it)) k ->
  emit item (saved keys v (with_roles roles n v None k)) (point it) = r -> ok r ->
  wp (handleCommonUIntFieldState roles keys n (has_role roles) (is_key keys) v) it (post r p s) E.
Proof.
  intros Hv [Hw Hd] Hp Hc Hs Hs1 Hs2 Hz Hst Hr Hok.
  assert (Hok' : ok (saved keys v (with_roles roles n v None k) (point it))) by (rewrite <- Hr in Hok; by eapply ok_emit).
  assert (Hr' : r = (item :: fst (saved keys v (with_roles roles n v None k) (point it)), snd (saved keys v (with_roles roles n v None k) (point it))))
    by (by rewrite <- Hr, emit_eq). clear Hr.
  assert (Hnext : forall d, dec_ok d -> k (point_of (window it) d) = saved keys v (with_roles roles n v None k) (point it) -> forall c,
            role_ctl (control it) c -> wp (act prepareToReadNextField; Stop) (with_window (window it) d (at_control c it)) (post r p s) E).
  { intros d Hd' Hk c (s' & m & y & ->). eapply wp_bind, (wp_prepareToReadNextField tc data); [exact Hz|exact Hst|]. intros c' Hden _. apply wp_ret.
    apply (post_item item k); try done; [by apply denotes_state|]. rewrite Hr', emit_eq. unfold point; simpl. by rewrite Hk. }
  unfold handleCommonUIntFieldState. apply wp_bind. eapply wp_save_if; [done|reflexivity|done|done|]. intros d Hd' Hk.
  unfold has_role. case_bool_decide as Hroles.
  - apply wp_bind, wp_bind, wp_gets. simpl. rewrite Hs. apply wp_bind.
    eapply (wp_handle_roles _ _ _ s None); [done|exact Hs|exact Hk|done|]. intros i' d' c Hc' Hi' Hd'' Hk'. simpl in Hk'.
    apply wp_bind, wp_gets. simpl. destruct i' as [i'|]; simpl in Hi', Hk'.
    + assert (Hc2 := Hc'). destruct Hc2 as (s' & m & y & Ec).
      destruct i'; try done; destruct Hi' as [Hm Hval]; rewrite Hm, bool_decide_false by done; apply wp_ret, wp_ret;
        (eapply (post_item item); try done; [|rewrite Hr', emit_eq; unfold point; simpl; by rewrite Hk']);
        apply denotes_state; left; (split; [by rewrite Ec|]); rewrite <- Hval; [apply at_SetPktMagicNumberItem|apply at_SetDefClkValItem]; try done;
        simpl; rewrite Ec; exact Hst.
    + rewrite Hi', bool_decide_true by done. apply (wp_unbind prepareToReadNextField (fun _ => Stop)). by apply Hnext.
  - destruct roles as [|]; [|done]. simpl in Hk.
    apply (Hnext d Hd' Hk (control it)), role_ctl_refl.
Qed.

(** What handling the state of an iterator does. *)
Definition follows (it : ItemSeqIter M) (r : result) : Prop :=
  wp (handleState debug tc) it (post r (pos (point it)) (mState (control it))) (post_throw r (pos (point it))).
Lemma step_fixed it f k r :
  inv it -> no_var (control it) -> begin_state (FixedLenFc f) = Some (mState (control it)) -> curScalarFc (control it) = Some (FixedLenFc f) ->
  fixed_ok f = true -> stacked (head_of (control it)) (stack (control it)) k -> late_ok (stack (control it)) (FixedLenFc f) ->
  fixed_field data f k (point it) = r -> ok r -> follows it r.
Proof.
  intros Hi Hz Hs Hcur Hf Hst Hlate Hk Hok. pose proof (reading_of_reads f Hf) as Hr.
  assert (Hden : forall p, denotes_now (control it) p (fixed_field data f k)) by (intros p; left; split; [exact Hz|by apply at_fixed]).
  assert (HE : r = ([], Failed) -> forall it' : ItemSeqIter M, post_throw r (pos (point it)) Error it') by done.
  assert (HA : forall it', again = true -> resumes data I it (fixed_field data f k) r it' -> post_throw r (pos (point it)) TryAgain it').
  { intros it' Hag Hres. eapply post_resumes; try done. apply Hi. }
  assert (Hplain : forall signed (item : Fc -> Z -> Item), fixed_field data f k = fixed data signed (reading_of f) f (fun v => emit (item (FixedLenFc f) v) k) ->
    wp (run val <- handleCommonReadFixedLenIntFieldStateAndPrepareToReadNextField debug signed (reading_of f) item; Stop) it
       (post r (pos (point it)) (mState (control it))) (post_throw r (pos (point it)))).
  { intros signed item Heq. rewrite Heq in Hk, HA. eapply wp_bind, wp_read_fixed_next; try done.
    intros v it' Hi' Hp Hc Hd _ Hk'. apply wp_ret. apply (post_item (item (FixedLenFc f) v) k); try done. by apply denotes_state. }
  assert (Heq : fixed_field data f k = fixed_field data f k) by done. unfold fixed_field at 2 in Heq.
  unfold follows, handleState. apply wp_bind, wp_gets. unfold begin_state in Hs. simpl in Hs.
  destruct (fl_type f) eqn:Ht; try (injection Hs as Hs; rewrite <- Hs in Hplain |- *); try (rewrite Heq in Hk, HA).
  - by apply Hplain.
  - by apply Hplain.
  - eapply wp_bind, wp_read_fixed_next; try done.
    intros v it' Hi' Hp Hc Hd Hl Hk'. eapply step_late_key; [done|by left|reflexivity|done..].
  - assert (Hb : exists b, (len f =? 64) = b /\ mState (control it) = ReadFixedLenFloatField (reading_of f) b).
    { destruct (Z.eqb_spec (len f) 32) as [E|]; [injection Hs as <-; exists false; by rewrite E|].
      destruct (Z.eqb_spec (len f) 64); [injection Hs as <-; by exists true|done]. }
    destruct Hb as (b & Eb & Hs'). rewrite Hs' in Hplain |- *. rewrite Eb in Heq. by apply Hplain.
  - eapply wp_bind, wp_read_fixed; try done.
    intros v it' Hi' Hp Hc Hv (x & y & Hctl) Hk'. eapply step_uint; try done.
    + by apply Hv.
    + by rewrite Hctl.
    + by rewrite Hctl.
    + rewrite Hctl. exact Hst.
  - eapply wp_bind, wp_read_fixed_next; try done.
    intros v it' Hi' Hp Hc Hd Hl Hk'. eapply step_late_key; [done|by right|reflexivity|done..].
Qed.

(** * Variable-length integers *)

Lemma appendVarLenIntByte_range signed val i b val' len' :
  0 <= val < 2 ^ 64 -> (i <= 9)%nat -> appendVarLenIntByte signed val (7 * Z.of_nat i) b = Some (val', len') ->
  0 <= val' < 2 ^ 64 /\ (len' = 7 * Z.of_nat (S i) /\ (S i <= 9)%nat \/ len' = 64 /\ i = 9%nat /\ Z.land b 128 = 0).
Proof.
  intros Hv Hi. unfold appendVarLenIntByte. destruct (Z.ltb_spec 63 (7 * Z.of_nat i + 7)).
  - destruct (Z.eqb_spec (Z.land b 128) 0) as [E|]; [|done].
    destruct (negb true || _ || _) eqn:Hb; [done|]. intros [= <- <-]. split; [by apply u64_lor, u64_wrapu|]. right. split; [done|]. split; [lia|done].
  - intros [= <- <-]. split; [by apply u64_lor, u64_wrapu|]. left. lia.
Qed.
Lemma VarLenIntFieldVal_range signed len v : 0 <= v < 2 ^ 64 -> 0 <= VarLenIntFieldVal signed len v < 2 ^ 64.
Proof.
  intros Hv. unfold VarLenIntFieldVal. destruct (negb signed); [done|]. destruct (len =? 64); [done|]. apply wrapu_range. lia.
Qed.

Definition var_item (signed : bool) (fc : Fc) (v l : Z) : Item := if signed then VarLenSIntFieldItem fc (wraps 64 v) l else VarLenUIntFieldItem fc v l.
(** The iterator, which has read [i] bytes of an integer of value [val], is to read its other
    bytes. *)
Definition var_state (it : ItemSeqIter M) (i : nat) : Prop :=
  inv it /\ 0 <= varLenIntVal (control it) < 2 ^ 64 /\ varLenIntLen (control it) = 7 * Z.of_nat i /\ (i <= 9)%nat /\
  8 * Z.of_nat i <= at_head (point it) /\ at_head (point it) mod 8 = 0.
Definition with_var (val len : Z) (c : Control) : Control := with_varLenIntLen len (with_varLenIntVal val c).

Lemma bytes_at_cons p b t l : at_pkt p mod 8 = 0 -> at_head p mod 8 = 0 -> 0 <= pos p -> bytes_at data p = (b :: t) ++ l ->
  bytes_at data (advance 8 p) = t ++ l.
Proof.
  intros Hp Hh H0 Hb. unfold bytes_at in *. rewrite pos_advance. replace (Z.to_nat ((pos p + 8) / 8)) with (S (Z.to_nat (pos p / 8))) by (unfold pos in *; div_lia).
  by rewrite (drop_S _ b (t ++ l)) in Hb || rewrite <- Nat.add_1_r, <- drop_drop, Hb.
Qed.

Lemma wp_varLenInt_loop fuel signed fc it (Q : Z -> ItemSeqIter M -> Prop) E kk r i :
  var_state it i -> (10 <= fuel + i)%nat ->
  var_int signed (bytes_at data (point it)) (varLenIntVal (control it)) (varLenIntLen (control it)) kk (point it) = r -> ok r ->
  (forall v l it', inv it' -> pos (point it) <= pos (point it') -> curItem it' = Some (var_item signed fc v l) ->
     control it' = with_var 0 0 (control it) -> 0 <= v < 2 ^ 64 -> kk v l (point it') = r -> Q v it') ->
  (r = ([], Failed) -> forall it', E Error it') ->
  (forall it' i', again = true -> var_state it' i' -> pos (point it) <= pos (point it') ->
     (exists val, control it' = with_var val (7 * Z.of_nat i') (control it)) ->
     var_int signed (bytes_at data (point it')) (varLenIntVal (control it')) (varLenIntLen (control it')) kk (point it') = r -> E TryAgain it') ->
  wp (varLenInt_loop debug fuel signed fc) it Q E.
Proof.
  revert it i. induction fuel as [|fuel IH]; intros it i ([Hw Hd] & Hval & Hlen & Hi & Hih & Hh8) Hfuel Hk Hok HT HF HA; [lia|].
  cbn [varLenInt_loop]. apply wp_bind, wp_gets, wp_bind, wp_assert; [by apply Z.eqb_eq|].
  assert (Hp8 : at_pkt (point it) mod 8 = 0) by apply Hw. assert (Hp0 : 0 <= pos (point it)).
  { pose proof (win_head _ _ _ Hw). assert (0 <= at_pkt (point it)) by apply Hw. unfold pos. simpl in *. lia. }
  assert (Hc : 0 <= contentLeft (point it)).
  { rewrite <- Hk in Hok. destruct Hok as [Hok _]. destruct (bytes_at data (point it)); simpl in Hok; destruct (Z.ltb_spec (contentLeft (point it)) 0); done. }
  assert (Hk' := Hk). destruct (Z.ltb_spec (contentLeft (point it)) 8) as [Hlt|Hge].
  { assert (r = ([], Failed)) as HR.
    { rewrite <- Hk. destruct (bytes_at data (point it)); simpl; rewrite !(proj2 (Z.ltb_ge _ 0)), (proj2 (Z.ltb_lt _ 8)) by done; done. }
    eapply wp_bind, wp_requireContentData; try done; try apply Hd; intros; try lia; by apply HF. }
  eapply wp_bind, wp_requireContentData; try done; [apply Hd| | |].
  2: { intros [Hbad|Hbad] it'; [lia|]. apply HF. rewrite <- Hk.
       assert (bytes_at data (point it) = []) as ->.
       { unfold bytes_at. apply drop_ge. unfold bits_of_data, pos in *. div_lia. }
       simpl. rewrite !(proj2 (Z.ltb_ge _ _)) by done. done. }
  2: { intros w Hag Hw' Hsame _. assert (Hpt : point (at_window w it) = point it) by (by apply point_same_head).
       apply (HA _ i); rewrite ?Hpt; try done; [split; [by split|rewrite Hpt; done]|].
       exists (varLenIntVal (control it)). rewrite <- Hlen. simpl. by destruct (control it). }
  intros w Hw' Hsame Hl _ Hpos8. assert (Hpt : point (at_window w it) = point it) by (by apply point_same_head).
  eapply wp_bind, wp_bufAtHead; [done..|]. rewrite Hpt. intros buf tail Hb Hbl. simpl in Hbl.
  assert (Hhw : headOffsetInCurPkt w mod 8 = 0) by (destruct Hsame as [_ ->]; exact Hh8).
  destruct buf as [|b buf]; [simpl in Hbl; lia|].
  eapply wp_bind, wp_of_option; [done|]. apply wp_bind, wp_gets. simpl. rewrite Hlen in *.
  rewrite Hb in Hk. simpl in Hk. rewrite !(proj2 (Z.ltb_ge _ _)) in Hk by done.
  destruct (appendVarLenIntByte signed _ _ b) as [[val' len']|] eqn:Happ; [|by apply wp_throw, HF].
  destruct (appendVarLenIntByte_range _ _ _ _ _ _ Hval Hi Happ) as [Hval' Hlen'].
  eapply wp_bind, wp_consumeAvailData; [done..|simpl; lia|]. apply wp_bind, wp_modify_control. simpl.
  set (it1 := at_control _ _). assert (Hp1 : point it1 = advance 8 (point it)).
  { unfold it1, point. simpl. apply point_head_plus. by apply head_plus_advance. }
  assert (Hw1 : win_ok data I (window it1)) by (apply win_ok_advance; [done|lia]).
  destruct (Z.eqb_spec (Z.land b 128) 0) as [Hlast|Hmore].
  - apply wp_bind, wp_headOffsetInItemSeq with (data := data) (I := I); try done.
    assert (Hbytes1 : 0 <= (len' + 6) / 7 <= Z.of_nat (S i)) by (destruct Hlen' as [[-> _]|(-> & -> & _)]; div_lia).
    apply wp_bind, wp_dl_bytes; [apply orb_true_iff; right; apply Z.ltb_lt; change ((2 ^ 64 - 1) / 8) with 2305843009213693951; lia|lia|].
    pose proof (win_head _ _ _ Hw1) as [_ Hmax]. assert (Hpos1 : pos (point it1) <= 2 ^ 62) by (unfold pos; simpl in *; lia).
    assert (8 * Z.of_nat (S i) <= pos (point it1)).
    { rewrite Hp1, pos_advance. unfold pos. assert (0 <= at_pkt (point it)) by apply Hw. lia. }
    apply wp_bind, wp_dl_sub; [lia|lia|]. apply wp_bind. unfold wp at 1. simpl. apply wp_bind, wp_modify_control, wp_ret.
    apply HT with (l := len'); simpl.
    + by split.
    + change (pos (point it) <= pos (point it1)). rewrite Hp1, pos_advance. lia.
    + by destruct signed.
    + by destruct (control it).
    + by apply VarLenIntFieldVal_range.
    + change (kk (VarLenIntFieldVal signed len' val') len' (point it1) = r). by rewrite Hp1.
  - destruct Hlen' as [[-> Hi']|(_ & _ & Hlast)]; [|done].
    assert (Hb1 : bytes_at data (point it1) = buf ++ tail) by (rewrite Hp1; by apply (bytes_at_cons _ b)).
    assert (Hst1 : var_state it1 (S i)).
    { split; [by split|]. split; [done|]. split; [done|]. split; [done|]. rewrite Hp1. simpl in *. split; [lia|div_lia]. }
    apply (IH it1 (S i)); try done; [lia|rewrite Hb1, Hp1; exact Hk| |].
    + intros v l it' Hi1 Hp Hc1 Hctl Hv Hk1. apply HT with (l := l); try done. rewrite Hp1, pos_advance in Hp. lia.
    + intros it' i' Hag Hst' Hp (v & Hctl) Hk1. apply (HA it' i'); try done; [rewrite Hp1, pos_advance in Hp; lia|]. by exists v.
Qed.

Lemma aligned_id a k p : 0 < a -> at_head p mod a = 0 -> aligned data a k p = k p.
Proof.
  intros Ha Hp. unfold aligned, skipping. assert (padding p a = 0) as ->; [|done].
  unfold padding. apply Z.mod_divide in Hp as [q Hq]; [|lia]. rewrite Hq. replace (q * a + a - 1) with (a - 1 + q * a) by lia.
  rewrite Z.div_add, (Z.div_small (a - 1)) by lia. lia.
Qed.
Lemma var_ok_mono c p p' : var_ok c p -> at_head p <= at_head p' -> var_ok c p'.
Proof. intros (Hu & Hv & i & Hl & Hi & Ho) Hp. split; [done|]. split; [done|]. exists i. split_and!; try done. destruct Ho; [by left|right; lia]. Qed.

(** What the handlers of both kinds of variable-length integers begin with. *)
Lemma wp_handleCommonVarLenIntFieldState signed fc it (Q : Fc * Z -> ItemSeqIter M -> Prop) E kk r :
  let body := fun c p => var_int signed (bytes_at data p) (varLenIntVal c) (varLenIntLen c) kk p in
  inv it -> curScalarFc (control it) = Some fc -> align fc = 8 -> var_ok (control it) (point it) ->
  aligned data 8 (body (control it)) (point it) = r -> ok r ->
  (forall v l it', inv it' -> pos (point it) <= pos (point it') -> curItem it' = Some (var_item signed fc v l) ->
     (exists x y, control it' = with_var 0 0 (with_postSkipPaddingState x (with_remainingLenToSkip y (control it)))) ->
     0 <= v < 2 ^ 64 -> kk v l (point it') = r -> Q (fc, v) it') ->
  (r = ([], Failed) -> forall it', E Error it') ->
  (forall it', again = true -> resumes data I it (aligned data 8 (body (control it))) r it' -> E TryAgain it') ->
  (forall it', again = true -> inv it' -> pos (point it) <= pos (point it') -> var_ok (control it') (point it') ->
     (exists x y v l, control it' = with_var v l (with_postSkipPaddingState x (with_remainingLenToSkip y (control it)))) ->
     aligned data 8 (body (control it')) (point it') = r -> E TryAgain it') ->
  wp (handleCommonVarLenIntFieldState debug signed) it Q E.
Proof.
  intros body [Hw Hd] Hcur Ha Hvar Hk Hok HT HF HA1 HA2. unfold handleCommonVarLenIntFieldState.
  eapply wp_bind, wp_curScalarFc_get; [done|]. rewrite Ha. eapply wp_bind, wp_alignHead; try done; [apply Hd|].
  intros w x y Hw1 Hplus Hk1. set (it1 := at_window w _).
  pose proof (padding_range (point it) 8 ltac:(lia)) as Hpad. set (n := padding (point it) 8) in *.
  assert (Hp1 : point it1 = advance n (point it)) by (by apply point_head_plus).
  destruct Hvar as (Hu & Hval & i & Hlen & Hi & Hor).
  assert (Hst1 : var_state it1 i).
  { do 4 (split; [done || by split|]). rewrite Hp1; simpl. split.
    - pose proof (win_head _ _ _ Hw). destruct Hor as [-> |]; simpl in *; lia.
    - apply (padding_aligned (point it) 8 8); [lia|done|lia]. }
  apply wp_bind. apply (wp_varLenInt_loop 11 signed fc it1 _ _ kk r i); try done; [lia|rewrite Hp1; exact Hk1| |].
  - intros v l it' Hi' Hp Hc Hctl Hv Hk'. apply wp_ret, (HT v l); try done; [rewrite Hp1, pos_advance in Hp; lia|]. by exists x, y.
  - intros it' i' Hag ([Hw' Hd'] & Hval' & Hlen' & Hi' & Hih & Hh8) Hp (v & Hctl) Hk'. apply HA2; try done.
    + rewrite Hp1, pos_advance in Hp. lia.
    + split; [by rewrite Hctl|]. split; [done|]. exists i'. split_and!; try done. by right.
    + by exists x, y, v, (7 * Z.of_nat i').
    + by rewrite aligned_id.
Qed.

Lemma with_roles_len roles n n' v i k p :
  forallb (fun r => match r with DefClkTs => false | _ => true end) roles = true ->
  with_roles roles n v i k p = with_roles roles n' v i k p.
Proof.
  revert i p. induction roles as [|role roles IH]; intros i p Hr; [done|]. simpl in Hr. apply andb_true_iff in Hr as [Hr1 Hr2].
  simpl. by destruct role; simpl; rewrite IH.
Qed.

Lemma step_var_uint it roles keys k r :
  inv it -> mState (control it) = ReadVarLenUIntField (has_role roles) (is_key keys) -> curScalarFc (control it) = Some (VarLenUIntFc roles keys) ->
  fc_ok (VarLenUIntFc roles keys) = true -> var_ok (control it) (point it) -> stacked (head_of (control it)) (stack (control it)) k ->
  aligned data 8 (var_len_uint data roles keys (varLenIntVal (control it)) (varLenIntLen (control it)) k) (point it) = r -> ok r -> follows it r.
Proof.
  intros Hi Hs Hcur Hfc Hvar Hst Hk Hok. unfold follows, handleState. apply wp_bind, wp_gets. rewrite Hs.
  unfold handleCommonReadVarLenUIntFieldState. eapply wp_bind, wp_handleCommonVarLenIntFieldState; try done.
  - intros v l it' Hi' Hp Hc (x & y & Hctl) Hv Hk'. simpl. apply wp_bind, wp_gets. rewrite Hctl; simpl.
    unfold var_item in Hc. destruct Hvar as [Hu _]. eapply step_uint; try done; [by rewrite Hctl|by rewrite Hctl|rewrite Hctl; exact Hst|].
    rewrite <- Hk', !emit_eq.
    assert (saved keys v (with_roles roles 0 v None k) (point it') = saved keys v (with_roles roles l v None k) (point it')) as ->; [|done].
    unfold saved. case_match; [by apply with_roles_len|done].
  - intros it' Hag Hres. eapply post_resumes; [apply Hi| |exact Hres|done..]. intros p Hp. right. eapply var_uint; try done. by eapply var_ok_mono.
  - intros it' Hag Hi' Hp Hvar' (x & y & v & l & Hctl) Hk'. split; [done|]. split; [done|]. left. split; [done|].
    eexists. split; [|exact Hk']. apply denotes_state. right. rewrite Hctl in Hvar' |- *. by eapply var_uint.
Qed.
Lemma step_var_sint it keys k r :
  inv it -> mState (control it) = ReadVarLenSIntField (is_key keys) -> curScalarFc (control it) = Some (VarLenSIntFc keys) ->
  var_ok (control it) (point it) -> stacked (head_of (control it)) (stack (control it)) k ->
  aligned data 8 (var_len_sint data keys (varLenIntVal (control it)) (varLenIntLen (control it)) k) (point it) = r -> ok r -> follows it r.
Proof.
  intros Hi Hs Hcur Hvar Hst Hk Hok. unfold follows, handleState. apply wp_bind, wp_gets. rewrite Hs.
  unfold handleCommonReadVarLenSIntFieldState. eapply wp_bind, wp_handleCommonVarLenIntFieldState; try done.
  - intros v l it' [Hw' Hd'] Hp Hc (x & y & Hctl) Hv Hk'. simpl. unfold var_item in Hc. apply wp_bind.
    rewrite <- Hk' in Hok. eapply wp_save_if; [done|reflexivity|by eapply ok_emit|done|]. intros d Hd Hk2.
    destruct Hvar as [Hu _]. eapply wp_bind, (wp_prepareToReadNextField tc data); simpl; rewrite Hctl; [done|exact Hst|]. intros c' Hden _. apply wp_ret.
    eapply (post_item _ k); try done; [by apply denotes_state|]. rewrite <- Hk', !emit_eq. unfold point; simpl. by rewrite Hk2.
  - intros it' Hag Hres. eapply post_resumes; [apply Hi| |exact Hres|done..]. intros p Hp. right. eapply var_sint; try done. by eapply var_ok_mono.
  - intros it' Hag Hi' Hp Hvar' (x & y & v & l & Hctl) Hk'. split; [done|]. split; [done|]. left. split; [done|].
    eexists. split; [|exact Hk']. apply denotes_state. right. rewrite Hctl in Hvar' |- *. by eapply var_sint.
Qed.
End follow.
