(* ===== verification/ItemFollowData.v ===== *)
(** Each state of the item sequence iterator that reads a structure, an array, a string, a
    BLOB, an optional or a variant follows what remains to decode. *)

From S2P Require Import Prelude Bitfield CtfIr ItemBits ItemBitsFacts ItemState ItemSeq ItemSpec ItemWp ItemSim ItemStep ItemFollow.

Section follow.
Context {M : Type} `{Medium M} (debug : bool) (tc : TraceCls) (data : list Z) (again : bool) (I : M -> Prop).
Context `{!MediumServes data again I}.
Context (Hbytes : buf_wf 8 data) (Hsize : bits_of_data data <= 2 ^ 62).

Abbreviation denotes_now := (denotes_now tc data).
Abbreviation denotes := (denotes tc data).
Abbreviation stacked := (stacked tc data).
Abbreviation head_of := curEventRecordHeadOffset.
Abbreviation inv := (inv data I).
Abbreviation post := (post tc data I).
Abbreviation post_throw := (post_throw tc data again I).
Abbreviation follows := (follows debug tc data again I).
Abbreviation frame_of fc i n := (StackFrameOf (end_state fc) (Some fc) i n).

(** * Beginning a field *)

Lemma wp_begin_elem fc e n item it fs k r p s E :
  inv it -> no_var (control it) -> p <= pos (point it) -> curItem it = Some item ->
  stack (control it) = frame_of fc 0 0 :: fs -> fc_ok fc = true -> fc_ok e = true -> elem_index_ok fc 0 n -> stacked (head_of (control it)) fs k ->
  late_ok (frame_of fc 0 n :: fs) e -> emit item (field data e (next_elems data fc 0 n (emit (end_item fc) k))) (point it) = r ->
  wp (act set_topLen n; prepareToReadField e) it (fun _ it' => wp Stop it' (post r p s) E) E.
Proof.
  intros Hi Hz Hp Hc Hs Hfc He Hn Hst Hlate Hr. eapply wp_bind, wp_set_topLen; [exact Hs|].
  eapply (wp_prepareToReadField tc data); simpl; [done|exact Hz|by apply (stacked_field tc data)|done|]. intros c' Hden _. apply wp_ret.
  eapply post_item; try done. by apply denotes_state.
Qed.
Lemma wp_begin_end fc item it i n fs k r p s E :
  inv it -> no_var (control it) -> p <= pos (point it) -> curItem it = Some item -> is_scalar fc = false ->
  stack (control it) = frame_of fc i n :: fs -> stacked (head_of (control it)) fs k ->
  emit item (emit (end_item fc) k) (point it) = r ->
  wp restoreState it (fun _ it' => wp Stop it' (post r p s) E) E.
Proof.
  intros Hi Hz Hp Hc Hsc Hs Hst Hr. eapply wp_restoreState; [exact Hs|]. apply wp_ret.
  eapply post_item; try done. apply denotes_state. left. split; [exact Hz|]. by eapply at_end.
Qed.

Lemma resumes_cong (it : ItemSeqIter M) k k' r it' :
  (forall p, at_dec p = decoded it -> k p = k' p) -> resumes data I it k r it' -> resumes data I it k' r it'.
Proof.
  intros E (w & c & -> & Hw & Hj & Hc). exists w, c. split; [done|]. split; [done|]. split; [done|].
  destruct Hc as [[Hc Hk]|(n & Hc & Hn & Hs & Hk)]; [left|right].
  - split; [done|]. by rewrite <- E.
  - exists n. split_and!; try done; [apply Hn..|]. rewrite <- Hk. apply skipping_cong. symmetry. by apply E.
Qed.

(** Aligning the head, the item of the beginning of the field being given. *)
Lemma wp_aligned_begun item a it p (Q : bool -> ItemSeqIter M -> Prop) K k r (m : method M bool) :
  inv it -> curItem it = Some item -> p <= pos (point it) -> pow2 a = true ->
  (forall p, at_head (point it) <= at_head p -> denotes_now (control it) p K) ->
  (forall p, at_dec p = decoded it -> aligned data a (emit item k) p = K p) -> K (point it) = r -> ok r ->
  (forall it', inv it' -> p <= pos (point it') -> curItem it' = Some item -> at_head (point it') mod a = 0 ->
     decoded it' = decoded it -> (exists x y, control it' = with_postSkipPaddingState x (with_remainingLenToSkip y (control it))) ->
     emit item k (point it') = r -> wp m it' Q (post_throw r p)) ->
  wp (act alignHead debug a; m) it Q (post_throw r p).
Proof.
  intros [Hw Hd] Hc Hp Ha Hden HK Hk Hok HQ.
  eapply wp_bind, (wp_alignHead debug data again I Hsize a it _ _ (emit item k) r); try done; [apply Hd|rewrite <- Hk; by apply HK| |].
  - intros w x y Hw' Hplus Hk'. pose proof (padding_range (point it) a (pow2_pos _ Ha)).
    assert (Hp' : point (at_window w (at_control (with_postSkipPaddingState x (with_remainingLenToSkip y (control it))) it)) = advance (padding (point it) a) (point it))
      by (by apply point_head_plus).
    apply HQ; rewrite ?Hp'; try done; [rewrite pos_advance; lia| |by exists x, y].
    apply (padding_aligned (point it) a a); [by apply pow2_pos|apply Z_mod_same_full|by apply pow2_pos].
  - intros it' Hag Hres. eapply (post_resumes tc data again I it K); try done. by eapply resumes_cong.
Qed.
(** Giving that item before. *)
Lemma wp_begin_aligned item a it (Q : bool -> ItemSeqIter M -> Prop) K k r (m : method M bool) :
  inv it -> pow2 a = true -> (forall p, at_head (point it) <= at_head p -> denotes_now (control it) p K) ->
  (forall p, at_dec p = decoded it -> aligned data a (emit item k) p = K p) -> K (point it) = r -> ok r ->
  (forall it', inv it' -> pos (point it) <= pos (point it') -> curItem it' = Some item -> at_head (point it') mod a = 0 ->
     decoded it' = decoded it -> (exists x y, control it' = with_postSkipPaddingState x (with_remainingLenToSkip y (control it))) ->
     emit item k (point it') = r -> wp m it' Q (post_throw r (pos (point it)))) ->
  wp (act updateForUser debug item; act alignHead debug a; m) it Q (post_throw r (pos (point it))).
Proof.
  intros [Hw Hd] Ha Hden HK Hk Hok HQ. eapply wp_bind, wp_updateForUser; [done..|]. intros o.
  by eapply (wp_aligned_begun item a (ItemSeqIterOf _ _ _ _ _) _ Q K k).
Qed.

Lemma denotes_begin c p fc fs k :
  no_var c -> is_scalar fc = false -> begin_state fc = Some (mState c) -> fc_ok fc = true -> stack c = frame_of fc 0 0 :: fs ->
  stacked (head_of c) fs k -> denotes_now c p (field data fc k).
Proof. intros. left. split; [done|]. by eapply at_begin. Qed.

Lemma pow2_max a b : pow2 a = true -> pow2 b = true -> pow2 (Z.max a b) = true.
Proof. intros Ha Hb. by destruct (Z.max_spec a b) as [[_ ->]|[_ ->]]. Qed.
Lemma align_pow2 fc : fc_ok fc = true -> pow2 (align fc) = true.
Proof.
  revert fc. fix IH 1. intros fc Hok. destruct fc as [f| | | | | |n u| |ms a|e n a u|e a ix| |]; simpl in *; try done.
  - by apply fixed_ok_inv.
  - rewrite !andb_true_iff in Hok. destruct Hok as [[Ha _] Hms]. revert a Ha. induction ms as [|m ms IHms]; intros a Ha; [done|].
    simpl in Hms. apply andb_true_iff in Hms as [Hm Hms]. apply IHms; [done|]. by apply pow2_max, IH.
  - rewrite !andb_true_iff in Hok. apply pow2_max; [|tauto]. apply IH. tauto.
  - rewrite !andb_true_iff in Hok. apply pow2_max; [|tauto]. apply IH. tauto.
Qed.

Lemma step_struct it ms a fs k r :
  let fc := StructFc ms a in
  inv it -> no_var (control it) -> begin_state fc = Some (mState (control it)) -> fc_ok fc = true ->
  stack (control it) = frame_of fc 0 0 :: fs -> stacked (head_of (control it)) fs k -> field data fc k (point it) = r -> ok r -> follows it r.
Proof.
  intros fc Hi Hz Hs Hfc Hstk Hst Hk Hok. assert (Hs' := Hs). injection Hs' as Hs'.
  unfold ItemFollow.follows, handleState. apply wp_bind, wp_gets. rewrite <- Hs'. unfold handleBeginReadStructFieldState.
  eapply wp_bind, wp_stackTopFc; [exact Hstk|]. unfold fc at 1.
  eapply (wp_begin_aligned _ _ _ _ (field data fc k)); [done|by apply align_pow2|intros; by eapply denotes_begin|done|exact Hk|done|].
  intros it' Hi' Hp Hc _ Hd (x & y & Hctl) Hk'. apply wp_bind. fold fc in Hk', Hc.
  assert (Hz' : no_var (control it')) by (by rewrite Hctl). assert (Hstk' : stack (control it') = frame_of fc 0 0 :: fs) by (by rewrite Hctl).
  assert (Hst' : stacked (head_of (control it')) fs k) by (by rewrite Hctl).
  destruct ms as [|m ms]; [by eapply (wp_begin_end fc)|].
  assert (Hfc' := Hfc). simpl in Hfc'. rewrite !andb_true_iff in Hfc'. destruct Hfc' as [[_ Hlate] [Hm _]].
  eapply (wp_begin_elem fc m); try done. intros Hl m' Hm'. by apply (late_keys_ok_lookup (m :: ms) 0 m).
Qed.

(** * Arrays *)

Lemma wp_array fc e n item it fs k r p s E :
  inv it -> no_var (control it) -> p <= pos (point it) -> curItem it = Some item -> 0 <= n ->
  stack (control it) = frame_of fc 0 0 :: fs -> fc_ok fc = true -> fc_ok e = true -> stacked (head_of (control it)) fs k ->
  (exists a u m, fc = StaticLenArrayFc e m a u) \/ (exists a ix, fc = DynLenArrayFc e a ix) ->
  emit item (Nat.iter (Z.to_nat n) (field data e) (emit (end_item fc) k)) (point it) = r ->
  wp (act (if n =? 0 then restoreState else act set_topLen n; prepareToReadField e); Stop) it (post r p s) E.
Proof.
  intros Hi Hz Hp Hc Hn Hs Hfc He Hst Hor Hr. apply wp_bind. destruct (Z.eqb_spec n 0) as [-> | Hnz].
  - eapply (wp_begin_end fc); try done. by destruct Hor as [(? & ? & ? & ->)|(? & ? & ->)].
  - replace (Z.to_nat n) with (S (Z.to_nat (n - 0 - 1))) in Hr by lia.
    eapply (wp_begin_elem fc e n); try done.
    + split; [lia|]. by destruct Hor as [(? & ? & ? & ->)|(? & ? & ->)].
    + by destruct Hor as [(? & ? & ? & ->)|(? & ? & ->)].
    + by destruct Hor as [(? & ? & ? & ->)|(? & ? & ->)].
Qed.

Lemma step_static_array it e n a fs k r :
  let fc := StaticLenArrayFc e n a false in
  inv it -> no_var (control it) -> begin_state fc = Some (mState (control it)) -> fc_ok fc = true ->
  stack (control it) = frame_of fc 0 0 :: fs -> stacked (head_of (control it)) fs k -> field data fc k (point it) = r -> ok r -> follows it r.
Proof.
  intros fc Hi Hz Hs Hfc Hstk Hst Hk Hok. assert (Hs' := Hs). injection Hs' as Hs'.
  unfold ItemFollow.follows, handleState. apply wp_bind, wp_gets. rewrite <- Hs'. unfold handleBeginReadStaticLenArrayFieldState.
  eapply wp_bind, wp_stackTopFc; [exact Hstk|]. unfold fc at 1. unfold handleCommonBeginReadArrayFieldState.
  eapply (wp_begin_aligned _ _ _ _ (field data fc k)); [done|by apply align_pow2|intros; by eapply denotes_begin|done|exact Hk|done|].
  intros it' Hi' Hp Hc _ Hd (x & y & Hctl) Hk'. assert (Hfc' := Hfc). simpl in Hfc'. unfold u64 in Hfc'. rewrite !andb_true_iff, Z.leb_le in Hfc'.
  eapply (wp_array fc); rewrite ?Hctl; try done; [tauto|tauto|left; by eexists _, _, _].
Qed.

Lemma with_saved_inv (index : option nat) (kk : Z -> rest) p r :
  with_saved index kk p = r -> ok r -> exists n, (do i <- index; savedKeyVals (at_dec p) !! i) = Some n /\ kk n p = r.
Proof.
  unfold with_saved. intros <- [Hok _]. destruct (do i <- index; savedKeyVals (at_dec p) !! i) as [n|]; [by exists n|done].
Qed.
Lemma wp_savedKeyVal index n it (Q : Z -> ItemSeqIter M -> Prop) E :
  (do i <- index; savedKeyVals (decoded it) !! i) = Some n -> Q n it -> wp (savedKeyVal index) it Q E.
Proof. intros Hn HQ. unfold savedKeyVal. apply wp_bind, wp_gets. by apply (wp_of_option _ n). Qed.
Lemma saved_range index n d : dec_ok d -> (do i <- index; savedKeyVals d !! i) = Some n -> 0 <= n < 2 ^ 64.
Proof.
  intros (_ & _ & Hs & _) Hn. destruct index as [i|]; [|done]. simpl in Hn. by eapply (Forall_lookup_1 _ _ _ _ Hs).
Qed.
(** The decoder of the field, where the saved length is known. *)
Lemma with_saved_eq index n (kk : Z -> rest) d p : (do i <- index; savedKeyVals d !! i) = Some n -> at_dec p = d -> with_saved index kk p = kk n p.
Proof. intros Hn <-. unfold with_saved. by rewrite Hn. Qed.

Lemma step_dyn_array it e a ix fs k r :
  let fc := DynLenArrayFc e a ix in
  inv it -> no_var (control it) -> begin_state fc = Some (mState (control it)) -> fc_ok fc = true ->
  stack (control it) = frame_of fc 0 0 :: fs -> stacked (head_of (control it)) fs k -> field data fc k (point it) = r -> ok r -> follows it r.
Proof.
  intros fc Hi Hz Hs Hfc Hstk Hst Hk Hok. assert (Hs' := Hs). injection Hs' as Hs'.
  unfold ItemFollow.follows, handleState. apply wp_bind, wp_gets. rewrite <- Hs'. unfold handleBeginReadDynLenArrayFieldState.
  eapply wp_bind, wp_stackTopFc; [exact Hstk|]. unfold fc at 1.
  destruct (with_saved_inv ix _ _ _ Hk Hok) as (n & Hn & Hk'). eapply wp_bind, wp_savedKeyVal; [exact Hn|].
  pose proof (saved_range _ _ _ (proj2 Hi) Hn) as Hrange. unfold handleCommonBeginReadArrayFieldState.
  eapply (wp_begin_aligned _ _ _ _ (field data fc k)); [done|by apply align_pow2|intros; by eapply denotes_begin| |exact Hk|done|].
  { intros p Hp. unfold fc. cbn [field]. by rewrite (with_saved_eq ix n _ (decoded it)). }
  intros it' Hi' Hp Hc _ Hd (x & y & Hctl) Hk2. assert (Hfc' := Hfc). simpl in Hfc'. rewrite !andb_true_iff in Hfc'.
  eapply (wp_array fc); rewrite ?Hctl; try done; [lia|tauto|right; by eexists _, _].
Qed.

(** * Strings and BLOBs *)

(** After the beginning of a string or BLOB. *)
Lemma wp_raw_content fc n item it fs k r p s E :
  inv it -> no_var (control it) -> p <= pos (point it) -> curItem it = Some item -> 0 <= n < 2 ^ 64 -> is_scalar fc = false ->
  stack (control it) = frame_of fc 0 0 :: fs -> stacked (head_of (control it)) fs k -> at_head (point it) mod 8 = 0 ->
  emit item (raw_content data n (emit (end_item fc) k)) (point it) = r ->
  wp (act (if n =? 0 then restoreState else act set_topLen n; set_state ReadRawData); Stop) it (post r p s) E.
Proof.
  intros Hi Hz Hp Hc Hn Hsc Hs Hst Hh Hr. apply wp_bind. unfold raw_content in Hr. destruct (Z.eqb_spec n 0) as [-> | Hnz].
  - by eapply (wp_begin_end fc).
  - eapply wp_bind, wp_set_topLen; [exact Hs|]. apply wp_set_state, wp_ret.
    eapply (post_item tc data I _ (raw data (n - 0) (fun _ => emit (end_item fc) k))); try done; [|by rewrite Z.sub_0_r].
    apply denotes_state. left. split; [exact Hz|]. eapply at_raw; try done; lia.
Qed.

Lemma step_static_str it e n fs k r :
  let fc := StaticLenStrFc e n in
  inv it -> no_var (control it) -> begin_state fc = Some (mState (control it)) -> fc_ok fc = true ->
  stack (control it) = frame_of fc 0 0 :: fs -> stacked (head_of (control it)) fs k -> field data fc k (point it) = r -> ok r -> follows it r.
Proof.
  intros fc Hi Hz Hs Hfc Hstk Hst Hk Hok. assert (Hs' := Hs). injection Hs' as Hs'.
  unfold ItemFollow.follows, handleState. apply wp_bind, wp_gets. rewrite <- Hs'. unfold handleBeginReadStaticLenStrFieldState.
  eapply wp_bind, wp_stackTopFc; [exact Hstk|]. unfold fc at 1. unfold handleCommonBeginReadStrBlobFieldState.
  eapply (wp_begin_aligned _ _ _ _ (field data fc k)); [done|done|intros; by eapply denotes_begin|done|exact Hk|done|].
  intros it' Hi' Hp Hc Hh Hd (x & y & Hctl) Hk'. assert (Hfc' := Hfc). simpl in Hfc'. unfold u64 in Hfc'. rewrite !andb_true_iff, Z.leb_le, Z.ltb_lt in Hfc'.
  eapply (wp_raw_content fc); rewrite ?Hctl; done.
Qed.
Lemma step_static_blob it n fs k r :
  let fc := StaticLenBlobFc n false in
  inv it -> no_var (control it) -> begin_state fc = Some (mState (control it)) -> fc_ok fc = true ->
  stack (control it) = frame_of fc 0 0 :: fs -> stacked (head_of (control it)) fs k -> field data fc k (point it) = r -> ok r -> follows it r.
Proof.
  intros fc Hi Hz Hs Hfc Hstk Hst Hk Hok. assert (Hs' := Hs). injection Hs' as Hs'.
  unfold ItemFollow.follows, handleState. apply wp_bind, wp_gets. rewrite <- Hs'. unfold handleCommonBeginReadStaticLenBlobFieldState.
  eapply wp_bind, wp_stackTopFc; [exact Hstk|]. unfold fc at 1. unfold handleCommonBeginReadStrBlobFieldState.
  eapply (wp_begin_aligned _ _ _ _ (field data fc k)); [done|done|intros; by eapply denotes_begin|done|exact Hk|done|].
  intros it' Hi' Hp Hc Hh Hd (x & y & Hctl) Hk'. assert (Hfc' := Hfc). simpl in Hfc'. unfold u64 in Hfc'. rewrite !andb_true_iff, Z.leb_le, Z.ltb_lt in Hfc'.
  eapply (wp_raw_content fc); rewrite ?Hctl; done || tauto.
Qed.
Lemma step_uuid_blob it n fs k r :
  let fc := StaticLenBlobFc n true in
  inv it -> no_var (control it) -> begin_state fc = Some (mState (control it)) -> fc_ok fc = true ->
  stack (control it) = frame_of fc 0 0 :: fs -> stacked (head_of (control it)) fs k -> field data fc k (point it) = r -> ok r -> follows it r.
Proof.
  intros fc Hi Hz Hs Hfc Hstk Hst Hk Hok. assert (Hs' := Hs). injection Hs' as Hs'.
  unfold ItemFollow.follows, handleState. apply wp_bind, wp_gets. rewrite <- Hs'. unfold handleCommonBeginReadStaticLenBlobFieldState.
  eapply wp_bind, wp_stackTopFc; [exact Hstk|]. unfold fc at 1. unfold handleCommonBeginReadStrBlobFieldState.
  eapply (wp_begin_aligned _ _ _ _ (field data fc k)); [done|done|intros; by eapply denotes_begin|done|exact Hk|done|].
  intros it' Hi' Hp Hc Hh Hd (x & y & Hctl) Hk'. assert (n = 16) as ->.
  { simpl in Hfc. rewrite andb_true_iff, Z.eqb_eq in Hfc. tauto. }
  apply wp_bind. simpl. eapply wp_bind, wp_set_topLen; [rewrite Hctl; exact Hstk|]. apply wp_set_state, wp_ret.
  eapply post_item; try done.
  apply denotes_state. left. split; [rewrite Hctl; exact Hz|]. rewrite Hctl. eapply (at_uuid_blob tc data _ _ fc 0); try done. apply Hz.
Qed.
Lemma step_dyn_str it e ix fs k r :
  let fc := DynLenStrFc e ix in
  inv it -> no_var (control it) -> begin_state fc = Some (mState (control it)) ->
  stack (control it) = frame_of fc 0 0 :: fs -> stacked (head_of (control it)) fs k -> field data fc k (point it) = r -> ok r -> follows it r.
Proof.
  intros fc Hi Hz Hs Hstk Hst Hk Hok. assert (Hs' := Hs). injection Hs' as Hs'.
  unfold ItemFollow.follows, handleState. apply wp_bind, wp_gets. rewrite <- Hs'. unfold handleBeginReadDynLenStrFieldState.
  eapply wp_bind, wp_stackTopFc; [exact Hstk|]. unfold fc at 1.
  destruct (with_saved_inv ix _ _ _ Hk Hok) as (n & Hn & Hk'). eapply wp_bind, wp_savedKeyVal; [exact Hn|].
  pose proof (saved_range _ _ _ (proj2 Hi) Hn) as Hrange. unfold from_bytes in Hk'. destruct ((n =? 0) || _) eqn:Hb; [|by rewrite <- Hk' in Hok; destruct Hok].
  eapply wp_bind, wp_dl_bytes; [done|lia|]. unfold handleCommonBeginReadStrBlobFieldState.
  eapply (wp_begin_aligned _ _ _ _ (field data fc k)); [done|done|intros; by eapply denotes_begin| |exact Hk|done|].
  { intros p Hp. unfold fc. cbn [field]. rewrite (with_saved_eq ix n _ (decoded it)) by done. unfold from_bytes. by rewrite Hb. }
  intros it' Hi' Hp Hc Hh Hd (x & y & Hctl) Hk2.
  eapply (wp_raw_content fc); rewrite ?Hctl; done.
Qed.
Lemma step_dyn_blob it ix fs k r :
  let fc := DynLenBlobFc ix in
  inv it -> no_var (control it) -> begin_state fc = Some (mState (control it)) ->
  stack (control it) = frame_of fc 0 0 :: fs -> stacked (head_of (control it)) fs k -> field data fc k (point it) = r -> ok r -> follows it r.
Proof.
  intros fc Hi Hz Hs Hstk Hst Hk Hok. assert (Hs' := Hs). injection Hs' as Hs'.
  unfold ItemFollow.follows, handleState. apply wp_bind, wp_gets. rewrite <- Hs'. unfold handleBeginReadDynLenBlobFieldState.
  eapply wp_bind, wp_stackTopFc; [exact Hstk|]. unfold fc at 1.
  destruct (with_saved_inv ix _ _ _ Hk Hok) as (n & Hn & Hk'). eapply wp_bind, wp_savedKeyVal; [exact Hn|].
  pose proof (saved_range _ _ _ (proj2 Hi) Hn) as Hrange. unfold from_bytes in Hk'. destruct ((n =? 0) || _) eqn:Hb; [|by rewrite <- Hk' in Hok; destruct Hok].
  eapply wp_bind, wp_dl_bytes; [done|lia|]. unfold handleCommonBeginReadStrBlobFieldState.
  eapply (wp_begin_aligned _ _ _ _ (field data fc k)); [done|done|intros; by eapply denotes_begin| |exact Hk|done|].
  { intros p Hp. unfold fc. cbn [field]. rewrite (with_saved_eq ix n _ (decoded it)) by done. unfold from_bytes. by rewrite Hb. }
  intros it' Hi' Hp Hc Hh Hd (x & y & Hctl) Hk2.
  eapply (wp_raw_content fc); rewrite ?Hctl; done.
Qed.

Lemma step_null_terminated it e fs k r :
  let fc := NullTerminatedStrFc e in
  inv it -> no_var (control it) -> begin_state fc = Some (mState (control it)) ->
  stack (control it) = frame_of fc 0 0 :: fs -> stacked (head_of (control it)) fs k -> field data fc k (point it) = r -> ok r -> follows it r.
Proof.
  intros fc Hi Hz Hs Hstk Hst Hk Hok.
  assert (Hbegin : wp (handleCommonBeginReadNullTerminatedStrFieldState debug (utf_of e) (substr_state (utf_of e))) it
                     (post r (pos (point it)) (mState (control it))) (post_throw r (pos (point it)))).
  { unfold handleCommonBeginReadNullTerminatedStrFieldState. eapply wp_bind, wp_stackTopFc; [exact Hstk|].
    eapply (wp_begin_aligned _ _ _ _ (field data fc k)); [done|done|intros; by eapply denotes_begin|done|exact Hk|done|].
    intros it' Hi' Hp Hc Hh Hd (x & y & Hctl) Hk2.
    apply wp_bind, wp_modify_control, wp_bind, wp_set_state, wp_ret.
    eapply post_item; try done.
    apply denotes_state. left. simpl. rewrite Hctl. split; [by destruct e|].
    pose proof (at_substr tc data (with_mState (substr_state (utf_of e)) (with_nullCpFinder (utf_of e) [] (control it'))) (point it') (utf_of e) fc 0 0 fs k) as Hd'.
    rewrite Hctl in Hd'. replace (nullCpFinder (utf_of e) _) with (@nil Z) in Hd' by (by destruct e). by destruct e; apply Hd'. }
  unfold ItemFollow.follows, handleState. apply wp_bind, wp_gets.
  destruct e; injection Hs as Hs'; rewrite <- Hs' in Hbegin |- *; exact Hbegin.
Qed.

(** * Data *)

Lemma dl_bytes_ok n : 0 <= n -> 8 * n <= 2 ^ 62 -> (n =? 0) || (n <? (2 ^ 64 - 1) / 8) = true.
Proof. intros. apply orb_true_iff. right. apply Z.ltb_lt. change ((2 ^ 64 - 1) / 8) with 2305843009213693951. lia. Qed.

Lemma bytes_at_advance p b l : at_pkt p mod 8 = 0 -> at_head p mod 8 = 0 -> 0 <= pos p -> bytes_at data p = b ++ l ->
  bytes_at data (advance (8 * Z.of_nat (length b)) p) = l.
Proof.
  intros Hp Hh H0 Hb. unfold bytes_at in *. rewrite pos_advance.
  replace (Z.to_nat ((pos p + 8 * Z.of_nat (length b)) / 8)) with (Z.to_nat (pos p / 8) + length b)%nat by (unfold pos in *; div_lia).
  rewrite <- drop_drop, Hb. apply drop_app_length.
Qed.

(** Giving some of the [n] bytes of data: all, or not. *)
Lemma raw_delivers n kk p b l r :
  at_pkt p mod 8 = 0 -> at_head p mod 8 = 0 -> 0 <= pos p -> bytes_at data p = b ++ l -> 1 <= Z.of_nat (length b) <= n ->
  8 * Z.of_nat (length b) <= contentLeft p -> pos p + 8 * Z.of_nat (length b) <= bits_of_data data -> raw data n kk p = r -> ok r ->
  let p' := advance (8 * Z.of_nat (length b)) p in
  exists r', delivers1 (RawDataItem b) (pos p) (pos p') r r' /\ (Z.of_nat (length b) = n -> kk b p' = r') /\
             (Z.of_nat (length b) < n -> raw data (n - Z.of_nat (length b)) (fun t => kk (b ++ t)) p' = r').
Proof.
  intros Hp Hh H0 Hb Hn Hc Hd Hr Hok p'. set (m := Z.of_nat (length b)) in *. pose proof (bytes_at_advance p b l Hp Hh H0 Hb) as Hb'. fold m in Hb'.
  unfold raw in Hr. destruct (demand_cases _ _ _ _ _ Hr Hok) as [Hc0 [[Hbad ->]|(Hc8 & Hd8 & Hk)]].
  - exists ([], Failed). split; [eapply delivers_before_failure; [done|unfold p'; rewrite pos_advance; lia]|]. split; [lia|].
    intros Hlt. unfold raw, demand. unfold p'. rewrite contentLeft_advance, pos_advance.
    destruct (Z.ltb_spec (contentLeft p - 8 * m) 0); [lia|].
    destruct (Z.ltb_spec (contentLeft p - 8 * m) (8 * (n - m))); [done|].
    destruct (Z.ltb_spec (bits_of_data data) (pos p + 8 * m + 8 * (n - m))); [done|lia].
  - cbv zeta in Hk. rewrite Hb in Hk. destruct (Z.eq_dec m n) as [<-|Hne].
    + rewrite <- Hk. replace (Z.to_nat m) with (length b) by lia. rewrite take_app_length, emit_eq. exists (kk b p'). unfold p'.
      split; [|split; [done|lia]]. destruct (kk b _) as [l' st]. apply delivers_whole.
    + assert (Ht : take (Z.to_nat n) (b ++ l) = b ++ take (Z.to_nat (n - m)) l).
      { rewrite take_app. rewrite take_ge by lia. f_equal. f_equal. lia. }
      rewrite Ht, emit_eq in Hk. rewrite <- Hk. set (t := take (Z.to_nat (n - m)) l) in *.
      assert (Htl : t <> []).
      { intros E. apply (f_equal length) in E. unfold t in E. rewrite length_take in E. apply (f_equal length) in Hb.
        unfold bytes_at in Hb. rewrite length_drop, length_app in Hb. unfold bits_of_data, pos in *. simpl in E. div_lia. }
      eexists. split; [apply delivers_part; [reflexivity| |exact Htl]|split; [lia|intros _]].
      { intros ->. simpl in *. lia. }
      unfold raw, demand, p'. rewrite contentLeft_advance, pos_advance.
      destruct (Z.ltb_spec (contentLeft p - 8 * m) 0); [lia|].
      destruct (Z.ltb_spec (contentLeft p - 8 * m) (8 * (n - m))); [lia|].
      destruct (Z.ltb_spec (bits_of_data data) (pos p + 8 * m + 8 * (n - m))); [lia|].
      rewrite Hb', emit_eq, advance_advance. fold t. by replace (8 * m + 8 * (n - m)) with (8 * n) by lia.
Qed.

Lemma wp_raw_data fc i n fs it (Q : list Z -> ItemSeqIter M -> Prop) E kk r :
  inv it -> stack (control it) = frame_of fc i n :: fs -> 0 <= i < n -> n < 2 ^ 64 -> at_head (point it) mod 8 = 0 ->
  raw data (n - i) kk (point it) = r -> ok r ->
  (forall b it' r', let j := i + Z.of_nat (length b) in
     inv it' -> control it' = with_stack (frame_of fc j n :: fs) (control it) -> curItem it' = Some (RawDataItem b) -> i < j <= n ->
     pos (point it) <= pos (point it') -> at_head (point it') mod 8 = 0 -> delivers1 (RawDataItem b) (pos (point it)) (pos (point it')) r r' ->
     (j = n -> kk b (point it') = r') -> (j < n -> raw data (n - j) (fun t => kk (b ++ t)) (point it') = r') -> Q b it') ->
  (r = ([], Failed) -> forall it', E Error it') ->
  (forall it', again = true -> inv it' -> control it' = control it -> point it' = point it -> E TryAgain it') ->
  wp (handleCommonReadRawDataNoNextState debug) it Q E.
Proof.
  intros [Hw Hd] Hs Hi Hn Hh8 Hk Hok HT HF HA. unfold handleCommonReadRawDataNoNextState.
  apply wp_bind, wp_gets, wp_bind, wp_assert; [by apply Z.eqb_eq|]. eapply wp_bind, wp_stackTop; [exact Hs|]. simpl.
  apply wp_bind, wp_assert; [apply Z.ltb_lt; lia|].
  assert (Hk' := Hk). unfold raw in Hk'. destruct (demand_cases _ _ _ _ _ Hk' Hok) as [Hc0 Hcases]. clear Hk'.
  eapply wp_bind, wp_requireContentData; try done; [apply Hd| | |].
  2: { intros Hbad. apply HF. destruct Hcases as [[_ ->]|(? & ? & _)]; [done|lia]. }
  2: { intros w Hag Hw' Hsame _. apply HA; try done. by apply point_same_head. }
  intros w Hw' Hsame Hl _ Hpos8. assert (Hpt : point (at_window w it) = point it) by (by apply point_same_head).
  eapply wp_bind, wp_remainingBufLen; [done..|]. simpl. apply wp_bind, wp_assert; [by apply Z.leb_le|].
  eapply wp_bind, wp_bufAtHead; [done..|]. rewrite Hpt. intros buf tail Hb Hbl. simpl in Hbl.
  assert (Hhw : headOffsetInCurPkt w mod 8 = 0) by (destruct Hsame as [_ ->]; exact Hh8). rewrite Hhw in Hbl.
  rewrite wrapu_small by lia. set (m := Z.min _ _). assert (Hm : 1 <= m <= n - i /\ 8 * m <= bufLeft w) by (subst m; div_lia).
  pose proof (win_end _ _ _ Hw') as Hend. pose proof (win_head _ _ _ Hw') as [Hh0 _].
  assert (Hp0 : 0 <= curPktOffsetInItemSeq w) by apply Hw'.
  assert (Hl62 : 8 * m <= 2 ^ 62) by (unfold bufLeft in Hm; lia).
  apply wp_bind, wp_dl_bytes; [by apply dl_bytes_ok; lia|lia|]. apply wp_bind. unfold checkContentLen.
  eapply wp_bind, wp_remainingPktContentLen; [done|by rewrite Hpt|apply Hd|]. rewrite Hpt.
  destruct (Z.ltb_spec (contentLeft (point it)) (8 * m)) as [Hlt|Hge].
  { apply wp_throw, HF. destruct Hcases as [[_ ->]|(? & ? & _)]; [done|lia]. }
  apply wp_ret. set (b := take (Z.to_nat m) buf).
  assert (Hbm : Z.of_nat (length b) = m) by (unfold b; rewrite length_take; lia).
  eapply wp_bind, wp_updateForUser; [done..|]. intros o.
  eapply wp_bind, wp_consumeAvailData; [done..|simpl; lia|]. eapply wp_bind, wp_set_stackTop; [exact Hs|]. apply wp_ret. simpl.
  assert (Hb' : bytes_at data (point it) = b ++ drop (Z.to_nat m) buf ++ tail) by (by rewrite app_assoc; unfold b; rewrite take_drop).
  assert (Hpp : 0 <= pos (point it)). { pose proof (win_head _ _ _ Hw). assert (0 <= at_pkt (point it)) by apply Hw. unfold pos. simpl in *. lia. }
  assert (Hpd : pos (point it) + 8 * m <= bits_of_data data).
  { rewrite <- Hpt. unfold pos. simpl. unfold bufLeft in Hm. lia. }
  destruct (raw_delivers (n - i) kk (point it) b (drop (Z.to_nat m) buf ++ tail) r) as (r' & Hdel & Hall & Hpart); try done; try lia.
  { apply Hw. }
  rewrite Hbm in *. set (it' := at_control _ _).
  assert (Hpt' : point it' = advance (8 * m) (point it)) by (unfold it', point; simpl; apply point_head_plus; by apply head_plus_advance).
  apply (HT b it' r'); rewrite ?Hbm, ?Hpt'; try done; try lia.
  - split; [by apply win_ok_advance; [|lia]|exact Hd].
  - unfold it'. simpl. replace (8 * m / 8) with m by div_lia. by rewrite wrapu_small by lia.
  - rewrite pos_advance. lia.
  - simpl in *. div_lia.
  - intros Ej. apply Hall. lia.
  - intros Ej. rewrite <- Hpart by lia. f_equal. lia.
Qed.

Lemma post_delivers i r r' p s (it : ItemSeqIter M) k :
  inv it -> p <= pos (point it) -> curItem it = Some i -> delivers1 i p (pos (point it)) r r' ->
  denotes_now (control it) (point it) k -> k (point it) = r' -> post r p s false it.
Proof. intros Hi Hp Hc Hd Hden Hk. split; [done|]. rewrite Hc. exists r'. split; [done|]. split; [done|]. exists k. split; [by apply denotes_state|done]. Qed.
Lemma post_again r p (it : ItemSeqIter M) k :
  again = true -> inv it -> p <= pos (point it) -> denotes_now (control it) (point it) k -> k (point it) = r -> post_throw r p TryAgain it.
Proof. intros Ha Hi Hp Hden Hk. split; [done|]. split; [done|]. left. split; [done|]. exists k. split; [by apply denotes_state|done]. Qed.

Lemma step_raw it fc i n fs k r :
  inv it -> no_var (control it) -> mState (control it) = ReadRawData -> is_scalar fc = false -> stack (control it) = frame_of fc i n :: fs ->
  0 <= i < n -> n < 2 ^ 64 -> at_head (point it) mod 8 = 0 -> stacked (head_of (control it)) fs k ->
  raw data (n - i) (fun _ => emit (end_item fc) k) (point it) = r -> ok r -> follows it r.
Proof.
  intros Hi Hz Hs Hsc Hstk Hin Hn Hh Hst Hk Hok. unfold ItemFollow.follows, handleState. apply wp_bind, wp_gets. rewrite Hs.
  unfold handleReadRawDataState. eapply wp_bind, wp_raw_data; try done.
  - intros b it' r' j Hi' Hctl Hc Hj Hp Hh' Hdel Hall Hpart.
    assert (Hstk' : stack (control it') = frame_of fc j n :: fs) by (by rewrite Hctl).
    eapply wp_bind, wp_stackTop; [exact Hstk'|]. simpl. destruct (Z.eqb_spec j n) as [E|Hne].
    + eapply wp_bind, wp_restoreState; [exact Hstk'|]. apply wp_ret. eapply post_delivers; try done; [|by apply Hall].
      left. split; [by rewrite Hctl|]. eapply at_end; try done. rewrite Hctl. exact Hst.
    + apply wp_bind, wp_ret, wp_ret. eapply post_delivers; try done; [|by apply Hpart; lia].
      left. split; [by rewrite Hctl|]. eapply at_raw; try done; [by rewrite Hctl|lia|by rewrite Hctl].
  - intros it' Hag Hi' Hctl Hp. eapply (post_again _ _ _ (raw data (n - i) (fun _ => emit (end_item fc) k))); try done; rewrite ?Hp; try done.
    left. rewrite Hctl. split; [done|]. by eapply at_raw.
Qed.

Lemma wp_copy_to_uuid b i it (Q : unit -> ItemSeqIter M -> Prop) E :
  0 <= i -> i + Z.of_nat (length b) <= 16 -> length (curMetadataStreamUuid (control it)) = 16%nat ->
  (forall u, length u = 16%nat -> take (Z.to_nat (i + Z.of_nat (length b))) u = take (Z.to_nat i) (curMetadataStreamUuid (control it)) ++ b ->
     Q tt (at_control (with_curMetadataStreamUuid u (control it)) it)) -> wp (copy_to_uuid b i) it Q E.
Proof.
  intros Hi Hb Hl HQ. unfold copy_to_uuid. apply wp_bind, wp_gets. rewrite bool_decide_true by lia. apply wp_modify_control, HQ.
  - rewrite !length_app, length_take, length_drop. lia.
  - set (cur := curMetadataStreamUuid (control it)) in *. rewrite app_assoc, take_app_le by (rewrite length_app, length_take; lia).
    apply take_ge. rewrite length_app, length_take. lia.
Qed.

Lemma step_uuid_section it fc i fs k r :
  inv it -> no_var (control it) -> mState (control it) = ReadMetadataStreamUuidBlobFieldSection -> is_scalar fc = false ->
  stack (control it) = frame_of fc i 16 :: fs -> 0 <= i < 16 -> at_head (point it) mod 8 = 0 -> stacked (head_of (control it)) fs k ->
  raw data (16 - i) (fun b => emit (MetadataStreamUuidItem (take (Z.to_nat i) (curMetadataStreamUuid (control it)) ++ b)) (emit (end_item fc) k)) (point it) = r ->
  ok r -> follows it r.
Proof.
  intros Hi Hz Hs Hsc Hstk Hin Hh Hst Hk Hok. unfold ItemFollow.follows, handleState. apply wp_bind, wp_gets. rewrite Hs.
  unfold handleReadMetadataStreamUuidBlobFieldSectionState. eapply wp_bind, wp_stackTop; [exact Hstk|].
  eapply wp_bind, wp_raw_data; try done.
  - intros b it' r' j Hi' Hctl Hc Hj Hp Hh' Hdel Hall Hpart. simpl.
    assert (Hz' : no_var (control it')) by (by rewrite Hctl). destruct Hz' as (Hu' & Hv').
    apply wp_bind, wp_copy_to_uuid; [lia|lia|done|]. intros u Hul Hut. apply wp_bind. unfold end_uuid_bytes.
    eapply wp_bind, wp_stackTop; [simpl; by rewrite Hctl|]. simpl. fold j in Hut. rewrite Hctl in Hut. simpl in Hut.
    destruct (Z.eqb_spec j 16) as [E|Hne].
    + apply wp_bind, wp_modify_control, wp_set_state, wp_ret. eapply post_delivers; try done; [|by apply Hall].
      left. split; [by split|]. rewrite <- Hut, E. replace (take (Z.to_nat 16) u) with u by (symmetry; apply take_ge; lia).
      eapply (at_SetMetadataStreamUuidItem tc data (with_mState _ (with_metadataStreamUuid u _)) _ fc); try done; simpl; rewrite Hctl; [done|exact Hst].
    + apply wp_ret, wp_ret. specialize (Hpart ltac:(lia)).
      eapply (post_delivers _ _ _ _ _ _ (raw data (16 - j) (fun b => emit (MetadataStreamUuidItem (take (Z.to_nat j) u ++ b)) (emit (end_item fc) k)))); try done.
      * left. split; [by split|]. eapply (at_uuid_blob tc data (with_curMetadataStreamUuid u (control it')) _ fc j fs k); simpl; rewrite ?Hctl; try done. lia.
      * rewrite <- Hpart, Hut. unfold raw, demand. cbv beta zeta. by rewrite <- app_assoc.
  - intros it' Hag Hi' Hctl Hp. eapply post_again; try done; rewrite ?Hp; [done| |exact Hk].
    left. rewrite Hctl. split; [done|]. eapply at_uuid_blob; try done. apply Hz.
Qed.

Lemma null_terminated_ok u f k p : ok (null_terminated data u f k p) -> 0 <= contentLeft p.
Proof.
  unfold null_terminated. intros Hok. destruct (snd _) as [n|].
  - unfold raw in Hok. by destruct (demand_cases _ _ _ _ _ eq_refl Hok).
  - destruct Hok as [Hok _]. by destruct (Z.ltb_spec (contentLeft p) 0).
Qed.
Lemma null_terminated_short u f k p :
  ok (null_terminated data u f k p) -> contentLeft p < 8 \/ bits_of_data data < pos p + 8 -> null_terminated data u f k p = ([], Failed).
Proof.
  intros Hok Hs. pose proof (null_terminated_ok _ _ _ _ Hok) as Hc. unfold null_terminated in *. destruct (snd _) as [n|] eqn:E.
  - apply findNullCp_range in E. unfold raw in *. destruct (demand_cases _ _ _ _ _ eq_refl Hok) as [_ [[_ Hr]|(? & ? & _)]]; [done|lia].
  - by destruct (Z.ltb_spec (contentLeft p) 0); [lia|].
Qed.

Lemma null_terminated_cut u f k p a l :
  bytes_at data p = a ++ l ->
  contentLeft p < 8 * Z.of_nat (length (match snd (findNullCp (codeUnitLen u) f a 0) with Some n => take n a | None => a end)) ->
  ok (null_terminated data u f k p) -> null_terminated data u f k p = ([], Failed).
Proof.
  intros Hb Hs Hok. pose proof (null_terminated_ok _ _ _ _ Hok) as Hc. unfold null_terminated in *. rewrite Hb, findNullCp_app in *.
  destruct (snd (findNullCp (codeUnitLen u) f a 0)) as [n|] eqn:E; simpl in *.
  - pose proof (findNullCp_range _ _ _ _ E). rewrite length_take in Hs.
    unfold raw in *. destruct (demand_cases _ _ _ _ _ eq_refl Hok) as [_ [[_ Hr]|(? & ? & _)]]; [done|lia].
  - destruct (snd (findNullCp _ _ l 0)) as [n|]; simpl in *; [|by destruct (Z.ltb_spec (contentLeft p) 0); [lia|]].
    unfold raw in *. destruct (demand_cases _ _ _ _ _ eq_refl Hok) as [_ [[_ Hr]|(? & ? & _)]]; [done|lia].
Qed.

(** Giving the bytes of a string up to its null codepoint, or some bytes before. *)
Lemma null_terminated_delivers u f k p a l r :
  at_pkt p mod 8 = 0 -> at_head p mod 8 = 0 -> 0 <= pos p -> bytes_at data p = a ++ l -> 1 <= Z.of_nat (length a) ->
  pos p + 8 * Z.of_nat (length a) <= bits_of_data data -> null_terminated data u f k p = r -> ok r ->
  let found := findNullCp (codeUnitLen u) f a 0 in
  let b := match snd found with Some n => take n a | None => a end in
  8 * Z.of_nat (length b) <= contentLeft p ->
  let p' := advance (8 * Z.of_nat (length b)) p in
  exists r', delivers1 (RawDataItem b) (pos p) (pos p') r r' /\
    match snd found with Some _ => k p' = r' | None => null_terminated data u (fst found) k p' = r' end.
Proof.
  intros Hp Hh H0 Hb Ha Hd Hr Hok found b Hc p'. assert (Hr' := Hr). unfold null_terminated in Hr'. rewrite Hb, findNullCp_app in Hr'. fold found in Hr'.
  destruct (snd found) as [n|] eqn:Ef.
  - pose proof (findNullCp_range _ _ _ _ Ef) as Hn. assert (Hlb : length b = n) by (unfold b; rewrite length_take; lia).
    destruct (raw_delivers (Z.of_nat n) (fun _ => k) p b (drop n a ++ l) r) as (r' & Hdel & Hall & _); try done; try lia.
    { by rewrite Hb, app_assoc; unfold b; rewrite take_drop. }
    exists r'. split; [done|]. apply Hall. lia.
  - subst b. destruct (snd (findNullCp (codeUnitLen u) (fst found) l 0)) as [m|] eqn:Em; simpl in Hr'.
    + pose proof (findNullCp_range _ _ _ _ Em) as Hm.
      destruct (raw_delivers (Z.of_nat (length a + m)) (fun _ => k) p a l r) as (r' & Hdel & _ & Hpart); try done; try lia.
      exists r'. split; [done|]. rewrite <- Hpart by lia. unfold null_terminated, p'. rewrite (bytes_at_advance p a l) by done.
      rewrite Em. f_equal. lia.
    + assert (Hc0 : 0 <= contentLeft p) by lia. destruct (Z.ltb_spec (contentLeft p) 0); [lia|]. subst r. exists ([], Failed).
      split; [rewrite <- Hr'; apply (delivers_before_failure _ _ _ a); [done|unfold p'; rewrite pos_advance; lia]|].
      unfold null_terminated, p'. rewrite (bytes_at_advance p a l) by done. rewrite Em, contentLeft_advance.
      by destruct (Z.ltb_spec (contentLeft p - 8 * Z.of_nat (length a)) 0); [lia|].
Qed.

Lemma step_substr it u fc i n fs k r :
  inv it -> no_var (control it) -> mState (control it) = substr_state u -> is_scalar fc = false -> stack (control it) = frame_of fc i n :: fs ->
  at_head (point it) mod 8 = 0 -> stacked (head_of (control it)) fs k ->
  null_terminated data u (nullCpFinder u (control it)) (emit (end_item fc) k) (point it) = r -> ok r -> follows it r.
Proof.
  intros [Hw Hd] Hz Hs Hsc Hstk Hh8 Hst Hk Hok.
  assert (Hbody : wp (handleCommonReadSubstrUntilNullCodepointState debug u) it (post r (pos (point it)) (mState (control it))) (post_throw r (pos (point it)))).
  { unfold handleCommonReadSubstrUntilNullCodepointState. apply wp_bind, wp_gets, wp_bind, wp_assert; [by apply Z.eqb_eq|].
    assert (Hok' := Hok). rewrite <- Hk in Hok'.
    eapply wp_bind, wp_requireContentData; try done; [apply Hd|by apply null_terminated_ok in Hok'| | |].
    2: { intros Hbad it'. simpl. rewrite <- Hk. by apply null_terminated_short. }
    2: { intros w Hag Hw' Hsame _. assert (Hpt : point (at_window w it) = point it) by (by apply point_same_head).
         eapply (post_again _ _ _ (null_terminated data u (nullCpFinder u (control it)) (emit (end_item fc) k))); rewrite ?Hpt; try done.
         left. split; [done|]. by eapply (at_substr tc data). }
    intros w Hw' Hsame Hl _ Hpos8. assert (Hpt : point (at_window w it) = point it) by (by apply point_same_head).
    eapply wp_bind, wp_remainingBufLen; [done..|]. simpl. apply wp_bind, wp_assert; [by apply Z.leb_le|].
    eapply wp_bind, wp_bufAtHead; [done..|]. rewrite Hpt. intros buf tail Hb Hbl. simpl in Hbl.
    assert (Hhw : headOffsetInCurPkt w mod 8 = 0) by (destruct Hsame as [_ ->]; exact Hh8). rewrite Hhw in Hbl.
    apply wp_bind, wp_gets. simpl. replace (Z.to_nat (bufLeft w / 8)) with (length buf) by div_lia. rewrite take_ge by lia.
    pose proof (win_end _ _ _ Hw') as Hend. pose proof (win_head _ _ _ Hw') as [Hh0 _]. assert (Hp0 : 0 <= curPktOffsetInItemSeq w) by apply Hw'.
    pose proof (null_terminated_delivers u (nullCpFinder u (control it)) (emit (end_item fc) k) (point it) buf tail r) as Hdel. cbv zeta in Hdel.
    destruct (findNullCp (codeUnitLen u) (nullCpFinder u (control it)) buf 0) as [f found] eqn:Ef. simpl in Hdel.
    apply wp_bind, wp_modify_control. set (b := match found with Some n => take n buf | None => buf end) in *.
    assert (Hblen : 1 <= Z.of_nat (length b) <= Z.of_nat (length buf)).
    { subst b. destruct found as [m|]; [|div_lia]. pose proof (findNullCp_range (codeUnitLen u) (nullCpFinder u (control it)) buf m ltac:(by rewrite Ef)).
      rewrite length_take. lia. }
    apply wp_bind, wp_dl_bytes; [apply dl_bytes_ok; unfold bufLeft in *; lia|lia|]. apply wp_bind. unfold checkContentLen.
    assert (Hpt2 : point (at_control (with_nullCpFinder u f (control (at_window w it))) (at_window w it)) = point it) by exact Hpt.
    eapply wp_bind, wp_remainingPktContentLen; [done|rewrite Hpt2; by apply null_terminated_ok in Hok'|apply Hd|]. rewrite Hpt2.
    destruct (Z.ltb_spec (contentLeft (point it)) (8 * Z.of_nat (length b))) as [Hlt|Hge].
    { apply wp_throw. rewrite <- Hk. rewrite <- Hk in Hok. apply (null_terminated_cut u _ _ _ buf tail); try done. by rewrite Ef. }
    apply wp_ret. eapply wp_bind, wp_updateForUser; [done..|]. intros o. eapply wp_bind, wp_consumeAvailData; [done..|simpl; unfold bufLeft in *; lia|].
    assert (Hpd : pos (point it) + 8 * Z.of_nat (length buf) <= bits_of_data data) by (rewrite <- Hpt; unfold pos; simpl; unfold bufLeft in *; lia).
    destruct Hdel as (r' & Hdel & Hnext); try done; [apply Hw|rewrite <- Hpt; unfold pos; simpl; lia|lia|].
    set (it' := at_window _ _).
    assert (Hpt' : point it' = advance (8 * Z.of_nat (length b)) (point it)) by (unfold it', point; simpl; apply point_head_plus; by apply head_plus_advance).
    assert (Hi' : inv it') by (split; [apply win_ok_advance; [done|simpl; lia]|exact Hd]).
    assert (Hp' : pos (point it) <= pos (point it')) by (rewrite Hpt', pos_advance; lia).
    assert (Hctl' : control it' = with_nullCpFinder u f (control it)) by done.
    assert (Hz' : no_var (control it')) by (rewrite Hctl'; by destruct u).
    assert (Hstk' : stack (control it') = frame_of fc i n :: fs) by (rewrite Hctl'; by destruct u).
    assert (Hst' : stacked (head_of (control it')) fs k) by (rewrite Hctl'; by destruct u).
    rewrite <- Hpt' in Hdel, Hnext. destruct found as [m|].
    - rewrite bool_decide_true by done. eapply wp_bind, wp_restoreState; [exact Hstk'|]. apply wp_ret. eapply post_delivers; try done.
      left. split; [done|]. by eapply at_end.
    - rewrite bool_decide_false by (intros Hf; by apply Hf). apply wp_bind, wp_ret, wp_ret. eapply post_delivers; try done.
      left. split; [done|]. replace f with (nullCpFinder u (control it')) by (rewrite Hctl'; by destruct u). eapply at_substr; try done.
      + rewrite Hctl'. by destruct u.
      + rewrite Hpt'. simpl in *. div_lia. }
  unfold ItemFollow.follows, handleState. apply wp_bind, wp_gets. destruct u; rewrite Hs in Hbody |- *; exact Hbody.
Qed.
End follow.
