(* ===== verification/ItemFollowScopes.v ===== *)
(** The item sequence iterator follows the reference decoder in the fields with subfields and
    in scopes: their ends and their beginnings. *)

From S2P Require Import Prelude Bitfield CtfIr ItemBits ItemBitsFacts ItemState ItemSeq ItemSpec ItemWp ItemSim ItemStep ItemFollow ItemFollowData.

(** Each state of the item sequence iterator that reads an optional or a variant field, an
    array which is the UUID of a metadata stream, that ends a field, or that gives a value
    read before, follows what remains to decode. *)

Section follow.
Context {M : Type} `{Medium M} (debug : bool) (tc : TraceCls) (data : list Z) (again : bool) (I : M -> Prop).
Context `{!MediumServes data again I}.
Context (Hbytes : buf_wf 8 data) (Hsize : bits_of_data data <= 2 ^ 62).

Abbreviation denotes_now := (denotes_now tc data).
Abbreviation denotes := (denotes tc data).
Abbreviation stacked := (stacked tc data).
Abbreviation head_of := curEventRecordHeadOffset.
Abbreviation inv := (inv data I).
Abbreviation post := (post tc data I).
Abbreviation post_throw := (post_throw tc data again I).
Abbreviation follows := (follows debug tc data again I).
Abbreviation frame_of fc i n := (StackFrameOf (end_state fc) (Some fc) i n).

(** * The ends of fields *)

Lemma wp_end fc i n fs k mk it r s :
  inv it -> no_var (control it) -> is_scalar fc = false -> stack (control it) = frame_of fc i n :: fs ->
  stacked (head_of (control it)) fs k -> emit (end_item fc) k (point it) = r -> end_item fc = mk fc ->
  wp (handleCommonEndReadCompoundFieldState debug mk) it (post r (pos (point it)) s) (post_throw r (pos (point it))).
Proof.
  intros [Hw Hd] Hz Hsc Hs Hst Hr Hmk. unfold handleCommonEndReadCompoundFieldState. eapply wp_bind, wp_stackTopFc; [exact Hs|].
  eapply wp_bind, wp_updateForUser; [done..|]. intros o. eapply wp_bind, wp_stackPop; [exact Hs|].
  eapply wp_bind, (wp_prepareToReadNextField tc data); [exact Hz|exact Hst|]. intros c' Hden _. apply wp_ret.
  rewrite Hmk in Hr. eapply post_item; try done. by apply denotes_state.
Qed.
Lemma step_end it fc i n fs k r :
  inv it -> no_var (control it) -> is_scalar fc = false -> mState (control it) = end_state fc -> stack (control it) = frame_of fc i n :: fs ->
  stacked (head_of (control it)) fs k -> emit (end_item fc) k (point it) = r -> follows it r.
Proof.
  intros Hi Hz Hsc Hs Hstk Hst Hr. unfold ItemFollow.follows, handleState. apply wp_bind, wp_gets. rewrite Hs.
  destruct fc; try done; simpl; by eapply wp_end.
Qed.

(** * Values read before *)

Lemma step_value s item it k r :
  inv it -> no_var (control it) -> stacked (head_of (control it)) (stack (control it)) k -> emit item k (point it) = r ->
  wp (act updateForUser debug item; act prepareToReadNextField; Stop) it (post r (pos (point it)) s) (post_throw r (pos (point it))).
Proof.
  intros [Hw Hd] Hz Hst Hr. eapply wp_bind, wp_updateForUser; [done..|]. intros o.
  eapply wp_bind, (wp_prepareToReadNextField tc data); [exact Hz|exact Hst|]. intros c' Hden _. apply wp_ret.
  eapply post_item; try done. by apply denotes_state.
Qed.
Lemma step_magic it k r :
  inv it -> no_var (control it) -> mState (control it) = SetPktMagicNumberItem -> stacked (head_of (control it)) (stack (control it)) k ->
  emit (PktMagicNumberItem (magicNumber (control it))) k (point it) = r -> follows it r.
Proof.
  intros Hi Hz Hs Hst Hr. unfold ItemFollow.follows, handleState. apply wp_bind, wp_gets. rewrite Hs. unfold handleSetPktMagicNumberItem.
  apply wp_bind, wp_gets. by eapply step_value.
Qed.
Lemma step_clk it k r :
  inv it -> no_var (control it) -> mState (control it) = SetDefClkValItem -> stacked (head_of (control it)) (stack (control it)) k ->
  emit (DefClkValItem (defClkCycles (control it))) k (point it) = r -> follows it r.
Proof.
  intros Hi Hz Hs Hst Hr. unfold ItemFollow.follows, handleState. apply wp_bind, wp_gets. rewrite Hs. unfold handleSetDefClkValItem.
  apply wp_bind, wp_gets. by eapply step_value.
Qed.
Lemma step_uuid_item it fc i n fs k r :
  inv it -> no_var (control it) -> mState (control it) = SetMetadataStreamUuidItem -> stack (control it) = frame_of fc i n :: fs ->
  is_scalar fc = false -> stacked (head_of (control it)) fs k ->
  emit (MetadataStreamUuidItem (metadataStreamUuid (control it))) (emit (end_item fc) k) (point it) = r -> follows it r.
Proof.
  intros [Hw Hd] Hz Hs Hstk Hsc Hst Hr. unfold ItemFollow.follows, handleState. apply wp_bind, wp_gets. rewrite Hs.
  unfold handleSetMetadataStreamUuidItemState. apply wp_bind, wp_gets. eapply wp_bind, wp_updateForUser; [done..|]. intros o.
  apply wp_bind. by eapply wp_begin_end with (fc := fc).
Qed.

(** * The UUID of a metadata stream, as an array *)

Lemma step_uuid_array it f n a fs k r :
  let fc := StaticLenArrayFc (FixedLenFc f) n a true in
  inv it -> no_var (control it) -> begin_state fc = Some (mState (control it)) -> fc_ok fc = true ->
  stack (control it) = frame_of fc 0 0 :: fs -> stacked (head_of (control it)) fs k -> field data fc k (point it) = r -> ok r -> follows it r.
Proof.
  intros fc Hi Hz Hs Hfc Hstk Hst Hk Hok. assert (Hs' := Hs). injection Hs' as Hs'.
  unfold ItemFollow.follows, handleState. apply wp_bind, wp_gets. rewrite <- Hs'. unfold handleBeginReadStaticLenArrayFieldMetadataStreamUuidState.
  eapply wp_bind, wp_stackTopFc; [exact Hstk|]. unfold fc at 1. assert (Hfc' := Hfc). simpl in Hfc'. rewrite !andb_true_iff, Z.eqb_eq in Hfc'.
  destruct Hfc' as [[[Ha _] _] [-> Hf]].
  eapply wp_bind, wp_updateForUser; [done|apply Hi|]. intros o. apply wp_bind, wp_assert; [done|].
  eapply (wp_aligned_begun debug tc data again I Hsize _ _ _ _ _ (field data fc k));
    [done|done|done|by apply (align_pow2 fc)|intros; by eapply denotes_begin|done|exact Hk|done|].
  intros it' Hi' Hp Hc _ Hd (x & y & Hctl) Hk'. apply wp_bind, wp_modify_control, wp_bind, wp_set_state, wp_ret.
  eapply post_item; try done. apply denotes_state. left. rewrite Hctl. split; [exact Hz|].
  eapply (at_uuid_elem tc data _ _ f fc 0); try done. apply Hz.
Qed.

Lemma step_uuid_elem it f fc i n fs k r :
  inv it -> no_var (control it) -> mState (control it) = ReadFixedLenMetadataStreamUuidByteUIntFieldBa8 ->
  curScalarFc (control it) = Some (FixedLenFc f) -> uuid_elem_ok f = true -> is_scalar fc = false ->
  stack (control it) = frame_of fc i n :: fs -> 0 <= i < 16 -> stacked (head_of (control it)) fs k ->
  uuid_elems data (Z.to_nat (16 - i)) f (take (Z.to_nat i) (curMetadataStreamUuid (control it)))
    (fun uuid => emit (MetadataStreamUuidItem uuid) (emit (end_item fc) k)) (point it) = r -> ok r -> follows it r.
Proof.
  intros Hi Hz Hs Hcur Hf Hsc Hstk Hin Hst Hk Hok. destruct (uuid_elem_reads f Hf) as [Hfok Hreads].
  unfold ItemFollow.follows, handleState. apply wp_bind, wp_gets. rewrite Hs. unfold handleReadFixedLenMetadataStreamUuidByteUIntFieldBa8State.
  set (K := fun uuid => emit _ _) in *. assert (Hk' := Hk). replace (Z.to_nat (16 - i)) with (S (Z.to_nat (16 - (i + 1)))) in Hk' by lia. simpl in Hk'.
  eapply wp_bind, (wp_read_fixed debug data again I Hbytes Hsize); [done..|exact Hk'|done| |done|].
  - intros v it' Hi' Hp Hc Hv (x & y & Hctl) Hk2. assert (Hstk' : stack (control it') = frame_of fc i n :: fs) by (by rewrite Hctl).
    eapply wp_bind, wp_stackTop; [exact Hstk'|]. simpl. assert (Hu : length (curMetadataStreamUuid (control it')) = 16%nat) by (rewrite Hctl; apply Hz).
    apply wp_bind, wp_copy_to_uuid; [lia|simpl; lia|done|]. intros u Hul Hut. simpl in Hut.
    eapply wp_bind, wp_set_stackTop; [exact Hstk'|]. unfold end_uuid_bytes. simpl. apply wp_bind.
    eapply wp_bind, wp_stackTop; [done|]. simpl. rewrite Hctl in Hut. change (Z.of_nat 1) with 1 in Hut. simpl in Hut.
    destruct (Z.eqb_spec (i + 1) 16) as [E|Hne].
    + apply wp_bind, wp_modify_control, wp_set_state, wp_ret. eapply post_item with (k := K u); try done.
      * apply denotes_state. left. simpl. split; [by rewrite Hctl; split; [|apply Hz]|].
        eapply (at_SetMetadataStreamUuidItem tc data (with_mState _ (with_metadataStreamUuid u _)) _ fc); try done. simpl. rewrite Hctl. exact Hst.
      * rewrite E in Hk2. simpl in Hk2. rewrite <- Hut, E in Hk2. by rewrite take_ge in Hk2 by (rewrite Hul; lia).
    + apply wp_ret, wp_ret. rewrite <- Hut in Hk2. eapply post_item; try done.
      apply denotes_state. left. simpl. split; [by rewrite Hctl; split; [|apply Hz]|].
      eapply (at_uuid_elem tc data (with_stack _ (with_curMetadataStreamUuid u (control it'))) _ f fc (i + 1)); simpl; rewrite ?Hctl; try done. lia.
  - intros it' Hag Hres. eapply (post_resumes tc data again I); try done; [apply Hi|]. intros p Hp. left. split; [done|].
    pose proof (at_uuid_elem tc data (control it) p f fc i n fs k Hs Hcur Hf Hsc Hstk Hin (proj1 Hz) Hst) as Hden.
    replace (Z.to_nat (16 - i)) with (S (Z.to_nat (16 - (i + 1)))) in Hden by lia. exact Hden.
Qed.

(** * Optional and variant fields *)

Lemma step_optional it sel e ranges ix fs k r :
  let fc := OptionalFc sel e ranges ix in
  inv it -> no_var (control it) -> begin_state fc = Some (mState (control it)) -> fc_ok fc = true ->
  stack (control it) = frame_of fc 0 0 :: fs -> stacked (head_of (control it)) fs k -> field data fc k (point it) = r -> ok r -> follows it r.
Proof.
  intros fc [Hw Hd] Hz Hs Hfc Hstk Hst Hk Hok. assert (Hs' := Hs). injection Hs' as Hs'.
  unfold ItemFollow.follows, handleState. apply wp_bind, wp_gets. rewrite <- Hs'. unfold handleCommonBeginReadOptionalField.
  eapply wp_bind, wp_stackTopFc; [exact Hstk|]. unfold fc at 1.
  destruct (with_saved_inv ix _ _ _ Hk Hok) as (v & Hn & Hk'). eapply wp_bind, wp_savedKeyVal; [exact Hn|]. cbv zeta in Hk'.
  eapply wp_bind, wp_updateForUser; [done..|]. intros o. fold fc in Hk' |- *. apply wp_bind.
  destruct (isEnabledBySelVal sel ranges (sel_val sel v)).
  - eapply (wp_begin_elem tc data I fc e 1); simpl; try done.
  - by eapply wp_begin_end with (fc := fc).
Qed.

Definition option_at (sel : SelType) (fc : Fc) (v : Z) (k : rest) : list (Fc * IntRangeSet) -> nat -> rest :=
  fix option_at (opts : list (Fc * IntRangeSet)) (i : nat) : rest :=
    match opts with
    | [] => ends Failed
    | (e, ranges) :: opts =>
      if contains ranges v then emit (VariantFieldBeginItem sel fc v i) (field data e (emit (VariantFieldEndItem sel fc) k)) else option_at opts (S i)
    end.
Lemma option_at_find sel fc v k opts i :
  option_at sel fc v k opts i =
  match findOptBySelVal opts v i with
  | None => ends Failed
  | Some (j, e) => emit (VariantFieldBeginItem sel fc v j) (field data e (emit (VariantFieldEndItem sel fc) k))
  end.
Proof. revert i. induction opts as [|[e ranges] opts IH]; intros i; [done|]. simpl. destruct (contains ranges v); [done|apply IH]. Qed.
Lemma find_ok opts v i j e : forallb (fun o => fc_ok (fst o)) opts = true -> findOptBySelVal opts v i = Some (j, e) -> fc_ok e = true.
Proof.
  revert i. induction opts as [|[e' ranges] opts IH]; intros i Hok Hf; [done|]. simpl in Hok, Hf. apply andb_true_iff in Hok as [He Hok].
  destruct (contains ranges v); [by simplify_eq|by eapply IH].
Qed.

Lemma step_variant it sel opts ix fs k r :
  let fc := VariantFc sel opts ix in
  inv it -> no_var (control it) -> begin_state fc = Some (mState (control it)) -> fc_ok fc = true ->
  stack (control it) = frame_of fc 0 0 :: fs -> stacked (head_of (control it)) fs k -> field data fc k (point it) = r -> ok r -> follows it r.
Proof.
  intros fc [Hw Hd] Hz Hs Hfc Hstk Hst Hk Hok. assert (Hs' := Hs). injection Hs' as Hs'.
  unfold ItemFollow.follows, handleState. apply wp_bind, wp_gets. rewrite <- Hs'. unfold handleCommonBeginReadVariantField.
  eapply wp_bind, wp_stackTopFc; [exact Hstk|]. unfold fc at 1.
  eapply wp_bind, wp_set_topLen; [exact Hstk|].
  destruct (with_saved_inv ix _ _ _ Hk Hok) as (v & Hn & Hk'). eapply wp_bind, wp_savedKeyVal; [exact Hn|]. cbv zeta in Hk'.
  change (option_at sel fc (sel_val sel v) k opts 0 (point it) = r) in Hk'. rewrite option_at_find in Hk'. fold fc.
  destruct (findOptBySelVal opts (sel_val sel v) 0) as [[j e]|] eqn:Hf.
  - eapply wp_bind, wp_updateForUser; [done..|]. intros o. pose proof (find_ok _ _ _ _ _ Hfc Hf) as He.
    eapply wp_bind, (wp_prepareToReadField tc data); simpl; [done|exact Hz| |done|].
    + by apply (stacked_field tc data (head_of (control it)) fc 0 1).
    + intros c' Hden _. apply wp_ret. eapply post_item; try done. by apply denotes_state.
  - eapply wp_bind, wp_updateForUser; [done..|]. intros o. by apply wp_throw.
Qed.
End follow.

(** Each state of the item sequence iterator that begins or ends a scope or an event record,
    or that gives information, follows what remains to decode. *)

Section follow.
Context {M : Type} `{Medium M} (debug : bool) (tc : TraceCls) (data : list Z) (again : bool) (I : M -> Prop).
Context `{!MediumServes data again I}.
Context (Hbytes : buf_wf 8 data) (Hsize : bits_of_data data <= 2 ^ 62) (Htc : trace_cls_ok tc = true).

Abbreviation denotes_now := (denotes_now tc data).
Abbreviation denotes := (denotes tc data).
Abbreviation scope_rest := (scope_rest tc data).
Abbreviation head_of := curEventRecordHeadOffset.
Abbreviation inv := (inv data I).
Abbreviation post := (post tc data I).
Abbreviation post_throw := (post_throw tc data again I).
Abbreviation follows := (follows debug tc data again I).
Abbreviation packets := (packets tc data (enough data)).

(** * Scopes *)

Lemma wp_prepareToTryReadScope sc fc it (Q : unit -> ItemSeqIter M -> Prop) E k :
  no_var (control it) -> scope_rest (head_of (control it)) sc k -> scope_ok fc = true ->
  (forall c', (forall p, denotes_now c' p (scope_field data sc fc k)) -> mState c' = TryBeginReadScope sc -> Q tt (at_control c' it)) ->
  wp (prepareToTryReadScope sc fc) it Q E.
Proof.
  intros Hz Hk Hfc HQ. unfold prepareToTryReadScope. apply wp_bind, wp_set_state, wp_bind, wp_modify_control. simpl.
  destruct fc as [fc|]; [apply wp_modify_control|apply wp_ret]; apply HQ; try done; intros p; left; (split; [exact Hz|]).
  - refine (at_TryBeginReadScope tc data (with_stack _ (with_curScopeFc (Some fc) _)) p sc k _ _ _ _); try done. right. by eexists.
  - refine (at_TryBeginReadScope tc data (with_curScopeFc None _) p sc k _ _ _ _); try done. by left.
Qed.

(** Going to what follows a scope. *)
Lemma wp_after_scope sc it (Q : unit -> ItemSeqIter M -> Prop) E k :
  no_var (control it) -> scope_rest (head_of (control it)) sc k -> dec_ok (decoded it) -> ok (k (point it)) ->
  (forall c' k', denotes_now c' (point it) k' -> k' (point it) = k (point it) -> (rank (mState c') < rank (TryBeginReadScope sc))%nat ->
     Q tt (at_control c' it)) ->
  wp (after_scope sc) it Q E.
Proof.
  intros Hz Hk (_ & _ & _ & _ & Her) Hok HQ. destruct Hk as [kp|kp|kr kp|kr kp|kr kp|kr kp]; simpl.
  - apply wp_set_state. eapply HQ; [|done|simpl; lia]. left. split; [exact Hz|]. by apply at_SetDataStreamInfoItem, rest_PktHeader.
  - apply wp_set_state. eapply HQ; [|done|simpl; lia]. left. split; [exact Hz|]. by apply at_SetPktInfoItem, rest_PktCtx.
  - apply wp_set_state. eapply HQ; [|done|simpl; lia]. left. split; [exact Hz|]. by apply at_SetEventRecordInfoItem, rest_EventRecordHeader.
  - apply wp_bind, wp_gets. simpl in Hok, HQ. unfold er_spec_ctx in *. simpl in *. destruct (eventRecordCls (decoded it)) as [c|] eqn:Hc.
    + specialize (Her c eq_refl). unfold event_record_cls_ok in Her. apply andb_true_iff in Her as [Hs _].
      eapply (wp_prepareToTryReadScope _ _ it); [done|by apply rest_SpecEventRecordCtx|done|]. intros c' Hden Hst. eapply HQ; [apply Hden|done|]. rewrite Hst. simpl. lia.
    + apply wp_set_state. eapply HQ; [|done|simpl; lia]. left. split; [exact Hz|]. by apply at_EndReadEventRecord, rest_EventRecordPayload.
  - unfold er_payload in *. simpl in *. destruct (eventRecordCls (decoded it)) as [c|] eqn:Hc; [|by destruct Hok].
    apply wp_bind, wp_gets. eapply wp_bind, wp_of_option; [exact Hc|]. specialize (Her c eq_refl). unfold event_record_cls_ok in Her. apply andb_true_iff in Her as [_ Hp].
    eapply (wp_prepareToTryReadScope _ _ it); [done|by apply rest_EventRecordPayload|done|]. intros c' Hden Hst. eapply HQ; [apply Hden|done|]. rewrite Hst. simpl. lia.
  - apply wp_set_state. eapply HQ; [|done|simpl; lia]. left. split; [exact Hz|]. by apply at_EndReadEventRecord, rest_EventRecordPayload.
Qed.

Lemma step_try_scope it sc k r :
  inv it -> no_var (control it) -> mState (control it) = TryBeginReadScope sc -> scope_rest (head_of (control it)) sc k ->
  scope_ok (curScopeFc (control it)) = true ->
  (curScopeFc (control it) = None \/ exists fs, stack (control it) = StackFrameOf (EndReadScope sc) None 0 1 :: fs) ->
  scope_field data sc (curScopeFc (control it)) k (point it) = r -> ok r -> follows it r.
Proof.
  intros [Hw Hd] Hz Hs Hk Hfc Hstk Hr Hok. unfold ItemFollow.follows, handleState. apply wp_bind, wp_gets. rewrite Hs.
  unfold handleTryBeginReadScopeState. apply wp_bind, wp_gets. destruct (curScopeFc (control it)) as [fc|] eqn:Hcur.
  - destruct Hstk as [?|[fs Hstk]]; [done|]. simpl in Hfc, Hr. apply andb_true_iff in Hfc as [Hstruct Hfc].
    unfold handleCommonBeginReadScopeState. eapply wp_bind, wp_updateForUser; [done..|]. intros o.
    unfold prepareToReadContainerField. apply wp_bind, wp_bind, wp_modify_control, wp_set_state, wp_ret. simpl.
    eapply post_item; try done. apply denotes_state. left. split; [exact Hz|].
    destruct fc as [| | | | | | | |ms a| | | |]; try done. rewrite Hstk.
    eapply (at_begin tc data (with_mState _ (with_stack _ (control it))) _ (StructFc ms a)); try done. by apply (stacked_scope tc data).
  - simpl in Hr. apply wp_bind. eapply wp_after_scope; [done|exact Hk|done|by rewrite Hr|]. intros c' k' Hden Hk' Hrank. apply wp_ret.
    split; [done|]. split; [|done]. split; [by split|]. exists k'. split; [by apply denotes_state|]. by rewrite <- Hr, <- Hk'.
Qed.
Lemma step_end_scope it sc k r :
  inv it -> no_var (control it) -> mState (control it) = EndReadScope sc -> scope_rest (head_of (control it)) sc k ->
  emit (ScopeEndItem sc) k (point it) = r -> ok r -> follows it r.
Proof.
  intros [Hw Hd] Hz Hs Hk Hr Hok. unfold ItemFollow.follows, handleState. apply wp_bind, wp_gets. rewrite Hs.
  unfold handleEndReadScopeState. rewrite <- Hr in Hok. apply ok_emit in Hok. apply wp_bind.
  eapply wp_after_scope; [done|exact Hk|done|done|]. intros c' k' Hden Hk' Hrank.
  unfold handleCommonEndReadScopeState. eapply wp_bind, wp_updateForUser; [done..|]. intros o. apply wp_ret.
  eapply (post_item tc data I _ k'); try done; [by apply denotes_state|]. rewrite <- Hr, !emit_eq. unfold point in *. simpl in *. by rewrite Hk'.
Qed.

(** * Event records *)

Lemma same_head_refl (w : Window M) : same_head w w.
Proof. done. Qed.
(** Whether the buffer or the medium has data. *)
Lemma wp_more_data it (Q : bool -> ItemSeqIter M -> Prop) E :
  win_ok data I (window it) ->
  (forall w, win_ok data I w -> same_head (window it) w -> Q (pos (point it) <? bits_of_data data) (at_window w it)) ->
  (forall w, again = true -> win_ok data I w -> same_head (window it) w -> E TryAgain (at_window w it)) ->
  wp (run l <- remainingBufLen debug; if l =? 0 then tryHaveData debug 1 else ret true) it Q E.
Proof.
  intros Hw HQ HA. pose proof (win_end _ _ _ Hw) as He. eapply wp_bind, wp_remainingBufLen; [done..|].
  destruct (Z.eqb_spec (bufLeft (window it)) 0) as [Hl|Hl].
  - eapply wp_tryHaveData; try done.
    + intros w Hw' Hs _ Hp. rewrite <- (proj2 (Z.ltb_lt (pos (point it)) (bits_of_data data))) by lia. by apply HQ.
    + intros w Hw' Hs Hp. rewrite <- (proj2 (Z.ltb_ge (pos (point it)) (bits_of_data data))) by lia. by apply HQ.
  - apply wp_ret. rewrite <- (proj2 (Z.ltb_lt (pos (point it)) (bits_of_data data))).
    + rewrite <- (at_window_self it). by apply HQ.
    + assert (0 <= bufLeft (window it)) by (unfold bufLeft; destruct Hw as (_ & _ & _ & _ & _ & ? & _); lia).
      unfold pos. simpl. unfold bufLeft in *. lia.
Qed.
Lemma wp_more_content it (Q : bool -> ItemSeqIter M -> Prop) E :
  inv it -> 0 <= contentLeft (point it) ->
  (forall w, win_ok data I w -> same_head (window it) w -> Q (more_content data (point it)) (at_window w it)) ->
  (forall w, again = true -> win_ok data I w -> same_head (window it) w -> E TryAgain (at_window w it)) ->
  wp (if expectedContent (decoded it) =? infDataLen then run l <- remainingBufLen debug; if l =? 0 then tryHaveData debug 1 else ret true
      else run l <- remainingPktContentLen debug; ret (negb (l =? 0))) it Q E.
Proof.
  intros [Hw Hd] Hc HQ HA. unfold more_content in HQ. simpl in HQ. destruct (expectedContent (decoded it) =? infDataLen).
  - by apply wp_more_data.
  - eapply wp_bind, wp_remainingPktContentLen; [by apply (win_head data I)|done|apply Hd|]. apply wp_ret.
    rewrite <- (at_window_self it). by apply HQ.
Qed.

Lemma step_try_record it kr kp r :
  inv it -> no_var (control it) -> mState (control it) = TryBeginReadEventRecord ->
  records data kr (content_end data (packets kp)) (point it) = r -> ok r -> follows it r.
Proof.
  intros [Hw Hd] Hz Hs Hr Hok. unfold ItemFollow.follows, handleState. apply wp_bind, wp_gets. rewrite Hs.
  unfold handleTryBeginReadEventRecordState. apply wp_bind, wp_gets. assert (Hr' := Hr). rewrite <- Hr in Hok.
  destruct kr as [|kr]; [by destruct Hok|]. cbn [records] in Hok, Hr'. simpl in Hok, Hr'.
  destruct (dataStreamCls (decoded it)) as [ds|] eqn:Hds; [|by destruct Hok]. destruct (Z.ltb_spec (contentLeft (point it)) 0) as [|Hc0]; [by destruct Hok|].
  apply wp_bind, wp_assert; [done|].
  apply wp_bind, wp_more_content; [done|done| |].
  2: { intros w Hag Hw' Hsame. assert (Hpt : point (at_window w it) = point it) by (by apply point_same_head).
       eapply post_again; rewrite ?Hpt; try done. left. split; [exact Hz|]. by apply at_TryBeginReadEventRecord. }
  intros w Hw' Hsame. assert (Hpt : point (at_window w it) = point it) by (by apply point_same_head).
  destruct (more_content data (point it)) eqn:Hmore; simpl.
  - eapply wp_bind, wp_updateForUser; [done..|]. intros o.
    eapply wp_bind, wp_remainingPktContentLen; [by apply (win_head data I)|by rewrite <- Hpt in Hc0|apply Hd|].
    change (ItemSeqIterOf _ _ _ _ o) with (ItemSeqIterOf w (control it) (decoded it) (Some EventRecordBeginItem) o).
    change (point (ItemSeqIterOf w _ _ _ _)) with (point (at_window w it)). rewrite Hpt.
    apply wp_bind, wp_assert.
    { apply Z.ltb_lt. unfold more_content in Hmore. simpl in Hmore. destruct (Z.eqb_spec (expectedContent (decoded it)) infDataLen) as [E|_].
      - pose proof (win_head _ _ _ Hw) as [Hh Hp]. assert (0 <= at_pkt (point it)) by apply Hw. unfold contentLeft. simpl in *. rewrite E. unfold infDataLen. lia.
      - destruct (Z.eqb_spec (contentLeft (point it)) 0); [done|lia]. }
    apply wp_bind, wp_gets, wp_bind, wp_modify_control, wp_bind, wp_ret.
    eapply wp_bind, wp_prepareToTryReadScope; [exact Hz|apply rest_EventRecordHeader| |].
    { destruct Hd as (_ & _ & _ & Hdsok & _). specialize (Hdsok _ Hds). unfold data_stream_cls_ok in Hdsok. rewrite !andb_true_iff in Hdsok. tauto. }
    intros c' Hden _. apply wp_ret. eapply post_item; try done.
    + change (pos (point it) <= pos (point (at_window w it))). by rewrite Hpt.
    + apply denotes_state, Hden.
    + change (point _) with (point (at_window w it)). rewrite Hpt. simpl. replace (headOffsetInCurPkt w) with (at_head (point it)) by (by rewrite <- Hpt).
      exact Hr'.
  - apply wp_bind, wp_set_state, wp_ret. split; [change (pos (point it) <= pos (point (at_window w it))); by rewrite Hpt|]. split; [|simpl; lia].
    split; [by split|]. eexists. split; [apply denotes_state; left; split; [exact Hz|by apply at_EndReadPktContent]|].
    change (point _) with (point (at_window w it)). by rewrite Hpt.
Qed.
Lemma step_end_record it k r :
  inv it -> no_var (control it) -> mState (control it) = EndReadEventRecord -> scope_rest (head_of (control it)) EventRecordPayload k ->
  k (point it) = r -> ok r -> follows it r.
Proof.
  intros [Hw Hd] Hz Hs Hk Hr Hok. unfold ItemFollow.follows, handleState. apply wp_bind, wp_gets. rewrite Hs.
  unfold handleEndReadEventRecordState. apply wp_bind, wp_gets, wp_bind, wp_gets. inversion Hk as [| | | | |kr kp]; subst k.
  unfold er_end in Hr. change (headOffsetInCurPkt (window it)) with (at_head (point it)).
  destruct (Z.ltb_spec (at_head (point it)) (head_of (control it))); [by rewrite <- Hr in Hok; destruct Hok|].
  apply wp_bind, wp_assert; [by apply Z.leb_le|]. destruct (at_head (point it) =? head_of (control it)); [by apply wp_throw|].
  eapply wp_bind, wp_updateForUser; [done..|]. intros o. apply wp_bind, wp_set_state, wp_ret.
  eapply post_item; try done. apply denotes_state. left. split; [exact Hz|]. by apply at_TryBeginReadEventRecord.
Qed.
End follow.
