(* ===== verification/ItemFollowPackets.v ===== *)
(** Each state of the item sequence iterator that begins or ends a packet, that gives its
    information or that of an event record, or that skips padding, follows what remains to
    decode: then any state does. *)

From S2P Require Import Prelude Bitfield CtfIr ItemBits ItemBitsFacts ItemState ItemSeq ItemSpec ItemWp ItemSim ItemStep ItemFollow ItemFollowData.
From S2P Require Import ItemFollowScopes.

Section follow.
Context {M : Type} `{Medium M} (debug : bool) (tc : TraceCls) (data : list Z) (again : bool) (I : M -> Prop).
Context `{!MediumServes data again I}.
Context (Hbytes : buf_wf 8 data) (Hsize : bits_of_data data <= 2 ^ 62) (Htc : trace_cls_ok tc = true).

Abbreviation denotes_now := (denotes_now tc data).
Abbreviation denotes := (denotes tc data).
Abbreviation scope_rest := (scope_rest tc data).
Abbreviation head_of := curEventRecordHeadOffset.
Abbreviation inv := (inv data I).
Abbreviation post := (post tc data I).
Abbreviation post_throw := (post_throw tc data again I).
Abbreviation follows := (follows debug tc data again I).
Abbreviation packets := (packets tc data (enough data)).

Lemma scope_ok_of_trace : scope_ok (pktHeaderFc tc) = true.
Proof. unfold trace_cls_ok in Htc. by apply andb_true_iff in Htc as [? _]. Qed.
Lemma data_stream_cls_by_id_ok id c : data_stream_cls_by_id tc id = Some c -> data_stream_cls_ok c = true.
Proof.
  intros Hc. unfold trace_cls_ok in Htc. apply andb_true_iff in Htc as [_ Hds]. rewrite forallb_forall in Hds.
  apply find_some in Hc as [Hin _]. by apply Hds.
Qed.
Lemma event_record_cls_by_id_ok ds id c : data_stream_cls_ok ds = true -> event_record_cls_by_id ds id = Some c -> event_record_cls_ok c = true.
Proof.
  unfold data_stream_cls_ok. rewrite !andb_true_iff, forallb_forall. intros [_ Her] Hc. apply find_some in Hc as [Hin _]. by apply Her.
Qed.

(** * Packets *)

Lemma step_init it kp r :
  inv it -> no_var (control it) -> mState (control it) = Init -> at_head (point it) = 0 -> packets kp (point it) = r -> follows it r.
Proof.
  intros Hi Hz Hs Hh Hr. unfold ItemFollow.follows, handleState. apply wp_bind, wp_gets. rewrite Hs.
  apply wp_bind, wp_set_state, wp_ret. split; [done|]. split; [|simpl; lia]. split; [done|]. eexists.
  split; [apply denotes_state; left; split; [exact Hz|by apply at_TryBeginReadPkt]|exact Hr].
Qed.

(** The iterator which has reset what is of a packet. *)
Definition reset_dec (d : Decoded) : Decoded := DecodedOf None None infDataLen infDataLen (savedKeyVals d) 0 None None no_pktInfo None None.
Lemma wp_resetForNewPkt it (Q : unit -> ItemSeqIter M -> Prop) E :
  at_head (point it) = 0 -> Q tt (with_window (window it) (reset_dec (decoded it)) (at_control (with_var 0 0 (with_stack [] (control it))) it)) ->
  wp resetForNewPkt it Q E.
Proof.
  intros Hh HQ. unfold resetForNewPkt. apply wp_bind, wp_modify_decoded, wp_bind, wp_modify_control. unfold wp, set_head, modify_window. simpl.
  change (headOffsetInCurPkt (window it) = 0) in Hh. destruct it as [[m b o p h] c d i ofs]. simpl in *. subst h. exact HQ.
Qed.
Lemma step_try_packet it kp r :
  inv it -> no_var (control it) -> mState (control it) = TryBeginReadPkt -> at_head (point it) = 0 -> packets kp (point it) = r -> ok r -> follows it r.
Proof.
  intros [Hw Hd] Hz Hs Hh Hr Hok. unfold ItemFollow.follows, handleState. apply wp_bind, wp_gets. rewrite Hs.
  unfold handleTryBeginReadPktState. apply wp_bind, wp_resetForNewPkt; [done|]. set (it0 := with_window _ _ _).
  assert (Hpt0 : point it0 = new_packet (point it)) by (unfold point, new_packet, point_of in *; simpl in *; by rewrite Hh).
  assert (Hd0 : dec_ok (decoded it0)) by (destruct Hd as (_ & _ & Hsv & _); by unfold dec_ok, it0, infDataLen; simpl; split_and!; try lia).
  assert (Hz0 : no_var (control it0)) by (split; [apply Hz|done]). assert (Hpos : pos (point it0) = at_pkt (point it)) by (rewrite Hpt0; unfold pos; simpl; lia).
  assert (Hr0 : packets kp (point it0) = r) by (rewrite Hpt0, <- Hr; by destruct kp).
  assert (Hsame : forall w, same_head (window it0) w -> point (at_window w it0) = new_packet (point it)) by (intros; rewrite <- Hpt0; by apply point_same_head).
  eapply wp_bind, (wp_more_data debug tc data again I); [done..| |].
  - intros w Hw' Hs'. specialize (Hsame w Hs'). rewrite Hpos. destruct kp as [|kp]; [by rewrite <- Hr in Hok; destruct Hok|].
    cbn [ItemSpec.packets] in Hr. destruct (at_pkt (point it) <? bits_of_data data); simpl.
    + eapply wp_bind, wp_updateForUser; [done..|]. intros o. apply wp_bind, wp_set_state, wp_ret. unfold packet in Hr.
      eapply (post_item tc data I _ (emit PktContentBeginItem _)); try done.
      * change (pos (point it) <= pos (point (at_window w it0))). rewrite Hsame. unfold pos. simpl in *. lia.
      * apply denotes_state. left. split; [exact Hz0|]. apply at_BeginReadPktContent; [done|]. apply rest_PktHeader.
      * change (point _) with (point (at_window w it0)). by rewrite Hsame, <- Hr.
    + apply wp_bind. unfold wp at 1. simpl. apply wp_bind, wp_set_state, wp_ret. split; [|by rewrite <- Hr].
      change (pos (point it) <= pos (point (at_window w it0))). rewrite Hsame. unfold pos. simpl in *. lia.
  - intros w Hag Hw' Hs'. specialize (Hsame w Hs'). eapply (post_again tc data again I); [done|by split| | |].
    + rewrite Hsame. unfold pos. simpl in *. lia.
    + left. split; [exact Hz0|]. apply (at_TryBeginReadPkt tc data _ _ kp); [done|by rewrite Hsame].
    + rewrite Hsame, <- Hpt0. exact Hr0.
Qed.

Lemma step_begin_content it k r :
  inv it -> no_var (control it) -> mState (control it) = BeginReadPktContent -> scope_rest 0 PktHeader k ->
  emit PktContentBeginItem (scope_field data PktHeader (pktHeaderFc tc) k) (point it) = r -> follows it r.
Proof.
  intros [Hw Hd] Hz Hs Hk Hr. unfold ItemFollow.follows, handleState. apply wp_bind, wp_gets. rewrite Hs.
  unfold handleBeginReadPktContentState. eapply wp_bind, wp_updateForUser; [done..|]. intros o. inversion Hk as [kp| | | | |]; subst k.
  eapply wp_bind, wp_prepareToTryReadScope; [exact Hz|by apply rest_PktHeader|by apply scope_ok_of_trace|]. intros c' Hden _. apply wp_ret.
  eapply post_item; try done. apply denotes_state, Hden.
Qed.

Abbreviation next_packet kp := (next_packet (packets kp)).

(** The padding after the content: with the item of its end, or without it, which the user
    does not get then. *)
Lemma skipping_emit n i k p :
  skipping data false n (emit i k) p = ([], Failed) /\ skipping data false n k p = ([], Failed) \/
  skipping data false n (emit i k) p = (i :: fst (skipping data false n k p), snd (skipping data false n k p)).
Proof.
  unfold skipping. destruct (n =? 0); [right; by rewrite emit_eq|].
  destruct (bits_of_data data <? pos p + n); [by left|right; by rewrite emit_eq].
Qed.
Lemma step_end_content it kp r :
  inv it -> no_var (control it) -> mState (control it) = EndReadPktContent -> content_end data (packets kp) (point it) = r -> ok r -> follows it r.
Proof.
  intros [Hw Hd] Hz Hs Hr Hok. unfold ItemFollow.follows, handleState. apply wp_bind, wp_gets. rewrite Hs.
  unfold handleEndReadPktContentState. eapply wp_bind, wp_updateForUser; [done..|]. intros o. apply wp_bind, wp_gets. simpl.
  unfold content_end in Hr. simpl in Hr. destruct (Z.eqb_spec (expectedTotal (decoded it)) infDataLen) as [E|Hne].
  { apply wp_bind, wp_set_state, wp_ret. eapply post_item; try done. apply denotes_state. left. split; [exact Hz|]. apply at_EndReadPkt; [done|by left]. }
  destruct (expectedContent (decoded it) =? infDataLen); simpl in Hr; [by rewrite <- Hr in Hok; destruct Hok|].
  destruct (Z.ltb_spec (expectedTotal (decoded it)) (headOffsetInCurPkt (window it))) as [|Hle]; [by rewrite <- Hr in Hok; destruct Hok|].
  destruct Hd as (Htot & Hd'). pose proof (win_head _ _ _ Hw) as [Hh0 _].
  apply wp_bind, wp_assert; [done|]. apply wp_bind, wp_gets. simpl. apply wp_bind, wp_dl_sub; [lia|lia|]. apply wp_bind.
  set (n := expectedTotal (decoded it) - headOffsetInCurPkt (window it)) in *. destruct (Z.ltb_spec 0 n) as [Hn|Hn].
  - eapply (wp_begin_skip debug data again I Hsize false n EndReadPkt); try done; [apply Hd'|lia| |].
    + intros w Hw' Hplus Hr'. apply wp_ret.
      assert (Hpt : point_of w (decoded it) = advance n (point it)) by (by apply point_head_plus).
      eapply post_item; try done.
      * change (pos (point it) <= pos (point_of w (decoded it))). rewrite Hpt, pos_advance. lia.
      * apply denotes_state. left. split; [exact Hz|]. apply at_EndReadPkt; [done|]. right.
        change (expectedTotal (decoded it) = at_head (point_of w (decoded it))). rewrite Hpt. simpl. lia.
      * change (point _) with (point_of w (decoded it)). by rewrite Hpt.
    + intros w j Hag Hw' Hplus Hj _ Hr'. split; [done|].
      assert (Hpt : point_of w (decoded it) = advance j (point it)) by (by apply point_head_plus).
      split; [change (pos (point it) <= pos (point_of w (decoded it))); rewrite Hpt, pos_advance; lia|].
      assert (Hcont : forall r', skipping data false (n - j) (next_packet kp) (advance j (point it)) = r' ->
                continues tc data I r' (at_window w (at_control (skipping_to false (n - j) EndReadPkt (control it))
                    (ItemSeqIterOf (window it) (control it) (decoded it) (Some PktContentEndItem) o)))).
      { intros r' Hk. split; [split; [done|exact (conj Htot Hd')]|]. exists (skipping data false (n - j) (next_packet kp)). split.
        - refine (denotes_padding tc data (skipping_to false (n - j) EndReadPkt (control it)) _ kp _ _ _ _ _); try done; [simpl; lia|].
          change (point _) with (point_of w (decoded it)). rewrite Hpt. simpl. lia.
        - change (point _) with (point_of w (decoded it)). by rewrite Hpt. }
      destruct (skipping_emit (n - j) PktContentEndItem (next_packet kp) (advance j (point it))) as [[E1 E2]|E].
      * left. apply Hcont. by rewrite E2, <- Hr', <- E1.
      * right. eexists _, _. split; [rewrite <- Hr'; exact E|]. apply Hcont. apply surjective_pairing.
  - assert (n = 0) as En by lia. rewrite En in Hr. apply wp_set_state, wp_ret. eapply (post_item tc data I _ (next_packet kp)); try done.
    apply denotes_state. left. split; [exact Hz|]. apply at_EndReadPkt; [done|]. right. simpl. lia.
Qed.

(** Dropping the bytes of the packet from the buffer. *)
Lemma win_next_packet w x :
  win_ok data I w -> (curPktOffsetInItemSeq w + headOffsetInCurPkt w) mod 8 = 0 -> x = headOffsetInCurPkt w - bufOffsetInCurPkt w ->
  let b := drop (Z.to_nat (x / 8)) (mBuf w) in
  win_ok data I (WindowOf (medium w) b 0 (curPktOffsetInItemSeq w + headOffsetInCurPkt w) 0).
Proof.
  intros Hw Hm Hx b. pose proof (win_end _ _ _ Hw) as He. destruct Hw as (Hi & Hp & Hp8 & Hb8 & Hb & Hh & Hl & [t Ht]). unfold win_ok. simpl.
  split_and!; try done; try lia. exists t. rewrite Z.add_0_r.
  replace (Z.to_nat ((curPktOffsetInItemSeq w + headOffsetInCurPkt w) / 8)) with (Z.to_nat ((curPktOffsetInItemSeq w + bufOffsetInCurPkt w) / 8) + Z.to_nat (x / 8))%nat by div_lia.
  rewrite <- drop_drop, Ht. apply drop_app_le. div_lia.
Qed.
Lemma win_next_packet_empty w :
  win_ok data I w -> (curPktOffsetInItemSeq w + headOffsetInCurPkt w) mod 8 = 0 ->
  win_ok data I (WindowOf (medium w) [] 0 (curPktOffsetInItemSeq w + headOffsetInCurPkt w) 0).
Proof.
  intros Hw Hm. pose proof (win_end _ _ _ Hw) as He. destruct Hw as (Hi & Hp & Hp8 & Hb8 & Hb & Hh & Hl & _). unfold win_ok. simpl.
  split_and!; try done; try lia. apply prefix_nil.
Qed.
Lemma step_end_packet it kp r :
  inv it -> no_var (control it) -> mState (control it) = EndReadPkt ->
  expectedTotal (decoded it) = infDataLen \/ expectedTotal (decoded it) = at_head (point it) ->
  next_packet kp (point it) = r -> ok r -> follows it r.
Proof.
  intros [Hw Hd] Hz Hs Htot Hr Hok. unfold ItemFollow.follows, handleState. apply wp_bind, wp_gets. rewrite Hs.
  unfold handleEndReadPktState. eapply wp_bind, wp_updateForUser; [done..|]. intros o.
  eapply wp_bind, wp_headOffsetInItemSeq; [done..|]. unfold ItemSpec.next_packet in Hr. change (point (ItemSeqIterOf _ _ _ _ _)) with (point it).
  destruct (Z.eqb_spec (pos (point it) mod 8) 0) as [Hm|]; [|by rewrite <- Hr in Hok; destruct Hok].
  apply wp_bind, wp_assert; [done|]. apply wp_bind. unfold wp at 1. simpl. apply wp_bind, wp_gets, wp_bind, wp_gets. simpl. apply wp_bind.
  assert (Hfin : forall b, win_ok data I (WindowOf (medium (window it)) b 0 (pos (point it)) 0) ->
            wp (act set_state TryBeginReadPkt; Stop)
              (ItemSeqIterOf (WindowOf (medium (window it)) b 0 (pos (point it)) 0) (control it) (decoded it) (Some PktEndItem) o)
              (post r (pos (point it)) EndReadPkt) (post_throw r (pos (point it)))).
  { intros b Hwb. apply wp_bind, wp_set_state, wp_ret. eapply (post_item tc data I _ (packets kp)); try done.
    - unfold pos. simpl. lia.
    - apply denotes_state. left. split; [exact Hz|]. by apply at_TryBeginReadPkt.
  }
  destruct (Z.eqb_spec (expectedTotal (decoded it)) infDataLen) as [E|Hne].
  - apply Hfin. by apply win_next_packet_empty.
  - destruct Htot as [?|Htot]; [done|]. simpl in Htot. pose proof (win_head _ _ _ Hw) as [Hh0 _].
    assert (Hle : headOffsetInCurPkt (window it) - bufOffsetInCurPkt (window it) <= 8 * Z.of_nat (length (mBuf (window it)))).
    { destruct Hw as (_ & _ & _ & _ & _ & ? & _). lia. }
    assert (Hb : 0 <= bufOffsetInCurPkt (window it) <= headOffsetInCurPkt (window it) /\ bufOffsetInCurPkt (window it) mod 8 = 0 /\
                 curPktOffsetInItemSeq (window it) mod 8 = 0) by (destruct Hw as (_ & ? & ? & ? & ? & _); lia).
    rewrite Htot. destruct Hd as (Hd & _). rewrite Htot in Hd.
    apply wp_bind, wp_dl_sub; [lia|lia|]. apply wp_bind, wp_assert; [by apply Z.leb_le|].
    apply wp_bind, wp_assert; [apply Z.eqb_eq; unfold pos in Hm; simpl in Hm; div_lia|].
    rewrite (proj2 (Z.leb_le _ _)) by done. apply Hfin. by apply win_next_packet.
Qed.

(** * Skipping padding *)

Lemma step_skip_padding it kp r :
  inv it -> no_var (control it) -> mState (control it) = SkipPadding -> postSkipPaddingState (control it) = EndReadPkt ->
  0 <= remainingLenToSkip (control it) < 2 ^ 64 -> at_head (point it) + remainingLenToSkip (control it) = expectedTotal (decoded it) ->
  skipping data false (remainingLenToSkip (control it)) (next_packet kp) (point it) = r -> ok r -> follows it r.
Proof.
  intros [Hw Hd] Hz Hs Hpost Hn Htot Hr Hok. unfold ItemFollow.follows, handleState. apply wp_bind, wp_gets. rewrite Hs. apply wp_bind.
  apply (wp_skipPadding debug data again I Hsize false it _ _ (next_packet kp) r); try done; [apply Hd| |].
  - intros w Hw' Hplus Hk. apply wp_ret.
    assert (Hpt : point_of w (decoded it) = advance (remainingLenToSkip (control it)) (point it)) by (by apply point_head_plus).
    set (it' := at_window _ _). assert (Hpt' : point it' = advance (remainingLenToSkip (control it)) (point it)) by exact Hpt.
    split; [rewrite Hpt', pos_advance; lia|]. split; [|simpl; rewrite Hpost; simpl; lia]. split; [by split|]. exists (next_packet kp). split; [|by rewrite Hpt'].
    apply denotes_state. left. split; [exact Hz|]. apply at_EndReadPkt; [exact Hpost|]. right. rewrite Hpt'. simpl in *. lia.
  - intros w j Hag Hw' Hplus Hj _ Hk. unfold to_skip in *. set (n := remainingLenToSkip (control it)) in *.
    assert (Hpt : point_of w (decoded it) = advance j (point it)) by (by apply point_head_plus).
    split; [done|]. split; [change (pos (point it) <= pos (point_of w (decoded it))); rewrite Hpt, pos_advance; lia|]. left. split; [by split|].
    exists (skipping data false (n - j) (next_packet kp)). split; [|change (point _) with (point_of w (decoded it)); by rewrite Hpt].
    refine (denotes_padding tc data (with_remainingLenToSkip (n - j) (control it)) _ kp _ _ _ _ _); try done; [simpl; lia|].
    change (point _) with (point_of w (decoded it)). rewrite Hpt. simpl in *. lia.
Qed.

Lemma rank_le s : s <> SkipContentPadding -> (rank s <= 3)%nat.
Proof. intros Hs. destruct s; simpl; try lia; try done. match goal with sc : Scope |- _ => by destruct sc; simpl; lia end. Qed.
Lemma begin_state_not_skip fc s : begin_state fc = Some s -> s <> SkipContentPadding.
Proof. unfold begin_state. destruct (deepType fc) as [t|]; [|done]. intros [= <-]. by destruct t. Qed.
Lemma end_state_not_skip fc : end_state fc <> SkipContentPadding.
Proof. by destruct fc. Qed.
Lemma denotes_now_rank c p k : denotes_now c p k -> (rank (mState c) <= 3)%nat.
Proof.
  intros Hd. apply rank_le. destruct Hd as [[_ Hd]|Hd]; destruct Hd; try congruence; try (by eapply begin_state_not_skip).
  - intros E. eapply end_state_not_skip. etransitivity; [symmetry|]; eassumption.
  - match goal with u : Utf |- _ => destruct u; simpl in *; congruence end.
Qed.

Lemma denotes_now_skipped c p k : denotes_now (with_mState (postSkipPaddingState c) c) p k -> denotes_now (skipped c) p k.
Proof.
  intros Hd. replace (skipped c) with (with_postSkipPaddingState (postSkipPaddingState c) (with_remainingLenToSkip 0 (with_mState (postSkipPaddingState c) c))) by (by destruct c).
  by apply denotes_now_skip_fields.
Qed.
Lemma step_skip_content it k r :
  inv it -> mState (control it) = SkipContentPadding -> let n := remainingLenToSkip (control it) in
  0 <= n < 2 ^ 64 -> skippable true n (point it) ->
  (forall p', at_head (point it) + n <= at_head p' -> denotes_now (with_mState (postSkipPaddingState (control it)) (control it)) p' k) ->
  skipping data true n k (point it) = r -> ok r -> follows it r.
Proof.
  intros [Hw Hd] Hs n Hn Hskip Hden Hr Hok. unfold ItemFollow.follows, handleState. apply wp_bind, wp_gets. rewrite Hs. apply wp_bind.
  apply (wp_skipPadding debug data again I Hsize true it _ _ k r); try done; [apply Hd| |].
  - intros w Hw' Hplus Hk. apply wp_ret. assert (Hpt : point_of w (decoded it) = advance n (point it)) by (by apply point_head_plus).
    set (it' := at_window _ _). assert (Hpt' : point it' = advance n (point it)) by exact Hpt.
    assert (Hd' : denotes_now (control it') (point it') k) by (rewrite Hpt'; apply denotes_now_skipped, Hden; simpl; lia).
    split; [rewrite Hpt', pos_advance; lia|]. split; [|simpl; apply denotes_now_rank in Hd'; simpl in Hd'; lia].
    split; [by split|]. exists k. split; [by apply denotes_state|by rewrite Hpt'].
  - intros w j Hag Hw' Hplus Hj Hsk Hk. unfold to_skip in *. fold n in Hj, Hsk, Hk |- *.
    assert (Hpt : point_of w (decoded it) = advance j (point it)) by (by apply point_head_plus). set (it' := at_window _ _).
    assert (Hpt' : point it' = advance j (point it)) by exact Hpt.
    split; [done|]. split; [rewrite Hpt', pos_advance; lia|]. left. split; [by split|].
    exists (skipping data true (n - j) k). split; [|by rewrite Hpt'].
    refine (denotes_content_padding tc data (with_remainingLenToSkip (n - j) (control it)) _ k _ _ _ _); rewrite ?Hpt'; try done; [simpl; lia|].
    intros p' Hp'. simpl in Hp'. replace (with_mState _ _) with (with_postSkipPaddingState (postSkipPaddingState (control it))
      (with_remainingLenToSkip (n - j) (with_mState (postSkipPaddingState (control it)) (control it)))) by (by destruct (control it)).
    apply denotes_now_skip_fields, Hden. simpl in *. lia.
Qed.

(** * Information *)

Lemma dec_ok_with_cls c d :
  dec_ok d -> (forall ds, c = Some ds -> data_stream_cls_ok ds = true) -> dec_ok (with_dataStreamCls c d).
Proof. intros (? & ? & ? & _ & ?) Hc. done. Qed.
Lemma wp_select_data_stream it (Q : unit -> ItemSeqIter M -> Prop) (E : exn -> ItemSeqIter M -> Prop) k r :
  dec_ok (decoded it) -> select (curClsId (decoded it)) (data_stream_cls_by_id tc) (dataStreamClasses tc) (dataStreamCls (decoded it)) k (point it) = r ->
  ok r -> (r = ([], Failed) -> forall it', E Error it') ->
  (forall c, let d := with_curClsId None (with_dataStreamCls c (decoded it)) in dec_ok d -> k c (point it) = r -> Q tt (with_window (window it) d it)) ->
  wp match curClsId (decoded it) with
     | Some id =>
       let cls := data_stream_cls_by_id tc id in
       act modify_decoded (with_dataStreamCls cls);
       match cls with None => throw Error | Some _ => modify_decoded (with_curClsId None) end
     | None =>
       act assert_dbg debug (bool_decide (length (dataStreamClasses tc) <= 1)%nat);
       match dataStreamClasses tc with [cls] => modify_decoded (with_dataStreamCls (Some cls)) | _ => ret tt end
     end it Q E.
Proof.
  intros Hd Hr Hok HF HQ. unfold select in Hr. destruct (curClsId (decoded it)) as [id|] eqn:Hid.
  - cbv zeta. apply wp_bind, wp_modify_decoded. destruct (data_stream_cls_by_id tc id) as [c|] eqn:Hc; [|by apply wp_throw, HF].
    apply wp_modify_decoded, (HQ (Some c)); [|done]. apply (dec_ok_with_cls (Some c)); [done|]. intros ? [= <-]. by eapply data_stream_cls_by_id_ok.
  - assert (Hds : forall c, In c (dataStreamClasses tc) -> data_stream_cls_ok c = true).
    { apply forallb_forall. unfold trace_cls_ok in Htc. by apply andb_true_iff in Htc as [_ ?]. }
    assert (Hsame : forall c, with_curClsId None (with_dataStreamCls c (decoded it)) = with_dataStreamCls c (decoded it)).
    { intros c. unfold with_curClsId, with_dataStreamCls. simpl. by rewrite Hid. }
    destruct (dataStreamClasses tc) as [|c [|]]; [| |by rewrite <- Hr in Hok; destruct Hok]; apply wp_bind, wp_assert; try done.
    + apply wp_ret. specialize (HQ (dataStreamCls (decoded it))). cbv zeta in HQ. rewrite Hsame in HQ.
      replace (with_dataStreamCls _ _) with (decoded it) in HQ by (by destruct (decoded it)). destruct it. by apply HQ.
    + apply wp_modify_decoded. specialize (HQ (Some c)). cbv zeta in HQ. rewrite Hsame in HQ. apply HQ; [|done].
      apply dec_ok_with_cls; [done|]. intros ? [= <-]. apply Hds. by left.
Qed.
Lemma step_data_stream_info it k r :
  inv it -> no_var (control it) -> mState (control it) = SetDataStreamInfoItem -> scope_rest (head_of (control it)) PktHeader k ->
  k (point it) = r -> ok r -> follows it r.
Proof.
  intros [Hw Hd] Hz Hs Hk Hr Hok. unfold ItemFollow.follows, handleState. apply wp_bind, wp_gets. rewrite Hs.
  unfold handleSetDataStreamInfoItemState. apply wp_bind, wp_gets, wp_bind. inversion Hk as [kp| | | | |]; subst k. unfold ds_info in Hr.
  eapply wp_select_data_stream; [done|exact Hr|done|done|]. intros c d Hd' Hk'.
  apply wp_bind, wp_gets. eapply wp_bind, wp_updateForUser; [done..|]. intros o. cbn [decoded with_window]. cbv beta zeta in Hk'.
  change (on_dec _ (point it)) with (point (with_window (window it) d it)) in Hk'. change (dataStreamCls d) with c.
  change (at_dec (point (with_window (window it) d it))) with d in Hk'. apply wp_bind. destruct c as [ds|].
  - eapply wp_prepareToTryReadScope; [exact Hz|by apply rest_PktCtx| |].
    { destruct Hd' as (_ & _ & _ & Hds & _). specialize (Hds _ eq_refl). unfold data_stream_cls_ok in Hds. rewrite !andb_true_iff in Hds. tauto. }
    intros c' Hden _. apply wp_ret. eapply post_item; try done. apply denotes_state, Hden.
  - apply wp_set_state, wp_ret. eapply post_item; try done. apply denotes_state. left. split; [exact Hz|]. by apply at_SetPktInfoItem, rest_PktCtx.
Qed.

Lemma dec_ok_expectedTotal x d : 0 <= x < 2 ^ 64 -> dec_ok d -> dec_ok (with_expectedTotal x d).
Proof. intros Hx (_ & Hd). by split. Qed.
Lemma dec_ok_expectedContent x d : 0 <= x < 2 ^ 64 -> dec_ok d -> dec_ok (with_expectedContent x d).
Proof. intros Hx (? & _ & Hd). by split. Qed.
Lemma dec_ok_lens d : dec_ok d -> (0 <= expectedTotal d < 2 ^ 64) /\ (0 <= expectedContent d < 2 ^ 64).
Proof. by intros (? & ? & _). Qed.
Ltac by_expected := lazymatch goal with |- dec_ok ?d => subst d end; lazymatch goal with |- dec_ok (if ?b then _ else _) => destruct b; [|done] end;
  lazymatch goal with
  | |- dec_ok (with_expectedTotal _ _) => apply dec_ok_expectedTotal
  | |- dec_ok (with_expectedContent _ _) => apply dec_ok_expectedContent
  end; [by apply dec_ok_lens|done].
Lemma step_pkt_info it k r :
  inv it -> no_var (control it) -> mState (control it) = SetPktInfoItem -> scope_rest (head_of (control it)) PktCtx k ->
  k (point it) = r -> ok r -> follows it r.
Proof.
  intros [Hw Hd] Hz Hs Hk Hr Hok. unfold ItemFollow.follows, handleState. apply wp_bind, wp_gets. rewrite Hs.
  unfold handleSetPktInfoItemState. inversion Hk as [|kp| | | |]; subst k. unfold pkt_info in Hr. cbn [at_dec point point_of] in Hr.
  apply wp_bind, wp_modify_decoded, wp_bind, wp_modify_decoded, wp_bind, wp_gets. cbn [decoded].
  set (d1 := if expectedTotal (decoded it) =? infDataLen then _ else _) in *. set (d2 := if expectedContent d1 =? infDataLen then _ else _) in *.
  assert (Hd2 : dec_ok d2).
  { assert (Hd1 : dec_ok d1) by by_expected. by_expected. }
  destruct (negb (expectedTotal d2 mod 8 =? 0)); [by apply wp_throw|]. destruct (expectedTotal d2 <? expectedContent d2); [by apply wp_throw|].
  apply wp_bind, wp_modify_decoded, wp_bind, wp_gets. cbn [decoded orb] in Hr |- *. set (d3 := match dataStreamCls d2 with Some ds => _ | None => _ end) in *.
  assert (Hd3 : dec_ok d3) by (subst d3; destruct (dataStreamCls d2) as [ds|]; [destruct (has_defClkCls ds)|]; done).
  eapply wp_bind, wp_updateForUser; [done..|]. intros o. apply wp_bind, wp_set_state, wp_ret.
  eapply post_item; try done. apply denotes_state. left. split; [exact Hz|]. by apply at_TryBeginReadEventRecord.
Qed.

Lemma wp_select_event_record ds it (Q : unit -> ItemSeqIter M -> Prop) (E : exn -> ItemSeqIter M -> Prop) k r :
  dec_ok (decoded it) -> data_stream_cls_ok ds = true ->
  select (curClsId (decoded it)) (event_record_cls_by_id ds) (eventRecordClasses ds) (eventRecordCls (decoded it)) k (point it) = r ->
  ok r -> (r = ([], Failed) -> forall it', E Error it') ->
  (forall c, let d := with_eventRecordCls c (decoded it) in dec_ok d -> k c (point it) = r -> Q tt (with_window (window it) d it)) ->
  wp match curClsId (decoded it) with
     | Some id =>
       let cls := event_record_cls_by_id ds id in
       act modify_decoded (with_eventRecordCls cls);
       match cls with None => throw Error | Some _ => ret tt end
     | None =>
       act assert_dbg debug (bool_decide (length (eventRecordClasses ds) <= 1)%nat);
       match eventRecordClasses ds with [cls] => modify_decoded (with_eventRecordCls (Some cls)) | _ => ret tt end
     end it Q E.
Proof.
  intros Hd Hds Hr Hok HF HQ. assert (Hd' : forall c, (forall e, c = Some e -> event_record_cls_ok e = true) -> dec_ok (with_eventRecordCls c (decoded it))).
  { intros c Hc. destruct Hd as (? & ? & ? & ? & _). done. }
  unfold select in Hr. destruct (curClsId (decoded it)) as [id|] eqn:Hid.
  - cbv zeta. apply wp_bind, wp_modify_decoded. destruct (event_record_cls_by_id ds id) as [c|] eqn:Hc; [|by apply wp_throw, HF].
    apply wp_ret, (HQ (Some c)); [|done]. apply Hd'. intros ? [= <-]. by eapply event_record_cls_by_id_ok.
  - assert (Her : forall c, In c (eventRecordClasses ds) -> event_record_cls_ok c = true).
    { apply forallb_forall. unfold data_stream_cls_ok in Hds. by apply andb_true_iff in Hds as [_ ?]. }
    destruct (eventRecordClasses ds) as [|c [|]]; [| |by rewrite <- Hr in Hok; destruct Hok]; apply wp_bind, wp_assert; try done.
    + apply wp_ret. specialize (HQ (eventRecordCls (decoded it))). cbv zeta in HQ.
      replace (with_eventRecordCls _ _) with (decoded it) in HQ by (by destruct (decoded it)). destruct it. by apply HQ.
    + apply wp_modify_decoded, (HQ (Some c)); [|done]. apply Hd'. intros ? [= <-]. apply Her. by left.
Qed.
Lemma step_event_record_info it k r :
  inv it -> no_var (control it) -> mState (control it) = SetEventRecordInfoItem -> scope_rest (head_of (control it)) EventRecordHeader k ->
  k (point it) = r -> ok r -> follows it r.
Proof.
  intros [Hw Hd] Hz Hs Hk Hr Hok. unfold ItemFollow.follows, handleState. apply wp_bind, wp_gets. rewrite Hs.
  unfold handleSetEventRecordInfoItemState. apply wp_bind, wp_gets. inversion Hk as [| |kr kp| | |]; subst k. unfold er_info in Hr.
  cbn [at_dec point point_of] in Hr. destruct (dataStreamCls (decoded it)) as [ds|] eqn:Hds; [|by rewrite <- Hr in Hok; destruct Hok].
  assert (Hdsok : data_stream_cls_ok ds = true) by (destruct Hd as (_ & _ & _ & H' & _); by apply H').
  apply wp_bind, wp_ret, wp_bind. eapply wp_select_event_record; [done|exact Hdsok|exact Hr|done|done|]. intros c d Hd' Hk'. cbv beta zeta in Hk'.
  set (d' := if has_defClkCls ds then with_eventRecordClkVal (Some (defClkVal d)) d else d).
  apply wp_bind, (wp_mono _ _ (fun _ it' => it' = with_window (window it) d' it) (fun _ it' => wp _ it' _ _) (fun _ _ => False) _); [|intros _ ? ->|done].
  { subst d'. by destruct (has_defClkCls ds); [apply wp_modify_decoded|apply wp_ret]. }
  apply wp_bind, wp_gets. eapply wp_bind, wp_updateForUser; [done..|]. intros o.
  assert (Hd2 : dec_ok d') by (subst d'; by destruct (has_defClkCls ds)). assert (Hcd : eventRecordCls d' = c) by (subst d'; by destruct (has_defClkCls ds)).
  change (on_dec _ (point it)) with (point (with_window (window it) d' it)) in Hk'. cbn [decoded with_window]. rewrite Hcd.
  eapply wp_bind, wp_prepareToTryReadScope; [exact Hz|by apply rest_CommonEventRecordCtx| |].
  { unfold data_stream_cls_ok in Hdsok. rewrite !andb_true_iff in Hdsok. tauto. }
  intros c' Hden _. apply wp_ret. eapply post_item; try done. apply denotes_state, Hden.
Qed.
End follow.
