(* ===== verification/ItemDecode.v ===== *)
(** Calling the item sequence iterator until it ends: it gives what the reference decoder
    decodes, whatever the buffers of its medium are. *)

From S2P Require Import Prelude Bitfield CtfIr ItemBits ItemBitsFacts ItemState ItemSeq ItemSpec ItemWp ItemSim ItemStep ItemFollow ItemFollowData.
From S2P Require Import ItemFollowScopes ItemFollowPackets.

(** The item sequence iterator gives the items that the reference decoder gives. *)

Section running.
Context {M : Type} `{Medium M} (debug : bool) (tc : TraceCls) (data : list Z) (again : bool) (I : M -> Prop).
Context `{!MediumServes data again I}.
Context (Hbytes : buf_wf 8 data) (Hsize : bits_of_data data <= 2 ^ 62) (Htc : trace_cls_ok tc = true).

Abbreviation denotes_now := (denotes_now tc data).
Abbreviation denotes := (denotes tc data).
Abbreviation head_of := curEventRecordHeadOffset.
Abbreviation inv := (inv data I).
Abbreviation continues := (continues tc data I).
Abbreviation post := (post tc data I).
Abbreviation post_throw := (post_throw tc data again I).
Abbreviation follows := (follows debug tc data again I).
Abbreviation frame_of fc i n := (StackFrameOf (end_state fc) (Some fc) i n).

(** * One call *)

Lemma step_begin it fc fs k r :
  inv it -> no_var (control it) -> is_scalar fc = false -> begin_state fc = Some (mState (control it)) -> fc_ok fc = true ->
  stack (control it) = frame_of fc 0 0 :: fs -> ItemSim.stacked tc data (head_of (control it)) fs k -> field data fc k (point it) = r -> ok r -> follows it r.
Proof.
  intros Hi Hz Hsc Hs Hfc Hstk Hst Hr Hok. destruct fc as [| | |e|n|ix|n u|ix|ms a|e n a u|e a ix|sel e ranges ix|sel opts ix]; try done.
  - by eapply step_null_terminated.
  - by eapply step_static_str.
  - by eapply step_dyn_str.
  - destruct u; [by eapply step_uuid_blob|by eapply step_static_blob].
  - by eapply step_dyn_blob.
  - by eapply step_struct.
  - destruct u; [|by eapply step_static_array]. assert (Hfc' := Hfc). simpl in Hfc'. rewrite !andb_true_iff in Hfc'. destruct Hfc' as (_ & _ & He).
    destruct e as [f| | | | | | | | | | | |]; try done. by eapply step_uuid_array.
  - by eapply step_dyn_array.
  - by eapply step_optional.
  - by eapply step_variant.
Qed.

(** Handling any state. *)
Lemma handleState_follows it k r : inv it -> denotes (control it) (point it) k -> k (point it) = r -> ok r -> follows it r.
Proof.
  intros Hi Hd Hr Hok. destruct Hd as [k Hd|k Hs Hn Hskip Hden|kp Hs Hz Hp Hn Htot].
  - destruct Hd as [[Hz Hd]|Hd].
    + destruct Hd.
      * by eapply step_init.
      * by eapply step_try_packet.
      * by eapply step_begin_content.
      * by eapply step_end_content.
      * by eapply step_end_packet.
      * by eapply step_try_scope.
      * by eapply step_end_scope.
      * by eapply step_data_stream_info.
      * by eapply step_pkt_info.
      * by eapply step_event_record_info.
      * by eapply step_end_record.
      * by eapply step_try_record.
      * by eapply step_magic.
      * by eapply step_clk.
      * by eapply step_uuid_item.
      * by eapply step_fixed.
      * by eapply step_begin.
      * by eapply step_end.
      * by eapply step_uuid_elem.
      * by eapply step_raw.
      * by eapply step_uuid_section.
      * by eapply step_substr.
    + destruct Hd; [by eapply step_var_uint|by eapply step_var_sint].
  - by eapply step_skip_content.
  - by eapply step_skip_padding.
Qed.

Lemma begin_state_not_done fc : begin_state fc <> Some Done.
Proof. unfold begin_state. by destruct (deepType fc) as [[]|]. Qed.
Lemma denotes_rank c p k : denotes c p k -> mState c <> Done /\ (rank (mState c) <= 4)%nat.
Proof.
  intros [k' Hd|k' -> _ _ _|kp -> _ _ _ _]; [|split; [done|simpl; lia]..]. split.
  - destruct Hd as [[_ Hd]|Hd]; destruct Hd; try congruence.
    + intros E. rewrite E in *. by eapply begin_state_not_done.
    + intros E. rewrite E in *. by eapply begin_state_not_done.
    + intros E. rewrite E in *. match goal with Hb : Done = end_state ?fc |- _ => by destruct fc end.
    + match goal with u : Utf |- _ => destruct u; simpl in *; congruence end.
  - apply denotes_now_rank in Hd; [lia|done].
Qed.

(** What [next] leaves: an item, or the end. *)
Definition given (r : result) (p : Z) (i : option Item) (it : ItemSeqIter M) : Prop :=
  match i with
  | None => r = ([], Finished)
  | Some i => p <= pos (point it) /\ exists r', delivers1 i p (pos (point it)) r r' /\ continues r' it
  end.
Lemma wp_next_states fuel it r p :
  (rank (mState (control it)) < fuel)%nat -> continues r it -> ok r -> p <= pos (point it) ->
  wp (next_states debug tc fuel) it (fun _ it' => given r p (curItem it') it') (post_throw r p).
Proof.
  revert it. induction fuel as [|fuel IH]; intros it Hrank [Hi (k & Hd & Hr)] Hok Hp; [lia|].
  cbn [next_states]. apply wp_bind. eapply wp_mono; [by eapply handleState_follows|..].
  - intros more it' [Hp' Hmore]. destruct more.
    + destruct Hmore as [Hc Hrank']. apply IH; [lia|done|done|lia].
    + apply wp_ret. unfold given. destruct (curItem it') as [i|]; [|done]. split; [lia|].
      destruct Hmore as (r' & Hdel & Hc). exists r'. split; [|done].
      destruct Hdel; [apply delivers_whole|by eapply delivers_part|eapply delivers_before_failure; [done|lia]].
  - intros e it' He. destruct e; [done|]. destruct He as (? & ? & ?). split; [done|]. split; [lia|done].
Qed.
Lemma next_enough_fuel it r :
  continues r it -> ok r -> wp (next debug tc) it (fun i it' => given r (pos (point it)) i it') (post_throw r (pos (point it))).
Proof.
  intros Hc Hok. assert (Hc' := Hc). destruct Hc' as [_ (k & Hd & _)]. apply denotes_rank in Hd as [Hdone Hrank].
  unfold next. apply wp_bind, wp_gets, wp_bind, wp_assert; [by rewrite bool_decide_false|]. apply wp_bind.
  eapply wp_mono; [apply (wp_next_states 6); [lia|done|done|done]| |done]. intros [] it' Hg. by apply wp_gets.
Qed.
End running.

(** * Calling the iterator *)

Section items.
Context {M : Type} `{Medium M} (debug : bool) (tc : TraceCls).

(** The items that at most [fuel] calls of [next] give, how many calls threw that the user is
    to try again, and how the calls ended ([OutOfFuel]: they did not). *)
Fixpoint items (fuel : nat) (it : ItemSeqIter M) : list Item * nat * status :=
  match fuel with
  | O => ([], 0%nat, OutOfFuel)
  | S fuel =>
    match next debug tc it with
    | (it, Ret (Some i)) => let '(l, n, st) := items fuel it in (i :: l, n, st)
    | (_, Ret None) => ([], 0%nat, Finished)
    | (it, Throw TryAgain) => let '(l, n, st) := items fuel it in (l, S n, st)
    | (_, Throw Error) => ([], 0%nat, Failed)
    | (_, Undefined) => ([], 0%nat, NotDefined)
    end
  end.
End items.

(** Getting items, from what is to decode to what is left to decode: an item is the one to
    decode, some of its data, or some data before a failure; after an interruption ([again])
    the end of the content of a packet may not be given. *)
Inductive gives (again : bool) : list Item -> result -> result -> Prop :=
| gives_none r : gives again [] r r
| gives_item i l s st r : gives again l (s, st) r -> gives again (i :: l) (i :: s, st) r
| gives_some c t l s st r : c <> [] -> t <> [] -> gives again l (RawDataItem t :: s, st) r -> gives again (RawDataItem c :: l) (RawDataItem (c ++ t) :: s, st) r
| gives_before_failure c l r : gives again l ([], Failed) r -> gives again (RawDataItem c :: l) ([], Failed) r
| gives_not l s st r : again = true -> gives again l (s, st) r -> gives again l (PktContentEndItem :: s, st) r.

(** Joining the data of consecutive items. *)
Definition join_item (i : Item) (l : list Item) : list Item :=
  match i, l with RawDataItem a, RawDataItem b :: t => RawDataItem (a ++ b) :: t | _, _ => i :: l end.
Definition join : list Item -> list Item := fold_right join_item [].
Definition is_raw (i : Item) : Prop := match i with RawDataItem _ => True | _ => False end.

Lemma join_app_item c t l : join_item (RawDataItem c) (join_item (RawDataItem t) l) = join_item (RawDataItem (c ++ t)) l.
Proof. destruct l as [|[] l]; simpl; try done. by rewrite app_assoc. Qed.
Lemma gives_join l r st :
  gives false l r ([], st) -> exists raw, Forall is_raw raw /\ (st <> Failed -> raw = []) /\ st = snd r /\ join l = join (fst r ++ raw).
Proof.
  intros Hg. remember ([], st) as r' eqn:E. induction Hg as [r|i l s st' r Hg IH|c t l s st' r Hc Ht Hg IH|c l r Hg IH|l s st' r Hag Hg IH]; subst; [|..|done].
  - by exists [].
  - destruct (IH eq_refl) as (raw & Hraw & Hst & E & Hj). exists raw. split_and!; try done. simpl in *. by rewrite Hj.
  - destruct (IH eq_refl) as (raw & Hraw & Hst & E & Hj). exists raw. split_and!; try done. unfold join in *. cbn [fold_right fst app] in *. by rewrite Hj, join_app_item.
  - destruct (IH eq_refl) as (raw & Hraw & Hst & E & Hj). simpl in *. exists (RawDataItem c :: raw). split_and!; try done.
    + by constructor.
    + by rewrite Hj.
Qed.

Lemma gives_status again l r r' : gives again l r r' -> snd r' = snd r.
Proof. by induction 1. Qed.

(** * The calls end *)

(** How many items an item may be cut in, at most. *)
Definition weight (i : Item) : nat := match i with RawDataItem b => S (length b) | _ => 1 end.
Definition weights (l : list Item) : nat := sum_list_with weight l.

Section decode.
Context {M : Type} `{Medium M} (debug : bool) (tc : TraceCls) (data : list Z) (again : bool) (I : M -> Prop).
Context `{!MediumServes data again I}.
Context (Hbytes : buf_wf 8 data) (Hsize : bits_of_data data <= 2 ^ 62) (Htc : trace_cls_ok tc = true).

Abbreviation continues := (continues tc data I).
Definition left_bits (p : Point) : nat := Z.to_nat (bits_of_data data - pos p).

Lemma weight_pos i : (1 <= weight i)%nat.
Proof. destruct i; simpl; lia. Qed.
Lemma delivers_weights i p p' r r' :
  pos p <= pos p' -> pos p' <= bits_of_data data -> delivers1 i (pos p) (pos p') r r' ->
  (weights (fst r') + left_bits p' < weights (fst r) + left_bits p)%nat.
Proof.
  intros Hp Hb Hd. unfold left_bits. destruct Hd as [l st|c t l st -> Hc Ht|c -> Hlt]; simpl.
  - pose proof (weight_pos i). unfold weights. simpl. lia.
  - unfold weights. simpl. rewrite length_app. destruct c; [done|]. simpl. lia.
  - lia.
Qed.
Lemma gives_delivers i p p' r r' l r'' : delivers1 i p p' r r' -> gives again l r' r'' -> gives again (i :: l) r r''.
Proof. intros [l0 st|c t l0 st -> Hc Ht|c -> Hlt] Hg; [by apply gives_item|by apply gives_some|by apply gives_before_failure]. Qed.

Lemma ok_delivers i p p' r r' : delivers1 i p p' r r' -> ok r -> ok r'.
Proof. by intros [l st|c t l st -> Hc Ht|c -> Hlt]. Qed.
Lemma continues_pos r it : continues r it -> pos (point it) <= bits_of_data data.
Proof. intros [[Hw _] _]. pose proof (win_head _ _ _ Hw). unfold pos. simpl. lia. Qed.

Lemma items_give fuel it r :
  continues r it -> ok r ->
  let '(l, n, st) := items debug tc fuel it in
  (exists r', gives again l r r' /\ (st = OutOfFuel \/ r' = ([], st))) /\ (again = false -> n = 0%nat) /\
  ((weights (fst r) + left_bits (point it) + n < fuel)%nat -> st <> OutOfFuel).
Proof.
  revert it r. induction fuel as [|fuel IH]; intros it r Hc Hok; simpl.
  { split; [exists r; split; [constructor|by left]|]. split; [done|lia]. }
  pose proof (next_enough_fuel debug tc data again I Hbytes Hsize Htc it r Hc Hok) as Hn. unfold wp in Hn.
  destruct (next debug tc it) as [it' [[i|]|[|]|]]; simpl in Hn.
  - destruct Hn as (Hp & r' & Hdel & Hc'). specialize (IH it' r' Hc' (ok_delivers _ _ _ _ _ Hdel Hok)).
    destruct (items debug tc fuel it') as [[l n] st]. destruct IH as ((r'' & Hg & Hst) & Hn & Hfuel).
    split; [exists r''; split; [by eapply gives_delivers|done]|]. split; [done|]. intros Hf. apply Hfuel.
    pose proof (delivers_weights _ _ _ _ _ Hp (continues_pos _ _ Hc') Hdel). lia.
  - subst r. split; [exists ([], Finished); split; [constructor|by right]|]. done.
  - subst r. split; [exists ([], Failed); split; [constructor|by right]|]. done.
  - destruct Hn as (Hag & Hp & Hn). assert (Hl : (left_bits (point it') <= left_bits (point it))%nat) by (unfold left_bits; lia).
    destruct Hn as [Hc'|(s & st0 & -> & Hc')].
    + specialize (IH it' r Hc' Hok). destruct (items debug tc fuel it') as [[l n] st]. destruct IH as (Hg & Hn & Hfuel).
      split; [done|]. split; [intros; by rewrite Hag in *|]. intros. apply Hfuel. lia.
    + specialize (IH it' (s, st0) Hc' Hok). destruct (items debug tc fuel it') as [[l n] st]. destruct IH as ((r'' & Hg & Hst) & Hn & Hfuel).
      split; [exists r''; split; [by apply gives_not|done]|]. split; [intros; by rewrite Hag in *|]. unfold weights in *. simpl in *. intros. apply Hfuel. lia.
  - done.
Qed.

Lemma continues_new m : I m -> continues (decode tc data) (new_iter tc m).
Proof.
  intros Hm. split.
  - split.
    + unfold win_ok, new_iter, bits_of_data. simpl. split_and!; try done; try lia. apply prefix_nil.
    + unfold dec_ok. simpl. split_and!; try lia; try done. apply Forall_replicate. lia.
  - exists (packets tc data (enough data) (enough data)). split; [|done]. apply denotes_state. left. split; [done|]. by apply at_Init.
Qed.
End decode.
