(* ===== verification/ItemTotal.v ===== *)
(** The reference decoder ends: its fuel is enough.

    A record or a packet takes at least one bit, because a record which takes none is an error
    and because only a field gives a packet a length. *)

From S2P Require Import Prelude Bitfield CtfIr ItemBits ItemBitsFacts ItemState ItemSeq ItemSpec ItemWp ItemSim ItemStep ItemFollow ItemFollowData ItemFollowScopes.

Section total.
Context (tc : TraceCls) (data : list Z) (Htc : trace_cls_ok tc = true).

(** The lengths of a packet are unknown, or the head is after a field. *)
Definition good (p : Point) : Prop :=
  0 <= at_pkt p /\ at_pkt p mod 8 = 0 /\ 0 <= at_head p /\ pos p <= bits_of_data data /\
  (expectedTotal (at_dec p) = infDataLen /\ expectedContent (at_dec p) = infDataLen \/ 0 < at_head p) /\
  Forall (fun v => 0 <= v < 2 ^ 64) (savedKeyVals (at_dec p)) /\
  (forall c, dataStreamCls (at_dec p) = Some c -> data_stream_cls_ok c = true) /\ (forall c, eventRecordCls (at_dec p) = Some c -> event_record_cls_ok c = true).
Definition after (p p' : Point) : Prop := good p' /\ at_pkt p' = at_pkt p /\ at_head p <= at_head p'.
Definition ends_ok (k : rest) (p : Point) : Prop := snd (k p) <> OutOfFuel.
(** A decoder of a part ends if what follows it does. *)
Definition tame (f : rest -> rest) : Prop := forall k p, good p -> (forall p', after p p' -> ends_ok k p') -> ends_ok (f k) p.

Lemma after_refl p : good p -> after p p.
Proof. by intros; split_and!. Qed.
Lemma after_trans p p' p'' : after p p' -> after p' p'' -> after p p''.
Proof. intros (_ & E & ?) (? & E' & ?). split_and!; [done|congruence|lia]. Qed.
Lemma ends_emit i k p : ends_ok k p -> ends_ok (emit i k) p.
Proof. unfold ends_ok, emit. by destruct (k p). Qed.
Lemma tame_emit i : tame (emit i).
Proof. intros k p Hp Hk. by apply ends_emit, Hk, after_refl. Qed.
Lemma tame_id : tame (fun k => k).
Proof. intros k p Hp Hk. by apply Hk, after_refl. Qed.
Lemma tame_comp f g : tame f -> tame g -> tame (fun k => f (g k)).
Proof.
  intros Hf Hg k p Hp Hk. apply Hf; [done|]. intros p' Hp'. apply Hg; [apply Hp'|]. intros p'' Hp''. apply Hk. by eapply after_trans.
Qed.
Lemma tame_iter n f : tame f -> tame (fun k => Nat.iter n f k).
Proof. intros Hf. induction n as [|n IH]; [apply tame_id|]. exact (tame_comp _ _ Hf IH). Qed.

Lemma good_advance n p : good p -> 0 <= n -> pos p + n <= bits_of_data data -> after p (advance n p).
Proof.
  intros (Hp & H8 & Hh & Hb & Hor & Hs & Hc & He) Hn Hl. unfold after, good. rewrite pos_advance. simpl. split_and!; try done; try lia.
Qed.
(** Past a field, what was decoded does not matter. *)
Lemma after_dec f p p' :
  after p p' -> 0 < at_head p' -> Forall (fun v => 0 <= v < 2 ^ 64) (savedKeyVals (f (at_dec p'))) ->
  dataStreamCls (f (at_dec p')) = dataStreamCls (at_dec p') -> eventRecordCls (f (at_dec p')) = eventRecordCls (at_dec p') -> after p (on_dec f p').
Proof.
  intros ((Hp & H8 & Hh & Hb & Hor & Hs & Hc & He) & Hpk & Hle) H0 Hf Ec Ee. unfold after, good, pos in *. simpl. rewrite Ec, Ee. split_and!; try done. by right.
Qed.

Lemma ends_demand n k p : (pos p + n <= bits_of_data data -> ends_ok k p) -> ends_ok (demand data n k) p.
Proof. intros Hk. unfold ends_ok, demand. repeat case_match; try done. apply Hk. lia. Qed.
Lemma tame_skipping b n : 0 <= n -> tame (skipping data b n).
Proof.
  intros Hn k p Hp Hk. unfold ends_ok, skipping. destruct (n =? 0); [by apply Hk, after_refl|]. destruct b.
  - apply (ends_demand n (fun p => k (advance n p))). intros Hl. by apply Hk, good_advance.
  - destruct (Z.ltb_spec (bits_of_data data) (pos p + n)); [done|]. by apply Hk, good_advance.
Qed.
(** The head is then aligned. *)
Lemma ends_aligned a k p : 0 < a -> good p -> (forall p', after p p' -> at_head p' mod a = 0 -> ends_ok k p') -> ends_ok (aligned data a k) p.
Proof.
  intros Ha Hp Hk. unfold ends_ok, aligned. pose proof (padding_range p a Ha).
  apply (tame_skipping true (padding p a) ltac:(lia) (fun p' => if at_head p' mod a =? 0 then k p' else ([], Finished)) p) in Hp as Hs.
  - unfold ends_ok in Hs. rewrite (skipping_cong data true _ k (fun p' => if at_head p' mod a =? 0 then k p' else ([], Finished))); [done|].
    simpl. by rewrite (padding_aligned p a a) by (done || apply Z_mod_same_full).
  - intros p' Hp'. unfold ends_ok. destruct (Z.eqb_spec (at_head p' mod a) 0); [by apply Hk|done].
Qed.
Lemma tame_aligned a f : 0 < a -> tame f -> tame (fun k => aligned data a (f k)).
Proof. intros Ha Hf k p Hp Hk. apply ends_aligned; [done|done|]. intros p' Hp' _. apply Hf; [apply Hp'|]. intros p'' Hp''. apply Hk. by eapply after_trans. Qed.

Lemma ends_fixed signed r f k p :
  fixed_ok f = true -> good p -> (forall v p', after p p' -> 0 < at_head p' -> ends_ok (k v) p') -> ends_ok (fixed data signed r f k) p.
Proof.
  intros Hf Hp Hk. apply fixed_ok_inv in Hf as [Ha Hl]. unfold fixed. apply ends_aligned; [by apply pow2_pos|done|].
  intros p' Hp' _. apply ends_demand. intros Hb. unfold ends_ok.
  destruct ((lenBits r =? 0) && _ && _); [done|]. destruct (ReadFixedLenIntFunc _ _ _ _ _) as [v|]; [|done].
  assert (Hadv : after p (advance (len f) p')) by (eapply after_trans; [exact Hp'|apply good_advance; [apply Hp'|lia|done]]).
  assert (Hh : 0 < at_head (advance (len f) p')).
  { destruct Hp' as ((_ & _ & ? & _) & _ & _). simpl. lia. }
  apply (Hk _ (on_dec (with_lastByteOrder (Some (byteOrder f))) (advance (len f) p'))); [|exact Hh].
  by apply after_dec; [|done|apply Hadv| |].
Qed.
Lemma ends_saved keys v k p p' : after p p' -> 0 < at_head p' -> (forall p', after p p' -> 0 < at_head p' -> ends_ok k p') -> ends_ok (saved keys v k) p'.
Proof.
  intros Hp Hh Hk. unfold ends_ok, saved. case_match; [|done]. apply Hk; [|exact Hh]. apply after_dec; try done. simpl.
  apply save_range, Hp.
Qed.

(** After a field. *)
Definition past (p : Point) (k : rest) : Prop := forall p', after p p' -> 0 < at_head p' -> ends_ok k p'.
Lemma past_of p (k : rest) : (forall p', after p p' -> ends_ok k p') -> past p k.
Proof. intros Hk p' Hp _. by apply Hk. Qed.
Lemma past_saved p keys v k : past p k -> past p (saved keys v k).
Proof. intros Hk p' Hp Hh. by eapply ends_saved. Qed.
Lemma past_emit p i k : past p k -> past p (emit i k).
Proof. intros Hk p' Hp Hh. by apply ends_emit, Hk. Qed.
Lemma past_roles p roles n v i k : past p k -> past p (with_roles roles n v i k).
Proof.
  intros Hk. revert i. induction roles as [|role roles IH]; intros i p' Hp Hh.
  - destruct i; [exact (past_emit p _ k Hk p' Hp Hh)|exact (Hk p' Hp Hh)].
  - unfold ends_ok. simpl. apply IH; [|done]. apply after_dec; [done|done|destruct role; apply Hp|by destruct role|by destruct role].
Qed.

Lemma bytes_at_nonempty p b l : good p -> at_head p mod 8 = 0 -> bytes_at data p = b :: l -> pos p + 8 <= bits_of_data data /\ bytes_at data (advance 8 p) = l.
Proof.
  intros (Hp & H8 & Hh & _) Hm Hb. assert (Hp0 : 0 <= pos p) by (unfold pos; lia). assert (Hpm : pos p mod 8 = 0) by (unfold pos; div_lia).
  split; [|by apply (bytes_at_cons data p b [] l)].
  apply (f_equal length) in Hb. unfold bytes_at in Hb. rewrite length_drop in Hb. simpl in Hb. unfold bits_of_data. div_lia.
Qed.
Lemma ends_var_int signed kk bytes val n p p' :
  after p p' -> at_head p' mod 8 = 0 -> bytes = bytes_at data p' -> (forall v l, past p (kk v l)) -> ends_ok (var_int signed bytes val n kk) p'.
Proof.
  intros Hp Hm Hb Hk. revert p' val n Hp Hm Hb. induction bytes as [|b bytes IH]; intros p' val n Hp Hm Hb; unfold ends_ok; simpl.
  { by repeat case_match. }
  destruct (contentLeft p' <? 0); [done|]. destruct (contentLeft p' <? 8); [done|].
  destruct (appendVarLenIntByte signed val n b) as [[val' n']|]; [|done].
  destruct (bytes_at_nonempty p' b bytes) as [Hle Hb']; [apply Hp|done|done|].
  assert (Hadv : after p (advance 8 p')) by (eapply after_trans; [exact Hp|apply good_advance; [apply Hp|lia|done]]).
  assert (Hh : 0 <= at_head p') by (destruct Hp as ((_ & _ & ? & _) & _ & _); done). destruct (Z.land b 128 =? 0).
  - apply Hk; [done|]. simpl. lia.
  - apply IH; [done|simpl; div_lia|done].
Qed.
Lemma tame_var signed item keys (roles : list UIntFieldRole) :
  tame (fun k => aligned data 8 (fun p => var_int signed (bytes_at data p) 0 0 (fun v l => emit (item v l) (saved keys (if signed then wraps 64 v else v)
          (with_roles roles l v None k))) p)).
Proof.
  intros k p Hp Hk. apply ends_aligned; [lia|done|]. intros p' Hp' Hm. apply (ends_var_int _ _ _ _ _ p); try done.
  intros v l. by apply past_emit, past_saved, past_roles, past_of.
Qed.

Lemma ends_raw n kk p : 0 <= n -> good p -> (forall b p', after p p' -> ends_ok (kk b) p') -> ends_ok (raw data n kk) p.
Proof.
  intros Hn Hp Hk. apply (ends_demand (8 * n)). intros Hb. unfold ends_ok. cbv beta zeta. apply ends_emit, Hk, good_advance; [done|lia|done].
Qed.
Lemma tame_raw_content n : 0 <= n -> tame (raw_content data n).
Proof.
  intros Hn k p Hp Hk. unfold raw_content. destruct (n =? 0); [by apply Hk, after_refl|]. apply ends_raw; [done|done|]. intros _. exact Hk.
Qed.
Lemma tame_null_terminated u f : tame (null_terminated data u f).
Proof.
  intros k p Hp Hk. unfold ends_ok, null_terminated. destruct (snd (findNullCp (codeUnitLen u) f (bytes_at data p) 0)) as [n|]; [|by case_match]. apply ends_raw; [lia|done|]. intros _. exact Hk.
Qed.
Lemma ends_uuid_elems n f uuid kk p :
  fixed_ok f = true -> good p -> (forall b p', after p p' -> ends_ok (kk b) p') -> ends_ok (uuid_elems data n f uuid kk) p.
Proof.
  intros Hf. revert uuid p. induction n as [|n IH]; intros uuid p Hp Hk; [by apply Hk, after_refl|]. simpl.
  apply ends_fixed; [done|done|]. intros v p' Hp' _. apply ends_emit, IH; [apply Hp'|]. intros b p'' Hp''. apply Hk. by eapply after_trans.
Qed.
Lemma ends_with_saved index kk p : good p -> (forall n, 0 <= n < 2 ^ 64 -> ends_ok (kk n) p) -> ends_ok (with_saved index kk) p.
Proof.
  intros Hp Hk. unfold ends_ok, with_saved. destruct (do i <- index; savedKeyVals (at_dec p) !! i) as [n|] eqn:E; [|done]. apply Hk.
  destruct index as [i|]; [|done]. simpl in E. destruct Hp as (_ & _ & _ & _ & _ & Hs & _). by eapply (Forall_lookup_1 _ _ _ _ Hs).
Qed.
Lemma ends_from_bytes n k p : ends_ok k p -> ends_ok (from_bytes n k) p.
Proof. intros Hk. unfold from_bytes. by destruct (_ || _). Qed.
Lemma tame_fixed_field f : fixed_ok f = true -> tame (fixed_field data f).
Proof.
  intros Hf k p Hp Hk. pose proof (past_of _ _ Hk) as Hpast. unfold fixed_field.
  destruct (fl_type f); apply ends_fixed; try done; intros v p' Hp' Hh; (eapply past_emit; [|exact Hp'|exact Hh]); try apply past_saved; try apply past_roles; done.
Qed.

(** * Fields *)

(** A field which begins with an item, aligned, and ends with another. *)
Lemma tame_between i j f : tame f -> tame (fun k => emit i (f (emit j k))).
Proof. intros Hf. apply (tame_comp (emit i) (fun k => f (emit j k))); [apply tame_emit|]. apply (tame_comp f (emit j)); [done|apply tame_emit]. Qed.
Lemma tame_fold (ms : list Fc) : Forall (fun m => tame (field data m)) ms -> tame (fun k => fold_right (field data) k ms).
Proof. induction 1 as [|m ms Hm Hms IH]; [apply tame_id|]. exact (tame_comp _ _ Hm IH). Qed.
Lemma tame_with_saved index (f : Z -> rest -> rest) : (forall n, 0 <= n < 2 ^ 64 -> tame (f n)) -> tame (fun k => with_saved index (fun n => f n k)).
Proof. intros Hf k p Hp Hk. apply ends_with_saved; [done|]. intros n Hn. by apply Hf. Qed.
Lemma tame_option_at sel fc v opts i : Forall (fun o => tame (field data (fst o))) opts -> tame (fun k => option_at data sel fc v k opts i).
Proof.
  intros Ho k p Hp Hk. rewrite option_at_find. destruct (findOptBySelVal opts v i) as [[j e]|] eqn:E; [|done].
  apply (tame_between _ _ (field data e)); [|done|done]. revert i E. induction Ho as [|[e' r] opts He Ho IH]; intros i E; [done|].
  simpl in E. destruct (contains r v); [by simplify_eq|by eapply IH].
Qed.
Lemma oks_tame (ms : list Fc) :
  Forall (fun m => fc_ok m = true -> tame (field data m)) ms -> forallb fc_ok ms = true -> Forall (fun m => tame (field data m)) ms.
Proof.
  intros Hm Hok. induction Hm as [|m ms Hm Hms IH]; [constructor|]. simpl in Hok. apply andb_true_iff in Hok as [H1 H2].
  constructor; [by apply Hm|by apply IH].
Qed.
Lemma tame_field fc : fc_ok fc = true -> tame (field data fc).
Proof.
  induction fc as [f|roles keys|keys|e|n|ix|n u|ix|ms a IH|e n a u IH|e a ix IH|sel e r ix IH|sel opts ix IH] using Fc_nested_ind; intros Hok.
  - by apply tame_fixed_field.
  - exact (tame_var false (VarLenUIntFieldItem (VarLenUIntFc roles keys)) keys roles).
  - exact (tame_var true (fun v => VarLenSIntFieldItem (VarLenSIntFc keys) (wraps 64 v)) keys []).
  - apply tame_aligned; [done|]. apply tame_between, tame_null_terminated.
  - apply tame_aligned; [done|]. apply tame_between, tame_raw_content. simpl in Hok. unfold u64 in Hok. lia.
  - apply tame_with_saved. intros n Hn k p Hp Hk. apply ends_from_bytes. revert k p Hp Hk. apply (tame_aligned 8); [done|]. apply tame_between, tame_raw_content. lia.
  - simpl in Hok. unfold u64 in Hok. destruct u.
    + apply tame_aligned; [done|]. intros k p Hp Hk. apply ends_emit, ends_raw; [lia|done|]. intros b p' Hp'. by do 2 apply ends_emit; apply Hk.
    + apply tame_aligned; [done|]. apply tame_between, tame_raw_content. lia.
  - apply tame_with_saved. intros n Hn k p Hp Hk. apply ends_from_bytes. revert k p Hp Hk. apply (tame_aligned 8); [done|]. apply tame_between, tame_raw_content. lia.
  - apply tame_aligned; [by apply pow2_pos, align_pow2|]. apply (tame_between _ _ (fun k => fold_right (field data) k ms)), tame_fold.
    apply oks_tame; [done|]. simpl in Hok. rewrite !andb_true_iff in Hok. tauto.
  - assert (Ha : 0 < align (StaticLenArrayFc e n a u)) by (by apply pow2_pos, align_pow2). simpl in Hok. rewrite !andb_true_iff in Hok. destruct u.
    + destruct Hok as [_ Hu]. simpl in Hu. apply andb_true_iff in Hu as [_ Hu]. destruct e as [f| | | | | | | | | | | |]; try done. apply (tame_aligned _ _ Ha). intros k p Hp Hk.
      apply ends_emit, ends_uuid_elems; [by apply uuid_elem_reads|done|]. intros b p' Hp'. by do 2 apply ends_emit; apply Hk.
    + apply (tame_aligned _ _ Ha). apply (tame_between _ _ (fun k => Nat.iter (Z.to_nat n) (field data e) k)), tame_iter. apply IH. tauto.
  - assert (Ha : 0 < align (DynLenArrayFc e a ix)) by (by apply pow2_pos, align_pow2). simpl in Hok. rewrite !andb_true_iff in Hok.
    apply tame_with_saved. intros n Hn. apply (tame_aligned _ _ Ha). apply (tame_between _ _ (fun k => Nat.iter (Z.to_nat n) (field data e) k)), tame_iter. apply IH. tauto.
  - intros k p Hp Hk. apply ends_with_saved; [done|]. intros v Hv. apply ends_emit. cbv zeta. destruct (isEnabledBySelVal _ _ _).
    + apply (IH Hok); [done|]. intros p' Hp'. by apply ends_emit, Hk.
    + by apply ends_emit, Hk, after_refl.
  - apply (tame_with_saved ix (fun v k => option_at data sel (VariantFc sel opts ix) (sel_val sel v) k opts 0)). intros v Hv.
    apply tame_option_at. simpl in Hok. clear -IH Hok. induction IH as [|o opts Ho Hopts IH]; [constructor|].
    simpl in Hok. apply andb_true_iff in Hok as [H1 H2]. constructor; [by apply Ho|by apply IH].
Qed.

(** * Event records *)

Lemma tame_scope_field sc fc : scope_ok fc = true -> tame (scope_field data sc fc).
Proof.
  destruct fc as [fc|]; [|intros _; apply tame_id]. simpl. rewrite andb_true_iff. intros [_ Hok].
  by apply (tame_between _ _ (field data fc)), tame_field.
Qed.
(** After the beginning of a record at [p]. *)
Definition past_record (p : Point) (k : rest) : Prop := forall p', after p p' -> at_head p < at_head p' -> ends_ok k p'.
Lemma ends_er_end p k p' : past_record p k -> after p p' -> ends_ok (er_end (at_head p) k) p'.
Proof.
  intros Hk Hp. unfold ends_ok, er_end. destruct (Z.ltb_spec (at_head p') (at_head p)); [done|].
  destruct (Z.eqb_spec (at_head p') (at_head p)); [done|]. apply ends_emit, Hk; [done|lia].
Qed.
Lemma ends_er_payload p k p' : past_record p k -> after p p' -> ends_ok (er_payload data (at_head p) k) p'.
Proof.
  intros Hk Hp. unfold ends_ok, er_payload. destruct (eventRecordCls (at_dec p')) as [c|] eqn:Hc; [|done].
  assert (Hok : event_record_cls_ok c = true) by (destruct Hp as ((_ & _ & _ & _ & _ & _ & _ & He) & _); by apply He).
  apply andb_true_iff in Hok as [_ Hok]. apply tame_scope_field; [done|apply Hp|]. intros p'' Hp''. apply ends_er_end; [done|by eapply after_trans].
Qed.
Lemma ends_er_spec_ctx p k p' : past_record p k -> after p p' -> ends_ok (er_spec_ctx data (at_head p) k) p'.
Proof.
  intros Hk Hp. unfold ends_ok, er_spec_ctx. destruct (eventRecordCls (at_dec p')) as [c|] eqn:Hc; [|by apply ends_er_end].
  assert (Hok : event_record_cls_ok c = true) by (destruct Hp as ((_ & _ & _ & _ & _ & _ & _ & He) & _); by apply He).
  apply andb_true_iff in Hok as [Hok _]. apply tame_scope_field; [done|apply Hp|]. intros p'' Hp''. apply ends_er_payload; [done|by eapply after_trans].
Qed.
Lemma ends_select {A} id by_id (classes : list A) cur k p :
  (forall c, (c = cur \/ exists x, c = Some x /\ (In x classes \/ exists i, by_id i = Some x)) -> ends_ok (k c) p) -> ends_ok (select id by_id classes cur k) p.
Proof.
  intros Hk. unfold select. destruct id as [i|].
  - destruct (by_id i) as [c|] eqn:E; [|done]. apply Hk. right. exists c. split; [done|]. right. by exists i.
  - destruct classes as [|c [|]]; [apply Hk; by left| |done]. apply Hk. right. exists c. split; [done|]. left. by left.
Qed.
Lemma after_same f p p' :
  after p p' -> expectedTotal (f (at_dec p')) = expectedTotal (at_dec p') -> expectedContent (f (at_dec p')) = expectedContent (at_dec p') ->
  savedKeyVals (f (at_dec p')) = savedKeyVals (at_dec p') -> (forall c, dataStreamCls (f (at_dec p')) = Some c -> data_stream_cls_ok c = true) ->
  (forall c, eventRecordCls (f (at_dec p')) = Some c -> event_record_cls_ok c = true) -> after p (on_dec f p').
Proof. intros ((Hp & H8 & Hh & Hb & Hor & Hs & Hc & He) & Hpk & Hle) E1 E2 E3 Hc' He'. unfold after, good, pos in *. simpl. by rewrite E1, E2, E3. Qed.
Lemma ends_er_info p k p' : past_record p k -> after p p' -> ends_ok (er_info data (at_head p) k) p'.
Proof.
  intros Hk Hp. unfold ends_ok, er_info. destruct (dataStreamCls (at_dec p')) as [ds|] eqn:Hds; [|done].
  assert (Hdsok : data_stream_cls_ok ds = true) by (destruct Hp as ((_ & _ & _ & _ & _ & _ & Hc & _) & _); by apply Hc).
  apply ends_select. intros c Hc. unfold ends_ok. cbv beta zeta. apply ends_emit. set (f := fun d => _).
  assert (Hcok : forall e, c = Some e -> event_record_cls_ok e = true).
  { intros e ->. unfold data_stream_cls_ok in Hdsok. rewrite !andb_true_iff, forallb_forall in Hdsok. destruct Hdsok as [_ Her].
    destruct Hc as [Hc|(x & [= <-] & [Hin|[i Hf]])]; [|by apply Her|by apply find_some in Hf as [Hin _]; apply Her].
    destruct Hp as ((_ & _ & _ & _ & _ & _ & _ & He) & _). by apply He. }
  assert (Hp2 : after p (on_dec f p')).
  { apply after_same; [done|by subst f; simpl; destruct (has_defClkCls ds)..| |]; subst f; simpl; destruct (has_defClkCls ds); try done;
      destruct Hp as ((_ & _ & _ & _ & _ & _ & Hc' & _) & _); exact Hc'. }
  unfold data_stream_cls_ok in Hdsok. rewrite !andb_true_iff in Hdsok.
  apply tame_scope_field; [tauto|apply Hp2|]. intros p'' Hp''. apply ends_er_spec_ctx; [done|by eapply after_trans].
Qed.

Lemma ends_records n k p :
  good p -> bits_of_data data - pos p < Z.of_nat n -> (forall p', after p p' -> more_content data p' = false -> ends_ok k p') -> ends_ok (records data n k) p.
Proof.
  revert p. induction n as [|n IH]; intros p Hp Hn Hk; [destruct Hp as (_ & _ & _ & ? & _); lia|]. unfold ends_ok. cbn [records].
  destruct (dataStreamCls (at_dec p)) as [ds|] eqn:Hds; [|done]. destruct (contentLeft p <? 0); [done|].
  destruct (more_content data p) eqn:Hm; [|by apply Hk; [apply after_refl|]].
  assert (Hdsok : data_stream_cls_ok ds = true) by (destruct Hp as (_ & _ & _ & _ & _ & _ & Hc & _); by apply Hc).
  unfold data_stream_cls_ok in Hdsok. rewrite !andb_true_iff in Hdsok.
  apply ends_emit, tame_scope_field; [tauto|done|]. intros p' Hp'. apply ends_er_info; [|done].
  intros p'' Hp'' Hlt. apply IH; [apply Hp''| |].
  - destruct Hp'' as (_ & E & _). unfold pos in *. lia.
  - intros q Hq. apply Hk. by eapply after_trans.
Qed.

(** * Packets *)

(** Before a packet. *)
Definition between (p : Point) : Prop :=
  0 <= at_pkt p /\ at_pkt p mod 8 = 0 /\ at_pkt p <= bits_of_data data /\ Forall (fun v => 0 <= v < 2 ^ 64) (savedKeyVals (at_dec p)).
Definition next_at (p : Point) : Point := PointOf (pos p) 0 (at_dec p).
Lemma ends_content_end p k p' :
  after p p' -> 0 < at_head p' -> (forall q, between q -> at_pkt p < at_pkt q -> ends_ok k q) -> ends_ok (content_end data k) p'.
Proof.
  intros Hp Hh Hk.
  assert (Hnext : forall p', after p p' -> 0 < at_head p' -> ends_ok (emit PktContentEndItem (next_packet k)) p').
  { clear p' Hp Hh. intros p' ((Hp0 & _ & _ & Hb & _ & Hs & _) & E & _) Hh. apply ends_emit. unfold ends_ok, next_packet. destruct (Z.eqb_spec (pos p' mod 8) 0); [|done].
    apply ends_emit. apply (Hk (next_at p')); [unfold between, next_at; cbn [at_pkt at_head at_dec]; split_and!; try done; unfold pos; lia|unfold next_at, pos; simpl; lia]. }
  unfold ends_ok, content_end. destruct (expectedTotal (at_dec p') =? infDataLen); [by apply Hnext|].
  destruct (_ || _) eqn:Ho; [done|]. apply orb_false_iff in Ho as [_ Ho%Z.ltb_ge].
  apply (tame_skipping false (expectedTotal (at_dec p') - at_head p') ltac:(lia)); [apply Hp|]. intros p'' Hp''. apply Hnext; [by eapply after_trans|]. destruct Hp'' as (_ & _ & ?). lia.
Qed.
(** What is decoded when the information of a packet is given. *)
Definition pkt_info_dec (d : Decoded) : Decoded :=
  let d := if expectedTotal d =? infDataLen then with_expectedTotal (expectedContent d) d else d in
  let d := if expectedContent d =? infDataLen then with_expectedContent (expectedTotal d) d else d in
  match dataStreamCls d with
  | Some ds => if has_defClkCls ds then with_pktInfo (with_beginDefClkVal (Some (defClkVal d)) (pktInfo d)) d else d
  | None => d
  end.
Lemma pkt_info_dec_keeps d :
  savedKeyVals (pkt_info_dec d) = savedKeyVals d /\ dataStreamCls (pkt_info_dec d) = dataStreamCls d /\ eventRecordCls (pkt_info_dec d) = eventRecordCls d /\
  (expectedTotal d = infDataLen -> expectedContent d = infDataLen -> expectedTotal (pkt_info_dec d) = infDataLen /\ expectedContent (pkt_info_dec d) = infDataLen).
Proof.
  unfold pkt_info_dec. destruct (expectedTotal d =? infDataLen); cbn [with_expectedTotal expectedContent expectedTotal dataStreamCls];
    destruct (expectedContent d =? infDataLen); simpl; destruct (dataStreamCls d) as [ds|] eqn:Hd; try destruct (has_defClkCls ds); simpl; split_and!; try done.
Qed.
Lemma after_pkt_info p p' : after p p' -> after p (on_dec pkt_info_dec p').
Proof.
  intros Hp. destruct (pkt_info_dec_keeps (at_dec p')) as (Es & Ed & Ee & Hinf).
  destruct (Hp) as ((H0 & H8 & Hh & Hb & Hor & Hs & Hc & He) & Hpk & Hle). destruct Hor as [[E1 E2]|Hlt].
  - destruct (Hinf E1 E2) as [F1 F2]. apply after_same; rewrite ?E1, ?E2, ?Ed, ?Ee; done.
  - apply after_dec; rewrite ?Es; done.
Qed.
Lemma ends_pkt_info p k p' :
  after p p' -> at_pkt p < bits_of_data data -> (forall q, between q -> at_pkt p < at_pkt q -> ends_ok k q) ->
  ends_ok (pkt_info data (enough data) k) p'.
Proof.
  intros Hp Hlt Hk. unfold ends_ok, pkt_info. cbv zeta. destruct (_ || _); [done|]. apply ends_emit.
  change (ends_ok (records data (enough data) (content_end data k)) (on_dec pkt_info_dec p')). apply after_pkt_info in Hp.
  apply ends_records; [apply Hp| |].
  - destruct Hp as ((H0 & _ & Hh & _) & _). unfold enough, bits_of_data, pos. lia.
  - intros q Hq Hm. assert (Hpq : after p q) by (by eapply after_trans). apply (ends_content_end p); [done| |done].
    destruct (Hpq) as ((_ & _ & Hh & _ & [[_ Ec]|?] & _) & E & _); [|done]. unfold more_content in Hm. rewrite Ec in Hm. simpl in Hm. unfold pos in Hm. lia.
Qed.
Lemma ends_ds_info p k p' :
  after p p' -> at_pkt p < bits_of_data data -> (forall q, between q -> at_pkt p < at_pkt q -> ends_ok k q) ->
  ends_ok (ds_info tc data (enough data) k) p'.
Proof.
  intros Hp Hlt Hk. unfold ds_info. apply ends_select. intros c Hc. unfold ends_ok. cbv beta zeta. apply ends_emit. set (f := fun d => _).
  assert (Hds : forall ds, c = Some ds -> data_stream_cls_ok ds = true).
  { intros ds ->. pose proof Htc as H'. unfold trace_cls_ok in H'. rewrite andb_true_iff, forallb_forall in H'. destruct H' as [_ H'].
    destruct Hc as [Hc|(x & [= <-] & [Hin|[i Hf]])]; [|by apply H'|by apply find_some in Hf as [Hin _]; apply H'].
    destruct Hp as ((_ & _ & _ & _ & _ & _ & Hd & _) & _). by apply Hd. }
  assert (Hp2 : after p (on_dec f p')).
  { apply after_same; try done. by destruct Hp as ((_ & _ & _ & _ & _ & _ & _ & He) & _). }
  destruct c as [ds|]; [|by apply (ends_pkt_info p)].
  specialize (Hds ds eq_refl). unfold data_stream_cls_ok in Hds. rewrite !andb_true_iff in Hds.
  apply tame_scope_field; [tauto|apply Hp2|]. intros p'' Hp''. apply (ends_pkt_info p); [by eapply after_trans|done|done].
Qed.
Lemma ends_packets n p : between p -> bits_of_data data - at_pkt p < Z.of_nat n -> ends_ok (packets tc data (enough data) n) p.
Proof.
  revert p. induction n as [|n IH]; intros p (H0 & H8 & Hb & Hs) Hn; [lia|]. unfold ends_ok. cbn [packets].
  destruct (Z.ltb_spec (at_pkt p) (bits_of_data data)) as [Hlt|]; [|done]. unfold packet. do 2 apply ends_emit.
  assert (Hg : good (new_packet p)) by (unfold good, new_packet, pos; simpl; split_and!; try done; [lia|by left]).
  apply tame_scope_field; [|done|].
  - pose proof Htc as H'. unfold trace_cls_ok in H'. by apply andb_true_iff in H' as [? _].
  - intros p' Hp'. apply (ends_ds_info (new_packet p)); [done|done|]. intros q Hq Hlt'. apply IH; [done|]. simpl in Hlt'. lia.
Qed.

(** The reference decoder ends. *)
Lemma decode_ends : snd (decode tc data) <> OutOfFuel.
Proof.
  apply ends_packets.
  - unfold between, bits_of_data. simpl. split_and!; try done; [lia|]. apply Forall_replicate. lia.
  - unfold enough, bits_of_data. simpl. lia.
Qed.
End total.
