(* ===== verification/ItemClaims.v ===== *)
(** What the item sequence iterator promises: whatever its medium serves the data in, it
    gives the items of the reference decoder, which ends.  And what it does wrong. *)

From S2P Require Import Prelude Bitfield CtfIr ItemBits ItemBitsFacts ItemState ItemSeq ItemSpec ItemWp ItemSim ItemStep ItemDecode ItemTotal.

(** * A medium *)

(** It serves buffers of some length, and possibly refuses every other request at first. *)
Record BufMedium := BufMediumOf { served : list Z; bufLen : nat; refuses : bool; requests : nat }.
#[export] Instance BufMedium_medium : Medium BufMedium := fun m offset minSize =>
  let m' := BufMediumOf (served m) (bufLen m) (refuses m) (S (requests m)) in
  let b := drop (Z.to_nat (offset / 8)) (served m) in
  (m', if refuses m && Nat.odd (requests m) then MediumTryAgain
       else if 8 * Z.of_nat (length b) <? minSize then NoData
       else Bytes (take (Nat.max (bufLen m) (Z.to_nat (minSize / 8))) b)).
#[export] Instance BufMedium_serves data r : MediumServes data r (fun m => served m = data /\ refuses m = r).
Proof.
  intros m offset minSize [Hd Hr] Ho Ho8 Hm Hm8. unfold medium_buf, BufMedium_medium. simpl. split; [done|]. rewrite Hd, Hr.
  destruct (r && Nat.odd (requests m)) eqn:Hrefuse; [by apply andb_true_iff in Hrefuse as [-> _]|].
  set (b := drop _ _). assert (Hb : Z.of_nat (length b) = Z.max 0 (Z.of_nat (length data) - offset / 8)) by (unfold b; rewrite length_drop; div_lia).
  destruct (Z.ltb_spec (8 * Z.of_nat (length b)) minSize) as [Hlt|Hle].
  - unfold bits_of_data. div_lia.
  - split; [apply prefix_take|]. rewrite length_take. div_lia.
Qed.

(** * An example *)

(** Packets with a header, a context and a default clock; event records with a length, two
    strings, a variable-length integer and an integer of 13 bits. *)
Definition u8 (roles : list UIntFieldRole) (keys : list nat) : Fc := FixedLenFc (FixedLen UInt 8 8 Big None roles keys).
Definition ex_tc : TraceCls :=
  TraceClsOf (Some (StructFc [FixedLenFc (FixedLen UInt 8 32 Big None [PktMagicNumber] [])] 1))
    [DataStreamClsOf 0 (Some (StructFc [u8 [PktTotalLen] []; u8 [PktContentLen] []] 1))
       (Some (StructFc [u8 [DefClkTs] []; u8 [] [0%nat]] 1)) None true
       [EventRecordClsOf 0 None
          (Some (StructFc [DynLenStrFc Utf8 (Some 0%nat); NullTerminatedStrFc Utf8; VarLenUIntFc [] []; FixedLenFc (FixedLen SInt 1 13 Big None [] [])] 8))]] 1.
Definition ex_data : list Z := [193; 31; 193; 31; 144; 141; 7; 3; 65; 66; 67; 97; 98; 0; 129; 1; 255; 248].
Definition ex_medium (r : bool) : BufMedium := BufMediumOf ex_data 3 r 0.
Lemma ex_bytes : buf_wf 8 ex_data.
Proof. repeat constructor; lia. Defined.
Lemma ex_finished : snd (decode ex_tc ex_data) = Finished.
Proof. by vm_compute. Defined.
Lemma ex_defined : snd (decode ex_tc ex_data) <> NotDefined.
Proof. by vm_compute. Defined.

(** * Decoding *)

Section claims.
Context {M : Type} `{Medium M} (debug : bool) (tc : TraceCls) (data : list Z) (I : M -> Prop).
Context (Hbytes : buf_wf 8 data) (Hsize : bits_of_data data <= 2 ^ 62) (Htc : trace_cls_ok tc = true) (Hdefined : snd (decode tc data) <> NotDefined).

(** C4: When its medium always serves the data, in buffers of whatever lengths, the iterator
    called until it ends gives the items of the reference decoder and ends as it does, in a
    number of calls bounded by the data: no assertion fails, nothing out of a buffer is read.
    Raw data may be cut in several items, and only before an error may there be more of it. *)
Theorem items_are_decoded `{!MediumServes data false I} m fuel :
  I m -> (weights (fst (decode tc data)) + 8 * length data < fuel)%nat ->
  exists l more, items debug tc fuel (new_iter tc m) = (l, 0%nat, snd (decode tc data)) /\ join l = join (fst (decode tc data) ++ more) /\
    Forall is_raw more /\ (snd (decode tc data) = Finished -> more = []).
Proof.
  intros Hm Hfuel. pose proof (decode_ends tc data Htc) as Hends.
  pose proof (items_give debug tc data false I Hbytes Hsize Htc fuel (new_iter tc m) (decode tc data) (continues_new tc data I Htc m Hm) (conj Hdefined Hends)) as Hg.
  destruct (items debug tc fuel (new_iter tc m)) as [[l n] st]. destruct Hg as ((r' & Hg & Hst) & Hn & Hf). rewrite (Hn eq_refl) in *.
  destruct Hst as [-> | ->]; [exfalso; apply Hf; [|done]; unfold left_bits, bits_of_data, pos; simpl; lia|].
  destruct (gives_join _ _ _ Hg) as (more & Hraw & Hmore & -> & Hj). exists l, more. split_and!; try done. intros E. apply Hmore. by rewrite E.
Qed.

(** C7: When the medium may ask to try again at any request, the iterator, called again,
    resumes: the items it gives are those to decode, except that the end of the content of a
    packet may be missing, and it ends as the reference decoder does, in a number of calls
    bounded by the data and by how many times the medium refused. *)
Theorem items_are_decoded_again `{!MediumServes data true I} m fuel :
  I m ->
  let '(l, n, st) := items debug tc fuel (new_iter tc m) in
  (exists r, gives true l (decode tc data) r /\ (st = OutOfFuel \/ st = snd (decode tc data) /\ r = ([], st))) /\
  ((weights (fst (decode tc data)) + 8 * length data + n < fuel)%nat -> st = snd (decode tc data)).
Proof.
  intros Hm. pose proof (decode_ends tc data Htc) as Hends.
  pose proof (items_give debug tc data true I Hbytes Hsize Htc fuel (new_iter tc m) (decode tc data) (continues_new tc data I Htc m Hm) (conj Hdefined Hends)) as Hg.
  destruct (items debug tc fuel (new_iter tc m)) as [[l n] st]. destruct Hg as ((r' & Hg & Hst) & _ & Hf).
  assert (Hst' : st = OutOfFuel \/ st = snd (decode tc data) /\ r' = ([], st)) by (destruct Hst as [|E]; [by left|right; by rewrite <- (gives_status _ _ _ _ Hg), E]).
  split; [by exists r'|]. intros Hfuel. destruct Hst' as [E|[E _]]; [|done]. exfalso. apply Hf; [|done].
  unfold left_bits, bits_of_data, pos; simpl; lia.
Qed.
End claims.

Lemma items_are_decoded_witness :
  exists l more, items true ex_tc 300 (new_iter ex_tc (ex_medium false)) = (l, 0%nat, Finished) /\ join l = join (fst (decode ex_tc ex_data) ++ more) /\
    Forall is_raw more /\ (Finished = Finished -> more = []).
Proof.
  rewrite <- ex_finished.
  apply (items_are_decoded true ex_tc ex_data (fun m => served m = ex_data /\ refuses m = false) ex_bytes ltac:(by vm_compute) eq_refl ex_defined (ex_medium false) 300).
  - by split.
  - apply Nat.ltb_lt. by vm_compute.
Defined.
Lemma items_are_decoded_again_witness :
  (exists r, gives true (fst (fst (items true ex_tc 300 (new_iter ex_tc (ex_medium true))))) (decode ex_tc ex_data) r) /\
  snd (items true ex_tc 300 (new_iter ex_tc (ex_medium true))) = Finished.
Proof.
  pose proof (items_are_decoded_again true ex_tc ex_data (fun m => served m = ex_data /\ refuses m = true) ex_bytes ltac:(by vm_compute) eq_refl ex_defined
    (ex_medium true) 300 ltac:(by split)) as H.
  split.
  - destruct (items true ex_tc 300 (new_iter ex_tc (ex_medium true))) as [[l n] st]. destruct H as [(r & Hg & _) _]. by exists r.
  - by vm_compute.
Defined.

(** * Integers *)

(** Bit [i] of a field of the class [f] at the bit [extra] of the bytes [l]: as its byte order
    and its bit order say. *)
Definition class_bit (f : FixedLenBitArrayFc) (l : list Z) (extra i : Z) : bool :=
  let i := if isRev (byteOrder f) (bitOrder f) then len f - 1 - i else i in
  match byteOrder f with Little => le_bit 8 l (extra + i) | Big => be_bit 8 l (extra + len f - 1 - i) end.
Lemma field_bit_class f l h i :
  fixed_ok f = true -> (lenBits (reading_of f) <> 0 -> h mod 8 = 0) -> 0 <= i < len f -> field_bit (reading_of f) l (h mod 8) (len f) i = class_bit f l (h mod 8) i.
Proof.
  intros Hf Hal Hi. unfold field_bit, class_bit, reading_of in *. destruct (isStdBitArrayFc (fl_align f) (len f)) eqn:Hstd; simpl in *; [|by destruct (isRev _ _)].
  destruct (Z.eqb_spec (len f) 8) as [E|Hne]; [|by destruct (isRev _ _)]. rewrite E in *. rewrite Hal by lia.
  destruct (byteOrder f); destruct (isRev _ _); simpl; unfold le_bit, be_bit; f_equal; div_lia.
Qed.

(** C19: A fixed-length integer field of at most 64 bits, whose head is aligned, is read as the
    integer whose bits are those of the field in the order of its class, extended with its
    sign when it is signed, whatever follows it in the buffer; the standard lengths, which are
    read otherwise, too. *)
Theorem fixed_length_fields_exact signed f l l' h :
  fixed_ok f = true -> buf_wf 8 (l ++ l') -> 8 * (Z.of_nat (length (l ++ l')) + 1) <= 2 ^ 64 -> h mod fl_align f = 0 ->
  h mod 8 + len f <= 8 * Z.of_nat (length l) ->
  exists v, ReadFixedLenIntFunc signed (reading_of f) (l ++ l') (h mod 8) (len f) = Some v /\ int_bits signed (len f) (class_bit f l (h mod 8)) v.
Proof.
  intros Hf Hwf Hmem Hal Hl. pose proof (reads_ok (reading_of f) f h Hf (reading_of_reads f Hf) (fun _ => Hal)) as Hok.
  destruct (ReadFixedLenIntFunc_bits signed (reading_of f) l l' (h mod 8) (len f)) as (v & Hv & Hbits); [done..|].
  exists v. split; [done|]. destruct (fixed_ok_inv f Hf) as [_ Hlen]. refine (int_bits_ext _ _ _ _ _ _ _ Hbits); [lia|].
  intros i Hi. apply field_bit_class; [done| |done]. intros H0. by destruct Hok as (_ & _ & [?|(_ & ? & _)]).
Qed.

Lemma fixed_length_fields_exact_witness :
  exists v, ReadFixedLenIntFunc true (reading_of (FixedLen SInt 1 13 Big (Some FirstToLast) [] [])) ([255; 248] ++ [1]) (3 mod 8) 13 = Some v /\
            int_bits true 13 (class_bit (FixedLen SInt 1 13 Big (Some FirstToLast) [] []) [255; 248] (3 mod 8)) v.
Proof. apply (fixed_length_fields_exact true (FixedLen SInt 1 13 Big (Some FirstToLast) [] []) [255; 248] [1] 3); first [by vm_compute | repeat constructor; lia]. Defined.
