(* ===== verification/ItemLeb.v ===== *)
(** A variable-length integer is read as the integer of which it is the LEB128 encoding. *)

From S2P Require Import Prelude Bitfield CtfIr ItemBits ItemBitsFacts ItemState ItemSeq ItemSpec ItemWp.

(** The shortest LEB128 encoding of an integer, signed or not. *)
Fixpoint leb128 (fuel : nat) (signed : bool) (v : Z) : list Z :=
  match fuel with
  | O => []
  | S fuel =>
    if (if signed then (-64 <=? v) && (v <? 64) else v <? 128) then [v mod 128] else (v mod 128 + 128) :: leb128 fuel signed (v / 128)
  end.
(** An integer of 64 bits has at most ten bytes. *)
Definition int64_ok (signed : bool) (v : Z) : Prop := if signed then - 2 ^ 63 <= v < 2 ^ 63 else 0 <= v < 2 ^ 64.

Lemma byte_parts b : 0 <= b < 128 ->
  Z.land b 127 = b /\ Z.land b 128 = 0 /\ Z.land (b + 128) 127 = b /\ Z.land (b + 128) 128 = 128.
Proof.
  intros Hb. set (P := fun b => Z.land b 127 = b /\ Z.land b 128 = 0 /\ Z.land (b + 128) 127 = b /\ Z.land (b + 128) 128 = 128).
  assert (HP : Forall P (seqZ 0 128)) by (vm_compute; repeat constructor). rewrite list.Forall_forall in HP. apply HP, elem_of_seqZ. lia.
Qed.

(** Appending seven more bits of [v], as far as 64 bits. *)
Lemma leb_append_bits v n : 0 <= n <= 63 ->
  Z.lor (v mod 2 ^ n) (wrapu 64 (Z.shiftl (v / 2 ^ n mod 128) n)) = v mod 2 ^ (Z.min 64 (n + 7)).
Proof.
  intros Hn. apply Z.bits_inj'. intros j Hj. change 128 with (2 ^ 7).
  rewrite Z.lor_spec, testbit_wrapu, Z.shiftl_spec by lia.
  destruct (Z.ltb_spec j n) as [Hlt|Hge].
  - rewrite (Z.testbit_neg_r _ (j - n)), andb_false_r, orb_false_r by lia. rewrite !Z.mod_pow2_bits_low by lia. done.
  - rewrite (Z.mod_pow2_bits_high v n) by lia. simpl. destruct (Z.ltb_spec j (Z.min 64 (n + 7))) as [Hlt|Hge'].
    + rewrite (proj2 (Z.ltb_lt j 64)), !Z.mod_pow2_bits_low, Z.div_pow2_bits by lia. simpl. f_equal. lia.
    + rewrite (Z.mod_pow2_bits_high v) by lia. destruct (Z.ltb_spec j 64); simpl; [|done]. apply Z.mod_pow2_bits_high. lia.
Qed.

Lemma leb_testbit_len signed v n :
  0 < n <= 64 -> (if signed : bool then - 2 ^ (n - 1) <= v < 2 ^ (n - 1) else 0 <= v < 2 ^ n) -> VarLenIntFieldVal signed n (v mod 2 ^ n) = v mod 2 ^ 64.
Proof.
  intros Hn Hv. unfold VarLenIntFieldVal. destruct signed; simpl.
  2: { rewrite (Z.mod_small v (2 ^ n)) by lia. symmetry. apply Z.mod_small. assert (2 ^ n <= 2 ^ 64) by (apply Z.pow_le_mono_r; lia). lia. }
  destruct (Z.eqb_spec n 64) as [->|]; [done|].
  assert (Hpow : 2 ^ n = 2 * 2 ^ (n - 1)) by (rewrite <- Z.pow_succ_r by lia; f_equal; lia). set (m := 2 ^ (n - 1)) in *.
  assert (Hm : 0 < m) by (apply Z.pow_pos_nonneg; lia). assert (Hm63 : 2 ^ n <= 2 ^ 63) by (apply Z.pow_le_mono_r; lia).
  rewrite !Z.shiftl_mul_pow2, !Z.mul_1_l by lia. fold m. rewrite (wrapu_small 64 m), (wrapu_small 64 (2 ^ n - 1)) by lia.
  replace (2 ^ n - 1) with (Z.ones n) by (rewrite Z.ones_equiv; lia). rewrite Z.land_ones, Zmod_mod by lia.
  assert (Hland : forall a, 0 <= a < m -> Z.land a m = 0).
  { intros a Ha. apply Z.bits_inj'. intros j Hj. rewrite Z.land_spec, Z.bits_0. subst m. rewrite Z.pow2_bits_eqb by lia.
    destruct (Z.eqb_spec (n - 1) j) as [<-|]; [|by rewrite andb_false_r]. rewrite <- (Z.mod_small a (2 ^ (n - 1))), Z.mod_pow2_bits_high by lia. done. }
  assert (Hx : Z.lxor (v mod 2 ^ n) m - m = v); [|by rewrite Hx].
  destruct (Z.ltb_spec v 0) as [Hneg|Hpos].
  - assert (E : v mod 2 ^ n = v + 2 ^ n) by (symmetry; apply Z.mod_unique with (q := -1); lia).
    replace (v mod 2 ^ n) with ((v + m) + m) by lia. rewrite (Z.add_nocarry_lxor (v + m) m) by (apply Hland; lia).
    rewrite Z.lxor_assoc, Z.lxor_nilpotent, Z.lxor_0_r. lia.
  - rewrite Z.mod_small by lia. rewrite <- Z.add_nocarry_lxor by (apply Hland; lia). lia.
Qed.

(** A quotient by a power of two, and what it bounds. *)
Lemma div_range v w a b : 0 <= w -> a <= v / 2 ^ w < b -> a * 2 ^ w <= v < b * 2 ^ w.
Proof. intros Hw H. assert (0 < 2 ^ w) by (apply Z.pow_pos_nonneg; lia). pose proof (Z.div_mod v (2 ^ w)). pose proof (Z.mod_pos_bound v (2 ^ w)). nia. Qed.

(** Reading the bytes after the first [i] ones. *)
Lemma var_int_leb128 signed v l kk n : forall i p,
  int64_ok signed v -> (n + i = 10)%nat -> (0 < n)%nat -> let w := 7 * Z.of_nat i in
  ((0 < i)%nat -> signed = false -> 0 < v / 2 ^ w) ->
  let b := leb128 n signed (v / 2 ^ w) in 8 * Z.of_nat (length b) <= contentLeft p ->
  var_int signed (b ++ l) (v mod 2 ^ w) w kk p = kk (v mod 2 ^ 64) (Z.min 64 (w + 7 * Z.of_nat (length b))) (advance (8 * Z.of_nat (length b)) p).
Proof.
  induction n as [|n IH]; intros i p Hv Hi Hn w Hpos b Hc; [lia|]. subst b. cbn [leb128] in *. set (q := v / 2 ^ w) in *.
  assert (Hw : 0 <= w <= 63) by lia. pose proof (Z.mod_pos_bound q 128 ltac:(lia)) as Hq. destruct (byte_parts _ Hq) as (L1 & L2 & L3 & L4).
  assert (Hdiv : forall a b, a <= q < b -> a * 2 ^ w <= v < b * 2 ^ w) by (intros; by apply div_range; [lia|]).
  set (last := if signed then (-64 <=? q) && (q <? 64) else q <? 128) in *.
  assert (Hlast : last = true -> if signed then - 2 ^ (w + 7 - 1) <= v < 2 ^ (w + 7 - 1) else 0 <= v < 2 ^ (w + 7)).
  { intros Hl. unfold int64_ok in Hv. subst last. replace (w + 7 - 1) with (w + 6) by lia. rewrite !Z.pow_add_r by lia. change (2 ^ 6) with 64. change (2 ^ 7) with 128.
    destruct signed.
    - apply andb_true_iff in Hl as [H1%Z.leb_le H2%Z.ltb_lt]. specialize (Hdiv (-64) 64). lia.
    - apply Z.ltb_lt in Hl. assert (0 <= q) by (apply Z.div_pos; [lia|apply Z.pow_pos_nonneg; lia]). specialize (Hdiv 0 128). lia. }
  assert (H9 : 63 < w + 7 -> w = 63 /\ last = true /\ (if signed then q mod 128 = 0 \/ q mod 128 = 127 else q mod 128 = 1)).
  { intros Hlt. assert (Ew : w = 63) by lia. assert (Hq9 : if signed then -1 <= q < 1 else q = 1).
    { subst q. rewrite Ew in *. unfold int64_ok in Hv. change (2 ^ 64) with (2 * 2 ^ 63) in Hv. destruct signed; [div_lia|].
      specialize (Hpos ltac:(lia) eq_refl). assert (v / 2 ^ 63 < 2) by (apply Z.div_lt_upper_bound; lia). lia. }
    split; [done|]. subst last. destruct signed; [assert (q = -1 \/ q = 0) as [-> | ->] by lia; split; [done|by right|done|by left]|rewrite Hq9; done]. }
  assert (Hstep : 64 <> w + 7 -> True) by done. clear Hstep.
  assert (Hval : Z.lor (v mod 2 ^ w) (wrapu 64 (Z.shiftl (q mod 128) w)) = v mod 2 ^ Z.min 64 (w + 7)) by (by apply leb_append_bits).
  unfold appendVarLenIntByte. destruct last eqn:El.
  - specialize (Hlast eq_refl). cbn [app var_int length]. rewrite !(proj2 (Z.ltb_ge (contentLeft p) _)) by (simpl in Hc; lia).
    unfold appendVarLenIntByte. rewrite L1, L2. simpl. change (7 * Z.of_nat 1) with 7. destruct (Z.ltb_spec 63 (w + 7)) as [Hlt|Hle].
    + destruct (H9 Hlt) as (Ew & _ & Hq9). replace (_ || _) with false.
      2: { symmetry. destruct signed; simpl; [destruct Hq9 as [-> | ->]|rewrite Hq9]; done. }
      rewrite Hval, !Z.min_l by lia. by rewrite (leb_testbit_len signed v 64) by (done || lia).
    + rewrite Hval, !Z.min_r by lia. by rewrite leb_testbit_len by (done || lia).
  - destruct (Z.leb_spec (w + 7) 63) as [Hle|Hgt]; [|by destruct (H9 Hgt) as (_ & ? & _)].
    cbn [app var_int length] in *. rewrite !(proj2 (Z.ltb_ge (contentLeft p) _)) by lia.
    unfold appendVarLenIntByte. rewrite L3, L4. rewrite (proj2 (Z.ltb_ge 63 (w + 7))) by lia. simpl (128 =? 0). rewrite Hval, Z.min_r by lia.
    assert (Eq : q / 128 = v / 2 ^ (7 * Z.of_nat (S i))).
    { subst q. rewrite Z.div_div by lia. change 128 with (2 ^ 7). rewrite <- Z.pow_add_r by lia. f_equal. f_equal. lia. }
    replace (w + 7) with (7 * Z.of_nat (S i)) by lia. rewrite Eq in *.
    rewrite (IH (S i)); [|done|lia|lia| |rewrite contentLeft_advance; lia].
    + rewrite advance_advance. f_equal; [lia|f_equal; lia].
    + intros _ ->. rewrite <- Eq. subst last. apply Z.ltb_ge in El. apply Z.div_str_pos. lia.
Qed.

(** C20: A variable-length integer field whose bytes are the LEB128 encoding of an integer of 64
    bits, signed or not, is read as that integer, of seven bits by byte and at most 64 bits,
    whatever bytes follow, and exactly its bytes are consumed. *)
Theorem var_length_roundtrip signed v l kk p :
  int64_ok signed v -> let b := leb128 10 signed v in 8 * Z.of_nat (length b) <= contentLeft p ->
  var_int signed (b ++ l) 0 0 kk p = kk (v mod 2 ^ 64) (Z.min 64 (7 * Z.of_nat (length b))) (advance (8 * Z.of_nat (length b)) p).
Proof.
  intros Hv b Hc. pose proof (var_int_leb128 signed v l kk 10 0 p Hv) as Hvar. cbv zeta in Hvar. change (7 * Z.of_nat 0) with 0 in Hvar.
  rewrite Z.pow_0_r, Z.div_1_r, Z.mod_1_r in Hvar.
  apply Hvar; [done|lia|lia|done].
Qed.

Lemma var_length_roundtrip_witness :
  let p := PointOf 0 0 (DecodedOf None None 800 800 [] 0 None None no_pktInfo None None) in
  leb128 10 true (-1000) = [152; 120] /\ var_int true ([152; 120] ++ [255]) 0 0 (fun v n _ => ([VarLenSIntFieldItem (VarLenSIntFc []) (wraps 64 v) n], Finished)) p =
    ([VarLenSIntFieldItem (VarLenSIntFc []) (-1000) 14], Finished).
Proof.
  split; [done|]. pose proof (var_length_roundtrip true (-1000) [255] (fun v n _ => ([VarLenSIntFieldItem (VarLenSIntFc []) (wraps 64 v) n], Finished))
    (PointOf 0 0 (DecodedOf None None 800 800 [] 0 None None no_pktInfo None None)) ltac:(done) ltac:(done)) as H. exact H.
Defined.
