(* ===== verification/ItemFaults.v ===== *)
(** What the item sequence iterator does against the reference decoder or its own conditions,
    on examples. *)

From S2P Require Import Prelude Bitfield CtfIr ItemBits ItemState ItemSeq ItemSpec ItemDecode ItemClaims.

(** Traces of one data stream class with one event record class. *)
Definition one_stream (pktCtx header payload : option Fc) (clk : bool) : TraceCls :=
  TraceClsOf None [DataStreamClsOf 0 pktCtx header None clk [EventRecordClsOf 0 None payload]] 1.
Definition struct (ms : list Fc) : option Fc := Some (StructFc ms 8).
Definition bool8 (keys : list nat) : Fc := FixedLenFc (FixedLen Bool 8 8 Big None [] keys).
Definition decoded_items {M} `{Medium M} (debug : bool) (tc : TraceCls) (m : M) : list Item * status :=
  let '(l, _, st) := items debug tc 300 (new_iter tc m) in (l, st).
Definition medium_of (data : list Z) : BufMedium := BufMediumOf data 2 false 0.
(** [n] calls of [next]. *)
Fixpoint nexts {M} `{Medium M} (n : nat) (tc : TraceCls) (it : ItemSeqIter M) : ItemSeqIter M :=
  match n with O => it | S n => nexts n tc (fst (next true tc it)) end.

(** The end of the content of a packet is not given when the medium asks to try again for the
    padding which follows it. *)
Definition lens_tc : TraceCls := one_stream (struct [u8 [PktTotalLen] []; u8 [PktContentLen] []]) (struct [u8 [] []]) None false.
Theorem content_end_item_is_lost :
  let data := [32; 16; 1; 2] in
  let '(l, st) := decoded_items true lens_tc (BufMediumOf data 2 true 0) in
  st = Finished /\ ~ In PktContentEndItem l /\ In PktContentEndItem (fst (decode lens_tc data)) /\ In PktContentEndItem (fst (decoded_items true lens_tc (medium_of data))).
Proof. vm_compute. split; [done|]. split; [intuition discriminate|]. intuition. Qed.

(** The value of a boolean field which is a key is not saved when the next field is a boolean
    one which is not: its class is taken for that of the key. *)
Definition is_enabled (l : list Item) : list bool := omap (fun i => match i with OptionalFieldBeginItem _ _ _ b => Some b | _ => None end) l.
Definition key_tc : TraceCls := one_stream None None (struct [bool8 [0%nat]; bool8 []; OptionalFc BoolSel (u8 [] []) [] (Some 0%nat)]) false.
Theorem late_key_is_not_saved :
  let data := [1; 0; 7] in
  is_enabled (fst (decode key_tc data)) = [true] /\ is_enabled (fst (decoded_items true key_tc (medium_of data))) = [false].
Proof. by vm_compute. Qed.

(** The timestamps of a clock with variable-length fields are joined instead of replacing
    each other. *)
Definition clock_values (l : list Item) : list Z := omap (fun i => match i with DefClkValItem v => Some v | _ => None end) l.
Definition var_clk_tc : TraceCls := one_stream None (struct [VarLenUIntFc [DefClkTs] []]) None true.
Theorem variable_length_timestamps_are_joined :
  let data := [5; 8] in
  clock_values (fst (decode var_clk_tc data)) = [5; 8] /\ clock_values (fst (decoded_items true var_clk_tc (medium_of data))) = [5; 13].
Proof. by vm_compute. Qed.

(** A content length which ends before the context of its packet is not an error: an assertion
    fails, or event records are read to the end of the data. *)
Theorem short_content_is_not_an_error :
  let data := [32; 8; 1; 2] in
  snd (decoded_items true lens_tc (medium_of data)) = NotDefined /\
  length (List.filter (fun i => match i with EventRecordBeginItem => true | _ => false end) (fst (decoded_items false lens_tc (medium_of data)))) = 3%nat.
Proof. by vm_compute. Qed.

(** Seeking a packet keeps the offset of the buffer that it drops: the iterator takes the
    empty buffer for one with data. *)
Theorem seeking_keeps_the_offset_of_the_buffer :
  let tc := one_stream None (struct [u8 [] []]) None false in
  let it := nexts 25 tc (new_iter tc (medium_of [1; 2; 3; 4; 5; 6])) in
  mBuf (window (fst (seekPkt 0 it))) = [] /\ snd (items true tc 300 (fst (seekPkt 0 it))) = NotDefined /\
  snd (items true tc 300 it) = Finished.
Proof. by vm_compute. Qed.

(** The frame of a scope is not removed from the stack: it grows with each event record. *)
Theorem scope_frames_stay :
  let tc := one_stream None (struct [u8 [] []]) None false in
  forall n, (n <= 20)%nat -> length (stack (control (nexts (5 + 8 * n) tc (new_iter tc (medium_of (replicate 30 0)))))) = S n.
Proof. intros tc n Hn. do 21 (destruct n as [|n]; [by vm_compute|]). lia. Qed.
