(* ===== verification/ItemClock.v ===== *)
(** The value of the default clock of an item sequence: what a timestamp makes of it. *)

From S2P Require Import Prelude Bitfield CtfIr ItemBits ItemState ItemSeq.

Lemma low_bits_replaced cur val len : 0 <= len < 64 -> 0 <= cur < 2 ^ 64 -> 0 <= val < 2 ^ len ->
  Z.lor (Z.land cur (wrapu 64 (Z.lnot (Z.ones len)))) val = cur / 2 ^ len * 2 ^ len + val.
Proof.
  intros Hl Hc Hv. rewrite <- Z.shiftl_mul_pow2, <- Z.shiftr_div_pow2 by lia.
  rewrite Z.add_nocarry_lxor, Z.lxor_lor.
  2,3: apply Z.bits_inj'; intros i Hi; rewrite Z.land_spec, Z.shiftl_spec, Z.bits_0 by lia;
       (destruct (Z.ltb_spec i len); [by rewrite Z.testbit_neg_r by lia|by rewrite (testbit_high len val), andb_false_r by lia]).
  f_equal. apply Z.bits_inj'. intros i Hi. rewrite Z.land_spec, testbit_wrapu, Z.lnot_spec, Z.shiftl_spec by lia.
  destruct (Z.ltb_spec i len).
  - by rewrite Z.ones_spec_low, (Z.testbit_neg_r _ (i - len)), !andb_false_r by lia.
  - rewrite Z.ones_spec_high, Z.shiftr_spec, andb_true_r by lia. replace (i - len + len) with i by lia.
    destruct (Z.ltb_spec i 64); [by rewrite andb_true_r|]. by rewrite (testbit_high 64 cur) by lia.
Qed.

Lemma mod_block m k q v : 0 < m -> 0 < k -> 0 <= v < m -> (q * m + v) mod (m * k) = q mod k * m + v.
Proof.
  intros Hm Hk Hv. replace (q * m + v) with (v + q * m) by lia.
  rewrite Z.rem_mul_r, Z_mod_plus_full, Z.div_add, (Z.div_small v), Z.add_0_l, (Z.mod_small v) by lia. lia.
Qed.
(** The blocks of [m] values that begin at a multiple of it. *)
Lemma block_after m cur val r : 0 < m -> 0 <= val < m -> cur <= r * m + val <-> cur / m + (if val <? cur mod m then 1 else 0) <= r.
Proof.
  intros Hm Hv. pose proof (Z.div_mod cur m ltac:(lia)). pose proof (Z.mod_pos_bound cur m Hm). destruct (Z.ltb_spec val (cur mod m)); split; intros; nia.
Qed.

(** C21: A timestamp is the low part of the value of the default clock: the new value is the
    least one which is not before the current one and of which the low bits are the
    timestamp, as far as 64 bits. *)
Theorem default_clock_value_exact cur val len :
  0 < len <= 64 -> 0 <= cur < 2 ^ 64 -> 0 <= val < 2 ^ len ->
  exists x, updateDefClkVal cur val len = x mod 2 ^ 64 /\ cur <= x /\ x mod 2 ^ len = val /\ (forall y, cur <= y -> y mod 2 ^ len = val -> x <= y).
Proof.
  intros Hl Hc Hv. set (m := 2 ^ len) in *. assert (Hm : 0 < m) by lia. pose proof (fun r => block_after m cur val r Hm Hv) as Hq.
  set (q := cur / m + if val <? cur mod m then 1 else 0) in *. exists (q * m + val).
  split_and!; [|by apply Hq|rewrite Z.add_comm, Z_mod_plus_full; apply Z.mod_small; lia|].
  2: { intros y Hy Hmod. pose proof (Z.div_mod y m ltac:(lia)) as Ey. rewrite Hmod in Ey. specialize (Hq (y / m)). nia. }
  unfold updateDefClkVal. destruct (Z.eqb_spec len 64) as [->|Hne].
  { change (2 ^ 64) with m. rewrite Z.add_comm, Z_mod_plus_full, Z.mod_small by lia. done. }
  set (k := 2 ^ (64 - len)). assert (Hm64 : 2 ^ 64 = m * k) by (unfold m, k; rewrite <- Z.pow_add_r by lia; f_equal; lia).
  assert (1 < k) by (apply Z.pow_gt_1; lia). rewrite Z.shiftl_1_l. fold m. rewrite (wrapu_small 64 m), wrapu_small by nia.
  replace (m - 1) with (Z.ones len) by (rewrite Z.ones_equiv; unfold m; lia). rewrite Z.land_ones by lia. fold m.
  replace (cur + Z.ones len + 1) with ((cur / m + 1) * m + cur mod m) by (rewrite Z.ones_equiv; pose proof (Z.div_mod cur m ltac:(lia)); unfold m in *; lia).
  pose proof (Z.mod_pos_bound cur m Hm) as Hr. rewrite low_bits_replaced; [|lia| |done]; fold m.
  2: { destruct (val <? cur mod m); [apply Z.mod_pos_bound|]; lia. }
  rewrite Hm64, mod_block by lia. f_equal. f_equal. unfold q, wrapu. destruct (val <? cur mod m).
  - by rewrite Hm64, mod_block, Z.div_add_l, (Z.div_small (cur mod m)), Z.add_0_r by lia.
  - rewrite Z.add_0_r. symmetry. apply Z.mod_small. split; [apply Z.div_pos|apply Z.div_lt_upper_bound]; lia.
Qed.
Lemma default_clock_value_exact_witness :
  updateDefClkVal 510 3 8 = 515 /\
  exists x, updateDefClkVal 510 3 8 = x mod 2 ^ 64 /\ 510 <= x /\ x mod 2 ^ 8 = 3 /\ (forall y, 510 <= y -> y mod 2 ^ 8 = 3 -> x <= y).
Proof. split; [done|]. apply (default_clock_value_exact 510 3 8); lia. Defined.
