(* ===== verification/CtfToIr.v ===== *)
(** The trace IR classes of the classes of a CTF trace: [LibFcFromFcTranslator] and
    [LibTraceClsFromTraceClsTranslator] of
    [src/src/plugins/ctf/common/src/metadata/metadata-stream-parser.cpp].

    The translation of a field class is given as what it is to be in a store of classes.
    Names, display bases, hints, mappings, flags, attributes, BLOBs and the fields that give
    lengths and selectors are left out. *)

From stdpp Require Import list gmap.
From S2P Require Import Prelude Object IrObj FieldClass FieldClassFacts Field FieldFacts Clock Msg CtfIr.

(** * Field classes *)

(** Whether a class has a translation: an unsigned integer class that has a role has none, and
    what contains nothing else has none. *)
Fixpoint is_translated (fc : Fc) : bool :=
  match fc with
  | FixedLenFc f => match fl_type f with UInt => negb (has_role (fl_roles f)) | _ => true end
  | VarLenUIntFc roles _ => negb (has_role roles)
  | StaticLenArrayFc e _ _ _ | DynLenArrayFc e _ _ | OptionalFc _ e _ _ => is_translated e
  | VariantFc _ opts _ => existsb (fun o => is_translated (fst o)) opts
  | _ => true
  end.

(** [_setLibIntFc], and the enumerations: the values of the fields have [len] bits. *)
Definition integer_of (is_type : Z -> bool) (len : Z) (type : Z) (d : fc_contents) : Prop :=
  is_type type = true /\
  match d with IntegerContents range _ _ | EnumerationContents range _ _ _ => range = len | _ => False end.

(** The class [a] of the store is the translation of the class [fc], which has one. *)
Fixpoint translation (h : ir) (fc : Fc) (a : addr) : Prop :=
  exists type d, cls h a = Some (type, d) /\
  match fc with
  | FixedLenFc f =>
    match fl_type f with
    | BitArray | BitMap => type = BT_FIELD_CLASS_TYPE_BIT_ARRAY /\ exists flags, d = BitArrayContents (len f) flags
    | Bool => type = BT_FIELD_CLASS_TYPE_BOOL /\ d = NoContents
    | Float =>
      type = (if len f =? 32 then BT_FIELD_CLASS_TYPE_SINGLE_PRECISION_REAL else BT_FIELD_CLASS_TYPE_DOUBLE_PRECISION_REAL) /\ d = NoContents
    | UInt => integer_of is_unsigned_type (len f) type d
    | SInt => integer_of is_signed_type (len f) type d
    end
  | VarLenUIntFc _ _ => integer_of is_unsigned_type 64 type d
  | VarLenSIntFc _ => integer_of is_signed_type 64 type d
  | NullTerminatedStrFc _ | StaticLenStrFc _ _ | DynLenStrFc _ _ => type = BT_FIELD_CLASS_TYPE_STRING /\ d = NoContents
  | StaticLenBlobFc _ _ | DynLenBlobFc _ => False
  | StructFc ms _ =>
    type = BT_FIELD_CLASS_TYPE_STRUCTURE /\
    match d with
    | ContainerContents _ nfs _ =>
      (fix members (ms : list Fc) (l : list addr) : Prop :=
         match ms with
         | [] => l = []
         | m :: ms => if is_translated m then match l with [] => False | a :: l => translation h m a /\ members ms l end else members ms l
         end) ms (nf_fc <$> nfs)
    | _ => False
    end
  | StaticLenArrayFc e n _ _ =>
    type = BT_FIELD_CLASS_TYPE_STATIC_ARRAY /\ match d with StaticArrayContents a length => translation h e a /\ length = n | _ => False end
  | DynLenArrayFc e _ _ => is_dynamic_array_type type = true /\ match d with DynamicArrayContents a _ => translation h e a | _ => False end
  | OptionalFc _ e _ _ => is_option_type type = true /\ match d with OptionContents a _ _ _ => translation h e a | _ => False end
  | VariantFc _ opts _ =>
    is_variant_type type = true /\
    match d with
    | ContainerContents _ nfs _ =>
      (fix options (opts : list (Fc * IntRangeSet)) (l : list addr) : Prop :=
         match opts with
         | [] => l = []
         | (e, _) :: opts => if is_translated e then match l with [] => False | a :: l => translation h e a /\ options opts l end else options opts l
         end) opts (nf_fc <$> nfs)
    | _ => False
    end
  end.

(** The classes of scopes: there is none for a packet context that has no member left. *)
Definition scope_translation (h : ir) (fc : option Fc) (a : option addr) : Prop :=
  match fc, a with None, None => True | Some fc, Some a => translation h fc a | _, _ => False end.
Definition pkt_ctx_translation (h : ir) (fc : option Fc) (a : option addr) : Prop :=
  match fc with
  | Some (StructFc ms _) => if existsb is_translated ms then scope_translation h fc a else a = None
  | _ => a = None
  end.

(** * Data stream classes *)

(** [FcContainsUIntFcWithRole]. *)
Definition role_eqb (a b : UIntFieldRole) : bool :=
  match a, b with
  | PktMagicNumber, PktMagicNumber | DataStreamClsId, DataStreamClsId | DataStreamId, DataStreamId | PktTotalLen, PktTotalLen
  | PktContentLen, PktContentLen | DefClkTs, DefClkTs | PktEndDefClkTs, PktEndDefClkTs
  | DiscEventRecordCounterSnap, DiscEventRecordCounterSnap | PktSeqNum, PktSeqNum | EventRecordClsId, EventRecordClsId => true
  | _, _ => false
  end.
Definition hasRole (role : UIntFieldRole) (roles : list UIntFieldRole) : bool := existsb (role_eqb role) roles.
Fixpoint fcContainsUIntFcWithRole (fc : Fc) (role : UIntFieldRole) : bool :=
  match fc with
  | FixedLenFc f => match fl_type f with UInt => hasRole role (fl_roles f) | _ => false end
  | VarLenUIntFc roles _ => hasRole role roles
  | StructFc ms _ => existsb (fun m => fcContainsUIntFcWithRole m role) ms
  | StaticLenArrayFc e _ _ _ | DynLenArrayFc e _ _ | OptionalFc _ e _ _ => fcContainsUIntFcWithRole e role
  | VariantFc _ opts _ => existsb (fun o => fcContainsUIntFcWithRole (fst o) role) opts
  | _ => false
  end.
Definition pktCtxFcContainsUIntFcWithRole (c : DataStreamCls) (role : UIntFieldRole) : bool :=
  match pktCtxFc c with Some fc => fcContainsUIntFcWithRole fc role | None => false end.

(** [_translate] of a data stream class whose default clock class, when it has one, is
    translated to [clk]. *)
Definition translate_data_stream_cls (name : option (list Z)) (clk : bt_clock_class) (c : DataStreamCls) : bt_stream_class :=
  let disc_events := pktCtxFcContainsUIntFcWithRole c DiscEventRecordCounterSnap in
  let disc_packets := pktCtxFcContainsUIntFcWithRole c PktSeqNum in
  BtStreamClass (dsc_id c) name false false true
    (pktCtxFcContainsUIntFcWithRole c DefClkTs) (pktCtxFcContainsUIntFcWithRole c PktEndDefClkTs)
    disc_events disc_packets (disc_events && has_defClkCls c) (disc_packets && has_defClkCls c)
    (if has_defClkCls c then Some clk else None).
