(* ===== verification/MsgIter.v ===== *)
(** The CTF message iterator: the handlers of items and [next]
    ([src/src/plugins/ctf/common/src/msg-iter.cpp]).

    A method that has no defined behaviour, or that makes a precondition of the library fail,
    is [Undefined].  BLOB fields are left out, as in [Field], and log messages.  The index of
    a subfield does not reach 2^64. *)

From stdpp Require Import list gmap.
From S2P Require Import Prelude Object IrObj Clock Field Msg MsgCreate CtfIr ItemBits ItemState ItemSeq CtfToIr.

(** The CTF message iterator: its data ([src/src/plugins/ctf/common/src/msg-iter.hpp]).

    The iterator turns the items of an item sequence iterator ([ItemSeq]) into messages
    ([Msg], [MsgCreate]) about one stream, and fills the fields ([Field]) of the packets and
    of the events of these messages.  A field that it keeps is the position of the field in
    the root field of a scope. *)

(** * The library *)

(** What the iterator uses of the objects of libbabeltrace2: the store of the classes, whose
    trees are less than [class_depth] deep; the classes of the stream and of the event
    classes, [libCls()] of an event record class; and the identifier of the stream.  The
    references to the classes that new fields take are left out: the store does not
    change. *)
Class CtfLib := {
  ir_store : ir;
  class_depth : nat;
  stream_id : bt_stream -> Z;
  packet_context_fc : bt_stream -> option addr;
  event_common_context_fc : bt_stream -> option addr;
  ec_libCls : EventRecordCls -> option bt_event_class;
  event_class_is_of : bt_event_class -> bt_stream -> bool;
  specific_context_fc : bt_event_class -> option addr;
  payload_fc : bt_event_class -> option addr
}.

(** The objects that the pools of the library give, or that it creates when they are empty:
    the [n]th one that the iterator takes, with the contents that its previous user left in
    it. *)
Class Pools := {
  pooled_packet : nat -> bt_stream -> bt_packet;
  pooled_field : nat -> addr -> bt_field
}.

(** * Messages and packets *)

(** The fields of an event. *)
Record EventFields := EventFieldsOf {
  common_context_field : option bt_field;
  specific_context_field : option bt_field;
  payload_field : option bt_field
}.
Record Packet := PacketOf { packet : bt_packet; context_field : option bt_field }.

(** A message, with the context of its packet or the fields of its event. *)
Record CtfMessage := CtfMessageOf { the_message : bt_message; message_packet : option Packet; message_event : option EventFields }.

(** * The iterator *)

Record MsgIterQuirks := MsgIterQuirksOf {
  pktEndDefClkValZero : bool;
  eventRecordDefClkValGtNextPktBeginDefClkVal : bool;
  eventRecordDefClkValLtPktBeginDefClkVal : bool
}.

(** [_StackFrame]: the position of its field, in the root field of a scope. *)
Inductive FieldType := StructFrame | VariantFrame | OptionFrame | ArrayFrame.
Record Frame := FrameOf { fieldType : FieldType; frameScope : Scope; framePath : list nat; subFieldIndex : Z }.

(** Where the fields are that the items fill, and the state of the current string. *)
Record Cursor := CursorOf {
  frames : list Frame;
  curScopeField : option Scope;
  haveNullChar : bool;
  utf16Finder : NullCpFinder;
  utf32Finder : NullCpFinder;
  strBuf : list Z;
  curStrFieldEncoding : StrEncoding
}.
Definition with_frames (x : list Frame) (c : Cursor) : Cursor :=
  CursorOf x (curScopeField c) (haveNullChar c) (utf16Finder c) (utf32Finder c) (strBuf c) (curStrFieldEncoding c).
Definition with_curScopeField (x : option Scope) (c : Cursor) : Cursor :=
  CursorOf (frames c) x (haveNullChar c) (utf16Finder c) (utf32Finder c) (strBuf c) (curStrFieldEncoding c).
Definition with_haveNullChar (x : bool) (c : Cursor) : Cursor :=
  CursorOf (frames c) (curScopeField c) x (utf16Finder c) (utf32Finder c) (strBuf c) (curStrFieldEncoding c).
Definition with_utf16Finder (x : NullCpFinder) (c : Cursor) : Cursor :=
  CursorOf (frames c) (curScopeField c) (haveNullChar c) x (utf32Finder c) (strBuf c) (curStrFieldEncoding c).
Definition with_utf32Finder (x : NullCpFinder) (c : Cursor) : Cursor :=
  CursorOf (frames c) (curScopeField c) (haveNullChar c) (utf16Finder c) x (strBuf c) (curStrFieldEncoding c).
Definition with_strBuf (x : list Z) (c : Cursor) : Cursor :=
  CursorOf (frames c) (curScopeField c) (haveNullChar c) (utf16Finder c) (utf32Finder c) x (curStrFieldEncoding c).
Definition with_curStrFieldEncoding (x : StrEncoding) (c : Cursor) : Cursor :=
  CursorOf (frames c) (curScopeField c) (haveNullChar c) (utf16Finder c) (utf32Finder c) (strBuf c) x.

(** The members of the iterator, but for its item sequence iterator and for those that do
    not change; [taken]: how many objects it took from the pools. *)
Record MsgIterState := MsgIterStateOf {
  isDone : bool;
  msgQueue : list CtfMessage;
  cursor : Cursor;
  skipItemsUntilScopeEndItem : bool;
  curMsg : option CtfMessage;
  curPkt : option Packet;
  curPktSeqNum : option Z;
  curDefClkVal : option Z;
  curDiscErCounterSnap : option Z;
  pktBeginDefClkVal : option Z;
  pktEndDefClkVal : option Z;
  emittedStreamBeginMsg : bool;
  delayPktBeginMsgEmission : bool;
  taken : nat
}.
Definition with_isDone (x : bool) (m : MsgIterState) : MsgIterState :=
  MsgIterStateOf x (msgQueue m) (cursor m) (skipItemsUntilScopeEndItem m) (curMsg m) (curPkt m) (curPktSeqNum m) (curDefClkVal m)
    (curDiscErCounterSnap m) (pktBeginDefClkVal m) (pktEndDefClkVal m) (emittedStreamBeginMsg m) (delayPktBeginMsgEmission m) (taken m).
Definition with_msgQueue (x : list CtfMessage) (m : MsgIterState) : MsgIterState :=
  MsgIterStateOf (isDone m) x (cursor m) (skipItemsUntilScopeEndItem m) (curMsg m) (curPkt m) (curPktSeqNum m) (curDefClkVal m) (curDiscErCounterSnap
    m) (pktBeginDefClkVal m) (pktEndDefClkVal m) (emittedStreamBeginMsg m) (delayPktBeginMsgEmission m) (taken m).
Definition with_cursor (x : Cursor) (m : MsgIterState) : MsgIterState :=
  MsgIterStateOf (isDone m) (msgQueue m) x (skipItemsUntilScopeEndItem m) (curMsg m) (curPkt m) (curPktSeqNum m) (curDefClkVal m)
    (curDiscErCounterSnap m) (pktBeginDefClkVal m) (pktEndDefClkVal m) (emittedStreamBeginMsg m) (delayPktBeginMsgEmission m) (taken m).
Definition with_skipItemsUntilScopeEndItem (x : bool) (m : MsgIterState) : MsgIterState :=
  MsgIterStateOf (isDone m) (msgQueue m) (cursor m) x (curMsg m) (curPkt m) (curPktSeqNum m) (curDefClkVal m) (curDiscErCounterSnap m)
    (pktBeginDefClkVal m) (pktEndDefClkVal m) (emittedStreamBeginMsg m) (delayPktBeginMsgEmission m) (taken m).
Definition with_curMsg (x : option CtfMessage) (m : MsgIterState) : MsgIterState :=
  MsgIterStateOf (isDone m) (msgQueue m) (cursor m) (skipItemsUntilScopeEndItem m) x (curPkt m) (curPktSeqNum m) (curDefClkVal m)
    (curDiscErCounterSnap m) (pktBeginDefClkVal m) (pktEndDefClkVal m) (emittedStreamBeginMsg m) (delayPktBeginMsgEmission m) (taken m).
Definition with_curPkt (x : option Packet) (m : MsgIterState) : MsgIterState :=
  MsgIterStateOf (isDone m) (msgQueue m) (cursor m) (skipItemsUntilScopeEndItem m) (curMsg m) x (curPktSeqNum m) (curDefClkVal m)
    (curDiscErCounterSnap m) (pktBeginDefClkVal m) (pktEndDefClkVal m) (emittedStreamBeginMsg m) (delayPktBeginMsgEmission m) (taken m).
Definition with_curPktSeqNum (x : option Z) (m : MsgIterState) : MsgIterState :=
  MsgIterStateOf (isDone m) (msgQueue m) (cursor m) (skipItemsUntilScopeEndItem m) (curMsg m) (curPkt m) x (curDefClkVal m) (curDiscErCounterSnap m)
    (pktBeginDefClkVal m) (pktEndDefClkVal m) (emittedStreamBeginMsg m) (delayPktBeginMsgEmission m) (taken m).
Definition with_curDefClkVal (x : option Z) (m : MsgIterState) : MsgIterState :=
  MsgIterStateOf (isDone m) (msgQueue m) (cursor m) (skipItemsUntilScopeEndItem m) (curMsg m) (curPkt m) (curPktSeqNum m) x (curDiscErCounterSnap m)
    (pktBeginDefClkVal m) (pktEndDefClkVal m) (emittedStreamBeginMsg m) (delayPktBeginMsgEmission m) (taken m).
Definition with_curDiscErCounterSnap (x : option Z) (m : MsgIterState) : MsgIterState :=
  MsgIterStateOf (isDone m) (msgQueue m) (cursor m) (skipItemsUntilScopeEndItem m) (curMsg m) (curPkt m) (curPktSeqNum m) (curDefClkVal m) x
    (pktBeginDefClkVal m) (pktEndDefClkVal m) (emittedStreamBeginMsg m) (delayPktBeginMsgEmission m) (taken m).
Definition with_pktBeginDefClkVal (x : option Z) (m : MsgIterState) : MsgIterState :=
  MsgIterStateOf (isDone m) (msgQueue m) (cursor m) (skipItemsUntilScopeEndItem m) (curMsg m) (curPkt m) (curPktSeqNum m) (curDefClkVal m)
    (curDiscErCounterSnap m) x (pktEndDefClkVal m) (emittedStreamBeginMsg m) (delayPktBeginMsgEmission m) (taken m).
Definition with_pktEndDefClkVal (x : option Z) (m : MsgIterState) : MsgIterState :=
  MsgIterStateOf (isDone m) (msgQueue m) (cursor m) (skipItemsUntilScopeEndItem m) (curMsg m) (curPkt m) (curPktSeqNum m) (curDefClkVal m)
    (curDiscErCounterSnap m) (pktBeginDefClkVal m) x (emittedStreamBeginMsg m) (delayPktBeginMsgEmission m) (taken m).
Definition with_emittedStreamBeginMsg (x : bool) (m : MsgIterState) : MsgIterState :=
  MsgIterStateOf (isDone m) (msgQueue m) (cursor m) (skipItemsUntilScopeEndItem m) (curMsg m) (curPkt m) (curPktSeqNum m) (curDefClkVal m)
    (curDiscErCounterSnap m) (pktBeginDefClkVal m) (pktEndDefClkVal m) x (delayPktBeginMsgEmission m) (taken m).
Definition with_delayPktBeginMsgEmission (x : bool) (m : MsgIterState) : MsgIterState :=
  MsgIterStateOf (isDone m) (msgQueue m) (cursor m) (skipItemsUntilScopeEndItem m) (curMsg m) (curPkt m) (curPktSeqNum m) (curDefClkVal m)
    (curDiscErCounterSnap m) (pktBeginDefClkVal m) (pktEndDefClkVal m) (emittedStreamBeginMsg m) x (taken m).
Definition with_taken (x : nat) (m : MsgIterState) : MsgIterState :=
  MsgIterStateOf (isDone m) (msgQueue m) (cursor m) (skipItemsUntilScopeEndItem m) (curMsg m) (curPkt m) (curPktSeqNum m) (curDefClkVal m)
    (curDiscErCounterSnap m) (pktBeginDefClkVal m) (pktEndDefClkVal m) (emittedStreamBeginMsg m) (delayPktBeginMsgEmission m) x.

(** What does not change: the stream, the expected UUID and the quirks. *)
Record MsgIterCfg := MsgIterCfgOf { mStream : bt_stream; expectedMetadataStreamUuid : option (list Z); quirks : MsgIterQuirks }.

(** A new iterator: its queue is empty. *)
Definition new_cursor : Cursor := CursorOf [] None false [] [] [] Utf8.
Definition new_msg_iter : MsgIterState :=
  MsgIterStateOf false [] new_cursor false None None None None None None None false false 0.

Section handlers.
Context `{CtfLib} `{Pools} `{TraceIr} (dev debug : bool).
(** The destruction functions of the library, the contents of new memory, and the conversion
    of GLib from an encoding to UTF-8. *)
Context (call : func -> addr -> ir -> option ir) (garbage : nat -> Z) (utf8_from : StrEncoding -> list Z -> option (list Z)).
Context (cfg : MsgIterCfg).
Abbreviation mi := (stateful MsgIterState).

Definition modify (f : MsgIterState -> MsgIterState) : mi unit := fun s => (f s, Ret tt).
Definition on_cursor (f : Cursor -> Cursor) : mi unit := modify (fun s => with_cursor (f (cursor s)) s).
Definition assert (b : bool) : mi unit := if b then ret tt else undefined.

(** * The queue *)

Definition addMsgToQueue (msg : CtfMessage) : mi unit :=
  run s <- gets (fun s => s);
  if bool_decide (length (msgQueue s) < 3)%nat then modify (with_msgQueue (msgQueue s ++ [msg])) else undefined.
Definition releaseNextMsg : mi (option CtfMessage) :=
  run s <- gets (fun s => s);
  match msgQueue s with [] => ret None | msg :: queue => act modify (with_msgQueue queue); ret (Some msg) end.

(** * Fields *)

(** The root field of a scope: those of the current packet and of the event of the current
    message. *)
Definition rootField (s : MsgIterState) (scope : Scope) : option bt_field :=
  match scope with
  | PktCtx => do p <- curPkt s; context_field p
  | CommonEventRecordCtx => do m <- curMsg s; do e <- message_event m; common_context_field e
  | SpecEventRecordCtx => do m <- curMsg s; do e <- message_event m; specific_context_field e
  | EventRecordPayload => do m <- curMsg s; do e <- message_event m; payload_field e
  | PktHeader | EventRecordHeader => None
  end.
Definition with_event_field (scope : Scope) (f : bt_field) (e : EventFields) : EventFields :=
  match scope with
  | CommonEventRecordCtx => EventFieldsOf (Some f) (specific_context_field e) (payload_field e)
  | SpecEventRecordCtx => EventFieldsOf (common_context_field e) (Some f) (payload_field e)
  | EventRecordPayload => EventFieldsOf (common_context_field e) (specific_context_field e) (Some f)
  | _ => e
  end.
Definition with_rootField (scope : Scope) (f : bt_field) (s : MsgIterState) : MsgIterState :=
  match scope with
  | PktCtx => with_curPkt (option_map (fun p => PacketOf (packet p) (Some f)) (curPkt s)) s
  | _ =>
    with_curMsg (option_map (fun m => CtfMessageOf (the_message m) (message_packet m) (option_map (with_event_field scope f) (message_event m)))
      (curMsg s)) s
  end.

(** A borrowed field, and a change of it by a function of the library. *)
Definition get_field (scope : Scope) (path : list nat) : mi bt_field :=
  run root <- gets (fun s => rootField s scope); of_option (do root <- root; field_at root path).
Definition change_field (scope : Scope) (path : list nat) (op : bt_field -> option bt_field) : mi unit :=
  run root <- gets (fun s => rootField s scope);
  run root <- of_option (do root <- root; update_at root path op);
  modify (with_rootField scope root).

Definition stackTop : mi Frame := run s <- gets (fun s => s); of_option (head (frames (cursor s))).
Definition stackPush (fr : Frame) : mi unit := on_cursor (fun c => with_frames (fr :: frames c) c).
Definition stackPop : mi unit := act stackTop; on_cursor (fun c => with_frames (tail (frames c)) c).
Definition stackTopGoToNextSubField : mi unit :=
  run fr <- stackTop;
  on_cursor (fun c => with_frames (FrameOf (fieldType fr) (frameScope fr) (framePath fr) (subFieldIndex fr + 1) :: tail (frames c)) c).

(** [curSubField]: the index of the current subfield of the field of the frame. *)
Definition dbg (b : bool) : bool := implb debug b.
Definition borrowSubField (fr : Frame) (f : bt_field) : option nat :=
  let i := subFieldIndex fr in
  match fieldType fr, f with
  | StructFrame, StructureField _ fields =>
    guard_ub dbg (i <? Z.of_nat (length fields)); bt_field_structure_borrow_member_field_by_index dev ir_store f i
  | VariantFrame, VariantField _ _ _ _ =>
    guard_ub dbg (i =? 0); do o <- bt_field_variant_borrow_selected_option_field dev ir_store f; o
  | OptionFrame, OptionField _ _ _ =>
    guard_ub dbg (i =? 0); do o <- bt_field_option_borrow_field dev ir_store f; o
  | ArrayFrame, ArrayField _ _ length =>
    guard_ub dbg (i <? length); bt_field_array_borrow_element_field_by_index dev ir_store f i
  | _, _ => None
  end.
Definition curSubField (fr : Frame) : mi (Scope * list nat) :=
  run f <- get_field (frameScope fr) (framePath fr);
  run i <- of_option (borrowSubField fr f);
  ret (frameScope fr, framePath fr ++ [i]).
Definition stackTopCurSubField : mi (Scope * list nat) := run fr <- stackTop; curSubField fr.
Definition stackTopCurSubFieldAndGoToNextSubField : mi (Scope * list nat) :=
  run p <- stackTopCurSubField; act stackTopGoToNextSubField; ret p.

(** A new frame for a field, after the conversion to its type, which an assertion checks. *)
Definition is_field_type (t : FieldType) (f : bt_field) : bool :=
  match t, f with
  | StructFrame, StructureField _ _ | VariantFrame, VariantField _ _ _ _ | OptionFrame, OptionField _ _ _ | ArrayFrame, ArrayField _ _ _ => true
  | _, _ => false
  end.
Definition pushField (t : FieldType) (scope : Scope) (path : list nat) : mi unit :=
  run f <- get_field scope path; act assert_dbg debug (is_field_type t f); stackPush (FrameOf t scope path 0).

(** A scalar field. *)
Definition setNextSubField (op : bt_field -> option bt_field) : mi unit :=
  run p <- stackTopCurSubFieldAndGoToNextSubField; change_field (fst p) (snd p) op.
Definition ignoreFieldItem (cls : Fc) : bool := negb (is_translated cls).
Definition handleUIntFieldItem (cls : Fc) (val : Z) : mi unit :=
  if ignoreFieldItem cls then ret tt else setNextSubField (fun f => bt_field_integer_unsigned_set_value dev ir_store f val).
Definition handleSIntFieldItem (cls : Fc) (val : Z) : mi unit :=
  if ignoreFieldItem cls then ret tt else setNextSubField (fun f => bt_field_integer_signed_set_value dev ir_store f val).
Definition handleFixedLenBitArrayFieldItem (cls : Fc) (val : Z) : mi unit :=
  if ignoreFieldItem cls then ret tt else setNextSubField (fun f => bt_field_bit_array_set_value_as_integer dev ir_store f val).
Definition handleFixedLenBoolFieldItem (cls : Fc) (val : Z) : mi unit :=
  if ignoreFieldItem cls then ret tt else setNextSubField (fun f => bt_field_bool_set_value dev ir_store f (negb (val =? 0))).
Definition handleFixedLenFloatFieldItem (cls : Fc) (val : SpecFloat.spec_float) : mi unit :=
  match cls with
  | FixedLenFc c =>
    if len c =? 32 then setNextSubField (fun f => bt_field_real_single_precision_set_value dev ir_store f (float_of_double val))
    else act assert_dbg debug (len c =? 64); setNextSubField (fun f => bt_field_real_double_precision_set_value dev ir_store f val)
  | _ => undefined
  end.

(** ** Strings *)

Definition encoding_of (cls : Fc) : option StrEncoding :=
  match cls with NullTerminatedStrFc e | StaticLenStrFc e _ | DynLenStrFc e _ => Some e | _ => None end.
Definition handleStrFieldBeginItem (cls : Fc) : mi unit :=
  run p <- stackTopCurSubField;
  act change_field (fst p) (snd p) (fun f => bt_field_string_set_value dev garbage ir_store f []);
  run e <- of_option (encoding_of cls);
  on_cursor (fun c => CursorOf (frames c) (curScopeField c) false [] [] [] e).
Definition appendToString (data : list Z) : mi unit :=
  run p <- stackTopCurSubField;
  change_field (fst p) (snd p) (fun f => bt_field_string_append_with_length dev garbage ir_store f data (Z.of_nat (length data))).
Definition handleStrFieldEndItem : mi unit :=
  run c <- gets cursor;
  act match curStrFieldEncoding c with
      | Utf8 => ret tt
      | e =>
        match utf8_from e (strBuf c) with
        | None => throw Error
        | Some s => appendToString (if bool_decide (last s = Some 0) then removelast s else s)
        end
      end;
  stackTopGoToNextSubField.
(** The characters before the first null one. *)
Fixpoint until_nul (data : list Z) : list Z * bool :=
  match data with
  | [] => ([], false)
  | b :: data => if b =? 0 then ([], true) else let '(l, found) := until_nul data in (b :: l, found)
  end.
Definition handleStrRawDataItem (data : list Z) : mi unit :=
  run c <- gets cursor;
  if haveNullChar c then ret tt
  else
    match curStrFieldEncoding c with
    | Utf8 =>
      let '(text, found) := until_nul data in
      act on_cursor (with_haveNullChar found);
      appendToString text
    | e =>
      let is_utf16 := match e with Utf16Be | Utf16Le => true | _ => false end in
      let (finder, found) := if is_utf16 then findNullCp 2 (utf16Finder c) data 0 else findNullCp 4 (utf32Finder c) data 0 in
      act on_cursor (if is_utf16 then with_utf16Finder finder else with_utf32Finder finder);
      let text := match found with Some n => take n data | None => data end in
      act (if bool_decide (found <> None) then on_cursor (with_haveNullChar true) else ret tt);
      on_cursor (fun c => with_strBuf (strBuf c ++ text) c)
    end.
Definition handleRawDataItem (data : list Z) : mi unit :=
  run p <- stackTopCurSubField;
  run f <- get_field (fst p) (snd p);
  match f with SingleField _ (StringField _ _) => handleStrRawDataItem data | _ => undefined end.

(** ** Fields with subfields *)

Definition handleStructFieldBeginItem : mi unit :=
  run c <- gets cursor;
  match frames c with
  | [] => run scope <- of_option (curScopeField c); pushField StructFrame scope []
  | _ => run p <- stackTopCurSubFieldAndGoToNextSubField; pushField StructFrame (fst p) (snd p)
  end.
Definition handleStaticLenArrayFieldBeginItem : mi unit :=
  run p <- stackTopCurSubFieldAndGoToNextSubField; pushField ArrayFrame (fst p) (snd p).
Definition handleDynLenArrayFieldBeginItem (len : Z) : mi unit :=
  run p <- stackTopCurSubFieldAndGoToNextSubField;
  act change_field (fst p) (snd p) (fun f =>
        do (f, _) <- bt_field_array_dynamic_set_length dev debug call class_depth ir_store f len; Some f);
  pushField ArrayFrame (fst p) (snd p).
Definition handleVariantFieldBeginItem (selectedOptIndex : nat) : mi unit :=
  run p <- stackTopCurSubFieldAndGoToNextSubField;
  act change_field (fst p) (snd p) (fun f => bt_field_variant_select_option_by_index dev ir_store f (Z.of_nat selectedOptIndex));
  pushField VariantFrame (fst p) (snd p).
Definition handleOptionalFieldBeginItem (isEnabled : bool) : mi unit :=
  run p <- stackTopCurSubFieldAndGoToNextSubField;
  act change_field (fst p) (snd p) (fun f => bt_field_option_set_has_field dev ir_store f isEnabled);
  pushField OptionFrame (fst p) (snd p).

(** * Scopes *)

Definition beginScope (scope : Scope) : mi unit :=
  run s <- gets (fun s => s);
  act assert match scope with PktCtx => bool_decide (is_Some (curPkt s)) | _ => bool_decide (is_Some (curMsg s)) end;
  match rootField s scope with
  | Some _ => on_cursor (with_curScopeField (Some scope))
  | None => modify (with_skipItemsUntilScopeEndItem true)
  end.
Definition handleScopeBeginItem (scope : Scope) : mi unit :=
  run c <- gets cursor;
  act assert (bool_decide (frames c = []));
  act assert (bool_decide (curScopeField c = None));
  match scope with
  | PktHeader | EventRecordHeader => modify (with_skipItemsUntilScopeEndItem true)
  | _ => beginScope scope
  end.
Definition handleScopeEndItem : mi unit :=
  run c <- gets cursor;
  act assert_dbg debug (bool_decide (frames c = []));
  act on_cursor (with_curScopeField None);
  modify (with_skipItemsUntilScopeEndItem false).

(** * Packets *)

(** [bt_packet_create]. *)
Definition create_packet (stream : bt_stream) : mi Packet :=
  act assert (supports_packets (stream_class stream));
  run n <- gets taken;
  act modify (with_taken (S n));
  ret (PacketOf (pooled_packet n stream) (option_map (pooled_field n) (packet_context_fc stream))).
Definition handlePktBeginItem : mi unit :=
  run s <- gets (fun s => s);
  act assert_dbg debug (negb (bool_decide (is_Some (curPkt s))));
  run p <- create_packet (mStream cfg);
  modify (with_curPkt (Some p)).

(** A new message, or a failed precondition. *)
Definition new_message (m : option bt_message) (p : option Packet) : mi CtfMessage := run m <- of_option m; ret (CtfMessageOf m p None).
Definition get_curPkt : mi Packet := run s <- gets (fun s => s); of_option (curPkt s).

Definition createPktEndMsgAndUpdateCurDefClkVal : mi CtfMessage :=
  run p <- get_curPkt;
  run s <- gets (fun s => s);
  let q := quirks cfg in
  match pktEndDefClkVal s with
  | Some e =>
    let zeroBug := pktEndDefClkValZero q && match pktBeginDefClkVal s with Some b => negb (b =? 0) | None => false end && (e =? 0) in
    let gtBug := eventRecordDefClkValGtNextPktBeginDefClkVal q && match curDefClkVal s with Some c => e <? c | None => false end in
    let anyBug := zeroBug || gtBug in
    run v <- (if anyBug then of_option (curDefClkVal s) else ret e);
    act (if anyBug then ret tt else modify (with_curDefClkVal (Some e)));
    new_message (create_packet_message debug true (packet p) (Some v)) (Some p)
  | None => new_message (create_packet_message debug true (packet p) None) (Some p)
  end.
Definition emitPktBeginMsg (defClkVal : option Z) : mi unit :=
  run p <- get_curPkt;
  act match defClkVal with Some v => modify (with_curDefClkVal (Some v)) | None => ret tt end;
  run m <- new_message (create_packet_message debug false (packet p) defClkVal) (Some p);
  addMsgToQueue m.
Definition emitDelayedPktBeginMsg (otherDefClkVal : option Z) : mi unit :=
  run s <- gets (fun s => s);
  act assert_dbg debug (delayPktBeginMsgEmission s);
  act modify (with_delayPktBeginMsgEmission false);
  emitPktBeginMsg
    match pktBeginDefClkVal s, otherDefClkVal with
    | Some b, Some o => Some (Z.min b o)
    | Some b, None => Some b
    | None, o => o
    end.
Definition handlePktEndItem : mi unit :=
  run s <- gets (fun s => s);
  act assert_dbg debug (negb (bool_decide (is_Some (curMsg s))));
  act assert_dbg debug (bool_decide (is_Some (curPkt s)));
  act (if delayPktBeginMsgEmission s then emitDelayedPktBeginMsg (pktEndDefClkVal s) else ret tt);
  run m <- createPktEndMsgAndUpdateCurDefClkVal;
  act addMsgToQueue m;
  modify (with_curPkt None).
Definition handlePktContentEndItem : mi unit := run s <- gets (fun s => s); assert_dbg debug (bool_decide (is_Some (curPkt s))).

Definition handlePktMagicNumberItem (val : Z) : mi unit := if val =? 3254525889 then ret tt else throw Error.
Definition handleMetadataStreamUuidItem (uuid : list Z) : mi unit :=
  run expected <- of_option (expectedMetadataStreamUuid cfg); if bool_decide (uuid = expected) then ret tt else throw Error.

Definition handleDataStreamInfoItem (cls : option DataStreamCls) (id : option Z) : mi unit :=
  run cls <- of_option cls;
  if negb (dsc_id cls =? Msg.sc_id (stream_class (mStream cfg))) then throw Error
  else if match id with Some id => negb (id =? stream_id (mStream cfg)) | None => false end then throw Error
  else
    run s <- gets (fun s => s);
    if emittedStreamBeginMsg s then ret tt
    else
      act addMsgToQueue (CtfMessageOf (create_stream_message false (mStream cfg)) None None);
      modify (with_emittedStreamBeginMsg true).

(** [_createInitDiscEventsMsg] and [_createInitDiscPktsMsg], and setting the count:
    [endVal] is the end of the interval. *)
Definition createDiscMsg (is_packets : bool) (prevPktEndDefClkVal endVal : option Z) (count : Z) : mi CtfMessage :=
  let c := stream_class (mStream cfg) in
  let with_cs := if is_packets then discarded_packets_have_default_clock_snapshots c else discarded_events_have_default_clock_snapshots c in
  run m <- (if with_cs then
              run b <- of_option prevPktEndDefClkVal;
              run e <- of_option endVal;
              of_option (create_with_default_clock_snapshots debug is_packets (mStream cfg) b e)
            else of_option (create_discarded_items_message debug is_packets (mStream cfg) None));
  new_message (set_discarded_items_count m count) None.
Definition handlePktInfoItem (info : PktInfo) : mi unit :=
  run s <- gets (fun s => s);
  let prevPktEndDefClkVal := pktEndDefClkVal s in
  act modify (fun s => with_pktEndDefClkVal (endDefClkVal info) (with_pktBeginDefClkVal (beginDefClkVal info) s));
  act match curDiscErCounterSnap s with
      | Some cur =>
        run snap <- of_option (discErCounterSnap info);
        if cur <? snap then
          run m <- createDiscMsg false prevPktEndDefClkVal (endDefClkVal info) (wrapu 64 (snap - cur)); addMsgToQueue m
        else ret tt
      | None => ret tt
      end;
  act modify (with_curDiscErCounterSnap (discErCounterSnap info));
  act match curPktSeqNum s with
      | Some cur =>
        run seq <- of_option (seqNum info);
        if wrapu 64 (cur + 1) <? seq then
          run m <- createDiscMsg true prevPktEndDefClkVal (beginDefClkVal info) (wrapu 64 (seq - cur - 1)); addMsgToQueue m
        else ret tt
      | None => ret tt
      end;
  act modify (with_curPktSeqNum (seqNum info));
  act assert_dbg debug (negb (bool_decide (is_Some (curMsg s))));
  if eventRecordDefClkValLtPktBeginDefClkVal (quirks cfg) then modify (with_delayPktBeginMsgEmission true)
  else emitPktBeginMsg (beginDefClkVal info).

(** * Event records *)

(** [create_event]: the fields of the event that the pool of its class gives. *)
Definition create_event_fields (n : nat) (cls : bt_event_class) : EventFields :=
  EventFieldsOf (option_map (pooled_field n) (event_common_context_fc (mStream cfg))) (option_map (pooled_field n) (specific_context_fc cls))
    (option_map (pooled_field n) (payload_fc cls)).
Definition createEventMsg (cls : bt_event_class) (defClkVal : option Z) : mi CtfMessage :=
  run s <- gets (fun s => s);
  let stream := match curPkt s with Some p => packet_stream (packet p) | None => mStream cfg end in
  run m <- of_option (create_event_message debug (event_class_is_of cls stream) cls stream (option_map packet (curPkt s)) defClkVal);
  act modify (with_taken (S (taken s)));
  ret (CtfMessageOf m (curPkt s) (Some (create_event_fields (taken s) cls))).
Definition handleEventRecordInfoItem (cls : option EventRecordCls) (defClkVal : option Z) : mi unit :=
  run s <- gets (fun s => s);
  run libCls <- of_option (do cls <- cls; ec_libCls cls);
  act assert_dbg debug (negb (bool_decide (is_Some (curMsg s))));
  act (if delayPktBeginMsgEmission s then emitDelayedPktBeginMsg defClkVal else ret tt);
  act match defClkVal with Some v => modify (with_curDefClkVal (Some v)) | None => ret tt end;
  run m <- createEventMsg libCls defClkVal;
  modify (with_curMsg (Some m)).
Definition handleEventRecordEndItem : mi unit :=
  run s <- gets (fun s => s);
  act assert_dbg debug (bool_decide (frames (cursor s) = []));
  run m <- of_option (curMsg s);
  act addMsgToQueue m;
  modify (with_curMsg None).

(** * All items *)

Definition handleItem (item : Item) : mi unit :=
  match item with
  | PktBeginItem => handlePktBeginItem
  | PktEndItem => handlePktEndItem
  | ScopeBeginItem scope => handleScopeBeginItem scope
  | ScopeEndItem _ => handleScopeEndItem
  | PktContentEndItem => handlePktContentEndItem
  | EventRecordEndItem => handleEventRecordEndItem
  | PktMagicNumberItem val => handlePktMagicNumberItem val
  | MetadataStreamUuidItem uuid => handleMetadataStreamUuidItem uuid
  | DataStreamInfoItem cls id => handleDataStreamInfoItem cls id
  | PktInfoItem info => handlePktInfoItem info
  | EventRecordInfoItem cls defClkVal => handleEventRecordInfoItem cls defClkVal
  | FixedLenBitArrayFieldItem cls val | FixedLenBitMapFieldItem cls val => handleFixedLenBitArrayFieldItem cls val
  | FixedLenBoolFieldItem cls val => handleFixedLenBoolFieldItem cls val
  | FixedLenSIntFieldItem cls val => handleSIntFieldItem cls val
  | FixedLenUIntFieldItem cls val => handleUIntFieldItem cls val
  | FixedLenFloatFieldItem cls val => handleFixedLenFloatFieldItem cls val
  | VarLenSIntFieldItem cls val _ => handleSIntFieldItem cls val
  | VarLenUIntFieldItem cls val _ => handleUIntFieldItem cls val
  | NullTerminatedStrFieldBeginItem cls | StaticLenStrFieldBeginItem cls | DynLenStrFieldBeginItem cls _ => handleStrFieldBeginItem cls
  | NullTerminatedStrFieldEndItem _ | StaticLenStrFieldEndItem _ | DynLenStrFieldEndItem _ => handleStrFieldEndItem
  | RawDataItem data => handleRawDataItem data
  | StructFieldBeginItem _ => handleStructFieldBeginItem
  | StaticLenArrayFieldBeginItem _ => handleStaticLenArrayFieldBeginItem
  | DynLenArrayFieldBeginItem _ len => handleDynLenArrayFieldBeginItem len
  | VariantFieldBeginItem _ _ _ i => handleVariantFieldBeginItem i
  | OptionalFieldBeginItem _ _ _ isEnabled => handleOptionalFieldBeginItem isEnabled
  | StructFieldEndItem _ | StaticLenArrayFieldEndItem _ | DynLenArrayFieldEndItem _ | VariantFieldEndItem _ _ | OptionalFieldEndItem _ _ => stackPop
  | StaticLenBlobFieldBeginItem _ | StaticLenBlobFieldEndItem _ | DynLenBlobFieldBeginItem _ _ | DynLenBlobFieldEndItem _ => undefined
  | PktContentBeginItem | EventRecordBeginItem | DefClkValItem _ => ret tt
  end.
Definition isScopeEnd (item : Item) : bool := match item with ScopeEndItem _ => true | _ => false end.
(** What [next] does with an item. *)
Definition visitItem (item : Item) : mi unit :=
  run s <- gets (fun s => s); if negb (skipItemsUntilScopeEndItem s) || isScopeEnd item then handleItem item else ret tt.
End handlers.

(** * The iterator *)

Record MsgIter (M : Type) := MsgIterOf { itemSeqIter : ItemSeqIter M; msgState : MsgIterState }.
Arguments MsgIterOf {M}. Arguments itemSeqIter {M}. Arguments msgState {M}.

Section next.
Context {M : Type} `{Medium M} `{CtfLib} `{Pools} `{TraceIr} (dev debug : bool).
Context (call : func -> addr -> ir -> option ir) (garbage : nat -> Z) (utf8_from : StrEncoding -> list Z -> option (list Z)).
Context (tc : TraceCls) (cfg : MsgIterCfg).

Definition next_item : stateful (MsgIter M) (option Item) := fun it =>
  let (i, o) := ItemSeq.next debug tc (itemSeqIter it) in (MsgIterOf i (msgState it), o).
Definition on_state {A} (m : stateful MsgIterState A) : stateful (MsgIter M) A := fun it =>
  let (s, o) := m (msgState it) in (MsgIterOf (itemSeqIter it) s, o).

(** The loop on the items: [fuel] is more than how many there are before a message. *)
Fixpoint next_loop (fuel : nat) : stateful (MsgIter M) (option CtfMessage) :=
  match fuel with
  | O => undefined
  | S fuel =>
    run item <- next_item;
    match item with
    | Some item =>
      act on_state (visitItem dev debug call garbage utf8_from cfg item);
      run msg <- on_state releaseNextMsg;
      match msg with Some msg => ret (Some msg) | None => next_loop fuel end
    | None =>
      act on_state (modify (with_isDone true));
      ret (Some (CtfMessageOf (create_stream_message true (mStream cfg)) None None))
    end
  end.
Definition next (fuel : nat) : stateful (MsgIter M) (option CtfMessage) :=
  run it <- gets (fun it => it);
  if isDone (msgState it) then ret None
  else
    run msg <- on_state releaseNextMsg;
    match msg with Some msg => ret (Some msg) | None => next_loop fuel end.

Definition new_iter (m : M) : MsgIter M := MsgIterOf (ItemSeq.new_iter tc m) new_msg_iter.
End next.
