(* ===== verification/MsgIterSpec.v ===== *)
(** What the messages of the CTF message iterator are to be: the values that a user reads in
    the fields of the messages are those of the items, in order.

    [token]s are the values of fields, the lengths of arrays and what is selected, in order.
    A fixed-length or variable-length unsigned integer that has a role has no field. *)

From stdpp Require Import list gmap.
From Stdlib Require Import SpecFloat.
From S2P Require Import Prelude Object IrObj Field Clock Msg MsgCreate CtfIr ItemState ItemSeq CtfToIr MsgIter.

Inductive token :=
| TBool (b : bool) | TBits (z : Z) | TInt (z : Z) | TReal (x : spec_float) | TString (s : list Z)
| TLength (n : Z) | THasField (b : bool) | TSelected (i : Z).

(** * Reading fields *)

Section read.
Context (h : ir).

(** What the getters of developer mode give, which check that the fields are set. *)
Definition read_single (f : bt_field) (v : single_value) : option token :=
  match v with
  | BoolField _ => option_map TBool (bt_field_bool_get_value true h f)
  | BitArrayField _ => option_map TBits (bt_field_bit_array_get_value_as_integer true h f)
  | IntegerField _ =>
    match bt_field_integer_unsigned_get_value true h f with
    | Some z => Some (TInt z)
    | None => option_map TInt (bt_field_integer_signed_get_value true h f)
    end
  | RealField _ =>
    match bt_field_real_single_precision_get_value true h f with
    | Some x => Some (TReal x)
    | None => option_map TReal (bt_field_real_double_precision_get_value true h f)
    end
  | StringField _ _ => option_map TString (bt_field_string_get_value true h f)
  end.
Fixpoint read_field (f : bt_field) : option (list token) :=
  match f with
  | SingleField _ v => do t <- read_single f v; Some [t]
  | StructureField _ fields =>
    (fix all (l : list bt_field) : option (list token) :=
       match l with [] => Some [] | s :: l => do a <- read_field s; do b <- all l; Some (a ++ b) end) fields
  | OptionField _ content_field selected =>
    if selected then do a <- read_field content_field; Some (THasField true :: a) else Some [THasField false]
  | VariantField _ fields selected index =>
    if selected then
      do a <- (fix at_index (l : list bt_field) (i : nat) : option (list token) :=
                 match l, i with [], _ => None | s :: _, O => read_field s | _ :: l, S i => at_index l i end) fields (Z.to_nat index);
      Some (TSelected index :: a)
    else None
  | ArrayField _ fields length =>
    do a <- (fix all (l : list bt_field) (n : nat) : option (list token) :=
               match n, l with
               | O, _ => Some []
               | S _, [] => None
               | S n, s :: l => do a <- read_field s; do b <- all l n; Some (a ++ b)
               end) fields (Z.to_nat length);
    Some (TLength length :: a)
  end.

Definition read_opt (f : option bt_field) : option (list token) := match f with Some f => read_field f | None => Some [] end.

(** The values of a message: the context of the packet that begins, or the fields of an
    event. *)
Definition read_message (m : CtfMessage) : option (list token) :=
  match the_message m with
  | PacketBeginning _ _ => do p <- message_packet m; read_opt (context_field p)
  | Event _ _ _ _ =>
    do e <- message_event m;
    do a <- read_opt (common_context_field e); do b <- read_opt (specific_context_field e); do c <- read_opt (payload_field e);
    Some (a ++ b ++ c)
  | _ => Some []
  end.
Fixpoint read_messages (l : list CtfMessage) : option (list token) :=
  match l with [] => Some [] | m :: l => do a <- read_message m; do b <- read_messages l; Some (a ++ b) end.
End read.

(** * The values of items *)

(** Whether the scope is one of which the fields are in messages, and the bytes of the current
    string. *)
Record reading := ReadingAt { shown : bool; string_bytes : list Z }.

Definition scope_shown (scope : Scope) : bool := match scope with PktHeader | EventRecordHeader => false | _ => true end.
Definition if_translated (fc : Fc) (t : token) : list token := if is_translated fc then [t] else [].
Definition item_tokens (bytes : list Z) (i : Item) : list token :=
  match i with
  | FixedLenBitArrayFieldItem _ v | FixedLenBitMapFieldItem _ v => [TBits v]
  | FixedLenBoolFieldItem _ v => [TBool (negb (v =? 0))]
  | FixedLenUIntFieldItem fc v | VarLenUIntFieldItem fc v _ => if_translated fc (TInt v)
  | FixedLenSIntFieldItem _ v | VarLenSIntFieldItem _ v _ => [TInt v]
  | FixedLenFloatFieldItem fc v => [TReal match fc with FixedLenFc f => if len f =? 32 then float_of_double v else v | _ => v end]
  | NullTerminatedStrFieldEndItem _ | StaticLenStrFieldEndItem _ | DynLenStrFieldEndItem _ => [TString (fst (until_nul bytes))]
  | StaticLenArrayFieldBeginItem (StaticLenArrayFc _ n _ _) => [TLength n]
  | DynLenArrayFieldBeginItem _ n => [TLength n]
  | OptionalFieldBeginItem _ _ _ b => [THasField b]
  | VariantFieldBeginItem _ _ _ i => [TSelected (Z.of_nat i)]
  | _ => []
  end.
Definition tokens_of (r : reading) (i : Item) : list token := if shown r then item_tokens (string_bytes r) i else [].
Definition read_item (r : reading) (i : Item) : reading :=
  match i with
  | ScopeBeginItem scope => ReadingAt (scope_shown scope) (string_bytes r)
  | ScopeEndItem _ => ReadingAt false (string_bytes r)
  | NullTerminatedStrFieldBeginItem _ | StaticLenStrFieldBeginItem _ | DynLenStrFieldBeginItem _ _ => ReadingAt (shown r) []
  | RawDataItem b => ReadingAt (shown r) (string_bytes r ++ b)
  | _ => r
  end.
Fixpoint tokens (r : reading) (l : list Item) : list token :=
  match l with [] => [] | i :: l => tokens_of r i ++ tokens (read_item r i) l end.
Definition all_tokens (l : list Item) : list token := tokens (ReadingAt false []) l.

(** * What is decoded is for the stream *)

(** The classes of the scopes of which the fields are in messages: strings are in UTF-8,
    nothing is a BLOB or a UUID, a field with a role is the member of a structure and no magic
    number.  Static arrays have fewer than 2^31 elements, as GLib needs. *)
Fixpoint plain (fc : Fc) : bool :=
  match fc with
  | FixedLenFc f => match fl_type f with UInt => negb (hasRole PktMagicNumber (fl_roles f)) | _ => true end
  | VarLenUIntFc roles _ => negb (hasRole PktMagicNumber roles)
  | VarLenSIntFc _ => true
  | NullTerminatedStrFc Utf8 | StaticLenStrFc Utf8 _ | DynLenStrFc Utf8 _ => true
  | NullTerminatedStrFc _ | StaticLenStrFc _ _ | DynLenStrFc _ _ | StaticLenBlobFc _ _ | DynLenBlobFc _ => false
  | StructFc ms _ => forallb plain ms
  | StaticLenArrayFc e n _ uuid => plain e && is_translated e && negb uuid && (n <? 2 ^ 31)
  | DynLenArrayFc e _ _ | OptionalFc _ e _ _ => plain e && is_translated e
  | VariantFc _ opts _ => forallb (fun o => plain (fst o) && is_translated (fst o)) opts
  end.
Definition plain_scope (fc : option Fc) : bool := match fc with Some (StructFc ms a) => plain (StructFc ms a) | Some _ => false | None => true end.
Definition plain_stream (ds : DataStreamCls) : bool :=
  plain_scope (pktCtxFc ds) && plain_scope (commonEventRecordCtxFc ds) &&
  forallb (fun e => plain_scope (specCtxFc e) && plain_scope (payloadFc e)) (eventRecordClasses ds).

(** A stream class that supports packets, and that has a default clock when there is a clock
    snapshot in its messages. *)
Definition class_ok (c : bt_stream_class) : bool :=
  supports_packets c &&
  implb (packets_have_beginning_default_clock_snapshot c || packets_have_end_default_clock_snapshot c ||
         discarded_events_have_default_clock_snapshots c || discarded_packets_have_default_clock_snapshots c)
    (bool_decide (is_Some (default_clock_class c))).

Section items_ok.
Context (debug : bool) (c : bt_stream_class) (id : Z).

(** The library can compute the time of a value of the clock. *)
Definition time_ok (v : option Z) : bool :=
  match v, default_clock_class c with Some v, Some cc => bool_decide (is_Some (new_snapshot debug cc v)) | _, _ => true end.

(** A packet whose information is what the class of the stream announces, and which follows
    the one before: the intervals of what was discarded do not go backwards. *)
Definition u64_opt (o : option Z) : bool := match o with Some v => (0 <=? v) && (v <? 2 ^ 64) | None => true end.
Definition has (b : bool) (o : option Z) : bool := Bool.eqb b (bool_decide (is_Some o)).
Definition le_opt (a b : option Z) : bool := match a, b with Some a, Some b => a <=? b | _, _ => false end.
Definition follows_info (prev info : PktInfo) : bool :=
  match discErCounterSnap prev, discErCounterSnap info with
  | Some a, Some b => implb ((a <? b) && discarded_events_have_default_clock_snapshots c) (le_opt (endDefClkVal prev) (endDefClkVal info))
  | _, _ => true
  end &&
  match seqNum prev, seqNum info with
  | Some a, Some b =>
    implb ((wrapu 64 (a + 1) <? b) && discarded_packets_have_default_clock_snapshots c) (le_opt (endDefClkVal prev) (beginDefClkVal info))
  | _, _ => true
  end.
Definition this_info_ok (info : PktInfo) : bool :=
  has (packets_have_beginning_default_clock_snapshot c) (beginDefClkVal info) && has (packets_have_end_default_clock_snapshot c) (endDefClkVal info) &&
  has (supports_discarded_events c) (discErCounterSnap info) && has (supports_discarded_packets c) (seqNum info) &&
  u64_opt (discErCounterSnap info) && u64_opt (seqNum info) && time_ok (beginDefClkVal info) && time_ok (endDefClkVal info).
Definition info_ok (prev : option PktInfo) (info : PktInfo) : bool :=
  this_info_ok info && match prev with Some prev => this_info_ok prev && follows_info prev info | None => true end.

(** The items are about the stream [id] of the class [c]; the arrays have fewer than 2^31
    elements. *)
Definition item_ok (prev : option PktInfo) (i : Item) : bool :=
  match i with
  | DataStreamInfoItem cls i =>
    match cls with Some ds => dsc_id ds =? Msg.sc_id c | None => false end && match i with Some i => i =? id | None => true end
  | PktInfoItem info => info_ok prev info
  | EventRecordInfoItem cls v => bool_decide (is_Some cls) && has (bool_decide (is_Some (default_clock_class c))) v && time_ok v
  | DynLenArrayFieldBeginItem _ n => n <? 2 ^ 31
  | _ => true
  end.
Definition last_info (prev : option PktInfo) (i : Item) : option PktInfo := match i with PktInfoItem info => Some info | _ => prev end.
Fixpoint items_ok (prev : option PktInfo) (l : list Item) : bool :=
  match l with [] => true | i :: l => item_ok prev i && items_ok (last_info prev i) l end.
End items_ok.

(** * The library has the translation of the classes *)

Section translated.
Context `{CtfLib}.

Definition translated_event_cls (s : bt_stream) (e : EventRecordCls) : Prop :=
  exists cls, ec_libCls e = Some cls /\ event_class_is_of cls s = true /\
    scope_translation ir_store (specCtxFc e) (specific_context_fc cls) /\ scope_translation ir_store (payloadFc e) (payload_fc cls).
Definition translated_stream (s : bt_stream) (ds : DataStreamCls) : Prop :=
  pkt_ctx_translation ir_store (pktCtxFc ds) (packet_context_fc s) /\ scope_translation ir_store (commonEventRecordCtxFc ds) (event_common_context_fc s) /\
  Forall (translated_event_cls s) (eventRecordClasses ds).
End translated.
