(* ===== verification/MsgIterAcc.v ===== *)
(** Handling the items of a decoding: what it is that the message iterator accepts the items
    that the reference decoder ([ItemSpec]) gives, with rules for the parts of the decoder. *)

From stdpp Require Import list gmap.
From S2P Require Import Prelude Bitfield Object IrObj Field Clock Msg MsgCreate MsgSeq CtfIr ItemBits ItemBitsFacts ItemState ItemSeq ItemSpec ItemWp ItemSim.
From S2P Require Import ItemStep ItemFollow ItemFollowData CtfToIr MsgIter MsgIterSpec.

(** [m] on [s] returns such that [Q]. *)
Definition wps {S A} (m : stateful S A) (s : S) (Q : A -> S -> Prop) : Prop := match m s with (s', Ret x) => Q x s' | _ => False end.

Lemma wps_bind {S A B} (m : stateful S A) (k : A -> stateful S B) s Q : wps m s (fun x s' => wps (k x) s' Q) -> wps (bind m k) s Q.
Proof. unfold wps, bind. by destruct (m s) as [s' [x|e|]]. Qed.
Lemma wps_mono {S A} (m : stateful S A) s (Q Q' : A -> S -> Prop) : wps m s Q -> (forall x s', Q x s' -> Q' x s') -> wps m s Q'.
Proof. unfold wps. destruct (m s) as [s' [x|e|]]; naive_solver. Qed.
Lemma wps_assert {S} debug b (s : S) (Q : unit -> S -> Prop) : b = true -> Q tt s -> wps (assert_dbg debug b) s Q.
Proof. intros -> HQ. unfold assert_dbg. by rewrite andb_false_r. Qed.
Lemma wps_of_option {S A} (o : option A) x (s : S) (Q : A -> S -> Prop) : o = Some x -> Q x s -> wps (of_option o) s Q.
Proof. by intros ->. Qed.

(** * Results *)

(** A property of results which those that are not finished have. *)
Definition lax (G : result -> Prop) : Prop := forall st, st <> Finished -> G ([], st).

(** The positions and the saved values of a point. *)
Definition at_ok (p : Point) : Prop := 0 <= at_pkt p /\ at_pkt p mod 8 = 0 /\ 0 <= at_head p /\ Forall (fun v => 0 <= v) (savedKeyVals (at_dec p)).
(** What the fields do not change. *)
Definition classes_at (p : Point) : option DataStreamCls * option EventRecordCls * option Z :=
  (dataStreamCls (at_dec p), eventRecordCls (at_dec p), eventRecordClkVal (at_dec p)).
Definition keeps (p p' : Point) : Prop := classes_at p' = classes_at p /\ at_ok p'.

Lemma keeps_trans p p' p'' : keeps p p' -> keeps p' p'' -> keeps p p''.
Proof. unfold keeps. intros [Hx _] [Hy ?]. split; [congruence|done]. Qed.
Lemma keeps_self p : at_ok p -> keeps p p.
Proof. by split. Qed.
Lemma keeps_advance n p : 0 <= n -> at_ok p -> keeps p (advance n p).
Proof. intros Hn (? & ? & ? & ?). split; [done|]. split; [done|]. split; [done|]. split; [simpl; lia|done]. Qed.

(** The values that [len] bits can have. *)
Definition in_bits (signed : bool) (len v : Z) : Prop := if signed then - 2 ^ (len - 1) <= v < 2 ^ (len - 1) else 0 <= v < 2 ^ len.
Lemma int_bits_in signed len bit v : 0 < len -> int_bits signed len bit v -> in_bits signed len v.
Proof.
  intros Hl Hb. destruct signed; simpl in *.
  - assert (E : v = wraps len v); [|rewrite E; apply wraps_range; lia]. apply Z.bits_inj'. intros i Hi. rewrite testbit_wraps, !Hb by lia.
    destruct (Z.ltb_spec i len); [rewrite Z.min_l, (proj2 (Z.ltb_lt i len)) by lia|rewrite Z.min_r, (proj2 (Z.ltb_lt (len - 1) len)) by lia]; done.
  - assert (E : v = v mod 2 ^ len); [|rewrite E; apply Z.mod_pos_bound, Z.pow_pos_nonneg; lia]. apply Z.bits_inj'. intros i Hi. rewrite Hb by done.
    destruct (Z.ltb_spec i len); [rewrite Z.mod_pow2_bits_low, Hb, (proj2 (Z.ltb_lt i len)) by lia|rewrite Z.mod_pow2_bits_high by lia]; done.
Qed.

Section rules.
Context (data : list Z) (Hbytes : buf_wf 8 data) (Hsize : bits_of_data data <= 2 ^ 34).
Context (G : result -> Prop) (HG : lax G).

Lemma lax_demand n k p : (pos p + n <= bits_of_data data -> G (k p)) -> G (demand data n k p).
Proof. intros Hk. unfold demand. repeat case_match; try by apply HG. apply Hk. by apply Z.ltb_ge. Qed.
Lemma lax_skipping content n k p : at_ok p -> 0 <= n -> (forall p', keeps p p' -> at_head p' = at_head p + n -> G (k p')) -> G (skipping data content n k p).
Proof.
  intros Hp Hn Hk. unfold skipping. destruct (Z.eqb_spec n 0) as [->|_]; [apply Hk; [by apply keeps_self|lia]|].
  assert (G (k (advance n p))) by (apply Hk; [by apply keeps_advance|done]). destruct content; [by apply lax_demand|]. destruct (_ <? _); [by apply HG|done].
Qed.
Lemma lax_aligned a k p : at_ok p -> 0 < a -> (forall p', keeps p p' -> at_head p' mod a = 0 -> G (k p')) -> G (aligned data a k p).
Proof.
  intros Hp Ha Hk. apply lax_skipping; [done| |].
  - unfold padding. pose proof (Z.div_mod (at_head p + a - 1) a ltac:(lia)). pose proof (Z.mod_pos_bound (at_head p + a - 1) a Ha). nia.
  - intros p' Hp' Hh. apply Hk; [done|]. rewrite Hh. unfold padding.
    replace (at_head p + ((at_head p + a - 1) / a * a - at_head p)) with ((at_head p + a - 1) / a * a) by lia. apply Z_mod_mult.
Qed.

Lemma lax_fixed signed rd f k p : at_ok p -> fixed_ok f = true -> reads_as rd f = true ->
  (forall v p', keeps p p' -> in_bits signed (len f) v -> G (k v p')) -> G (fixed data signed rd f k p).
Proof.
  intros Hp Hf Hrd Hk. destruct (fixed_ok_inv f Hf) as [Ha Hlen]. pose proof (pow2_pos _ Ha) as Hpos. apply lax_aligned; [done|done|]. intros p1 Hp1 Hal.
  apply lax_demand. intros Hfit. destruct (_ && _); [by apply HG|]. destruct (proj2 Hp1) as (Hk1 & Hk8 & Hh & Hsv).
  pose proof (reads_ok rd f (at_head p1) Hf Hrd (fun _ => Hal)) as Hok.
  assert (Hl : 8 * Z.of_nat (length (bytes_at data p1)) = bits_of_data data - 8 * (pos p1 / 8)).
  { unfold bytes_at, bits_of_data, pos in *. rewrite length_drop. div_lia. }
  assert (Hpos8 : pos p1 mod 8 = at_head p1 mod 8) by (unfold pos; div_lia).
  destruct (ReadFixedLenIntFunc_bits signed rd (bytes_at data p1) [] (at_head p1 mod 8) (len f)) as (v & Hv & Hb).
  - rewrite app_nil_r. by apply Forall_drop.
  - rewrite app_nil_r. unfold pos in *. div_lia.
  - done.
  - div_lia.
  - rewrite app_nil_r in Hv. rewrite Hv. apply Hk; [|eapply int_bits_in; [lia|done]]. eapply keeps_trans; [done|]. split; [done|].
    split; [done|]. split; [done|]. split; [simpl; lia|done].
Qed.
Lemma lax_saved keys v k p : at_ok p -> (forall p', keeps p p' -> G (k p')) -> G (saved keys v k p).
Proof.
  intros (Hp1 & Hp2 & Hp3 & Hs) Hk. unfold saved. destruct (forallb _ _); [|by apply HG]. apply Hk. split; [done|]. split; [done|]. split; [done|]. split; [done|].
  simpl. generalize dependent (savedKeyVals (at_dec p)). clear. induction keys as [|i keys IH]; intros l Hl; simpl; [done|]. apply IH, Forall_insert; [done|].
  apply u64_wrapu.
Qed.
Lemma lax_with_saved index k p : at_ok p -> (forall v, 0 <= v -> G (k v p)) -> G (with_saved index k p).
Proof.
  intros (_ & _ & _ & Hs) Hk. unfold with_saved. destruct index as [i|]; [|by apply HG]. destruct (savedKeyVals (at_dec p) !! i) as [v|] eqn:Hv; [|by apply HG].
  apply Hk. by eapply Forall_lookup_1 in Hv.
Qed.
Lemma lax_raw n k p : at_ok p -> 0 <= n ->
  (forall b, length b = Z.to_nat n -> Forall (fun v => 0 <= v) b -> 8 * n <= bits_of_data data -> G (emit (RawDataItem b) (k b) (advance (8 * n) p))) -> G (raw data n k p).
Proof.
  intros (Hp1 & Hp2 & Hp3 & _) Hn Hk. unfold raw. apply lax_demand. intros Hfit. apply Hk; [|apply Forall_take, Forall_drop; eapply Forall_impl; [exact Hbytes|]; simpl; lia|unfold pos in *; lia].
  unfold bytes_at, bits_of_data, pos in *. rewrite length_take, length_drop. div_lia.
Qed.
Lemma role_dec_keeps role len v p : at_ok p -> keeps p (on_dec (role_dec role len v) p).
Proof. intros Hp. split; by destruct role. Qed.
(** The item that the roles give. *)
Definition given_by (roles : list UIntFieldRole) (i : option Item) : Prop :=
  i = None \/ (exists c, i = Some (DefClkValItem c)) \/ (hasRole PktMagicNumber roles = true /\ exists m, i = Some (PktMagicNumberItem m)).
Lemma lax_roles_from roles len v i k p all : at_ok p -> given_by all i -> (hasRole PktMagicNumber roles = true -> hasRole PktMagicNumber all = true) ->
  (forall i' p', keeps p p' -> given_by all i' -> G (match i' with Some i' => emit i' k p' | None => k p' end)) -> G (with_roles roles len v i k p).
Proof.
  revert i p. induction roles as [|role roles IH]; intros i p Hp Hi Hall Hk; simpl.
  - specialize (Hk i p (keeps_self _ Hp) Hi). by destruct i.
  - pose proof (role_dec_keeps role len v p Hp) as Hr. apply IH; [apply Hr| | |].
    + unfold given_by. destruct role; simpl; eauto. right. right. split; [by apply Hall|by eexists].
    + intros Hm. apply Hall. unfold hasRole in *. simpl. by rewrite Hm, orb_true_r.
    + intros i' p' Hp'. apply Hk. by eapply keeps_trans.
Qed.
Lemma lax_with_roles roles len v k p : at_ok p ->
  (forall i p', keeps p p' -> given_by roles i -> G (match i with Some i => emit i k p' | None => k p' end)) -> G (with_roles roles len v None k p).
Proof. intros Hp Hk. eapply (lax_roles_from _ _ _ _ _ _ roles); [done|by left|done|done]. Qed.

Lemma append_range signed val len b val' len' : 0 <= val < 2 ^ 64 -> appendVarLenIntByte signed val len b = Some (val', len') -> 0 <= val' < 2 ^ 64.
Proof.
  intros Hv. unfold appendVarLenIntByte. intros H. repeat case_match; try done; injection H as <- <-; apply u64_lor; auto with u64.
Qed.
Lemma lax_var_int signed bytes val len k p : at_ok p -> 0 <= val < 2 ^ 64 ->
  (forall v l p', keeps p p' -> 0 <= v < 2 ^ 64 -> G (k v l p')) -> G (var_int signed bytes val len k p).
Proof.
  revert val len p. induction bytes as [|b bytes IH]; intros val len p Hp Hv Hk; simpl; (destruct (_ <? 0); [by apply HG|]); (destruct (_ <? 8); [by apply HG|]).
  - by apply HG.
  - destruct (appendVarLenIntByte signed val len b) as [[val' len']|] eqn:Ha; [|by apply HG]. apply append_range in Ha; [|done].
    pose proof (keeps_advance 8 p ltac:(lia) Hp) as Hadv. destruct (_ =? 0).
    + apply Hk; [exact Hadv|]. apply VarLenIntFieldVal_range. exact Ha.
    + apply IH; [apply Hadv|done|]. intros v l p' Hp'. apply Hk, (keeps_trans _ _ _ Hadv Hp').
Qed.
End rules.

(** * Accepting items *)

Section acc.
Context `{CtfLib} `{Pools} `{TraceIr} (debug : bool).
Context (call : func -> addr -> ir -> option ir) (garbage : nat -> Z) (utf8_from : StrEncoding -> list Z -> option (list Z)).
Context (cfg : MsgIterCfg).
Abbreviation visit := (visitItem true debug call garbage utf8_from cfg).
Abbreviation cls := (stream_class (mStream cfg)).
Abbreviation good_items := (items_ok debug cls (stream_id (mStream cfg))).

(** The queue once its messages are released. *)
Definition drain (s : MsgIterState) : MsgIterState := with_msgQueue [] s.

(** What the messages of the queue, three at most, are, in the phase [ph] of the stream and when the values
    [pd] are to be in the messages to come: they follow the rules, and hold the first ones. *)
Definition released (ph : phase) (pd : list token) (s : MsgIterState) (K : phase -> list token -> Prop) : Prop :=
  (length (msgQueue s) <= 3)%nat /\
  exists ph' q pd', phase_run cls ph (the_message <$> msgQueue s) = Some ph' /\ read_messages ir_store (msgQueue s) = Some q /\ pd = q ++ pd' /\ K ph' pd'.

(** The items [l] are handled, whatever parts their raw data is cut in: their messages follow
    the rules and hold their values, and in the end the stream is complete. *)
Fixpoint acc (ms : MsgIterState) (ph : phase) (r : reading) (pd : list token) (l : list Item) : Prop :=
  match l with
  | [] => isDone ms = false /\ msgQueue ms = [] /\ ph = Within /\ pd = []
  | i :: l =>
    let rest := fun s => released ph (pd ++ tokens_of r i) s (fun ph pd => isDone s = false /\ acc (drain s) ph (read_item r i) pd l) in
    match i with
    | RawDataItem b =>
      exists J : list Z -> MsgIterState -> Prop, J b ms /\
        (forall d t s, J (d ++ t) s -> wps (visit (RawDataItem d)) s (fun _ => J t)) /\
        (forall t s, J t s -> isDone s = false /\ msgQueue s = []) /\ (forall s, J [] s -> acc s ph (read_item r i) pd l)
    | _ => wps (visit i) ms (fun _ => rest)
    end
  end.

(** The same of a result which is finished and about the stream. *)
Definition good (ms : MsgIterState) (ph : phase) (r : reading) (pd : list token) (prev : option PktInfo) (x : result) : Prop :=
  good_items prev (fst x) = true -> snd x = Finished -> acc ms ph r pd (fst x).

Lemma good_lax ms ph r pd prev : lax (good ms ph r pd prev).
Proof. intros st Hst _ E. done. Qed.

(** An item that is not raw data. *)
Definition is_raw_data (i : Item) : bool := match i with RawDataItem _ => true | _ => false end.
Lemma good_emit i ms ph r pd prev k p :
  is_raw_data i = false ->
  (item_ok debug cls (stream_id (mStream cfg)) prev i = true ->
   wps (visit i) ms (fun _ s => released ph (pd ++ tokens_of r i) s (fun ph pd => isDone s = false /\ good (drain s) ph (read_item r i) pd (last_info prev i) (k p)))) ->
  good ms ph r pd prev (emit i k p).
Proof.
  intros Hi Hv. unfold good, emit. destruct (k p) as [l st] eqn:Hk. cbn [fst snd items_ok]. intros [Hok Hl]%andb_true_iff Hst. specialize (Hv Hok).
  assert (Hacc : wps (visit i) ms (fun _ s => released ph (pd ++ tokens_of r i) s (fun ph pd => isDone s = false /\ acc (drain s) ph (read_item r i) pd l))).
  { eapply wps_mono; [exact Hv|]. intros _ s (Hlen & ph' & q & pd' & ? & ? & ? & ? & Hg). split; [done|]. exists ph', q, pd'. split_and!; try done. apply Hg; [done|]. by subst. }
  by destruct i.
Qed.

Lemma drain_id s : msgQueue s = [] -> drain s = s.
Proof. destruct s. simpl. by intros ->. Qed.
Lemma released_nothing ph pd s (K : phase -> list token -> Prop) : msgQueue s = [] -> K ph pd -> released ph pd s K.
Proof. intros Hq HK. unfold released. rewrite Hq. split; [simpl; lia|]. by exists ph, [], pd. Qed.
(** An item that changes the state without a message. *)
Lemma good_silent i ms s ph r pd prev k p : is_raw_data i = false -> (item_ok debug cls (stream_id (mStream cfg)) prev i = true -> visit i ms = (s, Ret tt)) ->
  msgQueue s = [] -> isDone s = false -> good s ph (read_item r i) (pd ++ tokens_of r i) (last_info prev i) (k p) -> good ms ph r pd prev (emit i k p).
Proof.
  intros Hi Hv Hq Hd Hg. apply good_emit; [done|]. intros Hok. unfold wps. rewrite (Hv Hok). apply released_nothing; [done|]. by rewrite drain_id.
Qed.

(** ** What is not shown *)

Definition idle (ms : MsgIterState) : Prop := isDone ms = false /\ msgQueue ms = [].

Lemma visit_skipped i ms : skipItemsUntilScopeEndItem ms = true -> isScopeEnd i = false -> visit i ms = (ms, Ret tt).
Proof. intros Hs Hi. unfold visitItem, bind, gets. by rewrite Hs, Hi. Qed.

(** An item which is skipped, or has no effect. *)
Lemma good_ignored i ms ph r pd prev k p : is_raw_data i = false -> visit i ms = (ms, Ret tt) -> idle ms -> tokens_of r i = [] -> last_info prev i = prev ->
  good ms ph (read_item r i) pd prev (k p) -> good ms ph r pd prev (emit i k p).
Proof.
  intros Hi Hv [Hd Hq] Ht Hp Hg. apply (good_silent i ms ms); try done. by rewrite Ht, app_nil_r, Hp.
Qed.

Section skipping.
Context (data : list Z) (Hbytes : buf_wf 8 data) (Hsize : bits_of_data data <= 2 ^ 34).
Context (ms : MsgIterState) (Hskip : skipItemsUntilScopeEndItem ms = true) (Hidle : idle ms) (ph : phase) (pd : list token) (prev : option PktInfo).

(** A continuation that the state accepts, what is hidden being read. *)
Abbreviation hidden p k := (forall r' p', shown r' = false -> keeps p p' -> good ms ph r' pd prev (k p')).

Lemma hide_emit i r k p : shown r = false -> isScopeEnd i = false -> is_raw_data i = false -> last_info prev i = prev -> shown (read_item r i) = false ->
  (forall r', shown r' = false -> good ms ph r' pd prev (k p)) -> good ms ph r pd prev (emit i k p).
Proof.
  intros Hr He Hi Hp Hr' Hk. apply good_ignored; try done; [by apply visit_skipped|unfold tokens_of; by rewrite Hr|by apply Hk].
Qed.
Lemma hide_raw b r k p : shown r = false -> (forall r', shown r' = false -> good ms ph r' pd prev (k p)) -> good ms ph r pd prev (emit (RawDataItem b) k p).
Proof.
  intros Hr Hk. unfold good, emit. specialize (Hk (read_item r (RawDataItem b)) Hr). unfold good in Hk. destruct (k p) as [l st]. cbn [fst snd items_ok item_ok last_info andb].
  intros Hl Hst. exists (fun _ s => s = ms). split; [done|]. split; [|split].
  - intros d t s ->. unfold wps. by rewrite visit_skipped.
  - intros t s ->. apply Hidle.
  - intros s ->. by apply Hk.
Qed.
Abbreviation hides fc := (forall k r p, shown r = false -> at_ok p -> hidden p k -> good ms ph r pd prev (field data fc k p)).
Ltac hide := apply hide_emit; [done..|]; let r := fresh "r" in let Hr := fresh "Hr" in intros r Hr.
Ltac lax := first [apply good_lax | done | eassumption].

Lemma hide_fixed f : fixed_ok f = true -> hides (FixedLenFc f).
Proof.
  intros Hf k r p Hr Hp Hk. cbn [field]. unfold fixed_field. destruct (fl_type f); (apply lax_fixed; try lax; try by apply reading_of_reads); intros v p1 Hp1 _; hide;
    try (by apply Hk); (apply lax_saved; [lax|apply Hp1|]); intros p2 Hp2; pose proof (keeps_trans _ _ _ Hp1 Hp2) as Hp12; try (by apply Hk).
  apply lax_with_roles; [apply Hp2|]. intros i p3 Hp3 Hi. pose proof (keeps_trans _ _ _ Hp12 Hp3). destruct Hi as [->|[(c & ->)|(_ & m & ->)]]; [by apply Hk|hide; by apply Hk..].
Qed.
Lemma hidden_keeps p p' k : hidden p k -> keeps p p' -> hidden p' k.
Proof. intros Hk Hp r p1 Hr Hp1. apply Hk; [done|]. by eapply keeps_trans. Qed.
Lemma hide_then i r k p : shown r = false -> isScopeEnd i = false -> is_raw_data i = false -> last_info prev i = prev ->
  (forall r, shown r = false -> shown (read_item r i) = false) -> at_ok p -> hidden p k -> good ms ph r pd prev (emit i k p).
Proof. intros Hr He Hi Hl Hs Hp Hk. apply hide_emit; try done; [by apply Hs|]. intros r' Hr'. apply Hk; [done|by apply keeps_self]. Qed.
Lemma hidden_emit i p k : isScopeEnd i = false -> is_raw_data i = false -> last_info prev i = prev -> (forall r, shown r = false -> shown (read_item r i) = false) ->
  hidden p k -> hidden p (emit i k).
Proof. intros He Hi Hl Hs Hk r p' Hr Hp. apply hide_then; try done; [apply Hp|by eapply hidden_keeps]. Qed.

Lemma hide_raw_content n p k : 0 <= n -> hidden p k -> hidden p (raw_content data n k).
Proof.
  intros Hn Hk r p' Hr Hp. unfold raw_content. destruct (n =? 0); [by apply Hk|]. apply lax_raw; [done..|lax|apply Hp|done|]. intros b _ _ _.
  apply hide_raw; [done|]. intros r' Hr'. apply Hk; [done|]. eapply keeps_trans; [exact Hp|]. apply keeps_advance; [lia|apply Hp].
Qed.
Lemma hide_iter n p k fc : hides fc -> hidden p k -> hidden p (Nat.iter n (field data fc) k).
Proof. intros Hfc Hk. induction n as [|n IH]; [done|]. intros r p' Hr Hp. simpl. apply Hfc; [done|apply Hp|by eapply hidden_keeps]. Qed.
Lemma hide_members fs p k : Forall (fun fc => hides fc) fs -> hidden p k -> hidden p (fold_right (field data) k fs).
Proof.
  intros Hfs Hk. induction Hfs as [|fc fs Hfc Hfs IH]; [done|]. intros r p' Hr Hp. simpl. apply Hfc; [done|apply Hp|by eapply hidden_keeps].
Qed.
Lemma hide_uuid n f uuid p k : uuid_elem_ok f = true -> (forall uuid, hidden p (k uuid)) -> hidden p (uuid_elems data n f uuid k).
Proof.
  intros Hf. revert uuid p. induction n as [|n IH]; intros uuid p Hk; [apply Hk|]. intros r p' Hr Hp. cbn [uuid_elems].
  apply lax_fixed; try lax; try by apply uuid_elem_reads. { apply Hp. }
  intros v p1 Hp1 _. hide. apply (IH _ p); [done|done|by eapply keeps_trans].
Qed.

Lemma hide_field fc : fc_ok fc = true -> hides fc.
Proof.
  induction fc as [f|roles keys|keys|e|e n|e ix|n u|ix|ms' a IH|e n a u IH|e a ix IH|sel e rs ix IH|sel opts ix IH] using Fc_nested_ind; intros Hok k r p Hr Hp Hk.
  - by apply hide_fixed.
  - cbn [field]. apply lax_aligned; [lax|done|done|]. intros p1 Hp1 _. unfold var_len_uint, var_len_sint. apply lax_var_int; [lax|apply Hp1|lia|]. intros v l p2 Hp2 _. hide.
    pose proof (keeps_trans _ _ _ Hp1 Hp2) as Hp12. apply lax_saved; [lax|apply Hp2|]. intros p3 Hp3. apply lax_with_roles; [apply Hp3|]. intros i p4 Hp4 Hi.
    pose proof (keeps_trans _ _ _ (keeps_trans _ _ _ Hp12 Hp3) Hp4). destruct Hi as [->|[(c & ->)|(_ & m & ->)]]; [by apply Hk|hide; by apply Hk..].
  - cbn [field]. apply lax_aligned; [lax|done|done|]. intros p1 Hp1 _. unfold var_len_uint, var_len_sint. apply lax_var_int; [lax|apply Hp1|lia|]. intros v l p2 Hp2 _. hide.
    pose proof (keeps_trans _ _ _ Hp1 Hp2) as Hp12. apply lax_saved; [lax|apply Hp2|]. intros p3 Hp3. apply Hk; [done|by eapply keeps_trans].
  - cbn [field]. apply lax_aligned; [lax|done|done|]. intros p1 Hp1 _. hide. unfold null_terminated.
    destruct (snd (findNullCp _ _ _ _)) as [n|]; [|by destruct (_ <? 0); apply good_lax]. apply lax_raw; [done..|lax|apply Hp1|lia|]. intros b _ _ _. apply hide_raw; [done|].
    intros r' Hr'. hide. apply Hk; [done|]. eapply keeps_trans; [exact Hp1|]. apply keeps_advance; [lia|apply Hp1].
  - cbn [field]. apply lax_aligned; [lax|done|done|]. intros p1 Hp1 _. hide. apply (hide_raw_content _ p); [|by apply hidden_emit|done|done].
    simpl in Hok. unfold u64 in Hok. lia.
  - cbn [field]. apply lax_with_saved; [lax|done|]. intros v Hv. unfold from_bytes. destruct (_ || _); [|by apply good_lax].
    apply lax_aligned; [lax|done|done|]. intros p1 Hp1 _. hide. apply (hide_raw_content _ p); [done|by apply hidden_emit|done|done].
  - simpl in Hok. unfold u64 in Hok. cbn [field]. destruct u; (apply lax_aligned; [lax|done|done|]); intros p1 Hp1 _; hide.
    + apply lax_raw; [done..|lax|apply Hp1|lia|]. intros b _ _ _. apply hide_raw; [done|]. intros r' Hr'. hide. hide.
      apply Hk; [done|]. eapply keeps_trans; [exact Hp1|]. apply keeps_advance; [lia|apply Hp1].
    + apply (hide_raw_content _ p); [lia|by apply hidden_emit|done|done].
  - cbn [field]. apply lax_with_saved; [lax|done|]. intros v Hv. unfold from_bytes. destruct (_ || _); [|by apply good_lax].
    apply lax_aligned; [lax|done|done|]. intros p1 Hp1 _. hide. apply (hide_raw_content _ p); [done|by apply hidden_emit|done|done].
  - cbn [field]. apply lax_aligned; [lax|done|by apply pow2_pos, align_pow2|]. intros p1 Hp1 _. hide. apply (hide_members _ p); [|by apply hidden_emit|done|done].
    simpl in Hok. rewrite !andb_true_iff in Hok. destruct Hok as [_ Hok]. clear -IH Hok. induction IH as [|fc fs Hfc Hfs IH]; [constructor|].
    simpl in Hok. apply andb_true_iff in Hok as [? ?]. constructor; auto.
  - assert (Ha : 0 < align (StaticLenArrayFc e n a u)) by (by apply pow2_pos, align_pow2). simpl in Hok. rewrite !andb_true_iff in Hok. cbn [field]. destruct u.
    + destruct Hok as [_ Hu]. simpl in Hu. apply andb_true_iff in Hu as [_ Hu]. destruct e as [f| | | | | | | | | | | |]; try done.
      apply lax_aligned; [lax|done|done|]. intros p1 Hp1 _. hide. apply (hide_uuid _ _ _ p); [done| |done|done]. intros uuid. apply hidden_emit; [done..|by apply hidden_emit].
    + apply lax_aligned; [lax|done|done|]. intros p1 Hp1 _. hide. apply (hide_iter _ p); [apply IH; tauto|by apply hidden_emit|done|done].
  - assert (Ha : 0 < align (DynLenArrayFc e a ix)) by (by apply pow2_pos, align_pow2). simpl in Hok. rewrite !andb_true_iff in Hok. cbn [field].
    apply lax_with_saved; [lax|done|]. intros v Hv. apply lax_aligned; [lax|done|done|]. intros p1 Hp1 _. hide.
    apply (hide_iter _ p); [apply IH; tauto|by apply hidden_emit|done|done].
  - cbn [field]. apply lax_with_saved; [lax|done|]. intros v Hv. hide. cbv zeta. destruct (isEnabledBySelVal _ _ _).
    + apply (IH Hok); [done|done|]. by apply hidden_emit.
    + hide. apply Hk; [done|by apply keeps_self].
  - cbn [field]. apply lax_with_saved; [lax|done|]. intros v Hv. cbv zeta. generalize (VariantFc sel opts ix), 0%nat. simpl in Hok. revert Hok.
    induction IH as [|[e rs] opts Ho Hopts IH']; intros Hok fc j; [by apply good_lax|]. simpl in Hok. apply andb_true_iff in Hok as [Hok1 Hok2].
    destruct (contains rs _); [|by apply IH']. hide. apply Ho; [done|done|done|]. by apply hidden_emit.
Qed.
End skipping.
End acc.
