(* ===== verification/MsgIterField.v ===== *)
(** The fields that the CTF message iterator fills: positions in a field, what the functions
    of the library do to fields that are ready, and the state of the iterator in a scope. *)

From stdpp Require Import list gmap.
From Stdlib Require Import SpecFloat.
From S2P Require Import Prelude Object IntRange IrObj FieldClass FieldClassFacts Clock Field FieldFacts FieldCreate FieldOps FloatConv FieldClaims Msg.
From S2P Require Import MsgCreate MsgSeq CtfIr ItemState ItemSeq ItemSpec CtfToIr MsgIter MsgIterSpec MsgIterAcc.

(** The fields that the CTF message iterator fills: positions in a field, setting the values
    of fields that are ready. *)

(** * Positions *)

(** The field with another one at a position. *)
Definition put (f : bt_field) (p : list nat) (s : bt_field) : option bt_field := update_at f p (fun _ => Some s).

Lemma with_subfield_same f i s : subfields f !! i = Some s -> with_subfield f i s = f.
Proof.
  destruct f; simpl; try done; intros Hi; try by rewrite list_insert_id.
  apply list_lookup_singleton_Some in Hi as [-> ->]. done.
Qed.
Lemma subfields_with_at f i s s0 : subfields f !! i = Some s0 -> subfields (with_subfield f i s) !! i = Some s.
Proof. intros Hi. rewrite (subfields_with _ _ _ _ Hi). apply list_lookup_insert_eq. by eapply lookup_lt_Some. Qed.
Lemma with_subfield_twice f i s s' s0 : subfields f !! i = Some s0 -> with_subfield (with_subfield f i s) i s' = with_subfield f i s'.
Proof.
  destruct f; simpl; try done; intros Hi; try by rewrite list_insert_insert_eq.
  apply list_lookup_singleton_Some in Hi as [-> ->]. done.
Qed.

Lemma update_put f p op s s' : field_at f p = Some s -> op s = Some s' -> update_at f p op = put f p s'.
Proof.
  revert f. induction p as [|i p IH]; intros f Hs Hop; simpl in *; [by injection Hs as <-|]. unfold put. simpl.
  destruct (subfields f !! i) as [s0|]; [|done]. by rewrite (IH _ Hs Hop).
Qed.
Lemma put_total f p s s' : field_at f p = Some s -> exists f', put f p s' = Some f' /\ field_at f' p = Some s'.
Proof.
  revert f. induction p as [|i p IH]; intros f Hs; simpl in *; [by eexists|]. unfold put. simpl. destruct (subfields f !! i) as [s0|] eqn:Hi; [|done].
  destruct (IH _ Hs) as (s1 & Hput & Hat). unfold put in Hput. rewrite Hput. eexists. split; [done|]. by rewrite (subfields_with_at _ _ _ _ Hi).
Qed.
Lemma put_same f p s : field_at f p = Some s -> put f p s = Some f.
Proof.
  revert f. induction p as [|i p IH]; intros f Hs; simpl in *; [by rewrite Hs|]. unfold put. simpl. destruct (subfields f !! i) as [s0|] eqn:Hi; [|done].
  pose proof (IH _ Hs) as E. unfold put in E. rewrite E. by rewrite with_subfield_same.
Qed.
Lemma put_put f p s s' f' : put f p s = Some f' -> put f' p s' = put f p s'.
Proof.
  revert f f'. induction p as [|i p IH]; intros f f' Hp; [done|]. unfold put in *. simpl in *. destruct (subfields f !! i) as [s0|] eqn:Hi; [|done].
  destruct (update_at s0 p _) as [s1|] eqn:Hs1; [|done]. injection Hp as <-. rewrite (subfields_with_at _ _ _ _ Hi), (IH _ _ Hs1).
  destruct (update_at s0 p (fun _ => Some s')); [|done]. f_equal. by eapply with_subfield_twice.
Qed.
Lemma field_at_app f p i c : field_at f p = Some c -> field_at f (p ++ [i]) = subfields c !! i.
Proof.
  revert f. induction p as [|j p IH]; intros f Hc; simpl in *; [injection Hc as <-; by destruct (subfields f !! i)|]. destruct (subfields f !! j); [|done]. by apply IH.
Qed.
Lemma put_app f p i c s s' : field_at f p = Some c -> subfields c !! i = Some s -> put f (p ++ [i]) s' = put f p (with_subfield c i s').
Proof.
  revert f. induction p as [|j p IH]; intros f Hc Hs; unfold put in *; simpl in *; [injection Hc as <-; by rewrite Hs|].
  destruct (subfields f !! j); [|done]. by rewrite (IH _ Hc Hs).
Qed.

(** * Numbers *)

(** What 32 bits are as a number is a valid [float]. *)
Lemma float_of_bits_valid z : valid_binary 24 128 (float_of_bits 24 128 z) = true.
Proof.
  unfold float_of_bits. change (24 - 1) with 23. change (2 * 128) with 256. pose proof (Z.mod_pos_bound z (2 ^ 23) ltac:(lia)) as Hm.
  pose proof (Z.mod_pos_bound (z / 2 ^ 23) 256 ltac:(lia)) as He. revert Hm He. generalize (z mod 2 ^ 23), (z / 2 ^ 23 mod 256), (negb (z / (2 ^ 23 * 256) =? 0)).
  intros m e s Hm He. destruct (Z.eqb_spec e 0) as [->|Hne].
  - destruct m as [|m|m]; try done. pose proof (digits_le m 23 ltac:(lia) ltac:(lia)). unfold valid_binary, bounded, canonical_mantissa, fexp, emin.
    rewrite andb_true_iff, Z.eqb_eq, Z.leb_le. lia.
  - destruct (Z.eqb_spec e (256 - 1)) as [|Hne']; [by destruct (_ =? _)|]. destruct (m + 2 ^ 23) as [|p|p] eqn:Hp; try done.
    pose proof (digits_le p 24 ltac:(lia) ltac:(lia)). pose proof (digits_ge p 23 ltac:(lia)). unfold valid_binary, bounded, canonical_mantissa, fexp, emin.
    rewrite andb_true_iff, Z.eqb_eq, Z.leb_le. lia.
Qed.

(** * Fields that are ready *)

Section ready.
Context (h : ir).

(** Well typed, and nothing is frozen. *)
Definition ready (f : bt_field) : Prop := field_ok h f /\ all_nodes (fun s => field_frozen (common s) = false) f.

Lemma ready_subfield c i s : ready c -> subfields c !! i = Some s -> ready s.
Proof. intros [Hf Hn] Hi. apply all_nodes_eq in Hf as [_ Hf], Hn as [_ Hn]. split; by eapply Forall_lookup_1. Qed.
Lemma ready_with c i s s' : ready c -> subfields c !! i = Some s -> ready s' -> class_of s' = class_of s -> ready (with_subfield c i s').
Proof.
  intros [Hf Hn] Hi [Hf' Hn'] Hc. apply all_nodes_eq in Hf as [(type & d & Ht & Hd) Hf], Hn as [Hn0 Hn]. split; apply all_nodes_eq; rewrite (subfields_with _ _ _ _ Hi).
  - split; [|by apply Forall_insert]. exists type, d. unfold class_of in *. rewrite common_with. split; [done|]. by eapply contents_ok_subfield.
  - rewrite common_with. split; [done|by apply Forall_insert].
Qed.
Lemma ready_class f : ready f -> exists type d, cls h (class_of f) = Some (type, d) /\ contents_ok type d f.
Proof. intros [Hf _]. by apply all_nodes_eq in Hf as [? _]. Qed.
Lemma ready_hot f : ready f -> field_frozen (common f) = false.
Proof. intros [_ Hf]. by apply all_nodes_eq in Hf as [? _]. Qed.

(** Setting the value of a field without subfields, which can then be read. *)
Definition sets (op : bt_field -> option bt_field) (f : bt_field) (t : token) : Prop :=
  exists f', op f = Some f' /\ ready f' /\ class_of f' = class_of f /\ read_field h f' = Some [t].

Lemma sets_intro op f f' t check set : ready f -> op f = Some f' -> set_single true h f check set = Some f' -> field_ok h f' -> class_of f' = class_of f ->
  (forall c v v', f' = SingleField c v' -> set v = Some v' -> read_single h f' v' = Some t) -> sets op f t.
Proof.
  intros Hf Hop Hset Hok Hc Hread. exists f'. split; [done|]. destruct (set_single_inv _ _ _ _ _ Hset) as (type & d & c & v & v' & _ & _ & -> & Hfr & Hv & ->).
  split; [split; [done|by split]|]. split; [done|]. cbn [read_field]. by rewrite (Hread _ _ _ eq_refl Hv).
Qed.

Lemma sets_bool f v : ready f -> cls h (class_of f) = Some (BT_FIELD_CLASS_TYPE_BOOL, NoContents) -> sets (fun f => bt_field_bool_set_value true h f v) f (TBool v).
Proof.
  intros Hf Hc. destruct (bool_get_set h f _ _ (proj1 Hf) Hc (ready_hot _ Hf) v eq_refl) as (f' & Hs & Hg).
  destruct (bool_ok _ _ _ _ (proj1 Hf) Hs) as [Hok Hcl]. eapply sets_intro; try done. intros c w w' _ Hw. destruct w; try done. injection Hw as <-. cbn [read_single]. by rewrite Hg.
Qed.
Lemma sets_bits f v n flags : ready f -> cls h (class_of f) = Some (BT_FIELD_CLASS_TYPE_BIT_ARRAY, BitArrayContents n flags) -> 0 < n <= 64 -> 0 <= v < 2 ^ n ->
  sets (fun f => bt_field_bit_array_set_value_as_integer true h f v) f (TBits v).
Proof.
  intros Hf Hc Hn Hv. assert (Hu : is_u64 v).
  { pose proof (Z.pow_le_mono_r 2 n 64 ltac:(lia) ltac:(lia)). unfold is_u64, UINT64_MAX. lia. }
  destruct (bit_array_get_set h f _ _ (proj1 Hf) Hc (ready_hot _ Hf) v n flags eq_refl Hu) as (f' & Hs & Hg). rewrite Z.mod_small in Hg by done.
  destruct (bit_array_ok _ _ _ _ Hu (proj1 Hf) Hs) as [Hok Hcl]. pose proof Hs as Hs'. unfold bt_field_bit_array_set_value_as_integer in Hs'.
  destruct (get_fc h _) as [c0|]; [|done]. eapply sets_intro; try done. intros c w w' _ Hw. destruct w; try done. destruct (fc_data c0); try done. injection Hw as <-.
  cbn [read_single]. by rewrite Hg.
Qed.
Lemma unsigned_get_none f type d : cls h (class_of f) = Some (type, d) -> is_unsigned_type type = false -> bt_field_integer_unsigned_get_value true h f = None.
Proof.
  intros (c & Hc & <- & _)%get_cls Ht. unfold bt_field_integer_unsigned_get_value, get_single, BT_ASSERT_PRE_DEV_FIELD_IS_SET, BT_ASSERT_PRE_DEV_FIELD_TYPE, BT_ASSERT_PRE_DEV, type_of.
  unfold class_of in Hc. destruct (_bt_field_is_set f) as [[]|]; try done. by rewrite Hc, Ht.
Qed.
Lemma sets_integer (signed : bool) f type d v n : ready f -> cls h (class_of f) = Some (type, d) ->
  integer_of (if signed then is_signed_type else is_unsigned_type) n type d -> 0 < n <= 64 -> (if signed then - 2 ^ (n - 1) <= v < 2 ^ (n - 1) else 0 <= v < 2 ^ n) ->
  sets (fun f => (if signed then bt_field_integer_signed_set_value else bt_field_integer_unsigned_set_value) true h f v) f (TInt v).
Proof.
  intros Hf Hc [Ht Hd] Hn Hv. assert (Hr : value_range type d = Some n) by (destruct d; try done; by subst).
  assert (Hpow : 2 ^ n <= 2 ^ 64) by (apply Z.pow_le_mono_r; lia). assert (Hpow' : 2 ^ (n - 1) <= 2 ^ 63) by (apply Z.pow_le_mono_r; lia).
  destruct signed.
  - assert (Hi : is_i64 v) by (unfold is_i64, INT64_MIN, INT64_MAX; lia).
    destruct (signed_get_set h f _ _ (proj1 Hf) Hc (ready_hot _ Hf) v Ht Hi) as (range & Hr' & Hs). assert (range = n) as -> by congruence.
    rewrite bool_decide_eq_true_2 in Hs by done. destruct Hs as (f' & Hs & Hg). destruct (signed_ok _ _ _ _ Hi (proj1 Hf) Hs) as [Hok Hcl].
    pose proof Hs as Hs'. unfold bt_field_integer_signed_set_value, set_integer in Hs'. destruct (get_fc h _) as [c0|]; [|done].
    eapply sets_intro; try done. intros c w w' _ Hw. destruct w; try done. destruct (integer_range c0) as [z|]; try done. destruct (bt_util_value_is_in_range_signed z v); [|done]. injection Hw as <-.
    cbn [read_single]. rewrite (unsigned_get_none f' type d), Hg; [done|by rewrite Hcl|by apply signed_not_unsigned].
  - assert (Hi : is_u64 v) by (unfold is_u64, UINT64_MAX; lia).
    destruct (unsigned_get_set h f _ _ (proj1 Hf) Hc (ready_hot _ Hf) v Ht Hi) as (range & Hr' & Hs). assert (range = n) as -> by congruence.
    rewrite bool_decide_eq_true_2 in Hs by (destruct Hv; done). destruct Hs as (f' & Hs & Hg). destruct (unsigned_ok _ _ _ _ Hi (proj1 Hf) Hs) as [Hok Hcl].
    pose proof Hs as Hs'. unfold bt_field_integer_unsigned_set_value, set_integer in Hs'. destruct (get_fc h _) as [c0|]; [|done].
    eapply sets_intro; try done. intros c w w' _ Hw. destruct w; try done. destruct (integer_range c0) as [z|]; try done. destruct (bt_util_value_is_in_range_unsigned z v); [|done]. injection Hw as <-.
    cbn [read_single]. by rewrite Hg.
Qed.
Lemma single_get_none f d : cls h (class_of f) = Some (BT_FIELD_CLASS_TYPE_DOUBLE_PRECISION_REAL, d) -> bt_field_real_single_precision_get_value true h f = None.
Proof.
  intros (c & Hc & Ht & _)%get_cls. unfold bt_field_real_single_precision_get_value, get_single, BT_ASSERT_PRE_DEV_FIELD_IS_SET, BT_ASSERT_PRE_DEV_FIELD_TYPE, BT_ASSERT_PRE_DEV, type_of.
  unfold class_of in Hc. destruct (_bt_field_is_set f) as [[]|]; try done. by rewrite Hc, Ht.
Qed.
Lemma sets_double f v d : ready f -> cls h (class_of f) = Some (BT_FIELD_CLASS_TYPE_DOUBLE_PRECISION_REAL, d) ->
  sets (fun f => bt_field_real_double_precision_set_value true h f v) f (TReal v).
Proof.
  intros Hf Hc. destruct (double_get_set h f _ _ (proj1 Hf) Hc (ready_hot _ Hf) v eq_refl) as (f' & Hs & Hg).
  destruct (double_precision_ok _ _ _ _ (proj1 Hf) Hs) as [Hok Hcl]. eapply sets_intro; try done. intros c w w' _ Hw. destruct w; try done. injection Hw as <-.
  cbn [read_single]. rewrite (single_get_none f' d), Hg; [done|by rewrite Hcl].
Qed.
Lemma sets_single f v d : ready f -> cls h (class_of f) = Some (BT_FIELD_CLASS_TYPE_SINGLE_PRECISION_REAL, d) -> valid_binary 24 128 v = true ->
  sets (fun f => bt_field_real_single_precision_set_value true h f v) f (TReal v).
Proof.
  intros Hf Hc Hv. destruct (single_get_set h f _ _ (proj1 Hf) Hc (ready_hot _ Hf) v eq_refl Hv) as (f' & Hs & Hg).
  destruct (single_precision_ok _ _ _ _ (proj1 Hf) Hs) as [Hok Hcl]. eapply sets_intro; try done. intros c w w' _ Hw. destruct w; try done. injection Hw as <-.
  cbn [read_single]. by rewrite Hg.
Qed.

(** ** Strings *)

(** A string field which is set, with its characters. *)
Definition holds (f : bt_field) (w : list Z) : Prop :=
  ready f /\ cls h (class_of f) = Some (BT_FIELD_CLASS_TYPE_STRING, NoContents) /\
  exists c buf len, f = SingleField c (StringField buf len) /\ field_is_set c = true /\ string_ok buf len /\ w = take (Z.to_nat len) buf.

Lemma holds_read f w : holds f w -> read_field h f = Some [TString w].
Proof.
  intros (Hf & Hc & c & buf & len & -> & Hset & Hs & ->). cbn [read_field read_single]. unfold bt_field_string_get_value.
  rewrite (get_string h _ _ _ Hc c) by done. by rewrite (cstr_of_string _ _ Hs).
Qed.
Lemma holds_intro f buf len : field_ok h (SingleField (with_is_set (common f) true) (StringField buf len)) -> ready f -> string_ok buf len ->
  cls h (class_of f) = Some (BT_FIELD_CLASS_TYPE_STRING, NoContents) -> holds (SingleField (with_is_set (common f) true) (StringField buf len)) (take (Z.to_nat len) buf).
Proof.
  intros Hok Hf Hs Hc. split; [|split; [exact Hc|by do 3 eexists]]. split; [done|]. apply all_nodes_eq. split; [by apply (ready_hot f)|by apply List.Forall_nil].
Qed.
Lemma string_appended garbage f w v : holds f w -> no_nul v -> Z.of_nat (length w) + Z.of_nat (length v) + 1 < 2 ^ 32 ->
  exists f', bt_field_string_append_with_length true garbage h f v (Z.of_nat (length v)) = Some f' /\ class_of f' = class_of f /\ holds f' (w ++ v).
Proof.
  intros (Hf & Hc & c & buf & len & -> & Hset & Hs & ->) Hv Hroom. pose proof (ready_hot _ Hf) as Hhot.
  assert (Hw : Z.of_nat (length (take (Z.to_nat len) buf)) = len) by (rewrite length_take; destruct Hs; lia). rewrite Hw in Hroom.
  assert (Hv' : take (Z.to_nat (Z.of_nat (length v))) v = v) by (rewrite Nat2Z.id; by apply take_ge).
  assert (Hop : bt_field_string_append_with_length true garbage h (SingleField c (StringField buf len)) v (Z.of_nat (length v)) =
                append_to_string_field_with_length true garbage (SingleField c (StringField buf len)) v (Z.of_nat (length v))).
  { unfold bt_field_string_append_with_length, BT_ASSERT_PRE_DEV_FIELD_HOT, BT_ASSERT_PRE_DEV_FIELD_TYPE, BT_ASSERT_PRE_DEV.
    rewrite Hhot, (field_type_is h _ _ _ Hc), Hv', bool_decide_eq_true_2; [done|]. intros Hin. eapply Forall_forall in Hv; [|exact Hin]. done. }
  destruct (append_total garbage c buf len v (Z.of_nat (length v)) Hs ltac:(lia) ltac:(lia)) as [f' Hf']. rewrite Hop. exists f'. split; [done|].
  rewrite <- Hop in Hf'. destruct (field_append_ok _ _ _ _ _ _ (proj1 Hf) Hf') as [Hok Hcl]. split; [done|]. rewrite Hop in Hf'.
  destruct (append_inv _ _ _ _ _ _ _ Hs Hf') as (buf' & -> & _ & Ha). rewrite Hv' in Ha.
  assert (Hs' : string_ok buf' (len + Z.of_nat (length v))) by (eapply appended_ok; [exact Hs|done|done]).
  assert (E : take (Z.to_nat len) buf ++ v = take (Z.to_nat (len + Z.of_nat (length v))) buf').
  { destruct Ha as (_ & rest & ->). rewrite (assoc_L (++)), take_app_length'; [done|]. rewrite length_app. lia. }
  rewrite E. by apply (holds_intro (SingleField c (StringField buf len))).
Qed.
Lemma string_cleared garbage f : ready f -> cls h (class_of f) = Some (BT_FIELD_CLASS_TYPE_STRING, NoContents) ->
  exists f', bt_field_string_set_value true garbage h f [] = Some f' /\ class_of f' = class_of f /\ holds f' [].
Proof.
  intros Hf Hc. pose proof (ready_hot _ Hf) as Hhot. destruct (string_shape h f _ _ (proj1 Hf) Hc Hhot eq_refl) as (c & buf & len & -> & Hs).
  unfold bt_field_string_set_value, BT_ASSERT_PRE_DEV_FIELD_HOT, BT_ASSERT_PRE_DEV_FIELD_TYPE, BT_ASSERT_PRE_DEV. rewrite Hhot, (field_type_is h _ _ _ Hc).
  destruct (clear_string_field true _) as [f1|] eqn:H1.
  - destruct (clear_ok _ _ _ (proj1 Hf) H1) as [Hok1 Hcl1]. destruct (clear_inv _ _ _ _ Hs H1) as (buf' & -> & Hs').
    destruct (string_appended garbage (SingleField (with_is_set c true) (StringField buf' 0)) [] []) as (f' & Hf' & Hcl' & Hh); [|by apply List.Forall_nil|done|].
    + by apply (holds_intro (SingleField c (StringField buf len))).
    + exists f'. split; [exact Hf'|]. split; [by rewrite Hcl'|done].
  - destruct Hs as (Hl & _). simpl in H1. by rewrite (proj2 (Z.ltb_lt 0 _)) in H1 by lia.
Qed.
End ready.

(** The fields with subfields that the CTF message iterator fills: what the functions of the
    library do to those that are ready, and the values that are read in them. *)

(** * Reading *)

Section reading.
Context (h : ir).

Fixpoint read_list (l : list bt_field) : option (list token) :=
  match l with [] => Some [] | s :: l => do a <- read_field h s; do b <- read_list l; Some (a ++ b) end.

Lemma read_list_app l l' a b : read_list l = Some a -> read_list l' = Some b -> read_list (l ++ l') = Some (a ++ b).
Proof.
  revert a. induction l as [|s l IH]; intros a Ha Hb; simpl in *; [by injection Ha as <-|]. destruct (read_field h s) as [x|]; [|done].
  destruct (read_list l) as [y|]; [|done]. injection Ha as <-. rewrite (IH _ eq_refl Hb). by rewrite (assoc_L (++)).
Qed.
Lemma read_structure c l : read_field h (StructureField c l) = read_list l.
Proof. done. Qed.
Lemma read_array c l n : 0 <= n <= Z.of_nat (length l) ->
  read_field h (ArrayField c l n) = (do a <- read_list (take (Z.to_nat n) l); Some (TLength n :: a)).
Proof.
  intros Hn. cbn [read_field]. set (all := fix all (l : list bt_field) (n : nat) := match n, l with O, _ => _ | S _, [] => _ | S n, s :: l => _ end).
  assert (E : forall l m, (m <= length l)%nat -> all l m = read_list (take m l)); [|by rewrite E by lia].
  clear. induction l as [|s l IH]; intros m Hm; simpl in Hm; [by replace m with 0%nat by lia|]. destruct m as [|m]; [done|].
  cbn [take read_list]. rewrite <- IH by lia. done.
Qed.
Lemma read_variant c l i s : 0 <= i -> l !! Z.to_nat i = Some s ->
  read_field h (VariantField c l true i) = (do a <- read_field h s; Some (TSelected i :: a)).
Proof.
  intros Hi Hl. cbn [read_field]. set (at_index := fix at_index (l : list bt_field) (i : nat) := match l, i with [], _ => _ | s :: _, O => _ | _ :: l, S i => _ end).
  assert (E : forall l m, l !! m = Some s -> at_index l m = read_field h s); [|by rewrite (E _ _ Hl)].
  clear. induction l as [|x l IH]; intros [|m] Hm; simpl in *; try done; [by injection Hm as ->|by apply IH].
Qed.

(** * Fields with subfields *)

Lemma ready_structure f type d : ready h f -> cls h (class_of f) = Some (type, d) -> type = BT_FIELD_CLASS_TYPE_STRUCTURE ->
  exists c l, f = StructureField c l.
Proof.
  intros Hf Hc Ht. pose proof (node_contents _ _ _ _ (proj1 Hf) Hc) as Hd. rewrite Ht in Hd. field_shape Hd. by do 2 eexists.
Qed.
Lemma ready_members f type names nfs x : ready h f -> cls h (class_of f) = Some (type, ContainerContents names nfs x) -> class_of <$> subfields f = nf_fc <$> nfs.
Proof.
  intros Hf Hc. pose proof (node_contents _ _ _ _ (proj1 Hf) Hc) as Hd. destruct f as [c []| | | |]; try done; simpl in Hd; tauto.
Qed.
Lemma ready_list f : ready h f -> Forall (ready h) (subfields f).
Proof.
  intros Hf. apply Forall_lookup. intros i s Hi. by eapply ready_subfield.
Qed.
Lemma ready_intro f : node_ok h f -> field_frozen (common f) = false -> Forall (ready h) (subfields f) -> ready h f.
Proof.
  intros Hn Hf Hl. split; apply all_nodes_eq; (split; [done|]); (eapply Forall_impl; [exact Hl|]); by intros x [? ?].
Qed.
Lemma ready_node f : ready h f -> node_ok h f.
Proof. intros [Hf _]. by apply all_nodes_eq in Hf as [? _]. Qed.

Lemma static_array f type e n : ready h f -> cls h (class_of f) = Some (type, StaticArrayContents e n) ->
  exists c l, f = ArrayField c l n /\ class_of <$> l = replicate (Z.to_nat n) e /\ n = Z.of_nat (length l).
Proof.
  intros Hf Hc. pose proof (node_contents _ _ _ _ (proj1 Hf) Hc) as Hd. destruct f as [c []| | | |c l k]; try done.
  simpl in Hd. destruct Hd as (_ & Hl & -> & Hn). exists c, l. split; [done|]. by rewrite Hn, Nat2Z.id.
Qed.
Lemma select_option f type names nfs x i : ready h f -> cls h (class_of f) = Some (type, ContainerContents names nfs x) -> is_variant_type type = true ->
  0 <= i < Z.of_nat (length nfs) ->
  exists c l, bt_field_variant_select_option_by_index true h f i = Some (VariantField c l true i) /\ ready h (VariantField c l true i) /\
    c = common f /\ l = subfields f.
Proof.
  intros Hf Hc Ht Hi. pose proof (node_contents _ _ _ _ (proj1 Hf) Hc) as Hd. pose proof (ready_hot _ _ Hf) as Hhot. pose proof (field_type_is h _ _ _ Hc) as Hty.
  destruct f as [c []| c l| |c l b k|]; try done; simpl in Hd.
  - destruct Hd as [-> _]. done.
  - destruct Hd as (_ & Hl & _). assert (Hlen : length l = length nfs) by (by rewrite <- (length_fmap class_of l), Hl, length_fmap).
    assert (Hs : bt_field_variant_select_option_by_index true h (VariantField c l b k) i = Some (VariantField c l true i)).
    { unfold bt_field_variant_select_option_by_index, BT_ASSERT_PRE_DEV_FIELD_TYPE, BT_ASSERT_PRE_DEV_FIELD_HOT, BT_ASSERT_PRE_DEV. rewrite Hty, Ht, Hhot.
      cbn [negb andb]. rewrite Hlen, (proj2 (Z.ltb_lt _ _)), (proj2 (Z.leb_le _ _)) by lia. done. }
    exists c, l. split; [exact Hs|]. split; [|done]. destruct (select_ok _ _ _ _ (proj1 Hf) Hs) as [Hok _]. apply ready_intro; [|done|exact (ready_list _ Hf)].
    by apply all_nodes_eq in Hok as [? _].
Qed.
Lemma set_option f type e a b c0 b' : ready h f -> cls h (class_of f) = Some (type, OptionContents e a b c0) ->
  exists c s, bt_field_option_set_has_field true h f b' = Some (OptionField c s b') /\ ready h (OptionField c s b') /\ c = common f /\ class_of s = e.
Proof.
  intros Hf Hc. pose proof (node_contents _ _ _ _ (proj1 Hf) Hc) as Hd. pose proof (ready_hot _ _ Hf) as Hhot. pose proof (field_type_is h _ _ _ Hc) as Hty.
  destruct f as [c []| |c s x| |]; try done; simpl in Hd. destruct Hd as [Ht Hs].
  assert (Hset : bt_field_option_set_has_field true h (OptionField c s x) b' = Some (OptionField c s b')).
  { unfold bt_field_option_set_has_field, BT_ASSERT_PRE_DEV_FIELD_TYPE, BT_ASSERT_PRE_DEV_FIELD_HOT, BT_ASSERT_PRE_DEV. by rewrite Hty, Ht, Hhot. }
  exists c, s. split; [exact Hset|]. split; [|done]. destruct (has_field_ok _ _ _ _ (proj1 Hf) Hset) as [Hok _]. apply ready_intro; [|done|exact (ready_list _ Hf)].
  by apply all_nodes_eq in Hok as [? _].
Qed.

(** There is room for the references of the fields that arrays need. *)
Definition roomy (n : nat) (e : addr) : Prop :=
  class_tree n h e /\ Forall (fun x => has_room h x (2 ^ 31 * Z.of_nat (length (created n h e)))) (created n h e).

Lemma length_concat_replicate {A} m (l : list A) : length (concat (replicate m l)) = (m * length l)%nat.
Proof. induction m as [|m IH]; [done|]. simpl. by rewrite length_app, IH. Qed.
Lemma create_elements debug n e m : roomy n e -> Z.of_nat m <= 2 ^ 31 ->
  exists fs h', create_all (bt_field_create debug n) (replicate m e) h = Some (fs, h') /\ class_of <$> fs = replicate m e /\ Forall (ready h) fs.
Proof.
  intros [Ht Hr] Hm. destruct (create_all_spec debug n (replicate m e) h) as (fs & Hfs & Hcl & Hok & Hnew & _).
  - intros h' x [-> _]%elem_of_replicate He Hroom. apply create_spec; [by eapply class_tree_eq|exact Hroom].
  - rewrite (fmap_replicate (created n h) m e : map _ _ = _). apply Forall_concat, Forall_replicate. eapply Forall_impl; [exact Hr|]. intros y Hy. eapply has_room_le; [exact Hy|].
    rewrite length_concat_replicate. nia.
  - do 2 eexists. split; [exact Hfs|]. split; [done|]. clear -Hok Hnew. apply Forall_lookup. intros i f Hi. eapply Forall_lookup_1 in Hok; [|exact Hi].
    eapply Forall_lookup_1 in Hnew; [|exact Hi]. split; [done|]. clear -Hnew. induction f using bt_field_induction; apply all_nodes_eq in Hnew as [(_ & Hf & _) Hl]; apply all_nodes_eq.
    all: split; [done|]; simpl in *; rewrite ?Forall_forall in *; intros x Hx; try (by apply elem_of_nil in Hx); try (by apply H; [|apply Hl]).
    apply list_elem_of_singleton in Hx as ->. apply IHf, Hl. by apply list_elem_of_singleton.
Qed.
Lemma set_length debug call n f type e x len : ready h f -> cls h (class_of f) = Some (type, DynamicArrayContents e x) -> roomy n e -> 0 <= len < 2 ^ 31 ->
  exists c l h', bt_field_array_dynamic_set_length true debug call n h f len = Some (ArrayField c l len, h') /\ ready h (ArrayField c l len) /\
    c = common f /\ class_of <$> l = replicate (length l) e /\ len <= Z.of_nat (length l).
Proof.
  intros Hf Hc Hroom Hn. pose proof (node_contents _ _ _ _ (proj1 Hf) Hc) as Hd. pose proof (ready_hot _ _ Hf) as Hhot. pose proof (field_type_is h _ _ _ Hc) as Hty.
  destruct f as [c []| | | |c l k]; try done; simpl in Hd. destruct Hd as (Ht & Hl & Hk). pose proof (ready_list _ Hf) as Hready. simpl in Hready.
  assert (Hnew : exists l' h', bt_field_array_dynamic_set_length true debug call n h (ArrayField c l k) len = Some (ArrayField c l' len, h') /\
                   Forall (ready h) l' /\ class_of <$> l' = replicate (length l') e /\ len <= Z.of_nat (length l')).
  { unfold bt_field_array_dynamic_set_length, BT_ASSERT_PRE_DEV_FIELD_TYPE, BT_ASSERT_PRE_DEV_FIELD_HOT, BT_ASSERT_PRE_DEV. rewrite Hty, Ht, Hhot. cbn [negb andb].
    destruct (Z.ltb_spec (Z.of_nat (length l)) len) as [Hlt|Hge]; [|do 2 eexists; split; [done|done]]. rewrite wraps_gint, (proj2 (Z.leb_le 0 len)) by lia.
    pose proof Hc as Hc'. apply get_cls in Hc' as (fc & Hfc & _ & Hdata). unfold class_of in Hfc. cbn [common] in Hfc. rewrite Hfc, Hdata. rewrite drop_ge, take_ge by lia. cbn [destroy_elements].
    destruct (create_elements debug n e (Z.to_nat len - length l) Hroom ltac:(lia)) as (fs & h' & -> & Hcl & Hok). do 2 eexists. split; [done|].
    assert (Hlen : length fs = (Z.to_nat len - length l)%nat) by (by rewrite <- (length_fmap class_of fs), Hcl, length_replicate).
    split; [by apply Forall_app|]. rewrite fmap_app, Hl, Hcl, length_app, Hlen, replicate_add. split; [done|lia]. }
  destruct Hnew as (l' & h' & Hset & Hl' & Hcl & Hlen). exists c, l', h'. split; [done|]. split; [|done]. apply ready_intro; [|done|done].
  exists type, (DynamicArrayContents e x). split; [done|]. split; [done|]. split; [done|lia].
Qed.
End reading.

(** The CTF message iterator in a scope: its state as the root field of the scope and the
    cursor, and what the handlers of the items of fields do to them. *)

Lemma bind_ret {S A B} (m : stateful S A) (k : A -> stateful S B) s s' x y : m s = (s', Ret x) -> k x s' = y -> bind m k s = y.
Proof. unfold bind. by intros -> <-. Qed.
Lemma assert_true {S} debug b (s : S) : b = true -> assert_dbg debug b s = (s, Ret tt).
Proof. intros ->. unfold assert_dbg. by rewrite andb_false_r. Qed.
Lemma of_option_some {S A} (o : option A) x (s : S) : o = Some x -> of_option o s = (s, Ret x).
Proof. by intros ->. Qed.

(** The next subfield. *)
Definition bump (fr : Frame) : Frame := FrameOf (fieldType fr) (frameScope fr) (framePath fr) (subFieldIndex fr + 1).
Definition next_frames (l : list Frame) : list Frame := match l with fr :: rest => bump fr :: rest | [] => [] end.
Definition go_next (cur : Cursor) : Cursor := with_frames (next_frames (frames cur)) cur.

Section focus.
Context `{CtfLib} `{Pools} `{TraceIr} (debug : bool).
Context (call : func -> addr -> ir -> option ir) (garbage : nat -> Z) (utf8_from : StrEncoding -> list Z -> option (list Z)).
Context (cfg : MsgIterCfg).
Context (sc : Scope) (ms0 : MsgIterState) (Hroot : is_Some (rootField ms0 sc)) (Hskip : skipItemsUntilScopeEndItem ms0 = false) (Hidle : idle ms0).
Abbreviation visit := (visitItem true debug call garbage utf8_from cfg).

(** The state whose root field and cursor are these. *)
Definition focus (root : bt_field) (cur : Cursor) : MsgIterState := with_cursor cur (with_rootField sc root ms0).

Lemma focus_root root cur : rootField (focus root cur) sc = Some root.
Proof.
  destruct Hroot as [f0 Hf]. unfold focus. destruct ms0. unfold rootField, with_rootField in *. simpl in *. destruct sc; try done; simpl in *.
  - by destruct curPkt.
  - destruct curMsg as [m|]; [|done]. simpl in *. by destruct (message_event m).
  - destruct curMsg as [m|]; [|done]. simpl in *. by destruct (message_event m).
  - destruct curMsg as [m|]; [|done]. simpl in *. by destruct (message_event m).
Qed.
Lemma focus_with_root root root' cur : with_rootField sc root' (focus root cur) = focus root' cur.
Proof.
  unfold focus. destruct ms0 as [? ? ? ? msg pkt]. unfold with_rootField. destruct sc; cbn; unfold with_curMsg, with_curPkt, with_cursor; cbn; f_equal;
    solve [by destruct pkt|by destruct msg as [[m p [e|]]|]].
Qed.
Lemma focus_cursor root cur : cursor (focus root cur) = cur.
Proof. done. Qed.
Lemma focus_with_cursor root cur cur' : with_cursor cur' (focus root cur) = focus root cur'.
Proof. done. Qed.
Lemma focus_same root cur : skipItemsUntilScopeEndItem (focus root cur) = false /\ idle (focus root cur).
Proof. unfold focus, idle in *. destruct ms0. unfold with_rootField. by destruct sc. Qed.

Lemma visit_focus i root cur : visit i (focus root cur) = handleItem true debug call garbage utf8_from cfg i (focus root cur).
Proof. unfold visitItem. eapply bind_ret; [reflexivity|]. by rewrite (proj1 (focus_same root cur)). Qed.

(** ** The current subfield *)

(** The current subfield of the frame is [s], at the position [p]. *)
Definition slot (root : bt_field) (cur : Cursor) (p : list nat) (s : bt_field) : Prop :=
  exists fr rest c i, frames cur = fr :: rest /\ frameScope fr = sc /\ p = framePath fr ++ [i] /\ field_at root (framePath fr) = Some c /\
    borrowSubField true debug fr c = Some i /\ subfields c !! i = Some s.

Lemma slot_at root cur p s : slot root cur p s -> field_at root p = Some s.
Proof. intros (fr & rest & c & i & _ & _ & -> & Hc & _ & Hs). by rewrite (field_at_app _ _ _ _ Hc). Qed.

Lemma get_focus root cur p f : field_at root p = Some f -> get_field sc p (focus root cur) = (focus root cur, Ret f).
Proof. intros Hf. unfold get_field. eapply bind_ret; [reflexivity|]. rewrite focus_root. by apply of_option_some. Qed.
Lemma change_focus root cur p s s' root' op : field_at root p = Some s -> op s = Some s' -> put root p s' = Some root' ->
  change_field sc p op (focus root cur) = (focus root' cur, Ret tt).
Proof.
  intros Hs Hop Hput. unfold change_field. eapply bind_ret; [reflexivity|]. rewrite focus_root. eapply bind_ret.
  - apply of_option_some. by rewrite (update_put root p op s s').
  - unfold modify. by rewrite focus_with_root.
Qed.
Lemma top_focus root cur p s : slot root cur p s -> stackTopCurSubField true debug (focus root cur) = (focus root cur, Ret (sc, p)).
Proof.
  intros (fr & rest & c & i & Hfr & Hsc & -> & Hc & Hb & Hs). unfold stackTopCurSubField. eapply bind_ret.
  { unfold stackTop. eapply bind_ret; [reflexivity|]. rewrite focus_cursor, Hfr. by apply of_option_some. }
  unfold curSubField. rewrite Hsc. eapply bind_ret; [by apply get_focus|]. eapply bind_ret; [by apply of_option_some|]. done.
Qed.
Lemma go_next_focus root cur : frames cur <> [] -> stackTopGoToNextSubField (focus root cur) = (focus root (go_next cur), Ret tt).
Proof.
  intros Hfr. unfold stackTopGoToNextSubField. destruct (frames cur) as [|fr rest] eqn:E; [done|]. eapply bind_ret.
  { unfold stackTop. eapply bind_ret; [reflexivity|]. rewrite focus_cursor, E. by apply of_option_some. }
  unfold on_cursor, modify. rewrite focus_cursor, focus_with_cursor. unfold go_next. by rewrite E.
Qed.
Lemma slot_frames root cur p s : slot root cur p s -> frames cur <> [].
Proof. by intros (fr & rest & c & i & -> & _). Qed.
Lemma top_next_focus root cur p s : slot root cur p s -> stackTopCurSubFieldAndGoToNextSubField true debug (focus root cur) = (focus root (go_next cur), Ret (sc, p)).
Proof.
  intros Hs. unfold stackTopCurSubFieldAndGoToNextSubField. eapply bind_ret; [by eapply top_focus|]. eapply bind_ret; [apply go_next_focus; by eapply slot_frames|]. done.
Qed.
Lemma set_next_focus root cur p s s' root' op : slot root cur p s -> op s = Some s' -> put root p s' = Some root' ->
  setNextSubField true debug op (focus root cur) = (focus root' (go_next cur), Ret tt).
Proof.
  intros Hs Hop Hput. unfold setNextSubField. eapply bind_ret; [by eapply top_next_focus|]. eapply change_focus; [by eapply slot_at|done|done].
Qed.
Lemma push_focus t root cur p f : field_at root p = Some f -> is_field_type t f = true ->
  pushField debug t sc p (focus root cur) = (focus root (with_frames (FrameOf t sc p 0 :: frames cur) cur), Ret tt).
Proof.
  intros Hf Ht. unfold pushField. eapply bind_ret; [by apply get_focus|]. eapply bind_ret; [by apply assert_true|]. done.
Qed.
Lemma pop_focus root cur fr rest : frames cur = fr :: rest -> stackPop (focus root cur) = (focus root (with_frames rest cur), Ret tt).
Proof.
  intros Hfr. unfold stackPop. eapply bind_ret.
  { unfold stackTop. eapply bind_ret; [reflexivity|]. rewrite focus_cursor, Hfr. by apply of_option_some. }
  unfold on_cursor, modify. by rewrite focus_cursor, focus_with_cursor, Hfr.
Qed.
End focus.
