(* ===== verification/MsgIterFields.v ===== *)
(** The CTF message iterator fills fields: the items of the field of a class, from a slot
    which has a field of the translation of the class, set this field to their values. *)

From stdpp Require Import list gmap.
From S2P Require Import Prelude Bitfield Object IrObj FieldClass FieldClassFacts Clock Field FieldFacts FieldOps FloatConv FieldClaims Msg MsgCreate.
From S2P Require Import MsgSeq CtfIr ItemBits ItemBitsFacts ItemState ItemSeq ItemSpec ItemSim ItemStep ItemFollow ItemFollowData CtfToIr MsgIter.
From S2P Require Import MsgIterSpec MsgIterAcc MsgIterField.

(** The translations of the members of a structure. *)
Fixpoint members_of (h : ir) (ms : list Fc) (l : list addr) : Prop :=
  match ms with
  | [] => l = []
  | m :: ms => if is_translated m then match l with [] => False | a :: l => translation h m a /\ members_of h ms l end else members_of h ms l
  end.
Lemma members_of_replicate h n e a : is_translated e = true -> translation h e a -> members_of h (replicate n e) (replicate n a).
Proof. intros He Ht. induction n as [|n IH]; [done|]. simpl. by rewrite He. Qed.
Lemma iter_fold data n e k : Nat.iter n (field data e) k = fold_right (field data) k (replicate n e).
Proof. induction n as [|n IH]; [done|]. simpl. by rewrite IH. Qed.

Lemma until_nul_app a b : until_nul (a ++ b) = if snd (until_nul a) then until_nul a else (fst (until_nul a) ++ fst (until_nul b), snd (until_nul b)).
Proof.
  induction a as [|x a IH]; simpl; [by destruct (until_nul b)|]. destruct (x =? 0); [done|]. rewrite IH. destruct (until_nul a) as [l []]; done.
Qed.
Lemma until_nul_no_nul a : no_nul (fst (until_nul a)).
Proof.
  induction a as [|x a IH]; simpl; [by apply List.Forall_nil|]. destruct (Z.eqb_spec x 0); [by apply List.Forall_nil|]. destruct (until_nul a). by apply List.Forall_cons.
Qed.
Lemma until_nul_length a : (length (fst (until_nul a)) <= length a)%nat.
Proof. induction a as [|x a IH]; simpl; [lia|]. destruct (x =? 0); simpl; [lia|]. destruct (until_nul a); simpl in *. lia. Qed.

Section fields.
Context `{CtfLib} `{Pools} `{TraceIr} (debug : bool).
Context (call : func -> addr -> ir -> option ir) (garbage : nat -> Z) (utf8_from : StrEncoding -> list Z -> option (list Z)).
Context (cfg : MsgIterCfg).
Context (sc : Scope) (ms0 : MsgIterState) (Hroot : is_Some (rootField ms0 sc)) (Hskip : skipItemsUntilScopeEndItem ms0 = false) (Hidle : idle ms0).
Context (data : list Z) (Hbytes : buf_wf 8 data) (Hsize : bits_of_data data <= 2 ^ 34).
Context (ph : phase) (prev : option PktInfo).
Context (Hroom : forall a type e x, cls ir_store a = Some (type, DynamicArrayContents e x) -> roomy ir_store class_depth e).
Abbreviation visit := (visitItem true debug call garbage utf8_from cfg).
Abbreviation focus := (focus sc ms0).
Abbreviation slot := (slot debug sc).
Abbreviation ready := (ready ir_store).
Abbreviation read := (read_field ir_store).
Abbreviation good root cur r pd x := (good debug call garbage utf8_from cfg (focus root cur) ph r pd prev x).

(** An item that changes the root field and the cursor. *)
Lemma good_item i root cur root' cur' r pd k p : is_raw_data i = false -> last_info prev i = prev ->
  (item_ok debug (stream_class (mStream cfg)) (stream_id (mStream cfg)) prev i = true ->
   handleItem true debug call garbage utf8_from cfg i (focus root cur) = (focus root' cur', Ret tt)) ->
  good root' cur' (read_item r i) (pd ++ tokens_of r i) (k p) -> good root cur r pd (emit i k p).
Proof.
  intros Hi Hl Hv Hg. destruct (focus_same sc ms0 Hroot Hskip Hidle root' cur') as [_ [? ?]]. eapply good_silent; try done; [|by rewrite Hl].
  intros Hok. rewrite visit_focus by done. by apply Hv.
Qed.

Lemma borrow_with fr c i s : borrowSubField true debug fr (with_subfield c i s) = borrowSubField true debug fr c.
Proof.
  unfold borrowSubField. destruct (fieldType fr), c; simpl; try done;
    unfold bt_field_structure_borrow_member_field_by_index, bt_field_array_borrow_element_field_by_index, BT_ASSERT_PRE_DEV_FIELD_TYPE, type_of; simpl; by rewrite ?length_insert.
Qed.
Lemma slot_put root cur p s s' root' cur' : slot root cur p s -> put root p s' = Some root' -> frames cur' = frames cur -> slot root' cur' p s'.
Proof.
  intros (fr & rest & c & i & Hfr & Hsc & -> & Hc & Hb & Hs) Hput Hcur. rewrite (put_app _ _ _ _ _ _ Hc Hs) in Hput.
  destruct (put_total _ _ _ (with_subfield c i s') Hc) as (f' & Hf' & Hat). assert (f' = root') as -> by congruence.
  exists fr, rest, (with_subfield c i s'), i. rewrite Hcur, borrow_with. repeat (split; [done|]). by eapply subfields_with_at.
Qed.
Lemma put_at root p s s' root' : field_at root p = Some s -> put root p s' = Some root' -> field_at root' p = Some s'.
Proof. intros Hs Hput. destruct (put_total _ _ _ s' Hs) as (f' & Hf' & Hat). congruence. Qed.

(** What comes after the field of a slot. *)
Definition then_ok (root : bt_field) (cur : Cursor) (p : list nat) (s : bt_field) (pd : list token) (p0 : Point) (k : rest) : Prop :=
  forall root' cur' r' p' ts s', shown r' = true -> keeps p0 p' -> put root p s' = Some root' -> ready s' -> class_of s' = class_of s ->
    read s' = Some ts -> frames cur' = next_frames (frames cur) -> curScopeField cur' = curScopeField cur -> good root' cur' r' (pd ++ ts) (k p').
Definition fills (fc : Fc) : Prop :=
  forall k r p0 root cur p s pd, shown r = true -> at_ok p0 -> slot root cur p s -> ready s -> translation ir_store fc (class_of s) ->
    then_ok root cur p s pd p0 k -> good root cur r pd (field data fc k p0).
Definition passes (fc : Fc) : Prop :=
  forall k r p0 root cur pd, shown r = true -> at_ok p0 ->
    (forall r' p', shown r' = true -> keeps p0 p' -> good root cur r' pd (k p')) -> good root cur r pd (field data fc k p0).

Ltac lax := first [apply good_lax | done | eassumption].

(** ** Fields without subfields *)

Lemma good_roles root cur r pd roles len v k p : hasRole PktMagicNumber roles = false -> at_ok p ->
  (forall p', keeps p p' -> good root cur r pd (k p')) -> good root cur r pd (with_roles roles len v None k p).
Proof.
  intros Hm Hp Hk. apply lax_with_roles; [done|]. intros i p' Hp' [->|[(c & ->)|(E & _)]]; [by apply Hk| |congruence].
  apply (good_item _ root cur root cur); try done. unfold tokens_of. simpl. destruct (shown r); rewrite app_nil_r; by apply Hk.
Qed.

(** The value of the field of the slot is set. *)
Lemma good_set i op t root cur r p s pd k p0 p1 : slot root cur p s -> shown r = true -> is_raw_data i = false -> last_info prev i = prev -> read_item r i = r ->
  tokens_of r i = [t] -> handleItem true debug call garbage utf8_from cfg i (focus root cur) = setNextSubField true debug op (focus root cur) ->
  sets ir_store op s t -> keeps p0 p1 ->
  (forall root' s', put root p s' = Some root' -> ready s' -> class_of s' = class_of s -> read s' = Some [t] -> good root' (go_next cur) r (pd ++ [t]) (k p1)) ->
  good root cur r pd (emit i k p1).
Proof.
  intros Hs Hr Hi Hl Hri Ht Hh (s' & Hop & Hs' & Hc & Hread) Hp Hk. destruct (put_total _ _ _ s' (slot_at _ _ _ _ _ _ Hs)) as (root' & Hput & _).
  apply (good_item _ root cur root' (go_next cur)); try done; [|rewrite Hri, Ht; by apply (Hk root' s')]. intros _. rewrite Hh. eapply set_next_focus; try done.
Qed.

Lemma tokens_shown r i : shown r = true -> tokens_of r i = item_tokens (string_bytes r) i.
Proof. unfold tokens_of. by intros ->. Qed.

(** A slot of which the value is set, then what is decoded after it. *)
Lemma set_then i op t root cur r p s pd p0 p1 (k k1 : rest) : slot root cur p s -> shown r = true -> is_raw_data i = false -> last_info prev i = prev -> read_item r i = r ->
  item_tokens (string_bytes r) i = [t] -> handleItem true debug call garbage utf8_from cfg i (focus root cur) = setNextSubField true debug op (focus root cur) ->
  sets ir_store op s t -> keeps p0 p1 -> then_ok root cur p s pd p0 k ->
  (forall root' cur' pd', (forall p2, keeps p1 p2 -> good root' cur' r pd' (k p2)) -> good root' cur' r pd' (k1 p1)) ->
  good root cur r pd (emit i k1 p1).
Proof.
  intros Hs Hr Hi Hl Hri Ht Hh Hset Hp Hk Hk1. eapply good_set; try done; [by rewrite tokens_shown|]. intros root' s' Hput Hs' Hc Hread. apply Hk1. intros p2 Hp2.
  eapply Hk; try done. by eapply keeps_trans.
Qed.
Lemma passes_uint i root cur r pd p0 p1 (k k1 : rest) : shown r = true -> is_raw_data i = false -> last_info prev i = prev -> read_item r i = r ->
  item_tokens (string_bytes r) i = [] -> handleItem true debug call garbage utf8_from cfg i (focus root cur) = (focus root cur, Ret tt) -> keeps p0 p1 ->
  (forall p2, keeps p0 p2 -> good root cur r pd (k p2)) -> ((forall p2, keeps p1 p2 -> good root cur r pd (k p2)) -> good root cur r pd (k1 p1)) ->
  good root cur r pd (emit i k1 p1).
Proof.
  intros Hr Hi Hl Hri Ht Hh Hp Hk Hk1. apply (good_item _ root cur root cur); try done. rewrite Hri, tokens_shown, Ht, app_nil_r by done. apply Hk1. intros p2 Hp2.
  apply Hk. by eapply keeps_trans.
Qed.

Lemma saved_then keys v root cur r pd p (k : rest) : at_ok p -> (forall p2, keeps p p2 -> good root cur r pd (k p2)) -> good root cur r pd (saved keys v k p).
Proof. intros Hp Hk. by apply lax_saved; [lax|..]. Qed.
Lemma saved_roles keys roles len v root cur r pd p (k : rest) : hasRole PktMagicNumber roles = false -> at_ok p -> (forall p2, keeps p p2 -> good root cur r pd (k p2)) ->
  good root cur r pd (saved keys v (with_roles roles len v None k) p).
Proof.
  intros Hm Hp Hk. apply lax_saved; [lax|done|]. intros p1 Hp1. apply good_roles; [done|apply Hp1|]. intros p2 Hp2. apply Hk. by eapply keeps_trans.
Qed.

Ltac handled Hft := cbn [handleItem]; unfold handleUIntFieldItem, handleSIntFieldItem, handleFixedLenBitArrayFieldItem, handleFixedLenBoolFieldItem, ignoreFieldItem; cbn [is_translated];
  rewrite ?Hft; try done.
Ltac set_field op t := eapply (set_then _ op t); [eassumption|done|done|done|done| | | |eassumption|eassumption|]; [try done|..].
Lemma fills_fixed f : fixed_ok f = true -> plain (FixedLenFc f) = true -> is_translated (FixedLenFc f) = true -> fills (FixedLenFc f).
Proof.
  intros Hf Hpl Ht k r p0 root cur p s pd Hr Hp0 Hs Hready (type & d & Hc & Htr) Hk. destruct (fixed_ok_inv f Hf) as [_ Hlen].
  cbn [field]. unfold fixed_field. cbn [is_translated plain] in *. destruct (fl_type f) eqn:Hft; (apply lax_fixed; [lax..|by apply reading_of_reads|]); intros v p1 Hp1 Hv.
  - destruct Htr as (-> & flags & ->). set_field (fun g => bt_field_bit_array_set_value_as_integer true ir_store g v) (TBits v); [handled Hft|by apply (sets_bits _ _ _ _ _ Hready Hc)|].
    intros ? ? ? Hk1. apply Hk1, keeps_self, Hp1.
  - destruct Htr as (-> & flags & ->). set_field (fun g => bt_field_bit_array_set_value_as_integer true ir_store g v) (TBits v); [handled Hft|by apply (sets_bits _ _ _ _ _ Hready Hc)|].
    intros ? ? ? Hk1. apply Hk1, keeps_self, Hp1.
  - destruct Htr as (-> & ->). set_field (fun g => bt_field_bool_set_value true ir_store g (negb (v =? 0))) (TBool (negb (v =? 0))); [handled Hft|by apply sets_bool|].
    intros ? ? ? Hk1. apply saved_then; [apply Hp1|done].
  - destruct Htr as [Hty ->]. destruct (len f =? 32) eqn:Hl.
    + set_field (fun g => bt_field_real_single_precision_set_value true ir_store g (float_of_double (float_val (len f =? 64) v))) (TReal (float_of_double (float_val (len f =? 64) v))).
      * cbn. by rewrite Hl.
      * cbn [handleItem]. unfold handleFixedLenFloatFieldItem. by rewrite Hl.
      * subst type. eapply sets_single; [done|exact Hc|]. assert (Hl' : (len f =? 64) = false) by lia. rewrite Hl'. unfold float_val.
        rewrite float_double_roundtrip; apply float_of_bits_valid.
      * intros ? ? ? Hk1. apply Hk1, keeps_self, Hp1.
    + assert (Hl' : (len f =? 64) = true). { unfold fixed_ok in Hf. rewrite Hft, Hl in Hf. lia. }
      set_field (fun g => bt_field_real_double_precision_set_value true ir_store g (float_val (len f =? 64) v)) (TReal (float_val (len f =? 64) v)).
      * cbn. by rewrite Hl.
      * cbn [handleItem]. unfold handleFixedLenFloatFieldItem. rewrite Hl. eapply bind_ret; [by apply assert_true|]. done.
      * subst type. by eapply sets_double.
      * intros ? ? ? Hk1. apply Hk1, keeps_self, Hp1.
  - set_field (fun g => bt_field_integer_unsigned_set_value true ir_store g v) (TInt v); [cbn; unfold if_translated; cbn; by rewrite Hft, Ht|handled Hft; by rewrite Ht|by apply (sets_integer _ false _ _ _ _ _ Hready Hc Htr)|].
    intros ? ? ? Hk1. apply saved_roles; [|apply Hp1|done]. by apply negb_true_iff.
  - set_field (fun g => bt_field_integer_signed_set_value true ir_store g v) (TInt v); [handled Hft|by apply (sets_integer _ true _ _ _ _ _ Hready Hc Htr)|].
    intros ? ? ? Hk1. apply saved_then; [apply Hp1|done].
Qed.
Lemma passes_fixed f : fixed_ok f = true -> plain (FixedLenFc f) = true -> is_translated (FixedLenFc f) = false -> passes (FixedLenFc f).
Proof.
  intros Hf Hpl Ht k r p0 root cur pd Hr Hp0 Hk. cbn [field]. unfold fixed_field. cbn [is_translated plain] in *. destruct (fl_type f) eqn:Hft; try done.
  apply lax_fixed; [lax..|by apply reading_of_reads|]. intros v p1 Hp1 _. eapply passes_uint; try done; [cbn; unfold if_translated; cbn; by rewrite Hft, Ht|handled Hft; by rewrite Ht|by intros; apply Hk|].
  intros Hk1. apply saved_roles; [by apply negb_true_iff|apply Hp1|done].
Qed.

Lemma var_len_uint_then roles keys root cur r pd p0 p1 (k : rest) : at_ok p1 -> keeps p0 p1 ->
  (forall v l p2, keeps p0 p2 -> 0 <= v < 2 ^ 64 -> good root cur r pd (emit (VarLenUIntFieldItem (VarLenUIntFc roles keys) v l) (saved keys v (with_roles roles l v None k)) p2)) ->
  good root cur r pd (var_len_uint data roles keys 0 0 k p1).
Proof.
  intros Hp Hp1 Hk. unfold var_len_uint. apply lax_var_int; [lax|done|lia|]. intros v l p2 Hp2 Hv. apply Hk; [by eapply keeps_trans|done].
Qed.
Lemma fills_var_len_uint roles keys : plain (VarLenUIntFc roles keys) = true -> is_translated (VarLenUIntFc roles keys) = true -> fills (VarLenUIntFc roles keys).
Proof.
  intros Hpl Ht k r p0 root cur p s pd Hr Hp0 Hs Hready (type & d & Hc & Htr) Hk. cbn [field is_translated plain] in *. apply lax_aligned; [lax|done|done|].
  intros p1 Hp1 _. eapply var_len_uint_then; [apply Hp1|done|]. intros v l p2 Hp2 Hv.
  set_field (fun g => bt_field_integer_unsigned_set_value true ir_store g v) (TInt v); [cbn; unfold if_translated; cbn; by rewrite Ht|handled Ht; by rewrite Ht|by apply (sets_integer _ false _ _ _ _ _ Hready Hc Htr)|].
  intros ? ? ? Hk1. apply saved_roles; [by apply negb_true_iff|apply Hp2|done].
Qed.
Lemma passes_var_len_uint roles keys : plain (VarLenUIntFc roles keys) = true -> is_translated (VarLenUIntFc roles keys) = false -> passes (VarLenUIntFc roles keys).
Proof.
  intros Hpl Ht k r p0 root cur pd Hr Hp0 Hk. cbn [field is_translated plain] in *. apply lax_aligned; [lax|done|done|].
  intros p1 Hp1 _. eapply var_len_uint_then; [apply Hp1|done|]. intros v l p2 Hp2 Hv.
  eapply passes_uint; try done; [cbn; unfold if_translated; cbn; by rewrite Ht|handled Ht; by rewrite Ht|by intros; apply Hk|].
  intros Hk1. apply saved_roles; [by apply negb_true_iff|apply Hp2|done].
Qed.
Lemma fills_var_len_sint keys : fills (VarLenSIntFc keys).
Proof.
  intros k r p0 root cur p s pd Hr Hp0 Hs Hready (type & d & Hc & Htr) Hk. cbn [field] in *. apply lax_aligned; [lax|done|done|].
  intros p1 Hp1 _. unfold var_len_sint. apply lax_var_int; [lax|apply Hp1|lia|]. intros v l p2 Hp2 Hv. pose proof (keeps_trans _ _ _ Hp1 Hp2) as Hp12.
  set_field (fun g => bt_field_integer_signed_set_value true ir_store g (wraps 64 v)) (TInt (wraps 64 v)); [handled Hk| |].
  - apply (sets_integer _ true _ _ _ _ _ Hready Hc Htr); [done|]. apply wraps_range. lia.
  - intros ? ? ? Hk1. apply saved_then; [apply Hp2|done].
Qed.

(** ** Strings *)

(** The state once the bytes [b] of the string of a slot are handled. *)
Definition in_string (root0 : bt_field) (cur0 : Cursor) (p : list nat) (s0 : bt_field) (b : list Z) (root : bt_field) (cur : Cursor) : Prop :=
  frames cur = frames cur0 /\ curScopeField cur = curScopeField cur0 /\ haveNullChar cur = snd (until_nul b) /\ curStrFieldEncoding cur = Utf8 /\
  exists s, put root0 p s = Some root /\ class_of s = class_of s0 /\ holds ir_store s (fst (until_nul b)).

Lemma str_begin cls root cur p s : slot root cur p s -> ready s -> encoding_of cls = Some Utf8 ->
  FieldFacts.cls ir_store (class_of s) = Some (BT_FIELD_CLASS_TYPE_STRING, NoContents) ->
  exists root' cur', handleStrFieldBeginItem true debug garbage cls (focus root cur) = (focus root' cur', Ret tt) /\ in_string root cur p s [] root' cur'.
Proof.
  intros Hs Hready He Hc. destruct (string_cleared _ garbage _ Hready Hc) as (s' & Hop & Hcl & Hholds). pose proof (slot_at _ _ _ _ _ _ Hs) as Hat.
  destruct (put_total _ _ _ s' Hat) as (root' & Hput & _). exists root', (CursorOf (frames cur) (curScopeField cur) false [] [] [] Utf8). split; [|by repeat split; [..|exists s']].
  unfold handleStrFieldBeginItem. eapply bind_ret; [by eapply top_focus|]. eapply bind_ret; [by eapply change_focus|]. eapply bind_ret; [by apply of_option_some|]. done.
Qed.
Lemma str_raw root0 cur0 p s0 b d root cur : slot root0 cur0 p s0 -> in_string root0 cur0 p s0 b root cur -> Z.of_nat (length (b ++ d)) + 1 < 2 ^ 32 ->
  exists root' cur', handleRawDataItem true debug garbage d (focus root cur) = (focus root' cur', Ret tt) /\ in_string root0 cur0 p s0 (b ++ d) root' cur'.
Proof.
  intros Hs (Hfr & Hsc & Hn & He & s & Hput & Hcl & Hh) Hlen. pose proof (slot_put _ _ _ _ _ _ _ Hs Hput Hfr) as Hs1. pose proof (slot_at _ _ _ _ _ _ Hs1) as Hat.
  destruct Hh as (Hready & Hc & c & buf & len & E & Hset & Hstr & Hw). assert (Hh : holds ir_store s (fst (until_nul b))) by (repeat split; try apply Hready; [done|by do 3 eexists]).
  assert (Hraw : handleRawDataItem true debug garbage d (focus root cur) = handleStrRawDataItem true debug garbage d (focus root cur)).
  { unfold handleRawDataItem. eapply bind_ret; [by eapply top_focus|]. eapply bind_ret; [by eapply get_focus|]. by rewrite E. }
  rewrite Hraw. unfold handleStrRawDataItem. unfold in_string. rewrite until_nul_app. destruct (snd (until_nul b)) eqn:Hb.
  - exists root, cur. split; [|rewrite Hb; by repeat split; [..|exists s]]. eapply bind_ret; [reflexivity|]. rewrite focus_cursor, Hn. done.
  - destruct (string_appended _ garbage s _ (fst (until_nul d)) Hh (until_nul_no_nul d)) as (s' & Hop & Hcl' & Hh').
    { pose proof (until_nul_length b). pose proof (until_nul_length d). rewrite length_app in Hlen. lia. }
    destruct (put_total _ _ _ s' Hat) as (root' & Hput' & _). exists root', (with_haveNullChar (snd (until_nul d)) cur). split.
    + eapply bind_ret; [reflexivity|]. rewrite focus_cursor, Hn, He. destruct (until_nul d) as [text found]. eapply bind_ret; [reflexivity|].
      unfold appendToString. unfold on_cursor, modify. rewrite focus_cursor, focus_with_cursor. eapply bind_ret; [eapply top_focus; try done; by eapply slot_put|].
      by eapply change_focus.
    + repeat split; try done. exists s'. split; [by rewrite <- (put_put _ _ _ _ _ Hput)|]. split; [by rewrite Hcl'|done].
Qed.
Lemma str_end root0 cur0 p s0 b root cur : slot root0 cur0 p s0 -> in_string root0 cur0 p s0 b root cur ->
  handleStrFieldEndItem true debug garbage utf8_from (focus root cur) = (focus root (go_next cur), Ret tt).
Proof.
  intros Hs (Hfr & Hsc & Hn & He & s & Hput & Hcl & Hh). pose proof (slot_put _ _ _ _ _ _ _ Hs Hput Hfr) as Hs1. unfold handleStrFieldEndItem.
  eapply bind_ret; [reflexivity|]. rewrite focus_cursor, He. eapply bind_ret; [reflexivity|]. apply go_next_focus; try done. by eapply slot_frames.
Qed.

Lemma good_raw b r root0 cur0 p s0 root cur pd k p1 : slot root0 cur0 p s0 -> in_string root0 cur0 p s0 [] root cur -> string_bytes r = [] -> Z.of_nat (length b) + 1 < 2 ^ 32 ->
  (forall r' root' cur', shown r' = shown r -> string_bytes r' = b -> in_string root0 cur0 p s0 b root' cur' -> good root' cur' r' pd (k p1)) ->
  good root cur r pd (emit (RawDataItem b) k p1).
Proof.
  intros Hs Hin Hr Hb Hk. unfold MsgIterAcc.good, emit. specialize (Hk (read_item r (RawDataItem b))). unfold MsgIterAcc.good in Hk. destruct (k p1) as [l st].
  cbn [fst snd items_ok item_ok last_info andb]. intros Hl Hst.
  exists (fun t ms => exists b1 root' cur', b = b1 ++ t /\ ms = focus root' cur' /\ in_string root0 cur0 p s0 b1 root' cur').
  split; [by exists [], root, cur|]. split; [|split].
  - intros d t ms (b1 & root' & cur' & -> & -> & Hin'). rewrite !length_app in Hb.
    destruct (str_raw _ _ _ _ _ d _ _ Hs Hin') as (root2 & cur2 & Hv & Hin2); [rewrite length_app; lia|]. unfold wps. rewrite visit_focus by done. cbn [handleItem]. rewrite Hv.
    exists (b1 ++ d), root2, cur2. by rewrite <- (assoc_L (++)).
  - intros t ms (b1 & root' & cur' & _ & -> & _). destruct (focus_same sc ms0 Hroot Hskip Hidle root' cur') as [_ Hi]. exact Hi.
  - intros ms (b1 & root' & cur' & E & -> & Hin'). rewrite app_nil_r in E. subst b1. apply (Hk root' cur'); try done. simpl. by rewrite Hr.
Qed.

Definition is_str_begin (i : Item) : bool :=
  match i with NullTerminatedStrFieldBeginItem _ | StaticLenStrFieldBeginItem _ | DynLenStrFieldBeginItem _ _ => true | _ => false end.
Definition is_str_end (i : Item) : bool :=
  match i with NullTerminatedStrFieldEndItem _ | StaticLenStrFieldEndItem _ | DynLenStrFieldEndItem _ => true | _ => false end.

(** The items of a string: [mid] gives the raw data, or nothing when there is none. *)
Lemma good_string cls i i' r root cur p s pd p0 p1 (mid : rest -> rest) (k : rest) :
  slot root cur p s -> ready s -> FieldFacts.cls ir_store (class_of s) = Some (BT_FIELD_CLASS_TYPE_STRING, NoContents) -> shown r = true ->
  encoding_of cls = Some Utf8 -> is_str_begin i = true -> handleItem true debug call garbage utf8_from cfg i = handleStrFieldBeginItem true debug garbage cls -> is_str_end i' = true ->
  keeps p0 p1 -> then_ok root cur p s pd p0 k ->
  (forall (k1 : rest) r1 root1 cur1, shown r1 = true -> string_bytes r1 = [] -> in_string root cur p s [] root1 cur1 ->
     (forall r2 root2 cur2 b p2, shown r2 = true -> string_bytes r2 = b -> in_string root cur p s b root2 cur2 -> keeps p1 p2 -> good root2 cur2 r2 pd (k1 p2)) ->
     good root1 cur1 r1 pd (mid k1 p1)) ->
  good root cur r pd (emit i (mid (emit i' k)) p1).
Proof.
  intros Hs Hready Hc Hr He Hi Hh Hi' Hp Hk Hmid. destruct (str_begin cls root cur p s Hs Hready He Hc) as (root1 & cur1 & Hv & Hin).
  apply (good_item _ root cur root1 cur1); [by destruct i|by destruct i|by intros; rewrite Hh|]. assert (Ht : tokens_of r i = []) by (unfold tokens_of; destruct (shown r), i; done).
  rewrite Ht, app_nil_r. apply Hmid; [by destruct i|by destruct i|done|]. intros r2 root2 cur2 b p2 Hr2 Hb Hin2 Hp2.
  apply (good_item _ root2 cur2 root2 (go_next cur2)); [by destruct i'|by destruct i'| |].
  { intros _. assert (E : handleItem true debug call garbage utf8_from cfg i' = handleStrFieldEndItem true debug garbage utf8_from) by (by destruct i').
    rewrite E. by eapply str_end. }
  assert (Hri : read_item r2 i' = r2) by (by destruct i', r2). assert (Ht2 : tokens_of r2 i' = [TString (fst (until_nul b))]).
  { rewrite tokens_shown by done. rewrite <- Hb. by destruct i'. }
  rewrite Hri, Ht2. destruct Hin2 as (Hfr & Hsc & _ & _ & s2 & Hput & Hcl & Hholds). eapply Hk; try done; [by eapply keeps_trans|by destruct Hholds|by apply holds_read|].
  unfold go_next. cbn [frames with_frames]. by rewrite Hfr.
Qed.

Lemma raw_content_good n (k : rest) r root0 cur0 p s0 root cur pd p1 : slot root0 cur0 p s0 -> in_string root0 cur0 p s0 [] root cur -> shown r = true -> string_bytes r = [] ->
  at_ok p1 -> 0 <= n ->
  (forall r2 root2 cur2 b p2, shown r2 = true -> string_bytes r2 = b -> in_string root0 cur0 p s0 b root2 cur2 -> keeps p1 p2 -> good root2 cur2 r2 pd (k p2)) ->
  good root cur r pd (raw_content data n k p1).
Proof.
  intros Hs Hin Hr Hb Hp Hn Hk. unfold raw_content. destruct (n =? 0); [by apply (Hk r root cur []); [..|apply keeps_self]|].
  apply lax_raw; [done..|lax|done|done|]. intros b Hlen _ Hle. eapply good_raw; try done; [rewrite Hlen; lia|]. intros r' root' cur' Hr' Hb' Hin'.
  eapply Hk; [congruence|exact Hb'|exact Hin'|]. apply keeps_advance; [lia|done].
Qed.

Lemma fills_strings fc : fc_ok fc = true -> plain fc = true -> match fc with NullTerminatedStrFc _ | StaticLenStrFc _ _ | DynLenStrFc _ _ => True | _ => False end -> fills fc.
Proof.
  intros Hok Hpl Hfc k r p0 root cur p s pd Hr Hp0 Hs Hready Htr Hk.
  destruct fc as [| | |e|e n|e ix| | | | | | |]; try done; destruct Htr as (type & d & Hc & -> & ->); destruct e; try done; cbn [field].
  - apply lax_aligned; [lax|done|done|]. intros p1 Hp1 _. eapply (good_string (NullTerminatedStrFc Utf8) _ _ r root cur p s pd p0 p1 (null_terminated data Utf8Units []) k); try done.
    intros k1 r1 root1 cur1 Hr1 Hb1 Hin1 Hk1. unfold null_terminated. destruct (snd (findNullCp _ _ _ _)) as [n|]; [|by destruct (_ <? 0); apply good_lax].
    apply lax_raw; [done..|lax|apply Hp1|lia|]. intros b Hlen _ Hle. eapply good_raw; try done; [rewrite Hlen; lia|]. intros r' root' cur' Hr' Hb' Hin'.
    eapply Hk1; [congruence|exact Hb'|exact Hin'|]. apply keeps_advance; [lia|apply Hp1].
  - apply lax_aligned; [lax|done|done|]. intros p1 Hp1 _. eapply (good_string (StaticLenStrFc Utf8 n) _ _ r root cur p s pd p0 p1 (raw_content data n) k); try done.
    intros k1 r1 root1 cur1 Hr1 Hb1 Hin1 Hk1. eapply raw_content_good; try done; [apply Hp1|]. simpl in Hok. unfold u64 in Hok. lia.
  - apply lax_with_saved; [lax|done|]. intros n Hn. unfold from_bytes. destruct (_ || _); [|by apply good_lax]. apply lax_aligned; [lax|done|done|]. intros p1 Hp1 _.
    eapply (good_string (DynLenStrFc Utf8 ix) _ _ r root cur p s pd p0 p1 (raw_content data n) k); try done.
    intros k1 r1 root1 cur1 Hr1 Hb1 Hin1 Hk1. eapply raw_content_good; try done. apply Hp1.
Qed.
End fields.

(** The CTF message iterator fills the fields with subfields, then any field: from a slot of
    the translation of the class, and from the root field of a scope. *)

Section trees.
Context `{CtfLib} `{Pools} `{TraceIr} (debug : bool).
Context (call : func -> addr -> ir -> option ir) (garbage : nat -> Z) (utf8_from : StrEncoding -> list Z -> option (list Z)).
Context (cfg : MsgIterCfg).
Context (sc : Scope) (ms0 : MsgIterState) (Hroot : is_Some (rootField ms0 sc)) (Hskip : skipItemsUntilScopeEndItem ms0 = false) (Hidle : idle ms0).
Context (data : list Z) (Hbytes : buf_wf 8 data) (Hsize : bits_of_data data <= 2 ^ 34).
Context (ph : phase) (prev : option PktInfo).
Context (Hroom : forall a type e x, cls ir_store a = Some (type, DynamicArrayContents e x) -> roomy ir_store class_depth e).
Abbreviation focus := (focus sc ms0).
Abbreviation slot := (slot debug sc).
Abbreviation ready := (ready ir_store).
Abbreviation read := (read_field ir_store).
Abbreviation good root cur r pd x := (good debug call garbage utf8_from cfg (focus root cur) ph r pd prev x).
Abbreviation fills := (fills debug call garbage utf8_from cfg sc ms0 data ph prev).
Abbreviation passes := (passes debug call garbage utf8_from cfg sc ms0 data ph prev).
Abbreviation then_ok := (then_ok debug call garbage utf8_from cfg sc ms0 ph prev).
Abbreviation handle := (handleItem true debug call garbage utf8_from cfg).
Ltac lax := first [apply good_lax | done | eassumption].

(** ** The subfields of a field *)

(** The container of the frame, with subfields. *)
Definition container (t : FieldType) (path : list nat) (n : Z) (mk : list bt_field -> bt_field) : Prop :=
  (forall l, subfields (mk l) = l) /\ (forall l i s, with_subfield (mk l) i s = mk (<[i := s]> l)) /\
  (forall l i, (i < length l)%nat -> Z.of_nat i < n -> borrowSubField true debug (FrameOf t sc path (Z.of_nat i)) (mk l) = Some i).

(** What comes after the subfields [l2]. *)
Definition loop_ok (t : FieldType) (path : list nat) (mk : list bt_field -> bt_field) (l1 l2 l3 : list bt_field) (rest : list Frame)
    (root : bt_field) (cur : Cursor) (pd : list token) (p0 : Point) (k : ItemSpec.rest) : Prop :=
  forall root' cur' r' p' l2' ts, shown r' = true -> keeps p0 p' -> put root path (mk (l1 ++ l2' ++ l3)) = Some root' ->
    Forall ready l2' -> class_of <$> l2' = class_of <$> l2 -> read_list ir_store l2' = Some ts ->
    frames cur' = FrameOf t sc path (Z.of_nat (length (l1 ++ l2))) :: rest -> curScopeField cur' = curScopeField cur -> good root' cur' r' (pd ++ ts) (k p').

Lemma good_loop t path n mk ms : container t path n mk -> Forall (fun m => if is_translated m then fills m else passes m) ms ->
  forall l1 l2 l3 rest root cur r pd p0 k, shown r = true -> at_ok p0 -> members_of ir_store ms (class_of <$> l2) -> Forall ready l2 ->
    Z.of_nat (length (l1 ++ l2)) <= n -> frames cur = FrameOf t sc path (Z.of_nat (length l1)) :: rest -> field_at root path = Some (mk (l1 ++ l2 ++ l3)) ->
    loop_ok t path mk l1 l2 l3 rest root cur pd p0 k -> good root cur r pd (fold_right (field data) k ms p0).
Proof.
  intros (Hsub & Hwith & Hborrow) Hms. induction Hms as [|m ms Hm Hms IH]; intros l1 l2 l3 rest root cur r pd p0 k Hr Hp0 Hl2 Hready Hn Hfr Hat Hk; cbn [fold_right members_of] in *.
  - apply fmap_nil_inv in Hl2 as ->. cbn [app] in *. rewrite app_nil_r in *. rewrite <- (app_nil_r pd).
    apply (Hk root cur r p0 [] []); try done; [by apply put_same|by rewrite app_nil_r].
  - destruct (is_translated m).
    + destruct l2 as [|s l2]; [done|]. cbn [fmap list_fmap] in Hl2. destruct Hl2 as [Htr Hl2]. apply Forall_cons in Hready as [Hs Hready].
      assert (Hslot : slot root cur (path ++ [length l1]) s).
      { exists (FrameOf t sc path (Z.of_nat (length l1))), rest, (mk (l1 ++ (s :: l2) ++ l3)), (length l1). repeat (split; [done|]). rewrite Hsub. rewrite length_app in Hn. simpl in Hn.
        split; [apply Hborrow; [rewrite length_app; simpl; lia|lia]|]. by apply list_lookup_middle. }
      eapply Hm; try done. intros root1 cur1 r1 p1 ts s1 Hr1 Hp1 Hput1 Hs1 Hc1 Hread1 Hfr1 Hsc1.
      assert (Hput : put root path (mk ((l1 ++ [s1]) ++ l2 ++ l3)) = Some root1).
      { rewrite <- Hput1. symmetry. rewrite (put_app root path (length l1) (mk (l1 ++ (s :: l2) ++ l3)) s); [|done|rewrite Hsub; by apply list_lookup_middle].
        rewrite Hwith. do 2 f_equal. rewrite <- (assoc_L (++)). cbn [app]. replace (length l1) with (length l1 + 0)%nat by lia. by rewrite insert_app_r. }
      apply (IH (l1 ++ [s1]) l2 l3 rest root1 cur1 r1 _ p1); try done; [apply Hp1| | |by eapply put_at|].
      * rewrite !length_app in *. simpl in *. lia.
      * rewrite Hfr1, Hfr. cbn [next_frames]. unfold bump. cbn. do 2 f_equal. rewrite length_app. simpl. lia.
      * intros root2 cur2 r2 p2 l2' ts2 Hr2 Hp2 Hput2 Hl2' Hc2 Hread2 Hfr2 Hsc2. rewrite <- (assoc_L (++)).
        apply (Hk root2 cur2 r2 p2 (s1 :: l2') (ts ++ ts2)); try done; [by eapply keeps_trans|rewrite <- (put_put _ _ _ _ _ Hput), <- Hput2; by rewrite <- (assoc_L (++))|by apply Forall_cons| | | |congruence].
        -- rewrite !fmap_cons. congruence.
        -- cbn [read_list]. by rewrite Hread1, Hread2.
        -- rewrite Hfr2. do 3 f_equal. rewrite !length_app. simpl. lia.
    + apply Hm; [done|done|]. intros r1 p1 Hr1 Hp1. apply (IH l1 l2 l3 rest); try done; [apply Hp1|]. intros root2 cur2 r2 p2 l2' ts2 Hr2 Hp2. apply Hk; [done|by eapply keeps_trans].
Qed.

Lemma type_of_common f c : common f = c -> type_of ir_store f = (do x <- get_fc ir_store (field_class c); Some (fc_type x)).
Proof. intros <-. done. Qed.
Lemma structure_container c d path n : cls ir_store (field_class c) = Some (BT_FIELD_CLASS_TYPE_STRUCTURE, d) -> container StructFrame path n (StructureField c).
Proof.
  intros Hc. split; [done|]. split; [done|]. intros l i Hi _. pose proof (field_type_is ir_store (StructureField c l) _ _ Hc) as Ht. unfold borrowSubField. cbn [fieldType subFieldIndex].
  unfold bt_field_structure_borrow_member_field_by_index, BT_ASSERT_PRE_DEV_FIELD_TYPE, BT_ASSERT_PRE_DEV, dbg. rewrite Ht.
  rewrite (proj2 (Z.ltb_lt _ _)), (proj2 (Z.leb_le _ _)), Nat2Z.id by lia. by destruct debug.
Qed.
Lemma array_container c type d path n : cls ir_store (field_class c) = Some (type, d) -> is_array_type type = true -> container ArrayFrame path n (fun l => ArrayField c l n).
Proof.
  intros Hc Hty. split; [done|]. split; [done|]. intros l i Hi Hn. pose proof (field_type_is ir_store (ArrayField c l n) _ _ Hc) as Ht. unfold borrowSubField. cbn [fieldType subFieldIndex].
  unfold bt_field_array_borrow_element_field_by_index, BT_ASSERT_PRE_DEV_FIELD_TYPE, BT_ASSERT_PRE_DEV, dbg. rewrite Ht, Hty.
  rewrite !(proj2 (Z.ltb_lt _ _)), (proj2 (Z.leb_le _ _)), Nat2Z.id by lia. by destruct debug.
Qed.

(** The items of the subfields, between those that begin and end the field. *)
Definition push (t : FieldType) (p : list nat) (cur : Cursor) : Cursor := with_frames (FrameOf t sc p 0 :: frames (go_next cur)) (go_next cur).
Definition is_field_item (i : Item) : bool :=
  match i with
  | StructFieldBeginItem _ | StaticLenArrayFieldBeginItem _ | DynLenArrayFieldBeginItem _ _ | VariantFieldBeginItem _ _ _ _ | OptionalFieldBeginItem _ _ _ _
  | StructFieldEndItem _ | StaticLenArrayFieldEndItem _ | DynLenArrayFieldEndItem _ | VariantFieldEndItem _ _ | OptionalFieldEndItem _ _ => true
  | _ => false
  end.
Definition is_end_item (i : Item) : bool :=
  match i with StructFieldEndItem _ | StaticLenArrayFieldEndItem _ | DynLenArrayFieldEndItem _ | VariantFieldEndItem _ _ | OptionalFieldEndItem _ _ => true | _ => false end.
Lemma field_item i r : is_field_item i = true -> is_raw_data i = false /\ last_info prev i = prev /\ read_item r i = r.
Proof. by destruct i. Qed.

Lemma good_end i' root cur fr rest r pd k p : is_end_item i' = true -> frames cur = fr :: rest -> shown r = true -> good root (with_frames rest cur) r pd (k p) ->
  good root cur r pd (emit i' k p).
Proof.
  intros Hi' Hfr Hr Hk. destruct (field_item i' r) as (? & ? & Hri); [by destruct i'|]. eapply (good_item); try done.
  - intros _. assert (E : handle i' = stackPop) by (by destruct i'). rewrite E. by eapply pop_focus.
  - assert (Ht : tokens_of r i' = []) by (unfold tokens_of; destruct (shown r), i'; done). by rewrite Ht, app_nil_r, Hri.
Qed.

(** The container [mk l] is put in the slot, then the loop. *)
Lemma good_container t n mk ms i i' root cur r p s pd p0 p1 k l2 l3 tk root1 : slot root cur p s -> shown r = true -> is_field_item i = true -> is_end_item i' = true ->
  tokens_of r i = tk -> put root p (mk (l2 ++ l3)) = Some root1 ->
  (item_ok debug (stream_class (mStream cfg)) (stream_id (mStream cfg)) prev i = true -> handle i (focus root cur) = (focus root1 (push t p cur), Ret tt)) ->
  container t p n mk -> Forall (fun m => if is_translated m then fills m else passes m) ms ->
  members_of ir_store ms (class_of <$> l2) -> ready (mk (l2 ++ l3)) -> Z.of_nat (length l2) <= n -> keeps p0 p1 ->
  (forall l2' ts, Forall ready l2' -> class_of <$> l2' = class_of <$> l2 -> read_list ir_store l2' = Some ts ->
     ready (mk (l2' ++ l3)) /\ class_of (mk (l2' ++ l3)) = class_of s /\ read (mk (l2' ++ l3)) = Some (tk ++ ts)) ->
  then_ok root cur p s pd p0 k -> good root cur r pd (emit i (fold_right (field data) (emit i' k) ms) p1).
Proof.
  intros Hs Hr Hi Hi' Htk Hput Hh Hcont Hms Hmem Hready Hn Hp Hmk Hk. destruct (field_item i r Hi) as (? & ? & Hri). eapply (good_item); try done.
  rewrite Hri, Htk. pose proof (slot_at _ _ _ _ _ _ Hs) as Hat. pose proof (ready_list _ _ Hready) as Hl. destruct Hcont as (Hsub & Hcont). rewrite Hsub in Hl. apply Forall_app in Hl as [Hl2 Hl3].
  eapply (good_loop t p n mk ms (conj Hsub Hcont) Hms [] l2 l3); try done; [apply Hp|by eapply put_at|].
  intros root2 cur2 r2 p2 l2' ts Hr2 Hp2 Hput2 Hl2' Hc2 Hread2 Hfr2 Hsc2. eapply good_end; try done.
  destruct (Hmk l2' ts Hl2' Hc2 Hread2) as (Hready2 & Hcl2 & Hrd2). rewrite <- (assoc_L (++)). eapply Hk; try done; [by eapply keeps_trans|].
  by rewrite <- (put_put _ _ _ _ _ Hput).
Qed.

(** ** Structures, arrays, options and variants *)

Lemma begin_push t root cur p s : slot root cur p s -> is_field_type t s = true ->
  bind (stackTopCurSubFieldAndGoToNextSubField true debug) (fun p => pushField debug t (fst p) (snd p)) (focus root cur) = (focus root (push t p cur), Ret tt).
Proof.
  intros Hs Ht. eapply bind_ret; [by eapply top_next_focus|]. eapply push_focus; try done. by eapply slot_at.
Qed.
Lemma begin_change t root cur p s op s' root' : slot root cur p s -> op s = Some s' -> put root p s' = Some root' -> is_field_type t s' = true ->
  bind (stackTopCurSubFieldAndGoToNextSubField true debug) (fun p => bind (change_field (fst p) (snd p) op) (fun _ => pushField debug t (fst p) (snd p))) (focus root cur) =
    (focus root' (push t p cur), Ret tt).
Proof.
  intros Hs Hop Hput Ht. pose proof (slot_at _ _ _ _ _ _ Hs) as Hat. eapply bind_ret; [by eapply top_next_focus|]. eapply bind_ret; [by eapply change_focus|].
  eapply push_focus; try done. by eapply put_at.
Qed.

Lemma translation_members ms (l : list addr) :
  (fix members (ms : list Fc) (l : list addr) : Prop :=
     match ms with
     | [] => l = []
     | m :: ms => if is_translated m then match l with [] => False | a :: l => translation ir_store m a /\ members ms l end else members ms l
     end) ms l = members_of ir_store ms l.
Proof. revert l. induction ms as [|m ms IH]; intros l; [done|]. cbn [members_of]. rewrite <- IH. by destruct (is_translated m), l; rewrite ?IH. Qed.

Lemma ready_members_change c l l' : ready (StructureField c l) -> Forall ready l' -> class_of <$> l' = class_of <$> l -> ready (StructureField c l').
Proof.
  intros Hr Hl Hc. apply ready_intro; [|exact (ready_hot _ _ Hr)|done]. apply ready_node in Hr as (type & d & Hcls & Hd). exists type, d. split; [done|].
  simpl in *. destruct d; try done. by rewrite Hc.
Qed.
Lemma ready_array_change c l l' n : ready (ArrayField c l n) -> Forall ready l' -> class_of <$> l' = class_of <$> l -> ready (ArrayField c l' n).
Proof.
  intros Hr Hl Hc. apply ready_intro; [|exact (ready_hot _ _ Hr)|done]. apply ready_node in Hr as (type & d & Hcls & Hd). exists type, d. split; [done|].
  assert (E : length l' = length l) by (by rewrite <- (length_fmap class_of l'), Hc, length_fmap). simpl in *. by destruct d; rewrite ?Hc, ?E.
Qed.

(** The fields that the members of a structure fill. *)
Lemma fills_struct ms a : fc_ok (StructFc ms a) = true -> Forall (fun m => if is_translated m then fills m else passes m) ms -> fills (StructFc ms a).
Proof.
  intros Hok Hms k r p0 root cur p s pd Hr Hp0 Hs Hready (type & d & Hc & -> & Hd) Hk. destruct (ready_structure _ _ _ _ Hready Hc eq_refl) as (c & l & ->).
  cbn [field]. apply lax_aligned; [lax|done|by apply pow2_pos, align_pow2|]. intros p1 Hp1 _. destruct d as [| | | |names nfs x| | |]; try done. rewrite translation_members in Hd.
  pose proof (ready_members _ _ _ _ _ _ Hready Hc) as Hmem. cbn [subfields] in Hmem. rewrite <- Hmem in Hd.
  eapply (good_container StructFrame (Z.of_nat (length l)) (StructureField c) ms _ _ root cur r p _ pd p0 p1 k l [] []); try done.
  - unfold tokens_of. by destruct (shown r).
  - rewrite app_nil_r. apply put_same. by eapply slot_at.
  - intros _. cbn [handleItem]. unfold handleStructFieldBeginItem. eapply bind_ret; [reflexivity|]. rewrite focus_cursor. pose proof (slot_frames _ _ _ _ _ _ Hs). destruct (frames cur) eqn:Hfr; [done|].
    by apply (begin_push _ _ _ _ _ Hs).
  - by eapply structure_container.
  - by rewrite app_nil_r.
  - intros l2' ts Hl2' Hc2 Hread. rewrite app_nil_r. split; [by eapply ready_members_change|]. split; [done|]. by rewrite read_structure.
Qed.

Lemma good_not_ok i root cur r pd k p : is_raw_data i = false -> item_ok debug (stream_class (mStream cfg)) (stream_id (mStream cfg)) prev i = false -> good root cur r pd (emit i k p).
Proof. intros Hi E. apply MsgIterAcc.good_emit; [done|]. congruence. Qed.

Lemma good_elements e i i' root cur r p s pd p0 p1 k c l l3 n root1 : slot root cur p s -> shown r = true -> is_field_item i = true -> is_end_item i' = true ->
  tokens_of r i = [TLength n] -> put root p (ArrayField c (l ++ l3) n) = Some root1 ->
  (item_ok debug (stream_class (mStream cfg)) (stream_id (mStream cfg)) prev i = true -> handle i (focus root cur) = (focus root1 (push ArrayFrame p cur), Ret tt)) ->
  fills e -> is_translated e = true -> (exists a, translation ir_store e a /\ class_of <$> l = replicate (length l) a) -> ready (ArrayField c (l ++ l3) n) ->
  (exists type d, cls ir_store (field_class c) = Some (type, d) /\ is_array_type type = true) -> n = Z.of_nat (length l) -> field_class c = class_of s -> keeps p0 p1 ->
  then_ok root cur p s pd p0 k -> good root cur r pd (emit i (Nat.iter (Z.to_nat n) (field data e) (emit i' k)) p1).
Proof.
  intros Hs Hr Hi Hi' Htk Hput Hh He Het (a & Ha & Hl) Hready (type & d & Hc & Hty) Hn Hcl Hp Hk. rewrite iter_fold.
  eapply (good_container ArrayFrame n (fun l => ArrayField c l n) _ i i' root cur r p s pd p0 p1 k l l3 [TLength n] root1); try done.
  - by eapply array_container.
  - apply Forall_replicate. by rewrite Het.
  - rewrite Hl, Hn, Nat2Z.id. by apply members_of_replicate.
  - lia.
  - intros l2' ts Hl2' Hc2 Hread. assert (E : length l2' = length l) by (by rewrite <- (length_fmap class_of l2'), Hc2, length_fmap).
    split; [|split; [done|]].
    + pose proof (ready_list _ _ Hready) as Hl'. simpl in Hl'. apply Forall_app in Hl' as [_ Hl3]. eapply ready_array_change; [exact Hready|by apply Forall_app|]. by rewrite !fmap_app, Hc2.
    + rewrite read_array by (rewrite length_app; lia). rewrite Hn, Nat2Z.id, <- E, take_app_length, Hread. by rewrite E.
Qed.
Lemma fills_static_array e n a : fc_ok (StaticLenArrayFc e n a false) = true -> is_translated e = true -> fills e -> fills (StaticLenArrayFc e n a false).
Proof.
  intros Hok Het He k r p0 root cur p s pd Hr Hp0 Hs Hready (type & d & Hc & -> & Hd) Hk. destruct d as [| | | | |a0 len| |]; try done. destruct Hd as [Htr ->].
  destruct (static_array _ _ _ _ _ Hready Hc) as (c & l & -> & Hl & Hn). cbn [field]. apply lax_aligned; [lax|done|by apply pow2_pos, align_pow2|]. intros p1 Hp1 _.
  eapply (good_elements e _ _ root cur r p _ pd p0 p1 k c l [] n root); try done; rewrite ?app_nil_r; try done.
  - by rewrite tokens_shown.
  - apply put_same. by eapply slot_at.
  - intros _. by apply (begin_push _ _ _ _ _ Hs).
  - exists a0. split; [done|]. by rewrite Hl, Hn, Nat2Z.id.
  - by do 2 eexists.
Qed.
Lemma fills_dyn_array e a ix : fc_ok (DynLenArrayFc e a ix) = true -> is_translated e = true -> fills e -> fills (DynLenArrayFc e a ix).
Proof.
  intros Hok Het He k r p0 root cur p s pd Hr Hp0 Hs Hready (type & d & Hc & Hty & Hd) Hk. destruct d as [| | | | | |a0 x|]; try done.
  cbn [field]. apply lax_with_saved; [lax|done|]. intros n Hn. apply lax_aligned; [lax|done|by apply pow2_pos, align_pow2|]. intros p1 Hp1 _.
  destruct (Z.ltb_spec n (2 ^ 31)) as [Hlt|Hge]; [|apply good_not_ok; [done|by apply Z.ltb_ge]].
  destruct (set_length _ debug call class_depth s _ _ _ n Hready Hc (Hroom _ _ _ _ Hc) (conj Hn Hlt)) as (c & l & h' & Hset & Hready' & -> & Hl & Hlen).
  destruct (put_total _ _ _ (ArrayField (common s) l n) (slot_at _ _ _ _ _ _ Hs)) as (root1 & Hput & _). pose proof (take_drop (Z.to_nat n) l) as Htd.
  assert (Htake : length (take (Z.to_nat n) l) = Z.to_nat n) by (rewrite length_take; lia).
  eapply (good_elements e _ _ root cur r p s pd p0 p1 k (common s) (take (Z.to_nat n) l) (drop (Z.to_nat n) l) n root1); try done; rewrite ?Htd; try done.
  - by rewrite tokens_shown.
  - intros _. eapply begin_change; try done. by rewrite Hset.
  - exists a0. split; [done|]. rewrite Htake, fmap_take, Hl, take_replicate. f_equal. lia.
  - exists type, (DynamicArrayContents a0 x). split; [exact Hc|]. unfold is_array_type. by rewrite Hty, orb_true_r.
  - rewrite Htake. lia.
Qed.

Lemma good_child t e i i' root cur r p s pd p0 p1 k f1 root1 j s1 tk : slot root cur p s -> shown r = true -> is_field_item i = true -> is_end_item i' = true ->
  tokens_of r i = tk -> put root p f1 = Some root1 -> handle i (focus root cur) = (focus root1 (push t p cur), Ret tt) ->
  borrowSubField true debug (FrameOf t sc p 0) f1 = Some j -> subfields f1 !! j = Some s1 -> fills e -> translation ir_store e (class_of s1) -> ready f1 -> class_of f1 = class_of s ->
  keeps p0 p1 -> (forall s2 ts, read s2 = Some ts -> read (with_subfield f1 j s2) = Some (tk ++ ts)) ->
  then_ok root cur p s pd p0 k -> good root cur r pd (emit i (field data e (emit i' k)) p1).
Proof.
  intros Hs Hr Hi Hi' Htk Hput Hh Hb Hj He Htr Hready Hcl Hp Hread Hk. destruct (field_item i r Hi) as (? & ? & Hri). eapply (good_item); try done.
  rewrite Hri, Htk. pose proof (slot_at _ _ _ _ _ _ Hs) as Hat. pose proof (put_at _ _ _ _ _ Hat Hput) as Hat1.
  eapply (He _ r p1 root1 (push t p cur) (p ++ [j]) s1); try done; [apply Hp| |by eapply ready_subfield|].
  { exists (FrameOf t sc p 0), (frames (go_next cur)), f1, j. by repeat (split; [done|]). }
  intros root2 cur2 r2 p2 ts s2 Hr2 Hp2 Hput2 Hs2 Hc2 Hread2 Hfr2 Hsc2. cbn in Hfr2. eapply good_end; try done.
  rewrite (put_app _ _ _ _ _ _ Hat1 Hj), (put_put _ _ _ _ _ Hput) in Hput2. rewrite <- (assoc_L (++)). eapply Hk; try done.
  - by eapply keeps_trans.
  - by eapply ready_with.
  - unfold class_of in *. by rewrite common_with.
  - by apply Hread.
Qed.

Lemma fills_option sel e rs ix : is_translated e = true -> fills e -> fills (OptionalFc sel e rs ix).
Proof.
  intros Het He k r p0 root cur p s pd Hr Hp0 Hs Hready (type & d & Hc & Hty & Hd) Hk. destruct d as [| | | | | | |a0 x y z]; try done.
  cbn [field]. apply lax_with_saved; [lax|done|]. intros v Hv. cbv zeta. set (b := isEnabledBySelVal _ _ _).
  destruct (set_option _ s _ _ _ _ _ b Hready Hc) as (c & s1 & Hset & Hready' & -> & Hs1).
  destruct (put_total _ _ _ (OptionField (common s) s1 b) (slot_at _ _ _ _ _ _ Hs)) as (root1 & Hput & _).
  assert (Hh : handle (OptionalFieldBeginItem sel (OptionalFc sel e rs ix) (sel_val sel v) b) (focus root cur) = (focus root1 (push OptionFrame p cur), Ret tt)).
  { by eapply begin_change. }
  assert (Ht : tokens_of r (OptionalFieldBeginItem sel (OptionalFc sel e rs ix) (sel_val sel v) b) = [THasField b]) by (by rewrite tokens_shown).
  destruct b.
  - eapply (good_child OptionFrame e _ _ root cur r p s pd p0 p0 k _ root1 0%nat s1 [THasField true]); try done.
    + unfold borrowSubField. cbn [fieldType subFieldIndex]. unfold bt_field_option_borrow_field, BT_ASSERT_PRE_DEV_FIELD_TYPE, BT_ASSERT_PRE_DEV, dbg.
      rewrite (field_type_is ir_store (OptionField (common s) s1 true) _ _ Hc), Hty. by destruct debug.
    + by rewrite Hs1.
    + intros s2 ts Hread. cbn [with_subfield]. rewrite bool_decide_eq_true_2 by done. cbn [read_field]. by rewrite Hread.
  - eapply good_item; try done. rewrite Ht. eapply good_end; try done. eapply Hk; try done.
Qed.

Lemma translation_options opts (l : list addr) : forallb (fun o : Fc * IntRangeSet => is_translated (fst o)) opts = true ->
  (fix options (opts : list (Fc * IntRangeSet)) (l : list addr) : Prop :=
     match opts with
     | [] => l = []
     | (e, _) :: opts => if is_translated e then match l with [] => False | a :: l => translation ir_store e a /\ options opts l end else options opts l
     end) opts l -> Forall2 (fun o a => translation ir_store (fst o) a) opts l.
Proof.
  revert l. induction opts as [|[e rs] opts IH]; intros l Ht Hl; [by subst|]. simpl in Ht. apply andb_true_iff in Ht as [He Ht]. rewrite He in Hl. destruct l as [|a l]; [done|].
  destruct Hl as [? Hl]. constructor; [done|by apply IH].
Qed.
Lemma fills_variant sel opts ix : forallb (fun o => is_translated (fst o)) opts = true -> Forall (fun o => fills (fst o)) opts -> fills (VariantFc sel opts ix).
Proof.
  intros Het Hopts k r p0 root cur p s pd Hr Hp0 Hs Hready (type & d & Hc & Hty & Hd) Hk. destruct d as [| | | |names nfs x| | |]; try done.
  apply translation_options in Hd; [|done]. cbn [field]. apply lax_with_saved; [lax|done|]. intros v Hv. cbv zeta.
  set (w := sel_val sel v). generalize (VariantFc sel opts ix) as fc. intros fc.
  assert (Hall : forall post pre, opts = pre ++ post -> good root cur r pd
    ((fix option_at (opts : list (Fc * IntRangeSet)) (i : nat) : rest :=
         match opts with
         | [] => ends Failed
         | (e, ranges) :: opts =>
           if contains ranges w then emit (VariantFieldBeginItem sel fc w i) (field data e (emit (VariantFieldEndItem sel fc) k))
           else option_at opts (S i)
         end) post (length pre) p0)); [|by apply (Hall opts [])].
  induction post as [|[e rs] post IH]; intros pre E; [by apply good_lax|]. destruct (contains rs w).
  2:{ replace (S (length pre)) with (length (pre ++ [(e, rs)])) by (rewrite length_app; simpl; lia). apply IH. by rewrite E, <- (assoc_L (++)). }
  assert (Hlook : opts !! length pre = Some (e, rs)) by (rewrite E; by apply list_lookup_middle). clear IH. set (i := length pre) in *.
  destruct (Forall2_lookup_l _ _ _ _ _ Hd Hlook) as (a & Ha & Htr). cbn [fst] in Htr. eapply Forall_lookup_1 in Hopts as He; [|exact Hlook]. cbn [fst] in He.
  assert (Hi : (i < length nfs)%nat) by (apply lookup_lt_Some in Ha; by rewrite length_fmap in Ha).
  destruct (select_option _ s _ _ _ _ (Z.of_nat i) Hready Hc Hty ltac:(lia)) as (c & l & Hset & Hready' & -> & ->).
  destruct (put_total _ _ _ (VariantField (common s) (subfields s) true (Z.of_nat i)) (slot_at _ _ _ _ _ _ Hs)) as (root1 & Hput & _).
  pose proof (ready_members _ _ _ _ _ _ Hready Hc) as Hmem. assert (Hs1 : exists s1, subfields s !! i = Some s1 /\ class_of s1 = a).
  { rewrite <- Hmem, list_lookup_fmap in Ha. destruct (subfields s !! i) as [s1|]; [|done]. injection Ha as <-. by eexists. }
  destruct Hs1 as (s1 & Hs1 & Hc1).
  eapply (good_child VariantFrame e _ _ root cur r p s pd p0 p0 k _ root1 i s1 [TSelected (Z.of_nat i)]); try done.
  - by rewrite tokens_shown.
  - by eapply begin_change.
  - unfold borrowSubField. cbn [fieldType subFieldIndex]. unfold bt_field_variant_borrow_selected_option_field, BT_ASSERT_PRE_DEV_FIELD_TYPE, BT_ASSERT_PRE_DEV, dbg.
    rewrite (field_type_is ir_store (VariantField (common s) (subfields s) true (Z.of_nat i)) _ _ Hc), Hty. cbn [has_selected_field negb andb]. rewrite Nat2Z.id. by destruct debug.
  - by rewrite Hc1.
  - intros s2 ts Hread. cbn [with_subfield]. rewrite (read_variant _ _ _ _ s2); [by rewrite Hread|lia|]. rewrite Nat2Z.id. apply list_lookup_insert_eq. by eapply lookup_lt_Some.
Qed.

(** Every class that is plain. *)
Lemma fills_field fc : fc_ok fc = true -> plain fc = true -> if is_translated fc then fills fc else passes fc.
Proof.
  induction fc as [f|roles keys|keys|e|e n|e ix|n u|ix|ms' a IH|e n a u IH|e a ix IH|sel e rs ix IH|sel opts ix IH] using Fc_nested_ind; intros Hok Hpl.
  - destruct (is_translated _) eqn:Ht; [by apply fills_fixed|by apply passes_fixed].
  - destruct (is_translated _) eqn:Ht; [by apply fills_var_len_uint|by apply passes_var_len_uint].
  - by apply fills_var_len_sint.
  - by apply fills_strings.
  - by apply fills_strings.
  - by apply fills_strings.
  - done.
  - done.
  - cbn [is_translated]. apply fills_struct; [done|]. simpl in Hok, Hpl. rewrite !andb_true_iff in Hok. destruct Hok as [_ Hok].
    clear -IH Hok Hpl. induction IH as [|m ms Hm Hms IH']; [constructor|]. simpl in Hok, Hpl. apply andb_true_iff in Hok as [? ?], Hpl as [? ?]. constructor; [by apply Hm|by apply IH'].
  - simpl in Hpl. rewrite !andb_true_iff in Hpl. destruct Hpl as (((Hpl & Het) & Hu) & Hn). destruct u; [done|]. cbn [is_translated] in *. rewrite Het in *.
    apply fills_static_array; [done|done|]. apply IH; [|done]. simpl in Hok. rewrite !andb_true_iff in Hok. tauto.
  - simpl in Hpl. rewrite !andb_true_iff in Hpl. destruct Hpl as (Hpl & Het). cbn [is_translated] in *. rewrite Het in *.
    apply fills_dyn_array; [done|done|]. apply IH; [|done]. simpl in Hok. rewrite !andb_true_iff in Hok. tauto.
  - simpl in Hpl. rewrite !andb_true_iff in Hpl. destruct Hpl as (Hpl & Het). cbn [is_translated] in *. rewrite Het in *. apply fills_option; [done|]. by apply IH.
  - simpl in Hok, Hpl. assert (Ht : forallb (fun o => is_translated (fst o)) opts = true).
    { clear -Hpl. induction opts as [|o opts IH]; [done|]. simpl in *. rewrite !andb_true_iff in Hpl. destruct Hpl as [[_ ->] Hpl]. by apply IH. }
    assert (Hf : Forall (fun o => fills (fst o)) opts).
    { clear Ht. induction IH as [|[e rs] opts He Hopts IH']; [constructor|]. simpl in Hok, Hpl, He. apply andb_true_iff in Hok as [Hok1 Hok2]. apply andb_true_iff in Hpl as [[Hpl1 Het]%andb_true_iff Hpl2].
      rewrite Het in He. constructor; [by apply He|by apply IH']. }
    destruct (is_translated (VariantFc sel opts ix)) eqn:Htr; [by apply fills_variant|]. destruct opts as [|[e rs] opts]; [|simpl in Ht, Htr; destruct (is_translated e); done].
    intros k r p0 root cur pd Hr Hp0 Hk. cbn [field]. apply lax_with_saved; [lax|done|]. intros v Hv. by apply good_lax.
Qed.
End trees.
