(* ===== verification/MsgIterPackets.v ===== *)
(** The CTF message iterator handles scopes, packets and event records: the scopes that it
    fills or skips, the messages that it creates, and the items that are not fields. *)

From stdpp Require Import list gmap.
From S2P Require Import Prelude Bitfield Object IrObj FieldClass FieldClassFacts Clock Field FieldFacts FieldOps FieldClaims Msg MsgCreate MsgSeq CtfIr.
From S2P Require Import ItemBits ItemBitsFacts ItemState ItemSeq ItemSpec ItemSim ItemStep ItemFollow ItemFollowData CtfToIr MsgIter MsgIterSpec.
From S2P Require Import MsgIterAcc MsgIterField MsgIterFields.

(** The CTF message iterator handles scopes: those of which the fields are in messages, and
    those that it skips. *)

(** Between scopes. *)
Definition clean (cur : Cursor) : Prop := frames cur = [] /\ curScopeField cur = None.
Definition calm (s : MsgIterState) : Prop := idle s /\ skipItemsUntilScopeEndItem s = false /\ clean (cursor s).

Lemma with_rootField_same sc root s : rootField s sc = Some root -> with_rootField sc root s = s.
Proof.
  destruct s as [? ? ? ? msg pkt ? ? ? ? ? ? ? ?]. unfold rootField, with_rootField. destruct sc; try done; cbn; intros Hr; unfold with_curMsg, with_curPkt; cbn; f_equal.
  - destruct pkt as [[p f]|]; [|done]. simpl in *. by rewrite Hr.
  - destruct msg as [[m p [[e1 e2 e3]|]]|]; try done. simpl in *. by rewrite Hr.
  - destruct msg as [[m p [[e1 e2 e3]|]]|]; try done. simpl in *. by rewrite Hr.
  - destruct msg as [[m p [[e1 e2 e3]|]]|]; try done. simpl in *. by rewrite Hr.
Qed.

Lemma with_skip_same s : skipItemsUntilScopeEndItem s = false -> with_skipItemsUntilScopeEndItem false s = s.
Proof. destruct s. simpl. by intros ->. Qed.

Section scopes.
Context `{CtfLib} `{Pools} `{TraceIr} (debug : bool).
Context (call : func -> addr -> ir -> option ir) (garbage : nat -> Z) (utf8_from : StrEncoding -> list Z -> option (list Z)).
Context (cfg : MsgIterCfg).
Context (data : list Z) (Hbytes : buf_wf 8 data) (Hsize : bits_of_data data <= 2 ^ 34).
Context (ph : phase) (prev : option PktInfo).
Context (Hroom : forall a type e x, cls ir_store a = Some (type, DynamicArrayContents e x) -> roomy ir_store class_depth e).
Abbreviation ready := (ready ir_store).
Abbreviation read := (read_field ir_store).
Abbreviation good s r pd x := (good debug call garbage utf8_from cfg s ph r pd prev x).
Abbreviation visit := (visitItem true debug call garbage utf8_from cfg).
Abbreviation handle := (handleItem true debug call garbage utf8_from cfg).
Ltac lax := first [apply good_lax | done | eassumption].

Lemma visit_calm i s : skipItemsUntilScopeEndItem s = false -> visit i s = handle i s.
Proof. intros Hs. unfold visitItem. eapply bind_ret; [reflexivity|]. by rewrite Hs. Qed.

(** An item which changes the state without a message. *)
Lemma good_to i s s' r pd k p : is_raw_data i = false -> last_info prev i = prev -> skipItemsUntilScopeEndItem s = false -> handle i s = (s', Ret tt) -> idle s' ->
  tokens_of r i = [] -> good s' (read_item r i) pd (k p) -> good s r pd (emit i k p).
Proof.
  intros Hi Hl Hs Hv [Hd Hq] Ht Hk. apply (good_silent _ _ _ _ _ i s s'); try done; [by intros; rewrite visit_calm|]. by rewrite Ht, app_nil_r, Hl.
Qed.

Lemma scope_begin sc root s : scope_shown sc = true -> calm s -> rootField s sc = Some root ->
  handle (ScopeBeginItem sc) s = (with_cursor (with_curScopeField (Some sc) (cursor s)) s, Ret tt).
Proof.
  intros Hsc ([Hd Hq] & Hs & Hf & Hn) Hr. cbn [handleItem]. unfold handleScopeBeginItem. eapply bind_ret; [reflexivity|].
  rewrite (bool_decide_eq_true_2 _ Hf), (bool_decide_eq_true_2 _ Hn). eapply bind_ret; [reflexivity|]. eapply bind_ret; [reflexivity|].
  assert (E : beginScope sc s = (with_cursor (with_curScopeField (Some sc) (cursor s)) s, Ret tt)); [|by destruct sc].
  unfold beginScope. eapply bind_ret; [reflexivity|].
  assert (Ha : match sc with PktCtx => bool_decide (is_Some (curPkt s)) | _ => bool_decide (is_Some (curMsg s)) end = true).
  { destruct sc; try done; unfold rootField in Hr; [destruct (curPkt s)|destruct (curMsg s)..]; done. }
  eapply bind_ret; [unfold assert; by rewrite Ha|]. rewrite Hr. done.
Qed.
Lemma scope_end sc s : frames (cursor s) = [] ->
  handle (ScopeEndItem sc) s = (with_skipItemsUntilScopeEndItem false (with_cursor (with_curScopeField None (cursor s)) s), Ret tt).
Proof.
  intros Hf. cbn [handleItem]. unfold handleScopeEndItem. eapply bind_ret; [reflexivity|]. eapply bind_ret; [apply assert_true; by apply bool_decide_eq_true_2|].
  eapply bind_ret; [reflexivity|]. done.
Qed.

(** A scope of which the fields are in messages. *)
Lemma good_scope sc fc s root r p pd k : scope_shown sc = true -> calm s -> rootField s sc = Some root -> ready root -> translation ir_store fc (class_of root) ->
  fc_ok fc = true -> plain_scope (Some fc) = true -> at_ok p ->
  (forall root' cur' r' p' ts, shown r' = false -> keeps p p' -> ready root' -> class_of root' = class_of root -> read root' = Some ts -> clean cur' ->
     good (focus sc s root' cur') r' (pd ++ ts) (k p')) ->
  good s r pd (scope_field data sc (Some fc) k p).
Proof.
  intros Hsc Hcalm Hr Hready Htr Hok Hpl Hp Hk. pose proof Hcalm as (Hidle & Hskip & Hf & Hn). assert (Hroot : is_Some (rootField s sc)) by (by rewrite Hr).
  destruct fc as [| | | | | | | |ms a| | | |]; try done. cbn [scope_field plain_scope] in *.
  set (cur1 := with_curScopeField (Some sc) (cursor s)). assert (Hs1 : with_cursor cur1 s = focus sc s root cur1) by (unfold focus; by rewrite (with_rootField_same sc root s)).
  eapply (good_to _ s (with_cursor cur1 s)); try done; [unfold cur1; by apply (scope_begin sc root)|by unfold tokens_of; destruct (shown r)|]. rewrite Hs1.
  assert (Hsh : shown (read_item r (ScopeBeginItem sc)) = true) by done. generalize dependent (read_item r (ScopeBeginItem sc)). clear r. intros r Hsh.
  destruct Htr as (type & d & Hc & -> & Hd). destruct (ready_structure _ _ _ _ Hready Hc eq_refl) as (c & l & ->). destruct d as [| | | |names nfs x| | |]; try done.
  rewrite translation_members in Hd. pose proof (ready_members _ _ _ _ _ _ Hready Hc) as Hmem. cbn [subfields] in Hmem. rewrite <- Hmem in Hd.
  cbn [field]. apply lax_aligned; [lax|done|by apply pow2_pos, align_pow2|]. intros p1 Hp1 _.
  set (cur2 := with_frames [FrameOf StructFrame sc [] 0] cur1).
  eapply (good_item _ _ _ _ _ sc s Hroot Hskip Hidle ph prev _ _ cur1 (StructureField c l) cur2); try done.
  { intros _. cbn [handleItem]. unfold handleStructFieldBeginItem. eapply bind_ret; [reflexivity|]. rewrite focus_cursor. cbn [frames cur1 with_curScopeField]. rewrite Hf.
    eapply bind_ret; [by apply of_option_some|]. rewrite (push_focus debug sc s Hroot Hskip Hidle StructFrame _ cur1 [] (StructureField c l)) by done. unfold cur2. by rewrite (Hf : frames cur1 = []). }
  assert (Ht : tokens_of r (StructFieldBeginItem (StructFc ms a)) = []) by (unfold tokens_of; by destruct (shown r)). rewrite Ht, app_nil_r.
  eapply (good_loop debug call garbage utf8_from cfg sc s Hskip data ph prev StructFrame [] (Z.of_nat (length l)) (StructureField c) ms) with (l1 := []) (l2 := l) (l3 := []); try done.
  - by eapply structure_container.
  - simpl in Hok, Hpl. rewrite !andb_true_iff in Hok. destruct Hok as [_ Hok]. clear -Hok Hpl Hbytes Hsize Hroom Hroot Hskip Hidle. induction ms as [|m ms IH]; [constructor|].
    simpl in Hok, Hpl. apply andb_true_iff in Hok as [? ?], Hpl as [? ?]. constructor; [|by apply IH]. by apply fills_field.
  - apply Hp1.
  - exact (ready_list _ _ Hready).
  - cbn. by rewrite app_nil_r.
  - intros root3 cur3 r3 p3 l3 ts Hr3 Hp3 Hput3 Hl3 Hc3 Hread3 Hfr3 Hsc3. rewrite app_nil_r in Hput3. cbn [app] in Hput3. injection Hput3 as <-.
    eapply good_end; try done. eapply (good_to _ _ (focus sc s (StructureField c l3) (with_curScopeField None (with_frames [] cur3)))); try done.
    + apply (focus_same sc s Hroot Hskip Hidle).
    + rewrite scope_end by done. f_equal. apply with_skip_same. apply (focus_same sc s Hroot Hskip Hidle).
    + apply (focus_same sc s Hroot Hskip Hidle).
    + unfold tokens_of. by destruct (shown r3).
    + eapply Hk; try done; [by eapply keeps_trans|by eapply ready_members_change].
Qed.

(** A scope that is skipped: of a header, or of a packet context that has no field. *)
Lemma skipped_scope_end sc s : calm s -> handle (ScopeEndItem sc) (with_skipItemsUntilScopeEndItem true s) = (s, Ret tt).
Proof.
  intros (_ & Hs & Hf & Hn). rewrite scope_end by (by destruct s). f_equal. destruct s as [? ? cur ? ? ? ? ? ? ? ? ? ? ?]. simpl in *. subst. destruct cur. simpl in *. by subst.
Qed.
Lemma good_hidden_scope sc fc s r p pd k : scope_shown sc = false -> calm s -> match fc with Some fc => fc_ok fc = true | None => True end -> at_ok p ->
  (forall r' p', keeps p p' -> good s r' pd (k p')) -> good s r pd (scope_field data sc fc k p).
Proof.
  intros Hsc Hcalm Hok Hp Hk. destruct fc as [fc|]; [|by apply Hk, keeps_self]. cbn [scope_field]. pose proof Hcalm as (Hidle & Hskip & Hf & Hn).
  set (s1 := with_skipItemsUntilScopeEndItem true s). assert (Hidle1 : idle s1) by (by destruct s).
  eapply (good_to _ s s1); try done.
  { cbn [handleItem]. unfold handleScopeBeginItem. eapply bind_ret; [reflexivity|]. rewrite (bool_decide_eq_true_2 _ Hf), (bool_decide_eq_true_2 _ Hn).
    eapply bind_ret; [reflexivity|]. eapply bind_ret; [reflexivity|]. by destruct sc. }
  { unfold tokens_of. by destruct (shown r). }
  eapply (hide_field debug call garbage utf8_from cfg data Hbytes Hsize s1); try done. intros r1 p1 Hr1 Hp1.
  eapply (good_silent _ _ _ _ _ _ s1 s); try done; [|apply Hidle|apply Hidle|].
  - intros _. unfold visitItem. eapply bind_ret; [reflexivity|]. rewrite orb_true_r. by apply skipped_scope_end.
  - assert (Ht : tokens_of r1 (ScopeEndItem sc) = []) by (unfold tokens_of; by rewrite Hr1). rewrite Ht, app_nil_r. by apply Hk.
Qed.

(** The members that have no field. *)
Lemma skip_untranslated s r pd p ms k : skipItemsUntilScopeEndItem s = true -> idle s -> forallb fc_ok ms = true -> forallb plain ms = true -> existsb is_translated ms = false ->
  at_ok p -> (forall p', keeps p p' -> good s r pd (k p')) -> good s r pd (fold_right (field data) k ms p).
Proof.
  intros Hs Hidle. revert p. induction ms as [|m ms IH]; intros p Hok Hpl Ht Hp Hk; cbn [fold_right]; [by apply Hk, keeps_self|].
  simpl in Hok, Hpl, Ht. apply andb_true_iff in Hok as [Hok1 Hok2]. apply andb_true_iff in Hpl as [Hpl1 Hpl2]. apply orb_false_iff in Ht as [Ht1 Ht2].
  assert (Hm : forall k, (forall p', keeps p p' -> good s r pd (k p')) -> good s r pd (field data m k p)); [|by apply Hm; intros p1 Hp1; apply IH; try done; [apply Hp1|intros p2 Hp2; apply Hk; by eapply keeps_trans]].
  clear Hk IH. intros k1 Hk. assert (Hroles : forall roles keys len v p1 p2, hasRole PktMagicNumber roles = false -> keeps p p1 -> keeps p1 p2 -> good s r pd (saved keys v (with_roles roles len v None k1) p2)).
  { intros roles keys len v p1 p2 Hm Hp1 Hp2. apply lax_saved; [lax|apply Hp2|]. intros p3 Hp3. apply lax_with_roles; [apply Hp3|]. intros i p4 Hp4 [->|[(c & ->)|(E & _)]]; [| |congruence].
    - apply Hk. eauto using keeps_trans.
    - eapply good_ignored; try done; [by apply visit_skipped|unfold tokens_of; by destruct (shown r)|]. apply Hk. eauto using keeps_trans. }
  destruct m as [f|roles keys|keys|e|e n|e ix|n u|ix|ms' a|e n a u|e a ix|sel e rs ix|sel opts ix]; try done; cbn [field is_translated plain] in *.
  - unfold fixed_field. destruct (fl_type f) eqn:Hft; try done. apply lax_fixed; [lax..|by apply reading_of_reads|]. intros v p1 Hp1 _.
    eapply good_ignored; try done; [by apply visit_skipped| |apply (Hroles _ _ _ _ p1 p1); [by apply negb_true_iff|done|apply keeps_self, Hp1]].
    unfold tokens_of. cbn. unfold if_translated. cbn. rewrite Hft, Ht1. by destruct (shown r).
  - apply lax_aligned; [lax|done|done|]. intros p1 Hp1 _. unfold var_len_uint. apply lax_var_int; [lax|apply Hp1|lia|]. intros v l p2 Hp2 Hv.
    eapply good_ignored; try done; [by apply visit_skipped| |apply (Hroles _ _ _ _ p1 p2); [by apply negb_true_iff|done|done]].
    unfold tokens_of. cbn. unfold if_translated. cbn. rewrite Ht1. by destruct (shown r).
  - simpl in Ht1, Hpl1. rewrite !andb_true_iff in Hpl1. destruct Hpl1 as [[[_ E] _] _]. congruence.
  - simpl in Ht1, Hpl1. rewrite !andb_true_iff in Hpl1. destruct Hpl1 as [_ E]. congruence.
  - simpl in Ht1, Hpl1. rewrite !andb_true_iff in Hpl1. destruct Hpl1 as [_ E]. congruence.
  - apply lax_with_saved; [lax|done|]. intros v Hv. destruct opts as [|[e rs] opts]; [by apply good_lax|].
    simpl in Ht1, Hpl1. destruct (is_translated e); [done|]. by rewrite andb_false_r in Hpl1.
Qed.
Lemma good_skipped_context ms a s r p pd k : calm s -> is_Some (curPkt s) -> rootField s PktCtx = None -> fc_ok (StructFc ms a) = true -> plain (StructFc ms a) = true ->
  existsb is_translated ms = false -> at_ok p -> (forall r' p', shown r' = false -> keeps p p' -> good s r' pd (k p')) ->
  good s r pd (scope_field data PktCtx (Some (StructFc ms a)) k p).
Proof.
  intros Hcalm Hpkt Hroot Hok Hpl Ht Hp Hk. cbn [scope_field]. pose proof Hcalm as (Hidle & Hskip & Hf & Hn).
  set (s1 := with_skipItemsUntilScopeEndItem true s). assert (Hidle1 : idle s1) by (by destruct s). assert (Hskip1 : skipItemsUntilScopeEndItem s1 = true) by (by destruct s).
  eapply (good_to _ s s1); try done.
  { cbn [handleItem]. unfold handleScopeBeginItem. eapply bind_ret; [reflexivity|]. rewrite (bool_decide_eq_true_2 _ Hf), (bool_decide_eq_true_2 _ Hn).
    eapply bind_ret; [reflexivity|]. eapply bind_ret; [reflexivity|]. unfold beginScope. eapply bind_ret; [reflexivity|]. rewrite (bool_decide_eq_true_2 _ Hpkt).
    eapply bind_ret; [reflexivity|]. by rewrite Hroot. }
  { unfold tokens_of. by destruct (shown r). }
  assert (Hsilent : forall i r, match i with StructFieldBeginItem _ | StructFieldEndItem _ => True | _ => False end -> visit i s1 = (s1, Ret tt) /\ tokens_of r i = [] /\ read_item r i = r).
  { intros i r0 Hi. split; [apply visit_skipped; [done|by destruct i]|]. unfold tokens_of. destruct i; try done; by destruct (shown r0). }
  cbn [field]. apply lax_aligned; [lax|done|by apply pow2_pos, align_pow2|]. intros p1 Hp1 _. generalize (read_item r (ScopeBeginItem PktCtx)). intros r1.
  destruct (Hsilent (StructFieldBeginItem (StructFc ms a)) r1 I) as (? & ? & Hr1). eapply good_ignored; try done. rewrite Hr1.
  simpl in Hok, Hpl. rewrite !andb_true_iff in Hok. destruct Hok as [_ Hok]. apply skip_untranslated; try done; [apply Hp1|]. intros p2 Hp2.
  destruct (Hsilent (StructFieldEndItem (StructFc ms a)) r1 I) as (? & ? & Hr1'). eapply good_ignored; try done. rewrite Hr1'.
  eapply (good_silent _ _ _ _ _ _ s1 s); try done; [|apply Hidle|apply Hidle|].
  - intros _. unfold visitItem. eapply bind_ret; [reflexivity|]. rewrite orb_true_r. by apply skipped_scope_end.
  - assert (E : tokens_of r1 (ScopeEndItem PktCtx) = []) by (unfold tokens_of; by destruct (shown r1)). rewrite E, app_nil_r. apply Hk; [done|by eapply keeps_trans].
Qed.
End scopes.

(** The messages that the CTF message iterator creates: the preconditions of the library are
    satisfied, and the messages follow the rules. *)

(** The state of the iterator between items, once the information of the packet is [info]. *)
Definition state_of (cur : Cursor) (msg : option CtfMessage) (pkt : option Packet) (clk : option Z) (info : option PktInfo) (emitted delay : bool) (n : nat) : MsgIterState :=
  MsgIterStateOf false [] cur false msg pkt (info ≫= seqNum) clk (info ≫= discErCounterSnap) (info ≫= beginDefClkVal) (info ≫= endDefClkVal) emitted delay n.

Section messages.
Context `{CtfLib} `{Pools} `{TraceIr} (debug : bool).
Context (cfg : MsgIterCfg).
Abbreviation c := (stream_class (mStream cfg)).
Context (Hclass : class_ok c = true).
Abbreviation time_ok := (time_ok debug c).

Lemma class_supports : supports_packets c = true.
Proof. unfold class_ok in Hclass. by apply andb_true_iff in Hclass as [? _]. Qed.
Lemma class_clock : packets_have_beginning_default_clock_snapshot c = true \/ packets_have_end_default_clock_snapshot c = true \/
  discarded_events_have_default_clock_snapshots c = true \/ discarded_packets_have_default_clock_snapshots c = true -> exists cc, default_clock_class c = Some cc.
Proof.
  unfold class_ok in Hclass. apply andb_true_iff in Hclass as [_ Hc]. intros Hor.
  destruct (default_clock_class c) as [cc|]; [by exists cc|]. exfalso. revert Hc. destruct Hor as [->|[->|[->| ->]]]; rewrite ?orb_true_r; done.
Qed.
Lemma has_true b o : has b o = true -> b = bool_decide (is_Some o).
Proof. unfold has. by intros ->%Bool.eqb_prop. Qed.

(** A snapshot of the default clock. *)
Lemma snapshot_ok v cc : time_ok (Some v) = true -> default_clock_class c = Some cc -> exists cs, new_snapshot debug cc v = Some cs.
Proof. unfold MsgIterSpec.time_ok. intros Ht Hc. rewrite Hc in Ht. apply bool_decide_eq_true in Ht as [cs Hcs]. by exists cs. Qed.

Lemma packet_message (is_end : bool) p v : packet_stream p = mStream cfg ->
  has (if is_end then packets_have_end_default_clock_snapshot c else packets_have_beginning_default_clock_snapshot c) v = true -> time_ok v = true ->
  exists cs, create_packet_message debug is_end p v = Some (if is_end : bool then PacketEnd p cs else PacketBeginning p cs).
Proof.
  intros Hp Hv%has_true Ht. unfold create_packet_message, BT_ASSERT_PRE. rewrite Hp, class_supports. rewrite Hv. destruct v as [v|].
  - rewrite bool_decide_eq_true_2 by done. cbn [implb negb]. destruct class_clock as [cc Hcc].
    { rewrite bool_decide_eq_true_2 in Hv by done. destruct is_end; auto. }
    rewrite Hcc. destruct (snapshot_ok v cc Ht Hcc) as [cs ->]. by eexists.
  - rewrite bool_decide_eq_false_2 by (by intros [? ?]). by eexists.
Qed.
Lemma event_message (ec : bt_event_class) p v : packet_stream p = mStream cfg -> has (bool_decide (is_Some (default_clock_class c))) v = true -> time_ok v = true ->
  exists cs, create_event_message debug true ec (mStream cfg) (Some p) v = Some (Event ec (mStream cfg) (Some p) cs).
Proof.
  intros Hp Hv%has_true Ht. unfold create_event_message, BT_ASSERT_PRE. rewrite <- Hv, Bool.eqb_reflx, class_supports, implb_true_r.
  destruct v as [v|]; [|by eexists]. destruct (default_clock_class c) as [cc|] eqn:Hcc; [|done]. destruct (snapshot_ok v cc Ht Hcc) as [cs ->]. by eexists.
Qed.
Lemma discarded_message (is_packets : bool) b e count s : 0 < count ->
  (if is_packets : bool then supports_discarded_packets c else supports_discarded_events c) = true ->
  ((if is_packets then discarded_packets_have_default_clock_snapshots c else discarded_events_have_default_clock_snapshots c) = true -> le_opt b e = true) ->
  time_ok b = true -> time_ok e = true ->
  exists m, createDiscMsg debug cfg is_packets b e count s = (s, Ret (CtfMessageOf m None None)) /\
    exists x y, m = (if is_packets then DiscardedPackets (mStream cfg) x y (Some count) else DiscardedEvents (mStream cfg) x y (Some count)).
Proof.
  intros Hcount Hsup Hle Hb He. unfold createDiscMsg. cbv zeta. set (cs := if is_packets then discarded_packets_have_default_clock_snapshots c else discarded_events_have_default_clock_snapshots c) in *.
  assert (Hset : forall x y, set_discarded_items_count (if is_packets then DiscardedPackets (mStream cfg) x y None else DiscardedEvents (mStream cfg) x y None) count =
    Some (if is_packets then DiscardedPackets (mStream cfg) x y (Some count) else DiscardedEvents (mStream cfg) x y (Some count))).
  { intros x y. unfold set_discarded_items_count, BT_ASSERT_PRE. destruct is_packets; by rewrite (proj2 (Z.ltb_lt _ _)). }
  assert (Hfinish : forall x y, exists m, new_message (set_discarded_items_count (if is_packets then DiscardedPackets (mStream cfg) x y None else DiscardedEvents (mStream cfg) x y None) count) None s =
    (s, Ret (CtfMessageOf m None None)) /\ exists x y, m = (if is_packets then DiscardedPackets (mStream cfg) x y (Some count) else DiscardedEvents (mStream cfg) x y (Some count))).
  { intros x y. rewrite Hset. eexists. split; [done|by do 2 eexists]. }
  destruct cs eqn:Hcs.
  - specialize (Hle eq_refl). destruct b as [b|], e as [e|]; try done. unfold cs in Hcs. destruct class_clock as [cc Hcc]; [destruct is_packets; auto|].
    destruct (snapshot_ok b cc Hb Hcc) as [bs Hbs]. destruct (snapshot_ok e cc He Hcc) as [es Hes].
    assert (Hm : create_with_default_clock_snapshots debug is_packets (mStream cfg) b e =
      Some (if is_packets then DiscardedPackets (mStream cfg) (Some bs) (Some es) None else DiscardedEvents (mStream cfg) (Some bs) (Some es) None)).
    { unfold create_with_default_clock_snapshots, create_discarded_items_message, BT_ASSERT_PRE. cbn [le_opt] in Hle. rewrite Hle.
      rewrite (bool_decide_eq_true_2 (is_Some (Some (b, e)))) by done. destruct is_packets; rewrite Hsup, Hcs, Hcc, Hbs, Hes; done. }
    destruct (Hfinish (Some bs) (Some es)) as (m & Hn & Hx). exists m. split; [|done]. eapply bind_ret; [|exact Hn].
    eapply bind_ret; [done|]. eapply bind_ret; [done|]. by apply of_option_some.
  - assert (Hm : create_discarded_items_message debug is_packets (mStream cfg) None =
      Some (if is_packets then DiscardedPackets (mStream cfg) None None None else DiscardedEvents (mStream cfg) None None None)).
    { unfold create_discarded_items_message, BT_ASSERT_PRE. unfold cs in Hcs. destruct is_packets; rewrite Hsup, Hcs; done. }
    destruct (Hfinish None None) as (m & Hn & Hx). exists m. split; [|done]. eapply bind_ret; [|exact Hn]. by apply of_option_some.
Qed.
Lemma add_message m s : (length (msgQueue s) < 3)%nat -> addMsgToQueue m s = (with_msgQueue (msgQueue s ++ [m]) s, Ret tt).
Proof. intros Hs. unfold addMsgToQueue. eapply bind_ret; [reflexivity|]. by rewrite bool_decide_eq_true_2. Qed.
End messages.

(** The CTF message iterator handles what is not a field: the beginning and the end of
    packets, their information, and event records. *)

Section packets.
Context `{CtfLib} `{Pools} `{TraceIr} (debug : bool).
Context (call : func -> addr -> ir -> option ir) (garbage : nat -> Z) (utf8_from : StrEncoding -> list Z -> option (list Z)).
Context (cfg : MsgIterCfg).
Abbreviation c := (stream_class (mStream cfg)).
Context (Hclass : class_ok c = true).
Abbreviation time_ok := (time_ok debug c).
Abbreviation lt_quirk := (eventRecordDefClkValLtPktBeginDefClkVal (quirks cfg)).
(** A packet of which the beginning is delayed has a beginning time if anything has one. *)
Context (Hdelay : lt_quirk = true -> packets_have_beginning_default_clock_snapshot c = true \/ default_clock_class c = None).
Abbreviation handle := (handleItem true debug call garbage utf8_from cfg).

(** ** The information of a packet *)

Lemma read_messages_app l l' a b : read_messages ir_store l = Some a -> read_messages ir_store l' = Some b -> read_messages ir_store (l ++ l') = Some (a ++ b).
Proof.
  revert a. induction l as [|m l IH]; intros a Ha Hb; simpl in *; [by injection Ha as <-|]. destruct (read_message ir_store m); [|done].
  destruct (read_messages ir_store l) as [y|]; [|done]. injection Ha as <-. rewrite (IH _ eq_refl Hb). by rewrite (assoc_L (++)).
Qed.

(** A message about what was discarded, when there is something. *)
Lemma discarded_block (is_packets : bool) (cur new : option Z) (test : Z -> Z -> bool) (count : Z -> Z -> Z) b e s : (is_Some cur -> is_Some new) ->
  (forall x y, cur = Some x -> new = Some y -> test x y = true -> 0 < count x y /\
    (if is_packets then supports_discarded_packets c else supports_discarded_events c) = true /\
    ((if is_packets then discarded_packets_have_default_clock_snapshots c else discarded_events_have_default_clock_snapshots c) = true -> le_opt b e = true)) ->
  time_ok b = true -> time_ok e = true -> (length (msgQueue s) < 3)%nat ->
  exists q, match cur with
            | Some x => bind (of_option new) (fun y => if test x y then bind (createDiscMsg debug cfg is_packets b e (count x y)) addMsgToQueue else ret tt)
            | None => ret tt
            end s = (with_msgQueue (msgQueue s ++ q) s, Ret tt) /\ (length q <= 1)%nat /\ read_messages ir_store q = Some [] /\
            phase_run c Within (the_message <$> q) = Some Within.
Proof.
  intros Hsome Hok Hb He Hq. assert (Hnone : exists q, (s, Ret tt) = (with_msgQueue (msgQueue s ++ q) s, Ret tt) /\ (length q <= 1)%nat /\ read_messages ir_store q = Some [] /\
    phase_run c Within (the_message <$> q) = Some Within).
  { exists []. rewrite app_nil_r. split; [|split; [simpl; lia|done]]. by destruct s. }
  destruct cur as [x|]; [|done]. destruct Hsome as [y ->]; [done|]. cbn [of_option]. unfold bind at 1, ret at 1. destruct (test x y) eqn:Ht; [|done].
  destruct (Hok x y eq_refl eq_refl Ht) as (Hcount & Hsup & Hle).
  destruct (discarded_message debug cfg Hclass is_packets b e (count x y) s Hcount Hsup Hle Hb He) as (m & Hm & u & v & Hmsg).
  exists [CtfMessageOf m None None]. split; [eapply bind_ret; [exact Hm|by apply add_message]|]. split; [simpl; lia|].
  subst m. destruct is_packets; (split; [done|]); simpl; by rewrite Hsup, ?(class_supports cfg Hclass).
Qed.

(** The packet beginning message. *)
Definition clk_after (v clk : option Z) : option Z := match v with Some v => Some v | None => clk end.
Lemma emit_begin s p v : curPkt s = Some p -> packet_stream (packet p) = mStream cfg -> (length (msgQueue s) < 3)%nat ->
  has (packets_have_beginning_default_clock_snapshot c) v = true -> time_ok v = true ->
  exists cs, emitPktBeginMsg debug v s =
    (with_msgQueue (msgQueue s ++ [CtfMessageOf (PacketBeginning (packet p) cs) (Some p) None]) (with_curDefClkVal (clk_after v (curDefClkVal s)) s), Ret tt).
Proof.
  intros Hp Hs Hq Hv Ht. destruct (packet_message debug cfg Hclass false (packet p) v Hs Hv Ht) as [cs Hcs]. exists cs. unfold emitPktBeginMsg.
  eapply bind_ret; [unfold get_curPkt; eapply bind_ret; [reflexivity|by apply of_option_some]|].
  eapply (bind_ret _ _ _ (with_curDefClkVal (clk_after v (curDefClkVal s)) s) tt); [by destruct v, s|].
  eapply bind_ret; [unfold new_message; eapply bind_ret; [by apply of_option_some|reflexivity]|]. rewrite add_message by (by destruct s). by destruct s.
Qed.

Lemma u64_count a b : u64_opt (Some a) = true -> u64_opt (Some b) = true -> a < b -> 0 < wrapu 64 (b - a).
Proof. unfold u64_opt. intros Ha Hb Hlt. rewrite wrapu_small; lia. Qed.
Lemma u64_count_1 a b : u64_opt (Some a) = true -> u64_opt (Some b) = true -> wrapu 64 (a + 1) < b -> 0 < wrapu 64 (b - a - 1).
Proof.
  unfold u64_opt. intros Ha Hb Hlt. destruct (decide (a = 2 ^ 64 - 1)) as [->|Hne].
  - replace (b - (2 ^ 64 - 1) - 1) with (b + (-1) * 2 ^ 64) by lia. unfold wrapu. rewrite Z_mod_plus_full, Z.mod_small by lia.
    pose proof (wrapu_range 64 (2 ^ 64 - 1 + 1) ltac:(lia)). lia.
  - rewrite wrapu_small in Hlt by lia. rewrite wrapu_small by lia. lia.
Qed.

Lemma has_some b x y : has b x = true -> has b y = true -> is_Some x -> is_Some y.
Proof. intros Hx%has_true Hy%has_true Hs. rewrite Hx in Hy. rewrite bool_decide_eq_true_2 in Hy by done. symmetry in Hy. by apply bool_decide_eq_true in Hy. Qed.
Lemma this_info_inv info : this_info_ok debug c info = true ->
  has (packets_have_beginning_default_clock_snapshot c) (beginDefClkVal info) = true /\ has (packets_have_end_default_clock_snapshot c) (endDefClkVal info) = true /\
  has (supports_discarded_events c) (discErCounterSnap info) = true /\ has (supports_discarded_packets c) (seqNum info) = true /\
  u64_opt (discErCounterSnap info) = true /\ u64_opt (seqNum info) = true /\ time_ok (beginDefClkVal info) = true /\ time_ok (endDefClkVal info) = true.
Proof. unfold this_info_ok. rewrite !andb_true_iff. tauto. Qed.
Lemma info_ok_inv prev info : info_ok debug c prev info = true -> this_info_ok debug c info = true /\
  forall pi, prev = Some pi -> this_info_ok debug c pi = true /\ follows_info c pi info = true.
Proof.
  unfold info_ok. intros [Hi Hp]%andb_true_iff. split; [done|]. intros pi ->. by apply andb_true_iff in Hp.
Qed.

(** What is to be read in the packet beginning message to come, and what was read. *)
Definition shown_now (delay : bool) (ctx : list token) : list token := if delay then [] else ctx.
Definition left_later (delay : bool) (ctx : list token) : list token := if delay then ctx else [].
Definition phase_at (delay : bool) (p : Packet) : phase := if delay then Within else InPacket (packet p).

Lemma read_begin p cs ctx : read_opt ir_store (context_field p) = Some ctx -> read_message ir_store (CtfMessageOf (PacketBeginning (packet p) cs) (Some p) None) = Some ctx.
Proof. done. Qed.

Lemma pkt_info_step cur pk clk prev info n ctx : packet_stream (packet pk) = mStream cfg -> info_ok debug c prev info = true -> read_opt ir_store (context_field pk) = Some ctx ->
  time_ok clk = true ->
  exists q clk', handle (PktInfoItem info) (state_of cur None (Some pk) clk prev true false n) =
      (with_msgQueue q (state_of cur None (Some pk) clk' (Some info) true lt_quirk n), Ret tt) /\ (length q <= 3)%nat /\
    phase_run c Within (the_message <$> q) = Some (phase_at lt_quirk pk) /\ read_messages ir_store q = Some (shown_now lt_quirk ctx) /\ time_ok clk' = true /\
    (lt_quirk = false -> is_Some (beginDefClkVal info) -> is_Some clk').
Proof.
  intros Hs Hinfo Hctx Hclk. destruct (info_ok_inv _ _ Hinfo) as [Hi Hprev]. destruct (this_info_inv _ Hi) as (Hb & He & Hde & Hdp & Hude & Hudp & Htb & Hte).
  assert (Htp : time_ok (prev ≫= endDefClkVal) = true). { destruct prev as [pi|]; [|done]. destruct (Hprev pi eq_refl) as [Hpi _]. by apply this_info_inv in Hpi as (_ & _ & _ & _ & _ & _ & _ & ?). }
  set (s1 := MsgIterStateOf false [] cur false None (Some pk) (prev ≫= seqNum) clk (prev ≫= discErCounterSnap) (beginDefClkVal info) (endDefClkVal info) true false n).
  destruct (discarded_block false (prev ≫= discErCounterSnap) (discErCounterSnap info) Z.ltb (fun x y => wrapu 64 (y - x)) (prev ≫= endDefClkVal) (endDefClkVal info) s1)
    as (q1 & Hq1 & Hl1 & Hr1 & Hp1); [| |exact Htp|exact Hte|by apply Nat.ltb_lt|].
  { destruct prev as [pi|]; [|by intros [? ?]]. destruct (Hprev pi eq_refl) as [Hpi _]. apply this_info_inv in Hpi. simpl. eapply has_some; [apply Hpi|done]. }
  { intros x y Hx Hy Hlt. destruct prev as [pi|]; [|done]. simpl in Hx. destruct (Hprev pi eq_refl) as [Hpi Hf]. apply this_info_inv in Hpi as (_ & _ & Hpde & _ & Hpu & _).
    rewrite Hx in Hpu. rewrite Hy in Hude. apply Z.ltb_lt in Hlt as Hlt'. split; [by apply u64_count|]. split.
    - apply has_true in Hde. by rewrite Hde, Hy.
    - intros Hcs. unfold follows_info in Hf. apply andb_true_iff in Hf as [Hf _]. rewrite Hx, Hy, Hlt, Hcs in Hf. exact Hf. }
  set (s2 := MsgIterStateOf false q1 cur false None (Some pk) (prev ≫= seqNum) clk (discErCounterSnap info) (beginDefClkVal info) (endDefClkVal info) true false n).
  destruct (discarded_block true (prev ≫= seqNum) (seqNum info) (fun x y => wrapu 64 (x + 1) <? y) (fun x y => wrapu 64 (y - x - 1)) (prev ≫= endDefClkVal) (beginDefClkVal info) s2)
    as (q2 & Hq2 & Hl2 & Hr2 & Hp2); [| |exact Htp|exact Htb|clear -Hl1; simpl; lia|].
  { destruct prev as [pi|]; [|by intros [? ?]]. destruct (Hprev pi eq_refl) as [Hpi _]. apply this_info_inv in Hpi. simpl. eapply has_some; [apply Hpi|done]. }
  { intros x y Hx Hy Hlt. destruct prev as [pi|]; [|done]. simpl in Hx. destruct (Hprev pi eq_refl) as [Hpi Hf]. apply this_info_inv in Hpi as (_ & _ & _ & Hpdp & _ & Hpu & _).
    rewrite Hx in Hpu. rewrite Hy in Hudp. apply Z.ltb_lt in Hlt as Hlt'. split; [by apply u64_count_1|]. split.
    - apply has_true in Hdp. by rewrite Hdp, Hy.
    - intros Hcs. unfold follows_info in Hf. apply andb_true_iff in Hf as [_ Hf]. rewrite Hx, Hy, Hlt, Hcs in Hf. exact Hf. }
  set (s3 := MsgIterStateOf false (q1 ++ q2) cur false None (Some pk) (seqNum info) clk (discErCounterSnap info) (beginDefClkVal info) (endDefClkVal info) true false n).
  assert (Hpre : forall s' , (if lt_quirk then modify (with_delayPktBeginMsgEmission true) else emitPktBeginMsg debug (beginDefClkVal info)) s3 = (s', Ret tt) ->
    handle (PktInfoItem info) (state_of cur None (Some pk) clk prev true false n) = (s', Ret tt)).
  { intros s' Hs'. cbn [handleItem]. unfold handlePktInfoItem. eapply bind_ret; [reflexivity|]. eapply bind_ret; [reflexivity|]. eapply bind_ret; [exact Hq1|].
    eapply bind_ret; [reflexivity|]. eapply bind_ret; [exact Hq2|]. eapply bind_ret; [reflexivity|]. eapply bind_ret; [by apply assert_true|]. exact Hs'. }
  assert (Hrun : phase_run c Within (the_message <$> (q1 ++ q2)) = Some Within) by (by rewrite fmap_app, phase_run_app, Hp1).
  assert (Hread : read_messages ir_store (q1 ++ q2) = Some []) by (by rewrite (read_messages_app _ _ [] [])).
  destruct lt_quirk eqn:Hquirk.
  - exists (q1 ++ q2), clk. split; [by apply Hpre|]. split; [clear -Hl1 Hl2; rewrite length_app; lia|]. by rewrite Hrun, Hread.
  - destruct (emit_begin s3 pk (beginDefClkVal info)) as [cs Hcs]; [done|done| |done|done|]. { clear -Hl1 Hl2. simpl. rewrite length_app. lia. }
    exists ((q1 ++ q2) ++ [CtfMessageOf (PacketBeginning (packet pk) cs) (Some pk) None]), (clk_after (beginDefClkVal info) clk). split; [by apply Hpre|]. split; [clear -Hl1 Hl2; rewrite !length_app; simpl; lia|].
    rewrite fmap_app, phase_run_app, Hrun. split; [simpl; by rewrite (class_supports cfg Hclass)|]. split.
    + rewrite (read_messages_app _ _ [] ctx); [done|done|]. cbn [read_messages]. rewrite (read_begin _ _ _ Hctx). by rewrite app_nil_r.
    + destruct (beginDefClkVal info); [done|]. split; [done|]. by intros _ [? ?].
Qed.

(** ** The beginning and the end of packets *)

Definition new_pkt (n : nat) : Packet := PacketOf (pooled_packet n (mStream cfg)) (option_map (pooled_field n) (packet_context_fc (mStream cfg))).
Lemma pkt_begin_step cur clk info emitted n : handle PktBeginItem (state_of cur None None clk info emitted false n) = (state_of cur None (Some (new_pkt n)) clk info emitted false (S n), Ret tt).
Proof.
  cbn [handleItem]. unfold handlePktBeginItem. eapply bind_ret; [reflexivity|]. eapply bind_ret; [by apply assert_true|].
  eapply bind_ret; [unfold create_packet; rewrite (class_supports cfg Hclass); reflexivity|]. done.
Qed.
Lemma ds_info_step cur pk clk info n ds id prev : item_ok debug c (stream_id (mStream cfg)) prev (DataStreamInfoItem (Some ds) id) = true ->
  handle (DataStreamInfoItem (Some ds) id) (state_of cur None pk clk info false false n) =
    (with_msgQueue [CtfMessageOf (create_stream_message false (mStream cfg)) None None] (state_of cur None pk clk info true false n), Ret tt) /\
  handle (DataStreamInfoItem (Some ds) id) (state_of cur None pk clk info true false n) = (state_of cur None pk clk info true false n, Ret tt).
Proof.
  cbn [item_ok]. intros [Hds Hid]%andb_true_iff. cbn [handleItem]. unfold handleDataStreamInfoItem.
  assert (Hid' : match id with Some id => negb (id =? stream_id (mStream cfg)) | None => false end = false) by (destruct id as [i|]; [by rewrite Hid|done]).
  split; (eapply bind_ret; [by apply of_option_some|]); rewrite Hds, Hid'; done.
Qed.

Lemma time_ok_min a b : time_ok (Some a) = true -> time_ok (Some b) = true -> time_ok (Some (Z.min a b)) = true.
Proof. intros Ha Hb. destruct (Z.min_spec a b) as [[_ ->]|[_ ->]]; [exact Ha|exact Hb]. Qed.

(** The delayed beginning of a packet, at the time [o] or before. *)
Definition begin_time (b o : option Z) : option Z :=
  match b, o with Some b, Some o => Some (Z.min b o) | Some b, None => Some b | None, o => o end.
Lemma delayed_step q cur pk clk info n o : packet_stream (packet pk) = mStream cfg -> lt_quirk = true -> this_info_ok debug c info = true -> (length q < 3)%nat ->
  time_ok o = true -> (default_clock_class c = None -> o = None) ->
  exists cs, emitDelayedPktBeginMsg debug o (with_msgQueue q (state_of cur None (Some pk) clk (Some info) true true n)) =
    (with_msgQueue (q ++ [CtfMessageOf (PacketBeginning (packet pk) cs) (Some pk) None])
       (state_of cur None (Some pk) (clk_after (begin_time (beginDefClkVal info) o) clk) (Some info) true false n), Ret tt).
Proof.
  intros Hs Hq Hi Hl Ho Hno. apply this_info_inv in Hi as (Hb & _ & _ & _ & _ & _ & Htb & _).
  set (v := begin_time (beginDefClkVal info) o).
  assert (Hhas : has (packets_have_beginning_default_clock_snapshot c) v = true).
  { unfold v, begin_time. destruct (beginDefClkVal info) as [b|]; [by destruct o|]. destruct (Hdelay Hq) as [Hyes|Hnone].
    - rewrite Hyes in Hb. done.
    - rewrite (Hno Hnone). exact Hb. }
  assert (Hv : time_ok v = true). { unfold v, begin_time. destruct (beginDefClkVal info) as [b|], o as [o|]; [by apply time_ok_min|exact Htb|exact Ho|done]. }
  destruct (emit_begin (with_msgQueue q (state_of cur None (Some pk) clk (Some info) true false n)) pk v) as [cs Hcs]; [done|done|exact Hl|exact Hhas|exact Hv|].
  exists cs. unfold emitDelayedPktBeginMsg. eapply bind_ret; [reflexivity|]. eapply bind_ret; [by apply assert_true|]. eapply bind_ret; [reflexivity|]. exact Hcs.
Qed.

Lemma end_none info : this_info_ok debug c info = true -> default_clock_class c = None -> endDefClkVal info = None.
Proof.
  intros (_ & He%has_true & _)%this_info_inv Hc. destruct (endDefClkVal info) as [e|]; [|done]. rewrite bool_decide_eq_true_2 in He by done.
  destruct (class_clock cfg Hclass) as [cc Hcc]; [auto|]. congruence.
Qed.
Lemma pkt_end_message q cur pk clk info n : packet_stream (packet pk) = mStream cfg -> this_info_ok debug c info = true -> time_ok clk = true ->
  (is_Some (beginDefClkVal info) -> is_Some clk) ->
  exists cs clk', createPktEndMsgAndUpdateCurDefClkVal debug cfg (with_msgQueue q (state_of cur None (Some pk) clk (Some info) true false n)) =
      (with_msgQueue q (state_of cur None (Some pk) clk' (Some info) true false n), Ret (CtfMessageOf (PacketEnd (packet pk) cs) (Some pk) None)) /\ time_ok clk' = true.
Proof.
  intros Hs Hi Hclk Hsome. apply this_info_inv in Hi as (_ & He & _ & _ & _ & _ & _ & Hte). unfold createPktEndMsgAndUpdateCurDefClkVal.
  set (s := with_msgQueue q (state_of cur None (Some pk) clk (Some info) true false n)).
  assert (Hget : get_curPkt s = (s, Ret pk)) by done. assert (Hgets : gets (fun s => s) s = (s, Ret s)) by done.
  assert (Hpe : pktEndDefClkVal s = endDefClkVal info) by done. assert (Hpb : pktBeginDefClkVal s = beginDefClkVal info) by done. assert (Hcv : curDefClkVal s = clk) by done.
  destruct (endDefClkVal info) as [e|] eqn:Ee.
  - cbv zeta. set (zb := pktEndDefClkValZero (quirks cfg) && match beginDefClkVal info with Some b => negb (b =? 0) | None => false end && (e =? 0)).
    set (gb := eventRecordDefClkValGtNextPktBeginDefClkVal (quirks cfg) && match clk with Some c0 => e <? c0 | None => false end).
    destruct (zb || gb) eqn:Hbug.
    + assert (Hc : is_Some clk).
      { apply orb_true_iff in Hbug as [Hz|Hg]; [apply Hsome|]; [unfold zb in Hz; destruct (beginDefClkVal info)|unfold gb in Hg; destruct clk]; try done.
        - by rewrite andb_false_r in Hz.
        - by rewrite andb_false_r in Hg. }
      destruct Hc as [v ->]. destruct (packet_message debug cfg Hclass true (packet pk) (Some v) Hs) as [cs Hcs]; [exact He|exact Hclk|]. exists cs, (Some v). split; [|done].
      eapply bind_ret; [exact Hget|]. eapply bind_ret; [exact Hgets|]. rewrite Hpe, Hpb, Hcv. fold zb gb. rewrite Hbug.
      eapply bind_ret; [by apply of_option_some|]. eapply bind_ret; [reflexivity|]. unfold new_message. eapply bind_ret; [by apply of_option_some|]. done.
    + destruct (packet_message debug cfg Hclass true (packet pk) (Some e) Hs) as [cs Hcs]; [exact He|exact Hte|]. exists cs, (Some e). split; [|exact Hte].
      eapply bind_ret; [exact Hget|]. eapply bind_ret; [exact Hgets|]. rewrite Hpe, Hpb, Hcv. fold zb gb. rewrite Hbug.
      eapply bind_ret; [reflexivity|]. eapply bind_ret; [reflexivity|]. unfold new_message. eapply bind_ret; [by apply of_option_some|]. done.
  - destruct (packet_message debug cfg Hclass true (packet pk) None Hs) as [cs Hcs]; [exact He|done|]. exists cs, clk. split; [|exact Hclk].
    eapply bind_ret; [exact Hget|]. eapply bind_ret; [exact Hgets|]. rewrite Hpe. unfold new_message. eapply bind_ret; [by apply of_option_some|]. done.
Qed.

Lemma pkt_end_step cur pk clk info delay n ctx : packet_stream (packet pk) = mStream cfg -> this_info_ok debug c info = true -> (delay = true -> lt_quirk = true) ->
  read_opt ir_store (context_field pk) = Some ctx -> time_ok clk = true -> (delay = false -> is_Some (beginDefClkVal info) -> is_Some clk) ->
  exists q clk', handle PktEndItem (state_of cur None (Some pk) clk (Some info) true delay n) = (with_msgQueue q (state_of cur None None clk' (Some info) true false n), Ret tt) /\ (length q <= 3)%nat /\
    phase_run c (phase_at delay pk) (the_message <$> q) = Some Within /\ read_messages ir_store q = Some (left_later delay ctx) /\ time_ok clk' = true.
Proof.
  intros Hs Hi Hdl Hctx Hclk Hsome.
  assert (Hpre : exists q1 clk1, (if delay then emitDelayedPktBeginMsg debug (endDefClkVal info) else ret tt) (state_of cur None (Some pk) clk (Some info) true delay n) =
      (with_msgQueue q1 (state_of cur None (Some pk) clk1 (Some info) true false n), Ret tt) /\ (length q1 <= 1)%nat /\ time_ok clk1 = true /\
      (is_Some (beginDefClkVal info) -> is_Some clk1) /\ phase_run c (phase_at delay pk) (the_message <$> q1) = Some (InPacket (packet pk)) /\
      read_messages ir_store q1 = Some (left_later delay ctx)).
  { destruct delay.
    - pose proof (this_info_inv _ Hi) as (_ & _ & _ & _ & _ & _ & Htb & Hte).
      destruct (delayed_step [] cur pk clk info n (endDefClkVal info) Hs (Hdl eq_refl) Hi) as [cs Hcs]; [by apply Nat.ltb_lt|exact Hte|by apply end_none|].
      do 2 eexists. split; [exact Hcs|]. split; [done|]. split; [|split; [|split]].
      + unfold begin_time, clk_after. destruct (beginDefClkVal info) as [b|], (endDefClkVal info) as [e|]; [by apply time_ok_min|exact Htb|exact Hte|exact Hclk].
      + unfold begin_time, clk_after. intros [b ->]. by destruct (endDefClkVal info).
      + simpl. by rewrite (class_supports cfg Hclass).
      + cbn [app read_messages]. rewrite (read_begin _ _ _ Hctx). by rewrite app_nil_r.
    - exists [], clk. split; [done|]. split; [simpl; clear; lia|]. split; [exact Hclk|]. split; [by apply Hsome|done]. }
  destruct Hpre as (q1 & clk1 & Hpre & Hl1 & Hclk1 & Hsome1 & Hrun1 & Hread1).
  destruct (pkt_end_message q1 cur pk clk1 info n Hs Hi Hclk1 Hsome1) as (cs & clk' & Hm & Hclk').
  exists (q1 ++ [CtfMessageOf (PacketEnd (packet pk) cs) (Some pk) None]), clk'. split.
  - cbn [handleItem]. unfold handlePktEndItem. eapply bind_ret; [reflexivity|]. eapply bind_ret; [by apply assert_true|]. eapply bind_ret; [by apply assert_true|].
    eapply bind_ret; [exact Hpre|]. eapply bind_ret; [exact Hm|]. eapply bind_ret; [apply add_message; clear -Hl1; simpl; lia|]. done.
  - split; [clear -Hl1; rewrite length_app; simpl; lia|]. rewrite fmap_app, phase_run_app, Hrun1. split; [simpl; by rewrite decide_True|]. split; [|exact Hclk'].
    rewrite (read_messages_app _ _ (left_later delay ctx) []); [by rewrite app_nil_r|done|done].
Qed.

(** ** Event records *)

Definition new_event (ec : bt_event_class) (pk : Packet) (cs : option bt_clock_snapshot) (n : nat) : CtfMessage :=
  CtfMessageOf (Event ec (mStream cfg) (Some (packet pk)) cs) (Some pk) (Some (create_event_fields cfg n ec)).
Lemma event_info_step cur pk clk info delay n ctx ec lib v prev : packet_stream (packet pk) = mStream cfg -> this_info_ok debug c info = true -> (delay = true -> lt_quirk = true) ->
  read_opt ir_store (context_field pk) = Some ctx -> time_ok clk = true -> (delay = false -> is_Some (beginDefClkVal info) -> is_Some clk) ->
  ec_libCls ec = Some lib -> event_class_is_of lib (mStream cfg) = true -> item_ok debug c (stream_id (mStream cfg)) prev (EventRecordInfoItem (Some ec) v) = true ->
  exists q clk' cs, handle (EventRecordInfoItem (Some ec) v) (state_of cur None (Some pk) clk (Some info) true delay n) =
      (with_msgQueue q (state_of cur (Some (new_event lib pk cs n)) (Some pk) clk' (Some info) true false (S n)), Ret tt) /\ (length q <= 3)%nat /\
    phase_run c (phase_at delay pk) (the_message <$> q) = Some (InPacket (packet pk)) /\ read_messages ir_store q = Some (left_later delay ctx) /\ time_ok clk' = true /\
    (is_Some (beginDefClkVal info) -> is_Some clk').
Proof.
  intros Hs Hi Hdl Hctx Hclk Hsome Hlib Hof Hok. cbn [item_ok] in Hok. rewrite !andb_true_iff in Hok. destruct Hok as [[_ Hv] Htv].
  assert (Hpre : exists q1 clk1, (if delay then emitDelayedPktBeginMsg debug v else ret tt) (state_of cur None (Some pk) clk (Some info) true delay n) =
      (with_msgQueue q1 (state_of cur None (Some pk) clk1 (Some info) true false n), Ret tt) /\ (length q1 <= 3)%nat /\ time_ok clk1 = true /\
      (is_Some (beginDefClkVal info) -> is_Some clk1) /\ phase_run c (phase_at delay pk) (the_message <$> q1) = Some (InPacket (packet pk)) /\
      read_messages ir_store q1 = Some (left_later delay ctx)).
  { destruct delay.
    - pose proof (this_info_inv _ Hi) as (_ & _ & _ & _ & _ & _ & Htb & _). assert (Hnone : default_clock_class c = None -> v = None).
      { intros E. apply has_true in Hv. rewrite E in Hv. destruct v; [|done]. by vm_compute in Hv. }
      destruct (delayed_step [] cur pk clk info n v Hs (Hdl eq_refl) Hi) as [cs Hcs]; [by apply Nat.ltb_lt|exact Htv|exact Hnone|].
      do 2 eexists. split; [exact Hcs|]. split; [clear; simpl; lia|]. split; [|split; [|split]].
      + unfold begin_time, clk_after. destruct (beginDefClkVal info) as [b|], v as [e|]; [by apply time_ok_min|exact Htb|exact Htv|exact Hclk].
      + unfold begin_time, clk_after. intros [b ->]. by destruct v.
      + simpl. by rewrite (class_supports cfg Hclass).
      + cbn [app read_messages]. rewrite (read_begin _ _ _ Hctx). by rewrite app_nil_r.
    - exists [], clk. split; [done|]. split; [clear; simpl; lia|]. split; [exact Hclk|]. split; [by apply Hsome|done]. }
  destruct Hpre as (q1 & clk1 & Hpre & Hl1 & Hclk1 & Hsome1 & Hrun1 & Hread1).
  destruct (event_message debug cfg Hclass lib (packet pk) v Hs Hv Htv) as [cs Hcs]. exists q1, (clk_after v clk1), cs. split.
  - cbn [handleItem]. unfold handleEventRecordInfoItem. eapply bind_ret; [reflexivity|]. eapply bind_ret; [by apply of_option_some|]. eapply bind_ret; [by apply assert_true|].
    eapply bind_ret; [exact Hpre|].
    eapply (bind_ret _ _ _ (with_msgQueue q1 (state_of cur None (Some pk) (clk_after v clk1) (Some info) true false n)) tt); [by destruct v|].
    eapply bind_ret.
    { unfold createEventMsg. eapply bind_ret; [reflexivity|]. cbn [curPkt with_msgQueue state_of option_map]. rewrite Hs, Hof.
      eapply bind_ret; [by apply of_option_some|]. eapply bind_ret; [reflexivity|]. reflexivity. }
    done.
  - split; [exact Hl1|]. split; [done|]. split; [done|]. split; [by destruct v|]. intros Hb. destruct v; [done|]. by apply Hsome1.
Qed.
Lemma event_end_step cur m pk clk info n : frames cur = [] -> handle EventRecordEndItem (state_of cur (Some m) (Some pk) clk (Some info) true false n) =
  (with_msgQueue [m] (state_of cur None (Some pk) clk (Some info) true false n), Ret tt).
Proof.
  intros Hf. cbn [handleItem]. unfold handleEventRecordEndItem. eapply bind_ret; [reflexivity|]. eapply bind_ret; [apply assert_true; by apply bool_decide_eq_true_2|].
  eapply bind_ret; [by apply of_option_some|]. eapply bind_ret; [by apply add_message, Nat.ltb_lt|]. done.
Qed.
End packets.
