(* ===== verification/MsgIterDecode.v ===== *)
(** The CTF message iterator handles what the reference decoder decodes: its messages follow
    the rules and have the values that are decoded. *)

From stdpp Require Import list gmap.
From S2P Require Import Prelude Bitfield Object IrObj FieldClass Field FieldFacts Clock Msg MsgCreate MsgSeq CtfIr ItemBits ItemBitsFacts.
From S2P Require Import ItemState ItemSeq ItemSpec ItemSim ItemStep ItemFollow ItemFollowData.
From S2P Require Import CtfToIr MsgIter MsgIterSpec MsgIterAcc MsgIterField MsgIterFields MsgIterPackets.
From S2P Require Import MsgIterPackets.

Section decode.
Context `{CtfLib} `{Pools} `{TraceIr} (debug : bool).
Context (call : func -> addr -> ir -> option ir) (garbage : nat -> Z) (utf8_from : StrEncoding -> list Z -> option (list Z)).
Context (cfg : MsgIterCfg) (tc : TraceCls) (data : list Z).
Abbreviation c := (stream_class (mStream cfg)).
Abbreviation lt_quirk := (eventRecordDefClkValLtPktBeginDefClkVal (quirks cfg)).
Context (Hbytes : buf_wf 8 data) (Hsize : bits_of_data data <= 2 ^ 34).
Context (Hroom : forall a type e x, cls ir_store a = Some (type, DynamicArrayContents e x) -> roomy ir_store class_depth e).
Context (Hpacket : forall n s, packet_stream (pooled_packet n s) = s).
Context (Hfield : forall n a, is_Some (cls ir_store a) -> ready ir_store (pooled_field n a) /\ class_of (pooled_field n a) = a).
Context (Hclass : class_ok c = true).
Context (Hdelay : lt_quirk = true -> packets_have_beginning_default_clock_snapshot c = true \/ default_clock_class c = None).
Context (Htc : trace_cls_ok tc = true).
Context (Hstream : forall ds, ds ∈ dataStreamClasses tc -> dsc_id ds = Msg.sc_id c -> plain_stream ds = true /\ translated_stream (mStream cfg) ds).

Abbreviation good s ph r pd prev x := (MsgIterAcc.good debug call garbage utf8_from cfg s ph r pd prev x).
Abbreviation handle := (handleItem true debug call garbage utf8_from cfg).
Abbreviation time_ok := (time_ok debug c).
Ltac lax := first [apply good_lax | done | eassumption].

Lemma state_calm cur m pk clk info em dl n : clean cur -> calm (state_of cur m pk clk info em dl n).
Proof. done. Qed.

(** An item that gives messages. *)
Lemma good_messages i s s' q ph ph' a r pd pd' prev (k : rest) p : is_raw_data i = false -> skipItemsUntilScopeEndItem s = false -> idle s' ->
  handle i s = (with_msgQueue q s', Ret tt) -> (length q <= 3)%nat -> phase_run c ph (the_message <$> q) = Some ph' -> read_messages ir_store q = Some a -> pd ++ tokens_of r i = a ++ pd' ->
  good s' ph' (read_item r i) pd' (last_info prev i) (k p) ->
  wps (visitItem true debug call garbage utf8_from cfg i) s (fun _ s => released cfg ph (pd ++ tokens_of r i) s (fun ph pd =>
    isDone s = false /\ good (drain s) ph (read_item r i) pd (last_info prev i) (k p))).
Proof.
  intros Hi Hs [Hd Hq] Hv Hlen Hph Hread Hpd Hk. unfold wps. rewrite visit_calm, Hv by done. split; [by destruct s'|]. exists ph', a, pd'.
  assert (E : drain (with_msgQueue q s') = s') by (destruct s'; simpl in *; by subst). split; [by destruct s'|]. split; [by destruct s'|]. split; [done|]. rewrite E. split; [by destruct s'|done].
Qed.

Lemma read_root f : read_opt ir_store (Some f) = read_field ir_store f.
Proof. done. Qed.
Lemma scope_ok_some fc : scope_ok (Some fc) = true -> fc_ok fc = true.
Proof. simpl. by intros [_ ?]%andb_true_iff. Qed.
Lemma translation_cls h fc a : translation h fc a -> is_Some (cls h a).
Proof. destruct fc; intros (type & d & Hc & _); by rewrite Hc. Qed.

(** ** Event records *)

Definition event_of (lib : bt_event_class) (pk : Packet) (cs : option bt_clock_snapshot) (e : EventFields) : CtfMessage :=
  CtfMessageOf (Event lib (mStream cfg) (Some (packet pk)) cs) (Some pk) (Some e).
Definition is_event_scope (sc : Scope) : bool := match sc with CommonEventRecordCtx | SpecEventRecordCtx | EventRecordPayload => true | _ => false end.
Definition get_event (sc : Scope) (e : EventFields) : option bt_field :=
  match sc with CommonEventRecordCtx => common_context_field e | SpecEventRecordCtx => specific_context_field e | _ => payload_field e end.
Definition put_event (sc : Scope) (f : option bt_field) (e : EventFields) : EventFields :=
  match sc with
  | CommonEventRecordCtx => EventFieldsOf f (specific_context_field e) (payload_field e)
  | SpecEventRecordCtx => EventFieldsOf (common_context_field e) f (payload_field e)
  | _ => EventFieldsOf (common_context_field e) (specific_context_field e) f
  end.

Lemma good_event_scope sc fc a lib pk cs e cur clk info n n0 ph r pd prev (k : rest) p : is_event_scope sc = true -> get_event sc e = option_map (pooled_field n0) a ->
  scope_ok fc = true -> plain_scope fc = true -> scope_translation ir_store fc a -> at_ok p -> clean cur ->
  (forall f cur' r' p' ts, clean cur' -> keeps p p' -> read_opt ir_store f = Some ts ->
     good (state_of cur' (Some (event_of lib pk cs (put_event sc f e))) (Some pk) clk info true false n) ph r' (pd ++ ts) prev (k p')) ->
  good (state_of cur (Some (event_of lib pk cs e)) (Some pk) clk info true false n) ph r pd prev (scope_field data sc fc k p).
Proof.
  intros Hsc Hget Hok Hpl Htr Hp Hcur Hk. destruct fc as [fc|].
  - destruct a as [a|]; [|done]. simpl in Htr. destruct (Hfield n0 a (translation_cls _ _ _ Htr)) as [Hready Hcl]. apply scope_ok_some in Hok.
    eapply (good_scope debug call garbage utf8_from cfg data Hbytes Hsize ph prev Hroom sc fc _ (pooled_field n0 a)); try done; [by destruct sc| |by rewrite Hcl|].
    { destruct sc; try done; simpl in *; by rewrite Hget. }
    intros root' cur' r' p' ts Hr' Hp' Hready' Hcl' Hread Hcur'.
    replace (focus sc (state_of cur (Some (event_of lib pk cs e)) (Some pk) clk info true false n) root' cur') with
      (state_of cur' (Some (event_of lib pk cs (put_event sc (Some root') e))) (Some pk) clk info true false n) by (by destruct sc).
    by apply Hk.
  - cbn [scope_field]. assert (E : a = None) by (by destruct a). subst a. simpl in Hget. rewrite <- (app_nil_r pd).
    replace e with (put_event sc None e) by (destruct e, sc; simpl in *; congruence). apply Hk; try done; by apply keeps_self.
Qed.

(** What is known of the state in a packet, between event records. *)
Definition in_pkt (info : PktInfo) (pk : Packet) (ctx : list token) (delay : bool) (clk : option Z) : Prop :=
  packet_stream (packet pk) = mStream cfg /\ this_info_ok debug c info = true /\ read_opt ir_store (context_field pk) = Some ctx /\ time_ok clk = true /\
  (delay = true -> lt_quirk = true) /\ (delay = false -> is_Some (beginDefClkVal info) -> is_Some clk).
(** The classes that a point has. *)
Definition with_classes (ds : DataStreamCls) (p : Point) : Prop :=
  dataStreamCls (at_dec p) = Some ds /\ forall ec, eventRecordCls (at_dec p) = Some ec -> ec ∈ eventRecordClasses ds.
Lemma with_classes_keeps ds p p' : with_classes ds p -> keeps p p' -> with_classes ds p'.
Proof. intros [Hd He] [Hk _]. unfold classes_at in Hk. injection Hk as E1 E2 _. split; [by rewrite E1|by rewrite E2]. Qed.

(** What comes after the event records. *)
Definition after_records (ds : DataStreamCls) (info : PktInfo) (pk : Packet) (ctx : list token) (k : rest) : Prop :=
  forall cur clk delay n r p, clean cur -> at_ok p -> with_classes ds p -> in_pkt info pk ctx delay clk ->
    good (state_of cur None (Some pk) clk (Some info) true delay n) (phase_at delay pk) r (left_later delay ctx) (Some info) (k p).

Lemma good_er_end lib pk cs e cur clk info n r ctx ds h (k : rest) p pd : clean cur -> at_ok p -> with_classes ds p -> in_pkt info pk ctx false clk ->
  after_records ds info pk ctx k -> read_message ir_store (event_of lib pk cs e) = Some pd ->
  good (state_of cur (Some (event_of lib pk cs e)) (Some pk) clk (Some info) true false n) (InPacket (packet pk)) r pd (Some info) (er_end h k p).
Proof.
  intros Hcur Hp Hcls Hin Hk Hread. unfold er_end. destruct (_ <? _); [by apply good_lax|]. destruct (_ =? _); [by apply good_lax|]. apply MsgIterAcc.good_emit; [done|].
  intros _. eapply (good_messages _ _ (state_of cur None (Some pk) clk (Some info) true false n) [event_of lib pk cs e] _ (InPacket (packet pk)) pd r pd []); try done.
  - apply event_end_step. apply Hcur.
  - simpl. lia.
  - simpl. by rewrite decide_True.
  - cbn [read_messages]. rewrite Hread. by rewrite app_nil_r.
  - unfold tokens_of. by destruct (shown r).
  - by apply (Hk cur clk false).
Qed.

Lemma read_event lib pk cs e a b d : read_opt ir_store (common_context_field e) = Some a -> read_opt ir_store (specific_context_field e) = Some b ->
  read_opt ir_store (payload_field e) = Some d -> read_message ir_store (event_of lib pk cs e) = Some (a ++ b ++ d).
Proof. intros Ha Hb Hd. unfold read_message. cbn. by rewrite Ha, Hb, Hd. Qed.

Lemma good_er_fields ec lib pk cs cur clk info n n0 r ctx ds h (k : rest) p a f : clean cur -> at_ok p -> with_classes ds p -> eventRecordCls (at_dec p) = Some ec ->
  in_pkt info pk ctx false clk -> after_records ds info pk ctx k -> event_record_cls_ok ec = true -> plain_scope (specCtxFc ec) = true -> plain_scope (payloadFc ec) = true ->
  scope_translation ir_store (specCtxFc ec) (specific_context_fc lib) -> scope_translation ir_store (payloadFc ec) (payload_fc lib) -> read_opt ir_store f = Some a ->
  good (state_of cur (Some (event_of lib pk cs (put_event CommonEventRecordCtx f (create_event_fields cfg n0 lib)))) (Some pk) clk (Some info) true false n) (InPacket (packet pk))
    r a (Some info) (er_spec_ctx data h k p).
Proof.
  intros Hcur Hp Hcls Hec Hin Hk Hok Hpl1 Hpl2 Htr1 Htr2 Hread. unfold er_spec_ctx. rewrite Hec. apply andb_true_iff in Hok as [Hok1 Hok2].
  eapply (good_event_scope SpecEventRecordCtx _ (specific_context_fc lib) lib pk cs _ cur clk (Some info) n n0); try done. intros f1 cur1 r1 p1 b Hcur1 Hp1 Hread1.
  unfold er_payload. assert (Hec1 : eventRecordCls (at_dec p1) = Some ec) by (destruct Hp1 as [E _]; unfold classes_at in E; injection E as _ E _; by rewrite E). rewrite Hec1.
  eapply (good_event_scope EventRecordPayload _ (payload_fc lib) lib pk cs _ cur1 clk (Some info) n n0); try done; [apply Hp1|]. intros f2 cur2 r2 p2 d Hcur2 Hp2 Hread2.
  eapply good_er_end; try done; [apply Hp2|eapply with_classes_keeps; [|exact Hp2]; by eapply with_classes_keeps|]. rewrite <- (assoc_L (++)). by apply read_event.
Qed.

(** What the class of the stream is to be. *)
Definition good_class (ds : DataStreamCls) : Prop := data_stream_cls_ok ds = true /\ plain_stream ds = true /\ translated_stream (mStream cfg) ds.
Lemma good_class_event ds ec : good_class ds -> ec ∈ eventRecordClasses ds -> event_record_cls_ok ec = true /\ plain_scope (specCtxFc ec) = true /\ plain_scope (payloadFc ec) = true /\
  translated_event_cls (mStream cfg) ec.
Proof.
  intros (Hok & Hpl & _ & _ & Htr) Hec. unfold data_stream_cls_ok in Hok. unfold plain_stream in Hpl. rewrite !andb_true_iff in Hok, Hpl. destruct Hok as [_ Hok], Hpl as [_ Hpl].
  rewrite forallb_forall in Hok, Hpl. apply list_elem_of_In in Hec as Hin. specialize (Hok _ Hin). specialize (Hpl _ Hin). apply andb_true_iff in Hpl as [? ?].
  rewrite Forall_forall in Htr. by repeat split; try apply Htr.
Qed.

Lemma good_er_info ds cur clk info pk ctx delay n r h (k : rest) p : good_class ds -> clean cur -> at_ok p -> with_classes ds p -> in_pkt info pk ctx delay clk ->
  after_records ds info pk ctx k ->
  good (state_of cur None (Some pk) clk (Some info) true delay n) (phase_at delay pk) r (left_later delay ctx) (Some info) (er_info data h k p).
Proof.
  intros Hds Hcur Hp [Hd He] Hin Hk. unfold er_info. rewrite Hd.
  set (next := fun (cls : option EventRecordCls) (p : Point) => _ : result).
  assert (Hnext : forall cls, (forall ec, cls = Some ec -> ec ∈ eventRecordClasses ds) ->
    good (state_of cur None (Some pk) clk (Some info) true delay n) (phase_at delay pk) r (left_later delay ctx) (Some info) (next cls p)).
  2:{ unfold select. destruct (curClsId (at_dec p)) as [id|].
      - destruct (event_record_cls_by_id ds id) as [ec|] eqn:Hec; [|by apply good_lax]. apply Hnext. intros ? [= <-]. apply find_some in Hec as [Hec _]. by apply list_elem_of_In.
      - destruct (eventRecordClasses ds) as [|ec [|]] eqn:Hl; [by apply Hnext|apply Hnext; intros ? [= <-]; by left|by apply good_lax]. }
  intros cls Hcls. unfold next. cbv beta zeta. clear next. set (p1 := on_dec _ p).
  assert (Hp1 : at_ok p1) by (unfold p1; destruct (has_defClkCls ds); done).
  assert (Hd1 : dataStreamCls (at_dec p1) = Some ds) by (unfold p1; destruct (has_defClkCls ds); done).
  assert (He1 : eventRecordCls (at_dec p1) = cls) by (unfold p1; destruct (has_defClkCls ds); done).
  generalize dependent p1. intros p1 Hp1 Hd1 He1. apply MsgIterAcc.good_emit; [done|]. intros Hok. destruct cls as [ec|]; [|done]. pose proof (Hcls ec eq_refl) as Hec.
  destruct (good_class_event ds ec Hds Hec) as (Heok & Hpl1 & Hpl2 & lib & Hlib & Hof & Htr1 & Htr2). destruct Hin as (Hs & Hi & Hctx & Hclk & Hdl & Hsome).
  destruct (event_info_step debug call garbage utf8_from cfg Hclass Hdelay cur pk clk info delay n ctx ec lib _ _ Hs Hi Hdl Hctx Hclk Hsome Hlib Hof Hok)
    as (q & clk' & cs & Hv & Hlq & Hph & Hread & Hclk' & Hsome').
  eapply (good_messages _ _ _ q _ (InPacket (packet pk)) (left_later delay ctx) r (left_later delay ctx) []); try done; [by split|unfold tokens_of; by destruct (shown r)|].
  destruct Hds as (Hdsok & Hpl & _ & Htrc & _). unfold data_stream_cls_ok in Hdsok. unfold plain_stream in Hpl. rewrite !andb_true_iff in Hdsok, Hpl.
  assert (Hcls1 : with_classes ds p1) by (split; [done|]; rewrite He1; intros ? [= <-]; done).
  eapply (good_event_scope CommonEventRecordCtx _ (event_common_context_fc (mStream cfg)) lib pk cs (create_event_fields cfg n lib) cur clk' (Some info) (S n) n); try done; [tauto|tauto|].
  intros f cur2 r2 p2 a Hcur2 Hp2 Hread2. cbn [app]. eapply (good_er_fields ec); try done.
  - apply Hp2.
  - by eapply with_classes_keeps.
  - destruct Hp2 as [E _]. unfold classes_at in E. injection E as _ E _. by rewrite E.
Qed.

Lemma good_records ds info pk ctx fuel : good_class ds -> forall cur clk delay n r (k : rest) p, clean cur -> at_ok p -> with_classes ds p -> in_pkt info pk ctx delay clk ->
  after_records ds info pk ctx k ->
  good (state_of cur None (Some pk) clk (Some info) true delay n) (phase_at delay pk) r (left_later delay ctx) (Some info) (records data fuel k p).
Proof.
  intros Hds. induction fuel as [|fuel IH]; intros cur clk delay n r k p Hcur Hp Hcls Hin Hk; cbn [records]; [by apply good_lax|]. rewrite (proj1 Hcls).
  destruct (_ <? _); [by apply good_lax|]. destruct (more_content data p); [|by apply Hk].
  eapply (good_to debug call garbage utf8_from cfg _ _ _ (state_of cur None (Some pk) clk (Some info) true delay n) (state_of cur None (Some pk) clk (Some info) true delay n)); try done.
  { unfold tokens_of. by destruct (shown r). }
  eapply (good_hidden_scope debug call garbage utf8_from cfg data Hbytes Hsize); try done.
  { destruct Hds as [Hok _]. unfold data_stream_cls_ok in Hok. rewrite !andb_true_iff in Hok. destruct (eventRecordHeaderFc ds); [|done]. apply scope_ok_some. tauto. }
  intros r1 p1 Hp1. apply (good_er_info ds); try done; [apply Hp1|by eapply with_classes_keeps|].
  intros cur2 clk2 delay2 n2 r2 p2 Hcur2 Hp2 Hcls2 Hin2. by apply IH.
Qed.

(** ** Packets *)

(** What comes after a packet. *)
Definition after_packet (k : rest) : Prop :=
  forall cur clk info n r p, clean cur -> at_ok p -> time_ok clk = true -> good (state_of cur None None clk (Some info) true false n) Within r [] (Some info) (k p).

Lemma good_next_packet ds info pk ctx (k : rest) : after_packet k -> after_records ds info pk ctx (next_packet k).
Proof.
  intros Hk cur clk delay n r p Hcur Hp Hcls (Hs & Hi & Hctx & Hclk & Hdl & Hsome). unfold next_packet. destruct (Z.eqb_spec (pos p mod 8) 0) as [H8|]; [|by apply good_lax].
  destruct Hp as (Hp1 & Hp2 & Hp3 & Hp4).
  assert (E : emit PktEndItem (fun p => k (PointOf (pos p) 0 (at_dec p))) p = emit PktEndItem (fun _ => k (PointOf (pos p) 0 (at_dec p))) p) by done. rewrite E.
  apply MsgIterAcc.good_emit; [done|]. intros _. destruct (pkt_end_step debug call garbage utf8_from cfg Hclass Hdelay cur pk clk info delay n ctx Hs Hi Hdl Hctx Hclk Hsome)
    as (q & clk' & Hv & Hlq & Hph & Hread & Hclk').
  eapply (good_messages _ _ _ q _ Within (left_later delay ctx) r (left_later delay ctx) []); try done; [by split|unfold tokens_of; by destruct (shown r)|].
  apply Hk; try done. unfold at_ok, pos in *. simpl. repeat split; try done; lia.
Qed.
Lemma good_content_end ds info pk ctx (k : rest) : after_packet k -> after_records ds info pk ctx (content_end data k).
Proof.
  intros Hk cur clk delay n r p Hcur Hp Hcls Hin. unfold content_end.
  assert (Hend : forall p', keeps p p' -> good (state_of cur None (Some pk) clk (Some info) true delay n) (phase_at delay pk) r (left_later delay ctx) (Some info)
    (emit PktContentEndItem (next_packet k) p')).
  { intros p' Hp'. eapply (good_to debug call garbage utf8_from cfg _ _ _ _ (state_of cur None (Some pk) clk (Some info) true delay n)); try done.
    - cbn [handleItem]. unfold handlePktContentEndItem. eapply bind_ret; [reflexivity|]. by apply assert_true.
    - unfold tokens_of. by destruct (shown r).
    - eapply (good_next_packet ds); try done; [apply Hp'|by eapply with_classes_keeps]. }
  destruct (_ =? infDataLen); [by apply Hend, keeps_self|]. destruct (_ || _) eqn:Ho; [by apply good_lax|]. apply orb_false_iff in Ho as [_ Hle]. apply Z.ltb_ge in Hle.
  apply lax_skipping; [lax|done|lia|]. intros p' Hp' _. by apply Hend.
Qed.

Lemma good_pkt_info ds nr cur clk prev pk ctx n r (k : rest) p : good_class ds -> clean cur -> at_ok p -> with_classes ds p -> packet_stream (packet pk) = mStream cfg ->
  read_opt ir_store (context_field pk) = Some ctx -> time_ok clk = true -> after_packet k ->
  good (state_of cur None (Some pk) clk prev true false n) Within r ctx prev (pkt_info data nr k p).
Proof.
  intros Hds Hcur Hp [Hd He] Hs Hctx Hclk Hk. unfold pkt_info. cbv zeta.
  set (d1 := if expectedTotal (at_dec p) =? infDataLen then _ else _). set (d2 := if expectedContent d1 =? infDataLen then _ else _).
  destruct (_ || _); [by apply good_lax|].
  assert (Hd2 : dataStreamCls d2 = Some ds /\ eventRecordCls d2 = eventRecordCls (at_dec p) /\ savedKeyVals d2 = savedKeyVals (at_dec p)).
  { unfold d2, d1. destruct (expectedTotal _ =? _); destruct (expectedContent _ =? _); done. }
  destruct Hd2 as (Hd2 & He2 & Hs2). rewrite Hd2. set (d3 := if has_defClkCls ds then _ else _).
  assert (Hp3 : at_ok (on_dec (fun _ => d3) p) /\ with_classes ds (on_dec (fun _ => d3) p)).
  { unfold at_ok, with_classes, d3 in *. destruct Hp as (? & ? & ? & Hsv). rewrite <- Hs2 in Hsv. destruct (has_defClkCls ds); simpl; rewrite He2; done. }
  destruct Hp3 as [Hp3 Hcls3]. generalize dependent (on_dec (fun _ => d3) p). intros p3 Hp3 Hcls3. apply MsgIterAcc.good_emit; [done|]. intros Hok. cbn [item_ok] in Hok.
  destruct (pkt_info_step debug call garbage utf8_from cfg Hclass Hdelay cur pk clk prev (pktInfo d3) n ctx Hs Hok Hctx Hclk) as (q & clk' & Hv & Hlq & Hph & Hread & Hclk' & Hsome).
  assert (Hpd : ctx ++ tokens_of r (PktInfoItem (pktInfo d3)) = shown_now lt_quirk ctx ++ left_later lt_quirk ctx).
  { assert (E : tokens_of r (PktInfoItem (pktInfo d3)) = []) by (unfold tokens_of; by destruct (shown r)). rewrite E. destruct lt_quirk; simpl; by rewrite ?app_nil_r. }
  eapply (good_messages _ _ _ q _ (phase_at lt_quirk pk)); try done; [by split|]. apply (good_records ds); try done; [|by apply good_content_end].
  split; [done|]. split; [|by repeat split]. unfold info_ok in Hok. by apply andb_true_iff in Hok as [? _].
Qed.

Definition phase_before (emitted : bool) : phase := if emitted then Within else Ready.
Lemma good_class_in ds : ds ∈ dataStreamClasses tc -> dsc_id ds = Msg.sc_id c -> good_class ds.
Proof.
  intros Hds Hid. split; [|by apply Hstream]. unfold trace_cls_ok in Htc. apply andb_true_iff in Htc as [_ Hok]. rewrite forallb_forall in Hok. apply Hok. by apply list_elem_of_In.
Qed.

(** The context of a packet. *)
Lemma good_pkt_ctx ds nr cur clk prev n0 n r (k : rest) p : good_class ds -> clean cur -> at_ok p -> with_classes ds p -> time_ok clk = true -> after_packet k ->
  good (state_of cur None (Some (new_pkt cfg n0)) clk prev true false n) Within r [] prev (scope_field data PktCtx (pktCtxFc ds) (pkt_info data nr k) p).
Proof.
  intros Hds Hcur Hp Hcls Hclk Hk. pose proof Hds as (Hok & Hpl & Htr & _). unfold data_stream_cls_ok in Hok. unfold plain_stream in Hpl.
  apply andb_true_iff in Hok as [[[Hok _]%andb_true_iff _]%andb_true_iff _]. apply andb_true_iff in Hpl as [[Hpl _]%andb_true_iff _]. unfold pkt_ctx_translation in Htr.
  assert (Hnone : packet_context_fc (mStream cfg) = None -> read_opt ir_store (context_field (new_pkt cfg n0)) = Some []) by (unfold new_pkt; simpl; by intros ->).
  assert (Hs : packet_stream (packet (new_pkt cfg n0)) = mStream cfg) by apply Hpacket.
  destruct (pktCtxFc ds) as [fc|].
  - assert (Hms : exists ms a, fc = StructFc ms a) by (simpl in Hok; destruct fc; try done; by do 2 eexists). destruct Hms as (ms & a & ->). apply scope_ok_some in Hok as Hfc.
    destruct (existsb is_translated ms) eqn:Hex.
    + destruct (packet_context_fc (mStream cfg)) as [x|] eqn:Hx; [|done]. destruct (Hfield n0 x (translation_cls _ _ _ Htr)) as [Hready Hcl].
      eapply (good_scope debug call garbage utf8_from cfg data Hbytes Hsize Within prev Hroom PktCtx _ _ (pooled_field n0 x)); try done; [unfold new_pkt; rewrite Hx; done|by rewrite Hcl|].
      intros root' cur' r' p' ts Hr' Hp' Hready' Hcl' Hread Hcur'.
      change (focus PktCtx (state_of cur None (Some (new_pkt cfg n0)) clk prev true false n) root' cur') with
        (state_of cur' None (Some (PacketOf (packet (new_pkt cfg n0)) (Some root'))) clk prev true false n).
      eapply (good_pkt_info ds); try done; [apply Hp'|by eapply with_classes_keeps].
    + eapply (good_skipped_context debug call garbage utf8_from cfg data Hbytes Hsize Within prev ms a); try done; [unfold new_pkt; by rewrite Htr|].
      intros r' p' Hr' Hp'. eapply (good_pkt_info ds); try done; [apply Hp'|by eapply with_classes_keeps|by apply Hnone].
  - cbn [scope_field]. eapply (good_pkt_info ds); try done. by apply Hnone.
Qed.

Lemma good_ds_info nr cur clk prev emitted n0 n r (k : rest) p : clean cur -> at_ok p -> dataStreamCls (at_dec p) = None -> eventRecordCls (at_dec p) = None -> time_ok clk = true ->
  after_packet k ->
  good (state_of cur None (Some (new_pkt cfg n0)) clk prev emitted false n) (phase_before emitted) r [] prev (ds_info tc data nr k p).
Proof.
  intros Hcur Hp Hd He Hclk Hk. unfold ds_info. set (next := fun (cls : option DataStreamCls) (p : Point) => _ : result).
  assert (Hnext : forall cls, (forall ds, cls = Some ds -> ds ∈ dataStreamClasses tc) ->
    good (state_of cur None (Some (new_pkt cfg n0)) clk prev emitted false n) (phase_before emitted) r [] prev (next cls p)).
  2:{ unfold select. destruct (curClsId (at_dec p)) as [id|].
      - destruct (data_stream_cls_by_id tc id) as [ds|] eqn:Hds; [|by apply good_lax]. apply Hnext. intros ? [= <-]. apply find_some in Hds as [Hds _]. by apply list_elem_of_In.
      - rewrite Hd. destruct (dataStreamClasses tc) as [|ds [|]] eqn:Hl; [by apply Hnext|apply Hnext; intros ? [= <-]; by left|by apply good_lax]. }
  intros cls Hcls. unfold next. cbv beta zeta. clear next. set (p1 := on_dec _ p).
  assert (Hp1 : at_ok p1) by done. assert (Hd1 : dataStreamCls (at_dec p1) = cls) by done. assert (He1 : eventRecordCls (at_dec p1) = None) by done.
  generalize dependent p1. intros p1 Hp1 Hd1 He1. apply MsgIterAcc.good_emit; [done|]. intros Hok. destruct cls as [ds|]; [|done].
  pose proof Hok as Hok'. cbn [item_ok] in Hok'. apply andb_true_iff in Hok' as [Hid%Z.eqb_eq _]. pose proof (good_class_in ds (Hcls ds eq_refl) Hid) as Hds.
  assert (Hnil : tokens_of r (DataStreamInfoItem (Some ds) (dataStreamId (at_dec p1))) = []) by (unfold tokens_of; by destruct (shown r)).
  assert (Hrest : forall r, good (state_of cur None (Some (new_pkt cfg n0)) clk prev true false n) Within r [] prev (scope_field data PktCtx (pktCtxFc ds) (pkt_info data nr k) p1)).
  { intros r1. apply (good_pkt_ctx ds); try done. split; [done|]. by rewrite He1. }
  destruct (ds_info_step debug call garbage utf8_from cfg cur (Some (new_pkt cfg n0)) clk prev n ds _ prev Hok) as [Hv1 Hv2]. destruct emitted.
  - eapply (good_messages _ _ (state_of cur None (Some (new_pkt cfg n0)) clk prev true false n) [] _ Within [] r [] []); try done. simpl. lia.
  - eapply (good_messages _ _ (state_of cur None (Some (new_pkt cfg n0)) clk prev true false n) _ _ Within [] r [] []); try done. simpl. lia.
Qed.

Lemma good_packets nr fuel : forall cur clk prev emitted n r p, clean cur -> at_ok p -> time_ok clk = true -> (emitted = false -> at_pkt p < bits_of_data data) ->
  good (state_of cur None None clk prev emitted false n) (phase_before emitted) r [] prev (packets tc data nr fuel p).
Proof.
  induction fuel as [|fuel IH]; intros cur clk prev emitted n r p Hcur Hp Hclk Hem; cbn [packets]; [by apply good_lax|].
  destruct (Z.ltb_spec (at_pkt p) (bits_of_data data)) as [Hlt|Hge].
  2:{ intros _ _. assert (E : emitted = true) by (destruct emitted; [done|]; specialize (Hem eq_refl); lia). by subst. }
  unfold packet. assert (Hnil : forall r i, match i with PktBeginItem | PktContentBeginItem => True | _ => False end -> tokens_of r i = []).
  { intros r0 i Hi. unfold tokens_of. destruct i; try done; by destruct (shown r0). }
  eapply (good_to debug call garbage utf8_from cfg _ _ _ _ (state_of cur None (Some (new_pkt cfg n)) clk prev emitted false (S n))); try done; [by apply pkt_begin_step|by apply Hnil|].
  eapply (good_to debug call garbage utf8_from cfg _ _ _ _ (state_of cur None (Some (new_pkt cfg n)) clk prev emitted false (S n))); try done; [by apply Hnil|].
  assert (Hp1 : at_ok (new_packet p)) by (destruct Hp as (? & ? & ? & ?); by repeat split).
  eapply (good_hidden_scope debug call garbage utf8_from cfg data Hbytes Hsize); try done.
  { unfold trace_cls_ok in Htc. apply andb_true_iff in Htc as [Hok _]. destruct (pktHeaderFc tc); [by apply scope_ok_some|done]. }
  intros r1 p1 Hk1. destruct Hk1 as [E Hp2]. unfold classes_at in E. injection E as E1 E2 _. apply good_ds_info; try done.
  intros cur2 clk2 info n2 r2 p2 Hcur2 Hp3 Hclk2. by apply (IH cur2 clk2 (Some info) true).
Qed.

(** All that is decoded. *)
Lemma good_decode cur : clean cur -> data <> [] -> good (state_of cur None None None None false false 0) Ready (ReadingAt false []) [] None (decode tc data).
Proof.
  intros Hcur Hdata. unfold decode. apply (good_packets _ _ cur None None false 0); try done.
  - unfold at_ok. simpl. repeat split; try done; try lia. apply Forall_replicate. lia.
  - intros _. unfold bits_of_data. destruct data; [done|]. simpl. lia.
Qed.
End decode.
