(* ===== verification/MsgIterClaims.v ===== *)
(** What the CTF message iterator promises: called until it ends, its messages follow the
    message sequence rules and their fields have the values that are decoded.  And what it
    does wrong. *)

From stdpp Require Import list gmap.
From S2P Require Import Prelude Bitfield Object IrObj FieldClass FieldClassFacts Clock Field FieldFacts FieldClaims Msg MsgCreate MsgSeq CtfIr ItemBits.
From S2P Require Import ItemBitsFacts ItemState ItemSeq ItemSpec ItemWp ItemSim ItemStep ItemFollow ItemDecode ItemTotal ItemClaims CtfToIr MsgIter.
From S2P Require Import MsgIterSpec MsgIterAcc MsgIterField MsgIterPackets MsgIterDecode.

(** Calling the CTF message iterator until it ends, on an item sequence iterator that follows
    the reference decoder. *)

(** * Calling the iterator *)

Section messages.
Context {M : Type} `{Medium M} `{CtfLib} `{Pools} `{TraceIr} (debug : bool).
Context (call : func -> addr -> ir -> option ir) (garbage : nat -> Z) (utf8_from : StrEncoding -> list Z -> option (list Z)).
Context (tc : TraceCls) (cfg : MsgIterCfg) (items_fuel : nat).

(** The messages that at most [fuel] calls of [next] give, how many calls threw that the user
    is to try again, and how the calls ended. *)
Fixpoint messages (fuel : nat) (it : MsgIter M) : list CtfMessage * nat * status :=
  match fuel with
  | O => ([], 0%nat, OutOfFuel)
  | S fuel =>
    match MsgIter.next true debug call garbage utf8_from tc cfg items_fuel it with
    | (it, Ret (Some m)) => let '(l, n, st) := messages fuel it in (m :: l, n, st)
    | (_, Ret None) => ([], 0%nat, Finished)
    | (it, Throw TryAgain) => let '(l, n, st) := messages fuel it in (l, S n, st)
    | (_, Throw Error) => ([], 0%nat, Failed)
    | (_, Undefined) => ([], 0%nat, NotDefined)
    end
  end.
End messages.

Section running.
Context {M : Type} `{Medium M} `{CtfLib} `{Pools} `{TraceIr} (debug : bool).
Context (call : func -> addr -> ir -> option ir) (garbage : nat -> Z) (utf8_from : StrEncoding -> list Z -> option (list Z)).
Context (tc : TraceCls) (cfg : MsgIterCfg) (data : list Z) (again : bool) (I : M -> Prop) `{!MediumServes data again I}.
Context (Hbytes : buf_wf 8 data) (Hsize : bits_of_data data <= 2 ^ 62) (Htc : trace_cls_ok tc = true).
Abbreviation c := (stream_class (mStream cfg)).
Abbreviation visit := (visitItem true debug call garbage utf8_from cfg).
Abbreviation acc := (acc debug call garbage utf8_from cfg).
Abbreviation continues := (continues tc data I).
Abbreviation next_loop := (next_loop true debug call garbage utf8_from tc cfg).
Abbreviation next := (MsgIter.next true debug call garbage utf8_from tc cfg).

(** How much there is to handle. *)
Definition left_items (r : result) (it : ItemSeqIter M) : nat := weights (fst r) + left_bits data (point it).

(** What the iterator is to give: messages from the phase [ph] on, which hold the values [vals]. *)
Definition to_give (w : nat) (it : MsgIter M) (ph : phase) (vals : list token) : Prop :=
  exists r rd, continues r (itemSeqIter it) /\ snd r = Finished /\ (left_items r (itemSeqIter it) <= w)%nat /\
    released cfg ph vals (msgState it) (fun ph' later => exists pd, later = pd ++ tokens rd (fst r) /\ isDone (msgState it) = false /\ acc (drain (msgState it)) ph' rd pd (fst r)).

Lemma acc_raw_part s ph rd pd d t l : acc s ph rd pd (RawDataItem (d ++ t) :: l) ->
  wps (visit (RawDataItem d)) s (fun _ s' => isDone s' = false /\ msgQueue s' = [] /\ acc s' ph (read_item rd (RawDataItem d)) pd (RawDataItem t :: l)).
Proof.
  intros (J & HJ & Hstep & Hidle & Hend). eapply wps_mono; [by apply Hstep|]. intros [] s' HJ'. destruct (Hidle t s' HJ') as [Hdone Hq]. split; [done|]. split; [done|].
  exists J. split; [done|]. split; [done|]. split; [done|]. intros s2 HJ2. replace (read_item (read_item rd (RawDataItem d)) (RawDataItem t)) with (read_item rd (RawDataItem (d ++ t))); [by apply Hend|].
  simpl. by rewrite (assoc_L (++)).
Qed.
Lemma acc_raw_whole s ph rd pd d l : acc s ph rd pd (RawDataItem d :: l) ->
  wps (visit (RawDataItem d)) s (fun _ s' => isDone s' = false /\ msgQueue s' = [] /\ acc s' ph (read_item rd (RawDataItem d)) pd l).
Proof.
  intros (J & HJ & Hstep & Hidle & Hend). rewrite <- (app_nil_r d) in HJ. eapply wps_mono; [by apply (Hstep d [])|]. intros [] s' HJ'. destruct (Hidle [] s' HJ') as [Hdone Hq].
  split; [done|]. split; [done|]. by apply Hend.
Qed.

Lemma tokens_raw rd d l : tokens rd (RawDataItem d :: l) = tokens (read_item rd (RawDataItem d)) l.
Proof. cbn [tokens]. unfold tokens_of. by destruct (shown rd). Qed.

(** Handling an item that the item sequence iterator gives. *)
Lemma visit_given i r r' s ph rd pd p p' : delivers1 i p p' r r' -> snd r = Finished -> idle s -> acc s ph rd pd (fst r) ->
  wps (visit i) s (fun _ s' => released cfg ph (pd ++ tokens rd (fst r)) s' (fun ph' later =>
    exists pd', later = pd' ++ tokens (read_item rd i) (fst r') /\ isDone s' = false /\ acc (drain s') ph' (read_item rd i) pd' (fst r'))).
Proof.
  intros Hdel Hr Hidle Hacc. destruct Hdel as [l st|d t l st -> Hd Ht|d -> Hlt]; [| |done]; cbn [fst] in *.
  - destruct (is_raw_data i) eqn:Hi.
    + destruct i; try done. eapply wps_mono; [by apply acc_raw_whole|]. intros [] s' (Hdone & Hq & Hacc'). apply released_nothing; [done|].
      exists pd. rewrite tokens_raw. split; [done|]. split; [done|]. by rewrite drain_id.
    + assert (Hw : wps (visit i) s (fun _ s' => released cfg ph (pd ++ tokens_of rd i) s' (fun ph' pd' => isDone s' = false /\ acc (drain s') ph' (read_item rd i) pd' l))) by (by destruct i).
      eapply wps_mono; [exact Hw|]. intros [] s' (Hlen & ph' & q & pd' & Hph & Hq & E & Hdone & Hacc'). split; [done|]. exists ph', q, (pd' ++ tokens (read_item rd i) l).
      split; [done|]. split; [done|]. split; [cbn [tokens]; by rewrite !(assoc_L (++)), E|]. by exists pd'.
  - eapply wps_mono; [by apply acc_raw_part|]. intros [] s' (Hdone & Hq & Hacc'). apply released_nothing; [done|].
    exists pd. rewrite !tokens_raw. cbn [read_item shown string_bytes]. split; [by rewrite (assoc_L (++))|]. split; [done|]. by rewrite drain_id.
Qed.

(** What a call leaves. *)
Definition call_ok (w : nat) (ph : phase) (vals : list token) (x : MsgIter M * outcome (option CtfMessage)) : Prop :=
  match x with
  | (it', Ret (Some m)) => exists ph' a vals', phase_step c ph (the_message m) = Some ph' /\ read_message ir_store m = Some a /\ vals = a ++ vals' /\
      (isDone (msgState it') = true /\ ph' = Ended /\ vals' = [] \/
       exists w', (4 * w' + length (msgQueue (msgState it')) < w)%nat /\ to_give w' it' ph' vals')
  | (it', Throw TryAgain) => again = true /\ exists w', (4 * w' + length (msgQueue (msgState it')) <= w)%nat /\ to_give w' it' ph vals
  | _ => False
  end.

(** The first message of the queue. *)
Lemma release_first w w' it ph vals m q : to_give w' it ph vals -> msgQueue (msgState it) = m :: q -> (4 * w' + length q < w)%nat ->
  call_ok w ph vals (MsgIterOf (itemSeqIter it) (with_msgQueue q (msgState it)), Ret (Some m)).
Proof.
  intros (r & rd & Hc & Hr & Hw & Hlen & ph' & a & later & Hph & Hread & -> & pd & -> & Hdone & Hacc) Hq Hlt. rewrite Hq in *. simpl in Hph, Hread, Hlen.
  destruct (phase_step c ph (the_message m)) as [ph1|] eqn:Hstep; [|done]. destruct (read_message ir_store m) as [a1|] eqn:Ha1; [|done].
  destruct (read_messages ir_store q) as [a2|] eqn:Ha2; [|done]. injection Hread as <-. exists ph1, a1, (a2 ++ pd ++ tokens rd (fst r)). split; [done|]. split; [done|].
  split; [by rewrite <- (assoc_L (++))|]. right. exists w'. split; [by destruct (msgState it)|]. exists r, rd. split; [done|]. split; [done|]. split; [done|].
  cbn [msgState itemSeqIter]. assert (E : msgQueue (with_msgQueue q (msgState it)) = q) by (by destruct (msgState it)). unfold released. rewrite E. split; [simpl in Hlen; lia|].
  exists ph', a2, (pd ++ tokens rd (fst r)). split; [done|]. split; [done|]. split; [done|]. exists pd. split; [done|].
  split; [by destruct (msgState it)|]. by destruct (msgState it).
Qed.

Lemma released_idle ph vals s (K : phase -> list token -> Prop) : msgQueue s = [] -> released cfg ph vals s K -> K ph vals.
Proof. intros Hq (_ & ph' & q & later & Hph & Hread & -> & HK). rewrite Hq in *. injection Hph as <-. injection Hread as <-. exact HK. Qed.

Lemma to_give_intro w it ph vals r rd pd : continues r (itemSeqIter it) -> snd r = Finished -> (left_items r (itemSeqIter it) <= w)%nat -> idle (msgState it) ->
  vals = pd ++ tokens rd (fst r) -> acc (msgState it) ph rd pd (fst r) -> to_give w it ph vals.
Proof.
  intros Hc Hr Hw [Hd Hq] -> Hacc. exists r, rd. split; [done|]. split; [done|]. split; [done|]. apply released_nothing; [done|]. exists pd. by rewrite drain_id.
Qed.
Lemma to_give_mono w w' it ph vals : to_give w it ph vals -> (w <= w')%nat -> to_give w' it ph vals.
Proof. intros (r & rd & Hc & Hr & Hw & Hrest) Hle. exists r, rd. split; [done|]. split; [done|]. split; [lia|done]. Qed.

Lemma call_ok_mono w w' ph vals x : call_ok w ph vals x -> (w <= w')%nat -> call_ok w' ph vals x.
Proof.
  destruct x as [it [[m|]|[|]|]]; try done.
  - intros (ph' & a & vals' & ? & ? & ? & [Hdone|(w1 & ? & ?)]) Hle; exists ph', a, vals'; (split; [done|]); (split; [done|]); (split; [done|]); [by left|].
    right. exists w1. split; [lia|done].
  - intros (? & w1 & ? & ?) Hle. split; [done|]. exists w1. split; [lia|done].
Qed.
Lemma visit_content_end s Q : wps (visit PktContentEndItem) s Q -> Q tt s.
Proof.
  unfold wps, visitItem, bind, gets. destruct (negb _ || _); [|done]. cbn [handleItem]. unfold handlePktContentEndItem, bind, gets, assert_dbg. by destruct (debug && _).
Qed.
Lemma read_nothing rd l : tokens rd (PktContentEndItem :: l) = tokens rd l.
Proof. cbn [tokens]. unfold tokens_of. by destruct (shown rd). Qed.

Lemma items_before_message_ok fuel : forall it ph vals w, to_give w it ph vals -> msgQueue (msgState it) = [] -> (w < fuel)%nat -> call_ok (4 * w) ph vals (next_loop fuel it).
Proof.
  induction fuel as [|fuel IH]; intros it ph vals w (r & rd & Hc & Hr & Hw & Hrel) Hq Hfuel; [lia|]. apply released_idle in Hrel as (pd & -> & Hdone & Hacc); [|done].
  rewrite drain_id in Hacc by done. pose proof (next_enough_fuel debug tc data again I Hbytes Hsize Htc _ r Hc) as Hn.
  assert (Hok : ok r) by (unfold ok; by rewrite Hr). specialize (Hn Hok). unfold wp in Hn. cbn [MsgIter.next_loop]. unfold bind at 1, next_item.
  destruct (ItemSeq.next debug tc (itemSeqIter it)) as [it1 [[i|]|[|]|]]; simpl in Hn.
  - destruct Hn as (Hp & r' & Hdel & Hc'). pose proof (delivers_weights tc data Htc _ _ _ _ _ Hp ltac:(by eapply continues_pos) Hdel) as Hlt.
    pose proof (visit_given i r r' (msgState it) ph rd pd _ _ Hdel Hr (conj Hdone Hq) Hacc) as Hv. unfold wps in Hv. unfold bind at 1, on_state at 1. cbn [msgState itemSeqIter].
    destruct (visit i (msgState it)) as [s' [[]|e|]]; try done.
    assert (Hgive : to_give (w - 1) (MsgIterOf it1 s') ph (pd ++ tokens rd (fst r))).
    { exists r', (read_item rd i). split; [done|]. split; [|split; [unfold left_items in *; cbn [itemSeqIter]; lia|exact Hv]]. by destruct Hdel. }
    assert (Hw1 : (1 <= w)%nat) by (unfold left_items in *; lia).
    unfold bind at 1, on_state at 1. cbn [msgState itemSeqIter]. unfold releaseNextMsg. unfold bind at 1, gets at 1. destruct (msgQueue s') as [|m q] eqn:Hqs.
    + cbn [ret]. eapply call_ok_mono; [apply IH; [exact Hgive|done|lia]|lia].
    + unfold bind, modify, ret. apply (release_first _ (w - 1) (MsgIterOf it1 s')); [done|done|]. destruct Hgive as (_ & _ & _ & _ & _ & Hlen & _). cbn [msgState] in Hlen. rewrite Hqs in Hlen.
      simpl in Hlen. unfold left_items in *. lia.
  - subst r. cbn [fst] in *. destruct Hacc as (_ & _ & -> & ->). unfold bind, on_state, modify, ret. cbn [call_ok msgState itemSeqIter]. exists Ended, [], []. split; [done|]. split; [done|].
    split; [done|]. left. by destruct (msgState it).
  - by subst r.
  - destruct Hn as (Hag & Hp & Hn). split; [done|]. cbn [msgState itemSeqIter]. exists w. split; [rewrite Hq; simpl; lia|].
    assert (Hl : (left_bits data (point it1) <= left_bits data (point (itemSeqIter it)))%nat) by (unfold left_bits; lia).
    destruct Hn as [Hc'|(l & st & -> & Hc')].
    + eapply to_give_intro; try done. unfold left_items in *. cbn [itemSeqIter]. lia.
    + cbn [fst] in *. eapply (to_give_intro _ _ _ _ (l, st) rd pd); try done.
      * unfold left_items, weights in *. cbn [itemSeqIter fst sum_list_with] in *. simpl in Hw. lia.
      * by rewrite read_nothing.
      * apply visit_content_end in Hacc. apply released_idle in Hacc as (_ & Hacc); [|done]. cbn [msgState]. rewrite drain_id in Hacc by done.
        unfold tokens_of in Hacc. assert (E : (if shown rd then item_tokens (string_bytes rd) PktContentEndItem else []) = []) by (by destruct (shown rd)). by rewrite E, app_nil_r in Hacc.
  - done.
Qed.
Lemma next_ok fuel it ph vals w : to_give w it ph vals -> (w < fuel)%nat -> call_ok (4 * w + length (msgQueue (msgState it))) ph vals (next fuel it).
Proof.
  intros Hg Hfuel. pose proof Hg as (r & rd & Hc & Hr & Hw & Hlen & ph' & a & later & Hph & Hread & E & pd & E' & Hdone & Hacc).
  unfold MsgIter.next. unfold bind at 1, gets at 1. rewrite Hdone. unfold bind at 1, on_state at 1, releaseNextMsg. unfold bind at 1, gets at 1. destruct (msgQueue (msgState it)) as [|m q] eqn:Hq.
  - cbn [ret]. replace (MsgIterOf (itemSeqIter it) (msgState it)) with it by (by destruct it). rewrite Nat.add_0_r. by apply items_before_message_ok.
  - unfold bind, modify, ret. eapply release_first; [exact Hg|done|]. simpl. lia.
Qed.

(** All the calls. *)
Lemma messages_give items_fuel fuel : forall it ph vals w, to_give w it ph vals -> (w < items_fuel)%nat ->
  let '(l, n, st) := messages debug call garbage utf8_from tc cfg items_fuel fuel it in
  (exists ph' a vals', phase_run c ph (the_message <$> l) = Some ph' /\ read_messages ir_store l = Some a /\ vals = a ++ vals' /\
     (st = OutOfFuel \/ st = Finished /\ ph' = Ended /\ vals' = [])) /\
  (again = false -> n = 0%nat) /\ ((4 * w + length (msgQueue (msgState it)) + n + 2 <= fuel)%nat -> st = Finished).
Proof.
  induction fuel as [|fuel IH]; intros it ph vals w Hg Hw; cbn [messages].
  { split; [|split; [done|lia]]. exists ph, [], vals. repeat split. by left. }
  pose proof (next_ok items_fuel it ph vals w Hg Hw) as Hn.
  destruct (next items_fuel it) as [it' [[m|]|[|]|]] eqn:Hnext; try done; cbn [call_ok] in Hn.
  - destruct Hn as (ph1 & a & vals1 & Hstep & Ha & -> & [(Hdone & -> & ->)|(w1 & Hlt & Hg1)]).
    + assert (E : messages debug call garbage utf8_from tc cfg items_fuel fuel it' = ([], 0%nat, match fuel with O => OutOfFuel | _ => Finished end)).
      { destruct fuel as [|fuel']; [done|]. cbn [messages]. unfold MsgIter.next. unfold bind at 1, gets at 1. by rewrite Hdone. }
      rewrite E. split; [|split; [done|destruct fuel; [lia|done]]]. exists Ended, a, []. split; [simpl; by rewrite Hstep|]. split; [simpl; rewrite Ha; by rewrite app_nil_r|]. split; [done|].
      destruct fuel; [by left|by right].
    + specialize (IH it' ph1 vals1 w1 Hg1). destruct (messages _ _ _ _ _ _ _ fuel it') as [[l n] st]. destruct IH as ((ph' & b & vals' & Hph & Hread & -> & Hst) & Hn & Hfin).
      { destruct Hg as (? & ? & ? & ? & ? & Hlen & _), Hg1 as (? & ? & ? & ? & ? & Hlen1 & _). lia. }
      split; [|split; [done|intros; apply Hfin; lia]]. exists ph', (a ++ b), vals'. simpl. rewrite Hstep, Ha, Hread, <- (assoc_L (++)). by repeat split.
  - destruct Hn as (Hag & w1 & Hle & Hg1). specialize (IH it' ph vals w1 Hg1). destruct (messages _ _ _ _ _ _ _ fuel it') as [[l n] st]. destruct IH as (Hrest & Hn & Hfin).
    { destruct Hg as (? & ? & ? & ? & ? & Hlen & _), Hg1 as (? & ? & ? & ? & ? & Hlen1 & _). lia. }
    split; [done|]. split; [by rewrite Hag|]. intros. apply Hfin. lia.
Qed.
End running.

(** What the CTF message iterator promises: its messages follow the message sequence rules
    and their fields have the values that are decoded. *)

Section claims.
Context {M : Type} `{Medium M} `{CtfLib} `{Pools} `{TraceIr} (debug again : bool).
Context (call : func -> addr -> ir -> option ir) (garbage : nat -> Z) (utf8_from : StrEncoding -> list Z -> option (list Z)).
Context (tc : TraceCls) (cfg : MsgIterCfg) (data : list Z) (I : M -> Prop).
Abbreviation c := (stream_class (mStream cfg)).

(** The bytes, which are fewer than 2^31. *)
Context (Hbytes : buf_wf 8 data) (Hsize : bits_of_data data <= 2 ^ 34) (Hdata : data <> []).
(** The library: there is room for the references to the classes of the elements of arrays;
    what the pools give is a packet of the stream and unfrozen well-typed fields. *)
Context (Hroom : forall a type e x, cls ir_store a = Some (type, DynamicArrayContents e x) -> roomy ir_store class_depth e).
Context (Hpacket : forall n s, packet_stream (pooled_packet n s) = s).
Context (Hfield : forall n a, is_Some (cls ir_store a) -> ready ir_store (pooled_field n a) /\ class_of (pooled_field n a) = a).
(** The class of the stream, which is the translation of its data stream class. *)
Context (Hclass : class_ok c = true).
Context (Hdelay : eventRecordDefClkValLtPktBeginDefClkVal (quirks cfg) = true ->
  packets_have_beginning_default_clock_snapshot c = true \/ default_clock_class c = None).
Context (Htc : trace_cls_ok tc = true).
Context (Hstream : forall ds, ds ∈ dataStreamClasses tc -> dsc_id ds = Msg.sc_id c -> plain_stream ds = true /\ translated_stream (mStream cfg) ds).
(** The data is without errors and about the stream. *)
Context (Hfinished : snd (decode tc data) = Finished) (Hitems : items_ok debug c (stream_id (mStream cfg)) None (fst (decode tc data)) = true).

(** C5: Whatever its medium serves data in, refusals included, the iterator called until it
    ends gives messages that follow the message sequence rules of its stream, and the fields
    that they hold have, in order, the values of the items of the reference decoder; the
    number of calls is bounded, nothing is undefined and no precondition of the library
    fails. *)
Theorem messages_are_decoded `{!MediumServes data again I} m items_fuel fuel :
  I m -> (weights (fst (decode tc data)) + 8 * length data < items_fuel)%nat ->
  let '(l, n, st) := messages debug call garbage utf8_from tc cfg items_fuel fuel (MsgIter.new_iter tc m) in
  (again = false -> n = 0%nat) /\
  ((4 * (weights (fst (decode tc data)) + 8 * length data) + n + 2 <= fuel)%nat ->
   st = Finished /\ stream_sequence c (the_message <$> l) /\ read_messages ir_store l = Some (all_tokens (fst (decode tc data)))).
Proof.
  intros Hm Hfuel. assert (Hsize' : bits_of_data data <= 2 ^ 62) by (transitivity (2 ^ 34); [done|by apply Z.leb_le]).
  assert (Hg : to_give debug call garbage utf8_from tc cfg data I (weights (fst (decode tc data)) + 8 * length data) (MsgIter.new_iter tc m) Ready
                 (all_tokens (fst (decode tc data)))).
  { apply (to_give_intro debug call garbage utf8_from tc cfg data I _ _ _ _ (decode tc data) (ReadingAt false []) []); try done.
    - by apply continues_new.
    - unfold left_items, left_bits, bits_of_data, pos. simpl. lia.
    - by apply (good_decode debug call garbage utf8_from cfg tc data Hbytes Hsize Hroom Hpacket Hfield Hclass Hdelay Htc Hstream new_cursor). }
  pose proof (messages_give debug call garbage utf8_from tc cfg data again I Hbytes Hsize' Htc items_fuel fuel _ _ _ _ Hg Hfuel) as Hrun.
  destruct (messages _ _ _ _ _ _ _ _ _) as [[l n] st]. destruct Hrun as ((ph & a & vals & Hph & Hread & E & Hst) & Hn & Hfin). split; [done|]. intros Hle.
  specialize (Hfin ltac:(simpl; lia)). subst st. destruct Hst as [|(_ & -> & ->)]; [done|]. rewrite app_nil_r in E. subst. split; [done|]. split; [|done]. by apply sequence_run.
Qed.
End claims.

(** * An example *)

(** Two packets with times, a count of discarded event records and a field in their contexts;
    event records with two strings, an integer of 13 bits, an array and an option. *)
Definition mi_payload : Fc :=
  StructFc [DynLenStrFc Utf8 (Some 0%nat); NullTerminatedStrFc Utf8; FixedLenFc (FixedLen SInt 1 13 Big None [] []);
            DynLenArrayFc (u8 [] []) 1 (Some 0%nat); OptionalFc BoolSel (u8 [] []) [] (Some 0%nat)] 8.
Definition mi_ds : DataStreamCls :=
  DataStreamClsOf 0
    (Some (StructFc [u8 [PktTotalLen] []; u8 [PktContentLen] []; u8 [DefClkTs] []; u8 [PktEndDefClkTs] []; u8 [DiscEventRecordCounterSnap] []; u8 [] []] 1))
    (Some (StructFc [u8 [DefClkTs] []; u8 [] [0%nat]] 1)) None true [EventRecordClsOf 0 None (Some mi_payload)].
Definition mi_tc : TraceCls := TraceClsOf (Some (StructFc [FixedLenFc (FixedLen UInt 8 32 Big None [PktMagicNumber] [])] 1)) [mi_ds] 1.
Definition mi_data : list Z :=
  [193; 252; 31; 193; 168; 168; 5; 19; 0; 77; 7; 2; 65; 66; 97; 0; 255; 248; 1; 2; 9] ++ [193; 252; 31; 193; 80; 80; 20; 30; 3; 78].

Definition mi_store : ir := list_to_map
  [(1%positive, FieldClaims.ex_class BT_FIELD_CLASS_TYPE_STRUCTURE (ContainerContents ∅ [NamedFieldClass (Some [97]) 2%positive false None] None));
   (2%positive, FieldClaims.ex_class BT_FIELD_CLASS_TYPE_UNSIGNED_INTEGER (IntegerContents 8 0 10));
   (3%positive, FieldClaims.ex_class BT_FIELD_CLASS_TYPE_STRUCTURE
      (ContainerContents ∅ ((fun a => NamedFieldClass (Some [Z.pos a]) a false None) <$> [4; 4; 5; 6; 7]%positive) None));
   (4%positive, FieldClaims.ex_class BT_FIELD_CLASS_TYPE_STRING NoContents);
   (5%positive, FieldClaims.ex_class BT_FIELD_CLASS_TYPE_SIGNED_INTEGER (IntegerContents 13 0 10));
   (6%positive, FieldClaims.ex_class BT_FIELD_CLASS_TYPE_DYNAMIC_ARRAY_WITHOUT_LENGTH_FIELD (DynamicArrayContents 2%positive None));
   (7%positive, FieldClaims.ex_class BT_FIELD_CLASS_TYPE_OPTION_WITHOUT_SELECTOR_FIELD (OptionContents 2%positive None false None))].
Definition mi_event_class : bt_event_class := BtEventClass 0 None None None.
#[local] Instance mi_lib : CtfLib := {|
  ir_store := mi_store; class_depth := 3; stream_id := fun _ => 0;
  packet_context_fc := fun _ => Some 1%positive; event_common_context_fc := fun _ => None;
  ec_libCls := fun _ => Some mi_event_class; event_class_is_of := fun _ _ => true;
  specific_context_fc := fun _ => None; payload_fc := fun _ => Some 3%positive |}.
#[local] Instance mi_pools : Pools := {|
  pooled_packet := fun _ s => s;
  pooled_field := fun _ a =>
    match bt_field_create true 3 mi_store a with Some (f, _) => f | None => SingleField (FieldCommon a false false) (BoolField false) end |}.
#[local] Instance mi_ir : TraceIr := {| stream_class := fun _ => translate_data_stream_cls None ex_clock mi_ds; packet_stream := fun p => p |}.
Definition mi_cfg : MsgIterCfg := MsgIterCfgOf 1%positive None (MsgIterQuirksOf false false false).
Definition mi_medium (r : bool) : BufMedium := BufMediumOf mi_data 3 r 0.
Abbreviation mi_messages data r fuel :=
  (messages true (fun _ _ _ => None) (fun _ => 0) (fun _ _ => None) mi_tc mi_cfg fuel fuel (MsgIter.new_iter mi_tc (BufMediumOf data 3 r 0))).

Lemma mi_keys a : is_Some (mi_store !! a) -> a ∈ [1; 2; 3; 4; 5; 6; 7]%positive.
Proof.
  intros [o Ho]. unfold mi_store in Ho. apply elem_of_list_to_map_2 in Ho. by apply (list_elem_of_fmap_2 fst) in Ho.
Qed.
Ltac class_tree := eexists _, _; split; [reflexivity|]; split; [vm_compute; intuition congruence|repeat apply Forall_cons_2; try apply Forall_nil_2; class_tree].
Lemma mi_roomy a : is_Some (cls mi_store a) -> roomy mi_store 3 a.
Proof.
  intros Ha. assert (Hin : a ∈ [1; 2; 3; 4; 5; 6; 7]%positive).
  { apply mi_keys. unfold cls, get_fc in Ha. destruct (mi_store !! a); [done|]. by destruct Ha. }
  assert (Hall : Forall (roomy mi_store 3) [1; 2; 3; 4; 5; 6; 7]%positive).
  { repeat apply Forall_cons_2; try apply Forall_nil_2; (split; [class_tree|]);
      match goal with |- Forall ?P ?l => let l' := eval vm_compute in l in change (Forall P l') end;
      repeat apply Forall_cons_2; try apply Forall_nil_2; (eexists; split; [reflexivity|]; by vm_compute). }
  rewrite Forall_forall in Hall. by apply Hall.
Qed.
Lemma mi_room a type e x : cls mi_store a = Some (type, DynamicArrayContents e x) -> roomy mi_store 3 e.
Proof.
  intros Ha. destruct (mi_roomy a (mk_is_Some _ _ Ha)) as [(type' & d & Hc & _ & Hl) _]. rewrite Ha in Hc. injection Hc as <- <-.
  apply Forall_cons in Hl as [(type' & d & Hc & _) _]. apply mi_roomy. by rewrite Hc.
Qed.
Lemma mi_fields n a : is_Some (cls mi_store a) -> ready mi_store (pooled_field n a) /\ class_of (pooled_field n a) = a.
Proof.
  intros Ha. destruct (create_elements mi_store true 3 a 1 (mi_roomy a Ha) ltac:(by vm_compute)) as (fs & h' & Hfs & Hcl & Hr). cbn [create_all replicate] in Hfs.
  unfold pooled_field, mi_pools. destruct (bt_field_create true 3 mi_store a) as [[f h]|]; [|done]. injection Hfs as <- <-. injection Hcl as Hcl.
  by apply Forall_cons in Hr as [Hr _].
Qed.
Lemma mi_stream ds : ds ∈ dataStreamClasses mi_tc -> dsc_id ds = Msg.sc_id (stream_class (mStream mi_cfg)) -> plain_stream ds = true /\ translated_stream (mStream mi_cfg) ds.
Proof.
  intros ->%list_elem_of_singleton _. split; [by vm_compute|]. split; [|split; [done|]].
  - eexists _, _. split; [reflexivity|]. split; [done|]. cbn. split; [|done]. eexists _, _. split; [reflexivity|]. by split.
  - apply Forall_singleton. exists mi_event_class. split; [done|]. split; [done|]. split; [done|]. eexists _, _. split; [reflexivity|]. split; [done|].
    cbn. repeat split; try (eexists _, _; split; [reflexivity|]); try done.
    all: split; [done|]. all: eexists _, _; split; [reflexivity|]; by split.
Qed.

Lemma mi_requests : snd (fst (mi_messages mi_data true 1400)) = 11%nat.
Proof. by vm_compute. Qed.
Lemma mi_tokens : all_tokens (fst (decode mi_tc mi_data)) =
  [TInt 77; TString [65; 66]; TString [97]; TInt (-1); TLength 2; TInt 1; TInt 2; THasField true; TInt 9; TInt 78].
Proof. by vm_compute. Qed.

Lemma messages_are_decoded_witness :
  exists l n, mi_messages mi_data true 1400 = (l, n, Finished) /\ stream_sequence (stream_class 1%positive) (the_message <$> l) /\
    read_messages mi_store l = Some [TInt 77; TString [65; 66]; TString [97]; TInt (-1); TLength 2; TInt 1; TInt 2; THasField true; TInt 9; TInt 78].
Proof.
  pose proof (messages_are_decoded true true (fun _ _ _ => None) (fun _ => 0) (fun _ _ => None) mi_tc mi_cfg mi_data (fun m => served m = mi_data /\ refuses m = true)
    ltac:(repeat constructor; lia) ltac:(by vm_compute) ltac:(done) mi_room (fun _ _ => eq_refl) mi_fields eq_refl ltac:(done) ltac:(by vm_compute) mi_stream
    ltac:(by vm_compute) ltac:(by vm_compute) (BufMediumOf mi_data 3 true 0) 1400 1400 ltac:(by split) ltac:(apply Nat.ltb_lt; by vm_compute)) as H.
  pose proof mi_requests as Hn. rewrite mi_tokens in H.
  destruct (messages _ _ _ _ _ _ _ _ _) as [[l n] st]. cbn [fst snd] in Hn. subst n. destruct H as [_ H].
  destruct H as (-> & Hseq & Hread); [apply Nat.leb_le; by vm_compute|]. by exists l, 11%nat.
Defined.

(** What the CTF message iterator does against the rules or against its own conditions, on
    variants of the example of [MsgIterClaims]. *)

(** Streams of the class [ds]: their messages for the data. *)
Definition ds_ir (ds : DataStreamCls) : TraceIr := {| stream_class := fun _ => translate_data_stream_cls None ex_clock ds; packet_stream := fun p => p |}.
Definition messages_of (ds : DataStreamCls) (data : list Z) : list CtfMessage * status :=
  let tc := TraceClsOf (pktHeaderFc mi_tc) [ds] 1 in
  let '(l, _, st) := messages (H0 := mi_lib) (H1 := mi_pools) (H2 := ds_ir ds) true (fun _ _ _ => None) (fun _ => 0) (fun _ _ => None) tc mi_cfg 1400 1400
    (MsgIter.new_iter tc (BufMediumOf data 3 false 0)) in (l, st).
Definition with_magic (b : Z) (data : list Z) : list Z := match data with _ :: data => b :: data | [] => [] end.

(** The magic number of a packet is not checked: the item is skipped. *)
Theorem magic_number_is_not_checked :
  messages_of mi_ds (with_magic 0 mi_data) = messages_of mi_ds mi_data /\ snd (messages_of mi_ds mi_data) = Finished /\ length (fst (messages_of mi_ds mi_data)) = 8%nat.
Proof. split; [|split]; by vm_compute. Qed.

(** The packet context of a data stream class with a clock has no beginning timestamp: the
    first packet makes a precondition of the library fail. *)
Definition no_beginning : DataStreamCls :=
  DataStreamClsOf 0 (Some (StructFc [u8 [PktTotalLen] []; u8 [PktContentLen] []; u8 [] []] 1)) (eventRecordHeaderFc mi_ds) None true (eventRecordClasses mi_ds).
Theorem packets_without_beginning_time_fail :
  let data := [193; 252; 31; 193; 56; 56; 77] in
  snd (decode (TraceClsOf (pktHeaderFc mi_tc) [no_beginning] 1) data) = Finished /\ snd (messages_of no_beginning data) = NotDefined.
Proof. split; by vm_compute. Qed.

(** A data stream without a packet ends without a beginning. *)
Theorem empty_stream_has_no_beginning :
  let l := the_message <$> fst (messages_of mi_ds []) in
  (exists s cs b, l = [StreamEnd s cs b]) /\ snd (messages_of mi_ds []) = Finished /\ phase_run (translate_data_stream_cls None ex_clock mi_ds) Ready l = None.
Proof. split; [do 3 eexists; by vm_compute|]. split; by vm_compute. Qed.

(** Event records were discarded and the end time of the packet is before that of the last
    packet: a precondition of the library fails. *)
Theorem discarded_events_back_in_time_fail :
  let data := [193; 252; 31; 193; 80; 80; 5; 19; 0; 77] ++ [193; 252; 31; 193; 80; 80; 6; 7; 3; 78] in
  snd (decode mi_tc data) = Finished /\ snd (messages_of mi_ds data) = NotDefined.
Proof. split; by vm_compute. Qed.
